(* ===== verification/_CoqProject ===== *)
-Q . S2P
Prelude.v
Digits.v
U128.v
Wide.v
Hash.v
Decimal.v
DecMath.v
DecimalProofs.v
DecimalDiv.v
Text.v
TextProofs.v
DecText.v
DecimalTheorems.v
TextTheorems.v
Str.v
StrProofs.v
StrTheorems.v
Slots.v
Mem.v
ListRt.v
ListRtProofs.v
ListOwn.v
ListTheorems.v
ListSort.v
RadixProofs.v
SortTheorems.v
MapRt.v
MapProofs.v
MapOps.v
MapSpec.v
MapTheorems.v
Bytes.v
BytesProofs.v
BytesTheorems.v
Heap.v
HeapSum.v
HeapInv.v
CtrlInv.v
ReleaseProofs.v
Collector.v
MarkProofs.v
CycleProofs.v
CollectProofs.v
Handles.v
HandleProofs.v
HeapSteps.v
WeakTable.v
HeapTheorems.v
Chan.v
ChanProofs.v
ChanTheorems.v
Sleep.v
SleepProofs.v
Fiber.v
FiberProofs.v
FiberLinks.v
FiberTheorems.v
TaskGroup.v
TaskGroupProofs.v
TaskGroupTheorems.v
JsonScan.v
JsonOut.v
JsonText.v
JsonEnc.v
JsonSim.v
JsonPaths.v
JsonTheorems.v
JsonDec.v
JsonRead.v
JsonDecSpec.v
JsonDecProofs.v
JsonDecTheorems.v
Reflect.v
ReflectProofs.v
ReflectQueries.v
ReflectCall.v
ReflectTheorems.v
Show.v
ShowTheorems.v
Width.v
