(* ===== verification/Prelude.v ===== *)
(** * The Beans runtime: a verification of its core

    Beans compiles to native code that calls a C runtime.  This library models
    the runtime's own logic and proves what the compiled program relies on.
    The sources are [src/runtime/beans_rt.c] ("the runtime file" below),
    [src/runtime/beans_fiber.c] with its header, and
    [src/runtime/encoding/beans_enc_json.c].  A definition has the name of the
    C function it translates, or of the loop of that function it is; each
    file's own comment says which section of the source it covers.

    ** Conventions

    A C integer is a [Z] with its wrap-around written out, a Beans string or a
    block of memory a list of bytes.  An entry that can call [beans_panic]
    returns [result]: a value, or [Panic] with its message and place.  [None]
    stands for what C leaves undefined (an access outside a block, a dead
    object, a pointer that names nothing) and for a loop that runs out of
    fuel; the theorems show that neither happens.  What the compiler emits
    (deinit bodies, comparators, thunks, getters, show steps, JSON schemas),
    the host (allocators, cells a fresh block starts with) and yyjson are
    parameters; what is assumed of them is a named hypothesis, and each theorem
    with hypotheses has a witness at a concrete instance.

    ** The parts and how they interact

    - Numbers and text.  [U128], [Wide] (two and eight 64-bit limbs), [Decimal]
      (the 38-digit decimals), [DecText], [Text] (integer text, formats,
      interpolation), [Str] (string entries), [Width] (terminal columns and
      padding).  [Digits] and [DecMath] are the mathematics they are specified
      with; [DecimalProofs], [DecimalDiv], [TextProofs] and
      [StrProofs] carry the proofs.
    - Containers.  [Mem] (byte memory, the allocator), [Slots] (order, equality
      and hashing by kind code, with the interfaces [SlotOrder] and [KeyOps]
      through which sorts and maps see their elements), [Hash], [ListRt],
      [ListSort], [MapRt], [Bytes].  A map is a flat entry array under an
      open-addressed index; what it means is its list of live entries
      ([MapProofs], [MapOps], [MapSpec]).  A list means its elements
      ([rep], [ListRtProofs]), and owns their masked pointers ([ListOwn]).
    - Memory management.  [Heap] (headers, counts, release), [Handles] (weak
      and shared handles), [WeakTable] (the side table that implements the map
      [weak_entries] of [Heap]), [Collector] (trial deletion).  The invariant
      is [HeapInv] and [CtrlInv]; [ReleaseProofs], [HandleProofs], [MarkProofs], [CycleProofs] and [CollectProofs] show that every operation
      keeps it and ends; [HeapSteps] is a program over the heap.
    - Concurrency.  [Sleep] (the timer heap), [Fiber] (one scheduler and the
      threads that wake its fibers, one shared access per step), [Chan]
      (channels and gates, one function per stretch under the mutex),
      [TaskGroup] (brewed fibers and their groups, above the fiber core).
    - Display.  [Show]: the iterative driver and the joins of lists and maps.
    - Typed JSON.  [JsonScan], [JsonOut], [JsonEnc]: the direct writer, the tree
      of the path through yyjson, and the choice between them; [JsonText],
      [JsonSim] and [JsonPaths] relate the two.  [JsonDec]: the walk that maps a
      parsed document into records and lists.  [JsonRead] says what the encoder
      reads in a memory, [JsonDecSpec] what a decode should answer, and
      [JsonDecProofs] that the walk answers it.
    - Reflection.  [Reflect] (the registry, its indexes and attach lists) and
      [ReflectCall] (boxes and checked calls), with [ReflectProofs] and
      [ReflectQueries].

    ** The theorems

    The files named [...Theorems], [SleepProofs] and [Width] hold the
    properties.  [HeapTheorems]: counts are the references in every reachable
    state, a release cascade ends, a forced collection leaves exactly what the
    program reaches, a weak read never yields a dead object, and the two passes
    at exit run the bodies left and free everything.  [FiberTheorems]: a fiber
    is in exactly one place, no wake is lost, every wait has a waker.  [TaskGroupTheorems]: as long as no deinit
    body it runs panics, the fleet refines a queue of promises, conserves
    references and wakes its owner.
    [ChanTheorems]: first in, first out, and no receiver sleeps over a full
    ring.  [ReflectTheorems]: the indexed queries are the linear scans, and a
    call passes only what the signature admits.  [JsonTheorems]: the direct
    writer delivers the other path's bytes or rolls back.  [JsonDecTheorems]: a
    decode answers as specified, stays in its memory, and inverts the encoder.  [ShowTheorems] and
    [Width]: rendering ends on cyclic graphs, and columns add up.
    [MapTheorems], [ListTheorems], [SortTheorems], [BytesTheorems]: refinement
    of lists and association lists, stable sorting, codecs.
    [DecimalTheorems], [TextTheorems], [StrTheorems]: exact rounding, round
    trips, agreement with the plain definitions.

    ** Fuel

    A loop that is not structural runs on fuel, and each constant covers the
    width its counter can have: [JOIN_FUEL] and [CAP_FUEL] a capacity that
    doubles within 64 bits, [RANGE_FUEL] a binary search over under [2 ^ 11]
    ranges, the digit and shift loops of the number files the digits of their
    words, [ELIGIBLE_FUEL] the depth the source itself stops at, [DIRECT_FUEL]
    the nesting that depth allows.  The collector's walks run on a bound
    computed from the heap's edges; releases, the fiber scheduler and the show
    driver are given fuel by their theorems, which state that some amount
    suffices.  A decode's fuel is the nesting of its document and schema.

    ** Not modelled

    - Threads, mutexes, condition variables, atomics and CPU probes, and with
      them the sharing marks, the owner-local collector of a worker and its
      husk sweep: calls of the host, or code that only runs once a thread was
      spawned.  [Heap] and [Collector] are the single-mutator runtime.
    - Files, sockets, processes, clocks, and the netpoller, stacks, context
      switches and unwinding of fibers: the host's.
    - Floating point text and arithmetic: the host formatter is a parameter.
    - The slot-table fallback of typed JSON decoding; the decoding theorems are
      about schemas without boxed options, defaults, ignored fields and lists
      of narrow integers or bools (which keep 8-byte slots).
    - JSON parsing and documents, XML, compression, TLS and the
      network protocols, logging, the WebAssembly host and the vendored
      libraries: bindings around code that is not the runtime's own.
    - The compiler in [src/src], which is written in Beans.

    ** This file

    What every file of the development shares:
    - fixed-width C integers as [Z] with the wrap-around written out
      ([u32], [u64], [i64]) and the notations of [c_scope];
    - Beans strings and byte buffers as [list Z] ([str]), with [lit] for the
      C string literals of the runtime;
    - [result]: a runtime entry returns a value or calls [beans_panic];
    - the list, division and power lemmas, tactics and hint databases that
      the component files use. *)

From stdpp Require Export base tactics list numbers option strings.
From Stdlib Require Export ZArith Lia.
#[export] Set Default Goal Selector "!".

Open Scope Z_scope.

(** ** Fixed-width integers *)

Definition u8 (x : Z) : Z := x mod 2 ^ 8.
Definition u32 (x : Z) : Z := x mod 2 ^ 32.
Definition u64 (x : Z) : Z := x mod 2 ^ 64.

(** The signed reading of a 64-bit word: what a cast to [long long] does. *)
Definition i64 (x : Z) : Z := (x + 2 ^ 63) mod 2 ^ 64 - 2 ^ 63.

Definition is_u8 (x : Z) : Prop := 0 <= x < 2 ^ 8.
Definition is_u32 (x : Z) : Prop := 0 <= x < 2 ^ 32.
Definition is_u64 (x : Z) : Prop := 0 <= x < 2 ^ 64.
Definition is_i64 (x : Z) : Prop := - 2 ^ 63 <= x < 2 ^ 63.

Declare Scope c_scope.
Delimit Scope c_scope with C.
Notation "a +! b" := (u64 (a + b)) (at level 50, left associativity) : c_scope.
Notation "a -! b" := (u64 (a - b)) (at level 50, left associativity) : c_scope.
Notation "a *! b" := (u64 (a * b)) (at level 40, left associativity) : c_scope.
Notation "a <<! n" := (u64 (Z.shiftl a n)) (at level 54, left associativity) : c_scope.
Notation "a >>! n" := (Z.shiftr a n) (at level 54, left associativity) : c_scope.
Notation "a |! b" := (Z.lor a b) (at level 58, left associativity) : c_scope.
Notation "a &! b" := (Z.land a b) (at level 56, left associativity) : c_scope.
Notation "a ^! b" := (Z.lxor a b) (at level 57, left associativity) : c_scope.
Notation "~! a" := (u64 (Z.lnot a)) (at level 35, right associativity) : c_scope.

(** A C truth value: [1] or [0]. *)
Definition c_bool (b : bool) : Z := if b then 1 else 0.

(** ** Strings

    A Beans string is its bytes; the length is stored, so the bytes may hold
    NUL.  Reading one past the end through a [char*] gives the terminator. *)
Abbreviation str := (list Z).

Definition lit (s : string) : str :=
  (fun c => Z.of_N (Ascii.N_of_ascii c)) <$> String.list_ascii_of_string s.

Definition bytes_ok (s : str) : Prop := Forall is_u8 s.

(** [s[i]] through a [char*]: the terminating NUL at and past the end. *)
Definition c_at (s : str) (i : nat) : Z := default 0 (s !! i).

Definition slen (s : str) : Z := Z.of_nat (length s).

(** [memcpy(out, s + from, n)]. *)
Definition sub_str (s : str) (from n : Z) : str :=
  take (Z.to_nat n) (drop (Z.to_nat from) s).

Lemma slen_nonneg (s : str) : 0 <= slen s.
Proof. unfold slen. lia. Qed.

Lemma slen_app (a b : str) : slen (a ++ b) = slen a + slen b.
Proof. unfold slen. rewrite length_app. lia. Qed.

Lemma slen_cons c (s : str) : slen (c :: s) = 1 + slen s.
Proof. unfold slen. cbn [length]. lia. Qed.

Lemma slen_rev (s : str) : slen (rev s) = slen s.
Proof. unfold slen. by rewrite length_rev. Qed.

Lemma filter_ext_in {A} (p q : A -> bool) l :
  (forall x, x ∈ l -> p x = q x) -> List.filter p l = List.filter q l.
Proof.
  intros Hpq. induction l as [|x l IH]; [done|]. cbn [List.filter]. rewrite Hpq by (by left).
  rewrite IH; [done|]. intros y Hy. apply Hpq. by right.
Qed.

Lemma sub_str_mid (pre mid post : str) :
  sub_str (pre ++ mid ++ post) (slen pre) (slen mid) = mid.
Proof.
  unfold sub_str, slen. by rewrite !Nat2Z.id, drop_app_length, take_app_length.
Qed.

Definition ch_0 : Z := 48.
Definition ch_9 : Z := 57.
Definition ch_plus : Z := 43.
Definition ch_minus : Z := 45.
Definition ch_dot : Z := 46.
Definition ch_under : Z := 95.

Definition is_digit (c : Z) : bool := (ch_0 <=? c) && (c <=? ch_9).

(** ** Panics

    [beans_panic] never returns to its caller: a runtime entry either yields
    its value or stops with the message and the source position. *)
Inductive result (A : Type) : Type :=
  | Ok (a : A)
  | Panic (msg : str) (line col : Z).
Arguments Ok {_} _.
Arguments Panic {_} _ _ _.

#[export] Instance result_ret : MRet result := fun A a => Ok a.
#[export] Instance result_bind : MBind result := fun A B f r =>
  match r with Ok a => f a | Panic m l c => Panic m l c end.
#[export] Instance result_fmap : FMap result := fun A B f r =>
  match r with Ok a => Ok (f a) | Panic m l c => Panic m l c end.

Definition is_ok {A} (r : result A) : bool :=
  match r with Ok _ => true | Panic _ _ _ => false end.

Lemma bind_ok {A B} (f : A -> result B) (r : result A) (b : B) :
  (r ≫= f) = Ok b <-> exists a, r = Ok a /\ f a = Ok b.
Proof. destruct r; cbn; split; [eauto|intros (? & [= ->] & ?); done|done|intros (? & [=] & _)]. Qed.

(** ** Arithmetic of machine words *)

(** [lia] with division and modulus by literals turned into equations. *)
Ltac dlia := zify; Z.to_euclidean_division_equations; lia.

(** Unfold the word predicates and operations, then [dlia]. *)
Ltac word := unfold is_u8, is_u32, is_u64, is_i64, u8, u32, u64, i64, c_bool in *; dlia.

(** Split a goal on the boolean tests of the C code. *)
Ltac split_tests :=
  repeat match goal with
  | |- context [if ?b then _ else _] =>
      lazymatch b with
      | context [if _ then _ else _] => fail
      | _ => destruct b eqn:?
      end
  end.

(** Booleans of the code as propositions, everywhere. *)
Ltac bools :=
  repeat match goal with
  | H : _ && _ = true |- _ => apply andb_true_iff in H as [? ?]
  | H : _ || _ = false |- _ => apply orb_false_iff in H as [? ?]
  | H : _ && _ = false |- _ => apply andb_false_iff in H
  | H : _ || _ = true |- _ => apply orb_true_iff in H
  | H : negb _ = true |- _ => apply negb_true_iff in H
  | H : negb _ = false |- _ => apply negb_false_iff in H
  | H : (_ =? _) = true |- _ => apply Z.eqb_eq in H
  | H : (_ =? _) = false |- _ => apply Z.eqb_neq in H
  | H : (_ <? _) = true |- _ => apply Z.ltb_lt in H
  | H : (_ <? _) = false |- _ => apply Z.ltb_ge in H
  | H : (_ <=? _) = true |- _ => apply Z.leb_le in H
  | H : (_ <=? _) = false |- _ => apply Z.leb_gt in H
  end.

Create HintDb word discriminated.
Create Rewrite HintDb word.

Lemma u64_is (x : Z) : is_u64 (u64 x).
Proof. word. Qed.

Lemma u32_is (x : Z) : is_u32 (u32 x).
Proof. word. Qed.

Lemma i64_is (x : Z) : is_i64 (i64 x).
Proof. word. Qed.

Lemma u64_small (x : Z) : is_u64 x -> u64 x = x.
Proof. word. Qed.

Lemma u32_small (x : Z) : is_u32 x -> u32 x = x.
Proof. word. Qed.

Lemma i64_small (x : Z) : is_i64 x -> i64 x = x.
Proof. word. Qed.

Lemma u64_i64 (x : Z) : u64 (i64 x) = u64 x.
Proof. word. Qed.

Lemma i64_u64 (x : Z) : i64 (u64 x) = i64 x.
Proof. word. Qed.

Lemma u64_add_l (a b : Z) : u64 (u64 a + b) = u64 (a + b).
Proof. apply Z.add_mod_idemp_l. lia. Qed.

Lemma u64_mul_l (a b : Z) : u64 (u64 a * b) = u64 (a * b).
Proof. apply Z.mul_mod_idemp_l. lia. Qed.

#[export] Hint Resolve u64_is u32_is i64_is : word.
#[export] Hint Rewrite u64_i64 i64_u64 u64_add_l u64_mul_l : word.

(** Shifts and masks as divisions and remainders. *)
Lemma shr_div (x n : Z) : 0 <= n -> Z.shiftr x n = x / 2 ^ n.
Proof. intros. by apply Z.shiftr_div_pow2. Qed.

Lemma shl_mul (x n : Z) : 0 <= n -> Z.shiftl x n = x * 2 ^ n.
Proof. intros. by apply Z.shiftl_mul_pow2. Qed.

Lemma land_mask (x n : Z) : 0 <= n -> Z.land x (Z.ones n) = x mod 2 ^ n.
Proof. intros. by apply Z.land_ones. Qed.

Lemma land32 (x : Z) : Z.land x 0xffffffff = x mod 2 ^ 32.
Proof. exact (land_mask x 32 ltac:(lia)). Qed.

Lemma land1 (x : Z) : Z.land x 1 = x mod 2.
Proof. exact (land_mask x 1 ltac:(lia)). Qed.

(** A bitwise or of disjoint fields is their sum. *)
Lemma land_disjoint (x y n : Z) :
  0 <= n -> 0 <= x < 2 ^ n -> Z.land x (y * 2 ^ n) = 0.
Proof.
  intros Hn Hx. apply Z.bits_inj_0. intros m. rewrite Z.land_spec.
  destruct (Z.lt_ge_cases m n).
  - rewrite Z.mul_pow2_bits_low by lia. apply andb_false_r.
  - destruct (Z.eq_dec x 0) as [->|]; [by rewrite Z.bits_0|].
    rewrite (Z.bits_above_log2 x); [done|lia|].
    assert (Z.log2 x < n) by (apply Z.log2_lt_pow2; lia). lia.
Qed.

Lemma lor_add (x y n : Z) :
  0 <= n -> 0 <= x < 2 ^ n -> Z.lor x (y * 2 ^ n) = x + y * 2 ^ n.
Proof.
  intros Hn Hx. pose proof (land_disjoint x y n Hn Hx) as Hd.
  by rewrite Z.add_nocarry_lxor, Z.lxor_lor.
Qed.

(** [lo | (hi << 32)] as a 64-bit word: the halves of the runtime's limbs. *)
Lemma join32 (lo hi : Z) :
  is_u32 lo -> Z.lor lo (u64 (Z.shiftl hi 32)) = lo + 2 ^ 32 * u32 hi.
Proof.
  intros Hl. rewrite shl_mul by lia.
  replace (u64 (hi * 2 ^ 32)) with (u32 hi * 2 ^ 32) by word.
  rewrite lor_add by (unfold is_u32 in Hl; lia). lia.
Qed.

Lemma join32_l (hi lo : Z) :
  is_u32 lo -> Z.lor (u64 (Z.shiftl hi 32)) lo = lo + 2 ^ 32 * u32 hi.
Proof. rewrite Z.lor_comm. apply join32. Qed.
