(* ===== verification/Digits.v ===== *)
(** * Digits: decimal digit counts and rounding on [Z]

    The mathematics the decimal and text components are specified with:
    [ndigits], the number of decimal digits; [strip10], removal of trailing
    zeros; and [round_quot], a quotient rounded in one of the runtime's five
    modes. Nothing here models code; the components refine to it. *)

From S2P Require Import Prelude.

(** ** Number of decimal digits *)

Fixpoint ndigits_fuel (fuel : nat) (n : Z) : Z :=
  match fuel with
  | O => 1
  | S fuel => if n <? 10 then 1 else 1 + ndigits_fuel fuel (n / 10)
  end.

Definition ndigits (n : Z) : Z := ndigits_fuel (Z.to_nat (Z.log2 n)) n.

Lemma pow10_pos k : 0 <= k -> 0 < 10 ^ k.
Proof. intros. apply Z.pow_pos_nonneg; lia. Qed.

Lemma pow10_S k : 0 <= k -> 10 ^ (k + 1) = 10 * 10 ^ k.
Proof. intros. rewrite Z.pow_add_r by lia. lia. Qed.

Lemma pow10_pred k : 1 <= k -> 10 ^ k = 10 * 10 ^ (k - 1).
Proof. intros. rewrite <-pow10_S by lia. f_equal. lia. Qed.

Lemma pow10_le a b : a <= b -> 10 ^ a <= 10 ^ b.
Proof. intros. apply Z.pow_le_mono_r; lia. Qed.

Lemma pow10_lt a b : 0 <= b -> a < b -> 10 ^ a < 10 ^ b.
Proof. intros. apply Z.pow_lt_mono_r; lia. Qed.

#[export] Hint Resolve pow10_pos pow10_le pow10_lt : word.

Lemma ndigits_fuel_spec fuel n :
  0 < n -> n < 2 ^ (Z.of_nat fuel + 1) ->
  1 <= ndigits_fuel fuel n /\
  10 ^ (ndigits_fuel fuel n - 1) <= n < 10 ^ ndigits_fuel fuel n.
Proof.
  revert n. induction fuel as [|fuel IH]; intros n Hn Hf; cbn [ndigits_fuel].
  - cbn in *. lia.
  - destruct (Z.ltb_spec n 10); [cbn; lia|].
    assert (Hp : 2 ^ (Z.of_nat (S fuel) + 1) = 2 * 2 ^ (Z.of_nat fuel + 1))
      by (rewrite <-Z.pow_succ_r by lia; f_equal; lia).
    destruct (IH (n / 10)) as [H1 H2]; [dlia..|].
    set (d := ndigits_fuel fuel (n / 10)) in *.
    split; [lia|]. replace (1 + d - 1) with d by lia.
    replace (1 + d) with (d + 1) by lia. rewrite pow10_S by lia.
    rewrite (pow10_pred d) in * by lia. dlia.
Qed.

Lemma ndigits_spec n : 0 < n -> 1 <= ndigits n /\ 10 ^ (ndigits n - 1) <= n < 10 ^ ndigits n.
Proof.
  intros Hn. apply ndigits_fuel_spec; [done|].
  rewrite Z2Nat.id by apply Z.log2_nonneg. apply Z.log2_spec. done.
Qed.

Lemma ndigits_unique n d : 0 < n -> 1 <= d -> 10 ^ (d - 1) <= n < 10 ^ d -> ndigits n = d.
Proof.
  intros Hn Hd Hr. destruct (ndigits_spec n Hn) as [Hd' Hr'].
  destruct (Z.lt_trichotomy (ndigits n) d) as [Hlt|[|Hlt]]; [|done|].
  - pose proof (pow10_le (ndigits n) (d - 1) ltac:(lia)). lia.
  - pose proof (pow10_le d (ndigits n - 1) ltac:(lia)). lia.
Qed.

Lemma ndigits_0 : ndigits 0 = 1.
Proof. done. Qed.

Lemma ndigits_pos n : 0 <= n -> 1 <= ndigits n.
Proof.
  intros. destruct (Z.eq_dec n 0) as [->|]; [done|]. apply ndigits_spec. lia.
Qed.

Lemma ndigits_lt_pow n k : 0 <= n -> 1 <= k -> ndigits n <= k <-> n < 10 ^ k.
Proof.
  intros Hn Hk. destruct (Z.eq_dec n 0) as [->|].
  - pose proof (pow10_pos k ltac:(lia)). rewrite ndigits_0. lia.
  - destruct (ndigits_spec n ltac:(lia)) as [H1 H2]. split; intros.
    + pose proof (pow10_le _ _ H). lia.
    + destruct (Z.le_gt_cases (ndigits n) k); [done|].
      pose proof (pow10_le k (ndigits n - 1) ltac:(lia)). lia.
Qed.

Lemma ndigits_gt_pow n k : 0 <= n -> 1 <= k -> k < ndigits n <-> 10 ^ k <= n.
Proof. intros Hn Hk. pose proof (ndigits_lt_pow n k Hn Hk). lia. Qed.

Lemma ndigits_div10 n : 10 <= n -> ndigits n = ndigits (n / 10) + 1.
Proof.
  intros Hn. destruct (ndigits_spec (n / 10) ltac:(dlia)) as [H1 H2].
  apply ndigits_unique; [lia|lia|].
  replace (ndigits (n / 10) + 1 - 1) with (ndigits (n / 10)) by lia.
  rewrite pow10_S by lia. rewrite (pow10_pred (ndigits (n / 10))) in * by lia. dlia.
Qed.

Lemma ndigits_small n : 0 <= n < 10 -> ndigits n = 1.
Proof.
  intros. destruct (Z.eq_dec n 0) as [->|]; [done|]. apply ndigits_unique; cbn; lia.
Qed.

Lemma ndigits_mul_pow10 n k : 0 < n -> 0 <= k -> ndigits (n * 10 ^ k) = ndigits n + k.
Proof.
  intros Hn Hk. destruct (ndigits_spec n Hn) as [H1 H2].
  pose proof (pow10_pos k Hk).
  apply ndigits_unique; [nia|lia|].
  replace (ndigits n + k - 1) with (ndigits n - 1 + k) by lia.
  rewrite !Z.pow_add_r by lia. nia.
Qed.

Lemma ndigits_mono a b : 0 <= a <= b -> ndigits a <= ndigits b.
Proof.
  intros. apply ndigits_lt_pow; [lia|apply ndigits_pos; lia|].
  destruct (Z.eq_dec b 0) as [->|].
  - replace a with 0 by lia. done.
  - destruct (ndigits_spec b); lia.
Qed.

(** ** Trailing zeros *)

(** Drop at most [fuel] trailing zeros while [scale] exceeds [floor]. *)
Fixpoint strip10 (fuel : nat) (floor n scale : Z) : Z * Z :=
  match fuel with
  | O => (n, scale)
  | S fuel =>
      if (floor <? scale) && (n mod 10 =? 0) then strip10 fuel floor (n / 10) (scale - 1)
      else (n, scale)
  end.

(** ** Rounded quotients

    The five rounding modes of the runtime, by their codes. *)
Inductive rounding : Type := HalfEven | HalfAway | TowardZero | Floor | Ceil.

#[export] Instance rounding_eq_dec : EqDecision rounding.
Proof. solve_decision. Defined.

Definition mode_code (m : rounding) : Z :=
  match m with HalfEven => 0 | HalfAway => 1 | TowardZero => 2 | Floor => 3 | Ceil => 4 end.

(** Whether the magnitude [n / d] of a number whose sign is [neg] rounds away
    from zero to an integer in mode [m]. *)
Definition round_up (m : rounding) (neg : bool) (n d : Z) : bool :=
  let q := n / d in
  let r := n mod d in
  match m with
  | HalfEven => (d <? 2 * r) || ((2 * r =? d) && negb (Z.even q))
  | HalfAway => d <=? 2 * r
  | TowardZero => false
  | Floor => neg && (0 <? r)
  | Ceil => negb neg && (0 <? r)
  end.

Definition round_quot (m : rounding) (neg : bool) (n d : Z) : Z :=
  n / d + (if round_up m neg n d then 1 else 0).

Lemma round_up_cases m neg n d :
  0 < d -> round_up m neg n d = true -> 0 < n mod d /\
    (m = HalfEven \/ m = HalfAway -> d <= 2 * (n mod d)).
Proof.
  intros Hd. pose proof (Z.mod_pos_bound n d Hd). unfold round_up.
  destruct m; intros Hu; bools; try lia; try (split; [lia|]; intros [|]; done).
Qed.

Lemma round_down_cases m neg n d :
  0 < d -> round_up m neg n d = false -> m = HalfEven \/ m = HalfAway -> 2 * (n mod d) <= d.
Proof. intros Hd. unfold round_up. intros Hu [-> | ->]; bools; lia. Qed.

(** Rounding to nearest is within half a unit, and any mode within one. *)
Lemma round_quot_near m neg n d :
  0 < d -> m = HalfEven \/ m = HalfAway -> 2 * Z.abs (n - round_quot m neg n d * d) <= d.
Proof.
  intros Hd Hm. unfold round_quot.
  pose proof (Z.div_mod n d ltac:(lia)). pose proof (Z.mod_pos_bound n d Hd).
  destruct (round_up m neg n d) eqn:Hu.
  - apply round_up_cases in Hu as [_ Hu]; [|done]. specialize (Hu Hm). lia.
  - apply round_down_cases in Hu; [lia|done..].
Qed.

Lemma round_quot_within m neg n d : 0 < d -> Z.abs (n - round_quot m neg n d * d) < d.
Proof.
  intros Hd. unfold round_quot.
  pose proof (Z.div_mod n d ltac:(lia)). pose proof (Z.mod_pos_bound n d Hd).
  destruct (round_up m neg n d) eqn:Hu; [|lia].
  apply round_up_cases in Hu as [Hu _]; lia.
Qed.

Lemma round_quot_exact m neg q d : 0 < d -> round_quot m neg (q * d) d = q.
Proof.
  intros Hd. unfold round_quot. rewrite Z.div_mul by lia.
  destruct (round_up m neg (q * d) d) eqn:Hu; [|lia].
  apply round_up_cases in Hu as [Hu _]; [|done]. rewrite Z.mod_mul in Hu; lia.
Qed.

(** ** Digit strings *)

(** The value of a string of decimal digits. *)
Definition dval (ds : str) : Z := fold_left (fun a c => a * 10 + (c - ch_0)) ds 0.

Definition digits_ok (ds : str) : Prop := Forall (fun c => ch_0 <= c <= ch_9) ds.

Lemma fold_dval ds a :
  fold_left (fun a c => a * 10 + (c - ch_0)) ds a = a * 10 ^ slen ds + dval ds.
Proof.
  unfold dval. revert a. induction ds as [|c ds IH]; intros a.
  { unfold slen. cbn. lia. }
  cbn [fold_left]. rewrite IH, (IH (0 * 10 + (c - ch_0))).
  unfold slen. cbn [length]. rewrite Nat2Z.inj_succ, Z.pow_succ_r by lia. lia.
Qed.

Lemma dval_app a b : dval (a ++ b) = dval a * 10 ^ slen b + dval b.
Proof. unfold dval at 1. rewrite fold_left_app. apply fold_dval. Qed.

Lemma dval_snoc a c : dval (a ++ [c]) = dval a * 10 + (c - ch_0).
Proof. rewrite dval_app. change (slen [c]) with 1. unfold dval at 2. cbn [fold_left]. lia. Qed.

Lemma dval_cons c ds : dval (c :: ds) = (c - ch_0) * 10 ^ slen ds + dval ds.
Proof. change (c :: ds) with ([c] ++ ds). rewrite dval_app. unfold dval at 1. cbn. lia. Qed.

Lemma dval_range ds : digits_ok ds -> 0 <= dval ds < 10 ^ slen ds.
Proof.
  induction 1 as [|c ds Hc _ IH]; [unfold slen, dval; cbn; lia|]. rewrite dval_cons.
  pose proof (slen_nonneg ds). replace (slen (c :: ds)) with (slen ds + 1)
    by (unfold slen; cbn [length]; lia).
  rewrite pow10_S by lia. unfold ch_0, ch_9 in *. nia.
Qed.

(** A digit string is determined by its length and its value. *)
Lemma digits_inj a b : digits_ok a -> digits_ok b -> slen a = slen b -> dval a = dval b -> a = b.
Proof.
  intros Ha. revert b. induction Ha as [|c a Hc Ha IH]; intros [|d b] Hb Hl Hv;
    try (unfold slen in Hl; cbn in Hl; lia); [done|].
  apply Forall_cons in Hb as [Hd Hb]. rewrite !slen_cons in Hl. rewrite !dval_cons in Hv.
  pose proof (dval_range a Ha). pose proof (dval_range b Hb).
  assert (Hl' : slen a = slen b) by lia. rewrite Hl' in *.
  assert (c = d) as -> by nia. f_equal. apply IH; [done|done|lia].
Qed.

(** The decimal notation of a natural number: what every writer produces. *)
Definition is_text (v : Z) (ds : str) : Prop :=
  digits_ok ds /\ dval ds = v /\ slen ds = ndigits v.

Lemma is_text_unique v a b : is_text v a -> is_text v b -> a = b.
Proof. intros (Ha & Hva & Hla) (Hb & Hvb & Hlb). apply digits_inj; congruence. Qed.

Lemma is_text_digit v : 0 <= v < 10 -> is_text v [ch_0 + v].
Proof.
  intros Hv. split_and!.
  - constructor; [unfold ch_0, ch_9; lia|constructor].
  - unfold dval, ch_0. cbn [fold_left]. lia.
  - by rewrite ndigits_small.
Qed.

Lemma is_text_snoc v ds : 10 <= v -> is_text (v / 10) ds -> is_text v (ds ++ [ch_0 + v mod 10]).
Proof.
  intros Hv (Hok & Hd & Hl). split_and!.
  - apply Forall_app. split; [done|]. constructor; [unfold ch_0, ch_9; dlia|constructor].
  - rewrite dval_snoc, Hd. dlia.
  - rewrite slen_app, Hl, (ndigits_div10 v) by done. done.
Qed.

Lemma is_text_nonempty v ds : 0 <= v -> is_text v ds -> 1 <= slen ds.
Proof. intros Hv (_ & _ & Hl). rewrite Hl. by apply ndigits_pos. Qed.

Lemma digits_ok_is_digit ds : digits_ok ds <-> Forall (fun c => is_digit c = true) ds.
Proof.
  unfold digits_ok. split; intros H; (eapply Forall_impl; [exact H|]); intros c; cbn beta;
    unfold is_digit; lia.
Qed.
