(* ===== verification/U128.v ===== *)
(** * U128: unsigned 128-bit arithmetic on two 64-bit limbs

    [runtime/beans_rt.c], the [bu_*] functions under the decimal type: every
    operation is the C code limb by limb, and the lemmas say which operation on
    [Z] it computes through [bu_val].  [Decimal] and [Wide] are the clients. *)

From S2P Require Import Prelude.

Open Scope c_scope.

(** ** Data and operations *)

Record BU128 : Type := mkBU { bu_lo : Z; bu_hi : Z }.

#[export] Instance BU128_eq_dec : EqDecision BU128.
Proof. solve_decision. Defined.

Definition bu_zero (v : BU128) : bool := (bu_lo v =? 0) && (bu_hi v =? 0).

Definition bu_cmp (a b : BU128) : Z :=
  if negb (bu_hi a =? bu_hi b) then (if bu_hi a <? bu_hi b then -1 else 1)
  else if negb (bu_lo a =? bu_lo b) then (if bu_lo a <? bu_lo b then -1 else 1)
  else 0.

Definition bu_sub (a b : BU128) : BU128 :=
  mkBU (bu_lo a -! bu_lo b)
       ((bu_hi a -! bu_hi b) -! c_bool (bu_lo a <? bu_lo b)).

Definition bu_twos (v : BU128) : BU128 :=
  let lo := (~! (bu_lo v)) +! 1 in
  let hi := ~! (bu_hi v) in
  mkBU lo (if lo =? 0 then hi +! 1 else hi).

Definition bu_mul64 (a b : Z) : BU128 :=
  let mask := 0xffffffff in
  let a0 := a &! mask in let a1 := a >>! 32 in
  let b0 := b &! mask in let b1 := b >>! 32 in
  let p00 := a0 *! b0 in
  let p01 := a0 *! b1 in
  let p10 := a1 *! b0 in
  let p11 := a1 *! b1 in
  let middle := ((p00 >>! 32) +! (p01 &! mask)) +! (p10 &! mask) in
  mkBU ((p00 &! mask) |! (middle <<! 32))
       (((p11 +! (p01 >>! 32)) +! (p10 >>! 32)) +! (middle >>! 32)).

(** The C function returns whether the product fitted and writes it through
    [out] either way. *)
Definition bu_mul_small (v : BU128) (factor : Z) : bool * BU128 :=
  let low := bu_mul64 (bu_lo v) factor in
  let high := bu_mul64 (bu_hi v) factor in
  let out := mkBU (bu_lo low) (bu_lo high +! bu_hi low) in
  ((bu_hi high =? 0) && (bu_lo high <=? bu_hi out), out).

Definition bu_add_small (v : BU128) (addend : Z) : bool * BU128 :=
  let lo := bu_lo v +! addend in
  let carry := c_bool (lo <? bu_lo v) in
  let hi := bu_hi v +! carry in
  ((carry =? 0) || negb (hi =? 0), mkBU lo hi).

(** Schoolbook division of big-endian 32-bit words by a 32-bit divisor, the
    loop of [bu_div_small]: the quotient words and the final remainder. *)
Fixpoint div_words (divisor rem : Z) (words : list Z) : list Z * Z :=
  match words with
  | [] => ([], rem)
  | w :: ws =>
      let current := (rem <<! 32) |! w in
      let '(qs, r) := div_words divisor (current `mod` divisor) ws in
      (u32 (current `div` divisor) :: qs, r)
  end.

Definition bu_div_small (v : BU128) (divisor : Z) : option (BU128 * Z) :=
  if divisor =? 0 then None else
  let '(q, rem) :=
    div_words divisor 0
      [u32 (bu_hi v >>! 32); u32 (bu_hi v); u32 (bu_lo v >>! 32); u32 (bu_lo v)] in
  match q with
  | [q0; q1; q2; q3] =>
      Some (mkBU ((q2 <<! 32) |! q3) ((q0 <<! 32) |! q1), u32 rem)
  | _ => None
  end.

Definition bu_bit (v : BU128) (bit : Z) : Z :=
  if bit <? 64 then (bu_lo v >>! bit) &! 1 else (bu_hi v >>! (bit - 64)) &! 1.

Definition bu_set_bit (v : BU128) (bit : Z) : BU128 :=
  if bit <? 64 then mkBU (bu_lo v |! (1 <<! bit)) (bu_hi v)
  else mkBU (bu_lo v) (bu_hi v |! (1 <<! (bit - 64))).

Definition bu_shift_left_one (v : BU128) : bool * BU128 :=
  (bu_hi v >>! 63 =? 0,
   mkBU (bu_lo v <<! 1) ((bu_hi v <<! 1) |! (bu_lo v >>! 63))).

(** The shift-and-subtract loop of [bu_divmod], [n] bits still to bring down;
    [None] is the early [return 0] on a remainder that no longer shifts. *)
Fixpoint divmod_loop (n : nat) (value divisor q r : BU128) : option (BU128 * BU128) :=
  match n with
  | O => Some (q, r)
  | S n =>
      let bit := Z.of_nat n in
      let '(ok, r) := bu_shift_left_one r in
      if ok then
        let r := if bu_bit value bit =? 0 then r else mkBU (bu_lo r |! 1) (bu_hi r) in
        if 0 <=? bu_cmp r divisor
        then divmod_loop n value divisor (bu_set_bit q bit) (bu_sub r divisor)
        else divmod_loop n value divisor q r
      else None
  end.

Definition bu_divmod (value divisor : BU128) : option (BU128 * BU128) :=
  if bu_zero divisor then None
  else if bu_cmp value divisor <? 0 then Some (mkBU 0 0, value)
  else if negb (bu_hi divisor >>! 63 =? 0) then Some (mkBU 1 0, bu_sub value divisor)
  else divmod_loop 128 value divisor (mkBU 0 0) (mkBU 0 0).

(** ** Values *)

Close Scope c_scope.

Definition bu_val (v : BU128) : Z := bu_lo v + 2 ^ 64 * bu_hi v.

Definition bu_ok (v : BU128) : Prop := is_u64 (bu_lo v) /\ is_u64 (bu_hi v).

Lemma bu_val_range v : bu_ok v -> 0 <= bu_val v < 2 ^ 128.
Proof. unfold bu_ok, bu_val, is_u64. lia. Qed.

Lemma bu_val_inj a b : bu_ok a -> bu_ok b -> bu_val a = bu_val b -> a = b.
Proof.
  destruct a as [al ah], b as [bl bh]. unfold bu_ok, bu_val, is_u64; cbn.
  intros. f_equal; lia.
Qed.

Lemma bu_zero_val v : bu_ok v -> bu_zero v = (bu_val v =? 0).
Proof. unfold bu_ok, bu_zero, bu_val, is_u64. lia. Qed.

Lemma bu_cmp_val a b :
  bu_ok a -> bu_ok b ->
  bu_cmp a b = match Z.compare (bu_val a) (bu_val b) with Lt => -1 | Eq => 0 | Gt => 1 end.
Proof.
  unfold bu_ok, bu_cmp, bu_val, is_u64. intros.
  split_tests; bools; destruct (Z.compare_spec (bu_lo a + 2 ^ 64 * bu_hi a)
    (bu_lo b + 2 ^ 64 * bu_hi b)); lia.
Qed.

Lemma bu_cmp_lt a b : bu_ok a -> bu_ok b -> (bu_cmp a b <? 0) = (bu_val a <? bu_val b).
Proof.
  intros. rewrite bu_cmp_val by done.
  destruct (Z.compare_spec (bu_val a) (bu_val b)); lia.
Qed.

Lemma bu_cmp_ge a b : bu_ok a -> bu_ok b -> (0 <=? bu_cmp a b) = (bu_val b <=? bu_val a).
Proof.
  intros. rewrite bu_cmp_val by done.
  destruct (Z.compare_spec (bu_val a) (bu_val b)); lia.
Qed.

Lemma bu_cmp_gt a b : bu_ok a -> bu_ok b -> (0 <? bu_cmp a b) = (bu_val b <? bu_val a).
Proof.
  intros. rewrite bu_cmp_val by done.
  destruct (Z.compare_spec (bu_val a) (bu_val b)); lia.
Qed.

Lemma bu_sub_ok a b : bu_ok (bu_sub a b).
Proof. split; apply u64_is. Qed.

Lemma bu_sub_val a b :
  bu_ok a -> bu_ok b -> bu_val (bu_sub a b) = (bu_val a - bu_val b) mod 2 ^ 128.
Proof.
  unfold bu_ok, bu_sub, bu_val; cbn. intros [Ha Ha'] [Hb Hb'].
  destruct (Z.ltb_spec (bu_lo a) (bu_lo b)); word.
Qed.

Lemma bu_twos_ok v : bu_ok v -> bu_ok (bu_twos v).
Proof.
  unfold bu_ok, bu_twos; cbn. intros [H1 H2]. split; [apply u64_is|].
  case_match; apply u64_is.
Qed.

Lemma lnot_u64 (x : Z) : is_u64 x -> u64 (Z.lnot x) = 2 ^ 64 - 1 - x.
Proof. unfold Z.lnot. word. Qed.

Lemma bu_twos_val v : bu_ok v -> bu_val (bu_twos v) = (- bu_val v) mod 2 ^ 128.
Proof.
  unfold bu_ok, bu_twos, bu_val; cbn. intros [H1 H2].
  rewrite !lnot_u64 by done. split_tests; bools; word.
Qed.

Lemma bu_mul64_ok a b : is_u64 a -> is_u64 b -> bu_ok (bu_mul64 a b).
Proof.
  intros Ha Hb. split; [|apply u64_is].
  cbn -[Z.shiftl Z.shiftr Z.land Z.lor]. rewrite !land32, join32 by word. word.
Qed.

Lemma bu_mul64_val a b : is_u64 a -> is_u64 b -> bu_val (bu_mul64 a b) = a * b.
Proof.
  unfold bu_val, bu_mul64; cbn -[Z.shiftl Z.shiftr Z.land Z.lor]. intros Ha Hb.
  rewrite !land32, join32, !shr_div by (lia || word).
  set (a0 := a mod 2 ^ 32). set (a1 := a / 2 ^ 32).
  set (b0 := b mod 2 ^ 32). set (b1 := b / 2 ^ 32).
  assert (Ha' : a = a0 + 2 ^ 32 * a1 /\ is_u32 a0 /\ is_u32 a1) by (subst a0 a1; word).
  assert (Hb' : b = b0 + 2 ^ 32 * b1 /\ is_u32 b0 /\ is_u32 b1) by (subst b0 b1; word).
  clearbody a0 a1 b0 b1. destruct Ha' as (-> & Ha0 & Ha1), Hb' as (-> & Hb0 & Hb1).
  assert (Hp : forall x y, is_u32 x -> is_u32 y -> 0 <= x * y <= (2 ^ 32 - 1) * (2 ^ 32 - 1))
    by (unfold is_u32; intros; nia).
  pose proof (Hp _ _ Ha0 Hb0) as H00. pose proof (Hp _ _ Ha0 Hb1) as H01.
  pose proof (Hp _ _ Ha1 Hb0) as H10. pose proof (Hp _ _ Ha1 Hb1) as H11.
  rewrite !(u64_small (_ * _)) by (unfold is_u64; lia).
  replace ((a0 + 2 ^ 32 * a1) * (b0 + 2 ^ 32 * b1))
    with (a0 * b0 + 2 ^ 32 * (a0 * b1 + a1 * b0) + 2 ^ 64 * (a1 * b1)) by ring.
  assert (Hmax : a0 * b0 + 2 ^ 32 * (a0 * b1 + a1 * b0) + 2 ^ 64 * (a1 * b1) < 2 ^ 128)
    by (unfold is_u32 in *; nia).
  clear Hp Ha Hb Ha0 Ha1 Hb0 Hb1.
  generalize dependent (a0 * b0). generalize dependent (a0 * b1).
  generalize dependent (a1 * b0). generalize dependent (a1 * b1).
  clear. intros. word.
Qed.

Lemma bu_mul_small_spec v f :
  bu_ok v -> is_u32 f ->
  let '(ok, out) := bu_mul_small v f in
  bu_ok out /\ bu_val out = (bu_val v * f) mod 2 ^ 128 /\ ok = (bu_val v * f <? 2 ^ 128).
Proof.
  intros [Hl Hh] Hf. unfold bu_mul_small.
  assert (Hf' : is_u64 f) by word.
  pose proof (bu_mul64_ok _ _ Hl Hf') as [Hll Hlh].
  pose proof (bu_mul64_ok _ _ Hh Hf') as [Hhl Hhh].
  pose proof (bu_mul64_val _ _ Hl Hf') as Vl.
  pose proof (bu_mul64_val _ _ Hh Hf') as Vh.
  replace (bu_val v * f) with (bu_lo v * f + 2 ^ 64 * (bu_hi v * f)) by (unfold bu_val; ring).
  rewrite <-Vl, <-Vh. revert Hll Hlh Hhl Hhh.
  generalize (bu_mul64 (bu_lo v) f) as low, (bu_mul64 (bu_hi v) f) as high.
  intros low high. clear. unfold bu_ok, bu_val; cbn. intros.
  split; [split; [done|apply u64_is]|]. split; [word|].
  apply eq_true_iff_eq. rewrite andb_true_iff. word.
Qed.

Lemma bu_add_small_spec v a :
  bu_ok v -> is_u32 a ->
  let '(ok, out) := bu_add_small v a in
  bu_ok out /\ bu_val out = (bu_val v + a) mod 2 ^ 128 /\ ok = (bu_val v + a <? 2 ^ 128).
Proof.
  intros [Hl Hh] Hf. unfold bu_add_small, bu_ok, bu_val; cbn.
  split; [split; apply u64_is|].
  destruct (Z.ltb_spec (u64 (bu_lo v + a)) (bu_lo v)); cbn;
    (split; [word|apply eq_true_iff_eq; rewrite ?orb_true_iff, ?negb_true_iff; word]).
Qed.

(** The value of big-endian 32-bit words appended to [acc]. *)
Fixpoint be32 (acc : Z) (ws : list Z) : Z :=
  match ws with [] => acc | w :: ws => be32 (acc * 2 ^ 32 + w) ws end.

Lemma div_words_spec d ws : 0 < d < 2 ^ 32 -> Forall is_u32 ws -> forall acc rem,
  0 <= rem < d ->
  let '(qs, r) := div_words d rem ws in
  be32 acc qs * d + r = be32 (acc * d + rem) ws /\
  0 <= r < d /\ Forall is_u32 qs /\ length qs = length ws.
Proof.
  intros Hd. induction 1 as [|w ws Hw _ IH]; intros acc rem Hr; cbn -[Z.shiftl Z.lor]; [auto|].
  rewrite join32_l, u32_small by (done || word).
  set (cur := w + 2 ^ 32 * rem).
  assert (Hc : 0 <= cur < d * 2 ^ 32) by (subst cur; unfold is_u32 in Hw; nia).
  pose proof (Z.mod_pos_bound cur d ltac:(lia)) as Hm.
  assert (Hq : 0 <= cur `div` d < 2 ^ 32)
    by (split; [apply Z.div_pos|apply Z.div_lt_upper_bound]; lia).
  specialize (IH (acc * 2 ^ 32 + cur `div` d) (cur `mod` d) Hm).
  destruct (div_words d (cur `mod` d) ws) as [qs r].
  destruct IH as (IH & Hr' & Hqs & Hlen). rewrite u32_small by done. cbn.
  split; [|split; [done|split; [by constructor|by rewrite Hlen]]].
  rewrite IH. f_equal. pose proof (Z.div_mod cur d ltac:(lia)). subst cur. lia.
Qed.

Lemma bu_div_small_spec v d :
  bu_ok v -> 0 < d < 2 ^ 32 ->
  exists q, bu_div_small v d = Some (q, bu_val v `mod` d) /\
    bu_ok q /\ bu_val q = bu_val v `div` d.
Proof.
  intros [Hl Hh] Hd. unfold bu_div_small. rewrite (proj2 (Z.eqb_neq _ _)) by lia.
  assert (Hws : Forall is_u32 [u32 (Z.shiftr (bu_hi v) 32); u32 (bu_hi v);
                               u32 (Z.shiftr (bu_lo v) 32); u32 (bu_lo v)])
    by (repeat constructor; apply u32_is).
  pose proof (div_words_spec d _ Hd Hws 0 0 ltac:(lia)) as H.
  destruct (div_words _ _ _) as [q r]. destruct H as (H & Hr & Hq & Hlen).
  destruct q as [|q0 [|q1 [|q2 [|q3 [|]]]]]; try done.
  repeat match goal with H : Forall _ (_ :: _) |- _ => apply Forall_cons in H as [? H] end.
  assert (Hv : be32 (0 * d + 0) [u32 (Z.shiftr (bu_hi v) 32); u32 (bu_hi v);
                               u32 (Z.shiftr (bu_lo v) 32); u32 (bu_lo v)] = bu_val v).
  { unfold bu_val; cbn -[Z.shiftr]. rewrite !shr_div by lia. word. }
  rewrite Hv in H. cbn [be32] in H.
  set (out := mkBU _ _).
  assert (Hout : bu_ok out /\ bu_val out * d + r = bu_val v).
  { clear Hv. generalize dependent (bu_val v). intros V H.
    subst out. unfold bu_ok, bu_val; cbn -[Z.shiftl Z.lor].
    rewrite !join32_l, !u32_small by done. split; [word|]. lia. }
  exists out. destruct Hout as [Hok Hval]. rewrite u32_small by word.
  assert (Hdq : bu_val out = bu_val v `div` d) by (apply (Z.div_unique _ _ _ r); lia).
  assert (Hm : r = bu_val v `mod` d) by (apply (Z.mod_unique _ _ (bu_val out)); lia).
  by rewrite Hm.
Qed.

(** ** Long division *)

Lemma bu_bit_testbit v i : bu_ok v -> 0 <= i < 128 -> bu_bit v i = Z.b2z (Z.testbit (bu_val v) i).
Proof.
  intros [Hl Hh] Hi. unfold bu_bit, bu_val.
  rewrite Z.testbit_spec' by lia.
  destruct (Z.ltb_spec i 64); rewrite land1, shr_div by lia.
  - replace (bu_lo v + 2 ^ 64 * bu_hi v)
      with (bu_lo v + (2 ^ (64 - i) * bu_hi v) * 2 ^ i).
    + rewrite Z.div_add by lia.
      replace (2 ^ (64 - i) * bu_hi v) with (2 ^ (63 - i) * bu_hi v * 2).
      * by rewrite Z.mod_add by lia.
      * replace (64 - i) with (Z.succ (63 - i)) by lia. rewrite Z.pow_succ_r by lia. lia.
    + rewrite <-Z.mul_assoc, (Z.mul_comm (bu_hi v)), Z.mul_assoc, <-Z.pow_add_r by lia.
      do 3 f_equal. lia.
  - replace (2 ^ i) with (2 ^ 64 * 2 ^ (i - 64)) by (rewrite <-Z.pow_add_r by lia; f_equal; lia).
    rewrite <-Z.div_div by lia. do 2 f_equal. unfold is_u64 in *. dlia.
Qed.

Lemma bu_shift_left_one_spec v :
  bu_ok v ->
  let '(ok, out) := bu_shift_left_one v in
  bu_ok out /\ bu_val out = (2 * bu_val v) mod 2 ^ 128 /\ ok = (2 * bu_val v <? 2 ^ 128) /\
  bu_lo out mod 2 = 0.
Proof.
  intros [Hl Hh]. unfold bu_shift_left_one, bu_ok, bu_val; cbn -[Z.shiftl Z.shiftr Z.lor].
  rewrite !shr_div, !shl_mul by lia.
  replace (u64 (bu_hi v * 2 ^ 1)) with ((bu_hi v mod 2 ^ 63) * 2 ^ 1) by word.
  rewrite Z.lor_comm, lor_add by word.
  split; [word|]. split; [word|]. split; [apply eq_true_iff_eq; word|word].
Qed.

Lemma lor1_even x : x mod 2 = 0 -> Z.lor x 1 = x + 1.
Proof.
  intros H. rewrite Z.lor_comm. replace x with (x / 2 * 2 ^ 1) by dlia.
  rewrite lor_add by lia. lia.
Qed.

Lemma lor_bit_clear x n : 0 <= n -> Z.testbit x n = false -> Z.lor x (2 ^ n) = x + 2 ^ n.
Proof.
  intros Hn Hb. symmetry. rewrite Z.add_nocarry_lxor, Z.lxor_lor; try done.
  all: apply Z.bits_inj_0; intros m; rewrite Z.land_spec, Z.pow2_bits_eqb by lia.
  all: destruct (Z.eqb_spec n m) as [<-|]; [by rewrite Hb|apply andb_false_r].
Qed.

Lemma lor_bit_word x i :
  is_u64 x -> 0 <= i < 64 -> x mod 2 ^ (i + 1) = 0 ->
  is_u64 (Z.lor x (u64 (Z.shiftl 1 i))) /\ Z.lor x (u64 (Z.shiftl 1 i)) = x + 2 ^ i.
Proof.
  intros Hx Hi Hm. rewrite Z.shiftl_1_l.
  assert (Hp : 2 ^ i < 2 ^ 64) by (apply Z.pow_lt_mono_r; lia).
  rewrite u64_small by (split; [apply Z.pow_nonneg|]; lia).
  assert (Hb : Z.testbit x i = false).
  { rewrite Z.testbit_false by lia.
    apply Z.mod_divide in Hm as [k ->]; [|apply Z.pow_nonzero; lia].
    replace (k * 2 ^ (i + 1)) with (k * 2 * 2 ^ i) by (rewrite Z.pow_add_r by lia; ring).
    rewrite Z.div_mul by (apply Z.pow_nonzero; lia). apply Z.mod_mul. lia. }
  rewrite lor_bit_clear by (lia || done). split; [|done].
  apply Z.mod_divide in Hm as [k ->]; [|apply Z.pow_nonzero; lia].
  assert (Hpos : 0 < 2 ^ (i + 1)) by (apply Z.pow_pos_nonneg; lia).
  assert (H2 : 2 ^ (i + 1) = 2 * 2 ^ i) by (rewrite Z.pow_add_r; lia).
  assert (H64 : 2 ^ 64 = 2 ^ (63 - i) * 2 ^ (i + 1)) by (rewrite <-Z.pow_add_r by lia; f_equal; lia).
  unfold is_u64 in *. rewrite H64 in *.
  assert (0 <= k < 2 ^ (63 - i)) by nia. nia.
Qed.

Lemma bu_set_bit_spec q i :
  bu_ok q -> 0 <= i < 128 -> bu_val q `mod` 2 ^ (i + 1) = 0 ->
  bu_ok (bu_set_bit q i) /\ bu_val (bu_set_bit q i) = bu_val q + 2 ^ i.
Proof.
  intros [Hl Hh] Hi Hm. unfold bu_set_bit, bu_ok, bu_val in *.
  destruct (Z.ltb_spec i 64) as [Hlt|Hge]; cbn -[Z.shiftl Z.lor].
  - assert (Hml : bu_lo q `mod` 2 ^ (i + 1) = 0).
    { replace (bu_lo q + 2 ^ 64 * bu_hi q)
        with (bu_lo q + (2 ^ (63 - i) * bu_hi q) * 2 ^ (i + 1)) in Hm; [by rewrite Z.mod_add in Hm by lia|].
      rewrite <-Z.mul_assoc, (Z.mul_comm (bu_hi q)), Z.mul_assoc, <-Z.pow_add_r by lia.
      do 3 f_equal. lia. }
    destruct (lor_bit_word (bu_lo q) i Hl ltac:(lia) Hml) as [Hw He]. rewrite He in *. split; [done|lia].
  - assert (Hs : 2 ^ (i + 1) = 2 ^ (i - 64 + 1) * 2 ^ 64)
      by (rewrite <-Z.pow_add_r by lia; f_equal; lia).
    assert (Hpos : 0 < 2 ^ (i - 64 + 1)) by (apply Z.pow_pos_nonneg; lia).
    rewrite Hs in Hm. apply Z.mod_divide in Hm as [k Hk]; [|lia].
    assert (Hlo : bu_lo q = 0) by (unfold is_u64 in *; dlia).
    assert (Hmh : bu_hi q `mod` 2 ^ (i - 64 + 1) = 0)
      by (apply Z.mod_divide; [lia|]; exists k; unfold is_u64 in *; lia).
    destruct (lor_bit_word (bu_hi q) (i - 64) Hh ltac:(lia) Hmh) as [Hw He]. rewrite He in *.
    split; [done|]. replace (2 ^ i) with (2 ^ 64 * 2 ^ (i - 64))
      by (rewrite <-Z.pow_add_r by lia; f_equal; lia). lia.
Qed.

(** Before bit [n] is brought down, [q * d + r] is the dividend without its
    [n] low bits, and the shift of the remainder cannot overflow. *)
Lemma divmod_loop_spec value d :
  bu_ok value -> bu_ok d -> 0 < bu_val d < 2 ^ 127 ->
  forall n q r, (n <= 128)%nat -> bu_ok q -> bu_ok r ->
  bu_val r < bu_val d -> bu_val q `mod` 2 ^ Z.of_nat n = 0 ->
  bu_val q `div` 2 ^ Z.of_nat n * bu_val d + bu_val r = bu_val value `div` 2 ^ Z.of_nat n ->
  exists q' r', divmod_loop n value d q r = Some (q', r') /\ bu_ok q' /\ bu_ok r' /\
    bu_val r' < bu_val d /\ bu_val q' * bu_val d + bu_val r' = bu_val value.
Proof.
  intros Hv Hd Hdv. induction n as [|n IH]; intros q r Hn Hq Hr Hlt Hmod Heq.
  - exists q, r. cbn. rewrite !Z.div_1_r in Heq. auto.
  - cbn [divmod_loop]. set (b := Z.of_nat n) in *.
    replace (Z.of_nat (S n)) with (b + 1) in * by lia.
    pose proof (bu_shift_left_one_spec r Hr) as Hs.
    destruct (bu_shift_left_one r) as [ok r1]. destruct Hs as (Hr1 & Vr1 & -> & He).
    pose proof (bu_val_range r Hr) as Hrr.
    rewrite (proj2 (Z.ltb_lt _ _)) by lia. rewrite Z.mod_small in Vr1 by lia.
    rewrite bu_bit_testbit by (done || lia).
    set (bit := Z.testbit (bu_val value) b).
    set (r2 := if Z.b2z bit =? 0 then r1 else _).
    assert (Hr2 : bu_ok r2 /\ bu_val r2 = 2 * bu_val r + Z.b2z bit).
    { subst r2. destruct bit; cbn -[Z.lor Z.mul]; [|split; [done|lia]].
      rewrite lor1_even by done. destruct Hr1 as [H1 H2]. unfold bu_ok, bu_val in *; cbn -[Z.mul].
      split; [split; [|done]; unfold is_u64 in *; dlia|lia]. }
    clearbody r2. destruct Hr2 as [Hr2 Vr2].
    assert (Hbit : 0 <= Z.b2z bit <= 1) by (destruct bit; cbn; lia).
    pose proof (bu_val_range r2 Hr2).
    assert (Hpow : 0 < 2 ^ b) by (apply Z.pow_pos_nonneg; lia).
    assert (Hp1 : 2 ^ (b + 1) = 2 ^ b * 2) by (rewrite Z.pow_add_r by lia; lia).
    assert (Hdiv : bu_val value `div` 2 ^ b
      = 2 * (bu_val value `div` 2 ^ (b + 1)) + Z.b2z bit).
    { rewrite Hp1, <-Z.div_div by lia. subst bit. rewrite Z.testbit_spec' by lia. dlia. }
    apply Z.mod_divide in Hmod as [k Hk]; [|lia].
    rewrite Hk, Z.div_mul in Heq by lia.
    rewrite bu_cmp_ge by done. destruct (Z.leb_spec (bu_val d) (bu_val r2)).
    + destruct (bu_set_bit_spec q b Hq ltac:(lia)) as [Hq' Vq'];
        [by rewrite Hk, Z.mod_mul by lia|].
      apply IH; [lia|done|apply bu_sub_ok|..].
      * rewrite bu_sub_val, Z.mod_small by (done || lia). lia.
      * rewrite Vq', Hk, Hp1. replace (k * (2 ^ b * 2) + 2 ^ b) with ((2 * k + 1) * 2 ^ b) by ring.
        apply Z.mod_mul. lia.
      * rewrite Vq', Hk, Hp1. replace (k * (2 ^ b * 2) + 2 ^ b) with ((2 * k + 1) * 2 ^ b) by ring.
        rewrite Z.div_mul, Hdiv, <-Heq, bu_sub_val, Z.mod_small by (done || lia). lia.
    + apply IH; [lia|done|done|lia|..].
      * rewrite Hk, Hp1. replace (k * (2 ^ b * 2)) with ((2 * k) * 2 ^ b) by ring.
        apply Z.mod_mul. lia.
      * rewrite Hk, Hp1. replace (k * (2 ^ b * 2)) with ((2 * k) * 2 ^ b) by ring.
        rewrite Z.div_mul, Hdiv, <-Heq by lia. lia.
Qed.

Lemma bu_divmod_spec value d :
  bu_ok value -> bu_ok d -> bu_val d <> 0 ->
  exists q r, bu_divmod value d = Some (q, r) /\ bu_ok q /\ bu_ok r /\
    bu_val q = bu_val value `div` bu_val d /\ bu_val r = bu_val value `mod` bu_val d.
Proof.
  intros Hv Hd Hnz. pose proof (bu_val_range _ Hv). pose proof (bu_val_range _ Hd).
  unfold bu_divmod. rewrite bu_zero_val, (proj2 (Z.eqb_neq _ _)), bu_cmp_lt by done.
  assert (Hok0 : bu_ok (mkBU 0 0)) by (split; cbn; word).
  assert (Hok1 : bu_ok (mkBU 1 0)) by (split; cbn; word).
  destruct (Z.ltb_spec (bu_val value) (bu_val d)).
  { exists (mkBU 0 0), value. rewrite Z.div_small, Z.mod_small by lia. done. }
  rewrite shr_div by lia.
  assert (Hhi : bu_hi d `div` 2 ^ 63 = bu_val d `div` 2 ^ 127)
    by (destruct Hd; unfold bu_val, is_u64 in *; dlia).
  rewrite Hhi. destruct (Z.eqb_spec (bu_val d `div` 2 ^ 127) 0); cbn [negb].
  - destruct (divmod_loop_spec value d Hv Hd ltac:(dlia) 128 (mkBU 0 0) (mkBU 0 0))
      as (q & r & -> & Hq & Hr & Hlt & Heq); [lia|done|done|change (bu_val (mkBU 0 0)) with 0; lia|done| |].
    + change (bu_val (mkBU 0 0)) with 0. rewrite !Z.div_0_l by done.
      rewrite Z.div_small by lia. done.
    + exists q, r. pose proof (bu_val_range _ Hr). split; [done|]. split; [done|]. split; [done|]. split.
      * apply (Z.div_unique _ _ _ (bu_val r)); lia.
      * apply (Z.mod_unique _ _ (bu_val q)); lia.
  - exists (mkBU 1 0), (bu_sub value d). split; [done|]. split; [done|]. split; [apply bu_sub_ok|].
    rewrite bu_sub_val by done. change (bu_val (mkBU 1 0)) with 1.
    assert (2 ^ 127 <= bu_val d) by dlia. rewrite (Z.mod_small (_ - _)) by lia. split.
    + apply (Z.div_unique _ _ _ (bu_val value - bu_val d)); lia.
    + apply (Z.mod_unique _ _ 1); lia.
Qed.
