(* ===== verification/Wide.v ===== *)
(** * Wide: the 512-bit scratch integers of the decimal type

    [runtime/beans_rt.c], [BDecWide] and the [decw_*] functions: eight 64-bit
    limbs, least significant first.  The loops over the limbs are recursions
    on the list; [wval] gives the integer a limb list stands for. *)

From S2P Require Import Prelude Digits U128.

Open Scope c_scope.

(** ** Data and operations *)

Definition BDEC_WIDE_LIMBS : nat := 8.

Abbreviation BDecWide := (list Z).

(** [dec_overflow] never returns. *)
Definition dec_overflow {A} (line col : Z) : result A :=
  Panic (lit "decimal overflow") line col.

Definition decw_from128 (v : BU128) : BDecWide :=
  bu_lo v :: bu_hi v :: replicate (BDEC_WIDE_LIMBS - 2) 0.

Definition decw_zero (w : BDecWide) : bool := forallb (fun x => x =? 0) w.

(** The C loop runs from the top limb down; the first difference decides. *)
Fixpoint decw_cmp (a b : BDecWide) : Z :=
  match a, b with
  | x :: a, y :: b =>
      let top := decw_cmp a b in
      if negb (top =? 0) then top
      else if negb (x =? y) then (if x <? y then -1 else 1) else 0
  | _, _ => 0
  end.

Fixpoint decw_add_loop (value other : BDecWide) (carry : Z) : BDecWide * Z :=
  match value, other with
  | v :: value, o :: other =>
      let first := v +! o in
      let carry_first := first <? v in
      let second := first +! carry in
      let carry_second := second <? first in
      let '(rest, c) := decw_add_loop value other (c_bool (carry_first || carry_second)) in
      (second :: rest, c)
  | _, _ => ([], carry)
  end.

Definition decw_add (value other : BDecWide) (line col : Z) : result BDecWide :=
  let '(out, carry) := decw_add_loop value other 0 in
  if carry =? 0 then Ok out else dec_overflow line col.

(** Requires value >= other. *)
Fixpoint decw_sub_loop (value other : BDecWide) (borrow : Z) : BDecWide :=
  match value, other with
  | before :: value, o :: other =>
      let rhs := o +! borrow in
      let wrapped := rhs <? o in
      (before -! rhs) ::
        decw_sub_loop value other (c_bool (wrapped || (before <? rhs)))
  | _, _ => []
  end.

Definition decw_sub (value other : BDecWide) : BDecWide := decw_sub_loop value other 0.

Fixpoint decw_increment (value : BDecWide) (line col : Z) : result BDecWide :=
  match value with
  | [] => dec_overflow line col
  | v :: value =>
      let v := v +! 1 in
      if negb (v =? 0) then Ok (v :: value)
      else value ← decw_increment value line col; Ok (v :: value)
  end.

Fixpoint decw_mul10_loop (value : BDecWide) (carry : Z) : BDecWide * Z :=
  match value with
  | [] => ([], carry)
  | v :: value =>
      let product := bu_mul64 v 10 in
      let low := bu_lo product +! carry in
      let hi := bu_hi product +! c_bool (low <? bu_lo product) in
      let '(rest, c) := decw_mul10_loop value hi in
      (low :: rest, c)
  end.

Definition decw_mul10 (value : BDecWide) (line col : Z) : result BDecWide :=
  let '(out, carry) := decw_mul10_loop value 0 in
  if carry =? 0 then Ok out else dec_overflow line col.

Fixpoint decw_mul10_times (n : nat) (value : BDecWide) (line col : Z) : result BDecWide :=
  match n with
  | O => Ok value
  | S n => value ← decw_mul10 value line col; decw_mul10_times n value line col
  end.

Definition decw_mul_pow10 (value : BDecWide) (power line col : Z) : result BDecWide :=
  if (power <? 0) || (150 <? power) then dec_overflow line col
  else decw_mul10_times (Z.to_nat power) value line col.

(** Division by ten from the top limb down, half a limb at a time; returns
    the quotient limbs and the remainder. *)
Fixpoint decw_div10 (value : BDecWide) : BDecWide * Z :=
  match value with
  | [] => ([], 0)
  | v :: value =>
      let '(rest, remainder) := decw_div10 value in
      let high := (remainder <<! 32) |! (v >>! 32) in
      let quotient_high := u32 (high `div` 10) in
      let remainder := high `mod` 10 in
      let low := (remainder <<! 32) |! u32 v in
      let quotient_low := u32 (low `div` 10) in
      let remainder := low `mod` 10 in
      (((quotient_high <<! 32) |! quotient_low) :: rest, remainder)
  end.

Definition decw_mod10 (value : BDecWide) : Z := snd (decw_div10 value).

(** Fuel for the digit-stripping loops: [2 ^ 512 < 10 ^ 155]. *)
Definition DECW_FUEL : nat := 155.

Fixpoint decw_digits_loop (fuel : nat) (copy : BDecWide) (digits : Z) : Z :=
  match fuel with
  | O => digits
  | S fuel =>
      if decw_zero copy then digits
      else decw_digits_loop fuel (fst (decw_div10 copy)) (digits + 1)
  end.

Definition decw_digits (value : BDecWide) : Z :=
  if decw_zero value then 1 else decw_digits_loop DECW_FUEL value 0.

Definition decw_to128 (value : BDecWide) (line col : Z) : result BU128 :=
  match value with
  | lo :: hi :: rest =>
      if decw_zero rest then Ok (mkBU lo hi) else dec_overflow line col
  | _ => dec_overflow line col
  end.

(** Add one word into the limbs from the first one on, rippling the carry;
    running off the end is the [at == BDEC_WIDE_LIMBS] overflow. *)
Fixpoint decw_add_word (out : BDecWide) (word line col : Z) : result BDecWide :=
  if word =? 0 then Ok out
  else match out with
  | [] => dec_overflow line col
  | before :: out =>
      let limb := before +! word in
      rest ← decw_add_word out (c_bool (limb <? before)) line col;
      Ok (limb :: rest)
  end.

Definition decw_add_at (out : BDecWide) (at_ : nat) (word line col : Z) : result BDecWide :=
  rest ← decw_add_word (drop at_ out) word line col; Ok (take at_ out ++ rest).

Definition decw_multiply (left_ right_ : BU128) (line col : Z) : result BDecWide :=
  let a0 := bu_lo left_ in let a1 := bu_hi left_ in
  let b0 := bu_lo right_ in let b1 := bu_hi right_ in
  let step (i j : nat) (a b : Z) (out : BDecWide) : result BDecWide :=
    let at_ := (i + j)%nat in
    let product := bu_mul64 a b in
    out ← decw_add_at out at_ (bu_lo product) line col;
    decw_add_at out (S at_) (bu_hi product) line col in
  out ← step 0%nat 0%nat a0 b0 (replicate BDEC_WIDE_LIMBS 0);
  out ← step 0%nat 1%nat a0 b1 out;
  out ← step 1%nat 0%nat a1 b0 out;
  step 1%nat 1%nat a1 b1 out.

(** ** Values *)

Close Scope c_scope.

Fixpoint wval (w : list Z) : Z :=
  match w with [] => 0 | x :: w => x + 2 ^ 64 * wval w end.

Definition limbs_ok (w : list Z) : Prop := Forall is_u64 w.

Definition wide_ok (w : BDecWide) : Prop := length w = BDEC_WIDE_LIMBS /\ limbs_ok w.

(** One past the greatest value of [n] limbs. *)
Definition wlim (n : nat) : Z := 2 ^ (64 * Z.of_nat n).

Lemma wlim_S n : wlim (S n) = 2 ^ 64 * wlim n.
Proof. unfold wlim. rewrite <-Z.pow_add_r by lia. f_equal. lia. Qed.

Lemma wlim_pos n : 0 < wlim n.
Proof. apply Z.pow_pos_nonneg; lia. Qed.

Lemma wval_range w : limbs_ok w -> 0 <= wval w < wlim (length w).
Proof.
  induction 1 as [|x w Hx _ IH]; [done|].
  cbn [wval length]. rewrite wlim_S. unfold is_u64 in Hx. lia.
Qed.

Lemma wide_range w : wide_ok w -> 0 <= wval w < 2 ^ 512.
Proof. intros [Hl Hw]. pose proof (wval_range w Hw) as H. by rewrite Hl in H. Qed.

Lemma wval_app a b : wval (a ++ b) = wval a + wlim (length a) * wval b.
Proof.
  induction a as [|x a IH]; cbn [app wval length]; [unfold wlim; cbn; lia|].
  rewrite IH, wlim_S. lia.
Qed.

Lemma wval_zeros n : wval (replicate n 0) = 0.
Proof. induction n as [|n IH]; cbn [replicate wval]; lia. Qed.

Lemma limbs_zeros n : limbs_ok (replicate n 0).
Proof. apply Forall_replicate. word. Qed.

Lemma decw_from128_ok v : bu_ok v -> wide_ok (decw_from128 v).
Proof.
  intros [Hl Hh]. split; [done|]. constructor; [done|]. constructor; [done|].
  apply limbs_zeros.
Qed.

Lemma decw_from128_val v : wval (decw_from128 v) = bu_val v.
Proof. unfold decw_from128, bu_val. cbn [wval]. rewrite wval_zeros. lia. Qed.

Lemma decw_zero_val w : limbs_ok w -> decw_zero w = (wval w =? 0).
Proof.
  induction 1 as [|x w Hx Hw IH]; [done|]. cbn [decw_zero forallb wval].
  change (forallb _ w) with (decw_zero w). rewrite IH.
  pose proof (wval_range w Hw). unfold is_u64 in Hx. lia.
Qed.

Lemma decw_cmp_val a : limbs_ok a -> forall b, limbs_ok b -> length a = length b ->
  decw_cmp a b = match Z.compare (wval a) (wval b) with Lt => -1 | Eq => 0 | Gt => 1 end.
Proof.
  induction 1 as [|x a Hx Ha IH]; intros b Hb Hlen.
  - destruct b; [done|discriminate].
  - destruct b as [|y b]; [discriminate|]. apply Forall_cons in Hb as [Hy Hb].
    cbn [decw_cmp wval]. rewrite (IH b) by (done || cbn in Hlen; lia).
    pose proof (wval_range a Ha). pose proof (wval_range b Hb). unfold is_u64 in *.
    destruct (Z.compare_spec (wval a) (wval b)); cbn [Z.eqb negb];
      destruct (Z.compare_spec (x + 2 ^ 64 * wval a) (y + 2 ^ 64 * wval b));
      split_tests; bools; lia.
Qed.

Lemma decw_cmp_ge a b : wide_ok a -> wide_ok b -> (0 <=? decw_cmp a b) = (wval b <=? wval a).
Proof.
  intros [Ha Ha'] [Hb Hb']. rewrite decw_cmp_val by (done || congruence).
  destruct (Z.compare_spec (wval a) (wval b)); lia.
Qed.

Lemma c_bool_01 b : c_bool b = 0 \/ c_bool b = 1.
Proof. destruct b; auto. Qed.

(** One limb of the addition: the two wrap tests compute the carry. *)
Lemma add_limb v o c :
  is_u64 v -> is_u64 o -> 0 <= c <= 1 ->
  let first := u64 (v + o) in
  let second := u64 (first + c) in
  let c' := c_bool ((first <? v) || (second <? first)) in
  second + 2 ^ 64 * c' = v + o + c /\ 0 <= c' <= 1.
Proof.
  intros Hv Ho Hc. cbn zeta.
  destruct (Z.ltb_spec (u64 (v + o)) v), (Z.ltb_spec (u64 (u64 (v + o) + c)) (u64 (v + o)));
    cbn [orb c_bool]; word.
Qed.

Lemma decw_add_loop_spec a : limbs_ok a -> forall b c, limbs_ok b -> length a = length b ->
  0 <= c <= 1 ->
  let '(out, c') := decw_add_loop a b c in
  limbs_ok out /\ length out = length a /\ 0 <= c' <= 1 /\
  wval out + wlim (length a) * c' = wval a + wval b + c.
Proof.
  induction 1 as [|x a Hx Ha IH]; intros b c Hb Hlen Hc.
  - destruct b; [|discriminate]. cbn. split; [constructor|]. unfold wlim. cbn. lia.
  - destruct b as [|y b]; [discriminate|]. apply Forall_cons in Hb as [Hy Hb].
    cbn [decw_add_loop]. pose proof (add_limb x y c Hx Hy Hc) as Hl. cbn zeta in Hl.
    set (c1 := c_bool _) in *. set (s := u64 (u64 (x + y) + c)) in *.
    destruct Hl as [Hl Hc1]. specialize (IH b c1 Hb ltac:(cbn in Hlen; lia) Hc1).
    destruct (decw_add_loop a b c1) as [out c']. destruct IH as (Hok & Hlen' & Hc' & Hv).
    split; [constructor; [apply u64_is|done]|]. cbn [length wval]. rewrite wlim_S.
    split; [lia|]. split; [done|]. lia.
Qed.

Lemma decw_add_spec a b line col :
  wide_ok a -> wide_ok b -> wval a + wval b < 2 ^ 512 ->
  exists out, decw_add a b line col = Ok out /\ wide_ok out /\ wval out = wval a + wval b.
Proof.
  intros [Hla Ha] [Hlb Hb] Hlt. unfold decw_add.
  pose proof (decw_add_loop_spec a Ha b 0 Hb ltac:(congruence) ltac:(lia)) as H.
  destruct (decw_add_loop a b 0) as [out c']. destruct H as (Hok & Hlen & Hc & Hv).
  pose proof (wval_range out Hok). rewrite Hla in *. change (wlim BDEC_WIDE_LIMBS) with (2 ^ 512) in *.
  assert (c' = 0) as -> by lia. exists out. cbn. split; [done|]. split; [split; [congruence|done]|lia].
Qed.

Lemma sub_limb v o c :
  is_u64 v -> is_u64 o -> 0 <= c <= 1 ->
  let rhs := u64 (o + c) in
  let c' := c_bool ((rhs <? o) || (v <? rhs)) in
  u64 (v - rhs) = v - o - c + 2 ^ 64 * c' /\ 0 <= c' <= 1.
Proof.
  intros Hv Ho Hc. cbn zeta.
  destruct (Z.ltb_spec (u64 (o + c)) o), (Z.ltb_spec v (u64 (o + c)));
    cbn [orb c_bool]; word.
Qed.

Lemma decw_sub_loop_spec a : limbs_ok a -> forall b c, limbs_ok b -> length a = length b ->
  0 <= c <= 1 ->
  exists c', 0 <= c' <= 1 /\ limbs_ok (decw_sub_loop a b c) /\
  length (decw_sub_loop a b c) = length a /\
  wval (decw_sub_loop a b c) = wval a - wval b - c + wlim (length a) * c'.
Proof.
  induction 1 as [|x a Hx Ha IH]; intros b c Hb Hlen Hc.
  - destruct b; [|discriminate]. exists c. cbn. split; [done|]. split; [constructor|].
    unfold wlim. cbn. lia.
  - destruct b as [|y b]; [discriminate|]. apply Forall_cons in Hb as [Hy Hb].
    cbn [decw_sub_loop]. pose proof (sub_limb x y c Hx Hy Hc) as Hl. cbn zeta in Hl.
    set (c1 := c_bool _) in *. destruct Hl as [Hl Hc1].
    destruct (IH b c1 Hb ltac:(cbn in Hlen; lia) Hc1) as (c' & Hc' & Hok & Hlen' & Hv).
    exists c'. split; [done|]. split; [constructor; [apply u64_is|done]|].
    cbn [length wval]. rewrite wlim_S. split; [lia|]. lia.
Qed.

Lemma decw_sub_spec a b :
  wide_ok a -> wide_ok b -> wval b <= wval a ->
  wide_ok (decw_sub a b) /\ wval (decw_sub a b) = wval a - wval b.
Proof.
  intros [Hla Ha] [Hlb Hb] Hle. unfold decw_sub.
  destruct (decw_sub_loop_spec a Ha b 0 Hb ltac:(congruence) ltac:(lia)) as (c' & Hc' & Hok & Hlen & Hv).
  pose proof (wval_range _ Hok) as Hr. pose proof (wval_range _ Ha). pose proof (wval_range _ Hb).
  rewrite Hlen in Hr. pose proof (wlim_pos (length a)). rewrite Hv in Hr.
  assert (c' = 0) as -> by nia. split; [split; [congruence|done]|lia].
Qed.

Lemma decw_increment_spec line col w :
  limbs_ok w -> wval w + 1 < wlim (length w) ->
  exists out, decw_increment w line col = Ok out /\ limbs_ok out /\
    length out = length w /\ wval out = wval w + 1.
Proof.
  induction 1 as [|x w Hx Hw IH]; cbn [decw_increment wval length].
  - unfold wlim. cbn. lia.
  - intros Hlt. rewrite wlim_S in Hlt. destruct (Z.eqb_spec (u64 (x + 1)) 0) as [E|E]; cbn [negb].
    + destruct IH as (out & -> & Hok & Hlen & Hv); [word|].
      eexists. cbn. split; [done|]. split; [constructor; [word|done]|]. cbn [length wval].
      split; [lia|word].
    + eexists. split; [done|]. split; [constructor; [apply u64_is|done]|]. cbn [length wval].
      split; [lia|word].
Qed.

Lemma mul10_limb v c :
  is_u64 v -> 0 <= c <= 9 ->
  let product := bu_mul64 v 10 in
  let low := u64 (bu_lo product + c) in
  let c' := u64 (bu_hi product + c_bool (low <? bu_lo product)) in
  low + 2 ^ 64 * c' = 10 * v + c /\ 0 <= c' <= 9.
Proof.
  intros Hv Hc. cbn zeta.
  pose proof (bu_mul64_val v 10 Hv ltac:(word)) as Hp.
  pose proof (bu_mul64_ok v 10 Hv ltac:(word)) as [Hl Hh].
  generalize dependent (bu_mul64 v 10). intros [lo hi]. unfold bu_val. cbn. intros.
  destruct (Z.ltb_spec (u64 (lo + c)) lo); cbn [c_bool]; word.
Qed.

Lemma decw_mul10_loop_spec a : limbs_ok a -> forall c, 0 <= c <= 9 ->
  let '(out, c') := decw_mul10_loop a c in
  limbs_ok out /\ length out = length a /\ 0 <= c' <= 9 /\
  wval out + wlim (length a) * c' = 10 * wval a + c.
Proof.
  induction 1 as [|x a Hx Ha IH]; intros c Hc.
  - cbn. split; [constructor|]. unfold wlim. cbn. lia.
  - cbn [decw_mul10_loop]. pose proof (mul10_limb x c Hx Hc) as Hl. cbn zeta in Hl.
    set (c1 := u64 (_ + c_bool _)) in *. set (s := u64 (_ + c)) in *.
    destruct Hl as [Hl Hc1]. specialize (IH c1 Hc1).
    destruct (decw_mul10_loop a c1) as [out c']. destruct IH as (Hok & Hlen' & Hc' & Hv).
    split; [constructor; [apply u64_is|done]|]. cbn [length wval]. rewrite wlim_S.
    split; [lia|]. split; [done|]. lia.
Qed.

Lemma decw_mul10_spec a line col :
  wide_ok a -> 10 * wval a < 2 ^ 512 ->
  exists out, decw_mul10 a line col = Ok out /\ wide_ok out /\ wval out = 10 * wval a.
Proof.
  intros [Hla Ha] Hlt. unfold decw_mul10.
  pose proof (decw_mul10_loop_spec a Ha 0 ltac:(lia)) as H.
  destruct (decw_mul10_loop a 0) as [out c']. destruct H as (Hok & Hlen & Hc & Hv).
  pose proof (wval_range out Hok). rewrite Hla in *. change (wlim BDEC_WIDE_LIMBS) with (2 ^ 512) in *.
  assert (c' = 0) as -> by lia. exists out. cbn. split; [done|]. split; [split; [congruence|done]|lia].
Qed.

Lemma decw_mul10_times_spec line col n : forall a,
  wide_ok a -> wval a * 10 ^ Z.of_nat n < 2 ^ 512 ->
  exists out, decw_mul10_times n a line col = Ok out /\ wide_ok out /\
    wval out = wval a * 10 ^ Z.of_nat n.
Proof.
  induction n as [|n IH]; intros a Ha Hlt; cbn [decw_mul10_times].
  - exists a. cbn. split; [done|]. split; [done|lia].
  - replace (Z.of_nat (S n)) with (Z.of_nat n + 1) in * by lia.
    rewrite pow10_S in * by lia. pose proof (pow10_pos (Z.of_nat n) ltac:(lia)).
    pose proof (wide_range a Ha).
    destruct (decw_mul10_spec a line col Ha ltac:(nia)) as (b & -> & Hb & Vb).
    destruct (IH b Hb) as (out & Ho & Hok & Hv); [rewrite Vb; lia|].
    exists out. cbn. split; [done|]. split; [done|]. rewrite Hv, Vb. lia.
Qed.

Lemma decw_mul_pow10_spec a p line col :
  wide_ok a -> 0 <= p <= 150 -> wval a * 10 ^ p < 2 ^ 512 ->
  exists out, decw_mul_pow10 a p line col = Ok out /\ wide_ok out /\ wval out = wval a * 10 ^ p.
Proof.
  intros Ha Hp Hlt. unfold decw_mul_pow10.
  replace ((p <? 0) || (150 <? p)) with false by lia.
  pose proof (decw_mul10_times_spec line col (Z.to_nat p) a Ha) as H.
  rewrite Z2Nat.id in H by lia. auto.
Qed.

Lemma decw_div10_spec a : limbs_ok a ->
  let '(q, r) := decw_div10 a in
  limbs_ok q /\ length q = length a /\ wval q = wval a `div` 10 /\ r = wval a `mod` 10.
Proof.
  induction 1 as [|x a Hx Ha IH]; cbn [decw_div10];
    [split; [constructor|done]|].
  destruct (decw_div10 a) as [q r]. destruct IH as (Hq & Hlen & Hv & Hr).
  pose proof (Z.mod_pos_bound (wval a) 10 ltac:(lia)).
  rewrite shr_div, (join32_l r), (u32_small r) by (lia || word).
  set (high := x `div` 2 ^ 32 + 2 ^ 32 * r).
  assert (Hh : 0 <= high < 10 * 2 ^ 32) by (subst high; word).
  rewrite (join32_l (high `mod` 10)), (u32_small (high `mod` 10)) by word.
  set (low := u32 x + 2 ^ 32 * (high `mod` 10)).
  assert (Hl : 0 <= low < 10 * 2 ^ 32) by (subst low; word).
  rewrite join32_l, !u32_small by word.
  split; [constructor; [word|done]|]. cbn [length wval]. split; [by rewrite Hlen|].
  assert (Hsum : x + 2 ^ 64 * wval a =
    10 * (low `div` 10 + 2 ^ 32 * (high `div` 10) + 2 ^ 64 * wval q) + low `mod` 10).
  { rewrite Hv. subst low high. clear Hh Hl Hlen Hv Hq. rewrite Hr. word. }
  pose proof (Z.mod_pos_bound low 10 ltac:(lia)).
  split; [apply (Z.div_unique _ _ _ (low `mod` 10)); lia|].
  apply (Z.mod_unique _ _ (low `div` 10 + 2 ^ 32 * (high `div` 10) + 2 ^ 64 * wval q)); lia.
Qed.

Lemma decw_div10_wide a : wide_ok a ->
  exists q, decw_div10 a = (q, wval a `mod` 10) /\ wide_ok q /\ wval q = wval a `div` 10.
Proof.
  intros [Hl Ha]. pose proof (decw_div10_spec a Ha) as H.
  destruct (decw_div10 a) as [q r]. destruct H as (Hq & Hlen & Hv & ->).
  exists q. split; [done|]. split; [split; [congruence|done]|done].
Qed.

Lemma decw_mod10_val a : wide_ok a -> decw_mod10 a = wval a `mod` 10.
Proof. intros Ha. unfold decw_mod10. by destruct (decw_div10_wide a Ha) as (q & -> & _). Qed.

Lemma decw_digits_loop_spec fuel : forall w d, wide_ok w -> wval w < 10 ^ Z.of_nat fuel ->
  decw_digits_loop fuel w d = d + (if wval w =? 0 then 0 else ndigits (wval w)).
Proof.
  induction fuel as [|fuel IH]; intros w d Hw Hlt; cbn [decw_digits_loop];
    pose proof (wide_range w Hw).
  - cbn in Hlt. replace (wval w) with 0 by lia. cbn. lia.
  - rewrite decw_zero_val by apply Hw. destruct (Z.eqb_spec (wval w) 0); [lia|].
    replace (Z.of_nat (S fuel)) with (Z.of_nat fuel + 1) in Hlt by lia.
    rewrite pow10_S in Hlt by lia.
    destruct (decw_div10_wide w Hw) as (q & -> & Hq & Vq). cbn [fst].
    rewrite IH by (done || dlia). rewrite Vq.
    destruct (Z.eqb_spec (wval w `div` 10) 0) as [E|E].
    + rewrite ndigits_small by dlia. lia.
    + rewrite (ndigits_div10 (wval w)) by dlia. lia.
Qed.

Lemma decw_digits_val w : wide_ok w -> decw_digits w = ndigits (wval w).
Proof.
  intros Hw. pose proof (wide_range w Hw). unfold decw_digits.
  rewrite decw_zero_val by apply Hw. destruct (Z.eqb_spec (wval w) 0) as [->|E]; [done|].
  rewrite decw_digits_loop_spec; [|done|change (10 ^ Z.of_nat DECW_FUEL) with (10 ^ 155); lia].
  rewrite (proj2 (Z.eqb_neq _ _)) by done. lia.
Qed.

Lemma decw_to128_spec w line col :
  wide_ok w -> wval w < 2 ^ 128 ->
  exists v, decw_to128 w line col = Ok v /\ bu_ok v /\ bu_val v = wval w.
Proof.
  intros [Hlen Hw] Hlt. destruct w as [|lo [|hi rest]]; [done..|].
  apply Forall_cons in Hw as [Hlo Hw]. apply Forall_cons in Hw as [Hhi Hr].
  cbn [decw_to128 wval] in *. rewrite decw_zero_val by done.
  pose proof (wval_range rest Hr). unfold is_u64 in *.
  rewrite (proj2 (Z.eqb_eq _ _)) by lia.
  eexists. split; [done|]. unfold bu_ok, bu_val, is_u64. cbn. split; [done|lia].
Qed.

Lemma decw_add_word_spec line col out : limbs_ok out -> forall word, is_u64 word ->
  wval out + word < wlim (length out) ->
  exists out', decw_add_word out word line col = Ok out' /\ limbs_ok out' /\
    length out' = length out /\ wval out' = wval out + word.
Proof.
  induction 1 as [|x a Hx Ha IH]; intros w Hw Hlt; cbn [decw_add_word];
    destruct (Z.eqb_spec w 0) as [->|E].
  - exists []. split; [done|]. split; [constructor|done].
  - cbn in Hlt. unfold wlim, is_u64 in *. cbn in *. lia.
  - exists (x :: a). split; [done|]. split; [by constructor|]. split; [done|lia].
  - cbn [length wval] in *. rewrite wlim_S in Hlt.
    assert (Hl : u64 (x + w) + 2 ^ 64 * c_bool (u64 (x + w) <? x) = x + w /\
                 is_u64 (c_bool (u64 (x + w) <? x)))
      by (destruct (Z.ltb_spec (u64 (x + w)) x); word).
    destruct Hl as [Hl Hc]. destruct (IH _ Hc) as (o & -> & Hok & Hlen & Hv).
    { pose proof (wval_range a Ha). pose proof (u64_is (x + w)). unfold is_u64 in *. lia. }
    eexists. cbn. split; [done|]. split; [constructor; [apply u64_is|done]|].
    cbn [length wval]. split; [lia|]. lia.
Qed.

Lemma decw_add_at_spec line col k out w :
  wide_ok out -> (k <= 8)%nat -> is_u64 w -> wval out + wlim k * w < 2 ^ 512 ->
  exists out', decw_add_at out k w line col = Ok out' /\ wide_ok out' /\
    wval out' = wval out + wlim k * w.
Proof.
  intros [Hlen Hout] Hk Hw Hlt. unfold decw_add_at, BDEC_WIDE_LIMBS in *.
  rewrite <-(take_drop k out) in Hlt. rewrite wval_app, length_take, Nat.min_l in Hlt by lia.
  assert (Ht : limbs_ok (take k out)) by by apply Forall_take.
  assert (Hd : limbs_ok (drop k out)) by by apply Forall_drop.
  pose proof (wval_range _ Ht). pose proof (wlim_pos k).
  assert (H8 : 2 ^ 512 = wlim k * wlim (length (drop k out))).
  { unfold wlim. rewrite <-Z.pow_add_r by lia. rewrite length_drop, Hlen. f_equal. lia. }
  destruct (decw_add_word_spec line col _ Hd w Hw) as (o & -> & Hok & Hlen' & Hv); [nia|].
  eexists. cbn. split; [done|]. split.
  - split; [rewrite length_app, Hlen', length_take, length_drop; unfold BDEC_WIDE_LIMBS; lia|by apply Forall_app].
  - rewrite wval_app, length_take, Nat.min_l, Hv by lia.
    rewrite <-(take_drop k out) at 3. rewrite wval_app, length_take, Nat.min_l by lia. lia.
Qed.

Lemma decw_multiply_spec a b line col :
  bu_ok a -> bu_ok b ->
  exists out, decw_multiply a b line col = Ok out /\ wide_ok out /\
    wval out = bu_val a * bu_val b.
Proof.
  intros [Ha0 Ha1] [Hb0 Hb1]. unfold decw_multiply, bu_val.
  assert (Hstep : forall i j x y out, (i + j <= 2)%nat -> is_u64 x -> is_u64 y -> wide_ok out ->
    wval out + wlim (i + j) * (x * y) < 2 ^ 512 -> exists out',
    (out ← decw_add_at out (i + j) (bu_lo (bu_mul64 x y)) line col;
     decw_add_at out (S (i + j)) (bu_hi (bu_mul64 x y)) line col) = Ok out' /\
    wide_ok out' /\ wval out' = wval out + wlim (i + j) * (x * y)).
  { intros i j x y out Hij Hx Hy Hout Hlt.
    pose proof (bu_mul64_ok x y Hx Hy) as [Hl Hh]. pose proof (bu_mul64_val x y Hx Hy) as Hv.
    unfold bu_val in Hv. pose proof (wlim_pos (i + j)).
    destruct (decw_add_at_spec line col (i + j) out _ Hout ltac:(lia) Hl) as (o1 & -> & Ho1 & V1);
      [unfold is_u64 in *; nia|].
    destruct (decw_add_at_spec line col (S (i + j)) o1 _ Ho1 ltac:(lia) Hh) as (o2 & E2 & Ho2 & V2);
      [rewrite wlim_S, V1; unfold is_u64 in *; nia|].
    exists o2. cbn. split; [done|]. split; [done|]. rewrite V2, V1, wlim_S, <-Hv. ring. }
  assert (Hz : wide_ok (replicate BDEC_WIDE_LIMBS 0)) by (split; [done|apply limbs_zeros]).
  assert (Hp : forall x y, is_u64 x -> is_u64 y -> 0 <= x * y < 2 ^ 128)
    by (unfold is_u64; intros; nia).
  pose proof (Hp _ _ Ha0 Hb0). pose proof (Hp _ _ Ha0 Hb1).
  pose proof (Hp _ _ Ha1 Hb0). pose proof (Hp _ _ Ha1 Hb1).
  change (wlim 0) with 1 in *. assert (Hw1 : wlim 1 = 2 ^ 64) by done.
  assert (Hw2 : wlim 2 = 2 ^ 128) by done.
  destruct (Hstep 0%nat 0%nat _ _ _ ltac:(lia) Ha0 Hb0 Hz) as (o1 & -> & Ho1 & V1);
    [rewrite wval_zeros; change (wlim (0 + 0)) with 1; lia|].
  rewrite wval_zeros in V1. change (wlim (0 + 0)) with 1 in V1. cbn [mbind result_bind].
  destruct (Hstep 0%nat 1%nat _ _ _ ltac:(lia) Ha0 Hb1 Ho1) as (o2 & -> & Ho2 & V2);
    [cbn [Nat.add]; lia|].
  cbn [mbind result_bind Nat.add] in *.
  destruct (Hstep 1%nat 0%nat _ _ _ ltac:(lia) Ha1 Hb0 Ho2) as (o3 & E3 & Ho3 & V3);
    [cbn [Nat.add]; lia|].
  cbn [mbind result_bind Nat.add] in *. rewrite E3.
  destruct (Hstep 1%nat 1%nat _ _ _ ltac:(lia) Ha1 Hb1 Ho3) as (o4 & E4 & Ho4 & V4);
    [cbn [Nat.add]; lia|].
  cbn [mbind result_bind Nat.add] in *. exists o4. split; [exact E4|]. split; [done|].
  rewrite V4, V3, V2, V1, Hw1, Hw2. ring.
Qed.
