(* ===== verification/Hash.v ===== *)
(** * Hash: the map index's hash functions

    [runtime/beans_rt.c], [beans_mix64] and the hashes of raw slots, floats
    by their bits, strings and byte buffers. *)

From S2P Require Import Prelude.

Open Scope c_scope.

Definition beans_mix64 (x : Z) : Z :=
  let x := x ^! (x >>! 32) in
  let x := x *! 0xd6e8feb86659fd93 in
  x ^! (x >>! 32).

Definition beans_slot_mix (v : Z) : Z := i64 (beans_mix64 (u64 v)).

Definition beans_f64_hash (v : Z) : Z := i64 (beans_mix64 (u64 v)).

Definition beans_f32_hash (v : Z) : Z := i64 (beans_mix64 (u32 v)).

(** One FNV-1a step. *)
Definition fnv_step (h c : Z) : Z := (h ^! c) *! 1099511628211.

Definition beans_str_hash (s : str) : Z :=
  i64 (beans_mix64 (foldl fnv_step 1469598103934665603 s)).

Definition beans_bytes_hash (b : str) : Z :=
  i64 (beans_mix64 (foldl fnv_step 1469598103934665603 b)).


(** ** Facts *)

Lemma lxor_range x y n : 0 <= n -> 0 <= x < 2 ^ n -> 0 <= y < 2 ^ n -> 0 <= Z.lxor x y < 2 ^ n.
Proof.
  intros Hn Hx Hy. assert (0 <= Z.lxor x y) by (apply Z.lxor_nonneg; lia). split; [done|].
  destruct (Z.eq_dec (Z.lxor x y) 0) as [->|]; [by apply Z.pow_pos_nonneg|].
  apply Z.log2_lt_pow2; [lia|]. pose proof (Z.log2_lxor x y ltac:(lia) ltac:(lia)).
  assert (forall z, 0 <= z < 2 ^ n -> Z.log2 z < n \/ z = 0) as Hl.
  { intros z Hz. destruct (Z.eq_dec z 0); [by right|left]. apply Z.log2_lt_pow2; lia. }
  destruct (Hl x Hx) as [|Hx0], (Hl y Hy) as [|Hy0]; subst; rewrite ?Z.lxor_0_l, ?Z.lxor_0_r in *; lia.
Qed.

Lemma mix64_range x : is_u64 x -> is_u64 (beans_mix64 x).
Proof.
  intros Hx. unfold beans_mix64. cbv zeta.
  assert (Hs : forall y, is_u64 y -> is_u64 (Z.shiftr y 32)).
  { intros y Hy. rewrite shr_div by lia. word. }
  unfold is_u64. apply lxor_range; [lia|apply u64_is|]. apply Hs, u64_is.
Qed.
