(* ===== verification/Decimal.v ===== *)
(** * Decimal: the 38-digit decimal type

    [runtime/beans_rt.c], [BDec] and the [dec_*] / [beans_decv_*] functions:
    a signed 128-bit coefficient in two's complement limbs and a scale.  Each
    definition is the C function; a [beans_panic] is [Panic].  The boxed
    entries ([beans_dec_add], ...) copy the same result to the heap and have
    no definition of their own.  What the operations compute is specified in
    [DecMath]. *)

From S2P Require Import Prelude Digits U128 Wide Hash.

Open Scope c_scope.

(** ** Data *)

Definition BDEC_PRECISION : Z := 38.
Definition BDEC_MAX_SCALE : Z := 65535.

Record BDec : Type := mkDec { d_lo : Z; d_hi : Z; d_s : Z; d_pad : Z }.

#[export] Instance BDec_eq_dec : EqDecision BDec.
Proof. solve_decision. Defined.

Definition dec_negative (v : BDec) : bool := negb (d_hi v >>! 63 =? 0).

Definition dec_zero (v : BDec) : bool := (d_lo v =? 0) && (d_hi v =? 0).

Definition dec_mag (v : BDec) : BU128 :=
  let bits := mkBU (d_lo v) (d_hi v) in
  if dec_negative v then bu_twos bits else bits.

Definition dec_set (magnitude : BU128) (negative : bool) (scale : Z) : BDec :=
  let bits := if negative && negb (bu_zero magnitude) then bu_twos magnitude else magnitude in
  mkDec (bu_lo bits) (bu_hi bits) scale 0.

(** The loop of [dec_coeff_limit], [n] multiplications to go. *)
Fixpoint dec_coeff_limit_loop (n : nat) (value : BU128) : option BU128 :=
  match n with
  | O => Some value
  | S n =>
      let '(ok, next) := bu_mul_small value 10 in
      if ok then dec_coeff_limit_loop n next else None
  end.

Definition dec_coeff_limit : BU128 :=
  match dec_coeff_limit_loop (Z.to_nat BDEC_PRECISION) (mkBU 1 0) with
  | Some value => bu_sub value (mkBU 1 0)
  | None => mkBU 0 0
  end.

(** Quotient and remainder by ten; the divisor is never zero. *)
Definition bu_div10 (v : BU128) : BU128 * Z := default (v, 0) (bu_div_small v 10).

(** [2 ^ 128 < 10 ^ 39]: the digit loops over a [BU128] end within 39 turns. *)
Definition BU_FUEL : nat := 39.

Fixpoint dec_digits128_loop (fuel : nat) (value : BU128) (digits : Z) : Z :=
  match fuel with
  | O => digits
  | S fuel =>
      if negb (bu_hi value =? 0) || (10 <=? bu_lo value)
      then dec_digits128_loop fuel (fst (bu_div10 value)) (digits + 1)
      else digits
  end.

Definition dec_digits128 (value : BU128) : Z := dec_digits128_loop BU_FUEL value 1.

(** ** Rounding and normalisation *)

Definition dec_should_increment (guard : Z) (sticky : bool) (kept : BDecWide)
    (negative : bool) (mode : Z) : result bool :=
  if mode =? 0 then
    Ok ((5 <? guard) || ((guard =? 5) && (sticky || negb (decw_mod10 kept `mod` 2 =? 0))))
  else if mode =? 1 then Ok (5 <=? guard)
  else if mode =? 2 then Ok false
  else if mode =? 3 then Ok (negative && (negb (guard =? 0) || sticky))
  else if mode =? 4 then Ok (negb negative && (negb (guard =? 0) || sticky))
  else Panic (lit "unknown decimal rounding mode") 0 0.

(** The loop that drops [n] low digits: the last one dropped is the guard,
    the others are sticky. *)
Fixpoint dec_drop (n : nat) (value : BDecWide) (guard : Z) (sticky : bool)
    : BDecWide * Z * bool :=
  match n with
  | O => (value, guard, sticky)
  | S n =>
      let '(value, removed) := decw_div10 value in
      match n with
      | O => dec_drop n value removed sticky
      | S _ => dec_drop n value guard (sticky || negb (removed =? 0))
      end
  end.

(** [while (scale > BDEC_MAX_SCALE && decw_mod10(&value) == 0)]. *)
Fixpoint dec_strip_scale (fuel : nat) (value : BDecWide) (scale : Z) : BDecWide * Z :=
  match fuel with
  | O => (value, scale)
  | S fuel =>
      if (BDEC_MAX_SCALE <? scale) && (decw_mod10 value =? 0)
      then dec_strip_scale fuel (fst (decw_div10 value)) (scale - 1)
      else (value, scale)
  end.

(** The first half of [dec_finish]: a negative scale is multiplied out and a
    scale past the maximum loses trailing zeros. *)
Definition dec_finish_scale (value : BDecWide) (scale line col : Z)
    : result (BDecWide * Z) :=
  r ← (if scale <? 0 then
         let expand := - scale in
         if (BDEC_PRECISION <? expand) || (BDEC_PRECISION <? decw_digits value + expand)
         then dec_overflow line col
         else value ← decw_mul_pow10 value expand line col; Ok (value, 0)
       else Ok (value, scale));
  let '(value, scale) := dec_strip_scale DECW_FUEL (fst r) (snd r) in
  if BDEC_MAX_SCALE <? scale then dec_overflow line col else Ok (value, scale).

(** The second half: at most 38 digits are kept, rounded in [mode]. *)
Definition dec_finish_round (value : BDecWide) (negative : bool) (scale mode line col : Z)
    : result (BDecWide * Z) :=
  let digits := decw_digits value in
  if BDEC_PRECISION <? digits then
    let drop := digits - BDEC_PRECISION in
    if scale <? drop then dec_overflow line col
    else
      let '(value, guard, sticky) := dec_drop (Z.to_nat drop) value 0 false in
      let scale := scale - drop in
      inc ← dec_should_increment guard sticky value negative mode;
      value ← (if inc : bool then decw_increment value line col else Ok value);
      if BDEC_PRECISION <? decw_digits value then
        if (scale =? 0) || negb (decw_mod10 value =? 0) then dec_overflow line col
        else Ok (fst (decw_div10 value), scale - 1)
      else Ok (value, scale)
  else Ok (value, scale).

Definition dec_finish (value : BDecWide) (negative : bool) (scale mode line col : Z)
    : result BDec :=
  if decw_zero value then
    let scale := if scale <? 0 then 0 else scale in
    if BDEC_MAX_SCALE <? scale then dec_overflow line col
    else Ok (dec_set (mkBU 0 0) false scale)
  else
    r ← dec_finish_scale value scale line col;
    r ← dec_finish_round (fst r) negative (snd r) mode line col;
    coefficient ← decw_to128 (fst r) line col;
    if 0 <? bu_cmp coefficient dec_coeff_limit then dec_overflow line col
    else Ok (dec_set coefficient negative (snd r)).

Definition BROUND_HALF_EVEN : Z := 0.
Definition BROUND_FLOOR : Z := 3.
Definition BROUND_CEIL : Z := 4.

Definition beans_dec_new (lo hi s : Z) : result BDec :=
  let value := mkDec lo hi s 0 in
  dec_finish (decw_from128 (dec_mag value)) (dec_negative value) s BROUND_HALF_EVEN 0 0.

Definition beans_decv_from_int (value : Z) : BDec :=
  let bits := u64 value in
  let magnitude := mkBU (if value <? 0 then 0 -! bits else bits) 0 in
  dec_set magnitude (value <? 0) 0.

(** ** Arithmetic *)

Definition dec_widen (value : BDec) (scale line col : Z) : result BDec :=
  if scale <=? d_s value then Ok value
  else if dec_zero value then
    if BDEC_MAX_SCALE <? scale then dec_overflow line col
    else Ok (dec_set (mkBU 0 0) false scale)
  else
    let room := BDEC_PRECISION - dec_digits128 (dec_mag value) in
    let step := scale - d_s value in
    let step := if room <? step then room else step in
    if step <=? 0 then Ok value
    else
      wide ← decw_mul_pow10 (decw_from128 (dec_mag value)) step line col;
      dec_finish wide (dec_negative value) (d_s value + step) BROUND_HALF_EVEN line col.

Definition beans_decv_add (a b : BDec) (line col : Z) : result BDec :=
  let scale := if d_s b <? d_s a then d_s a else d_s b in
  if dec_zero a || dec_zero b then
    dec_widen (if dec_zero a then b else a) scale line col
  else
    let am := dec_mag a in let bm := dec_mag b in
    let ae := dec_digits128 am - 1 - d_s a in
    let be := dec_digits128 bm - 1 - d_s b in
    if BDEC_PRECISION + 1 <? ae - be then dec_widen a scale line col
    else if BDEC_PRECISION + 1 <? be - ae then dec_widen b scale line col
    else
      aw ← decw_mul_pow10 (decw_from128 am) (scale - d_s a) line col;
      bw ← decw_mul_pow10 (decw_from128 bm) (scale - d_s b) line col;
      let an := dec_negative a in let bn := dec_negative b in
      if Bool.eqb an bn then
        aw ← decw_add aw bw line col;
        dec_finish aw an scale BROUND_HALF_EVEN line col
      else
        let order := decw_cmp aw bw in
        if order =? 0 then Ok (dec_set (mkBU 0 0) false scale)
        else if 0 <? order
        then dec_finish (decw_sub aw bw) an scale BROUND_HALF_EVEN line col
        else dec_finish (decw_sub bw aw) bn scale BROUND_HALF_EVEN line col.

Definition beans_decv_neg (value : BDec) : BDec :=
  dec_set (dec_mag value) (negb (dec_negative value)) (d_s value).

Definition beans_decv_sub (a b : BDec) (line col : Z) : result BDec :=
  beans_decv_add a (beans_decv_neg b) line col.

Definition beans_decv_mul (a b : BDec) (line col : Z) : result BDec :=
  product ← decw_multiply (dec_mag a) (dec_mag b) line col;
  dec_finish product (xorb (dec_negative a) (dec_negative b)) (d_s a + d_s b)
    BROUND_HALF_EVEN line col.

Definition beans_decv_abs (value : BDec) : BDec := dec_set (dec_mag value) false (d_s value).

(** ** Division *)

(** The digits of an integer part, most significant first: the [reversed]
    buffer filled backwards and read forwards. *)
Fixpoint dec_int_digits (fuel : nat) (integer : BU128) (acc : list Z) : list Z :=
  match fuel with
  | O => acc
  | S fuel =>
      if bu_zero integer then acc
      else
        let '(quotient, digit) := bu_div10 integer in
        dec_int_digits fuel quotient ((ch_0 + digit) :: acc)
  end.

(** [while (decw_cmp(&next, &divisor) >= 0)]: at most nine subtractions. *)
Fixpoint dec_next_digit (fuel : nat) (next divisor : BDecWide) (digit : Z) : BDecWide * Z :=
  match fuel with
  | O => (next, digit)
  | S fuel =>
      if 0 <=? decw_cmp next divisor
      then dec_next_digit fuel (decw_sub next divisor) divisor (digit + 1)
      else (next, digit)
  end.

(** The fraction digits: leading zeros lower [ratio_exp], the others are
    collected until 39 significant digits are known or nothing remains. *)
Fixpoint dec_div_loop (fuel : nat) (divisor : BDecWide) (remainder : BU128)
    (significant : list Z) (ratio_exp line col : Z) : result (BU128 * list Z * Z) :=
  match fuel with
  | O => Ok (remainder, significant, ratio_exp)
  | S fuel =>
      let count := Z.of_nat (length significant) in
      if (count <? BDEC_PRECISION + 1) && negb (bu_zero remainder) then
        next ← decw_mul10 (decw_from128 remainder) line col;
        let '(next, digit) := dec_next_digit 10 next divisor 0 in
        remainder ← decw_to128 next line col;
        if (count =? 0) && (digit =? 0)
        then dec_div_loop fuel divisor remainder significant (ratio_exp - 1) line col
        else dec_div_loop fuel divisor remainder (significant ++ [ch_0 + digit]) ratio_exp
               line col
      else Ok (remainder, significant, ratio_exp)
  end.

(** [kept] accumulates the digits [significant[0 .. kept_count)]. *)
Fixpoint dec_keep_digits (digits : list Z) (kept : BDecWide) (line col : Z)
    : result BDecWide :=
  match digits with
  | [] => Ok kept
  | c :: digits =>
      kept ← decw_mul10 kept line col;
      kept ← decw_add kept (decw_from128 (mkBU (c - ch_0) 0)) line col;
      dec_keep_digits digits kept line col
  end.

(** At most 38 leading zeros before the first of 39 digits. *)
Definition DIV_FUEL : nat := 80.

Definition beans_decv_div (a b : BDec) (line col : Z) : result BDec :=
  if dec_zero b then Panic (lit "divide by zero") line col
  else if dec_zero a then
    let quotient_scale := d_s a - d_s b in
    Ok (dec_set (mkBU 0 0) false (if quotient_scale <? 0 then 0 else quotient_scale))
  else
    let numerator := dec_mag a in
    let denominator := dec_mag b in
    let '(integer, remainder) :=
      default (mkBU 0 0, mkBU 0 0) (bu_divmod numerator denominator) in
    let significant := dec_int_digits 40 integer [] in
    let ratio_exp := if bu_zero integer then -1 else Z.of_nat (length significant) - 1 in
    r ← dec_div_loop DIV_FUEL (decw_from128 denominator) remainder significant ratio_exp
          line col;
    let '(remainder, significant, ratio_exp) := r in
    let count := Z.of_nat (length significant) in
    if count =? 0 then Ok (dec_set (mkBU 0 0) false 0)
    else
      let kept_count := if count <? BDEC_PRECISION then count else BDEC_PRECISION in
      kept ← dec_keep_digits (take (Z.to_nat kept_count) significant)
               (replicate BDEC_WIDE_LIMBS 0) line col;
      let negative := xorb (dec_negative a) (dec_negative b) in
      kept ← (if BDEC_PRECISION <? count then
                let guard := default 0 (significant !! Z.to_nat BDEC_PRECISION) - ch_0 in
                inc ← dec_should_increment guard (negb (bu_zero remainder)) kept negative
                        BROUND_HALF_EVEN;
                if inc : bool then decw_increment kept line col else Ok kept
              else Ok kept);
      let result_exp := ratio_exp + d_s b - d_s a in
      let result_scale := kept_count - 1 - result_exp in
      dec_finish kept negative result_scale BROUND_HALF_EVEN line col.

(** ** Rounding to a number of places *)

Definition beans_decv_round (value : BDec) (places mode line col : Z) : result BDec :=
  if d_s value <=? places then Ok value
  else if places <? - BDEC_PRECISION then
    let away := ((mode =? BROUND_FLOOR) && dec_negative value) ||
                ((mode =? BROUND_CEIL) && negb (dec_negative value) && negb (dec_zero value)) in
    if away then dec_overflow line col else Ok (dec_set (mkBU 0 0) false 0)
  else
    let wide := decw_from128 (dec_mag value) in
    let drop := d_s value - places in
    let digits := decw_digits wide in
    let negative := dec_negative value in
    let finish (wide : BDecWide) : result BDec :=
      if places <? 0 then
        wide ← decw_mul_pow10 wide (- places) line col;
        dec_finish wide negative 0 mode line col
      else dec_finish wide negative places mode line col in
    if digits <? drop then
      let away := ((mode =? BROUND_FLOOR) && negative) ||
                  ((mode =? BROUND_CEIL) && negb negative) in
      if negb away then Ok (dec_set (mkBU 0 0) false (if places <? 0 then 0 else places))
      else finish (decw_from128 (mkBU 1 0))
    else
      let '(wide, guard, sticky) := dec_drop (Z.to_nat drop) wide 0 false in
      inc ← dec_should_increment guard sticky wide negative mode;
      wide ← (if inc : bool then decw_increment wide line col else Ok wide);
      finish wide.

(** ** Comparison and hashing *)

(** The aligned comparison; [beans_dec_cmp] passes position [0:0] to the
    panics of [decw_mul_pow10]. *)
Definition beans_dec_cmp (a b : BDec) : result Z :=
  if dec_negative a && negb (dec_negative b) then Ok (-1)
  else if negb (dec_negative a) && dec_negative b then Ok 1
  else if dec_zero a then Ok (if dec_zero b then 0 else -1)
  else if dec_zero b then Ok 1
  else
    let negative := dec_negative a in
    let am := dec_mag a in let bm := dec_mag b in
    let ae := dec_digits128 am - 1 - d_s a in
    let be := dec_digits128 bm - 1 - d_s b in
    order ← (if negb (ae =? be) then Ok (if ae <? be then -1 else 1)
             else
               let scale := if d_s b <? d_s a then d_s a else d_s b in
               aw ← decw_mul_pow10 (decw_from128 am) (scale - d_s a) 0 0;
               bw ← decw_mul_pow10 (decw_from128 bm) (scale - d_s b) 0 0;
               Ok (decw_cmp aw bw));
    Ok (if negative then - order else order).

(** The loop of [beans_dec_hash]; it runs at most [s] times. *)
Fixpoint dec_hash_strip (fuel : nat) (magnitude : BU128) (s : Z) : BU128 * Z :=
  match fuel with
  | O => (magnitude, s)
  | S fuel =>
      if 0 <? s then
        let '(quotient, remainder) := bu_div10 magnitude in
        if negb (remainder =? 0) then (magnitude, s)
        else dec_hash_strip fuel quotient (s - 1)
      else (magnitude, s)
  end.

Definition beans_dec_hash (d : BDec) : Z :=
  let '(magnitude, s) := dec_hash_strip (Z.to_nat (d_s d)) (dec_mag d) (d_s d) in
  let bits := if dec_negative d then bu_twos magnitude else magnitude in
  i64 (beans_mix64 (bu_lo bits ^! beans_mix64 (bu_hi bits ^! u64 s))).

(** ** Conversion to an integer *)

(** [for (i = 0; i < value->s && !bu_zero(magnitude); i++)]. *)
Fixpoint dec_trunc_loop (fuel : nat) (magnitude : BU128) : BU128 :=
  match fuel with
  | O => magnitude
  | S fuel =>
      if bu_zero magnitude then magnitude
      else dec_trunc_loop fuel (fst (bu_div10 magnitude))
  end.

Definition beans_dec_to_int (value : BDec) : Z :=
  let magnitude := dec_trunc_loop (Z.to_nat (d_s value)) (dec_mag value) in
  let bits := bu_lo magnitude in
  i64 (if dec_negative value then 0 -! bits else bits).

Close Scope c_scope.
