(* ===== verification/DecMath.v ===== *)
(** * DecMath: what the decimal operations compute, on [Z]

    The specification side of the decimal component.  A decimal is a
    coefficient and a scale, [c * 10 ^ -s]; [finish_spec] says what
    normalisation of an exact magnitude to 38 digits must give, [None] being
    "decimal overflow"; [widen_spec], [div_places] and [round_spec] are the
    other result shapes.  The lemmas show that these specifications round
    correctly and that padding and absorption agree with them.  Nothing here
    models code: [DecimalProofs] proves that the code refines it. *)

From S2P Require Import Prelude Digits.

(** ** Specifications *)

(** Keep at most 38 digits of the magnitude [v] at scale [s]. *)
Definition round38 (v : Z) (neg : bool) (s : Z) (m : rounding) : option (Z * Z) :=
  let drop := ndigits v - 38 in
  if drop <=? 0 then Some (v, s)
  else if s <? drop then None
  else
    let q := round_quot m neg v (10 ^ drop) in
    if q <? 10 ^ 38 then Some (q, s - drop)
    else if s - drop =? 0 then None else Some (10 ^ 37, s - drop - 1).

(** The decimal whose exact magnitude is [v * 10 ^ -scale]. *)
Definition finish_spec (v : Z) (neg : bool) (scale : Z) (m : rounding) : option (Z * Z) :=
  if v =? 0 then if 65535 <? scale then None else Some (0, Z.max 0 scale)
  else if scale <? 0 then
    if 38 <? ndigits v - scale then None else Some (v * 10 ^ (- scale), 0)
  else
    let '(v, s) := strip10 155 65535 v scale in
    if 65535 <? s then None else round38 v neg s m.

(** Pad [c] at scale [s] towards [scale], as far as 38 digits allow. *)
Definition widen_spec (c s scale : Z) : Z * Z :=
  let step := Z.max 0 (Z.min (38 - ndigits c) (scale - s)) in
  (c * 10 ^ step, s + step).

(** The number of fraction digits of [n / d]: the least that makes it exact or
    shows 38 significant digits. *)
Fixpoint div_places (fuel : nat) (n d : Z) : Z :=
  match fuel with
  | O => 0
  | S fuel =>
      if (n mod d =? 0) || (38 <=? ndigits (n / d)) then 0
      else 1 + div_places fuel (n * 10) d
  end.

(** The quotient of two magnitudes at scales [sa] and [sb]. *)
Definition div_spec (n d : Z) (neg : bool) (sa sb : Z) : option (Z * Z) :=
  let j := div_places 80 n d in
  finish_spec (round_quot HalfEven neg (n * 10 ^ j) d) neg (j + sa - sb) HalfEven.

(** Rounding the magnitude [c] at scale [s] to [places < s]. *)
Definition round_spec (c : Z) (neg : bool) (s places : Z) (m : rounding) : option (Z * Z) :=
  let q := round_quot m neg c (10 ^ (s - places)) in
  finish_spec (q * 10 ^ Z.max 0 (- places)) neg (Z.max 0 places) m.

(** ** Facts about the pieces *)

Lemma strip10_spec fuel floor : forall n s,
  0 < n ->
  let '(n', s') := strip10 fuel floor n s in
  0 < n' /\ n = n' * 10 ^ (s - s') /\ s' <= s /\ Z.min floor s <= s'.
Proof.
  induction fuel as [|fuel IH]; intros n s Hn; cbn [strip10].
  - rewrite Z.sub_diag. lia.
  - destruct ((floor <? s) && (n mod 10 =? 0)) eqn:Ht; [bools|rewrite Z.sub_diag; lia].
    specialize (IH (n / 10) (s - 1) ltac:(dlia)).
    destruct (strip10 fuel floor (n / 10) (s - 1)) as [n' s'].
    destruct IH as (Hn' & He & Hs & Hf). split_and!; [done| |lia..].
    replace (s - s') with (s - 1 - s' + 1) by lia. rewrite pow10_S by lia. dlia.
Qed.

Lemma strip10_below fuel floor n s : s <= floor -> strip10 fuel floor n s = (n, s).
Proof. intros. destruct fuel; [done|]. cbn [strip10]. by replace (floor <? s) with false by lia. Qed.

Lemma round_quot_scale m neg n d k :
  0 < d -> 0 < k -> round_quot m neg (n * k) (d * k) = round_quot m neg n d.
Proof.
  intros Hd Hk. unfold round_quot, round_up.
  rewrite Z.div_mul_cancel_r, Z.mul_mod_distr_r by lia.
  pose proof (Z.mod_pos_bound n d Hd). f_equal. set (r := n mod d) in *.
  replace (d * k <? 2 * (r * k)) with (d <? 2 * r) by nia.
  replace (2 * (r * k) =? d * k) with (2 * r =? d) by nia.
  replace (d * k <=? 2 * (r * k)) with (d <=? 2 * r) by nia.
  by replace (0 <? r * k) with (0 <? r) by nia.
Qed.

Lemma round_quot_bounds m neg n d :
  0 < d -> n / d <= round_quot m neg n d <= n / d + 1.
Proof. intros. unfold round_quot. case_match; lia. Qed.

(** Rounding [n] upwards to [q]: the same decision one digit further. *)
Lemma round_quot_up_next m neg d q n :
  0 < d -> n < q * 10 * d -> round_quot m neg n d = q * 10 -> 0 <= n ->
  round_quot m neg n (10 * d) = q.
Proof.
  intros Hd Hlt Hr Hn. unfold round_quot in Hr.
  assert (n / d < q * 10) by (apply Z.div_lt_upper_bound; lia).
  destruct (round_up m neg n d) eqn:Hu; [|lia].
  pose proof (Z.div_mod n d ltac:(lia)) as Hdm. pose proof (Z.mod_pos_bound n d Hd).
  pose proof (round_up_cases m neg n d Hd Hu) as [Hpos Hhalf].
  assert (Hq : n / (10 * d) = q - 1) by (symmetry; apply Z.div_unique with (9 * d + n mod d); nia).
  assert (Hm : n mod (10 * d) = 9 * d + n mod d)
    by (symmetry; apply Z.mod_unique with (q - 1); nia).
  unfold round_quot. rewrite Hq.
  replace (round_up m neg n (10 * d)) with true; [lia|].
  unfold round_up in *. rewrite Hm, Hq. symmetry.
  destruct m; [|by lia|done|..]; bools.
  - apply orb_true_iff. left. lia.
  - apply andb_true_iff. split; [done|lia].
  - apply andb_true_iff. split; [by apply negb_true_iff|lia].
Qed.

(** ** Properties of the specifications *)

Lemma round38_bounds v neg s m c s' :
  0 < v -> 0 <= s -> round38 v neg s m = Some (c, s') ->
  0 < c < 10 ^ 38 /\ 0 <= s' <= s.
Proof.
  intros Hv Hs. unfold round38.
  destruct (Z.leb_spec (ndigits v - 38) 0) as [Hd|Hd].
  - intros [= <- <-]. split; [|lia]. split; [done|]. apply ndigits_lt_pow; lia.
  - destruct (Z.ltb_spec s (ndigits v - 38)); [done|].
    set (d := 10 ^ (ndigits v - 38)). assert (0 < d) by (apply pow10_pos; lia).
    assert (Hq : 10 ^ 37 <= v / d).
    { apply Z.div_le_lower_bound; [done|]. subst d.
      rewrite <-Z.pow_add_r by lia. destruct (ndigits_spec v Hv).
      replace (ndigits v - 38 + 37) with (ndigits v - 1) by lia. lia. }
    pose proof (round_quot_bounds m neg v d ltac:(done)).
    destruct (Z.ltb_spec (round_quot m neg v d) (10 ^ 38)); [intros [= <- <-]; lia|].
    destruct (Z.eqb_spec (s - (ndigits v - 38)) 0); [done|]. intros [= <- <-]. lia.
Qed.

(** The result is the magnitude rounded to the scale of the result. *)
Lemma round38_rounds v neg s m c s' :
  0 < v -> 0 <= s -> round38 v neg s m = Some (c, s') ->
  c = round_quot m neg v (10 ^ (s - s')) /\ (s' < s -> 10 ^ 37 <= c).
Proof.
  intros Hv Hs. unfold round38.
  destruct (Z.leb_spec (ndigits v - 38) 0) as [Hd|Hd].
  { intros [= <- <-]. rewrite Z.sub_diag. split; [|lia].
    symmetry. replace v with (v * 1) at 1 by lia. by apply round_quot_exact. }
  destruct (Z.ltb_spec s (ndigits v - 38)); [done|].
  set (k := ndigits v - 38) in *. assert (Hk : 0 < 10 ^ k) by (apply pow10_pos; lia).
  destruct (ndigits_spec v Hv) as [_ [Hlo Hhi]].
  replace (ndigits v - 1) with (37 + k) in Hlo by lia.
  replace (ndigits v) with (38 + k) in Hhi by lia. rewrite Z.pow_add_r in Hlo, Hhi by lia.
  assert (Hq : 10 ^ 37 <= v / 10 ^ k < 10 ^ 38).
  { split; [apply Z.div_le_lower_bound; lia|apply Z.div_lt_upper_bound; lia]. }
  pose proof (round_quot_bounds m neg v (10 ^ k) Hk).
  destruct (Z.ltb_spec (round_quot m neg v (10 ^ k)) (10 ^ 38)).
  { intros [= <- <-]. replace (s - (s - k)) with k by lia. split; [done|lia]. }
  destruct (Z.eqb_spec (s - k) 0); [done|]. intros [= <- <-]. split; [|lia].
  replace (s - (s - k - 1)) with (k + 1) by lia. rewrite pow10_S by lia.
  symmetry. apply round_quot_up_next; lia.
Qed.

Lemma finish_spec_bounds v neg scale m c s :
  0 <= v -> finish_spec v neg scale m = Some (c, s) -> 0 <= c < 10 ^ 38 /\ 0 <= s <= 65535.
Proof.
  intros Hv. unfold finish_spec. destruct (Z.eqb_spec v 0).
  { destruct (Z.ltb_spec 65535 scale); [done|]. intros [= <- <-]. lia. }
  destruct (Z.ltb_spec scale 0).
  - destruct (Z.ltb_spec 38 (ndigits v - scale)); [done|]. intros [= <- <-]. split; [|lia].
    pose proof (pow10_pos (- scale) ltac:(lia)). split; [nia|].
    apply ndigits_lt_pow; [nia|lia|]. rewrite ndigits_mul_pow10 by lia. lia.
  - pose proof (strip10_spec 155 65535 v scale ltac:(lia)) as Hst.
    destruct (strip10 155 65535 v scale) as [w t]. destruct Hst as (Hw & _ & Ht & Hf).
    destruct (Z.ltb_spec 65535 t); [done|]. intros Hr.
    apply round38_bounds in Hr; lia.
Qed.

(** [finish_spec] rounds the exact magnitude once, to the scale it returns;
    below the maximum scale it gives up no digit it could keep. *)
Lemma finish_spec_rounds v neg scale m c s :
  0 <= v -> finish_spec v neg scale m = Some (c, s) ->
  (scale <= s -> c = v * 10 ^ (s - scale)) /\
  (s <= scale -> c = round_quot m neg v (10 ^ (scale - s))) /\
  (s < scale <= 65535 -> 10 ^ 37 <= c).
Proof.
  intros Hv. unfold finish_spec. destruct (Z.eqb_spec v 0) as [->|Hne].
  { destruct (Z.ltb_spec 65535 scale); [done|]. intros [= <- <-].
    split_and!; [lia| |lia]. intros. replace 0 with (0 * 10 ^ (scale - Z.max 0 scale)) at 2 by lia.
    rewrite round_quot_exact; [done|apply pow10_pos; lia]. }
  destruct (Z.ltb_spec scale 0).
  { destruct (Z.ltb_spec 38 (ndigits v - scale)); [done|]. intros [= <- <-].
    split_and!; intros; [do 2 f_equal; lia|lia|lia]. }
  pose proof (strip10_spec 155 65535 v scale ltac:(lia)) as Hst.
  destruct (strip10 155 65535 v scale) as [w t] eqn:Hsw. destruct Hst as (Hw & He & Ht & Hf).
  destruct (Z.ltb_spec 65535 t); [done|]. intros Hr.
  assert (Hsb : s <= t) by (apply round38_bounds in Hr; lia).
  apply round38_rounds in Hr as [Hc Hbig]; [|lia..].
  assert (Hcr : c = round_quot m neg v (10 ^ (scale - s))).
  { rewrite Hc, He. replace (scale - s) with (t - s + (scale - t)) by lia.
    rewrite Z.pow_add_r by lia.
    symmetry. apply round_quot_scale; apply pow10_pos; lia. }
  split_and!; [|done|].
  - intros. replace s with scale in * by lia. rewrite Z.sub_diag in *. rewrite Hcr.
    replace (v * 10 ^ 0) with v by lia. replace v with (v * 1) at 1 by lia.
    by apply round_quot_exact.
  - intros [Hlt Hmax]. rewrite strip10_below in Hsw by lia. injection Hsw as <- <-. auto.
Qed.

Lemma widen_spec_bounds c s scale :
  0 < c < 10 ^ 38 -> 0 <= s -> s <= scale ->
  let '(c', s') := widen_spec c s scale in 0 < c' < 10 ^ 38 /\ s <= s' <= scale.
Proof.
  intros Hc Hs Hsc. unfold widen_spec.
  assert (ndigits c <= 38) by (apply ndigits_lt_pow; lia).
  set (k := Z.max 0 _). split; [|lia].
  pose proof (pow10_pos k ltac:(lia)). split; [nia|].
  apply ndigits_lt_pow; [nia|lia|]. rewrite ndigits_mul_pow10 by lia. lia.
Qed.

(** Padding agrees with normalising the fully padded coefficient. *)
Lemma round38_pad c neg s k m :
  0 < c < 10 ^ 38 -> 0 <= s -> 0 <= k ->
  round38 (c * 10 ^ k) neg (s + k) m = Some (widen_spec c s (s + k)).
Proof.
  intros Hc Hs Hk. unfold round38, widen_spec. rewrite ndigits_mul_pow10 by lia.
  assert (Hd : ndigits c <= 38) by (apply ndigits_lt_pow; lia).
  destruct (Z.leb_spec (ndigits c + k - 38) 0).
  { replace (Z.max 0 _) with k by lia. done. }
  replace (s + k <? _) with false by lia.
  replace (Z.max 0 (Z.min (38 - ndigits c) (s + k - s))) with (38 - ndigits c) by lia.
  set (r := 38 - ndigits c) in *.
  replace (c * 10 ^ k) with (c * 10 ^ r * 10 ^ (ndigits c + k - 38)).
  2:{ rewrite <-Z.mul_assoc, <-Z.pow_add_r by lia. do 2 f_equal. lia. }
  rewrite round_quot_exact by (apply pow10_pos; lia).
  replace (c * 10 ^ r <? 10 ^ 38) with true; [f_equal; f_equal; lia|].
  symmetry. apply Z.ltb_lt. apply ndigits_lt_pow; [|lia|].
  - pose proof (pow10_pos r ltac:(lia)). nia.
  - rewrite ndigits_mul_pow10 by lia. lia.
Qed.

(** An addend below a hundredth of the last kept digit is absorbed. *)
Section absorb.
Context (c s k b : Z) (neg : bool).
Context (Hc : 0 < c < 10 ^ 38) (Hs : 0 <= s) (Hk : 0 <= k).
Context (Hfar : 41 <= ndigits c + k) (Hb : 0 < b < 10 ^ (ndigits c + k - 40)).

Let u : Z := 10 ^ (ndigits c + k - 38).
Let w : Z := c * 10 ^ (38 - ndigits c).

Lemma absorb_facts :
  c * 10 ^ k = w * u /\ 10 ^ 37 <= w < 10 ^ 38 /\ 100 * b < u /\ 0 < u /\ u mod 10 = 0.
Proof.
  assert (Hd : ndigits c <= 38) by (apply ndigits_lt_pow; lia).
  pose proof (pow10_pos (38 - ndigits c) ltac:(lia)).
  subst u w. split_and!.
  - rewrite <-Z.mul_assoc, <-Z.pow_add_r by lia. do 2 f_equal. lia.
  - apply ndigits_gt_pow; [nia|lia|]. rewrite ndigits_mul_pow10 by lia. lia.
  - apply ndigits_lt_pow; [nia|lia|]. rewrite ndigits_mul_pow10 by lia. lia.
  - replace (ndigits c + k - 38) with (ndigits c + k - 40 + 1 + 1) by lia.
    rewrite !pow10_S by lia. lia.
  - apply pow10_pos. lia.
  - rewrite pow10_pred by lia. rewrite Z.mul_comm. apply Z.mod_mul. lia.
Qed.

Lemma round38_absorb_add :
  round38 (c * 10 ^ k + b) neg (s + k) HalfEven = round38 (c * 10 ^ k) neg (s + k) HalfEven.
Proof.
  destruct absorb_facts as (He & Hw & Hbu & Hu & _).
  pose proof (ndigits_mul_pow10 c k ltac:(lia) Hk) as Hn.
  assert (Hn' : ndigits (c * 10 ^ k + b) = ndigits c + k).
  { pose proof (ndigits_spec (c * 10 ^ k) ltac:(nia)) as [_ Hr]. rewrite Hn in Hr.
    apply ndigits_unique; [nia|lia|]. split; [lia|].
    rewrite He in *. replace (ndigits c + k) with (38 + (ndigits c + k - 38)) by lia.
    rewrite Z.pow_add_r by lia. fold u. nia. }
  unfold round38. rewrite Hn', Hn. fold u.
  replace (ndigits c + k - 38 <=? 0) with false by lia. case_match; [done|].
  rewrite He, round_quot_exact by done.
  replace (round_quot HalfEven neg (w * u + b) u) with w; [done|].
  assert (Hq : (w * u + b) / u = w) by (symmetry; apply Z.div_unique with b; lia).
  assert (Hm : (w * u + b) mod u = b) by (symmetry; apply Z.mod_unique with w; lia).
  unfold round_quot, round_up. rewrite Hq, Hm.
  replace (u <? 2 * b) with false by lia. replace (2 * b =? u) with false by lia. cbn. lia.
Qed.

Lemma round_quot_just_below q d :
  100 * b < 10 * d -> round_quot HalfEven neg (q * d - b) d = q.
Proof.
  intros Hd.
  assert (Hq : (q * d - b) / d = q - 1) by (symmetry; apply Z.div_unique with (d - b); lia).
  assert (Hm : (q * d - b) mod d = d - b) by (symmetry; apply Z.mod_unique with (q - 1); lia).
  unfold round_quot, round_up. rewrite Hq, Hm.
  replace (d <? 2 * (d - b)) with true by lia. cbn. lia.
Qed.

Lemma round38_absorb_sub :
  round38 (c * 10 ^ k - b) neg (s + k) HalfEven = round38 (c * 10 ^ k) neg (s + k) HalfEven.
Proof.
  destruct absorb_facts as (He & Hw & Hbu & Hu & Hu10).
  assert (Hd : ndigits c <= 38) by (apply ndigits_lt_pow; lia).
  pose proof (ndigits_mul_pow10 c k ltac:(lia) Hk) as Hn.
  set (n := ndigits c + k) in *. assert (Hun : u = 10 ^ (n - 38)) by done.
  assert (Hup : 10 ^ 37 * u = 10 ^ (n - 1)).
  { rewrite Hun, <-Z.pow_add_r by lia. f_equal. lia. }
  destruct (Z.eq_dec w (10 ^ 37)) as [Hw37|Hw37].
  - assert (Hn' : ndigits (c * 10 ^ k - b) = n - 1).
    { apply ndigits_unique; [nia|lia|]. rewrite He, Hw37, Hup. split; [|lia].
      assert (10 ^ (n - 1) = 10 * 10 ^ (n - 1 - 1)) by (apply pow10_pred; lia).
      assert (10 ^ (n - 1 - 1) = 10 ^ (n - 40) * 10 ^ 38)
        by (rewrite <-Z.pow_add_r by lia; f_equal; lia). nia. }
    unfold round38. rewrite Hn', Hn, <-Hun.
    replace (n - 1 - 38 <=? 0) with false by lia. replace (n - 38 <=? 0) with false by lia.
    replace (s + k <? n - 1 - 38) with false by lia. replace (s + k <? n - 38) with false by lia.
    assert (Hu1 : u = 10 * 10 ^ (n - 1 - 38)).
    { rewrite Hun, pow10_pred by lia. do 2 f_equal. lia. }
    rewrite He, Hw37, round_quot_exact by done.
    replace (10 ^ 37 * u - b) with (10 ^ 38 * 10 ^ (n - 1 - 38) - b) by (rewrite Hu1; lia).
    rewrite round_quot_just_below by lia.
    change (10 ^ 38 <? 10 ^ 38) with false. change (10 ^ 37 <? 10 ^ 38) with true. cbn iota.
    replace (s + k - (n - 1 - 38) =? 0) with false by lia. do 2 f_equal. lia.
  - assert (Hn' : ndigits (c * 10 ^ k - b) = n).
    { apply ndigits_unique; [nia|lia|]. rewrite He. split; [nia|].
      pose proof (ndigits_spec (c * 10 ^ k) ltac:(nia)) as [_ Hr]. rewrite Hn in Hr. lia. }
    unfold round38. rewrite Hn', Hn, <-Hun.
    replace (n - 38 <=? 0) with false by lia. case_match; [done|].
    rewrite He, round_quot_exact, round_quot_just_below by lia. done.
Qed.

End absorb.

(** ** Quotients *)

Definition div_stops (n d : Z) : Prop := n mod d = 0 \/ 38 <= ndigits (n / d).

Lemma div_places_spec d fuel : forall n,
  0 < n -> 0 < d -> 10 ^ 37 * d <= n * 10 ^ Z.of_nat fuel ->
  let j := div_places fuel n d in
  0 <= j <= Z.of_nat fuel /\ div_stops (n * 10 ^ j) d /\
  (forall i, 0 <= i < j -> ~ div_stops (n * 10 ^ i) d).
Proof.
  induction fuel as [|fuel IH]; intros n Hn Hd Hf; cbn [div_places] in *.
  { split; [lia|]. split; [|lia]. right. rewrite Z.mul_1_r in *.
    enough (37 < ndigits (n / d)) by lia. apply ndigits_gt_pow; [|lia|].
    - apply Z.div_pos; lia.
    - apply Z.div_le_lower_bound; lia. }
  destruct ((n mod d =? 0) || (38 <=? ndigits (n / d))) eqn:Ht.
  { split; [lia|]. split; [|lia]. unfold div_stops. rewrite Z.mul_1_r. bools. lia. }
  replace (Z.of_nat (S fuel)) with (Z.of_nat fuel + 1) in * by lia.
  rewrite pow10_S in Hf by lia.
  destruct (IH (n * 10)) as (Hj & Hstop & Hmin); [lia..|].
  set (j := div_places fuel (n * 10) d) in *.
  assert (Hmul : forall i, 0 <= i -> n * 10 ^ (1 + i) = n * 10 * 10 ^ i)
    by (intros; rewrite Z.add_comm, pow10_S by lia; lia).
  split; [lia|]. split; [by rewrite Hmul by lia|].
  intros i Hi. destruct (Z.eq_dec i 0) as [->|].
  - unfold div_stops. rewrite Z.mul_1_r. bools. lia.
  - replace i with (1 + (i - 1)) by lia. rewrite Hmul by lia. apply Hmin. lia.
Qed.

(** [div_places] is determined by its specification. *)
Lemma div_places_unique n d j :
  0 < n -> 0 < d < 10 ^ 38 -> 0 <= j -> div_stops (n * 10 ^ j) d ->
  (forall i, 0 <= i < j -> ~ div_stops (n * 10 ^ i) d) -> div_places 80 n d = j.
Proof.
  intros Hn Hd Hj Hs Hm.
  destruct (div_places_spec d 80 n Hn ltac:(lia)) as (Hj' & Hs' & Hm').
  { change (Z.of_nat 80) with (42 + 38). rewrite Z.pow_add_r by lia. nia. }
  destruct (Z.lt_trichotomy (div_places 80 n d) j) as [Hlt|[|Hlt]]; [|done|].
  - destruct (Hm (div_places 80 n d)); [lia|done].
  - destruct (Hm' j); [lia|done].
Qed.

(** ** Canonical forms

    Two decimals are equal when their aligned coefficients are; removing the
    trailing zeros of the fraction gives equal decimals one form. *)
Lemma strip10_canonical fuel n s :
  0 <= s <= Z.of_nat fuel -> 0 < n ->
  let '(n', s') := strip10 fuel 0 n s in
  0 < n' /\ n = n' * 10 ^ (s - s') /\ 0 <= s' <= s /\ (s' = 0 \/ n' mod 10 <> 0).
Proof.
  revert n s. induction fuel as [|fuel IH]; intros n s Hs Hn; cbn [strip10].
  { rewrite Z.sub_diag. lia. }
  destruct ((0 <? s) && (n mod 10 =? 0)) eqn:Ht.
  2:{ rewrite Z.sub_diag. split_and!; [lia..|]. bools. lia. }
  bools. specialize (IH (n / 10) (s - 1) ltac:(lia) ltac:(dlia)).
  destruct (strip10 fuel 0 (n / 10) (s - 1)) as [n' s'].
  destruct IH as (Hn' & He & Hs' & Hf). split_and!; [done| |lia..|done].
  replace (s - s') with (s - 1 - s' + 1) by lia. rewrite pow10_S by lia. dlia.
Qed.

Lemma strip10_zero fuel s : 0 <= s <= Z.of_nat fuel -> strip10 fuel 0 0 s = (0, 0).
Proof.
  revert s. induction fuel as [|fuel IH]; intros s Hs; cbn [strip10].
  - f_equal. lia.
  - destruct (Z.ltb_spec 0 s); cbn.
    + apply IH. lia.
    + f_equal. lia.
Qed.

Lemma canonical_unique n s n' s' :
  0 <= s -> 0 <= s' -> (s = 0 \/ n mod 10 <> 0) -> (s' = 0 \/ n' mod 10 <> 0) ->
  n * 10 ^ s' = n' * 10 ^ s -> n = n' /\ s = s'.
Proof.
  enough (Hw : forall n s n' s', 0 <= s -> s <= s' -> (s = 0 \/ n mod 10 <> 0) ->
    (s' = 0 \/ n' mod 10 <> 0) -> n * 10 ^ s' = n' * 10 ^ s -> n = n' /\ s = s').
  { intros Hs Hs' H1 H2 He. destruct (Z.le_gt_cases s s').
    - by apply Hw.
    - destruct (Hw n' s' n s) as [-> ->]; by auto with lia. }
  clear. intros n s n' s' Hs Hle H1 H2 He.
  replace s' with (s' - s + s) in He by lia. rewrite Z.pow_add_r in He by lia.
  pose proof (pow10_pos s Hs). assert (He' : n * 10 ^ (s' - s) = n') by nia.
  destruct (Z.eq_dec s s') as [<-|]; [rewrite Z.sub_diag in He'; lia|].
  rewrite (pow10_pred (s' - s)) in He' by lia. destruct H2 as [H2|H2]; [lia|].
  exfalso. apply H2. rewrite <-He'.
  replace (n * (10 * 10 ^ (s' - s - 1))) with (n * 10 ^ (s' - s - 1) * 10) by lia.
  apply Z.mod_mul. lia.
Qed.

Lemma strip10_equal f1 f2 c1 s1 c2 s2 :
  0 <= s1 <= Z.of_nat f1 -> 0 <= s2 <= Z.of_nat f2 -> 0 <= c1 -> 0 <= c2 ->
  c1 * 10 ^ s2 = c2 * 10 ^ s1 -> strip10 f1 0 c1 s1 = strip10 f2 0 c2 s2.
Proof.
  intros H1 H2 Hc1 Hc2 He.
  pose proof (pow10_pos s1 ltac:(lia)). pose proof (pow10_pos s2 ltac:(lia)).
  destruct (Z.eq_dec c1 0) as [->|]; [|destruct (Z.eq_dec c2 0) as [->|]; [nia|]].
  { replace c2 with 0 by nia. by rewrite !strip10_zero. }
  pose proof (strip10_canonical f1 c1 s1 H1 ltac:(lia)) as P1.
  pose proof (strip10_canonical f2 c2 s2 H2 ltac:(lia)) as P2.
  destruct (strip10 f1 0 c1 s1) as [n1 t1], (strip10 f2 0 c2 s2) as [n2 t2].
  destruct P1 as (Hn1 & E1 & Ht1 & Q1), P2 as (Hn2 & E2 & Ht2 & Q2).
  enough (n1 = n2 /\ t1 = t2) as [-> ->] by done. apply canonical_unique; try done; try lia.
  rewrite E1, E2 in He.
  pose proof (pow10_pos (s1 - t1) ltac:(lia)). pose proof (pow10_pos (s2 - t2) ltac:(lia)).
  assert (Hs1 : 10 ^ s1 = 10 ^ (s1 - t1) * 10 ^ t1)
    by (rewrite <-Z.pow_add_r by lia; f_equal; lia).
  assert (Hs2 : 10 ^ s2 = 10 ^ (s2 - t2) * 10 ^ t2)
    by (rewrite <-Z.pow_add_r by lia; f_equal; lia).
  rewrite Hs1, Hs2 in He.
  assert (0 < 10 ^ (s1 - t1) * 10 ^ (s2 - t2)) by nia.
  apply (Z.mul_reg_l _ _ (10 ^ (s1 - t1) * 10 ^ (s2 - t2))); lia.
Qed.

(** ** Overflow is never spurious *)

(** Within the scale range an overflow means 39 integer digits are needed. *)
Lemma finish_spec_overflow v neg scale m :
  0 <= v -> 0 <= scale <= 65535 -> finish_spec v neg scale m = None ->
  (10 ^ 38 - 1) * 10 ^ scale <= v.
Proof.
  intros Hv Hs. unfold finish_spec. destruct (Z.eqb_spec v 0).
  { by replace (65535 <? scale) with false by lia. }
  replace (scale <? 0) with false by lia. rewrite strip10_below by lia.
  replace (65535 <? scale) with false by lia. unfold round38.
  set (k := ndigits v - 38). destruct (Z.leb_spec k 0); [done|].
  destruct (ndigits_spec v ltac:(lia)) as [_ [Hlo _]]. pose proof (pow10_pos scale ltac:(lia)).
  destruct (Z.ltb_spec scale k) as [Hlt|Hge].
  - intros _. pose proof (pow10_le (38 + scale) (ndigits v - 1) ltac:(lia)) as Hp.
    rewrite Z.pow_add_r in Hp by lia. nia.
  - destruct (Z.ltb_spec (round_quot m neg v (10 ^ k)) (10 ^ 38)) as [|Hq]; [done|].
    destruct (Z.eqb_spec (scale - k) 0); [|done]. intros _. replace scale with k in * by lia.
    pose proof (round_quot_bounds m neg v (10 ^ k) ltac:(apply pow10_pos; lia)).
    pose proof (Z.mul_div_le v (10 ^ k) ltac:(lia)). nia.
Qed.

(** ... and with a scale out of range, that the exact value has no form. *)
Lemma finish_spec_negative v neg scale m :
  0 < v -> scale < 0 -> finish_spec v neg scale m = None -> 10 ^ 38 <= v * 10 ^ (- scale).
Proof.
  intros Hv Hs. unfold finish_spec. replace (v =? 0) with false by lia.
  replace (scale <? 0) with true by lia.
  destruct (Z.ltb_spec 38 (ndigits v - scale)); [|done]. intros _.
  pose proof (pow10_pos (- scale) ltac:(lia)).
  apply ndigits_gt_pow; [nia|lia|]. rewrite ndigits_mul_pow10; lia.
Qed.
