(* ===== verification/DecimalProofs.v ===== *)
(** * DecimalProofs: the decimal operations compute their specifications

    The abstraction function [dec_coeff] reads the 128-bit coefficient,
    [dec_wf] is the invariant of every decimal the runtime makes, and each
    operation of [Decimal] is shown equal to the specification of [DecMath]
    on the coefficients, panics included. *)

From S2P Require Import Prelude Digits U128 Wide Hash Decimal DecMath.

Open Scope c_scope.

(** ** Abstraction and invariant *)

(** The signed 128-bit coefficient. *)
Definition dec_coeff (d : BDec) : Z :=
  let v := d_lo d + 2 ^ 64 * d_hi d in if v <? 2 ^ 127 then v else v - 2 ^ 128.

Definition dec_wf (d : BDec) : Prop :=
  is_u64 (d_lo d) /\ is_u64 (d_hi d) /\ - 10 ^ 38 < dec_coeff d < 10 ^ 38 /\
  0 <= d_s d <= 65535 /\ d_pad d = 0.

(** The decimal with a given coefficient and scale. *)
Definition dec_make (c s : Z) : BDec := mkDec (u64 c) (u64 (c / 2 ^ 64)) s 0.

Definition signed (neg : bool) (c : Z) : Z := if neg then - c else c.

(** A specification's answer as the runtime gives it. *)
Definition to_dec (neg : bool) (r : option (Z * Z)) (line col : Z) : result BDec :=
  match r with
  | Some (c, s) => Ok (dec_make (signed neg c) s)
  | None => dec_overflow line col
  end.

Lemma dec_make_coeff c s : - 10 ^ 38 < c < 10 ^ 38 -> dec_coeff (dec_make c s) = c.
Proof.
  intros Hc. unfold dec_coeff, dec_make. cbn [d_lo d_hi].
  assert (u64 c + 2 ^ 64 * u64 (c / 2 ^ 64) = c mod 2 ^ 128) as ->.
  { unfold u64. change (2 ^ 128) with (2 ^ 64 * 2 ^ 64).
    rewrite Z.rem_mul_r by lia. lia. }
  destruct (Z.ltb_spec (c mod 2 ^ 128) (2 ^ 127)); dlia.
Qed.

Lemma dec_make_wf c s : - 10 ^ 38 < c < 10 ^ 38 -> 0 <= s <= 65535 -> dec_wf (dec_make c s).
Proof.
  intros Hc Hs. unfold dec_wf. rewrite dec_make_coeff by done.
  cbn. split_and!; try apply u64_is; lia.
Qed.

Lemma dec_coeff_make d : dec_wf d -> dec_make (dec_coeff d) (d_s d) = d.
Proof.
  destruct d as [lo hi s pad]. unfold dec_wf, dec_make, dec_coeff. cbn [d_lo d_hi d_s d_pad].
  intros (Hl & Hh & _ & _ & ->). unfold is_u64 in *.
  f_equal; case_match; unfold u64; dlia.
Qed.

(** A decimal is its coefficient and scale. *)
Lemma dec_wf_inj a b :
  dec_wf a -> dec_wf b -> dec_coeff a = dec_coeff b -> d_s a = d_s b -> a = b.
Proof. intros Ha Hb Hc Hs. rewrite <-(dec_coeff_make a), <-(dec_coeff_make b) by done. congruence. Qed.

(** The readings of the limbs hold for any 128-bit pattern. *)
Lemma dec_negative_limbs d :
  is_u64 (d_lo d) -> is_u64 (d_hi d) -> dec_negative d = (dec_coeff d <? 0).
Proof.
  intros Hl Hh. unfold dec_negative, dec_coeff. rewrite shr_div by lia.
  unfold is_u64 in *. case_match; bools; dlia.
Qed.

Lemma dec_negative_val d : dec_wf d -> dec_negative d = (dec_coeff d <? 0).
Proof. intros (Hl & Hh & _). by apply dec_negative_limbs. Qed.

Lemma dec_zero_val d : dec_wf d -> dec_zero d = (dec_coeff d =? 0).
Proof.
  intros (Hl & Hh & _). unfold dec_zero, dec_coeff. unfold is_u64 in *. case_match; bools; lia.
Qed.

Lemma dec_mag_limbs d :
  is_u64 (d_lo d) -> is_u64 (d_hi d) ->
  bu_ok (dec_mag d) /\ bu_val (dec_mag d) = Z.abs (dec_coeff d).
Proof.
  intros Hl Hh. unfold dec_mag. rewrite dec_negative_limbs by done.
  assert (Hok : bu_ok (mkBU (d_lo d) (d_hi d))) by done.
  unfold dec_coeff in *. set (v := d_lo d + 2 ^ 64 * d_hi d) in *.
  assert (Hv : bu_val (mkBU (d_lo d) (d_hi d)) = v) by done.
  pose proof (bu_val_range _ Hok) as Hr. rewrite Hv in Hr.
  destruct (Z.ltb_spec v (2 ^ 127)).
  - replace (v <? 0) with false by lia. split; [done|]. lia.
  - replace (v - 2 ^ 128 <? 0) with true by lia. split; [by apply bu_twos_ok|].
    rewrite bu_twos_val, Hv by done. dlia.
Qed.

Lemma dec_mag_spec d : dec_wf d -> bu_ok (dec_mag d) /\ bu_val (dec_mag d) = Z.abs (dec_coeff d).
Proof. intros (Hl & Hh & _). by apply dec_mag_limbs. Qed.

Lemma dec_mag_ok d : dec_wf d -> bu_ok (dec_mag d).
Proof. apply dec_mag_spec. Qed.

Lemma dec_mag_val d : dec_wf d -> bu_val (dec_mag d) = Z.abs (dec_coeff d).
Proof. apply dec_mag_spec. Qed.

Lemma dec_mag_lt d : dec_wf d -> 0 <= bu_val (dec_mag d) < 10 ^ 38.
Proof. intros Hd. rewrite dec_mag_val by done. destruct Hd as (_ & _ & Hc & _). lia. Qed.

#[export] Hint Resolve dec_mag_ok decw_from128_ok : word.

Lemma dec_set_make mag neg s :
  bu_ok mag -> bu_val mag < 10 ^ 38 -> dec_set mag neg s = dec_make (signed neg (bu_val mag)) s.
Proof.
  intros Hok Hlt. unfold dec_set, dec_make. rewrite bu_zero_val by done.
  pose proof (bu_val_range mag Hok).
  enough (He : forall b, bu_ok b -> bu_val b = signed neg (bu_val mag) mod 2 ^ 128 ->
    mkDec (bu_lo b) (bu_hi b) s 0 =
    mkDec (u64 (signed neg (bu_val mag))) (u64 (signed neg (bu_val mag) / 2 ^ 64)) s 0).
  { apply He; destruct neg; cbn [andb negb signed].
    - destruct (Z.eqb_spec (bu_val mag) 0); cbn [negb]; [done|by apply bu_twos_ok].
    - done.
    - destruct (Z.eqb_spec (bu_val mag) 0) as [Hz|]; cbn [negb]; [by rewrite Hz|].
      by apply bu_twos_val.
    - rewrite Z.mod_small; lia. }
  intros b [Hb1 Hb2] Hv. set (x := signed neg (bu_val mag)) in *.
  unfold bu_val, is_u64 in Hv, Hb1, Hb2.
  pose proof (Z.div_mod x (2 ^ 128) ltac:(lia)) as Hx. rewrite <-Hv in Hx.
  assert (Hx2 : x / 2 ^ 64 = bu_hi b + 2 ^ 64 * (x / 2 ^ 128))
    by (symmetry; apply Z.div_unique with (bu_lo b); lia).
  f_equal; unfold u64; [|rewrite Hx2].
  - apply Z.mod_unique with (x / 2 ^ 64); lia.
  - apply Z.mod_unique with (x / 2 ^ 128); lia.
Qed.

Lemma dec_set_zero neg s : dec_set (mkBU 0 0) neg s = dec_make 0 s.
Proof. by destruct neg. Qed.

Lemma dec_coeff_limit_val : dec_coeff_limit = mkBU 687399551400673279 5421010862427522170.
Proof. vm_compute. reflexivity. Qed.

(** ** The loops *)

Lemma bu_div10_spec v :
  bu_ok v -> snd (bu_div10 v) = bu_val v `mod` 10 /\ bu_ok (fst (bu_div10 v)) /\
  bu_val (fst (bu_div10 v)) = bu_val v `div` 10.
Proof.
  intros Hv. unfold bu_div10.
  destruct (bu_div_small_spec v 10 Hv ltac:(lia)) as (q & -> & Hq & Hval). by cbn.
Qed.

Lemma dec_digits128_loop_val fuel : forall v d,
  bu_ok v -> bu_val v < 10 ^ Z.of_nat (S fuel) ->
  dec_digits128_loop fuel v d = d + ndigits (bu_val v) - 1.
Proof.
  induction fuel as [|fuel IH]; intros v d Hv Hlt; cbn [dec_digits128_loop];
    pose proof (bu_val_range v Hv).
  - rewrite ndigits_small by lia. lia.
  - destruct (bu_div10_spec v Hv) as (_ & Hq & Hqv).
    assert (Ht : negb (bu_hi v =? 0) || (10 <=? bu_lo v) = (10 <=? bu_val v)).
    { destruct Hv as [Hlo Hhi]. unfold bu_val, is_u64 in *.
      destruct (Z.eqb_spec (bu_hi v) 0); cbn; lia. }
    rewrite Ht. destruct (Z.leb_spec 10 (bu_val v)).
    + rewrite IH, Hqv by (try done; rewrite Hqv;
        replace (Z.of_nat (S (S fuel))) with (Z.of_nat (S fuel) + 1) in Hlt by lia;
        rewrite pow10_S in Hlt by lia; dlia).
      rewrite (ndigits_div10 (bu_val v)) by lia. lia.
    + rewrite ndigits_small by lia. lia.
Qed.

Lemma dec_digits128_val v : bu_ok v -> dec_digits128 v = ndigits (bu_val v).
Proof.
  intros Hv. unfold dec_digits128. rewrite dec_digits128_loop_val; [lia|done|].
  pose proof (bu_val_range v Hv). change (10 ^ Z.of_nat (S BU_FUEL)) with (10 ^ 40). lia.
Qed.

(** The digits dropped below the quotient by [10 ^ n]: guard and sticky. *)
Lemma dec_drop_spec n : forall w g st,
  wide_ok w -> (0 < n)%nat ->
  exists w', dec_drop n w g st =
    (w', wval w / 10 ^ (Z.of_nat n - 1) mod 10, st || negb (wval w mod 10 ^ (Z.of_nat n - 1) =? 0)) /\
    wide_ok w' /\ wval w' = wval w / 10 ^ Z.of_nat n.
Proof.
  induction n as [|n IH]; intros w g st Hw Hn; [lia|]. cbn [dec_drop].
  destruct (decw_div10_wide w Hw) as (q & -> & Hq & Hqv).
  pose proof (wide_range w Hw) as Hr.
  destruct n as [|n].
  - exists q. cbn [dec_drop]. change (10 ^ (Z.of_nat 1 - 1)) with 1.
    rewrite Z.div_1_r, Z.mod_1_r, orb_false_r. done.
  - destruct (IH q g (st || negb (wval w mod 10 =? 0)) Hq ltac:(lia)) as (w' & -> & Hw' & Hv).
    exists w'. rewrite Hv, Hqv.
    replace (Z.of_nat (S (S n)) - 1) with (Z.of_nat n + 1) by lia.
    replace (Z.of_nat (S n) - 1) with (Z.of_nat n) by lia.
    replace (Z.of_nat (S (S n))) with (Z.of_nat (S n) + 1) by lia.
    rewrite !pow10_S, !Z.div_div by (try apply Z.pow_nonzero; lia).
    split; [|split; [done|lia]]. f_equal.
    rewrite <-orb_assoc. f_equal. rewrite Z.rem_mul_r by (try apply pow10_pos; lia).
    pose proof (pow10_pos (Z.of_nat n) ltac:(lia)).
    pose proof (Z.mod_pos_bound (wval w / 10) (10 ^ Z.of_nat n) ltac:(done)).
    pose proof (Z.mod_pos_bound (wval w) 10 ltac:(lia)).
    destruct (Z.eqb_spec (wval w mod 10) 0), (Z.eqb_spec ((wval w / 10) mod 10 ^ Z.of_nat n) 0);
      cbn; lia.
Qed.

(** The guard and sticky digits decide as the exact remainder does. *)
Lemma should_increment_spec m neg w' v n :
  wide_ok w' -> 0 <= v -> 1 <= n -> wval w' = v / 10 ^ n ->
  dec_should_increment (v / 10 ^ (n - 1) mod 10) (negb (v mod 10 ^ (n - 1) =? 0)) w' neg
    (mode_code m) = Ok (round_up m neg v (10 ^ n)).
Proof.
  intros Hw Hv Hn Hval. unfold dec_should_increment, round_up.
  rewrite decw_mod10_val, Hval by done.
  rewrite (pow10_pred n) by done. set (p := 10 ^ (n - 1)).
  assert (Hp : 0 < p) by (apply pow10_pos; lia).
  assert (Hm : v mod (10 * p) = v mod p + p * (v / p mod 10))
    by (rewrite Z.mul_comm; apply Z.rem_mul_r; lia).
  rewrite Hm. set (q := v / (10 * p)).
  pose proof (Z.mod_pos_bound v p Hp). pose proof (Z.mod_pos_bound (v / p) 10 ltac:(lia)).
  set (g := v / p mod 10) in *. set (r := v mod p) in *.
  assert (He : negb ((q mod 10) mod 2 =? 0) = negb (Z.even q)).
  { replace ((q mod 10) mod 2) with (q mod 2) by dlia. rewrite Zmod_even. by destruct (Z.even q). }
  destruct m; cbn [mode_code Z.eqb Pos.eqb]; f_equal.
  - rewrite He. replace (10 * p <? 2 * (r + p * g)) with ((5 <? g) || ((g =? 5) && negb (r =? 0)))
      by (destruct (Z.ltb_spec 5 g), (Z.eqb_spec g 5), (Z.eqb_spec r 0); cbn; nia).
    replace (2 * (r + p * g) =? 10 * p) with ((g =? 5) && (r =? 0))
      by (destruct (Z.eqb_spec g 5), (Z.eqb_spec r 0); cbn; nia).
    destruct (5 <? g), (g =? 5), (r =? 0), (negb (Z.even q)); done.
  - destruct (Z.leb_spec 5 g); nia.
  - destruct neg; [|done]. destruct (Z.eqb_spec g 0), (Z.eqb_spec r 0); cbn; nia.
  - destruct neg; [done|]. destruct (Z.eqb_spec g 0), (Z.eqb_spec r 0); cbn; nia.
Qed.

Lemma dec_strip_scale_spec fuel : forall w s,
  wide_ok w ->
  exists w', dec_strip_scale fuel w s = (w', snd (strip10 fuel BDEC_MAX_SCALE (wval w) s)) /\
    wide_ok w' /\ wval w' = fst (strip10 fuel BDEC_MAX_SCALE (wval w) s).
Proof.
  induction fuel as [|fuel IH]; intros w s Hw; cbn [dec_strip_scale strip10]; [by exists w|].
  rewrite decw_mod10_val by done.
  destruct ((BDEC_MAX_SCALE <? s) && (wval w mod 10 =? 0)); [|by exists w].
  destruct (decw_div10_wide w Hw) as (q & -> & Hq & Hqv). cbn [fst].
  destruct (IH q (s - 1) Hq) as (w' & -> & Hw' & Hv). rewrite Hqv in *. by exists w'.
Qed.

Lemma finish_scale_negative w scale line col :
  wide_ok w -> 0 < wval w -> scale < 0 ->
  if 38 <? ndigits (wval w) - scale then dec_finish_scale w scale line col = dec_overflow line col
  else exists w', dec_finish_scale w scale line col = Ok (w', 0) /\ wide_ok w' /\
    wval w' = wval w * 10 ^ (- scale).
Proof.
  intros Hw Hpos Hs. unfold dec_finish_scale. replace (scale <? 0) with true by lia.
  cbv zeta. rewrite decw_digits_val by done. pose proof (ndigits_pos (wval w) ltac:(lia)).
  replace ((BDEC_PRECISION <? - scale) || (BDEC_PRECISION <? ndigits (wval w) + - scale))
    with (38 <? ndigits (wval w) - scale) by (unfold BDEC_PRECISION; lia).
  destruct (Z.ltb_spec 38 (ndigits (wval w) - scale)); [done|].
  destruct (decw_mul_pow10_spec w (- scale) line col Hw) as (w' & -> & Hw' & Hv); [lia| |].
  { assert (wval w * 10 ^ (- scale) < 10 ^ 38); [|lia].
    pose proof (pow10_pos (- scale) ltac:(lia)).
    apply ndigits_lt_pow; [nia|lia|]. rewrite ndigits_mul_pow10; lia. }
  exists w'. cbn -[dec_strip_scale]. by rewrite (surjective_pairing (dec_strip_scale _ _ _)).
Qed.

Lemma finish_scale_positive w scale line col :
  wide_ok w -> 0 <= scale ->
  let '(v, s) := strip10 155 65535 (wval w) scale in
  if 65535 <? s then dec_finish_scale w scale line col = dec_overflow line col
  else exists w', dec_finish_scale w scale line col = Ok (w', s) /\ wide_ok w' /\ wval w' = v.
Proof.
  intros Hw Hs. unfold dec_finish_scale. replace (scale <? 0) with false by lia.
  cbn -[dec_strip_scale strip10].
  destruct (dec_strip_scale_spec DECW_FUEL w scale Hw) as (w' & -> & Hw' & Hv).
  change DECW_FUEL with 155%nat in *. change BDEC_MAX_SCALE with 65535 in *.
  destruct (strip10 155 65535 (wval w) scale) as [v s]. cbn [fst snd] in *.
  destruct (65535 <? s); [done|]. by exists w'.
Qed.

Lemma finish_round_spec w neg s m line col :
  wide_ok w -> 0 < wval w -> 0 <= s ->
  match round38 (wval w) neg s m with
  | None => dec_finish_round w neg s (mode_code m) line col = dec_overflow line col
  | Some (c, s') => exists w', dec_finish_round w neg s (mode_code m) line col = Ok (w', s') /\
      wide_ok w' /\ wval w' = c
  end.
Proof.
  intros Hw Hpos Hs. unfold round38, dec_finish_round. cbv zeta.
  rewrite decw_digits_val by done. set (v := wval w) in *.
  destruct (Z.leb_spec (ndigits v - 38) 0).
  { replace (BDEC_PRECISION <? ndigits v) with false by (unfold BDEC_PRECISION; lia).
    by exists w. }
  replace (BDEC_PRECISION <? ndigits v) with true by (unfold BDEC_PRECISION; lia).
  change (ndigits v - BDEC_PRECISION) with (ndigits v - 38).
  set (k := ndigits v - 38) in *. destruct (Z.ltb_spec s k); [done|].
  destruct (dec_drop_spec (Z.to_nat k) w 0 false Hw ltac:(lia)) as (q & -> & Hq & Hqv).
  rewrite Z2Nat.id in * by lia. cbn [orb]. fold v in Hqv. fold v.
  rewrite should_increment_spec by (done || lia). cbn -[round_up].
  assert (Hk : 0 < 10 ^ k) by (apply pow10_pos; lia).
  pose proof (ndigits_spec v Hpos) as [_ [Hlo Hhi]].
  replace (ndigits v - 1) with (37 + k) in Hlo by lia.
  replace (ndigits v) with (38 + k) in Hhi by lia. rewrite Z.pow_add_r in Hlo, Hhi by lia.
  assert (Hqr : 10 ^ 37 <= v / 10 ^ k < 10 ^ 38).
  { split; [apply Z.div_le_lower_bound; lia|apply Z.div_lt_upper_bound; lia]. }
  unfold round_quot.
  assert (Hinc : exists w', (if round_up m neg v (10 ^ k) then decw_increment q line col else Ok q)
     = Ok w' /\ wide_ok w' /\ wval w' = v / 10 ^ k + (if round_up m neg v (10 ^ k) then 1 else 0)).
  { destruct Hq as [Hlen Hq]. destruct (round_up m neg v (10 ^ k)).
    - destruct (decw_increment_spec line col q Hq) as (w' & -> & Hw' & Hlen' & Hv').
      { rewrite Hlen, Hqv. change (wlim BDEC_WIDE_LIMBS) with (2 ^ 512). lia. }
      exists w'. split; [done|]. split; [split; [congruence|done]|lia].
    - exists q. split; [done|]. split; [done|lia]. }
  destruct Hinc as (w' & -> & Hw' & Hv'). cbn -[round_up].
  rewrite decw_digits_val, decw_mod10_val, Hv' by done.
  set (c := v / 10 ^ k + _) in *. assert (Hc : c <= 10 ^ 38) by (subst c; case_match; lia).
  assert (Hcpos : 0 < c) by (subst c; case_match; lia).
  replace (BDEC_PRECISION <? ndigits c) with (negb (c <? 10 ^ 38)).
  2:{ pose proof (ndigits_lt_pow c 38 ltac:(lia) ltac:(lia)). unfold BDEC_PRECISION.
      destruct (Z.ltb_spec c (10 ^ 38)); cbn; lia. }
  destruct (Z.ltb_spec c (10 ^ 38)); cbn [negb]; [by exists w'|].
  replace c with (10 ^ 38) by lia. change (10 ^ 38 mod 10 =? 0) with true.
  rewrite orb_false_r. destruct (Z.eqb_spec (s - k) 0); [done|].
  destruct (decw_div10_wide w' Hw') as (q' & -> & Hq' & Hqv'). exists q'.
  split; [done|]. split; [done|]. rewrite Hqv', Hv'. replace c with (10 ^ 38) by lia. done.
Qed.

(** Every result is normalised by [dec_finish]. *)
Lemma dec_finish_spec w neg scale m line col :
  wide_ok w ->
  dec_finish w neg scale (mode_code m) line col =
  to_dec neg (finish_spec (wval w) neg scale m) line col.
Proof.
  intros Hw. unfold dec_finish, finish_spec.
  rewrite decw_zero_val by apply Hw. pose proof (wide_range w Hw).
  destruct (Z.eqb_spec (wval w) 0).
  { rewrite dec_set_zero. change BDEC_MAX_SCALE with 65535.
    destruct (Z.ltb_spec scale 0).
    - replace (65535 <? 0) with false by lia. replace (65535 <? scale) with false by lia.
      rewrite Z.max_l by lia. by destruct neg.
    - rewrite Z.max_r by lia. destruct (65535 <? scale); [done|]. by destruct neg. }
  assert (Hend : forall w' s', wide_ok w' -> 0 < wval w' -> 0 <= s' ->
    (r ← dec_finish_round w' neg s' (mode_code m) line col;
     coefficient ← decw_to128 (fst r) line col;
     if 0 <? bu_cmp coefficient dec_coeff_limit then dec_overflow line col
     else Ok (dec_set coefficient neg (snd r))) =
    to_dec neg (round38 (wval w') neg s' m) line col).
  { intros w' s' Hw' Hp Hs'. pose proof (finish_round_spec w' neg s' m line col Hw' Hp Hs') as Hr.
    destruct (round38 (wval w') neg s' m) as [[c s]|] eqn:H38; [|by rewrite Hr].
    apply round38_bounds in H38 as [Hc _]; [|done..].
    destruct Hr as (w2 & -> & Hw2 & Hv2). cbn -[dec_coeff_limit].
    destruct (decw_to128_spec w2 line col Hw2 ltac:(lia)) as (b & -> & Hb & Hbv).
    cbn -[dec_coeff_limit]. rewrite Hv2 in Hbv. rewrite dec_coeff_limit_val, bu_cmp_gt by (done || split; word).
    change (bu_val _) with (10 ^ 38 - 1) at 1.
    replace (10 ^ 38 - 1 <? bu_val b) with false by lia.
    rewrite dec_set_make, Hbv by (done || lia). done. }
  destruct (Z.ltb_spec scale 0).
  - pose proof (finish_scale_negative w scale line col Hw ltac:(lia) ltac:(lia)) as Hf.
    destruct (Z.ltb_spec 38 (ndigits (wval w) - scale)); [by rewrite Hf|].
    destruct Hf as (w' & -> & Hw' & Hv'). cbn -[dec_coeff_limit].
    pose proof (pow10_pos (- scale) ltac:(lia)).
    rewrite Hend by (done || nia). rewrite Hv'. unfold round38.
    rewrite ndigits_mul_pow10 by lia. by replace (ndigits (wval w) + - scale - 38 <=? 0) with true by lia.
  - pose proof (finish_scale_positive w scale line col Hw ltac:(lia)) as Hf.
    pose proof (strip10_spec 155 65535 (wval w) scale ltac:(lia)) as Hst.
    destruct (strip10 155 65535 (wval w) scale) as [v s].
    destruct (Z.ltb_spec 65535 s); [by rewrite Hf|].
    destruct Hf as (w' & -> & Hw' & <-). cbn -[dec_coeff_limit]. apply Hend; [done|lia..].
Qed.

(** ** Addition, subtraction, multiplication *)

(** The decimal nearest to [v * 10 ^ -scale], ties to even. *)
Definition dec_nearest (v scale line col : Z) : result BDec :=
  to_dec (v <? 0) (finish_spec (Z.abs v) (v <? 0) scale HalfEven) line col.

Lemma signed_abs v : signed (v <? 0) (Z.abs v) = v.
Proof. unfold signed. case_match; bools; lia. Qed.

Lemma dec_finish_nearest w neg scale line col v :
  wide_ok w -> wval w = Z.abs v -> (v <> 0 -> neg = (v <? 0)) ->
  dec_finish w neg scale BROUND_HALF_EVEN line col = dec_nearest v scale line col.
Proof.
  intros Hw Hv Hneg. change BROUND_HALF_EVEN with (mode_code HalfEven).
  rewrite dec_finish_spec by done. rewrite Hv. unfold dec_nearest.
  destruct (Z.eq_dec v 0) as [->|Hnz]; [|by rewrite Hneg].
  unfold finish_spec. cbn -[Z.ltb]. by destruct (65535 <? scale), neg.
Qed.

Lemma dec_nearest_wf v scale line col d :
  dec_nearest v scale line col = Ok d -> dec_wf d.
Proof.
  unfold dec_nearest. destruct (finish_spec _ _ _ _) as [[c s]|] eqn:Hf; [|done].
  intros [= <-]. apply finish_spec_bounds in Hf; [|lia].
  apply dec_make_wf; [|lia]. unfold signed. case_match; lia.
Qed.

Lemma round38_exact_pad c neg s k :
  0 < c < 10 ^ 38 -> 0 <= s -> 0 <= k -> s + k <= 65535 ->
  finish_spec (c * 10 ^ k) neg (s + k) HalfEven = Some (widen_spec c s (s + k)).
Proof.
  intros Hc Hs Hk Hm. pose proof (pow10_pos k Hk). unfold finish_spec.
  replace (c * 10 ^ k =? 0) with false by nia. replace (s + k <? 0) with false by lia.
  rewrite strip10_below by lia. replace (65535 <? s + k) with false by lia.
  by apply round38_pad.
Qed.

Lemma finish_spec_round38 v neg s m :
  0 < v -> 0 <= s <= 65535 -> finish_spec v neg s m = round38 v neg s m.
Proof.
  intros Hv Hs. unfold finish_spec.
  replace (v =? 0) with false by lia. replace (s <? 0) with false by lia.
  rewrite strip10_below by lia. by replace (65535 <? s) with false by lia.
Qed.

Lemma dec_nearest_zero scale line col :
  0 <= scale <= 65535 -> dec_nearest 0 scale line col = Ok (dec_make 0 scale).
Proof.
  intros Hs. unfold dec_nearest, finish_spec. cbn. replace (65535 <? scale) with false by lia.
  cbn. by rewrite Z.max_r by lia.
Qed.

Lemma dec_widen_spec d scale line col :
  dec_wf d -> d_s d <= scale <= 65535 ->
  dec_widen d scale line col = dec_nearest (dec_coeff d * 10 ^ (scale - d_s d)) scale line col.
Proof.
  intros Hwf Hs. destruct (proj2 (proj2 Hwf)) as (Hc & Hsd & _).
  pose proof (dec_coeff_make d Hwf) as Heta. unfold dec_widen.
  pose proof (pow10_pos (scale - d_s d) ltac:(lia)) as Hp.
  destruct (Z.eqb_spec (dec_coeff d) 0) as [Hz|Hnz].
  { rewrite Hz, Z.mul_0_l, dec_nearest_zero by lia. rewrite dec_zero_val, Hz by done.
    destruct (Z.leb_spec scale (d_s d)).
    - f_equal. rewrite <-Heta, Hz. f_equal. lia.
    - change BDEC_MAX_SCALE with 65535. replace (65535 <? scale) with false by lia.
      rewrite dec_set_zero. done. }
  set (c := Z.abs (dec_coeff d)). assert (Hcb : 0 < c < 10 ^ 38) by lia.
  assert (Hsp : forall k, 0 <= k -> d_s d + k <= 65535 ->
    dec_nearest (dec_coeff d * 10 ^ k) (d_s d + k) line col =
    to_dec (dec_coeff d <? 0) (Some (widen_spec c (d_s d) (d_s d + k))) line col).
  { intros k Hk Hm. unfold dec_nearest. pose proof (pow10_pos k Hk).
    replace (dec_coeff d * 10 ^ k <? 0) with (dec_coeff d <? 0) by nia.
    rewrite Z.abs_mul, (Z.abs_eq (10 ^ k)), round38_exact_pad by lia. done. }
  assert (Hgoal : dec_nearest (dec_coeff d * 10 ^ (scale - d_s d)) scale line col =
    to_dec (dec_coeff d <? 0) (Some (widen_spec c (d_s d) scale)) line col).
  { pose proof (Hsp (scale - d_s d) ltac:(lia) ltac:(lia)) as Hk.
    by replace (d_s d + (scale - d_s d)) with scale in Hk by lia. }
  rewrite Hgoal. clear Hgoal.
  assert (Hself : to_dec (dec_coeff d <? 0) (Some (c, d_s d)) line col = Ok d).
  { cbn. subst c. by rewrite signed_abs, Heta. }
  destruct (Z.leb_spec scale (d_s d)).
  { rewrite <-Hself. unfold widen_spec. replace (Z.max 0 _) with 0 by lia.
    by rewrite Z.mul_1_r, Z.add_0_r. }
  rewrite dec_zero_val, (proj2 (Z.eqb_neq _ _)) by done.
  rewrite dec_digits128_val, dec_mag_val by auto with word. cbv zeta. fold c.
  change BDEC_PRECISION with 38.
  assert (Hnd : 1 <= ndigits c <= 38)
    by (split; [apply ndigits_pos; lia|apply ndigits_lt_pow; lia]).
  replace (if _ <? _ then _ else _) with (Z.min (38 - ndigits c) (scale - d_s d))
    by (case_match; bools; lia).
  set (step := Z.min _ _).
  destruct (Z.leb_spec step 0).
  { rewrite <-Hself. unfold widen_spec. replace (Z.max 0 _) with 0 by lia.
    by rewrite Z.mul_1_r, Z.add_0_r. }
  pose proof (pow10_pos step ltac:(lia)).
  destruct (decw_mul_pow10_spec (decw_from128 (dec_mag d)) step line col) as (w & -> & Hw & Hv);
    [auto with word|lia| |].
  { rewrite decw_from128_val, dec_mag_val by done. fold c.
    pose proof (pow10_le step 38 ltac:(lia)). nia. }
  rewrite decw_from128_val, dec_mag_val in Hv by done. fold c in Hv. cbn -[dec_finish].
  rewrite (dec_finish_nearest _ _ _ _ _ (dec_coeff d * 10 ^ step)).
  - rewrite Hsp by lia. unfold widen_spec.
    by replace (Z.max 0 (Z.min (38 - ndigits c) (d_s d + step - d_s d)))
      with (Z.max 0 (Z.min (38 - ndigits c) (scale - d_s d))) by lia.
  - done.
  - rewrite Hv, Z.abs_mul. subst c. lia.
  - intros _. rewrite dec_negative_val by done. nia.
Qed.

(** The common scale of an addition or a comparison. *)
Definition max_scale (a b : BDec) : Z := if d_s b <? d_s a then d_s a else d_s b.

Lemma max_scale_max a b : max_scale a b = Z.max (d_s a) (d_s b).
Proof. unfold max_scale. case_match; bools; lia. Qed.

(** The coefficient of [d] at the scale [s]. *)
Definition dec_at (d : BDec) (s : Z) : Z := dec_coeff d * 10 ^ (s - d_s d).

Lemma dec_wf_coeff d : dec_wf d -> Z.abs (dec_coeff d) < 10 ^ 38.
Proof. intros (_ & _ & Hc & _). lia. Qed.

Lemma dec_wf_scale d : dec_wf d -> 0 <= d_s d <= 65535.
Proof. intros (_ & _ & _ & Hs & _). done. Qed.

Lemma dec_digits_bound d :
  dec_wf d -> 1 <= ndigits (Z.abs (dec_coeff d)) <= 38.
Proof.
  intros Hd. pose proof (dec_wf_coeff d Hd).
  split; [apply ndigits_pos; lia|apply ndigits_lt_pow; lia].
Qed.

Lemma dec_at_abs d s : d_s d <= s -> Z.abs (dec_at d s) = Z.abs (dec_coeff d) * 10 ^ (s - d_s d).
Proof. intros. unfold dec_at. pose proof (pow10_pos (s - d_s d) ltac:(lia)). lia. Qed.

Lemma dec_at_sign d s : d_s d <= s -> (dec_at d s <? 0) = (dec_coeff d <? 0).
Proof. intros. unfold dec_at. pose proof (pow10_pos (s - d_s d) ltac:(lia)). nia. Qed.

Lemma dec_align d s line col :
  dec_wf d -> d_s d <= s <= d_s d + 100 ->
  exists w, decw_mul_pow10 (decw_from128 (dec_mag d)) (s - d_s d) line col = Ok w /\
    wide_ok w /\ wval w = Z.abs (dec_at d s) /\ wval w < 10 ^ 138.
Proof.
  intros Hd Hs. pose proof (dec_wf_coeff d Hd).
  assert (Hlt : Z.abs (dec_coeff d) * 10 ^ (s - d_s d) < 10 ^ 138).
  { pose proof (pow10_le (s - d_s d) 100 ltac:(lia)).
    pose proof (pow10_pos (s - d_s d) ltac:(lia)). change (10 ^ 138) with (10 ^ 38 * 10 ^ 100). nia. }
  destruct (decw_mul_pow10_spec (decw_from128 (dec_mag d)) (s - d_s d) line col)
    as (w & Hw & Hok & Hv); [auto with word|lia|rewrite decw_from128_val, dec_mag_val by done; lia|].
  rewrite decw_from128_val, dec_mag_val in Hv by done.
  exists w. rewrite dec_at_abs by lia. rewrite Hv. done.
Qed.

(** The exponent of the leading digit, as [beans_decv_add] computes it. *)
Definition dec_exp (d : BDec) : Z := dec_digits128 (dec_mag d) - 1 - d_s d.

Lemma dec_exp_val d : dec_wf d -> dec_exp d = ndigits (Z.abs (dec_coeff d)) - 1 - d_s d.
Proof. intros. unfold dec_exp. by rewrite dec_digits128_val, dec_mag_val by auto with word. Qed.

Lemma dec_exp_close a b :
  dec_wf a -> dec_wf b -> dec_exp a - dec_exp b <= 39 -> dec_exp b - dec_exp a <= 39 ->
  d_s a <= max_scale a b <= d_s a + 100 /\ d_s b <= max_scale a b <= d_s b + 100.
Proof.
  intros Ha Hb. rewrite !dec_exp_val, max_scale_max by done.
  pose proof (dec_digits_bound a Ha). pose proof (dec_digits_bound b Hb). lia.
Qed.

Lemma dec_nearest_absorb d k b line col :
  dec_wf d -> dec_coeff d <> 0 -> 0 <= k -> d_s d + k <= 65535 ->
  41 <= ndigits (Z.abs (dec_coeff d)) + k ->
  0 < Z.abs b < 10 ^ (ndigits (Z.abs (dec_coeff d)) + k - 40) ->
  dec_nearest (dec_coeff d * 10 ^ k + b) (d_s d + k) line col =
  dec_nearest (dec_coeff d * 10 ^ k) (d_s d + k) line col.
Proof.
  intros Hd Hnz Hk Hm Hf Hb. pose proof (dec_wf_coeff d Hd). pose proof (dec_wf_scale d Hd).
  set (c := Z.abs (dec_coeff d)) in *. pose proof (pow10_pos k Hk) as Hp.
  assert (Hbig : Z.abs b < c * 10 ^ k).
  { destruct (ndigits_spec c ltac:(lia)) as [Hn1 [Hlo _]].
    pose proof (pow10_le (ndigits c + k - 40) (ndigits c - 1 + k) ltac:(lia)) as Hle.
    rewrite (Z.pow_add_r _ (ndigits c - 1)) in Hle by lia. nia. }
  assert (Hs : (dec_coeff d * 10 ^ k + b <? 0) = (dec_coeff d <? 0)) by nia.
  assert (Hs0 : (dec_coeff d * 10 ^ k <? 0) = (dec_coeff d <? 0)) by nia.
  unfold dec_nearest. rewrite Hs, Hs0, Z.abs_mul, (Z.abs_eq (10 ^ k)) by lia. fold c.
  rewrite !finish_spec_round38 by (lia || nia). f_equal.
  assert (Hcase : Z.abs (dec_coeff d * 10 ^ k + b) = c * 10 ^ k + Z.abs b \/
    Z.abs (dec_coeff d * 10 ^ k + b) = c * 10 ^ k - Z.abs b) by nia.
  destruct Hcase as [-> | ->]; [apply round38_absorb_add|apply round38_absorb_sub]; lia.
Qed.

Lemma dec_add_far a b line col :
  dec_wf a -> dec_wf b -> dec_coeff a <> 0 -> dec_coeff b <> 0 -> 39 < dec_exp a - dec_exp b ->
  let s := Z.max (d_s a) (d_s b) in
  dec_widen a s line col = dec_nearest (dec_at a s + dec_at b s) s line col.
Proof.
  intros Ha Hb Hza Hzb Hfar s. rewrite !dec_exp_val in Hfar by done.
  pose proof (dec_wf_scale a Ha). pose proof (dec_wf_scale b Hb).
  pose proof (dec_digits_bound a Ha). pose proof (dec_digits_bound b Hb).
  rewrite dec_widen_spec by (done || lia). unfold dec_at at 1.
  symmetry.
  assert (Hbs : Z.abs (dec_at b s) < 10 ^ (ndigits (Z.abs (dec_coeff b)) + (s - d_s b))).
  { rewrite dec_at_abs by lia. destruct (ndigits_spec (Z.abs (dec_coeff b))) as [_ [_ Hhi]]; [lia|].
    rewrite Z.pow_add_r by lia. pose proof (pow10_pos (s - d_s b) ltac:(lia)). nia. }
  assert (Hb0 : 0 < Z.abs (dec_at b s)).
  { rewrite dec_at_abs by lia. pose proof (pow10_pos (s - d_s b) ltac:(lia)). nia. }
  pose proof (pow10_le (ndigits (Z.abs (dec_coeff b)) + (s - d_s b))
    (ndigits (Z.abs (dec_coeff a)) + (s - d_s a) - 40) ltac:(lia)).
  pose proof (dec_nearest_absorb a (s - d_s a) (dec_at b s) line col Ha Hza) as Hab.
  replace (d_s a + (s - d_s a)) with s in Hab by lia. unfold dec_at at 1. apply Hab; lia.
Qed.

Lemma dec_add_spec a b line col :
  dec_wf a -> dec_wf b ->
  let s := Z.max (d_s a) (d_s b) in
  beans_decv_add a b line col = dec_nearest (dec_at a s + dec_at b s) s line col.
Proof.
  intros Ha Hb s. unfold beans_decv_add. fold (max_scale a b). rewrite max_scale_max. fold s.
  cbv zeta. fold (dec_exp a) (dec_exp b). rewrite !dec_zero_val by done.
  pose proof (dec_wf_scale a Ha). pose proof (dec_wf_scale b Hb).
  destruct (Z.eqb_spec (dec_coeff a) 0) as [Hza|Hza].
  { cbn [orb]. rewrite dec_widen_spec by (done || lia). f_equal. unfold dec_at. rewrite Hza. lia. }
  destruct (Z.eqb_spec (dec_coeff b) 0) as [Hzb|Hzb]; cbn [orb].
  { rewrite dec_widen_spec by (done || lia). f_equal. unfold dec_at. rewrite Hzb. lia. }
  change (BDEC_PRECISION + 1) with 39.
  destruct (Z.ltb_spec 39 (dec_exp a - dec_exp b)); [by apply dec_add_far|].
  destruct (Z.ltb_spec 39 (dec_exp b - dec_exp a)).
  { pose proof (dec_add_far b a line col Hb Ha ltac:(done) ltac:(done) ltac:(lia)) as Hf.
    cbv zeta in Hf. subst s. by rewrite (Z.max_comm (d_s a)), Hf, Z.add_comm. }
  pose proof (dec_exp_close a b Ha Hb ltac:(lia) ltac:(lia)) as [Hsa Hsb].
  rewrite max_scale_max in Hsa, Hsb. fold s in Hsa, Hsb.
  destruct (dec_align a s line col Ha ltac:(lia)) as (aw & -> & Haw & Hav & Hal).
  destruct (dec_align b s line col Hb ltac:(lia)) as (bw & -> & Hbw & Hbv & Hbl).
  cbn -[dec_finish]. rewrite !dec_negative_val by done.
  pose proof (dec_at_sign a s ltac:(lia)) as Hsga. pose proof (dec_at_sign b s ltac:(lia)) as Hsgb.
  rewrite <-Hsga, <-Hsgb.
  destruct (Bool.eqb (dec_at a s <? 0) (dec_at b s <? 0)) eqn:Hsg.
  - apply eqb_prop in Hsg.
    destruct (decw_add_spec aw bw line col Haw Hbw ltac:(lia)) as (w & -> & Hw & Hv).
    cbn -[dec_finish]. apply dec_finish_nearest; [done|lia|lia].
  - apply eqb_false_iff in Hsg. rewrite decw_cmp_val by (apply Haw || apply Hbw || (destruct Haw, Hbw; congruence)).
    rewrite Hav, Hbv. destruct (Z.compare_spec (Z.abs (dec_at a s)) (Z.abs (dec_at b s))) as [He|Hlt|Hgt];
      cbn -[dec_finish].
    + replace (dec_at a s + dec_at b s) with 0 by lia.
      rewrite dec_set_zero, dec_nearest_zero by lia. done.
    + destruct (decw_sub_spec bw aw Hbw Haw ltac:(lia)) as [Hw Hv].
      apply dec_finish_nearest; [done|lia|lia].
    + destruct (decw_sub_spec aw bw Haw Hbw ltac:(lia)) as [Hw Hv].
      apply dec_finish_nearest; [done|lia|lia].
Qed.

Lemma dec_neg_make d : dec_wf d -> beans_decv_neg d = dec_make (- dec_coeff d) (d_s d).
Proof.
  intros Hd. pose proof (dec_mag_lt d Hd). unfold beans_decv_neg.
  rewrite dec_set_make, dec_mag_val, dec_negative_val by (auto with word || lia).
  unfold signed. f_equal. destruct (Z.ltb_spec (dec_coeff d) 0); cbn; lia.
Qed.

Lemma dec_neg_spec d :
  dec_wf d -> dec_wf (beans_decv_neg d) /\ dec_coeff (beans_decv_neg d) = - dec_coeff d /\
  d_s (beans_decv_neg d) = d_s d.
Proof.
  intros Hd. pose proof (dec_wf_coeff d Hd). rewrite dec_neg_make by done.
  split_and!; [apply dec_make_wf; [lia|by apply dec_wf_scale]|apply dec_make_coeff; lia|done].
Qed.

Lemma dec_mul_spec a b line col :
  dec_wf a -> dec_wf b ->
  beans_decv_mul a b line col =
  dec_nearest (dec_coeff a * dec_coeff b) (d_s a + d_s b) line col.
Proof.
  intros Ha Hb. unfold beans_decv_mul.
  destruct (decw_multiply_spec (dec_mag a) (dec_mag b) line col) as (w & -> & Hw & Hv);
    [auto with word..|].
  rewrite !dec_mag_val in Hv by done. cbn -[dec_finish].
  apply dec_finish_nearest; [done|lia|]. intros Hnz. rewrite !dec_negative_val by done.
  destruct (Z.ltb_spec (dec_coeff a) 0), (Z.ltb_spec (dec_coeff b) 0); cbn; symmetry; nia.
Qed.
