(* ===== verification/DecimalDiv.v ===== *)
(** * DecimalDiv: division, rounding, order and conversion

    [beans_decv_div] produces digits by long division until 39 are known; it
    is shown to give the exact quotient when that has at most 38 digits and
    the half-even rounding of it otherwise.  [beans_decv_round] is shown to
    round at the requested place in each mode. *)

From S2P Require Import Prelude Digits U128 Wide Hash Decimal DecMath DecimalProofs.

Open Scope c_scope.

(** ** The integer digits *)

(** The integer digits come out in order, without leading zeros. *)
Lemma dec_int_digits_spec fuel : forall v acc,
  bu_ok v -> bu_val v < 10 ^ Z.of_nat fuel ->
  exists ds, dec_int_digits fuel v acc = ds ++ acc /\ digits_ok ds /\ dval ds = bu_val v /\
    slen ds = (if bu_val v =? 0 then 0 else ndigits (bu_val v)).
Proof.
  induction fuel as [|fuel IH]; intros v acc Hv Hlt; pose proof (bu_val_range v Hv);
    cbn [dec_int_digits].
  { exists []. replace (bu_val v) with 0 by (cbn in Hlt; lia). repeat split; constructor. }
  rewrite bu_zero_val by done. destruct (Z.eqb_spec (bu_val v) 0) as [Hz|Hz].
  { exists []. rewrite Hz. repeat split; constructor. }
  pose proof (bu_div10_spec v Hv) as (Hr & Hq & Hqv).
  destruct (bu_div10 v) as [q r]. cbn [fst snd] in *.
  replace (Z.of_nat (S fuel)) with (Z.of_nat fuel + 1) in Hlt by lia.
  rewrite pow10_S in Hlt by lia.
  destruct (IH q (ch_0 + r :: acc) Hq ltac:(rewrite Hqv; dlia)) as (ds & He & Hok & Hd & Hl).
  exists (ds ++ [ch_0 + r]). rewrite He, <-app_assoc. split; [done|]. split_and!.
  - apply Forall_app. split; [done|]. constructor; [|constructor]. unfold ch_0, ch_9. dlia.
  - rewrite dval_snoc, Hd, Hqv, Hr. dlia.
  - unfold slen in *. rewrite length_app, Nat2Z.inj_add, Hl, Hqv. cbn [length].
    destruct (Z.eqb_spec (bu_val v / 10) 0).
    + rewrite ndigits_small by dlia. lia.
    + rewrite (ndigits_div10 (bu_val v)) by dlia. lia.
Qed.

Lemma dec_next_digit_spec fuel : forall w d k,
  wide_ok w -> wide_ok d -> 0 < wval d -> wval w < Z.of_nat fuel * wval d ->
  exists w', dec_next_digit fuel w d k = (w', k + wval w / wval d) /\ wide_ok w' /\
    wval w' = wval w mod wval d.
Proof.
  induction fuel as [|fuel IH]; intros w d k Hw Hd Hpos Hlt; pose proof (wide_range w Hw).
  { lia. }
  cbn [dec_next_digit]. rewrite decw_cmp_ge by done.
  destruct (Z.leb_spec (wval d) (wval w)).
  - destruct (decw_sub_spec w d Hw Hd ltac:(lia)) as [Hs Hv].
    destruct (IH (decw_sub w d) d (k + 1) Hs Hd Hpos ltac:(lia)) as (w' & -> & Hw' & Hv').
    exists w'. rewrite Hv', Hv.
    replace (wval w - wval d) with (wval w + (-1) * wval d) by lia.
    rewrite Z.div_add, Z.mod_add by lia. split; [f_equal; lia|done].
  - exists w. rewrite Z.div_small, Z.mod_small by lia. split; [f_equal; lia|done].
Qed.

Lemma dec_keep_digits_spec line col ds : forall w,
  wide_ok w -> digits_ok ds -> wval w * 10 ^ slen ds + dval ds < 10 ^ 100 ->
  exists w', dec_keep_digits ds w line col = Ok w' /\ wide_ok w' /\
    wval w' = wval w * 10 ^ slen ds + dval ds.
Proof.
  induction ds as [|c ds IH]; intros w Hw Hok Hlt; cbn [dec_keep_digits].
  { exists w. unfold slen, dval. cbn. split; [done|]. split; [done|lia]. }
  apply Forall_cons in Hok as [Hc Hok]. pose proof (dval_range ds Hok).
  pose proof (wide_range w Hw). pose proof (pow10_pos (slen ds) (slen_nonneg ds)).
  rewrite dval_cons in *. replace (slen (c :: ds)) with (slen ds + 1) in *
    by (unfold slen; cbn [length]; lia).
  rewrite pow10_S in * by apply slen_nonneg. unfold ch_0, ch_9 in *.
  set (p := 10 ^ slen ds) in *.
  assert (0 <= (c - 48) * p) by nia. assert (wval w * 10 <= wval w * (10 * p)) by nia.
  assert (c - 48 <= (c - 48) * p) by nia.
  destruct (decw_mul10_spec w line col Hw ltac:(lia)) as (w1 & -> & Hw1 & Hv1).
  cbn -[dec_keep_digits decw_add].
  assert (Hd : bu_ok (mkBU (c - 48) 0)) by (split; unfold is_u64; cbn [bu_lo bu_hi]; lia).
  destruct (decw_add_spec w1 (decw_from128 (mkBU (c - 48) 0)) line col Hw1)
    as (w2 & -> & Hw2 & Hv2); [by apply decw_from128_ok| |].
  { rewrite decw_from128_val. unfold bu_val. cbn [bu_lo bu_hi]. lia. }
  rewrite decw_from128_val in Hv2. unfold bu_val in Hv2. cbn [bu_lo bu_hi] in Hv2.
  cbn -[dec_keep_digits]. destruct (IH w2 Hw2 Hok) as (w3 & -> & Hw3 & Hv3); [nia|].
  exists w3. split; [done|]. split; [done|nia].
Qed.

(** ** The division loop *)

(** The state of the loop after [j] fraction digits of [n / d]: [sig] holds
    the significant digits found so far. *)
Definition div_state (n d j : Z) (rem : BU128) (sig : str) (ratio_exp : Z) : Prop :=
  0 <= j /\ bu_ok rem /\ bu_val rem = (n * 10 ^ j) mod d /\
  digits_ok sig /\ dval sig = n * 10 ^ j / d /\
  slen sig = (if dval sig =? 0 then 0 else ndigits (dval sig)) /\
  ratio_exp = slen sig - 1 - j.

(** One more digit. *)
Lemma div_digit n d j :
  0 <= n -> 0 < d -> 0 <= j ->
  n * 10 ^ (j + 1) / d = n * 10 ^ j / d * 10 + (n * 10 ^ j) mod d * 10 / d /\
  (n * 10 ^ (j + 1)) mod d = ((n * 10 ^ j) mod d * 10) mod d.
Proof.
  intros Hn Hd Hj. rewrite pow10_S by done.
  set (m := n * 10 ^ j). replace (n * (10 * 10 ^ j)) with (m * 10) by (subst m; lia).
  pose proof (Z.div_mod m d ltac:(lia)) as Hm. pose proof (Z.mod_pos_bound m d Hd).
  set (q := m / d) in *. set (r := m mod d) in *.
  pose proof (Z.div_mod (r * 10) d ltac:(lia)). pose proof (Z.mod_pos_bound (r * 10) d Hd).
  split; symmetry.
  - apply Z.div_unique with ((r * 10) mod d); [lia|]. nia.
  - apply Z.mod_unique with (q * 10 + r * 10 / d); [lia|]. nia.
Qed.

Lemma div_state_step n d j rem sig re c :
  0 < n -> 0 < d -> div_state n d j rem sig re ->
  let digit := bu_val rem * 10 / d in
  forall rem', bu_ok rem' -> bu_val rem' = (bu_val rem * 10) mod d ->
  c = ch_0 + digit ->
  (slen sig =? 0) && (digit =? 0) = true /\ div_state n d (j + 1) rem' sig (re - 1) \/
  (slen sig =? 0) && (digit =? 0) = false /\ div_state n d (j + 1) rem' (sig ++ [c]) re.
Proof.
  intros Hn Hd (Hj & Hrok & Hrem & Hok & Hv & Hl & Hre) digit rem' Hrok' Hrem' ->.
  destruct (div_digit n d j ltac:(lia) Hd Hj) as [Hq Hm]. rewrite <-Hrem in Hq, Hm. fold digit in Hq.
  rewrite <-Hv in Hq.
  assert (Hdig : 0 <= digit <= 9).
  { pose proof (Z.mod_pos_bound (n * 10 ^ j) d Hd). subst digit. rewrite Hrem.
    split; [apply Z.div_pos; lia|]. apply Z.lt_succ_r, Z.div_lt_upper_bound; lia. }
  pose proof (dval_range sig Hok).
  destruct ((slen sig =? 0) && (digit =? 0)) eqn:Ht; [left|right]; split; try done.
  - bools. assert (Hs0 : dval sig = 0).
    { destruct sig; [done|]. unfold slen in *. cbn in *. lia. }
    unfold div_state. split_and!; try done; try lia.
  - assert (Hnew : dval (sig ++ [ch_0 + digit]) = dval sig * 10 + digit) by (rewrite dval_snoc; lia).
    assert (Hlen : slen (sig ++ [ch_0 + digit]) = slen sig + 1)
      by (unfold slen; rewrite length_app; cbn [length]; lia).
    unfold div_state. rewrite Hnew, Hlen. split_and!; try done; try lia.
    + apply Forall_app. split; [done|]. constructor; [|constructor]. unfold ch_0, ch_9. lia.
    + destruct (Z.eqb_spec (dval sig) 0) as [Hz|Hz].
      * rewrite Hz, Hl in *. cbn in Ht. bools. rewrite ndigits_small by lia.
        by rewrite (proj2 (Z.eqb_neq _ _)) by lia.
      * rewrite (proj2 (Z.eqb_neq _ _)) by lia. rewrite (ndigits_div10 (dval sig * 10 + digit)) by lia.
        replace ((dval sig * 10 + digit) / 10) with (dval sig) by dlia. lia.
Qed.

Lemma dec_div_loop_spec n dv d line col :
  wide_ok dv -> wval dv = d -> 0 < n -> 0 < d < 10 ^ 38 ->
  forall fuel j rem sig re,
  div_state n d j rem sig re -> slen sig <= 39 ->
  10 ^ 38 * d <= n * 10 ^ (j + Z.of_nat fuel) ->
  exists j' rem' sig' re',
    dec_div_loop fuel dv rem sig re line col = Ok (rem', sig', re') /\
    j <= j' /\ div_state n d j' rem' sig' re' /\ slen sig' <= 39 /\
    (slen sig' = 39 \/ (n * 10 ^ j') mod d = 0) /\
    (forall i, j <= i < j' -> (n * 10 ^ i) mod d <> 0).
Proof.
  intros Hdv Hdvv Hn Hd. induction fuel as [|fuel IH]; intros j rem sig re Hst Hlen Hf;
    cbn [dec_div_loop].
  { exists j, rem, sig, re. split; [done|]. split; [lia|]. split; [done|]. split; [done|].
    split; [|lia]. left. destruct Hst as (Hj & _ & _ & _ & Hv & Hl & _).
    rewrite Z.add_0_r in Hf.
    assert (10 ^ 38 <= dval sig) by (rewrite Hv; apply Z.div_le_lower_bound; lia).
    destruct (Z.eqb_spec (dval sig) 0); [lia|].
    assert (38 < ndigits (dval sig)) by (apply ndigits_gt_pow; lia). lia. }
  fold (slen sig). change (BDEC_PRECISION + 1) with 39.
  pose proof Hst as (Hj & Hrok & Hrem & _).
  rewrite bu_zero_val, Hrem by done.
  destruct (Z.ltb_spec (slen sig) 39).
  2:{ exists j, rem, sig, re. split; [done|]. split; [lia|]. split; [done|]. split; [done|].
      split; [left; lia|lia]. }
  destruct (Z.eqb_spec ((n * 10 ^ j) mod d) 0); cbn [negb andb].
  { exists j, rem, sig, re. split; [done|]. split; [lia|]. split; [done|]. split; [done|].
    split; [by right|lia]. }
  pose proof (Z.mod_pos_bound (n * 10 ^ j) d ltac:(lia)).
  destruct (decw_mul10_spec (decw_from128 rem) line col) as (w1 & -> & Hw1 & Hv1);
    [auto with word|rewrite decw_from128_val; lia|].
  rewrite decw_from128_val in Hv1. cbn -[dec_next_digit dec_div_loop decw_to128].
  destruct (dec_next_digit_spec 10 w1 dv 0 Hw1 Hdv ltac:(lia) ltac:(lia)) as (w2 & -> & Hw2 & Hv2).
  rewrite Hdvv, Hv1, (Z.mul_comm 10) in Hv2. rewrite Hdvv, Hv1, (Z.mul_comm 10), Z.add_0_l.
  pose proof (Z.mod_pos_bound (bu_val rem * 10) d ltac:(lia)).
  destruct (decw_to128_spec w2 line col Hw2 ltac:(lia)) as (rem2 & -> & Hrok2 & Hrem2).
  rewrite Hv2 in Hrem2. cbn -[dec_div_loop].
  destruct (div_state_step n d j rem sig re (ch_0 + bu_val rem * 10 / d) Hn ltac:(lia) Hst rem2 Hrok2 Hrem2 eq_refl)
    as [[-> Hst']|[-> Hst']].
  - destruct (IH (j + 1) rem2 sig (re - 1) Hst' ltac:(lia)) as (j' & r' & s' & e' & -> & Hj' & Hs' & Hl' & Hd' & Hm').
    { replace (j + 1 + Z.of_nat fuel) with (j + Z.of_nat (S fuel)) by lia. done. }
    exists j', r', s', e'. split; [done|]. split; [lia|]. split; [done|]. split; [done|]. split; [done|].
    intros i Hi. destruct (Z.eq_dec i j) as [->|]; [done|]. apply Hm'. lia.
  - destruct (IH (j + 1) rem2 (sig ++ [ch_0 + bu_val rem * 10 / d]) re Hst') as (j' & r' & s' & e' & -> & Hj' & Hs' & Hl' & Hd' & Hm').
    { unfold slen in *. rewrite length_app. cbn [length]. lia. }
    { replace (j + 1 + Z.of_nat fuel) with (j + Z.of_nat (S fuel)) by lia. done. }
    exists j', r', s', e'. split; [done|]. split; [lia|]. split; [done|]. split; [done|]. split; [done|].
    intros i Hi. destruct (Z.eq_dec i j) as [->|]; [done|]. apply Hm'. lia.
Qed.

(** What the loop leaves determines [div_places] and the rounded quotient. *)
Section div_result.
Context (n d j : Z) (rem : BU128) (sig : str) (re : Z).
Context (Hn : 0 < n) (Hd : 0 < d < 10 ^ 38).
Context (Hst : div_state n d j rem sig re).
Context (Hdone : slen sig = 39 \/ (n * 10 ^ j) mod d = 0).
Context (Hmin : forall i, 0 <= i < j -> (n * 10 ^ i) mod d <> 0).

(** Fewer fraction digits show fewer significant ones. *)
Lemma div_quot_digits i : 0 <= i < j -> ndigits (n * 10 ^ i / d) < Z.max 2 (slen sig).
Proof.
  intros Hi. destruct Hst as (Hj & _ & _ & Hok & Hv & Hl & _).
  set (q := n * 10 ^ i / d).
  assert (Hq : 0 <= q) by (apply Z.div_pos; pose proof (pow10_pos i ltac:(lia)); nia).
  destruct (Z.eq_dec q 0) as [->|Hnz]; [rewrite ndigits_0; lia|].
  assert (Hge : q * 10 ^ (j - i) <= dval sig).
  { rewrite Hv. apply Z.div_le_lower_bound; [lia|].
    replace (10 ^ j) with (10 ^ i * 10 ^ (j - i))
      by (rewrite <-Z.pow_add_r by lia; f_equal; lia).
    pose proof (Z.mul_div_le (n * 10 ^ i) d ltac:(lia)) as Hle. fold q in Hle.
    pose proof (pow10_pos (j - i) ltac:(lia)). nia. }
  pose proof (pow10_pos (j - i) ltac:(lia)).
  pose proof (ndigits_mono (q * 10 ^ (j - i)) (dval sig) ltac:(nia)) as Hm.
  rewrite ndigits_mul_pow10 in Hm by lia.
  destruct (Z.eqb_spec (dval sig) 0); [nia|lia].
Qed.

Lemma div_result_short :
  slen sig <= 38 -> div_places 80 n d = j /\ dval sig = round_quot HalfEven false (n * 10 ^ j) d
    /\ dval sig < 10 ^ 38 /\ 0 < slen sig.
Proof.
  intros Hs. assert (Hz : (n * 10 ^ j) mod d = 0) by lia.
  pose proof Hst as (Hj & _ & _ & Hok & Hv & Hl & _).
  split_and!.
  - apply div_places_unique; [done|done|done|by left|]. intros i Hi [Hm|Hb]; [by apply (Hmin i)|].
    pose proof (div_quot_digits i Hi). lia.
  - unfold round_quot, round_up. rewrite Hz, Hv.
    replace (d <? 2 * 0) with false by lia. replace (2 * 0 =? d) with false by lia. cbn. lia.
  - pose proof (dval_range sig Hok). pose proof (pow10_le (slen sig) 38 ltac:(lia)). lia.
  - destruct (Z.eqb_spec (dval sig) 0) as [H0|]; [|pose proof (ndigits_pos (dval sig)); 
      pose proof (dval_range sig Hok); lia].
    exfalso. pose proof (Z.div_mod (n * 10 ^ j) d ltac:(lia)) as Hdm.
    rewrite Hz, <-Hv, H0 in Hdm. pose proof (pow10_pos j Hj). nia.
Qed.

Lemma div_result_long :
  slen sig = 39 -> 1 <= j ->
  div_places 80 n d = j - 1 /\
  dval (take 38 sig) = n * 10 ^ (j - 1) / d /\
  10 ^ 37 <= dval (take 38 sig) < 10 ^ 38 /\ slen (take 38 sig) = 38 /\ digits_ok (take 38 sig) /\
  forall guard, guard = default 0 (sig !! 38%nat) - ch_0 ->
  (5 <? guard) || ((guard =? 5) && (negb (bu_zero rem) || negb (dval (take 38 sig) mod 10 mod 2 =? 0))) =
  round_up HalfEven false (n * 10 ^ (j - 1)) d.
Proof.
  intros Hs Hj1. pose proof Hst as (Hj & Hrok & Hrem & Hok & Hv & Hl & _).
  destruct (lookup_lt_is_Some_2 sig 38) as [c Hc]; [unfold slen in Hs; lia|].
  assert (Hsplit : sig = take 38 sig ++ [c]).
  { rewrite <-(take_drop 38 sig) at 1. f_equal. rewrite (drop_S _ _ _ Hc).
    rewrite drop_ge; [done|unfold slen in Hs; lia]. }
  assert (Hok38 : digits_ok (take 38 sig)) by (by apply Forall_take).
  assert (Hcr : 0 <= c - ch_0 <= 9).
  { pose proof (proj1 (Forall_lookup _ _) Hok _ _ Hc) as Hb. unfold ch_0, ch_9 in *. lia. }
  pose proof (dval_snoc (take 38 sig) c) as Hds. rewrite <-Hsplit in Hds.
  destruct (div_digit n d (j - 1) ltac:(lia) ltac:(lia) ltac:(lia)) as [Hq Hm].
  replace (j - 1 + 1) with j in Hq, Hm by lia. rewrite <-Hv in Hq. rewrite <-Hrem in Hm.
  set (m := n * 10 ^ (j - 1)) in *. set (r := m mod d) in *. set (q := m / d) in *.
  assert (Hr : 0 <= r < d) by (apply Z.mod_pos_bound; lia).
  pose proof (Z.div_mod (r * 10) d ltac:(lia)) as Hdm.
  pose proof (Z.mod_pos_bound (r * 10) d ltac:(lia)). rewrite <-Hm in *.
  set (g := r * 10 / d) in *. assert (0 <= g <= 9) by nia.
  assert (Hq38 : dval (take 38 sig) = q) by lia. assert (Hg : c - ch_0 = g) by lia.
  assert (Hl38 : slen (take 38 sig) = 38) by (unfold slen in *; rewrite length_take; lia).
  destruct (Z.eqb_spec (dval sig) 0) as [|Hnz]; [lia|].
  assert (Hq37 : 10 ^ 37 <= q).
  { assert (10 ^ 38 <= dval sig); [|lia]. apply ndigits_gt_pow; [|lia|lia].
    pose proof (dval_range sig Hok). lia. }
  pose proof (dval_range _ Hok38) as Hr38. rewrite Hl38, Hq38 in Hr38.
  split_and!; try lia; try done.
  - apply div_places_unique; [done|done|lia| |].
    + right. fold m. fold q. assert (37 < ndigits q); [|lia]. apply ndigits_gt_pow; lia.
    + intros i Hi [Hm0|Hb]; [by apply (Hmin i); [lia|]|].
      assert (Hi' : 10 * (n * 10 ^ i / d) <= q).
      { subst q m. apply Z.div_le_lower_bound; [lia|].
        pose proof (Z.mul_div_le (n * 10 ^ i) d ltac:(lia)).
        pose proof (pow10_le (i + 1) (j - 1) ltac:(lia)) as Hp. rewrite pow10_S in Hp by lia. nia. }
      assert (10 ^ 37 <= n * 10 ^ i / d).
      { apply ndigits_gt_pow; [|lia|lia]. apply Z.div_pos; [|lia].
        pose proof (pow10_pos i ltac:(lia)). nia. }
      lia.
  - intros guard ->. rewrite Hc. change (default 0 (Some c)) with c. rewrite Hg, Hq38, bu_zero_val by done.
    unfold round_up. fold r. fold q.
    assert (He : negb ((q mod 10) mod 2 =? 0) = negb (Z.even q)).
    { replace ((q mod 10) mod 2) with (q mod 2) by dlia. rewrite Zmod_even. by destruct (Z.even q). }
    rewrite He. set (x := bu_val rem) in *.
    replace (d <? 2 * r) with ((5 <? g) || ((g =? 5) && negb (x =? 0)))
      by (destruct (Z.ltb_spec 5 g), (Z.eqb_spec g 5), (Z.eqb_spec x 0); cbn; nia).
    replace (2 * r =? d) with ((g =? 5) && (x =? 0))
      by (destruct (Z.eqb_spec g 5), (Z.eqb_spec x 0); cbn; nia).
    destruct (5 <? g), (g =? 5), (x =? 0), (negb (Z.even q)); done.
Qed.

End div_result.

Lemma round_quot_half_even n1 n2 v d : round_quot HalfEven n1 v d = round_quot HalfEven n2 v d.
Proof. done. Qed.

Lemma dec_div_spec a b line col :
  dec_wf a -> dec_wf b ->
  let neg := xorb (dec_coeff a <? 0) (dec_coeff b <? 0) in
  beans_decv_div a b line col =
  if dec_coeff b =? 0 then Panic (lit "divide by zero") line col
  else if dec_coeff a =? 0 then Ok (dec_make 0 (Z.max 0 (d_s a - d_s b)))
  else to_dec neg (div_spec (Z.abs (dec_coeff a)) (Z.abs (dec_coeff b)) neg (d_s a) (d_s b))
         line col.
Proof.
  intros Ha Hb neg. pose proof (dec_wf_coeff a Ha). pose proof (dec_wf_coeff b Hb).
  unfold beans_decv_div. rewrite !dec_zero_val, !dec_negative_val by done. fold neg.
  destruct (Z.eqb_spec (dec_coeff b) 0) as [|Hbz]; [done|].
  destruct (Z.eqb_spec (dec_coeff a) 0) as [|Haz].
  { rewrite dec_set_zero. do 2 f_equal. case_match; bools; lia. }
  cbv zeta. set (n := Z.abs (dec_coeff a)) in *. set (d := Z.abs (dec_coeff b)) in *.
  pose proof (dec_mag_val a Ha) as Hna. pose proof (dec_mag_val b Hb) as Hdb. fold n in Hna. fold d in Hdb.
  destruct (bu_divmod_spec (dec_mag a) (dec_mag b)) as (q & r & -> & Hq & Hr & Hqv & Hrv);
    [auto with word..|lia|].
  change (default (mkBU 0 0, mkBU 0 0) (Some (q, r))) with (q, r). cbv iota beta. rewrite Hna, Hdb in Hqv, Hrv.
  destruct (dec_int_digits_spec 40 q [] Hq) as (sig & -> & Hok & Hsv & Hsl).
  { rewrite Hqv. assert (n / d <= n) by (apply Z.div_le_upper_bound; nia).
    change (Z.of_nat 40) with (38 + 2). rewrite Z.pow_add_r by lia. lia. }
  rewrite app_nil_r. rewrite bu_zero_val by done. rewrite <-Hsv. fold (slen sig).
  rewrite <-Hsv in Hsl.
  assert (Hst : div_state n d 0 r sig (if dval sig =? 0 then -1 else slen sig - 1)).
  { unfold div_state. rewrite Z.mul_1_r. split_and!; try done; [congruence|].
    case_match; lia. }
  assert (Hs38 : slen sig <= 38).
  { destruct (Z.eqb_spec (dval sig) 0); [lia|]. rewrite Hsl.
    apply ndigits_lt_pow; [rewrite Hsv, Hqv; apply Z.div_pos; lia|lia|].
    rewrite Hsv, Hqv. apply Z.div_lt_upper_bound; nia. }
  destruct (dec_div_loop_spec n (decw_from128 (dec_mag b)) d line col) with
    (fuel := DIV_FUEL) (j := 0) (rem := r) (sig := sig)
    (re := if dval sig =? 0 then -1 else slen sig - 1)
    as (j & rem & sg & re & -> & Hj0 & Hst' & Hl & Hdone & Hmin);
    [auto with word|by rewrite decw_from128_val|lia|lia|done|lia| |].
  { change (0 + Z.of_nat DIV_FUEL) with (38 + 42). rewrite Z.pow_add_r by lia. nia. }
  clear Hst. cbn -[dec_finish dec_keep_digits Z.ltb Z.eqb dec_should_increment replicate].
  fold (slen sg). pose proof Hst' as (_ & Hrok & _ & Hokg & _ & _ & Hre).
  assert (Hzeros : wide_ok (replicate BDEC_WIDE_LIMBS 0)) by (split; [done|apply limbs_zeros]).
  assert (Hz0 : wval (replicate BDEC_WIDE_LIMBS 0) = 0) by done.
  unfold div_spec. change BDEC_PRECISION with 38 in *.
  destruct (Z.le_gt_cases (slen sg) 38) as [Hle|Hgt].
  - destruct (div_result_short n d j rem sg re ltac:(lia) ltac:(lia) Hst' Hdone Hmin Hle)
      as (-> & Hval & Hlt & Hpos).
    replace (slen sg =? 0) with false by lia. replace (38 <? slen sg) with false by lia.
    replace (if slen sg <? 38 then slen sg else 38) with (slen sg)
      by (destruct (Z.ltb_spec (slen sg) 38); lia).
    rewrite take_ge by (unfold slen; lia).
    destruct (dec_keep_digits_spec line col sg _ Hzeros Hokg ltac:(lia)) as (w & -> & Hw & Hwv).
    cbn -[dec_finish]. rewrite Hz0 in Hwv.
    change BROUND_HALF_EVEN with (mode_code HalfEven). rewrite dec_finish_spec by done.
    rewrite Hwv, Z.mul_0_l, Z.add_0_l, Hval, Hre. do 2 f_equal. lia.
  - assert (Hj1 : 1 <= j).
    { destruct (Z.eq_dec j 0) as [->|]; [|lia]. exfalso.
      destruct Hst' as (_ & _ & _ & _ & Hv & Hl' & _). rewrite Z.mul_1_r in Hv.
      assert (Hvs : dval sg = dval sig) by congruence. rewrite Hvs, <-Hsl in Hl'. lia. }
    destruct (div_result_long n d j rem sg re ltac:(lia) ltac:(lia) Hst' Hmin ltac:(lia) Hj1)
      as (-> & Hval & Hrange & Hl38 & Hok38 & Hup).
    replace (slen sg =? 0) with false by lia. replace (38 <? slen sg) with true by lia.
    replace (slen sg <? 38) with false by lia. change (Z.to_nat 38) with 38%nat.
    destruct (dec_keep_digits_spec line col (take 38 sg) _ Hzeros Hok38 ltac:(lia)) as (w & -> & Hw & Hwv).
    cbn -[dec_finish take]. rewrite Hz0, Z.mul_0_l, Z.add_0_l in Hwv.
    specialize (Hup _ eq_refl).
    rewrite decw_mod10_val, Hwv, Hup by done. cbn -[dec_finish take round_up].
    set (up := round_up HalfEven false (n * 10 ^ (j - 1)) d) in *.
    assert (Hinc : exists w', (if up then decw_increment w line col else Ok w) = Ok w' /\ wide_ok w' /\
      wval w' = round_quot HalfEven neg (n * 10 ^ (j - 1)) d).
    { unfold round_quot. change (round_up HalfEven neg) with (round_up HalfEven false). fold up.
      destruct Hw as [Hwl Hwo]. destruct up.
      - destruct (decw_increment_spec line col w Hwo) as (w' & -> & Hw' & Hlen' & Hv').
        { rewrite Hwl. change (wlim BDEC_WIDE_LIMBS) with (2 ^ 512). lia. }
        exists w'. split; [done|]. split; [split; [congruence|done]|lia].
      - exists w. split; [done|]. split; [done|lia]. }
    destruct Hinc as (w' & -> & Hw' & Hwv'). cbn -[dec_finish take round_quot].
    change BROUND_HALF_EVEN with (mode_code HalfEven). rewrite dec_finish_spec by done.
    rewrite Hwv', Hre. do 2 f_equal. lia.
Qed.

(** ** Rounding to a number of places *)

Lemma round_quot_below m neg n d :
  0 <= n -> 10 * n < d -> round_quot m neg n d =
  if (match m with Floor => neg | Ceil => negb neg | _ => false end) && negb (n =? 0) then 1 else 0.
Proof.
  intros Hn Hd. unfold round_quot, round_up. rewrite Z.div_small, Z.mod_small by lia.
  replace (d <? 2 * n) with false by lia. replace (d <=? 2 * n) with false by lia.
  replace (2 * n =? d) with false by lia.
  replace (0 <? n) with (negb (n =? 0)) by lia. by destruct m.
Qed.

(** The tail of [beans_decv_round]. *)
Lemma round_finish_spec w neg places m line col :
  wide_ok w -> wval w <= 10 ^ 39 -> -38 <= places ->
  (if places <? 0 then
     w' ← decw_mul_pow10 w (- places) line col; dec_finish w' neg 0 (mode_code m) line col
   else dec_finish w neg places (mode_code m) line col) =
  to_dec neg (finish_spec (wval w * 10 ^ Z.max 0 (- places)) neg (Z.max 0 places) m) line col.
Proof.
  intros Hw Hlt Hp. pose proof (wide_range w Hw). destruct (Z.ltb_spec places 0).
  - rewrite !Z.max_r, Z.max_l by lia.
    pose proof (pow10_le (- places) 38 ltac:(lia)). pose proof (pow10_pos (- places) ltac:(lia)).
    destruct (decw_mul_pow10_spec w (- places) line col Hw) as (w' & -> & Hw' & Hv);
      [lia|nia|]. cbn -[dec_finish]. by rewrite dec_finish_spec, Hv.
  - rewrite Z.max_l, Z.max_r, Z.mul_1_r by lia. by apply dec_finish_spec.
Qed.

Lemma dec_round_spec d places m line col :
  dec_wf d -> places < d_s d ->
  (dec_coeff d = 0 -> m = Ceil -> places < -38 \/ d_s d = places + 1) ->
  let neg := dec_coeff d <? 0 in
  beans_decv_round d places (mode_code m) line col =
  to_dec neg (round_spec (Z.abs (dec_coeff d)) neg (d_s d) places m) line col.
Proof.
  intros Hd Hs Hceil neg. pose proof (dec_wf_coeff d Hd) as Hc. pose proof (dec_wf_scale d Hd).
  unfold beans_decv_round, round_spec. rewrite !dec_negative_val, !dec_zero_val by done. fold neg.
  replace (d_s d <=? places) with false by lia. cbv zeta. change BDEC_PRECISION with 38.
  set (c := Z.abs (dec_coeff d)) in *.
  replace (dec_coeff d =? 0) with (c =? 0) by lia.
  assert (Haway : forall z : bool, ((mode_code m =? BROUND_FLOOR) && neg) ||
      ((mode_code m =? BROUND_CEIL) && negb neg && z) =
    (match m with Floor => neg | Ceil => negb neg && z | _ => false end)).
  { intros z. by destruct m, neg, z. }
  assert (Hnegc : neg = true -> c <> 0) by (subst neg c; lia).
  destruct (Z.ltb_spec places (- (38))) as [Hp|Hp].
  { rewrite Haway. pose proof (pow10_le 39 (d_s d - places) ltac:(lia)).
    rewrite round_quot_below by lia. rewrite Z.max_r, Z.max_l by lia.
    replace ((match m with Floor => neg | Ceil => negb neg | _ => false end) && negb (c =? 0))
      with (match m with Floor => neg | Ceil => negb neg && negb (c =? 0) | _ => false end).
    2:{ destruct m; try done. destruct neg; [|done]. by replace (c =? 0) with false by lia. }
    destruct (match m with Floor => neg | Ceil => _ | _ => false end);
      [|by rewrite dec_set_zero; destruct neg].
    rewrite Z.mul_1_l, finish_spec_round38 by (try apply pow10_pos; lia).
    unfold round38. replace (10 ^ (- places)) with (1 * 10 ^ (- places)) by lia.
    rewrite ndigits_mul_pow10 by lia. change (ndigits 1) with 1.
    replace (1 + - places - 38 <=? 0) with false by lia.
    by replace (0 <? 1 + - places - 38) with true by lia. }
  rewrite decw_digits_val, decw_from128_val, dec_mag_val by auto with word. fold c.
  destruct (Z.ltb_spec (ndigits c) (d_s d - places)) as [Hdg|Hdg].
  - assert (10 * c < 10 ^ (d_s d - places)).
    { rewrite pow10_pred by (pose proof (ndigits_pos c); lia).
      apply Zmult_lt_compat_l; [lia|]. apply ndigits_lt_pow; [lia| |lia].
      pose proof (ndigits_pos c ltac:(lia)). lia. }
    rewrite round_quot_below by lia.
    pose proof (Haway true) as Haw. rewrite andb_true_r in Haw. rewrite Haw. clear Haw Haway.
    replace ((match m with Floor => neg | Ceil => negb neg | _ => false end) && negb (c =? 0))
      with (match m with Floor => neg | Ceil => negb neg && true | _ => false end).
    2:{ rewrite andb_true_r. destruct m; try done.
        - destruct neg; [|done]. by replace (c =? 0) with false by lia.
        - destruct (Z.eqb_spec c 0) as [Hz|]; [|by rewrite andb_true_r].
          destruct (Hceil ltac:(lia) eq_refl); [lia|]. rewrite Hz, ndigits_0 in Hdg. lia. }
    destruct (match m with Floor => neg | Ceil => negb neg && true | _ => false end); cbn [negb].
    + assert (Hone : bu_ok (mkBU 1 0)) by (split; unfold is_u64; cbn; lia).
      rewrite round_finish_spec; [by rewrite decw_from128_val|auto with word|rewrite decw_from128_val; done|lia].
    + rewrite dec_set_zero, Z.mul_0_l. unfold finish_spec. cbn [Z.eqb].
      replace (65535 <? Z.max 0 places) with false by lia. rewrite Z.max_r by lia.
      cbn [to_dec]. replace (signed neg 0) with 0 by (by destruct neg).
      do 2 f_equal. destruct (Z.ltb_spec places 0); lia.
  - assert (Hw : wide_ok (decw_from128 (dec_mag d))) by auto with word.
    destruct (dec_drop_spec (Z.to_nat (d_s d - places)) _ 0 false Hw ltac:(lia)) as (q & -> & Hq & Hqv).
    rewrite Z2Nat.id in * by lia. rewrite decw_from128_val, dec_mag_val in * by done. fold c in Hqv. fold c.
    cbn [orb]. rewrite should_increment_spec by (done || lia). cbn -[dec_finish round_up].
    set (p := d_s d - places) in *. assert (Hpp : 0 < 10 ^ p) by (apply pow10_pos; lia).
    assert (Hqle : 0 <= c / 10 ^ p < 10 ^ 38).
    { split; [apply Z.div_pos; lia|]. apply Z.div_lt_upper_bound; nia. }
    assert (Hinc : exists w', (if round_up m neg c (10 ^ p) then decw_increment q line col else Ok q)
       = Ok w' /\ wide_ok w' /\ wval w' = round_quot m neg c (10 ^ p)).
    { unfold round_quot. destruct Hq as [Hlen Hq]. destruct (round_up m neg c (10 ^ p)).
      - destruct (decw_increment_spec line col q Hq) as (w' & -> & Hw' & Hlen' & Hv').
        { rewrite Hlen, Hqv. change (wlim BDEC_WIDE_LIMBS) with (2 ^ 512). lia. }
        exists w'. split; [done|]. split; [split; [congruence|done]|lia].
      - exists q. split; [done|]. split; [done|lia]. }
    destruct Hinc as (w' & -> & Hw' & Hv'). cbn -[dec_finish round_up].
    rewrite <-Hv'. apply round_finish_spec; [done| |lia].
    pose proof (round_quot_bounds m neg c (10 ^ p) Hpp). lia.
Qed.

(** The one input class outside [dec_round_spec]: the ceiling of a zero that
    carries more than one place to drop is taken for a small positive value. *)
Lemma dec_round_ceil_zero d places line col :
  dec_wf d -> dec_coeff d = 0 -> -38 <= places -> places + 1 < d_s d ->
  beans_decv_round d places (mode_code Ceil) line col =
  to_dec false (finish_spec (10 ^ Z.max 0 (- places)) false (Z.max 0 places) Ceil) line col.
Proof.
  intros Hd Hz Hp Hs.
  unfold beans_decv_round. rewrite !dec_negative_val, Hz by done.
  replace (d_s d <=? places) with false by lia.
  change BDEC_PRECISION with 38. replace (places <? - (38)) with false by lia. cbv zeta.
  rewrite decw_digits_val, decw_from128_val, dec_mag_val, Hz by auto with word.
  change (ndigits (Z.abs 0)) with 1. replace (1 <? d_s d - places) with true by lia.
  assert (Hone : bu_ok (mkBU 1 0)) by (split; unfold is_u64; cbn; lia).
  change (negb _) with false. cbv iota. change (0 <? 0) with false.
  rewrite round_finish_spec; [|auto with word|rewrite decw_from128_val; done|done].
  rewrite decw_from128_val. change (bu_val (mkBU 1 0)) with 1. by rewrite Z.mul_1_l.
Qed.

(** * Construction, comparison, hashing, conversion

    [beans_dec_cmp] is the comparison of the rational values, [beans_dec_hash]
    respects it, [beans_dec_to_int] truncates, and the constructors give
    well-formed decimals. *)

Lemma dec_from_int_spec v :
  is_i64 v -> beans_decv_from_int v = dec_make v 0.
Proof.
  intros Hv. unfold beans_decv_from_int. cbv zeta.
  assert (Hm : is_u64 (if v <? 0 then 0 -! u64 v else u64 v)) by (case_match; apply u64_is).
  assert (Hok : bu_ok (mkBU (if v <? 0 then 0 -! u64 v else u64 v) 0)) by (by split).
  assert (Hval : bu_val (mkBU (if v <? 0 then 0 -! u64 v else u64 v) 0) = Z.abs v).
  { unfold bu_val. cbn [bu_lo bu_hi]. clear Hm Hok. unfold u64, is_i64 in *.
    destruct (Z.ltb_spec v 0); dlia. }
  rewrite dec_set_make, Hval by (done || (rewrite Hval; unfold is_i64 in Hv; lia)).
  by rewrite signed_abs.
Qed.

Lemma dec_new_spec lo hi s :
  is_u64 lo -> is_u64 hi ->
  beans_dec_new lo hi s = dec_nearest (dec_coeff (mkDec lo hi s 0)) s 0 0.
Proof.
  intros Hl Hh. unfold beans_dec_new. cbv zeta. set (d := mkDec lo hi s 0).
  destruct (dec_mag_limbs d Hl Hh) as [Hok Hv].
  apply dec_finish_nearest; [auto with word|by rewrite decw_from128_val|].
  intros _. by apply dec_negative_limbs.
Qed.

(** ** Comparison *)

(** The value of [a] less the value of [b], scaled to an integer. *)
Definition dec_diff (a b : BDec) : Z := dec_coeff a * 10 ^ d_s b - dec_coeff b * 10 ^ d_s a.

Lemma dec_diff_at a b :
  dec_wf a -> dec_wf b -> let s := Z.max (d_s a) (d_s b) in
  Z.sgn (dec_diff a b) = Z.sgn (dec_at a s - dec_at b s).
Proof.
  intros Ha Hb s. pose proof (dec_wf_scale a Ha). pose proof (dec_wf_scale b Hb).
  unfold dec_diff, dec_at. set (m := Z.min (d_s a) (d_s b)).
  replace (10 ^ d_s b) with (10 ^ (s - d_s a) * 10 ^ m)
    by (rewrite <-Z.pow_add_r by lia; f_equal; lia).
  replace (10 ^ d_s a) with (10 ^ (s - d_s b) * 10 ^ m)
    by (rewrite <-Z.pow_add_r by lia; f_equal; lia).
  rewrite !Z.mul_assoc, <-Z.mul_sub_distr_r, Z.sgn_mul.
  rewrite (Z.sgn_pos (10 ^ m)) by (apply pow10_pos; lia). lia.
Qed.

Lemma dec_exp_lt a b :
  dec_wf a -> dec_wf b -> dec_coeff b <> 0 -> dec_exp a < dec_exp b ->
  let s := Z.max (d_s a) (d_s b) in Z.abs (dec_at a s) < Z.abs (dec_at b s).
Proof.
  intros Ha Hb Hnz Hlt s. rewrite !dec_exp_val in Hlt by done.
  pose proof (dec_digits_bound a Ha). pose proof (dec_digits_bound b Hb).
  rewrite !dec_at_abs by lia.
  set (x := Z.abs (dec_coeff a)) in *. set (y := Z.abs (dec_coeff b)) in *.
  destruct (ndigits_spec y ltac:(lia)) as [_ [Hy _]].
  assert (Hx : x < 10 ^ ndigits x) by (apply ndigits_lt_pow; lia).
  pose proof (pow10_le (ndigits x + (s - d_s a)) (ndigits y - 1 + (s - d_s b)) ltac:(lia)) as Hp.
  rewrite !Z.pow_add_r in Hp by lia.
  pose proof (pow10_pos (s - d_s a) ltac:(lia)). pose proof (pow10_pos (s - d_s b) ltac:(lia)). nia.
Qed.

Lemma dec_cmp_spec a b :
  dec_wf a -> dec_wf b -> beans_dec_cmp a b = Ok (Z.sgn (dec_diff a b)).
Proof.
  intros Ha Hb. unfold beans_dec_cmp. rewrite !dec_negative_val, !dec_zero_val by done.
  rewrite dec_diff_at by done. set (s := Z.max (d_s a) (d_s b)).
  pose proof (dec_at_abs a s ltac:(lia)) as Haa. pose proof (dec_at_abs b s ltac:(lia)) as Hba.
  pose proof (dec_at_sign a s ltac:(lia)) as Has. pose proof (dec_at_sign b s ltac:(lia)) as Hbs.
  pose proof (pow10_pos (s - d_s a) ltac:(lia)). pose proof (pow10_pos (s - d_s b) ltac:(lia)).
  assert (Hza : dec_coeff a = 0 <-> dec_at a s = 0) by (unfold dec_at; nia).
  assert (Hzb : dec_coeff b = 0 <-> dec_at b s = 0) by (unfold dec_at; nia).
  rewrite <-Has, <-Hbs. clear Has Hbs.
  replace (dec_coeff a =? 0) with (dec_at a s =? 0) by lia.
  replace (dec_coeff b =? 0) with (dec_at b s =? 0) by lia.
  destruct ((dec_at a s <? 0) && negb (dec_at b s <? 0)) eqn:H1; [bools; f_equal; lia|].
  destruct (negb (dec_at a s <? 0) && (dec_at b s <? 0)) eqn:H2; [bools; f_equal; lia|].
  destruct (Z.eqb_spec (dec_at a s) 0) as [Hz|Hz].
  { f_equal. destruct (Z.eqb_spec (dec_at b s) 0); lia. }
  destruct (Z.eqb_spec (dec_at b s) 0) as [Hz'|Hz']; [f_equal; lia|].
  cbv zeta. fold (dec_exp a) (dec_exp b). fold (max_scale a b). rewrite max_scale_max. fold s.
  assert (Hord : (if negb (dec_exp a =? dec_exp b)
      then Ok (if dec_exp a <? dec_exp b then -1 else 1)
      else aw ← decw_mul_pow10 (decw_from128 (dec_mag a)) (s - d_s a) 0 0;
           bw ← decw_mul_pow10 (decw_from128 (dec_mag b)) (s - d_s b) 0 0;
           Ok (decw_cmp aw bw)) = Ok (Z.sgn (Z.abs (dec_at a s) - Z.abs (dec_at b s)))).
  { destruct (Z.eqb_spec (dec_exp a) (dec_exp b)) as [He|He]; cbn [negb].
    - pose proof (dec_exp_close a b Ha Hb ltac:(lia) ltac:(lia)) as [Hsa Hsb].
      rewrite max_scale_max in Hsa, Hsb. fold s in Hsa, Hsb.
      destruct (dec_align a s 0 0 Ha ltac:(lia)) as (aw & -> & [Hal Haw] & Hav & _).
      destruct (dec_align b s 0 0 Hb ltac:(lia)) as (bw & -> & [Hbl Hbw] & Hbv & _).
      cbn -[decw_cmp]. rewrite decw_cmp_val by (done || congruence). rewrite Hav, Hbv. f_equal.
      destruct (Z.compare_spec (Z.abs (dec_at a s)) (Z.abs (dec_at b s))); lia.
    - f_equal. destruct (Z.ltb_spec (dec_exp a) (dec_exp b)) as [Hlt|Hge].
      + pose proof (dec_exp_lt a b Ha Hb ltac:(lia) Hlt) as Hl. cbv zeta in Hl. fold s in Hl. lia.
      + pose proof (dec_exp_lt b a Hb Ha ltac:(lia) ltac:(lia)) as Hl.
        cbv zeta in Hl. rewrite Z.max_comm in Hl. fold s in Hl. lia. }
  rewrite Hord. cbn -[Z.sub]. f_equal. destruct (Z.ltb_spec (dec_at a s) 0); bools; lia.
Qed.

(** ** Hashing *)

Lemma dec_hash_strip_spec fuel : forall m s,
  bu_ok m ->
  exists m', dec_hash_strip fuel m s = (m', snd (strip10 fuel 0 (bu_val m) s)) /\ bu_ok m' /\
    bu_val m' = fst (strip10 fuel 0 (bu_val m) s).
Proof.
  induction fuel as [|fuel IH]; intros m s Hm; cbn [dec_hash_strip strip10]; [by exists m|].
  destruct (Z.ltb_spec 0 s); cbn [andb]; [|by exists m].
  pose proof (bu_div10_spec m Hm) as (Hr & Hq & Hqv). destruct (bu_div10 m) as [q r].
  cbn [fst snd] in *. rewrite Hr.
  destruct (Z.eqb_spec (bu_val m mod 10) 0); cbn [negb]; [|by exists m].
  rewrite <-Hqv. by apply IH.
Qed.

Lemma dec_hash_spec a b : dec_wf a -> dec_wf b -> dec_diff a b = 0 ->
  beans_dec_hash a = beans_dec_hash b.
Proof.
  intros Ha Hb He. pose proof (dec_wf_scale a Ha). pose proof (dec_wf_scale b Hb).
  unfold dec_diff in He.
  pose proof (pow10_pos (d_s a) ltac:(lia)). pose proof (pow10_pos (d_s b) ltac:(lia)).
  unfold beans_dec_hash. rewrite !dec_negative_val by done.
  replace (dec_coeff b <? 0) with (dec_coeff a <? 0) by nia.
  destruct (dec_hash_strip_spec (Z.to_nat (d_s a)) (dec_mag a) (d_s a)) as (ma & -> & Hma & Hva);
    [auto with word|].
  destruct (dec_hash_strip_spec (Z.to_nat (d_s b)) (dec_mag b) (d_s b)) as (mb & -> & Hmb & Hvb);
    [auto with word|].
  rewrite !dec_mag_val in * by done.
  assert (Hs : strip10 (Z.to_nat (d_s a)) 0 (Z.abs (dec_coeff a)) (d_s a) =
    strip10 (Z.to_nat (d_s b)) 0 (Z.abs (dec_coeff b)) (d_s b)).
  { apply strip10_equal; lia. }
  rewrite Hs in *.
  assert (ma = mb) as -> by (apply bu_val_inj; [done|done|congruence]).
  done.
Qed.

(** ** Conversion to an integer *)

Lemma dec_trunc_loop_spec fuel : forall m,
  bu_ok m -> bu_ok (dec_trunc_loop fuel m) /\
  bu_val (dec_trunc_loop fuel m) = bu_val m / 10 ^ Z.of_nat fuel.
Proof.
  induction fuel as [|fuel IH]; intros m Hm; cbn [dec_trunc_loop].
  { by rewrite Z.div_1_r. }
  pose proof (bu_val_range m Hm). pose proof (pow10_pos (Z.of_nat (S fuel)) ltac:(lia)).
  rewrite bu_zero_val by done. destruct (Z.eqb_spec (bu_val m) 0) as [Hz|Hz].
  { split; [done|]. by rewrite Hz, Z.div_0_l by lia. }
  pose proof (bu_div10_spec m Hm) as (_ & Hq & Hqv). destruct (IH _ Hq) as [Hok Hv].
  split; [done|]. rewrite Hv, Hqv.
  replace (Z.of_nat (S fuel)) with (Z.of_nat fuel + 1) by lia.
  rewrite pow10_S, Z.div_div by (try apply pow10_pos; lia). done.
Qed.

Lemma dec_to_int_spec d :
  dec_wf d -> beans_dec_to_int d = i64 (Z.quot (dec_coeff d) (10 ^ d_s d)).
Proof.
  intros Hd. pose proof (dec_wf_scale d Hd). unfold beans_dec_to_int.
  rewrite dec_negative_val by done. cbv zeta.
  destruct (dec_trunc_loop_spec (Z.to_nat (d_s d)) (dec_mag d)) as [[Hlo Hhi] Hv]; [auto with word|].
  rewrite Z2Nat.id, dec_mag_val in Hv by (done || lia).
  set (m := dec_trunc_loop _ _) in *. set (p := 10 ^ d_s d) in *.
  assert (Hp : 0 < p) by (apply pow10_pos; lia).
  assert (Hq : Z.quot (dec_coeff d) p = if dec_coeff d <? 0 then - bu_val m else bu_val m).
  { rewrite Hv. destruct (Z.ltb_spec (dec_coeff d) 0).
    - rewrite Z.abs_neq by lia. rewrite <-Z.quot_div_nonneg, Z.quot_opp_l by lia. lia.
    - rewrite Z.abs_eq by lia. by rewrite Z.quot_div_nonneg by lia. }
  rewrite Hq. unfold bu_val, is_u64 in *. unfold i64, u64. destruct (dec_coeff d <? 0); dlia.
Qed.
