(* ===== verification/TextProofs.v ===== *)
(** * TextProofs: the writers agree, printing inverts parsing *)

From S2P Require Import Prelude Digits Text.

Open Scope c_scope.

(** ** The digit loops *)

Lemma pow10_fuel fuel : 10 ^ Z.of_nat (S fuel) = 10 * 10 ^ Z.of_nat fuel.
Proof. replace (Z.of_nat (S fuel)) with (Z.of_nat fuel + 1) by lia. apply pow10_S. lia. Qed.

Lemma utoa_tmp_spec fuel : forall v tmp,
  0 <= v < 10 ^ Z.of_nat (S fuel) ->
  exists ds, utoa_tmp (S fuel) v tmp = tmp ++ rev ds /\ is_text v ds.
Proof.
  induction fuel as [|fuel IH]; intros v tmp Hv;
    cbn [utoa_tmp]; (destruct (Z.eqb_spec (v / 10) 0) as [Hz|Hz];
      [exists [ch_0 + v mod 10]; split; [done|];
       replace (v mod 10) with v by dlia; apply is_text_digit; dlia|]).
  - cbn in Hv. dlia.
  - rewrite pow10_fuel in Hv.
    destruct (IH (v / 10) (tmp ++ [ch_0 + v mod 10])) as (ds & He & Ht); [dlia|].
    exists (ds ++ [ch_0 + v mod 10]). cbn [utoa_tmp] in He. rewrite He, rev_app_distr, <-app_assoc.
    split; [done|]. apply is_text_snoc; [dlia|done].
Qed.

Lemma rt_utoa_text v : is_u64 v -> is_text v (rt_utoa v).
Proof.
  intros Hv. unfold rt_utoa, U64_FUEL. destruct (utoa_tmp_spec 19 v []) as (ds & -> & Ht).
  - change (10 ^ Z.of_nat 20) with (10 ^ 20). unfold is_u64 in Hv. lia.
  - cbn [app]. by rewrite rev_involutive.
Qed.

Lemma uint_digits_loop_spec fuel : forall v n,
  0 <= v < 10 ^ Z.of_nat (S fuel) -> uint_digits_loop fuel v n = n + ndigits v - 1.
Proof.
  induction fuel as [|fuel IH]; intros v n Hv; cbn [uint_digits_loop].
  - cbn in Hv. rewrite ndigits_small by lia. lia.
  - rewrite pow10_fuel in Hv. destruct (Z.leb_spec 10 v).
    + rewrite IH, (ndigits_div10 v) by dlia. lia.
    + rewrite ndigits_small by lia. lia.
Qed.

Lemma uint_digits_val v : is_u64 v -> uint_digits v = ndigits v.
Proof.
  intros Hv. unfold uint_digits. rewrite uint_digits_loop_spec; [lia|].
  change (10 ^ Z.of_nat (S U64_FUEL)) with (10 ^ 21). unfold is_u64 in Hv. lia.
Qed.

Lemma take_insert_last (p : nat) (c : Z) (buf : str) :
  (p < length buf)%nat -> take (S p) (<[p := c]> buf) = take p buf ++ [c].
Proof.
  intros Hp. rewrite (take_S_r _ p c).
  - by rewrite take_insert_ge by lia.
  - by apply list_lookup_insert_eq.
Qed.

Lemma drop_insert_here (p : nat) (c : Z) (buf : str) :
  (p < length buf)%nat -> drop p (<[p := c]> buf) = c :: drop (S p) buf.
Proof.
  intros Hp. rewrite (drop_S _ c p) by by apply list_lookup_insert_eq.
  by rewrite drop_insert_lt by lia.
Qed.

Lemma write_back_spec p : forall v buf,
  0 <= v -> ndigits v <= Z.of_nat p -> (p <= length buf)%nat ->
  exists q ds, write_back p v buf = Some (q, take q buf ++ ds ++ drop p buf) /\ is_text v ds /\
    Z.of_nat q = Z.of_nat p - ndigits v.
Proof.
  induction p as [|p IH]; intros v buf Hv Hd Hp.
  { pose proof (ndigits_pos v Hv). lia. }
  cbn [write_back].
  assert (Hins : forall c, <[p := c]> buf = take p buf ++ [c] ++ drop (S p) buf).
  { intros c. rewrite <-(take_drop (S p) (<[p := c]> buf)), take_insert_last by lia.
    rewrite drop_insert_lt by lia. by rewrite <-app_assoc. }
  assert (Hlen : length (take p buf) = p) by (rewrite length_take; lia).
  destruct (Z.eqb_spec (v / 10) 0) as [Hz|Hz].
  - exists p, [ch_0 + v mod 10]. rewrite Hins.
    replace (v mod 10) with v by dlia. rewrite ndigits_small by dlia.
    split; [done|]. split; [apply is_text_digit; dlia|lia].
  - rewrite (ndigits_div10 v) in * by dlia.
    destruct (IH (v / 10) (<[p := ch_0 + v mod 10]> buf)) as (q & ds & -> & Ht & Hq);
      [dlia|lia|rewrite length_insert; lia|].
    pose proof (ndigits_pos (v / 10) ltac:(dlia)).
    exists q, (ds ++ [ch_0 + v mod 10]). split; [|split; [apply is_text_snoc; [dlia|done]|lia]].
    do 2 f_equal. rewrite take_insert_ge by lia. f_equal. rewrite <-app_assoc. f_equal.
    rewrite Hins, drop_app_ge, Hlen, Nat.sub_diag by lia. done.
Qed.

Lemma write_uint_text v : is_u64 v -> exists ds, write_uint v = Some ds /\ is_text v ds.
Proof.
  intros Hv. unfold write_uint. rewrite uint_digits_val by done. unfold is_u64 in Hv.
  pose proof (ndigits_pos v ltac:(lia)).
  destruct (write_back_spec (Z.to_nat (ndigits v)) v (replicate (Z.to_nat (ndigits v)) 0))
    as (q & ds & -> & Ht & Hq); [lia|lia|by rewrite length_replicate|].
  assert (q = 0%nat) as -> by lia. exists ds. split; [|done]. cbn.
  by rewrite drop_replicate, Nat.sub_diag, app_nil_r.
Qed.

Lemma int_magnitude_val v : is_i64 v -> int_magnitude v = Z.abs v /\ is_u64 (int_magnitude v).
Proof.
  intros Hv. unfold int_magnitude. unfold is_i64, is_u64, u64 in *. destruct (Z.ltb_spec v 0); dlia.
Qed.

(** The text of a signed integer. *)
Definition int_text (v : Z) (s : str) : Prop :=
  exists ds, is_text (Z.abs v) ds /\ s = if v <? 0 then ch_minus :: ds else ds.

Lemma int_text_unique v a b : int_text v a -> int_text v b -> a = b.
Proof.
  intros (da & Ha & ->) (db & Hb & ->). by rewrite (is_text_unique _ _ _ Ha Hb).
Qed.

Lemma rt_itoa_text v : is_i64 v -> int_text v (rt_itoa v).
Proof.
  intros Hv. unfold rt_itoa.
  assert (Hm : (if v <? 0 then 0 -! u64 v else u64 v) = Z.abs v).
  { unfold is_i64, u64 in *. destruct (Z.ltb_spec v 0); dlia. }
  exists (rt_utoa (Z.abs v)). rewrite <-Hm. split.
  - rewrite Hm. apply rt_utoa_text. unfold is_i64, is_u64 in *. lia.
  - by destruct (v <? 0).
Qed.

Lemma write_int_text v : is_i64 v -> exists s, write_int v = Some s /\ int_text v s.
Proof.
  intros Hv. unfold write_int. destruct (int_magnitude_val v Hv) as [Hm Hu].
  destruct (write_uint_text _ Hu) as (ds & -> & Ht). rewrite Hm in Ht.
  destruct (v <? 0) eqn:Hneg; eexists; (split; [done|]); exists ds; by rewrite Hneg.
Qed.

Lemma ndigits_u64 v : is_u64 v -> ndigits v <= 20.
Proof. intros Hv. unfold is_u64 in Hv. apply ndigits_lt_pow; lia. Qed.

Lemma from_uint_text v : is_u64 v -> exists ds, beans_from_uint v = Some ds /\ is_text v ds.
Proof.
  intros Hv. pose proof (ndigits_u64 v Hv). unfold is_u64 in Hv.
  pose proof (ndigits_pos v ltac:(lia)).
  unfold beans_from_uint, INT_BUF. destruct (write_back_spec 24 v (replicate 24 0))
    as (q & ds & -> & Ht & Hq); [lia|lia|done|].
  exists ds. split; [|done]. cbn -[replicate].
  rewrite drop_app_length' by (rewrite length_take, length_replicate; lia).
  by rewrite drop_replicate, app_nil_r.
Qed.

Lemma from_int_text v : is_i64 v -> exists s, beans_from_int v = Some s /\ int_text v s.
Proof.
  intros Hv. destruct (int_magnitude_val v Hv) as [Hm Hu]. pose proof (ndigits_u64 _ Hu).
  unfold is_u64 in Hu. pose proof (ndigits_pos (int_magnitude v) ltac:(lia)). unfold beans_from_int, INT_BUF.
  destruct (write_back_spec 24 (int_magnitude v) (replicate 24 0))
    as (q & ds & -> & Ht & Hq); [lia|lia|done|]. cbn -[replicate].
  rewrite Hm in *. destruct (v <? 0) eqn:Hneg.
  - destruct q as [|q]; [lia|]. eexists. split; [done|]. exists ds. rewrite Hneg. split; [done|].
    rewrite drop_insert_here by (rewrite length_app, length_take, length_replicate; lia).
    rewrite drop_app_length' by (rewrite length_take, length_replicate; lia).
    by rewrite drop_replicate, app_nil_r.
  - eexists. split; [done|]. exists ds. rewrite Hneg. split; [done|].
    rewrite drop_app_length' by (rewrite length_take, length_replicate; lia).
    by rewrite drop_replicate, app_nil_r.
Qed.

Lemma int_digits_text v s : is_i64 v -> int_text v s -> int_digits v = slen s.
Proof.
  intros Hv (ds & (_ & _ & Hl) & ->). unfold int_digits.
  destruct (int_magnitude_val v Hv) as [Hm Hu]. rewrite uint_digits_val, Hm, <-Hl by done.
  destruct (v <? 0); [rewrite slen_cons|]; cbn [c_bool]; lia.
Qed.

(** ** Interpolation: the first pass sizes what the second pass writes *)

Section interpolate.
Context (f : Z -> str).

Definition piece_ok (p : piece) : Prop :=
  match p with PInt v => is_i64 v | PUint v => is_u64 v | _ => True end.

Lemma piece_text_len p : piece_ok p -> exists s, piece_text f p = Some s /\ slen s = piece_len f p.
Proof.
  destruct p; cbn [piece_ok piece_text piece_len]; intros Hp; try by eexists.
  - destruct (write_int_text v Hp) as (s & -> & Ht). exists s. split; [done|].
    symmetry. by apply int_digits_text.
  - destruct (write_uint_text v Hp) as (s & -> & Ht). exists s. split; [done|].
    rewrite uint_digits_val by done. apply Ht.
  - eexists. split; [done|]. by destruct (negb (v =? 0)).
Qed.

Lemma interpolate_total_add ps : forall t, interpolate_total f ps t = t + interpolate_total f ps 0.
Proof.
  induction ps as [|p ps IH]; intros t; cbn [interpolate_total]; [lia|].
  rewrite IH, (IH (0 + piece_len f p)). lia.
Qed.

Lemma interpolate_write_all ps : forall w,
  Forall piece_ok ps ->
  exists texts, Forall2 (fun p s => piece_text f p = Some s) ps texts /\
    interpolate_write f ps (interpolate_total f ps 0) w = Some (w ++ concat texts).
Proof.
  induction ps as [|p ps IH]; intros w Hok; cbn [interpolate_total interpolate_write].
  { exists []. split; [constructor|]. done. }
  apply Forall_cons in Hok as [Hp Hok].
  destruct (piece_text_len p Hp) as (s & Hs & Hl).
  destruct (IH (w ++ s) Hok) as (texts & Hf & He).
  exists (s :: texts). split; [by constructor|]. rewrite Hs. cbn [mbind option_bind].
  rewrite interpolate_total_add, Z.add_0_l, <-Hl.
  assert (Hnn : forall qs, Forall piece_ok qs -> 0 <= interpolate_total f qs 0).
  { clear. induction 1 as [|q qs Hq _ IH]; cbn [interpolate_total]; [lia|].
    rewrite interpolate_total_add. destruct (piece_text_len q Hq) as (x & _ & Hx).
    pose proof (slen_nonneg x). lia. }
  pose proof (Hnn ps Hok). replace (slen s <=? slen s + interpolate_total f ps 0) with true by lia.
  replace (slen s + interpolate_total f ps 0 - slen s) with (interpolate_total f ps 0) by lia.
  rewrite He. cbn [concat]. by rewrite app_assoc.
Qed.

Lemma interpolate_total_len ps texts :
  Forall piece_ok ps -> Forall2 (fun p s => piece_text f p = Some s) ps texts ->
  slen (concat texts) = interpolate_total f ps 0.
Proof.
  intros Hok Hf. induction Hf as [|p s ps texts Hp _ IH]; [done|].
  apply Forall_cons in Hok as [Hpok Hok]. cbn [concat interpolate_total].
  rewrite slen_app, interpolate_total_add, IH by done.
  destruct (piece_text_len p Hpok) as (s' & Hs & Hl). rewrite Hs in Hp. injection Hp as <-. lia.
Qed.

End interpolate.

(** ** Formatting *)

Lemma put_piece_spec cap piece pre :
  1 <= cap ->
  put_piece cap (take (Z.to_nat (cap - 1)) pre, slen pre) piece =
  (take (Z.to_nat (cap - 1)) (pre ++ piece), slen (pre ++ piece)).
Proof.
  intros Hc. revert pre. induction piece as [|c piece IH]; intros pre.
  { by rewrite app_nil_r. }
  replace (pre ++ c :: piece) with ((pre ++ [c]) ++ piece) by (by rewrite <-app_assoc).
  rewrite <-IH. unfold put_piece. cbn [fold_left]. f_equal. f_equal.
  - destruct (Z.ltb_spec (slen pre + 1) cap).
    + rewrite !take_ge; [done|rewrite length_app; cbn [length]|]; unfold slen in *; lia.
    + rewrite take_app_le; [done|]. unfold slen in *. lia.
  - rewrite slen_app. unfold slen. cbn [length]. lia.
Qed.

(** One format and its arguments denote one text, whatever the buffer. *)
Definition formats (fmt : str) (ap : list va_arg) (r : option str) : Prop :=
  forall cap pre, 1 <= cap ->
  vformat_loop cap fmt ap (take (Z.to_nat (cap - 1)) pre, slen pre) =
  match r with
  | Some full => Some (take (Z.to_nat (cap - 1)) (pre ++ full), slen (pre ++ full))
  | None => None
  end.

Lemma formats_piece fmt ap piece r fmt' ap' :
  (forall cap st, vformat_loop cap fmt' ap' st = vformat_loop cap fmt ap (put_piece cap st piece)) ->
  formats fmt ap r -> formats fmt' ap' ((fun full => piece ++ full) <$> r).
Proof.
  intros He Hf cap pre Hc. rewrite He, put_piece_spec, Hf by done.
  destruct r; [|done]. cbn. by rewrite <-app_assoc.
Qed.

Lemma vformat_formats n : forall fmt ap, (length fmt < n)%nat -> exists r, formats fmt ap r.
Proof.
  induction n as [|n IH]; intros fmt ap Hn; [lia|].
  assert (Hstep : forall f a p, (length f < n)%nat ->
    (forall cap st, vformat_loop cap fmt ap st = vformat_loop cap f a (put_piece cap st p)) ->
    exists r, formats fmt ap r).
  { intros f a p Hl He. destruct (IH f a Hl) as [r Hr]. eexists. by eapply formats_piece. }
  assert (Hnone : (forall cap st, vformat_loop cap fmt ap st = None) -> exists r, formats fmt ap r).
  { intros He. exists None. intros cap pre _. apply He. }
  destruct fmt as [|c fmt].
  { exists (Some []). intros cap pre _. cbn. by rewrite app_nil_r. }
  cbn [length] in Hn. destruct (negb (is_ch c "%")) eqn:Hpc.
  { apply (Hstep fmt ap [c]); [lia|]. intros. cbn [vformat_loop]. by rewrite Hpc. }
  destruct fmt as [|c0 fmt0].
  { apply Hnone. intros. cbn [vformat_loop]. by rewrite Hpc. }
  cbn [length] in Hn.
  assert (Hother : (forall cap st, vformat_loop cap (c :: c0 :: fmt0) ap st =
      if is_ch c0 "d" then
        match ap with VaInt v :: ap => vformat_loop cap fmt0 ap (put_piece cap st (rt_itoa v)) | _ => None end
      else if is_ch c0 "s" then
        match ap with
        | VaStr s :: ap => vformat_loop cap fmt0 ap (put_piece cap st (c_str (default (lit "(null)") s)))
        | _ => None end
      else if is_ch c0 "c" then
        match ap with VaChar one :: ap => vformat_loop cap fmt0 ap (put_piece cap st [one]) | _ => None end
      else vformat_loop cap fmt0 ap (put_piece cap st [c0])) ->
    exists r, formats (c :: c0 :: fmt0) ap r).
  { intros He. destruct (is_ch c0 "d"), (is_ch c0 "s"), (is_ch c0 "c");
      try (eapply Hstep; [|exact He]; lia); destruct ap as [|[] ap];
      solve [by apply Hnone | eapply Hstep; [|exact He]; lia]. }
  destruct fmt0 as [|c1 [|c2 fmt2]];
    try (apply Hother; intros; cbn [vformat_loop]; by rewrite Hpc).
  destruct (is_ch c0 "l" && is_ch c1 "l" && is_ch c2 "d") eqn:Hld.
  { assert (He : forall cap st, vformat_loop cap (c :: c0 :: c1 :: c2 :: fmt2) ap st =
      match ap with VaI64 v :: ap => vformat_loop cap fmt2 ap (put_piece cap st (rt_itoa v)) | _ => None end)
      by (intros; cbn [vformat_loop]; by rewrite Hpc, Hld).
    cbn [length] in Hn. destruct ap as [|[] ap];
      solve [by apply Hnone | eapply Hstep; [|exact He]; lia]. }
  destruct (is_ch c0 "l" && is_ch c1 "l" && is_ch c2 "u") eqn:Hlu.
  { assert (He : forall cap st, vformat_loop cap (c :: c0 :: c1 :: c2 :: fmt2) ap st =
      match ap with VaU64 v :: ap => vformat_loop cap fmt2 ap (put_piece cap st (rt_utoa v)) | _ => None end)
      by (intros; cbn [vformat_loop]; by rewrite Hpc, Hld, Hlu).
    cbn [length] in Hn. destruct ap as [|[] ap];
      solve [by apply Hnone | eapply Hstep; [|exact He]; lia]. }
  apply Hother. intros. cbn [vformat_loop]. by rewrite Hpc, Hld, Hlu.
Qed.

(** ** Parsing *)

Definition no_digit_next (rest : str) : Prop := is_digit (c_hd rest) = false.

Lemma is_digit_spec c : is_digit c = true <-> ch_0 <= c <= ch_9.
Proof. unfold is_digit. lia. Qed.

Lemma parse_digits_over cap ds rest v :
  digits_ok ds -> no_digit_next rest ->
  exists v', parse_digits cap (ds ++ rest) v true = (v', true, rest).
Proof.
  intros Hok Hr. revert v. induction Hok as [|c ds Hc _ IH]; intros v; cbn [app].
  - exists v. destruct rest as [|c rest]; [done|]. cbn [parse_digits].
    unfold no_digit_next in Hr. cbn in Hr. by rewrite Hr.
  - cbn [parse_digits]. rewrite (proj2 (is_digit_spec c) Hc). case_match; apply IH.
Qed.

Lemma parse_digits_spec cap ds rest v :
  digits_ok ds -> no_digit_next rest -> 0 <= v <= cap -> 9 <= cap < 2 ^ 64 ->
  let total := v * 10 ^ slen ds + dval ds in
  if total <=? cap then parse_digits cap (ds ++ rest) v false = (total, false, rest)
  else exists v', parse_digits cap (ds ++ rest) v false = (v', true, rest).
Proof.
  intros Hok Hr Hv Hcap. revert v Hv. induction Hok as [|c ds Hc Hok IH]; intros v Hv; cbn [app].
  - cbn zeta. unfold slen, dval. cbn [length fold_left].
    replace (v * 10 ^ Z.of_nat 0 + 0) with v by lia. replace (v <=? cap) with true by lia.
    destruct rest as [|c rest]; [done|]. cbn [parse_digits].
    unfold no_digit_next in Hr. cbn in Hr. by rewrite Hr.
  - cbn [parse_digits]. rewrite (proj2 (is_digit_spec c) Hc), dval_cons, slen_cons.
    replace (1 + slen ds) with (slen ds + 1) by lia. rewrite pow10_S by apply slen_nonneg.
    unfold ch_0, ch_9 in *. set (p := 10 ^ slen ds) in *.
    assert (Hp : 0 < p) by (apply pow10_pos, slen_nonneg).
    pose proof (dval_range ds Hok) as Hd. fold p in Hd.
    destruct (Z.ltb_spec ((cap - (c - 48)) / 10) v) as [Hover|Hfit].
    + assert (cap < v * 10 + (c - 48)) by dlia.
      replace (v * (10 * p) + ((c - 48) * p + dval ds) <=? cap) with false by nia.
      by apply parse_digits_over.
    + assert (Hnext : 0 <= v * 10 + (c - 48) <= cap) by dlia.
      rewrite (u64_small (v * 10)) by (unfold is_u64; lia).
      rewrite u64_small by (unfold is_u64; lia).
      specialize (IH _ Hnext). cbn zeta in IH.
      replace (v * (10 * p) + ((c - 48) * p + dval ds)) with ((v * 10 + (c - 48)) * p + dval ds) by lia.
      exact IH.
Qed.

Definition is_blank (c : Z) : bool := (c =? 32) || (c =? 9) || (c =? 10) || (c =? 13).

Lemma skip_ws_app ws p :
  Forall (fun c => is_blank c = true) ws -> is_blank (c_hd p) = false -> skip_ws (ws ++ p) = p.
Proof.
  intros Hws Hp. induction Hws as [|c ws Hc _ IH]; cbn [app].
  - destruct p as [|c p]; [done|]. cbn [skip_ws]. unfold is_blank in Hp. cbn in Hp. by rewrite Hp.
  - cbn [skip_ws]. unfold is_blank in Hc. by rewrite Hc.
Qed.

(** The optional sign of the parsers. *)
Inductive sign_text : str -> bool -> Prop :=
  | sign_none : sign_text [] false
  | sign_plus : sign_text [ch_plus] false
  | sign_minus : sign_text [ch_minus] true.

(** The value a parse of [ds] under a sign gives: clamped to 64 bits. *)
Definition clamp_i64 (neg : bool) (v : Z) : Z :=
  if neg then Z.max (- 2 ^ 63) (- v) else Z.min (2 ^ 63 - 1) v.

Lemma parse_i64_spec ws sg neg ds rest :
  Forall (fun c => is_blank c = true) ws -> sign_text sg neg -> digits_ok ds -> ds <> [] ->
  no_digit_next rest ->
  rt_parse_i64 (ws ++ sg ++ ds ++ rest) = Some (clamp_i64 neg (dval ds), rest).
Proof.
  intros Hws Hsg Hok Hne Hr. unfold rt_parse_i64.
  destruct ds as [|d ds]; [done|]. pose proof (proj1 (Forall_cons _ _ _) Hok) as [Hd _].
  assert (Hdig : is_digit d = true) by by apply is_digit_spec.
  rewrite skip_ws_app; [|done|].
  2:{ unfold is_blank, ch_0, ch_9 in *. destruct Hsg; cbn; lia. }
  set (cap := if neg then 9223372036854775808 else 9223372036854775807).
  assert (Hcap : 9 <= cap < 2 ^ 64) by (subst cap; destruct neg; lia).
  pose proof (parse_digits_spec cap (d :: ds) rest 0 Hok Hr ltac:(lia) Hcap) as Hp.
  cbn zeta in Hp. rewrite Z.mul_0_l, Z.add_0_l in Hp.
  pose proof (dval_range (d :: ds) Hok) as Hdv.
  assert (Hres : forall p, p = (d :: ds) ++ rest ->
    (if negb (is_digit (c_hd p)) then None
     else let '(value, overflowed, end_) := parse_digits cap p 0 false in
       let value := if overflowed : bool then cap else value in
       Some (if neg then i64 (- i64 value) else i64 value, end_)) =
    Some (clamp_i64 neg (dval (d :: ds)), rest)).
  { intros p ->. change (c_hd ((d :: ds) ++ rest)) with d. rewrite Hdig. cbn [negb].
    destruct (Z.leb_spec (dval (d :: ds)) cap) as [Hle|Hgt].
    - rewrite Hp. cbv zeta. do 2 f_equal. unfold clamp_i64. subst cap. destruct neg; unfold i64; dlia.
    - destruct Hp as (v' & ->). cbv zeta. do 2 f_equal. unfold clamp_i64. subst cap.
      destruct neg; unfold i64; dlia. }
  unfold ch_0, ch_9 in Hd. destruct Hsg; cbn [app].
  - change (c_hd (d :: ds ++ rest)) with d. unfold ch_minus, ch_plus.
    replace (d =? 45) with false by lia. replace (d =? 43) with false by lia. by apply Hres.
  - by apply Hres.
  - by apply Hres.
Qed.

Lemma int_text_shape v s : int_text v s ->
  exists sg ds, s = sg ++ ds /\ sign_text sg (v <? 0) /\ digits_ok ds /\ ds <> [] /\ dval ds = Z.abs v.
Proof.
  intros (ds & Ht & ->). pose proof (is_text_nonempty _ _ (Z.abs_nonneg v) Ht).
  destruct Ht as (Hok & Hv & _).
  assert (ds <> []) by (intros ->; unfold slen in *; cbn in *; lia).
  destruct (v <? 0).
  - exists [ch_minus], ds. split_and!; try done. constructor.
  - exists [], ds. split_and!; try done. constructor.
Qed.

(** Parsing what any writer wrote gives the value back. *)
Lemma parse_int_text v s rest :
  is_i64 v -> int_text v s -> no_digit_next rest -> rt_parse_i64 (s ++ rest) = Some (v, rest).
Proof.
  intros Hv Ht Hr. destruct (int_text_shape v s Ht) as (sg & ds & -> & Hsg & Hok & Hne & Hd).
  rewrite <-app_assoc. pose proof (parse_i64_spec [] sg _ ds rest ltac:(constructor) Hsg Hok Hne Hr) as Hp.
  cbn [app] in Hp. rewrite Hp, Hd. do 2 f_equal.
  unfold clamp_i64, is_i64 in *. destruct (Z.ltb_spec v 0); lia.
Qed.

(** The wrapping parser of a range. *)
Lemma parse_range_loop_spec ds v :
  digits_ok ds -> is_u64 v -> parse_range_loop ds v = Some (u64 (v * 10 ^ slen ds + dval ds)).
Proof.
  intros Hok. revert v. induction Hok as [|c ds Hc Hok IH]; intros v Hv; cbn [parse_range_loop].
  - unfold slen, dval. cbn [length fold_left]. rewrite Z.add_0_r, Z.mul_1_r.
    by rewrite u64_small.
  - rewrite (proj2 (is_digit_spec c) Hc), IH by apply u64_is. f_equal.
    rewrite dval_cons, slen_cons. replace (1 + slen ds) with (slen ds + 1) by lia.
    rewrite pow10_S by apply slen_nonneg. set (p := 10 ^ slen ds).
    rewrite (u64_add_l (v * 10)), <-(u64_add_l (_ * p)), u64_mul_l, u64_add_l. f_equal. lia.
Qed.

Lemma parse_range_other ds c rest v :
  digits_ok ds -> is_digit c = false -> parse_range_loop (ds ++ c :: rest) v = None.
Proof.
  intros Hok Hc. revert v. induction Hok as [|d ds Hd _ IH]; intros v; cbn [app parse_range_loop].
  - by rewrite Hc.
  - by rewrite (proj2 (is_digit_spec d) Hd).
Qed.

(** What follows the range check of [beans_str_parse_int_range_or]. *)
Definition parse_range_tail (p : str) (fallback : Z) : result Z :=
  let negative := c_hd p =? ch_minus in
  let p := if (0 <? slen p) && ((c_hd p =? ch_plus) || (c_hd p =? ch_minus)) then tail p else p in
  if slen p =? 0 then Ok fallback
  else match parse_range_loop p 0 with
  | None => Ok fallback
  | Some value => Ok (i64 (if negative then 0 -! value else value))
  end.

Lemma parse_range_strip sg neg q fallback :
  sign_text sg neg -> (sg = [] -> c_hd q <> ch_plus /\ c_hd q <> ch_minus) ->
  parse_range_tail (sg ++ q) fallback =
  if slen q =? 0 then Ok fallback
  else match parse_range_loop q 0 with
  | None => Ok fallback
  | Some value => Ok (i64 (if neg then 0 -! value else value))
  end.
Proof.
  intros Hsg Hq. unfold parse_range_tail. destruct Hsg; cbn [app].
  - destruct (Hq eq_refl) as [H1 H2].
    by rewrite (proj2 (Z.eqb_neq _ _) H1), (proj2 (Z.eqb_neq _ _) H2), andb_false_r.
  - rewrite slen_cons. pose proof (slen_nonneg q). change (c_hd (ch_plus :: q)) with ch_plus.
    by replace (0 <? 1 + slen q) with true by lia.
  - rewrite slen_cons. pose proof (slen_nonneg q). change (c_hd (ch_minus :: q)) with ch_minus.
    by replace (0 <? 1 + slen q) with true by lia.
Qed.

Lemma digits_hd ds rest :
  digits_ok ds -> ds <> [] -> c_hd (ds ++ rest) <> ch_plus /\ c_hd (ds ++ rest) <> ch_minus.
Proof.
  intros Hok Hne. destruct ds as [|d ds]; [done|]. apply Forall_cons in Hok as [Hd _].
  change (c_hd ((d :: ds) ++ rest)) with d. unfold ch_0, ch_9, ch_plus, ch_minus in *. lia.
Qed.

Lemma parse_range_signed sg neg ds fallback :
  sign_text sg neg -> digits_ok ds -> sg ++ ds <> [] ->
  parse_range_tail (sg ++ ds) fallback =
  Ok (if decide (ds = []) then fallback else i64 (if neg then - dval ds else dval ds)).
Proof.
  intros Hsg Hok Hne. rewrite (parse_range_strip _ neg).
  - destruct ds as [|d ds]; [done|]. rewrite slen_cons. pose proof (slen_nonneg ds).
    rewrite decide_False by done. replace (1 + slen ds =? 0) with false by lia.
    rewrite parse_range_loop_spec by (done || unfold is_u64; lia). rewrite Z.mul_0_l, Z.add_0_l.
    f_equal. destruct neg; unfold i64, u64; dlia.
  - done.
  - intros ->. rewrite <-(app_nil_r ds). by apply digits_hd.
Qed.

Lemma parse_range_bad sg neg ds c fallback :
  sign_text sg neg -> digits_ok ds -> is_digit c = false -> sg ++ ds <> [] ->
  parse_range_tail ((sg ++ ds) ++ [c]) fallback = Ok fallback.
Proof.
  intros Hsg Hok Hc Hne. rewrite <-app_assoc, (parse_range_strip _ neg).
  - rewrite parse_range_other by done. by case_match.
  - done.
  - intros ->. by apply digits_hd.
Qed.

(** The text of a format, piece by piece: plain text, [%lld] and [%s]. *)
Definition plain (p : str) : Prop := Forall (fun c => is_ch c "%" = false) p.

Lemma formats_nil ap : formats [] ap (Some []).
Proof. intros cap pre Hc. cbn. by rewrite app_nil_r. Qed.

Lemma formats_plain p fmt ap r :
  plain p -> formats fmt ap (Some r) -> formats (p ++ fmt) ap (Some (p ++ r)).
Proof.
  intros Hp Hf. induction Hp as [|c p Hc _ IH]; [done|].
  apply (formats_piece (p ++ fmt) ap [c] (Some (p ++ r)) ((c :: p) ++ fmt) ap); [|done].
  intros cap st. cbn [app vformat_loop]. by rewrite Hc.
Qed.

Lemma formats_lld fmt v ap r :
  formats fmt ap (Some r) -> formats (lit "%lld" ++ fmt) (VaI64 v :: ap) (Some (rt_itoa v ++ r)).
Proof. apply (formats_piece fmt ap (rt_itoa v) (Some r)). done. Qed.

Lemma formats_s fmt s ap r :
  formats fmt ap (Some r) -> formats (lit "%s" ++ fmt) (VaStr (Some s) :: ap) (Some (c_str s ++ r)).
Proof.
  apply (formats_piece fmt ap (c_str s) (Some r)). intros cap st.
  destruct fmt as [|c1 [|c2 fmt]]; done.
Qed.

Lemma vformat_full cap fmt ap full :
  formats fmt ap (Some full) -> slen full < cap -> rt_vformat cap fmt ap = Some (full, slen full).
Proof.
  intros Hf Hc. pose proof (slen_nonneg full). specialize (Hf cap [] ltac:(lia)).
  rewrite take_nil in Hf. unfold rt_vformat. change 0 with (slen []). rewrite Hf. cbn [app].
  by rewrite take_ge by (unfold slen in *; lia).
Qed.

(** A signed integer takes at most twenty bytes. *)
Lemma itoa_len v : is_i64 v -> slen (rt_itoa v) <= 20.
Proof.
  intros Hv. destruct (rt_itoa_text v Hv) as (ds & (_ & _ & Hl) & ->).
  assert (ndigits (Z.abs v) <= 19).
  { apply ndigits_lt_pow; [lia|lia|]. unfold is_i64 in Hv. lia. }
  destruct (v <? 0); [rewrite slen_cons|]; lia.
Qed.

(** A formatted panic, as the text the program sees. *)
Lemma fmt_panic_text {A} cap fmt args line col full :
  formats (lit fmt) (VaI64 <$> args) (Some full) -> slen full < cap ->
  @fmt_panic A cap fmt args line col = Panic full line col.
Proof. intros Hf Hc. unfold fmt_panic. by rewrite (vformat_full _ _ _ _ Hf Hc). Qed.

Lemma formats_end p ap : plain p -> formats p ap (Some p).
Proof.
  intros Hp. pose proof (formats_plain p [] ap [] Hp (formats_nil ap)) as Hf. by rewrite !app_nil_r in Hf.
Qed.

Ltac plain_text := repeat (constructor; [vm_compute; reflexivity|]); constructor.
