(* ===== verification/DecText.v ===== *)
(** * DecText: decimal text, parsed and printed

    [runtime/beans_rt.c]: [dec_valid_c], [dec_parse_text], [beans_dec_str] and
    [beans_fmt_dec].  A C string is the list of its bytes up to the NUL; the
    stack or heap buffers of [beans_dec_str] are sized as in the code and a
    text that does not fit is [None]. *)

From S2P Require Import Prelude Digits U128 Wide Decimal DecMath DecimalProofs Text TextProofs.

Open Scope c_scope.

Definition is_e (c : Z) : bool := (c =? 101) || (c =? 69).

(** The exponent digits, capped at 4096, up to the end of the string. *)
Fixpoint valid_exp_loop (p : str) (ev : Z) : bool :=
  match p with
  | [] => true
  | c :: q =>
      if is_digit c then
        let ev := ev * 10 + (c - ch_0) in
        if 4096 <? ev then false else valid_exp_loop q ev
      else c =? 0
  end.

Definition skip_sign (p : str) : str :=
  if (c_hd p =? ch_plus) || (c_hd p =? ch_minus) then tail p else p.

Fixpoint valid_loop (p : str) (digits : Z) (dot : bool) : bool :=
  match p with
  | [] => 0 <? digits
  | c :: q =>
      if c =? 0 then 0 <? digits
      else if is_digit c then valid_loop q (digits + 1) dot
      else if c =? ch_under then valid_loop q digits dot
      else if (c =? ch_dot) && negb dot then valid_loop q digits true
      else if is_e c && negb (digits =? 0) then
        let q := skip_sign q in
        if negb (is_digit (c_hd q)) then false else valid_exp_loop q 0
      else false
  end.

Definition dec_valid_c (s : str) : bool := valid_loop (skip_sign s) 0 false.

(** The state of the loop of [dec_parse_text]. *)
Record parse_state : Type := mkParse {
  ps_coeff : BU128;
  ps_fractional : Z;
  ps_exponent : Z;
  ps_after_dot : bool;
  ps_seen_nonzero : bool;
  ps_significant : Z
}.

Fixpoint dec_parse_loop (p : str) (st : parse_state) : option parse_state :=
  match p with
  | [] => Some st
  | c :: q =>
      let '(mkParse coeff fractional exponent after_dot seen_nonzero significant) := st in
      if c =? 0 then Some st
      else if c =? ch_under then dec_parse_loop q st
      else if c =? ch_dot then
        dec_parse_loop q (mkParse coeff fractional exponent true seen_nonzero significant)
      else if is_e c then
        '(exponent, _) ← rt_parse_i64 q;
        Some (mkParse coeff fractional exponent after_dot seen_nonzero significant)
      else
        let fractional := if after_dot then fractional + 1 else fractional in
        if negb seen_nonzero && (c =? ch_0) then
          dec_parse_loop q (mkParse coeff fractional exponent after_dot seen_nonzero significant)
        else
          let significant := significant + 1 in
          if BDEC_PRECISION <? significant then None
          else
            let '(ok, multiplied) := bu_mul_small coeff 10 in
            if negb ok then None
            else
              let '(ok, coeff) := bu_add_small multiplied (c - ch_0) in
              if negb ok then None
              else dec_parse_loop q (mkParse coeff fractional exponent after_dot true significant)
  end.

(** [append] more zeros for a negative scale. *)
Fixpoint dec_parse_append (n : nat) (coeff : BU128) : option BU128 :=
  match n with
  | O => Some coeff
  | S n =>
      let '(ok, multiplied) := bu_mul_small coeff 10 in
      if negb ok then None else dec_parse_append n multiplied
  end.

(** [None] is the result 0: not a decimal of 38 digits. *)
Definition dec_parse_text (s : str) : option BDec :=
  if negb (dec_valid_c s) then None
  else
    let neg := c_hd s =? ch_minus in
    st ← dec_parse_loop (skip_sign s) (mkParse (mkBU 0 0) 0 0 false false 0);
    let scale := ps_fractional st - ps_exponent st in
    if negb (ps_seen_nonzero st) then
      let scale := if scale <? 0 then 0 else scale in
      if BDEC_MAX_SCALE <? scale then None else Some (dec_set (mkBU 0 0) false scale)
    else
      '(coeff, scale) ←
        (if scale <? 0 then
           let append := - scale in
           if (BDEC_PRECISION <? append) || (BDEC_PRECISION <? ps_significant st + append)
           then None
           else coeff ← dec_parse_append (Z.to_nat append) (ps_coeff st); Some (coeff, 0)
         else Some (ps_coeff st, scale));
      if (BDEC_MAX_SCALE <? scale) || (0 <? bu_cmp coeff dec_coeff_limit) then None
      else Some (dec_set coeff neg scale).

(** ** Printing *)

(** [while (!bu_zero(magnitude)) digits[n++] = ...]: low digits first. *)
Fixpoint dec_str_digits (fuel : nat) (magnitude : BU128) (digits : str) : str :=
  match fuel with
  | O => digits
  | S fuel =>
      if bu_zero magnitude then digits
      else
        let '(quotient, remainder) := bu_div10 magnitude in
        dec_str_digits fuel quotient (digits ++ [ch_0 + remainder])
  end.

(** [while (n <= a->s) digits[n++] = '0';] *)
Definition dec_str_pad (s : Z) (digits : str) : str :=
  digits ++ replicate (Z.to_nat (s + 1 - slen digits)) ch_0.

(** The output loop over [digits[i]], [i] going down to 0. *)
Fixpoint dec_str_out (i : nat) (s : Z) (digits : str) : str :=
  match i with
  | O => []
  | S i =>
      c_at digits i ::
        (if (Z.of_nat i =? s) && negb (Z.of_nat i =? 0) then [ch_dot] else [])
        ++ dec_str_out i s digits
  end.

Definition beans_dec_str (a : BDec) : option str :=
  let magnitude := dec_mag a in
  let neg := dec_negative a in
  let cap := (if 38 <? d_s a then d_s a else 38) + 2 in
  let digits_size := if cap <=? 63 then 64 else cap + 1 in
  let out_size := if cap + 2 <=? 79 then 80 else cap + 3 in
  let digits := if bu_zero magnitude then [ch_0] else [] in
  let digits := dec_str_pad (d_s a) (dec_str_digits BU_FUEL magnitude digits) in
  let out := (if neg then [ch_minus] else []) ++ dec_str_out (length digits) (d_s a) digits in
  if (slen digits <=? digits_size) && (slen out + 1 <=? out_size) then Some out else None.

(** [std.fmt]: [p] places, rounded half to even or padded with zeros. *)
Definition beans_fmt_dec (d : BDec) (p : Z) : result (option str) :=
  let p := if p <? 0 then 0 else p in
  let p := if 60 <? p then 60 else p in
  t ← (if p <? d_s d then beans_decv_round d p BROUND_HALF_EVEN 0 0 else Ok d);
  Ok (base ← beans_dec_str t;
      let frac := d_s t in
      if p <=? frac then Some base
      else Some (base ++ (if frac =? 0 then [ch_dot] else [])
                 ++ replicate (Z.to_nat (p - frac)) ch_0)).

(** * Decimal text parses back

    [dec_parse_text] reads sign, integer and fraction digits exactly;
    [beans_dec_str] stays inside its buffers and writes a text of that shape. *)

(** ** The validator *)

Lemma valid_digits ds rest n dot :
  digits_ok ds -> valid_loop (ds ++ rest) n dot = valid_loop rest (n + slen ds) dot.
Proof.
  intros Hok. revert n. induction Hok as [|c ds Hc _ IH]; intros n; cbn [app].
  { f_equal. unfold slen. cbn. lia. }
  cbn [valid_loop]. rewrite (proj2 (is_digit_spec c) Hc). unfold ch_0 in Hc.
  replace (c =? 0) with false by lia. rewrite IH, slen_cons. f_equal. lia.
Qed.

(** ** The digit loop *)

(** The state after digits of value [v]. *)
Definition parse_inv (v : Z) (st : parse_state) : Prop :=
  bu_ok (ps_coeff st) /\ bu_val (ps_coeff st) = v /\ 0 <= v < 10 ^ 38 /\
  ps_seen_nonzero st = negb (v =? 0) /\
  ps_significant st = (if v =? 0 then 0 else ndigits v).

Lemma parse_step v st c q :
  parse_inv v st -> ch_0 <= c <= ch_9 -> v * 10 + (c - ch_0) < 10 ^ 38 ->
  exists st', parse_inv (v * 10 + (c - ch_0)) st' /\
    dec_parse_loop (c :: q) st = dec_parse_loop q st' /\
    ps_fractional st' = ps_fractional st + c_bool (ps_after_dot st) /\
    ps_exponent st' = ps_exponent st /\ ps_after_dot st' = ps_after_dot st.
Proof.
  destruct st as [co fr ex ad se si]. unfold parse_inv. cbn [ps_coeff ps_seen_nonzero ps_significant ps_fractional ps_exponent ps_after_dot].
  intros (Hok & Hv & Hr & -> & ->) Hc Hlt. unfold ch_0, ch_9 in *. cbn [dec_parse_loop].
  unfold is_e, ch_under, ch_dot, ch_0.
  replace (c =? 0) with false by lia. replace (c =? 95) with false by lia.
  replace (c =? 46) with false by lia. replace ((c =? 101) || (c =? 69)) with false by lia.
  assert (Hfr : (if ad then fr + 1 else fr) = fr + c_bool ad) by (destruct ad; cbn [c_bool]; lia).
  rewrite Hfr, negb_involutive.
  destruct ((v =? 0) && (c =? 48)) eqn:Hz.
  { bools. eexists (mkParse co _ ex ad _ _). split; [|split; [reflexivity|done]].
    replace (v * 10 + (c - 48)) with v by lia. done. }
  set (v' := v * 10 + (c - 48)) in *.
  assert (Hv' : 0 < v') by (bools; lia).
  assert (Hnd : ndigits v' = (if v =? 0 then 0 else ndigits v) + 1).
  { destruct (Z.eqb_spec v 0).
    - rewrite ndigits_small by lia. lia.
    - rewrite ndigits_div10 by lia. f_equal. f_equal. dlia. }
  assert (Hnd38 : ndigits v' <= 38) by (apply ndigits_lt_pow; lia).
  change BDEC_PRECISION with 38. replace (38 <? _) with false by lia.
  pose proof (bu_mul_small_spec co 10 Hok ltac:(unfold is_u32; lia)) as Hm.
  destruct (bu_mul_small co 10) as [ok m]. destruct Hm as (Hmok & Hmv & ->).
  rewrite Hv in *. replace (v * 10 <? 2 ^ 128) with true by lia. cbn [negb].
  rewrite Z.mod_small in Hmv by lia.
  pose proof (bu_add_small_spec m (c - 48) Hmok ltac:(unfold is_u32; lia)) as Ha.
  destruct (bu_add_small m (c - 48)) as [ok a]. destruct Ha as (Haok & Hav & ->).
  rewrite Hmv in *. replace (v * 10 + (c - 48) <? 2 ^ 128) with true by lia. cbn [negb].
  rewrite Z.mod_small in Hav by lia.
  eexists (mkParse a _ ex ad true _). split; [|split; [reflexivity|done]]. cbn.
  split_and!; [done|done|lia|done| |].
  - by replace (v' =? 0) with false by lia.
  - replace (v' =? 0) with false by lia. lia.
Qed.

Lemma parse_digits_run ds q : digits_ok ds -> forall v st,
  parse_inv v st -> v * 10 ^ slen ds + dval ds < 10 ^ 38 ->
  exists st', parse_inv (v * 10 ^ slen ds + dval ds) st' /\
    dec_parse_loop (ds ++ q) st = dec_parse_loop q st' /\
    ps_fractional st' = ps_fractional st + (if ps_after_dot st then slen ds else 0) /\
    ps_exponent st' = ps_exponent st /\ ps_after_dot st' = ps_after_dot st.
Proof.
  induction 1 as [|c ds Hc Hok IH]; intros v st Hinv Hlt; cbn [app].
  { exists st. change (dval []) with 0. change (slen []) with 0. rewrite Z.add_0_r, Z.mul_1_r.
    split; [done|]. split; [done|]. split; [destruct (ps_after_dot st); lia|done]. }
  rewrite dval_cons, slen_cons in *. replace (1 + slen ds) with (slen ds + 1) in * by lia.
  rewrite pow10_S in * by apply slen_nonneg. set (p := 10 ^ slen ds) in *.
  assert (Hp : 0 < p) by (apply pow10_pos, slen_nonneg).
  pose proof (dval_range ds Hok) as Hd. fold p in Hd.
  assert (Hv0 : 0 <= v) by apply Hinv.
  replace (v * (10 * p) + ((c - ch_0) * p + dval ds)) with
    ((v * 10 + (c - ch_0)) * p + dval ds) in * by lia.
  destruct (parse_step v st c (ds ++ q) Hinv Hc) as (st1 & Hi1 & -> & Hf1 & He1 & Ha1).
  { unfold ch_0, ch_9 in *. nia. }
  destruct (IH _ st1 Hi1 Hlt) as (st2 & Hi2 & -> & Hf2 & He2 & Ha2).
  exists st2. split; [done|]. split; [done|]. split; [|split; congruence].
  rewrite Hf2, Hf1, Ha1. destruct (ps_after_dot st); cbn [c_bool]; lia.
Qed.

Lemma sign_text_facts sg neg p :
  sign_text sg neg -> (c_hd p =? ch_plus) || (c_hd p =? ch_minus) = false ->
  skip_sign (sg ++ p) = p /\ (c_hd (sg ++ p) =? ch_minus) = neg.
Proof.
  intros Hsg Hp. unfold skip_sign. destruct Hsg; cbn [app]; [|done..].
  rewrite Hp. split; [done|]. by apply orb_false_iff in Hp as [_ ?].
Qed.

(** Sign, integer digits, and optionally a point and fraction digits. *)
Definition fraction_text (fs : str) : str := match fs with [] => [] | _ => ch_dot :: fs end.

Lemma dec_parse_plain sg neg ds fs :
  sign_text sg neg -> digits_ok ds -> digits_ok fs -> ds <> [] ->
  dval (ds ++ fs) < 10 ^ 38 -> slen fs <= 65535 ->
  dec_parse_text (sg ++ ds ++ fraction_text fs) =
  Some (dec_make (signed neg (dval (ds ++ fs))) (slen fs)).
Proof.
  intros Hsg Hds Hfs Hne Hlt Hlen.
  assert (Hhd : (c_hd (ds ++ fraction_text fs) =? ch_plus) || (c_hd (ds ++ fraction_text fs) =? ch_minus) = false).
  { destruct ds as [|d ds]; [done|]. apply Forall_cons in Hds as [Hd _].
    change (c_hd _) with d. unfold ch_0, ch_9, ch_plus, ch_minus in *. lia. }
  destruct (sign_text_facts sg neg _ Hsg Hhd) as [Hskip Hneg].
  assert (Hl1 : 1 <= slen ds) by (destruct ds; [done|]; rewrite slen_cons; pose proof (slen_nonneg ds); lia).
  unfold dec_parse_text, dec_valid_c. rewrite Hskip, Hneg.
  assert (Hvalid : valid_loop (ds ++ fraction_text fs) 0 false = true).
  { rewrite valid_digits by done. destruct fs as [|f fs]; cbn [fraction_text].
    - cbn [valid_loop]. lia.
    - pose proof (valid_digits (f :: fs) [] (0 + slen ds) true Hfs) as Hv. rewrite app_nil_r in Hv.
      transitivity (valid_loop (f :: fs) (0 + slen ds) true); [done|].
      rewrite Hv. cbn [valid_loop]. pose proof (slen_nonneg (f :: fs)). lia. }
  rewrite Hvalid. cbn [negb].
  rewrite dval_app in Hlt. pose proof (dval_range ds Hds) as Hd1. pose proof (dval_range fs Hfs) as Hd2.
  pose proof (pow10_pos (slen fs) (slen_nonneg fs)).
  set (st0 := mkParse (mkBU 0 0) 0 0 false false 0).
  assert (Hi0 : parse_inv 0 st0) by (repeat split; cbn; lia).
  destruct (parse_digits_run ds (fraction_text fs) Hds 0 st0 Hi0 ltac:(nia))
    as (st1 & Hi1 & -> & Hf1 & He1 & Ha1).
  cbn [st0 ps_fractional ps_exponent ps_after_dot] in Hf1, He1, Ha1.
  rewrite Z.mul_0_l, Z.add_0_l in Hi1.
  assert (Hrun : exists st2, parse_inv (dval (ds ++ fs)) st2 /\
    dec_parse_loop (fraction_text fs) st1 = Some st2 /\ ps_fractional st2 = slen fs /\ ps_exponent st2 = 0).
  { rewrite dval_app. destruct fs as [|f fs]; cbn [fraction_text].
    - exists st1. change (dval []) with 0. change (slen []) with 0.
      rewrite Z.mul_1_r, Z.add_0_r. done.
    - set (st1' := mkParse (ps_coeff st1) (ps_fractional st1) (ps_exponent st1) true
        (ps_seen_nonzero st1) (ps_significant st1)).
      assert (Hi1' : parse_inv (dval ds) st1') by exact Hi1.
      destruct (parse_digits_run (f :: fs) [] Hfs (dval ds) st1' Hi1' Hlt)
        as (st2 & Hi2 & Hrun & Hf2 & He2 & _).
      exists st2. split; [done|]. rewrite app_nil_r in Hrun. split.
      + transitivity (dec_parse_loop (f :: fs) st1'); [|by rewrite Hrun].
        destruct st1. reflexivity.
      + cbn [st1' ps_fractional ps_exponent ps_after_dot] in *. split; [lia|congruence]. }
  destruct Hrun as (st2 & (Hok & Hv & Hr & Hseen & _) & -> & Hf2 & He2).
  cbn [mbind option_bind]. rewrite Hf2, He2, Hseen, negb_involutive, Z.sub_0_r.
  pose proof (slen_nonneg fs). change BDEC_MAX_SCALE with 65535.
  replace (slen fs <? 0) with false by lia.
  destruct (Z.eqb_spec (dval (ds ++ fs)) 0) as [Hz|Hz].
  - rewrite Hz. replace (65535 <? slen fs) with false by lia. rewrite dec_set_zero. by destruct neg.
  - cbn [mbind option_bind]. replace (65535 <? slen fs) with false by lia.
    rewrite dec_coeff_limit_val, bu_cmp_gt by (done || split; unfold is_u64; cbn [bu_lo bu_hi]; lia).
    change (bu_val (mkBU 687399551400673279 5421010862427522170)) with (10 ^ 38 - 1).
    replace (10 ^ 38 - 1 <? bu_val (ps_coeff st2)) with false by lia. cbn [orb].
    rewrite dec_set_make by (done || lia). by rewrite Hv.
Qed.

(** ** Printing *)

Lemma dec_str_digits_spec fuel : forall m acc,
  bu_ok m -> bu_val m < 10 ^ Z.of_nat fuel ->
  exists ds, dec_str_digits fuel m acc = acc ++ rev ds /\ digits_ok ds /\ dval ds = bu_val m /\
    slen ds = (if bu_val m =? 0 then 0 else ndigits (bu_val m)).
Proof.
  induction fuel as [|fuel IH]; intros m acc Hm Hlt; pose proof (bu_val_range m Hm);
    cbn [dec_str_digits].
  { exists []. replace (bu_val m) with 0 by (cbn in Hlt; lia). cbn [rev]. rewrite app_nil_r.
    repeat split; constructor. }
  rewrite bu_zero_val by done. destruct (Z.eqb_spec (bu_val m) 0) as [Hz|Hz].
  { exists []. rewrite Hz. cbn [rev]. rewrite app_nil_r. repeat split; constructor. }
  pose proof (bu_div10_spec m Hm) as (Hr & Hq & Hqv).
  destruct (bu_div10 m) as [q r]. cbn [fst snd] in *. rewrite pow10_fuel in Hlt.
  destruct (IH q (acc ++ [ch_0 + r]) Hq ltac:(rewrite Hqv; dlia)) as (ds & He & Hok & Hd & Hl).
  exists (ds ++ [ch_0 + r]). rewrite He, rev_app_distr, <-app_assoc. split; [done|]. split_and!.
  - apply Forall_app. split; [done|]. constructor; [|constructor]. unfold ch_0, ch_9. dlia.
  - rewrite dval_snoc, Hd, Hqv, Hr. dlia.
  - rewrite slen_app, Hl, Hqv. change (slen [ch_0 + r]) with 1.
    destruct (Z.eqb_spec (bu_val m / 10) 0).
    + rewrite ndigits_small by dlia. lia.
    + rewrite (ndigits_div10 (bu_val m)) by dlia. lia.
Qed.

Lemma c_at_take digits i : (i < length digits)%nat -> take (S i) digits = take i digits ++ [c_at digits i].
Proof.
  intros Hi. unfold c_at. destruct (lookup_lt_is_Some_2 digits i Hi) as [c Hc]. rewrite Hc.
  by apply take_S_r.
Qed.

(** The output loop reads the digits backwards... *)
Lemma dec_str_out_low s digits i :
  (i <= length digits)%nat -> s = 0 \/ Z.of_nat i <= s -> dec_str_out i s digits = rev (take i digits).
Proof.
  induction i as [|i IH]; intros Hi Hs; cbn [dec_str_out]; [done|].
  replace ((Z.of_nat i =? s) && negb (Z.of_nat i =? 0)) with false by lia.
  rewrite c_at_take, rev_app_distr, IH by lia. done.
Qed.

(** ... with a point before the last [s]. *)
Lemma dec_str_out_point (s : nat) digits i :
  (i <= length digits)%nat -> (0 < s < i)%nat ->
  dec_str_out i (Z.of_nat s) digits = rev (drop s (take i digits)) ++ ch_dot :: rev (take s digits).
Proof.
  induction i as [|i IH]; intros Hi Hs; [lia|]. cbn [dec_str_out].
  rewrite c_at_take by lia. rewrite drop_app_le by (rewrite length_take; lia).
  rewrite rev_app_distr. cbn [rev app].
  destruct (decide (i = s)) as [->|Hne].
  - replace ((Z.of_nat s =? Z.of_nat s) && negb (Z.of_nat s =? 0)) with true by lia.
    rewrite dec_str_out_low by lia. rewrite drop_ge by (rewrite length_take; lia). done.
  - replace ((Z.of_nat i =? Z.of_nat s) && negb (Z.of_nat i =? 0)) with false by lia.
    rewrite IH by lia. done.
Qed.

Lemma digits_ok_zeros n : digits_ok (replicate n ch_0).
Proof. apply Forall_replicate. unfold ch_0, ch_9. lia. Qed.

Lemma dval_zeros n ds : dval (replicate n ch_0 ++ ds) = dval ds.
Proof.
  induction n as [|n IH]; [done|]. change (replicate (S n) ch_0 ++ ds) with (ch_0 :: replicate n ch_0 ++ ds).
  rewrite dval_cons, IH. lia.
Qed.

Lemma rev_zeros n : rev (replicate n ch_0) = replicate n ch_0.
Proof. rewrite rev_alt. apply reverse_replicate. Qed.

(** The text: the padded digits, split at the scale. *)
Lemma dec_str_shape d :
  dec_wf d ->
  exists ds fs, beans_dec_str d =
      Some ((if dec_coeff d <? 0 then [ch_minus] else []) ++ ds ++ fraction_text fs) /\
    digits_ok ds /\ digits_ok fs /\ ds <> [] /\ dval (ds ++ fs) = Z.abs (dec_coeff d) /\
    slen fs = d_s d.
Proof.
  intros Hd. pose proof (dec_wf_scale d Hd) as Hs. pose proof (dec_wf_coeff d Hd) as Hc.
  pose proof (dec_mag_ok d Hd) as Hok. pose proof (dec_mag_val d Hd) as Hv.
  unfold beans_dec_str. cbv zeta. rewrite dec_negative_val, bu_zero_val, Hv by done.
  set (c := Z.abs (dec_coeff d)) in *. set (s := Z.to_nat (d_s d)).
  assert (Hdig : exists all, digits_ok all /\ dval all = c /\
    slen all = Z.max (ndigits c) (d_s d + 1) /\
    dec_str_pad (d_s d) (dec_str_digits BU_FUEL (dec_mag d) (if c =? 0 then [ch_0] else [])) = rev all).
  { destruct (dec_str_digits_spec BU_FUEL (dec_mag d) (if c =? 0 then [ch_0] else []) Hok)
      as (ds & -> & Hdok & Hdv & Hdl).
    { change (10 ^ Z.of_nat BU_FUEL) with (10 ^ 39). lia. }
    rewrite Hv in *. set (core := if c =? 0 then [ch_0] else ds).
    assert (Hcore : (if c =? 0 then [ch_0] else []) ++ rev ds = rev core /\ digits_ok core /\
      dval core = c /\ slen core = ndigits c).
    { subst core. destruct (Z.eqb_spec c 0) as [Hz|]; [|done].
      destruct ds; [|rewrite slen_cons in Hdl; pose proof (slen_nonneg ds); lia].
      rewrite Hz. split_and!; try done. constructor; [unfold ch_0, ch_9; lia|constructor]. }
    destruct Hcore as (-> & Hcok & Hcv & Hcl).
    unfold dec_str_pad. rewrite slen_rev, Hcl.
    exists (replicate (Z.to_nat (d_s d + 1 - ndigits c)) ch_0 ++ core). split_and!.
    - apply Forall_app. split; [apply digits_ok_zeros|done].
    - by rewrite dval_zeros.
    - rewrite slen_app, Hcl. unfold slen. rewrite length_replicate. lia.
    - by rewrite rev_app_distr, rev_zeros. }
  destruct Hdig as (all & Haok & Hav & Hal & ->).
  rewrite length_rev. rewrite slen_rev.
  assert (Hlen : (s < length all)%nat) by (unfold slen in Hal; lia).
  exists (take (length all - s) all), (drop (length all - s) all).
  assert (Hout : dec_str_out (length all) (d_s d) (rev all) =
    take (length all - s) all ++ fraction_text (drop (length all - s) all)).
  { destruct (decide (s = 0%nat)) as [Hs0|Hs0].
    - rewrite dec_str_out_low by (rewrite ?length_rev; lia).
      rewrite take_ge, rev_involutive, Hs0, Nat.sub_0_r, take_ge, drop_ge by (rewrite ?length_rev; lia).
      cbn. by rewrite app_nil_r.
    - replace (d_s d) with (Z.of_nat s) by lia.
      rewrite dec_str_out_point by (rewrite ?length_rev; lia).
      rewrite (take_ge (rev all)) by (rewrite length_rev; lia).
      rewrite skipn_rev, firstn_rev, !rev_involutive. f_equal.
      pose proof (length_drop all (length all - s)) as Hdl.
      destruct (drop (length all - s) all); [cbn in Hdl; lia|done]. }
  rewrite Hout. pose proof (ndigits_pos c ltac:(lia)).
  assert (ndigits c <= 38) by (apply ndigits_lt_pow; lia).
  assert (Hol : slen (take (length all - s) all ++ fraction_text (drop (length all - s) all)) <=
    slen all + 1).
  { assert (Hsum : slen (take (length all - s) all) + slen (drop (length all - s) all) = slen all)
      by (by rewrite <-slen_app, take_drop).
    rewrite slen_app. destruct (drop (length all - s) all); cbn [fraction_text]; rewrite ?slen_cons in *; lia. }
  rewrite slen_app.
  assert (Hsl : slen (if dec_coeff d <? 0 then [ch_minus] else []) <= 1)
    by (destruct (dec_coeff d <? 0); unfold slen; cbn; lia).
  set (cap := (if 38 <? d_s d then d_s d else 38) + 2).
  assert (Hcap : cap = Z.max 38 (d_s d) + 2) by (subst cap; destruct (Z.ltb_spec 38 (d_s d)); lia).
  assert (Hf1 : (slen all <=? (if cap <=? 63 then 64 else cap + 1)) = true)
    by (destruct (Z.leb_spec cap 63); lia).
  assert (Hf2 : slen (take (length all - s) all ++ fraction_text (drop (length all - s) all)) + 2
      <= (if cap + 2 <=? 79 then 80 else cap + 3)) by (destruct (Z.leb_spec (cap + 2) 79); lia).
  rewrite Hf1. cbn [andb].
  match goal with |- context [if ?b then Some _ else None] => replace b with true by lia end.
  split; [done|]. rewrite take_drop. split_and!.
  - by apply Forall_take.
  - by apply Forall_drop.
  - intros He. apply (f_equal length) in He. rewrite length_take in He. cbn in He. lia.
  - done.
  - unfold slen. rewrite length_drop. lia.
Qed.

Lemma dec_str_parse d :
  dec_wf d -> exists s, beans_dec_str d = Some s /\ dec_parse_text s = Some d.
Proof.
  intros Hd. destruct (dec_str_shape d Hd) as (ds & fs & -> & Hds & Hfs & Hne & Hv & Hl).
  pose proof (dec_wf_scale d Hd). pose proof (dec_wf_coeff d Hd).
  eexists. split; [done|].
  rewrite (dec_parse_plain _ (dec_coeff d <? 0)); try done; try lia.
  - rewrite Hv, Hl, signed_abs. f_equal. by apply dec_coeff_make.
  - destruct (dec_coeff d <? 0); constructor.
Qed.
