(* ===== verification/DecimalTheorems.v ===== *)
(** * DecimalTheorems: what the decimal type promises

    The contract of the decimal component, stated on coefficients and scales:
    every operation returns a well-formed decimal that is the exact result
    rounded once, or the "decimal overflow" panic, and the panic only when 38
    digits cannot hold the integer part; comparison is the order of the
    rational values, hashing respects it, and text round-trips. *)

From S2P Require Import Prelude Digits U128 Wide Decimal DecMath DecimalProofs DecimalDiv.
From S2P Require Import DecimalDiv Text DecText TextProofs.

Open Scope c_scope.

(** [d] is the value [v * 10 ^ -scale] rounded once, in mode [m]: exact when
    it keeps the scale, and giving up digits only with 38 of them in use. *)
Definition rounds_to (m : rounding) (v scale : Z) (d : BDec) : Prop :=
  dec_wf d /\
  (scale <= d_s d -> dec_coeff d = v * 10 ^ (d_s d - scale)) /\
  (d_s d <= scale ->
    dec_coeff d = signed (v <? 0) (round_quot m (v <? 0) (Z.abs v) (10 ^ (scale - d_s d)))) /\
  (d_s d < scale <= 65535 -> 10 ^ 37 <= Z.abs (dec_coeff d)).

Lemma to_dec_rounds m v scale line col d :
  to_dec (v <? 0) (finish_spec (Z.abs v) (v <? 0) scale m) line col = Ok d -> rounds_to m v scale d.
Proof.
  destruct (finish_spec _ _ _ _) as [[c s]|] eqn:Hf; [|done]. intros [= <-].
  pose proof (finish_spec_bounds _ _ _ _ _ _ (Z.abs_nonneg v) Hf) as [Hc Hs].
  pose proof (finish_spec_rounds _ _ _ _ _ _ (Z.abs_nonneg v) Hf) as (H1 & H2 & H3).
  assert (Hsg : - 10 ^ 38 < signed (v <? 0) c < 10 ^ 38) by (unfold signed; case_match; lia).
  unfold rounds_to. rewrite dec_make_coeff by done. cbn [d_s dec_make].
  split_and!.
  - by apply dec_make_wf.
  - intros Hle. rewrite (H1 Hle). pose proof (pow10_pos (s - scale) ltac:(lia)).
    unfold signed. case_match; bools; lia.
  - intros Hle. by rewrite (H2 Hle).
  - intros Hlt. specialize (H3 Hlt). unfold signed. case_match; lia.
Qed.

(** The outcome of an operation whose exact result is [v * 10 ^ -scale]: that
    value rounded half to even, or the overflow panic at the caller's position
    when it needs 39 integer digits. *)
Definition rounded_or_overflow (v scale line col : Z) (r : result BDec) : Prop :=
  match r with
  | Ok d => rounds_to HalfEven v scale d
  | Panic msg l c => msg = lit "decimal overflow" /\ (l, c) = (line, col) /\
      (scale <= 65535 -> (10 ^ 38 - 1) * 10 ^ scale <= Z.abs v)
  end.

Lemma nearest_cases v scale line col :
  0 <= scale -> rounded_or_overflow v scale line col (dec_nearest v scale line col).
Proof.
  intros Hs. unfold rounded_or_overflow. pose proof (to_dec_rounds HalfEven v scale line col) as Hr.
  unfold dec_nearest in *. destruct (finish_spec _ _ _ _) as [[c s]|] eqn:Hf.
  - by apply Hr.
  - cbn. split; [done|]. split; [done|]. intros. apply finish_spec_overflow in Hf; lia.
Qed.

(** ** Normalisation *)

(** Every decimal result is normalised by [dec_finish]: on a 512-bit
    magnitude [w] with a sign, a scale and any of the five rounding modes it
    returns a well-formed decimal that is the exact value rounded once in that
    mode, or panics, at the caller's position, and in the scale range only
    when the integer part needs more than 38 digits. *)
Theorem dec_finish_correct (w : BDecWide) (neg : bool) (scale : Z) (m : rounding) (line col : Z) :
  wide_ok w -> (wval w = 0 -> neg = false) ->
  match dec_finish w neg scale (mode_code m) line col with
  | Ok d => rounds_to m (signed neg (wval w)) scale d
  | Panic msg l c => msg = lit "decimal overflow" /\ (l, c) = (line, col) /\
      (0 <= scale <= 65535 -> (10 ^ 38 - 1) * 10 ^ scale <= wval w) /\
      (scale < 0 -> 10 ^ 38 <= wval w * 10 ^ (- scale))
  end.
Proof.
  intros Hw Hz. rewrite dec_finish_spec by done. pose proof (wide_range w Hw) as Hr.
  assert (Hneg : (signed neg (wval w) <? 0) = neg) by (destruct neg; cbn [signed]; lia).
  assert (Habs : Z.abs (signed neg (wval w)) = wval w) by (destruct neg; cbn [signed]; lia).
  pose proof (to_dec_rounds m (signed neg (wval w)) scale line col) as Hd.
  rewrite Hneg, Habs in Hd. destruct (finish_spec _ _ _ _) as [[c s]|] eqn:Hf; cbn [to_dec].
  - by apply Hd.
  - split; [done|]. split; [done|]. split; intros Hs.
    + apply finish_spec_overflow in Hf; lia.
    + destruct (Z.eq_dec (wval w) 0) as [H0|]; [|apply finish_spec_negative in Hf; lia].
      unfold finish_spec in Hf. rewrite H0 in Hf. cbn in Hf.
      by replace (65535 <? scale) with false in Hf by lia.
Qed.

Lemma dec_finish_correct_witness :
  match dec_finish (decw_from128 (mkBU 2 5421010862427522170)) true 3 (mode_code Floor) 7 9 with
  | Ok d => rounds_to Floor (signed true (wval (decw_from128 (mkBU 2 5421010862427522170)))) 3 d
  | Panic msg l c => msg = lit "decimal overflow" /\ (l, c) = (7, 9) /\
      (0 <= 3 <= 65535 -> (10 ^ 38 - 1) * 10 ^ 3 <= wval (decw_from128 (mkBU 2 5421010862427522170))) /\
      (3 < 0 -> 10 ^ 38 <= wval (decw_from128 (mkBU 2 5421010862427522170)) * 10 ^ (- (3)))
  end.
Proof.
  apply (dec_finish_correct (decw_from128 (mkBU 2 5421010862427522170)) true 3 Floor 7 9).
  - apply decw_from128_ok. split; unfold is_u64; cbn; lia.
  - rewrite decw_from128_val. unfold bu_val. cbn. lia.
Defined.

(** ** Arithmetic *)

(** C33 Addition and subtraction: the exact sum or difference at the larger
    scale, rounded half to even, whatever the distance of the exponents (the
    shortcut for a negligible addend included); a panic only when the exact
    result needs 39 integer digits. *)
Theorem decimal_add_sub_correct (a b : BDec) (line col : Z) :
  dec_wf a -> dec_wf b ->
  let s := Z.max (d_s a) (d_s b) in
  rounded_or_overflow (dec_at a s + dec_at b s) s line col (beans_decv_add a b line col) /\
  rounded_or_overflow (dec_at a s - dec_at b s) s line col (beans_decv_sub a b line col).
Proof.
  intros Ha Hb s. pose proof (dec_wf_scale a Ha). pose proof (dec_wf_scale b Hb).
  pose proof (dec_neg_spec b Hb) as (Hnb & Hnc & Hns).
  unfold beans_decv_sub. rewrite !dec_add_spec by done. rewrite Hns. fold s.
  assert (Hat : dec_at (beans_decv_neg b) s = - dec_at b s)
    by (unfold dec_at; rewrite Hnc, Hns; lia).
  rewrite Hat. split; apply nearest_cases; lia.
Qed.

(** [1.5] and [-2.34]. *)
Definition ex_a : BDec := dec_make 15 1.
Definition ex_b : BDec := dec_make (-234) 2.

Lemma ex_a_wf : dec_wf ex_a.
Proof. apply dec_make_wf; lia. Qed.

Lemma ex_b_wf : dec_wf ex_b.
Proof. apply dec_make_wf; lia. Qed.

Lemma decimal_add_sub_correct_witness :
  let s := Z.max (d_s ex_a) (d_s ex_b) in
  rounded_or_overflow (dec_at ex_a s + dec_at ex_b s) s 1 2 (beans_decv_add ex_a ex_b 1 2) /\
  rounded_or_overflow (dec_at ex_a s - dec_at ex_b s) s 1 2 (beans_decv_sub ex_a ex_b 1 2).
Proof. exact (decimal_add_sub_correct ex_a ex_b 1 2 ex_a_wf ex_b_wf). Defined.

(** Multiplication: the exact product of up to 76 digits rounded half to
    even; when the scales add up to at most the maximum, a panic only if the
    product needs 39 integer digits. *)
Theorem decimal_mul_correct (a b : BDec) (line col : Z) :
  dec_wf a -> dec_wf b ->
  rounded_or_overflow (dec_coeff a * dec_coeff b) (d_s a + d_s b) line col
    (beans_decv_mul a b line col).
Proof.
  intros Ha Hb. rewrite dec_mul_spec by done.
  pose proof (dec_wf_scale a Ha). pose proof (dec_wf_scale b Hb). apply nearest_cases. lia.
Qed.

Lemma decimal_mul_correct_witness :
  rounded_or_overflow (dec_coeff ex_a * dec_coeff ex_b) (d_s ex_a + d_s ex_b) 1 2
    (beans_decv_mul ex_a ex_b 1 2).
Proof. exact (decimal_mul_correct ex_a ex_b 1 2 ex_a_wf ex_b_wf). Defined.

(** C34 Division: dividing by zero panics; a zero dividend keeps the difference
    of the scales; otherwise the quotient of the magnitudes is developed to the
    least number [j] of places that makes it exact or shows 38 significant
    digits, rounded half to even there (within half a unit of the last place),
    and normalised with the sign and the scale [j + sa - sb].  For an exact
    quotient that is not the smallest scale that represents it, which the
    language specification promises: the trailing zeros of [1.00 / 1] stay
    ([div_keeps_scale]). *)
Theorem decimal_div_correct (a b : BDec) (line col : Z) :
  dec_wf a -> dec_wf b ->
  let n := Z.abs (dec_coeff a) in let d := Z.abs (dec_coeff b) in
  let neg := xorb (dec_coeff a <? 0) (dec_coeff b <? 0) in
  if dec_coeff b =? 0 then beans_decv_div a b line col = Panic (lit "divide by zero") line col
  else if dec_coeff a =? 0
  then beans_decv_div a b line col = Ok (dec_make 0 (Z.max 0 (d_s a - d_s b)))
  else exists j q,
    0 <= j /\ div_stops (n * 10 ^ j) d /\ (forall i, 0 <= i < j -> ~ div_stops (n * 10 ^ i) d) /\
    q = round_quot HalfEven neg (n * 10 ^ j) d /\ 2 * Z.abs (n * 10 ^ j - q * d) <= d /\
    beans_decv_div a b line col = to_dec neg (finish_spec q neg (j + d_s a - d_s b) HalfEven) line col.
Proof.
  intros Ha Hb n d neg. pose proof (dec_div_spec a b line col Ha Hb) as Hs. cbv zeta in Hs.
  fold neg n d in Hs. destruct (Z.eqb_spec (dec_coeff b) 0); [done|].
  destruct (Z.eqb_spec (dec_coeff a) 0); [done|].
  pose proof (dec_wf_coeff b Hb).
  destruct (div_places_spec d 80 n ltac:(lia) ltac:(lia)) as (Hj & Hstop & Hmin).
  { change (Z.of_nat 80) with (42 + 38). rewrite Z.pow_add_r by lia. subst n d. nia. }
  eexists (div_places 80 n d), _. split; [lia|]. split; [done|]. split; [done|].
  split; [reflexivity|]. split; [apply round_quot_near; [lia|by left]|]. exact Hs.
Qed.

Lemma decimal_div_correct_witness :
  exists j q,
    0 <= j /\ div_stops (Z.abs (dec_coeff ex_a) * 10 ^ j) (Z.abs (dec_coeff ex_b)) /\
    2 * Z.abs (Z.abs (dec_coeff ex_a) * 10 ^ j - q * Z.abs (dec_coeff ex_b)) <= Z.abs (dec_coeff ex_b) /\
    beans_decv_div ex_a ex_b 1 2 =
    to_dec true (finish_spec q true (j + d_s ex_a - d_s ex_b) HalfEven) 1 2.
Proof.
  destruct (decimal_div_correct ex_a ex_b 1 2 ex_a_wf ex_b_wf) as (j & q & Hj & Hs & _ & _ & Hn & He).
  exists j, q. split; [exact Hj|]. split; [exact Hs|]. split; [exact Hn|exact He].
Defined.

(** [1.00 / 1] is [1.00], and [1.000 / 0.01] is [100.0]. *)
Example div_keeps_scale : beans_decv_div (dec_make 100 2) (dec_make 1 0) 0 0 = Ok (dec_make 100 2) /\
  beans_decv_div (dec_make 1000 3) (dec_make 1 2) 0 0 = Ok (dec_make 1000 1).
Proof. by vm_compute. Qed.

(** Rounding to a number of places: a value that has no more places is
    returned unchanged; otherwise the coefficient is rounded once at the
    requested place, in any of the five modes, also for negative places, and
    the result is that coefficient unless it overflows. The one exception is
    the ceiling of a zero with several places to drop, which comes out as one
    unit of the last place. *)
Theorem decimal_round_correct (d : BDec) (places : Z) (m : rounding) (line col : Z) :
  dec_wf d ->
  let neg := dec_coeff d <? 0 in
  let q := round_quot m neg (Z.abs (dec_coeff d)) (10 ^ (d_s d - places)) in
  let normal (q : Z) :=
    to_dec neg (finish_spec (q * 10 ^ Z.max 0 (- places)) neg (Z.max 0 places) m) line col in
  if d_s d <=? places then beans_decv_round d places (mode_code m) line col = Ok d
  else if decide (m = Ceil /\ dec_coeff d = 0 /\ -38 <= places /\ places + 1 < d_s d)
  then beans_decv_round d places (mode_code m) line col = normal 1
  else
    beans_decv_round d places (mode_code m) line col = normal q /\
    (0 <= places -> q < 10 ^ 38 -> normal q = Ok (dec_make (signed neg q) places)).
Proof.
  intros Hd neg q normal. destruct (Z.leb_spec (d_s d) places) as [Hle|Hgt].
  { unfold beans_decv_round. by replace (d_s d <=? places) with true by lia. }
  case_decide as Hc.
  { destruct Hc as (-> & Hz & Hp & Hs). subst normal. cbv beta. rewrite Z.mul_1_l.
    rewrite dec_round_ceil_zero by done. subst neg. by rewrite Hz. }
  split.
  { apply dec_round_spec; [done|done|]. intros Hz Hm.
    destruct (Z.lt_ge_cases places (-38)); [by left|right].
    destruct (Z.eq_dec (d_s d) (places + 1)); [done|]. exfalso. apply Hc. split_and!; [done|done|lia..]. }
  intros Hp Hq. subst normal. cbv beta. rewrite Z.max_l, Z.max_r, Z.mul_1_r by lia.
  pose proof (dec_wf_scale d Hd).
  assert (Hq0 : 0 <= q).
  { assert (0 < 10 ^ (d_s d - places)) as Hpp by (apply pow10_pos; lia).
    pose proof (round_quot_bounds m neg (Z.abs (dec_coeff d)) _ Hpp) as Hb. fold q in Hb.
    pose proof (Z.div_pos (Z.abs (dec_coeff d)) _ ltac:(lia) Hpp). lia. }
  destruct (Z.eq_dec q 0) as [Hz|Hz].
  - rewrite Hz. unfold finish_spec. cbn [Z.eqb]. replace (65535 <? places) with false by lia.
    cbn [to_dec]. by rewrite Z.max_r by lia.
  - rewrite finish_spec_round38 by lia. unfold round38.
    assert (ndigits q <= 38) by (apply ndigits_lt_pow; lia).
    by replace (ndigits q - 38 <=? 0) with true by lia.
Qed.

Lemma decimal_round_correct_witness :
  beans_decv_round ex_b 1 (mode_code Floor) 1 2 = Ok (dec_make (-24) 1) /\
  beans_decv_round (dec_make 0 3) 1 (mode_code Ceil) 0 0 = Ok (dec_make 1 1).
Proof.
  split.
  - destruct (decimal_round_correct ex_b 1 Floor 1 2 ex_b_wf) as [H1 H2].
    rewrite H1. apply H2; [lia|]. vm_compute. reflexivity.
  - assert (Hwf : dec_wf (dec_make 0 3)) by (apply dec_make_wf; lia).
    assert (H := decimal_round_correct (dec_make 0 3) 1 Ceil 0 0 Hwf). cbv zeta in H.
    rewrite H. vm_compute. reflexivity.
Defined.

(** ** Order, hash, conversions *)

(** C35 Comparison never fails and is the order of the rational values: the sign
    of [a - b], so it is antisymmetric and transitive, and zero exactly on
    equal values; the hash is equal on equal values of different scales. *)
Theorem decimal_order_and_hash (a b : BDec) :
  dec_wf a -> dec_wf b ->
  beans_dec_cmp a b = Ok (Z.sgn (dec_coeff a * 10 ^ d_s b - dec_coeff b * 10 ^ d_s a)) /\
  (beans_dec_cmp a b = Ok 0 -> beans_dec_hash a = beans_dec_hash b).
Proof.
  intros Ha Hb. rewrite dec_cmp_spec by done. split; [done|].
  intros [= He]. apply dec_hash_spec; [done|done|]. apply Z.sgn_null_iff. exact He.
Qed.

Lemma decimal_order_and_hash_witness :
  beans_dec_cmp (dec_make 10 1) (dec_make 1000 3) = Ok 0 /\
  beans_dec_hash (dec_make 10 1) = beans_dec_hash (dec_make 1000 3).
Proof.
  assert (Ha : dec_wf (dec_make 10 1)) by (apply dec_make_wf; lia).
  assert (Hb : dec_wf (dec_make 1000 3)) by (apply dec_make_wf; lia).
  assert (He : beans_dec_cmp (dec_make 10 1) (dec_make 1000 3) = Ok 0)
    by (vm_compute; reflexivity).
  split; [exact He|]. exact (proj2 (decimal_order_and_hash _ _ Ha Hb) He).
Defined.

(** Conversion: the integer part of a decimal is its truncation toward zero,
    wrapped to 64 bits; a converted integer is exact at scale 0 and converts
    back; a coefficient literal is normalised. *)
Theorem decimal_int_conversion (d : BDec) (v lo hi s : Z) :
  dec_wf d -> is_i64 v -> is_u64 lo -> is_u64 hi -> 0 <= s ->
  beans_dec_to_int d = i64 (Z.quot (dec_coeff d) (10 ^ d_s d)) /\
  beans_decv_from_int v = dec_make v 0 /\ beans_dec_to_int (beans_decv_from_int v) = v /\
  rounded_or_overflow (dec_coeff (mkDec lo hi s 0)) s 0 0 (beans_dec_new lo hi s).
Proof.
  intros Hd Hv Hlo Hhi Hs. rewrite dec_from_int_spec by done.
  assert (Hr : - 10 ^ 38 < v < 10 ^ 38) by (unfold is_i64 in Hv; lia).
  assert (Hwf : dec_wf (dec_make v 0)) by (apply dec_make_wf; lia).
  split; [by apply dec_to_int_spec|]. split; [done|]. split.
  - rewrite dec_to_int_spec, dec_make_coeff by done. cbn [d_s dec_make].
    rewrite Z.quot_1_r. by apply i64_small.
  - rewrite dec_new_spec by done. by apply nearest_cases.
Qed.

Lemma decimal_int_conversion_witness :
  beans_dec_to_int ex_b = -2 /\ beans_dec_to_int (beans_decv_from_int (- 2 ^ 63)) = - 2 ^ 63.
Proof.
  destruct (decimal_int_conversion ex_b (- 2 ^ 63) 5 7 3 ex_b_wf) as (H1 & _ & H2 & _);
    [unfold is_i64, is_u64; lia..|].
  split; [rewrite H1; vm_compute; reflexivity|exact H2].
Defined.

(** ** Text *)

(** C36 A well-formed decimal prints inside its buffers, and the text parses
    back to the same coefficient and scale, trailing zeros included. *)
Theorem decimal_text_roundtrip (d : BDec) :
  dec_wf d -> exists s, beans_dec_str d = Some s /\ dec_parse_text s = Some d.
Proof. apply dec_str_parse. Qed.

Lemma decimal_text_roundtrip_witness :
  exists s, beans_dec_str ex_b = Some s /\ dec_parse_text s = Some ex_b.
Proof. exact (decimal_text_roundtrip ex_b ex_b_wf). Defined.

(** ** The integers underneath *)

(** The 128- and 512-bit arithmetic under the decimals is exact: [bu_divmod]
    is quotient and remainder and fails only on zero, [bu_div_small] likewise
    for a 32-bit divisor, and [decw_multiply] holds every product of two
    128-bit values without a panic. *)
Theorem wide_integer_arithmetic (a b : BU128) (w line col : Z) :
  bu_ok a -> bu_ok b -> 0 < w < 2 ^ 32 ->
  (if bu_val b =? 0 then bu_divmod a b = None
   else exists q r, bu_divmod a b = Some (q, r) /\ bu_ok q /\ bu_ok r /\
     bu_val a = bu_val q * bu_val b + bu_val r /\ 0 <= bu_val r < bu_val b) /\
  (exists q, bu_div_small a w = Some (q, bu_val a mod w) /\ bu_val q = bu_val a / w) /\
  (exists p, decw_multiply a b line col = Ok p /\ wide_ok p /\ wval p = bu_val a * bu_val b).
Proof.
  intros Ha Hb Hw. pose proof (bu_val_range b Hb). split_and!.
  - destruct (Z.eqb_spec (bu_val b) 0) as [Hz|Hz].
    + unfold bu_divmod. rewrite bu_zero_val, Hz by done. done.
    + destruct (bu_divmod_spec a b Ha Hb Hz) as (q & r & He & Hq & Hr & Hqv & Hrv).
      exists q, r. split; [done|]. split; [done|]. split; [done|].
      rewrite Hqv, Hrv. pose proof (Z.div_mod (bu_val a) (bu_val b) Hz).
      pose proof (Z.mod_pos_bound (bu_val a) (bu_val b) ltac:(lia)). lia.
  - destruct (bu_div_small_spec a w Ha Hw) as (q & He & _ & Hv). by exists q.
  - by apply decw_multiply_spec.
Qed.

Lemma wide_integer_arithmetic_witness :
  exists q r, bu_divmod (mkBU 7 9) (mkBU 3 1) = Some (q, r) /\
    bu_val (mkBU 7 9) = bu_val q * bu_val (mkBU 3 1) + bu_val r.
Proof.
  destruct (wide_integer_arithmetic (mkBU 7 9) (mkBU 3 1) 10 0 0) as [H _];
    [split; unfold is_u64; cbn; lia..|lia|].
  destruct H as (q & r & He & _ & _ & Hv & _). exists q, r. split; [exact He|exact Hv].
Defined.
