(* ===== verification/TextTheorems.v ===== *)
(** * TextTheorems: integers, formatting and interpolation

    The writers of the runtime agree and stay inside their buffers, the
    parsers invert them, a format denotes one text whatever the buffer, and
    interpolation allocates exactly what it writes. *)

From S2P Require Import Prelude Digits Text TextProofs.

Open Scope c_scope.

(** Every integer writer ([rt_itoa], [write_int] in a buffer sized by
    [int_digits], [beans_from_int] in its 24-byte buffer) produces the same
    text without a write outside the buffer, the least 64-bit integer
    included; likewise for the unsigned ones. *)
Theorem integer_writers_agree (v u : Z) :
  is_i64 v -> is_u64 u ->
  (write_int v = Some (rt_itoa v) /\ beans_from_int v = Some (rt_itoa v) /\
   slen (rt_itoa v) = int_digits v) /\
  (write_uint u = Some (rt_utoa u) /\ beans_from_uint u = Some (rt_utoa u) /\
   slen (rt_utoa u) = uint_digits u) /\
  digits_ok (rt_utoa u) /\ dval (rt_utoa u) = u.
Proof.
  intros Hv Hu.
  pose proof (rt_itoa_text v Hv) as Hi. pose proof (rt_utoa_text u Hu) as Ht.
  destruct (write_int_text v Hv) as (s1 & -> & H1). destruct (from_int_text v Hv) as (s2 & -> & H2).
  destruct (write_uint_text u Hu) as (s3 & -> & H3). destruct (from_uint_text u Hu) as (s4 & -> & H4).
  rewrite (int_text_unique _ _ _ H1 Hi), (int_text_unique _ _ _ H2 Hi).
  rewrite (is_text_unique _ _ _ H3 Ht), (is_text_unique _ _ _ H4 Ht).
  rewrite (int_digits_text _ _ Hv Hi), uint_digits_val by done.
  split_and!; try done; apply Ht.
Qed.

Lemma integer_writers_agree_witness :
  write_int (- 2 ^ 63) = Some (rt_itoa (- 2 ^ 63)) /\ rt_itoa (- 2 ^ 63) = lit "-9223372036854775808".
Proof.
  split; [|vm_compute; reflexivity].
  apply (integer_writers_agree (- 2 ^ 63) 0); unfold is_i64, is_u64; lia.
Defined.

(** The integer parser: leading blanks, an optional sign and digits are read
    up to the first other byte and clamped to 64 bits; text without digits is
    refused; and parsing the text of any 64-bit integer gives it back. *)
Theorem parse_i64_correct (ws sg ds rest : str) (neg : bool) (v : Z) :
  Forall (fun c => is_blank c = true) ws -> sign_text sg neg -> digits_ok ds ->
  is_digit (c_hd rest) = false -> is_i64 v ->
  (ds <> [] -> rt_parse_i64 (ws ++ sg ++ ds ++ rest) = Some (clamp_i64 neg (dval ds), rest)) /\
  (is_blank (c_hd rest) = false -> c_hd rest <> ch_plus -> c_hd rest <> ch_minus ->
    rt_parse_i64 (ws ++ sg ++ rest) = None) /\
  rt_parse_i64 (rt_itoa v ++ rest) = Some (v, rest) /\
  beans_str_to_int (rt_itoa v) = Some v.
Proof.
  intros Hws Hsg Hok Hr Hv. split_and!.
  - intros Hne. by apply parse_i64_spec.
  - intros Hb Hp Hm. unfold rt_parse_i64. rewrite skip_ws_app; [|done|by destruct Hsg].
    destruct Hsg; cbn [app].
    + rewrite (proj2 (Z.eqb_neq _ _) Hp), (proj2 (Z.eqb_neq _ _) Hm). cbn [orb]. by rewrite Hr.
    + change (c_hd (ch_plus :: rest)) with ch_plus. cbn. fold (c_hd rest). by rewrite Hr.
    + change (c_hd (ch_minus :: rest)) with ch_minus. cbn. fold (c_hd rest). by rewrite Hr.
  - apply parse_int_text; [done|by apply rt_itoa_text|done].
  - unfold beans_str_to_int. rewrite <-(app_nil_r (rt_itoa v)).
    rewrite (parse_int_text v (rt_itoa v) []); [done|done|by apply rt_itoa_text|done].
Qed.

Lemma parse_i64_correct_witness :
  rt_parse_i64 (lit "  -99999999999999999999;") = Some (- 2 ^ 63, lit ";") /\
  beans_str_to_int (rt_itoa (- 2 ^ 63)) = Some (- 2 ^ 63).
Proof.
  destruct (parse_i64_correct (lit "  ") [ch_minus] (lit "99999999999999999999") (lit ";") true (- 2 ^ 63))
    as (H1 & _ & _ & H2).
  - repeat constructor.
  - constructor.
  - apply digits_ok_is_digit. vm_compute. repeat constructor.
  - reflexivity.
  - unfold is_i64. lia.
  - split; [|exact H2]. apply H1. done.
Defined.

(** [parse_int_range_or]: a range out of the string panics with the range
    and the length in the message; a range holding an optional sign and digits
    gives their value wrapped to 64 bits; the empty range, a lone sign and a
    range with any other byte give the fallback. *)
Theorem parse_int_range_correct (pre sg ds post : str) (neg : bool) (c fallback line col : Z) :
  sign_text sg neg -> digits_ok ds -> is_digit c = false -> sg ++ ds <> [] ->
  let s := pre ++ (sg ++ ds) ++ c :: post in
  let a := slen pre in let b := slen pre + slen (sg ++ ds) in
  beans_str_parse_int_range_or s a b fallback line col =
    Ok (if decide (ds = []) then fallback else i64 (if neg then - dval ds else dval ds)) /\
  beans_str_parse_int_range_or s a (b + 1) fallback line col = Ok fallback /\
  beans_str_parse_int_range_or s a a fallback line col = Ok fallback /\
  (forall from to, from < 0 \/ to < from \/ slen s < to ->
    exists msg, beans_str_parse_int_range_or s from to fallback line col = Panic msg line col).
Proof.
  intros Hsg Hok Hc Hne s a b. pose proof (slen_nonneg pre). pose proof (slen_nonneg post).
  pose proof (slen_nonneg (sg ++ ds)).
  assert (Hs : slen s = slen pre + (slen (sg ++ ds) + (1 + slen post)))
    by (subst s; by rewrite !(slen_app pre), (slen_app (sg ++ ds)), slen_cons).
  unfold beans_str_parse_int_range_or. cbv zeta. rewrite Hs.
  split_and!.
  - replace (_ || _ || _) with false by lia.
    replace (b - a) with (slen (sg ++ ds)) by lia. subst s a. rewrite sub_str_mid.
    apply parse_range_signed; done.
  - replace (_ || _ || _) with false by lia.
    replace (b + 1 - a) with (slen ((sg ++ ds) ++ [c]))
      by (rewrite slen_app; change (slen [c]) with 1; lia).
    subst s a. replace (pre ++ (sg ++ ds) ++ c :: post) with (pre ++ ((sg ++ ds) ++ [c]) ++ post)
      by (rewrite <-!app_assoc; done).
    rewrite sub_str_mid. by apply (parse_range_bad sg neg).
  - replace (_ || _ || _) with false by lia. by rewrite Z.sub_diag.
  - intros from to Hr. replace (_ || _ || _) with true by lia. by eexists.
Qed.

Lemma parse_int_range_correct_witness :
  beans_str_parse_int_range_or (lit "x=-12;") 2 5 0 1 1 = Ok (-12) /\
  beans_str_parse_int_range_or (lit "x=-12;") 2 6 7 1 1 = Ok 7.
Proof.
  destruct (parse_int_range_correct (lit "x=") [ch_minus] (lit "12") [] true 59 7 1 1)
    as (_ & H2 & _ & _);
    [constructor|apply digits_ok_is_digit; vm_compute; repeat constructor|reflexivity|done|].
  destruct (parse_int_range_correct (lit "x=") [ch_minus] (lit "12") [] true 59 0 1 1)
    as (H1 & _); [constructor|apply digits_ok_is_digit; vm_compute; repeat constructor|reflexivity|done|].
  split; [exact H1|exact H2].
Defined.

(** [rt_format]: a format with its arguments denotes one text, independent
    of the buffer; a buffer of [cap] bytes receives its first [cap - 1] bytes
    (never more), and the value returned is the full length. *)
Theorem vformat_truncates (fmt : str) (ap : list va_arg) :
  (exists full, forall cap, 1 <= cap ->
    rt_vformat cap fmt ap = Some (take (Z.to_nat (cap - 1)) full, slen full)) \/
  (forall cap, 1 <= cap -> rt_vformat cap fmt ap = None).
Proof.
  destruct (vformat_formats (S (length fmt)) fmt ap) as [[full|] Hf]; [lia|left|right].
  - exists full. intros cap Hc. specialize (Hf cap [] Hc). rewrite take_nil in Hf. exact Hf.
  - intros cap Hc. specialize (Hf cap [] Hc). rewrite take_nil in Hf. exact Hf.
Qed.

(** Interpolation: the length the first pass adds up is exactly the number
    of bytes the second pass writes, so the pieces fill the allocation: the
    result is their concatenation, with no byte left over and none outside. *)
Theorem interpolate_exact (text_of_float : Z -> str) (ps : list piece) :
  Forall piece_ok ps ->
  exists texts, Forall2 (fun p s => piece_text text_of_float p = Some s) ps texts /\
    beans_interpolate text_of_float ps = Some (concat texts) /\
    slen (concat texts) = interpolate_total text_of_float ps 0.
Proof.
  intros Hok. destruct (interpolate_write_all text_of_float ps [] Hok) as (texts & Hf & He).
  exists texts. split; [done|]. split; [done|]. by eapply interpolate_total_len.
Qed.

Lemma interpolate_exact_witness :
  exists texts,
    beans_interpolate (fun _ => lit "1.5") [PStr (lit "n="); PInt (-7); PBool 1; PFloat 0] =
      Some (concat texts) /\ concat texts = lit "n=-7true1.5".
Proof.
  destruct (interpolate_exact (fun _ => lit "1.5") [PStr (lit "n="); PInt (-7); PBool 1; PFloat 0])
    as (texts & _ & He & _).
  - repeat constructor; unfold is_i64; lia.
  - exists texts. split; [exact He|].
    assert (Hc : beans_interpolate (fun _ => lit "1.5") [PStr (lit "n="); PInt (-7); PBool 1; PFloat 0] =
      Some (lit "n=-7true1.5")) by (vm_compute; reflexivity).
    congruence.
Defined.
