(* ===== verification/Str.v ===== *)
(** * Str: string operations

    [runtime/beans_rt.c], the [beans_str_*] entries on length-counted byte
    strings: comparison, search, slices and their panics, trimming, case,
    replacement, repetition, splitting, lines and UTF-8 characters.  [memcmp]
    and [memchr] are the C library's; an allocation is a length and a text
    written past it is [None]. *)

From S2P Require Import Prelude Text.

Open Scope c_scope.

(** ** The C library on bytes *)

(** The sign of [memcmp(a, b, n)] for [n] bytes of both. *)
Fixpoint memcmp (a b : str) : Z :=
  match a, b with
  | x :: a, y :: b => if x <? y then -1 else if y <? x then 1 else memcmp a b
  | _, _ => 0
  end.

(** [memcmp(s + at, sub, m) == 0] with [m] the length of [sub]. *)
Definition mem_eq_at (s : str) (at_ : Z) (sub : str) : bool :=
  memcmp (sub_str s at_ (slen sub)) sub =? 0.

(** [memchr(p, c, room) - p]. *)
Fixpoint memchr (p : str) (c : Z) (room : nat) : option Z :=
  match room, p with
  | S room, x :: p => if x =? c then Some 0 else Z.succ <$> memchr p c room
  | _, _ => None
  end.

(** An allocation of [n] zero bytes into which [text] is copied. *)
Definition filled (n : Z) (text : str) : option str :=
  if slen text <=? n then Some (text ++ replicate (Z.to_nat (n - slen text)) 0) else None.

(** ** Comparison and search *)

Definition beans_str_cmp (a b : str) : Z :=
  let la := slen a in let lb := slen b in
  let n := if la <? lb then la else lb in
  let c := if negb (n =? 0) then memcmp (sub_str a 0 n) (sub_str b 0 n) else 0 in
  if negb (c =? 0) then c else if la <? lb then -1 else if lb <? la then 1 else 0.

Definition beans_concat (a b : str) : option str := filled (slen a + slen b) (a ++ b).

(** The loop of [str_search]; [p] is the offset of the pointer of that name. *)
Fixpoint str_search_loop (fuel : nat) (s sub : str) (n m p : Z) : Z :=
  match fuel with
  | O => -1
  | S fuel =>
      let room := (n - p) - (m - 1) in
      if room <=? 0 then -1
      else match memchr (drop (Z.to_nat p) s) (c_at sub 0) (Z.to_nat room) with
      | None => -1
      | Some off =>
          let hit := p + off in
          if (m =? 1) || mem_eq_at s (hit + 1) (tail sub) then hit
          else str_search_loop fuel s sub n m (hit + 1)
      end
  end.

Definition str_search (s : str) (n : Z) (sub : str) (m from : Z) : Z :=
  if n - from <? m then -1
  else if m =? 0 then from
  else str_search_loop (S (length s)) s sub n m from.

Definition beans_str_contains (s sub : str) : bool :=
  let n := slen s in let m := slen sub in
  if m =? 0 then true else 0 <=? str_search s n sub m 0.

Definition beans_str_is_empty (s : str) : bool := slen s =? 0.

Definition beans_str_first (s : str) (n : Z) : str :=
  let len := slen s in
  let n := if n <? 0 then 0 else n in
  let n := if len <? n then len else n in
  sub_str s 0 n.

Definition beans_str_last (s : str) (n : Z) : str :=
  let len := slen s in
  let n := if n <? 0 then 0 else n in
  let n := if len <? n then len else n in
  sub_str s (len - n) n.

Definition beans_str_starts_with (s p : str) : bool :=
  (slen p <=? slen s) && mem_eq_at s 0 p.

Definition beans_str_ends_with (s p : str) : bool :=
  let n := slen s in let pl := slen p in
  (pl <=? n) && mem_eq_at s (n - pl) p.

Definition beans_str_find (s sub : str) : option Z :=
  let n := slen s in let m := slen sub in
  if m =? 0 then Some 0
  else
    let i := str_search s n sub m 0 in
    if 0 <=? i then Some i else None.

(** [for (i = n - m; i >= 0; i--)], [k] being [i + 1]. *)
Fixpoint rfind_loop (k : nat) (s sub : str) : option Z :=
  match k with
  | O => None
  | S i => if mem_eq_at s (Z.of_nat i) sub then Some (Z.of_nat i) else rfind_loop i s sub
  end.

Definition beans_str_rfind (s sub : str) : option Z :=
  let n := slen s in let m := slen sub in
  if m =? 0 then Some n else rfind_loop (Z.to_nat (n - m + 1)) s sub.

(** ** Slices *)

Definition beans_str_slice (s : str) (from to line col : Z) : result str :=
  let n := slen s in
  if (from <? 0) || (to <? from) || (n <? to) then
    fmt_panic 96 "slice %lld..%lld out of range (len %lld)" [from; to; n] line col
  else Ok (sub_str s from (to - from)).

Definition beans_str_byte_at (s : str) (i line col : Z) : result Z :=
  let n := slen s in
  if (i <? 0) || (n <=? i) then
    fmt_panic 80 "byte index %lld out of range (len %lld)" [i; n] line col
  else Ok (c_at s (Z.to_nat i)).

Definition beans_str_find_byte (s : str) (byte from line col : Z) : result Z :=
  let n := slen s in
  if (byte <? 0) || (255 <? byte) then
    fmt_panic 64 "byte %lld out of range" [byte] line col
  else if (from <? 0) || (n <? from) then
    fmt_panic 96 "find start %lld out of range (len %lld)" [from; n] line col
  else
    Ok (match memchr (drop (Z.to_nat from) s) byte (Z.to_nat (n - from)) with
        | Some off => from + off
        | None => -1
        end).

Definition beans_str_range_equals (s : str) (from to : Z) (other : str) (line col : Z)
    : result bool :=
  let n := slen s in
  if (from <? 0) || (to <? from) || (n <? to) then
    fmt_panic 96 "range %lld..%lld out of range (len %lld)" [from; to; n] line col
  else
    let length_ := to - from in
    Ok ((length_ =? slen other) && mem_eq_at s from other).

(** ** Trimming and case *)

Definition str_is_ws (c : Z) : bool :=
  (c =? 32) || (c =? 9) || (c =? 10) || (c =? 13) || (c =? 12) || (c =? 11).

(** [while (b < e && str_is_ws(s[b])) b++], at most [fuel] turns. *)
Fixpoint trim_from (fuel : nat) (s : str) (b e : Z) : Z :=
  match fuel with
  | O => b
  | S fuel =>
      if (b <? e) && str_is_ws (c_at s (Z.to_nat b)) then trim_from fuel s (b + 1) e else b
  end.

(** [while (e > b && str_is_ws(s[e - 1])) e--]. *)
Fixpoint trim_to (fuel : nat) (s : str) (b e : Z) : Z :=
  match fuel with
  | O => e
  | S fuel =>
      if (b <? e) && str_is_ws (c_at s (Z.to_nat (e - 1))) then trim_to fuel s b (e - 1) else e
  end.

Definition beans_str_trim (s : str) : str :=
  let e := slen s in
  let b := trim_from (length s) s 0 e in
  let e := trim_to (length s) s b e in
  sub_str s b (e - b).

Definition beans_str_trim_start (s : str) : str :=
  let e := slen s in
  let b := trim_from (length s) s 0 e in
  sub_str s b (e - b).

Definition beans_str_trim_end (s : str) : str :=
  let e := trim_to (length s) s 0 (slen s) in
  sub_str s 0 e.

Definition upper_byte (c : Z) : Z := if (97 <=? c) && (c <=? 122) then c - 97 + 65 else c.
Definition lower_byte (c : Z) : Z := if (65 <=? c) && (c <=? 90) then c - 65 + 97 else c.

Definition beans_str_to_upper (s : str) : str := upper_byte <$> s.
Definition beans_str_to_lower (s : str) : str := lower_byte <$> s.

(** ** Replacement and repetition *)

(** The counting loop: one turn per match. *)
Fixpoint replace_count (fuel : nat) (s old : str) (i count : Z) : Z :=
  match fuel with
  | O => count
  | S fuel =>
      if 0 <=? i then
        replace_count fuel s old (str_search s (slen s) old (slen old) (i + slen old)) (count + 1)
      else count
  end.

(** The writing loop and the copy of the rest: the bytes stored from [out]. *)
Fixpoint replace_write (fuel : nat) (s old nw : str) (i : Z) (w : str) : str :=
  match fuel with
  | O => w
  | S fuel =>
      let j := str_search s (slen s) old (slen old) i in
      if j <? 0 then w ++ sub_str s i (slen s - i)
      else replace_write fuel s old nw (j + slen old) ((w ++ sub_str s i (j - i)) ++ nw)
  end.

Definition beans_str_replace (s old nw : str) : option str :=
  let n := slen s in let m := slen old in let rl := slen nw in
  if m =? 0 then Some s
  else
    let count := replace_count (S (length s)) s old (str_search s n old m 0) 0 in
    if count =? 0 then Some s
    else filled (n + count * (rl - m)) (replace_write (S (length s)) s old nw 0 []).

(** The product of the lengths is a [long long] without a check. *)
Definition beans_str_repeat (s : str) (n line col : Z) : result (option str) :=
  if n <? 0 then fmt_panic 64 "negative repeat count %lld" [n] line col
  else
    let len := slen s in
    let outn := i64 (len * n) in
    Ok (filled outn (concat (replicate (Z.to_nat n) s))).

(** ** Pieces *)

(** The loop of [beans_str_split], with [j] the current match. *)
Fixpoint split_loop (fuel : nat) (s sep : str) (i j : Z) (l : list str) : list str :=
  match fuel with
  | O => l
  | S fuel =>
      if 0 <=? j then
        let l := l ++ [sub_str s i (j - i)] in
        let i := j + slen sep in
        split_loop fuel s sep i (str_search s (slen s) sep (slen sep) i) l
      else l ++ [sub_str s i (slen s - i)]
  end.

Definition beans_str_split (s sep : str) : list str :=
  let n := slen s in let m := slen sep in
  if m =? 0 then [s]
  else split_loop (S (length s)) s sep 0 (str_search s n sep m 0) [].

(** [for (j = 0; j < n; j++)] over the tail of [s] from [j], [i] the line start. *)
Fixpoint lines_loop (s p : str) (i j : Z) (l : list str) : list str * Z :=
  match p with
  | [] => (l, i)
  | c :: p =>
      if c =? 10 then lines_loop s p (j + 1) (j + 1) (l ++ [sub_str s i (j - i)])
      else lines_loop s p i (j + 1) l
  end.

Definition beans_str_lines (s : str) : list str :=
  let '(l, i) := lines_loop s s 0 0 [] in
  if i <? slen s then l ++ [sub_str s i (slen s - i)] else l.

(** ** UTF-8 characters *)

(** [s[i + k]] for [k] from 1 to [n - 1] are all continuation bytes. *)
Fixpoint continuation_bytes (k : nat) (p : str) : bool :=
  match k, p with
  | O, _ => true
  | S k, c :: p => (c >>! 6 =? 2) && continuation_bytes k p
  | S _, [] => false
  end.

(** The length of the sequence at the head of [p], one when it is malformed or
    runs past the end. *)
Definition char_len (p : str) : nat :=
  match p with
  | [] => 0
  | c :: q =>
      let n :=
        if c <? 0x80 then 1%nat
        else if c >>! 5 =? 0x6 then 2%nat
        else if c >>! 4 =? 0xE then 3%nat
        else if c >>! 3 =? 0x1E then 4%nat
        else 1%nat in
      if (length p <? n)%nat then 1%nat
      else if continuation_bytes (n - 1) q then n else 1%nat
  end.

Fixpoint chars_loop (fuel : nat) (p : str) : list str :=
  match fuel with
  | O => []
  | S fuel =>
      match p with
      | [] => []
      | _ => let n := char_len p in take n p :: chars_loop fuel (drop n p)
      end
  end.

Definition beans_str_chars (s : str) : list str := chars_loop (length s) s.

Fixpoint count_loop (fuel : nat) (p : str) (count : Z) : Z :=
  match fuel with
  | O => count
  | S fuel =>
      match p with
      | [] => count
      | _ => count_loop fuel (drop (char_len p) p) (count + 1)
      end
  end.

Definition beans_str_count_chars (s : str) (from to line col : Z) : result Z :=
  let len := slen s in
  if (from <? 0) || (to <? from) || (len <? to) then
    fmt_panic 112 "character range %lld..%lld out of range (len %lld)" [from; to; len] line col
  else
    let p := sub_str s from (to - from) in
    Ok (count_loop (length p) p 0).
