(* ===== verification/StrProofs.v ===== *)
(** * StrProofs: search, splitting, trimming and order of strings *)

From S2P Require Import Prelude Text TextProofs Str.

Open Scope c_scope.

(** ** Substrings *)

Lemma sub_str_all s : sub_str s 0 (slen s) = s.
Proof. unfold sub_str, slen. rewrite Nat2Z.id. cbn [Z.to_nat drop]. by apply take_ge. Qed.

Lemma sub_str_len s i n : 0 <= i -> 0 <= n -> i + n <= slen s -> slen (sub_str s i n) = n.
Proof. intros. unfold sub_str, slen in *. rewrite length_take, length_drop. lia. Qed.

Lemma sub_str_zero s i n : n <= 0 -> sub_str s i n = [].
Proof. intros. unfold sub_str. by replace (Z.to_nat n) with 0%nat by lia. Qed.

Lemma sub_str_split s i a b :
  0 <= i -> 0 <= a -> 0 <= b -> sub_str s i (a + b) = sub_str s i a ++ sub_str s (i + a) b.
Proof.
  intros. unfold sub_str. rewrite Z2Nat.inj_add, (Z2Nat.inj_add i) by lia.
  by rewrite <-take_take_drop, drop_drop.
Qed.

Lemma sub_str_sub s i n j k :
  0 <= i -> 0 <= j -> 0 <= k -> j + k <= n -> sub_str (sub_str s i n) j k = sub_str s (i + j) k.
Proof.
  intros. unfold sub_str. rewrite Z2Nat.inj_add by lia.
  rewrite skipn_firstn_comm, firstn_firstn, drop_drop. f_equal. lia.
Qed.

Lemma drop_sub_str s i : 0 <= i <= slen s -> drop (Z.to_nat i) s = sub_str s i (slen s - i).
Proof. intros. unfold sub_str, slen in *. rewrite take_ge; [done|]. rewrite length_drop. lia. Qed.

(** [filled] with its exact size. *)
Lemma filled_exact s : filled (slen s) s = Some s.
Proof.
  unfold filled. rewrite Z.leb_refl, Z.sub_diag. cbn. by rewrite app_nil_r.
Qed.

(** ** Matches *)

Lemma memcmp_eq a b : length a = length b -> (memcmp a b =? 0) = bool_decide (a = b).
Proof.
  revert b. induction a as [|x a IH]; intros [|y b] Hl; cbn in Hl; try lia; [done|].
  cbn [memcmp]. destruct (Z.ltb_spec x y).
  { symmetry. apply bool_decide_eq_false_2. intros [= -> _]. lia. }
  destruct (Z.ltb_spec y x).
  { symmetry. apply bool_decide_eq_false_2. intros [= -> _]. lia. }
  assert (x = y) as -> by lia. rewrite IH by lia.
  apply bool_decide_ext. split; [by intros ->|by intros [= ->]].
Qed.

(** [sub] occurs in [s] at [i]. *)
Definition match_at (s : str) (i : Z) (sub : str) : Prop :=
  0 <= i /\ i + slen sub <= slen s /\ sub_str s i (slen sub) = sub.

Lemma mem_eq_at_spec s i sub :
  0 <= i -> i + slen sub <= slen s -> mem_eq_at s i sub = true <-> match_at s i sub.
Proof.
  intros Hi Hl. pose proof (slen_nonneg sub).
  pose proof (sub_str_len s i (slen sub) Hi ltac:(done) Hl) as Hlen.
  unfold mem_eq_at. rewrite memcmp_eq by (unfold slen in *; lia).
  rewrite bool_decide_eq_true. unfold match_at. split; [done|]. by intros (_ & _ & ?).
Qed.

Lemma memchr_spec c room : forall p,
  (room <= length p)%nat ->
  match memchr p c room with
  | Some off => 0 <= off < Z.of_nat room /\ p !! Z.to_nat off = Some c /\
      (forall j, (j < Z.to_nat off)%nat -> p !! j <> Some c)
  | None => forall j, (j < room)%nat -> p !! j <> Some c
  end.
Proof.
  induction room as [|room IH]; intros p Hp; [destruct p; cbn; intros; lia|].
  destruct p as [|x p]; cbn in Hp; [lia|]. cbn [memchr].
  destruct (Z.eqb_spec x c) as [->|Hne].
  { split; [lia|]. split; [done|]. intros j Hj. cbn in Hj. lia. }
  specialize (IH p ltac:(lia)). destruct (memchr p c room) as [off|]; cbn [fmap option_fmap option_map].
  - destruct IH as (H1 & H2 & H3). split; [lia|]. split.
    + rewrite Z2Nat.inj_succ by lia. done.
    + intros [|j] Hj; cbn; [congruence|]. apply H3. lia.
  - intros [|j] Hj; cbn; [congruence|]. apply IH. lia.
Qed.

(** What a search from [from] must return. *)
Definition first_match (s sub : str) (from r : Z) : Prop :=
  (r = -1 /\ forall j, from <= j -> ~ match_at s j sub) \/
  (from <= r /\ match_at s r sub /\ forall j, from <= j < r -> ~ match_at s j sub).

Lemma match_head s i c sub :
  match_at s i (c :: sub) <-> 0 <= i /\ s !! Z.to_nat i = Some c /\ match_at s (i + 1) sub.
Proof.
  unfold match_at. rewrite slen_cons. pose proof (slen_nonneg sub).
  split.
  - intros (Hi & Hl & He). rewrite sub_str_split in He by lia.
    assert (Hh : exists x, s !! Z.to_nat i = Some x).
    { apply lookup_lt_is_Some_2. unfold slen in *. lia. }
    destruct Hh as [x Hx]. unfold sub_str at 1 in He.
    change (Z.to_nat 1) with 1%nat in He. rewrite (drop_S _ _ _ Hx) in He. cbn [take app] in He.
    injection He as <- He. split_and!; try done; lia.
  - intros (Hi & Hx & Hi1 & Hl & He). split; [done|]. split; [lia|].
    rewrite sub_str_split, He by lia. unfold sub_str.
    change (Z.to_nat 1) with 1%nat. by rewrite (drop_S _ _ _ Hx).
Qed.

Lemma str_search_loop_spec s c sub : forall fuel p,
  0 <= p <= slen s -> slen s - p < Z.of_nat fuel ->
  first_match s (c :: sub) p (str_search_loop fuel s (c :: sub) (slen s) (slen (c :: sub)) p).
Proof.
  induction fuel as [|fuel IH]; intros p Hp Hf; [lia|]. cbn [str_search_loop].
  rewrite slen_cons. pose proof (slen_nonneg sub).
  destruct (Z.leb_spec (slen s - p - (1 + slen sub - 1)) 0) as [Hr|Hr].
  { left. split; [done|]. intros j Hj (_ & Hl & _). rewrite slen_cons in Hl. lia. }
  set (room := slen s - p - (1 + slen sub - 1)) in *.
  change (c_at (c :: sub) 0) with c. cbn [tail].
  pose proof (memchr_spec c (Z.to_nat room) (drop (Z.to_nat p) s)) as Hm.
  rewrite length_drop in Hm. specialize (Hm ltac:(unfold slen in *; lia)).
  destruct (memchr _ _ _) as [off|].
  2:{ left. split; [done|]. intros j Hj Hmj.
      pose proof (proj1 (proj2 Hmj)) as Hl. rewrite slen_cons in Hl.
      apply match_head in Hmj as (_ & Hx & _). apply (Hm (Z.to_nat (j - p))); [lia|].
      rewrite lookup_drop. rewrite <-Hx. f_equal. lia. }
  destruct Hm as (Hoff & Hx & Hbefore). rewrite lookup_drop in Hx.
  assert (Hno : forall j, p <= j < p + off -> ~ match_at s j (c :: sub)).
  { intros j Hj Hmj. apply match_head in Hmj as (_ & Hxj & _).
    apply (Hbefore (Z.to_nat (j - p))); [lia|]. rewrite lookup_drop, <-Hxj. f_equal. lia. }
  replace (Z.to_nat p + Z.to_nat off)%nat with (Z.to_nat (p + off)) in Hx by lia.
  assert (Hhit : ((1 + slen sub =? 1) || mem_eq_at s (p + off + 1) sub) = true <->
    match_at s (p + off) (c :: sub)).
  { rewrite match_head, orb_true_iff, mem_eq_at_spec by lia. split.
    - intros [H1|H1]; [|by split_and!; [lia|..]]. split; [lia|]. split; [done|].
      destruct sub; [|rewrite slen_cons in *; pose proof (slen_nonneg sub); lia].
      unfold match_at. change (slen []) with 0. rewrite sub_str_zero by lia. split_and!; [lia|lia|done].
    - intros (_ & _ & H1). by right. }
  destruct ((1 + slen sub =? 1) || mem_eq_at s (p + off + 1) sub).
  - right. split; [lia|]. split; [by apply Hhit|done].
  - assert (Hnh : ~ match_at s (p + off) (c :: sub)) by (rewrite <-Hhit; done).
    rewrite <-slen_cons with (c := c).
    destruct (IH (p + off + 1)) as [[H1 H2]|(H1 & H2 & H3)]; [lia|lia|left|right].
    + split; [done|]. intros j Hj. destruct (Z.eq_dec j (p + off)) as [->|]; [done|].
      destruct (Z.lt_ge_cases j (p + off)); [apply Hno; lia|apply H2; lia].
    + split; [lia|]. split; [done|]. intros j Hj. destruct (Z.eq_dec j (p + off)) as [->|]; [done|].
      destruct (Z.lt_ge_cases j (p + off)); [apply Hno; lia|apply H3; lia].
Qed.

(** [str_search] finds the leftmost match. *)
Lemma str_search_spec s sub from :
  0 <= from <= slen s -> sub <> [] ->
  first_match s sub from (str_search s (slen s) sub (slen sub) from).
Proof.
  intros Hf Hne. unfold str_search. destruct (Z.ltb_spec (slen s - from) (slen sub)) as [Hl|Hl].
  { left. split; [done|]. intros j Hj (_ & Hm & _). lia. }
  destruct sub as [|c sub]; [done|]. pose proof (slen_nonneg sub).
  replace (slen (c :: sub) =? 0) with false by (rewrite slen_cons; lia).
  apply str_search_loop_spec; [done|]. unfold slen in *. lia.
Qed.

Lemma first_match_unique s sub from r r' :
  0 <= from -> first_match s sub from r -> first_match s sub from r' -> r = r'.
Proof.
  intros Hf [[-> H1]|(H1 & H2 & H3)] [[-> H1']|(H1' & H2' & H3')]; [done|..].
  - by destruct (H1 r').
  - by destruct (H1' r).
  - destruct (Z.lt_trichotomy r r') as [|[|]]; [|done|].
    + by destruct (H3' r).
    + by destruct (H3 r').
Qed.

Lemma rfind_loop_spec s sub : forall k,
  Z.of_nat k + slen sub <= slen s + 1 ->
  match rfind_loop k s sub with
  | Some i => match_at s i sub /\ forall j, i < j < Z.of_nat k -> ~ match_at s j sub
  | None => forall j, j < Z.of_nat k -> ~ match_at s j sub
  end.
Proof.
  induction k as [|k IH]; intros Hk; cbn [rfind_loop].
  { intros j Hj (H0 & _). lia. }
  destruct (mem_eq_at s (Z.of_nat k) sub) eqn:Hm.
  - apply mem_eq_at_spec in Hm; [|lia..]. split; [done|]. lia.
  - assert (Hn : ~ match_at s (Z.of_nat k) sub)
      by (intros Hx; apply mem_eq_at_spec in Hx; [congruence|lia..]).
    specialize (IH ltac:(lia)). destruct (rfind_loop k s sub) as [i|].
    + destruct IH as [H1 H2]. split; [done|]. intros j Hj.
      destruct (Z.eq_dec j (Z.of_nat k)) as [->|]; [done|]. apply H2. lia.
    + intros j Hj. destruct (Z.eq_dec j (Z.of_nat k)) as [->|]; [done|]. apply IH. lia.
Qed.

(** ** Splitting and replacing *)

(** The pieces with a separator between them. *)
Fixpoint join (sep : str) (l : list str) : str :=
  match l with
  | [] => []
  | [s] => s
  | s :: l => s ++ sep ++ join sep l
  end.

Lemma join_cons sep s l : l <> [] -> join sep (s :: l) = s ++ sep ++ join sep l.
Proof. by destruct l. Qed.

Lemma slen_join sep l :
  l <> [] -> slen (join sep l) = slen (concat l) + (Z.of_nat (length l) - 1) * slen sep.
Proof.
  induction l as [|s l IH]; intros Hl; [done|]. destruct (decide (l = [])) as [->|Hne].
  - cbn. rewrite app_nil_r. lia.
  - rewrite join_cons, !slen_app, IH by done. cbn [concat length]. rewrite slen_app. lia.
Qed.

(** No occurrence of [sep] in [s]. *)
Definition free_of (sep s : str) : Prop := forall k, ~ match_at s k sep.

Lemma match_at_sub s i n k sub :
  0 <= i -> i + n <= slen s -> 0 <= n -> match_at (sub_str s i n) k sub ->
  match_at s (i + k) sub /\ k + slen sub <= n.
Proof.
  intros Hi Hl Hn (Hk & Hkl & He). rewrite sub_str_len in Hkl by lia.
  pose proof (slen_nonneg sub). rewrite sub_str_sub in He by lia.
  split; [|done]. split; [lia|]. split; [lia|done].
Qed.

Lemma match_bounds s i sub : match_at s i sub -> 0 <= i /\ i + slen sub <= slen s.
Proof. intros (H1 & H2 & _). done. Qed.

Lemma slen_pos (s : str) : s <> [] -> 1 <= slen s.
Proof. destruct s; [done|]. intros _. rewrite slen_cons. pose proof (slen_nonneg s). lia. Qed.

Lemma free_of_before s sep i j :
  0 <= i -> i <= j <= slen s -> (forall k, i <= k -> k + slen sep <= j -> ~ match_at s k sep) ->
  free_of sep (sub_str s i (j - i)).
Proof.
  intros Hi Hj Hno k Hk. assert (0 <= k) by apply Hk.
  apply match_at_sub in Hk as [Hk Hle]; [|lia..]. apply (Hno (i + k)); [lia|lia|done].
Qed.

Lemma split_loop_spec s sep : sep <> [] -> forall fuel i j l,
  0 <= i <= slen s -> slen s - i < Z.of_nat fuel -> first_match s sep i j ->
  exists pieces, split_loop fuel s sep i j l = l ++ pieces /\ pieces <> [] /\
    join sep pieces = sub_str s i (slen s - i) /\ Forall (free_of sep) pieces.
Proof.
  intros Hne. pose proof (slen_pos sep Hne). induction fuel as [|fuel IH]; intros i j l Hi Hf Hj; [lia|].
  cbn [split_loop]. destruct Hj as [[-> Hno]|(Hij & Hm & Hno)].
  - exists [sub_str s i (slen s - i)]. split; [done|]. split; [done|]. split; [done|].
    constructor; [|constructor]. apply free_of_before; [lia|lia|]. intros k Hk _. by apply Hno.
  - destruct (match_bounds _ _ _ Hm) as [Hj0 Hjn]. replace (0 <=? j) with true by lia.
    destruct (IH (j + slen sep) (str_search s (slen s) sep (slen sep) (j + slen sep))
      (l ++ [sub_str s i (j - i)])) as (ps & -> & Hps & Hjoin & Hfree);
      [lia|lia|by apply str_search_spec; [lia|]|].
    exists (sub_str s i (j - i) :: ps). rewrite <-app_assoc. split; [done|]. split; [done|]. split.
    + rewrite join_cons, Hjoin by done. destruct Hm as (_ & _ & Hm). rewrite <-Hm at 1.
      rewrite <-sub_str_split by lia.
      replace (slen s - i) with ((j - i) + (slen sep + (slen s - (j + slen sep)))) by lia.
      rewrite (sub_str_split s i) by lia. f_equal. f_equal; lia.
    + constructor; [|done]. apply free_of_before; [lia|lia|]. intros k Hk Hke. apply Hno. lia.
Qed.

Lemma split_spec s sep :
  sep <> [] -> beans_str_split s sep <> [] /\ join sep (beans_str_split s sep) = s /\
    Forall (free_of sep) (beans_str_split s sep).
Proof.
  intros Hne. unfold beans_str_split. pose proof (slen_pos sep Hne). pose proof (slen_nonneg s).
  replace (slen sep =? 0) with false by lia.
  destruct (split_loop_spec s sep Hne (S (length s)) 0 (str_search s (slen s) sep (slen sep) 0) [])
    as (ps & -> & Hps & Hjoin & Hfree); [lia|unfold slen; lia|apply str_search_spec; [lia|done]|].
  cbn [app]. rewrite Hjoin, Z.sub_0_r, sub_str_all. done.
Qed.

Lemma split_loop_acc s sep fuel : forall i j l,
  split_loop fuel s sep i j l = l ++ split_loop fuel s sep i j [].
Proof.
  induction fuel as [|fuel IH]; intros i j l; cbn [split_loop]; [by rewrite app_nil_r|].
  case_match; [|done]. rewrite IH, (IH _ _ ([] ++ _)). by rewrite <-app_assoc.
Qed.

(** The writing loop of [replace] joins the same pieces with the new text. *)
Lemma replace_write_split s old nw : old <> [] -> forall fuel i w,
  0 <= i <= slen s -> slen s - i < Z.of_nat fuel ->
  replace_write fuel s old nw i w =
  w ++ join nw (split_loop fuel s old i (str_search s (slen s) old (slen old) i) []).
Proof.
  intros Hne. pose proof (slen_pos old Hne). induction fuel as [|fuel IH]; intros i w Hi Hf; [lia|].
  cbn [replace_write split_loop]. pose proof (str_search_spec s old i Hi Hne) as Hj.
  set (j := str_search s (slen s) old (slen old) i) in *.
  destruct Hj as [[Hj1 _]|(Hij & Hm & _)].
  - rewrite Hj1. done.
  - destruct (match_bounds _ _ _ Hm) as [Hj0 Hjn].
    replace (j <? 0) with false by lia. replace (0 <=? j) with true by lia.
    rewrite IH, (split_loop_acc _ _ _ _ _ ([] ++ _)) by lia. cbn [app].
    rewrite join_cons; [by rewrite <-!app_assoc|].
    destruct (split_loop_spec s old Hne fuel (j + slen old)
      (str_search s (slen s) old (slen old) (j + slen old)) [])
      as (ps & -> & Hps & _); [lia|lia|by apply str_search_spec; [lia|]|done].
Qed.

Lemma replace_count_split s old : old <> [] -> forall fuel i j count,
  0 <= i <= slen s -> slen s - i < Z.of_nat fuel -> first_match s old i j ->
  replace_count fuel s old j count =
  count + (Z.of_nat (length (split_loop fuel s old i j [])) - 1).
Proof.
  intros Hne. pose proof (slen_pos old Hne). induction fuel as [|fuel IH]; intros i j count Hi Hf Hj; [lia|].
  cbn [replace_count split_loop]. destruct Hj as [[-> _]|(Hij & Hm & _)].
  - cbn. lia.
  - destruct (match_bounds _ _ _ Hm) as [Hj0 Hjn]. replace (0 <=? j) with true by lia.
    rewrite (IH (j + slen old)) by (lia || by apply str_search_spec; [lia|]).
    rewrite (split_loop_acc _ _ _ _ _ ([] ++ _)). rewrite !length_app. cbn [length]. lia.
Qed.

Lemma replace_spec s old nw :
  old <> [] -> beans_str_replace s old nw = Some (join nw (beans_str_split s old)).
Proof.
  intros Hne. pose proof (slen_pos old Hne). pose proof (slen_nonneg s).
  destruct (split_spec s old Hne) as (Hps & Hjoin & _).
  unfold beans_str_replace. replace (slen old =? 0) with false by lia. cbv zeta.
  assert (Hsp : beans_str_split s old =
    split_loop (S (length s)) s old 0 (str_search s (slen s) old (slen old) 0) []).
  { unfold beans_str_split. by replace (slen old =? 0) with false by lia. }
  rewrite (replace_count_split s old Hne _ 0), replace_write_split, <-Hsp;
    [|done|lia|unfold slen; lia|lia|unfold slen; lia|apply str_search_spec; [lia|done]].
  set (ps := beans_str_split s old) in *.
  pose proof (slen_join old ps Hps) as Hlo. pose proof (slen_join nw ps Hps) as Hln. rewrite Hjoin in Hlo.
  destruct (Z.eqb_spec (0 + (Z.of_nat (length ps) - 1)) 0) as [H1|H1].
  - destruct ps as [|x [|y ps]]; [done| |cbn in H1; lia]. cbn in Hjoin |- *. congruence.
  - cbn [app]. replace (slen s + _) with (slen (join nw ps)) by lia. apply filled_exact.
Qed.

(** ** Lines *)

Lemma lines_loop_spec s p : forall i j l,
  0 <= i -> i <= j -> drop (Z.to_nat j) s = p -> j <= slen s -> (10 : Z) ∉ sub_str s i (j - i) ->
  let '(l', i') := lines_loop s p i j l in
  exists ls, l' = l ++ ls /\ i <= i' <= slen s /\
    concat ((fun x => x ++ [10]) <$> ls) = sub_str s i (i' - i) /\
    Forall (fun x => (10 : Z) ∉ x) ls /\ (10 : Z) ∉ sub_str s i' (slen s - i').
Proof.
  induction p as [|c p IH]; intros i j l Hi Hij Hp Hj Hno; cbn [lines_loop].
  - assert (Hlen : slen s - j = 0).
    { apply (f_equal length) in Hp. rewrite length_drop in Hp. unfold slen in *. cbn in Hp. lia. }
    exists []. rewrite app_nil_r, Z.sub_diag, sub_str_zero by lia. cbn.
    split_and!; try done; try lia. by replace (slen s - i) with (j - i) by lia.
  - assert (Hlt : j < slen s).
    { apply (f_equal length) in Hp. rewrite length_drop in Hp. unfold slen in *. cbn in Hp. lia. }
    assert (Hp' : drop (Z.to_nat (j + 1)) s = p).
    { rewrite Z2Nat.inj_add by lia. rewrite <-drop_drop, Hp. done. }
    assert (Hc : sub_str s j 1 = [c]) by (unfold sub_str; by rewrite Hp).
    assert (Hext : sub_str s i (j + 1 - i) = sub_str s i (j - i) ++ [c]).
    { replace (j + 1 - i) with (j - i + 1) by lia. rewrite sub_str_split by lia.
      by replace (i + (j - i)) with j by lia; rewrite Hc. }
    destruct (Z.eqb_spec c 10) as [->|Hne].
    + specialize (IH (j + 1) (j + 1) (l ++ [sub_str s i (j - i)]) ltac:(lia) ltac:(lia) Hp' ltac:(lia)).
      rewrite Z.sub_diag, sub_str_zero in IH by lia. specialize (IH (not_elem_of_nil _)).
      destruct (lines_loop s p (j + 1) (j + 1) _) as [l' i'].
      destruct IH as (ls & -> & Hi' & Hcat & Hfree & Htail).
      exists (sub_str s i (j - i) :: ls). rewrite <-app_assoc. split_and!; try done; try lia.
      * cbn [fmap list_fmap concat]. rewrite Hcat, <-Hext.
        replace (j + 1) with (i + (j + 1 - i)) at 2 by lia. rewrite <-sub_str_split by lia.
        f_equal. lia.
      * by constructor.
    + apply IH; [lia|lia|done|lia|]. rewrite Hext, elem_of_app, list_elem_of_singleton.
      intros [?| <-]; done.
Qed.

Lemma lines_spec s :
  let ls := beans_str_lines s in
  Forall (fun x => (10 : Z) ∉ x) ls /\
  (concat ((fun x => x ++ [10]) <$> ls) = s \/
   concat ((fun x => x ++ [10]) <$> ls) = s ++ [10] /\ s <> [] /\ last s <> Some 10).
Proof.
  unfold beans_str_lines. pose proof (slen_nonneg s).
  pose proof (lines_loop_spec s s 0 0 [] ltac:(lia) ltac:(lia) eq_refl ltac:(lia)) as Hl.
  specialize (Hl (not_elem_of_nil _)). destruct (lines_loop s s 0 0 []) as [l i].
  destruct Hl as (ls & -> & Hi & Hcat & Hfree & Htail). rewrite Z.sub_0_r in Hcat. cbn [app].
  destruct (Z.ltb_spec i (slen s)).
  - split; [apply Forall_app; split; [done|by constructor]|]. right.
    rewrite fmap_app, concat_app, Hcat. cbn [fmap list_fmap concat]. rewrite app_nil_r, app_assoc.
    replace i with (0 + i) at 2 by lia. rewrite <-sub_str_split by lia.
    replace (i + (slen s - i)) with (slen s) by lia. rewrite sub_str_all.
    split; [done|]. split; [intros ->; change (slen []) with 0 in *; lia|]. intros Hlast. apply Htail.
    apply last_Some in Hlast as [pre Hpre]. rewrite <-drop_sub_str by lia.
    assert (Hlen : slen s = slen pre + 1) by (rewrite Hpre, slen_app; done).
    rewrite Hpre, drop_app_le by (unfold slen in *; lia). apply elem_of_app. right. by apply list_elem_of_singleton.
  - split; [done|]. left. rewrite Hcat. replace i with (slen s) by lia. apply sub_str_all.
Qed.

(** ** Trimming *)

Definition all_ws (s : str) : Prop := Forall (fun c => str_is_ws c = true) s.

Lemma sub_str_one s i : 0 <= i < slen s -> sub_str s i 1 = [c_at s (Z.to_nat i)].
Proof.
  intros Hi. destruct (lookup_lt_is_Some_2 s (Z.to_nat i)) as [c Hc]; [unfold slen in *; lia|].
  unfold sub_str, c_at. rewrite Hc. change (Z.to_nat 1) with 1%nat. by rewrite (drop_S _ _ _ Hc).
Qed.

Lemma trim_from_spec s e fuel : forall b,
  0 <= b <= e -> e <= slen s -> e - b <= Z.of_nat fuel ->
  let b' := trim_from fuel s b e in
  b <= b' <= e /\ all_ws (sub_str s b (b' - b)) /\
  (b' < e -> str_is_ws (c_at s (Z.to_nat b')) = false).
Proof.
  induction fuel as [|fuel IH]; intros b Hb He Hf; cbn [trim_from]; cbv zeta.
  { split; [lia|]. rewrite sub_str_zero by lia. split; [constructor|lia]. }
  destruct ((b <? e) && str_is_ws (c_at s (Z.to_nat b))) eqn:Ht.
  - bools. destruct (IH (b + 1)) as (H1 & H2 & H3); [lia..|]. split; [lia|]. split; [|done].
    replace (trim_from fuel s (b + 1) e - b) with (1 + (trim_from fuel s (b + 1) e - (b + 1))) by lia.
    rewrite sub_str_split, sub_str_one by lia. constructor; [done|done].
  - split; [lia|]. rewrite sub_str_zero by lia. split; [constructor|].
    intros Hlt. by replace (b <? e) with true in Ht by lia.
Qed.

Lemma trim_to_spec s b fuel : forall e,
  0 <= b <= e -> e <= slen s -> e - b <= Z.of_nat fuel ->
  let e' := trim_to fuel s b e in
  b <= e' <= e /\ all_ws (sub_str s e' (e - e')) /\
  (b < e' -> str_is_ws (c_at s (Z.to_nat (e' - 1))) = false).
Proof.
  induction fuel as [|fuel IH]; intros e Hb He Hf; cbn [trim_to]; cbv zeta.
  { split; [lia|]. rewrite sub_str_zero by lia. split; [constructor|lia]. }
  destruct ((b <? e) && str_is_ws (c_at s (Z.to_nat (e - 1)))) eqn:Ht.
  - bools. destruct (IH (e - 1)) as (H1 & H2 & H3); [lia..|]. split; [lia|]. split; [|done].
    replace (e - trim_to fuel s b (e - 1)) with (e - 1 - trim_to fuel s b (e - 1) + 1) by lia.
    rewrite sub_str_split by lia. apply Forall_app. split; [done|].
    replace (trim_to fuel s b (e - 1) + (e - 1 - trim_to fuel s b (e - 1))) with (e - 1) by lia.
    rewrite sub_str_one by lia. by constructor.
  - split; [lia|]. rewrite sub_str_zero by lia. split; [constructor|].
    intros Hlt. by replace (b <? e) with true in Ht by lia.
Qed.

(** The trimmed middle of [s]: blanks around it and none at its ends. *)
Definition trimmed (front back : bool) (s t : str) : Prop :=
  exists a z, s = a ++ t ++ z /\ all_ws a /\ all_ws z /\ (front = false -> a = []) /\
    (back = false -> z = []) /\
    (front = true -> forall c, head t = Some c -> str_is_ws c = false) /\
    (back = true -> forall c, last t = Some c -> str_is_ws c = false).

Lemma sub_str_three s b e :
  0 <= b <= e -> e <= slen s -> s = sub_str s 0 b ++ sub_str s b (e - b) ++ sub_str s e (slen s - e).
Proof.
  intros. replace e with (b + (e - b)) at 2 by lia. rewrite <-sub_str_split by lia.
  replace (e - b + (slen s - e)) with (slen s - b) by lia.
  replace b with (0 + b) at 2 by lia. rewrite <-sub_str_split by lia.
  replace (b + (slen s - b)) with (slen s) by lia. by rewrite sub_str_all.
Qed.

Lemma head_sub_str s b n c : 0 <= b -> b + n <= slen s -> head (sub_str s b n) = Some c ->
  0 < n /\ c = c_at s (Z.to_nat b).
Proof.
  intros Hb Hn Hh. destruct (Z.le_gt_cases n 0); [by rewrite sub_str_zero in Hh by lia|].
  split; [lia|]. replace n with (1 + (n - 1)) in Hh by lia.
  rewrite sub_str_split, sub_str_one in Hh by lia. by injection Hh as <-.
Qed.

Lemma last_sub_str s b n c : 0 <= b -> b + n <= slen s -> last (sub_str s b n) = Some c ->
  0 < n /\ c = c_at s (Z.to_nat (b + n - 1)).
Proof.
  intros Hb Hn Hh. destruct (Z.le_gt_cases n 0); [by rewrite sub_str_zero in Hh by lia|].
  split; [lia|]. replace n with (n - 1 + 1) in Hh by lia.
  rewrite sub_str_split, sub_str_one, last_snoc in Hh by lia. injection Hh as <-.
  do 2 f_equal. lia.
Qed.

Lemma trimmed_sub s front back b e :
  0 <= b <= e -> e <= slen s ->
  all_ws (sub_str s 0 b) -> all_ws (sub_str s e (slen s - e)) ->
  (front = false -> b = 0) -> (back = false -> e = slen s) ->
  (front = true -> b < e -> str_is_ws (c_at s (Z.to_nat b)) = false) ->
  (back = true -> b < e -> str_is_ws (c_at s (Z.to_nat (e - 1))) = false) ->
  trimmed front back s (sub_str s b (e - b)).
Proof.
  intros Hb He Ha Hz H1 H2 H3 H4. exists (sub_str s 0 b), (sub_str s e (slen s - e)).
  split; [by apply sub_str_three|]. split; [done|]. split; [done|].
  split; [intros Hf; by rewrite sub_str_zero by (rewrite H1 by done; lia)|].
  split; [intros Hf; apply sub_str_zero; rewrite H2 by done; lia|].
  split; intros Hf c Hc.
  - apply head_sub_str in Hc as [Hn ->]; [|lia..]. apply H3; [done|lia].
  - apply last_sub_str in Hc as [Hn ->]; [|lia..].
    replace (b + (e - b) - 1) with (e - 1) by lia. apply H4; [done|lia].
Qed.

Lemma trim_spec s :
  trimmed true true s (beans_str_trim s) /\ trimmed true false s (beans_str_trim_start s) /\
  trimmed false true s (beans_str_trim_end s).
Proof.
  pose proof (slen_nonneg s).
  destruct (trim_from_spec s (slen s) (length s) 0) as (Hb & Hws & Hend);
    [lia|lia|unfold slen; lia|]. rewrite Z.sub_0_r in Hws. set (b := trim_from _ _ _ _) in *.
  destruct (trim_to_spec s b (length s) (slen s)) as (He & Hws' & Hend');
    [lia|lia|unfold slen in *; lia|].
  destruct (trim_to_spec s 0 (length s) (slen s)) as (He0 & Hws0 & Hend0);
    [lia|lia|unfold slen in *; lia|].
  split_and!.
  - unfold beans_str_trim. cbv zeta. fold b. apply trimmed_sub; try done; try lia. intros _ Hlt. apply Hend. lia.
  - unfold beans_str_trim_start. cbv zeta. fold b. apply trimmed_sub; try done; try lia.
    rewrite Z.sub_diag, sub_str_zero by lia. constructor.
  - unfold beans_str_trim_end. cbv zeta. set (e0 := trim_to (length s) s 0 (slen s)) in *.
    pose proof (trimmed_sub s false true 0 e0) as Ht. rewrite Z.sub_0_r in Ht.
    apply Ht; try done; try lia. rewrite sub_str_zero by lia. constructor.
Qed.

(** ** Order *)

(** Lexicographic order of bytes, a proper prefix first. *)
Fixpoint lex (a b : str) : Z :=
  match a, b with
  | [], [] => 0
  | [], _ => -1
  | _, [] => 1
  | x :: a, y :: b => if x <? y then -1 else if y <? x then 1 else lex a b
  end.

Lemma memcmp_lex n : forall a b, length a = n -> (n <= length b)%nat ->
  (if negb (memcmp a (take n b) =? 0) then memcmp a (take n b)
   else if Z.of_nat n <? slen b then -1 else 0) = lex a b.
Proof.
  induction n as [|n IH]; intros a b Ha Hb.
  - destruct a; [|done]. destruct b; [done|]. rewrite slen_cons. pose proof (slen_nonneg b).
    change (Z.of_nat 0 <? 1 + slen b) with (0 <? 1 + slen b).
    by replace (0 <? 1 + slen b) with true by lia.
  - destruct a as [|x a], b as [|y b]; cbn in Ha, Hb; try lia. cbn [take memcmp lex].
    destruct (x <? y); [done|]. destruct (y <? x); [done|].
    rewrite <-(IH a b) by lia. rewrite slen_cons.
    assert (Heq : (Z.of_nat (S n) <? 1 + slen b) = (Z.of_nat n <? slen b))
      by (destruct (Z.ltb_spec (Z.of_nat (S n)) (1 + slen b)), (Z.ltb_spec (Z.of_nat n) (slen b)); lia).
    by rewrite Heq.
Qed.

Lemma memcmp_swap a b : memcmp b a = - memcmp a b.
Proof.
  revert b. induction a as [|x a IH]; intros [|y b]; [done..|]. cbn [memcmp].
  destruct (Z.ltb_spec x y), (Z.ltb_spec y x); try lia. apply IH.
Qed.

Lemma lex_swap a b : lex b a = - lex a b.
Proof.
  revert b. induction a as [|x a IH]; intros [|y b]; [done..|]. cbn [lex].
  destruct (Z.ltb_spec x y), (Z.ltb_spec y x); try lia. apply IH.
Qed.

Lemma str_cmp_lex a b : beans_str_cmp a b = lex a b.
Proof.
  unfold beans_str_cmp. cbv zeta.
  assert (Hz : forall n x y, (if negb (n =? 0) then memcmp (sub_str x 0 n) (sub_str y 0 n) else 0) =
    memcmp (sub_str x 0 n) (sub_str y 0 n)).
  { intros n x y. destruct (Z.eqb_spec n 0) as [->|]; [|done]. by rewrite !sub_str_zero. }
  rewrite Hz. pose proof (slen_nonneg a). pose proof (slen_nonneg b).
  assert (Hs : forall x n, sub_str x 0 (Z.of_nat n) = take n x)
    by (intros; unfold sub_str; by rewrite Nat2Z.id).
  destruct (Z.ltb_spec (slen a) (slen b)).
  - rewrite sub_str_all. unfold slen at 1 2. rewrite Hs.
    pose proof (memcmp_lex (length a) a b eq_refl ltac:(unfold slen in *; lia)) as Hl.
    fold (slen a) in Hl. replace (slen a <? slen b) with true in Hl by lia. exact Hl.
  - rewrite sub_str_all. unfold slen at 1 2. rewrite Hs, (memcmp_swap b).
    pose proof (memcmp_lex (length b) b a eq_refl ltac:(unfold slen in *; lia)) as Hl.
    rewrite lex_swap in Hl. fold (slen b) in Hl. set (m := memcmp b (take (length b) a)) in *.
    destruct (Z.eqb_spec (- m) 0), (Z.eqb_spec m 0); try lia; cbn [negb] in *; [|lia].
    destruct (slen b <? slen a); lia.
Qed.

Lemma lex_eq a b : lex a b = 0 <-> a = b.
Proof.
  revert b. induction a as [|x a IH]; intros [|y b]; try done. cbn [lex].
  destruct (Z.ltb_spec x y).
  { split; [done|]. intros [= -> _]. lia. }
  destruct (Z.ltb_spec y x).
  { split; [done|]. intros [= -> _]. lia. }
  rewrite IH. assert (x = y) as -> by lia. split; [by intros ->|by intros [= ->]].
Qed.

Lemma lex_trans a b c : lex a b < 0 -> lex b c < 0 -> lex a c < 0.
Proof.
  revert b c. induction a as [|x a IH]; intros [|y b] [|z c]; cbn [lex]; try lia.
  destruct (Z.ltb_spec x y), (Z.ltb_spec y z), (Z.ltb_spec x z); try lia;
    destruct (Z.ltb_spec y x), (Z.ltb_spec z y), (Z.ltb_spec z x); try lia.
  apply IH.
Qed.

(** ** Characters *)

Lemma char_len_bounds p : p <> [] -> (1 <= char_len p <= 4)%nat /\ (char_len p <= length p)%nat.
Proof.
  intros Hp. destruct p as [|c q]; [done|]. unfold char_len. cbv zeta.
  set (n := if c <? 128 then 1%nat else _).
  assert (Hn : (1 <= n <= 4)%nat) by (subst n; repeat case_match; lia).
  assert (H1 : (1 <= 1 <= 4)%nat /\ (1 <= length (c :: q))%nat) by (cbn [length]; lia).
  destruct (Nat.ltb_spec (length (c :: q)) n); [done|].
  destruct (continuation_bytes (n - 1) q); [|done]. split; [done|]. lia.
Qed.

Lemma chars_loop_spec fuel : forall p, (length p <= fuel)%nat ->
  concat (chars_loop fuel p) = p /\
  Forall (fun c => (1 <= length c <= 4)%nat) (chars_loop fuel p) /\
  forall k, count_loop fuel p k = k + Z.of_nat (length (chars_loop fuel p)).
Proof.
  induction fuel as [|fuel IH]; intros p Hp.
  { destruct p; [|cbn in Hp; lia]. cbn. split; [done|]. split; [constructor|]. lia. }
  destruct p as [|c q].
  { cbn. split; [done|]. split; [constructor|]. lia. }
  set (p := c :: q) in *. destruct (char_len_bounds p ltac:(done)) as [Hn Hl].
  assert (Hd : (length (drop (char_len p) p) <= fuel)%nat) by (rewrite length_drop; lia).
  destruct (IH _ Hd) as (H1 & H2 & H3).
  change (chars_loop (S fuel) p) with (take (char_len p) p :: chars_loop fuel (drop (char_len p) p)).
  split_and!.
  - cbn [concat]. by rewrite H1, take_drop.
  - constructor; [rewrite length_take; lia|done].
  - intros k. change (count_loop (S fuel) p k) with (count_loop fuel (drop (char_len p) p) (k + 1)).
    rewrite H3. cbn [length]. lia.
Qed.

(** ** Ends, ranges and bytes *)

Lemma starts_with_spec s p : beans_str_starts_with s p = true <-> exists t, s = p ++ t.
Proof.
  unfold beans_str_starts_with. pose proof (slen_nonneg p).
  destruct (Z.leb_spec (slen p) (slen s)); cbn [andb].
  - rewrite mem_eq_at_spec by lia. split.
    + intros (_ & _ & Hm). exists (drop (length p) s). rewrite <-Hm at 1.
      unfold sub_str, slen. rewrite Nat2Z.id, drop_0. by rewrite take_drop.
    + intros [t ->]. split; [lia|]. split; [lia|].
      unfold sub_str, slen. rewrite Nat2Z.id, drop_0. by rewrite take_app_length.
  - split; [done|]. intros [t ->]. rewrite slen_app in *. pose proof (slen_nonneg t). lia.
Qed.

Lemma ends_with_spec s p : beans_str_ends_with s p = true <-> exists t, s = t ++ p.
Proof.
  unfold beans_str_ends_with. cbv zeta. pose proof (slen_nonneg p).
  destruct (Z.leb_spec (slen p) (slen s)); cbn [andb].
  - rewrite mem_eq_at_spec by lia. split.
    + intros (_ & _ & Hm). exists (sub_str s 0 (slen s - slen p)).
      pose proof (sub_str_split s 0 (slen s - slen p) (slen p) ltac:(lia) ltac:(lia) ltac:(lia)) as Hs.
      by rewrite Z.sub_add, sub_str_all, Z.add_0_l, Hm in Hs.
    + intros [t ->]. rewrite slen_app in *. split; [lia|]. split; [rewrite slen_app; lia|].
      replace (slen t + slen p - slen p) with (slen t) by lia.
      pose proof (sub_str_mid t p []) as Hm. by rewrite app_nil_r in Hm.
  - split; [done|]. intros [t ->]. rewrite slen_app in *. pose proof (slen_nonneg t). lia.
Qed.

Lemma range_equals_spec s i n other :
  0 <= i -> 0 <= n -> i + n <= slen s ->
  Ok ((n =? slen other) && mem_eq_at s i other) = Ok true <-> sub_str s i n = other.
Proof.
  intros Hi Hn Hl. pose proof (sub_str_len s i n Hi Hn Hl) as Hlen. split.
  - intros [= He]. bools. subst n.
    match goal with H : mem_eq_at _ _ _ = true |- _ => apply mem_eq_at_spec in H; [|lia..]; apply H end.
  - intros <-. rewrite Hlen. f_equal. apply andb_true_iff. split; [lia|].
    apply mem_eq_at_spec; [lia|lia|]. unfold match_at. rewrite Hlen. done.
Qed.

Lemma find_byte_spec s byte from line col :
  if (0 <=? byte) && (byte <=? 255) && (0 <=? from) && (from <=? slen s)
  then exists r, beans_str_find_byte s byte from line col = Ok r /\
    ((r = -1 /\ forall j, from <= j -> s !! Z.to_nat j <> Some byte) \/
     (from <= r /\ s !! Z.to_nat r = Some byte /\
      forall j, from <= j < r -> s !! Z.to_nat j <> Some byte))
  else exists m, beans_str_find_byte s byte from line col = Panic m line col.
Proof.
  unfold beans_str_find_byte. cbv zeta. destruct (_ && _ && _ && _) eqn:Hb.
  - bools. replace ((byte <? 0) || (255 <? byte)) with false by lia.
    replace ((from <? 0) || (slen s <? from)) with false by lia.
    pose proof (memchr_spec byte (Z.to_nat (slen s - from)) (drop (Z.to_nat from) s)) as Hm.
    rewrite length_drop in Hm. specialize (Hm ltac:(unfold slen in *; lia)).
    assert (Hat : forall j, from <= j -> s !! Z.to_nat j = drop (Z.to_nat from) s !! Z.to_nat (j - from)).
    { intros j Hj. rewrite lookup_drop. f_equal. lia. }
    eexists. split; [done|]. destruct (memchr _ _ _) as [off|]; [right|left].
    + destruct Hm as (Ho & Hx & Hn). split; [lia|]. split.
      * rewrite Hat by lia. by replace (from + off - from) with off by lia.
      * intros j Hj. rewrite Hat by lia. apply Hn. lia.
    + split; [done|]. intros j Hj. rewrite Hat by lia.
      destruct (Z.lt_ge_cases j (slen s)); [apply Hm; lia|].
      rewrite lookup_ge_None_2; [done|]. rewrite length_drop. unfold slen in *. lia.
  - destruct ((byte <? 0) || (255 <? byte)) eqn:H1; [unfold fmt_panic; eauto|].
    replace ((from <? 0) || (slen s <? from)) with true by lia. unfold fmt_panic; eauto.
Qed.

Lemma lex_prefix a b : b <> [] -> lex a (a ++ b) < 0.
Proof.
  intros Hb. induction a as [|x a IH]; cbn [app lex]; [destruct b; [done|lia]|].
  by replace (x <? x) with false by lia.
Qed.
