(* ===== verification/StrTheorems.v ===== *)
(** * StrTheorems: what the string operations promise *)

From S2P Require Import Prelude Text Str StrProofs.

Open Scope c_scope.

(** C37 Searching: [find] is the leftmost occurrence and [rfind] the rightmost,
    an empty needle is found at 0 and at the end, [contains] agrees with
    [find], and [starts_with] and [ends_with] are occurrences at the ends. *)
Theorem str_find_correct (s sub : str) :
  (match beans_str_find s sub with
   | Some i => match_at s i sub /\ (forall j, j < i -> ~ match_at s j sub)
   | None => free_of sub s
   end) /\
  (match beans_str_rfind s sub with
   | Some i => match_at s i sub /\ (forall j, i < j -> ~ match_at s j sub)
   | None => free_of sub s
   end) /\
  (beans_str_contains s sub = true <-> exists i, match_at s i sub) /\
  (beans_str_starts_with s sub = true <-> exists t, s = sub ++ t) /\
  (beans_str_ends_with s sub = true <-> exists t, s = t ++ sub).
Proof.
  pose proof (slen_nonneg s). pose proof (slen_nonneg sub).
  assert (Hemp : slen sub = 0 -> sub = []) by (destruct sub; [done|rewrite slen_cons; pose proof (slen_nonneg sub); lia]).
  assert (Hend : forall j, match_at s j sub -> 0 <= j <= slen s - slen sub)
    by (intros j Hj; apply match_bounds in Hj; lia).
  assert (Hnil : forall i, slen sub = 0 -> 0 <= i <= slen s -> match_at s i sub).
  { intros i Hz Hi. rewrite (Hemp Hz). unfold match_at. change (slen []) with 0.
    rewrite sub_str_zero by lia. split_and!; [lia|lia|done]. }
  assert (Hf : slen sub <> 0 -> first_match s sub 0 (str_search s (slen s) sub (slen sub) 0)).
  { intros Hz. apply str_search_spec; [lia|]. intros ->. by apply Hz. }
  split_and!.
  - unfold beans_str_find. destruct (Z.eqb_spec (slen sub) 0) as [Hz|Hz].
    + split; [apply Hnil; lia|]. intros j Hj Hm. apply Hend in Hm. lia.
    + destruct (Hf Hz) as [[-> Hn]|(Hr & Hm & Hn)].
      * intros k Hk. apply (Hn k); [|done]. by apply Hend in Hk as [? _].
      * replace (0 <=? _) with true by lia. split; [done|]. intros j Hj Hk.
        apply (Hn j); [|done]. apply Hend in Hk. lia.
  - unfold beans_str_rfind. destruct (Z.eqb_spec (slen sub) 0) as [Hz|Hz].
    + split; [apply Hnil; lia|]. intros j Hj Hm. apply Hend in Hm. lia.
    + pose proof (rfind_loop_spec s sub (Z.to_nat (slen s - slen sub + 1))) as Hr.
      destruct (Z.lt_ge_cases (slen s) (slen sub)) as [Hlt|Hge].
      * replace (Z.to_nat _) with 0%nat by lia. cbn. intros k Hk. apply Hend in Hk. lia.
      * specialize (Hr ltac:(lia)). destruct (rfind_loop _ s sub) as [i|].
        -- destruct Hr as [H1 H2]. split; [done|]. intros j Hj Hm. apply (H2 j); [|done].
           apply Hend in Hm. lia.
        -- intros k Hk. apply (Hr k); [|done]. apply Hend in Hk. lia.
  - unfold beans_str_contains. destruct (Z.eqb_spec (slen sub) 0) as [Hz|Hz].
    + split; [|done]. intros _. exists 0. apply Hnil; lia.
    + rewrite Z.leb_le. destruct (Hf Hz) as [[-> Hn]|(Hr & Hm & Hn)].
      * split; [lia|]. intros [i Hi]. destruct (Hn i); [by apply Hend in Hi as [? _]|done].
      * split; [eauto|done].
  - apply starts_with_spec.
  - apply ends_with_spec.
Qed.

(** Splitting on a separator: the pieces joined by it are the string again,
    and no piece contains it; an empty separator gives the string itself. *)
Theorem str_split_join (s sep : str) :
  join sep (beans_str_split s sep) = s /\
  (sep <> [] -> Forall (free_of sep) (beans_str_split s sep)) /\
  (sep = [] -> beans_str_split s sep = [s]).
Proof.
  destruct (decide (sep = [])) as [->|Hne]; [done|].
  destruct (split_spec s sep Hne) as (_ & Hj & Hf). done.
Qed.

(** Replacement: the result is the pieces of [split] joined by the new text;
    its length is computed before it is written and is exactly right (no byte
    outside the allocation, none left over), and replacing a text by itself,
    or an empty text, changes nothing. *)
Theorem str_replace_correct (s old nw : str) :
  (old <> [] -> beans_str_replace s old nw = Some (join nw (beans_str_split s old))) /\
  beans_str_replace s old old = Some s /\ beans_str_replace s [] nw = Some s.
Proof.
  split; [apply replace_spec|]. split; [|done].
  destruct (decide (old = [])) as [->|Hne]; [done|].
  rewrite replace_spec by done. by destruct (split_spec s old Hne) as (_ & -> & _).
Qed.

(** Lines: no line holds a newline, and the lines each followed by one are
    the string, with a final newline added when a last line lacks it. *)
Theorem str_lines_correct (s : str) :
  let text := concat ((fun l => l ++ [10]) <$> beans_str_lines s) in
  Forall (fun l => (10 : Z) ∉ l) (beans_str_lines s) /\
  text = (if decide (s = [] \/ last s = Some 10) then s else s ++ [10]).
Proof.
  destruct (lines_spec s) as [Hf Hc]. split; [done|].
  destruct Hc as [Hc|(Hc & Hne & Hl)].
  - cbv zeta. rewrite Hc. case_decide as Hd; [done|]. exfalso. apply Hd.
    rewrite <-Hc. set (ls := beans_str_lines s).
    destruct ls as [|x ls] using rev_ind; [by left|right].
    rewrite fmap_app, concat_app. cbn [fmap list_fmap concat]. rewrite app_nil_r, app_assoc. apply last_snoc.
  - cbv zeta. rewrite Hc. case_decide as Hd; [|done]. by destruct Hd.
Qed.

(** Trimming removes exactly the blanks at the ends it is asked to, and case
    conversion changes ASCII letters only, byte for byte, once. *)
Theorem str_trim_case_correct (s : str) :
  trimmed true true s (beans_str_trim s) /\ trimmed true false s (beans_str_trim_start s) /\
  trimmed false true s (beans_str_trim_end s) /\
  beans_str_to_upper (beans_str_to_upper s) = beans_str_to_upper s /\
  beans_str_to_upper (beans_str_to_lower s) = beans_str_to_upper s /\
  beans_str_to_lower (beans_str_to_upper s) = beans_str_to_lower s /\
  slen (beans_str_to_upper s) = slen s.
Proof.
  pose proof (trim_spec s) as (H1 & H2 & H3). split; [done|]. split; [done|]. split; [done|].
  unfold beans_str_to_upper, beans_str_to_lower.
  rewrite <-!list_fmap_compose. split_and!.
  - apply list_fmap_ext. intros _ c _. unfold compose, upper_byte. split_tests; bools; lia.
  - apply list_fmap_ext. intros _ c _. unfold compose, upper_byte, lower_byte. split_tests; bools; lia.
  - apply list_fmap_ext. intros _ c _. unfold compose, upper_byte, lower_byte. split_tests; bools; lia.
  - unfold slen. by rewrite length_fmap.
Qed.

(** [beans_str_cmp] is the lexicographic order of the bytes, a proper prefix
    first: zero exactly on equal strings, antisymmetric and transitive. *)
Theorem str_cmp_order (a b c : str) :
  beans_str_cmp a b = lex a b /\ (beans_str_cmp a b = 0 <-> a = b) /\
  beans_str_cmp b a = - beans_str_cmp a b /\
  (beans_str_cmp a b < 0 -> beans_str_cmp b c < 0 -> beans_str_cmp a c < 0) /\
  (b <> [] -> beans_str_cmp a (a ++ b) < 0).
Proof.
  rewrite !str_cmp_lex. split; [done|]. split; [apply lex_eq|]. split; [apply lex_swap|].
  split; [apply lex_trans|apply lex_prefix].
Qed.

Lemma str_cmp_order_witness : beans_str_cmp (lit "ab") (lit "abc") < 0.
Proof. apply (str_cmp_order (lit "ab") (lit "c") []). done. Defined.

(** Slices, bytes and ranges: inside the bounds the bytes asked for, outside
    them a panic at the caller's position, never a read past the string. *)
Theorem str_slice_bounds (s other : str) (from to byte line col : Z) :
  let inside := 0 <= from <= to /\ to <= slen s in
  (inside ->
     beans_str_slice s from to line col = Ok (sub_str s from (to - from)) /\
     slen (sub_str s from (to - from)) = to - from /\
     (beans_str_range_equals s from to other line col = Ok true <->
        sub_str s from (to - from) = other)) /\
  (~ inside -> exists m1 m2,
     beans_str_slice s from to line col = Panic m1 line col /\
     beans_str_range_equals s from to other line col = Panic m2 line col) /\
  (if (0 <=? from) && (from <? slen s)
   then exists b, s !! Z.to_nat from = Some b /\ beans_str_byte_at s from line col = Ok b
   else exists m, beans_str_byte_at s from line col = Panic m line col) /\
  (if (0 <=? byte) && (byte <=? 255) && (0 <=? from) && (from <=? slen s)
   then exists r, beans_str_find_byte s byte from line col = Ok r /\
     ((r = -1 /\ forall j, from <= j -> s !! Z.to_nat j <> Some byte) \/
      (from <= r /\ s !! Z.to_nat r = Some byte /\
       forall j, from <= j < r -> s !! Z.to_nat j <> Some byte))
   else exists m, beans_str_find_byte s byte from line col = Panic m line col).
Proof.
  intros inside. split_and!.
  - intros [Hf Ht]. unfold beans_str_slice, beans_str_range_equals. cbv zeta.
    replace ((from <? 0) || (to <? from) || (slen s <? to)) with false by lia.
    pose proof (sub_str_len s from (to - from) ltac:(lia) ltac:(lia) ltac:(lia)) as Hl.
    split; [done|]. split; [done|]. apply range_equals_spec; lia.
  - intros Hn. unfold beans_str_slice, beans_str_range_equals. cbv zeta.
    replace ((from <? 0) || (to <? from) || (slen s <? to)) with true by (subst inside; lia).
    unfold fmt_panic. eauto.
  - unfold beans_str_byte_at. cbv zeta. destruct ((0 <=? from) && (from <? slen s)) eqn:Hb.
    + bools. replace ((from <? 0) || (slen s <=? from)) with false by lia.
      destruct (lookup_lt_is_Some_2 s (Z.to_nat from)) as [c Hc]; [unfold slen in *; lia|].
      exists c. unfold c_at. by rewrite Hc.
    + replace ((from <? 0) || (slen s <=? from)) with true by lia. unfold fmt_panic. eauto.
  - apply find_byte_spec.
Qed.

Lemma str_slice_bounds_witness :
  beans_str_slice (lit "hello") 1 3 4 5 = Ok (lit "el") /\
  exists m, beans_str_slice (lit "hello") 1 9 4 5 = Panic m 4 5.
Proof.
  split.
  - apply (str_slice_bounds (lit "hello") [] 1 3 0 4 5). split; [lia|]. vm_compute. done.
  - destruct (str_slice_bounds (lit "hello") [] 1 9 0 4 5) as (_ & H & _).
    destruct H as (m1 & m2 & H1 & _); [|exists m1; exact H1]. intros [_ H]. vm_compute in H. done.
Defined.

(** Characters: the pieces of [chars] are one to four bytes each and
    concatenate to the string, malformed or truncated sequences included, and
    [count_chars] of a range is the number of pieces of that range. *)
Theorem str_chars_correct (s : str) (from to line col : Z) :
  concat (beans_str_chars s) = s /\
  Forall (fun c => (1 <= length c <= 4)%nat) (beans_str_chars s) /\
  if (0 <=? from) && (from <=? to) && (to <=? slen s)
  then beans_str_count_chars s from to line col =
    Ok (Z.of_nat (length (beans_str_chars (sub_str s from (to - from)))))
  else exists m, beans_str_count_chars s from to line col = Panic m line col.
Proof.
  unfold beans_str_chars. destruct (chars_loop_spec (length s) s ltac:(lia)) as (H1 & H2 & _).
  split; [done|]. split; [done|]. unfold beans_str_count_chars. cbv zeta.
  destruct ((0 <=? from) && (from <=? to) && (to <=? slen s)) eqn:Hb.
  - bools. replace ((from <? 0) || (to <? from) || (slen s <? to)) with false by lia.
    destruct (chars_loop_spec (length (sub_str s from (to - from))) (sub_str s from (to - from)) ltac:(lia))
      as (_ & _ & Hcnt). by rewrite Hcnt.
  - replace ((from <? 0) || (to <? from) || (slen s <? to)) with true by lia. unfold fmt_panic. eauto.
Qed.

(** Repetition and concatenation: the copies one after the other, a panic on
    a negative count; the allocation is exact as long as the product of the
    lengths is a 64-bit integer, and too small as soon as it is not, because
    the product is not checked. *)
Theorem str_repeat_correct (s t : str) (n line col : Z) :
  beans_concat s t = Some (s ++ t) /\
  (n < 0 -> exists m, beans_str_repeat s n line col = Panic m line col) /\
  (0 <= n -> slen s * n < 2 ^ 63 ->
    beans_str_repeat s n line col = Ok (Some (concat (replicate (Z.to_nat n) s)))) /\
  (2 ^ 63 <= slen s * n -> 0 <= n -> beans_str_repeat s n line col = Ok None).
Proof.
  pose proof (slen_nonneg s).
  assert (Hlen : 0 <= n -> slen (concat (replicate (Z.to_nat n) s)) = slen s * n).
  { intros Hn. rewrite <-(Z2Nat.id n) at 2 by lia. induction (Z.to_nat n) as [|k IH]; [cbn; unfold slen; cbn; lia|].
    cbn [replicate concat]. rewrite slen_app, IH. lia. }
  split_and!.
  - unfold beans_concat. rewrite <-slen_app. apply filled_exact.
  - intros Hn. unfold beans_str_repeat. replace (n <? 0) with true by lia. unfold fmt_panic. eauto.
  - intros Hn Hl. unfold beans_str_repeat. replace (n <? 0) with false by lia. cbv zeta.
    rewrite i64_small by (unfold is_i64; nia). rewrite <-Hlen by lia. by rewrite filled_exact.
  - intros Hl Hn. unfold beans_str_repeat. replace (n <? 0) with false by lia. cbv zeta.
    unfold filled. rewrite Hlen by lia.
    by replace (slen s * n <=? i64 (slen s * n)) with false by (unfold i64; dlia).
Qed.

Lemma str_repeat_correct_witness :
  beans_str_repeat (lit "ab") 2 0 0 = Ok (Some (lit "abab")) /\
  beans_str_repeat (lit "abcd") (2 ^ 62) 0 0 = Ok None.
Proof.
  split.
  - apply (str_repeat_correct (lit "ab") [] 2 0 0); [lia|]. vm_compute. done.
  - apply (str_repeat_correct (lit "abcd") [] (2 ^ 62) 0 0); [|lia].
    change (slen (lit "abcd")) with 4. lia.
Defined.
