(* ===== verification/Slots.v ===== *)
(** * Slots: order, equality and hashing of container elements

    [runtime/beans_rt.c], "list search helpers": [slot_cmp], [slot_eq] and
    [slot_hash] dispatch on a kind code over 8-byte slots.  A slot of kind 2, 3
    or 7 is a pointer: what it points to is read through the [heap] functions.
    Lists, sorts and maps use these only through the interfaces [SlotOrder]
    and [KeyOps] at the end of the file. *)

From S2P Require Import Prelude Digits U128 Wide Decimal Hash Text Str.
From S2P Require Import DecMath DecimalProofs DecimalDiv StrProofs.

Open Scope c_scope.

(** ** The code *)

Definition rt_f64_total_key (raw : Z) : Z :=
  let bits := u64 raw in
  let flip := 0 -! (bits >>! 63) in
  i64 (bits ^! (flip &! 0x7fffffffffffffff)).

(** Signed reading of a 32-bit word. *)
Definition i32 (x : Z) : Z := (x + 2 ^ 31) mod 2 ^ 32 - 2 ^ 31.

Definition rt_f32_total_key (bits : Z) : Z :=
  let bits := u32 bits in
  let flip := u32 (0 - (bits >>! 31)) in
  i32 (bits ^! (flip &! 0x7fffffff)).

(** What pointers in slots lead to: a string, a boxed decimal, an enum tag. *)
Record heap : Type := mkHeap {
  str_at : Z -> str;
  dec_at_slot : Z -> BDec;
  tag_at : Z -> Z
}.

(** [x < y ? -1 : x > y ? 1 : 0]. *)
Definition order3 (x y : Z) : Z := if x <? y then -1 else if y <? x then 1 else 0.

Definition slot_cmp (h : heap) (a b kind : Z) : result Z :=
  if kind =? 0 then Ok (order3 a b)
  else if kind =? 1 then Ok (order3 (rt_f64_total_key a) (rt_f64_total_key b))
  else if kind =? 2 then Ok (beans_str_cmp (str_at h a) (str_at h b))
  else if kind =? 3 then beans_dec_cmp (dec_at_slot h a) (dec_at_slot h b)
  else if kind =? 4 then Ok 0
  else if kind =? 5 then Ok (order3 (u64 a) (u64 b))
  else if kind =? 6 then Ok (order3 (rt_f32_total_key a) (rt_f32_total_key b))
  else if kind =? 7 then Ok (order3 (tag_at h a) (tag_at h b))
  else Panic (lit "order kind unknown to this runtime: the compiler and runtime are out of step") 0 0.

Definition beans_str_eq (a b : str) : bool :=
  let n := slen a in (n =? slen b) && (memcmp (sub_str a 0 n) (sub_str b 0 n) =? 0).

(** [eq] is the compiler's structural equality, used by kind 4. *)
Definition slot_eq (h : heap) (eq : Z -> Z -> Z) (a b kind : Z) : result bool :=
  if kind =? 0 then Ok (a =? b)
  else if kind =? 1 then Ok (a =? b)
  else if kind =? 2 then Ok (beans_str_eq (str_at h a) (str_at h b))
  else if kind =? 3 then c ← beans_dec_cmp (dec_at_slot h a) (dec_at_slot h b); Ok (c =? 0)
  else if kind =? 4 then Ok (negb (eq a b =? 0))
  else if kind =? 6 then Ok (u32 a =? u32 b)
  else Ok false.

(** [hf] is the compiler's structural hash, used by kind 4. *)
Definition slot_hash (h : heap) (hf : Z -> Z) (v kind : Z) : Z :=
  if kind =? 1 then u64 (beans_f64_hash v)
  else if kind =? 2 then u64 (beans_str_hash (str_at h v))
  else if kind =? 3 then u64 (beans_dec_hash (dec_at_slot h v))
  else if kind =? 4 then u64 (hf v)
  else if kind =? 6 then u64 (beans_f32_hash v)
  else beans_mix64 (u64 v).

(** ** Interfaces

    What a sort needs of a comparison, on the slots of a list: it never fails
    and is a total preorder. *)
Class SlotOrder {A : Type} (valid : A -> Prop) (less : A -> A -> bool) : Prop := {
  less_irrefl x : valid x -> less x x = false;
  less_trans x y z : valid x -> valid y -> valid z -> less x y = true -> less y z = true -> less x z = true;
  less_cotrans x y z : valid x -> valid y -> valid z -> less x y = false -> less y z = false -> less x z = false
}.

(** What a map needs of its keys: an equality that is symmetric and transitive
    on valid keys (reflexive except for the never-equal kind) and a 64-bit
    hash that respects it. *)
Class KeyOps (valid : Z -> Prop) (keq : Z -> Z -> bool) (khash : Z -> Z) : Prop := {
  keq_sym x y : valid x -> valid y -> keq x y = keq y x;
  keq_trans x y z : valid x -> valid y -> valid z -> keq x y = true -> keq y z = true -> keq x z = true;
  khash_range x : is_u64 (khash x);
  khash_keq x y : valid x -> valid y -> keq x y = true -> khash x = khash y
}.

(** ** The slots of each kind satisfy them *)

(** A slot of a kind holds a 64-bit word and, for decimals, a well-formed one. *)
Definition slot_valid (h : heap) (kind v : Z) : Prop :=
  is_i64 v /\ (kind = 3 -> dec_wf (dec_at_slot h v)).

Definition slot_less (h : heap) (kind a b : Z) : bool :=
  match slot_cmp h a b kind with Ok c => c <? 0 | Panic _ _ _ => false end.

Definition slot_same (h : heap) (eq : Z -> Z -> Z) (kind a b : Z) : bool :=
  match slot_eq h eq a b kind with Ok c => c | Panic _ _ _ => false end.

Lemma order3_spec x y : order3 x y = match Z.compare x y with Lt => -1 | Eq => 0 | Gt => 1 end.
Proof.
  unfold order3. destruct (Z.compare_spec x y) as [->|H|H].
  - by rewrite Z.ltb_irrefl.
  - by rewrite (proj2 (Z.ltb_lt _ _) H).
  - rewrite (proj2 (Z.ltb_ge _ _)) by lia. by rewrite (proj2 (Z.ltb_lt _ _) H).
Qed.

Lemma order3_lt x y : (order3 x y <? 0) = (x <? y).
Proof. unfold order3. destruct (Z.ltb_spec x y), (Z.ltb_spec y x); done || lia. Qed.

Lemma dec_diff_trans a b c :
  dec_wf a -> dec_wf b -> dec_wf c ->
  dec_diff a b <= 0 -> dec_diff b c <= 0 -> dec_diff a c <= 0 /\ (dec_diff a b < 0 \/ dec_diff b c < 0 -> dec_diff a c < 0).
Proof.
  intros Ha Hb Hc. pose proof (dec_wf_scale a Ha). pose proof (dec_wf_scale b Hb).
  pose proof (dec_wf_scale c Hc). unfold dec_diff.
  pose proof (pow10_pos (d_s a) ltac:(lia)). pose proof (pow10_pos (d_s b) ltac:(lia)).
  pose proof (pow10_pos (d_s c) ltac:(lia)).
  set (x := 10 ^ d_s a) in *. set (y := 10 ^ d_s b) in *. set (z := 10 ^ d_s c) in *.
  set (ca := dec_coeff a). set (cb := dec_coeff b). set (cc := dec_coeff c). intros Hab Hbc.
  assert (Hsum : y * (ca * z - cc * x) = z * (ca * y - cb * x) + x * (cb * z - cc * y)) by ring.
  split; nia.
Qed.

Lemma dec_diff_swap a b : dec_diff b a = - dec_diff a b.
Proof. unfold dec_diff. lia. Qed.

Lemma dec_diff_zero_trans a b c :
  dec_wf a -> dec_wf b -> dec_wf c -> dec_diff a b = 0 -> dec_diff b c = 0 -> dec_diff a c = 0.
Proof.
  intros Ha Hb Hc Hab Hbc. pose proof (dec_diff_trans a b c Ha Hb Hc).
  pose proof (dec_diff_trans c b a Hc Hb Ha) as H'.
  rewrite (dec_diff_swap b c), (dec_diff_swap a b), (dec_diff_swap a c) in H'. lia.
Qed.

(** On valid slots of a known kind the comparison does not fail. *)
Lemma slot_cmp_ok h kind a b :
  0 <= kind <= 7 -> slot_valid h kind a -> slot_valid h kind b ->
  exists c, slot_cmp h a b kind = Ok c.
Proof.
  intros Hk [_ Ha] [_ Hb]. unfold slot_cmp.
  destruct (Z.eqb_spec kind 3) as [->|Hne].
  { cbn. rewrite dec_cmp_spec by auto. by eexists. }
  repeat (case_match; [by eexists|]). bools. lia.
Qed.

(** The integer kinds compare by a key. *)
Definition slot_key (h : heap) (kind v : Z) : Z :=
  if kind =? 0 then v
  else if kind =? 1 then rt_f64_total_key v
  else if kind =? 5 then u64 v
  else if kind =? 6 then rt_f32_total_key v
  else if kind =? 7 then tag_at h v
  else 0.

Lemma slot_less_key h kind a b :
  kind <> 2 -> kind <> 3 -> slot_less h kind a b = (slot_key h kind a <? slot_key h kind b).
Proof.
  intros H2 H3. unfold slot_less, slot_cmp, slot_key.
  destruct (Z.eqb_spec kind 0); [apply order3_lt|]. destruct (Z.eqb_spec kind 1); [apply order3_lt|].
  rewrite (proj2 (Z.eqb_neq kind 2)), (proj2 (Z.eqb_neq kind 3)) by done.
  destruct (Z.eqb_spec kind 4) as [->|]; [done|].
  destruct (Z.eqb_spec kind 5); [apply order3_lt|]. destruct (Z.eqb_spec kind 6); [apply order3_lt|].
  destruct (Z.eqb_spec kind 7); [apply order3_lt|done].
Qed.

Lemma slot_less_str h a b : slot_less h 2 a b = (lex (str_at h a) (str_at h b) <? 0).
Proof. unfold slot_less. cbn -[beans_str_cmp]. by rewrite str_cmp_lex. Qed.

Lemma slot_less_dec h a b :
  slot_valid h 3 a -> slot_valid h 3 b ->
  slot_less h 3 a b = (dec_diff (dec_at_slot h a) (dec_at_slot h b) <? 0).
Proof.
  intros [_ Ha] [_ Hb]. unfold slot_less. cbn -[beans_dec_cmp]. rewrite dec_cmp_spec by auto. lia.
Qed.

Lemma lex_le_trans a b c : lex a b <= 0 -> lex b c <= 0 -> lex a c <= 0.
Proof.
  intros H1 H2. destruct (Z.eq_dec (lex a b) 0) as [He|]; [by apply lex_eq in He as ->|].
  destruct (Z.eq_dec (lex b c) 0) as [He|]; [apply lex_eq in He as ->; lia|].
  pose proof (lex_trans a b c). lia.
Qed.

#[export] Instance slot_order (h : heap) (kind : Z) :
  SlotOrder (slot_valid h kind) (slot_less h kind).
Proof.
  destruct (Z.eq_dec kind 2) as [->|H2]; [|destruct (Z.eq_dec kind 3) as [->|H3]].
  - split; intros *; rewrite ?slot_less_str.
    + intros _. by rewrite (proj2 (lex_eq _ _) eq_refl).
    + rewrite !Z.ltb_lt. intros _ _ _. apply lex_trans.
    + rewrite !Z.ltb_ge. intros _ _ _ Hxy Hyz.
      rewrite lex_swap in Hxy, Hyz |- *. pose proof (lex_le_trans (str_at h z) (str_at h y) (str_at h x)). lia.
  - split; intros *; intros Hx *.
    + rewrite slot_less_dec by done. unfold dec_diff. lia.
    + intros Hy Hz. rewrite !slot_less_dec, !Z.ltb_lt by done.
      destruct Hx as [_ Hx], Hy as [_ Hy], Hz as [_ Hz]. intros Hab Hbc.
      apply (dec_diff_trans _ (dec_at_slot h y)); auto; lia.
    + intros Hy Hz. rewrite !slot_less_dec, !Z.ltb_ge by done.
      destruct Hx as [_ Hx], Hy as [_ Hy], Hz as [_ Hz]. intros Hab Hbc.
      rewrite dec_diff_swap in Hab, Hbc |- *.
      destruct (dec_diff_trans (dec_at_slot h z) (dec_at_slot h y) (dec_at_slot h x)); auto; lia.
  - split; intros *; rewrite ?slot_less_key by done; lia.
Qed.

(** Equality and hash agree for every kind; the structural pair of kind 4 is
    the compiler's, so its laws are hypotheses. *)
Section key_kinds.
Context (h : heap) (eq : Z -> Z -> Z) (hf : Z -> Z).
Context (Heq_sym : forall x y, negb (eq x y =? 0) = negb (eq y x =? 0)).
Context (Heq_trans : forall x y z, eq x y <> 0 -> eq y z <> 0 -> eq x z <> 0).
Context (Heq_hash : forall x y, eq x y <> 0 -> u64 (hf x) = u64 (hf y)).

Lemma str_eq_spec a b : beans_str_eq a b = bool_decide (a = b).
Proof.
  unfold beans_str_eq. cbv zeta. destruct (Z.eqb_spec (slen a) (slen b)) as [He|Hne]; cbn [andb].
  - rewrite He at 2. rewrite !sub_str_all. apply memcmp_eq. unfold slen in He. lia.
  - symmetry. apply bool_decide_eq_false_2. congruence.
Qed.

Lemma slot_same_dec a b :
  slot_valid h 3 a -> slot_valid h 3 b ->
  slot_same h eq 3 a b = (dec_diff (dec_at_slot h a) (dec_at_slot h b) =? 0).
Proof.
  intros [_ Ha] [_ Hb]. unfold slot_same. cbn -[beans_dec_cmp]. rewrite dec_cmp_spec by auto. cbn.
  lia.
Qed.

Lemma slot_hash_range v kind : is_u64 (slot_hash h hf v kind).
Proof.
  unfold slot_hash. repeat case_match; try apply u64_is. apply mix64_range. apply u64_is.
Qed.

#[export] Instance slot_key_ops (kind : Z) :
  KeyOps (slot_valid h kind) (slot_same h eq kind) (fun v => slot_hash h hf v kind).
Proof.
  destruct (Z.eq_dec kind 3) as [->|H3].
  { split; [| |intros; apply slot_hash_range|]; intros *; intros Hx Hy.
    - rewrite !slot_same_dec by done.
      rewrite (dec_diff_swap (dec_at_slot h y) (dec_at_slot h x)). lia.
    - intros Hz. rewrite !slot_same_dec, !Z.eqb_eq by done.
      destruct Hx as [_ Hx], Hy as [_ Hy], Hz as [_ Hz]. intros Hab Hbc.
      by apply (dec_diff_zero_trans _ (dec_at_slot h y)); auto.
    - rewrite slot_same_dec, Z.eqb_eq by done. intros He. unfold slot_hash. cbn -[beans_dec_hash].
      destruct Hx as [_ Hx], Hy as [_ Hy]. by rewrite (dec_hash_spec _ (dec_at_slot h y)) by auto. }
  assert (Hs : forall x y, slot_same h eq kind x y =
    if (kind =? 0) || (kind =? 1) then x =? y
    else if kind =? 2 then bool_decide (str_at h x = str_at h y)
    else if kind =? 4 then negb (eq x y =? 0)
    else if kind =? 6 then u32 x =? u32 y else false).
  { intros x y. unfold slot_same, slot_eq. rewrite (proj2 (Z.eqb_neq kind 3)) by done.
    destruct (kind =? 0), (kind =? 1), (kind =? 2); try done; [by rewrite str_eq_spec|].
    by destruct (kind =? 4), (kind =? 6). }
  split; [| |intros; apply slot_hash_range|]; intros *; intros _ _; [|intros _|]; rewrite !Hs.
  - repeat case_match; try done; [apply Z.eqb_sym| |apply Z.eqb_sym].
    apply bool_decide_ext. split; congruence.
  - repeat case_match; try done; rewrite ?bool_decide_eq_true, ?negb_true_iff, ?Z.eqb_neq, ?Z.eqb_eq;
      first [congruence|apply Heq_trans].
  - intros He. cut (x = y \/ slot_hash h hf x kind = slot_hash h hf y kind); [intros [->|]; done|].
    revert He. unfold slot_hash. rewrite (proj2 (Z.eqb_neq kind 3)) by done.
    destruct (Z.eqb_spec kind 0) as [->|]; cbn [orb]; [rewrite Z.eqb_eq; by left|].
    destruct (Z.eqb_spec kind 1) as [->|]; [rewrite Z.eqb_eq; by left|].
    destruct (Z.eqb_spec kind 2) as [->|]; [rewrite bool_decide_eq_true; intros ->; by right|].
    destruct (Z.eqb_spec kind 4) as [->|].
    { rewrite negb_true_iff, Z.eqb_neq. intros He. right. by apply Heq_hash. }
    destruct (Z.eqb_spec kind 6) as [->|]; [|done].
    rewrite Z.eqb_eq. intros He. right. unfold beans_f32_hash. by rewrite He.
Qed.

End key_kinds.
