(* ===== verification/Mem.v ===== *)
(** * Mem: byte memory and the allocator interface

    Blocks are byte lists.  [sub_str] reads a range ([memcpy] out), [mem_set]
    writes one ([memcpy] in, [memmove]).  [rt_load_le] and [rt_store_le] are the
    runtime's little-endian codecs ([runtime/beans_rt.c], top).  The host
    allocator is the parameter [rt_alloc]: a block of the size asked for with
    any contents, or a refusal. *)

From S2P Require Import Prelude.

Open Scope c_scope.

(** ** Ranges of a block *)

Definition mem_set (m : str) (off : Z) (bs : str) : str :=
  take (Z.to_nat off) m ++ bs ++ drop (Z.to_nat off + length bs) m.

Definition mem_zero (n : Z) : str := replicate (Z.to_nat n) 0.

Lemma mem_set_at a b b' c : slen b = slen b' -> mem_set (a ++ b ++ c) (slen a) b' = a ++ b' ++ c.
Proof.
  unfold mem_set, slen. intros He. rewrite Nat2Z.id, take_app_length. f_equal. f_equal.
  rewrite app_assoc, <-(length_app a b').
  replace (length (a ++ b')) with (length (a ++ b)) by (rewrite !length_app; lia).
  apply drop_app_length.
Qed.

Lemma mem_set_len m off bs :
  0 <= off -> off + slen bs <= slen m -> slen (mem_set m off bs) = slen m.
Proof.
  unfold mem_set, slen. intros. rewrite !length_app, length_take, length_drop. lia.
Qed.

Lemma mem_split m n : 0 <= n <= slen m -> exists a b, m = a ++ b /\ slen a = n.
Proof.
  unfold slen. intros. exists (take (Z.to_nat n) m), (drop (Z.to_nat n) m).
  rewrite take_drop, length_take. split; [done|lia].
Qed.

Lemma sub_str_at a b c : sub_str (a ++ b ++ c) (slen a) (slen b) = b.
Proof. apply sub_str_mid. Qed.

Lemma sub_str_at0 b c : sub_str (b ++ c) 0 (slen b) = b.
Proof. exact (sub_str_mid [] b c). Qed.

Lemma mem_zero_len n : 0 <= n -> slen (mem_zero n) = n.
Proof. unfold mem_zero, slen. rewrite length_replicate. lia. Qed.

(** ** Little-endian words *)

Fixpoint load_le_loop (bs : str) (i value : Z) : Z :=
  match bs with
  | [] => value
  | b :: rest => load_le_loop rest (i + 1) (value |! (b <<! (i * 8)))
  end.

Definition rt_load_le (source : str) (width : Z) : Z :=
  load_le_loop (take (Z.to_nat width) source) 0 0.

Fixpoint store_le_loop (value i : Z) (n : nat) : str :=
  match n with
  | O => []
  | S n => u8 (value >>! (i * 8)) :: store_le_loop value (i + 1) n
  end.

(** The bytes stored at the destination. *)
Definition rt_store_le (value width : Z) : str := store_le_loop value 0 (Z.to_nat width).

(** The value of little-endian bytes. *)
Definition le (bs : str) : Z := foldr (fun b v => b + 2 ^ 8 * v) 0 bs.

Lemma le_range bs : bytes_ok bs -> 0 <= le bs < 2 ^ (8 * slen bs).
Proof.
  unfold slen. induction 1 as [|b bs Hb _ IH]; cbn [le foldr length]; [done|].
  fold (le bs). rewrite Nat2Z.inj_succ, Z.mul_succ_r, Z.pow_add_r by lia.
  unfold is_u8 in Hb. lia.
Qed.

Lemma load_le_loop_spec bs : forall i value,
  bytes_ok bs -> 0 <= i -> 8 * (i + slen bs) <= 64 -> 0 <= value < 2 ^ (8 * i) ->
  load_le_loop bs i value = value + 2 ^ (8 * i) * le bs.
Proof.
  induction bs as [|b bs IH]; intros i value Hbs Hi Hw Hv; cbn [load_le_loop le foldr]; [lia|].
  fold (le bs). inversion Hbs as [|? ? Hb Hbs']; subst. rewrite slen_cons in Hw.
  pose proof (slen_nonneg bs). pose proof (Z.pow_pos_nonneg 2 (8 * i) ltac:(lia) ltac:(lia)).
  assert (Hp : 2 ^ (8 * (i + 1)) = 2 ^ (8 * i) * 2 ^ 8) by (rewrite <-Z.pow_add_r by lia; f_equal; lia).
  assert (2 ^ (8 * (i + 1)) <= 2 ^ 64) by (apply Z.pow_le_mono_r; lia).
  assert (Hsh : u64 (Z.shiftl b (i * 8)) = b * 2 ^ (8 * i)).
  { rewrite shl_mul, (Z.mul_comm i 8) by lia. apply u64_small. unfold is_u8, is_u64 in *. nia. }
  rewrite Hsh, lor_add by lia. unfold is_u8 in Hb. rewrite IH by (done || lia || nia).
  rewrite Hp. ring.
Qed.

Lemma rt_load_le_spec bs w :
  bytes_ok bs -> 0 <= w <= 8 -> slen bs = w -> rt_load_le bs w = le bs.
Proof.
  intros Hbs Hw He. unfold rt_load_le. rewrite take_ge by (unfold slen in He; lia).
  rewrite load_le_loop_spec by (done || lia). lia.
Qed.

Lemma store_le_loop_spec n : forall value i,
  0 <= value -> 0 <= i -> bytes_ok (store_le_loop value i n) /\ length (store_le_loop value i n) = n /\
  le (store_le_loop value i n) = (value / 2 ^ (8 * i)) mod 2 ^ (8 * Z.of_nat n).
Proof.
  induction n as [|n IH]; intros value i Hv Hi; cbn [store_le_loop].
  { split; [constructor|split; [done|]]. cbn. by rewrite Z.mod_1_r. }
  destruct (IH value (i + 1) Hv ltac:(lia)) as (Hb & Hl & He). split; [|split].
  - constructor; [unfold is_u8, u8; dlia|done].
  - cbn. by rewrite Hl.
  - cbn [le foldr]. fold (le (store_le_loop value (i + 1) n)). rewrite He.
    rewrite shr_div, (Z.mul_comm i 8) by lia. unfold u8.
    replace (8 * (i + 1)) with (8 * i + 8) by lia.
    rewrite Z.pow_add_r, <-Z.div_div by lia.
    rewrite Nat2Z.inj_succ, Z.mul_succ_r, (Z.add_comm _ 8), Z.pow_add_r by lia.
    by rewrite Z.rem_mul_r by lia.
Qed.

Lemma rt_store_le_len value w : 0 <= value -> 0 <= w -> slen (rt_store_le value w) = w.
Proof.
  intros Hv Hw. unfold rt_store_le, slen.
  destruct (store_le_loop_spec (Z.to_nat w) value 0) as (_ & -> & _); lia.
Qed.

Lemma rt_store_le_bytes value w : 0 <= value -> bytes_ok (rt_store_le value w).
Proof. intros Hv. unfold rt_store_le. by apply store_le_loop_spec. Qed.

(** What was stored is what is loaded, cut to the width. *)
Lemma load_store_le value w :
  0 <= value -> 0 <= w <= 8 -> rt_load_le (rt_store_le value w) w = value mod 2 ^ (8 * w).
Proof.
  intros Hv Hw. rewrite rt_load_le_spec; [|by apply rt_store_le_bytes|done|apply rt_store_le_len; lia].
  unfold rt_store_le. destruct (store_le_loop_spec (Z.to_nat w) value 0) as (_ & _ & ->); [lia..|].
  rewrite Z2Nat.id by lia. by rewrite Z.div_1_r.
Qed.

Lemma le_inj a b : bytes_ok a -> bytes_ok b -> slen a = slen b -> le a = le b -> a = b.
Proof.
  intros Ha. revert b. induction Ha as [|x a Hx Ha IH]; intros [|y b] Hb Hl He; try done.
  inversion Hb as [|? ? Hy Hb']; subst. rewrite !slen_cons in Hl. cbn [le foldr] in He.
  fold (le a) (le b) in He. unfold is_u8 in *. f_equal; [lia|apply IH; [done|lia|lia]].
Qed.

(** ** The allocator *)

Class Alloc : Type := rt_alloc : Z -> option str.

(** A block has the size asked for, and no object is larger than [PTRDIFF_MAX]. *)
Class AllocLaws `{Alloc} : Prop := {
  rt_alloc_len n b : 0 <= n -> rt_alloc n = Some b -> slen b = n;
  rt_alloc_max n b : 0 <= n -> rt_alloc n = Some b -> n < 2 ^ 63
}.

Definition out_of_memory : str := lit "out of memory".

Section alloc.
Context `{Alloc}.

Definition rt_zalloc (n : Z) : option str := (fun _ => mem_zero n) <$> rt_alloc n.

Definition rt_big_alloc (n : Z) : option str := rt_alloc n.
Definition rt_big_zalloc (n : Z) : option str := rt_zalloc n.

(** The bytes that fit are kept, the tail is not initialised. *)
Definition rt_big_realloc (p : str) (old_bytes new_bytes : Z) : option str :=
  np ← rt_big_alloc new_bytes;
  let copy := if old_bytes <? new_bytes then old_bytes else new_bytes in
  Some (mem_set np 0 (sub_str p 0 copy)).

(** [beans_alloc]: the zeroed payload of a new object. *)
Definition beans_alloc (size : Z) : result str :=
  match rt_zalloc size with Some b => Ok b | None => Panic out_of_memory 0 0 end.

Context `{!AllocLaws}.

Lemma rt_zalloc_eq n b : rt_zalloc n = Some b -> b = mem_zero n.
Proof. unfold rt_zalloc. destruct (rt_alloc n); cbn; congruence. Qed.

Lemma rt_big_realloc_spec p old new b :
  slen p = old -> old <= new -> rt_big_realloc p old new = Some b ->
  exists tail, b = p ++ tail /\ slen b = new /\ new < 2 ^ 63.
Proof.
  intros Hp Hle. unfold rt_big_realloc, rt_big_alloc. pose proof (slen_nonneg p).
  destruct (rt_alloc new) as [np|] eqn:He; cbn -[Z.ltb sub_str mem_set]; [|done].
  pose proof (rt_alloc_max new np ltac:(lia) He) as Hmax. apply rt_alloc_len in He; [|lia].
  replace (sub_str p 0 (if old <? new then old else new)) with p.
  2:{ unfold sub_str. change (Z.to_nat 0) with 0%nat. rewrite drop_0, take_ge; [done|].
      unfold slen in *. case_match; lia. }
  destruct (mem_split np (slen p)) as (a & c & -> & Ha); [lia|]. intros [= <-].
  exists c. split.
  - pose proof (mem_set_at [] a p c Ha) as Hs. exact Hs.
  - rewrite mem_set_len; lia.
Qed.

End alloc.
