(* ===== verification/ListRt.v ===== *)
(** * ListRt: lists

    [runtime/beans_rt.c], the [BList] object: a backing buffer of [cap]
    elements of [stride] bytes, the first [len] of them live.  A negative
    stride marks the generic 8-byte slot representation.  Every operation of
    the "lists" sections is here, its panics included; the deinit code a
    release runs is the parameter [deinit].  The publication barriers
    ([beans_cc_write]) only mark objects for the collector and are left out. *)

From S2P Require Import Prelude Mem Text Slots.

Open Scope c_scope.

(** [l_inline]: the backing is the room behind the object's own header. *)
Record BList : Type := mkBList {
  l_data : str;
  l_len : Z;
  l_cap : Z;
  l_stride : Z;
  l_ptr_mask : Z;
  l_inline : bool;
  l_change_count : Z;
  l_change_kind : Z
}.

Definition set_data (l : BList) (d : str) : BList :=
  mkBList d (l_len l) (l_cap l) (l_stride l) (l_ptr_mask l) (l_inline l)
    (l_change_count l) (l_change_kind l).

Definition set_len (l : BList) (n : Z) : BList :=
  mkBList (l_data l) n (l_cap l) (l_stride l) (l_ptr_mask l) (l_inline l)
    (l_change_count l) (l_change_kind l).

(** A backing of its own, outside the object. *)
Definition set_backing (l : BList) (d : str) (cap : Z) : BList :=
  mkBList d (l_len l) cap (l_stride l) (l_ptr_mask l) false
    (l_change_count l) (l_change_kind l).

Definition list_stride (l : BList) : Z :=
  if l_stride l <? 0 then - l_stride l else if l_stride l =? 0 then 8 else l_stride l.

Definition LIST_CHANGE_PUSH : Z := 1.
Definition LIST_CHANGE_POP : Z := 2.
Definition LIST_CHANGE_INSERT : Z := 3.
Definition LIST_CHANGE_REMOVE : Z := 4.
Definition LIST_CHANGE_CLEAR : Z := 5.
Definition LIST_CHANGE_REVERSE : Z := 6.
Definition LIST_CHANGE_SORT : Z := 7.

Definition list_changed (l : BList) (what : Z) : BList :=
  mkBList (l_data l) (l_len l) (l_cap l) (l_stride l) (l_ptr_mask l) (l_inline l)
    (u32 (l_change_count l + 1)) what.

(** ** Owned pointers inside an element *)

Definition RT_MASK_SLOTS : Z := 58.

Definition rt_masked_child (value : str) (slot : Z) (i64_encoded : bool) : Z :=
  if i64_encoded then rt_load_le (sub_str value 0 8) 8
  else rt_load_le (sub_str value (slot * 8) 8) 8.

(** [for (slot = 0; slot < RT_MASK_SLOTS && (mask >> slot); slot++)], the
    pointers that are retained in order. *)
Fixpoint retain_slots (n : nat) (value : str) (mask slot : Z) (enc : bool) : list Z :=
  match n with
  | O => []
  | S n =>
      if mask >>! slot =? 0 then []
      else
        let rest := retain_slots n value mask (slot + 1) enc in
        if (mask >>! slot) &! 1 =? 0 then rest
        else
          let child := rt_masked_child value slot enc in
          if child =? 0 then rest else child :: rest
  end.

Definition list_retain_element (l : BList) (element : str) : list Z :=
  retain_slots (Z.to_nat RT_MASK_SLOTS) element (l_ptr_mask l) 0 (l_stride l <? 0).

Fixpoint mask_top_loop (fuel : nat) (m top : Z) : Z :=
  match fuel with
  | O => top
  | S fuel => if m =? 0 then top else mask_top_loop fuel (m >>! 1) (top + 1)
  end.

Definition rt_mask_top (ptr_mask : Z) : Z :=
  let top := mask_top_loop 64 (u64 ptr_mask) 0 in
  if RT_MASK_SLOTS <? top then RT_MASK_SLOTS else top.

Section lists.
Context `{Alloc}.

(** ** Backing and construction *)

Definition LIST_INLINE_MAX : Z := 128.

Definition list_backing_fits (capacity stride : Z) : bool :=
  capacity <=? Z.quot LIST_INLINE_MAX stride.

Definition list_backing_grow (l : BList) (new_cap stride line col : Z) : result BList :=
  let old_bytes := l_cap l *! stride in
  let new_bytes := new_cap *! stride in
  match (if l_inline l
         then fresh ← rt_big_alloc new_bytes;
              Some (if old_bytes =? 0 then fresh
                    else mem_set fresh 0 (sub_str (l_data l) 0 old_bytes))
         else rt_big_realloc (l_data l) old_bytes new_bytes) with
  | None => Panic out_of_memory line col
  | Some grown => Ok (set_backing l grown new_cap)
  end.

(** The backing of a list of [cap] elements: behind the header, zeroed with the
    object, when it fits; else its own block. *)
Definition list_make (cap stride byte_stride ptr_mask : Z) (block : Z -> option str)
    (line col : Z) : result BList :=
  let inline_backing := list_backing_fits cap byte_stride in
  room ← beans_alloc (48 + (if inline_backing then cap * byte_stride else 0));
  match (if inline_backing then Some (drop 48 room) else block (cap *! byte_stride)) with
  | None => Panic out_of_memory line col
  | Some data => Ok (mkBList data 0 cap stride ptr_mask inline_backing 0 0)
  end.

Definition beans_list_new_typed (stride ptr_mask : Z) : result BList :=
  if (stride <=? 0) || (2 ^ 30 <? stride) then Panic (lit "invalid list element size") 0 0
  else list_make 4 stride stride ptr_mask rt_big_zalloc 0 0.

Definition list_new_capacity (stride ptr_mask capacity line col : Z) : result BList :=
  let byte_stride := if stride <? 0 then - stride else stride in
  if (byte_stride <=? 0) || (2 ^ 30 <? byte_stride) then
    Panic (lit "invalid list element size") line col
  else
    let cap := if 4 <? capacity then capacity else 4 in
    list_make cap stride byte_stride ptr_mask rt_big_alloc line col.

Definition beans_list_new (elem_ptr : Z) : result BList :=
  l ← beans_list_new_typed 8 elem_ptr;
  Ok (mkBList (l_data l) (l_len l) (l_cap l) (-8) (l_ptr_mask l) (l_inline l)
        (l_change_count l) (l_change_kind l)).

Fixpoint reserve_loop (fuel : nat) (cap capacity : Z) : Z :=
  match fuel with
  | O => cap
  | S fuel =>
      if (cap <? capacity) && (cap <=? 2 ^ 60) then reserve_loop fuel (cap * 2) capacity
      else cap
  end.

Definition beans_list_reserve (l : BList) (capacity line col : Z) : result BList :=
  if capacity <? 0 then
    fmt_panic 64 "negative reserve capacity %lld" [capacity] line col
  else if 2 ^ 58 <? capacity then Panic (lit "reserve capacity too large") line col
  else if capacity <=? l_cap l then Ok l
  else
    let cap := reserve_loop 64 (l_cap l) capacity in
    let cap := if cap <? capacity then capacity else cap in
    list_backing_grow l cap (list_stride l) line col.

(** ** Changing elements *)

(** [if (l->len == l->cap) list_backing_grow(l, l->cap * 2, stride, line, col)]. *)
Definition list_room (l : BList) (stride line col : Z) : result BList :=
  if l_len l =? l_cap l then list_backing_grow l (l_cap l * 2) stride line col else Ok l.

Definition beans_list_push (l : BList) (v : Z) : result BList :=
  l ← list_room l (list_stride l) 0 0;
  let l := set_data l (mem_set (l_data l) (l_len l * 8) (rt_store_le (u64 v) 8)) in
  Ok (list_changed (set_len l (l_len l + 1)) LIST_CHANGE_PUSH).

Definition beans_list_push_typed (l : BList) (value : str) : result BList :=
  let stride := list_stride l in
  l ← list_room l stride 0 0;
  let l := set_data l (mem_set (l_data l) (l_len l * stride) (sub_str value 0 stride)) in
  Ok (list_changed (set_len l (l_len l + 1)) LIST_CHANGE_PUSH).

Definition insert_panic (l : BList) (i line col : Z) : result BList :=
  fmt_panic 96 "insert at %lld out of range (len %lld)" [i; l_len l] line col.

(** [memmove(d + to, d + from, n)]. *)
Definition memmove (d : str) (to from n : Z) : str := mem_set d to (sub_str d from n).

Definition beans_list_insert (l : BList) (i v line col : Z) : result BList :=
  if (i <? 0) || (l_len l <? i) then insert_panic l i line col
  else
    l ← list_room l 8 line col;
    let d := memmove (l_data l) ((i + 1) * 8) (i * 8) ((l_len l - i) * 8) in
    let d := mem_set d (i * 8) (rt_store_le (u64 v) 8) in
    Ok (list_changed (set_len (set_data l d) (l_len l + 1)) LIST_CHANGE_INSERT).

Definition beans_list_insert_typed (l : BList) (i : Z) (value : str) (line col : Z)
    : result BList :=
  if (i <? 0) || (l_len l <? i) then insert_panic l i line col
  else
    let stride := list_stride l in
    l ← list_room l stride line col;
    let at_ := i * stride in
    let d := memmove (l_data l) (at_ + stride) at_ ((l_len l - i) * stride) in
    let d := mem_set d at_ (sub_str value 0 stride) in
    Ok (list_changed (set_len (set_data l d) (l_len l + 1)) LIST_CHANGE_INSERT).

Definition beans_list_remove (l : BList) (i line col : Z) : result (Z * BList) :=
  if (i <? 0) || (l_len l <=? i) then
    fmt_panic 96 "list index %lld out of range (len %lld)" [i; l_len l] line col
  else
    let v := i64 (rt_load_le (sub_str (l_data l) (i * 8) 8) 8) in
    let d := memmove (l_data l) (i * 8) ((i + 1) * 8) ((l_len l - i - 1) * 8) in
    Ok (v, list_changed (set_len (set_data l d) (l_len l - 1)) LIST_CHANGE_REMOVE).

Definition beans_list_remove_typed (l : BList) (i line col : Z) : result (str * BList) :=
  if (i <? 0) || (l_len l <=? i) then
    fmt_panic 96 "list index %lld out of range (len %lld)" [i; l_len l] line col
  else
    let stride := list_stride l in
    let at_ := i * stride in
    let out := sub_str (l_data l) at_ stride in
    let d := memmove (l_data l) at_ (at_ + stride) ((l_len l - i - 1) * stride) in
    Ok (out, list_changed (set_len (set_data l d) (l_len l - 1)) LIST_CHANGE_REMOVE).

(** [for (i = 0, j = len - 1; i < j; i++, j--)], swapping [w] bytes. *)
Fixpoint reverse_loop (fuel : nat) (d : str) (w i j : Z) : str :=
  match fuel with
  | O => d
  | S fuel =>
      if i <? j then
        let a := sub_str d (i * w) w in
        let b := sub_str d (j * w) w in
        reverse_loop fuel (mem_set (mem_set d (i * w) b) (j * w) a) w (i + 1) (j - 1)
      else d
  end.

Definition beans_list_reverse (l : BList) : BList :=
  let l := if 1 <? l_len l then list_changed l LIST_CHANGE_REVERSE else l in
  let stride := list_stride l in
  set_data l (reverse_loop (Z.to_nat (l_len l)) (l_data l) stride 0 (l_len l - 1)).

(** ** Ranges and copies *)

Definition beans_list_slice_check (l : BList) (from to line col : Z) : result unit :=
  if (from <? 0) || (to <? from) || (l_len l <? to) then
    fmt_panic 96 "list slice %lld..%lld out of range (len %lld)" [from; to; l_len l] line col
  else Ok tt.

(** The children retained by the loop over the [n] first elements. *)
Definition retain_range (l : BList) (n stride : Z) : list Z :=
  concat ((fun i => list_retain_element l (sub_str (l_data l) (Z.of_nat i * stride) stride))
    <$> seq 0 (Z.to_nat n)).

(** A new list holding [n] elements' bytes, with the pointers it retains. *)
Definition list_copy (l : BList) (from n line col : Z) : result (BList * list Z) :=
  let stride := list_stride l in
  r ← list_new_capacity (if l_stride l =? 0 then 8 else l_stride l) (l_ptr_mask l) n line col;
  let r := set_len r n in
  let r := set_data r (mem_set (l_data r) 0 (sub_str (l_data l) (from * stride) (n * stride))) in
  Ok (r, if l_ptr_mask r =? 0 then [] else retain_range r n stride).

Definition beans_list_slice (l : BList) (from to line col : Z) : result (BList * list Z) :=
  _ ← beans_list_slice_check l from to line col;
  list_copy l from (to - from) line col.

Definition beans_list_clone (l : BList) : result (BList * list Z) :=
  list_copy l 0 (l_len l) 0 0.

Definition list_change_name (kind : Z) : str :=
  if kind =? LIST_CHANGE_PUSH then lit "push"
  else if kind =? LIST_CHANGE_POP then lit "pop"
  else if kind =? LIST_CHANGE_INSERT then lit "insert"
  else if kind =? LIST_CHANGE_REMOVE then lit "remove"
  else if kind =? LIST_CHANGE_CLEAR then lit "clear"
  else if kind =? LIST_CHANGE_REVERSE then lit "reverse"
  else if kind =? LIST_CHANGE_SORT then lit "sort"
  else lit "change".

Definition beans_list_iter_invalid {A} (l : BList) (was_len line col : Z) : result A :=
  let what := list_change_name (l_change_kind l) in
  let text :=
    if negb (l_len l =? was_len) then
      rt_vformat 112 (lit "list changed during iteration (%s, length %lld -> %lld)")
        [VaStr (Some what); VaI64 was_len; VaI64 (l_len l)]
    else
      rt_vformat 112 (lit "list changed during iteration (%s, length %lld)")
        [VaStr (Some what); VaI64 was_len] in
  Panic (default [] (fst <$> text)) line col.

End lists.

(** ** Clearing

    Dropping the last reference to a child runs its deinit: [deinit p l] is the
    list after the code that releasing [p] runs. *)
Section clear.
Context (deinit : Z -> BList -> BList).

(** [rt_masked_release_from] on the element at byte [off] of the list's own
    backing: slots are read back one at a time, last first. *)
Fixpoint masked_release_from (slot : nat) (off mask : Z) (enc : bool)
    (l : BList) (released : list Z) : BList * list Z :=
  match slot with
  | O => (l, released)
  | S s =>
      if (mask >>! Z.of_nat s) &! 1 =? 0 then masked_release_from s off mask enc l released
      else
        let child := rt_masked_child (drop (Z.to_nat off) (l_data l)) (Z.of_nat s) enc in
        if child =? 0 then masked_release_from s off mask enc l released
        else masked_release_from s off mask enc (deinit child l) (released ++ [child])
  end.

Definition list_release_element (l : BList) (off : Z) (released : list Z) : BList * list Z :=
  masked_release_from (Z.to_nat (rt_mask_top (l_ptr_mask l))) off (l_ptr_mask l)
    (l_stride l <? 0) l released.

(** [rt_list_clear_from]: [next] is the guard's cursor. *)
Fixpoint list_clear_from (next : nat) (stride : Z) (l : BList) (released : list Z)
    : BList * list Z :=
  match next with
  | O => (l, released)
  | S i =>
      if Z.of_nat i <? l_len l then (l, released)
      else
        let '(l, released) := list_release_element l (Z.of_nat i * stride) released in
        list_clear_from i stride l released
  end.

Definition beans_list_clear (l : BList) : BList * list Z :=
  let l := if l_len l =? 0 then l else list_changed l LIST_CHANGE_CLEAR in
  let n := l_len l in
  let l := set_len l 0 in
  if l_ptr_mask l =? 0 then (l, [])
  else list_clear_from (Z.to_nat n) (list_stride l) l [].

End clear.

(** ** Searching *)

Definition list_slot_at (l : BList) (i : Z) : Z :=
  if l_stride l =? 4 then rt_load_le (sub_str (l_data l) (i * 4) 4) 4
  else i64 (rt_load_le (sub_str (l_data l) (i * 8) 8) 8).

(** Every slot of the list, read in order. *)
Definition list_slots (l : BList) : list Z :=
  (fun i => list_slot_at l (Z.of_nat i)) <$> seq 0 (Z.to_nat (l_len l)).

Section search.
Context (h : heap) (eq : Z -> Z -> Z).

(** [for (i = 1; ...) if (better(slot_cmp(v, best))) best = v], over the slots
    still to read. *)
Fixpoint best_loop (better : Z -> bool) (rest : list Z) (best kind : Z) : result Z :=
  match rest with
  | [] => Ok best
  | v :: rest =>
      c ← slot_cmp h v best kind;
      best_loop better rest (if better c then v else best) kind
  end.

(** The value, and [*ok]. *)
Definition beans_list_max (l : BList) (kind : Z) : result (option Z) :=
  match list_slots l with
  | [] => Ok None
  | first :: rest => Some <$> best_loop (fun c => 0 <? c) rest first kind
  end.

Definition beans_list_min (l : BList) (kind : Z) : result (option Z) :=
  match list_slots l with
  | [] => Ok None
  | first :: rest => Some <$> best_loop (fun c => c <? 0) rest first kind
  end.

Fixpoint contains_loop (slots : list Z) (v kind : Z) : result bool :=
  match slots with
  | [] => Ok false
  | x :: rest => slot_eq h eq x v kind ≫= fun same : bool => if same then Ok true else contains_loop rest v kind
  end.

Definition beans_list_contains (l : BList) (v kind : Z) : result bool :=
  contains_loop (list_slots l) v kind.

Fixpoint index_loop (slots : list Z) (i v kind : Z) : result (option Z) :=
  match slots with
  | [] => Ok None
  | x :: rest =>
      slot_eq h eq x v kind ≫= fun same : bool =>
      if same then Ok (Some i) else index_loop rest (i + 1) v kind
  end.

Definition beans_list_index (l : BList) (v kind : Z) : result (option Z) :=
  index_loop (list_slots l) 0 v kind.

Fixpoint equal_loop (a b : list Z) (kind : Z) : result bool :=
  match a, b with
  | x :: a, y :: b =>
      slot_eq h eq x y kind ≫= fun same : bool => if same then equal_loop a b kind else Ok false
  | _, _ => Ok true
  end.

(** [pa], [pb] are the two pointers. *)
Definition beans_list_equal (pa pb : Z) (a b : BList) (kind : Z) : result bool :=
  if pa =? pb then Ok true
  else if (pa =? 0) || (pb =? 0) then Ok false
  else if negb (l_len a =? l_len b) then Ok false
  else equal_loop (list_slots a) (list_slots b) kind.

(** [same] compares two elements by address, here by their bytes. *)
Fixpoint val_equal_loop (same : str -> str -> Z) (n : nat) (i stride : Z) (a b : str) : bool :=
  match n with
  | O => true
  | S n =>
      if same (sub_str a (i * stride) stride) (sub_str b (i * stride) stride) =? 0 then false
      else val_equal_loop same n (i + 1) stride a b
  end.

Definition beans_list_val_equal (same : str -> str -> Z) (pa pb : Z) (a b : BList) : bool :=
  if pa =? pb then true
  else if (pa =? 0) || (pb =? 0) then false
  else if negb (l_len a =? l_len b) then false
  else
    let stride := list_stride a in
    if negb (list_stride b =? stride) then false
    else val_equal_loop same (Z.to_nat (l_len a)) 0 stride (l_data a) (l_data b).

End search.
