(* ===== verification/ListRtProofs.v ===== *)
(** * ListRtProofs: the list operations against sequences of elements

    [rep l es]: the backing of [l] holds exactly the elements [es], in order,
    each of the list's stride.  Every operation of [ListRt] takes a
    representation to the representation of the result. *)

From S2P Require Import Prelude Mem Text Str StrProofs Slots ListRt.

Open Scope c_scope.

Record rep (l : BList) (es : list str) : Prop := {
  rep_len : l_len l = Z.of_nat (length es);
  rep_wide : Forall (fun e => slen e = list_stride l) es;
  rep_data : exists rest, l_data l = concat es ++ rest;
  rep_size : slen (l_data l) = l_cap l * list_stride l;
  rep_cap : 1 <= l_cap l;
  rep_stride : 1 <= list_stride l <= 2 ^ 30;
  rep_max : l_cap l * list_stride l < 2 ^ 63
}.

(** ** Sequences of equally wide elements *)

Lemma concat_len w (es : list str) :
  Forall (fun e => slen e = w) es -> slen (concat es) = Z.of_nat (length es) * w.
Proof.
  induction 1 as [|e es He _ IH]; [done|]. cbn [concat length]. rewrite slen_app, IH, He. lia.
Qed.

Lemma concat_at w (es : list str) i e :
  Forall (fun e => slen e = w) es -> es !! i = Some e ->
  exists a b, es = a ++ e :: b /\ length a = i /\ slen (concat a) = Z.of_nat i * w /\ slen e = w.
Proof.
  intros Hw Hi. pose proof (list_elem_of_split_length _ _ _ Hi) as (a & b & -> & Hl).
  exists a, b. apply Forall_app in Hw as [Ha Hw]. inversion Hw; subst.
  repeat split; auto. by apply concat_len.
Qed.

Lemma concat_cut w (es : list str) i :
  Forall (fun e => slen e = w) es -> (i <= length es)%nat ->
  concat es = concat (take i es) ++ concat (drop i es) /\
  slen (concat (take i es)) = Z.of_nat i * w /\
  slen (concat (drop i es)) = Z.of_nat (length es - i) * w.
Proof.
  intros Hw Hi. split; [by rewrite <-concat_app, take_drop|].
  rewrite !(concat_len w) by (by apply Forall_take || by apply Forall_drop).
  rewrite length_take, length_drop. split; f_equal; lia.
Qed.

Lemma rep_bound l es : rep l es -> l_len l <= l_cap l.
Proof.
  intros R. destruct (rep_data _ _ R) as [rest Hd]. pose proof (rep_size _ _ R) as Hs.
  rewrite Hd, slen_app, (concat_len _ _ (rep_wide _ _ R)), <-(rep_len _ _ R) in Hs.
  pose proof (slen_nonneg rest). pose proof (rep_stride _ _ R). nia.
Qed.

(** The elements are determined by the list. *)
Lemma rep_elem l es i e :
  rep l es -> es !! i = Some e ->
  sub_str (l_data l) (Z.of_nat i * list_stride l) (list_stride l) = e.
Proof.
  intros R Hi. destruct (rep_data _ _ R) as [rest ->].
  destruct (concat_at _ _ _ _ (rep_wide _ _ R) Hi) as (a & b & -> & _ & Ha & He).
  rewrite concat_app. cbn [concat]. rewrite <-!app_assoc, <-Ha, <-He. apply sub_str_at.
Qed.

(** The first [n] elements' bytes. *)
Lemma rep_range l es i n :
  rep l es -> (i + n <= length es)%nat ->
  sub_str (l_data l) (Z.of_nat i * list_stride l) (Z.of_nat n * list_stride l) =
    concat (take n (drop i es)).
Proof.
  intros R Hi. destruct (rep_data _ _ R) as [rest ->]. pose proof (rep_wide _ _ R) as Hw.
  destruct (concat_cut _ es i Hw) as (-> & Ha & _); [lia|].
  destruct (concat_cut _ (drop i es) n (Forall_drop _ _ _ Hw)) as (-> & Hn & _);
    [rewrite length_drop; lia|].
  rewrite <-Ha, <-Hn, <-!app_assoc. apply sub_str_at.
Qed.

(** What a change of the bytes must keep. *)
Lemma rep_set l es es' d n what :
  rep l es -> n = Z.of_nat (length es') -> Forall (fun e => slen e = list_stride l) es' ->
  (exists rest, d = concat es' ++ rest) -> slen d = slen (l_data l) ->
  rep (list_changed (set_len (set_data l d) n) what) es'.
Proof.
  intros [] Hn Hw Hd Hs. split; unfold list_stride in *; cbn; try done. congruence.
Qed.

Section lists.
Context `{AllocLaws}.

(** ** Growth *)

(** Same header, another backing. *)
Definition same_header (l l' : BList) : Prop :=
  l_len l' = l_len l /\ l_stride l' = l_stride l /\ l_ptr_mask l' = l_ptr_mask l /\
  l_change_count l' = l_change_count l /\ l_change_kind l' = l_change_kind l.

Lemma u64_prod a b : 0 <= a -> 0 <= b -> a * b < 2 ^ 64 -> a *! b = a * b.
Proof. intros. apply u64_small. unfold is_u64. nia. Qed.

Lemma grow_data l new_cap stride line col l' :
  slen (l_data l) = l_cap l * stride -> 0 <= stride -> 0 <= l_cap l <= new_cap ->
  l_cap l * stride < 2 ^ 63 -> new_cap * stride < 2 ^ 64 ->
  list_backing_grow l new_cap stride line col = Ok l' ->
  (exists tail, l_data l' = l_data l ++ tail) /\ slen (l_data l') = new_cap * stride /\
  l_cap l' = new_cap /\ same_header l l' /\ new_cap * stride < 2 ^ 63.
Proof.
  intros Hs Hst Hc Hm Hn. unfold list_backing_grow. cbv zeta.
  rewrite (u64_prod (l_cap l)), (u64_prod new_cap) by lia.
  assert (Hfit : forall grown,
    (exists tail, grown = l_data l ++ tail /\ slen grown = new_cap * stride /\ new_cap * stride < 2 ^ 63) ->
    Ok (set_backing l grown new_cap) = Ok l' ->
    (exists tail, l_data l' = l_data l ++ tail) /\ slen (l_data l') = new_cap * stride /\
    l_cap l' = new_cap /\ same_header l l' /\ new_cap * stride < 2 ^ 63).
  { intros grown (tail & Hg & Hl & Hx) [= <-]. split; [by exists tail|]. by split; [|split]. }
  destruct (l_inline l).
  - destruct (rt_big_alloc (new_cap * stride)) as [fresh|] eqn:He; cbn -[mem_set sub_str]; [|done].
    pose proof (rt_alloc_max (new_cap * stride) fresh ltac:(nia) He).
    pose proof (rt_alloc_len (new_cap * stride) fresh ltac:(nia) He).
    apply Hfit. rewrite <-Hs, sub_str_all.
    destruct (mem_split fresh (slen (l_data l))) as (a & b & -> & Ha); [nia|].
    exists (if slen (l_data l) =? 0 then a ++ b else b).
    destruct (Z.eqb_spec (slen (l_data l)) 0) as [Hz|].
    + assert (l_data l = []) as -> by (apply length_zero_iff_nil; unfold slen in Hz; lia). done.
    + pose proof (mem_set_at [] a (l_data l) b Ha) as Hset. cbn [app] in Hset.
      change (slen []) with 0 in Hset. rewrite Hset. split; [done|].
      rewrite slen_app in *. lia.
  - destruct (rt_big_realloc (l_data l) _ _) as [grown|] eqn:He; [|done].
    apply Hfit. apply rt_big_realloc_spec in He as (tail & Hg & Hl & Hx); [eauto|done|nia].
Qed.

Lemma grow_rep l es new_cap line col l' :
  rep l es -> l_cap l <= new_cap -> new_cap * list_stride l < 2 ^ 64 ->
  list_backing_grow l new_cap (list_stride l) line col = Ok l' ->
  rep l' es /\ l_cap l' = new_cap /\ same_header l l'.
Proof.
  intros R Hc Hn Hg. pose proof (rep_cap _ _ R). pose proof (rep_stride _ _ R).
  pose proof (rep_max _ _ R) as Hm. destruct (rep_data _ _ R) as [rest Hd].
  apply grow_data in Hg as ((tail & Ht) & Hs & Hcap & Hh & Hx); [|apply R|lia..|done].
  split; [|done]. destruct Hh as (Hlen & Hst & _).
  assert (Hls : list_stride l' = list_stride l) by (unfold list_stride; by rewrite Hst).
  split; rewrite ?Hls, ?Hlen, ?Hcap; try apply R; try done; [|lia].
  exists (rest ++ tail). by rewrite Ht, Hd, app_assoc.
Qed.

(** A refused allocation is the one way growth fails. *)
Lemma grow_refused l new_cap stride line col m a b :
  list_backing_grow l new_cap stride line col = Panic m a b ->
  m = out_of_memory /\ rt_alloc (new_cap *! stride) = None.
Proof.
  unfold list_backing_grow, rt_big_realloc, rt_big_alloc.
  destruct (rt_alloc (new_cap *! stride)); cbn -[mem_set sub_str]; [|by destruct (l_inline l); intros [= <- _ _]].
  by destruct (l_inline l).
Qed.

(** Room for one more element. *)
Lemma room_rep l es line col l' :
  rep l es -> list_room l (list_stride l) line col = Ok l' ->
  rep l' es /\ same_header l l' /\ l_len l' < l_cap l'.
Proof.
  intros R. pose proof (rep_bound _ _ R). pose proof (rep_cap _ _ R).
  pose proof (rep_max _ _ R). unfold list_room.
  destruct (Z.eqb_spec (l_len l) (l_cap l)).
  - intros Hg. apply (grow_rep _ es) in Hg as (R' & Hc & Hh); [|done|lia|lia].
    split; [done|]. split; [done|]. destruct Hh as (-> & _). lia.
  - intros [= <-]. repeat split; try done; [apply R..|lia].
Qed.

Lemma room_refused l stride line col m a b :
  list_room l stride line col = Panic m a b -> m = out_of_memory.
Proof. unfold list_room. case_match; [|done]. intros Hg. by apply grow_refused in Hg as [-> _]. Qed.

(** The bytes of the next free element. *)
Lemma rep_gap l es :
  rep l es -> l_len l < l_cap l ->
  exists gap rest, l_data l = concat es ++ gap ++ rest /\ slen gap = list_stride l.
Proof.
  intros R Hlt. destruct (rep_data _ _ R) as [rest Hd]. pose proof (rep_size _ _ R) as Hs.
  rewrite Hd, slen_app, (concat_len _ _ (rep_wide _ _ R)), <-(rep_len _ _ R) in Hs.
  pose proof (rep_stride _ _ R).
  destruct (mem_split rest (list_stride l)) as (gap & rest' & -> & Hg); [nia|]. eauto.
Qed.

(** ** Push and insert *)

(** Moving the tail up and writing in the gap. *)
Lemma insert_bytes (a b gap rest v : str) w :
  slen gap = w -> slen v = w -> 
  mem_set (memmove (a ++ b ++ gap ++ rest) (slen a + w) (slen a) (slen b)) (slen a) v =
    a ++ v ++ b ++ rest.
Proof.
  intros Hg Hv. unfold memmove. rewrite sub_str_at. pose proof (slen_nonneg b). pose proof (slen_nonneg gap).
  destruct (mem_split (b ++ gap) w) as (x & y & Hxy & Hx); [rewrite slen_app; lia|].
  assert (Hy : slen y = slen b).
  { apply (f_equal slen) in Hxy. rewrite !slen_app in Hxy. lia. }
  rewrite (app_assoc b), Hxy, <-(app_assoc x), (app_assoc a x).
  replace (slen a + w) with (slen (a ++ x)) by (rewrite slen_app; lia).
  rewrite mem_set_at by done. rewrite <-app_assoc. by apply mem_set_at; lia.
Qed.

Lemma insert_rep l es i v what :
  rep l es -> l_len l < l_cap l -> (i <= length es)%nat -> slen v = list_stride l ->
  let w := list_stride l in
  let d := memmove (l_data l) ((Z.of_nat i + 1) * w) (Z.of_nat i * w) ((l_len l - Z.of_nat i) * w) in
  rep (list_changed (set_len (set_data l (mem_set d (Z.of_nat i * w) v)) (l_len l + 1)) what)
    (take i es ++ v :: drop i es).
Proof.
  intros R Hlt Hi Hv w d. pose proof (rep_wide _ _ R) as Hw.
  destruct (rep_gap _ _ R Hlt) as (gap & rest & Hd & Hg). fold w in Hg, Hv, Hw.
  destruct (concat_cut w es i Hw Hi) as (Hc & Ha & Hb).
  assert (Hnew : mem_set d (Z.of_nat i * w) v = concat (take i es) ++ v ++ concat (drop i es) ++ rest).
  { unfold d. rewrite Hd, Hc, <-app_assoc, <-Ha.
    replace ((Z.of_nat i + 1) * w) with (slen (concat (take i es)) + w) by lia.
    replace ((l_len l - Z.of_nat i) * w) with (slen (concat (drop i es)))
      by (rewrite Hb, (rep_len _ _ R); f_equal; lia).
    by apply insert_bytes. }
  rewrite Hnew. apply (rep_set _ es); [done|..].
  - rewrite (rep_len _ _ R), length_app. cbn [length]. rewrite length_take, length_drop. lia.
  - apply Forall_app. split; [by apply Forall_take|]. constructor; [done|by apply Forall_drop].
  - exists rest. rewrite concat_app. cbn [concat]. by rewrite <-!app_assoc.
  - rewrite Hd, Hc, !slen_app. lia.
Qed.

Lemma push_rep l es v :
  rep l es -> l_len l < l_cap l -> slen v = list_stride l ->
  rep (list_changed (set_len (set_data l (mem_set (l_data l) (l_len l * list_stride l) v))
    (l_len l + 1)) LIST_CHANGE_PUSH) (es ++ [v]).
Proof.
  intros R Hlt Hv. pose proof (rep_wide _ _ R) as Hw.
  destruct (rep_gap _ _ R Hlt) as (gap & rest & Hd & Hg).
  assert (Hnew : mem_set (l_data l) (l_len l * list_stride l) v = concat es ++ v ++ rest).
  { rewrite Hd, (rep_len _ _ R), <-(concat_len _ _ Hw). apply mem_set_at. lia. }
  rewrite Hnew. apply (rep_set _ es); [done|..].
  - rewrite (rep_len _ _ R), length_app. cbn. lia.
  - apply Forall_app. by repeat constructor.
  - exists rest. rewrite concat_app. cbn. by rewrite app_nil_r, <-app_assoc.
  - rewrite Hd, !slen_app. lia.
Qed.

(** The slot entries are the typed ones on the slot's eight bytes. *)
Definition slot_bytes (v : Z) : str := rt_store_le (u64 v) 8.

Lemma slot_bytes_len v : slen (slot_bytes v) = 8.
Proof. apply rt_store_le_len; [apply u64_is|lia]. Qed.

Lemma slot_bytes_value v : is_i64 v -> i64 (rt_load_le (slot_bytes v) 8) = v.
Proof.
  intros Hv. unfold slot_bytes. rewrite load_store_le by (try apply u64_is; lia).
  change (2 ^ (8 * 8)) with (2 ^ 64). word.
Qed.

Lemma sub_str_full s n : slen s = n -> sub_str s 0 n = s.
Proof. intros <-. apply sub_str_all. Qed.

Lemma push_slot l v :
  list_stride l = 8 -> beans_list_push l v = beans_list_push_typed l (slot_bytes v).
Proof.
  intros Hs. unfold beans_list_push, beans_list_push_typed. rewrite Hs.
  by rewrite sub_str_full by apply slot_bytes_len.
Qed.

Lemma insert_slot l i v line col :
  list_stride l = 8 -> beans_list_insert l i v line col = beans_list_insert_typed l i (slot_bytes v) line col.
Proof.
  intros Hs. unfold beans_list_insert, beans_list_insert_typed. rewrite Hs.
  case_match; [done|]. f_equal. f_equal. rewrite sub_str_full by apply slot_bytes_len.
  by replace ((i + 1) * 8) with (i * 8 + 8) by lia.
Qed.

Lemma push_typed_spec l es v :
  rep l es -> slen v = list_stride l ->
  match beans_list_push_typed l v with
  | Ok l' => rep l' (es ++ [v]) /\ l_change_kind l' = LIST_CHANGE_PUSH /\
      l_change_count l' = u32 (l_change_count l + 1) /\ l_ptr_mask l' = l_ptr_mask l /\ l_stride l' = l_stride l
  | Panic m _ _ => m = out_of_memory /\ l_len l = l_cap l
  end.
Proof.
  intros R Hv. unfold beans_list_push_typed. cbv zeta.
  destruct (list_room l (list_stride l) 0 0) as [l1|m a b] eqn:Hr; cbn -[mem_set sub_str list_changed set_len set_data].
  - destruct (room_rep _ _ _ _ _ R Hr) as (R1 & (Hlen & Hst & Hm & Hcc & Hck) & Hlt).
    assert (Hls : list_stride l1 = list_stride l) by (unfold list_stride; by rewrite Hst).
    rewrite sub_str_full by done. rewrite <-Hls in Hv |- *. split; [exact (push_rep l1 es v R1 Hlt Hv)|].
    cbn. by rewrite Hcc.
  - split; [by eapply room_refused|]. unfold list_room in Hr. by destruct (Z.eqb_spec (l_len l) (l_cap l)).
Qed.

Lemma insert_typed_spec l es i v line col :
  rep l es -> slen v = list_stride l -> 0 <= i <= l_len l ->
  match beans_list_insert_typed l i v line col with
  | Ok l' => rep l' (take (Z.to_nat i) es ++ v :: drop (Z.to_nat i) es) /\
      l_change_kind l' = LIST_CHANGE_INSERT /\ l_change_count l' = u32 (l_change_count l + 1)
  | Panic m _ _ => m = out_of_memory /\ l_len l = l_cap l
  end.
Proof.
  intros R Hv Hi. unfold beans_list_insert_typed.
  rewrite (proj2 (Z.ltb_ge i 0)), (proj2 (Z.ltb_ge (l_len l) i)) by lia. cbn [orb]. cbv zeta.
  destruct (list_room l (list_stride l) line col) as [l1|m a b] eqn:Hr;
    cbn -[mem_set sub_str list_changed set_len set_data memmove].
  - destruct (room_rep _ _ _ _ _ R Hr) as (R1 & (Hlen & Hst & Hm & Hcc & Hck) & Hlt).
    assert (Hls : list_stride l1 = list_stride l) by (unfold list_stride; by rewrite Hst).
    rewrite sub_str_full by done. rewrite <-Hls in Hv |- *. split; [|cbn; by rewrite Hcc].
    pose proof (insert_rep l1 es (Z.to_nat i) v LIST_CHANGE_INSERT R1 Hlt) as Hrep. cbv zeta in Hrep.
    rewrite Z2Nat.id in Hrep by lia.
    replace (i * list_stride l1 + list_stride l1) with ((i + 1) * list_stride l1) by lia.
    apply Hrep; [|done]. rewrite (rep_len _ _ R) in Hi. lia.
  - split; [by eapply room_refused|]. unfold list_room in Hr. by destruct (Z.eqb_spec (l_len l) (l_cap l)).
Qed.

(** ** Remove *)

Lemma remove_bytes (a e b rest : str) :
  exists tail, memmove (a ++ e ++ b ++ rest) (slen a) (slen a + slen e) (slen b) = a ++ b ++ tail /\
    slen (a ++ b ++ tail) = slen (a ++ e ++ b ++ rest).
Proof.
  unfold memmove. rewrite (app_assoc a e), <-slen_app, sub_str_at, <-app_assoc, (app_assoc e b).
  pose proof (slen_nonneg e). pose proof (slen_nonneg b).
  destruct (mem_split (e ++ b) (slen b)) as (x & y & Hxy & Hx); [rewrite slen_app; lia|].
  exists (y ++ rest). rewrite Hxy, <-app_assoc, mem_set_at by done. split; [done|].
  rewrite !slen_app. lia.
Qed.

Lemma remove_rep l es i e what :
  rep l es -> es !! i = Some e -> let w := list_stride l in
  rep (list_changed (set_len (set_data l
    (memmove (l_data l) (Z.of_nat i * w) ((Z.of_nat i + 1) * w) ((l_len l - Z.of_nat i - 1) * w)))
    (l_len l - 1)) what) (delete i es).
Proof.
  intros R Hi w. pose proof (rep_wide _ _ R) as Hw. destruct (rep_data _ _ R) as [rest Hd].
  pose proof (rep_len _ _ R) as Hlen.
  destruct (concat_at _ _ _ _ Hw Hi) as (a & b & -> & Hai & Ha & He). fold w in Ha, He, Hw.
  apply Forall_app in Hw as [Hwa Hwb]. inversion Hwb as [|? ? _ Hwb']; subst.
  assert (Hb : slen (concat b) = (l_len l - Z.of_nat (length a) - 1) * w).
  { rewrite (concat_len w) by done. f_equal. rewrite Hlen, length_app. cbn. lia. }
  rewrite delete_middle. rewrite Hd, concat_app. cbn [concat]. rewrite <-!app_assoc, <-Hb, <-Ha.
  replace ((Z.of_nat (length a) + 1) * w) with (slen (concat a) + slen e) by lia.
  destruct (remove_bytes (concat a) e (concat b) rest) as (tail & -> & Hs).
  apply (rep_set _ (a ++ e :: b)); [done|..].
  - rewrite Hlen, !length_app. cbn. lia.
  - by apply Forall_app.
  - exists tail. by rewrite concat_app, <-app_assoc.
  - rewrite Hs, Hd, concat_app. cbn [concat]. by rewrite <-!app_assoc.
Qed.

Lemma remove_typed_spec l es i line col :
  rep l es -> 0 <= i < l_len l ->
  exists e l', es !! Z.to_nat i = Some e /\ beans_list_remove_typed l i line col = Ok (e, l') /\
    rep l' (delete (Z.to_nat i) es) /\ l_change_kind l' = LIST_CHANGE_REMOVE /\
    l_change_count l' = u32 (l_change_count l + 1).
Proof.
  intros R Hi. pose proof (rep_len _ _ R) as Hlen.
  destruct (lookup_lt_is_Some_2 es (Z.to_nat i)) as [e He]; [lia|].
  unfold beans_list_remove_typed.
  rewrite (proj2 (Z.ltb_ge i 0)), (proj2 (Z.leb_gt (l_len l) i)) by lia. cbn [orb]. cbv zeta.
  pose proof (rep_elem _ _ _ _ R He) as Hel. rewrite Z2Nat.id in Hel by lia.
  pose proof (remove_rep _ _ _ _ LIST_CHANGE_REMOVE R He) as Hr. cbv zeta in Hr.
  rewrite Z2Nat.id in Hr by lia. rewrite Hel. eexists _, _. split; [done|]. split; [done|].
  replace (i * list_stride l + list_stride l) with ((i + 1) * list_stride l) by lia. done.
Qed.

Lemma remove_slot l i line col :
  list_stride l = 8 -> beans_list_remove l i line col =
    ((fun p => (i64 (rt_load_le (fst p) 8), snd p)) <$> beans_list_remove_typed l i line col).
Proof.
  intros Hs. unfold beans_list_remove, beans_list_remove_typed. rewrite Hs. case_match; [done|].
  cbn -[rt_load_le sub_str memmove]. by replace ((i + 1) * 8) with (i * 8 + 8) by lia.
Qed.

(** ** Reverse *)

Lemma swap_bytes (a x m y b : str) :
  slen x = slen y ->
  mem_set (mem_set (a ++ x ++ m ++ y ++ b) (slen a) y) (slen a + slen x + slen m) x =
    a ++ y ++ m ++ x ++ b.
Proof.
  intros He. rewrite mem_set_at by done.
  replace (slen a + slen x + slen m) with (slen (a ++ y ++ m)) by (rewrite !slen_app; lia).
  replace (a ++ y ++ m ++ y ++ b) with ((a ++ y ++ m) ++ y ++ b) by (by rewrite <-!app_assoc).
  rewrite mem_set_at by lia. by rewrite <-!app_assoc.
Qed.

Lemma reverse_loop_spec w rest : forall fuel (pre mid post : list str),
  Forall (fun e => slen e = w) (pre ++ mid ++ post) -> (length mid <= fuel)%nat ->
  reverse_loop fuel (concat (pre ++ mid ++ post) ++ rest) w (Z.of_nat (length pre))
    (Z.of_nat (length pre + length mid) - 1) = concat (pre ++ rev mid ++ post) ++ rest.
Proof.
  induction fuel as [|fuel IH]; intros pre mid post Hw Hf.
  { destruct mid; [done|cbn in Hf; lia]. }
  cbn [reverse_loop]. destruct mid as [|x mid].
  { cbn [length]. by rewrite (proj2 (Z.ltb_ge _ _)) by lia. }
  destruct mid as [|y mid _] using rev_ind.
  { cbn [length]. by rewrite (proj2 (Z.ltb_ge _ _)) by lia. }
  cbn [length] in *. rewrite length_app in *. cbn [length] in *.
  rewrite (proj2 (Z.ltb_lt _ _)) by lia.
  apply Forall_app in Hw as [Hpre Hw]. apply Forall_app in Hw as [Hmid Hpost].
  inversion Hmid as [|? ? Hx Hmid']; subst. apply Forall_app in Hmid' as [Hm Hy].
  inversion Hy as [|? ? Hy' _]; subst. clear Hmid Hy.
  set (w := slen x) in *.
  pose proof (concat_len w pre Hpre) as Hlp. pose proof (concat_len w mid Hm) as Hlm.
  assert (Hd : concat (pre ++ (x :: mid ++ [y]) ++ post) ++ rest =
    concat pre ++ x ++ concat mid ++ y ++ concat post ++ rest).
  { repeat (rewrite ?concat_app; cbn [concat app]). by rewrite ?app_nil_r, <-!app_assoc. }
  assert (Hi : Z.of_nat (length pre) * w = slen (concat pre)) by lia.
  assert (Hj : (Z.of_nat (length pre + S (length mid + 1)) - 1) * w = slen (concat pre) + slen x + slen (concat mid)).
  { rewrite Hlp, Hlm. fold w. nia. }
  rewrite Hd, Hi, Hj.
  assert (Hgx : sub_str (concat pre ++ x ++ concat mid ++ y ++ concat post ++ rest) (slen (concat pre)) w = x)
    by apply sub_str_at.
  assert (Hgy : sub_str (concat pre ++ x ++ concat mid ++ y ++ concat post ++ rest)
    (slen (concat pre) + slen x + slen (concat mid)) w = y).
  { rewrite (app_assoc x), (app_assoc (concat pre)), <-!app_assoc.
    rewrite <-Hy'. replace (slen (concat pre) + slen x + slen (concat mid)) with
      (slen (concat pre ++ x ++ concat mid)) by (rewrite !slen_app; lia).
    replace (concat pre ++ x ++ concat mid ++ y ++ concat post ++ rest) with
      ((concat pre ++ x ++ concat mid) ++ y ++ concat post ++ rest) by (by rewrite <-!app_assoc).
    apply sub_str_at. }
  rewrite Hgx, Hgy. rewrite swap_bytes by (fold w; lia).
  specialize (IH (pre ++ [y]) mid (x :: post)).
  rewrite length_app in IH. cbn [length] in IH.
  replace (Z.of_nat (length pre) + 1) with (Z.of_nat (length pre + 1)) by lia.
  replace (Z.of_nat (length pre + S (length mid + 1)) - 1 - 1)
    with (Z.of_nat (length pre + 1 + length mid) - 1) by lia.
  replace (concat pre ++ y ++ concat mid ++ x ++ concat post ++ rest) with
    (concat ((pre ++ [y]) ++ mid ++ x :: post) ++ rest).
  2:{ repeat (rewrite ?concat_app; cbn [concat app]). by rewrite ?app_nil_r, <-!app_assoc. }
  rewrite IH; [|by rewrite !Forall_app, !Forall_cons, Forall_nil|lia].
  f_equal. f_equal. cbn [rev]. rewrite rev_app_distr. cbn [rev app].
  by rewrite <-!app_assoc.
Qed.

Lemma reverse_rep l es : rep l es -> rep (beans_list_reverse l) (rev es).
Proof.
  intros R. destruct (rep_data _ _ R) as [rest Hd]. pose proof (rep_len _ _ R) as Hlen.
  pose proof (rep_wide _ _ R) as Hw.
  assert (Hd' : reverse_loop (Z.to_nat (l_len l)) (l_data l) (list_stride l) 0 (l_len l - 1) =
    concat (rev es) ++ rest).
  { pose proof (reverse_loop_spec (list_stride l) rest (Z.to_nat (l_len l)) [] es []) as Hr.
    rewrite !app_nil_r in Hr. cbn [app length Nat.add] in Hr.
    rewrite Hlen, Nat2Z.id, Hd. rewrite Hlen, Nat2Z.id in Hr. apply Hr; [done|lia]. }
  unfold beans_list_reverse. cbv zeta.
  set (l0 := if 1 <? l_len l then list_changed l LIST_CHANGE_REVERSE else l).
  assert (Hh0 : l_len l0 = l_len l /\ l_data l0 = l_data l /\ l_cap l0 = l_cap l /\ list_stride l0 = list_stride l)
    by (unfold l0; by destruct (1 <? l_len l)).
  destruct Hh0 as (Hl0 & Hd0 & Hc0 & Hs0). rewrite Hl0, Hd0, Hs0, Hd'.
  destruct R. split; cbn [l_len l_data l_cap set_data]; change (list_stride (set_data l0 ?d)) with (list_stride l0);
    rewrite ?Hl0, ?Hc0, ?Hs0, ?length_rev; try done.
  - by apply Forall_rev.
  - by exists rest.
  - rewrite <-rep_size0, Hd, !slen_app. f_equal. rewrite !(concat_len (list_stride l)); [by rewrite length_rev|done|].
    by apply Forall_rev.
Qed.

(** ** Construction, reserve and copies *)

Lemma make_rep cap stride bs mask block line col r :
  bs = (if stride <? 0 then - stride else stride) -> 1 <= bs <= 2 ^ 30 -> 4 <= cap -> cap * bs < 2 ^ 63 ->
  (forall b, block (cap * bs) = Some b -> slen b = cap * bs) ->
  list_make cap stride bs mask block line col = Ok r ->
  rep r [] /\ l_cap r = cap /\ l_stride r = stride /\ l_ptr_mask r = mask /\ l_change_count r = 0.
Proof.
  intros Hbs Hs Hc Hm Hblock. unfold list_make. cbv zeta. rewrite (u64_prod cap bs) by lia.
  assert (Hls : forall d i c k, list_stride (mkBList d 0 cap stride mask i c k) = bs).
  { intros. unfold list_stride. cbn. rewrite Hbs. destruct (Z.ltb_spec stride 0); [done|].
    rewrite (proj2 (Z.eqb_neq _ _)) by lia. done. }
  assert (Hrep : forall d i, slen d = cap * bs -> rep (mkBList d 0 cap stride mask i 0 0) []).
  { intros d i Hd. split; rewrite ?Hls; try done; [by exists d|cbn; lia]. }
  unfold beans_alloc. destruct (rt_zalloc _) as [room|] eqn:He; cbn -[drop]; [|done].
  apply rt_zalloc_eq in He. destruct (list_backing_fits cap bs).
  - cbn -[drop]. intros [= <-]. split; [|done]. apply Hrep. subst room.
    unfold mem_zero, slen. rewrite length_drop, length_replicate. lia.
  - destruct (block (cap * bs)) as [d|] eqn:Hb; [|done]. intros [= <-]. split; [|done]. auto.
Qed.

Lemma new_capacity_rep stride mask n line col r :
  let bs := if stride <? 0 then - stride else stride in
  0 <= n -> n * bs < 2 ^ 63 -> list_new_capacity stride mask n line col = Ok r ->
  rep r [] /\ n <= l_cap r /\ l_stride r = stride /\ l_ptr_mask r = mask /\ l_change_count r = 0.
Proof.
  intros bs Hn Hm. unfold list_new_capacity. fold bs.
  destruct (Z.leb_spec bs 0); cbn [orb]; [done|]. destruct (Z.ltb_spec (2 ^ 30) bs); [done|].
  intros Hr. apply make_rep in Hr as (R & Hc & Hst & Hpm & Hcc); try done.
  - split; [done|]. rewrite Hc. split; [|done]. destruct (Z.ltb_spec 4 n); lia.
  - lia.
  - destruct (Z.ltb_spec 4 n); lia.
  - destruct (Z.ltb_spec 4 n); lia.
  - intros b Hb. unfold rt_big_alloc in Hb. eapply rt_alloc_len; [|done]. destruct (Z.ltb_spec 4 n); nia.
Qed.

Lemma copy_rep l es i n line col r retained :
  rep l es -> (i + n <= length es)%nat ->
  list_copy l (Z.of_nat i) (Z.of_nat n) line col = Ok (r, retained) ->
  rep r (take n (drop i es)) /\ l_stride r = (if l_stride l =? 0 then 8 else l_stride l) /\
  l_ptr_mask r = l_ptr_mask l /\
  retained = (if l_ptr_mask l =? 0 then [] else concat (list_retain_element r <$> take n (drop i es))).
Proof.
  intros R Hi. unfold list_copy. cbv zeta. set (st := if l_stride l =? 0 then 8 else l_stride l).
  pose proof (rep_stride _ _ R) as Hst. pose proof (rep_bound _ _ R) as Hb. pose proof (rep_max _ _ R) as Hm.
  pose proof (rep_len _ _ R) as Hlen. pose proof (rep_wide _ _ R) as Hw.
  assert (Hbs : (if st <? 0 then - st else st) = list_stride l).
  { unfold st, list_stride. destruct (Z.eqb_spec (l_stride l) 0) as [->|]; done. }
  destruct (list_new_capacity st (l_ptr_mask l) (Z.of_nat n) line col) as [r0|] eqn:Hr;
    cbn -[mem_set sub_str retain_range]; [|done].
  apply new_capacity_rep in Hr as (R0 & Hc & Hs0 & Hpm & Hcc); rewrite ?Hbs; [|lia|].
  2:{ enough (Z.of_nat n * list_stride l <= l_cap l * list_stride l) by lia.
      apply Z.mul_le_mono_nonneg_r; lia. }
  assert (Hls : list_stride r0 = list_stride l).
  { unfold list_stride at 1. rewrite Hs0. unfold st. unfold list_stride.
    destruct (Z.eqb_spec (l_stride l) 0) as [->|]; [done|]. by rewrite (proj2 (Z.eqb_neq _ _)) by done. }
  rewrite (rep_range _ _ _ _ R Hi). set (sel := take n (drop i es)).
  assert (Hsel : Forall (fun e => slen e = list_stride l) sel) by (by apply Forall_take, Forall_drop).
  assert (Hn : length sel = n) by (unfold sel; rewrite length_take, length_drop; lia).
  pose proof (rep_size _ _ R0) as Hsz. rewrite Hls in Hsz.
  destruct (mem_split (l_data r0) (slen (concat sel))) as (a & b & Hab & Ha).
  { rewrite Hsz, (concat_len _ _ Hsel), Hn. split; [lia|apply Z.mul_le_mono_nonneg_r; lia]. }
  assert (Hd : mem_set (l_data r0) 0 (concat sel) = concat sel ++ b).
  { rewrite Hab. exact (mem_set_at [] a (concat sel) b Ha). }
  rewrite Hd. set (r1 := set_data (set_len r0 (Z.of_nat n)) (concat sel ++ b)).
  assert (R1 : rep r1 sel).
  { assert (Hl1 : list_stride r1 = list_stride l) by exact Hls. pose proof (rep_max _ _ R0) as Hm0.
    pose proof (rep_cap _ _ R0) as Hc0. rewrite Hls in Hm0.
    split; rewrite ?Hl1; cbn [r1 l_len l_data l_cap set_data set_len]; try done; [by rewrite Hn|by exists b|].
    rewrite <-Hsz, Hab, !slen_app. lia. }
  intros [= <- <-]. split; [done|]. change (l_ptr_mask r1) with (l_ptr_mask r0).
  split; [exact Hs0|]. split; [done|]. rewrite Hpm.
  destruct (l_ptr_mask l =? 0); [done|]. unfold retain_range. f_equal.
  apply list_eq. intros k. rewrite !list_lookup_fmap, Nat2Z.id.
  destruct (decide (k < n)%nat) as [Hk|Hk].
  - rewrite lookup_seq_lt by done. destruct (lookup_lt_is_Some_2 sel k) as [e He]; [lia|].
    pose proof (rep_elem _ _ _ _ R1 He) as Hel.
    change (list_stride r1) with (list_stride r0) in Hel. rewrite Hls in Hel.
    rewrite He. cbn [fmap option_fmap option_map Nat.add]. by rewrite Hel.
  - rewrite lookup_seq_ge, (lookup_ge_None_2 sel) by lia. done.
Qed.

Lemma make_refused cap stride bs mask block line col m a b :
  list_make cap stride bs mask block line col = Panic m a b -> m = out_of_memory.
Proof.
  unfold list_make, beans_alloc. destruct (rt_zalloc _); cbn -[list_backing_fits]; [|congruence].
  destruct (if list_backing_fits cap bs then _ else _); [done|]. congruence.
Qed.

Lemma copy_refused l es i n line col m a b :
  rep l es -> list_copy l i n line col = Panic m a b -> m = out_of_memory.
Proof.
  intros R. pose proof (rep_stride _ _ R) as Hst. unfold list_copy, list_new_capacity. cbv zeta.
  assert (Hbs : (if (if l_stride l =? 0 then 8 else l_stride l) <? 0
    then - (if l_stride l =? 0 then 8 else l_stride l) else if l_stride l =? 0 then 8 else l_stride l) = list_stride l).
  { unfold list_stride. destruct (Z.eqb_spec (l_stride l) 0) as [->|]; done. }
  rewrite Hbs, (proj2 (Z.leb_gt _ _)), (proj2 (Z.ltb_ge _ _)) by lia. cbn [orb].
  destruct (list_make _ _ _ _ _ _ _) eqn:He; [done|]. intros [= <- _ _]. by apply make_refused in He.
Qed.

Lemma reserve_loop_spec capacity : forall fuel cap,
  1 <= cap -> capacity <= 2 ^ 58 -> capacity <= cap * 2 ^ Z.of_nat fuel ->
  let r := reserve_loop fuel cap capacity in
  capacity <= r /\ cap <= r /\ (r = cap \/ r < 2 * capacity).
Proof.
  induction fuel as [|fuel IH]; intros cap Hc Hm Hf; cbn [reserve_loop]; [lia|].
  destruct (Z.ltb_spec cap capacity); cbn [andb]; [|lia].
  rewrite (proj2 (Z.leb_le cap (2 ^ 60))) by lia.
  rewrite Nat2Z.inj_succ, Z.pow_succ_r in Hf by lia.
  destruct (IH (cap * 2)) as (Hr1 & Hr2 & Hr3); [lia|lia|lia|]. lia.
Qed.

Lemma reserve_spec l es n line col :
  rep l es -> 0 <= n <= 2 ^ 58 -> 2 * n * list_stride l <= 2 ^ 64 ->
  match beans_list_reserve l n line col with
  | Ok l' => rep l' es /\ n <= l_cap l' /\ same_header l l'
  | Panic m _ _ => m = out_of_memory
  end.
Proof.
  intros R Hn Hw. unfold beans_list_reserve.
  rewrite (proj2 (Z.ltb_ge n 0)), (proj2 (Z.ltb_ge (2 ^ 58) n)) by lia.
  destruct (Z.leb_spec n (l_cap l)) as [Hle|Hlt]; [by repeat split; try apply R|]. cbv zeta.
  pose proof (rep_cap _ _ R). pose proof (rep_stride _ _ R).
  destruct (reserve_loop_spec n 64 (l_cap l)) as (Hr1 & Hr2 & Hr3); [lia|lia|change (2 ^ Z.of_nat 64) with (2 ^ 64); lia|].
  rewrite (proj2 (Z.ltb_ge _ n)) by lia.
  destruct (list_backing_grow l _ _ line col) as [l'|m a b] eqn:Hg.
  - apply (grow_rep _ es) in Hg as (R' & Hc & Hh); [|done|lia|nia]. rewrite Hc. done.
  - by apply grow_refused in Hg as [-> _].
Qed.

End lists.
