(* ===== verification/ListOwn.v ===== *)
(** * ListOwn: what copies retain and [clear] releases, and the scans

    [owned value mask enc] is the specification of both walks over an
    element's pointer mask: the non-null children of the marked slots, in slot
    order.  Retaining visits them in that order, releasing in reverse. *)

From S2P Require Import Prelude Decimal DecMath DecimalProofs DecimalDiv Text Str StrProofs Slots.
From S2P Require Import Mem ListRt ListRtProofs.

Open Scope c_scope.

(** The non-null child in a marked slot. *)
Definition slot_child (value : str) (mask : Z) (enc : bool) (s : nat) : list Z :=
  if Z.testbit mask (Z.of_nat s) then
    let child := rt_masked_child value (Z.of_nat s) enc in
    if child =? 0 then [] else [child]
  else [].

Definition owned_from (n : nat) (value : str) (mask : Z) (enc : bool) (s : nat) : list Z :=
  concat (slot_child value mask enc <$> seq s n).

Definition owned (value : str) (mask : Z) (enc : bool) : list Z :=
  owned_from (Z.to_nat RT_MASK_SLOTS) value mask enc 0.

Lemma testbit_shift mask s : 0 <= s -> (Z.land (Z.shiftr mask s) 1 =? 0) = negb (Z.testbit mask s).
Proof.
  intros Hs. rewrite land1. pose proof (Z.bit0_mod (Z.shiftr mask s)) as Hb.
  rewrite Z.shiftr_spec in Hb by lia. rewrite Z.add_0_l in Hb. rewrite <-Hb.
  by destruct (Z.testbit mask s).
Qed.

Lemma shift_zero_above mask s t : 0 <= s <= t -> Z.shiftr mask s = 0 -> Z.testbit mask t = false.
Proof.
  intros Hs Hz. replace t with ((t - s) + s) by lia.
  rewrite <-Z.shiftr_spec by lia. by rewrite Hz, Z.bits_0.
Qed.

Lemma owned_from_S n value mask enc s :
  owned_from (S n) value mask enc s = slot_child value mask enc s ++ owned_from n value mask enc (S s).
Proof. done. Qed.

Lemma owned_from_none n value mask enc s :
  (forall t, (s <= t < s + n)%nat -> Z.testbit mask (Z.of_nat t) = false) ->
  owned_from n value mask enc s = [].
Proof.
  revert s. induction n as [|n IH]; intros s Hz; [done|].
  rewrite owned_from_S. unfold slot_child. rewrite Hz by lia. rewrite IH; [done|]. intros t Ht. apply Hz. lia.
Qed.

Lemma retain_slots_spec n : forall value mask s enc,
  retain_slots n value mask (Z.of_nat s) enc = owned_from n value mask enc s.
Proof.
  induction n as [|n IH]; intros value mask s enc; cbn [retain_slots]; [done|].
  destruct (Z.eqb_spec (mask >>! Z.of_nat s) 0) as [Hz|Hz].
  - symmetry. apply owned_from_none. intros t Ht. eapply shift_zero_above; [|exact Hz]. lia.
  - replace (Z.of_nat s + 1) with (Z.of_nat (S s)) by lia. rewrite IH. cbv zeta.
    rewrite owned_from_S, testbit_shift by lia. unfold slot_child. cbv zeta.
    by destruct (Z.testbit mask (Z.of_nat s)), (rt_masked_child value (Z.of_nat s) enc =? 0).
Qed.

Lemma retain_element_spec l e :
  list_retain_element l e = owned e (l_ptr_mask l) (l_stride l <? 0).
Proof. exact (retain_slots_spec _ e (l_ptr_mask l) 0 _). Qed.

(** A copy retains the children of its elements. *)
Lemma copy_kept `{AllocLaws} l es i n line col r kept :
  rep l es -> l_stride l <> 0 -> (i + n <= length es)%nat ->
  list_copy l (Z.of_nat i) (Z.of_nat n) line col = Ok (r, kept) ->
  rep r (take n (drop i es)) /\
  kept = concat ((fun e => owned e (l_ptr_mask l) (l_stride l <? 0)) <$> take n (drop i es)).
Proof.
  intros R Hpos Hi Hr. destruct (copy_rep _ _ _ _ _ _ _ _ R Hi Hr) as (Rr & Hst & Hm & ->).
  split; [done|]. rewrite (proj2 (Z.eqb_neq _ _) Hpos) in Hst.
  destruct (Z.eqb_spec (l_ptr_mask l) 0) as [Hz|Hz].
  - rewrite Hz. clear. induction (take n (drop i es)) as [|e t IH]; [done|].
    cbn [fmap list_fmap concat]. rewrite <-IH, app_nil_r. symmetry.
    apply owned_from_none. intros. apply Z.bits_0.
  - f_equal. apply list_fmap_ext. intros ? e _. by rewrite retain_element_spec, Hm, Hst.
Qed.

(** ** The release walk *)

Lemma mask_top_loop_spec fuel : forall m top,
  0 <= m < 2 ^ Z.of_nat fuel ->
  top <= mask_top_loop fuel m top /\
  forall s, 0 <= s -> mask_top_loop fuel m top <= top + s -> Z.testbit m s = false.
Proof.
  induction fuel as [|fuel IH]; intros m top Hm; cbn [mask_top_loop].
  { split; [lia|]. intros s Hs _. assert (m = 0) as -> by lia. apply Z.bits_0. }
  destruct (Z.eqb_spec m 0) as [->|Hnz].
  { split; [lia|]. intros. apply Z.bits_0. }
  rewrite Nat2Z.inj_succ, Z.pow_succ_r in Hm by lia.
  assert (Hd : m >>! 1 = m / 2) by (rewrite shr_div by lia; done).
  destruct (IH (m >>! 1) (top + 1)) as [Hle Hz]; [rewrite Hd; dlia|].
  split; [lia|]. intros s Hs Hge.
  replace s with ((s - 1) + 1) by lia. rewrite <-Z.shiftr_spec by lia. apply Hz; lia.
Qed.

Lemma mask_top_spec mask s :
  is_u64 mask -> rt_mask_top mask <= s < RT_MASK_SLOTS -> Z.testbit mask s = false.
Proof.
  intros Hm. unfold rt_mask_top, RT_MASK_SLOTS. rewrite u64_small by done.
  destruct (mask_top_loop_spec 64 mask 0 Hm) as [Hle Hz].
  set (t := mask_top_loop 64 mask 0) in *. destruct (Z.ltb_spec 58 t); [lia|].
  intros Hs. apply Hz; lia.
Qed.

Lemma mask_top_range mask : 0 <= rt_mask_top mask <= RT_MASK_SLOTS.
Proof.
  unfold rt_mask_top, RT_MASK_SLOTS. destruct (mask_top_loop_spec 64 (u64 mask) 0 (u64_is _)) as [Hle _].
  case_match; bools; lia.
Qed.

(** Slots past the top hold nothing. *)
Lemma owned_top value mask enc :
  is_u64 mask -> owned value mask enc = owned_from (Z.to_nat (rt_mask_top mask)) value mask enc 0.
Proof.
  intros Hm. pose proof (mask_top_range mask) as Ht. unfold owned, owned_from.
  replace (Z.to_nat RT_MASK_SLOTS) with
    (Z.to_nat (rt_mask_top mask) + (Z.to_nat RT_MASK_SLOTS - Z.to_nat (rt_mask_top mask)))%nat by lia.
  rewrite seq_app, fmap_app, concat_app.
  pose proof (owned_from_none (Z.to_nat RT_MASK_SLOTS - Z.to_nat (rt_mask_top mask)) value mask enc
    (0 + Z.to_nat (rt_mask_top mask))) as Hz.
  unfold owned_from in Hz. rewrite Hz, app_nil_r; [done|]. intros t Hb. apply mask_top_spec; [done|lia].
Qed.

(** Every marked slot lies inside an element of [stride] bytes. *)
Definition mask_fits (mask stride : Z) (enc : bool) : Prop :=
  is_u64 mask /\ (if enc then 8 <= stride else forall s, 0 <= s -> Z.testbit mask s = true -> 8 * (s + 1) <= stride).

Lemma sub_str_prefix s off n m :
  0 <= off -> 0 <= m -> off + m <= n -> sub_str (sub_str s 0 n) off m = sub_str s off m.
Proof.
  intros. by rewrite sub_str_sub by lia.
Qed.

Lemma child_in_element d stride mask enc s :
  mask_fits mask stride enc -> Z.testbit mask (Z.of_nat s) = true ->
  rt_masked_child d (Z.of_nat s) enc = rt_masked_child (sub_str d 0 stride) (Z.of_nat s) enc.
Proof.
  intros [_ Hf] Hs. unfold rt_masked_child. destruct enc.
  - by rewrite sub_str_prefix by lia.
  - specialize (Hf (Z.of_nat s) ltac:(lia) Hs). by rewrite sub_str_prefix by lia.
Qed.

Section clear.
Context (deinit : Z -> BList -> BList).
(** Deinit code that does not touch the list being cleared. *)
Context (Hquiet : forall p l, deinit p l = l).

Lemma masked_release_spec l off stride mask enc : forall n released,
  mask_fits mask stride enc ->
  masked_release_from deinit n off mask enc l released =
    (l, released ++ rev (owned_from n (sub_str (drop (Z.to_nat off) (l_data l)) 0 stride) mask enc 0)).
Proof.
  induction n as [|n IH]; intros released Hf; cbn [masked_release_from]; [by rewrite app_nil_r|].
  unfold owned_from. rewrite seq_S, fmap_app, concat_app, Nat.add_0_l. cbn [fmap list_fmap concat].
  rewrite app_nil_r, rev_app_distr, app_assoc. unfold slot_child at 1.
  rewrite testbit_shift by lia. destruct (Z.testbit mask (Z.of_nat n)) eqn:Hb; cbn [negb].
  2:{ cbn [rev]. rewrite app_nil_r. by apply IH. }
  rewrite (child_in_element _ stride mask enc n) by done.
  destruct (_ =? 0) eqn:Hz; [cbn [rev]; rewrite app_nil_r; by apply IH|].
  rewrite Hquiet. by apply IH.
Qed.

Lemma release_element_spec l off released :
  mask_fits (l_ptr_mask l) (list_stride l) (l_stride l <? 0) ->
  list_release_element deinit l off released =
    (l, released ++ rev (owned (sub_str (drop (Z.to_nat off) (l_data l)) 0 (list_stride l))
      (l_ptr_mask l) (l_stride l <? 0))).
Proof.
  intros Hf. unfold list_release_element. rewrite (masked_release_spec _ _ (list_stride l)) by done.
  rewrite owned_top by apply Hf. done.
Qed.

Lemma sub_str_drop s i n : sub_str (drop (Z.to_nat i) s) 0 n = sub_str s i n.
Proof. unfold sub_str. change (Z.to_nat 0) with 0%nat. by rewrite drop_0. Qed.

Lemma clear_from_spec l es : forall n released,
  mask_fits (l_ptr_mask l) (list_stride l) (l_stride l <? 0) ->
  l_len l = 0 -> (forall i e, es !! i = Some e -> sub_str (l_data l) (Z.of_nat i * list_stride l) (list_stride l) = e) ->
  (n <= length es)%nat ->
  list_clear_from deinit n (list_stride l) l released =
    (l, released ++ rev (concat ((fun e => owned e (l_ptr_mask l) (l_stride l <? 0)) <$> take n es))).
Proof.
  intros n released Hf Hlen Hel. revert released. induction n as [|n IH]; intros released Hn;
    cbn [list_clear_from]; [by rewrite take_0, app_nil_r|].
  rewrite (proj2 (Z.ltb_ge _ _)) by lia. rewrite release_element_spec by done.
  destruct (lookup_lt_is_Some_2 es n) as [e He]; [lia|].
  rewrite sub_str_drop, (Hel _ _ He), IH by lia.
  rewrite (take_S_r _ _ _ He), fmap_app, concat_app. cbn [fmap list_fmap concat].
  by rewrite app_nil_r, rev_app_distr, app_assoc.
Qed.

Lemma clear_spec l es :
  rep l es -> mask_fits (l_ptr_mask l) (list_stride l) (l_stride l <? 0) ->
  exists l', beans_list_clear deinit l =
    (l', rev (concat ((fun e => owned e (l_ptr_mask l) (l_stride l <? 0)) <$> es))) /\
  rep l' [] /\ l_cap l' = l_cap l /\ l_data l' = l_data l /\
  l_change_count l' = (if l_len l =? 0 then l_change_count l else u32 (l_change_count l + 1)).
Proof.
  intros R Hf. unfold beans_list_clear. cbv zeta.
  set (l0 := if l_len l =? 0 then l else list_changed l LIST_CHANGE_CLEAR).
  assert (Hh : l_len l0 = l_len l /\ l_data l0 = l_data l /\ l_cap l0 = l_cap l /\
    l_stride l0 = l_stride l /\ l_ptr_mask l0 = l_ptr_mask l /\
    l_change_count l0 = (if l_len l =? 0 then l_change_count l else u32 (l_change_count l + 1)))
    by (unfold l0; by destruct (l_len l =? 0)).
  destruct Hh as (Hlen & Hd & Hc & Hst & Hm & Hcc). set (l1 := set_len l0 0).
  assert (Hls : list_stride l1 = list_stride l) by (unfold list_stride; cbn; by rewrite Hst).
  assert (R1 : rep l1 []).
  { split; rewrite ?Hls; cbn [l1 set_len l_len l_data l_cap]; rewrite ?Hd, ?Hc; try apply R; [done|done|by exists (l_data l)]. }
  exists l1. split; [|by repeat split; try apply R1; cbn; rewrite ?Hc, ?Hd, ?Hcc].
  assert (Hm1 : l_ptr_mask l1 = l_ptr_mask l) by exact Hm.
  assert (Hs1 : l_stride l1 = l_stride l) by exact Hst. rewrite Hm1.
  destruct (Z.eqb_spec (l_ptr_mask l) 0) as [Hz|Hz].
  - rewrite Hz. replace (concat _) with (@nil Z); [done|]. clear. symmetry.
    induction es as [|e es IH]; [done|]. cbn [fmap list_fmap concat]. rewrite IH, app_nil_r.
    apply owned_from_none. intros. apply Z.bits_0.
  - rewrite (clear_from_spec l1 es); rewrite ?Hm1, ?Hls, ?Hs1; try done.
    + rewrite Hlen, (rep_len _ _ R), Nat2Z.id. by rewrite take_ge by lia.
    + intros i e He. cbn [l1 set_len l_data]. rewrite Hd. by apply (rep_elem _ es).
    + rewrite Hlen, (rep_len _ _ R). lia.
Qed.

End clear.

(** ** Deinit code that appends to the list

    One owned pointer per element.  The list may grow under the walk; bytes at
    and past its length stay what they were. *)
Section growing.
Context (deinit : Z -> BList -> BList) (w : Z) (es : list str).
Context (Hgrow : forall p l, l_len l <= l_len (deinit p l) /\ l_stride (deinit p l) = l_stride l /\
  l_ptr_mask (deinit p l) = l_ptr_mask l /\
  forall i, l_len (deinit p l) <= i -> sub_str (l_data (deinit p l)) (i * w) w = sub_str (l_data l) (i * w) w).

(** Elements at and past the length are the ones being cleared. *)
Definition kept_above (l : BList) : Prop :=
  list_stride l = w /\ l_ptr_mask l = 1 /\ 0 <= l_len l /\
  forall i e, l_len l <= Z.of_nat i -> es !! i = Some e -> sub_str (l_data l) (Z.of_nat i * w) w = e.

Definition only_child (e : str) : list Z := owned e 1 false.

Lemma only_child_eq e enc : owned e 1 enc = owned e 1 false.
Proof.
  rewrite !owned_top by (split; done). change (rt_mask_top 1) with 1. by destruct enc.
Qed.

Lemma release_one l i e released :
  8 <= w -> kept_above l -> l_len l <= Z.of_nat i -> es !! i = Some e ->
  list_release_element deinit l (Z.of_nat i * w) released =
    (match only_child e with [] => l | p :: _ => deinit p l end, released ++ only_child e).
Proof.
  intros Hw (Hs & Hm & Hl & Hel) Hi He. unfold list_release_element. rewrite Hm.
  change (Z.to_nat (rt_mask_top 1)) with 1%nat. cbn [masked_release_from].
  rewrite testbit_shift by lia. change (Z.testbit 1 (Z.of_nat 0)) with true. cbn [negb].
  assert (Hc : rt_masked_child (drop (Z.to_nat (Z.of_nat i * w)) (l_data l)) (Z.of_nat 0) (l_stride l <? 0) =
    rt_load_le (sub_str e 0 8) 8).
  { rewrite <-(Hel i e Hi He), sub_str_sub, Z.add_0_r by lia.
    unfold rt_masked_child. change (Z.of_nat 0 * 8) with 0.
    destruct (l_stride l <? 0); by rewrite sub_str_drop. }
  rewrite Hc. unfold only_child. rewrite owned_top by (split; done). change (rt_mask_top 1) with 1.
  change (Z.to_nat 1) with 1%nat. unfold owned_from. cbn [seq fmap list_fmap concat].
  rewrite app_nil_r. unfold slot_child. change (Z.testbit 1 (Z.of_nat 0)) with true. cbv iota zeta.
  unfold rt_masked_child. change (Z.of_nat 0 * 8) with 0.
  destruct (_ =? 0); [by rewrite app_nil_r|done].
Qed.

Lemma kept_above_deinit p l : kept_above l -> kept_above (deinit p l).
Proof.
  intros (Hs & Hm & Hl & Hel). destruct (Hgrow p l) as (Hle & Hst & Hpm & Hd).
  split_and!; [unfold list_stride in *; by rewrite Hst|congruence|lia|].
  intros i e Hi He. rewrite Hd by done. apply Hel; [lia|done].
Qed.

(** The walk releases the children of the top elements, last first, down to an
    index the list owns again. *)
Lemma clear_from_growing n : forall l released,
  8 <= w -> kept_above l -> (n <= length es)%nat ->
  exists k l', (k <= n)%nat /\
    list_clear_from deinit n w l released =
      (l', released ++ rev (concat (only_child <$> drop k (take n es)))) /\
    (k = 0%nat \/ Z.of_nat k <= l_len l').
Proof.
  induction n as [|n IH]; intros l released Hw Hk Hn; cbn [list_clear_from].
  { exists 0%nat, l. split; [lia|]. rewrite app_nil_r. by split; [|left]. }
  destruct (Z.ltb_spec (Z.of_nat n) (l_len l)) as [Hlt|Hge].
  { exists (S n), l. split; [lia|]. split; [|right; lia].
    rewrite drop_ge by (rewrite length_take; lia). by rewrite app_nil_r. }
  destruct (lookup_lt_is_Some_2 es n) as [e He]; [lia|].
  rewrite (release_one l n e) by done.
  set (l1 := match only_child e with [] => l | p :: _ => deinit p l end).
  assert (Hk1 : kept_above l1) by (unfold l1; case_match; [done|by apply kept_above_deinit]).
  destruct (IH l1 (released ++ only_child e) Hw Hk1 ltac:(lia)) as (k & l' & Hkn & -> & Hend).
  exists k, l'. split; [lia|]. split; [|done].
  rewrite (take_S_r _ _ _ He), drop_app_le by (rewrite length_take; lia).
  rewrite fmap_app, concat_app. cbn [fmap list_fmap concat]. rewrite app_nil_r, rev_app_distr, <-app_assoc.
  do 3 f_equal. unfold only_child. rewrite owned_top by (split; done). change (rt_mask_top 1) with 1.
  change (Z.to_nat 1) with 1%nat. unfold owned_from. cbn [seq fmap list_fmap concat].
  unfold slot_child. rewrite app_nil_r. by repeat case_match.
Qed.

End growing.

(** * The scans over a list's slots

    [max] and [min] return the first extreme slot of the kind's order;
    [contains], [index] and [equal] are the list functions of the kind's
    equality.  Stated against [SlotOrder] and the slots of [ListRt]. *)

#[export] Instance slot_order_flip {A} (valid : A -> Prop) less :
  SlotOrder valid less -> SlotOrder valid (fun x y => less y x).
Proof. intros O. split; intros *; [apply O|intros; by eapply (less_trans z y x)|intros; by eapply (less_cotrans z y x)]. Qed.

(** ** Comparing both ways *)

Lemma order3_swap x y : order3 y x = - order3 x y.
Proof. unfold order3. destruct (Z.ltb_spec x y), (Z.ltb_spec y x); lia. Qed.

Lemma slot_cmp_key h kind a b :
  0 <= kind <= 7 -> kind <> 2 -> kind <> 3 ->
  slot_cmp h a b kind = Ok (order3 (slot_key h kind a) (slot_key h kind b)).
Proof.
  intros Hk H2 H3. unfold slot_cmp, slot_key.
  destruct (Z.eqb_spec kind 0); [done|]. destruct (Z.eqb_spec kind 1); [done|].
  rewrite (proj2 (Z.eqb_neq kind 2)), (proj2 (Z.eqb_neq kind 3)) by done.
  destruct (Z.eqb_spec kind 4) as [->|]; [done|]. destruct (Z.eqb_spec kind 5); [done|].
  destruct (Z.eqb_spec kind 6); [done|]. destruct (Z.eqb_spec kind 7); [done|lia].
Qed.

Lemma slot_cmp_swap h kind a b :
  0 <= kind <= 7 -> slot_valid h kind a -> slot_valid h kind b ->
  exists c, slot_cmp h a b kind = Ok c /\ slot_cmp h b a kind = Ok (- c).
Proof.
  intros Hk [_ Ha] [_ Hb].
  destruct (Z.eq_dec kind 2) as [->|H2]; [|destruct (Z.eq_dec kind 3) as [->|H3]].
  - exists (lex (str_at h a) (str_at h b)). unfold slot_cmp. cbn -[beans_str_cmp].
    by rewrite !str_cmp_lex, (lex_swap (str_at h a)).
  - exists (Z.sgn (dec_diff (dec_at_slot h a) (dec_at_slot h b))). unfold slot_cmp. cbn -[beans_dec_cmp].
    rewrite !dec_cmp_spec, (dec_diff_swap (dec_at_slot h a)) by auto. split; [done|]. f_equal. lia.
  - rewrite !slot_cmp_key by done. eexists. split; [done|]. by rewrite order3_swap.
Qed.

(** ** The first extreme *)

Section best.
Context (h : heap) (kind : Z) (valid : Z -> Prop) (bt : Z -> Z -> bool) `{!SlotOrder valid bt}.
Context (better : Z -> bool).
(** The test keeps a slot when it is strictly better than the best so far. *)
Context (Hbt : forall v b, valid v -> valid b ->
  exists c, slot_cmp h v b kind = Ok c /\ better c = bt v b).

(** [best] is the first slot of [slots] that no slot beats. *)
Definition first_best (slots : list Z) (best : Z) : Prop :=
  exists k, slots !! k = Some best /\ (forall v, v ∈ slots -> bt v best = false) /\
    (forall i v, (i < k)%nat -> slots !! i = Some v -> bt best v = true).

Lemma best_loop_spec rest : forall seen best,
  Forall valid (seen ++ rest) -> valid best -> first_best seen best ->
  exists b, best_loop h better rest best kind = Ok b /\ first_best (seen ++ rest) b.
Proof.
  induction rest as [|v rest IH]; intros seen best Hv Hb Hf; cbn [best_loop].
  { exists best. by rewrite app_nil_r. }
  pose proof Hv as [Hs Hr]%Forall_app. inversion Hr as [|? ? Hvv Hr']; subst.
  destruct (Hbt v best Hvv Hb) as (c & -> & Hc). cbn -[best_loop]. rewrite Hc.
  replace (seen ++ v :: rest) with ((seen ++ [v]) ++ rest) in Hv |- * by (by rewrite <-app_assoc).
  apply IH; [done|by destruct (bt v best)|].
  destruct Hf as (k & Hk & Hno & Hfirst). destruct (bt v best) eqn:He.
  - exists (length seen). split; [by rewrite lookup_app_r, Nat.sub_diag by lia|]. split.
    + intros x [Hx|Hx%list_elem_of_singleton]%elem_of_app; [|subst; by apply less_irrefl].
      pose proof (proj1 (Forall_forall _ _) Hs x Hx) as Hvx.
      destruct (bt x v) eqn:Hxv; [|done].
      pose proof (less_trans x v best Hvx Hvv Hb Hxv He) as Ht. by rewrite (Hno x Hx) in Ht.
    + intros i x Hi Hx. rewrite lookup_app_l in Hx by done.
      assert (Hin : x ∈ seen) by (by eapply list_elem_of_lookup_2).
      pose proof (proj1 (Forall_forall _ _) Hs x Hin) as Hvx.
      destruct (bt v x) eqn:Hvxb; [done|].
      by rewrite (less_cotrans v x best Hvv Hvx Hb Hvxb (Hno x Hin)) in He.
  - exists k. assert (k < length seen)%nat by (by eapply lookup_lt_Some).
    split; [by rewrite lookup_app_l|]. split.
    + intros x [Hx|Hx%list_elem_of_singleton]%elem_of_app; [auto|by subst].
    + intros i x Hi Hx. rewrite lookup_app_l in Hx by lia. by eapply Hfirst.
Qed.

End best.

Lemma first_best_one valid bt `{!SlotOrder valid bt} v : valid v -> first_best bt [v] v.
Proof.
  intros Hv. exists 0%nat. split; [done|]. split; [|lia].
  intros x ->%list_elem_of_singleton. by apply less_irrefl.
Qed.

Section search.
Context (h : heap) (kind : Z) (Hkind : 0 <= kind <= 7).

Lemma max_spec l :
  Forall (slot_valid h kind) (list_slots l) ->
  match list_slots l with
  | [] => beans_list_max h l kind = Ok None
  | _ => exists b, beans_list_max h l kind = Ok (Some b) /\
      first_best (fun x y => slot_less h kind y x) (list_slots l) b
  end.
Proof.
  intros Hv. unfold beans_list_max. destruct (list_slots l) as [|v rest]; [done|].
  inversion Hv as [|? ? Hv0 Hr]; subst.
  destruct (best_loop_spec h kind (slot_valid h kind) (fun x y => slot_less h kind y x) (fun c => 0 <? c))
    with (rest := rest) (seen := [v]) (best := v) as (b & -> & Hb); [|done|done|by apply (first_best_one (slot_valid h kind) (fun x y => slot_less h kind y x))|eauto].
  intros x y Hx Hy. destruct (slot_cmp_swap h kind x y Hkind Hx Hy) as (c & -> & Hs).
  exists c. split; [done|]. unfold slot_less. rewrite Hs. lia.
Qed.

Lemma min_spec l :
  Forall (slot_valid h kind) (list_slots l) ->
  match list_slots l with
  | [] => beans_list_min h l kind = Ok None
  | _ => exists b, beans_list_min h l kind = Ok (Some b) /\
      first_best (slot_less h kind) (list_slots l) b
  end.
Proof.
  intros Hv. unfold beans_list_min. destruct (list_slots l) as [|v rest]; [done|].
  inversion Hv as [|? ? Hv0 Hr]; subst.
  destruct (best_loop_spec h kind (slot_valid h kind) (slot_less h kind) (fun c => c <? 0))
    with (rest := rest) (seen := [v]) (best := v) as (b & -> & Hb); [|done|done|by apply (first_best_one (slot_valid h kind) (slot_less h kind))|eauto].
  intros x y Hx Hy. destruct (slot_cmp_swap h kind x y Hkind Hx Hy) as (c & Hc & _).
  exists c. split; [done|]. unfold slot_less. by rewrite Hc.
Qed.

End search.

(** ** Equality scans *)

Section equality.
Context (h : heap) (eq : Z -> Z -> Z) (kind : Z).

Lemma slot_eq_ok a b :
  slot_valid h kind a -> slot_valid h kind b ->
  slot_eq h eq a b kind = Ok (slot_same h eq kind a b).
Proof.
  intros [_ Ha] [_ Hb]. unfold slot_same, slot_eq.
  destruct (Z.eqb_spec kind 3) as [->|]; [|by repeat case_match].
  cbn -[beans_dec_cmp]. by rewrite !dec_cmp_spec by auto.
Qed.

Lemma index_loop_spec slots v : forall i,
  Forall (slot_valid h kind) slots -> slot_valid h kind v ->
  index_loop h eq slots i v kind =
    Ok ((fun p => i + Z.of_nat (fst p)) <$> list_find (fun x => slot_same h eq kind x v = true) slots).
Proof.
  induction slots as [|x slots IH]; intros i Hs Hv; cbn [index_loop list_find]; [done|].
  inversion Hs; subst. rewrite slot_eq_ok by done. cbn -[index_loop list_find].
  destruct (slot_same h eq kind x v); [by rewrite decide_True by done; cbn; rewrite Z.add_0_r|].
  rewrite decide_False by done. rewrite IH by done. f_equal.
  destruct (list_find _ slots) as [[k y]|]; cbn; [f_equal; lia|done].
Qed.

Lemma contains_loop_spec slots v :
  Forall (slot_valid h kind) slots -> slot_valid h kind v ->
  contains_loop h eq slots v kind = Ok (existsb (fun x => slot_same h eq kind x v) slots).
Proof.
  intros Hs Hv. induction Hs as [|x slots Hx _ IH]; cbn [contains_loop existsb]; [done|].
  rewrite slot_eq_ok by done. cbn -[contains_loop]. by destruct (slot_same h eq kind x v).
Qed.

Lemma equal_loop_spec a b :
  Forall (slot_valid h kind) a -> Forall (slot_valid h kind) b -> length a = length b ->
  exists r, equal_loop h eq a b kind = Ok r /\ (r = true <-> Forall2 (fun x y => slot_same h eq kind x y = true) a b).
Proof.
  intros Ha. revert b. induction Ha as [|x a Hx _ IH]; intros [|y b] Hb Hl; try done; cbn [equal_loop].
  { exists true. split; [done|]. split; [by constructor|done]. }
  inversion Hb; subst. rewrite slot_eq_ok by done. cbn -[equal_loop].
  destruct (slot_same h eq kind x y) eqn:He.
  - destruct (IH b) as (r & -> & Hr); [done|cbn in Hl; lia|]. exists r. split; [done|].
    rewrite Forall2_cons. tauto.
  - exists false. split; [done|]. rewrite Forall2_cons. split; [done|]. intros [? _]. congruence.
Qed.

End equality.

(** ** Slots of a represented list *)

(** A slot read from an element's bytes. *)
Definition slot_value (stride : Z) (e : str) : Z :=
  if stride =? 4 then rt_load_le e 4 else i64 (rt_load_le e 8).

Lemma slots_rep l es :
  rep l es -> l_stride l = 4 \/ list_stride l = 8 -> list_slots l = slot_value (l_stride l) <$> es.
Proof.
  intros R Hs. unfold list_slots. rewrite (rep_len _ _ R), Nat2Z.id. apply list_eq. intros i.
  rewrite !list_lookup_fmap. destruct (decide (i < length es)%nat) as [Hi|Hi].
  - rewrite lookup_seq_lt by done. destruct (lookup_lt_is_Some_2 es i Hi) as [e He].
    rewrite He. cbn [fmap option_fmap option_map Nat.add]. f_equal.
    pose proof (rep_elem _ _ _ _ R He) as Hel. unfold list_slot_at, slot_value.
    destruct (Z.eqb_spec (l_stride l) 4) as [H4|H4].
    + unfold list_stride in Hel. rewrite H4 in Hel. cbn -[sub_str Z.mul] in Hel. by rewrite Hel.
    + destruct Hs as [|Hs]; [done|]. rewrite Hs in Hel. by rewrite Hel.
  - rewrite lookup_seq_ge, (lookup_ge_None_2 es) by lia. done.
Qed.
