(* ===== verification/ListTheorems.v ===== *)
(** * ListTheorems: the properties of lists *)

From stdpp Require Import relations.
From S2P Require Import Prelude Digits Mem Text TextProofs Str StrProofs Slots.
From S2P Require Import Decimal ListRt ListRtProofs ListOwn.

Open Scope c_scope.

Lemma insert_panic_text l i line col :
  is_i64 i -> is_i64 (l_len l) ->
  insert_panic l i line col =
    Panic (lit "insert at " ++ rt_itoa i ++ lit " out of range (len " ++ rt_itoa (l_len l) ++ lit ")") line col.
Proof.
  intros Hi Hl. pose proof (itoa_len i Hi). pose proof (itoa_len _ Hl).
  apply fmt_panic_text.
  - change (lit "insert at %lld out of range (len %lld)") with
      (lit "insert at " ++ lit "%lld" ++ lit " out of range (len " ++ lit "%lld" ++ lit ")").
    apply formats_plain; [plain_text|]. apply formats_lld.
    apply formats_plain; [plain_text|]. apply formats_lld. apply formats_end. plain_text.
  - rewrite !slen_app. change (slen (lit "insert at ")) with 10.
    change (slen (lit " out of range (len ")) with 19. change (slen (lit ")")) with 1. lia.
Qed.

Lemma list_index_panic {A} i len line col :
  is_i64 i -> is_i64 len ->
  @fmt_panic A 96 "list index %lld out of range (len %lld)" [i; len] line col =
    Panic (lit "list index " ++ rt_itoa i ++ lit " out of range (len " ++ rt_itoa len ++ lit ")") line col.
Proof.
  intros Hi Hl. pose proof (itoa_len i Hi). pose proof (itoa_len _ Hl).
  apply fmt_panic_text.
  - change (lit "list index %lld out of range (len %lld)") with
      (lit "list index " ++ lit "%lld" ++ lit " out of range (len " ++ lit "%lld" ++ lit ")").
    apply formats_plain; [plain_text|]. apply formats_lld.
    apply formats_plain; [plain_text|]. apply formats_lld. apply formats_end. plain_text.
  - rewrite !slen_app. change (slen (lit "list index ")) with 11.
    change (slen (lit " out of range (len ")) with 19. change (slen (lit ")")) with 1. lia.
Qed.

Lemma rep_i64 l es : rep l es -> is_i64 (l_len l).
Proof.
  intros R. pose proof (rep_bound _ _ R). pose proof (rep_len _ _ R). pose proof (rep_max _ _ R).
  pose proof (rep_stride _ _ R). unfold is_i64. nia.
Qed.

(** ** A concrete list to apply the theorems to *)

#[local] Instance alloc_zeros : Alloc := fun n => if n <? 2 ^ 63 then Some (mem_zero n) else None.

#[local] Instance alloc_zeros_ok : AllocLaws.
Proof.
  split; intros n b Hn; unfold rt_alloc, alloc_zeros; destruct (Z.ltb_spec n (2 ^ 63)); intros [= <-]; [|done].
  by apply mem_zero_len.
Qed.

(** Three slots in a backing of four. *)
Definition ex_list : BList :=
  mkBList (concat (slot_bytes <$> [5; -3; 9]) ++ mem_zero 8) 3 4 (-8) 0 true 3 1.

Lemma ex_list_rep : rep ex_list (slot_bytes <$> [5; -3; 9]).
Proof.
  split; try done; [|by exists (mem_zero 8)]. repeat constructor.
Qed.

(** C32 The editing operations are list operations on the elements: push
    appends, insert puts the element at the index, remove takes it out and
    returns it, in both the typed and the 8-byte slot representation (a slot
    entry is the typed one on the slot's bytes); each bumps the change count
    once and records its kind; growing keeps the elements and can only fail by
    an allocation refusal; an index out of range panics with its text and
    nothing else does. *)
Theorem list_edit_correct `{AllocLaws} (l : BList) (es : list str) (i line col : Z) (v : str) (s : Z)
    (R : rep l es) (Hv : slen v = list_stride l) (Hi : is_i64 i) :
  match beans_list_push_typed l v with
  | Ok l' => rep l' (es ++ [v]) /\ l_change_kind l' = LIST_CHANGE_PUSH /\
      l_change_count l' = u32 (l_change_count l + 1)
  | Panic m _ _ => m = out_of_memory /\ l_len l = l_cap l
  end /\
  (if (0 <=? i) && (i <=? l_len l)
   then match beans_list_insert_typed l i v line col with
        | Ok l' => rep l' (take (Z.to_nat i) es ++ v :: drop (Z.to_nat i) es) /\
            l_change_kind l' = LIST_CHANGE_INSERT /\ l_change_count l' = u32 (l_change_count l + 1)
        | Panic m _ _ => m = out_of_memory /\ l_len l = l_cap l
        end
   else beans_list_insert_typed l i v line col =
     Panic (lit "insert at " ++ rt_itoa i ++ lit " out of range (len " ++ rt_itoa (l_len l) ++ lit ")") line col) /\
  (if (0 <=? i) && (i <? l_len l)
   then exists e l', es !! Z.to_nat i = Some e /\ beans_list_remove_typed l i line col = Ok (e, l') /\
     rep l' (delete (Z.to_nat i) es) /\ l_change_kind l' = LIST_CHANGE_REMOVE /\
     l_change_count l' = u32 (l_change_count l + 1)
   else beans_list_remove_typed l i line col =
     Panic (lit "list index " ++ rt_itoa i ++ lit " out of range (len " ++ rt_itoa (l_len l) ++ lit ")") line col) /\
  (list_stride l = 8 ->
   beans_list_push l s = beans_list_push_typed l (slot_bytes s) /\
   beans_list_insert l i s line col = beans_list_insert_typed l i (slot_bytes s) line col /\
   beans_list_remove l i line col =
     ((fun p => (i64 (rt_load_le (fst p) 8), snd p)) <$> beans_list_remove_typed l i line col)).
Proof.
  pose proof (rep_i64 _ _ R) as Hl. split_and!.
  - pose proof (push_typed_spec l es v R Hv) as Hp. destruct (beans_list_push_typed l v); tauto.
  - destruct (Z.leb_spec 0 i), (Z.leb_spec i (l_len l)); cbn [andb]; try (by apply insert_typed_spec);
      unfold beans_list_insert_typed; replace ((i <? 0) || (l_len l <? i)) with true by lia;
      by apply insert_panic_text.
  - destruct (Z.leb_spec 0 i), (Z.ltb_spec i (l_len l)); cbn [andb]; try (by apply remove_typed_spec);
      unfold beans_list_remove_typed; replace ((i <? 0) || (l_len l <=? i)) with true by lia;
      by apply list_index_panic.
  - intros Hs. split_and!; [by apply push_slot|by apply insert_slot|by apply remove_slot].
Qed.

Lemma list_edit_correct_witness :
  (exists l', beans_list_push_typed ex_list (slot_bytes 7) = Ok l' /\ rep l' (slot_bytes <$> [5; -3; 9; 7])) /\
  (exists l', beans_list_insert_typed ex_list 1 (slot_bytes 7) 0 0 = Ok l' /\ rep l' (slot_bytes <$> [5; 7; -3; 9])) /\
  beans_list_remove_typed ex_list 4 2 3 = Panic (lit "list index 4 out of range (len 3)") 2 3.
Proof.
  pose proof (list_edit_correct ex_list _ 1 0 0 (slot_bytes 7) 7 ex_list_rep eq_refl ltac:(done)) as (H1 & H2 & _).
  pose proof (list_edit_correct ex_list _ 4 2 3 (slot_bytes 7) 7 ex_list_rep eq_refl ltac:(done)) as (_ & _ & H3 & _).
  split_and!.
  - destruct (beans_list_push_typed ex_list (slot_bytes 7)) as [l'|] eqn:He; [|destruct H1 as [_ Hbad]; discriminate Hbad].
    exists l'. split; [done|]. exact (proj1 H1).
  - change ((0 <=? 1) && (1 <=? l_len ex_list)) with true in H2. cbv iota in H2.
    destruct (beans_list_insert_typed ex_list 1 (slot_bytes 7) 0 0) as [l'|] eqn:He; [|destruct H2 as [_ Hbad]; discriminate Hbad].
    exists l'. split; [done|]. exact (proj1 H2).
  - change ((0 <=? 4) && (4 <? l_len ex_list)) with false in H3. exact H3.
Defined.

(** Copies and ownership: a slice or a clone holds exactly the elements
    asked for and retains exactly the owned children of its elements, a range
    out of bounds panics; clearing empties the list, keeps its buffer and, for
    deinit code that leaves the list alone, releases exactly the children a
    clone would retain, in the reverse order. *)
Theorem list_copy_clear_correct `{AllocLaws} (l : BList) (es : list str) (from to line col : Z)
    (deinit : Z -> BList -> BList)
    (R : rep l es) (Hf : mask_fits (l_ptr_mask l) (list_stride l) (l_stride l <? 0))
    (Hquiet : forall p l, deinit p l = l) (Hpos : l_stride l <> 0) :
  match beans_list_clone l with
  | Ok (r, kept) => rep r es /\
      kept = concat ((fun e => owned e (l_ptr_mask l) (l_stride l <? 0)) <$> es)
  | Panic m _ _ => m = out_of_memory
  end /\
  (if (0 <=? from) && (from <=? to) && (to <=? l_len l)
   then match beans_list_slice l from to line col with
        | Ok (r, kept) =>
            let sel := take (Z.to_nat (to - from)) (drop (Z.to_nat from) es) in rep r sel /\
            kept = concat ((fun e => owned e (l_ptr_mask l) (l_stride l <? 0)) <$> sel)
        | Panic m _ _ => m = out_of_memory
        end
   else exists m, beans_list_slice l from to line col = Panic m line col) /\
  exists l', beans_list_clear deinit l =
    (l', rev (concat ((fun e => owned e (l_ptr_mask l) (l_stride l <? 0)) <$> es))) /\
  rep l' [] /\ l_cap l' = l_cap l /\ l_data l' = l_data l.
Proof.
  pose proof (rep_len _ _ R) as Hlen. split_and!.
  - unfold beans_list_clone. destruct (list_copy l 0 (l_len l) 0 0) as [[r kept]|m a b] eqn:Hr;
      [|by apply (copy_refused _ _ _ _ _ _ _ _ _ R) in Hr].
    rewrite Hlen in Hr. destruct (copy_kept l es 0 (length es) 0 0 r kept R Hpos ltac:(lia) Hr) as [Rr Hk].
    by rewrite drop_0, take_ge in Rr, Hk by lia.
  - unfold beans_list_slice, beans_list_slice_check.
    destruct ((0 <=? from) && (from <=? to) && (to <=? l_len l)) eqn:Hb.
    + bools. replace ((from <? 0) || (to <? from) || (l_len l <? to)) with false by lia. cbn -[list_copy].
      destruct (list_copy l from (to - from) line col) as [[r kept]|m a b] eqn:Hr;
        [|by apply (copy_refused _ _ _ _ _ _ _ _ _ R) in Hr].
      apply (copy_kept l es _ _ line col r kept R Hpos); [lia|]. rewrite !Z2Nat.id by lia. exact Hr.
    + replace ((from <? 0) || (to <? from) || (l_len l <? to)) with true by lia.
      unfold fmt_panic. eexists. reflexivity.
  - destruct (clear_spec deinit Hquiet l es R Hf) as (l' & Hc & R' & Hcap & Hd & _). eauto.
Qed.

Lemma list_copy_clear_correct_witness :
  beans_list_clear (fun _ l => l) (mkBList (concat (slot_bytes <$> [5; 0; 9]) ++ mem_zero 8) 3 4 (-8) 1 true 3 1) =
    (mkBList (concat (slot_bytes <$> [5; 0; 9]) ++ mem_zero 8) 0 4 (-8) 1 true 4 5, [9; 5]).
Proof.
  set (l := mkBList _ 3 4 (-8) 1 true 3 1).
  assert (R : rep l (slot_bytes <$> [5; 0; 9])).
  { split; try done; [repeat constructor|by exists (mem_zero 8)]. }
  destruct (list_copy_clear_correct l _ 0 0 0 0 (fun _ l => l) R) as (_ & _ & l' & Hc & _); [|done|done|].
  - split; [|done]. split; done.
  - rewrite Hc. apply (f_equal fst) in Hc. vm_compute in Hc. rewrite <-Hc. vm_compute. reflexivity.
Defined.

(** Clearing while deinit code runs.  With one owned pointer per element
    and deinit code that only appends, the walk releases the children of the
    topmost elements, last first, and stops at the first index the list owns
    again.  The test is made on the length alone: deinit code that pushes an
    element and takes it back out leaves its bytes under the walk, so the walk
    releases a reference the list no longer owns and never releases the
    element that was there. *)
Theorem list_clear_reentrant (deinit : Z -> BList -> BList) (l : BList) (es : list str)
    (R : rep l es) (Hw : 8 <= list_stride l) (Hm : l_ptr_mask l = 1)
    (Hgrow : forall p x, l_len x <= l_len (deinit p x) /\ l_stride (deinit p x) = l_stride x /\
      l_ptr_mask (deinit p x) = l_ptr_mask x /\
      forall i, l_len (deinit p x) <= i ->
        sub_str (l_data (deinit p x)) (i * list_stride l) (list_stride l) =
        sub_str (l_data x) (i * list_stride l) (list_stride l)) :
  (exists k l', (k <= length es)%nat /\
    beans_list_clear deinit l = (l', rev (concat (only_child <$> drop k es))) /\
    (k = 0%nat \/ Z.of_nat k <= l_len l')) /\
  exists (push_pop : Z -> BList -> BList) (x : BList),
    (forall p y, push_pop p y =
      if p =? 2
      then match beans_list_push y 7 with
           | Ok y' => match beans_list_remove y' 0 0 0 with Ok (_, y'') => y'' | _ => y end
           | _ => y
           end
      else y) /\
    rep x (slot_bytes <$> [1; 2]) /\ snd (beans_list_clear push_pop x) = [2; 7].
Proof.
  split.
  - unfold beans_list_clear. cbv zeta.
    set (l0 := if l_len l =? 0 then l else list_changed l LIST_CHANGE_CLEAR).
    assert (Hh : l_len l0 = l_len l /\ l_data l0 = l_data l /\ l_stride l0 = l_stride l /\ l_ptr_mask l0 = 1)
      by (unfold l0; by destruct (l_len l =? 0)).
    destruct Hh as (Hlen & Hd & Hst & Hpm). set (l1 := set_len l0 0).
    assert (Hls : list_stride l1 = list_stride l) by (unfold list_stride; cbn; by rewrite Hst).
    change (l_ptr_mask l1) with (l_ptr_mask l0). rewrite Hpm, Hls, Hlen, (rep_len _ _ R), Nat2Z.id. cbn [Z.eqb].
    destruct (clear_from_growing deinit (list_stride l) es Hgrow (length es) l1 [] Hw) as (k & l' & Hk & Hc & Hend);
      [|lia|].
    + split_and!; [done|exact Hpm|done|]. intros i e _ He. cbn [l1 set_len l_data]. rewrite Hd.
      by apply (rep_elem _ es).
    + exists k, l'. rewrite take_ge in Hc by lia. done.
  - exists (fun p y => if p =? 2
      then match beans_list_push y 7 with
           | Ok y' => match beans_list_remove y' 0 0 0 with Ok (_, y'') => y'' | _ => y end
           | _ => y
           end
      else y).
    exists (mkBList (concat (slot_bytes <$> [1; 2]) ++ mem_zero 16) 2 4 (-8) 1 true 2 1).
    split; [done|]. split.
    + split; try done; [repeat constructor|by exists (mem_zero 16)].
    + vm_compute. reflexivity.
Qed.

(** Two owned slots. *)
Definition ex_clear : BList := mkBList (concat (slot_bytes <$> [1; 2]) ++ mem_zero 16) 2 4 (-8) 1 true 2 1.

Lemma list_clear_reentrant_witness :
  exists k l', (k <= 2)%nat /\
    beans_list_clear (fun _ l => l) ex_clear = (l', rev (concat (only_child <$> drop k (slot_bytes <$> [1; 2])))) /\
    (k = 0%nat \/ Z.of_nat k <= l_len l').
Proof.
  refine (proj1 (list_clear_reentrant (fun _ l => l) ex_clear (slot_bytes <$> [1; 2]) _ _ _ _)).
  - split; try done; [repeat constructor|by exists (mem_zero 16)].
  - done.
  - done.
  - intros p x. split_and!; done.
Defined.

(** Reserving: a negative or too large capacity panics, a capacity that is
    already there changes nothing, and otherwise the elements and the header
    stay and the new capacity is reached, or the allocation was refused.  The
    byte size is not checked: with elements of 64 bytes the largest accepted
    capacity asks for 2^64 bytes, which wraps to none, and the list then claims
    a capacity it has no memory for. *)
Theorem list_reserve_correct `{AllocLaws} (l : BList) (es : list str) (n line col : Z) (R : rep l es) :
  (n < 0 -> exists m, beans_list_reserve l n line col = Panic m line col) /\
  (2 ^ 58 < n -> beans_list_reserve l n line col = Panic (lit "reserve capacity too large") line col) /\
  (0 <= n <= l_cap l -> n <= 2 ^ 58 -> beans_list_reserve l n line col = Ok l) /\
  (0 <= n <= 2 ^ 58 -> 2 * n * list_stride l <= 2 ^ 64 ->
    match beans_list_reserve l n line col with
    | Ok l' => rep l' es /\ n <= l_cap l' /\ l_cap l' * list_stride l' = slen (l_data l') /\ same_header l l'
    | Panic m _ _ => m = out_of_memory
    end) /\
  (forall b, rt_alloc 0 = Some b ->
    let wide := mkBList (mem_zero 256) 0 4 64 0 false 0 0 in
    rep wide [] /\
    exists l', beans_list_reserve wide (2 ^ 58) line col = Ok l' /\ l_cap l' = 2 ^ 58 /\ slen (l_data l') = 0).
Proof.
  split_and!.
  - intros Hn. unfold beans_list_reserve. rewrite (proj2 (Z.ltb_lt n 0)) by lia.
    unfold fmt_panic. eexists. reflexivity.
  - intros Hn. unfold beans_list_reserve.
    by rewrite (proj2 (Z.ltb_ge n 0)), (proj2 (Z.ltb_lt (2 ^ 58) n)) by lia.
  - intros Hn Hm. unfold beans_list_reserve.
    by rewrite (proj2 (Z.ltb_ge n 0)), (proj2 (Z.ltb_ge (2 ^ 58) n)), (proj2 (Z.leb_le n (l_cap l))) by lia.
  - intros Hn Hw. pose proof (reserve_spec l es n line col R Hn Hw) as Hr.
    destruct (beans_list_reserve l n line col) as [l'|]; [|done]. destruct Hr as (R' & Hc & Hh).
    split; [done|]. split; [done|]. split; [|done]. symmetry. apply R'.
  - intros b Hb. cbv zeta. split; [split; try done; by exists (mem_zero 256)|].
    pose proof (rt_alloc_len 0 b ltac:(lia) Hb) as Hlen.
    assert (b = []) as -> by (apply length_zero_iff_nil; unfold slen in Hlen; lia).
    eexists. split; [|split].
    + unfold beans_list_reserve. cbn [Z.ltb Z.leb l_cap Z.compare].
      change (reserve_loop 64 4 (2 ^ 58)) with (2 ^ 58).
      change (2 ^ 58 <? 2 ^ 58) with false. change (2 ^ 58 <? 0) with false.
      change (2 ^ 58 <=? 4) with false. cbv iota zeta.
      unfold list_backing_grow. cbn [l_inline l_cap l_data].
      change (list_stride (mkBList (mem_zero 256) 0 4 64 0 false 0 0)) with 64.
      change (4 *! 64) with 256. change (2 ^ 58 *! 64) with 0. unfold rt_big_realloc, rt_big_alloc.
      rewrite Hb. reflexivity.
    + reflexivity.
    + reflexivity.
Qed.

Lemma list_reserve_correct_witness :
  beans_list_reserve ex_list 4 1 2 = Ok ex_list /\
  exists l', beans_list_reserve ex_list 9 1 2 = Ok l' /\ rep l' (slot_bytes <$> [5; -3; 9]) /\ 9 <= l_cap l'.
Proof.
  split.
  - apply (list_reserve_correct ex_list _ 4 1 2 ex_list_rep); cbn; lia.
  - destruct (list_reserve_correct ex_list _ 9 1 2 ex_list_rep) as (_ & _ & _ & Hr & _).
    specialize (Hr ltac:(lia) ltac:(cbn; lia)).
    destruct (beans_list_reserve ex_list 9 1 2) as [l'|m a b] eqn:He.
    + exists l'. split; [reflexivity|]. split; [exact (proj1 Hr)|]. exact (proj1 (proj2 Hr)).
    + vm_compute in He. discriminate He.
Defined.

(** Searching: on the slots of a list of a known kind, [max] and [min] are
    the first extreme slot of the kind's order ([None] on an empty list),
    [index] is the first slot equal to the value, [contains] whether there is
    one, and two lists are [equal] when they are the same object or have equal
    slots in the same order; none of them fails. *)
Theorem list_search_correct (h : heap) (eq : Z -> Z -> Z) (kind v pa pb : Z) (l m : BList) (es : list str)
    (R : rep l es) (Hs : l_stride l = 4 \/ list_stride l = 8) (Hk : 0 <= kind <= 7)
    (Hl : Forall (slot_valid h kind) (slot_value (l_stride l) <$> es))
    (Hm : Forall (slot_valid h kind) (list_slots m)) (Hmn : 0 <= l_len m) (Hv : slot_valid h kind v) :
  let slots := slot_value (l_stride l) <$> es in
  (match slots with
   | [] => beans_list_max h l kind = Ok None /\ beans_list_min h l kind = Ok None
   | _ => exists hi lo, beans_list_max h l kind = Ok (Some hi) /\ beans_list_min h l kind = Ok (Some lo) /\
       first_best (fun x y => slot_less h kind y x) slots hi /\ first_best (slot_less h kind) slots lo
   end) /\
  beans_list_index h eq l v kind =
    Ok ((fun p => Z.of_nat (fst p)) <$> list_find (fun x => slot_same h eq kind x v = true) slots) /\
  beans_list_contains h eq l v kind = Ok (existsb (fun x => slot_same h eq kind x v) slots) /\
  exists r, beans_list_equal h eq pa pb l m kind = Ok r /\
    (r = true <-> pa = pb \/
      pa <> 0 /\ pb <> 0 /\ Forall2 (fun x y => slot_same h eq kind x y = true) slots (list_slots m)).
Proof.
  intros slots. pose proof (slots_rep l es R Hs) as He. fold slots in He, Hl. split_and!.
  - pose proof (max_spec h kind Hk l) as Hmax. pose proof (min_spec h kind Hk l) as Hmin.
    rewrite He in Hmax, Hmin. specialize (Hmax Hl). specialize (Hmin Hl).
    destruct slots; [done|]. destruct Hmax as (hi & ? & ?), Hmin as (lo & ? & ?). by exists hi, lo.
  - unfold beans_list_index. by rewrite He, index_loop_spec.
  - unfold beans_list_contains. by rewrite He, contains_loop_spec.
  - unfold beans_list_equal. rewrite He.
    destruct (Z.eqb_spec pa pb); [exists true; tauto|].
    destruct (Z.eqb_spec pa 0), (Z.eqb_spec pb 0); cbn [orb]; try (exists false; split; [done|]; split; [done|tauto]).
    assert (Hlen : length slots = Z.to_nat (l_len l)) by (unfold slots; rewrite length_fmap, (rep_len _ _ R); lia).
    assert (Hlm : length (list_slots m) = Z.to_nat (l_len m)) by (unfold list_slots; by rewrite length_fmap, length_seq).
    pose proof (rep_len _ _ R). destruct (Z.eqb_spec (l_len l) (l_len m)) as [Hll|Hll]; cbn [negb].
    + destruct (equal_loop_spec h eq kind slots (list_slots m) Hl Hm) as (r & Hr & Hiff); [lia|].
      exists r. split; [done|]. rewrite Hiff. tauto.
    + exists false. split; [done|]. split; [done|]. intros [?|(_ & _ & Hf)]; [done|].
      apply Forall2_length in Hf. lia.
Qed.

Definition ex_heap : heap := mkHeap (fun _ => []) (fun _ => mkDec 0 0 0 0) (fun _ => 0).

Lemma list_search_correct_witness :
  beans_list_max ex_heap ex_list 0 = Ok (Some 9) /\ beans_list_index ex_heap (fun _ _ => 0) ex_list (-3) 0 = Ok (Some 1).
Proof.
  destruct (list_search_correct ex_heap (fun _ _ => 0) 0 (-3) 1 1 ex_list ex_list _ ex_list_rep)
    as (H1 & H2 & _).
  - right. reflexivity.
  - lia.
  - repeat (constructor; [split; [split; vm_compute; congruence|lia]|]). constructor.
  - repeat (constructor; [split; [split; vm_compute; congruence|lia]|]). constructor.
  - vm_compute. congruence.
  - split; [unfold is_i64; lia|lia].
  - split; [|rewrite H2; vm_compute; reflexivity].
    destruct H1 as (hi & lo & H1 & _). rewrite H1. vm_compute in H1. by injection H1 as <-.
Defined.

(** ** Iteration *)

(** The structural changes a program can make between two turns of a loop. *)
Inductive list_step `{Alloc} : BList -> BList -> Prop :=
  | step_push l v l' : beans_list_push_typed l v = Ok l' -> list_step l l'
  | step_push_slot l v l' : beans_list_push l v = Ok l' -> list_step l l'
  | step_insert l i v line col l' : beans_list_insert_typed l i v line col = Ok l' -> list_step l l'
  | step_insert_slot l i v line col l' : beans_list_insert l i v line col = Ok l' -> list_step l l'
  | step_remove l i line col v l' : beans_list_remove_typed l i line col = Ok (v, l') -> list_step l l'
  | step_remove_slot l i line col v l' : beans_list_remove l i line col = Ok (v, l') -> list_step l l'
  | step_reverse l : 1 < l_len l -> list_step l (beans_list_reverse l)
  | step_clear l : l_len l <> 0 -> list_step l (fst (beans_list_clear (fun _ l => l) l)).

Lemma masked_release_quiet off mask enc l : forall n released,
  fst (masked_release_from (fun _ l => l) n off mask enc l released) = l.
Proof. induction n as [|n IH]; intros released; cbn [masked_release_from]; [done|]. by repeat case_match. Qed.

Lemma clear_quiet n stride l : forall released, fst (list_clear_from (fun _ l => l) n stride l released) = l.
Proof.
  induction n as [|n IH]; intros released; cbn [list_clear_from]; [done|]. case_match; [done|].
  unfold list_release_element.
  destruct (masked_release_from _ _ _ _ _ _ _) as [l' r] eqn:He.
  apply (f_equal fst) in He. rewrite masked_release_quiet in He. cbn in He. subst l'. apply IH.
Qed.

Lemma room_header `{Alloc} l stride line col l' :
  list_room l stride line col = Ok l' -> l_change_count l' = l_change_count l.
Proof.
  unfold list_room, list_backing_grow. repeat case_match; intros [= <-]; done.
Qed.

(** Each step moves the count by one and names itself. *)
Lemma step_count `{Alloc} l l' :
  list_step l l' -> l_change_count l' = u32 (l_change_count l + 1) /\ 1 <= l_change_kind l' <= 7.
Proof.
  intros Hs. inversion Hs as [? v ? He|? v ? He|? i v line col ? He|? i v line col ? He|
    ? i line col v ? He|? i line col v ? He|? Hl|? Hl]; subst.
  - unfold beans_list_push_typed in He. destruct (list_room _ _ _ _) as [l1|] eqn:Hr; [|done].
    apply room_header in Hr. injection He as <-. cbn. by rewrite Hr.
  - unfold beans_list_push in He. destruct (list_room _ _ _ _) as [l1|] eqn:Hr; [|done].
    apply room_header in Hr. injection He as <-. cbn. by rewrite Hr.
  - unfold beans_list_insert_typed in He. destruct (_ || _); [done|].
    destruct (list_room _ _ _ _) as [l1|] eqn:Hr; [|done].
    apply room_header in Hr. injection He as <-. cbn. by rewrite Hr.
  - unfold beans_list_insert in He. destruct (_ || _); [done|].
    destruct (list_room _ _ _ _) as [l1|] eqn:Hr; [|done].
    apply room_header in Hr. injection He as <-. cbn. by rewrite Hr.
  - unfold beans_list_remove_typed in He. destruct (_ || _); [done|]. by injection He as _ <-.
  - unfold beans_list_remove in He. destruct (_ || _); [done|]. by injection He as _ <-.
  - unfold beans_list_reverse. by rewrite (proj2 (Z.ltb_lt 1 (l_len l))) by done.
  - unfold beans_list_clear. rewrite (proj2 (Z.eqb_neq (l_len l) 0)) by done. cbv zeta.
    destruct (_ =? 0); [done|]. by rewrite clear_quiet.
Qed.

Lemma steps_count `{Alloc} n l l' :
  nsteps list_step n l l' -> is_u32 (l_change_count l) ->
  l_change_count l' = u32 (l_change_count l + Z.of_nat n) /\ (n = 0%nat /\ l' = l \/ 1 <= l_change_kind l' <= 7).
Proof.
  induction 1 as [l|n l m l' Hs _ IH]; intros Hc; [split; [word|by left]|].
  apply step_count in Hs as [Hm Hk]. destruct IH as [Hl' Hk']; [rewrite Hm; apply u32_is|].
  split; [rewrite Hl', Hm; unfold u32; dlia|]. right. by destruct Hk' as [[_ ->]|].
Qed.

Lemma change_name_ok k : 1 <= k <= 7 -> plain (list_change_name k) /\ slen (list_change_name k) <= 7 /\
  c_str (list_change_name k) = list_change_name k.
Proof.
  intros Hk. assert (Hc : k = 1 \/ k = 2 \/ k = 3 \/ k = 4 \/ k = 5 \/ k = 6 \/ k = 7) by lia.
  destruct Hc as [->|[->|[->|[->|[->|[->| ->]]]]]]; (split; [plain_text|split; [vm_compute; done|reflexivity]]).
Qed.

Lemma iter_invalid_text {A} (l : BList) was line col :
  1 <= l_change_kind l <= 7 -> is_i64 was -> is_i64 (l_len l) ->
  @beans_list_iter_invalid A l was line col =
    Panic (lit "list changed during iteration (" ++ list_change_name (l_change_kind l) ++ lit ", length " ++
      rt_itoa was ++ (if l_len l =? was then lit ")" else lit " -> " ++ rt_itoa (l_len l) ++ lit ")")) line col.
Proof.
  intros Hk Hw Hl. destruct (change_name_ok _ Hk) as (Hp & Hlen & Hc).
  pose proof (itoa_len was Hw). pose proof (itoa_len _ Hl). unfold beans_list_iter_invalid. cbv zeta.
  destruct (Z.eqb_spec (l_len l) was) as [He|He]; cbn [negb].
  - erewrite (vformat_full 112).
    + reflexivity.
    + change (lit "list changed during iteration (%s, length %lld)") with
        (lit "list changed during iteration (" ++ lit "%s" ++ lit ", length " ++ lit "%lld" ++ lit ")").
      apply formats_plain; [plain_text|]. rewrite <-Hc at 2. apply formats_s.
      apply formats_plain; [plain_text|]. apply formats_lld. apply formats_end. plain_text.
    + rewrite !slen_app. change (slen (lit "list changed during iteration (")) with 31.
      change (slen (lit ", length ")) with 9. change (slen (lit ")")) with 1. lia.
  - erewrite (vformat_full 112).
    + reflexivity.
    + change (lit "list changed during iteration (%s, length %lld -> %lld)") with
        (lit "list changed during iteration (" ++ lit "%s" ++ lit ", length " ++ lit "%lld" ++ lit " -> " ++ lit "%lld" ++ lit ")").
      apply formats_plain; [plain_text|]. rewrite <-Hc at 2. apply formats_s.
      apply formats_plain; [plain_text|]. apply formats_lld.
      apply formats_plain; [plain_text|]. apply formats_lld. apply formats_end. plain_text.
    + rewrite !slen_app. change (slen (lit "list changed during iteration (")) with 31.
      change (slen (lit ", length ")) with 9. change (slen (lit " -> ")) with 4. change (slen (lit ")")) with 1. lia.
Qed.

(** Iteration: after any sequence of fewer than 2^32 structural changes (push,
    insert, remove, a clear of a non-empty list, a reverse of two or more) the
    change count a loop started with no longer matches, and the panic names
    the last change and both lengths in full, inside its buffer.  Reversing
    keeps the elements in reverse order. *)
Theorem list_iteration_guard `{AllocLaws} (l l' : BList) (es : list str) (n : nat) (line col : Z)
    (R : rep l es) (Hc : is_u32 (l_change_count l)) (Hn : (0 < n)%nat) (Hmax : Z.of_nat n < 2 ^ 32)
    (Hs : nsteps list_step n l l') (Hl' : is_i64 (l_len l')) :
  l_change_count l' <> l_change_count l /\
  @beans_list_iter_invalid unit l' (l_len l) line col =
    Panic (lit "list changed during iteration (" ++ list_change_name (l_change_kind l') ++ lit ", length " ++
      rt_itoa (l_len l) ++ (if l_len l' =? l_len l then lit ")" else lit " -> " ++ rt_itoa (l_len l') ++ lit ")"))
      line col /\
  rep (beans_list_reverse l) (rev es).
Proof.
  destruct (steps_count n l l' Hs Hc) as [He Hk]. split_and!.
  - rewrite He. unfold is_u32, u32 in *. dlia.
  - apply iter_invalid_text; [destruct Hk as [[-> _]|]; [lia|done]|by eapply rep_i64|done].
  - by apply reverse_rep.
Qed.

Lemma list_iteration_guard_witness :
  exists l', beans_list_push_typed ex_list (slot_bytes 7) = Ok l' /\ l_change_count l' <> l_change_count ex_list /\
  @beans_list_iter_invalid unit l' 3 1 2 =
    Panic (lit "list changed during iteration (push, length 3 -> 4)") 1 2.
Proof.
  destruct (beans_list_push_typed ex_list (slot_bytes 7)) as [l'|m a b] eqn:He;
    [|vm_compute in He; discriminate He].
  assert (Hs : nsteps list_step 1 ex_list l').
  { econstructor; [|constructor]. by apply (step_push _ (slot_bytes 7)). }
  assert (Hk : l_change_kind l' = 1 /\ l_len l' = 4).
  { vm_compute in He. injection He as <-. split; reflexivity. }
  destruct (list_iteration_guard ex_list l' _ 1 1 2 ex_list_rep) as (H1 & H2 & _);
    [split; done|lia|lia|done|rewrite (proj2 Hk); split; done|].
  exists l'. split; [reflexivity|]. split; [exact H1|].
  rewrite (proj1 Hk), (proj2 Hk) in H2. exact H2.
Defined.
