(* ===== verification/ListSort.v ===== *)
(** * ListSort: list sorting, and the adaptive merge sort

    [runtime/beans_rt.c]: [list_merge_sort], [list_radix_sort_int],
    [beans_list_sort], [beans_list_sort_by] and [beans_list_sort_by_key].  The
    arrays are the lists of their cells; an array of keys and the array of
    values moved with it are one list of pairs.  A program's comparator and key
    function may panic; that they leave the list alone is checked by the code
    ([rt_sort_check]) and assumed here. *)

From Stdlib Require Import Sorting.Sorted.
From S2P Require Import Prelude Slots Mem ListRt.

Open Scope c_scope.

(** ** The bottom-up merge *)

Section merge.
Context {A : Type} (less : A -> A -> result bool).

(** [while (i < mid && j < hi)] and the two loops after it; the fuel is the
    number of cells left. *)
Fixpoint merge_run (fuel : nat) (left right : list A) : result (list A) :=
  match fuel, left, right with
  | S fuel, x :: l, y :: r =>
      less y x ≫= fun swap : bool =>
      if swap then cons y <$> merge_run fuel left r else cons x <$> merge_run fuel l right
  | _, [], _ => Ok right
  | _, _, _ => Ok left
  end.

Definition cells (a : list A) (from to : Z) : list A :=
  take (Z.to_nat (to - from)) (drop (Z.to_nat from) a).

(** One block: merge [lo, mid) with [mid, hi) and copy the result back. *)
Definition merge_block (a : list A) (lo mid hi : Z) : result (list A) :=
  merged ← merge_run (Z.to_nat (hi - lo)) (cells a lo mid) (cells a mid hi);
  Ok (take (Z.to_nat lo) a ++ merged ++ drop (Z.to_nat hi) a).

(** [for (lo = 0; lo < n; lo += 2 * w)]. *)
Fixpoint merge_pass (fuel : nat) (w n lo : Z) (a : list A) : result (list A) :=
  match fuel with
  | O => Ok a
  | S fuel =>
      if lo <? n then
        let mid := if lo + w <? n then lo + w else n in
        let hi := if lo + 2 * w <? n then lo + 2 * w else n in
        if hi <=? mid then merge_pass fuel w n (lo + 2 * w) a
        else a ← merge_block a lo mid hi; merge_pass fuel w n (lo + 2 * w) a
      else Ok a
  end.

(** [for (w = 1; w < n; w *= 2)]: [w] fits a signed 64-bit word. *)
Fixpoint merge_widths (fuel : nat) (w n : Z) (a : list A) : result (list A) :=
  match fuel with
  | O => Ok a
  | S fuel =>
      if w <? n then a ← merge_pass (Z.to_nat n) w n 0 a; merge_widths fuel (w * 2) n a
      else Ok a
  end.

(** The sort of the array; [n] is its length. *)
Definition merge_sort (a : list A) : result (list A) :=
  let n := Z.of_nat (length a) in
  if n <? 2 then Ok a else merge_widths 64 1 n a.

(** The loops of [list_sort_by_key_slots]: a lone run is copied onto itself. *)
Fixpoint key_merge_pass (fuel : nat) (w n lo : Z) (a : list A) : result (list A) :=
  match fuel with
  | O => Ok a
  | S fuel =>
      if lo <? n then
        let mid := if lo + w <? n then lo + w else n in
        let hi := if lo + 2 * w <? n then lo + 2 * w else n in
        a ← merge_block a lo mid hi; key_merge_pass fuel w n (lo + 2 * w) a
      else Ok a
  end.

Fixpoint key_merge_widths (fuel : nat) (w n : Z) (a : list A) : result (list A) :=
  match fuel with
  | O => Ok a
  | S fuel =>
      if w <? n then a ← key_merge_pass (Z.to_nat n) w n 0 a; key_merge_widths fuel (w * 2) n a
      else Ok a
  end.

End merge.

(** ** The radix passes *)

Definition RADIX : nat := Z.to_nat 65536.

Section radix.
Context {A : Type} (key : A -> Z).

(** [(key >> shift) & 65535]. *)
Definition radix_word (shift : Z) (x : A) : nat := Z.to_nat ((key x >>! shift) &! 65535).

Definition radix_count (shift : Z) (src : list A) : list Z :=
  fold_left (fun count x => alter (fun c => c + 1) (radix_word shift x) count) src (replicate RADIX 0).

(** [at[word] = sum; sum += count[word]]. *)
Fixpoint radix_starts (sum : Z) (count : list Z) : list Z :=
  match count with
  | [] => []
  | c :: count => sum :: radix_starts (sum + c) count
  end.

(** [dst[at[word]++] = src[i]]. *)
Fixpoint radix_scatter (shift : Z) (src : list A) (at_ : list Z) (dst : list A) : list A :=
  match src with
  | [] => dst
  | x :: src =>
      let word := radix_word shift x in
      let pos := at_ !!! word in
      radix_scatter shift src (<[word := pos + 1]> at_) (<[Z.to_nat pos := x]> dst)
  end.

Definition radix_pass (shift : Z) (src dst : list A) : list A :=
  radix_scatter shift src (radix_starts 0 (radix_count shift src)) dst.

(** The passes swap the two buffers. *)
Fixpoint radix_passes (passes : nat) (pass : Z) (src dst : list A) : list A :=
  match passes with
  | O => src
  | S passes => radix_passes passes (pass + 1) (radix_pass (pass * 16) src dst) src
  end.

End radix.

Definition list_min (x : Z) (l : list Z) : Z := fold_left (fun m v => if v <? m then v else m) l x.
Definition list_max (x : Z) (l : list Z) : Z := fold_left (fun m v => if m <? v then v else m) l x.

Definition span_passes (minimum maximum : Z) : nat :=
  let span := u64 maximum -! u64 minimum in
  if span <=? 0xffff then 1 else if span <=? 0xffffffff then 2 else 4.

(** [buf] is the scratch array, as allocated. *)
Definition list_radix_sort_int (a buf : list Z) : list Z :=
  match a with
  | first :: ((_ :: _) as rest) =>
      let minimum := list_min first rest in
      let maximum := list_max first rest in
      radix_passes (fun v => u64 v -! u64 minimum) (span_passes minimum maximum) 0 a buf
  | _ => a
  end.

(** ** The entries *)

(** Writing every slot back, at the list's width. *)
Definition slot_cell (stride v : Z) : str :=
  if stride =? 4 then rt_store_le (u32 v) 4 else rt_store_le (u64 v) 8.

Fixpoint put_slots (d : str) (stride i : Z) (slots : list Z) : str :=
  match slots with
  | [] => d
  | v :: slots =>
      put_slots (mem_set d (i * (if stride =? 4 then 4 else 8)) (slot_cell stride v)) stride (i + 1) slots
  end.

Definition list_narrow_slots (l : BList) (slots : list Z) : BList :=
  set_data l (put_slots (l_data l) (l_stride l) 0 slots).

Definition sort_changed (l : BList) : BList :=
  if 1 <? l_len l then list_changed l LIST_CHANGE_SORT else l.

Definition beans_list_sort (h : heap) (l : BList) (kind : Z) (buf : list Z) : result BList :=
  let l := sort_changed l in
  let wide := list_slots l in
  if kind =? 0 then Ok (list_narrow_slots l (list_radix_sort_int wide buf))
  else
    sorted ← merge_sort (fun x y => c ← slot_cmp h x y kind; Ok (c <? 0)) wide;
    Ok (list_narrow_slots l sorted).

(** The list after the call, and how the call ended: a panic of the comparator
    unwinds through the restore guard, which puts the array back. *)
Definition beans_list_sort_by (l : BList) (thunk : Z -> Z -> result bool) : BList * result unit :=
  let l := sort_changed l in
  match merge_sort thunk (list_slots l) with
  | Ok sorted => (list_narrow_slots l sorted, Ok tt)
  | Panic m line col => (l, Panic m line col)
  end.

(** [keys[i] = key_fn(box, data[i])], in order. *)
Fixpoint key_loop (key_fn : Z -> result Z) (slots : list Z) : result (list (Z * Z)) :=
  match slots with
  | [] => Ok []
  | v :: slots => k ← key_fn v; cons (k, v) <$> key_loop key_fn slots
  end.

Definition list_sort_by_key_slots (slots : list Z) (key_fn : Z -> result Z) (buf : list (Z * Z))
    : result (list Z) :=
  keyed ← key_loop key_fn slots;
  match keyed with
  | (k0, _) :: ((_ :: _) as rest) =>
      let n := Z.of_nat (length keyed) in
      let minimum := list_min k0 (fst <$> rest) in
      let maximum := list_max k0 (fst <$> rest) in
      let passes := span_passes minimum maximum in
      if n <? Z.of_nat passes * 4096 then
        fmap snd <$> key_merge_widths (fun x y => Ok (fst x <? fst y)) 64 1 n keyed
      else Ok (snd <$> radix_passes (fun p => u64 (fst p) -! u64 minimum) passes 0 keyed buf)
  | _ => Ok slots
  end.

(** The keys are all computed before the list is written. *)
Definition beans_list_sort_by_key (l : BList) (key_fn : Z -> result Z) (buf : list (Z * Z))
    : BList * result unit :=
  let l := sort_changed l in
  match list_sort_by_key_slots (list_slots l) key_fn buf with
  | Ok sorted => (list_narrow_slots l sorted, Ok tt)
  | Panic m line col => (l, Panic m line col)
  end.

(** * Stable sorting

    [stable_sort] is the specification: insertion from the right, ties in input
    order.  A list that is sorted and keeps every class of equivalent elements
    in order is the stable sort ([sorted_unique]).  The bottom-up merge of
    [ListSort] computes it for every total preorder; for any comparator at all
    it only permutes. *)

Section stable.
Context {A : Type} (valid : A -> Prop) (less : A -> A -> bool) `{!SlotOrder valid less}.

Fixpoint insert_by (x : A) (l : list A) : list A :=
  match l with
  | [] => [x]
  | y :: l' => if less y x then y :: insert_by x l' else x :: l
  end.

Definition stable_sort (l : list A) : list A := foldr insert_by [] l.

Lemma insert_by_perm x l : insert_by x l ≡ₚ x :: l.
Proof.
  induction l as [|y l IH]; cbn [insert_by]; [done|]. case_match; [|done].
  rewrite IH. apply Permutation_swap.
Qed.

Lemma stable_sort_perm l : stable_sort l ≡ₚ l.
Proof. induction l as [|x l IH]; [done|]. cbn [stable_sort foldr]. fold (stable_sort l). by rewrite insert_by_perm, IH. Qed.

Lemma stable_sort_length l : length (stable_sort l) = length l.
Proof. by rewrite stable_sort_perm. Qed.

(** No element is less than one before it. *)
Definition sorted (l : list A) : Prop := StronglySorted (fun x y => less y x = false) l.

Lemma insert_by_sorted x l : valid x -> Forall valid l -> sorted l -> sorted (insert_by x l).
Proof.
  intros Hx Hl. induction 1 as [|y l Hs IH Hy]; cbn [insert_by]; [by repeat constructor|].
  inversion Hl as [|? ? Hvy Hvl]; subst. destruct (less y x) eqn:Hyx.
  - constructor; [by apply IH|]. rewrite insert_by_perm. constructor; [|done].
    destruct (less x y) eqn:Hxy; [|done].
    pose proof (less_trans x y x Hx Hvy Hx Hxy Hyx) as Ht. by rewrite less_irrefl in Ht.
  - constructor; [by constructor|]. constructor; [done|]. rewrite Forall_forall in Hy, Hvl |- *.
    intros z Hz. by apply (less_cotrans z y x); auto.
Qed.

Lemma stable_sort_valid l : Forall valid l -> Forall valid (stable_sort l).
Proof. by rewrite stable_sort_perm. Qed.

Lemma stable_sort_sorted l : Forall valid l -> sorted (stable_sort l).
Proof.
  induction 1 as [|x l Hx Hl IH]; [constructor|]. cbn [stable_sort foldr]. fold (stable_sort l).
  apply insert_by_sorted; [done|by apply stable_sort_valid|done].
Qed.

(** Equivalent elements. *)
Definition eqv (v y : A) : bool := negb (less v y) && negb (less y v).

Lemma eqv_refl v : valid v -> eqv v v = true.
Proof. intros Hv. unfold eqv. by rewrite (less_irrefl v Hv). Qed.

Lemma insert_by_filter v x l :
  valid v -> valid x -> Forall valid l ->
  List.filter (eqv v) (insert_by x l) = List.filter (eqv v) (x :: l).
Proof.
  intros Hv Hx. induction 1 as [|y l Hy Hl IH]; cbn [insert_by]; [done|].
  destruct (less y x) eqn:Hyx; [|done]. cbn [List.filter] in IH |- *. rewrite IH.
  destruct (eqv v y) eqn:Hvy, (eqv v x) eqn:Hvx; try done. exfalso.
  unfold eqv in *. bools. assert (less y x = false); [|congruence].
  by apply (less_cotrans y v x).
Qed.

Lemma stable_sort_filter v l :
  valid v -> Forall valid l -> List.filter (eqv v) (stable_sort l) = List.filter (eqv v) l.
Proof.
  intros Hv. induction 1 as [|x l Hx Hl IH]; [done|]. cbn [stable_sort foldr]. fold (stable_sort l).
  rewrite insert_by_filter by (done || by apply stable_sort_valid). cbn [List.filter]. by rewrite IH.
Qed.

(** Sorted lists with the same classes are equal. *)
Lemma sorted_unique l1 : forall l2,
  Forall valid l1 -> Forall valid l2 -> sorted l1 -> sorted l2 ->
  (forall v, valid v -> List.filter (eqv v) l1 = List.filter (eqv v) l2) -> l1 = l2.
Proof.
  assert (Hin : forall v l l', valid v -> v ∈ l -> List.filter (eqv v) l = List.filter (eqv v) l' -> v ∈ l').
  { intros v l l' Hv Hl He. apply list_elem_of_In. assert (Hf : In v (List.filter (eqv v) l')).
    { rewrite <-He. apply filter_In. split; [by apply list_elem_of_In|by apply eqv_refl]. }
    by apply filter_In in Hf as [? _]. }
  induction l1 as [|x l1 IH]; intros l2 Hv1 Hv2 Hs1 Hs2 Hf.
  { destruct l2 as [|y l2]; [done|]. inversion Hv2; subst.
    assert (y ∈ @nil A) as Hn; [|by apply not_elem_of_nil in Hn].
    eapply Hin; [done|by left|]. symmetry. by apply Hf. }
  inversion Hv1 as [|? ? Hx Hv1']; subst. inversion Hs1 as [|? ? Hs1' Hle1]; subst.
  destruct l2 as [|y l2].
  { assert (x ∈ @nil A) as Hn; [|by apply not_elem_of_nil in Hn]. eapply Hin; [done|by left|by apply Hf]. }
  inversion Hv2 as [|? ? Hy Hv2']; subst. inversion Hs2 as [|? ? Hs2' Hle2]; subst.
  rewrite Forall_forall in Hle1, Hle2.
  assert (Hxy : less x y = false).
  { assert (x ∈ y :: l2) as [->|?]%elem_of_cons by (eapply Hin; [done|by left|by apply Hf]); [by apply less_irrefl|auto]. }
  assert (Hyx : less y x = false).
  { assert (y ∈ x :: l1) as [->|?]%elem_of_cons by (eapply Hin; [done|by left|symmetry; by apply Hf]); [by apply less_irrefl|auto]. }
  assert (x = y) as ->.
  { pose proof (Hf x Hx) as He. cbn [List.filter] in He. rewrite eqv_refl in He by done.
    unfold eqv at 2 in He. rewrite Hxy, Hyx in He. by injection He. }
  f_equal. apply IH; [done..|]. intros v Hvv. specialize (Hf v Hvv). cbn [List.filter] in Hf.
  destruct (eqv v y); congruence.
Qed.

Lemma stable_sort_unique l l' :
  Forall valid l -> sorted l' -> Forall valid l' ->
  (forall v, valid v -> List.filter (eqv v) l' = List.filter (eqv v) l) -> l' = stable_sort l.
Proof.
  intros Hl Hs Hl' Hf. apply sorted_unique; [done|by apply stable_sort_valid|done|by apply stable_sort_sorted|].
  intros v Hv. by rewrite Hf, stable_sort_filter.
Qed.

(** ** Merging *)

Fixpoint pmerge (l : list A) : list A -> list A :=
  fix go r :=
    match l, r with
    | x :: l', y :: r' => if less y x then y :: go r' else x :: pmerge l' r
    | [], _ => r
    | _, [] => l
    end.

Lemma pmerge_cons x l y r :
  pmerge (x :: l) (y :: r) = if less y x then y :: pmerge (x :: l) r else x :: pmerge l (y :: r).
Proof. done. Qed.

Lemma pmerge_nil_l r : pmerge [] r = r.
Proof. by destruct r. Qed.

Lemma pmerge_nil_r l : pmerge l [] = l.
Proof. by destruct l. Qed.

Lemma merge_run_pure fuel : forall l r,
  (length l + length r <= fuel)%nat ->
  merge_run (fun x y => Ok (less x y)) fuel l r = Ok (pmerge l r).
Proof.
  induction fuel as [|fuel IH]; intros [|x l] [|y r] Hf; cbn [length] in *; try done; try lia.
  cbn [merge_run]. rewrite pmerge_cons. change (Ok (less y x) ≫= ?f) with (f (less y x)). cbv beta.
  destruct (less y x); rewrite IH by (cbn [length]; lia); done.
Qed.

Lemma pmerge_insert x l r :
  valid x -> Forall valid l -> Forall valid r ->
  pmerge (insert_by x l) r = insert_by x (pmerge l r).
Proof.
  intros Hx Hl. revert r. induction Hl as [|z l Hz Hl IHl]; intros r Hr; induction Hr as [|y r Hy Hr IHr].
  - done.
  - rewrite !pmerge_nil_l in *. cbn [insert_by] in *. rewrite pmerge_cons, IHr, pmerge_nil_l.
    by destruct (less y x).
  - by rewrite !pmerge_nil_r.
  - cbn [insert_by] in *. destruct (less z x) eqn:Hzx; rewrite !pmerge_cons.
    + destruct (less y z) eqn:Hyz; cbn [insert_by].
      * rewrite (less_trans y z x Hy Hz Hx Hyz Hzx). f_equal. exact IHr.
      * rewrite Hzx. f_equal. apply IHl. by constructor.
    + destruct (less y x) eqn:Hyx; [|destruct (less y z) eqn:Hyz; cbn [insert_by]; by rewrite ?Hyx, ?Hzx].
      assert (Hyz : less y z = true).
      { destruct (less y z) eqn:Hyz; [done|]. pose proof (less_cotrans y z x Hy Hz Hx Hyz Hzx). congruence. }
      rewrite Hyz. cbn [insert_by]. rewrite Hyx. f_equal. exact IHr.
Qed.

Lemma pmerge_sorts l r :
  Forall valid l -> Forall valid r -> pmerge (stable_sort l) (stable_sort r) = stable_sort (l ++ r).
Proof.
  intros Hl Hr. induction Hl as [|x l Hx Hl IH]; [apply pmerge_nil_l|].
  cbn [app stable_sort foldr]. fold (stable_sort l) (stable_sort (l ++ r)).
  rewrite pmerge_insert by (done || by apply stable_sort_valid). by rewrite IH.
Qed.

(** ** The passes *)

Lemma merge_block_at (lessr : A -> A -> result bool) pre l r post lo mid hi m :
  lo = Z.of_nat (length pre) -> mid = lo + Z.of_nat (length l) -> hi = mid + Z.of_nat (length r) ->
  merge_run lessr (length l + length r) l r = Ok m ->
  merge_block lessr (pre ++ l ++ r ++ post) lo mid hi = Ok (pre ++ m ++ post).
Proof.
  intros -> -> -> Hm. unfold merge_block, cells.
  replace (Z.to_nat (Z.of_nat (length pre))) with (length pre) by lia.
  replace (Z.to_nat (Z.of_nat (length pre) + Z.of_nat (length l))) with (length pre + length l)%nat by lia.
  replace (Z.to_nat (Z.of_nat (length pre) + Z.of_nat (length l) + Z.of_nat (length r)))
    with (length pre + (length l + length r))%nat by lia.
  replace (Z.to_nat _) with (length l + length r)%nat at 1 by lia.
  rewrite drop_app_length.
  replace (Z.to_nat (Z.of_nat (length pre) + Z.of_nat (length l) - Z.of_nat (length pre))) with (length l) by lia.
  rewrite take_app_length, <-!drop_drop, drop_app_length, !drop_app_length.
  replace (Z.to_nat _) with (length r) by lia. rewrite !take_app_length. rewrite Hm. done.
Qed.

(** Sorted runs of [w] elements, the last one shorter. *)
Fixpoint runs (fuel w : nat) (l : list A) : list A :=
  match fuel, l with
  | S fuel, _ :: _ => stable_sort (take w l) ++ runs fuel w (drop w l)
  | _, _ => []
  end.

Lemma runs_fuel w f : forall f' l,
  (0 < w)%nat -> (length l <= f)%nat -> (length l <= f')%nat -> runs f w l = runs f' w l.
Proof.
  induction f as [|f IH]; intros [|f'] [|x l] Hw H1 H2; cbn [length] in *; try done; try lia.
  cbn [runs]. f_equal. apply IH; rewrite ?length_drop; cbn [length]; lia.
Qed.

Lemma runs_short w f l : (length l <= w)%nat -> (length l <= f)%nat -> runs f w l = stable_sort l.
Proof.
  intros Hw Hf. destruct f as [|f], l as [|x l]; cbn [length] in *; try done; try lia. cbn [runs].
  rewrite take_ge, drop_ge by (cbn [length]; lia). destruct f; by rewrite app_nil_r.
Qed.

Lemma runs_one f : forall l, (length l <= f)%nat -> runs f 1 l = l.
Proof.
  induction f as [|f IH]; intros [|x l] Hf; cbn [length] in *; try done; try lia.
  cbn [runs take drop stable_sort foldr insert_by app]. rewrite take_0. cbn [foldr insert_by app]. f_equal. apply IH. lia.
Qed.

Lemma runs_pair w f l :
  (0 < w < length l)%nat -> (length l <= f)%nat ->
  runs f w l = stable_sort (take w l) ++ stable_sort (take w (drop w l)) ++ runs f w (drop (w + w) l).
Proof.
  intros Hw Hf. rewrite (runs_fuel w f (S (S f)) l) by lia.
  destruct l as [|x l]; [cbn in Hw; lia|]. cbn [runs]. f_equal.
  destruct (drop w (x :: l)) as [|y l'] eqn:Hd.
  { apply (f_equal length) in Hd. rewrite length_drop in Hd. cbn [length] in *. lia. }
  by rewrite <-Hd, drop_drop.
Qed.

Lemma merge_pass_runs w fuel : forall lo pre l,
  (0 < w)%nat -> Forall valid l -> (length l <= fuel)%nat ->
  lo = Z.of_nat (length pre) \/ l = [] /\ Z.of_nat (length pre) <= lo ->
  merge_pass (fun x y => Ok (less x y)) fuel (Z.of_nat w) (Z.of_nat (length pre + length l)) lo
    (pre ++ runs (length l) w l) = Ok (pre ++ runs (length l) (w + w) l).
Proof.
  induction fuel as [|fuel IH]; intros lo pre l Hw Hl Hf Hlo; cbn [merge_pass].
  { destruct l; [done|cbn in Hf; lia]. }
  destruct l as [|x l0] eqn:El.
  { cbn [length runs]. rewrite (proj2 (Z.ltb_ge _ _)); [done|]. destruct Hlo as [|[_ ?]]; lia. }
  rewrite <-El in *. assert (Hpos : (0 < length l)%nat) by (subst l; cbn; lia).
  destruct Hlo as [Hlo|[Hlo _]]; [|congruence]. clear El x l0.
  rewrite (proj2 (Z.ltb_lt _ _)) by lia.
  destruct (Z.ltb_spec (lo + Z.of_nat w) (Z.of_nat (length pre + length l))) as [Hmid|Hmid].
  2:{ rewrite (proj2 (Z.ltb_ge (lo + 2 * Z.of_nat w) _)), Z.leb_refl by lia.
      rewrite !runs_short by lia. specialize (IH (lo + 2 * Z.of_nat w) (pre ++ stable_sort l) []).
      cbn [length runs] in IH. rewrite app_nil_r, length_app, stable_sort_length, Nat.add_0_r in IH.
      apply IH; [done|constructor|lia|right; split; [done|lia]]. }
  rewrite (runs_pair w (length l) l) by lia.
  set (l1 := stable_sort (take w l)). set (l2 := stable_sort (take w (drop w l))).
  assert (H1 : length l1 = w) by (unfold l1; rewrite stable_sort_length, length_take; lia).
  assert (H2 : length l2 = min w (length l - w)) by (unfold l2; rewrite stable_sort_length, length_take, length_drop; lia).
  set (hi := if lo + 2 * Z.of_nat w <? Z.of_nat (length pre + length l) then _ else _).
  assert (Hhi : hi = lo + Z.of_nat w + Z.of_nat (length l2)).
  { unfold hi. destruct (Z.ltb_spec (lo + 2 * Z.of_nat w) (Z.of_nat (length pre + length l))); lia. }
  rewrite (proj2 (Z.leb_gt hi _)) by lia.
  rewrite (merge_block_at _ pre l1 l2 _ lo (lo + Z.of_nat w) hi (pmerge l1 l2)); [|lia|lia|lia|by apply merge_run_pure].
  unfold l1, l2. rewrite pmerge_sorts by (by repeat (apply Forall_take || apply Forall_drop)).
  rewrite (take_take_drop l w w).
  set (m := stable_sort (take (w + w) l)).
  assert (Hm : length m = min (w + w) (length l)) by (unfold m; rewrite stable_sort_length, length_take; lia).
  change (Ok ?v ≫= ?f) with (f v). cbv beta.
  specialize (IH (lo + 2 * Z.of_nat w) (pre ++ m) (drop (w + w) l)).
  rewrite length_drop, length_app in IH.
  rewrite (runs_fuel w (length l - (w + w)) (length l)), <-!app_assoc in IH by (rewrite ?length_drop; lia).
  replace (length pre + length m + (length l - (w + w)))%nat with (length pre + length l)%nat in IH by lia.
  rewrite IH; [|done|by apply Forall_drop|lia|].
  - f_equal. f_equal. rewrite (runs_fuel (w + w) (length l) (S (length l))) by lia.
    destruct l as [|x l0]; [cbn in Hpos; lia|]. cbn [runs]. f_equal.
    apply runs_fuel; rewrite ?length_drop; lia.
  - destruct (decide (w + w <= length l)%nat); [left; lia|right].
    split; [apply drop_ge; lia|lia].
Qed.

Lemma merge_widths_sort fuel : forall w l,
  (0 < w)%nat -> Forall valid l -> Z.of_nat (length l) <= Z.of_nat w * 2 ^ Z.of_nat fuel ->
  merge_widths (fun x y => Ok (less x y)) fuel (Z.of_nat w) (Z.of_nat (length l)) (runs (length l) w l) =
    Ok (stable_sort l).
Proof.
  induction fuel as [|fuel IH]; intros w l Hw Hl Hf; cbn [merge_widths].
  { by rewrite runs_short by lia. }
  destruct (Z.ltb_spec (Z.of_nat w) (Z.of_nat (length l))); [|by rewrite runs_short by lia].
  pose proof (merge_pass_runs w (Z.to_nat (Z.of_nat (length l))) 0 [] l Hw Hl) as Hp.
  cbn [app length Nat.add] in Hp. rewrite Hp by (lia || by left).
  change (Ok ?v ≫= ?f) with (f v). cbv beta.
  replace (Z.of_nat w * 2) with (Z.of_nat (w + w)) by lia. apply IH; [lia|done|].
  rewrite Nat2Z.inj_succ, Z.pow_succ_r in Hf by lia. lia.
Qed.

(** The merge sort is the stable sort. *)
Lemma merge_sort_stable l :
  Forall valid l -> Z.of_nat (length l) < 2 ^ 63 -> 
  merge_sort (fun x y => Ok (less x y)) l = Ok (stable_sort l).
Proof.
  intros Hl Hn. unfold merge_sort. destruct (Z.ltb_spec (Z.of_nat (length l)) 2) as [Hlt|Hge].
  - destruct l as [|x [|y l]]; [done|done|cbn in Hlt; lia].
  - pose proof (merge_widths_sort 64 1 l ltac:(lia) Hl) as Hs. rewrite runs_one in Hs by lia.
    apply Hs. change (2 ^ Z.of_nat 64) with (2 ^ 64). lia.
Qed.

End stable.

(** ** Any comparator: the result is a permutation *)

Section any.
Context {A : Type} (less : A -> A -> result bool).

Lemma merge_run_perm fuel : forall l r m,
  (length l + length r <= fuel)%nat -> merge_run less fuel l r = Ok m -> m ≡ₚ l ++ r.
Proof.
  induction fuel as [|fuel IH]; intros [|x l] [|y r] m Hf; cbn [merge_run]; try (by intros [= <-]);
    cbn [length] in Hf; try lia; try (intros [= <-]; by rewrite ?app_nil_r).
  intros (b & _ & Hb)%bind_ok. destruct b.
  - destruct (merge_run less fuel (x :: l) r) as [t|] eqn:He; [|done]. injection Hb as <-.
    apply IH in He; [|cbn [length]; lia]. rewrite He. by rewrite <-Permutation_middle.
  - destruct (merge_run less fuel l (y :: r)) as [t|] eqn:He; [|done]. injection Hb as <-.
    apply IH in He; [|cbn [length]; lia]. by rewrite He.
Qed.

Lemma merge_block_perm a lo mid hi a' :
  0 <= lo <= mid -> mid <= hi -> merge_block less a lo mid hi = Ok a' -> a' ≡ₚ a.
Proof.
  intros Hlo Hmid. unfold merge_block. intros (m & Hm & [= <-])%bind_ok.
  apply merge_run_perm in Hm; [|unfold cells; rewrite !length_take, !length_drop; lia].
  rewrite Hm. unfold cells.
  rewrite <-(take_drop (Z.to_nat lo) a) at 5. apply Permutation_app_head.
  rewrite <-(take_drop (Z.to_nat (mid - lo)) (drop (Z.to_nat lo) a)) at 2.
  rewrite <-app_assoc, drop_drop. apply Permutation_app_head.
  replace (Z.to_nat lo + Z.to_nat (mid - lo))%nat with (Z.to_nat mid) by lia.
  rewrite <-(take_drop (Z.to_nat (hi - mid)) (drop (Z.to_nat mid) a)) at 2. rewrite drop_drop.
  by replace (Z.to_nat mid + Z.to_nat (hi - mid))%nat with (Z.to_nat hi) by lia.
Qed.

Lemma merge_pass_perm fuel : forall w n lo a a',
  0 <= lo -> 0 < w -> merge_pass less fuel w n lo a = Ok a' -> a' ≡ₚ a.
Proof.
  induction fuel as [|fuel IH]; intros w n lo a a' Hlo Hw; cbn [merge_pass]; [by intros [= ->]|].
  destruct (Z.ltb_spec lo n); [|by intros [= ->]]. cbv zeta.
  set (mid := if lo + w <? n then _ else _). set (hi := if lo + 2 * w <? n then _ else _).
  destruct (Z.leb_spec hi mid); [apply IH; lia|]. intros (b & Hb & Hr)%bind_ok.
  apply IH in Hr; [|lia|done]. rewrite Hr. eapply merge_block_perm; [|..|exact Hb]; [|lia].
  unfold mid. case_match; bools; lia.
Qed.

Lemma merge_widths_perm fuel : forall w n a a',
  0 < w -> merge_widths less fuel w n a = Ok a' -> a' ≡ₚ a.
Proof.
  induction fuel as [|fuel IH]; intros w n a a' Hw; cbn [merge_widths]; [by intros [= ->]|].
  case_match; [|by intros [= ->]]. intros (b & Hb & Hr)%bind_ok.
  apply IH in Hr; [|lia]. apply merge_pass_perm in Hb; [|lia..]. by rewrite Hr.
Qed.

Lemma merge_sort_perm a a' : merge_sort less a = Ok a' -> a' ≡ₚ a.
Proof. unfold merge_sort. case_match; [by intros [= ->]|]. by apply merge_widths_perm. Qed.

(** The loops without the early exit compute the same. *)
Lemma merge_run_nil fuel (l : list A) : merge_run less fuel l [] = Ok l.
Proof. by destruct fuel, l. Qed.

Lemma merge_block_lone a lo hi : 0 <= lo <= hi -> merge_block less a lo hi hi = Ok a.
Proof.
  intros Hlo. unfold merge_block, cells. rewrite (Z.sub_diag hi), take_0, merge_run_nil.
  change (Ok ?v ≫= ?f) with (f v). cbv beta. f_equal.
  replace (Z.to_nat hi) with (Z.to_nat lo + Z.to_nat (hi - lo))%nat by lia.
  by rewrite <-drop_drop, !take_drop.
Qed.

Lemma key_merge_pass_eq fuel : forall w n lo a,
  0 <= lo -> 0 < w -> key_merge_pass less fuel w n lo a = merge_pass less fuel w n lo a.
Proof.
  induction fuel as [|fuel IH]; intros w n lo a Hlo Hw; cbn [key_merge_pass merge_pass]; [done|].
  destruct (Z.ltb_spec lo n); [|done]. cbv zeta.
  set (mid := if lo + w <? n then _ else _). set (hi := if lo + 2 * w <? n then _ else _).
  destruct (Z.leb_spec hi mid) as [Hle|Hgt].
  - assert (hi = mid) as -> by (unfold hi, mid in *; repeat case_match; bools; lia).
    rewrite merge_block_lone by (unfold mid; case_match; bools; lia).
    change (Ok ?v ≫= ?f) with (f v). cbv beta. apply IH; lia.
  - destruct (merge_block less a lo mid hi); [|done].
    change (Ok ?v ≫= ?f) with (f v). cbv beta. apply IH; lia.
Qed.

Lemma key_merge_widths_eq fuel : forall w n a,
  0 < w -> key_merge_widths less fuel w n a = merge_widths less fuel w n a.
Proof.
  induction fuel as [|fuel IH]; intros w n a Hw; cbn [key_merge_widths merge_widths]; [done|].
  case_match; [|done]. rewrite key_merge_pass_eq by lia.
  destruct (merge_pass _ _ _ _ _ _); [|done]. change (Ok ?v ≫= ?f) with (f v). cbv beta. apply IH. lia.
Qed.

End any.
