(* ===== verification/RadixProofs.v ===== *)
(** * RadixProofs: the radix sort is the stable sort

    One pass is a stable distribution into 65536 buckets; after [k] passes the
    array is the stable sort by the low [16 * k] bits of the key, and the number
    of passes covers the span of the keys. *)

From Stdlib Require Import Sorting.Sorted.
From S2P Require Import Prelude Slots ListRt ListSort.

Open Scope c_scope.

(** [65536] as a unary number is never computed. *)
#[local] Opaque RADIX.

Lemma RADIX_val : Z.of_nat RADIX = 65536.
Proof. Transparent RADIX. unfold RADIX. apply Z2Nat.id. lia. Qed.
#[local] Opaque RADIX.

Section distribute.
Context {A : Type} (word : A -> nat) (n : nat).

(** Elements of a bucket, and the buckets below [d]. *)
Definition bucket (d : nat) (l : list A) : list A := List.filter (fun x => (word x =? d)%nat) l.

Definition buckets (l : list A) : list A := concat ((fun d => bucket d l) <$> seq 0 n).

Definition below (d : nat) (l : list A) : nat := length (concat ((fun e => bucket e l) <$> seq 0 d)).

Lemma bucket_app d a b : bucket d (a ++ b) = bucket d a ++ bucket d b.
Proof. apply List.filter_app. Qed.

Lemma bucket_cons d x l :
  bucket d (x :: l) = if (word x =? d)%nat then x :: bucket d l else bucket d l.
Proof. done. Qed.

Lemma below_S d l : below (S d) l = (below d l + length (bucket d l))%nat.
Proof. unfold below. rewrite seq_S, fmap_app, concat_app, length_app. cbn. by rewrite app_nil_r. Qed.

(** The array during the scatter: each bucket's placed elements [p], then what
    is left of its room. *)
Definition layout (p : list A) (rest : nat -> list A) : list A :=
  concat ((fun d => bucket d p ++ rest d) <$> seq 0 n).

Lemma seq_split d : (d < n)%nat -> seq 0 n = seq 0 d ++ d :: seq (S d) (n - S d).
Proof.
  intros Hd. replace n with (d + (1 + (n - S d)))%nat at 1 by lia.
  rewrite !seq_app. cbn [seq app]. f_equal. f_equal. f_equal. lia.
Qed.

Lemma concat_fmap_length {B} (f g : B -> list A) (l : list B) :
  (forall x, x ∈ l -> length (f x) = length (g x)) ->
  length (concat (f <$> l)) = length (concat (g <$> l)).
Proof.
  intros Hl. induction l as [|x l IH]; [done|]. cbn [fmap list_fmap concat].
  rewrite !length_app, (Hl x) by (by left). f_equal. apply IH. intros y Hy. apply Hl. by right.
Qed.

(** One element goes to the next free cell of its bucket. *)
Lemma scatter_step p x q rest :
  (word x < n)%nat -> (forall d, (d < n)%nat -> length (rest d) = length (bucket d (x :: q))) ->
  exists rest', <[(below (word x) (p ++ x :: q) + length (bucket (word x) p))%nat := x]> (layout p rest) =
      layout (p ++ [x]) rest' /\
    forall d, (d < n)%nat -> length (rest' d) = length (bucket d q).
Proof.
  intros Hw Hr. set (w := word x) in *.
  assert (Hrw : length (rest w) = S (length (bucket w q))).
  { rewrite Hr, bucket_cons by done. fold w. by rewrite Nat.eqb_refl. }
  destruct (rest w) as [|r0 rs] eqn:Er; [done|]. cbn [length] in Hrw.
  exists (fun d => if decide (d = w) then rs else rest d). split.
  - unfold layout. rewrite (seq_split w) by done. rewrite !fmap_app, !concat_app. cbn [fmap list_fmap concat].
    rewrite decide_True, Er, bucket_app, bucket_cons by done. fold w. rewrite Nat.eqb_refl. cbn [app].
    assert (Hlow : ∀ l0, (forall d, d ∈ l0 -> d <> w) ->
      concat ((fun d => bucket d (p ++ [x]) ++ (if decide (d = w) then rs else rest d)) <$> l0) =
      concat ((fun d => bucket d p ++ rest d) <$> l0)).
    { intros l0 Hd. f_equal. apply list_fmap_ext. intros i d Hi.
      assert (d <> w) by (apply Hd; by eapply list_elem_of_lookup_2).
      rewrite decide_False, bucket_app, bucket_cons by done. fold w.
      rewrite (proj2 (Nat.eqb_neq w d)) by done. cbn. by rewrite app_nil_r. }
    rewrite !Hlow by (intros d [? ?]%elem_of_seq; lia).
    replace (below w (p ++ x :: q)) with (length (concat ((fun d => bucket d p ++ rest d) <$> seq 0 w))).
    2:{ unfold below. apply concat_fmap_length. intros d [? ?]%elem_of_seq.
        by rewrite length_app, Hr, <-length_app, <-bucket_app by lia. }
    rewrite <-!app_assoc, insert_app_r, insert_app_r_alt by lia. rewrite Nat.sub_diag. done.
  - intros d Hd. destruct (decide (d = w)) as [->|Hne]; [lia|].
    rewrite Hr, bucket_cons by done. fold w. by rewrite (proj2 (Nat.eqb_neq w d)) by done.
Qed.

(** Before the first element the array is all room. *)
Lemma layout_split (l : list A) dst :
  (forall x, x ∈ l -> (word x < n)%nat) -> length dst = length l ->
  exists rest, dst = layout [] rest /\ forall d, (d < n)%nat -> length (rest d) = length (bucket d l).
Proof.
  intros Hw Hl.
  assert (Hcut : forall m (ds : list A) off, length ds = length (concat ((fun d => bucket d l) <$> seq off m)) ->
    exists rest, ds = concat (rest <$> seq off m) /\
      forall d, (off <= d < off + m)%nat -> length (rest d) = length (bucket d l)).
  { induction m as [|m IH]; intros ds off Hd; cbn [seq fmap list_fmap concat] in *.
    { exists (fun _ => []). split; [by destruct ds|]. lia. }
    rewrite length_app in Hd.
    destruct (IH (drop (length (bucket off l)) ds) (S off)) as (rest & He & Hr); [rewrite length_drop; lia|].
    exists (fun d => if decide (d = off) then take (length (bucket off l)) ds else rest d). split.
    - rewrite decide_True by done. rewrite <-(take_drop (length (bucket off l)) ds) at 1. f_equal. rewrite He.
      f_equal. apply list_fmap_ext. intros i d Hi. rewrite decide_False; [done|].
      apply list_elem_of_lookup_2, elem_of_seq in Hi. lia.
    - intros d Hd'. case_decide; [subst; rewrite length_take; lia|]. apply Hr. lia. }
  destruct (Hcut n dst 0%nat) as (rest & He & Hr).
  - rewrite Hl. clear -Hw. induction l as [|x l IH].
    { induction (seq 0 n) as [|d t IHt]; [done|]. cbn. exact IHt. }
    rewrite (seq_split (word x)) by (apply Hw; by left). rewrite fmap_app, concat_app. cbn [fmap list_fmap concat].
    rewrite bucket_cons, Nat.eqb_refl. rewrite !length_app. cbn [length].
    assert (Hext : forall l0, (forall d, d ∈ l0 -> d <> word x) ->
      concat ((fun d => bucket d (x :: l)) <$> l0) = concat ((fun d => bucket d l) <$> l0)).
    { intros l0 Hd. f_equal. apply list_fmap_ext. intros i d Hi. rewrite bucket_cons.
      rewrite (proj2 (Nat.eqb_neq _ _)); [done|]. intros He. apply (Hd d); [by eapply list_elem_of_lookup_2|done]. }
    rewrite !Hext by (intros d [? ?]%elem_of_seq; lia).
    rewrite IH by (intros y Hy; apply Hw; by right).
    rewrite (seq_split (word x)) by (apply Hw; by left). rewrite fmap_app, concat_app, length_app.
    cbn [fmap list_fmap concat]. rewrite length_app. lia.
  - exists rest. split; [exact He|]. intros d Hd. apply Hr. lia.
Qed.

End distribute.

Section pass.
Context {A : Type} (key : A -> Z) (shift : Z).

Abbreviation word := (radix_word key shift).

Lemma word_lt x : (word x < RADIX)%nat.
Proof.
  unfold radix_word. pose proof RADIX_val. change 65535 with (Z.ones 16).
  rewrite Z.land_ones by lia. assert (0 <= (key x >>! shift) mod 2 ^ 16 < 65536) by (apply Z.mod_pos_bound; lia). lia.
Qed.

Lemma count_spec src : forall (count : list Z) d c,
  count !! d = Some c ->
  fold_left (fun count x => alter (fun c => c + 1) (word x) count) src count !! d =
    Some (c + Z.of_nat (length (bucket word d src))).
Proof.
  induction src as [|x src IH]; intros count d c Hc; cbn [fold_left].
  { rewrite Hc. f_equal. cbn. lia. }
  rewrite bucket_cons. destruct (Nat.eqb_spec (word x) d) as [He|Hne].
  - rewrite (IH _ d (c + 1)); [f_equal; cbn [length]; lia|].
    rewrite He, list_lookup_alter_eq, Hc. done.
  - apply IH. by rewrite list_lookup_alter_ne.
Qed.

Lemma radix_count_spec src d :
  (d < RADIX)%nat -> radix_count key shift src !! d = Some (Z.of_nat (length (bucket word d src))).
Proof.
  intros Hd. unfold radix_count. rewrite (count_spec src _ d 0); [f_equal; lia|].
  by apply lookup_replicate_2.
Qed.

Lemma radix_starts_lookup (count : list Z) : forall sum d,
  (d < length count)%nat ->
  radix_starts sum count !! d = Some (sum + foldr Z.add 0 (take d count)).
Proof.
  induction count as [|c count IH]; intros sum [|d] Hd; cbn [length] in Hd; try lia; cbn [radix_starts lookup list_lookup take foldr].
  - f_equal. lia.
  - rewrite IH by lia. f_equal. lia.
Qed.

Lemma radix_count_length src : length (radix_count key shift src) = RADIX.
Proof.
  unfold radix_count. rewrite <-(length_replicate RADIX 0) at 2. generalize (replicate RADIX 0).
  induction src as [|x src IH]; intros count; cbn [fold_left]; [done|]. by rewrite IH, length_alter.
Qed.

Lemma starts_spec src d :
  (d < RADIX)%nat ->
  radix_starts 0 (radix_count key shift src) !! d = Some (Z.of_nat (below word d src)).
Proof.
  intros Hd. rewrite radix_starts_lookup by (by rewrite radix_count_length). f_equal.
  assert (Hs : forall e, (e <= d)%nat ->
    foldr Z.add 0 (take e (radix_count key shift src)) = Z.of_nat (below word e src)); [|by rewrite Hs by lia].
  induction e as [|e IH]; intros He; [done|].
  rewrite (take_S_r _ _ _ (radix_count_spec src e ltac:(lia))), foldr_app, below_S. cbn [foldr].
  specialize (IH ltac:(lia)). revert IH. generalize (take e (radix_count key shift src)). intros t Ht.
  rewrite Nat2Z.inj_add, <-Ht. generalize (Z.of_nat (length (bucket word e src))). intros z. clear.
  induction t as [|c t IH]; cbn [foldr]; lia.
Qed.

Lemma scatter_spec q : forall p rest at_ dst,
  dst = layout word RADIX p rest -> 
  (forall d, (d < RADIX)%nat -> length (rest d) = length (bucket word d q)) ->
  (forall d, (d < RADIX)%nat -> at_ !! d = Some (Z.of_nat (below word d (p ++ q) + length (bucket word d p)))) ->
  radix_scatter key shift q at_ dst = buckets word RADIX (p ++ q).
Proof.
  induction q as [|x q IH]; intros p rest at_ dst Hdst Hr Hat; cbn [radix_scatter].
  { rewrite Hdst, app_nil_r. unfold layout, buckets. f_equal. apply list_fmap_ext. intros i d Hi.
    apply list_elem_of_lookup_2, elem_of_seq in Hi. specialize (Hr d ltac:(lia)).
    destruct (rest d); [by rewrite app_nil_r|done]. }
  pose proof (word_lt x) as Hw. pose proof (Hat _ Hw) as Hp.
  rewrite (list_lookup_total_correct _ _ _ Hp), Nat2Z.id.
  destruct (scatter_step word RADIX p x q rest Hw Hr) as (rest' & Hl & Hr').
  rewrite Hdst, Hl. replace (p ++ x :: q) with ((p ++ [x]) ++ q) by (by rewrite <-app_assoc).
  apply (IH _ rest'); [done|done|]. intros d Hd.
  rewrite bucket_app, bucket_cons, length_app, <-app_assoc. cbn [app].
  destruct (Nat.eqb_spec (word x) d) as [<-|Hne].
  - rewrite list_lookup_insert_eq by (by eapply lookup_lt_Some). f_equal. cbn [length]. change (length (bucket word (word x) [])) with 0%nat. lia.
  - rewrite list_lookup_insert_ne by done. rewrite Hat by done. f_equal. cbn. lia.
Qed.

(** One pass distributes stably. *)
Lemma radix_pass_spec src dst :
  length dst = length src -> radix_pass key shift src dst = buckets word RADIX src.
Proof.
  intros Hl. unfold radix_pass.
  destruct (layout_split word RADIX src dst) as (rest & Hd & Hr); [intros; apply word_lt|done|].
  apply (scatter_spec src [] rest); [done|done|]. intros d Hd'. rewrite starts_spec by done. f_equal.
  cbn [app]. change (length (bucket word d [])) with 0%nat. lia.
Qed.

End pass.

(** ** Composing the passes *)

#[export] Instance key_order {A} (f : A -> Z) : SlotOrder (fun _ => True) (fun x y => f x <? f y).
Proof. split; intros *; lia. Qed.

Lemma eqv_key {A} (f : A -> Z) v y : eqv (fun x y => f x <? f y) v y = (f v =? f y).
Proof. unfold eqv. lia. Qed.

Lemma filter_absorb {A} (p q : A -> bool) l :
  (forall y, p y = true -> q y = true) -> List.filter p (List.filter q l) = List.filter p l.
Proof.
  intros Hpq. induction l as [|y l IH]; [done|]. cbn [List.filter].
  destruct (q y) eqn:Hq; cbn [List.filter]; [by rewrite IH|].
  destruct (p y) eqn:Hp; [|done]. apply Hpq in Hp. congruence.
Qed.

Lemma sorted_app {A} (R : A -> A -> Prop) a b :
  StronglySorted R a -> StronglySorted R b -> (forall x y, x ∈ a -> y ∈ b -> R x y) -> StronglySorted R (a ++ b).
Proof.
  intros Ha Hb Hab. induction Ha as [|x a Ha IH Hx]; [done|]. cbn. constructor.
  - apply IH. intros. apply Hab; [by right|done].
  - apply Forall_app. split; [done|]. apply Forall_forall. intros y Hy. apply Hab; [by left|done].
Qed.

Section compose.
Context {A : Type} (word : A -> nat) (n : nat) (f : A -> Z) (M : Z).
Context (Hword : forall x, (word x < n)%nat) (Hf : forall x, 0 <= f x < M).

(** The key with the word above. *)
Definition with_word (x : A) : Z := f x + M * Z.of_nat (word x).

Lemma bucket_elem d x (l : list A) : x ∈ bucket word d l -> word x = d /\ x ∈ l.
Proof.
  intros Hx%list_elem_of_In. apply filter_In in Hx as [Hx He%Nat.eqb_eq]. split; [done|by apply list_elem_of_In].
Qed.

Lemma with_word_eq v y : with_word v = with_word y -> word v = word y /\ f v = f y.
Proof. unfold with_word. intros He.
  destruct (Z.div_mod_unique M (Z.of_nat (word v)) (Z.of_nat (word y)) (f v) (f y)); [by left..|lia|lia].
Qed.

Lemma bucket_sorted d l :
  sorted (fun x y => f x <? f y) l -> sorted (fun x y => with_word x <? with_word y) (bucket word d l).
Proof.
  unfold sorted. induction 1 as [|x l Hs IH Hx]; [constructor|]. rewrite bucket_cons.
  destruct (Nat.eqb_spec (word x) d) as [He|]; [|done]. constructor; [done|].
  apply Forall_forall. intros y [Hw Hy]%bucket_elem. rewrite Forall_forall in Hx. specialize (Hx y Hy).
  cbv beta in *. unfold with_word. rewrite Hw, He. lia.
Qed.

Lemma buckets_sorted l :
  sorted (fun x y => f x <? f y) l -> sorted (fun x y => with_word x <? with_word y) (buckets word n l).
Proof.
  intros Hl. unfold buckets.
  assert (Hm : forall m off, sorted (fun x y => with_word x <? with_word y) (concat ((fun d => bucket word d l) <$> seq off m))).
  { induction m as [|m IH]; intros off; cbn [seq fmap list_fmap concat]; [constructor|].
    apply sorted_app; [by apply bucket_sorted|apply IH|].
    intros x y [Hx _]%bucket_elem Hy%list_elem_of_In. apply in_concat in Hy as (b & Hb & Hy).
    apply list_elem_of_In, list_elem_of_fmap in Hb as (e & -> & [He _]%elem_of_seq).
    apply list_elem_of_In, bucket_elem in Hy as [Hy _]. unfold with_word. pose proof (Hf x). pose proof (Hf y). nia. }
  apply Hm.
Qed.

Lemma filter_buckets v l :
  List.filter (fun y => with_word v =? with_word y) (buckets word n l) =
  List.filter (fun y => with_word v =? with_word y) l.
Proof.
  unfold buckets. rewrite (seq_split n (word v)) by done. rewrite fmap_app, concat_app.
  cbn [fmap list_fmap concat]. rewrite !List.filter_app.
  assert (Hno : forall l0, (forall d, d ∈ l0 -> d <> word v) ->
    List.filter (fun y => with_word v =? with_word y) (concat ((fun d => bucket word d l) <$> l0)) = []).
  { induction l0 as [|d l0 IH]; intros Hd; [done|]. cbn [fmap list_fmap concat]. rewrite List.filter_app, IH, app_nil_r
      by (intros e He; apply Hd; by right).
    assert (Hne : d <> word v) by (apply Hd; by left).
    assert (Hb : forall y, y ∈ bucket word d l -> (with_word v =? with_word y) = false).
    { intros y [Hy _]%bucket_elem. apply Z.eqb_neq. intros [He _]%with_word_eq. congruence. }
    revert Hb. induction (bucket word d l) as [|y b IHb]; intros Hb; [done|]. cbn [List.filter].
    rewrite Hb by (by left). apply IHb. intros z Hz. apply Hb. by right. }
  rewrite !Hno by (intros d [? ?]%elem_of_seq; lia). rewrite app_nil_r. cbn [app].
  apply filter_absorb. intros y [He _]%Z.eqb_eq%with_word_eq. by apply Nat.eqb_eq.
Qed.

Lemma filter_ext_eq (p q : A -> bool) l : (forall y, p y = q y) -> List.filter p l = List.filter q l.
Proof. intros Hpq. by apply List.filter_ext. Qed.

(** Distributing the stable sort by [f] gives the stable sort by both. *)
Lemma buckets_stable a :
  buckets word n (stable_sort (fun x y => f x <? f y) a) = stable_sort (fun x y => with_word x <? with_word y) a.
Proof.
  assert (HT : forall l : list A, Forall (fun _ => True) l) by (intros; by apply Forall_true).
  apply (stable_sort_unique (fun _ => True) (fun x y => with_word x <? with_word y)); [apply HT| |apply HT|].
  - apply buckets_sorted. apply (stable_sort_sorted (fun _ => True) (fun x y => f x <? f y)). apply HT.
  - intros v _. rewrite !(filter_ext_eq (eqv _ v) (fun y => with_word v =? with_word y)) by (intros; apply eqv_key).
    rewrite filter_buckets.
    rewrite <-(filter_absorb _ (fun y => f v =? f y)) by (intros y [_ He]%Z.eqb_eq%with_word_eq; lia).
    rewrite <-(filter_absorb _ (fun y => f v =? f y) a) by (intros y [_ He]%Z.eqb_eq%with_word_eq; lia).
    f_equal. rewrite <-!(filter_ext_eq (eqv (fun x y => f x <? f y) v) (fun y => f v =? f y)) by (intros; apply eqv_key).
    apply (stable_sort_filter (fun _ => True) (fun x y => f x <? f y)); [done|apply HT].
Qed.

End compose.

Lemma stable_sort_ext_in {A} (l1 l2 : A -> A -> bool) l :
  (forall x y, x ∈ l -> y ∈ l -> l1 x y = l2 x y) -> stable_sort l1 l = stable_sort l2 l.
Proof.
  intros He. induction l as [|x l IH]; [done|]. cbn [stable_sort foldr].
  fold (stable_sort l1 l) (stable_sort l2 l).
  rewrite IH by (intros; apply He; by right). clear IH.
  assert (Hin : forall y, y ∈ stable_sort l2 l -> y ∈ l) by (intros y Hy; by rewrite stable_sort_perm in Hy).
  revert Hin. induction (stable_sort l2 l) as [|y t IHt]; intros Hin; [done|].
  cbn [insert_by]. rewrite He by (by left || (right; apply Hin; by left)).
  rewrite IHt; [done|]. intros z Hz. apply Hin. by right.
Qed.

Lemma stable_sort_ext {A} (l1 l2 : A -> A -> bool) l :
  (forall x y, l1 x y = l2 x y) -> stable_sort l1 l = stable_sort l2 l.
Proof. intros. by apply stable_sort_ext_in. Qed.

Lemma stable_sort_id {A} (less : A -> A -> bool) l : (forall x y, less x y = false) -> stable_sort less l = l.
Proof.
  intros He. induction l as [|x l IH]; [done|]. cbn [stable_sort foldr]. fold (stable_sort less l).
  rewrite IH. destruct l; [done|]. cbn [insert_by]. by rewrite He.
Qed.

Section passes.
Context {A : Type} (key : A -> Z) (Hkey : forall x, is_u64 (key x)).

Definition low_key (k : Z) (x : A) : Z := key x mod 2 ^ (16 * k).

Lemma radix_passes_spec passes : forall k a dst,
  0 <= k -> length dst = length a ->
  radix_passes key passes k (stable_sort (fun x y => low_key k x <? low_key k y) a) dst =
    stable_sort (fun x y => low_key (k + Z.of_nat passes) x <? low_key (k + Z.of_nat passes) y) a.
Proof.
  induction passes as [|passes IH]; intros k a dst Hk Hl; cbn [radix_passes]; [by rewrite Z.add_0_r|].
  rewrite radix_pass_spec by (by rewrite stable_sort_length).
  pose proof (Z.pow_pos_nonneg 2 (16 * k) ltac:(lia) ltac:(lia)) as Hp.
  rewrite (buckets_stable (radix_word key (k * 16)) RADIX (low_key k) (2 ^ (16 * k))).
  - rewrite (stable_sort_ext _ (fun x y => low_key (k + 1) x <? low_key (k + 1) y)).
    + rewrite IH by (rewrite ?stable_sort_length; lia). do 2 f_equal.
      by replace (k + 1 + Z.of_nat passes) with (k + Z.of_nat (S passes)) by lia.
    + assert (Hw : forall x, with_word (radix_word key (k * 16)) (low_key k) (2 ^ (16 * k)) x = low_key (k + 1) x).
      { intros x. unfold with_word, low_key, radix_word. rewrite shr_div by lia.
        change 65535 with (Z.ones 16). rewrite Z.land_ones, Z2Nat.id by (lia || apply Z.mod_pos_bound; lia).
        replace (16 * (k + 1)) with (16 * k + 16) by lia. rewrite Z.pow_add_r by lia.
        rewrite Z.rem_mul_r by lia. by rewrite (Z.mul_comm k 16). }
      intros x y. by rewrite !Hw.
  - intros x. apply word_lt.
  - intros x. unfold low_key. apply Z.mod_pos_bound. lia.
Qed.

(** Enough passes for the largest key. *)
Lemma radix_sorts passes a dst :
  length dst = length a -> (forall x, x ∈ a -> key x < 2 ^ (16 * Z.of_nat passes)) ->
  radix_passes key passes 0 a dst = stable_sort (fun x y => key x <? key y) a.
Proof.
  intros Hl Hmax. pose proof (radix_passes_spec passes 0 a dst ltac:(lia) Hl) as Hs.
  rewrite stable_sort_id in Hs.
  2:{ intros x y. unfold low_key. rewrite Z.mul_0_r, !Z.mod_1_r. lia. }
  rewrite Hs, Z.add_0_l. clear Hs Hl dst.
  assert (Hlow : forall x, x ∈ a -> low_key (Z.of_nat passes) x = key x).
  { intros x Hx. unfold low_key. apply Z.mod_small. specialize (Hmax x Hx). destruct (Hkey x). lia. }
  apply stable_sort_ext_in. intros x y Hx Hy. by rewrite !Hlow.
Qed.

End passes.

(** ** Integer slots *)

Lemma list_min_spec l : forall x, list_min x l <= x /\ (forall v, v ∈ l -> list_min x l <= v) /\ list_min x l ∈ x :: l.
Proof.
  unfold list_min. induction l as [|y l IH]; intros x; cbn [fold_left].
  { split; [lia|]. split; [intros v Hv; by apply not_elem_of_nil in Hv|by left]. }
  set (m := if y <? x then y else x).
  assert (Hm : m <= x /\ m <= y /\ (m = x \/ m = y)) by (unfold m; destruct (Z.ltb_spec y x); lia).
  destruct (IH m) as (H1 & H2 & H3). split; [lia|]. split.
  - intros v [->|Hv]%elem_of_cons; [lia|auto].
  - apply elem_of_cons in H3 as [->|H3]; [|by do 2 right].
    destruct Hm as (_ & _ & [->| ->]); [by left|right; by left].
Qed.

Lemma list_max_spec l : forall x, x <= list_max x l /\ (forall v, v ∈ l -> v <= list_max x l) /\ list_max x l ∈ x :: l.
Proof.
  unfold list_max. induction l as [|y l IH]; intros x; cbn [fold_left].
  { split; [lia|]. split; [intros v Hv; by apply not_elem_of_nil in Hv|by left]. }
  set (m := if x <? y then y else x).
  assert (Hm : x <= m /\ y <= m /\ (m = x \/ m = y)) by (unfold m; destruct (Z.ltb_spec x y); lia).
  destruct (IH m) as (H1 & H2 & H3). split; [lia|]. split.
  - intros v [->|Hv]%elem_of_cons; [lia|auto].
  - apply elem_of_cons in H3 as [->|H3]; [|by do 2 right].
    destruct Hm as (_ & _ & [->| ->]); [by left|right; by left].
Qed.

Lemma span_passes_spec mn mx d :
  is_i64 mn -> is_i64 mx -> 0 <= d <= mx - mn -> d < 2 ^ (16 * Z.of_nat (span_passes mn mx)).
Proof.
  intros Hmn Hmx Hd. unfold span_passes. cbv zeta.
  assert (Hs : u64 mx -! u64 mn = mx - mn) by (unfold is_i64, u64 in *; dlia). rewrite Hs.
  destruct (Z.leb_spec (mx - mn) 0xffff); [change (2 ^ _) with (2 ^ 16); lia|].
  destruct (Z.leb_spec (mx - mn) 0xffffffff); [change (2 ^ _) with (2 ^ 32); lia|].
  change (2 ^ _) with (2 ^ 64). unfold is_i64 in *. lia.
Qed.

(** A radix sort on the distance from the minimum sorts by the key itself. *)
Lemma radix_by_key {A} (key : A -> Z) (a buf : list A) mn mx :
  Forall (fun x => is_i64 (key x) /\ mn <= key x <= mx) a -> is_i64 mn -> is_i64 mx -> length buf = length a ->
  radix_passes (fun x => u64 (key x) -! u64 mn) (span_passes mn mx) 0 a buf =
    stable_sort (fun x y => key x <? key y) a.
Proof.
  intros Ha Hmn Hmx Hl. rewrite Forall_forall in Ha.
  assert (Hk : forall x, x ∈ a -> u64 (key x) -! u64 mn = key x - mn).
  { intros x Hx. destruct (Ha x Hx). unfold is_i64, u64 in *. dlia. }
  rewrite radix_sorts; [|intros; apply u64_is|done|].
  - apply stable_sort_ext_in. intros x y Hx Hy. rewrite !Hk by done. lia.
  - intros x Hx. rewrite Hk by done. destruct (Ha x Hx). apply span_passes_spec; [done|done|lia].
Qed.

Lemma list_radix_sort_int_spec a buf :
  Forall is_i64 a -> length buf = length a -> list_radix_sort_int a buf = stable_sort Z.ltb a.
Proof.
  intros Ha Hl. unfold list_radix_sort_int. destruct a as [|x [|y rest]]; [done|done|]. cbv zeta.
  set (l := y :: rest) in *. destruct (list_min_spec l x) as (Hm1 & Hm2 & Hm3).
  destruct (list_max_spec l x) as (Hx1 & Hx2 & Hx3). rewrite Forall_forall in Ha.
  apply (radix_by_key (fun v => v)); [|by apply Ha|by apply Ha|done].
  apply Forall_forall. intros v Hv. split; [by apply Ha|].
  apply elem_of_cons in Hv as [->|Hv]; [lia|split; auto].
Qed.
