(* ===== verification/SortTheorems.v ===== *)
(** * SortTheorems: the properties of sorting *)

From S2P Require Import Prelude Mem Decimal Text Str StrProofs Slots ListRt ListRtProofs ListOwn ListSort RadixProofs.

Open Scope c_scope.

(** ** Writing the slots back *)

Definition slot_width (stride : Z) : Z := if stride =? 4 then 4 else 8.

Lemma slot_cell_len stride v : slen (slot_cell stride v) = slot_width stride.
Proof.
  unfold slot_cell, slot_width. destruct (stride =? 4); apply rt_store_le_len; try lia; [apply u32_is|apply u64_is].
Qed.

Lemma put_slots_spec stride rest slots : forall pre es,
  slen pre = Z.of_nat (length pre) -> length slots = length es ->
  Forall (fun e => slen e = slot_width stride) es ->
  forall i, slen pre = i * slot_width stride ->
  put_slots (pre ++ concat es ++ rest) stride i slots = pre ++ concat (slot_cell stride <$> slots) ++ rest.
Proof.
  induction slots as [|v slots IH]; intros pre [|e es] _ Hl Hw i Hi; cbn [length] in Hl; try lia; [done|].
  cbn [put_slots fmap list_fmap concat]. inversion Hw as [|? ? He Hw']; subst. fold (slot_width stride).
  rewrite <-Hi, <-app_assoc, mem_set_at by (rewrite slot_cell_len; done).
  rewrite (app_assoc pre), (IH (pre ++ slot_cell stride v) es); [by rewrite <-!app_assoc|done|lia|done|].
  rewrite slen_app, slot_cell_len. lia.
Qed.

Lemma slot_stride_width l : l_stride l = 4 \/ list_stride l = 8 -> list_stride l = slot_width (l_stride l).
Proof.
  intros Hs. unfold slot_width. destruct (Z.eqb_spec (l_stride l) 4) as [He|].
  - unfold list_stride. by rewrite He.
  - by destruct Hs.
Qed.

Lemma narrow_rep l es slots :
  rep l es -> l_stride l = 4 \/ list_stride l = 8 -> length slots = length es ->
  rep (list_narrow_slots l slots) (slot_cell (l_stride l) <$> slots).
Proof.
  intros R Hs Hn. pose proof (slot_stride_width l Hs) as Hw. destruct (rep_data _ _ R) as [rest Hd].
  pose proof (rep_wide _ _ R) as Hwide. rewrite Hw in Hwide.
  assert (Hput : put_slots (l_data l) (l_stride l) 0 slots = concat (slot_cell (l_stride l) <$> slots) ++ rest).
  { rewrite Hd. apply (put_slots_spec (l_stride l) rest slots [] es); done. }
  assert (Hcells : Forall (fun e => slen e = slot_width (l_stride l)) (slot_cell (l_stride l) <$> slots)).
  { apply Forall_fmap, Forall_true. intros v. apply slot_cell_len. }
  unfold list_narrow_slots. rewrite Hput. destruct R.
  split; cbn [l_len l_data l_cap set_data]; change (list_stride (set_data l ?d)) with (list_stride l); try done.
  - by rewrite length_fmap, Hn.
  - by rewrite Hw.
  - by exists rest.
  - rewrite <-rep_size, Hd, !slen_app, (concat_len _ _ Hcells), (concat_len _ _ Hwide), length_fmap, Hn. done.
Qed.

(** A slot survives the write at its width. *)
Definition slot_fits (stride v : Z) : Prop := if stride =? 4 then is_u32 v else is_i64 v.

Lemma slot_cell_value stride v : slot_fits stride v -> slot_value stride (slot_cell stride v) = v.
Proof.
  unfold slot_fits, slot_value, slot_cell. intros Hv. destruct (stride =? 4).
  - rewrite load_store_le by (try apply u32_is; lia). change (2 ^ (8 * 4)) with (2 ^ 32). word.
  - rewrite load_store_le by (try apply u64_is; lia). change (2 ^ (8 * 8)) with (2 ^ 64). word.
Qed.

Lemma load_le_range bs w : 0 <= w -> forall i v, 0 <= v -> 0 <= load_le_loop bs i v.
Proof.
  intros Hw. induction bs as [|b bs IH]; intros i v Hv; cbn [load_le_loop]; [done|].
  apply IH. apply Z.lor_nonneg. split; [done|]. apply u64_is.
Qed.

(** A sorted list of slots that was read from the list fits it. *)
Lemma narrow_slots l es out :
  rep l es -> l_stride l = 4 \/ list_stride l = 8 ->
  Forall (slot_fits (l_stride l)) (slot_value (l_stride l) <$> es) ->
  out ≡ₚ list_slots l ->
  rep (list_narrow_slots l out) (slot_cell (l_stride l) <$> out) /\
  list_slots (list_narrow_slots l out) = out.
Proof.
  intros R Hs Hfit Hp. pose proof (slots_rep l es R Hs) as Hsl. rewrite Hsl in Hp.
  assert (Hn : length out = length es) by (by rewrite Hp, length_fmap).
  pose proof (narrow_rep l es out R Hs Hn) as R'. split; [done|].
  rewrite (slots_rep _ _ R' Hs), <-list_fmap_compose. cbn [list_narrow_slots l_stride set_data].
  rewrite <-Hp in Hfit. clear -Hfit. induction Hfit as [|v out Hv _ IH]; [done|].
  cbn [fmap list_fmap]. rewrite IH. unfold compose. change (l_stride (list_narrow_slots l ?o)) with (l_stride l).
  by rewrite slot_cell_value.
Qed.

(** ** Comparators of the kinds *)

Lemma slot_cmp_less h kind x y :
  0 <= kind <= 7 -> slot_valid h kind x -> slot_valid h kind y ->
  (c ← slot_cmp h x y kind; Ok (c <? 0)) = Ok (slot_less h kind x y).
Proof.
  intros Hk Hx Hy. unfold slot_less. destruct (slot_cmp_ok h kind x y Hk Hx Hy) as [c ->]. done.
Qed.

(** The merge only compares elements of the array. *)
Lemma merge_run_ext {A} (P : A -> Prop) (f g : A -> A -> result bool) fuel : forall l r,
  (forall x y, P x -> P y -> f x y = g x y) -> Forall P l -> Forall P r ->
  merge_run f fuel l r = merge_run g fuel l r.
Proof.
  induction fuel as [|fuel IH]; intros [|x l] [|y r] He Hl Hr; cbn [merge_run]; try done.
  inversion Hl; inversion Hr; subst. rewrite He by done. destruct (g y x) as [b|]; [|done].
  change (Ok b ≫= ?f) with (f b). cbv beta. destruct b; by rewrite IH.
Qed.

Lemma merge_block_ext {A} (P : A -> Prop) (f g : A -> A -> result bool) a lo mid hi :
  (forall x y, P x -> P y -> f x y = g x y) -> Forall P a ->
  merge_block f a lo mid hi = merge_block g a lo mid hi.
Proof.
  intros He Ha. unfold merge_block, cells.
  by rewrite (merge_run_ext P f g) by (done || by apply Forall_take, Forall_drop).
Qed.

Lemma merge_sort_ext {A} (P : A -> Prop) (f g : A -> A -> result bool) a :
  (forall x y, P x -> P y -> f x y = g x y) -> Forall P a -> merge_sort f a = merge_sort g a.
Proof.
  intros He Ha. unfold merge_sort. destruct (_ <? 2); [done|].
  assert (Hpass : forall fuel w n lo a, 0 <= lo -> 0 < w -> Forall P a ->
    merge_pass f fuel w n lo a = merge_pass g fuel w n lo a).
  { induction fuel as [|fuel IH]; intros w n lo b Hlo Hw Hb; cbn [merge_pass]; [done|].
    destruct (Z.ltb_spec lo n); [|done]. cbv zeta.
    set (mid := if lo + w <? n then _ else _). set (hi := if lo + 2 * w <? n then _ else _).
    destruct (Z.leb_spec hi mid); [apply IH; lia || done|].
    rewrite (merge_block_ext P f g) by done.
    destruct (merge_block g b lo mid hi) as [c|] eqn:Hc; [|done].
    change (Ok c ≫= ?f) with (f c). cbv beta. apply IH; [lia|lia|].
    apply merge_block_perm in Hc; [by rewrite Hc| |lia]. unfold mid. case_match; bools; lia. }
  assert (Hwidths : forall fuel w n a, 0 < w -> Forall P a ->
    merge_widths f fuel w n a = merge_widths g fuel w n a); [|by apply Hwidths].
  induction fuel as [|fuel IH]; intros w n b Hw Hb; cbn [merge_widths]; [done|].
  case_match; [|done]. rewrite Hpass by (done || lia).
  destruct (merge_pass g _ w n 0 b) as [c|] eqn:Hc; [|done].
  change (Ok c ≫= ?f) with (f c). cbv beta. apply IH; [lia|].
  apply merge_pass_perm in Hc; [by rewrite Hc|lia|done].
Qed.

Lemma sort_changed_rep l es :
  rep l es -> rep (sort_changed l) es /\ l_stride (sort_changed l) = l_stride l /\
  list_slots (sort_changed l) = list_slots l /\
  l_change_count (sort_changed l) = (if 1 <? l_len l then u32 (l_change_count l + 1) else l_change_count l).
Proof.
  intros R. unfold sort_changed. destruct (1 <? l_len l); [|done]. split; [|done].
  destruct R. by split.
Qed.

(** What sorting promises: the same slots, in order, ties as they were. *)
Definition sorted_stably (valid : Z -> Prop) (less : Z -> Z -> bool) (slots out : list Z) : Prop :=
  sorted less out /\ out ≡ₚ slots /\
  forall v, valid v -> List.filter (eqv less v) out = List.filter (eqv less v) slots.

Lemma stable_sort_sorted_stably (valid : Z -> Prop) less `{!SlotOrder valid less} slots :
  Forall valid slots -> sorted_stably valid less slots (stable_sort less slots).
Proof.
  intros Hv. split_and!; [by apply (stable_sort_sorted valid)|apply stable_sort_perm|].
  intros v Hvv. by apply (stable_sort_filter valid).
Qed.

Lemma slots_length l es : rep l es -> length (list_slots l) = length es.
Proof. intros R. unfold list_slots. by rewrite length_fmap, length_seq, (rep_len _ _ R), Nat2Z.id. Qed.

Lemma rep_short l es : rep l es -> Z.of_nat (length es) < 2 ^ 63.
Proof.
  intros R. pose proof (rep_bound _ _ R). pose proof (rep_len _ _ R). pose proof (rep_max _ _ R).
  pose proof (rep_stride _ _ R). nia.
Qed.

Lemma slots_fit_i64 l es :
  rep l es -> l_stride l = 4 \/ list_stride l = 8 ->
  Forall (slot_fits (l_stride l)) (slot_value (l_stride l) <$> es) -> Forall is_i64 (list_slots l).
Proof.
  intros R Hs Hf. rewrite (slots_rep l es R Hs). eapply Forall_impl; [exact Hf|].
  intros v. unfold slot_fits, is_u32, is_i64. case_match; lia.
Qed.

(** C31 Sorting by a kind: integers by the radix sort, every other kind by the
    bottom-up merge, both give the stable sort of the slots by the kind's
    order, in the list's own width, and never fail; a sort of two or more
    elements is a structural change. *)
Theorem list_sort_correct (h : heap) (l : BList) (es : list str) (kind : Z) (buf : list Z)
    (R : rep l es) (Hs : l_stride l = 4 \/ list_stride l = 8) (Hk : 0 <= kind <= 7)
    (Hfit : Forall (slot_fits (l_stride l)) (slot_value (l_stride l) <$> es))
    (Hv : Forall (slot_valid h kind) (list_slots l)) (Hbuf : length buf = length es) :
  exists l', beans_list_sort h l kind buf = Ok l' /\
    sorted_stably (slot_valid h kind) (slot_less h kind) (list_slots l) (list_slots l') /\
    rep l' (slot_cell (l_stride l) <$> list_slots l') /\
    l_change_count l' = (if 1 <? l_len l then u32 (l_change_count l + 1) else l_change_count l).
Proof.
  destruct (sort_changed_rep l es R) as (R0 & Hst & Hsl & Hcc).
  pose proof (stable_sort_sorted_stably (slot_valid h kind) (slot_less h kind) _ Hv) as Hout.
  set (out := stable_sort (slot_less h kind) (list_slots l)) in *.
  assert (Hsort : beans_list_sort h l kind buf = Ok (list_narrow_slots (sort_changed l) out)).
  { unfold beans_list_sort. cbv zeta. rewrite Hsl. destruct (Z.eqb_spec kind 0) as [->|Hk0].
    - rewrite list_radix_sort_int_spec; [|by apply (slots_fit_i64 l es)|by rewrite (slots_length l es)].
      f_equal. f_equal. unfold out. apply stable_sort_ext. intros x y. by rewrite slot_less_key by done.
    - rewrite (merge_sort_ext (slot_valid h kind) _ (fun x y => Ok (slot_less h kind x y)))
        by (done || (intros; by apply slot_cmp_less)).
      rewrite (merge_sort_stable (slot_valid h kind) (slot_less h kind)); [done|done|].
      rewrite (slots_length l es R). by apply (rep_short l). }
  destruct (narrow_slots (sort_changed l) es out R0) as [R' Hl'].
  - unfold list_stride. rewrite Hst. exact Hs.
  - by rewrite Hst.
  - rewrite Hsl. apply Hout.
  - eexists. split; [exact Hsort|]. rewrite Hl'. split; [done|]. rewrite <-Hst. split; [done|exact Hcc].
Qed.

(** Four slots, the equal ones told apart by nothing but their place. *)
Definition ex_sort : BList :=
  mkBList (concat (slot_bytes <$> [5; -3; 9; -3])) 4 4 (-8) 0 true 0 0.

Lemma ex_sort_rep : rep ex_sort (slot_bytes <$> [5; -3; 9; -3]).
Proof. split; try done; [repeat constructor|by exists []]. Qed.

Lemma ex_sort_fits : Forall (slot_fits (l_stride ex_sort)) (slot_value (l_stride ex_sort) <$> (slot_bytes <$> [5; -3; 9; -3])).
Proof. repeat (constructor; [split; vm_compute; congruence|]). constructor. Qed.

Definition ex_heap0 : heap := mkHeap (fun _ => []) (fun _ => mkDec 0 0 0 0) (fun _ => 0).

Lemma list_sort_correct_witness :
  exists l', beans_list_sort ex_heap0 ex_sort 1 [0; 0; 0; 0] = Ok l' /\
    sorted_stably (slot_valid ex_heap0 1) (slot_less ex_heap0 1) [5; -3; 9; -3] (list_slots l').
Proof.
  destruct (list_sort_correct ex_heap0 ex_sort _ 1 [0; 0; 0; 0] ex_sort_rep) as (l' & Hl & Hs & _).
  - right. reflexivity.
  - lia.
  - exact ex_sort_fits.
  - repeat (constructor; [split; [split; vm_compute; congruence|lia]|]). constructor.
  - reflexivity.
  - exists l'. split; [exact Hl|]. exact Hs.
Defined.

(** ** Sorting with the program's callbacks *)

Lemma key_loop_spec key_fn slots : 
  match key_loop key_fn slots with
  | Ok keyed => snd <$> keyed = slots /\ Forall (fun p => key_fn (snd p) = Ok (fst p)) keyed
  | Panic m line col => exists v, v ∈ slots /\ key_fn v = Panic m line col
  end.
Proof.
  induction slots as [|v slots IH]; cbn [key_loop]; [done|].
  destruct (key_fn v) as [k|m line col] eqn:Hk.
  - change (Ok k ≫= ?f) with (f k). cbv beta. destruct (key_loop key_fn slots) as [keyed|m line col]; cbn.
    + destruct IH as [<- Hf]. split; [done|]. by constructor.
    + destruct IH as (x & Hx & He). exists x. split; [by right|done].
  - exists v. split; [by left|done].
Qed.

Lemma keyed_sort key_fn slots buf keyed :
  key_loop key_fn slots = Ok keyed -> Forall (fun p => is_i64 (fst p)) keyed ->
  Z.of_nat (length slots) < 2 ^ 63 -> length buf = length slots ->
  list_sort_by_key_slots slots key_fn buf =
    Ok (snd <$> stable_sort (fun x y => fst x <? fst y) keyed).
Proof.
  intros Hl Hi Hn Hb. pose proof (key_loop_spec key_fn slots) as Hsp. rewrite Hl in Hsp.
  destruct Hsp as [Hsnd _]. assert (Hlen : length keyed = length slots) by (by rewrite <-Hsnd, length_fmap).
  unfold list_sort_by_key_slots. rewrite Hl. change (Ok keyed ≫= ?f) with (f keyed). cbv beta.
  destruct keyed as [|[k0 v0] [|p rest]]; [by rewrite <-Hsnd|by rewrite <-Hsnd|].
  set (t := p :: rest) in *. set (keyed := (k0, v0) :: t) in *. cbv zeta.
  destruct (list_min_spec (fst <$> t) k0) as (Hm1 & Hm2 & Hm3).
  destruct (list_max_spec (fst <$> t) k0) as (Hx1 & Hx2 & Hx3).
  rewrite Forall_forall in Hi.
  assert (Hki : forall k, k ∈ k0 :: (fst <$> t) -> is_i64 k).
  { intros k Hk. change (k ∈ fst <$> keyed) in Hk. apply list_elem_of_fmap in Hk as (q & -> & Hq). auto. }
  destruct (_ <? _).
  - rewrite key_merge_widths_eq by lia.
    assert (HT : Forall (fun _ : Z * Z => True) keyed) by (by apply Forall_true).
    pose proof (merge_widths_sort (fun _ => True) (fun x y : Z * Z => fst x <? fst y) 64 1 keyed ltac:(lia) HT) as Hw.
    rewrite runs_one in Hw by lia. change (Z.of_nat 1) with 1 in Hw. rewrite Hw; [done|]. rewrite Hlen. change (2 ^ Z.of_nat 64) with (2 ^ 64). lia.
  - rewrite (radix_by_key fst); [done| |by apply Hki|by apply Hki|lia].
    apply Forall_forall. intros q Hq. split; [by apply Hi|].
    apply elem_of_cons in Hq as [->|Hq]; [split; [exact Hm1|exact Hx1]|].
    assert (fst q ∈ fst <$> t) by (apply list_elem_of_fmap; eauto). split; auto.
Qed.

(** Sorting with the program's callbacks.  Whatever the comparator answers,
    a sort that returns has permuted the slots and one that panics leaves the
    list's elements as they were; a comparator that is a total preorder gives
    the stable sort.  Sorting by key calls the key function once per element
    before writing anything, so a panicking key function leaves the elements
    as they were, and the result is the stable sort by the keys, through the
    merge for short lists and through the radix passes for long ones. *)
Theorem list_sort_callbacks_correct (l : BList) (es : list str) (thunk : Z -> Z -> result bool)
    (valid : Z -> Prop) (less : Z -> Z -> bool) (key_fn : Z -> result Z) (buf : list (Z * Z))
    (R : rep l es) (Hs : l_stride l = 4 \/ list_stride l = 8)
    (Hfit : Forall (slot_fits (l_stride l)) (slot_value (l_stride l) <$> es))
    (Ho : SlotOrder valid less) (Hv : Forall valid (list_slots l)) (Hbuf : length buf = length es)
    (Hkeys : forall v k, v ∈ list_slots l -> key_fn v = Ok k -> is_i64 k) :
  (match beans_list_sort_by l thunk with
   | (l', Ok _) => list_slots l' ≡ₚ list_slots l /\ rep l' (slot_cell (l_stride l) <$> list_slots l')
   | (l', Panic _ _ _) => rep l' es
   end) /\
  ((forall x y, valid x -> valid y -> thunk x y = Ok (less x y)) ->
   exists l', beans_list_sort_by l thunk = (l', Ok tt) /\
     sorted_stably valid less (list_slots l) (list_slots l')) /\
  match beans_list_sort_by_key l key_fn buf with
  | (l', Ok _) => exists keyed, snd <$> keyed = list_slots l /\
      Forall (fun p => key_fn (snd p) = Ok (fst p)) keyed /\
      list_slots l' = snd <$> stable_sort (fun x y => fst x <? fst y) keyed
  | (l', Panic m line col) => rep l' es /\ exists v, v ∈ list_slots l /\ key_fn v = Panic m line col
  end.
Proof.
  destruct (sort_changed_rep l es R) as (R0 & Hst & Hsl & _).
  assert (Hs0 : l_stride (sort_changed l) = 4 \/ list_stride (sort_changed l) = 8)
    by (unfold list_stride; rewrite Hst; exact Hs).
  rewrite <-Hst in Hfit. pose proof (fun out => narrow_slots (sort_changed l) es out R0 Hs0 Hfit) as Hnar.
  rewrite Hst, Hsl in Hnar. split_and!.
  - unfold beans_list_sort_by. cbv zeta. rewrite Hsl.
    destruct (merge_sort thunk (list_slots l)) as [out|] eqn:Hm; [|done].
    apply merge_sort_perm in Hm. destruct (Hnar out Hm) as [R' ->]. done.
  - intros Hless. unfold beans_list_sort_by. cbv zeta. rewrite Hsl.
    rewrite (merge_sort_ext valid _ (fun x y => Ok (less x y))) by done.
    rewrite (merge_sort_stable valid less); [|done|rewrite (slots_length l es R); by apply (rep_short l)].
    eexists. split; [done|]. pose proof (stable_sort_sorted_stably valid less _ Hv) as Hout.
    destruct (Hnar (stable_sort less (list_slots l))) as [_ ->]; [apply Hout|done].
  - unfold beans_list_sort_by_key. cbv zeta. rewrite Hsl.
    pose proof (key_loop_spec key_fn (list_slots l)) as Hk.
    destruct (key_loop key_fn (list_slots l)) as [keyed|m line col] eqn:He.
    + destruct Hk as [Hsnd Hf].
      rewrite (keyed_sort key_fn _ buf keyed He); [|..|by rewrite (slots_length l es)].
      * exists keyed. split; [done|]. split; [done|]. apply Hnar. rewrite <-Hsnd.
        by rewrite stable_sort_perm.
      * rewrite Forall_forall in Hf |- *. intros p Hp. apply (Hkeys (snd p)); [|by apply Hf].
        rewrite <-Hsnd. apply list_elem_of_fmap. eauto.
      * rewrite (slots_length l es R). by apply (rep_short l).
    + unfold list_sort_by_key_slots. rewrite He. done.
Qed.

Lemma list_sort_callbacks_correct_witness :
  exists l', beans_list_sort_by ex_sort (fun x y => Ok (x <? y)) = (l', Ok tt) /\
    sorted_stably (fun _ => True) (fun x y => x <? y) [5; -3; 9; -3] (list_slots l').
Proof.
  destruct (list_sort_callbacks_correct ex_sort _ (fun x y => Ok (x <? y)) (fun _ => True)
    (fun x y => x <? y) (fun v => Ok v) [(0, 0); (0, 0); (0, 0); (0, 0)] ex_sort_rep) as (_ & H & _).
  - right. reflexivity.
  - exact ex_sort_fits.
  - exact (key_order (fun x : Z => x)).
  - by apply Forall_true.
  - reflexivity.
  - intros v k Hv [= <-]. revert Hv. change (list_slots ex_sort) with [5; -3; 9; -3].
    intros Hv. repeat (apply elem_of_cons in Hv as [->|Hv]; [split; vm_compute; congruence|]).
    by apply not_elem_of_nil in Hv.
  - destruct H as (l' & He & Hs); [done|]. exists l'. split; [exact He|exact Hs].
Defined.
