(* ===== verification/MapRt.v ===== *)
(** * MapRt: maps

    [runtime/beans_rt.c], the maps section.  A [BMap] is a flat entry array
    with an open-addressed index over it: a word of the index holds the high 32
    bits of a key's hash and the entry's position plus two; 0 is empty and 1 a
    tombstone.  Small maps have no index.  An ordered map leaves holes
    ([deadbits]); an unordered one moves its last entry into the hole.

    The value type is the slot for plain maps and the value's bytes for maps
    with wide values, so one definition is both the plain and the [_typed]
    entry.  Keys are compared and hashed through the interface [KeyOps]; the
    [_raw] entries are the ones at the raw-slot instance.  Releases are
    returned in order: they come after the map is consistent again. *)

From S2P Require Import Prelude Mem Hash Text Slots.

Open Scope c_scope.

Definition MAP_LINEAR_MAX : Z := 8.
Definition IDX_POS : Z := 0xffffffff.
Definition IDX_FRAG : Z := 0xffffffff00000000.

(** The entry array has [m_cap] cells; [m_flags] bit 0: keys are owned pointers. *)
Record BMap (V : Type) : Type := mkBMap {
  m_data : list (Z * V);
  m_len : Z;
  m_cap : Z;
  m_idx : option (list Z);
  m_icap : Z;
  m_tombs : Z;
  m_used : Z;
  m_deadbits : option (list Z);
  m_ordered : bool;
  m_flags : Z;
  m_version : Z
}.
Arguments mkBMap {_} _ _ _ _ _ _ _ _ _ _ _.
Arguments m_data {_} _.
Arguments m_len {_} _.
Arguments m_cap {_} _.
Arguments m_idx {_} _.
Arguments m_icap {_} _.
Arguments m_tombs {_} _.
Arguments m_used {_} _.
Arguments m_deadbits {_} _.
Arguments m_ordered {_} _.
Arguments m_flags {_} _.
Arguments m_version {_} _.

Section maps.
Context {V : Type} (vzero : V).
(** The owned children of a value, in slot order. *)
Context (children : V -> list Z).
(** The values live in [wide_values]. *)
Context (wide : bool).
(** [slot_eq] and [slot_hash] at the map's kind. *)
Context (keq : Z -> Z -> bool) (khash : Z -> Z).

Implicit Types (m : BMap V).

(** [m->data[i * 2]] and the value beside it. *)
Definition entry_at m (i : Z) : Z * V := default (0, vzero) (m_data m !! Z.to_nat i).

Definition idx_at (idx : list Z) (i : Z) : Z := default 0 (idx !! Z.to_nat i).

Definition MAP_DEAD m (p : Z) : bool :=
  match m_deadbits m with
  | None => false
  | Some bits => Z.testbit (default 0 (bits !! Z.to_nat (p >>! 6))) (p &! 63)
  end.

Definition map_bump_version m : BMap V :=
  mkBMap (m_data m) (m_len m) (m_cap m) (m_idx m) (m_icap m) (m_tombs m) (m_used m)
    (m_deadbits m) (m_ordered m) (m_flags m) (i64 (u64 (m_version m) + 1)).

(** The entry array and the length fields. *)
Definition set_entries m (data : list (Z * V)) (len used : Z) : BMap V :=
  mkBMap data len (m_cap m) (m_idx m) (m_icap m) (m_tombs m) used
    (m_deadbits m) (m_ordered m) (m_flags m) (m_version m).

Definition set_index m (idx : option (list Z)) (icap tombs : Z) : BMap V :=
  mkBMap (m_data m) (m_len m) (m_cap m) idx icap tombs (m_used m)
    (m_deadbits m) (m_ordered m) (m_flags m) (m_version m).

Definition set_room m (data : list (Z * V)) (cap : Z) (bits : option (list Z)) : BMap V :=
  mkBMap data (m_len m) cap (m_idx m) (m_icap m) (m_tombs m) (m_used m)
    bits (m_ordered m) (m_flags m) (m_version m).

(** [beans_map_new] and [beans_map_new_typed_value]: four cells, zeroed. *)
Definition beans_map_new (key_ptr val_ptr : bool) (ordered : bool) : BMap V :=
  mkBMap (replicate 4 (0, vzero)) 0 4 None 0 0 0 None ordered
    (c_bool key_ptr + 2 * c_bool val_ptr) 0.

Definition map_value_size_check (value_stride : Z) : result unit :=
  if (value_stride <=? 0) || (2 ^ 30 <? value_stride) then Panic (lit "invalid map value size") 0 0
  else Ok tt.

(** ** The index *)

(** The compaction loop over the entries; [w] is the next cell to fill. *)
Fixpoint compact_loop (n : nat) (p w : Z) m (data : list (Z * V)) : list (Z * V) * Z :=
  match n with
  | O => (data, w)
  | S n =>
      if MAP_DEAD m p then compact_loop n (p + 1) w m data
      else
        let data := if w =? p then data
          else <[Z.to_nat w := default (0, vzero) (data !! Z.to_nat p)]> data in
        compact_loop n (p + 1) (w + 1) m data
  end.

Definition map_compact m : BMap V :=
  match m_deadbits m with
  | None => m
  | Some _ =>
      let '(data, w) := compact_loop (Z.to_nat (m_used m)) 0 0 m (m_data m) in
      set_room (set_entries m data (m_len m) w) data (m_cap m) None
  end.

(** [while (wanted * 3 >= cap * 2) cap <<= 1]. *)
Fixpoint index_cap (fuel : nat) (wanted cap : Z) : Z :=
  match fuel with
  | O => cap
  | S fuel => if cap * 2 <=? wanted * 3 then index_cap fuel wanted (cap * 2) else cap
  end.

(** [while (m->idx[i] & IDX_POS) i = (i + 1) & mask]; [None]: no empty word. *)
Fixpoint first_empty (fuel : nat) (idx : list Z) (mask i : Z) : option Z :=
  match fuel with
  | O => None
  | S fuel =>
      if idx_at idx i &! IDX_POS =? 0 then Some i
      else first_empty fuel idx mask ((i + 1) &! mask)
  end.

Definition index_word (h p : Z) : Z := (h &! IDX_FRAG) |! (p + 2).

(** [for (p = 0; p < len; p++)] of the reindex. *)
Fixpoint index_entries (n : nat) (p mask : Z) (data : list (Z * V)) (idx : list Z) : option (list Z) :=
  match n with
  | O => Some idx
  | S n =>
      let h := khash (fst (default (0, vzero) (data !! Z.to_nat p))) in
      i ← first_empty (length idx) idx mask (h &! mask);
      index_entries n (p + 1) mask data (<[Z.to_nat i := index_word h p]> idx)
  end.

Definition map_reindex_to m (reserve : Z) : option (BMap V) :=
  let m := map_compact m in
  let wanted := if reserve <? m_len m then m_len m else reserve in
  let cap := index_cap 64 wanted 16 in
  idx ← index_entries (Z.to_nat (m_len m)) 0 (cap - 1) (m_data m) (replicate (Z.to_nat cap) 0);
  Some (set_index m (Some idx) cap 0).

Definition map_reindex m : option (BMap V) := map_reindex_to m 0.

(** ** Finding *)

(** The scan of a map without an index. *)
Fixpoint linear_find (n : nat) (i key : Z) m : option Z :=
  match n with
  | O => None
  | S n => if keq (fst (entry_at m i)) key then Some i else linear_find n (i + 1) key m
  end.

(** The probe loop; the result is the hit's position, if any, and the index
    slot; [None]: the loop does not end. *)
Fixpoint find_loop (fuel : nat) m (idx : list Z) (mask frag key first_tomb i : Z)
    : option (option Z * Z) :=
  match fuel with
  | O => None
  | S fuel =>
      let w := idx_at idx i in
      let st := w &! IDX_POS in
      if st =? 0 then Some (None, if first_tomb =? -1 then i else first_tomb)
      else
        let first_tomb := if (st =? 1) && (first_tomb =? -1) then i else first_tomb in
        if (2 <=? st) && (w &! IDX_FRAG =? frag) && keq (fst (entry_at m (st - 2))) key
        then Some (Some (st - 2), i)
        else find_loop fuel m idx mask frag key first_tomb ((i + 1) &! mask)
  end.

(** The position found, the hash ([*hout], 0 without an index) and the slot. *)
Definition map_find m (key : Z) : option (option Z * Z * Z) :=
  match m_idx m with
  | None => Some (linear_find (Z.to_nat (m_len m)) 0 key m, 0, 0)
  | Some idx =>
      let h := khash key in
      let mask := m_icap m - 1 in
      '(p, slot) ← find_loop (length idx) m idx mask (h &! IDX_FRAG) key (-1) (h &! mask);
      Some (p, h, slot)
  end.

(** ** Inserting *)

(** [memset(deadbits + ow, 0, nw - ow)] after the reallocation. *)
Definition grow_bits (bits : list Z) (old_cap cap : Z) : list Z :=
  bits ++ replicate (Z.to_nat ((cap + 63) >>! 6) - Z.to_nat ((old_cap + 63) >>! 6)) 0.

(** The reallocated cells hold [tail]. *)
Definition map_grow m (tail : list (Z * V)) (cap : Z) : BMap V :=
  set_room m (m_data m ++ tail) cap ((fun bits => grow_bits bits (m_cap m) cap) <$> m_deadbits m).

Context (cells : Z -> list (Z * V)).

Definition map_insert_miss m (key : Z) (val : V) (h insert_slot : Z) : option (BMap V) :=
  let m := if m_used m =? m_cap m then map_grow m (cells (m_cap m)) (m_cap m * 2) else m in
  let m := set_entries m (<[Z.to_nat (m_used m) := (key, val)]> (m_data m)) (m_len m + 1) (m_used m + 1) in
  let m := map_bump_version m in
  match m_idx m with
  | None => if MAP_LINEAR_MAX <? m_len m then map_reindex m else Some m
  | Some idx =>
      if m_icap m * 2 <=? (m_used m + m_tombs m) * 3 then map_reindex m
      else
        let tombs := if idx_at idx insert_slot &! IDX_POS =? 1 then m_tombs m - 1 else m_tombs m in
        Some (set_index m (Some (<[Z.to_nat insert_slot := (h &! IDX_FRAG) |! (m_used m + 1)]> idx))
          (m_icap m) tombs)
  end.

Definition owned_key m (key : Z) : list Z :=
  if (m_flags m &! 1 =? 0) || (key =? 0) then [] else [key].

(** The stored value of a hit. *)
Definition set_value m (i : Z) (val : V) : BMap V :=
  set_entries m (<[Z.to_nat i := (fst (entry_at m i), val)]> (m_data m)) (m_len m) (m_used m).

(** The map and what is released, in order: on a hit the store comes first,
    then the duplicate key and the old value are dropped. *)
Definition beans_map_set m (key : Z) (val : V) : option (BMap V * list Z) :=
  '(p, h, slot) ← map_find m key;
  match p with
  | Some i => Some (set_value m i val, owned_key m key ++ rev (children (snd (entry_at m i))))
  | None => m ← map_insert_miss m key val h slot; Some (m, [])
  end.

(** [1] and no release, or [0] and both arguments released, value first. *)
Definition beans_map_insert m (key : Z) (val : V) : option (BMap V * list Z * bool) :=
  '(p, h, slot) ← map_find m key;
  match p with
  | Some _ => Some (m, rev (children val) ++ owned_key m key, false)
  | None => m ← map_insert_miss m key val h slot; Some (m, [], true)
  end.

Definition beans_map_get m (key : Z) : option (option V) :=
  '(p, _, _) ← map_find m key;
  Some (match p with Some i => Some (snd (entry_at m i)) | None => None end).

Definition beans_map_contains m (key : Z) : option bool :=
  '(p, _, _) ← map_find m key;
  Some (match p with Some _ => true | None => false end).

(** ** Removing *)

(** [for (at = h & mask;; at = (at + 1) & mask)] until the word of [last]. *)
Fixpoint find_position (fuel : nat) (idx : list Z) (mask last i : Z) : option Z :=
  match fuel with
  | O => None
  | S fuel =>
      if idx_at idx i &! IDX_POS =? last + 2 then Some i
      else find_position fuel idx mask last ((i + 1) &! mask)
  end.

Definition set_dead_bit m (i : Z) : list Z :=
  let bits := default (replicate (Z.to_nat ((m_cap m + 63) >>! 6)) 0) (m_deadbits m) in
  alter (fun w => w |! (1 <<! (i &! 63))) (Z.to_nat (i >>! 6)) bits.

Definition map_unlink_entry m (i slot : Z) : option (BMap V) :=
  let last := m_used m - 1 in
  match m_idx m with
  | None =>
      let data :=
        if m_ordered m then
          take (Z.to_nat i) (m_data m) ++
            take (Z.to_nat (last - i)) (drop (Z.to_nat (i + 1)) (m_data m)) ++
            drop (Z.to_nat last) (m_data m)
        else if i =? last then m_data m
        else <[Z.to_nat i := entry_at m last]> (m_data m) in
      let data := if wide then alter (fun e => (fst e, vzero)) (Z.to_nat last) data else data in
      Some (set_entries m data (m_len m - 1) last)
  | Some idx =>
      if negb (m_ordered m) then
        let idx := <[Z.to_nat slot := 1]> idx in
        let tombs := m_tombs m + 1 in
        '(idx, data) ←
          (if i =? last then Some (idx, m_data m)
           else
             let h := khash (fst (entry_at m last)) in
             at_ ← find_position (length idx) idx (m_icap m - 1) last (h &! (m_icap m - 1));
             Some (<[Z.to_nat at_ := (idx_at idx at_ &! IDX_FRAG) |! (i + 2)]> idx,
                   <[Z.to_nat i := entry_at m last]> (m_data m)));
        let data := <[Z.to_nat last := (0, vzero)]> data in
        let m := set_index (set_entries m data (m_len m - 1) last) (Some idx) (m_icap m) tombs in
        if m_len m <? m_tombs m then map_reindex m else Some m
      else
        let data := <[Z.to_nat i := (0, vzero)]> (m_data m) in
        let bits := set_dead_bit m i in
        let m := set_room (set_entries m data (m_len m - 1) (m_used m)) data (m_cap m) (Some bits) in
        let m := set_index m (Some (<[Z.to_nat slot := 1]> idx)) (m_icap m) (m_tombs m + 1) in
        if m_len m * 2 <? m_used m then map_reindex m else Some m
  end.

(** Take what is released, unlink, and release last. *)
Definition map_remove_found m (i slot : Z) : option (BMap V * list Z) :=
  let m := map_bump_version m in
  let dead := owned_key m (fst (entry_at m i)) ++ rev (children (snd (entry_at m i))) in
  m ← map_unlink_entry m i slot;
  Some (m, dead).

Definition beans_map_remove m (key : Z) : option (BMap V * list Z * bool) :=
  '(p, _, slot) ← map_find m key;
  match p with
  | None => Some (m, [], false)
  | Some i => '(m, dead) ← map_remove_found m i slot; Some (m, dead, true)
  end.

(** ** Reserving and copying *)

(** [while (cap < capacity && cap <= 2^59) cap *= 2]. *)
Fixpoint reserve_cap (fuel : nat) (cap capacity : Z) : Z :=
  match fuel with
  | O => cap
  | S fuel =>
      if (cap <? capacity) && (cap <=? 2 ^ 59) then reserve_cap fuel (cap * 2) capacity else cap
  end.

Definition beans_map_reserve m (capacity line col : Z) : result (option (BMap V)) :=
  if capacity <? 0 then fmt_panic 64 "negative reserve capacity %lld" [capacity] line col
  else if 2 ^ 58 <? capacity then Panic (lit "reserve capacity too large") line col
  else
    let m := map_bump_version m in
    let m :=
      if m_cap m <? capacity then
        let cap := reserve_cap 64 (m_cap m) capacity in
        let cap := if cap <? capacity then capacity else cap in
        map_grow m (cells (cap - m_cap m)) cap
      else m in
    Ok (map_reindex_to m capacity).

(** The positions of the live entries, in order. *)
Definition live_positions m : list Z :=
  List.filter (fun p => negb (MAP_DEAD m p)) (Z.of_nat <$> seq 0 (Z.to_nat (m_used m))).

(** [for (i = 0; i < used; i++) if (!MAP_DEAD(m, i))] reading the entries. *)
Definition entries m : list (Z * V) := entry_at m <$> live_positions m.

(** The copy, and the references it takes. *)
Definition beans_map_clone m : option (BMap V * list Z) :=
  let copy := beans_map_new (negb (m_flags m &! 1 =? 0)) (negb (m_flags m &! 2 =? 0)) (m_ordered m) in
  let copy := if m_cap copy <? m_len m then map_grow copy (cells (m_len m - m_cap copy)) (m_len m) else copy in
  let es := entries m in
  let n := Z.of_nat (length es) in
  let copy := set_entries copy (es ++ drop (length es) (m_data copy)) n n in
  let kept := concat ((fun e => owned_key m (fst e) ++ children (snd e)) <$> es) in
  copy ← (if MAP_LINEAR_MAX <? m_len copy then map_reindex copy else Some copy);
  Some (copy, kept).

(** ** Iterating *)

Fixpoint skip_dead (n : nat) m (cursor : Z) : Z :=
  match n with
  | O => cursor
  | S n => if (cursor <? m_used m) && MAP_DEAD m cursor then skip_dead n m (cursor + 1) else cursor
  end.

Definition beans_map_iter_next m (cursor version line col : Z) : result Z :=
  if negb (m_version m =? version) then Panic (lit "map changed during iteration") line col
  else
    let cursor := skip_dead (Z.to_nat (m_used m - cursor)) m cursor in
    Ok (if cursor <? m_used m then cursor else -1).

Definition beans_map_iter_key m (entry : Z) : Z := fst (entry_at m entry).
Definition beans_map_iter_value m (entry : Z) : V := snd (entry_at m entry).

(** ** Clearing *)

(** [deinit p m]: the map after the code that releasing [p] runs. *)
Context (deinit : Z -> BMap V -> BMap V).

Definition release_all (ps : list Z) (st : BMap V * list Z) : BMap V * list Z :=
  fold_left (fun '(m, released) p => (deinit p m, released ++ [p])) ps st.

(** [rt_map_clear_from]: value then key, last entry first, up to a position the
    map owns again.  The key is read back after the value's release. *)
Fixpoint map_clear_from (next : nat) (st : BMap V * list Z) : BMap V * list Z :=
  match next with
  | O => st
  | S i =>
      if Z.of_nat i <? m_used (fst st) then st
      else
        let st := release_all (rev (children (snd (entry_at (fst st) (Z.of_nat i))))) st in
        let st := release_all (owned_key (fst st) (fst (entry_at (fst st) (Z.of_nat i)))) st in
        map_clear_from i st
  end.

(** [owns]: keys or values hold owned pointers. *)
Definition beans_map_clear (owns : bool) m : BMap V * list Z :=
  let m := if m_len m =? 0 then m else map_bump_version m in
  let used := m_used m in
  let m := set_index (set_room (set_entries m (m_data m) 0 0) (m_data m) (m_cap m) None) None 0 0 in
  if owns then map_clear_from (Z.to_nat used) (m, []) else (m, []).

End maps.

(** ** Slot values *)

Section slot_maps.
Context (keq : Z -> Z -> bool) (khash : Z -> Z) (cells : Z -> list (Z * Z)).

(** The wrapping addition in place; a miss inserts the increment.  The key of a
    hit is released before the addition; that release runs no program code. *)
Definition beans_map_add (m : BMap Z) (key delta : Z) : option (BMap Z * list Z) :=
  '(p, h, slot) ← map_find 0 keq khash m key;
  match p with
  | Some i => Some (set_value 0 m i (i64 (snd (entry_at 0 m i) + delta)), owned_key m key)
  | None => m ← map_insert_miss 0 khash cells m key delta h slot; Some (m, [])
  end.

End slot_maps.
