(* ===== verification/MapProofs.v ===== *)
(** * MapProofs: the bucket index and the entries of a map

    [idx_ok k idx H]: an index of [2 ^ k] words holds exactly the positions
    and hashes of the relation [H], each word reachable from its home slot
    without crossing an empty word.  Probing ends because an empty word is
    left; it finds the position of an equal key when there is one. *)

From S2P Require Import Prelude Slots Mem MapRt.

Open Scope c_scope.

(** ** Index words *)

Definition state (w : Z) : Z := w &! IDX_POS.

Lemma state_mod w : state w = w mod 2 ^ 32.
Proof. exact (land32 w). Qed.

Lemma state_nonneg w : 0 <= state w.
Proof. rewrite state_mod. by apply Z.mod_pos_bound. Qed.

Lemma frag_div w : is_u64 w -> w &! IDX_FRAG = w / 2 ^ 32 * 2 ^ 32.
Proof.
  intros Hw. unfold IDX_FRAG. change 0xffffffff00000000 with (Z.shiftl (Z.ones 32) 32).
  rewrite <-shr_div, <-shl_mul by lia. apply Z.bits_inj'. intros n Hn.
  rewrite Z.land_spec, !Z.shiftl_spec by lia. destruct (Z.lt_ge_cases n 32) as [Hlt|Hge].
  - rewrite !(Z.testbit_neg_r _ (n - 32)) by lia. apply andb_false_r.
  - rewrite Z.shiftr_spec by lia. replace (n - 32 + 32) with n by lia.
    destruct (Z.lt_ge_cases n 64) as [H64|H64].
    + rewrite Z.ones_spec_low by lia. apply andb_true_r.
    + rewrite Z.ones_spec_high by lia. rewrite andb_false_r. symmetry.
      destruct (Z.eq_dec w 0) as [->|]; [apply Z.bits_0|]. apply Z.bits_above_log2; [apply Hw|].
      assert (Z.log2 w < 64) by (apply Z.log2_lt_pow2; unfold is_u64 in Hw; lia). lia.
Qed.

Lemma index_word_val h p :
  is_u64 h -> 0 <= p -> p + 2 < 2 ^ 32 -> index_word h p = h / 2 ^ 32 * 2 ^ 32 + (p + 2).
Proof.
  intros Hh Hp Hb. unfold index_word. rewrite frag_div by done.
  rewrite Z.lor_comm, lor_add by lia. lia.
Qed.

Lemma index_word_state h p : is_u64 h -> 0 <= p -> p + 2 < 2 ^ 32 -> state (index_word h p) = p + 2.
Proof. intros. rewrite state_mod, index_word_val by done. dlia. Qed.

Lemma index_word_frag h p :
  is_u64 h -> 0 <= p -> p + 2 < 2 ^ 32 -> index_word h p &! IDX_FRAG = h &! IDX_FRAG.
Proof.
  intros Hh Hp Hb. rewrite index_word_val by done. rewrite !frag_div; [dlia|done|].
  unfold is_u64 in *. dlia.
Qed.

Lemma idx_at_insert (idx : list Z) s s' w :
  0 <= s < Z.of_nat (length idx) -> 0 <= s' ->
  idx_at (<[Z.to_nat s := w]> idx) s' = if s =? s' then w else idx_at idx s'.
Proof.
  intros Hs Hs'. unfold idx_at. destruct (Z.eqb_spec s s') as [<-|Hne].
  - by rewrite list_lookup_insert_eq by lia.
  - rewrite list_lookup_insert_ne; [done|]. lia.
Qed.

(** ** Counting full words *)

Definition full (w : Z) : bool := negb (state w =? 0).

Lemma full_word h p : is_u64 h -> 0 <= p -> p + 2 < 2 ^ 32 -> full (index_word h p) = true.
Proof.
  intros Hh Hp Hb. unfold full. rewrite index_word_state by done.
  by rewrite (proj2 (Z.eqb_neq (p + 2) 0)) by lia.
Qed.

Lemma full_one : full 1 = true.
Proof. done. Qed.

Definition nfull (idx : list Z) : Z := Z.of_nat (length (List.filter full idx)).

Lemma nfull_insert idx s w :
  0 <= s < Z.of_nat (length idx) ->
  nfull (<[Z.to_nat s := w]> idx) = nfull idx - c_bool (full (idx_at idx s)) + c_bool (full w).
Proof.
  intros Hs. unfold nfull, idx_at. destruct (lookup_lt_is_Some_2 idx (Z.to_nat s)) as [x Hx]; [lia|].
  rewrite Hx. change (default 0 (Some x)) with x. destruct (list_elem_of_split_length _ _ _ Hx) as (a & b & -> & Ha).
  rewrite Ha, insert_app_r_alt, Nat.sub_diag by lia. change (<[0%nat:=w]> (x :: b)) with (w :: b).
  rewrite !List.filter_app. cbn [List.filter]. unfold c_bool.
  destruct (full x), (full w); rewrite !length_app; cbn [length]; lia.
Qed.

Lemma nfull_empty n : nfull (replicate n 0) = 0.
Proof. unfold nfull. induction n as [|n IH]; [done|]. cbn [replicate List.filter]. exact IH. Qed.

Section index.
Context (k : Z) (Hk : 0 <= k).

Let cap : Z := 2 ^ k.

Lemma cap_pos : 0 < cap.
Proof. unfold cap. lia. Qed.

Definition probe (h j : Z) : Z := (h + j) mod cap.

Lemma probe_range h j : 0 <= probe h j < cap.
Proof. apply Z.mod_pos_bound, cap_pos. Qed.

Lemma mask_mod x : x &! (cap - 1) = x mod cap.
Proof. unfold cap. rewrite <-Z.land_ones by done. f_equal. rewrite Z.ones_equiv. lia. Qed.

Lemma probe_next h j : (probe h j + 1) &! (cap - 1) = probe h (j + 1).
Proof.
  rewrite mask_mod. unfold probe. pose proof cap_pos. rewrite Z.add_mod_idemp_l by lia. f_equal. lia.
Qed.

Lemma probe_home h : h &! (cap - 1) = probe h 0.
Proof. rewrite mask_mod. unfold probe. by rewrite Z.add_0_r. Qed.

(** Every slot is on every probe sequence. *)
Lemma probe_reaches h s : 0 <= s < cap -> exists j, 0 <= j < cap /\ probe h j = s.
Proof.
  intros Hs. pose proof cap_pos. exists ((s - h) mod cap). split; [by apply Z.mod_pos_bound|].
  unfold probe. rewrite Z.add_mod_idemp_r by lia. replace (h + (s - h)) with s by lia. by apply Z.mod_small.
Qed.

(** ** Words in the index *)

(** [before idx h j]: the first [j] words from [h]'s home are not empty. *)
Definition before (idx : list Z) (h j : Z) : Prop :=
  forall i, 0 <= i < j -> state (idx_at idx (probe h i)) <> 0.

Record idx_ok (idx : list Z) (H : Z -> Z -> Prop) : Prop := {
  io_len : Z.of_nat (length idx) = cap;
  io_words s : 0 <= s < cap -> idx_at idx s = 0 \/ idx_at idx s = 1 \/
    exists p h, H p h /\ idx_at idx s = index_word h p;
  io_all p h : H p h -> exists j, 0 <= j < cap /\ idx_at idx (probe h j) = index_word h p /\ before idx h j;
  io_one s s' : 0 <= s < cap -> 0 <= s' < cap -> 2 <= state (idx_at idx s) ->
    state (idx_at idx s) = state (idx_at idx s') -> s = s';
  io_bound p h : H p h -> 0 <= p /\ p + 2 < 2 ^ 32 /\ is_u64 h;
  io_fun p h h' : H p h -> H p h' -> h = h'
}.

Lemma idx_ok_ext idx H H' : idx_ok idx H -> (forall p h, H p h <-> H' p h) -> idx_ok idx H'.
Proof.
  intros [Hl Hw Ha Ho Hb Hf] He. split; [done|..|done| |].
  - intros s Hs. destruct (Hw s Hs) as [?|[?|(p & h & ? & ?)]]; [by left|by right; left|].
    right. right. exists p, h. by rewrite <-He.
  - intros p h Hp%He. by apply Ha.
  - intros p h Hp%He. by apply Hb.
  - intros p h h' Hp%He Hp'%He. by eapply Hf.
Qed.

Lemma word_state idx H p h s :
  idx_ok idx H -> H p h -> idx_at idx s = index_word h p -> state (idx_at idx s) = p + 2.
Proof. intros I Hp ->. destruct (io_bound _ _ I p h Hp) as (? & ? & ?). by apply index_word_state. Qed.

(** ** Probing for a key *)

Definition has_empty (idx : list Z) : Prop := exists s, 0 <= s < cap /\ state (idx_at idx s) = 0.

(** All probes before an exhausted one were full, so there is no empty word. *)
Lemma before_all idx h j : before idx h j -> cap <= j -> has_empty idx -> False.
Proof.
  intros Hb Hj (s & Hs & He). destruct (probe_reaches h s Hs) as (i & Hi & <-). apply (Hb i); [lia|done].
Qed.

Lemma before_next idx h j : before idx h j -> state (idx_at idx (probe h j)) <> 0 -> before idx h (j + 1).
Proof. intros Hb Hj i Hi. destruct (Z.eq_dec i j) as [->|]; [done|]. apply Hb. lia. Qed.

Lemma first_empty_spec idx h : forall fuel j,
  0 <= j -> cap <= Z.of_nat fuel + j -> has_empty idx -> before idx h j ->
  exists j', j <= j' < cap /\ first_empty fuel idx (cap - 1) (probe h j) = Some (probe h j') /\
    state (idx_at idx (probe h j')) = 0 /\ before idx h j'.
Proof.
  induction fuel as [|fuel IH]; intros j Hj Hf He Hb; cbn [first_empty].
  { exfalso. by eapply before_all; [| |done]; [done|lia]. }
  fold (state (idx_at idx (probe h j))). destruct (Z.eqb_spec (state (idx_at idx (probe h j))) 0) as [Hz|Hz].
  - exists j. split; [|done]. split; [lia|]. destruct (Z.lt_ge_cases j cap); [done|].
    exfalso. by eapply before_all.
  - rewrite probe_next. destruct (IH (j + 1)) as (j' & Hj' & Hr); [lia|lia|done|by apply before_next|].
    exists j'. split; [lia|done].
Qed.

Section find.
Context {V : Type} (vzero : V) (keq : Z -> Z -> bool) (m : BMap V).
Context (idx : list Z) (H : Z -> Z -> Prop) (I : idx_ok idx H) (He : has_empty idx).
Context (h key : Z) (Hh : is_u64 h).
(** Equal keys have the key's hash. *)
Context (Hkey : forall p h', H p h' -> keq (fst (entry_at vzero m p)) key = true -> h' = h).

Definition hit (s : Z) : bool :=
  (2 <=? state (idx_at idx s)) && (idx_at idx s &! IDX_FRAG =? h &! IDX_FRAG) &&
  keq (fst (entry_at vzero m (state (idx_at idx s) - 2))) key.

(** A hit is a live position whose key is equal. *)
Lemma hit_live s : 0 <= s < cap -> hit s = true ->
  let p := state (idx_at idx s) - 2 in
  H p h /\ keq (fst (entry_at vzero m p)) key = true /\ idx_at idx s = index_word h p.
Proof.
  intros Hs Hit. unfold hit in Hit. apply andb_true_iff in Hit as [Hit Heq]. bools.
  destruct (io_words _ _ I s Hs) as [Hw|[Hw|(p & h' & Hp & Hw)]].
  - rewrite Hw in *. done.
  - rewrite Hw in *. done.
  - pose proof (word_state _ _ _ _ _ I Hp Hw) as Hst. cbv zeta. rewrite Hst in *.
    replace (p + 2 - 2) with p in * by lia. pose proof (Hkey p h' Hp Heq) as ->. done.
Qed.

Lemma find_loop_spec : forall fuel j ft,
  0 <= j -> cap <= Z.of_nat fuel + j -> before idx h j ->
  (forall i, 0 <= i < j -> hit (probe h i) = false) ->
  ft = -1 \/ (exists i, 0 <= i < j /\ ft = probe h i /\ state (idx_at idx ft) = 1) ->
  (exists p s, find_loop vzero keq fuel m idx (cap - 1) (h &! IDX_FRAG) key ft (probe h j) = Some (Some p, s) /\
     H p h /\ keq (fst (entry_at vzero m p)) key = true /\ 0 <= s < cap /\ idx_at idx s = index_word h p) \/
  (exists i, find_loop vzero keq fuel m idx (cap - 1) (h &! IDX_FRAG) key ft (probe h j) = Some (None, probe h i) /\
     0 <= i < cap /\ state (idx_at idx (probe h i)) <= 1 /\ before idx h i /\
     (forall p h', H p h' -> keq (fst (entry_at vzero m p)) key = false)).
Proof.
  induction fuel as [|fuel IH]; intros j ft Hj Hf Hb Hno Hft; cbn [find_loop].
  { exfalso. eapply before_all; [done|lia|done]. }
  fold (state (idx_at idx (probe h j))). set (st := state (idx_at idx (probe h j))).
  pose proof (probe_range h j) as Hr. cbv zeta.
  destruct (Z.eqb_spec st 0) as [Hz|Hz].
  - right.
    assert (Hjc : j < cap) by (destruct (Z.lt_ge_cases j cap); [done|exfalso; by eapply before_all]).
    assert (Hmiss : forall p h', H p h' -> keq (fst (entry_at vzero m p)) key = false).
    { intros p h' Hp. destruct (keq (fst (entry_at vzero m p)) key) eqn:Hq; [|done]. exfalso.
      pose proof (Hkey p h' Hp Hq) as ->. destruct (io_all _ _ I p h Hp) as (i & Hi & Hw & Hbi).
      pose proof (word_state _ _ _ _ _ I Hp Hw) as Hst. destruct (io_bound _ _ I p h Hp) as (Hp0 & Hpb & _).
      destruct (Z.lt_trichotomy i j) as [Hlt|[->|Hgt]].
      - specialize (Hno i ltac:(lia)). unfold hit in Hno. rewrite Hst in Hno.
        replace (p + 2 - 2) with p in Hno by lia. rewrite Hq, Hw, index_word_frag, Z.eqb_refl in Hno by done.
        rewrite (proj2 (Z.leb_le _ _)) in Hno by lia. done.
      - unfold st in Hz. lia.
      - by apply (Hbi j); [lia|]. }
    destruct Hft as [->|(i & Hi & -> & Hs1)].
    + exists j. rewrite Z.eqb_refl. split; [done|]. split; [lia|]. split; [unfold st in Hz; lia|]. done.
    + exists i. rewrite (proj2 (Z.eqb_neq _ _)) by (pose proof (probe_range h i); lia).
      split; [done|]. split; [lia|]. split; [lia|]. split; [|done]. intros i' Hi'. apply Hb. lia.
  - set (ft' := if (st =? 1) && (ft =? -1) then probe h j else ft).
    change ((2 <=? st) && (idx_at idx (probe h j) &! IDX_FRAG =? h &! IDX_FRAG) &&
      keq (fst (entry_at vzero m (st - 2))) key) with (hit (probe h j)).
    destruct (hit (probe h j)) eqn:Hit.
    + left. destruct (hit_live _ Hr Hit) as (Hp & Hq & Hw). by exists (st - 2), (probe h j).
    + rewrite probe_next. apply IH; [lia|lia|by apply before_next| |].
      * intros i Hi. destruct (Z.eq_dec i j) as [->|]; [done|]. apply Hno. lia.
      * unfold ft'. destruct (Z.eqb_spec st 1) as [H1|H1]; cbn [andb].
        -- destruct (Z.eqb_spec ft (-1)) as [H2|H2].
           ++ right. exists j. split; [lia|]. done.
           ++ destruct Hft as [->|(i & Hi & Hrest)]; [done|]. right. exists i. split; [lia|done].
        -- destruct Hft as [->|(i & Hi & Hrest)]; [by left|]. right. exists i. split; [lia|done].
Qed.

End find.

(** Finding the word of a position from its hash. *)
Lemma find_position_spec idx H p h : idx_ok idx H -> H p h -> forall fuel j,
  0 <= j -> cap <= Z.of_nat fuel + j -> (forall i, 0 <= i < j -> state (idx_at idx (probe h i)) <> p + 2) ->
  exists s, find_position fuel idx (cap - 1) p (probe h j) = Some s /\ 0 <= s < cap /\ idx_at idx s = index_word h p.
Proof.
  intros I Hp. destruct (io_all _ _ I p h Hp) as (i & Hi & Hw & _).
  pose proof (word_state _ _ _ _ _ I Hp Hw) as Hst.
  induction fuel as [|fuel IH]; intros j Hj Hf Hno; cbn [find_position].
  { exfalso. by apply (Hno i); [lia|]. }
  fold (state (idx_at idx (probe h j))).
  destruct (Z.eqb_spec (state (idx_at idx (probe h j))) (p + 2)) as [He|He].
  - exists (probe h j). split; [done|]. split; [apply probe_range|].
    destruct (io_bound _ _ I p h Hp) as (? & _).
    rewrite <-Hw. f_equal. apply (io_one _ _ I); [apply probe_range..|lia|lia].
  - rewrite probe_next. apply IH; [lia|lia|]. intros i' Hi'. destruct (Z.eq_dec i' j) as [->|]; [done|].
    apply Hno. lia.
Qed.

(** ** Changing the index *)

Lemma before_insert idx h j s w :
  Z.of_nat (length idx) = cap -> 0 <= s < cap -> state w <> 0 -> before idx h j ->
  before (<[Z.to_nat s := w]> idx) h j.
Proof.
  intros Hl Hs Hw Hb i Hi. pose proof (probe_range h i).
  rewrite idx_at_insert by lia. case_match; [done|by apply Hb].
Qed.

(** A position enters at the slot a probe of its hash found free. *)
Lemma idx_put idx H p h j :
  idx_ok idx H -> (forall h', ~ H p h') -> 0 <= p -> p + 2 < 2 ^ 32 -> is_u64 h ->
  0 <= j < cap -> state (idx_at idx (probe h j)) <= 1 -> before idx h j ->
  idx_ok (<[Z.to_nat (probe h j) := index_word h p]> idx) (fun q g => H q g \/ (q = p /\ g = h)).
Proof.
  intros I Hnew Hp Hpb Hh Hj Hfree Hbef. pose proof (io_len _ _ I) as Hl.
  pose proof (probe_range h j) as Hr. pose proof (index_word_state h p Hh Hp Hpb) as Hst.
  assert (Hold : forall q g, H q g -> q <> p) by (intros q g Hq ->; by eapply Hnew).
  split.
  - by rewrite length_insert.
  - intros s Hs. rewrite idx_at_insert by lia. case_match.
    + right. right. exists p, h. split; [by right|done].
    + destruct (io_words _ _ I s Hs) as [?|[?|(q & g & Hq & ?)]]; [by left|by right; left|].
      right. right. exists q, g. split; [by left|done].
  - intros q g [Hq|[-> ->]].
    + destruct (io_all _ _ I q g Hq) as (i & Hi & Hw & Hb). exists i. split; [done|].
      pose proof (word_state _ _ _ _ _ I Hq Hw). destruct (io_bound _ _ I q g Hq) as (? & _).
      pose proof (probe_range g i). rewrite idx_at_insert by lia.
      destruct (Z.eqb_spec (probe h j) (probe g i)) as [He|]; [rewrite He in Hfree; lia|].
      split; [done|]. apply before_insert; [done|done|lia|done].
    + exists j. split; [done|]. rewrite idx_at_insert, Z.eqb_refl by lia. split; [done|].
      apply before_insert; [done|done|lia|done].
  - intros s s' Hs Hs'. rewrite !idx_at_insert by lia.
    assert (Hno : forall s0, 0 <= s0 < cap -> state (idx_at idx s0) <> p + 2).
    { intros s0 Hs0 He. destruct (io_words _ _ I s0 Hs0) as [Hw|[Hw|(q & g & Hq & Hw)]].
      - rewrite Hw in He. change (state 0) with 0 in He. lia.
      - rewrite Hw in He. change (state 1) with 1 in He. lia.
      - rewrite (word_state _ _ _ _ _ I Hq Hw) in He. apply (Hold q g Hq). lia. }
    pose proof (Hno s Hs). pose proof (Hno s' Hs').
    destruct (Z.eqb_spec (probe h j) s), (Z.eqb_spec (probe h j) s'); intros H2 He;
      [congruence|lia|lia|by apply (io_one _ _ I)].
  - intros q g [Hq|[-> ->]]; [by apply (io_bound _ _ I)|done].
  - intros q g g' [Hq|[-> ->]] [Hq'|[Hpq ->]]; [by apply (io_fun _ _ I q)|subst; by apply Hold in Hq|by apply Hold in Hq'|done].
Qed.

(** A position leaves; its word becomes a tombstone. *)
Lemma idx_del idx H p h s :
  idx_ok idx H -> H p h -> 0 <= s < cap -> idx_at idx s = index_word h p ->
  idx_ok (<[Z.to_nat s := 1]> idx) (fun q g => H q g /\ q <> p).
Proof.
  intros I Hp Hs Hw. pose proof (io_len _ _ I) as Hl. pose proof (word_state _ _ _ _ _ I Hp Hw) as Hst.
  destruct (io_bound _ _ I p h Hp) as (Hp0 & _). split.
  - by rewrite length_insert.
  - intros s' Hs'. rewrite idx_at_insert by lia. destruct (Z.eqb_spec s s') as [->|Hne]; [by right; left|].
    destruct (io_words _ _ I s' Hs') as [?|[?|(q & g & Hq & Hwq)]]; [by left|by right; left|].
    right. right. exists q, g. split; [|done]. split; [done|]. intros ->.
    pose proof (word_state _ _ _ _ _ I Hq Hwq). apply Hne, (io_one _ _ I); [done..|lia|lia].
  - intros q g [Hq Hne]. destruct (io_all _ _ I q g Hq) as (i & Hi & Hwq & Hb). exists i. split; [done|].
    pose proof (word_state _ _ _ _ _ I Hq Hwq). pose proof (probe_range g i).
    rewrite idx_at_insert by lia. destruct (Z.eqb_spec s (probe g i)) as [->|]; [lia|].
    split; [done|]. by apply before_insert.
  - intros a b Ha Hb. rewrite !idx_at_insert by lia. change (state 1) with 1.
    destruct (Z.eqb_spec s a), (Z.eqb_spec s b); change (state 1) with 1; intros; try lia. by apply (io_one _ _ I).
  - intros q g [Hq _]. by apply (io_bound _ _ I).
  - intros q g g' [Hq _] [Hq' _]. by eapply (io_fun _ _ I).
Qed.

(** A position is renamed in place. *)
Lemma idx_move idx H p q h s :
  idx_ok idx H -> H p h -> (forall h', ~ H q h') -> 0 <= q < p -> 0 <= s < cap -> idx_at idx s = index_word h p ->
  idx_ok (<[Z.to_nat s := (idx_at idx s &! IDX_FRAG) |! (q + 2)]> idx)
    (fun r g => (H r g /\ r <> p) \/ (r = q /\ g = h)).
Proof.
  intros I Hp Hnew Hq Hs Hw. pose proof (io_len _ _ I) as Hl. pose proof (word_state _ _ _ _ _ I Hp Hw) as Hst.
  destruct (io_bound _ _ I p h Hp) as (Hp0 & Hpb & Hh).
  assert (Hword : (idx_at idx s &! IDX_FRAG) |! (q + 2) = index_word h q).
  { rewrite Hw, index_word_frag by done. done. }
  rewrite Hword. pose proof (index_word_state h q Hh ltac:(lia) ltac:(lia)) as Hsq. split.
  - by rewrite length_insert.
  - intros s' Hs'. rewrite idx_at_insert by lia. destruct (Z.eqb_spec s s') as [->|Hne].
    { right. right. exists q, h. split; [by right|done]. }
    destruct (io_words _ _ I s' Hs') as [?|[?|(r & g & Hr & Hwr)]]; [by left|by right; left|].
    right. right. exists r, g. split; [|done]. left. split; [done|]. intros ->.
    pose proof (word_state _ _ _ _ _ I Hr Hwr). apply Hne, (io_one _ _ I); [done..|lia|lia].
  - intros r g [[Hr Hne]|[-> ->]].
    + destruct (io_all _ _ I r g Hr) as (i & Hi & Hwr & Hb). exists i. split; [done|].
      pose proof (word_state _ _ _ _ _ I Hr Hwr). pose proof (probe_range g i).
      rewrite idx_at_insert by lia. destruct (Z.eqb_spec s (probe g i)) as [->|]; [lia|].
      split; [done|]. apply before_insert; [done|done|lia|done].
    + destruct (io_all _ _ I p h Hp) as (i & Hi & Hwr & Hb). exists i. split; [done|].
      pose proof (word_state _ _ _ _ _ I Hp Hwr). pose proof (probe_range h i).
      assert (s = probe h i) as <- by (apply (io_one _ _ I); [done..|lia|lia]).
      rewrite idx_at_insert, Z.eqb_refl by lia. split; [done|]. apply before_insert; [done|done|lia|done].
  - assert (Hno : forall s0, 0 <= s0 < cap -> state (idx_at idx s0) <> q + 2).
    { intros s0 Hs0 He. destruct (io_words _ _ I s0 Hs0) as [Hw0|[Hw0|(r & g & Hr & Hw0)]].
      - rewrite Hw0 in He. change (state 0) with 0 in He. lia.
      - rewrite Hw0 in He. change (state 1) with 1 in He. lia.
      - rewrite (word_state _ _ _ _ _ I Hr Hw0) in He. assert (r = q) as -> by lia. by eapply Hnew. }
    intros a b Ha Hb. rewrite !idx_at_insert by lia. pose proof (Hno a Ha). pose proof (Hno b Hb).
    destruct (Z.eqb_spec s a), (Z.eqb_spec s b); intros; try lia. by apply (io_one _ _ I).
  - intros r g [[Hr _]|[-> ->]]; [by apply (io_bound _ _ I)|]. split_and!; [lia|lia|done].
  - intros r g g' [[Hr ?]|[-> ->]] [[Hr' ?]|[? ->]]; subst; try done; [by eapply (io_fun _ _ I)|by apply Hnew in Hr|by apply Hnew in Hr'].
Qed.

Lemma nfull_has_empty idx : Z.of_nat (length idx) = cap -> nfull idx < cap -> has_empty idx.
Proof.
  intros Hl Hn.
  assert (Hex : exists i w, idx !! i = Some w /\ full w = false).
  { rewrite <-Hl in Hn. unfold nfull in Hn. clear Hl. induction idx as [|w idx IH]; cbn [length List.filter] in Hn; [lia|].
    destruct (full w) eqn:Hw; [|by exists 0%nat, w].
    cbn [length] in Hn. destruct IH as (i & x & Hi & Hx); [lia|]. by exists (S i), x. }
  destruct Hex as (i & w & Hi & Hw). pose proof (lookup_lt_Some _ _ _ Hi).
  exists (Z.of_nat i). split; [lia|]. unfold idx_at. rewrite Nat2Z.id, Hi. cbn.
  unfold full in Hw. by bools.
Qed.

End index.

(** * The invariant of a map and its entries

    [map_ok m]: the entry array, the hole bits and the index agree.  What the
    map means is [entries m], the live entries in order; growing, reindexing
    and appending are described by what they do to [entries]. *)

Section maps.
Context {V : Type} (vzero : V).
Context (valid : Z -> Prop) (keq : Z -> Z -> bool) (khash : Z -> Z) `{!KeyOps valid keq khash}.
Context (cells : Z -> list (Z * V)) (Hcells : forall n, 0 <= n -> Z.of_nat (length (cells n)) = n).

Implicit Types (m : BMap V).

Abbreviation entry_at := (entry_at vzero).
Abbreviation entries := (entries vzero).

(** ** Live positions *)

Definition live m (p : Z) : Prop := 0 <= p < m_used m /\ MAP_DEAD m p = false.

Definition key_at m (p : Z) : Z := fst (entry_at m p).

(** A live position and its key's hash: what the index holds. *)
Definition live_hash m (p h : Z) : Prop := live m p /\ h = khash (key_at m p).

Lemma live_positions_elem m p : p ∈ live_positions m <-> live m p.
Proof.
  unfold live_positions, live. rewrite list_elem_of_In, filter_In, <-list_elem_of_In, list_elem_of_fmap, negb_true_iff.
  split.
  - intros [(i & -> & [? ?]%elem_of_seq) Hd]. split; [lia|done].
  - intros [Hp Hd]. split; [|done]. exists (Z.to_nat p). split; [lia|]. apply elem_of_seq. lia.
Qed.

Lemma live_positions_NoDup m : NoDup (live_positions m).
Proof.
  unfold live_positions. apply NoDup_ListNoDup, List.NoDup_filter, NoDup_ListNoDup.
  apply NoDup_fmap_2; [apply _|apply NoDup_seq].
Qed.

Lemma entries_elem m e : e ∈ entries m <-> exists p, live m p /\ e = entry_at m p.
Proof.
  unfold entries. rewrite list_elem_of_fmap. split.
  - intros (p & -> & Hp). exists p. by rewrite <-live_positions_elem.
  - intros (p & Hp & ->). exists p. by rewrite live_positions_elem.
Qed.

Lemma positions_ext m m' :
  m_used m' = m_used m -> (forall p, 0 <= p < m_used m -> MAP_DEAD m' p = MAP_DEAD m p) ->
  live_positions m' = live_positions m.
Proof.
  intros Hu Hd. unfold live_positions. rewrite Hu. apply filter_ext_in.
  intros p (i & -> & [? ?]%elem_of_seq)%list_elem_of_fmap. rewrite Hd; [done|lia].
Qed.

Lemma entries_ext m m' :
  m_used m' = m_used m -> (forall p, 0 <= p < m_used m -> MAP_DEAD m' p = MAP_DEAD m p) ->
  (forall p, live m p -> entry_at m' p = entry_at m p) -> entries m' = entries m.
Proof.
  intros Hu Hd He. unfold entries. rewrite (positions_ext m m') by done.
  apply list_fmap_ext. intros i p Hp. apply He, live_positions_elem. by eapply list_elem_of_lookup_2.
Qed.

Lemma positions_snoc m m' :
  0 <= m_used m -> m_used m' = m_used m + 1 -> (forall p, 0 <= p < m_used m -> MAP_DEAD m' p = MAP_DEAD m p) ->
  MAP_DEAD m' (m_used m) = false -> live_positions m' = live_positions m ++ [m_used m].
Proof.
  intros Hu0 Hu Hd Hl. unfold live_positions. rewrite Hu.
  replace (Z.to_nat (m_used m + 1)) with (S (Z.to_nat (m_used m))) by lia.
  rewrite seq_S, fmap_app, List.filter_app. cbn [fmap list_fmap List.filter Nat.add].
  replace (Z.of_nat (Z.to_nat (m_used m))) with (m_used m) by lia. rewrite Hl. cbn [negb]. f_equal.
  apply filter_ext_in. intros p (i & -> & [? ?]%elem_of_seq)%list_elem_of_fmap. rewrite Hd; [done|lia].
Qed.

(** Without holes the entries are the front of the array. *)
Lemma entries_front m :
  (forall p, MAP_DEAD m p = false) -> 0 <= m_used m -> m_used m <= Z.of_nat (length (m_data m)) ->
  entries m = take (Z.to_nat (m_used m)) (m_data m) /\ live_positions m = Z.of_nat <$> seq 0 (Z.to_nat (m_used m)).
Proof.
  intros Hd Hu Hl. 
  assert (Hp : live_positions m = Z.of_nat <$> seq 0 (Z.to_nat (m_used m))).
  { unfold live_positions. rewrite (filter_ext_in _ (fun _ => true)) by (intros; by rewrite Hd).
    by rewrite List.filter_true. }
  split; [|done]. unfold entries. rewrite Hp, <-list_fmap_compose. apply list_eq. intros i.
  rewrite list_lookup_fmap. destruct (decide (i < Z.to_nat (m_used m))%nat) as [Hi|Hi].
  - rewrite lookup_seq_lt, lookup_take_lt by done. cbn [fmap option_fmap option_map Nat.add].
    destruct (lookup_lt_is_Some_2 (m_data m) i) as [e He]; [lia|].
    unfold compose, MapRt.entry_at. by rewrite Nat2Z.id, He.
  - rewrite lookup_seq_ge, lookup_take_ge by lia. done.
Qed.

(** ** Hole bits *)

Lemma dead_none m : m_deadbits m = None -> forall p, MAP_DEAD m p = false.
Proof. intros Hb p. unfold MAP_DEAD. by rewrite Hb. Qed.

Lemma bits_zero (bits : list Z) n i : default 0 ((bits ++ replicate n 0) !! i) = default 0 (bits !! i).
Proof.
  destruct (decide (i < length bits)%nat); [by rewrite lookup_app_l|].
  rewrite lookup_app_r, (lookup_ge_None_2 bits) by lia.
  destruct (replicate n 0 !! (i - length bits)%nat) eqn:He; [|done]. by apply lookup_replicate in He as [-> _].
Qed.

Lemma shr6 x : x >>! 6 = x / 64.
Proof. by rewrite shr_div by lia. Qed.

Lemma bit_coords i p : 0 <= i -> 0 <= p -> (i >>! 6 = p >>! 6 /\ i &! 63 = p &! 63) <-> i = p.
Proof.
  intros Hi Hp. clear vzero. change 63 with (Z.ones 6). rewrite !Z.land_ones, !shr6 by lia.
  change (2 ^ 6) with 64. split; [|by intros ->]. intros [H1 H2]. dlia.
Qed.

Lemma set_dead_bit_dead m i p m' :
  0 <= i < m_cap m -> 0 <= p -> m_deadbits m' = Some (set_dead_bit m i) ->
  match m_deadbits m with Some bits => Z.of_nat (length bits) = (m_cap m + 63) >>! 6 | None => True end ->
  MAP_DEAD m' p = (i =? p) || MAP_DEAD m p.
Proof.
  intros Hi Hp Hb Hlen. clear vzero. unfold MAP_DEAD at 1. rewrite Hb. unfold set_dead_bit.
  set (bits := default (replicate (Z.to_nat ((m_cap m + 63) >>! 6)) 0) (m_deadbits m)).
  assert (Hlb : Z.of_nat (length bits) = (m_cap m + 63) >>! 6).
  { unfold bits. destruct (m_deadbits m); [done|]. change (default ?x None) with x.
    rewrite length_replicate, Z2Nat.id; [done|]. rewrite shr6. dlia. }
  assert (Hold : forall q, 0 <= q -> MAP_DEAD m q = Z.testbit (default 0 (bits !! Z.to_nat (q >>! 6))) (q &! 63)).
  { intros q Hq. unfold MAP_DEAD, bits. destruct (m_deadbits m); [done|]. change (default ?x None) with x.
    destruct (replicate _ 0 !! Z.to_nat (q >>! 6)) eqn:He; [apply lookup_replicate in He as [-> _]|]; by rewrite Z.bits_0. }
  rewrite Hold by done. clear Hold.
  assert (Hin : (Z.to_nat (i >>! 6) < length bits)%nat) by (rewrite shr6 in *; dlia).
  assert (Hi63 : 0 <= i &! 63 < 64 /\ 0 <= p &! 63 < 64).
  { change 63 with (Z.ones 6). rewrite !Z.land_ones by lia. dlia. }
  assert (Hbit : 1 <<! (i &! 63) = 2 ^ (i &! 63)).
  { rewrite shl_mul, Z.mul_1_l by lia. apply u64_small. unfold is_u64. split; [apply Z.pow_nonneg; lia|].
    apply Z.pow_lt_mono_r; lia. }
  destruct (lookup_lt_is_Some_2 bits _ Hin) as [w Hw].
  destruct (decide (Z.to_nat (i >>! 6) = Z.to_nat (p >>! 6))) as [He|Hne].
  - rewrite <-He, list_lookup_alter_eq, Hw. cbn [fmap option_fmap option_map].
    change (default 0 (Some ?x)) with x. rewrite Hbit, Z.lor_spec, Z.pow2_bits_eqb, orb_comm by lia. f_equal.
    pose proof (bit_coords i p ltac:(lia) Hp) as Hc.
    assert (i >>! 6 = p >>! 6) by (apply Z2Nat.inj; [rewrite shr6; dlia..|done]).
    destruct (Z.eqb_spec i p) as [->|Hip]; [apply Z.eqb_refl|]. apply Z.eqb_neq. tauto.
  - rewrite list_lookup_alter_ne by done. destruct (Z.eqb_spec i p) as [->|]; [done|]. done.
Qed.

(** ** The invariant *)

(** Valid keys, no two of them equal. *)
Fixpoint keys_ok (ks : list Z) : Prop :=
  match ks with
  | [] => True
  | x :: ks => valid x /\ Forall (fun y => keq x y = false) ks /\ keys_ok ks
  end.

Lemma keys_ok_perm ks ks' : ks ≡ₚ ks' -> keys_ok ks -> keys_ok ks'.
Proof.
  induction 1 as [|x ks ks' Hp IH|x y ks|ks1 ks2 ks3 _ IH1 _ IH2]; cbn [keys_ok].
  - done.
  - intros (Hx & Hf & Hk). split; [done|]. split; [by rewrite <-Hp|auto].
  - intros (Hx & Hf & Hy & Hg & Hk). apply Forall_cons in Hf as [Hxy Hf].
    split; [done|]. split; [|auto]. constructor; [by rewrite keq_sym|done].
  - auto.
Qed.

Lemma keys_ok_drop a x b : keys_ok (a ++ x :: b) -> keys_ok (a ++ b).
Proof. intros Hk. apply (keys_ok_perm _ (x :: a ++ b)) in Hk; [apply Hk|]. by rewrite Permutation_middle. Qed.

Lemma keys_ok_snoc ks x :
  keys_ok ks -> valid x -> Forall (fun y => keq y x = false) ks -> keys_ok (ks ++ [x]).
Proof.
  intros Hk Hx Hf. apply (keys_ok_perm (x :: ks)); [apply Permutation_cons_append|]. split; [done|]. split; [|done].
  assert (Hv : Forall valid ks) by (clear -Hk; induction ks as [|y ks IH]; [done|]; destruct Hk as (? & _ & ?); auto).
  rewrite Forall_forall in Hf, Hv |- *. intros y Hy. rewrite keq_sym by auto. auto.
Qed.

Record body_ok m : Prop := {
  bo_data : Z.of_nat (length (m_data m)) = m_cap m;
  bo_cap : 1 <= m_cap m;
  bo_used : 0 <= m_used m <= m_cap m;
  bo_len : m_len m = Z.of_nat (length (entries m));
  bo_bits : match m_deadbits m with
    | Some bits => Z.of_nat (length bits) = (m_cap m + 63) >>! 6 /\ m_ordered m = true
    | None => True
    end;
  bo_dead p : 0 <= p -> MAP_DEAD m p = true -> p < m_used m;
  bo_holes p : 0 <= p -> MAP_DEAD m p = true -> entry_at m p = (0, vzero);
  bo_keys : keys_ok (fst <$> entries m);
  bo_max : m_used m <= 2 ^ 32 - 2
}.

Definition index_ok m : Prop :=
  match m_idx m with
  | None => m_deadbits m = None
  | Some idx => exists k, 4 <= k /\ m_icap m = 2 ^ k /\ idx_ok k idx (live_hash m) /\
      nfull idx = m_len m + m_tombs m /\ 3 * nfull idx < 2 * m_icap m
  end.

Definition map_ok m : Prop := body_ok m /\ index_ok m.

Lemma entries_length m : length (entries m) = length (live_positions m).
Proof. unfold entries. by rewrite length_fmap. Qed.

Lemma len_le_used m : body_ok m -> m_len m <= m_used m.
Proof.
  intros B. rewrite (bo_len _ B), entries_length. unfold live_positions. pose proof (bo_used _ B). etrans.
  - apply inj_le, List.filter_length_le.
  - rewrite length_fmap, length_seq. lia.
Qed.

Lemma len_used m : body_ok m -> m_deadbits m = None -> m_len m = m_used m.
Proof.
  intros B Hb. rewrite (bo_len _ B), entries_length.
  destruct (entries_front m (dead_none m Hb)) as [_ ->]; [apply B|rewrite (bo_data _ B); apply B|].
  rewrite length_fmap, length_seq. pose proof (bo_used _ B). lia.
Qed.

Lemma bo_valid m p : body_ok m -> live m p -> valid (key_at m p).
Proof.
  intros B Hp. pose proof (bo_keys _ B) as Hk. apply live_positions_elem in Hp.
  unfold entries in Hk. revert Hk Hp. induction (live_positions m) as [|q l IH]; [by intros _ ?%not_elem_of_nil|].
  cbn [fmap list_fmap keys_ok]. intros (Hv & _ & Hk) [->|Hp]%elem_of_cons; [done|auto].
Qed.

Lemma bo_distinct m p q : body_ok m -> live m p -> live m q -> p <> q -> keq (key_at m p) (key_at m q) = false.
Proof.
  intros B Hp Hq Hne. pose proof (bo_keys _ B) as Hk. apply live_positions_elem in Hp, Hq.
  apply elem_of_Permutation in Hp as [l Hl].
  rewrite Hl in Hq. apply elem_of_cons in Hq as [->|Hq]; [done|].
  apply elem_of_Permutation in Hq as [l' Hl']. unfold entries in Hk.
  apply (keys_ok_perm _ (fst <$> (entry_at m <$> p :: q :: l'))) in Hk; [|by rewrite Hl, Hl'].
  cbn [fmap list_fmap keys_ok] in Hk. destruct Hk as (_ & Hf & _). by inversion Hf.
Qed.

(** ** The entries as an association list *)

Definition assoc (key : Z) (es : list (Z * V)) : option V :=
  snd <$> List.find (fun e => keq (fst e) key) es.

Lemma same_position m p q key :
  body_ok m -> live m p -> live m q -> valid key ->
  keq (key_at m p) key = true -> keq (key_at m q) key = true -> p = q.
Proof.
  intros B Hp Hq Hk Hpk Hqk. destruct (decide (p = q)); [done|].
  pose proof (bo_distinct m p q B Hp Hq n) as Hd. pose proof (bo_valid m p B Hp). pose proof (bo_valid m q B Hq).
  rewrite (keq_trans (key_at m p) key (key_at m q)) in Hd; [done|done..|]. by rewrite keq_sym.
Qed.

Lemma assoc_live m p key :
  body_ok m -> live m p -> valid key -> keq (key_at m p) key = true ->
  assoc key (entries m) = Some (snd (entry_at m p)).
Proof.
  intros B Hp Hk He. unfold assoc.
  destruct (List.find (fun e => keq (fst e) key) (entries m)) as [e|] eqn:Hf.
  - apply List.find_some in Hf as [Hin He']. apply list_elem_of_In, entries_elem in Hin as (q & Hq & ->).
    by rewrite (same_position m p q key B Hp Hq Hk He He').
  - pose proof (List.find_none _ _ Hf (entry_at m p)) as Hn. cbv beta in Hn.
    fold (key_at m p) in Hn. rewrite Hn in He; [done|]. apply list_elem_of_In, entries_elem. by exists p.
Qed.

Lemma assoc_miss m key : (forall p, live m p -> keq (key_at m p) key = false) -> assoc key (entries m) = None.
Proof.
  intros Hno. unfold assoc. destruct (List.find (fun e => keq (fst e) key) (entries m)) as [e|] eqn:Hf; [|done].
  apply List.find_some in Hf as [Hin He']. apply list_elem_of_In, entries_elem in Hin as (q & Hq & ->).
  fold (key_at m q) in He'. by rewrite Hno in He'.
Qed.

(** ** Finding *)

Lemma linear_find_spec m key n : forall i,
  match linear_find vzero keq n i key m with
  | Some p => i <= p < i + Z.of_nat n /\ keq (key_at m p) key = true
  | None => forall p, i <= p < i + Z.of_nat n -> keq (key_at m p) key = false
  end.
Proof.
  induction n as [|n IH]; intros i; cbn [linear_find]; [lia|]. fold (key_at m i).
  destruct (keq (key_at m i) key) eqn:He; [split; [lia|done]|].
  specialize (IH (i + 1)). destruct (linear_find _ _ _ _ _ _) as [p|].
  - destruct IH. split; [lia|done].
  - intros p Hp. destruct (Z.eq_dec p i) as [->|]; [done|]. apply IH. lia.
Qed.

(** What a search tells: the hit and its index slot, or the free slot where the
    key belongs. *)
Definition found m (key : Z) (r : option Z) (h slot : Z) : Prop :=
  match r with
  | Some p => live m p /\ keq (key_at m p) key = true /\
      forall idx, m_idx m = Some idx -> 0 <= slot < m_icap m /\ idx_at idx slot = index_word (khash (key_at m p)) p
  | None => (forall p, live m p -> keq (key_at m p) key = false) /\
      forall idx k, m_idx m = Some idx -> m_icap m = 2 ^ k -> 0 <= k ->
        h = khash key /\ exists j, 0 <= j < 2 ^ k /\ slot = probe k h j /\
          state (idx_at idx slot) <= 1 /\ before k idx h j
  end.

Lemma map_find_spec m key :
  map_ok m -> valid key ->
  exists r h slot, map_find vzero keq khash m key = Some (r, h, slot) /\ found m key r h slot.
Proof.
  intros [B I] Hk. unfold map_find, index_ok in *. destruct (m_idx m) as [idx|] eqn:Hi.
  - destruct I as (k & Hk4 & Hc & Iok & Hn & Hlt). rewrite Hc. cbv zeta. set (h := khash key).
    pose proof (io_len _ _ _ Iok) as Hlen. rewrite probe_home by lia.
    assert (Hkey : forall p h', live_hash m p h' -> keq (fst (entry_at m p)) key = true -> h' = h).
    { intros p h' [Hp ->] He. apply khash_keq; [by apply bo_valid|done|exact He]. }
    destruct (find_loop_spec k ltac:(lia) vzero keq m idx _ Iok
      (nfull_has_empty k ltac:(lia) idx Hlen ltac:(lia)) h key (khash_range (khash:=khash) key) Hkey (length idx) 0 (-1))
      as [(p & s & Hf & [Hp Hh] & He & Hs & Hw)|(i & Hf & Hir & Hst & Hb & Hno)];
      [lia|lia|intros i ?; lia|intros i ?; lia|by left|..].
    + rewrite Hf. exists (Some p), h, s. split; [done|]. split; [done|]. split; [done|].
      intros idx' Hx. rewrite Hi in Hx. injection Hx as <-. rewrite Hc. split; [done|]. by rewrite <-Hh.
    + rewrite Hf. exists None, h, (probe k h i). split; [done|]. split.
      * intros p Hp. by apply (Hno p (khash (key_at m p))).
      * intros idx' k' Hx Hk' Hk0. rewrite Hi in Hx. injection Hx as <-. rewrite Hc in Hk'. apply Z.pow_inj_r in Hk' as <-; [|lia..].
        split; [done|]. by exists i.
  - pose proof (linear_find_spec m key (Z.to_nat (m_len m)) 0) as Hl.
    pose proof (len_used m B I) as Hlu. pose proof (bo_used _ B).
    destruct (linear_find _ _ _ _ _ _) as [p|].
    + exists (Some p), 0, 0. split; [done|]. destruct Hl as [Hr He]. split; [|split; [done|congruence]].
      split; [lia|by apply dead_none].
    + exists None, 0, 0. split; [done|]. split; [|congruence]. intros p [Hp _]. apply Hl. lia.
Qed.

(** ** Compaction and reindexing *)

Lemma compact_loop_spec m n : forall p w data d' w',
  0 <= w <= p -> p + Z.of_nat n <= Z.of_nat (length data) ->
  (forall q, p <= Z.of_nat q -> data !! q = m_data m !! q) ->
  compact_loop vzero n p w m data = (d', w') ->
  length d' = length data /\ w <= w' <= p + Z.of_nat n /\
  take (Z.to_nat w') d' = take (Z.to_nat w) data ++
    (entry_at m <$> List.filter (fun p => negb (MAP_DEAD m p)) (Z.of_nat <$> seq (Z.to_nat p) n)).
Proof.
  induction n as [|n IH]; intros p w data d' w' Hw Hl Hq; cbn [compact_loop seq fmap list_fmap List.filter].
  { intros [= <- <-]. rewrite app_nil_r. split; [done|]. split; [lia|done]. }
  replace (Z.of_nat (Z.to_nat p)) with p by lia.
  destruct (MAP_DEAD m p) eqn:Hd; cbn [negb].
  - intros Hc. destruct (IH (p + 1) w data d' w') as (H1 & H2 & H3); [lia|lia|intros; apply Hq; lia|done|].
    split; [done|]. split; [lia|]. rewrite H3. by replace (Z.to_nat (p + 1)) with (S (Z.to_nat p)) by lia.
  - set (data1 := if w =? p then data else _).
    assert (Hlen1 : length data1 = length data) by (unfold data1; case_match; [done|by rewrite length_insert]).
    assert (He : default (0, vzero) (data !! Z.to_nat p) = entry_at m p).
    { unfold MapRt.entry_at. by rewrite Hq by lia. }
    assert (Hw1 : data1 !! Z.to_nat w = Some (entry_at m p)).
    { unfold data1. rewrite He. destruct (Z.eqb_spec w p) as [->|]; [|rewrite list_lookup_insert_eq by lia; done].
      rewrite <-He. destruct (lookup_lt_is_Some_2 data (Z.to_nat p)) as [e Hx]; [lia|]. by rewrite Hx. }
    assert (Htake : take (Z.to_nat (w + 1)) data1 = take (Z.to_nat w) data ++ [entry_at m p]).
    { replace (Z.to_nat (w + 1)) with (S (Z.to_nat w)) by lia. rewrite (take_S_r _ _ _ Hw1). f_equal.
      unfold data1. case_match; [done|]. by rewrite take_insert_ge by lia. }
    intros Hc. destruct (IH (p + 1) (w + 1) data1 d' w') as (H1 & H2 & H3); [lia|rewrite Hlen1; lia| |done|].
    + intros q Hp. unfold data1. case_match; [apply Hq; lia|]. rewrite list_lookup_insert_ne by lia. apply Hq. lia.
    + split; [lia|]. split; [lia|]. rewrite H3, Htake, <-app_assoc.
      by replace (Z.to_nat (p + 1)) with (S (Z.to_nat p)) by lia.
Qed.

(** Same map but for the array and the holes. *)
Definition same_frame m m' : Prop :=
  m_cap m' = m_cap m /\ m_ordered m' = m_ordered m /\ m_flags m' = m_flags m /\ m_version m' = m_version m.

Lemma compact_spec m :
  body_ok m ->
  let m' := map_compact vzero m in
  body_ok m' /\ entries m' = entries m /\ m_deadbits m' = None /\ m_used m' = m_len m /\ m_len m' = m_len m /\
  same_frame m m'.
Proof.
  intros B. unfold map_compact. destruct (m_deadbits m) as [bits|] eqn:Hb.
  2:{ split; [done|]. split; [done|]. split; [done|]. split; [by rewrite (len_used m B Hb)|done]. }
  destruct (compact_loop vzero (Z.to_nat (m_used m)) 0 0 m (m_data m)) as [d w] eqn:Hc. cbv zeta.
  pose proof (bo_used _ B). pose proof (bo_data _ B).
  destruct (compact_loop_spec m (Z.to_nat (m_used m)) 0 0 (m_data m) d w) as (Hl & Hw & Ht); [lia|lia|done|done|].
  cbn [Z.to_nat take app] in Ht. change (take (Z.to_nat w) d = entries m) in Ht.
  set (m' := set_room _ _ _ _). pose proof (bo_len _ B) as Hlen.
  assert (Hwl : w = m_len m).
  { rewrite Hlen, <-Ht, length_take. lia. }
  assert (Hfront : entries m' = entries m).
  { destruct (entries_front m') as [-> _]; [by apply dead_none|cbn; lia|cbn; lia|]. exact Ht. }
  split; [|split; [done|split; [done|split; [done|split; done]]]].
  split; rewrite ?Hfront; cbn [m' m_data m_cap m_used m_len m_deadbits set_room set_entries]; try apply B; try done.
  - lia.
  - lia.
  - pose proof (bo_max _ B). lia.
Qed.

(** ** Reindexing *)

Lemma index_cap_spec wanted : forall fuel j,
  0 <= j -> wanted * 3 < 2 ^ (j + Z.of_nat fuel) * 2 ->
  exists j', j <= j' /\ index_cap fuel wanted (2 ^ j) = 2 ^ j' /\ wanted * 3 < 2 ^ j' * 2.
Proof.
  induction fuel as [|fuel IH]; intros j Hj Hf; cbn [index_cap].
  { exists j. rewrite Z.add_0_r in Hf. done. }
  destruct (Z.leb_spec (2 ^ j * 2) (wanted * 3)); [|by exists j].
  replace (2 ^ j * 2) with (2 ^ (j + 1)) by (rewrite Z.pow_add_r by lia; done).
  destruct (IH (j + 1)) as (j' & Hj' & Hr); [lia|by replace (j + 1 + Z.of_nat fuel) with (j + Z.of_nat (S fuel)) by lia|].
  exists j'. split; [lia|done].
Qed.

(** Indexing the first positions of an array, one after the other. *)
Lemma index_entries_spec k data n : forall p idx,
  0 <= k -> 0 <= p -> p + Z.of_nat n + 1 < 2 ^ 32 -> Z.of_nat n + nfull idx < 2 ^ k ->
  idx_ok k idx (fun q h => 0 <= q < p /\ h = khash (fst (default (0, vzero) (data !! Z.to_nat q)))) ->
  exists idx', index_entries vzero khash n p (2 ^ k - 1) data idx = Some idx' /\
    nfull idx' = nfull idx + Z.of_nat n /\
    idx_ok k idx' (fun q h => 0 <= q < p + Z.of_nat n /\ h = khash (fst (default (0, vzero) (data !! Z.to_nat q)))).
Proof.
  induction n as [|n IH]; intros p idx Hk Hp Hb Hn I; cbn [index_entries].
  { exists idx. split; [done|]. split; [lia|]. by rewrite Z.add_0_r. }
  set (h := khash _). pose proof (io_len _ _ _ I) as Hl.
  destruct (first_empty_spec k Hk idx h (length idx) 0) as (j & Hj & Hf & Hz & Hbef);
    [lia|lia|apply nfull_has_empty; [done|done|lia]|intros i ?; lia|].
  rewrite probe_home, Hf by done. cbn -[index_entries].
  pose proof (probe_range k Hk h j) as Hr.
  assert (Hcnt : nfull (<[Z.to_nat (probe k h j):=index_word h p]> idx) = nfull idx + 1).
  { rewrite nfull_insert by lia. unfold full. rewrite Hz, index_word_state by (apply khash_range || lia).
    rewrite (proj2 (Z.eqb_neq (p + 2) 0)) by lia. cbn. lia. }
  destruct (IH (p + 1) (<[Z.to_nat (probe k h j):=index_word h p]> idx)) as (idx' & -> & Hn' & I'); [done|lia|lia|lia|..].
  - eapply (idx_ok_ext k).
    + apply (idx_put k Hk idx _ p h j I); [intros h' [? _]; lia|done|lia|apply khash_range|lia|lia|done].
    + intros q g. cbv beta. split.
      * intros [[Hq ->]|[-> ->]]; (split; [lia|done]).
      * intros [Hq ->]. destruct (Z.eq_dec q p) as [->|]; [by right|left; split; [lia|done]].
  - exists idx'. split; [done|]. split; [lia|]. eapply (idx_ok_ext k); [exact I'|]. intros q g. cbv beta. split; intros [? ->]; (split; [lia|done]).
Qed.

Lemma idx_at_replicate n s : idx_at (replicate n 0) s = 0.
Proof. unfold idx_at. destruct (replicate n 0 !! Z.to_nat s) eqn:He; [by apply lookup_replicate in He as [-> _]|done]. Qed.

Lemma idx_ok_empty k H : 0 <= k -> (forall p h, ~ H p h) -> idx_ok k (replicate (Z.to_nat (2 ^ k)) 0) H.
Proof.
  intros Hk Hno. split.
  - rewrite length_replicate. lia.
  - intros s _. left. apply idx_at_replicate.
  - intros p h Hp. by apply Hno in Hp.
  - intros s s' _ _ Hs. rewrite idx_at_replicate in Hs. change (state 0) with 0 in Hs. lia.
  - intros p h Hp. by apply Hno in Hp.
  - intros p h h' Hp. by apply Hno in Hp.
Qed.

Lemma reindex_spec m reserve :
  body_ok m -> 0 <= reserve <= 2 ^ 58 ->
  exists m', map_reindex_to vzero khash m reserve = Some m' /\ map_ok m' /\ entries m' = entries m /\
    m_used m' = m_len m /\ m_len m' = m_len m /\ same_frame m m'.
Proof.
  intros B Hres. destruct (compact_spec m B) as (B1 & He & Hd & Hu & Hlen & Hfr).
  unfold map_reindex_to. cbv zeta. set (m1 := map_compact vzero m) in *.
  pose proof (bo_max _ B) as Hmax. pose proof (bo_used _ B1) as Hu1. pose proof (bo_max _ B1) as Hmax1.
  set (wanted := if reserve <? m_len m1 then m_len m1 else reserve).
  assert (Hw : m_len m1 <= wanted <= 2 ^ 58) by (unfold wanted; destruct (Z.ltb_spec reserve (m_len m1)); lia).
  destruct (index_cap_spec wanted 64 4) as (k & Hk & Hcap & Hfit); [lia|change (2 ^ (4 + Z.of_nat 64)) with (2 ^ 68); lia|].
  change 16 with (2 ^ 4). rewrite Hcap.
  destruct (index_entries_spec k (m_data m1) (Z.to_nat (m_len m1)) 0 (replicate (Z.to_nat (2 ^ k)) 0))
    as (idx & Hi & Hn & I); [lia|lia|lia|rewrite nfull_empty; lia|apply idx_ok_empty; [lia|intros p h [? _]; lia]|].
  rewrite Hi. cbn -[Z.pow]. eexists. split; [done|].
  set (m' := set_index m1 (Some idx) (2 ^ k) 0).
  assert (Hsame : entries m' = entries m1) by (by apply entries_ext).
  split; [|split; [by rewrite Hsame|split; [exact Hu|split; [exact Hlen|exact Hfr]]]].
  split.
  - destruct B1. split; rewrite ?Hsame; done.
  - unfold index_ok. cbn [m_idx m' set_index]. exists k. split; [lia|]. split; [done|].
    rewrite nfull_empty in Hn. split; [|split].
    + eapply (idx_ok_ext k); [exact I|]. intros p h. unfold live_hash, live, key_at, MapRt.entry_at. cbn [m_used m_data m' set_index].
      rewrite (dead_none m' Hd). rewrite Hu, <-Hlen. split; intros [? ->]; split; try done; try (split; [lia|done]); lia.
    + cbn [m_len m_tombs m' set_index]. lia.
    + cbn [m_icap m' set_index]. lia.
Qed.

End maps.
