(* ===== verification/MapOps.v ===== *)
(** * MapOps: the operations of a map on its entries

    Storing, inserting, unlinking, iterating and clearing, each with what it
    does to [entries] and the invariant it keeps. *)

From S2P Require Import Prelude Mem Slots MapRt MapProofs.

Open Scope c_scope.

Section maps.
Context {V : Type} (vzero : V) (wide : bool).
Context (valid : Z -> Prop) (keq : Z -> Z -> bool) (khash : Z -> Z) `{!KeyOps valid keq khash}.
Context (cells : Z -> list (Z * V)) (Hcells : forall n, 0 <= n -> Z.of_nat (length (cells n)) = n).

Implicit Types (m : BMap V).

Abbreviation entry_at := (entry_at vzero).
Abbreviation entries := (entries vzero).
Abbreviation key_at := (key_at vzero).
Abbreviation body_ok := (body_ok vzero valid keq).
Abbreviation index_ok := (index_ok vzero khash).
Abbreviation map_ok := (map_ok vzero valid keq khash).
Abbreviation live_hash := (live_hash vzero khash).

Lemma entry_at_insert m i e len used p :
  0 <= i < Z.of_nat (length (m_data m)) -> 0 <= p ->
  entry_at (set_entries m (<[Z.to_nat i := e]> (m_data m)) len used) p = if i =? p then e else entry_at m p.
Proof.
  intros Hi Hp. unfold MapRt.entry_at. cbn [m_data set_entries]. destruct (Z.eqb_spec i p) as [->|].
  - by rewrite list_lookup_insert_eq by lia.
  - rewrite list_lookup_insert_ne by lia. done.
Qed.

(** ** Storing over a hit *)

Lemma set_value_spec m i key val :
  map_ok m -> live m i -> valid key -> keq (key_at m i) key = true ->
  let m' := set_value vzero m i val in
  map_ok m' /\ entries m' = (fun e => if keq (fst e) key then (fst e, val) else e) <$> entries m.
Proof.
  intros [B I] Hi Hk Heq m'. pose proof (bo_data _ _ _ _ B). pose proof (bo_used _ _ _ _ B). pose proof (proj1 Hi).
  assert (Hat : forall p, 0 <= p -> entry_at m' p = if i =? p then (key_at m i, val) else entry_at m p)
    by (intros p Hp; apply entry_at_insert; lia).
  assert (Hkey : forall p, 0 <= p -> key_at m' p = key_at m p).
  { intros p Hp. unfold MapProofs.key_at. rewrite Hat by done. by destruct (Z.eqb_spec i p) as [->|]. }
  assert (He : entries m' = (fun e => if keq (fst e) key then (fst e, val) else e) <$> entries m).
  { unfold MapRt.entries. rewrite (positions_ext m m') by done. rewrite <-list_fmap_compose.
    apply list_fmap_ext. intros j p Hp%list_elem_of_lookup_2%live_positions_elem. unfold compose.
    pose proof (proj1 Hp). rewrite Hat by lia. fold (key_at m p). destruct (Z.eqb_spec i p) as [->|Hne]; [by rewrite Heq|].
    destruct (keq (key_at m p) key) eqn:Hpk; [|done]. destruct Hne.
    by apply (same_position vzero valid keq khash m i p key). }
  split; [|done]. split.
  - assert (Hks : fst <$> entries m' = fst <$> entries m).
    { rewrite He, <-list_fmap_compose. apply list_fmap_ext. intros ? e _. unfold compose. by case_match. }
    assert (Hlen : length (entries m') = length (entries m)) by (by rewrite He, length_fmap).
    destruct B. split; rewrite ?Hlen, ?Hks; cbn [m' m_data m_cap m_used m_len m_deadbits m_ordered set_value set_entries];
      try done.
    + by rewrite length_insert.
    + intros p Hp Hpd. rewrite Hat by done. destruct (Z.eqb_spec i p) as [->|]; [|by auto].
      change (MAP_DEAD m p = true) in Hpd. destruct Hi. congruence.
  - unfold MapProofs.index_ok in *. cbn [m' m_idx m_icap m_len m_tombs m_deadbits set_value set_entries].
    destruct (m_idx m); [|done]. destruct I as (k & Hk4 & Hc & Iok & Hrest). exists k. split; [done|]. split; [done|].
    split; [|done]. eapply (idx_ok_ext k); [exact Iok|]. intros p h. unfold MapProofs.live_hash, live.
    split; intros [[Hp Hd] Hh]; (split; [done|]); rewrite Hh; rewrite Hkey by lia; done.
Qed.

(** ** Growing *)

Lemma grow_spec m tail cap :
  body_ok m -> Z.of_nat (length tail) = cap - m_cap m -> m_cap m <= cap ->
  let m' := map_grow m tail cap in
  body_ok m' /\ (index_ok m -> index_ok m') /\ entries m' = entries m /\ m_cap m' = cap /\
  (forall p h, live_hash m' p h <-> live_hash m p h).
Proof.
  intros B Ht Hcap m'. pose proof (bo_data _ _ _ _ B) as Hd. pose proof (bo_used _ _ _ _ B) as Hu.
  assert (Hdead : forall p, MAP_DEAD m' p = MAP_DEAD m p).
  { intros p. unfold MAP_DEAD. cbn [m' m_deadbits map_grow set_room]. destruct (m_deadbits m) as [bits|]; [|done].
    cbn [fmap option_fmap option_map]. unfold grow_bits. by rewrite bits_zero. }
  assert (Hat : forall p, 0 <= p < m_used m -> entry_at m' p = entry_at m p).
  { intros p Hp. unfold MapRt.entry_at. cbn [m' m_data map_grow set_room]. by rewrite lookup_app_l by lia. }
  assert (He : entries m' = entries m).
  { apply entries_ext; [done|by intros|]. intros p [Hp _]. by apply Hat. }
  assert (Hlive : forall p h, live_hash m' p h <-> live_hash m p h).
  { intros p h. unfold MapProofs.live_hash, live, MapProofs.key_at. rewrite Hdead. change (m_used m') with (m_used m).
    split; intros [[Hp ?] ->]; (split; [done|]); by rewrite Hat. }
  split; [|split; [|done]].
  - split; rewrite ?He; cbn [m' m_data m_cap m_used m_len m_deadbits m_ordered map_grow set_room]; try apply B; try done; try lia.
    + rewrite length_app. lia.
    + pose proof (bo_cap _ _ _ _ B). lia.
    + pose proof (bo_bits _ _ _ _ B) as Hbits. destruct (m_deadbits m) as [bits|]; [|done]. destruct Hbits as [Hl Ho].
      cbn [fmap option_fmap option_map]. split; [|done]. unfold grow_bits. rewrite length_app, length_replicate.
      rewrite !shr6 in *. dlia.
    + intros p Hp. rewrite Hdead. by apply B.
    + intros p Hp Hpd. rewrite Hdead in Hpd. pose proof (bo_dead _ _ _ _ B p Hp Hpd). rewrite Hat by lia. by apply B.
  - intros I. unfold MapProofs.index_ok in *. cbn [m' m_idx m_icap m_len m_tombs m_deadbits map_grow set_room].
    destruct (m_idx m); [|by rewrite I]. destruct I as (k & Hk4 & Hc & Iok & Hrest). exists k. split; [done|]. split; [done|].
    split; [|done]. eapply (idx_ok_ext k); [exact Iok|]. intros p h. by rewrite Hlive.
Qed.

(** ** Appending an entry *)

Lemma append_spec m key val :
  body_ok m -> m_used m < m_cap m -> m_used m + 1 <= 2 ^ 32 - 2 -> valid key ->
  (forall p, live m p -> keq (key_at m p) key = false) ->
  let m' := map_bump_version (set_entries m (<[Z.to_nat (m_used m) := (key, val)]> (m_data m)) (m_len m + 1) (m_used m + 1)) in
  body_ok m' /\ entries m' = entries m ++ [(key, val)] /\
  (forall p h, live_hash m' p h <-> live_hash m p h \/ (p = m_used m /\ h = khash key)).
Proof.
  intros B Hroom Hmax Hk Hno m'. pose proof (bo_data _ _ _ _ B) as Hd. pose proof (bo_used _ _ _ _ B) as Hu.
  assert (Hat : forall p, 0 <= p -> entry_at m' p = if m_used m =? p then (key, val) else entry_at m p).
  { intros p Hp. pose proof (entry_at_insert m (m_used m) (key, val) (m_len m + 1) (m_used m + 1) p ltac:(lia) Hp) as He.
    exact He. }
  assert (Hdead : forall p, MAP_DEAD m' p = MAP_DEAD m p) by done.
  assert (Hnew : MAP_DEAD m (m_used m) = false).
  { destruct (MAP_DEAD m (m_used m)) eqn:He; [|done]. apply (bo_dead _ _ _ _ B) in He; lia. }
  assert (He : entries m' = entries m ++ [(key, val)]).
  { unfold MapRt.entries. rewrite (positions_snoc m m') by (done || lia). rewrite fmap_app. cbn [fmap list_fmap].
    rewrite (Hat (m_used m)), Z.eqb_refl by lia. f_equal. apply list_fmap_ext.
    intros j p Hp%list_elem_of_lookup_2%live_positions_elem. pose proof (proj1 Hp). rewrite Hat by lia.
    by rewrite (proj2 (Z.eqb_neq _ _)) by lia. }
  split; [|split; [done|]].
  - split; rewrite ?He; cbn [m' m_data m_cap m_used m_len m_deadbits m_ordered map_bump_version set_entries]; try apply B; try lia.
    + by rewrite length_insert.
    + rewrite length_app, (bo_len _ _ _ _ B). cbn. lia.
    + intros p Hp. rewrite Hdead. intros Hx%(bo_dead _ _ _ _ B); lia.
    + intros p Hp Hpd. rewrite Hat by done. destruct (Z.eqb_spec (m_used m) p) as [<-|]; [by rewrite Hdead, Hnew in Hpd|by apply B].
    + rewrite fmap_app. apply (keys_ok_snoc valid keq khash); [apply B|done|].
      apply Forall_forall. intros y (e & -> & Hin)%list_elem_of_fmap.
      apply entries_elem in Hin as (p & Hp & ->). by apply Hno.
  - intros p h. unfold MapProofs.live_hash, live, MapProofs.key_at. rewrite Hdead. change (m_used m') with (m_used m + 1). split.
    + intros [[Hp Hpd] ->]. rewrite Hat by lia. destruct (Z.eqb_spec (m_used m) p) as [<-|]; [by right|].
      left. split; [split; [lia|done]|done].
    + intros [[[Hp Hpd] ->]|[-> ->]]; rewrite Hat by lia.
      * rewrite (proj2 (Z.eqb_neq _ _)) by lia. split; [split; [lia|done]|done].
      * rewrite Z.eqb_refl. split; [split; [lia|done]|done].
Qed.

Lemma bump_frame m : m_cap (map_bump_version m) = m_cap m /\ m_ordered (map_bump_version m) = m_ordered m /\
  m_flags (map_bump_version m) = m_flags m.
Proof. done. Qed.

(** The key is missing; the index slot is where the search ended. *)
Lemma insert_miss_spec m key val h slot :
  map_ok m -> valid key -> m_used m + 1 <= 2 ^ 32 - 2 -> found vzero keq khash m key None h slot ->
  exists m', map_insert_miss vzero khash cells m key val h slot = Some m' /\ map_ok m' /\
    entries m' = entries m ++ [(key, val)] /\ m_version m' = i64 (u64 (m_version m) + 1) /\
    m_flags m' = m_flags m /\ m_ordered m' = m_ordered m /\ m_used m' <= m_used m + 1.
Proof.
  intros [B I] Hk Hmax [Hno Hslot]. unfold map_insert_miss.
  set (m1 := if m_used m =? m_cap m then map_grow m (cells (m_cap m)) (m_cap m * 2) else m).
  pose proof (bo_cap _ _ _ _ B) as Hcap. pose proof (bo_used _ _ _ _ B) as Hu.
  assert (H1 : body_ok m1 /\ index_ok m1 /\ entries m1 = entries m /\ m_used m1 < m_cap m1 /\
    (forall p h, live_hash m1 p h <-> live_hash m p h) /\ m_used m1 = m_used m /\ m_len m1 = m_len m /\
    m_idx m1 = m_idx m /\ m_icap m1 = m_icap m /\ m_tombs m1 = m_tombs m /\ m_version m1 = m_version m /\
    m_flags m1 = m_flags m /\ m_ordered m1 = m_ordered m).
  { unfold m1. destruct (Z.eqb_spec (m_used m) (m_cap m)) as [Heq|]; [|by split_and!; try lia].
    destruct (grow_spec m (cells (m_cap m)) (m_cap m * 2) B) as (B' & I' & He' & Hc' & Hl'); [rewrite Hcells; lia|lia|].
    split_and!; try done; [by apply I'|]. rewrite Hc'. cbn [m_used map_grow set_room]. lia. }
  clearbody m1. destruct H1 as (B1 & I1 & He1 & Hroom & Hl1 & Hu1 & Hlen1 & Hi1 & Hic1 & Ht1 & Hv1 & Hf1 & Ho1).
  assert (Hno1 : forall p, live m1 p -> keq (key_at m1 p) key = false).
  { intros p Hp. assert (Hlp : live_hash m p (khash (key_at m1 p))) by (apply Hl1; by split).
    destruct (decide (keq (key_at m1 p) key = true)) as [Ht|Hf]; [|by destruct (keq (key_at m1 p) key)].
    assert (Hin : entry_at m1 p ∈ entries m) by (rewrite <-He1; apply entries_elem; by exists p).
    apply entries_elem in Hin as (q & Hq & Heq). specialize (Hno q Hq). unfold MapProofs.key_at in *. by rewrite <-Heq in Hno. }
  destruct (append_spec m1 key val B1 Hroom ltac:(lia) Hk Hno1) as (B2 & He2 & Hl2).
  set (m2 := map_bump_version _) in *. 
  assert (Hver : m_version m2 = i64 (u64 (m_version m) + 1)) by (unfold m2; cbn; by rewrite Hv1).
  assert (Hreidx : exists m', map_reindex vzero khash m2 = Some m' /\ map_ok m' /\
    entries m' = entries m ++ [(key, val)] /\ m_version m' = i64 (u64 (m_version m) + 1) /\
    m_flags m' = m_flags m /\ m_ordered m' = m_ordered m /\ m_used m' <= m_used m + 1).
  { destruct (reindex_spec vzero valid keq khash m2 0 B2 ltac:(lia)) as (m' & Hr & Hok & He & Hus & _ & (_ & Ho & Hf & Hvv)).
    pose proof (len_le_used _ _ _ _ B2). change (m_used m2) with (m_used m1 + 1) in *.
    exists m'. split; [done|]. split; [done|]. rewrite He, He2, He1, Hvv, Hf, Ho. split_and!; try done. lia. }
  cbn [m_idx m2 map_bump_version set_entries]. fold m2. unfold MapProofs.index_ok in I1. rewrite Hi1 in *.
  destruct (m_idx m) as [idx|] eqn:Hidx.
  - destruct (Z.leb_spec (m_icap m2 * 2) ((m_used m2 + m_tombs m2) * 3)) as [|Hfit]; [exact Hreidx|].
    destruct I1 as (k & Hk4 & Hc & Iok & Hn & Hlt).
    destruct (Hslot idx k eq_refl) as (-> & j & Hj & -> & Hst & Hbef); [congruence|lia|].
    pose proof (io_len _ _ _ Iok) as Hlen. pose proof (probe_range k ltac:(lia) (khash key) j) as Hpr.
    set (s := probe k (khash key) j) in *.
    eexists. split; [done|]. set (m3 := set_index m2 _ _ _).
    assert (He3 : entries m3 = entries m2) by (by apply entries_ext).
    split; [|rewrite He3, He2, He1; split_and!; try done; change (m_used m3) with (m_used m1 + 1); lia].
    split; [destruct B2; split; rewrite ?He3; done|].
    unfold MapProofs.index_ok. cbn [m3 m_idx set_index]. exists k. split; [done|]. split; [exact Hc|].
    pose proof (bo_len _ _ _ _ B1) as Hbl. pose proof (bo_len _ _ _ _ B2) as Hbl2.
    pose proof (len_le_used _ _ _ _ B1) as Hlu.
    change ((khash key &! IDX_FRAG) |! (m_used m2 + 1)) with
      ((khash key &! IDX_FRAG) |! (m_used m1 + 1 + 1)).
    replace ((khash key &! IDX_FRAG) |! (m_used m1 + 1 + 1)) with (index_word (khash key) (m_used m1))
      by (unfold index_word; f_equal; lia).
    split; [|].
    + eapply (idx_ok_ext k).
      * apply (idx_put k ltac:(lia) idx _ (m_used m1) (khash key) j Iok);
          [intros h' [[? _] _]; lia|lia|lia|apply khash_range|done|done|done].
      * intros p g. change (live_hash m3 p g) with (live_hash m2 p g). by rewrite Hl2.
    + rewrite nfull_insert, full_word by (apply khash_range || lia).
      cbn [m_len m_tombs m_icap m3 set_index]. fold (state (idx_at idx s)).
      change (m_len m2) with (m_len m1 + 1). change (m_tombs m2) with (m_tombs m1).
      change (m_icap m2) with (m_icap m1) in *. change (m_used m2) with (m_used m1 + 1) in *.
      change (m_tombs m2) with (m_tombs m1) in *. unfold full.
      destruct (Z.eqb_spec (state (idx_at idx s)) 0) as [Hz|Hz]; cbn [negb c_bool].
      * rewrite Hz. cbn. lia.
      * assert (Hs1 : state (idx_at idx s) = 1) by (pose proof (state_nonneg (idx_at idx s)); lia).
        rewrite Hs1. cbn. lia.
  - destruct (Z.ltb_spec MAP_LINEAR_MAX (m_len m2)); [exact Hreidx|].
    exists m2. split; [done|]. split; [|rewrite He2, He1; split_and!; try done; change (m_used m2) with (m_used m1 + 1); lia]. split; [done|].
    unfold MapProofs.index_ok. cbn [m2 m_idx map_bump_version set_entries]. by rewrite Hi1.
Qed.

(** ** Removing an entry *)

(** The last entry takes the place of the one between [a] and [b]. *)
Definition swap_remove {A} (a b : list A) : list A :=
  match rev b with [] => a | e :: b' => a ++ e :: rev b' end.

Lemma swap_remove_perm {A} (a b : list A) : swap_remove a b ≡ₚ a ++ b.
Proof.
  unfold swap_remove. rewrite <-(rev_involutive b) at 2. destruct (rev b) as [|e b']; cbn [rev].
  - by rewrite app_nil_r.
  - apply Permutation_app_head, Permutation_cons_append.
Qed.

Lemma swap_remove_last {A} (a b : list A) e : swap_remove a (b ++ [e]) = a ++ e :: b.
Proof. unfold swap_remove. rewrite rev_app_distr. cbn. by rewrite rev_involutive. Qed.

(** A map without holes is its array's front. *)
Lemma front_ok m :
  m_deadbits m = None -> Z.of_nat (length (m_data m)) = m_cap m -> 1 <= m_cap m ->
  0 <= m_used m <= m_cap m -> m_len m = m_used m -> m_used m <= 2 ^ 32 - 2 ->
  keys_ok valid keq (fst <$> take (Z.to_nat (m_used m)) (m_data m)) ->
  body_ok m /\ entries m = take (Z.to_nat (m_used m)) (m_data m).
Proof.
  intros Hb Hd Hc Hu Hl Hmax Hk. pose proof (dead_none m Hb) as Hno.
  destruct (entries_front vzero m Hno) as [He _]; [lia|lia|]. split; [|done].
  split; rewrite ?He, ?Hb; try done.
  - rewrite length_take. lia.
  - intros p _ Hp. by rewrite Hno in Hp.
  - intros p _ Hp. by rewrite Hno in Hp.
Qed.

(** The reindex an operation may end with. *)
Lemma settle_spec m b :
  body_ok m -> index_ok m ->
  exists m', (if b : bool then map_reindex vzero khash m else Some m) = Some m' /\ map_ok m' /\
    entries m' = entries m /\ same_frame m m' /\ m_used m' <= m_used m.
Proof.
  intros B I. destruct b; [|exists m; split_and!; done].
  destruct (reindex_spec vzero valid keq khash m 0 B ltac:(lia)) as (m' & ? & ? & ? & Hu & _ & ?). exists m'.
  pose proof (len_le_used _ _ _ _ B). split_and!; try done. lia.
Qed.

(** What unlinking entry [i] leaves. *)
Definition unlinked m i m' : Prop :=
  map_ok m' /\ same_frame m m' /\ m_used m' <= m_used m /\ exists a b, entries m = a ++ entry_at m i :: b /\
    entries m' = if m_ordered m then a ++ b else swap_remove a b.

(** The array's front around a position. *)
Lemma front_split m i :
  body_ok m -> m_deadbits m = None -> 0 <= i < m_used m ->
  let n := Z.to_nat (m_used m - 1 - i) in
  let a := take (Z.to_nat i) (m_data m) in let b := take n (drop (Z.to_nat (i + 1)) (m_data m)) in
  entries m = a ++ entry_at m i :: b /\ length a = Z.to_nat i /\ length b = n /\
  m_data m = a ++ entry_at m i :: b ++ drop (Z.to_nat (m_used m)) (m_data m).
Proof.
  intros B Hb Hi n a b. pose proof (bo_data _ _ _ _ B) as Hd. pose proof (bo_used _ _ _ _ B) as Hu.
  destruct (entries_front vzero m (dead_none m Hb)) as [He _]; [lia|lia|].
  destruct (lookup_lt_is_Some_2 (m_data m) (Z.to_nat i)) as [e Hx]; [lia|].
  assert (Hae : entry_at m i = e) by (unfold MapRt.entry_at; by rewrite Hx).
  assert (Hla : length a = Z.to_nat i) by (unfold a; rewrite length_take; lia).
  assert (Hlb : length b = n) by (unfold b, n; rewrite length_take, length_drop; lia).
  assert (Hall : m_data m = a ++ entry_at m i :: b ++ drop (Z.to_nat (m_used m)) (m_data m)).
  { rewrite Hae. rewrite <-(take_drop_middle (m_data m) (Z.to_nat i) e Hx) at 1. unfold a. do 2 f_equal.
    unfold b. rewrite <-(take_drop n (drop (S (Z.to_nat i)) (m_data m))) at 1.
    rewrite drop_drop. replace (Z.to_nat (i + 1)) with (S (Z.to_nat i)) by lia. do 2 f_equal. unfold n. lia. }
  split; [|done]. rewrite He. rewrite Hall at 1.
  replace (Z.to_nat (m_used m)) with (length (a ++ entry_at m i :: b)) by (rewrite length_app; cbn [length]; rewrite Hla, Hlb; unfold n; lia).
  rewrite app_comm_cons, app_assoc. by rewrite take_app_length.
Qed.

Lemma keys_unlinked (a b : list (Z * V)) (e : Z * V) (o : bool) :
  keys_ok valid keq (fst <$> a ++ e :: b) -> keys_ok valid keq (fst <$> (if o then a ++ b else swap_remove a b)).
Proof.
  intros Hk. apply (keys_ok_perm valid keq khash (fst <$> a ++ b)).
  - destruct o; [done|]. by rewrite swap_remove_perm.
  - rewrite fmap_app in *. cbn [fmap list_fmap] in Hk. by apply (keys_ok_drop valid keq khash) in Hk.
Qed.

(** The array without the entry, its front one shorter. *)
Lemma front_unlinked m i m2 :
  body_ok m -> m_deadbits m = None -> 0 <= i < m_used m ->
  let a := take (Z.to_nat i) (m_data m) in
  let b := take (Z.to_nat (m_used m - 1 - i)) (drop (Z.to_nat (i + 1)) (m_data m)) in
  let es := if m_ordered m then a ++ b else swap_remove a b in
  m_deadbits m2 = None -> m_cap m2 = m_cap m -> m_used m2 = m_used m - 1 -> m_len m2 = m_len m - 1 ->
  length (m_data m2) = length (m_data m) -> take (Z.to_nat (m_used m - 1)) (m_data m2) = es ->
  body_ok m2 /\ entries m2 = es.
Proof.
  intros B Hb Hi a b es Hb2 Hc Hu Hl Hd Ht. pose proof (bo_data _ _ _ _ B). pose proof (bo_used _ _ _ _ B).
  pose proof (bo_cap _ _ _ _ B). pose proof (bo_max _ _ _ _ B). pose proof (len_used vzero valid keq m B Hb).
  destruct (front_split m i B Hb Hi) as (He & _ & _ & _). pose proof (bo_keys _ _ _ _ B) as Hk. rewrite He in Hk.
  rewrite <-Ht, <-Hu. apply front_ok; [done|lia|lia|lia|lia|lia|]. rewrite Hu, Ht. by apply (keys_unlinked a b (entry_at m i)).
Qed.

(** The swap of an unordered map, in the array. *)
Lemma front_swap m i :
  body_ok m -> m_deadbits m = None -> 0 <= i < m_used m ->
  let last := m_used m - 1 in
  let a := take (Z.to_nat i) (m_data m) in
  let b := take (Z.to_nat (last - i)) (drop (Z.to_nat (i + 1)) (m_data m)) in
  take (Z.to_nat last) (if i =? last then m_data m else <[Z.to_nat i := entry_at m last]> (m_data m)) = swap_remove a b.
Proof.
  intros B Hb Hi last a b. destruct (front_split m i B Hb Hi) as (_ & Hla & Hlb & Hall). fold last in Hlb, Hall. fold a b in Hla, Hlb, Hall.
  pose proof (bo_data _ _ _ _ B). pose proof (bo_used _ _ _ _ B).
  destruct (Z.eqb_spec i last) as [->|Hne].
  - rewrite Z.sub_diag in Hlb. apply nil_length_inv in Hlb. by rewrite Hlb.
  - destruct b as [|x b0 _] using rev_ind; [cbn [length] in Hlb; lia|]. rewrite length_app in Hlb. cbn [length] in Hlb.
    rewrite swap_remove_last.
    assert (Hx : entry_at m last = x).
    { unfold MapRt.entry_at. rewrite Hall, lookup_app_r by lia.
      replace (Z.to_nat last - length a)%nat with (S (length b0)) by lia. change ((?e :: ?l) !! S ?n) with (l !! n).
      by rewrite <-app_assoc, lookup_app_r, Nat.sub_diag by lia. }
    rewrite Hx, Hall, insert_app_r_alt by lia. replace (Z.to_nat i - length a)%nat with 0%nat by lia.
    change (<[0%nat := x]> (?e :: ?l)) with (x :: l). rewrite <-app_assoc, app_comm_cons, app_assoc.
    apply take_app_length'. rewrite length_app. cbn [length]. lia.
Qed.

Abbreviation unlink := (map_unlink_entry vzero wide khash).

Lemma unlink_linear m i slot :
  map_ok m -> m_idx m = None -> live m i -> exists m', unlink m i slot = Some m' /\ unlinked m i m'.
Proof.
  intros [B I] Hi [Hr _]. unfold MapProofs.index_ok in I. rewrite Hi in I. unfold map_unlink_entry. rewrite Hi.
  destruct (front_split m i B I Hr) as (He & Hla & Hlb & Hall).
  pose proof (bo_data _ _ _ _ B). pose proof (bo_used _ _ _ _ B).
  set (data := if m_ordered m then _ else _). set (data' := if wide then _ else _). eexists. split; [done|].
  set (m2 := set_entries m data' (m_len m - 1) (m_used m - 1)).
  assert (Hlen : length data = length (m_data m)).
  { unfold data. destruct (m_ordered m).
    - rewrite !length_app, Hla, Hlb, length_drop. lia.
    - destruct (i =? _); [done|by rewrite length_insert]. }
  destruct (front_unlinked m i m2 B I Hr) as [B2 He2]; [done|done|done|done|..].
  - cbn [m2 m_data set_entries]. unfold data'. destruct wide; [by rewrite length_alter|done].
  - assert (Hda : take (Z.to_nat (m_used m - 1)) data' = take (Z.to_nat (m_used m - 1)) data).
    { unfold data'. destruct wide; [by rewrite take_alter_ge by lia|done]. }
    cbn [m2 m_data set_entries]. rewrite Hda. unfold data. destruct (m_ordered m); [|by apply front_swap].
    rewrite app_assoc. apply take_app_length'. rewrite length_app, Hla, Hlb. lia.
  - split; [|split; [done|split; [cbn [m2 m_used set_entries]; lia|]]].
    + split; [done|]. unfold MapProofs.index_ok. cbn [m2 m_idx set_entries]. by rewrite Hi.
    + eexists _, _. split; [exact He|exact He2].
Qed.

(** The index after the word of [i] became a tombstone and the last entry's
    word names [i]. *)
Lemma index_swap m i k idx slot :
  body_ok m -> live m i -> m_used m - 1 + 2 < 2 ^ 32 -> m_deadbits m = None ->
  0 <= k -> idx_ok k idx (live_hash m) -> 0 <= slot < 2 ^ k -> idx_at idx slot = index_word (khash (key_at m i)) i ->
  let last := m_used m - 1 in let idx1 := <[Z.to_nat slot := 1]> idx in
  let h := khash (fst (entry_at m last)) in
  exists idx2, (if i =? last then Some idx1
    else at_ ← find_position (length idx1) idx1 (2 ^ k - 1) last (h &! (2 ^ k - 1));
      Some (<[Z.to_nat at_ := (idx_at idx1 at_ &! IDX_FRAG) |! (i + 2)]> idx1)) = Some idx2 /\
    nfull idx2 = nfull idx /\
    idx_ok k idx2 (fun q g => 0 <= q < last /\ g = khash (if q =? i then key_at m last else key_at m q)).
Proof.
  intros B [Hi Hd] Hmax Hb Hk I Hs Hw last idx1 h. pose proof (io_len _ _ _ I) as Hl.
  assert (Hlive : forall p, live m p <-> 0 <= p < m_used m) by (intros p; split; [by intros [? _]|split; [done|by apply dead_none]]).
  assert (Hli : live_hash m i (khash (key_at m i))) by (split; [by apply Hlive|done]).
  pose proof (idx_del k Hk idx _ i _ slot I Hli Hs Hw) as I1. fold idx1 in I1.
  assert (Hn1 : nfull idx1 = nfull idx).
  { unfold idx1. rewrite nfull_insert by lia. rewrite Hw, full_word, full_one by (apply khash_range || lia). cbn. lia. }
  destruct (Z.eqb_spec i last) as [Heq|Hne].
  - exists idx1. split; [done|]. split; [done|]. eapply (idx_ok_ext k); [exact I1|]. intros q g. cbv beta.
    unfold MapProofs.live_hash. rewrite Hlive. destruct (Z.eqb_spec q i) as [->|]; [lia|]. split; [intros [[? ?] ?]|intros [? ?]]; (split; [|done]); lia || (split; [lia|done]).
  - assert (Hlast : live_hash m last h /\ last <> i) by (split; [split; [apply Hlive; lia|done]|done]).
    pose proof (io_len _ _ _ I1) as Hl1.
    destruct (find_position_spec k Hk idx1 _ last h I1 Hlast (length idx1) 0) as (s & Hf & Hsr & Hws); [lia|lia|intros ? ?; lia|].
    rewrite probe_home, Hf by done. eexists. split; [done|]. split.
    + rewrite nfull_insert by lia. rewrite Hn1.
      rewrite Hws, index_word_frag by (apply khash_range || lia). fold (index_word h i).
      rewrite !full_word by (apply khash_range || lia). cbn. lia.
    + eapply (idx_ok_ext k); [apply (idx_move k Hk idx1 _ last i h s I1 Hlast); [intros h' [_ ?]; done|lia|done|done]|].
      intros q g. cbv beta. unfold MapProofs.live_hash. rewrite Hlive. destruct (Z.eqb_spec q i) as [->|].
      * split; [intros [[[_ ?] _]|[_ ->]]; [done|split; [lia|done]]|intros [_ ->]; by right].
      * split; [intros [[[[? ->] _] ?]|[? _]]; [split; [lia|done]|done]|intros [? ->]; left; split; [split; [split; [lia|done]|done]|lia]].
Qed.

Lemma unlink_swap m i slot idx :
  map_ok m -> m_idx m = Some idx -> m_ordered m = false -> live m i ->
  0 <= slot < m_icap m -> idx_at idx slot = index_word (khash (key_at m i)) i ->
  exists m', unlink m i slot = Some m' /\ unlinked m i m'.
Proof.
  intros [B I] Hidx Ho Hli Hs Hw. unfold MapProofs.index_ok in I. rewrite Hidx in I.
  destruct I as (k & Hk & Hc & Iok & Hn & Hlt).
  assert (Hb : m_deadbits m = None) by (pose proof (bo_bits _ _ _ _ B) as Hx; destruct (m_deadbits m); [destruct Hx; congruence|done]).
  pose proof (proj1 Hli) as Hr. pose proof (bo_data _ _ _ _ B). pose proof (bo_used _ _ _ _ B). pose proof (bo_max _ _ _ _ B).
  destruct (front_split m i B Hb Hr) as (He & _). rewrite Hc in Hs.
  destruct (index_swap m i k idx slot B Hli) as (idx2 & Hi2 & Hn2 & I2); [lia|done|lia|done|done|done|].
  unfold map_unlink_entry. rewrite Hidx, Ho, Hc. cbn [negb]. set (last := m_used m - 1) in *.
  set (data1 := if i =? last then m_data m else <[Z.to_nat i := entry_at m last]> (m_data m)).
  set (data2 := <[Z.to_nat last := (0, vzero)]> data1).
  set (m2 := set_index (set_entries m data2 (m_len m - 1) last) (Some idx2) (2 ^ k) (m_tombs m + 1)).
  assert (Hlen1 : length data1 = length (m_data m)) by (unfold data1; destruct (i =? last); [done|by rewrite length_insert]).
  destruct (front_unlinked m i m2 B Hb Hr) as [B2 He2]; [done|done|done|done|by cbn [m2 m_data set_index set_entries]; unfold data2; rewrite length_insert|..].
  { cbn [m2 m_data set_index set_entries]. unfold data2. rewrite take_insert_ge, Ho by lia. by apply front_swap. }
  destruct (settle_spec m2 (m_len m2 <? m_tombs m2) B2) as (m' & Hm' & Hok & He' & Hfr & Hus).
  { exists k. split; [done|]. split; [done|]. split; [|cbn [m2 m_len m_tombs m_icap set_index set_entries]; lia].
    eapply (idx_ok_ext k); [exact I2|]. intros q g. cbv beta. unfold MapProofs.live_hash, live.
    rewrite (dead_none m2) by done. cbn [m2 m_used set_index set_entries].
    assert (Hkey : 0 <= q < last -> key_at m2 q = if q =? i then key_at m last else key_at m q).
    { intros Hq. unfold MapProofs.key_at at 1, MapRt.entry_at. cbn [m2 m_data set_index set_entries]. unfold data2.
      rewrite list_lookup_insert_ne by lia. unfold data1. destruct (Z.eqb_spec q i) as [->|Hqi].
      - destruct (Z.eqb_spec i last); [lia|]. by rewrite list_lookup_insert_eq by lia.
      - destruct (Z.eqb_spec i last); [done|]. by rewrite list_lookup_insert_ne by lia. }
    split; [intros [Hq ->]|intros [[Hq _] ->]]; by rewrite Hkey. }
  exists m'. split; [|split; [done|split; [exact Hfr|split; [change (m_used m2) with last in Hus; lia|]]]].
  - rewrite <-Hm'. destruct (i =? last); [injection Hi2 as <-; done|].
    destruct (find_position _ _ _ _ _); [|done]. cbn [mbind option_bind] in Hi2 |- *. by injection Hi2 as <-.
  - rewrite Ho in *. eexists _, _. split; [exact He|]. rewrite He'. exact He2.
Qed.

Lemma filter_twice {A} (p q : A -> bool) l :
  List.filter p (List.filter q l) = List.filter (fun x => p x && q x) l.
Proof.
  induction l as [|x l IH]; [done|]. cbn [List.filter]. destruct (q x); cbn [List.filter]; destruct (p x); cbn [andb]; by rewrite IH.
Qed.

(** One position fewer in the list of live positions. *)
Lemma filter_drop_one (l : list Z) i :
  NoDup l -> i ∈ l -> exists a b, l = a ++ i :: b /\ List.filter (fun p => negb (i =? p)) l = a ++ b.
Proof.
  intros Hnd Hi. apply list_elem_of_split in Hi as (a & b & ->). exists a, b. split; [done|].
  apply NoDup_app in Hnd as (_ & Hd & [Hb _]%NoDup_cons).
  rewrite List.filter_app. cbn [List.filter]. rewrite Z.eqb_refl. cbn [negb]. f_equal.
  - rewrite (filter_ext_in _ (fun _ => true)); [apply List.filter_true|]. intros x Hx.
    destruct (Z.eqb_spec i x) as [->|]; [|done]. exfalso. apply (Hd x Hx). by left.
  - rewrite (filter_ext_in _ (fun _ => true)); [apply List.filter_true|]. intros x Hx.
    by destruct (Z.eqb_spec i x) as [->|].
Qed.

Lemma unlink_hole m i slot idx :
  map_ok m -> m_idx m = Some idx -> m_ordered m = true -> live m i ->
  0 <= slot < m_icap m -> idx_at idx slot = index_word (khash (key_at m i)) i ->
  exists m', unlink m i slot = Some m' /\ unlinked m i m'.
Proof.
  intros [B I] Hidx Ho Hli Hs Hw. unfold MapProofs.index_ok in I. rewrite Hidx in I.
  destruct I as (k & Hk & Hc & Iok & Hn & Hlt). rewrite Hc in Hs. pose proof (io_len _ _ _ Iok) as Hl.
  pose proof (proj1 Hli) as Hr. pose proof (bo_data _ _ _ _ B). pose proof (bo_used _ _ _ _ B).
  pose proof (bo_max _ _ _ _ B). pose proof (bo_bits _ _ _ _ B) as Hbits.
  unfold map_unlink_entry. rewrite Hidx, Ho. cbn [negb].
  set (data := <[Z.to_nat i := (0, vzero)]> (m_data m)).
  set (m1 := set_room (set_entries m data (m_len m - 1) (m_used m)) data (m_cap m) (Some (set_dead_bit m i))).
  set (m2 := set_index m1 _ _ _).
  assert (Hdead : forall p, 0 <= p -> MAP_DEAD m2 p = (i =? p) || MAP_DEAD m p).
  { intros p Hp. apply (set_dead_bit_dead m); [lia|done|done|]. destruct (m_deadbits m); [apply Hbits|done]. }
  assert (Hat : forall p, 0 <= p -> p <> i -> entry_at m2 p = entry_at m p).
  { intros p Hp Hne. unfold MapRt.entry_at. cbn [m2 m1 m_data set_index set_room set_entries].
    unfold data. by rewrite list_lookup_insert_ne by lia. }
  destruct (filter_drop_one (live_positions m) i) as (pa & pb & Hpos & Hfil);
    [apply live_positions_NoDup|by apply live_positions_elem|].
  assert (Hpos2 : live_positions m2 = pa ++ pb).
  { rewrite <-Hfil. unfold live_positions. rewrite filter_twice. apply filter_ext_in.
    intros p (j & -> & _)%list_elem_of_fmap. rewrite Hdead by lia. by rewrite negb_orb. }
  assert (Hne : forall p, p ∈ pa ++ pb -> p <> i /\ 0 <= p).
  { intros p Hp. rewrite <-Hfil in Hp. apply list_elem_of_In, filter_In in Hp as [Hp Hip].
    apply list_elem_of_In, live_positions_elem in Hp as [Hp _]. bools. split; [congruence|lia]. }
  assert (He : entries m = (entry_at m <$> pa) ++ entry_at m i :: (entry_at m <$> pb)).
  { unfold MapRt.entries. by rewrite Hpos, fmap_app. }
  assert (He2 : entries m2 = (entry_at m <$> pa) ++ (entry_at m <$> pb)).
  { unfold MapRt.entries. rewrite Hpos2, <-fmap_app. apply list_fmap_ext.
    intros ? p Hp%list_elem_of_lookup_2. apply Hne in Hp as [? ?]. by apply Hat. }
  assert (B2 : body_ok m2).
  { pose proof (bo_keys _ _ _ _ B) as Hks. rewrite He in Hks. apply (keys_unlinked _ _ _ true) in Hks.
    split; rewrite ?He2; cbn [m2 m1 m_data m_cap m_used m_len m_deadbits m_ordered set_index set_room set_entries]; try done.
    - unfold data. rewrite length_insert. lia.
    - apply B.
    - pose proof (bo_len _ _ _ _ B) as Hlen. rewrite He in Hlen. rewrite length_app in *. cbn [length] in Hlen. lia.
    - split; [|done]. unfold set_dead_bit. rewrite length_alter. destruct (m_deadbits m); [apply Hbits|].
      change (default ?x None) with x. rewrite length_replicate. rewrite shr6. dlia.
    - intros p Hp Hd. rewrite Hdead in Hd by done. destruct (Z.eqb_spec i p) as [<-|]; [lia|]. by apply (bo_dead _ _ _ _ B).
    - intros p Hp Hd. rewrite Hdead in Hd by done. destruct (Z.eqb_spec i p) as [<-|]; [|rewrite Hat by lia; by apply (bo_holes _ _ _ _ B)].
      unfold MapRt.entry_at. cbn [m2 m1 m_data set_index set_room set_entries]. unfold data. by rewrite list_lookup_insert_eq by lia. }
  destruct (settle_spec m2 (m_len m2 * 2 <? m_used m2) B2) as (m' & Hm' & Hok & He' & Hfr & Hus).
  { exists k. split; [done|]. split; [done|].
    assert (Hlih : live_hash m i (khash (key_at m i))) by done. split.
    - eapply (idx_ok_ext k); [apply (idx_del k ltac:(lia) idx _ i _ slot Iok Hlih Hs Hw)|]. intros q g. cbv beta.
      unfold MapProofs.live_hash, live. change (m_used m2) with (m_used m).
      split.
      + intros [[[Hq Hd] ->] Hqi]. rewrite Hdead, Hd by lia. unfold MapProofs.key_at. rewrite Hat by lia.
        rewrite (proj2 (Z.eqb_neq i q)) by lia. done.
      + intros [[Hq Hd] ->]. rewrite Hdead in Hd by lia. bools. unfold MapProofs.key_at. rewrite Hat by lia.
        split; [split; [split; [lia|done]|done]|lia].
    - rewrite nfull_insert, Hw, full_word, full_one by (apply khash_range || lia).
      cbn [m2 m1 m_len m_tombs m_icap set_index set_room set_entries]. cbn. lia. }
  exists m'. split; [exact Hm'|]. split; [done|split; [exact Hfr|split; [exact Hus|]]]. eexists _, _. split; [exact He|].
  by rewrite He', Ho.
Qed.

(** Unlinking the position a search found. *)
Lemma unlink_spec m key i h slot :
  map_ok m -> found vzero keq khash m key (Some i) h slot ->
  exists m', unlink m i slot = Some m' /\ unlinked m i m'.
Proof.
  intros Hok (Hli & _ & Hslot). destruct (m_idx m) as [idx|] eqn:Hidx; [|by apply unlink_linear].
  destruct (Hslot idx eq_refl) as [Hs Hw]. destruct (m_ordered m) eqn:Ho; [by apply (unlink_hole m i slot idx)|by apply (unlink_swap m i slot idx)].
Qed.

End maps.
