(* ===== verification/MapSpec.v ===== *)
(** * MapSpec: operations on whole maps, and on the list of entries

    The operations on whole maps: a new map, [reserve], [clone], the iterator
    over the live entries and [clear]. *)

From S2P Require Import Prelude Text Slots Mem MapRt MapProofs MapOps.

Open Scope c_scope.

Section maps.
Context {V : Type} (vzero : V) (children : V -> list Z) (Hzero : children vzero = []).
Context (valid : Z -> Prop) (keq : Z -> Z -> bool) (khash : Z -> Z) `{!KeyOps valid keq khash}.
Context (cells : Z -> list (Z * V)) (Hcells : forall n, 0 <= n -> Z.of_nat (length (cells n)) = n).

Implicit Types (m : BMap V).

Abbreviation entry_at := (entry_at vzero).
Abbreviation entries := (entries vzero).
Abbreviation body_ok := (body_ok vzero valid keq).
Abbreviation map_ok := (map_ok vzero valid keq khash).

Lemma map_new_spec kp vp o : let m := beans_map_new vzero kp vp o in map_ok m /\ entries m = [].
Proof.
  intros m. destruct (front_ok vzero valid keq m) as [B He]; [done|done|cbn; lia|cbn; lia|done|done|done|].
  split; [|done]. by split.
Qed.

(** ** Reserving *)

Lemma reserve_cap_spec capacity : capacity <= 2 ^ 58 -> forall fuel cap,
  1 <= cap -> 2 ^ 60 <= cap * 2 ^ Z.of_nat fuel ->
  cap <= reserve_cap fuel cap capacity /\ capacity <= reserve_cap fuel cap capacity /\
  (cap < capacity -> reserve_cap fuel cap capacity < 2 * capacity).
Proof.
  intros Hc. induction fuel as [|fuel IH]; intros cap Hcap Hf; cbn [reserve_cap].
  { change (2 ^ Z.of_nat 0) with 1 in Hf. lia. }
  destruct (Z.ltb_spec cap capacity) as [Hlt|]; cbn [andb]; [|lia].
  destruct (Z.leb_spec cap (2 ^ 59)); [|lia].
  destruct (IH (cap * 2)) as (H1 & H2 & H3); [lia|rewrite Nat2Z.inj_succ, Z.pow_succ_r in Hf by lia; lia|].
  split; [lia|]. split; [done|]. intros _. destruct (Z.lt_ge_cases (cap * 2) capacity); [lia|].
  destruct fuel as [|fuel]; cbn [reserve_cap]; [lia|]. destruct (Z.ltb_spec (cap * 2) capacity); cbn [andb]; lia.
Qed.

Lemma bump_ok m : body_ok m -> body_ok (map_bump_version m) /\ entries (map_bump_version m) = entries m.
Proof. intros []. by split. Qed.

Lemma map_reserve_spec m capacity line col :
  map_ok m -> 0 <= capacity <= 2 ^ 58 ->
  exists m', beans_map_reserve vzero khash cells m capacity line col = Ok (Some m') /\ map_ok m' /\
    entries m' = entries m /\ capacity <= m_cap m' /\ m_cap m <= m_cap m' /\
    m_version m' = i64 (u64 (m_version m) + 1) /\ m_flags m' = m_flags m /\ m_ordered m' = m_ordered m /\ m_used m' <= m_used m.
Proof.
  intros [B _] Hc. unfold beans_map_reserve. rewrite (proj2 (Z.ltb_ge _ _)) by lia.
  rewrite (proj2 (Z.ltb_ge (2 ^ 58) capacity)) by lia.
  destruct (bump_ok m B) as [B1 He1]. set (m1 := map_bump_version m) in *. pose proof (bo_cap _ _ _ _ B1) as Hcap.
  cbv zeta. set (cap := reserve_cap 64 (m_cap m1) capacity).
  destruct (reserve_cap_spec capacity ltac:(lia) 64 (m_cap m1) Hcap) as (Hle & Hge & _);
    [change (2 ^ Z.of_nat 64) with (2 ^ 64); lia|]. fold cap in Hle, Hge.
  rewrite (proj2 (Z.ltb_ge cap capacity)) by lia.
  set (m2 := if m_cap m1 <? capacity then _ else m1).
  assert (H2 : body_ok m2 /\ entries m2 = entries m /\ capacity <= m_cap m2 /\ m_cap m <= m_cap m2 /\
    m_version m2 = m_version m1 /\ m_flags m2 = m_flags m /\ m_ordered m2 = m_ordered m /\ m_used m2 = m_used m).
  { unfold m2. destruct (Z.ltb_spec (m_cap m1) capacity); [|by split_and!].
    destruct (grow_spec vzero valid keq khash m1 (cells (cap - m_cap m1)) cap B1) as (B2 & _ & He2 & Hc2 & _);
      [rewrite Hcells; lia|lia|].
    split; [done|]. split; [by rewrite He2|]. rewrite Hc2. split; [lia|]. split; [change (m_cap m) with (m_cap m1); lia|done]. }
  clearbody m2. destruct H2 as (B2 & He2 & Hc2 & Hcm & Hv & Hf & Ho & Hu2).
  pose proof (len_le_used _ _ _ _ B2).
  destruct (reindex_spec vzero valid keq khash m2 capacity B2 Hc) as (m' & -> & Hok & He & Hus & _ & (Hc' & Ho' & Hf' & Hv')).
  exists m'. split; [done|]. split; [done|]. rewrite He, Hc', Hv', Hf', Ho', Hv. split_and!; try done. lia.
Qed.

(** ** Copying *)

Lemma flag_bits f b0 b1 : f = c_bool b0 + 2 * c_bool b1 ->
  (f &! 1 =? 0) = negb b0 /\ (f &! 2 =? 0) = negb b1.
Proof. intros ->. by destruct b0, b1. Qed.

Lemma map_clone_spec m b0 b1 :
  map_ok m -> m_flags m = c_bool b0 + 2 * c_bool b1 ->
  exists m', beans_map_clone vzero children khash cells m =
      Some (m', concat ((fun e => owned_key m (fst e) ++ children (snd e)) <$> entries m)) /\
    map_ok m' /\ entries m' = entries m /\ m_flags m' = m_flags m /\ m_ordered m' = m_ordered m /\ m_version m' = 0.
Proof.
  intros [B _] Hfl. unfold beans_map_clone. destruct (flag_bits _ _ _ Hfl) as [-> ->]. rewrite !negb_involutive.
  pose proof (bo_len _ _ _ _ B) as Hl. set (new := beans_map_new vzero b0 b1 (m_ordered m)).
  set (c0 := if m_cap new <? m_len m then _ else new).
  assert (H0 : Z.of_nat (length (m_data c0)) = m_cap c0 /\ 4 <= m_cap c0 /\ m_len m <= m_cap c0 /\ m_deadbits c0 = None /\
    m_idx c0 = None /\ m_flags c0 = m_flags m /\ m_ordered c0 = m_ordered m /\ m_version c0 = 0).
  { unfold c0. change (m_cap new) with 4. destruct (Z.ltb_spec 4 (m_len m)); [|rewrite Hfl; by split_and!].
    rewrite Hfl. cbn [new beans_map_new m_data m_cap m_deadbits m_idx m_flags m_ordered m_version map_grow set_room fmap option_fmap option_map].
    split; [rewrite length_app, Nat2Z.inj_add, Hcells by lia; cbn; lia|]. split; [lia|]. split; [lia|done]. }
  clearbody c0. destruct H0 as (Hd & Hc & Hr & Hb & Hi & Hf & Ho & Hv). cbv zeta.
  set (es := entries m) in *. set (c1 := set_entries c0 _ _ _).
  assert (Htake : take (Z.to_nat (m_used c1)) (m_data c1) = es).
  { cbn [c1 m_used m_data set_entries]. by rewrite Nat2Z.id, take_app_length. }
  pose proof (bo_max _ _ _ _ B) as Hmax. pose proof (bo_used _ _ _ _ B) as Hu.
  pose proof (len_le_used vzero valid keq m B) as Hlu.
  destruct (front_ok vzero valid keq c1) as [B1 He1]; [done|..].
  - cbn [c1 m_data m_cap set_entries]. rewrite length_app, length_drop. lia.
  - cbn [c1 m_cap set_entries]. lia.
  - cbn [c1 m_cap m_used set_entries]. lia.
  - done.
  - cbn [c1 m_used set_entries]. lia.
  - rewrite Htake. apply B.
  - rewrite Htake in He1.
    destruct (settle_spec vzero valid keq khash c1 (MAP_LINEAR_MAX <? m_len c1) B1) as (m' & Hm' & Hok & He' & (Hc' & Ho' & Hf' & Hv') & _).
    { unfold index_ok. cbn [c1 m_idx m_deadbits set_entries]. by rewrite Hi. }
    rewrite Hm'. exists m'. split; [done|]. split; [done|]. rewrite He', Hf', Ho', Hv', He1. by split_and!.
Qed.

(** ** Walking *)

(** The loop over a map: the version is taken once, each step asks for the next
    live entry and reads its key and value. *)
Fixpoint map_walk (fuel : nat) m (cursor version line col : Z) : result (list (Z * V)) :=
  match fuel with
  | O => Ok []
  | S fuel =>
      e ← beans_map_iter_next m cursor version line col;
      if e =? -1 then Ok []
      else
        rest ← map_walk fuel m (e + 1) version line col;
        Ok ((beans_map_iter_key vzero m e, beans_map_iter_value vzero m e) :: rest)
  end.

Definition live_from m (c : Z) : list Z :=
  List.filter (fun p => negb (MAP_DEAD m p)) (Z.of_nat <$> seq (Z.to_nat c) (Z.to_nat (m_used m - c))).

Lemma live_from_step m c : 0 <= c < m_used m ->
  live_from m c = if MAP_DEAD m c then live_from m (c + 1) else c :: live_from m (c + 1).
Proof.
  intros Hc. unfold live_from. replace (Z.to_nat (m_used m - c)) with (S (Z.to_nat (m_used m - (c + 1)))) by lia.
  replace (Z.to_nat (c + 1)) with (S (Z.to_nat c)) by lia. cbn [seq fmap list_fmap List.filter].
  replace (Z.of_nat (Z.to_nat c)) with c by lia. by destruct (MAP_DEAD m c).
Qed.

Lemma live_from_end m c : m_used m <= c -> live_from m c = [].
Proof. intros Hc. unfold live_from. by replace (Z.to_nat (m_used m - c)) with 0%nat by lia. Qed.

Lemma skip_dead_spec m : forall n c, 0 <= c -> n = Z.to_nat (m_used m - c) ->
  let r := skip_dead n m c in
  c <= r /\ live_from m r = live_from m c /\ (r < m_used m -> MAP_DEAD m r = false).
Proof.
  induction n as [|n IH]; intros c Hc Hn; cbn [skip_dead]; cbv zeta.
  { split; [lia|]. split; [done|lia]. }
  destruct (Z.ltb_spec c (m_used m)) as [Hlt|]; cbn [andb]; [|lia].
  destruct (MAP_DEAD m c) eqn:Hd; [|by split_and!].
  destruct (IH (c + 1)) as (H1 & H2 & H3); [lia|lia|]. split; [lia|]. split; [|done].
  rewrite H2. by rewrite (live_from_step m c), Hd by lia.
Qed.

Lemma map_walk_spec m line col : forall fuel c, 0 <= c -> (Z.to_nat (m_used m - c) < fuel)%nat ->
  map_walk fuel m c (m_version m) line col = Ok (entry_at m <$> live_from m c).
Proof.
  induction fuel as [|fuel IH]; intros c Hc Hf; [lia|]. cbn [map_walk]. unfold beans_map_iter_next.
  rewrite Z.eqb_refl. cbn [negb].
  destruct (skip_dead_spec m (Z.to_nat (m_used m - c)) c Hc eq_refl) as (Hr & Hl & Hd). cbv zeta in *.
  set (r := skip_dead _ m c) in *.
  change (Ok ?v ≫= ?f) with (f v). cbv beta.
  destruct (Z.ltb_spec r (m_used m)) as [Hlt|Hge].
  - rewrite (proj2 (Z.eqb_neq r (-1))) by lia. rewrite IH by lia. cbn. do 2 f_equal.
    rewrite <-Hl, (live_from_step m r), Hd by lia. cbn [fmap list_fmap]. unfold beans_map_iter_key, beans_map_iter_value. by destruct (MapRt.entry_at vzero m r).
  - rewrite Z.eqb_refl. by rewrite <-Hl, live_from_end by lia.
Qed.

(** A full walk reads the live entries in order. *)
Lemma map_walk_entries m line col :
  map_walk (S (Z.to_nat (m_used m))) m 0 (m_version m) line col = Ok (entries m).
Proof.
  rewrite map_walk_spec by lia. unfold live_from, MapRt.entries, live_positions. by rewrite Z.sub_0_r.
Qed.

(** ** Clearing *)

Section clear.
(** The released objects' code leaves the map alone. *)
Context (deinit : Z -> BMap V -> BMap V) (Hdeinit : forall p m, deinit p m = m).

Lemma release_all_spec ps : forall m out, release_all deinit ps (m, out) = (m, out ++ ps).
Proof.
  unfold release_all. induction ps as [|p ps IH]; intros m out; cbn [fold_left]; [by rewrite app_nil_r|].
  rewrite Hdeinit, IH. by rewrite <-app_assoc.
Qed.

(** What an entry's teardown releases: the value's objects last to first, then the key. *)
Definition teardown m (e : Z * V) : list Z := rev (children (snd e)) ++ owned_key m (fst e).

Lemma map_clear_from_spec m n : forall out, m_used m = 0 ->
  map_clear_from vzero children deinit n (m, out) =
    (m, out ++ concat (teardown m <$> rev (entry_at m <$> (Z.of_nat <$> seq 0 n)))).
Proof.
  induction n as [|n IH]; intros out Hu; cbn [map_clear_from].
  { cbn. by rewrite app_nil_r. }
  cbn [fst]. rewrite Hu. rewrite (proj2 (Z.ltb_ge _ _)) by lia.
  rewrite release_all_spec. cbn [fst]. rewrite release_all_spec, IH by done. f_equal.
  rewrite seq_S, !fmap_app, rev_app_distr. cbn [Nat.add fmap list_fmap rev app concat].
  unfold teardown at 2. by rewrite <-!app_assoc.
Qed.

(** The zeroed cells of the holes release nothing. *)
Lemma teardown_cells m m' : body_ok m -> m_flags m' = m_flags m ->
  concat (teardown m' <$> rev (entry_at m <$> (Z.of_nat <$> seq 0 (Z.to_nat (m_used m))))) =
  concat (teardown m <$> rev (entries m)).
Proof.
  intros B Hf.
  assert (Ht : forall e, teardown m' e = teardown m e) by (intros e; unfold teardown, owned_key; by rewrite Hf).
  unfold MapRt.entries, live_positions.
  assert (Hin : forall p, p ∈ Z.of_nat <$> seq 0 (Z.to_nat (m_used m)) -> 0 <= p)
    by (intros p (j & -> & _)%list_elem_of_fmap; lia).
  induction (Z.of_nat <$> seq 0 (Z.to_nat (m_used m))) as [|p l IH] using rev_ind; [done|].
  rewrite List.filter_app, !fmap_app, !rev_app_distr. cbn [List.filter fmap list_fmap].
  assert (Hp : 0 <= p) by (apply Hin, elem_of_app; right; by left).
  assert (IH' := IH (fun q Hq => Hin q ltac:(apply elem_of_app; by left))).
  destruct (MAP_DEAD m p) eqn:Hd; cbn [negb rev fmap list_fmap app concat]; rewrite IH', ?Ht; [|done].
  rewrite (bo_holes _ _ _ _ B p Hp Hd). unfold teardown, owned_key. cbn [fst snd]. rewrite Hzero. cbn [rev].
  by rewrite orb_true_r.
Qed.

Lemma map_clear_spec m :
  map_ok m ->
  exists m', beans_map_clear vzero children deinit true m = (m', concat (teardown m <$> rev (entries m))) /\
    map_ok m' /\ entries m' = [] /\ m_flags m' = m_flags m /\ m_ordered m' = m_ordered m /\ m_used m' = 0 /\
    m_version m' = (if m_len m =? 0 then m_version m else i64 (u64 (m_version m) + 1)).
Proof.
  intros [B _]. unfold beans_map_clear. set (m1 := if m_len m =? 0 then m else _).
  assert (H1 : m_data m1 = m_data m /\ m_cap m1 = m_cap m /\ m_used m1 = m_used m /\ m_flags m1 = m_flags m /\
    m_ordered m1 = m_ordered m /\ m_version m1 = (if m_len m =? 0 then m_version m else i64 (u64 (m_version m) + 1)))
    by (unfold m1; destruct (m_len m =? 0); done).
  clearbody m1. destruct H1 as (Hd & Hc & Hu & Hf & Ho & Hv). cbv zeta.
  set (m2 := set_index _ None 0 0). rewrite map_clear_from_spec by done. exists m2. rewrite Hu. cbn [app].
  assert (Hat : forall p, entry_at m2 p = entry_at m p)
    by (intros p; unfold MapRt.entry_at; cbn [m2 m_data set_index set_room set_entries]; by rewrite Hd).
  split.
  - f_equal. rewrite <-(teardown_cells m m2 B) by (cbn; done). do 3 f_equal. apply list_fmap_ext. auto.
  - destruct (front_ok vzero valid keq m2) as [B2 He2]; [done|cbn; rewrite Hd, Hc; apply B|cbn; rewrite Hc; apply B|cbn; rewrite Hc; pose proof (bo_cap _ _ _ _ B); lia|done|done|done|].
    split; [by split|]. split; [done|]. cbn. by rewrite Hf, Ho, Hv.
Qed.

End clear.

End maps.

(** * The operations of a map as operations on its entry list

    The abstract map is the list of its entries, oldest first; this file gives
    the effect of storing and removing on it and shows that the implementation
    refines it, one lemma per operation. *)

Lemma find_assoc {V} (vzero : V) valid keq khash `{!KeyOps valid keq khash} m key :
  map_ok vzero valid keq khash m -> valid key ->
  exists r h slot, map_find vzero keq khash m key = Some (r, h, slot) /\ found vzero keq khash m key r h slot /\
    assoc keq key (entries vzero m) = (fun p => snd (entry_at vzero m p)) <$> r.
Proof.
  intros Hok Hk. destruct (map_find_spec vzero valid keq khash m key Hok Hk) as (r & h & slot & Hf & Hr).
  exists r, h, slot. split; [done|]. split; [done|]. destruct r as [p|].
  - destruct Hr as (Hp & He & _). by rewrite (assoc_live vzero valid keq khash m p key (proj1 Hok) Hp Hk He).
  - destruct Hr as [Hno _]. by rewrite (assoc_miss vzero keq m key Hno).
Qed.

(** The entry list with a key's value replaced. *)
Definition assoc_set {V} (keq : Z -> Z -> bool) (key : Z) (val : V) (es : list (Z * V)) : list (Z * V) :=
  (fun e => if keq (fst e) key then (fst e, val) else e) <$> es.

(** The entry of [key] taken out of the list; [pre] holds the entries before,
    last first. *)
Fixpoint assoc_cut {V} (keq : Z -> Z -> bool) (ordered : bool) (key : Z) (pre es : list (Z * V)) : list (Z * V) :=
  match es with
  | [] => rev pre
  | e :: es =>
      if keq (fst e) key then (if ordered then rev pre ++ es else swap_remove (rev pre) es)
      else assoc_cut keq ordered key (e :: pre) es
  end.

Section spec.
Context {V : Type} (vzero : V) (children : V -> list Z) (wide : bool).
Context (valid : Z -> Prop) (keq : Z -> Z -> bool) (khash : Z -> Z) `{!KeyOps valid keq khash}.
Context (cells : Z -> list (Z * V)) (Hcells : forall n, 0 <= n -> Z.of_nat (length (cells n)) = n).

Implicit Types (m : BMap V).

Abbreviation entries := (entries vzero).
Abbreviation map_ok := (map_ok vzero valid keq khash).

(** What no store or removal changes. *)
Definition same_kind m m' : Prop := m_ordered m' = m_ordered m /\ m_flags m' = m_flags m.

Lemma map_set_spec m key val :
  map_ok m -> valid key -> m_used m + 1 <= 2 ^ 32 - 2 ->
  exists m' released, beans_map_set vzero children keq khash cells m key val = Some (m', released) /\
    map_ok m' /\ same_kind m m' /\ m_used m' <= m_used m + 1 /\
    match assoc keq key (entries m) with
    | Some old => entries m' = assoc_set keq key val (entries m) /\ m_version m' = m_version m /\
        released = owned_key m key ++ rev (children old)
    | None => entries m' = entries m ++ [(key, val)] /\ m_version m' = i64 (u64 (m_version m) + 1) /\ released = []
    end.
Proof.
  intros Hok Hk Hroom. destruct (find_assoc vzero valid keq khash m key Hok Hk) as (r & h & slot & Hf & Hr & ->).
  unfold beans_map_set. rewrite Hf. cbn [mbind option_bind]. destruct r as [p|]; cbn [fmap option_fmap option_map].
  - destruct Hr as (Hp & He & _).
    destruct (set_value_spec vzero valid keq khash m p key val Hok Hp Hk He) as [Hok' He'].
    exists (set_value vzero m p val), (owned_key m key ++ rev (children (snd (entry_at vzero m p)))).
    split; [done|]. split; [done|]. split; [done|]. split; [cbn; lia|done].
  - destruct (insert_miss_spec vzero valid keq khash cells Hcells m key val h slot Hok Hk Hroom Hr)
      as (m' & -> & Hok' & He' & Hv & Hfl & Ho & Hu). exists m', []. by split_and!.
Qed.

Lemma map_insert_spec m key val :
  map_ok m -> valid key -> m_used m + 1 <= 2 ^ 32 - 2 ->
  exists m' released added, beans_map_insert vzero children keq khash cells m key val = Some (m', released, added) /\
    map_ok m' /\ same_kind m m' /\ m_used m' <= m_used m + 1 /\
    match assoc keq key (entries m) with
    | Some _ => m' = m /\ added = false /\ released = rev (children val) ++ owned_key m key
    | None => entries m' = entries m ++ [(key, val)] /\ m_version m' = i64 (u64 (m_version m) + 1) /\
        added = true /\ released = []
    end.
Proof.
  intros Hok Hk Hroom. destruct (find_assoc vzero valid keq khash m key Hok Hk) as (r & h & slot & Hf & Hr & ->).
  unfold beans_map_insert. rewrite Hf. cbn [mbind option_bind]. destruct r as [p|]; cbn [fmap option_fmap option_map].
  - eexists _, _, _. split; [done|]. split; [done|]. split; [done|]. split; [lia|done].
  - destruct (insert_miss_spec vzero valid keq khash cells Hcells m key val h slot Hok Hk Hroom Hr)
      as (m' & -> & Hok' & He' & Hv & Hfl & Ho & Hu). exists m', [], true. by split_and!.
Qed.

Lemma map_remove_spec m key :
  map_ok m -> valid key ->
  exists m' released removed, beans_map_remove vzero children wide keq khash m key = Some (m', released, removed) /\
    map_ok m' /\ same_kind m m' /\ m_used m' <= m_used m /\
    match assoc keq key (entries m) with
    | Some old => removed = true /\ m_version m' = i64 (u64 (m_version m) + 1) /\
        exists a k b, entries m = a ++ (k, old) :: b /\ keq k key = true /\
          entries m' = (if m_ordered m then a ++ b else swap_remove a b) /\
          released = owned_key m k ++ rev (children old)
    | None => m' = m /\ removed = false /\ released = []
    end.
Proof.
  intros Hok Hk. destruct (find_assoc vzero valid keq khash m key Hok Hk) as (r & h & slot & Hf & Hr & ->).
  unfold beans_map_remove. rewrite Hf. cbn [mbind option_bind]. destruct r as [p|]; [|by exists m, [], false].
  cbn [fmap option_fmap option_map]. unfold map_remove_found. set (m1 := map_bump_version m).
  assert (Hok1 : map_ok m1).
  { destruct Hok as [B I]. split; [by apply bump_ok|]. exact I. }
  destruct (unlink_spec vzero wide valid keq khash m1 key p h slot Hok1 Hr)
    as (m' & Hu & Hok' & (_ & Ho & Hfl & Hv) & Hus & a & b & He & He').
  rewrite Hu. cbn [mbind option_bind]. eexists m', _, true. split; [done|]. split; [done|]. split; [done|]. split; [done|].
  split; [done|]. split; [done|]. destruct Hr as (_ & Hkey & _).
  exists a, (fst (entry_at vzero m p)), b. split; [|done].
  change (entries m1) with (entries m) in He. rewrite He. change (entry_at vzero m1 p) with (entry_at vzero m p).
  by destruct (entry_at vzero m p).
Qed.

(** ** Cutting *)

Lemma keys_ok_before (ks ks' : list Z) k :
  keys_ok valid keq (ks ++ k :: ks') -> valid k /\ Forall (fun y => valid y /\ keq y k = false) ks.
Proof.
  induction ks as [|x ks IH]; cbn [app keys_ok].
  - intros (Hk & _). by split.
  - intros (Hx & Hf & Hr). destruct (IH Hr) as [Hk Hall]. split; [done|]. constructor; [|done]. split; [done|].
    apply Forall_app in Hf as [_ Hf]. by inversion Hf.
Qed.

Lemma assoc_cut_spec o key (es : list (Z * V)) a k v b :
  keys_ok valid keq (fst <$> es) -> es = a ++ (k, v) :: b -> keq k key = true -> valid key ->
  assoc_cut keq o key [] es = if o then a ++ b else swap_remove a b.
Proof.
  intros Hks -> Hk Hv. rewrite fmap_app in Hks. cbn [fmap list_fmap fst] in Hks.
  apply keys_ok_before in Hks as [Hvk Hall].
  assert (Hno : Forall (fun e => keq (fst e) key = false) a).
  { rewrite Forall_fmap in Hall. eapply Forall_impl; [exact Hall|]. intros e [Hve Hek]. cbn in *.
    destruct (keq (fst e) key) eqn:He; [|done]. rewrite <-Hek. symmetry. apply (keq_trans _ key); [done..|]. by rewrite keq_sym. }
  assert (Hgen : forall pre, assoc_cut keq o key pre (a ++ (k, v) :: b) =
    if o then (rev pre ++ a) ++ b else swap_remove (rev pre ++ a) b).
  { clear Hall. induction a as [|e a IH]; intros pre; cbn [app assoc_cut].
    - cbn [fst]. by rewrite Hk, !app_nil_r.
    - inversion Hno as [|? ? He Hno']; subst. rewrite He, IH by done. cbn [rev]. by rewrite <-!app_assoc. }
  by rewrite Hgen.
Qed.

Lemma assoc_cut_miss o key (es pre : list (Z * V)) :
  assoc keq key es = None -> assoc_cut keq o key pre es = rev pre ++ es.
Proof.
  unfold assoc. revert pre. induction es as [|e es IH]; intros pre; cbn [List.find assoc_cut]; [by rewrite app_nil_r|].
  destruct (keq (fst e) key); [done|]. intros Hn. rewrite IH by done. cbn [rev]. by rewrite <-app_assoc.
Qed.

(** ** Programs of map operations *)

Inductive map_op : Type :=
  | OpSet (key : Z) (val : V)
  | OpInsert (key : Z) (val : V)
  | OpRemove (key : Z)
  | OpReserve (capacity : Z)
  | OpClear.

Definition op_valid (op : map_op) : Prop :=
  match op with OpSet k _ | OpInsert k _ | OpRemove k => valid k | OpReserve _ | OpClear => True end.

(** A panic leaves the map as it was. *)
Definition map_step (op : map_op) m : option (BMap V) :=
  match op with
  | OpSet k v => '(m, _) ← beans_map_set vzero children keq khash cells m k v; Some m
  | OpInsert k v => '(m, _, _) ← beans_map_insert vzero children keq khash cells m k v; Some m
  | OpRemove k => '(m, _, _) ← beans_map_remove vzero children wide keq khash m k; Some m
  | OpReserve n => match beans_map_reserve vzero khash cells m n 0 0 with Ok r => r | Panic _ _ _ => Some m end
  | OpClear => Some (fst (beans_map_clear vzero children (fun _ m => m) true m))
  end.

Fixpoint map_run (ops : list map_op) m : option (BMap V) :=
  match ops with [] => Some m | op :: ops => m ← map_step op m; map_run ops m end.

(** The same program on the entry list. *)
Definition spec_step (ordered : bool) (es : list (Z * V)) (op : map_op) : list (Z * V) :=
  match op with
  | OpSet k v => match assoc keq k es with Some _ => assoc_set keq k v es | None => es ++ [(k, v)] end
  | OpInsert k v => match assoc keq k es with Some _ => es | None => es ++ [(k, v)] end
  | OpRemove k => assoc_cut keq ordered k [] es
  | OpReserve _ => es
  | OpClear => []
  end.

Lemma map_step_spec op m (Hzero : children vzero = []) :
  map_ok m -> op_valid op -> m_used m + 1 <= 2 ^ 32 - 2 ->
  exists m', map_step op m = Some m' /\ map_ok m' /\ m_ordered m' = m_ordered m /\ m_used m' <= m_used m + 1 /\
    entries m' = spec_step (m_ordered m) (entries m) op.
Proof.
  intros Hok Hop Hroom. destruct op as [k v|k v|k|n|]; cbn [map_step spec_step op_valid] in *.
  - destruct (map_set_spec m k v Hok Hop Hroom) as (m' & rel & -> & Hok' & [Ho _] & Hu & Hr). exists m'.
    split; [done|]. split; [done|]. split; [done|]. split; [done|]. by destruct (assoc keq k (entries m)) as [old|]; destruct Hr as [? _].
  - destruct (map_insert_spec m k v Hok Hop Hroom) as (m' & rel & ad & -> & Hok' & [Ho _] & Hu & Hr). exists m'.
    split; [done|]. split; [done|]. split; [done|]. split; [done|].
    destruct (assoc keq k (entries m)) as [old|]; destruct Hr as [? _]; [by subst|done].
  - destruct (map_remove_spec m k Hok Hop) as (m' & rel & rm & -> & Hok' & [Ho _] & Hu & Hr). exists m'.
    split; [done|]. split; [done|]. split; [done|]. split; [lia|].
    destruct (assoc keq k (entries m)) as [old|] eqn:Ha.
    + destruct Hr as (_ & _ & a & k' & b & He & Hk' & He' & _). rewrite He'. symmetry.
      apply (assoc_cut_spec _ _ _ _ k' old); [apply Hok|done..].
    + destruct Hr as [-> _]. by rewrite assoc_cut_miss.
  - destruct (Z.ltb_spec n 0) as [Hn|Hn]; [|destruct (Z.leb_spec n (2 ^ 58))].
    + unfold beans_map_reserve. rewrite (proj2 (Z.ltb_lt _ _)) by done.
      unfold Text.fmt_panic. exists m. split; [done|]. split; [done|]. split; [done|]. split; [lia|done].
    + destruct (map_reserve_spec vzero valid keq khash cells Hcells m n 0 0 Hok) as (m' & -> & Hok' & He & _ & _ & _ & _ & Ho & Hu); [done|].
      exists m'. split; [done|]. split; [done|]. split; [done|]. split; [lia|done].
    + unfold beans_map_reserve. rewrite (proj2 (Z.ltb_ge n 0)), (proj2 (Z.ltb_lt (2 ^ 58) n)) by lia.
      exists m. split; [done|]. split; [done|]. split; [done|]. split; [lia|done].
  - destruct (map_clear_spec vzero children Hzero valid keq khash (fun _ m => m) (fun _ _ => eq_refl) m Hok)
      as (m' & -> & Hok' & He & _ & Ho & Hu & _). exists m'. pose proof (bo_used _ _ _ _ (proj1 Hok)).
    split; [done|]. split; [done|]. split; [done|]. split; [lia|done].
Qed.

Lemma map_run_spec ops : forall m, children vzero = [] ->
  map_ok m -> Forall op_valid ops -> m_used m + Z.of_nat (length ops) <= 2 ^ 32 - 2 ->
  exists m', map_run ops m = Some m' /\ map_ok m' /\ entries m' = foldl (spec_step (m_ordered m)) (entries m) ops.
Proof.
  induction ops as [|op ops IH]; intros m Hz Hok Hv Hroom; cbn [map_run foldl].
  { by exists m. }
  inversion Hv as [|? ? Hop Hv']; subst. cbn [length] in Hroom.
  destruct (map_step_spec op m Hz Hok Hop ltac:(lia)) as (m1 & -> & Hok1 & Ho & Hu & He).
  cbn [mbind option_bind]. destruct (IH m1 Hz Hok1 Hv' ltac:(lia)) as (m' & -> & Hok' & He').
  exists m'. split; [done|]. split; [done|]. by rewrite He', He, Ho.
Qed.

End spec.
Arguments map_op : clear implicits.
