(* ===== verification/MapTheorems.v ===== *)
(** * MapTheorems: the properties of maps

    What a map means is the list of its live entries; each operation is the
    operation on that list, whatever the index, the holes and the capacity. *)

From S2P Require Import Prelude Mem Text TextProofs Decimal Slots MapRt MapProofs MapOps MapSpec.

Open Scope c_scope.

(** ** A concrete map to apply the theorems to *)

Definition ex_heap : heap := mkHeap (fun _ => []) (fun _ => mkDec 0 0 0 0) (fun _ => 0).
Definition ex_keq : Z -> Z -> bool := slot_same ex_heap (fun _ _ => 0) 0.
Definition ex_hash : Z -> Z := fun v => slot_hash ex_heap (fun _ => 0) v 0.
Definition ex_cells (n : Z) : list (Z * Z) := replicate (Z.to_nat n) (7, 7).

Lemma ex_cells_length n : 0 <= n -> Z.of_nat (length (ex_cells n)) = n.
Proof. intros Hn. unfold ex_cells. rewrite length_replicate. lia. Qed.

#[local] Instance ex_key_ops : KeyOps (slot_valid ex_heap 0) ex_keq ex_hash.
Proof. by apply slot_key_ops. Qed.

Lemma ex_valid v : is_i64 v -> slot_valid ex_heap 0 v.
Proof. by split. Qed.

(** [n] entries, inserted one after the other. *)
Fixpoint ex_map (ordered : bool) (n : nat) : BMap Z :=
  match n with
  | O => beans_map_new 0 true true ordered
  | S n => match beans_map_insert 0 (fun v => [v]) ex_keq ex_hash ex_cells (ex_map ordered n) (Z.of_nat n + 1) (Z.of_nat n * 10) with
      | Some (m, _, _) => m
      | None => ex_map ordered n
      end
  end.

Lemma ex_map_ok ordered n : Z.of_nat n < 2 ^ 20 ->
  map_ok 0 (slot_valid ex_heap 0) ex_keq ex_hash (ex_map ordered n) /\ m_used (ex_map ordered n) <= Z.of_nat n.
Proof.
  induction n as [|n IH]; intros Hn; cbn [ex_map].
  { split; [|done]. apply (map_new_spec 0 _ _ _ true true ordered). }
  destruct (IH ltac:(lia)) as [Hok Hu]. set (m := ex_map ordered n) in *. set (key := Z.of_nat n + 1).
  assert (Hk : slot_valid ex_heap 0 key) by (apply ex_valid; unfold is_i64, key; lia).
  unfold beans_map_insert. destruct (find_assoc 0 (slot_valid ex_heap 0) ex_keq ex_hash m key Hok Hk) as (r & h & slot & -> & Hr & _).
  cbn [mbind option_bind]. destruct r as [p|]; [split; [done|lia]|].
  destruct (insert_miss_spec 0 (slot_valid ex_heap 0) ex_keq ex_hash ex_cells ex_cells_length m key (Z.of_nat n * 10) h slot Hok Hk ltac:(lia) Hr)
    as (m' & -> & Hok' & _ & _ & _ & _ & Hu'). cbn. split; [done|lia].
Qed.

Section theorems.
Context {V : Type} (vzero : V) (children : V -> list Z) (wide : bool).
Context (valid : Z -> Prop) (keq : Z -> Z -> bool) (khash : Z -> Z) `{!KeyOps valid keq khash}.
Context (cells : Z -> list (Z * V)) (Hcells : forall n, 0 <= n -> Z.of_nat (length (cells n)) = n).

Abbreviation entries := (entries vzero).
Abbreviation map_ok := (map_ok vzero valid keq khash).

(** ** Programs *)

(** C29: the map refines the association list: any sequence of set, insert,
    remove, reserve and clear on a new map runs to the end, keeps the invariant
    (array, holes and index agree) and leaves the entries the same sequence
    leaves on a plain list. *)
Theorem map_program_correct ops key_ptr val_ptr ordered (Hzero : children vzero = [])
    (Hops : Forall (op_valid valid) ops) (Hlen : Z.of_nat (length ops) <= 2 ^ 32 - 2) :
  exists m, map_run vzero children wide keq khash cells ops (beans_map_new vzero key_ptr val_ptr ordered) = Some m /\
    map_ok m /\ entries m = foldl (spec_step keq ordered) [] ops.
Proof.
  destruct (map_new_spec vzero valid keq khash key_ptr val_ptr ordered) as [Hok He].
  destruct (map_run_spec vzero children wide valid keq khash cells Hcells ops _ Hzero Hok Hops) as (m & Hr & Hm & Hes); [cbn; lia|].
  exists m. rewrite He in Hes. done.
Qed.

(** ** Looking up *)

(** Looking a key up ends for every map the operations build, with or
    without an index, tombstones and holes; [get] is the value the entry list
    associates with an equal key and [contains] tells whether there is one. *)
Theorem map_lookup_correct (m : BMap V) key (Hok : map_ok m) (Hk : valid key) :
  beans_map_get vzero keq khash m key = Some (assoc keq key (entries m)) /\
  beans_map_contains vzero keq khash m key =
    Some (match assoc keq key (entries m) with Some _ => true | None => false end).
Proof.
  destruct (find_assoc vzero valid keq khash m key Hok Hk) as (r & h & slot & Hf & _ & ->).
  unfold beans_map_get, beans_map_contains. rewrite Hf. by destruct r.
Qed.

(** ** Storing *)

(** [set] and [insert] are the updates of the entry list: [set] replaces
    the value of an equal key in place or appends the pair, [insert] only
    appends.  The map keeps its invariant, a new key changes the version, and
    what is released is exactly the duplicate key with the old value ([set])
    or with the refused value ([insert]). *)
Theorem map_store_correct (m : BMap V) key val (Hok : map_ok m) (Hk : valid key) (Hroom : m_used m + 1 <= 2 ^ 32 - 2) :
  (exists m' released, beans_map_set vzero children keq khash cells m key val = Some (m', released) /\
    map_ok m' /\ m_ordered m' = m_ordered m /\ m_flags m' = m_flags m /\
    match assoc keq key (entries m) with
    | Some old => entries m' = assoc_set keq key val (entries m) /\ m_version m' = m_version m /\
        released = owned_key m key ++ rev (children old)
    | None => entries m' = entries m ++ [(key, val)] /\ m_version m' = i64 (u64 (m_version m) + 1) /\ released = []
    end) /\
  (exists m' released added, beans_map_insert vzero children keq khash cells m key val = Some (m', released, added) /\
    map_ok m' /\ m_ordered m' = m_ordered m /\ m_flags m' = m_flags m /\
    match assoc keq key (entries m) with
    | Some _ => m' = m /\ added = false /\ released = rev (children val) ++ owned_key m key
    | None => entries m' = entries m ++ [(key, val)] /\ m_version m' = i64 (u64 (m_version m) + 1) /\
        added = true /\ released = []
    end).
Proof.
  destruct (map_set_spec vzero children valid keq khash cells Hcells m key val Hok Hk Hroom) as (m1 & rel1 & Hset & ? & [? ?] & _ & ?).
  destruct (map_insert_spec vzero children valid keq khash cells Hcells m key val Hok Hk Hroom) as (m2 & rel2 & ad & Hins & ? & [? ?] & _ & ?).
  split; [by exists m1, rel1|by exists m2, rel2, ad].
Qed.

(** ** Removing *)

(** [remove] takes the entry of an equal key out of the list (an ordered
    map keeps the others in order, an unordered one moves its last entry into
    the place), changes the version, keeps the invariant and releases the
    stored key and then the value's objects; without such an entry the map is
    unchanged. *)
Theorem map_remove_correct (m : BMap V) key (Hok : map_ok m) (Hk : valid key) :
  exists m' released removed, beans_map_remove vzero children wide keq khash m key = Some (m', released, removed) /\
    map_ok m' /\ m_ordered m' = m_ordered m /\ m_flags m' = m_flags m /\
    match assoc keq key (entries m) with
    | Some old => removed = true /\ m_version m' = i64 (u64 (m_version m) + 1) /\
        exists a k b, entries m = a ++ (k, old) :: b /\ keq k key = true /\
          entries m' = (if m_ordered m then a ++ b else swap_remove a b) /\
          released = owned_key m k ++ rev (children old)
    | None => m' = m /\ removed = false /\ released = []
    end.
Proof.
  destruct (map_remove_spec vzero children wide valid keq khash m key Hok Hk) as (m' & rel & rm & Hrm & ? & [? ?] & _ & ?).
  by exists m', rel, rm.
Qed.

(** ** Whole maps *)

(** A new map is empty; [reserve] and [clone] keep the entries, [reserve]
    reaching the capacity and refusing a negative or too large one, [clone]
    retaining every key and value once; [clear] empties the map and releases
    what it held, the last entry first and each value before its key. *)
Theorem map_whole_correct (m : BMap V) key_ptr val_ptr capacity line col (deinit : Z -> BMap V -> BMap V)
    (Hok : map_ok m) (Hflags : m_flags m = c_bool key_ptr + 2 * c_bool val_ptr)
    (Hzero : children vzero = []) (Hdeinit : forall p m, deinit p m = m) (Hcap : is_i64 capacity) :
  (let new := beans_map_new vzero key_ptr val_ptr (m_ordered m) in map_ok new /\ entries new = []) /\
  match beans_map_reserve vzero khash cells m capacity line col with
  | Ok r => exists m', r = Some m' /\ 0 <= capacity <= 2 ^ 58 /\ map_ok m' /\ entries m' = entries m /\
      capacity <= m_cap m' /\ m_version m' = i64 (u64 (m_version m) + 1)
  | Panic msg l c => l = line /\ c = col /\
      ((capacity < 0 /\ msg = lit "negative reserve capacity " ++ rt_itoa capacity) \/
       (2 ^ 58 < capacity /\ msg = lit "reserve capacity too large"))
  end /\
  (exists copy, beans_map_clone vzero children khash cells m =
      Some (copy, concat ((fun e => owned_key m (fst e) ++ children (snd e)) <$> entries m)) /\
    map_ok copy /\ entries copy = entries m /\ m_flags copy = m_flags m /\ m_ordered copy = m_ordered m) /\
  (exists m', beans_map_clear vzero children deinit true m =
      (m', concat ((fun e => rev (children (snd e)) ++ owned_key m (fst e)) <$> rev (entries m))) /\
    map_ok m' /\ entries m' = [] /\ m_flags m' = m_flags m /\
    (m_len m <> 0 -> m_version m' = i64 (u64 (m_version m) + 1))).
Proof.
  split; [apply map_new_spec|]. split; [|split].
  - destruct (Z.ltb_spec capacity 0) as [Hneg|Hpos].
    + unfold beans_map_reserve. rewrite (proj2 (Z.ltb_lt _ _)) by done.
      rewrite (fmt_panic_text _ _ _ _ _ (lit "negative reserve capacity " ++ rt_itoa capacity)).
      * split; [done|]. split; [done|]. by left.
      * change (lit "negative reserve capacity %lld") with (lit "negative reserve capacity " ++ lit "%lld").
        apply formats_plain; [plain_text|]. rewrite <-(app_nil_r (lit "%lld")), <-(app_nil_r (rt_itoa capacity)).
        apply formats_lld. apply formats_nil.
      * rewrite slen_app. pose proof (itoa_len _ Hcap). change (slen (lit "negative reserve capacity ")) with 26. lia.
    + destruct (Z.leb_spec capacity (2 ^ 58)).
      * destruct (map_reserve_spec vzero valid keq khash cells Hcells m capacity line col Hok) as (m' & -> & ? & ? & ? & _ & ? & _); [done|].
        by exists m'.
      * unfold beans_map_reserve. rewrite (proj2 (Z.ltb_ge capacity 0)) by lia.
        rewrite (proj2 (Z.ltb_lt (2 ^ 58) capacity)) by done. split; [done|]. split; [done|]. by right.
  - destruct (map_clone_spec vzero children valid keq khash cells Hcells m _ _ Hok Hflags) as (copy & -> & Hrest).
    exists copy. split; [done|]. tauto.
  - destruct (map_clear_spec vzero children Hzero valid keq khash deinit Hdeinit m Hok) as (m' & -> & ? & ? & ? & _ & _ & Hv).
    exists m'. split; [done|]. split; [done|]. split; [done|]. split; [done|]. intros Hn. by rewrite (proj2 (Z.eqb_neq _ _)) in Hv.
Qed.

(** ** Walking *)

(** The loop over a map reads exactly the live entries, in order, and
    ends; a step taken after the map's version changed panics at the loop. *)
Theorem map_walk_correct (m : BMap V) cursor version line col :
  map_walk vzero (S (Z.to_nat (m_used m))) m 0 (m_version m) line col = Ok (entries m) /\
  (m_version m <> version ->
   beans_map_iter_next m cursor version line col = Panic (lit "map changed during iteration") line col).
Proof.
  split; [apply map_walk_entries|]. intros Hv. unfold beans_map_iter_next. by rewrite (proj2 (Z.eqb_neq _ _)).
Qed.

End theorems.

(** The one-probe addition is the wrapping addition to the value of an equal
    key, in place and without a version change, and a new entry holding the
    increment when there is none; only the duplicate key is released. *)
Theorem map_add_correct valid keq khash `{!KeyOps valid keq khash} cells (m : BMap Z) key delta
    (Hcells : forall n, 0 <= n -> Z.of_nat (length (cells n)) = n)
    (Hok : map_ok 0 valid keq khash m) (Hk : valid key) (Hroom : m_used m + 1 <= 2 ^ 32 - 2) :
  exists m' released, beans_map_add keq khash cells m key delta = Some (m', released) /\
    map_ok 0 valid keq khash m' /\
    match assoc keq key (entries 0 m) with
    | Some old => entries 0 m' = assoc_set keq key (i64 (old + delta)) (entries 0 m) /\
        m_version m' = m_version m /\ released = owned_key m key
    | None => entries 0 m' = entries 0 m ++ [(key, delta)] /\ m_version m' = i64 (u64 (m_version m) + 1) /\ released = []
    end.
Proof.
  destruct (find_assoc 0 valid keq khash m key Hok Hk) as (r & h & slot & Hf & Hr & ->).
  unfold beans_map_add. rewrite Hf. cbn [mbind option_bind]. destruct r as [p|]; cbn [fmap option_fmap option_map].
  - destruct Hr as (Hp & He & _).
    destruct (set_value_spec 0 valid keq khash m p key (i64 (snd (entry_at 0 m p) + delta)) Hok Hp Hk He) as [Hok' He'].
    by eexists _, _.
  - destruct (insert_miss_spec 0 valid keq khash cells Hcells m key delta h slot Hok Hk Hroom Hr)
      as (m' & -> & Hok' & He' & Hv & _). by exists m', [].
Qed.

(** ** The theorems at a concrete map *)

Definition ex_children : Z -> list Z := fun v => if v =? 0 then [] else [v].

Lemma map_program_correct_witness :
  exists m, map_run 0 ex_children false ex_keq ex_hash ex_cells
      (((fun i => OpSet i (i * 3)) <$> [1; 2; 3; 4; 5; 6; 7; 8; 9; 10]) ++ [OpRemove 4; OpSet 2 9; OpReserve 40])
      (beans_map_new 0 true true true) = Some m /\
    entries 0 m = [(1, 3); (2, 9); (3, 9); (5, 15); (6, 18); (7, 21); (8, 24); (9, 27); (10, 30)].
Proof.
  destruct (map_program_correct 0 ex_children false (slot_valid ex_heap 0) ex_keq ex_hash ex_cells ex_cells_length
    (((fun i => OpSet i (i * 3)) <$> [1; 2; 3; 4; 5; 6; 7; 8; 9; 10]) ++ [OpRemove 4; OpSet 2 9; OpReserve 40])
    true true true) as (m & Hr & _ & He).
  - reflexivity.
  - repeat (constructor; [apply ex_valid; split; vm_compute; congruence|]). repeat constructor; vm_compute; congruence.
  - vm_compute. congruence.
  - exists m. split; [exact Hr|]. rewrite He. vm_compute. reflexivity.
Defined.

Lemma map_lookup_correct_witness :
  beans_map_get 0 ex_keq ex_hash (ex_map false 20) 13 = Some (Some 120) /\
  beans_map_contains 0 ex_keq ex_hash (ex_map false 20) 99 = Some false.
Proof.
  destruct (ex_map_ok false 20) as [Hok _]; [done|].
  split.
  - rewrite (proj1 (map_lookup_correct 0 _ ex_keq ex_hash (ex_map false 20) 13 Hok (ex_valid 13 ltac:(done)))).
    vm_compute. reflexivity.
  - rewrite (proj2 (map_lookup_correct 0 _ ex_keq ex_hash (ex_map false 20) 99 Hok (ex_valid 99 ltac:(done)))).
    vm_compute. reflexivity.
Defined.

Lemma map_store_correct_witness :
  exists m' released, beans_map_set 0 ex_children ex_keq ex_hash ex_cells (ex_map true 12) 5 77 = Some (m', released) /\
    assoc ex_keq 5 (entries 0 m') = Some 77 /\ released = [5; 40].
Proof.
  destruct (ex_map_ok true 12) as [Hok Hu]; [done|].
  destruct (map_store_correct 0 ex_children _ ex_keq ex_hash ex_cells ex_cells_length (ex_map true 12) 5 77 Hok
    (ex_valid 5 ltac:(done)) ltac:(lia)) as [(m' & rel & Hs & _ & _ & _ & Hr) _].
  exists m', rel. split; [exact Hs|].
  assert (Ha : assoc ex_keq 5 (entries 0 (ex_map true 12)) = Some 40) by (vm_compute; reflexivity).
  rewrite Ha in Hr. destruct Hr as (He & _ & Hrel). rewrite He, Hrel. split; vm_compute; reflexivity.
Defined.

Lemma map_remove_correct_witness :
  exists m' released, beans_map_remove 0 ex_children false ex_keq ex_hash (ex_map false 12) 3 = Some (m', released, true) /\
    released = [3; 20] /\ m_version m' = 13.
Proof.
  destruct (ex_map_ok false 12) as [Hok _]; [done|].
  destruct (map_remove_correct 0 ex_children false _ ex_keq ex_hash (ex_map false 12) 3 Hok
    (ex_valid 3 ltac:(done))) as (m' & rel & rm & Hs & _ & _ & _ & Hr).
  assert (Ha : assoc ex_keq 3 (entries 0 (ex_map false 12)) = Some 20) by (vm_compute; reflexivity).
  rewrite Ha in Hr. destruct Hr as (-> & Hv & a & k & b & _ & Hk & _ & ->). exists m'. eexists. split; [exact Hs|].
  assert (k = 3) as -> by (unfold ex_keq, slot_same in Hk; cbn in Hk; lia).
  split; [vm_compute; reflexivity|]. rewrite Hv. vm_compute. reflexivity.
Defined.

Lemma map_whole_correct_witness :
  exists m', beans_map_clear 0 ex_children (fun _ m => m) true (ex_map true 3) = (m', [20; 3; 10; 2; 1]) /\ entries 0 m' = [].
Proof.
  destruct (ex_map_ok true 3) as [Hok _]; [done|].
  destruct (map_whole_correct 0 ex_children _ ex_keq ex_hash ex_cells ex_cells_length (ex_map true 3) true true 50 0 0
    (fun _ m => m) Hok) as (_ & _ & _ & m' & Hc & _ & He & _); [vm_compute; reflexivity|reflexivity|done|split; vm_compute; congruence|].
  exists m'. split; [rewrite Hc; f_equal; vm_compute; reflexivity|exact He].
Defined.

Lemma map_add_correct_witness :
  exists m' released, beans_map_add ex_keq ex_hash ex_cells (ex_map false 12) 3 (2 ^ 63 - 1) = Some (m', released) /\
    assoc ex_keq 3 (entries 0 m') = Some (- 2 ^ 63 + 19).
Proof.
  destruct (ex_map_ok false 12) as [Hok Hu]; [done|].
  destruct (map_add_correct (slot_valid ex_heap 0) ex_keq ex_hash ex_cells (ex_map false 12) 3 (2 ^ 63 - 1) ex_cells_length Hok
    (ex_valid 3 ltac:(done)) ltac:(lia)) as (m' & rel & Hs & _ & Hr).
  assert (Ha : assoc ex_keq 3 (entries 0 (ex_map false 12)) = Some 20) by (vm_compute; reflexivity).
  rewrite Ha in Hr. exists m', rel. split; [exact Hs|]. destruct Hr as [-> _]. vm_compute. reflexivity.
Defined.

Lemma map_walk_correct_witness :
  map_walk 0 4 (ex_map true 3) 0 3 0 0 = Ok [(1, 0); (2, 10); (3, 20)] /\
  beans_map_iter_next (ex_map true 3) 1 2 7 9 = Panic (lit "map changed during iteration") 7 9.
Proof.
  destruct (map_walk_correct 0 (ex_map true 3) 1 2 7 9) as [H1 H2]. split.
  - vm_compute. reflexivity.
  - apply H2. vm_compute. congruence.
Defined.
