(* ===== verification/Bytes.v ===== *)
(** * Bytes: the byte buffers

    [runtime/beans_rt.c], the Bytes section.  A Bytes is a [BList] of which
    only the data, the length and the capacity are used.  The operand that is
    read may be the buffer that is written: such operations take a [source].
    Growing may run out of memory or, for absurd sizes, never end: [run]. *)

From S2P Require Import Prelude Mem Text.

Open Scope c_scope.

Record Bytes : Type := mkBytes { b_data : str; b_len : Z; b_cap : Z }.

(** [None]: the code does not come back. *)
Definition run (A : Type) : Type := option (result A).

#[export] Instance run_ret : MRet run := fun A a => Some (Ok a).
#[export] Instance run_bind : MBind run := fun A B f r =>
  match r with Some (Ok a) => f a | Some (Panic m l c) => Some (Panic m l c) | None => None end.

(** Another buffer, or the one being written. *)
Inductive source : Type := Other (o : Bytes) | Self.

Definition src_of (b : Bytes) (s : source) : Bytes := match s with Other o => o | Self => b end.

Definition set_bytes (b : Bytes) (data : str) (len : Z) : Bytes := mkBytes data len (b_cap b).

(** The bytes the program sees. *)
Definition contents (b : Bytes) : str := sub_str (b_data b) 0 (b_len b).

Section bytes.
Context `{Alloc}.

(** ** Construction *)

Definition bytes_mk (n : Z) : result Bytes :=
  let cap := if n <? 8 then 8 else n in
  match rt_big_zalloc (cap * 1) with
  | None => Panic out_of_memory 0 0
  | Some data => Ok (mkBytes data n cap)
  end.

Definition beans_bytes_new (n line col : Z) : result Bytes :=
  if n <? 0 then fmt_panic 48 "negative size %lld" [n] line col else bytes_mk n.

Definition beans_bytes_filled (n value line col : Z) : result Bytes :=
  if n <? 0 then fmt_panic 48 "negative size %lld" [n] line col
  else
    b ← bytes_mk n;
    Ok (set_bytes b (mem_set (b_data b) 0 (replicate (Z.to_nat n) (value &! 255))) n).

Definition beans_bytes_from (s : str) : result Bytes :=
  let n := slen s in
  b ← bytes_mk n;
  Ok (set_bytes b (mem_set (b_data b) 0 s) n).

(** [source]: [None] for the null pointer, else the memory it points to. *)
Definition beans_bytes_from_raw (source : option str) (n line col : Z) : result Bytes :=
  if n <? 0 then fmt_panic 64 "negative raw byte length %lld" [n] line col
  else
    match source with
    | None => if n =? 0 then bytes_mk n else Panic (lit "null pointer with non-empty Bytes") line col
    | Some mem =>
        b ← bytes_mk n;
        Ok (if n =? 0 then b else set_bytes b (mem_set (b_data b) 0 (sub_str mem 0 n)) n)
    end.

Definition beans_bytes_eq (a b : Bytes) : bool :=
  (b_len a =? b_len b) && bool_decide (sub_str (b_data a) 0 (b_len a) = sub_str (b_data b) 0 (b_len a)).

(** ** Growing *)

(** [while (cap < need) cap *= 2], the product wrapping as compiled; 64
    doublings leave 0, which no further doubling changes. *)
Fixpoint grow_cap (fuel : nat) (cap need : Z) : option Z :=
  match fuel with
  | O => None
  | S fuel => if cap <? need then grow_cap fuel (i64 (cap * 2)) need else Some cap
  end.

Definition bytes_grow (b : Bytes) (need : Z) : run Bytes :=
  if need <=? b_cap b then Some (Ok b)
  else
    match grow_cap 66 (b_cap b) need with
    | None => None
    | Some cap =>
        match rt_big_realloc (b_data b) (b_cap b) cap with
        | None => Some (Panic out_of_memory 0 0)
        | Some data => Some (Ok (mkBytes data (b_len b) cap))
        end
    end.

Definition beans_bytes_ensure_padding (b : Bytes) (padding : Z) : run Bytes :=
  if (padding <? 0) || (64 <? padding) then Some (Panic (lit "invalid Bytes padding") 0 0)
  else
    b ← bytes_grow b (b_len b + padding);
    Some (Ok (set_bytes b (mem_set (b_data b) (b_len b) (mem_zero padding)) (b_len b))).

Definition beans_bytes_resize (b : Bytes) (n line col : Z) : run Bytes :=
  if n <? 0 then Some (fmt_panic 48 "negative size %lld" [n] line col)
  else
    b ← bytes_grow b n;
    Some (Ok (set_bytes b (if b_len b <? n then mem_set (b_data b) (b_len b) (mem_zero (n - b_len b)) else b_data b) n)).

Definition beans_bytes_reserve (b : Bytes) (n line col : Z) : run Bytes :=
  if n <? 0 then Some (fmt_panic 64 "negative reserve capacity %lld" [n] line col)
  else if 2 ^ 58 <? n then Some (Panic (lit "reserve capacity too large") line col)
  else bytes_grow b n.

(** The buffer with its new length; its capacity and data are the results. *)
Definition beans_bytes_reserve_raw (b : Bytes) (len min_cap : Z) : run Bytes :=
  if 2 ^ 58 <? min_cap then Some (Panic (lit "JSON output too large") 0 0)
  else
    b ← bytes_grow b (i64 min_cap);
    Some (Ok (set_bytes b (b_data b) (i64 len))).

Definition beans_bytes_fill (b : Bytes) (v : Z) : Bytes :=
  set_bytes b (mem_set (b_data b) 0 (replicate (Z.to_nat (b_len b)) (v &! 255))) (b_len b).

(** ** Appending *)

(** [memcpy(data + len, bs, n); len += n] once the room is there. *)
Definition put_tail (b : Bytes) (bs : str) : Bytes :=
  set_bytes b (mem_set (b_data b) (b_len b) bs) (b_len b + slen bs).

Definition int_text_buf (value : Z) : str :=
  let magnitude := if value <? 0 then 0 -! u64 value else u64 value in
  (if value <? 0 then [ch_minus] else []) ++ rev (utoa_tmp U64_FUEL magnitude []).

Definition beans_bytes_append_int_text (b : Bytes) (value : Z) : run Bytes :=
  let text := int_text_buf value in
  b ← bytes_grow b (b_len b + slen text);
  Some (Ok (put_tail b text)).

Definition beans_bytes_push (b : Bytes) (v : Z) : run Bytes :=
  b ← bytes_grow b (b_len b + 1);
  Some (Ok (put_tail b [u8 v])).

(** The operand is read after the growth, which may have moved it. *)
Definition beans_bytes_append (b : Bytes) (o : source) : run Bytes :=
  b ← bytes_grow b (b_len b + b_len (src_of b o));
  let o := src_of b o in
  Some (Ok (put_tail b (sub_str (b_data o) 0 (b_len o)))).

Definition beans_bytes_append_str (b : Bytes) (s : str) : run Bytes :=
  b ← bytes_grow b (b_len b + slen s);
  Some (Ok (put_tail b s)).

Definition beans_bytes_append_i64 (b : Bytes) (value : Z) : run Bytes :=
  b ← bytes_grow b (b_len b + 8);
  Some (Ok (put_tail b (rt_store_le (u64 value) 8))).

Definition beans_bytes_append_range (b : Bytes) (s : source) (from to line col : Z) : run Bytes :=
  if (from <? 0) || (to <? from) || (b_len (src_of b s) <? to) then
    Some (fmt_panic 96 "slice %lld..%lld out of range (len %lld)" [from; to; b_len (src_of b s)] line col)
  else
    let count := to - from in
    b ← bytes_grow b (b_len b + count);
    Some (Ok (put_tail b (sub_str (b_data (src_of b s)) from count))).

(** ** Variable-length integers *)

(** One 7-bit group per turn: a 64-bit value has at most ten. *)
Definition VARINT_FUEL : nat := 10.

Fixpoint append_varint_loop (fuel : nat) (b : Bytes) (v : Z) : run Bytes :=
  match fuel with
  | O => None
  | S fuel =>
      if 0x80 <=? v then
        b ← bytes_grow b (b_len b + 1);
        append_varint_loop fuel (put_tail b [u8 (v |! 0x80)]) (v >>! 7)
      else
        b ← bytes_grow b (b_len b + 1);
        Some (Ok (put_tail b [u8 v]))
  end.

Definition beans_bytes_append_varint (b : Bytes) (x : Z) : run Bytes :=
  append_varint_loop VARINT_FUEL b (u64 x).

Fixpoint get_varint_loop (fuel : nat) (b : Bytes) (pos i v shift line col : Z) : run Z :=
  match fuel with
  | O => None
  | S fuel =>
      if (pos <? 0) || (b_len b <=? i) then
        Some (fmt_panic 96 "varint read at %lld out of range (len %lld)" [pos; b_len b] line col)
      else if 64 <=? shift then Some (fmt_panic 96 "varint too long at %lld" [pos] line col)
      else
        let byte := c_at (b_data b) (Z.to_nat i) in
        let v := v |! ((byte &! 0x7f) <<! shift) in
        if byte &! 0x80 =? 0 then Some (Ok (i64 v))
        else get_varint_loop fuel b pos (i + 1) v (shift + 7) line col
  end.

Definition beans_bytes_get_varint (b : Bytes) (pos line col : Z) : run Z :=
  get_varint_loop (S VARINT_FUEL) b pos (if pos <? 0 then b_len b else pos) 0 0 line col.

Fixpoint varint_size_loop (fuel : nat) (v n : Z) : Z :=
  match fuel with
  | O => n
  | S fuel => if 0x80 <=? v then varint_size_loop fuel (v >>! 7) (n + 1) else n
  end.

Definition beans_bytes_varint_size (x : Z) : Z := varint_size_loop VARINT_FUEL (u64 x) 1.

(** ** Checksum *)

(** [for (k = 0; k < 8; k++) c = (c & 1) ? 0xEDB88320 ^ (c >> 1) : c >> 1]. *)
Definition crc_shift (c : Z) : Z :=
  if c &! 1 =? 0 then c >>! 1 else 0xEDB88320 ^! (c >>! 1).

Fixpoint crc_shifts (k : nat) (c : Z) : Z :=
  match k with O => c | S k => crc_shifts k (crc_shift c) end.

Definition crc_entry (i : Z) : Z := crc_shifts 8 i.

Definition crc_table : list Z := crc_entry <$> (Z.of_nat <$> seq 0 256).

Definition crc_step (c byte : Z) : Z :=
  default 0 (crc_table !! Z.to_nat ((c ^! byte) &! 0xFF)) ^! (c >>! 8).

Definition beans_bytes_crc32 (b : Bytes) (from to line col : Z) : result Z :=
  if (from <? 0) || (to <? from) || (b_len b <? to) then
    fmt_panic 96 "crc32 %lld..%lld out of range (len %lld)" [from; to; b_len b] line col
  else Ok (foldl crc_step 0xFFFFFFFF (sub_str (b_data b) from (to - from)) ^! 0xFFFFFFFF).

(** ** Access *)

Definition bytes_oob {A} (i len line col : Z) : result A :=
  fmt_panic 80 "byte index %lld out of range (len %lld)" [i; len] line col.

Definition beans_bytes_get (b : Bytes) (i line col : Z) : result Z :=
  if (i <? 0) || (b_len b <=? i) then bytes_oob i (b_len b) line col
  else Ok (c_at (b_data b) (Z.to_nat i)).

Definition beans_bytes_set (b : Bytes) (i v line col : Z) : result Bytes :=
  if (i <? 0) || (b_len b <=? i) then bytes_oob i (b_len b) line col
  else Ok (set_bytes b (mem_set (b_data b) i [v &! 255]) (b_len b)).

Definition bytes_woob {A} (what op : str) (pos len line col : Z) : result A :=
  Panic (default [] (fst <$> rt_vformat 96 (lit "%s %s at %lld out of range (len %lld)")
    [VaStr (Some what); VaStr (Some op); VaI64 pos; VaI64 len])) line col.

Definition bytes_getw (b : Bytes) (pos w : Z) (what : str) (line col : Z) : result Z :=
  if (pos <? 0) || (b_len b <? w) || (b_len b - w <? pos) then bytes_woob what (lit "read") pos (b_len b) line col
  else Ok (i64 (rt_load_le (sub_str (b_data b) pos w) w)).

Definition bytes_putw (b : Bytes) (pos w val : Z) (what : str) (line col : Z) : result Bytes :=
  if (pos <? 0) || (b_len b <? w) || (b_len b - w <? pos) then bytes_woob what (lit "write") pos (b_len b) line col
  else Ok (set_bytes b (mem_set (b_data b) pos (rt_store_le (u64 val) w)) (b_len b)).

Definition beans_bytes_get_u8 (b : Bytes) (p l c : Z) : result Z := bytes_getw b p 1 (lit "u8") l c.
Definition beans_bytes_get_u16 (b : Bytes) (p l c : Z) : result Z := bytes_getw b p 2 (lit "u16") l c.
Definition beans_bytes_get_u32 (b : Bytes) (p l c : Z) : result Z := bytes_getw b p 4 (lit "u32") l c.
Definition beans_bytes_get_u64 (b : Bytes) (p l c : Z) : result Z := bytes_getw b p 8 (lit "u64") l c.
Definition beans_bytes_get_i64 (b : Bytes) (p l c : Z) : result Z := bytes_getw b p 8 (lit "i64") l c.
Definition beans_bytes_put_u8 (b : Bytes) (p v l c : Z) : result Bytes := bytes_putw b p 1 v (lit "u8") l c.
Definition beans_bytes_put_u16 (b : Bytes) (p v l c : Z) : result Bytes := bytes_putw b p 2 v (lit "u16") l c.
Definition beans_bytes_put_u32 (b : Bytes) (p v l c : Z) : result Bytes := bytes_putw b p 4 v (lit "u32") l c.
Definition beans_bytes_put_u64 (b : Bytes) (p v l c : Z) : result Bytes := bytes_putw b p 8 v (lit "u64") l c.
Definition beans_bytes_put_i64 (b : Bytes) (p v l c : Z) : result Bytes := bytes_putw b p 8 v (lit "i64") l c.

(** ** Copies *)

Definition bytes_slice_check (b : Bytes) (from to line col : Z) : result unit :=
  if (from <? 0) || (to <? from) || (b_len b <? to) then
    fmt_panic 96 "byte slice %lld..%lld out of range (len %lld)" [from; to; b_len b] line col
  else Ok tt.

Definition beans_bytes_slice (b : Bytes) (from to line col : Z) : result Bytes :=
  _ ← bytes_slice_check b from to line col;
  r ← bytes_mk (to - from);
  Ok (set_bytes r (mem_set (b_data r) 0 (sub_str (b_data b) from (to - from))) (b_len r)).

Definition beans_bytes_copy_from (b : Bytes) (s : source) (at_ line col : Z) : result Bytes :=
  let src := src_of b s in
  if (at_ <? 0) || (b_len b <? b_len src) || (b_len b - b_len src <? at_) then
    fmt_panic 96 "copy of %lld bytes at %lld out of range (len %lld)" [b_len src; at_; b_len b] line col
  else Ok (set_bytes b (mem_set (b_data b) at_ (sub_str (b_data src) 0 (b_len src))) (b_len b)).

(** The bytes before the first NUL. *)
Fixpoint until_nul (s : str) : str :=
  match s with [] => [] | c :: s => if c =? 0 then [] else c :: until_nul s end.

Definition beans_bytes_to_string (b : Bytes) : str := until_nul (sub_str (b_data b) 0 (b_len b)).
Definition beans_bytes_to_string_full (b : Bytes) : str := sub_str (b_data b) 0 (b_len b).

Definition beans_bytes_slice_to_string (b : Bytes) (from to line col : Z) : result str :=
  _ ← bytes_slice_check b from to line col;
  Ok (until_nul (sub_str (b_data b) from (to - from))).

Definition beans_bytes_slice_to_string_full (b : Bytes) (from to line col : Z) : result str :=
  _ ← bytes_slice_check b from to line col;
  Ok (sub_str (b_data b) from (to - from)).

End bytes.
