(* ===== verification/BytesProofs.v ===== *)
(** * BytesProofs: the invariant of byte buffers and the checksum *)

From S2P Require Import Prelude Digits Mem Text TextProofs Str StrProofs Bytes.

Open Scope c_scope.

(** ** The invariant *)

Record bytes_rep (b : Bytes) : Prop := {
  br_data : slen (b_data b) = b_cap b;
  br_cap : 8 <= b_cap b;
  br_len : 0 <= b_len b <= b_cap b;
  br_bytes : bytes_ok (contents b)
}.

(** What a growing operation yields: the buffer or the out-of-memory panic;
    it comes back. *)
Definition ends_with (r : run Bytes) (post : Bytes -> Prop) : Prop :=
  match r with
  | Some (Ok b) => bytes_rep b /\ post b
  | Some (Panic m _ _) => m = out_of_memory
  | None => False
  end.

Lemma ends_bind (r : run Bytes) f (p q : Bytes -> Prop) :
  ends_with r p -> (forall b, bytes_rep b -> p b -> ends_with (f b) q) -> ends_with (r ≫= f) q.
Proof. destruct r as [[b|m l c]|]; cbn; [intros [? ?] Hf; by apply Hf|done|done]. Qed.

Lemma contents_len b : bytes_rep b -> slen (contents b) = b_len b.
Proof. intros R. unfold contents. apply sub_str_len; destruct R; lia. Qed.

(** ** Growing *)

Lemma grow_cap_ends need : need <= 2 ^ 62 -> forall fuel cap,
  8 <= cap < 2 ^ 63 -> need < cap * 2 ^ Z.of_nat fuel ->
  exists cap', grow_cap (S fuel) cap need = Some cap' /\ need <= cap' /\ cap <= cap' < 2 ^ 63 /\
    (cap' = cap \/ cap' < 2 * need).
Proof.
  intros Hn. induction fuel as [|fuel IH]; intros cap Hc Hf.
  - change (2 ^ Z.of_nat 0) with 1 in Hf. cbn [grow_cap]. rewrite (proj2 (Z.ltb_ge _ _)) by lia.
    exists cap. split; [done|lia].
  - change (grow_cap (S (S fuel)) cap need) with
      (if cap <? need then grow_cap (S fuel) (i64 (cap * 2)) need else Some cap).
    destruct (Z.ltb_spec cap need) as [Hlt|]; [|exists cap; split; [done|lia]].
    rewrite (i64_small (cap * 2)) by (unfold is_i64; lia).
    destruct (IH (cap * 2)) as (cap' & -> & H1 & H2 & H3); [lia|rewrite Nat2Z.inj_succ, Z.pow_succ_r in Hf by lia; lia|].
    exists cap'. split; [done|lia].
Qed.

(** Past [2 ^ 62] the doubling wraps to 0 and never ends. *)
Lemma grow_cap_zero fuel need : 0 < need -> grow_cap fuel 0 need = None.
Proof. intros Hn. induction fuel as [|fuel IH]; cbn [grow_cap]; [done|]. by rewrite (proj2 (Z.ltb_lt _ _)). Qed.

Lemma grow_cap_hangs k need : (k <= 62)%nat -> 2 ^ 62 < need -> forall fuel, grow_cap fuel (2 ^ Z.of_nat k) need = None.
Proof.
  intros Hk Hn. remember (62 - k)%nat as d eqn:Hd. revert k Hk Hd.
  induction d as [|d IH]; intros k Hk Hd [|fuel]; cbn [grow_cap]; try done.
  - replace k with 62%nat by lia. change (2 ^ Z.of_nat 62) with (2 ^ 62). rewrite (proj2 (Z.ltb_lt _ _)) by done.
    destruct fuel as [|fuel]; cbn [grow_cap]; [done|]. change (i64 (2 ^ 62 * 2)) with (- 2 ^ 63).
    rewrite (proj2 (Z.ltb_lt _ _)) by lia. change (i64 (- 2 ^ 63 * 2)) with 0. apply grow_cap_zero. lia.
  - assert (2 ^ Z.of_nat k <= 2 ^ 61) by (apply Z.pow_le_mono_r; lia). rewrite (proj2 (Z.ltb_lt _ _)) by lia.
    rewrite i64_small by (unfold is_i64; lia). rewrite Z.mul_comm, <-Z.pow_succ_r, <-Nat2Z.inj_succ by lia.
    apply IH; lia.
Qed.

Section bytes.
Context `{AllocLaws}.

Lemma grow_ok b need : bytes_rep b -> need <= 2 ^ 62 ->
  ends_with (bytes_grow b need) (fun b' => contents b' = contents b /\ b_len b' = b_len b /\
    need <= b_cap b' /\ b_cap b <= b_cap b' /\ (b_cap b' = b_cap b \/ b_cap b' < 2 * need) /\
    exists tail, b_data b' = b_data b ++ tail).
Proof.
  intros R Hn. unfold bytes_grow. destruct (Z.leb_spec need (b_cap b)) as [Hle|Hgt].
  { split; [done|]. split_and!; [done..|lia|by left|]. exists []. by rewrite app_nil_r. }
  pose proof (br_cap b R). pose proof (br_data b R) as Hd. pose proof (br_len b R).
  destruct (grow_cap_ends need Hn 65 (b_cap b)) as (cap & -> & Hge & Hcap & Hdbl);
    [lia|change (2 ^ Z.of_nat 65) with (2 ^ 65); lia|].
  destruct (rt_big_realloc (b_data b) (b_cap b) cap) as [data|] eqn:He; [|done].
  apply rt_big_realloc_spec in He as (tail & -> & Hl & _); [|done|lia].
  assert (Hc : contents (mkBytes (b_data b ++ tail) (b_len b) cap) = contents b).
  { unfold contents, sub_str. cbn [b_data b_len]. change (Z.to_nat 0) with 0%nat. rewrite !drop_0.
    rewrite take_app_le; [done|]. unfold slen in Hd. lia. }
  split; [|split; [done|split; [done|split; [done|split; [cbn; lia|split; [done|by exists tail]]]]]].
  split; cbn [b_data b_len b_cap]; [lia|lia|lia|]. rewrite Hc. apply R.
Qed.

(** Past [2 ^ 62] a power-of-two capacity never gets there. *)
Lemma grow_hangs b k need : b_cap b = 2 ^ Z.of_nat k -> (k <= 62)%nat -> 2 ^ 62 < need -> bytes_grow b need = None.
Proof.
  intros Hc Hk Hn. assert (2 ^ Z.of_nat k <= 2 ^ 62) by (apply Z.pow_le_mono_r; lia).
  unfold bytes_grow. rewrite (proj2 (Z.leb_gt _ _)) by lia. by rewrite Hc, grow_cap_hangs.
Qed.

(** ** Appending *)

Lemma put_tail_ok b bs : bytes_rep b -> b_len b + slen bs <= b_cap b -> bytes_ok bs ->
  bytes_rep (put_tail b bs) /\ contents (put_tail b bs) = contents b ++ bs.
Proof.
  intros R Hr Hb. pose proof (br_data b R) as Hd. pose proof (br_len b R). pose proof (slen_nonneg bs).
  assert (Hc : contents (put_tail b bs) = contents b ++ bs).
  { destruct (mem_split (b_data b) (b_len b)) as (x & y & Hxy & Hx); [lia|].
    destruct (mem_split y (slen bs)) as (u & v & -> & Hu); [rewrite Hxy, slen_app in Hd; lia|].
    unfold contents, put_tail. cbn [b_data b_len set_bytes].
    rewrite Hxy, <-Hx, mem_set_at by done. rewrite !app_assoc.
    rewrite <-(slen_app x bs), sub_str_at0, <-app_assoc, sub_str_at0. done. }
  split; [|done]. split; [|apply R|cbn; lia|].
  - cbn [b_data b_cap put_tail set_bytes]. by rewrite mem_set_len by lia.
  - rewrite Hc. apply Forall_app. split; [apply R|done].
Qed.

(** Room for [n] more, then the bytes. *)
Lemma append_ok b n f bs : bytes_rep b -> b_len b + n <= 2 ^ 62 -> slen bs = n -> bytes_ok bs ->
  (forall b', bytes_rep b' -> contents b' = contents b -> b_len b' = b_len b ->
    (exists tail, b_data b' = b_data b ++ tail) -> f b' = Some (Ok (put_tail b' bs))) ->
  ends_with (bytes_grow b (b_len b + n) ≫= f) (fun b' => contents b' = contents b ++ bs /\ b_len b' = b_len b + n).
Proof.
  intros R Hn Hl Hb Hf. eapply ends_bind; [by apply grow_ok|].
  intros b' R' (Hc & Hlen & Hcap & _ & _ & Htail). rewrite Hf by done.
  destruct (put_tail_ok b' bs R') as [R2 Hc2]; [lia|done|]. split; [done|]. rewrite Hc2, Hc. split; [done|]. cbn. lia.
Qed.

Lemma contents_sub b from n : bytes_rep b -> 0 <= from -> 0 <= n -> from + n <= b_len b ->
  sub_str (contents b) from n = sub_str (b_data b) from n.
Proof. intros R Hf Hn Hle. unfold contents. by rewrite sub_str_sub by lia. Qed.

Lemma sub_bytes_ok s i n : bytes_ok s -> bytes_ok (sub_str s i n).
Proof. intros Hs. unfold sub_str. by apply Forall_take, Forall_drop. Qed.

Lemma push_ok b v : bytes_rep b -> b_len b < 2 ^ 62 ->
  ends_with (beans_bytes_push b v) (fun b' => contents b' = contents b ++ [u8 v] /\ b_len b' = b_len b + 1).
Proof.
  intros R Hl. apply (append_ok b 1); [done|lia|done| |done]. constructor; [unfold is_u8, u8; dlia|done].
Qed.

Lemma append_src_ok b o : bytes_rep b -> bytes_rep (src_of b o) -> b_len b + b_len (src_of b o) <= 2 ^ 62 ->
  ends_with (beans_bytes_append b o) (fun b' => contents b' = contents b ++ contents (src_of b o) /\
    b_len b' = b_len b + b_len (src_of b o)).
Proof.
  intros R Ro Hl. apply (append_ok b (b_len (src_of b o))); [done|done|by apply contents_len|apply Ro|].
  intros b' R' Hc Hlen _. destruct o as [o|]; [done|]. cbn [src_of] in *. by rewrite <-Hc.
Qed.

Lemma append_str_ok b s : bytes_rep b -> bytes_ok s -> b_len b + slen s <= 2 ^ 62 ->
  ends_with (beans_bytes_append_str b s) (fun b' => contents b' = contents b ++ s /\ b_len b' = b_len b + slen s).
Proof. intros R Hs Hl. by apply (append_ok b (slen s)). Qed.

Lemma append_i64_ok b v : bytes_rep b -> b_len b + 8 <= 2 ^ 62 ->
  ends_with (beans_bytes_append_i64 b v) (fun b' => contents b' = contents b ++ rt_store_le (u64 v) 8 /\ b_len b' = b_len b + 8).
Proof.
  intros R Hl. pose proof (u64_is v) as Hu. unfold is_u64 in Hu.
  apply (append_ok b 8); [done|done|apply rt_store_le_len; lia|apply rt_store_le_bytes; lia|done].
Qed.

Lemma append_range_ok b o from to line col : bytes_rep b -> bytes_rep (src_of b o) ->
  0 <= from <= to -> to <= b_len (src_of b o) -> b_len b + (to - from) <= 2 ^ 62 ->
  ends_with (beans_bytes_append_range b o from to line col)
    (fun b' => contents b' = contents b ++ sub_str (contents (src_of b o)) from (to - from) /\ b_len b' = b_len b + (to - from)).
Proof.
  intros R Ro Hf Ht Hl. unfold beans_bytes_append_range.
  rewrite (proj2 (Z.ltb_ge from 0)), (proj2 (Z.ltb_ge to from)), (proj2 (Z.ltb_ge _ to)) by lia. cbn [orb].
  pose proof (contents_len _ Ro) as Hcl.
  apply (append_ok b (to - from)); [done|done|apply sub_str_len; lia|apply sub_bytes_ok, Ro|].
  intros b' R' Hc Hlen (tail & Hd). do 3 f_equal. rewrite contents_sub by (done || lia).
  destruct o as [o|]; [done|]. cbn [src_of] in *. rewrite <-(contents_sub b') by (done || lia).
  rewrite Hc. by rewrite contents_sub by (done || lia).
Qed.

End bytes.

(** ** The checksum *)

Lemma crc_shift_alt c : crc_shift c = (c >>! 1) ^! (if Z.odd c then 0xEDB88320 else 0).
Proof.
  unfold crc_shift. rewrite land1. rewrite Zmod_odd. destruct (Z.odd c); cbn [Z.eqb].
  - apply Z.lxor_comm.
  - by rewrite Z.lxor_0_r.
Qed.

Lemma crc_shift_lxor x y : crc_shift (x ^! y) = crc_shift x ^! crc_shift y.
Proof.
  rewrite !crc_shift_alt, Z.shiftr_lxor, <-!Z.bit0_odd, Z.lxor_spec.
  destruct (Z.testbit x 0), (Z.testbit y 0); cbn [xorb]; apply Z.bits_inj'; intros n Hn;
    rewrite !Z.lxor_spec, ?Z.bits_0; by destruct (Z.testbit (x >>! 1) n), (Z.testbit (y >>! 1) n), (Z.testbit 0xEDB88320 n).
Qed.

Lemma crc_entry_lxor x y : crc_entry (x ^! y) = crc_entry x ^! crc_entry y.
Proof. unfold crc_entry. cbn [crc_shifts]. by rewrite !crc_shift_lxor. Qed.

Lemma crc_shift_double z : crc_shift (2 * z) = z.
Proof. rewrite crc_shift_alt, Z.odd_mul. cbn [Z.odd andb]. rewrite Z.lxor_0_r, shr_div by lia. dlia. Qed.

Lemma crc_entry_high z : crc_entry (256 * z) = z.
Proof.
  unfold crc_entry. cbn [crc_shifts].
  replace (256 * z) with (2 * (2 * (2 * (2 * (2 * (2 * (2 * (2 * z)))))))) by ring. by rewrite !crc_shift_double.
Qed.

Lemma crc_table_at i : 0 <= i < 256 -> default 0 (crc_table !! Z.to_nat i) = crc_entry i.
Proof.
  intros Hi. unfold crc_table. rewrite !list_lookup_fmap, lookup_seq_lt by lia.
  cbn [fmap option_fmap option_map Nat.add]. change (default ?d (Some ?x)) with x. f_equal. lia.
Qed.

(** A table step is eight bit steps. *)
Lemma crc_step_bits c byte : 0 <= c -> is_u8 byte -> crc_step c byte = crc_entry (c ^! byte).
Proof.
  intros Hc Hb. unfold crc_step. set (x := c ^! byte). assert (Hx : 0 <= x) by (unfold x; apply Z.lxor_nonneg; unfold is_u8 in Hb; lia).
  assert (Hlow : x &! 0xFF = x mod 256) by (change 0xFF with (Z.ones 8); by rewrite Z.land_ones by lia).
  assert (Hhigh : c >>! 8 = x / 256).
  { change 256 with (2 ^ 8). rewrite <-(shr_div x 8) by lia. unfold x. rewrite Z.shiftr_lxor, (shr_div byte 8) by lia.
    rewrite (Z.div_small byte) by (unfold is_u8 in Hb; lia). by rewrite Z.lxor_0_r. }
  rewrite Hlow, Hhigh, crc_table_at by (apply Z.mod_pos_bound; lia).
  rewrite <-(crc_entry_high (x / 256)), <-crc_entry_lxor. f_equal.
  rewrite <-Z.add_nocarry_lxor; [pose proof (Z.div_mod x 256); lia|].
  change 256 with (2 ^ 8). rewrite Z.land_comm, (Z.mul_comm (2 ^ 8)), <-Z.shiftl_mul_pow2 by lia.
  apply Z.bits_inj'. intros n Hn. rewrite Z.land_spec, Z.bits_0. destruct (Z.lt_ge_cases n 8).
  - by rewrite Z.shiftl_spec_low by lia.
  - rewrite Z.mod_pow2_bits_high by lia. apply andb_false_r.
Qed.
