(* ===== verification/BytesTheorems.v ===== *)
(** * BytesTheorems: the properties of byte buffers *)

From S2P Require Import Prelude Digits Mem Text TextProofs Str StrProofs Bytes BytesProofs.

Open Scope c_scope.

(** ** Reading the contents *)

Lemma c_at_contents b i : bytes_rep b -> 0 <= i < b_len b -> c_at (b_data b) (Z.to_nat i) = c_at (contents b) (Z.to_nat i).
Proof.
  intros R Hi. unfold c_at, contents, sub_str. change (Z.to_nat 0) with 0%nat. rewrite drop_0.
  by rewrite lookup_take_lt by lia.
Qed.

(** ** Variable-length integers *)

(** The encoding: seven bits per byte, the high bit on all but the last. *)
Fixpoint varint_bytes (fuel : nat) (v : Z) : str :=
  match fuel with
  | O => []
  | S fuel => if 0x80 <=? v then u8 (v |! 0x80) :: varint_bytes fuel (v >>! 7) else [u8 v]
  end.

Lemma varint_bytes_ok fuel : forall v, bytes_ok (varint_bytes fuel v).
Proof.
  induction fuel as [|fuel IH]; intros v; cbn [varint_bytes]; [constructor|].
  destruct (0x80 <=? v); (constructor; [unfold is_u8, u8; dlia|]); [apply IH|constructor].
Qed.

Lemma varint_next fuel v : 0 <= v < 2 ^ (7 * Z.of_nat (S fuel)) -> 0 <= v >>! 7 < 2 ^ (7 * Z.of_nat fuel).
Proof.
  intros Hv. rewrite shr_div by lia. rewrite Nat2Z.inj_succ, Z.mul_succ_r, Z.pow_add_r in Hv by lia.
  split; [apply Z.div_pos; lia|]. apply Z.div_lt_upper_bound; lia.
Qed.

Lemma varint_size_spec fuel : forall v n, (0 < fuel)%nat -> 0 <= v < 2 ^ (7 * Z.of_nat fuel) ->
  varint_size_loop fuel v n = n + slen (varint_bytes fuel v) - 1 /\ 1 <= slen (varint_bytes fuel v) <= Z.of_nat fuel.
Proof.
  induction fuel as [|fuel IH]; intros v n Hf Hv; [lia|]. cbn [varint_size_loop varint_bytes].
  destruct (Z.leb_spec 0x80 v) as [Hge|]; [|change (slen [u8 v]) with 1; lia].
  destruct fuel as [|fuel]; [change (2 ^ (7 * Z.of_nat 1)) with 128 in Hv; lia|].
  destruct (IH (v >>! 7) (n + 1)) as [-> Hl]; [lia|by apply varint_next|]. rewrite slen_cons. lia.
Qed.

Section bytes.
Context `{AllocLaws}.

Lemma append_varint_ok fuel : forall b v, (0 < fuel)%nat -> bytes_rep b -> 0 <= v < 2 ^ (7 * Z.of_nat fuel) ->
  b_len b + Z.of_nat fuel <= 2 ^ 62 ->
  ends_with (append_varint_loop fuel b v) (fun b' => contents b' = contents b ++ varint_bytes fuel v /\
    b_len b' = b_len b + slen (varint_bytes fuel v)).
Proof.
  induction fuel as [|fuel IH]; intros b v Hf R Hv Hl; [lia|]. cbn [append_varint_loop varint_bytes].
  assert (Hb : forall x, bytes_ok [u8 x]) by (intros x; constructor; [unfold is_u8, u8; dlia|done]).
  destruct (Z.leb_spec 0x80 v) as [Hge|].
  - destruct fuel as [|fuel]; [change (2 ^ (7 * Z.of_nat 1)) with 128 in Hv; lia|].
    eapply ends_bind; [apply grow_ok; [done|lia]|]. intros b' R' (Hc & Hlen & Hcap & _).
    destruct (put_tail_ok b' [u8 (v |! 0x80)] R') as [R2 Hc2]; [change (slen [u8 (v |! 0x80)]) with 1; lia|done|].
    pose proof (IH (put_tail b' [u8 (v |! 0x80)]) (v >>! 7) ltac:(lia) R2 (varint_next _ _ Hv)) as Hrec.
    cbn [b_len put_tail set_bytes] in Hrec. change (slen [u8 (v |! 0x80)]) with 1 in Hrec. specialize (Hrec ltac:(lia)).
    destruct (append_varint_loop _ _ _) as [[b2|m l c]|]; [|done..]. destruct Hrec as (R3 & Hc3 & Hl3).
    split; [done|]. rewrite Hc3, Hc2, Hc, <-app_assoc, slen_cons. split; [done|lia].
  - eapply (append_ok b 1); [done|lia|done|done|done].
Qed.

Lemma varint_byte v : 0x80 <= v ->
  u8 (v |! 0x80) &! 0x7f = v mod 128 /\ (u8 (v |! 0x80) &! 0x80 =? 0) = false.
Proof.
  intros Hv. change 0x7f with (Z.ones 7). unfold u8. rewrite <-!Z.land_ones, <-!Z.land_assoc by lia.
  change (Z.land (Z.ones 8) (Z.ones 7)) with (Z.ones 7). change (Z.ones 8 &! 0x80) with 0x80.
  rewrite !Z.land_lor_distr_l. change (0x80 &! Z.ones 7) with 0. change (0x80 &! 0x80) with 0x80.
  rewrite Z.lor_0_r, Z.land_ones by lia. split; [done|]. apply Z.eqb_neq. intros Hz. apply Z.lor_eq_0_iff in Hz. lia.
Qed.

(** Reading what the encoding wrote, after any prefix. *)
Lemma get_varint_spec b pos line col fuel' : bytes_rep b -> 0 <= pos -> forall fuel v i acc shift rest,
  sub_str (contents b) i (b_len b - i) = varint_bytes fuel v ++ rest ->
  0 <= i -> (fuel <= fuel')%nat -> (0 < fuel)%nat -> 0 <= v < 2 ^ (7 * Z.of_nat fuel) ->
  0 <= shift <= 63 -> v < 2 ^ (64 - shift) -> 0 <= acc < 2 ^ shift ->
  get_varint_loop fuel' b pos i acc shift line col = Some (Ok (i64 (acc + v * 2 ^ shift))).
Proof.
  intros R Hpos. revert fuel'. 
  assert (Hgen : forall fuel fuel' v i acc shift rest,
    sub_str (contents b) i (b_len b - i) = varint_bytes fuel v ++ rest ->
    0 <= i -> (fuel <= fuel')%nat -> (0 < fuel)%nat -> 0 <= v < 2 ^ (7 * Z.of_nat fuel) ->
    0 <= shift <= 63 -> v < 2 ^ (64 - shift) -> 0 <= acc < 2 ^ shift ->
    get_varint_loop fuel' b pos i acc shift line col = Some (Ok (i64 (acc + v * 2 ^ shift)))).
  2:{ intros fuel' fuel v i acc shift rest. apply Hgen. }
  induction fuel as [|fuel IH]; intros fuel' v i acc shift rest Hs Hi Hf Hf0 Hv Hsh Hv64 Hacc; [lia|].
  destruct fuel' as [|fuel']; [lia|]. cbn [get_varint_loop varint_bytes] in *.
  pose proof (contents_len b R) as Hcl. pose proof (br_len b R) as Hbl.
  set (byte0 := if 0x80 <=? v then u8 (v |! 0x80) else u8 v).
  set (more := if 0x80 <=? v then varint_bytes fuel (v >>! 7) else []).
  assert (Hs' : sub_str (contents b) i (b_len b - i) = byte0 :: more ++ rest)
    by (rewrite Hs; unfold byte0, more; by destruct (0x80 <=? v)).
  assert (Hlt : i < b_len b).
  { destruct (Z.lt_ge_cases i (b_len b)); [done|]. exfalso. unfold sub_str in Hs'.
    replace (Z.to_nat (b_len b - i)) with 0%nat in Hs' by lia. rewrite take_0 in Hs'. done. }
  rewrite (proj2 (Z.ltb_ge pos 0)), (proj2 (Z.leb_gt (b_len b) i)), (proj2 (Z.leb_gt 64 shift)) by lia. cbn [orb].
  rewrite (c_at_contents b i R) by lia.
  assert (Hbyte : c_at (contents b) (Z.to_nat i) = byte0).
  { assert (Hh : sub_str (contents b) i (b_len b - i) !! 0%nat = Some byte0) by (by rewrite Hs').
    unfold sub_str in Hh. rewrite lookup_take_lt, lookup_drop, Nat.add_0_r in Hh by lia. unfold c_at. by rewrite Hh. }
  rewrite Hbyte. pose proof (Z.pow_pos_nonneg 2 shift ltac:(lia) ltac:(lia)) as Hp.
  assert (H64 : 2 ^ (64 - shift) * 2 ^ shift = 2 ^ 64) by (rewrite <-Z.pow_add_r by lia; f_equal; lia).
  assert (Hput : forall x, 0 <= x -> x < 2 ^ (64 - shift) -> acc |! (x <<! shift) = acc + x * 2 ^ shift).
  { intros x Hx Hx64. rewrite shl_mul by lia. rewrite u64_small by (unfold is_u64; nia).
    by rewrite lor_add by lia. }
  unfold byte0 in *. clear byte0. destruct (Z.leb_spec 0x80 v) as [Hge|Hlt2].
  - destruct (varint_byte v Hge) as [-> ->]. rewrite Hput by (pose proof (Z.mod_pos_bound v 128); lia || (pose proof (Z.mod_le v 128); lia)).
    destruct fuel as [|fuel]; [change (2 ^ (7 * Z.of_nat 1)) with 128 in Hv; lia|].
    assert (Hsh7 : shift + 7 <= 63).
    { destruct (Z.le_gt_cases (shift + 7) 63); [done|]. exfalso. assert (2 ^ (64 - shift) <= 2 ^ 7) by (apply Z.pow_le_mono_r; lia). lia. }
    assert (Hp7 : 2 ^ (shift + 7) = 2 ^ shift * 128) by (by rewrite Z.pow_add_r by lia).
    assert (H647 : 2 ^ (64 - shift) = 2 ^ (64 - (shift + 7)) * 128) by (rewrite <-(Z.pow_add_r 2 _ 7) by lia; f_equal; lia).
    pose proof (Z.mod_pos_bound v 128 ltac:(lia)).
    rewrite (IH fuel' (v >>! 7) (i + 1) _ (shift + 7) rest); [|..|lia|lia|lia|by apply varint_next|lia|rewrite shr_div by lia; apply Z.div_lt_upper_bound; lia|rewrite Hp7; nia].
    + do 3 f_equal. rewrite Hp7, shr_div by lia. change (2 ^ 7) with 128.
      replace (v * 2 ^ shift) with ((128 * (v / 128) + v mod 128) * 2 ^ shift) by (by rewrite <-Z.div_mod by lia). ring.
    + pose proof (f_equal tail Hs') as Ht. unfold more in Ht. cbn [tail] in Ht.
      rewrite <-Ht. unfold sub_str. replace (Z.to_nat (i + 1)) with (S (Z.to_nat i)) by lia.
      replace (Z.to_nat (b_len b - i)) with (S (Z.to_nat (b_len b - (i + 1)))) by lia.
      destruct (drop (Z.to_nat i) (contents b)) as [|x l] eqn:Hd.
      * exfalso. apply (f_equal length) in Hd. rewrite length_drop in Hd. unfold slen in Hcl. cbn in Hd. lia.
      * cbn [take tail]. f_equal. change l with (tail (x :: l)). rewrite <-Hd.
        clear. revert i. generalize (contents b). intros s i. generalize (Z.to_nat i). clear i. intros n.
        revert s. induction n as [|n IH]; intros [|y s]; try done. cbn [drop]. apply IH.
  - unfold u8. rewrite (Z.mod_small v) by lia.
    assert (Hv7 : v &! 0x7f = v) by (change 0x7f with (Z.ones 7); rewrite Z.land_ones by lia; apply Z.mod_small; lia).
    assert (Hv8 : v &! 0x80 = 0).
    { change 0x80 with (Z.shiftl 1 7). rewrite <-Hv7. change 0x7f with (Z.ones 7). rewrite <-Z.land_assoc.
      change (Z.ones 7 &! Z.shiftl 1 7) with 0. apply Z.land_0_r. }
    rewrite Hv7, Hv8. cbn [Z.eqb]. by rewrite Hput by lia.
Qed.

Lemma get_varint_ends b pos line col fuel : forall i acc shift,
  (1 <= fuel)%nat -> 64 <= shift + 7 * (Z.of_nat fuel - 1) -> get_varint_loop fuel b pos i acc shift line col <> None.
Proof.
  induction fuel as [|fuel IH]; intros i acc shift Hf Hs; [lia|]. cbn [get_varint_loop].
  destruct ((pos <? 0) || (b_len b <=? i)); [done|]. destruct (Z.leb_spec 64 shift); [done|].
  destruct (_ =? 0); [done|]. apply IH; lia.
Qed.

End bytes.

(** ** Appending *)

Section theorems.
Context `{AllocLaws}.

Lemma int_text_buf_eq v : int_text_buf v = rt_itoa v.
Proof. unfold int_text_buf, rt_itoa, rt_utoa. by destruct (v <? 0). Qed.

Lemma itoa_bytes v : is_i64 v -> bytes_ok (rt_itoa v).
Proof.
  intros Hv. destruct (rt_itoa_text v Hv) as (ds & (Hok & _) & ->).
  assert (bytes_ok ds).
  { eapply Forall_impl; [exact Hok|]. intros c Hc. unfold is_u8 in *. cbn in Hc. unfold ch_0, ch_9 in *. lia. }
  destruct (v <? 0); [constructor; [unfold is_u8, ch_minus; lia|done]|done].
Qed.

(** Every append adds exactly its bytes at the end, or stops with "out of
    memory": a byte, another buffer or the buffer itself, a string, an integer
    in eight little-endian bytes or as decimal text, a range of a buffer. *)
Theorem bytes_append_correct (b : Bytes) (o : source) s v from to line col
    (R : bytes_rep b) (Ro : bytes_rep (src_of b o)) (Hs : bytes_ok s) (Hv : is_i64 v)
    (Hrange : 0 <= from <= to /\ to <= b_len (src_of b o))
    (Hfit : b_len b + b_len (src_of b o) + slen s + 24 <= 2 ^ 62) :
  ends_with (beans_bytes_push b v) (fun b' => contents b' = contents b ++ [u8 v]) /\
  ends_with (beans_bytes_append b o) (fun b' => contents b' = contents b ++ contents (src_of b o)) /\
  ends_with (beans_bytes_append_str b s) (fun b' => contents b' = contents b ++ s) /\
  ends_with (beans_bytes_append_i64 b v) (fun b' => exists w, contents b' = contents b ++ w /\ slen w = 8 /\ i64 (le w) = v) /\
  ends_with (beans_bytes_append_int_text b v) (fun b' => contents b' = contents b ++ rt_itoa v) /\
  ends_with (beans_bytes_append_range b o from to line col)
    (fun b' => contents b' = contents b ++ sub_str (contents (src_of b o)) from (to - from)).
Proof.
  pose proof (br_len b R). pose proof (br_len _ Ro). pose proof (slen_nonneg s). destruct Hrange.
  assert (Hw : forall r (p q : Bytes -> Prop), ends_with r p -> (forall b', p b' -> q b') -> ends_with r q)
    by (intros [[|]|] p q; cbn; [intros [? ?] ?; auto|done|done]).
  split_and!.
  - eapply Hw; [apply push_ok; [done|lia]|]. by intros b' [? _].
  - eapply Hw; [apply append_src_ok; [done|done|lia]|]. by intros b' [? _].
  - eapply Hw; [apply append_str_ok; [done|done|lia]|]. by intros b' [? _].
  - pose proof (u64_is v) as Hu. unfold is_u64 in Hu.
    eapply Hw; [apply append_i64_ok; [done|lia]|]. intros b' [? _]. eexists. split; [done|].
    split; [apply rt_store_le_len; lia|].
    rewrite <-(rt_load_le_spec _ 8) by (apply rt_store_le_bytes || apply rt_store_le_len || idtac; lia).
    rewrite load_store_le by lia. change (8 * 8) with 64. rewrite Z.mod_small by lia. by rewrite i64_u64, i64_small.
  - unfold beans_bytes_append_int_text. rewrite int_text_buf_eq. cbv zeta.
    pose proof (itoa_len v Hv). pose proof (slen_nonneg (rt_itoa v)).
    eapply Hw; [apply (append_ok b (slen (rt_itoa v))); [done|lia|done|by apply itoa_bytes|done]|]. by intros b' [? _].
  - eapply Hw; [apply append_range_ok; [done|done|lia|lia|lia]|]. by intros b' [? _].
Qed.

(** ** Construction, growth and bounds *)

Lemma bytes_mk_ok n : 0 <= n < 2 ^ 63 ->
  match bytes_mk n with
  | Ok b => bytes_rep b /\ contents b = mem_zero n /\ b_data b = mem_zero (b_cap b) /\ b_len b = n /\ n <= b_cap b
  | Panic m _ _ => m = out_of_memory
  end.
Proof.
  intros Hn. unfold bytes_mk, rt_big_zalloc. set (cap := if n <? 8 then 8 else n). rewrite Z.mul_1_r.
  assert (Hc : 8 <= cap /\ n <= cap) by (unfold cap; destruct (Z.ltb_spec n 8); lia).
  destruct (rt_zalloc cap) as [data|] eqn:He; [|done]. apply rt_zalloc_eq in He as ->.
  assert (Hcon : contents (mkBytes (mem_zero cap) n cap) = mem_zero n).
  { unfold contents, sub_str, mem_zero. cbn [b_data b_len]. change (Z.to_nat 0) with 0%nat. rewrite drop_0, take_replicate.
    f_equal. lia. }
  split; [|split_and!; [done|done|done|cbn [b_cap]; lia]]. split; cbn [b_data b_len b_cap]; [apply mem_zero_len; lia|lia|lia|].
  rewrite Hcon. apply Forall_replicate. unfold is_u8. lia.
Qed.

(** Overwriting a range of the contents. *)
Lemma set_range_ok b at_ bs : bytes_rep b -> 0 <= at_ -> at_ + slen bs <= b_len b -> bytes_ok bs ->
  let b' := set_bytes b (mem_set (b_data b) at_ bs) (b_len b) in
  bytes_rep b' /\ contents b' = mem_set (contents b) at_ bs.
Proof.
  intros R Ha Hl Hb b'. pose proof (br_data b R) as Hd. pose proof (br_len b R). pose proof (slen_nonneg bs).
  assert (Hc : contents b' = mem_set (contents b) at_ bs).
  { destruct (mem_split (b_data b) at_) as (x & y & Hxy & Hx); [lia|].
    destruct (mem_split y (slen bs)) as (u & v & -> & Hu); [rewrite Hxy, slen_app in Hd; lia|].
    destruct (mem_split v (b_len b - at_ - slen bs)) as (p & q & -> & Hp); [rewrite Hxy, !slen_app in Hd; lia|].
    assert (He : forall w, slen w = slen u -> sub_str (x ++ w ++ p ++ q) 0 (b_len b) = x ++ w ++ p).
    { intros w Hw. replace (b_len b) with (slen (x ++ w ++ p)) by (rewrite !slen_app; lia).
      replace (x ++ w ++ p ++ q) with ((x ++ w ++ p) ++ q) by (by rewrite <-!app_assoc). apply sub_str_at0. }
    unfold contents. cbn [b' b_data b_len set_bytes]. rewrite Hxy, <-Hx, mem_set_at by done.
    rewrite !He by done. by rewrite mem_set_at. }
  split; [|done]. split; [|apply R|apply R|].
  - cbn [b' b_data b_cap set_bytes]. by rewrite mem_set_len by lia.
  - rewrite Hc. unfold mem_set. pose proof (br_bytes b R). by repeat apply Forall_app_2; [apply Forall_take| |apply Forall_drop].
Qed.

Lemma zeros_ok n : bytes_ok (mem_zero n).
Proof. apply Forall_replicate. unfold is_u8. lia. Qed.

(** C38: a new buffer is zeroed; [resize] truncates or extends with zeros and
    [reserve] only makes room, refusing what its guard names.  Growing at most
    doubles what is asked for.  Above [2 ^ 62] the doubling of a power-of-two
    capacity wraps and [resize], which has no guard, never comes back. *)
Theorem bytes_resize_correct (b : Bytes) n line col (R : bytes_rep b) (Hn : is_i64 n) :
  (0 <= n -> match beans_bytes_new n line col with
    | Ok new => bytes_rep new /\ contents new = mem_zero n
    | Panic m _ _ => m = out_of_memory
    end) /\
  (0 <= n <= 2 ^ 62 -> ends_with (beans_bytes_resize b n line col)
    (fun b' => contents b' = take (Z.to_nat n) (contents b) ++ mem_zero (n - b_len b) /\
      (b_cap b' = b_cap b \/ b_cap b' < 2 * n))) /\
  (forall k, b_cap b = 2 ^ Z.of_nat k -> (k <= 62)%nat -> 2 ^ 62 < n ->
    beans_bytes_resize b n line col = None /\ forall fuel, grow_cap fuel (b_cap b) n = None) /\
  match beans_bytes_reserve b n line col with
  | Some (Ok b') => 0 <= n <= 2 ^ 58 /\ bytes_rep b' /\ contents b' = contents b /\ n <= b_cap b'
  | Some (Panic m _ _) => m = out_of_memory \/ (n < 0 /\ m = lit "negative reserve capacity " ++ rt_itoa n) \/
      (2 ^ 58 < n /\ m = lit "reserve capacity too large")
  | None => False
  end.
Proof.
  pose proof (br_len b R) as Hl. split; [|split; [|split]].
  - intros Hp. unfold beans_bytes_new. rewrite (proj2 (Z.ltb_ge n 0)) by lia. unfold is_i64 in Hn.
    pose proof (bytes_mk_ok n ltac:(lia)) as Hm. destruct (bytes_mk n); [|done]. by destruct Hm as (? & ? & _).
  - intros Hp. unfold beans_bytes_resize. rewrite (proj2 (Z.ltb_ge n 0)) by lia.
    eapply ends_bind; [apply grow_ok; [done|lia]|]. intros b' R' (Hc & Hlen & Hcap & _ & Hdbl & _). rewrite Hlen.
    pose proof (contents_len b R) as Hcl. unfold slen in Hcl.
    destruct (Z.ltb_spec (b_len b) n) as [Hlt|Hge].
    + destruct (put_tail_ok b' (mem_zero (n - b_len b)) R') as [R2 Hc2]; [rewrite mem_zero_len; lia|apply zeros_ok|].
      assert (He : set_bytes b' (mem_set (b_data b') (b_len b) (mem_zero (n - b_len b))) n = put_tail b' (mem_zero (n - b_len b))).
      { unfold put_tail. rewrite Hlen, mem_zero_len by lia. f_equal. lia. }
      rewrite He. split; [done|]. split; [by rewrite Hc2, Hc, take_ge by lia|exact Hdbl].
    + pose proof (br_len b' R'). split.
      * split; cbn [b_data b_len b_cap set_bytes]; [apply R'|apply R'|lia|].
        pose proof (br_bytes b' R') as Hb. unfold contents, sub_str in *. cbn [b_data b_len set_bytes] in *.
        replace (Z.to_nat n) with (Z.to_nat n `min` Z.to_nat (b_len b'))%nat by lia. rewrite <-take_take. by apply Forall_take.
      * replace (mem_zero (n - b_len b)) with (@nil Z) by (unfold mem_zero; by replace (Z.to_nat (n - b_len b)) with 0%nat by lia).
        rewrite app_nil_r, <-Hc. unfold contents, sub_str. cbn [b_data b_len set_bytes]. rewrite take_take.
        split; [f_equal; lia|exact Hdbl].
  - intros k Hc Hk Hbig. split; [|rewrite Hc; by apply grow_cap_hangs].
    unfold beans_bytes_resize. rewrite (proj2 (Z.ltb_ge n 0)) by lia. by rewrite (grow_hangs b k).
  - unfold beans_bytes_reserve. destruct (Z.ltb_spec n 0) as [Hneg|Hpos].
    + rewrite (fmt_panic_text _ _ _ _ _ (lit "negative reserve capacity " ++ rt_itoa n)); [right; by left| |].
      * change (lit "negative reserve capacity %lld") with (lit "negative reserve capacity " ++ lit "%lld").
        apply formats_plain; [plain_text|]. rewrite <-(app_nil_r (lit "%lld")), <-(app_nil_r (rt_itoa n)).
        apply formats_lld. apply formats_nil.
      * rewrite slen_app. pose proof (itoa_len _ Hn). change (slen (lit "negative reserve capacity ")) with 26. lia.
    + destruct (Z.ltb_spec (2 ^ 58) n); [by right; right|].
      pose proof (grow_ok b n R ltac:(lia)) as Hg. destruct (bytes_grow b n) as [[b'|m l c]|]; [|by left|done].
      destruct Hg as (R' & Hc & _ & Hcap & _). done.
Qed.

(** ** Access *)

(** C39: reads, writes and copies inside the bounds are the list operations on
    the contents and change nothing else; outside they panic at the caller's
    position, and the huge offsets that would wrap a sum are refused. *)
Theorem bytes_access_correct (b : Bytes) (o : source) i v w from to line col
    (R : bytes_rep b) (Ro : bytes_rep (src_of b o)) (Hi : is_i64 i) (Hw : 1 <= w <= 8) (Hft : is_i64 from /\ is_i64 to) :
  (beans_bytes_get b i line col =
    match (if i <? 0 then None else contents b !! Z.to_nat i) with
    | Some x => Ok x
    | None => Panic (lit "byte index " ++ rt_itoa i ++ lit " out of range (len " ++ rt_itoa (b_len b) ++ lit ")") line col
    end \/ 2 ^ 63 <= b_len b) /\
  match beans_bytes_set b i v line col with
  | Ok b' => 0 <= i < b_len b /\ bytes_rep b' /\ contents b' = <[Z.to_nat i := v mod 256]> (contents b)
  | Panic _ l c => ~ 0 <= i < b_len b /\ l = line /\ c = col
  end /\
  match bytes_getw b i w (lit "u64") line col with
  | Ok x => 0 <= i /\ i + w <= b_len b /\ x = i64 (le (sub_str (contents b) i w))
  | Panic _ l c => ~ (0 <= i /\ i + w <= b_len b) /\ l = line /\ c = col
  end /\
  match bytes_putw b i w v (lit "u64") line col with
  | Ok b' => 0 <= i /\ i + w <= b_len b /\ bytes_rep b' /\ exists x, slen x = w /\ le x = v mod 2 ^ (8 * w) /\
      contents b' = mem_set (contents b) i x
  | Panic _ l c => ~ (0 <= i /\ i + w <= b_len b) /\ l = line /\ c = col
  end /\
  match beans_bytes_copy_from b o i line col with
  | Ok b' => 0 <= i /\ i + b_len (src_of b o) <= b_len b /\ bytes_rep b' /\
      contents b' = mem_set (contents b) i (contents (src_of b o))
  | Panic _ l c => ~ (0 <= i /\ i + b_len (src_of b o) <= b_len b) /\ l = line /\ c = col
  end /\
  match beans_bytes_slice_to_string_full b from to line col with
  | Ok s => 0 <= from <= to /\ to <= b_len b /\ s = sub_str (contents b) from (to - from)
  | Panic _ l c => ~ (0 <= from <= to /\ to <= b_len b) /\ l = line /\ c = col
  end.
Proof.
  pose proof (br_len b R) as Hl. pose proof (contents_len b R) as Hcl. pose proof (br_len _ Ro) as Hlo.
  pose proof (contents_len _ Ro) as Hco. split_and!.
  - destruct (Z.lt_ge_cases (b_len b) (2 ^ 63)) as [Hmax|]; [left|by right].
    unfold beans_bytes_get, bytes_oob. unfold slen in Hcl.
    assert (Htext : @fmt_panic Z 80 "byte index %lld out of range (len %lld)" [i; b_len b] line col =
      Panic (lit "byte index " ++ rt_itoa i ++ lit " out of range (len " ++ rt_itoa (b_len b) ++ lit ")") line col).
    { assert (Hlb : is_i64 (b_len b)) by (unfold is_i64; lia). pose proof (itoa_len i Hi). pose proof (itoa_len _ Hlb).
      apply fmt_panic_text.
      - change (lit "byte index %lld out of range (len %lld)") with
          (lit "byte index " ++ lit "%lld" ++ lit " out of range (len " ++ lit "%lld" ++ lit ")").
        apply formats_plain; [plain_text|]. apply formats_lld.
        apply formats_plain; [plain_text|]. apply formats_lld. apply formats_end. plain_text.
      - rewrite !slen_app. change (slen (lit "byte index ")) with 11.
        change (slen (lit " out of range (len ")) with 19. change (slen (lit ")")) with 1. lia. }
    destruct (Z.ltb_spec i 0); cbn [orb]; [done|]. destruct (Z.leb_spec (b_len b) i).
    + rewrite (lookup_ge_None_2 (contents b)) by lia. done.
    + rewrite (c_at_contents b i R) by lia. unfold c_at.
      destruct (lookup_lt_is_Some_2 (contents b) (Z.to_nat i)) as [x Hx]; [lia|]. by rewrite Hx.
  - unfold beans_bytes_set. destruct (Z.ltb_spec i 0); cbn [orb]; [split; [lia|done]|].
    destruct (Z.leb_spec (b_len b) i); [split; [lia|done]|]. split; [lia|].
    assert (Hv : v &! 255 = v mod 256) by (change 255 with (Z.ones 8); by rewrite Z.land_ones by lia). rewrite Hv.
    destruct (set_range_ok b i [v mod 256] R) as [R' Hc]; [lia|change (slen [v mod 256]) with 1; lia| |].
    { constructor; [unfold is_u8; dlia|done]. }
    split; [done|]. rewrite Hc. unfold mem_set, slen in *. cbn [length].
    destruct (lookup_lt_is_Some_2 (contents b) (Z.to_nat i)) as [x Hx]; [lia|].
    rewrite insert_take_drop by lia. do 2 f_equal. f_equal. lia.
  - unfold bytes_getw. destruct (Z.ltb_spec i 0); cbn [orb]; [split; [lia|done]|].
    destruct (Z.ltb_spec (b_len b) w); cbn [orb]; [split; [lia|done]|].
    destruct (Z.ltb_spec (b_len b - w) i); [split; [lia|done]|]. split; [lia|]. split; [lia|].
    rewrite contents_sub by (done || lia). rewrite rt_load_le_spec; [done| |lia|].
    + rewrite <-contents_sub by (done || lia). apply sub_bytes_ok, R.
    + rewrite <-contents_sub by (done || lia). apply sub_str_len; lia.
  - unfold bytes_putw. destruct (Z.ltb_spec i 0); cbn [orb]; [split; [lia|done]|].
    destruct (Z.ltb_spec (b_len b) w); cbn [orb]; [split; [lia|done]|].
    destruct (Z.ltb_spec (b_len b - w) i); [split; [lia|done]|]. split; [lia|]. split; [lia|].
    pose proof (u64_is v) as Hu. unfold is_u64 in Hu.
    pose proof (rt_store_le_len (u64 v) w ltac:(lia) ltac:(lia)) as Hsl.
    destruct (set_range_ok b i (rt_store_le (u64 v) w) R) as [R' Hc]; [lia|lia|apply rt_store_le_bytes; lia|].
    split; [done|]. exists (rt_store_le (u64 v) w). split; [done|]. split; [|done].
    rewrite <-(rt_load_le_spec _ w) by (apply rt_store_le_bytes || idtac; lia). rewrite load_store_le by lia.
    unfold u64. apply Z.mod_mod_divide.
    exists (2 ^ (64 - 8 * w)). rewrite <-Z.pow_add_r by lia. f_equal. lia.
  - unfold beans_bytes_copy_from. cbv zeta. destruct (Z.ltb_spec i 0); cbn [orb]; [split; [lia|done]|].
    destruct (Z.ltb_spec (b_len b) (b_len (src_of b o))); cbn [orb]; [split; [lia|done]|].
    destruct (Z.ltb_spec (b_len b - b_len (src_of b o)) i); [split; [lia|done]|]. split; [lia|]. split; [lia|].
    destruct (set_range_ok b i (contents (src_of b o)) R) as [R' Hc]; [lia|lia|apply Ro|]. done.
  - unfold beans_bytes_slice_to_string_full, bytes_slice_check.
    destruct (Z.ltb_spec from 0); cbn [orb]; [split; [lia|done]|].
    destruct (Z.ltb_spec to from); cbn [orb]; [split; [lia|done]|].
    destruct (Z.ltb_spec (b_len b) to); [split; [lia|done]|]. split; [lia|]. split; [lia|].
    by rewrite contents_sub by (done || lia).
Qed.

(** ** Round trips *)

(** C40: the variable-length encoding is read back at the place it was written,
    has the length [varint_size] announces (at most ten bytes), and reading
    always comes back; what [append_i64] writes is what [get_i64] reads. *)
Theorem bytes_codec_roundtrip (b : Bytes) x pos line col (R : bytes_rep b) (Hx : is_i64 x) (Hfit : b_len b + 10 <= 2 ^ 62) :
  ends_with (beans_bytes_append_varint b x) (fun b' =>
    b_len b' = b_len b + beans_bytes_varint_size x /\ 1 <= beans_bytes_varint_size x <= 10 /\
    (exists code, contents b' = contents b ++ code) /\
    beans_bytes_get_varint b' (b_len b) line col = Some (Ok x)) /\
  beans_bytes_get_varint b pos line col <> None /\
  ends_with (beans_bytes_append_i64 b x) (fun b' => beans_bytes_get_i64 b' (b_len b) line col = Ok x).
Proof.
  pose proof (br_len b R) as Hl. pose proof (u64_is x) as Hu. unfold is_u64 in Hu.
  assert (Hv : 0 <= u64 x < 2 ^ (7 * Z.of_nat 10)) by (change (2 ^ (7 * Z.of_nat 10)) with (2 ^ 70); lia).
  split; [|split].
  - pose proof (append_varint_ok VARINT_FUEL b (u64 x) ltac:(unfold VARINT_FUEL; lia) R Hv ltac:(unfold VARINT_FUEL; lia)) as Ha.
    change (append_varint_loop VARINT_FUEL b (u64 x)) with (beans_bytes_append_varint b x) in Ha.
    destruct (beans_bytes_append_varint b x) as [[b'|m l c]|]; [|done..]. destruct Ha as (R' & Hc & Hlen).
    destruct (varint_size_spec VARINT_FUEL (u64 x) 1 ltac:(unfold VARINT_FUEL; lia) Hv) as [Hs Hb].
    change (varint_size_loop VARINT_FUEL (u64 x) 1) with (beans_bytes_varint_size x) in Hs.
    split; [done|]. split; [lia|]. split; [rewrite Hs; change (Z.of_nat VARINT_FUEL) with 10 in Hb; lia|]. split; [by eexists|].
    pose proof (contents_len b R) as Hcl. unfold beans_bytes_get_varint. rewrite (proj2 (Z.ltb_ge (b_len b) 0)) by lia.
    rewrite (get_varint_spec b' (b_len b) line col (S VARINT_FUEL) R' ltac:(lia) VARINT_FUEL (u64 x) (b_len b) 0 0 []).
    + rewrite Z.add_0_l, Z.mul_1_r. by rewrite i64_u64, i64_small.
    + rewrite app_nil_r. rewrite Hc, Hlen. unfold sub_str. unfold slen in *.
      replace (Z.to_nat (b_len b)) with (length (contents b)) by lia. rewrite drop_app_length. apply take_ge. lia.
    + lia.
    + unfold VARINT_FUEL. lia.
    + unfold VARINT_FUEL. lia.
    + exact Hv.
    + lia.
    + change (64 - 0) with 64. lia.
    + change (2 ^ 0) with 1. lia.
  - apply get_varint_ends; unfold VARINT_FUEL; lia.
  - pose proof (append_i64_ok b x R ltac:(lia)) as Ha. destruct (beans_bytes_append_i64 b x) as [[b'|m l c]|]; [|done..].
    destruct Ha as (R' & Hc & Hlen). split; [done|]. unfold beans_bytes_get_i64, bytes_getw.
    rewrite (proj2 (Z.ltb_ge (b_len b) 0)), (proj2 (Z.ltb_ge (b_len b') 8)), (proj2 (Z.ltb_ge (b_len b' - 8) _)) by lia. cbn [orb].
    rewrite <-contents_sub by (done || lia). pose proof (contents_len b R) as Hcl.
    rewrite Hc, <-Hcl. pose proof (rt_store_le_len (u64 x) 8 ltac:(lia) ltac:(lia)) as Hs8.
    replace (sub_str (contents b ++ rt_store_le (u64 x) 8) (slen (contents b)) 8) with (rt_store_le (u64 x) 8).
    + rewrite load_store_le by lia. change (8 * 8) with 64. rewrite Z.mod_small by lia. by rewrite i64_u64, i64_small.
    + rewrite <-(app_nil_r (rt_store_le (u64 x) 8)) at 2. rewrite <-Hs8 at 3. by rewrite sub_str_at.
Qed.

End theorems.

(** ** The checksum *)

(** The bit-serial definition of the IEEE checksum. *)
Definition crc32_bits (s : str) : Z := foldl (fun c byte => crc_shifts 8 (c ^! byte)) 0xFFFFFFFF s ^! 0xFFFFFFFF.

Lemma crc_step_nonneg c byte : 0 <= c -> is_u8 byte -> 0 <= crc_shifts 8 (c ^! byte).
Proof.
  intros Hc Hb. assert (Hx : 0 <= c ^! byte) by (apply Z.lxor_nonneg; unfold is_u8 in Hb; lia).
  revert Hx. generalize (c ^! byte), 8%nat. clear. intros x k. revert x. induction k as [|k IH]; intros x Hx; cbn [crc_shifts]; [done|].
  apply IH. rewrite crc_shift_alt. apply Z.lxor_nonneg. split; intros _; [destruct (Z.odd x); lia|].
  rewrite shr_div by lia. apply Z.div_pos; lia.
Qed.

(** The table-driven checksum of a range is the bit-serial IEEE CRC-32 of
    its bytes; a range outside the buffer panics. *)
Theorem bytes_crc32_correct (b : Bytes) from to line col (R : bytes_rep b) :
  match beans_bytes_crc32 b from to line col with
  | Ok c => 0 <= from <= to /\ to <= b_len b /\ c = crc32_bits (sub_str (contents b) from (to - from))
  | Panic _ l c => ~ (0 <= from <= to /\ to <= b_len b) /\ l = line /\ c = col
  end.
Proof.
  unfold beans_bytes_crc32. destruct (Z.ltb_spec from 0); cbn [orb]; [split; [lia|done]|].
  destruct (Z.ltb_spec to from); cbn [orb]; [split; [lia|done]|].
  destruct (Z.ltb_spec (b_len b) to); cbn [orb]; [split; [lia|done]|]. split; [lia|]. split; [lia|].
  rewrite <-contents_sub by (done || lia). unfold crc32_bits. f_equal.
  assert (Hs : bytes_ok (sub_str (contents b) from (to - from))) by (apply sub_bytes_ok, R).
  assert (Hc : 0 <= 0xFFFFFFFF) by lia. revert Hs Hc. generalize 0xFFFFFFFF.
  generalize (sub_str (contents b) from (to - from)) as s.
  induction s as [|x s IH]; intros c Hs Hc; cbn [foldl]; [done|]. inversion Hs as [|? ? Hx Hs']; subst.
  rewrite crc_step_bits by done. apply IH; [done|]. by apply crc_step_nonneg.
Qed.

(** ** The theorems at a concrete buffer *)

#[local] Instance ex_alloc : Alloc := fun n => if n <? 2 ^ 63 then Some (mem_zero n) else None.

#[local] Instance ex_alloc_laws : AllocLaws.
Proof.
  split; intros n b Hn; unfold rt_alloc, ex_alloc; destruct (Z.ltb_spec n (2 ^ 63)); try done.
  intros [= <-]. by apply mem_zero_len.
Qed.

(** "123456789" in a buffer of capacity 16. *)
Definition ex_bytes : Bytes := mkBytes (lit "123456789" ++ mem_zero 7) 9 16.

Lemma ex_bytes_rep : bytes_rep ex_bytes.
Proof.
  split; [reflexivity|vm_compute; congruence|split; vm_compute; congruence|].
  repeat (constructor; [split; vm_compute; congruence|]). constructor.
Qed.

Lemma bytes_append_correct_witness :
  ends_with (beans_bytes_append ex_bytes Self) (fun b' => contents b' = lit "123456789123456789") /\
  ends_with (beans_bytes_append_int_text ex_bytes (-42)) (fun b' => contents b' = lit "123456789-42").
Proof.
  destruct (bytes_append_correct ex_bytes Self [] (-42) 0 0 1 1 ex_bytes_rep ex_bytes_rep) as (_ & H1 & _ & _ & H2 & _);
    [constructor|split; vm_compute; congruence|split; [lia|vm_compute; congruence]|vm_compute; congruence|].
  split; [exact H1|exact H2].
Defined.

Lemma bytes_resize_correct_witness :
  ends_with (beans_bytes_resize ex_bytes 3 1 1) (fun b' => contents b' = lit "123") /\
  beans_bytes_resize ex_bytes (2 ^ 62 + 1) 1 1 = None.
Proof.
  split.
  - destruct (bytes_resize_correct ex_bytes 3 1 1 ex_bytes_rep) as (_ & H & _); [split; vm_compute; congruence|].
    specialize (H ltac:(lia)). destruct (beans_bytes_resize ex_bytes 3 1 1) as [[b'|m l c]|]; [|exact H..].
    destruct H as (R & Hc & _). split; [exact R|exact Hc].
  - destruct (bytes_resize_correct ex_bytes (2 ^ 62 + 1) 1 1 ex_bytes_rep) as (_ & _ & H & _); [split; vm_compute; congruence|].
    by apply (H 4%nat); [reflexivity|lia|lia].
Defined.

Lemma bytes_access_correct_witness :
  beans_bytes_get ex_bytes 2 1 1 = Ok 51 /\
  beans_bytes_get ex_bytes 9 1 1 = Panic (lit "byte index 9 out of range (len 9)") 1 1.
Proof.
  split.
  - destruct (bytes_access_correct ex_bytes Self 2 0 1 0 0 1 1 ex_bytes_rep ex_bytes_rep) as ([H|H] & _);
      [split; vm_compute; congruence|lia|split; split; vm_compute; congruence|exact H|].
    exfalso. vm_compute in H. by apply H.
  - destruct (bytes_access_correct ex_bytes Self 9 0 1 0 0 1 1 ex_bytes_rep ex_bytes_rep) as ([H|H] & _);
      [split; vm_compute; congruence|lia|split; split; vm_compute; congruence|exact H|].
    exfalso. vm_compute in H. by apply H.
Defined.

Lemma bytes_codec_roundtrip_witness :
  ends_with (beans_bytes_append_varint ex_bytes (-1)) (fun b' =>
    b_len b' = 19 /\ beans_bytes_get_varint b' 9 1 1 = Some (Ok (-1))).
Proof.
  destruct (bytes_codec_roundtrip ex_bytes (-1) 0 1 1 ex_bytes_rep) as (H & _ & _);
    [split; vm_compute; congruence|vm_compute; congruence|].
  destruct (beans_bytes_append_varint ex_bytes (-1)) as [[b'|m l c]|]; [|exact H..].
  destruct H as (R & Hl & _ & _ & Hg). split; [exact R|]. split; [rewrite Hl; vm_compute; reflexivity|exact Hg].
Defined.

Lemma bytes_crc32_correct_witness :
  beans_bytes_crc32 ex_bytes 0 9 1 1 = Ok 0xCBF43926 /\ crc32_bits (lit "123456789") = 0xCBF43926.
Proof.
  pose proof (bytes_crc32_correct ex_bytes 0 9 1 1 ex_bytes_rep) as H.
  destruct (beans_bytes_crc32 ex_bytes 0 9 1 1) as [c|m l c].
  - destruct H as (_ & _ & ->). split; vm_compute; reflexivity.
  - exfalso. destruct H as [H _]. apply H. vm_compute. repeat split; congruence.
Defined.
