(* ===== verification/Heap.v ===== *)
(** * Heap: reference-counted objects

    [runtime/beans_rt.c], object headers, [cc_walk], [beans_retain],
    [beans_release] and the handles on control blocks.  The heap is a map from
    addresses to objects; an access to an address that is not in it is a use
    after free and has no result ([None]).  The header words are split into
    their fields: [rc] into the count, the finalizer and the immortal bit,
    [meta] into shape, colour and buffer bit.  The model is the single-mutator
    runtime: no thread was spawned, so the shared bit, which only steers the
    paths of threaded programs, and the owner-local buffers are left out.  What a deinit body does is a parameter. *)

From stdpp Require Import gmap.
From S2P Require Import Prelude Mem ListRt MapRt.

Open Scope c_scope.

(** ** Objects *)

Inductive color : Type := CC_BLACK | CC_GRAY | CC_WHITE | CC_PURPLE.

#[export] Instance color_eq_dec : EqDecision color.
Proof. solve_decision. Defined.

(** [PFixed]: the bytes of a class object or box, and the pointer offsets of
    its descriptor when the class is too wide for the header mask. *)
Inductive payload : Type :=
  | PFixed (bytes : str) (extended : option (list Z))
  | PList (l : BList)
  | PMap (m : BMap Z)
  | PWideMap (m : BMap str) (value_ptr_mask : Z)
  | PChan (q : str) (head count cap stride ptr_mask : Z)
  | PMutex (inner : Z)
  | PHandle (ctrl : Z)
  | PArena (data : str) (len stride ptr_mask : Z).

(** [h_shape]: the kind in bits 0-2, the extra bits above. *)
Record obj : Type := mkObj {
  o_count : Z;
  o_fin : bool;
  o_immortal : bool;
  o_shape : Z;
  o_color : color;
  o_buf : bool;
  o_pay : payload
}.

Definition set_count (o : obj) (n : Z) : obj :=
  mkObj n (o_fin o) (o_immortal o) (o_shape o) (o_color o) (o_buf o) (o_pay o).
Definition cc_set_color (o : obj) (c : color) : obj :=
  mkObj (o_count o) (o_fin o) (o_immortal o) (o_shape o) c (o_buf o) (o_pay o).
Definition set_buf (o : obj) (b : bool) : obj :=
  mkObj (o_count o) (o_fin o) (o_immortal o) (o_shape o) (o_color o) b (o_pay o).
Definition set_fin (o : obj) (b : bool) : obj :=
  mkObj (o_count o) b (o_immortal o) (o_shape o) (o_color o) (o_buf o) (o_pay o).

Definition o_kind (o : obj) : Z := o_shape o &! 7.
Definition o_extra (o : obj) : Z := o_shape o >>! 3.

Definition RT_EXTENDED_MASK : Z := 2 ^ RT_MASK_SLOTS - 1.

(** ** The pointers of an object *)

Definition rt_extended_child (p : str) (offset : Z) : Z := rt_load_le (sub_str p offset 8) 8.

Definition masked (value : str) (mask : Z) (enc : bool) : list Z :=
  retain_slots (Z.to_nat RT_MASK_SLOTS) value mask 0 enc.

Definition non_null (ps : list Z) : list Z := List.filter (fun p => negb (p =? 0)) ps.

Definition elem_stride (stride : Z) : Z :=
  if stride <? 0 then - stride else if stride =? 0 then 8 else stride.

(** The [i]-th element of [stride] bytes, for [i < len]. *)
Definition elements (data : str) (len stride : Z) : list str :=
  (fun i => sub_str data (Z.of_nat i * stride) stride) <$> seq 0 (Z.to_nat len).

(** The children [cc_walk] hands to its visitor, in order. *)
Definition cc_walk (o : obj) : list Z :=
  let kind := o_kind o in
  let extra := o_extra o in
  match o_pay o with
  | PFixed bytes extended =>
      if negb (kind =? 1) then []
      else if extra =? RT_EXTENDED_MASK then
        match extended with None => [] | Some offsets => non_null (rt_extended_child bytes <$> offsets) end
      else masked bytes extra false
  | PList l =>
      if negb (kind =? 2) || (extra &! 1 =? 0) then []
      else concat ((fun e => masked e (l_ptr_mask l) (l_stride l <? 0)) <$>
        elements (l_data l) (l_len l) (elem_stride (l_stride l)))
  | PMap m =>
      if negb (kind =? 3) then []
      else concat ((fun e => (if extra &! 1 =? 0 then [] else non_null [fst e]) ++
                             (if extra &! 2 =? 0 then [] else non_null [snd e])) <$>
        take (Z.to_nat (m_used m)) (m_data m))
  | PWideMap m mask =>
      if negb (kind =? 3) then []
      else concat ((fun e => (if extra &! 1 =? 0 then [] else non_null [fst e]) ++
                             (if extra &! 2 =? 0 then [] else masked (snd e) mask false)) <$>
        take (Z.to_nat (m_used m)) (m_data m))
  | PChan q head count cap stride mask =>
      if negb (kind =? 4) || (extra &! 1 =? 0) then []
      else
        let width := if stride <? 0 then - stride else stride in
        concat ((fun i => masked (sub_str q (Z.rem (head + Z.of_nat i) cap * width) width) mask (stride <? 0)) <$>
          seq 0 (Z.to_nat count))
  | PMutex inner => if negb (kind =? 5) || (extra &! 1 =? 0) then [] else non_null [inner]
  | PHandle _ => []
  | PArena data len stride mask =>
      if negb (kind =? 7) || (extra &! 1 =? 0) then []
      else concat ((fun e => masked e mask (stride <? 0)) <$> elements data len (elem_stride stride))
  end.

(** Could this shape sit on a cycle? *)
Definition cyclic (o : obj) : bool :=
  let kind := o_kind o in
  let extra := o_extra o in
  ((kind =? 1) && negb (extra =? 0)) || ((kind =? 3) && negb (extra &! 3 =? 0)) ||
  (((kind =? 2) || (kind =? 4) || (kind =? 5) || (kind =? 7)) && negb (extra &! 1 =? 0)).

(** ** The runtime state *)

Record BSharedCtrl : Type := mkCtrl { c_strong : Z; c_weak : Z; c_value : Z; c_value_ptr : Z }.

(** [weak_entries]: the table from objects to the control blocks of their weak
    handles. *)
Record rt : Type := mkRt {
  objs : gmap Z obj;
  ctrls : gmap Z BSharedCtrl;
  weak_entries : gmap Z Z;
  cc_roots : list Z;
  cc_threshold : Z;
  cc_walk_min : Z;
  cc_pending : bool;
  cc_collecting : bool;
  beans_in_deinit : Z
}.

Definition with_objs (h : rt) (os : gmap Z obj) : rt :=
  mkRt os (ctrls h) (weak_entries h) (cc_roots h) (cc_threshold h) (cc_walk_min h)
    (cc_pending h) (cc_collecting h) (beans_in_deinit h).
Definition with_ctrls (h : rt) (cs : gmap Z BSharedCtrl) (ws : gmap Z Z) : rt :=
  mkRt (objs h) cs ws (cc_roots h) (cc_threshold h) (cc_walk_min h)
    (cc_pending h) (cc_collecting h) (beans_in_deinit h).
Definition with_roots (h : rt) (rs : list Z) (pending : bool) : rt :=
  mkRt (objs h) (ctrls h) (weak_entries h) rs (cc_threshold h) (cc_walk_min h)
    pending (cc_collecting h) (beans_in_deinit h).
Definition with_gates (h : rt) (threshold walk_min : Z) : rt :=
  mkRt (objs h) (ctrls h) (weak_entries h) (cc_roots h) threshold walk_min
    false (cc_collecting h) (beans_in_deinit h).
Definition with_flags (h : rt) (collecting : bool) (in_deinit : Z) : rt :=
  mkRt (objs h) (ctrls h) (weak_entries h) (cc_roots h) (cc_threshold h) (cc_walk_min h)
    (cc_pending h) collecting in_deinit.

(** ** Control blocks *)

(** [rt_ctrl_fetch_sub(&ctrl->weak) == 1]: the last hold frees the block. *)
Definition ctrl_drop_weak (cs : gmap Z BSharedCtrl) (c : Z) (k : BSharedCtrl) : gmap Z BSharedCtrl :=
  if c_weak k =? 1 then delete c cs
  else <[c := mkCtrl (c_strong k) (c_weak k - 1) (c_value k) (c_value_ptr k)]> cs.

(** The blocks after a handle's shell died, and the payload it hands back. *)
Definition shared_shell_drop (cs : gmap Z BSharedCtrl) (c extra : Z) : option (gmap Z BSharedCtrl * option Z) :=
  k ← cs !! c;
  if negb (extra &! 1 =? 0) then Some (ctrl_drop_weak cs c k, None)
  else
    let strong := c_strong k - 1 in
    if c_strong k =? 1 then
      let child := if (c_value_ptr k =? 0) || (c_value k =? 0) then None else Some (c_value k) in
      Some (ctrl_drop_weak cs c (mkCtrl strong (c_weak k) 0 (c_value_ptr k)), child)
    else Some (<[c := mkCtrl strong (c_weak k) (c_value k) (c_value_ptr k)]> cs, None).

(** The box goes; the children are not touched. *)
Definition cc_free_shell (h : rt) (p : Z) : option (rt * option Z) :=
  o ← objs h !! p;
  let h := with_objs h (delete p (objs h)) in
  match o_pay o with
  | PHandle c =>
      if (o_kind o =? 6) && negb (o_extra o &! 2 =? 0) then
        '(cs, child) ← shared_shell_drop (ctrls h) c (o_extra o);
        Some (with_ctrls h cs (weak_entries h), child)
      else Some (h, None)
  | _ => Some (h, None)
  end.

(** Every handle on a dying object reads "gone"; the table's hold is dropped. *)
Definition rt_weak_invalidate (h : rt) (p : Z) : option rt :=
  match weak_entries h !! p with
  | None => Some h
  | Some c =>
      k ← ctrls h !! c;
      let k := mkCtrl (c_strong k) (c_weak k) 0 (c_value_ptr k) in
      Some (with_ctrls h (ctrl_drop_weak (ctrls h) c k) (delete p (weak_entries h)))
  end.

(** ** Counting *)

Definition beans_retain (h : rt) (p : Z) : option rt :=
  if p =? 0 then Some h
  else
    o ← objs h !! p;
    Some (if o_immortal o then h else with_objs h (<[p := set_count o (o_count o + 1)]> (objs h))).

(** [cc_visit_push] over the children: the work stack's top is its head. *)
Fixpoint push_kids (os : gmap Z obj) (kids st : list Z) : option (list Z) :=
  match kids with
  | [] => Some st
  | c :: kids => o ← os !! c; push_kids os kids (if o_immortal o then st else c :: st)
  end.

(** Park a candidate: purple and buffered; a new one enters the root buffer. *)
Definition cc_possible_root (h : rt) (p : Z) : option rt :=
  o ← objs h !! p;
  let h := with_objs h (<[p := set_buf (cc_set_color o CC_PURPLE) true]> (objs h)) in
  Some (if o_buf o then h
        else
          let roots := cc_roots h ++ [p] in
          with_roots h roots (if cc_threshold h <=? Z.of_nat (length roots) then true else cc_pending h)).

(** The rest of a death: the children go to the work stack, the shell is given
    back or, if the root buffer still points at it, left as a black husk. *)
Definition rt_finish_death (h : rt) (p : Z) (st : list Z) : option (rt * list Z) :=
  o ← objs h !! p;
  st ← push_kids (objs h) (cc_walk o) st;
  if o_buf o then Some (with_objs h (<[p := cc_set_color o CC_BLACK]> (objs h)), st)
  else
    '(h, child) ← cc_free_shell h p;
    Some (h, match child with Some c => c :: st | None => st end).

Section release.
(** What the deinit body of an object does to the state. *)
Context (deinit : Z -> rt -> option rt).

(** The body runs on an object that counts one reference and no longer has a
    finalizer; afterwards its count is what it was. *)
Definition beans_do_deinit (h : rt) (p : Z) : option rt :=
  o ← objs h !! p;
  let n := o_count o in
  let h := with_objs h (<[p := set_fin (set_count o (n + 1)) false]> (objs h)) in
  h ← deinit p (with_flags h (cc_collecting h) (beans_in_deinit h + 1));
  o ← objs h !! p;
  Some (with_flags (with_objs h (<[p := set_fin (set_count o n) false]> (objs h)))
    (cc_collecting h) (beans_in_deinit h - 1)).

Fixpoint release_loop (fuel : nat) (h : rt) (st : list Z) : option rt :=
  match st with
  | [] => Some h
  | p :: st =>
      match fuel with
      | O => None
      | S fuel =>
          o ← objs h !! p;
          if o_immortal o then release_loop fuel h st
          else
            let n := o_count o - 1 in
            let h := with_objs h (<[p := set_count o n]> (objs h)) in
            if n =? 0 then
              h ← rt_weak_invalidate h p;
              h ← (if o_fin o then beans_do_deinit h p else Some h);
              '(h, st) ← rt_finish_death h p st;
              release_loop fuel h st
            else
              h ← (if cyclic o then cc_possible_root h p else Some h);
              release_loop fuel h st
      end
  end.

Definition beans_release (fuel : nat) (h : rt) (p : Z) : option rt :=
  if p =? 0 then Some h else release_loop fuel h [p].

(** [rt_owed_stack_drain]: the releases a frame still owes, in order. *)
Fixpoint release_all_owed (fuel : nat) (h : rt) (ps : list Z) : option rt :=
  match ps with
  | [] => Some h
  | p :: ps => h ← beans_release fuel h p; release_all_owed fuel h ps
  end.

End release.
