(* ===== verification/HeapSum.v ===== *)
(** * HeapSum: counting references

    Sums of integer functions over finite sets of addresses, and the number
    of occurrences of an address in a list.  The reference counts of the heap
    and the bookkeeping of trial deletion are stated with them. *)

From stdpp Require Import gmap.
From S2P Require Import Prelude.

Implicit Types (D : gset Z) (f g : Z -> Z) (x p c : Z) (l : list Z).

(** [dsum D f] is the sum of [f p] over the addresses [p] of [D]. *)
Definition dsum (D : gset Z) (f : Z -> Z) : Z := foldr (fun p acc => f p + acc) 0 (elements D).

(** [occ x l] is how often [x] occurs in [l]. *)
Definition occ (x : Z) (l : list Z) : Z := foldr (fun y acc => (if decide (y = x) then 1 else 0) + acc) 0 l.

(** ** Occurrences *)

Lemma occ_nil x : occ x [] = 0.
Proof. done. Qed.

Lemma occ_cons x y l : occ x (y :: l) = (if decide (y = x) then 1 else 0) + occ x l.
Proof. done. Qed.

Lemma occ_app x l l' : occ x (l ++ l') = occ x l + occ x l'.
Proof. induction l as [|y l IH]; [done|]. rewrite <-app_comm_cons, !occ_cons, IH. lia. Qed.

Lemma occ_nonneg x l : 0 <= occ x l.
Proof. induction l as [|y l IH]; [done|]. rewrite occ_cons. case_decide; lia. Qed.

Lemma occ_pos x l : 0 < occ x l <-> x ∈ l.
Proof.
  induction l as [|y l IH].
  - rewrite occ_nil. split; [lia|]. intros H%elem_of_nil. done.
  - rewrite occ_cons, elem_of_cons, <-IH. pose proof (occ_nonneg x l).
    case_decide; naive_solver lia.
Qed.

Lemma occ_zero x l : x ∉ l -> occ x l = 0.
Proof. intros H. pose proof (occ_nonneg x l). rewrite <-occ_pos in H. lia. Qed.

Lemma occ_nodup x l : NoDup l -> x ∈ l -> occ x l = 1.
Proof.
  induction 1 as [|y l Hy Hnd IH]; [by intros ?%elem_of_nil|].
  rewrite elem_of_cons, occ_cons. intros [<-|Hx].
  - rewrite decide_True, occ_zero by done. lia.
  - rewrite decide_False, IH by (done || set_solver). lia.
Qed.

Lemma occ_perm x l l' : l ≡ₚ l' -> occ x l = occ x l'.
Proof. induction 1; rewrite ?occ_cons; try case_decide; try case_decide; lia. Qed.

Lemma occ_rev x l : occ x (rev l) = occ x l.
Proof. apply occ_perm. rewrite rev_alt, rev_append_rev, app_nil_r. symmetry. apply Permutation_rev. Qed.

Lemma occ_filter (P : Z -> bool) x l : P x = true -> occ x (List.filter P l) = occ x l.
Proof.
  intros HP. induction l as [|y l IH]; [done|]. cbn [List.filter]. rewrite occ_cons.
  destruct (P y) eqn:Hy; rewrite ?occ_cons, IH; [done|].
  rewrite decide_False; [lia|]. congruence.
Qed.

(** ** Sums *)

Lemma fold_perm f l l' : l ≡ₚ l' ->
  foldr (fun p acc => f p + acc) 0 l = foldr (fun p acc => f p + acc) 0 l'.
Proof. induction 1; cbn; lia. Qed.

Lemma dsum_empty f : dsum ∅ f = 0.
Proof. unfold dsum. by rewrite elements_empty. Qed.

Lemma dsum_insert D p f : p ∉ D -> dsum ({[p]} ∪ D) f = f p + dsum D f.
Proof. intros Hp. unfold dsum. by rewrite (fold_perm f _ _ (elements_union_singleton D p Hp)). Qed.

Lemma dsum_remove D p f : p ∈ D -> dsum D f = f p + dsum (D ∖ {[p]}) f.
Proof.
  intros Hp. rewrite <-dsum_insert by set_solver. f_equal.
  apply leibniz_equiv. intros y. destruct (decide (y = p)); set_solver.
Qed.

Lemma dsum_ext D f g : (forall p, p ∈ D -> f p = g p) -> dsum D f = dsum D g.
Proof.
  intros Hfg. unfold dsum. cut (forall p, p ∈ elements D -> f p = g p); [|set_solver].
  induction (elements D) as [|p l IH]; intros Hl; [done|]. cbn.
  rewrite (Hl p), IH; [done|set_solver..].
Qed.

(** Two functions that agree away from one point. *)
Lemma dsum_upd D p f g : p ∈ D -> (forall q, q ∈ D -> q <> p -> f q = g q) ->
  dsum D f = dsum D g + f p - g p.
Proof.
  intros Hp Hfg. rewrite (dsum_remove D p f), (dsum_remove D p g) by done.
  rewrite (dsum_ext (D ∖ {[p]}) f g); [lia|]. intros q Hq. apply Hfg; set_solver.
Qed.

Lemma dsum_plus D f g : dsum D (fun p => f p + g p) = dsum D f + dsum D g.
Proof. unfold dsum. induction (elements D); cbn; lia. Qed.

Lemma dsum_le D f g : (forall p, p ∈ D -> f p <= g p) -> dsum D f <= dsum D g.
Proof.
  intros Hfg. unfold dsum. cut (forall p, p ∈ elements D -> f p <= g p); [|set_solver].
  induction (elements D) as [|p l IH]; intros Hl; [done|]. cbn.
  pose proof (Hl p ltac:(set_solver)). ospecialize (IH _); [set_solver|]. lia.
Qed.

Lemma dsum_nonneg D f : (forall p, p ∈ D -> 0 <= f p) -> 0 <= dsum D f.
Proof.
  intros Hf. replace 0 with (dsum D (fun _ => 0)).
  - by apply dsum_le.
  - unfold dsum. induction (elements D); cbn; lia.
Qed.

Lemma dsum_zero D f : (forall p, p ∈ D -> f p = 0) -> dsum D f = 0.
Proof.
  intros Hf. rewrite (dsum_ext D f (fun _ => 0)) by done.
  unfold dsum. induction (elements D); cbn; lia.
Qed.

(** A positive sum has a positive term. *)
Lemma dsum_pos D f : 0 < dsum D f -> exists p, p ∈ D /\ 0 < f p.
Proof.
  unfold dsum. cut (forall p, p ∈ elements D -> p ∈ D); [|set_solver].
  induction (elements D) as [|p l IH]; cbn; intros Hl Hpos; [lia|].
  destruct (Z.lt_ge_cases 0 (f p)); [exists p; set_solver|].
  apply IH; [set_solver|lia].
Qed.

(** A sum of non-negative terms bounds each of them. *)
Lemma dsum_term D p f : p ∈ D -> (forall q, q ∈ D -> 0 <= f q) -> f p <= dsum D f.
Proof.
  intros Hp Hf. rewrite (dsum_remove D p) by done.
  pose proof (dsum_nonneg (D ∖ {[p]}) f ltac:(set_solver)). lia.
Qed.

Lemma dsum_zero_inv D f p : dsum D f = 0 -> (forall q, q ∈ D -> 0 <= f q) -> p ∈ D -> f p = 0.
Proof. intros H0 Hf Hp. pose proof (dsum_term D p f Hp Hf). pose proof (Hf p Hp). lia. Qed.

Lemma dsum_drop D p f : f p = 0 -> dsum D f = dsum (D ∖ {[p]}) f.
Proof.
  intros Hp. destruct (decide (p ∈ D)).
  - rewrite (dsum_remove D p) by done. lia.
  - f_equal. apply leibniz_equiv. intros y. destruct (decide (y = p)); set_solver.
Qed.

Lemma occ_filter_le (P : Z -> bool) x l : occ x (List.filter P l) <= occ x l.
Proof.
  induction l as [|y l IH]; [done|]. cbn [List.filter]. rewrite occ_cons.
  destruct (P y); rewrite ?occ_cons; case_decide; lia.
Qed.
