(* ===== verification/HeapInv.v ===== *)
(** * HeapInv: the invariant of the counted heap

    What the header words promise: an object's count is the number of slots of
    live objects that hold it plus the references held elsewhere; a count of
    zero is a husk only the root buffer points at; colours at rest are black
    or purple, and purple is buffered.  [refs] is stated over the children
    [cc_walk] visits, so the counts and the walks speak of the same edges. *)

From stdpp Require Import gmap.
From S2P Require Import Prelude Mem ListRt MapRt Heap HeapSum.

Open Scope c_scope.

Implicit Types (os : gmap Z obj) (e : Z -> Z) (st : list Z).

(** ** Views of a heap *)

(** What reference counting never changes. *)
Definition static (o : obj) : obj :=
  mkObj 0 false (o_immortal o) (o_shape o) CC_BLACK false (o_pay o).
Definition skel os : gmap Z obj := static <$> os.

Definition finv os : gmap Z bool := o_fin <$> os.

Definition mortal os (c : Z) : bool :=
  match os !! c with Some o => negb (o_immortal o) | None => false end.
Definition kids os (p : Z) : list Z :=
  match os !! p with Some o => List.filter (mortal os) (cc_walk o) | None => [] end.
Definition cnt os (x : Z) : Z := match os !! x with Some o => o_count o | None => 0 end.
Definition col os (x : Z) : color := match os !! x with Some o => o_color o | None => CC_BLACK end.
Definition bufd os (x : Z) : bool := match os !! x with Some o => o_buf o | None => false end.
Definition alive os (p : Z) : bool := mortal os p && (0 <? cnt os p).

(** The slots of live objects that hold [x]. *)
Definition refs os (x : Z) : Z := dsum (dom os) (fun p => if alive os p then occ x (kids os p) else 0).

(** [e x] is the number of references to [x] held outside the objects. *)
Record heap_ok os e : Prop := {
  ho_count : forall x, mortal os x = true -> cnt os x = refs os x + e x;
  ho_kids : forall x o c, os !! x = Some o -> alive os x = true -> c ∈ cc_walk o -> is_Some (os !! c);
  ho_ext : forall x, 0 <= e x;
  ho_ext_dom : forall x, 0 < e x -> is_Some (os !! x);
  ho_husk : forall x, mortal os x = true -> cnt os x = 0 -> bufd os x = true /\ col os x = CC_BLACK;
  ho_color : forall x, col os x = CC_BLACK \/ col os x = CC_PURPLE /\ bufd os x = true;
  ho_buf : forall x, bufd os x = true -> mortal os x = true
}.

(** ** The views under an update *)

Lemma static_eq o o' : static o = static o' -> cc_walk o = cc_walk o' /\ o_immortal o = o_immortal o'.
Proof.
  destruct o, o'. unfold static. cbn. intros [= -> -> ->]. done.
Qed.

Lemma skel_insert os x o o' : os !! x = Some o -> static o' = static o -> skel (<[x := o']> os) = skel os.
Proof.
  intros Hx Hs. unfold skel. rewrite fmap_insert, Hs. apply insert_id. by rewrite lookup_fmap, Hx.
Qed.

Lemma finv_insert os x o o' : os !! x = Some o -> o_fin o' = o_fin o -> finv (<[x := o']> os) = finv os.
Proof.
  intros Hx Hs. unfold finv. rewrite fmap_insert, Hs. apply insert_id. by rewrite lookup_fmap, Hx.
Qed.

Lemma finv_lookup os os' x o o' : finv os = finv os' -> os !! x = Some o -> os' !! x = Some o' -> o_fin o = o_fin o'.
Proof.
  intros Hs Hx Hx'. assert (H : finv os !! x = finv os' !! x) by (by rewrite Hs).
  unfold finv in H. rewrite !lookup_fmap, Hx, Hx' in H. by injection H.
Qed.

Lemma skel_lookup os os' x : skel os = skel os' ->
  match os !! x, os' !! x with
  | Some o, Some o' => static o = static o'
  | None, None => True
  | _, _ => False
  end.
Proof.
  intros Hs. assert (H : skel os !! x = skel os' !! x) by (by rewrite Hs).
  unfold skel in H. rewrite !lookup_fmap in H.
  destruct (os !! x), (os' !! x); [by apply (inj Some) in H|done|done|done].
Qed.

Lemma skel_mortal os os' x : skel os = skel os' -> mortal os x = mortal os' x.
Proof.
  intros Hs%(skel_lookup _ _ x). unfold mortal. destruct (os !! x), (os' !! x); try done.
  by apply static_eq in Hs as [_ ->].
Qed.

Lemma skel_dom os os' : skel os = skel os' -> dom os = dom os'.
Proof.
  intros Hs. apply set_eq. intros x. rewrite !elem_of_dom. apply (skel_lookup _ _ x) in Hs.
  destruct (os !! x), (os' !! x); try done; split; eauto.
Qed.

Lemma skel_kids os os' p : skel os = skel os' -> kids os p = kids os' p.
Proof.
  intros Hs. pose proof (skel_lookup _ _ p Hs) as Hp. unfold kids.
  destruct (os !! p), (os' !! p); try done. apply static_eq in Hp as [-> _].
  apply filter_ext_in. intros x _. by apply skel_mortal.
Qed.

Lemma mortal_some os x : mortal os x = true -> exists o, os !! x = Some o /\ o_immortal o = false.
Proof. unfold mortal. destruct (os !! x) as [o|]; [|done]. intros H%negb_true_iff. eauto. Qed.

Lemma some_mortal os x o : os !! x = Some o -> mortal os x = negb (o_immortal o).
Proof. unfold mortal. by intros ->. Qed.

Lemma alive_mortal os x : alive os x = true -> mortal os x = true /\ 0 < cnt os x.
Proof. unfold alive. intros [? ?%Z.ltb_lt]%andb_true_iff. done. Qed.

Lemma kids_mortal os p c : c ∈ kids os p -> mortal os c = true.
Proof.
  unfold kids. destruct (os !! p); [|by intros ?%elem_of_nil].
  by intros [_ ?]%list_elem_of_In%filter_In.
Qed.

Lemma mortal_dom os x : mortal os x = true -> x ∈ dom os.
Proof. intros (o & Ho & _)%mortal_some. apply elem_of_dom. eauto. Qed.

Lemma refs_nonneg os x : 0 <= refs os x.
Proof. apply dsum_nonneg. intros p _. destruct (alive os p); [apply occ_nonneg|lia]. Qed.

Lemma refs_term os p x : alive os p = true -> occ x (kids os p) <= refs os x.
Proof.
  intros Hp. unfold refs.
  pose proof (dsum_term (dom os) p (fun p => if alive os p then occ x (kids os p) else 0)) as H.
  cbv beta in H. rewrite Hp in H. apply H.
  - apply mortal_dom. by apply alive_mortal.
  - intros q _. destruct (alive os q); [apply occ_nonneg|lia].
Qed.

Lemma refs_pos os x : 0 < refs os x -> exists p, alive os p = true /\ x ∈ kids os p.
Proof.
  intros (p & _ & Hp)%dsum_pos. exists p. destruct (alive os p); [|lia].
  by rewrite <-occ_pos.
Qed.

(** Single-point updates of the views. *)
Lemma cnt_insert os x o y : cnt (<[x := o]> os) y = if decide (x = y) then o_count o else cnt os y.
Proof. unfold cnt. rewrite lookup_insert. by case_decide. Qed.

Lemma col_insert os x o y : col (<[x := o]> os) y = if decide (x = y) then o_color o else col os y.
Proof. unfold col. rewrite lookup_insert. by case_decide. Qed.

Lemma bufd_insert os x o y : bufd (<[x := o]> os) y = if decide (x = y) then o_buf o else bufd os y.
Proof. unfold bufd. rewrite lookup_insert. by case_decide. Qed.

Lemma cnt_some os x o : os !! x = Some o -> cnt os x = o_count o.
Proof. unfold cnt. by intros ->. Qed.

Lemma col_some os x o : os !! x = Some o -> col os x = o_color o.
Proof. unfold col. by intros ->. Qed.

Lemma bufd_some os x o : os !! x = Some o -> bufd os x = o_buf o.
Proof. unfold bufd. by intros ->. Qed.

(** ** Consequences of the invariant *)

Section ok.
Context {os : gmap Z obj} {e : Z -> Z} (Hok : heap_ok os e).

Lemma ok_cnt_nonneg x : mortal os x = true -> 0 <= cnt os x.
Proof. intros Hx. rewrite (ho_count _ _ Hok x Hx). pose proof (refs_nonneg os x). pose proof (ho_ext _ _ Hok x). lia. Qed.

Lemma ok_kid_alive p c : alive os p = true -> c ∈ kids os p -> alive os c = true.
Proof.
  intros Hp Hc. pose proof (kids_mortal _ _ _ Hc) as Hm. unfold alive. rewrite Hm. cbn.
  apply Z.ltb_lt. rewrite (ho_count _ _ Hok c Hm). pose proof (ho_ext _ _ Hok c).
  pose proof (refs_term os p c Hp) as Ht. apply occ_pos in Hc. lia.
Qed.

Lemma ok_ext_alive x : mortal os x = true -> 0 < e x -> alive os x = true.
Proof.
  intros Hm He. unfold alive. rewrite Hm. cbn. apply Z.ltb_lt. rewrite (ho_count _ _ Hok x Hm).
  pose proof (refs_nonneg os x). lia.
Qed.

Lemma ok_dead x : mortal os x = true -> alive os x = false -> cnt os x = 0.
Proof.
  intros Hm. unfold alive. rewrite Hm. cbn. intros ?%Z.ltb_ge. pose proof (ok_cnt_nonneg x Hm). lia.
Qed.

Lemma ok_walk_dom p o : os !! p = Some o -> alive os p = true -> forall c, c ∈ cc_walk o -> is_Some (os !! c).
Proof. intros Hp Ha c Hc. by apply (ho_kids _ _ Hok p o). Qed.
End ok.

Lemma heap_ok_ext os e e' : (forall x, e x = e' x) -> heap_ok os e -> heap_ok os e'.
Proof.
  intros He [Hc Hk Hn Hd Hh Hcol Hb]. split; try done.
  - intros x Hx. rewrite <-He. by apply Hc.
  - intros x. rewrite <-He. done.
  - intros x. rewrite <-He. apply Hd.
Qed.

(** The same objects with other counts, the same ones alive: the counts moved
    as the outside references did. *)
Lemma heap_ok_recount os os' e e' :
  heap_ok os e -> skel os' = skel os ->
  (forall x, alive os' x = alive os x) ->
  (forall x, mortal os x = true -> cnt os' x - cnt os x = e' x - e x) ->
  (forall x, 0 <= e' x) -> (forall x, 0 < e' x -> is_Some (os !! x)) ->
  (forall x, mortal os x = true -> cnt os' x = 0 -> bufd os' x = true /\ col os' x = CC_BLACK) ->
  (forall x, col os' x = CC_BLACK \/ col os' x = CC_PURPLE /\ bufd os' x = true) ->
  (forall x, bufd os' x = true -> mortal os x = true) ->
  heap_ok os' e'.
Proof.
  intros [Hc Hk Hn Hd Hh Hcol Hb] Hs Ha Hcnt Hn' Hd' Hh' Hcol' Hb'.
  assert (Hrefs : forall x, refs os' x = refs os x).
  { intros x. unfold refs. rewrite (skel_dom _ _ Hs). apply dsum_ext. intros p _.
    by rewrite Ha, (skel_kids _ _ p Hs). }
  assert (Hsome : forall x, is_Some (os !! x) -> is_Some (os' !! x)).
  { intros x. by rewrite <-!elem_of_dom, (skel_dom _ _ Hs). }
  split.
  - intros x Hx. rewrite (skel_mortal _ _ x Hs) in Hx. rewrite Hrefs. specialize (Hc x Hx). specialize (Hcnt x Hx). lia.
  - intros x o c Hx Hal Hcc. apply Hsome. pose proof (skel_lookup _ _ x Hs) as Hl. rewrite Hx in Hl.
    destruct (os !! x) as [o0|] eqn:Hx0; [|done]. apply static_eq in Hl as [Hl _]. rewrite Hl in Hcc.
    rewrite Ha in Hal. by apply (Hk x o0 c).
  - done.
  - auto.
  - intros x Hx. rewrite (skel_mortal _ _ x Hs) in Hx. auto.
  - done.
  - intros x Hx. rewrite (skel_mortal _ _ x Hs). auto.
Qed.
