(* ===== verification/CtrlInv.v ===== *)
(** * CtrlInv: the invariants of the control blocks and of the runtime state

    A block's strong count is the number of strong handles, its weak count
    the number of weak handles, plus one for the side table's entry, plus one
    while any strong handle lives.  The payload of a block counts one
    reference exactly while a strong handle lives ([cref]); a weak-table entry
    names a live object and its block points back at it. *)

From stdpp Require Import gmap.
From S2P Require Import Prelude Mem ListRt MapRt Heap HeapSum HeapInv.

Open Scope c_scope.

Implicit Types (os : gmap Z obj) (cs : gmap Z BSharedCtrl) (ws : gmap Z Z).

(** The block a handle's shell drops, and whether it drops a strong hold. *)
Definition handle_of (o : obj) : option (bool * Z) :=
  match o_pay o with
  | PHandle c => if (o_kind o =? 6) && negb (o_extra o &! 2 =? 0) then Some (o_extra o &! 1 =? 0, c) else None
  | _ => None
  end.
Definition handle os (p : Z) : option (bool * Z) := os !! p ≫= handle_of.

Definition hcount os (b : bool) (c : Z) : Z := dsum (dom os) (fun p => if decide (handle os p = Some (b, c)) then 1 else 0).
Definition wcount ws (c : Z) : Z := dsum (dom ws) (fun x => if decide (ws !! x = Some c) then 1 else 0).

Definition holds (k : BSharedCtrl) (x : Z) : bool :=
  (0 <? c_strong k) && negb (c_value_ptr k =? 0) && negb (x =? 0) && (c_value k =? x).
Definition cref cs (x : Z) : Z :=
  dsum (dom cs) (fun c => match cs !! c with Some k => if holds k x then 1 else 0 | None => 0 end).

Definition live os (x : Z) : Prop := exists o, os !! x = Some o /\ (o_immortal o = true \/ 0 < o_count o).

(** Holds that a frame took on a block for a handle it is about to allocate:
    the allocation may collect before the handle exists. *)
Class Holds := {
  held : bool -> Z -> Z;
  held_object : Z -> bool;
  held_nonneg : forall b c, 0 <= held b c;
  held_object_held : forall c, held_object c = true -> 0 < held false c
}.

Section holds.
Context {HH : Holds}.

Record ctrl_ok os cs ws : Prop := {
  co_strong : forall c k, cs !! c = Some k -> c_strong k = hcount os true c + held true c;
  co_weak : forall c k, cs !! c = Some k ->
    c_weak k = (if 0 <? c_strong k then 1 else 0) + (hcount os false c + held false c) + wcount ws c /\ 0 < c_weak k;
  co_handle : forall b c, 0 < hcount os b c + held b c -> is_Some (cs !! c);
  co_table : forall x c, ws !! x = Some c ->
    live os x /\ exists k, cs !! c = Some k /\ c_strong k = 0 /\ c_value k = x;
  co_value : forall c k, cs !! c = Some k -> c_strong k = 0 -> c_value k <> 0 -> ws !! c_value k = Some c;
  co_object : forall p o c k, os !! p = Some o -> handle_of o = Some (false, c) -> o_extra o = 7 ->
    cs !! c = Some k -> c_strong k = 0;
  co_held : forall c k, held_object c = true -> cs !! c = Some k -> c_strong k = 0
}.

(** ** Counting handles *)

Lemma handle_some os p o : os !! p = Some o -> handle os p = handle_of o.
Proof. unfold handle. by intros ->. Qed.

Lemma hcount_nonneg os b c : 0 <= hcount os b c.
Proof. apply dsum_nonneg. intros p _. case_decide; lia. Qed.

Lemma wcount_nonneg ws c : 0 <= wcount ws c.
Proof. apply dsum_nonneg. intros p _. case_decide; lia. Qed.

Lemma cref_nonneg cs x : 0 <= cref cs x.
Proof. apply dsum_nonneg. intros c _. destruct (cs !! c) as [k|]; [|done]. destruct (holds k x); lia. Qed.

Lemma hcount_delete os p o b c : os !! p = Some o ->
  hcount os b c = (if decide (handle_of o = Some (b, c)) then 1 else 0) + hcount (delete p os) b c.
Proof.
  intros Hp. unfold hcount. rewrite (dsum_remove (dom os) p) by (apply elem_of_dom; eauto).
  rewrite dom_delete_L, (handle_some _ _ _ Hp). f_equal. apply dsum_ext. intros q Hq.
  unfold handle. rewrite lookup_delete_ne by set_solver. done.
Qed.

Lemma hcount_skel os os' b c : skel os = skel os' -> hcount os b c = hcount os' b c.
Proof.
  intros Hs. unfold hcount. rewrite (skel_dom _ _ Hs). apply dsum_ext. intros p _. f_equal.
  unfold handle. pose proof (skel_lookup _ _ p Hs) as H.
  destruct (os !! p) as [[]|], (os' !! p) as [[]|]; try done. cbn in H. injection H as -> -> ->. done.
Qed.

Lemma handle_skel os os' p : skel os = skel os' -> handle os p = handle os' p.
Proof.
  intros Hs. unfold handle. pose proof (skel_lookup _ _ p Hs) as H.
  destruct (os !! p) as [[]|], (os' !! p) as [[]|]; try done. cbn in H. injection H as -> -> ->. done.
Qed.

Lemma static_handle o o' : static o = static o' -> handle_of o = handle_of o' /\ o_extra o = o_extra o'.
Proof. destruct o, o'. unfold static, handle_of, o_extra, o_kind. cbn. intros [= -> -> ->]. done. Qed.

Lemma hcount_some os p b c : handle os p = Some (b, c) -> 1 <= hcount os b c.
Proof.
  intros Hh. unfold hcount.
  pose proof (dsum_term (dom os) p (fun p => if decide (handle os p = Some (b, c)) then 1 else 0)) as H.
  cbv beta in H. rewrite decide_True in H by done. apply H.
  - unfold handle in Hh. apply elem_of_dom. destruct (os !! p); [eauto|done].
  - intros q _. case_decide; lia.
Qed.

Lemma wcount_delete ws x c c' : ws !! x = Some c ->
  wcount ws c' = (if decide (c = c') then 1 else 0) + wcount (delete x ws) c'.
Proof.
  intros Hx. unfold wcount. rewrite (dsum_remove (dom ws) x) by (apply elem_of_dom; eauto).
  rewrite dom_delete_L, Hx. f_equal.
  - destruct (decide (c = c')) as [->|]; [by rewrite decide_True|]. rewrite decide_False; [done|congruence].
  - apply dsum_ext. intros q Hq. rewrite lookup_delete_ne by set_solver. done.
Qed.

Lemma wcount_some ws x c : ws !! x = Some c -> 1 <= wcount ws c.
Proof.
  intros Hx. rewrite (wcount_delete ws x c c Hx), decide_True by done.
  pose proof (wcount_nonneg (delete x ws) c). lia.
Qed.

Lemma cref_upd cs c k k' x : cs !! c = Some k ->
  cref (<[c := k']> cs) x = cref cs x + (if holds k' x then 1 else 0) - (if holds k x then 1 else 0).
Proof.
  intros Hc. unfold cref. rewrite dom_insert_lookup_L by eauto.
  rewrite (dsum_upd (dom cs) c _ (fun c => match cs !! c with Some k => if holds k x then 1 else 0 | None => 0 end)).
  - cbv beta. rewrite lookup_insert_eq, Hc. done.
  - apply elem_of_dom. eauto.
  - intros q _ Hq. by rewrite lookup_insert_ne.
Qed.

Lemma cref_delete cs c k x : cs !! c = Some k ->
  cref (delete c cs) x = cref cs x - (if holds k x then 1 else 0).
Proof.
  intros Hc. unfold cref. rewrite (dsum_remove (dom cs) c) by (apply elem_of_dom; eauto).
  rewrite dom_delete_L, Hc. rewrite (dsum_ext _ _ (fun c => match cs !! c with Some k => if holds k x then 1 else 0 | None => 0 end)); [lia|].
  intros q Hq. rewrite lookup_delete_ne by set_solver. done.
Qed.

(** Dropping one weak hold: the block's own payload claim moves as [k] says. *)
Lemma cref_drop_weak cs c k k0 x : cs !! c = Some k0 -> c_strong k = 0 ->
  cref (ctrl_drop_weak cs c k) x = cref cs x - (if holds k0 x then 1 else 0).
Proof.
  intros Hc Hk. unfold ctrl_drop_weak. destruct (c_weak k =? 1).
  - by apply cref_delete.
  - rewrite (cref_upd _ _ k0) by done. unfold holds at 1. cbn. rewrite Hk. cbn. lia.
Qed.

Lemma drop_weak_lookup cs c k c' : c' <> c -> ctrl_drop_weak cs c k !! c' = cs !! c'.
Proof.
  intros Hne. unfold ctrl_drop_weak. destruct (c_weak k =? 1);
    [by rewrite lookup_delete_ne|by rewrite lookup_insert_ne].
Qed.

Lemma drop_weak_self cs c k k' : ctrl_drop_weak cs c k !! c = Some k' ->
  c_weak k <> 1 /\ k' = mkCtrl (c_strong k) (c_weak k - 1) (c_value k) (c_value_ptr k).
Proof.
  unfold ctrl_drop_weak. destruct (Z.eqb_spec (c_weak k) 1).
  - by rewrite lookup_delete_eq.
  - rewrite lookup_insert_eq. by intros [= <-].
Qed.

Lemma drop_weak_some cs c k : c_weak k <> 1 -> is_Some (ctrl_drop_weak cs c k !! c).
Proof. intros H. unfold ctrl_drop_weak. rewrite (proj2 (Z.eqb_neq _ _) H), lookup_insert_eq. eauto. Qed.

(** While a strong handle lives the block claims its payload once. *)
Lemma holds_child k x : 0 < c_strong k ->
  occ x (match (if (c_value_ptr k =? 0) || (c_value k =? 0) then None else Some (c_value k)) with
         | Some v => [v] | None => [] end) = if holds k x then 1 else 0.
Proof.
  intros Hs. unfold holds. rewrite (proj2 (Z.ltb_lt _ _) Hs).
  destruct (Z.eqb_spec (c_value_ptr k) 0), (Z.eqb_spec (c_value k) 0), (Z.eqb_spec x 0), (Z.eqb_spec (c_value k) x);
    cbn; try case_decide; try done; try lia; congruence.
Qed.

(** ** The operations *)

Section drop.
Context {os : gmap Z obj} {cs : gmap Z BSharedCtrl} {ws : gmap Z Z} (Hok : ctrl_ok os cs ws).

(** The dying object's entry leaves the table; nothing else is held. *)
Lemma invalidate_table x c k (Hx : ws !! x = Some c) (Hc : cs !! c = Some k) :
  let cs' := ctrl_drop_weak cs c (mkCtrl (c_strong k) (c_weak k) 0 (c_value_ptr k)) in
  ctrl_ok os cs' (delete x ws) /\ forall y, cref cs' y = cref cs y.
Proof.
  destruct (co_table _ _ _ Hok x c Hx) as (Hlive & k0 & Hc0 & Hs0 & Hv0). simplify_eq.
  destruct (co_weak _ _ _ Hok c k Hc) as [Hw Hpos]. rewrite Hs0 in Hw. cbn in Hw.
  pose proof (wcount_delete ws _ c c Hx) as Hwd. rewrite decide_True in Hwd by done.
  pose proof (wcount_nonneg (delete (c_value k) ws) c). pose proof (hcount_nonneg os false c). pose proof (held_nonneg false c).
  assert (Hother : forall y c', ws !! y = Some c' -> y <> c_value k -> c' <> c).
  { intros y c' Hy Hne ->. destruct (co_table _ _ _ Hok y c Hy) as (_ & k' & ? & _ & ?). by simplify_eq. }
  split.
  - split.
    + intros c' k' Hk'. destruct (decide (c' = c)) as [->|Hne].
      * apply drop_weak_self in Hk' as [_ ->]. cbn. by apply (co_strong _ _ _ Hok).
      * rewrite drop_weak_lookup in Hk' by done. by apply (co_strong _ _ _ Hok).
    + intros c' k' Hk'. destruct (decide (c' = c)) as [->|Hne].
      * apply drop_weak_self in Hk' as [Hne ->]. cbn in Hne |- *. rewrite Hs0. cbn. lia.
      * rewrite drop_weak_lookup in Hk' by done. destruct (co_weak _ _ _ Hok c' k' Hk') as [Hw' ?].
        rewrite (wcount_delete ws (c_value k) c c' Hx), decide_False in Hw' by done. lia.
    + intros b c' Hp. destruct (decide (c' = c)) as [->|Hne].
      * apply drop_weak_some. cbn. destruct b; [|lia]. pose proof (co_strong _ _ _ Hok c k Hc). pose proof (held_nonneg true c). lia.
      * rewrite drop_weak_lookup by done. by apply (co_handle _ _ _ Hok b).
    + intros y c' [Hyne Hy]%lookup_delete_Some. destruct (co_table _ _ _ Hok y c' Hy) as (Hl & k' & Hk' & ?).
      split; [done|]. exists k'. rewrite drop_weak_lookup; [done|]. by apply (Hother y).
    + intros c' k' Hk' Hs Hv. destruct (decide (c' = c)) as [->|Hne].
      * apply drop_weak_self in Hk' as [_ ->]. done.
      * rewrite drop_weak_lookup in Hk' by done. pose proof (co_value _ _ _ Hok c' k' Hk' Hs Hv) as Hw'.
        rewrite lookup_delete_ne; [done|]. intros Heq. rewrite <-Heq in Hw'. congruence.
    + intros p o c' k' Hp Hh Hex Hk'. destruct (decide (c' = c)) as [->|Hne].
      * apply drop_weak_self in Hk' as [_ ->]. cbn. exact Hs0.
      * rewrite drop_weak_lookup in Hk' by done. by apply (co_object _ _ _ Hok p o c').
    + intros c' k' Hh Hk'. destruct (decide (c' = c)) as [->|Hne].
      * apply drop_weak_self in Hk' as [_ ->]. done.
      * rewrite drop_weak_lookup in Hk' by done. by apply (co_held _ _ _ Hok c').
  - intros y. rewrite (cref_drop_weak _ _ _ k) by done.
    unfold holds. rewrite Hs0. cbn. lia.
Qed.

(** A shell that is no handle. *)
Lemma shell_none p o (Hp : os !! p = Some o) (Hw : ws !! p = None) :
  handle_of o = None -> ctrl_ok (delete p os) cs ws.
Proof.
  intros Hh. split.
  - intros c k Hk. rewrite (co_strong _ _ _ Hok c k Hk), (hcount_delete os p o) by done.
    rewrite Hh, decide_False by done. lia.
  - intros c k Hk. destruct (co_weak _ _ _ Hok c k Hk) as [Hwk ?]. rewrite (hcount_delete os p o) in Hwk by done.
    rewrite Hh, decide_False in Hwk by done. lia.
  - intros b c Hpos. apply (co_handle _ _ _ Hok b c). rewrite (hcount_delete os p o) by done.
    rewrite Hh, decide_False by done. lia.
  - intros x c Hx. destruct (co_table _ _ _ Hok x c Hx) as ((ox & Hox & Hl) & Hk). split; [|done].
    exists ox. rewrite lookup_delete_ne; [done|]. congruence.
  - apply (co_value _ _ _ Hok).
  - intros q oq c k [_ Hq]%lookup_delete_Some. by apply (co_object _ _ _ Hok q oq).
  - apply (co_held _ _ _ Hok).
Qed.

(** Deleting a handle [(b, c)] from the heap while its block [k] becomes
    [k'] or, with no hold left, goes. *)
Lemma shell_handle p o (b : bool) c k cs' (Hp : os !! p = Some o) (Hw : ws !! p = None)
    (Hh : handle_of o = Some (b, c)) (Hc : cs !! c = Some k) :
  (forall c', c' <> c -> cs' !! c' = cs !! c') ->
  (forall k', cs' !! c = Some k' ->
     c_strong k' = c_strong k - (if b then 1 else 0) /\
     c_weak k' = (if 0 <? c_strong k' then 1 else 0) + (hcount os false c + held false c - if b then 0 else 1) + wcount ws c /\
     0 < c_weak k' /\
     c_value k' = if b && (c_strong k' =? 0) then 0 else c_value k) ->
  (cs' !! c = None -> c_strong k - (if b then 1 else 0) = 0 /\
     hcount os false c + held false c - (if b then 0 else 1) = 0 /\ wcount ws c = 0) ->
  ctrl_ok (delete p os) cs' ws.
Proof.
  intros Hne Hself Hgone.
  assert (Hhc : forall b' c', hcount (delete p os) b' c' =
      hcount os b' c' - if decide ((b, c) = (b', c')) then 1 else 0).
  { intros b' c'. rewrite (hcount_delete os p o b' c' Hp), Hh.
    repeat case_decide; try lia; congruence. }
  pose proof (co_strong _ _ _ Hok c k Hc) as Hstrong.
  pose proof (held_nonneg true c). pose proof (held_nonneg false c). split.
  - intros c' k' Hk'. rewrite Hhc. destruct (decide (c' = c)) as [->|Hn].
    + apply Hself in Hk' as (-> & _). rewrite Hstrong. destruct b; case_decide; simplify_eq; lia.
    + rewrite decide_False by congruence. rewrite Hne in Hk' by done. rewrite (co_strong _ _ _ Hok c' k' Hk'). lia.
  - intros c' k' Hk'. rewrite Hhc. destruct (decide (c' = c)) as [->|Hn].
    + apply Hself in Hk' as (_ & Hwk & ? & _). split; [|done]. rewrite Hwk. destruct b; case_decide; simplify_eq; lia.
    + rewrite decide_False by congruence. rewrite Hne in Hk' by done.
      destruct (co_weak _ _ _ Hok c' k' Hk') as [Hwk ?]. lia.
  - intros b' c' Hq. rewrite Hhc in Hq. destruct (decide (c' = c)) as [->|Hn].
    + destruct (cs' !! c) eqn:Hcs; [eauto|]. destruct (Hgone eq_refl) as (? & ? & _).
      destruct b, b'; case_decide; simplify_eq; lia.
    + rewrite Hne by done. apply (co_handle _ _ _ Hok b' c'). rewrite decide_False in Hq by congruence. lia.
  - intros x c' Hx. destruct (co_table _ _ _ Hok x c' Hx) as ((ox & Hox & Hl) & k' & Hk' & Hs & Hv). split.
    + exists ox. rewrite lookup_delete_ne; [done|congruence].
    + destruct (decide (c' = c)) as [->|Hn]; [|exists k'; by rewrite Hne].
      simplify_eq. pose proof (wcount_some _ _ _ Hx).
      assert (b = false) as ->.
      { destruct b; [|done]. pose proof (hcount_some os p true c) as Hone. unfold handle in Hone.
        rewrite Hp in Hone. specialize (Hone Hh). lia. }
      destruct (cs' !! c) as [k'|] eqn:Hcs; [|destruct (Hgone eq_refl) as (_ & _ & ?); lia].
      destruct (Hself k' eq_refl) as (Hs' & _ & _ & Hz). cbn in Hz. exists k'. split; [done|]. split; [lia|done].
  - intros c' k' Hk' Hs Hv. destruct (decide (c' = c)) as [->|Hn].
    + destruct (Hself k' Hk') as (Hs' & _ & _ & Hz). rewrite Hs in Hz. destruct b; [done|]. cbn in Hz.
      rewrite Hz in *. apply (co_value _ _ _ Hok c k); [done|lia|done].
    + rewrite Hne in Hk' by done. by apply (co_value _ _ _ Hok).
  - intros q oq c' k' [_ Hq]%lookup_delete_Some Hhq Hex Hk'. destruct (decide (c' = c)) as [->|Hn].
    + pose proof (co_object _ _ _ Hok q oq c k Hq Hhq Hex Hc) as Hz. destruct (Hself k' Hk') as [-> _]. rewrite Hz.
      destruct b; [|done]. pose proof (hcount_some os p true c) as Hone. unfold handle in Hone.
      rewrite Hp in Hone. specialize (Hone Hh). lia.
    + rewrite Hne in Hk' by done. by apply (co_object _ _ _ Hok q oq c').
  - intros c' k' Hho Hk'. destruct (decide (c' = c)) as [->|Hn].
    + pose proof (co_held _ _ _ Hok c k Hho Hc) as Hz. destruct (Hself k' Hk') as [-> _]. rewrite Hz.
      destruct b; [|done]. pose proof (hcount_some os p true c) as Hone. unfold handle in Hone.
      rewrite Hp in Hone. specialize (Hone Hh). lia.
    + rewrite Hne in Hk' by done. by apply (co_held _ _ _ Hok c').
Qed.

(** The shell of a handle gives its hold back; what the last strong handle
    hands over is the reference the block held. *)
Lemma shell_drop_ok p o b c (Hp : os !! p = Some o) (Hw : ws !! p = None) (Hh : handle_of o = Some (b, c)) :
  exists cs' child, shared_shell_drop cs c (o_extra o) = Some (cs', child) /\
    ctrl_ok (delete p os) cs' ws /\
    (forall x, cref cs x = cref cs' x + occ x (match child with Some v => [v] | None => [] end)) /\
    (forall v, child = Some v -> v <> 0).
Proof.
  assert (Hhp : handle os p = Some (b, c)) by (by rewrite (handle_some _ _ _ Hp)).
  destruct (co_handle _ _ _ Hok b c) as [k Hc].
  { pose proof (hcount_some _ _ _ _ Hhp). pose proof (held_nonneg b c). lia. }
  pose proof (co_strong _ _ _ Hok c k Hc) as Hs. destruct (co_weak _ _ _ Hok c k Hc) as [Hwk Hpos].
  pose proof (hcount_some _ _ _ _ Hhp) as Hone. pose proof (hcount_nonneg os false c).
  pose proof (wcount_nonneg ws c). pose proof (hcount_nonneg os true c).
  pose proof (held_nonneg true c). pose proof (held_nonneg false c).
  assert (Hb : b = (o_extra o &! 1 =? 0)).
  { unfold handle_of in Hh. destruct (o_pay o); try done. destruct (_ && _); [|done]. by injection Hh as <- _. }
  unfold shared_shell_drop. rewrite Hc. cbn [mbind option_bind]. rewrite <-Hb. destruct b; cbn [negb].
  - destruct (Z.eqb_spec (c_strong k) 1) as [Hk1|Hk1].
    + rewrite Hk1 in Hwk |- *. cbn in Hwk.
      eexists _, _. split; [done|]. split; [|split].
      * apply (shell_handle p o true c k); try done.
        -- intros c' Hn. by apply drop_weak_lookup.
        -- intros k' [Hn ->]%drop_weak_self. cbn in *. change (1 - 1) with 0. cbn. lia.
        -- unfold ctrl_drop_weak. cbn. destruct (Z.eqb_spec (c_weak k) 1); [|by rewrite lookup_insert_eq]. lia.
      * intros x. rewrite (cref_drop_weak _ _ _ k) by done.
        rewrite <-holds_child by lia. lia.
      * intros v. destruct (c_value_ptr k =? 0); cbn; [done|].
        destruct (Z.eqb_spec (c_value k) 0); [done|]. by intros [= <-].
    + eexists _, _. split; [done|]. split; [|split; [|done]].
      * apply (shell_handle p o true c k); try done.
        -- intros c' Hn. by rewrite lookup_insert_ne.
        -- intros k'. rewrite lookup_insert_eq. intros [= <-]. cbn.
           destruct (Z.ltb_spec 0 (c_strong k)); [|lia]. destruct (Z.ltb_spec 0 (c_strong k - 1)); [|lia].
           rewrite (proj2 (Z.eqb_neq (c_strong k - 1) 0)) by lia. lia.
        -- by rewrite lookup_insert_eq.
      * intros x. rewrite (cref_upd _ _ k) by done. rewrite occ_nil. unfold holds. cbn.
        rewrite (proj2 (Z.ltb_lt 0 (c_strong k))), (proj2 (Z.ltb_lt 0 (c_strong k - 1))) by lia. lia.
  - eexists _, _. split; [done|]. split; [|split; [|done]].
    + apply (shell_handle p o false c k); try done.
      * intros c' Hn. by apply drop_weak_lookup.
      * intros k' [Hn ->]%drop_weak_self. cbn in *. lia.
      * unfold ctrl_drop_weak. destruct (Z.eqb_spec (c_weak k) 1); [|by rewrite lookup_insert_eq].
        destruct (Z.ltb_spec 0 (c_strong k)); lia.
    + intros x. rewrite occ_nil. unfold ctrl_drop_weak. destruct (Z.eqb_spec (c_weak k) 1).
      * rewrite (cref_delete _ _ k) by done. unfold holds. destruct (Z.ltb_spec 0 (c_strong k)); cbn; lia.
      * rewrite (cref_upd _ _ k) by done. unfold holds. cbn. lia.
Qed.
End drop.
End holds.

(** * The invariant of the runtime state

    [rt_inv h e]: the heap and the control blocks are in order for the
    references [e] held by code outside the heap, the root buffer lists
    exactly the buffered objects, and every live object is reachable from an
    outside reference or from a purple candidate ([covered]).  The last is
    what makes the collector complete: garbage that counting misses is never
    out of its sight. *)

Implicit Types (e : Z -> Z) (st : list Z) (h : rt).

Section holds.
Context {HH : Holds}.

(** ** Reachability *)

Definition edge os (p c : Z) : Prop := alive os p = true /\ c ∈ kids os p.
Definition anchor os e (x : Z) : Prop :=
  alive os x = true /\ (0 < e x \/ bufd os x = true /\ col os x = CC_PURPLE).
Definition covered os e : Prop :=
  forall x, alive os x = true -> exists y, anchor os e y /\ rtc (edge os) y x.

(** References held by control blocks and by code outside the heap. *)
Definition outside h e (x : Z) : Z := cref (ctrls h) x + e x.

Record rt_ok h e : Prop := {
  ro_heap : heap_ok (objs h) (outside h e);
  ro_ctrl : ctrl_ok (objs h) (ctrls h) (weak_entries h);
  ro_nodup : NoDup (cc_roots h);
  ro_roots : forall x, x ∈ cc_roots h <-> bufd (objs h) x = true;
  ro_null : objs h !! 0 = None
}.

Record rt_inv h e : Prop := {
  ri_ok : rt_ok h e;
  ri_cov : covered (objs h) (outside h e)
}.

(** ** The views of an update that keeps the objects in place *)

Definition same_shape (os os' : gmap Z obj) : Prop :=
  skel os' = skel os /\ (forall x, alive os' x = alive os x).

Lemma skel_edge os os' x y :
  skel os' = skel os -> (forall x, alive os' x = alive os x) -> edge os x y <-> edge os' x y.
Proof. intros Hs Ha. unfold edge. by rewrite Ha, (skel_kids _ _ x Hs). Qed.

Lemma rtc_edge os os' x y :
  skel os' = skel os -> (forall x, alive os' x = alive os x) -> rtc (edge os) x y -> rtc (edge os') x y.
Proof.
  intros Hs Ha. apply rtc_subrel. intros p c. by apply skel_edge.
Qed.

(** No reference is lost and no candidate recoloured. *)
Lemma covered_mono os os' e e' :
  skel os' = skel os -> (forall x, alive os' x = alive os x) ->
  (forall y, anchor os e y -> anchor os' e' y) ->
  covered os e -> covered os' e'.
Proof.
  intros Hs Ha Hanc Hcov x Hx. rewrite Ha in Hx. destruct (Hcov x Hx) as (y & Hy & Hr).
  exists y. split; [by apply Hanc|]. by apply (rtc_edge os).
Qed.

Lemma cnt_alive os x : alive os x = mortal os x && (0 <? cnt os x).
Proof. done. Qed.

(** An object that no live object and no outside reference holds is dead. *)
Lemma rt_inv_ext h e e' : (forall x, e x = e' x) -> rt_inv h e -> rt_inv h e'.
Proof.
  intros He [[Hh Hc Hn Hr H0] Hcov].
  assert (Ho : forall x, outside h e x = outside h e' x) by (intros x; unfold outside; by rewrite He).
  split; [split; try done|].
  - by apply (heap_ok_ext _ (outside h e)).
  - apply (covered_mono (objs h) _ (outside h e)); [done..| |done].
    intros y. unfold anchor. by rewrite Ho.
Qed.

(** An immortal object counts nothing. *)
Lemma rt_inv_immortal h e x : rt_inv h e -> mortal (objs h) x = false -> is_Some (objs h !! x) ->
  forall e', (forall y, y <> x -> e' y = e y) -> 0 <= e' x -> rt_inv h e'.
Proof.
  intros [[Hh Hc Hn Hr H0] Hcov] Hm Hx e' He' Hpos.
  assert (Ho : forall y, y <> x -> outside h e' y = outside h e y).
  { intros y Hy. unfold outside. by rewrite He'. }
  split; [split; try done|].
  - destruct Hh as [h1 h2 h3 h4 h5 h6 h7]. split; try done.
    + intros y Hy. rewrite Ho; [by apply h1|congruence].
    + intros y. destruct (decide (y = x)) as [->|]; [|by rewrite Ho].
      unfold outside. pose proof (cref_nonneg (ctrls h) x). lia.
    + intros y. destruct (decide (y = x)) as [->|]; [done|]. rewrite Ho by done. apply h4.
  - intros y Hy. destruct (Hcov y Hy) as (z & [Hz Hanc] & Hr'). exists z. split; [|done]. split; [done|].
    rewrite Ho; [done|]. intros ->. apply alive_mortal in Hz as [Hz _]. congruence.
Qed.

(** ** One reference to a live object dropped or added *)

Lemma insert_alive os p o n x : os !! p = Some o -> 0 < n -> 0 < o_count o ->
  alive (<[p := set_count o n]> os) x = alive os x.
Proof.
  intros Hp Hn Ho. unfold alive. rewrite (skel_mortal (<[p := set_count o n]> os) os) by (by apply (skel_insert _ _ o)).
  rewrite cnt_insert. case_decide as Hpx; [|done]. subst. rewrite (cnt_some _ _ _ Hp). cbn.
  rewrite (proj2 (Z.ltb_lt 0 n)), (proj2 (Z.ltb_lt 0 _)) by done. done.
Qed.

(** Setting a live object's count to [n > 0]. *)
Lemma heap_ok_count os e e' p o n :
  heap_ok os e -> os !! p = Some o -> o_immortal o = false -> 0 < o_count o -> 0 < n ->
  (forall x, x <> p -> e' x = e x) -> e' p = e p + (n - o_count o) -> 0 <= e' p ->
  heap_ok (<[p := set_count o n]> os) e'.
Proof.
  intros Hok Hp Hi Ho Hn Hne Hep Hpos.
  assert (Hs : skel (<[p := set_count o n]> os) = skel os) by (by apply (skel_insert _ _ o)).
  assert (Hcol : forall x, col (<[p := set_count o n]> os) x = col os x).
  { intros x. rewrite col_insert. case_decide; [|done]. subst. by rewrite (col_some _ _ _ Hp). }
  assert (Hbuf : forall x, bufd (<[p := set_count o n]> os) x = bufd os x).
  { intros x. rewrite bufd_insert. case_decide; [|done]. subst. by rewrite (bufd_some _ _ _ Hp). }
  apply (heap_ok_recount os _ e e'); try done.
  - intros x. by apply insert_alive.
  - intros x Hx. rewrite cnt_insert. case_decide; [subst; rewrite (cnt_some _ _ _ Hp); cbn; lia|].
    rewrite Hne by congruence. lia.
  - intros x. destruct (decide (x = p)) as [->|]; [done|]. rewrite Hne by done. apply (ho_ext _ _ Hok).
  - intros x Hx. destruct (decide (x = p)) as [->|]; [eauto|]. rewrite Hne in Hx by done. by apply (ho_ext_dom _ _ Hok).
  - intros x Hx. rewrite Hbuf, Hcol, cnt_insert. case_decide; [cbn; lia|]. by apply (ho_husk _ _ Hok).
  - intros x. rewrite Hbuf, Hcol. apply (ho_color _ _ Hok).
  - intros x. rewrite Hbuf. apply (ho_buf _ _ Hok).
Qed.

Lemma ctrl_ok_skel os os' cs ws : ctrl_ok os cs ws -> skel os' = skel os ->
  (forall x, live os x -> is_Some (ws !! x) -> live os' x) -> ctrl_ok os' cs ws.
Proof.
  intros [Hs Hw Hh Ht Hv Hob Hhe] Hsk Hl. split.
  - intros c k Hk. rewrite (hcount_skel os' os) by done. by apply Hs.
  - intros c k Hk. rewrite (hcount_skel os' os) by done. by apply Hw.
  - intros b c. rewrite (hcount_skel os' os) by done. apply Hh.
  - intros x c Hx. destruct (Ht x c Hx) as [Hlx Hk]. split; [|done]. apply Hl; eauto.
  - done.
  - intros p o' c k Hp Hho Hex. pose proof (skel_lookup _ _ p Hsk) as Hst. rewrite Hp in Hst.
    destruct (os !! p) as [o|] eqn:Ho; [|done]. apply static_handle in Hst as [Hst1 Hst2].
    apply (Hob p o); congruence.
  - done.
Qed.

Lemma live_alive os x : live os x <-> is_Some (os !! x) /\ (mortal os x = true -> alive os x = true).
Proof.
  unfold live, alive, mortal, cnt. destruct (os !! x) as [o|].
  - destruct (o_immortal o) eqn:Hi; cbn.
    + split; [intros _; split; [eauto|done]|]. intros _. eauto.
    + rewrite Z.ltb_lt. split; [intros (? & [= <-] & [?|?]); [congruence|split; eauto]|].
      intros [_ H]. exists o. auto.
  - split; [by intros (? & ? & _)|]. by intros [[? [=]] _].
Qed.

Lemma live_same os os' x : skel os' = skel os -> (forall x, alive os' x = alive os x) -> live os x -> live os' x.
Proof.
  intros Hs Ha. rewrite !live_alive, Ha, (skel_mortal _ _ _ Hs), <-!elem_of_dom, (skel_dom _ _ Hs). done.
Qed.
End holds.
