(* ===== verification/ReleaseProofs.v ===== *)
(** * ReleaseProofs: what a release cascade does

    One lemma per way a step of [release_loop] can go: an immortal object, a
    count that stays positive, a death.  The loop puts them together. *)

From stdpp Require Import gmap.
From S2P Require Import Prelude Mem ListRt MapRt Heap HeapSum HeapInv CtrlInv.

Open Scope c_scope.

Implicit Types (os : gmap Z obj) (e : Z -> Z) (st : list Z) (h : rt).

Section holds.
Context {HH : Holds}.

Definition plus_list e (l : list Z) (x : Z) : Z := e x + occ x l.

(** What a step leaves alone: the control blocks, the gates and the flags. *)
Definition same_flags h h' : Prop :=
  cc_collecting h' = cc_collecting h /\ beans_in_deinit h' = beans_in_deinit h.

Lemma with_objs_objs h : with_objs h (objs h) = h.
Proof. by destruct h. Qed.

(** ** Retain *)

(** A live object's count moves with the references held outside. *)
Lemma count_inv h e e' p o n : rt_inv h e -> objs h !! p = Some o -> o_immortal o = false -> 0 < o_count o -> 0 < n ->
  (forall x, x <> p -> e' x = e x) -> e' p = e p + (n - o_count o) -> 0 <= e' p ->
  (0 < e p -> 0 < e' p) ->
  rt_inv (with_objs h (<[p := set_count o n]> (objs h))) e' /\
  skel (<[p := set_count o n]> (objs h)) = skel (objs h) /\
  (forall x, alive (<[p := set_count o n]> (objs h)) x = alive (objs h) x).
Proof.
  intros [[Hh Hc Hn Hr H0] Hcov] Ho Hi Hpos Hnpos Hne Hep Hnn Hanc.
  set (os' := <[p := set_count o n]> (objs h)).
  assert (Hs : skel os' = skel (objs h)) by (by apply (skel_insert _ _ o)).
  assert (Ha : forall x, alive os' x = alive (objs h) x) by (intros x; apply insert_alive; [done|lia..]).
  assert (Hbuf : forall x, bufd os' x = bufd (objs h) x).
  { intros x. unfold os'. rewrite bufd_insert. case_decide; [|done]. subst. by rewrite (bufd_some _ _ _ Ho). }
  assert (Hcol : forall x, col os' x = col (objs h) x).
  { intros x. unfold os'. rewrite col_insert. case_decide; [|done]. subst. by rewrite (col_some _ _ _ Ho). }
  pose proof (cref_nonneg (ctrls h) p) as Hcp.
  split; [|done]. split; [split; cbn|]; try done.
  - apply (heap_ok_count _ (outside h e)); try done; unfold outside; cbn.
    + intros x Hx. rewrite Hne by done. lia.
    + lia.
    + lia.
  - apply (ctrl_ok_skel (objs h)); [done..|]. intros x Hl _. by apply (live_same (objs h)).
  - intros x. rewrite Hbuf. apply Hr.
  - unfold os'. rewrite lookup_insert_ne; [done|congruence].
  - cbn. apply (covered_mono (objs h) _ (outside h e)); [done..| |done].
    intros y. unfold anchor. rewrite Ha, Hbuf, Hcol. intros [? [Hy|Hy]]; split; auto. left.
    destruct (decide (y = p)) as [->|Hyp]; [|unfold outside in *; cbn; by rewrite Hne].
    unfold outside in *. cbn. lia.
Qed.

Lemma retain_inv h e p : rt_inv h e -> alive (objs h) p = true -> 0 <= e p ->
  exists h', beans_retain h p = Some h' /\ rt_inv h' (plus_list e [p]) /\
    skel (objs h') = skel (objs h) /\ (forall x, alive (objs h') x = alive (objs h) x) /\ same_flags h h'.
Proof.
  intros Hinv Hp Hep.
  destruct (alive_mortal _ _ Hp) as [Hm Hpos]. destruct (mortal_some _ _ Hm) as (o & Ho & Hi).
  rewrite (cnt_some _ _ _ Ho) in Hpos. unfold beans_retain.
  assert (p <> 0) as Hp0%Z.eqb_neq. { intros ->. rewrite (ro_null _ _ (ri_ok _ _ Hinv)) in Ho. done. }
  rewrite Hp0, Ho. cbn [mbind option_bind]. rewrite Hi.
  destruct (count_inv h e (plus_list e [p]) p o (o_count o + 1) Hinv Ho Hi Hpos) as (Hinv' & Hs & Ha); unfold plus_list.
  - lia.
  - intros x Hx. rewrite occ_cons, decide_False, occ_nil by done. lia.
  - rewrite occ_cons, decide_True, occ_nil by done. lia.
  - pose proof (occ_nonneg p [p]). lia.
  - pose proof (occ_nonneg p [p]). lia.
  - eexists. split; [done|]. split_and!; done.
Qed.

(** One of several references to an object held outside goes. *)
Lemma held_dec h e p o : rt_inv h (plus_list e [p]) -> objs h !! p = Some o -> o_immortal o = false ->
  1 < o_count o -> 0 < e p -> rt_inv (with_objs h (<[p := set_count o (o_count o - 1)]> (objs h))) e.
Proof.
  intros Hinv Ho Hi Hc Hep.
  apply (count_inv h (plus_list e [p])); try done; unfold plus_list; rewrite ?occ_cons, ?occ_nil.
  - lia.
  - lia.
  - intros x Hx. rewrite occ_cons, decide_False, occ_nil by done. lia.
  - rewrite decide_True by done. lia.
  - lia.
Qed.

(** ** Parking *)

Lemma park_ok h e p : rt_ok h e -> alive (objs h) p = true ->
  exists h', cc_possible_root h p = Some h' /\ rt_ok h' e /\
    skel (objs h') = skel (objs h) /\ finv (objs h') = finv (objs h) /\
    (forall x, cnt (objs h') x = cnt (objs h) x) /\ ctrls h' = ctrls h /\ weak_entries h' = weak_entries h /\ same_flags h h' /\
    (col (objs h') p = CC_PURPLE /\ bufd (objs h') p = true) /\
    (forall x, col (objs h) x = CC_PURPLE -> col (objs h') x = CC_PURPLE) /\
    (forall x, bufd (objs h) x = true -> bufd (objs h') x = true).
Proof.
  intros [Hh Hc Hn Hr H0] Hp.
  destruct (alive_mortal _ _ Hp) as [Hm Hpos]. destruct (mortal_some _ _ Hm) as (o & Ho & Hi).
  unfold cc_possible_root. rewrite Ho. cbn [mbind option_bind].
  set (o' := set_buf (cc_set_color o CC_PURPLE) true). set (os' := <[p := o']> (objs h)).
  assert (Hs : skel os' = skel (objs h)) by (by apply (skel_insert _ _ o)).
  assert (Hfin : finv os' = finv (objs h)) by (by apply (finv_insert _ _ o)).
  assert (Hcnt : forall x, cnt os' x = cnt (objs h) x).
  { intros x. unfold os'. rewrite cnt_insert. case_decide; [|done]. subst. by rewrite (cnt_some _ _ _ Ho). }
  assert (Ha : forall x, alive os' x = alive (objs h) x).
  { intros x. unfold alive. by rewrite Hcnt, (skel_mortal _ _ x Hs). }
  assert (Hbuf : forall x, bufd os' x = if decide (p = x) then true else bufd (objs h) x).
  { intros x. unfold os'. by rewrite bufd_insert. }
  assert (Hcol : forall x, col os' x = if decide (p = x) then CC_PURPLE else col (objs h) x).
  { intros x. unfold os'. by rewrite col_insert. }
  assert (Hheap : heap_ok os' (outside h e)).
  { apply (heap_ok_recount (objs h) _ (outside h e)); try done.
    - intros x _. rewrite Hcnt. lia.
    - apply (ho_ext _ _ Hh).
    - apply (ho_ext_dom _ _ Hh).
    - intros x Hx. rewrite Hcnt, Hbuf, Hcol. case_decide; [subst; lia|]. by apply (ho_husk _ _ Hh).
    - intros x. rewrite Hbuf, Hcol. case_decide; [auto|]. apply (ho_color _ _ Hh).
    - intros x. rewrite Hbuf. case_decide; [by subst|]. apply (ho_buf _ _ Hh). }
  assert (Hctrl : ctrl_ok os' (ctrls h) (weak_entries h)).
  { apply (ctrl_ok_skel (objs h)); [done..|]. intros x Hl _. by apply (live_same (objs h)). }
  assert (H0' : os' !! 0 = None) by (unfold os'; rewrite lookup_insert_ne; congruence).
  assert (Hrest : col os' p = CC_PURPLE /\ bufd os' p = true /\
      (forall x, col (objs h) x = CC_PURPLE -> col os' x = CC_PURPLE) /\
      (forall x, bufd (objs h) x = true -> bufd os' x = true)).
  { rewrite Hcol, Hbuf, !decide_True by done. split_and!; try done; intros x; [rewrite Hcol|rewrite Hbuf]; by case_decide. }
  destruct Hrest as (Hr1 & Hr2 & Hr3 & Hr4).
  destruct (o_buf o) eqn:Hb.
  - eexists. split; [done|]. split; [|split_and!; done].
    split; try done. cbn. intros x. rewrite Hbuf. case_decide; [|apply Hr].
    subst. rewrite Hr, (bufd_some _ _ _ Ho). by rewrite Hb.
  - eexists. split; [done|]. split; [|split_and!; done].
    split; try done; cbn.
    + apply NoDup_app. split_and!; [done| |apply NoDup_singleton].
      intros x Hx ->%list_elem_of_singleton. rewrite Hr, (bufd_some _ _ _ Ho) in Hx. congruence.
    + intros x. rewrite elem_of_app, Hr, list_elem_of_singleton, Hbuf. case_decide; naive_solver.
Qed.

Lemma park_inv h e p : rt_inv h e -> alive (objs h) p = true ->
  exists h', cc_possible_root h p = Some h' /\ rt_inv h' e /\
    skel (objs h') = skel (objs h) /\ finv (objs h') = finv (objs h) /\
    (forall x, cnt (objs h') x = cnt (objs h) x) /\ same_flags h h'.
Proof.
  intros [Hok Hcov] Hp.
  destruct (park_ok h e p Hok Hp) as (h' & Hpark & Hok' & Hs & Hfin & Hcnt & Hcs & _ & Hfl & _ & Hcol & Hbuf).
  assert (Ha : forall x, alive (objs h') x = alive (objs h) x).
  { intros x. unfold alive. by rewrite Hcnt, (skel_mortal _ _ x Hs). }
  exists h'. split_and!; try done. split; [done|].
  apply (covered_mono (objs h) _ (outside h e)); [done..| |done].
  intros y [Hy Hor]. split; [by rewrite Ha|]. unfold outside. rewrite Hcs.
  destruct Hor as [?|[? ?]]; [by left|right; auto].
Qed.

(** ** A count that stays positive *)

Lemma land_3 x : x &! 3 = 0 -> (x &! 1 =? 0) = true /\ (x &! 2 =? 0) = true.
Proof.
  intros Hx. replace (x &! 1) with ((x &! 3) &! 1) by (by rewrite <-Z.land_assoc).
  replace (x &! 2) with ((x &! 3) &! 2) by (by rewrite <-Z.land_assoc). by rewrite Hx.
Qed.

Lemma concat_nil {A B} (f : A -> list B) (l : list A) : (forall x, f x = []) -> concat (f <$> l) = [].
Proof. intros Hf. induction l as [|x l IH]; [done|]. cbn. by rewrite Hf, IH. Qed.

(** An object the release path does not park has no child. *)
Lemma not_cyclic_walk o : cyclic o = false -> cc_walk o = [].
Proof.
  unfold cyclic, cc_walk. set (k := o_kind o). set (x := o_extra o).
  intros [[H1 H3]%orb_false_iff H2]%orb_false_iff.
  assert (Hbit : forall n, k = n -> n = 2 \/ n = 4 \/ n = 5 \/ n = 7 -> (x &! 1 =? 0) = true).
  { intros n -> Hn. destruct (x &! 1 =? 0); [done|]. cbn [negb] in H2. rewrite andb_true_r in H2.
    destruct Hn as [->|[->|[->| ->]]]; discriminate H2. }
  assert (Hmap : k = 3 -> (x &! 1 =? 0) = true /\ (x &! 2 =? 0) = true).
  { intros Hk. rewrite Hk in H3. cbn [Z.eqb Pos.eqb andb] in H3. apply land_3. by apply negb_false_iff, Z.eqb_eq in H3. }
  destruct (o_pay o).
  - destruct (Z.eqb_spec k 1); [|done]. cbn [negb andb] in *.
    apply negb_false_iff, Z.eqb_eq in H1. by rewrite H1.
  - destruct (Z.eqb_spec k 2) as [Hk|]; [|done]. by rewrite (Hbit 2 Hk) by auto.
  - destruct (Z.eqb_spec k 3) as [Hk|]; [|done]. destruct (Hmap Hk) as [-> ->]. by apply concat_nil.
  - destruct (Z.eqb_spec k 3) as [Hk|]; [|done]. destruct (Hmap Hk) as [-> ->]. by apply concat_nil.
  - destruct (Z.eqb_spec k 4) as [Hk|]; [|done]. by rewrite (Hbit 4 Hk) by auto.
  - destruct (Z.eqb_spec k 5) as [Hk|]; [|done]. by rewrite (Hbit 5 Hk) by auto.
  - done.
  - destruct (Z.eqb_spec k 7) as [Hk|]; [|done]. by rewrite (Hbit 7 Hk) by auto.
Qed.

(** A reference to [p] goes while others remain: [p] is parked if it could
    sit on a cycle, and a leaf is still reachable from what holds it. *)
Lemma dec_inv h e p o st (He : forall x, 0 <= e x) : rt_inv h (plus_list e (p :: st)) ->
  objs h !! p = Some o -> o_immortal o = false -> 1 < o_count o ->
  exists h', (if cyclic o then cc_possible_root (with_objs h (<[p := set_count o (o_count o - 1)]> (objs h))) p
              else Some (with_objs h (<[p := set_count o (o_count o - 1)]> (objs h)))) = Some h' /\
    rt_inv h' (plus_list e st) /\ skel (objs h') = skel (objs h) /\ finv (objs h') = finv (objs h) /\
    (forall x, cnt (objs h') x = cnt (objs h) x - if decide (p = x) then 1 else 0) /\ same_flags h h'.
Proof.
  intros [[Hh Hc Hn Hr H0] Hcov] Ho Hi Hcount.
  set (os1 := <[p := set_count o (o_count o - 1)]> (objs h)).
  assert (Hs : skel os1 = skel (objs h)) by (by apply (skel_insert _ _ o)).
  assert (Hfin : finv os1 = finv (objs h)) by (by apply (finv_insert _ _ o)).
  assert (Ha : forall x, alive os1 x = alive (objs h) x) by (intros x; apply insert_alive; [done|lia..]).
  assert (Hcnt : forall x, cnt os1 x = cnt (objs h) x - if decide (p = x) then 1 else 0).
  { intros x. unfold os1. rewrite cnt_insert. case_decide; [|lia]. subst. by rewrite (cnt_some _ _ _ Ho). }
  assert (Hbuf : forall x, bufd os1 x = bufd (objs h) x).
  { intros x. unfold os1. rewrite bufd_insert. case_decide; [|done]. subst. by rewrite (bufd_some _ _ _ Ho). }
  assert (Hcol : forall x, col os1 x = col (objs h) x).
  { intros x. unfold os1. rewrite col_insert. case_decide; [|done]. subst. by rewrite (col_some _ _ _ Ho). }
  set (h1 := with_objs h os1).
  assert (Hok1 : rt_ok h1 (plus_list e st)).
  { split; cbn; try done.
    - apply (heap_ok_count _ (outside h (plus_list e (p :: st)))); try done; unfold outside, plus_list; cbn [ctrls h1 with_objs].
      + lia.
      + lia.
      + intros x Hx. rewrite occ_cons, decide_False by done. lia.
      + rewrite occ_cons, decide_True by done. lia.
      + pose proof (He p). pose proof (cref_nonneg (ctrls h) p). pose proof (occ_nonneg p st). lia.
    - apply (ctrl_ok_skel (objs h)); [done..|]. intros x Hl _. by apply (live_same (objs h)).
    - intros x. rewrite Hbuf. apply Hr.
    - unfold os1. rewrite lookup_insert_ne; [done|]. congruence. }
  assert (Halive : alive os1 p = true).
  { rewrite Ha. unfold alive. rewrite (some_mortal _ _ _ Ho), Hi, (cnt_some _ _ _ Ho). cbn. apply Z.ltb_lt. lia. }
  (* away from [p] every anchor stays *)
  assert (Hanc : forall y, y <> p -> anchor (objs h) (outside h (plus_list e (p :: st))) y ->
                 anchor os1 (outside h (plus_list e st)) y).
  { intros y Hy. unfold anchor, outside, plus_list. rewrite Ha, Hbuf, Hcol, occ_cons, decide_False by done. done. }
  destruct (cyclic o) eqn:Hcyc.
  - destruct (park_ok h1 (plus_list e st) p Hok1 Halive) as (h' & Hpark & Hok' & Hs' & Hfin' & Hcnt' & Hcs & Hws & Hfl & Hp' & Hpur & Hbb).
    exists h'. split; [done|]. split; [|split_and!; try done].
    + split; [done|].
      assert (Ha' : forall x, alive (objs h') x = alive (objs h) x).
      { intros x. rewrite <-Ha. unfold alive. by rewrite Hcnt', (skel_mortal _ _ x Hs'). }
      intros x Hx. rewrite Ha' in Hx. destruct (Hcov x Hx) as (y & Hy & Hyx). exists y.
      split; [|apply (rtc_edge (objs h)); [etrans; [exact Hs'|exact Hs]|done|done]].
      destruct (decide (y = p)) as [->|Hyp].
      * split; [by rewrite Ha', <-Ha|]. right. by destruct Hp'.
      * destruct (Hanc y Hyp Hy) as [Hay Hor]. split; [by rewrite Ha', <-Ha|].
        unfold outside. rewrite Hcs. destruct Hor as [?|[? ?]]; [by left|right]. auto.
    + etrans; [exact Hs'|exact Hs].
    + etrans; [exact Hfin'|exact Hfin].
    + intros x. by rewrite Hcnt'.
  - exists h1. split; [done|]. split; [|split_and!; done]. split; [done|].
    (* [p] is a leaf that something else still holds *)
    assert (Hleaf : forall x, rtc (edge (objs h)) p x -> x = p).
    { intros x Hpx. inversion Hpx as [|? z ? [_ Hz] _]; [done|]. subst. unfold kids in Hz. rewrite Ho in Hz.
      rewrite (not_cyclic_walk o Hcyc) in Hz. by apply elem_of_nil in Hz. }
    assert (Hpp : exists y, anchor os1 (outside h (plus_list e st)) y /\ rtc (edge os1) y p).
    { destruct (decide (0 < outside h (plus_list e st) p)) as [Hpos|Hzero].
      - exists p. split; [split; [done|by left]|done].
      - assert (Hrefs : 0 < refs os1 p).
        { pose proof (ho_count _ _ (ro_heap _ _ Hok1) p) as Hcp. change (objs h1) with os1 in Hcp.
          rewrite (skel_mortal _ _ p Hs), (some_mortal _ _ _ Ho), Hi in Hcp. specialize (Hcp eq_refl). rewrite Hcnt, decide_True, (cnt_some _ _ _ Ho) in Hcp by done.
          change (outside h1) with (outside h) in Hcp. lia. }
        apply refs_pos in Hrefs as (q & Hq & Hpq). rewrite Ha in Hq.
        destruct (Hcov q Hq) as (y & Hy & Hyq).
        destruct (decide (y = p)) as [->|Hyp].
        + apply Hleaf in Hyq as ->. rewrite (skel_kids _ _ p Hs) in Hpq. unfold kids in Hpq. rewrite Ho, (not_cyclic_walk o Hcyc) in Hpq. by apply elem_of_nil in Hpq.
        + exists y. split; [by apply Hanc|]. apply (rtc_edge (objs h)); [done..|].
          eapply rtc_r; [done|]. split; [done|]. by rewrite <-(skel_kids _ _ q Hs). }
    intros x Hx. change (objs h1) with os1 in *. rewrite Ha in Hx. destruct (Hcov x Hx) as (y & Hy & Hyx).
    destruct (decide (y = p)) as [->|Hyp]; [by apply Hleaf in Hyx as ->|].
    exists y. split; [by apply Hanc|]. by apply (rtc_edge (objs h)).
Qed.
End holds.

(** * The death of one object

    An object whose last reference goes hands its children to the work stack
    and leaves the heap, or stays as a husk while the root buffer points at
    it; either way the invariant holds for the remaining heap and the longer
    stack. *)

Section holds.
Context {HH : Holds}.

(** ** The work stack *)

Lemma push_kids_spec os l st : (forall c, c ∈ l -> is_Some (os !! c)) ->
  push_kids os l st = Some (rev (List.filter (mortal os) l) ++ st).
Proof.
  revert st. induction l as [|c l IH]; intros st Hl; [done|]. cbn [push_kids List.filter].
  destruct (Hl c) as [o Ho]; [set_solver|]. rewrite Ho. cbn [mbind option_bind].
  rewrite IH by set_solver. rewrite (some_mortal _ _ _ Ho). destruct (o_immortal o); cbn [negb]; [done|].
  cbn [rev]. by rewrite <-app_assoc.
Qed.

(** ** The heap without [p] *)

Definition husk_of (o : obj) : obj := cc_set_color (set_count o 0) CC_BLACK.

Section death.
Context {os os' : gmap Z obj} {e e' : Z -> Z} {p : Z} {o : obj}.
Context (Hok : heap_ok os e) (Hp : os !! p = Some o) (Hi : o_immortal o = false) (Hone : o_count o = 1) (Hep : 1 <= e p).
Context (Hother : forall q, q <> p -> os' !! q = os !! q).
Context (Hself : os' !! p = None \/ os' !! p = Some (husk_of o) /\ o_buf o = true).
Context (He' : forall x, e' x = e x - (if decide (p = x) then 1 else 0) + occ x (kids os p)).

Lemma death_mortal_p : mortal os p = true.
Proof. by rewrite (some_mortal _ _ _ Hp), Hi. Qed.

Lemma death_counts : refs os p = 0 /\ e p = 1.
Proof.
  pose proof (ho_count _ _ Hok p death_mortal_p) as Hc. rewrite (cnt_some _ _ _ Hp), Hone in Hc.
  pose proof (refs_nonneg os p). lia.
Qed.

Lemma death_unheld q : alive os q = true -> p ∉ kids os q.
Proof.
  intros Hq Hin. pose proof (refs_term os q p Hq). apply occ_pos in Hin. destruct death_counts. lia.
Qed.

Lemma death_alive_p : alive os p = true.
Proof. unfold alive. rewrite death_mortal_p, (cnt_some _ _ _ Hp), Hone. done. Qed.

Lemma death_mortal q : q <> p -> mortal os' q = mortal os q.
Proof. intros Hq. unfold mortal. by rewrite Hother. Qed.

Lemma death_cnt q : q <> p -> cnt os' q = cnt os q.
Proof. intros Hq. unfold cnt. by rewrite Hother. Qed.

Lemma death_alive q : alive os' q = if decide (q = p) then false else alive os q.
Proof.
  case_decide as Hq; [|unfold alive; by rewrite death_mortal, death_cnt]. subst. unfold alive, mortal, cnt.
  destruct Hself as [-> | [-> _]]; [done|]. apply andb_false_r.
Qed.

Lemma death_kids q : alive os q = true -> q <> p -> kids os' q = kids os q.
Proof.
  intros Hq Hne. pose proof (death_unheld q Hq) as Hn. unfold kids in *. rewrite Hother by done.
  destruct (os !! q) as [oq|]; [|done]. apply filter_ext_in. intros x Hx.
  apply death_mortal. intros ->. apply Hn. apply list_elem_of_In, filter_In.
  split; [by apply list_elem_of_In|apply death_mortal_p].
Qed.

Lemma death_refs x : refs os' x = refs os x - occ x (kids os p).
Proof.
  unfold refs. rewrite (dsum_drop (dom os') p) by (by rewrite death_alive, decide_True).
  rewrite (dsum_remove (dom os) p) by (by apply mortal_dom, death_mortal_p).
  rewrite death_alive_p. replace (dom os' ∖ {[p]}) with (dom os ∖ {[p]}).
  - rewrite (dsum_ext _ _ (fun p => if alive os p then occ x (kids os p) else 0)); [lia|].
    intros q Hq. rewrite death_alive, decide_False by set_solver.
    destruct (alive os q) eqn:Ha; [|done]. rewrite death_kids; [done|done|set_solver].
  - apply set_eq. intros q. rewrite !elem_of_difference, !elem_of_dom, elem_of_singleton.
    destruct (decide (q = p)); [naive_solver|]. by rewrite Hother.
Qed.

Lemma heap_death : heap_ok os' e'.
Proof.
  pose proof (refs_term os p p death_alive_p) as Htp. destruct death_counts as [Hr0 He1].
  assert (Hpp : occ p (kids os p) = 0) by (pose proof (occ_nonneg p (kids os p)); lia).
  split.
  - intros x Hx. rewrite death_refs, He'. destruct (decide (p = x)) as [<-|Hne].
    + rewrite Hr0, He1, Hpp. unfold cnt. destruct Hself as [H|[H _]]; rewrite H; [done|]. cbn. lia.
    + rewrite death_cnt by done. rewrite death_mortal in Hx by done. rewrite (ho_count _ _ Hok x Hx). lia.
  - intros x ox c Hx Ha Hc. rewrite death_alive in Ha. case_decide as Hxp; [done|].
    rewrite Hother in Hx by done. destruct (decide (c = p)) as [->|Hcp].
    + destruct (death_unheld x Ha). unfold kids. rewrite Hx. apply list_elem_of_In, filter_In.
      split; [by apply list_elem_of_In|apply death_mortal_p].
    + rewrite Hother by done. by apply (ho_kids _ _ Hok x ox).
  - intros x. rewrite He'. pose proof (ho_ext _ _ Hok x). pose proof (occ_nonneg x (kids os p)).
    case_decide; [subst; lia|lia].
  - intros x. rewrite He'. destruct (decide (p = x)) as [<-|Hne]; [lia|]. intros Hpos. rewrite Hother by done.
    destruct (decide (0 < e x)) as [Hex|Hex]; [by apply (ho_ext_dom _ _ Hok)|].
    assert (Hk : x ∈ kids os p) by (apply occ_pos; pose proof (ho_ext _ _ Hok x); lia).
    apply kids_mortal, mortal_some in Hk as (ox & -> & _). eauto.
  - intros x Hx Hc. unfold bufd, col. destruct (decide (x = p)) as [->|Hne].
    + destruct Hself as [H|[H Hb]]; rewrite H; [|done]. unfold mortal in Hx. by rewrite H in Hx.
    + rewrite death_mortal in Hx by done. rewrite death_cnt in Hc by done. rewrite Hother by done.
      by apply (ho_husk _ _ Hok).
  - intros x. unfold col, bufd. destruct (decide (x = p)) as [->|Hne].
    + destruct Hself as [H|[H _]]; rewrite H; auto.
    + rewrite Hother by done. apply (ho_color _ _ Hok).
  - intros x. destruct (decide (x = p)) as [->|Hne].
    + unfold bufd, mortal. destruct Hself as [H|[H _]]; rewrite H; [done|]. cbn. by rewrite Hi.
    + rewrite death_mortal by done. unfold bufd. rewrite Hother by done. apply (ho_buf _ _ Hok).
Qed.

Lemma death_edge q c : q <> p -> edge os q c -> edge os' q c.
Proof.
  intros Hq [Ha Hc]. split; [by rewrite death_alive, decide_False|]. by rewrite death_kids.
Qed.

Lemma death_path y x : y <> p -> rtc (edge os) y x -> rtc (edge os') y x /\ x <> p.
Proof.
  intros Hy Hr. revert Hy. induction Hr as [y|y z x Hyz Hzx IH]; intros Hy; [done|].
  assert (Hz : z <> p). { intros ->. destruct Hyz as [Ha Hc]. by apply (death_unheld y). }
  destruct (IH Hz) as [? ?]. split; [|done]. eapply rtc_l; [by apply death_edge|done].
Qed.

Lemma covered_death : covered os e -> covered os' e'.
Proof.
  intros Hcov x Hx. rewrite death_alive in Hx. case_decide as Hxp; [done|].
  destruct (Hcov x Hx) as (y & [Hya Hy] & Hr).
  assert (Hanc : forall z, z <> p -> alive os z = true ->
    0 < e' z \/ bufd os z = true /\ col os z = CC_PURPLE -> anchor os' e' z).
  { intros z Hz Hza Hor. split; [by rewrite death_alive, decide_False|]. unfold bufd, col. rewrite Hother by done. done. }
  destruct (decide (y = p)) as [->|Hyp].
  - inversion Hr as [|? c ? [_ Hc] Hcx]; [done|]. subst.
    assert (Hcp : c <> p). { intros ->. apply (death_unheld p death_alive_p). done. }
    exists c. split; [|by apply death_path]. apply Hanc; [done| |].
    + by apply (ok_kid_alive Hok p).
    + left. rewrite He', decide_False by done. apply occ_pos in Hc. pose proof (ho_ext _ _ Hok c). lia.
  - exists y. split; [|by apply death_path]. apply Hanc; [done..|].
    destruct Hy as [Hy|Hy]; [left|by right]. rewrite He', decide_False by done.
    pose proof (occ_nonneg y (kids os p)). lia.
Qed.
End death.

(** ** Shells *)

Lemma free_shell_eq h p o : objs h !! p = Some o ->
  cc_free_shell h p =
    match handle_of o with
    | None => Some (with_objs h (delete p (objs h)), None)
    | Some (_, c) =>
        '(cs, child) ← shared_shell_drop (ctrls h) c (o_extra o);
        Some (with_ctrls (with_objs h (delete p (objs h))) cs (weak_entries h), child)
    end.
Proof.
  intros Ho. unfold cc_free_shell, handle_of. rewrite Ho. cbn [mbind option_bind].
  destruct (o_pay o); try done. by destruct (_ && _).
Qed.

Definition child_list (c : option Z) : list Z := match c with Some v => [v] | None => [] end.

(** A dead shell leaves the heap: the blocks stay in order and what the block
    held is handed back. *)
Lemma free_shell_ok h p o : ctrl_ok (objs h) (ctrls h) (weak_entries h) ->
  objs h !! p = Some o -> weak_entries h !! p = None ->
  exists cs' child, cc_free_shell h p = Some (with_ctrls (with_objs h (delete p (objs h))) cs' (weak_entries h), child) /\
    ctrl_ok (delete p (objs h)) cs' (weak_entries h) /\
    (forall x, cref (ctrls h) x = cref cs' x + occ x (child_list child)).
Proof.
  intros Hok Ho Hw. rewrite (free_shell_eq h p o Ho). destruct (handle_of o) as [[b c]|] eqn:Hh.
  - destruct (shell_drop_ok Hok p o b c Ho Hw Hh) as (cs' & child & -> & Hok' & Hcr & _). cbn [mbind option_bind].
    exists cs', child. split; [done|]. split; [done|]. exact Hcr.
  - exists (ctrls h), None. split; [by destruct h|]. split; [by apply (shell_none Hok p o)|].
    intros x. cbn. lia.
Qed.

(** ** The table entry of a dying object *)

Lemma invalidate_objs h os p :
  rt_weak_invalidate (with_objs h os) p = (fun h' => with_objs h' os) <$> rt_weak_invalidate h p.
Proof.
  unfold rt_weak_invalidate. cbn. destruct (weak_entries h !! p); [|done]. by destruct (ctrls h !! _).
Qed.

Lemma invalidate_inv h e p : rt_inv h e ->
  exists h', rt_weak_invalidate h p = Some h' /\ rt_inv h' e /\ objs h' = objs h /\
    weak_entries h' !! p = None /\ cc_roots h' = cc_roots h /\ same_flags h h' /\
    (forall x, cref (ctrls h') x = cref (ctrls h) x) /\ (forall q, weak_entries h !! q = None -> weak_entries h' !! q = None).
Proof.
  intros [[Hh Hc Hn Hr H0] Hcov]. unfold rt_weak_invalidate.
  destruct (weak_entries h !! p) as [c|] eqn:Hw; [|exists h; done].
  destruct (co_table _ _ _ Hc p c Hw) as (_ & k & Hk & _). rewrite Hk. cbn [mbind option_bind].
  destruct (invalidate_table Hc p c k Hw Hk) as [Hok' Hcref].
  assert (Hout : forall x, outside h e x = cref (ctrl_drop_weak (ctrls h) c (mkCtrl (c_strong k) (c_weak k) 0 (c_value_ptr k))) x + e x).
  { intros x. unfold outside. by rewrite Hcref. }
  eexists. split; [done|]. split; [|split_and!; try done; cbn].
  - split; [split; try done; cbn|].
    + by apply (heap_ok_ext _ (outside h e)).
    + cbn. apply (covered_mono (objs h) _ (outside h e)); [done..| |done].
      intros y [Hy Hor]. split; [done|]. unfold outside at 1. cbn. by rewrite <-Hout.
  - by rewrite lookup_delete_eq.
  - intros q Hq. apply lookup_delete_None. auto.
Qed.

(** ** One death *)

Lemma death_inv h e p o st (He : forall x, 0 <= e x) : rt_inv h (plus_list e (p :: st)) ->
  objs h !! p = Some o -> o_immortal o = false -> o_count o = 1 -> weak_entries h !! p = None ->
  exists h' st', rt_finish_death (with_objs h (<[p := set_count o 0]> (objs h))) p st = Some (h', st') /\
    rt_inv h' (plus_list e st') /\ same_flags h h' /\
    (forall q, q <> p -> objs h' !! q = objs h !! q) /\
    (objs h' !! p = None \/ objs h' !! p = Some (husk_of o)).
Proof.
  intros [[Hh Hc Hn Hr H0] Hcov] Ho Hi Hone Hw.
  set (out := outside h (plus_list e (p :: st))) in *.
  assert (Hep : 1 <= out p).
  { unfold out, outside, plus_list. rewrite occ_cons, decide_True by done.
    pose proof (He p). pose proof (occ_nonneg p st). pose proof (cref_nonneg (ctrls h) p). lia. }
  assert (Halive : alive (objs h) p = true) by exact (death_alive_p Ho Hi Hone).
  set (os1 := <[p := set_count o 0]> (objs h)).
  assert (Hs1 : skel os1 = skel (objs h)) by (by apply (skel_insert _ _ o)).
  unfold rt_finish_death. cbn [objs with_objs]. fold os1.
  assert (Hl1 : os1 !! p = Some (set_count o 0)) by (apply lookup_insert_eq). rewrite Hl1. cbn [mbind option_bind].
  change (cc_walk (set_count o 0)) with (cc_walk o).
  rewrite push_kids_spec.
  2:{ intros c Hcc. apply elem_of_dom. rewrite (skel_dom _ _ Hs1). apply elem_of_dom. by apply (ho_kids _ _ Hh p o). }
  cbn [mbind option_bind]. rewrite (filter_ext_in _ (mortal (objs h))) by (intros; by apply skel_mortal).
  replace (List.filter (mortal (objs h)) (cc_walk o)) with (kids (objs h) p) by (unfold kids; by rewrite Ho).
  set (st1 := rev (kids (objs h) p) ++ st).
  assert (Hsum : forall x, occ x st1 = occ x st + occ x (kids (objs h) p)).
  { intros x. unfold st1. rewrite occ_app, occ_rev. lia. }
  cbn [o_buf set_count]. destruct (o_buf o) eqn:Hb.
  - (* a husk *)
    set (os' := <[p := husk_of o]> (objs h)).
    assert (Hos : <[p := cc_set_color (set_count o 0) CC_BLACK]> os1 = os') by (unfold os1, os', husk_of; by rewrite insert_insert_eq).
    rewrite Hos.
    assert (Hoth : forall q, q <> p -> os' !! q = objs h !! q) by (intros q Hq; unfold os'; by rewrite lookup_insert_ne).
    assert (Hslf : os' !! p = None \/ os' !! p = Some (husk_of o) /\ o_buf o = true).
    { right. split; [|done]. unfold os'. by rewrite lookup_insert_eq. }
    set (out' := outside h (plus_list e st1)).
    assert (Hout : forall x, out' x = out x - (if decide (p = x) then 1 else 0) + occ x (kids (objs h) p)).
    { intros x. unfold out', out, outside, plus_list. rewrite Hsum, occ_cons. lia. }
    eexists _, st1. split; [done|]. cbn. split; [|split_and!; try done; right; by apply lookup_insert_eq].
    + split; [split|]; cbn; try done.
      * exact (heap_death Hh Ho Hi Hone Hep Hoth Hslf Hout).
      * apply (ctrl_ok_skel (objs h)); [done|by apply (skel_insert _ _ o)|].
        intros x (ox & Hox & Hl) [cx Hcx]. exists ox. rewrite Hoth; [done|congruence].
      * intros x. rewrite Hr. unfold os'. rewrite bufd_insert. case_decide; [|done]. subst.
        rewrite (bufd_some _ _ _ Ho), Hb. done.
      * rewrite Hoth; [done|congruence].
      * exact (covered_death Hh Ho Hi Hone Hep Hoth Hslf Hout Hcov).
  - (* the shell goes *)
    assert (Ho1 : objs (with_objs h os1) !! p = Some (set_count o 0)) by (apply lookup_insert_eq).
    assert (Hc1 : ctrl_ok os1 (ctrls h) (weak_entries h)).
    { apply (ctrl_ok_skel (objs h)); [done..|]. intros x (ox & Hox & Hl) [cx Hcx]. exists ox.
      unfold os1. rewrite lookup_insert_ne; [done|congruence]. }
    destruct (free_shell_ok (with_objs h os1) p _ Hc1 Ho1 Hw) as (cs' & child & -> & Hc' & Hcref). cbn [mbind option_bind].
    cbn [objs with_objs] in *.
    assert (Hos : delete p os1 = delete p (objs h)) by (unfold os1; by rewrite delete_insert_eq).
    rewrite Hos in *. set (os' := delete p (objs h)) in *.
    assert (Hoth : forall q, q <> p -> os' !! q = objs h !! q) by (intros q Hq; unfold os'; by rewrite lookup_delete_ne).
    assert (Hnone : os' !! p = None) by (unfold os'; by rewrite lookup_delete_eq).
    assert (Hslf : os' !! p = None \/ os' !! p = Some (husk_of o) /\ o_buf o = true) by (by left).
    set (st2 := match child with Some c => c :: st1 | None => st1 end).
    assert (Hsum2 : forall x, occ x st2 = occ x st1 + occ x (child_list child)).
    { intros x. unfold st2. destruct child as [v|]; cbn [child_list]; rewrite ?(occ_cons x v), occ_nil; lia. }
    set (h' := with_ctrls (with_objs (with_objs h os1) os') cs' (weak_entries h)).
    assert (Hout : forall x, outside h' (plus_list e st2) x =
        out x - (if decide (p = x) then 1 else 0) + occ x (kids (objs h) p)).
    { intros x. unfold out, outside, plus_list. change (ctrls h') with cs'. rewrite Hsum2, Hsum. specialize (Hcref x). change (ctrls (with_objs h os1)) with (ctrls h) in Hcref. rewrite (occ_cons x p). lia. }
    exists h', st2. split; [done|]. split; [|split_and!; try done; by left].
    split; [split|]; cbn; try done.
    + exact (heap_death Hh Ho Hi Hone Hep Hoth Hslf Hout).
    + intros x. rewrite Hr. unfold bufd. destruct (decide (x = p)) as [->|Hx]; [|by rewrite Hoth].
      rewrite Hnone, Ho. by rewrite Hb.
    + rewrite Hoth; [done|congruence].
    + exact (covered_death Hh Ho Hi Hone Hep Hoth Hslf Hout Hcov).
Qed.
End holds.

(** * The cascade terminates and keeps the invariant

    [deinit_ok] is the contract of a deinit body: it keeps the invariant for
    the references it was handed, does not let its object escape, and leaves
    no more finalizers behind than it found.  Under it [release_loop] has a
    result for some fuel, by induction on the finalizers left, the counts and
    the work stack. *)

Section holds.
Context {HH : Holds}.

(** ** What is left to do *)

Definition fins os : Z := dsum (dom os) (fun p => match os !! p with Some o => if o_fin o then 1 else 0 | None => 0 end).
Definition total os : Z := dsum (dom os) (fun p => if alive os p then cnt os p else 0).

(** The objects of [os'] were in [os], with the same children and no larger
    counts. *)
Definition sub_heap os os' : Prop :=
  forall x o', os' !! x = Some o' -> exists o, os !! x = Some o /\ static o' = static o /\ o_fin o' = o_fin o /\ o_count o' <= o_count o.

Lemma sub_heap_refl os : sub_heap os os.
Proof. intros x o Ho. exists o. split_and!; [done..|lia]. Qed.

Lemma sub_heap_trans os1 os2 os3 : sub_heap os1 os2 -> sub_heap os2 os3 -> sub_heap os1 os3.
Proof.
  intros H12 H23 x o3 (o2 & (o1 & Ho1 & Hs & Hf & Hc)%H12 & Hs' & Hf' & Hc')%H23.
  exists o1. split_and!; [done|by rewrite Hs'|by rewrite Hf'|lia].
Qed.

Lemma fins_nonneg os : 0 <= fins os.
Proof. apply dsum_nonneg. intros p _. destruct (os !! p) as [o|]; [destruct (o_fin o)|]; lia. Qed.

Lemma total_nonneg os : 0 <= total os.
Proof. apply dsum_nonneg. intros p _. destruct (alive os p) eqn:Ha; [|lia]. apply alive_mortal in Ha. lia. Qed.

Lemma fins_insert os p o o' : os !! p = Some o ->
  fins (<[p := o']> os) = fins os + (if o_fin o' then 1 else 0) - (if o_fin o then 1 else 0).
Proof.
  intros Hp. unfold fins. rewrite dom_insert_lookup_L by eauto.
  rewrite (dsum_upd (dom os) p _ (fun p => match os !! p with Some o => if o_fin o then 1 else 0 | None => 0 end)).
  - cbv beta. by rewrite lookup_insert_eq, Hp.
  - apply elem_of_dom. eauto.
  - intros q _ Hq. by rewrite lookup_insert_ne.
Qed.

Lemma fins_delete os p o : os !! p = Some o -> fins (delete p os) = fins os - (if o_fin o then 1 else 0).
Proof.
  intros Hp. unfold fins. rewrite (dsum_remove (dom os) p) by (apply elem_of_dom; eauto). rewrite dom_delete_L, Hp.
  rewrite (dsum_ext _ _ (fun p => match os !! p with Some o => if o_fin o then 1 else 0 | None => 0 end)); [lia|].
  intros q Hq. rewrite lookup_delete_ne by set_solver. done.
Qed.

Lemma fins_finv os os' : finv os' = finv os -> fins os' = fins os.
Proof.
  intros Hf. unfold fins. replace (dom os') with (dom os).
  - apply dsum_ext. intros p _. assert (H : finv os' !! p = finv os !! p) by (by rewrite Hf).
    unfold finv in H. rewrite !lookup_fmap in H. destruct (os' !! p), (os !! p); cbn in H; [by injection H as ->|done|done|done].
  - rewrite <-(dom_fmap_L o_fin os), <-(dom_fmap_L o_fin os'). unfold finv in Hf. by rewrite Hf.
Qed.

Lemma sub_heap_skel os os' : skel os' = skel os -> finv os' = finv os -> (forall x, cnt os' x <= cnt os x) -> sub_heap os os'.
Proof.
  intros Hs Hf Hc x o' Hx. pose proof (skel_lookup _ _ x Hs) as Hl. rewrite Hx in Hl.
  destruct (os !! x) as [o|] eqn:Ho; [|done]. exists o. split_and!; [done|done|by apply (finv_lookup os' os x)|].
  specialize (Hc x). by rewrite (cnt_some _ _ _ Hx), (cnt_some _ _ _ Ho) in Hc.
Qed.

(** No finalizer is left in a sub-heap of a heap without one. *)
Lemma fins_zero os : fins os = 0 <-> forall x o, os !! x = Some o -> o_fin o = false.
Proof.
  split.
  - intros H0 x o Hx. pose proof (dsum_zero_inv (dom os) _ x H0) as H. cbv beta in H.
    rewrite Hx in H. destruct (o_fin o); [|done]. exfalso. cut (1 = 0); [lia|]. apply H.
    + intros q _. destruct (os !! q) as [oq|]; [destruct (o_fin oq)|]; lia.
    + apply elem_of_dom. eauto.
  - intros Hf. apply dsum_zero. intros p _. destruct (os !! p) as [o|] eqn:Hp; [|done]. by rewrite (Hf p o Hp).
Qed.

Lemma fins_sub os os' : sub_heap os os' -> fins os = 0 -> fins os' = 0.
Proof.
  intros Hsub Hf. apply fins_zero. intros x o' (o & Ho & _ & -> & _)%Hsub.
  by apply (proj1 (fins_zero os) Hf x).
Qed.

Lemma total_same os os' p : skel os' = skel os -> (forall x, alive os' x = alive os x) -> alive os p = true ->
  (forall x, cnt os' x = cnt os x - if decide (p = x) then 1 else 0) -> total os' = total os - 1.
Proof.
  intros Hs Ha Hp Hc. unfold total. rewrite (skel_dom _ _ Hs).
  rewrite (dsum_upd (dom os) p _ (fun p => if alive os p then cnt os p else 0)).
  - cbv beta. rewrite Ha, Hp, Hc, decide_True by done. lia.
  - apply mortal_dom. by apply alive_mortal.
  - intros q _ Hq. rewrite Ha, Hc, decide_False by done. destruct (alive os q); lia.
Qed.

Lemma total_death os os' p : alive os p = true -> alive os' p = false -> cnt os p = 1 ->
  (forall q, q <> p -> os' !! q = os !! q) -> total os' = total os - 1.
Proof.
  intros Hp Hp' H1 Hq. unfold total.
  rewrite (dsum_remove (dom os) p) by (by apply mortal_dom, alive_mortal).
  rewrite Hp, H1, (dsum_drop (dom os') p) by (by rewrite Hp').
  replace (dom os' ∖ {[p]}) with (dom os ∖ {[p]}).
  - rewrite (dsum_ext _ _ (fun p => if alive os p then cnt os p else 0)); [lia|].
    intros q Hq'. unfold alive, mortal, cnt. rewrite Hq by set_solver. done.
  - apply set_eq. intros q. rewrite !elem_of_difference, !elem_of_dom, elem_of_singleton.
    destruct (decide (q = p)); [naive_solver|]. by rewrite Hq.
Qed.

(** ** Fuel *)

Section loop.
Context (deinit : Z -> rt -> option rt).

Lemma release_loop_mono fuel fuel' h st h' : (fuel <= fuel')%nat ->
  release_loop deinit fuel h st = Some h' -> release_loop deinit fuel' h st = Some h'.
Proof.
  revert fuel' h st. induction fuel as [|fuel IH]; intros fuel' h st Hle Hr.
  - destruct st; [by destruct fuel'|done].
  - destruct st as [|p st]; [by destruct fuel'|]. destruct fuel' as [|fuel']; [lia|].
    cbn [release_loop] in *. destruct (objs h !! p) as [o|]; [|done]. cbn [mbind option_bind] in *.
    destruct (o_immortal o); [apply IH; [lia|done]|].
    destruct (o_count o - 1 =? 0).
    + destruct (rt_weak_invalidate _ p) as [h1|]; [|done]. cbn [mbind option_bind] in *.
      destruct (if o_fin o then _ else _) as [h2|]; [|done]. cbn [mbind option_bind] in *.
      destruct (rt_finish_death h2 p st) as [[h3 st3]|]; [|done]. cbn [mbind option_bind] in *.
      apply IH; [lia|done].
    + destruct (if cyclic o then _ else _) as [h1|]; [|done]. cbn [mbind option_bind] in *.
      apply IH; [lia|done].
Qed.

(** ** The contract of a deinit body *)

Definition deinit_ok : Prop :=
  forall h e p, (forall x, 0 <= e x) -> rt_inv h e -> alive (objs h) p = true -> 0 < e p ->
  exists h', deinit p h = Some h' /\ rt_inv h' e /\
    (forall x, alive (objs h) x = true -> 0 < e x -> mortal (objs h') x = true) /\
    cnt (objs h') p = cnt (objs h) p /\
    (weak_entries h !! p = None -> weak_entries h' !! p = None) /\
    fins (objs h') <= fins (objs h) /\ same_flags h h'.

Lemma flags_inv h e a b : rt_inv h e -> rt_inv (with_flags h a b) e.
Proof. intros [[] ]. split; [split|]; done. Qed.

Lemma fin_inv h e p o b : rt_inv h e -> objs h !! p = Some o -> rt_inv (with_objs h (<[p := set_fin o b]> (objs h))) e.
Proof.
  intros [[Hh Hc Hn Hr H0] Hcov] Ho. set (os' := <[p := set_fin o b]> (objs h)).
  assert (Hs : skel os' = skel (objs h)) by (by apply (skel_insert _ _ o)).
  assert (Hcnt : forall x, cnt os' x = cnt (objs h) x).
  { intros x. unfold os'. rewrite cnt_insert. case_decide; [|done]. subst. by rewrite (cnt_some _ _ _ Ho). }
  assert (Ha : forall x, alive os' x = alive (objs h) x).
  { intros x. unfold alive. by rewrite Hcnt, (skel_mortal _ _ x Hs). }
  assert (Hbuf : forall x, bufd os' x = bufd (objs h) x).
  { intros x. unfold os'. rewrite bufd_insert. case_decide; [|done]. subst. by rewrite (bufd_some _ _ _ Ho). }
  assert (Hcol : forall x, col os' x = col (objs h) x).
  { intros x. unfold os'. rewrite col_insert. case_decide; [|done]. subst. by rewrite (col_some _ _ _ Ho). }
  split; [split|]; cbn; try done.
  - apply (heap_ok_recount (objs h) _ (outside h e)); try done.
    + intros x _. rewrite Hcnt. unfold outside. cbn. lia.
    + apply (ho_ext _ _ Hh).
    + apply (ho_ext_dom _ _ Hh).
    + intros x. rewrite Hcnt, Hbuf, Hcol. apply (ho_husk _ _ Hh).
    + intros x. rewrite Hbuf, Hcol. apply (ho_color _ _ Hh).
    + intros x. rewrite Hbuf. apply (ho_buf _ _ Hh).
  - apply (ctrl_ok_skel (objs h)); [done..|]. intros x Hl _. by apply (live_same (objs h)).
  - intros x. rewrite Hbuf. apply Hr.
  - unfold os'. rewrite lookup_insert_ne; [done|congruence].
  - apply (covered_mono (objs h) _ (outside h e)); [done..| |done].
    intros y. unfold anchor. by rewrite Ha, Hbuf, Hcol.
Qed.

Context (Hdeinit : deinit_ok).

(** A body runs on its object with the finalizer cleared. *)
Lemma body_ok h e p o : (forall x, 0 <= e x) -> rt_inv h e -> objs h !! p = Some o -> o_fin o = true ->
  alive (objs h) p = true -> 0 < e p ->
  exists h2 o2,
    deinit p (with_flags (with_objs h (<[p := set_fin o false]> (objs h))) (cc_collecting h) (beans_in_deinit h + 1)) = Some h2 /\
    objs h2 !! p = Some o2 /\ o_immortal o2 = false /\ o_count o2 = o_count o /\
    (forall x, alive (objs h) x = true -> 0 < e x -> mortal (objs h2) x = true) /\
    rt_inv (with_flags (with_objs h2 (<[p := set_fin o2 false]> (objs h2))) (cc_collecting h2) (beans_in_deinit h2 - 1)) e /\
    (weak_entries h !! p = None -> weak_entries h2 !! p = None) /\
    fins (<[p := set_fin o2 false]> (objs h2)) < fins (objs h) /\
    cc_collecting h2 = cc_collecting h /\ beans_in_deinit h2 - 1 = beans_in_deinit h.
Proof.
  intros He Hinv Ho Hfin Ha Hep.
  set (hb := with_flags (with_objs h (<[p := set_fin o false]> (objs h))) (cc_collecting h) (beans_in_deinit h + 1)).
  assert (Hb : rt_inv hb e) by (apply flags_inv, fin_inv; done).
  assert (Hcb : cnt (objs hb) p = o_count o).
  { cbn. by rewrite cnt_insert, decide_True. }
  assert (Hab : alive (objs hb) p = true).
  { unfold alive in *. rewrite Hcb. apply andb_true_iff in Ha as [Hm Hc]. rewrite (cnt_some _ _ _ Ho) in Hc.
    rewrite Hc, andb_true_r. cbn. rewrite (skel_mortal _ (objs h)); [done|]. by apply (skel_insert _ _ o). }
  destruct (Hdeinit hb e p He Hb Hab Hep) as (h2 & Hrun & Hinv2 & Hmort & Hc2 & Hw2 & Hf2 & Hfl1 & Hfl2).
  destruct (mortal_some _ _ (Hmort p Hab Hep)) as (o2 & Ho2 & Hi2). rewrite (cnt_some _ _ _ Ho2), Hcb in Hc2.
  exists h2, o2. split_and!; try done.
  - intros x Hax Hex. apply Hmort; [|done]. rewrite <-Hax. unfold alive.
    assert (Hs : skel (objs hb) = skel (objs h)) by (by apply (skel_insert _ _ o)).
    rewrite (skel_mortal _ _ x Hs). cbn. rewrite cnt_insert. case_decide; [|done]. subst. by rewrite (cnt_some _ _ _ Ho).
  - by apply flags_inv, fin_inv.
  - rewrite (fins_insert _ _ _ _ Ho2). cbn.
    change (objs hb) with (<[p := set_fin o false]> (objs h)) in Hf2.
    rewrite (fins_insert _ _ _ _ Ho), Hfin in Hf2. cbn in Hf2.
    destruct (o_fin o2); lia.
  - cbn in *. lia.
Qed.

(** The body of a dying object: it counts one for the time of the body, and
    the death goes on with the state the body left. *)
Lemma dying_body h e p o : (forall x, 0 <= e x) -> rt_inv h e -> 0 < e p ->
  objs h !! p = Some o -> o_immortal o = false -> o_count o = 1 -> o_fin o = true -> weak_entries h !! p = None ->
  exists h2 o2, beans_do_deinit deinit (with_objs h (<[p := set_count o 0]> (objs h))) p =
      Some (with_objs h2 (<[p := set_count o2 0]> (objs h2))) /\
    rt_inv h2 e /\ objs h2 !! p = Some o2 /\ o_immortal o2 = false /\ o_count o2 = 1 /\ weak_entries h2 !! p = None /\
    fins (objs h2) < fins (objs h) /\ same_flags h h2.
Proof.
  intros He Hinv Hep Ho Hi Hone Hfin Hw.
  destruct (body_ok h e p o He Hinv Ho Hfin (death_alive_p Ho Hi Hone) Hep)
    as (h2 & o2 & Hrun & Ho2 & Hi2 & Hc2 & _ & Hinv2 & Hw2 & Hf2 & Hfl1 & Hfl2).
  exists (with_flags (with_objs h2 (<[p := set_fin o2 false]> (objs h2))) (cc_collecting h2) (beans_in_deinit h2 - 1)), (set_fin o2 false).
  unfold beans_do_deinit. cbn [objs with_objs].
  rewrite lookup_insert_eq. cbn [mbind option_bind o_count set_count].
  replace (with_objs (with_objs h (<[p := set_count o 0]> (objs h)))
    (<[p := set_fin (set_count (set_count o 0) (0 + 1)) false]> (<[p := set_count o 0]> (objs h))))
    with (with_objs h (<[p := set_fin o false]> (objs h))).
  2:{ unfold with_objs. cbn. rewrite insert_insert_eq. f_equal. destruct o; cbn in *. by rewrite Hone. }
  cbn [cc_collecting beans_in_deinit with_objs].
  change (cc_collecting (with_objs h _)) with (cc_collecting h). change (beans_in_deinit (with_objs h _)) with (beans_in_deinit h).
  rewrite Hrun. cbn [mbind option_bind]. rewrite Ho2. cbn [mbind option_bind].
  split; [|split_and!; try done].
  - f_equal. unfold with_objs, with_flags. cbn. by rewrite insert_insert_eq.
  - cbn. by rewrite lookup_insert_eq.
  - cbn. by rewrite Hc2.
  - cbn. by apply Hw2.
Qed.

(** ** The cascade *)

Lemma release_loop_ok : forall nf nt st h e, (forall x, 0 <= e x) -> rt_inv h (plus_list e st) ->
  fins (objs h) <= Z.of_nat nf -> total (objs h) <= Z.of_nat nt ->
  exists fuel h', release_loop deinit fuel h st = Some h' /\ rt_inv h' e /\
    fins (objs h') <= fins (objs h) /\ same_flags h h' /\
    (fins (objs h) = 0 -> sub_heap (objs h) (objs h')).
Proof.
  induction nf as [nf IHf] using lt_wf_ind. induction nt as [nt IHt] using lt_wf_ind.
  induction st as [|p st IHst]; intros h e He Hinv Hnf Hnt.
  { exists O, h. split_and!; try done.
    - apply (rt_inv_ext h (plus_list e [])); [|done]. intros x. unfold plus_list. rewrite occ_nil. lia.
    - intros _. apply sub_heap_refl. }
  destruct (ho_ext_dom _ _ (ro_heap _ _ (ri_ok _ _ Hinv)) p) as [o Ho].
  { unfold outside, plus_list. rewrite occ_cons, decide_True by done.
    pose proof (He p). pose proof (occ_nonneg p st). pose proof (cref_nonneg (ctrls h) p). lia. }
  assert (Hpl : forall x, 0 <= plus_list e (p :: st) x).
  { intros x. unfold plus_list. pose proof (He x). pose proof (occ_nonneg x (p :: st)). lia. }
  assert (Hep : 0 < plus_list e (p :: st) p).
  { unfold plus_list. rewrite occ_cons, decide_True by done. pose proof (He p). pose proof (occ_nonneg p st). lia. }
  destruct (o_immortal o) eqn:Hi.
  { (* immortal: nothing to count *)
    destruct (IHst h e He) as (fuel & h' & Hrun & Hrest); [|done..|].
    - apply (rt_inv_immortal h _ p Hinv); [by rewrite (some_mortal _ _ _ Ho), Hi|eauto| |].
      + intros y Hy. unfold plus_list. rewrite (occ_cons y p), decide_False by done. lia.
      + unfold plus_list. pose proof (He p). pose proof (occ_nonneg p st). lia.
    - exists (S fuel), h'. split; [|done]. cbn [release_loop]. rewrite Ho. cbn [mbind option_bind]. by rewrite Hi. }
  assert (Hcnt : 0 < o_count o).
  { pose proof (ho_count _ _ (ro_heap _ _ (ri_ok _ _ Hinv)) p) as Hc.
    rewrite (some_mortal _ _ _ Ho), Hi, (cnt_some _ _ _ Ho) in Hc. specialize (Hc eq_refl).
    pose proof (refs_nonneg (objs h) p). unfold outside in Hc. pose proof (cref_nonneg (ctrls h) p). lia. }
  assert (Halive : alive (objs h) p = true).
  { unfold alive. rewrite (some_mortal _ _ _ Ho), Hi, (cnt_some _ _ _ Ho). cbn. by apply Z.ltb_lt. }
  destruct (decide (o_count o = 1)) as [Hone|Hmany].
  - (* death *)
    destruct (invalidate_inv h (plus_list e (p :: st)) p Hinv) as (h1 & Hrun1 & Hinv1 & Hobjs1 & Hw1 & _ & Hfl1 & _ & _).
    rewrite <-Hobjs1 in Ho.
    assert (Hstep : exists h2 o2,
      (if o_fin o then beans_do_deinit deinit (with_objs h1 (<[p := set_count o 0]> (objs h1))) p
       else Some (with_objs h1 (<[p := set_count o 0]> (objs h1)))) = Some (with_objs h2 (<[p := set_count o2 0]> (objs h2))) /\
      rt_inv h2 (plus_list e (p :: st)) /\ objs h2 !! p = Some o2 /\ o_immortal o2 = false /\ o_count o2 = 1 /\
      weak_entries h2 !! p = None /\ same_flags h1 h2 /\
      (if o_fin o then fins (objs h2) < fins (objs h1) else h2 = h1 /\ o2 = o)).
    { destruct (o_fin o) eqn:Hfin.
      - destruct (dying_body h1 (plus_list e (p :: st)) p o Hpl Hinv1 Hep Ho Hi Hone Hfin Hw1)
          as (h2 & o2 & Hr & Hi2 & Ho2 & Him & Hc2 & Hw2 & Hf2 & Hfl2). exists h2, o2. split_and!; done.
      - exists h1, o. split_and!; done. }
    destruct Hstep as (h2 & o2 & Hrun2 & Hinv2 & Ho2 & Hi2 & Hone2 & Hw2 & Hfl2 & Hfin2).
    destruct (death_inv h2 e p o2 st He Hinv2 Ho2 Hi2 Hone2 Hw2) as (h3 & st3 & Hrun3 & Hinv3 & Hfl3 & Hoth3 & Hself3).
    assert (Hdead3 : alive (objs h3) p = false).
    { unfold alive, mortal, cnt. destruct Hself3 as [-> | ->]; [done|]. apply andb_false_r. }
    assert (Hsub3 : sub_heap (objs h2) (objs h3)).
    { intros x ox Hx. destruct (decide (x = p)) as [->|Hxp].
      - destruct Hself3 as [Hs3|Hs3]; rewrite Hs3 in Hx; [done|]. injection Hx as <-.
        exists o2. split_and!; try done. cbn. lia.
      - rewrite Hoth3 in Hx by done. exists ox. split_and!; [done..|lia]. }
    assert (Hf3 : fins (objs h3) <= fins (objs h2)).
    { destruct Hself3 as [Hs3|Hs3].
      - replace (objs h3) with (delete p (objs h2)); [rewrite (fins_delete _ _ _ Ho2); destruct (o_fin o2); lia|].
        apply map_eq. intros x. destruct (decide (x = p)) as [->|Hx]; [by rewrite lookup_delete_eq|].
        rewrite lookup_delete_ne by done. symmetry. by apply Hoth3.
      - replace (objs h3) with (<[p := husk_of o2]> (objs h2)); [rewrite (fins_insert _ _ _ _ Ho2); cbn; lia|].
        apply map_eq. intros x. destruct (decide (x = p)) as [->|Hx]; [by rewrite lookup_insert_eq|].
        rewrite lookup_insert_ne by done. symmetry. by apply Hoth3. }
    assert (Hnext : exists fuel h', release_loop deinit fuel h3 st3 = Some h' /\ rt_inv h' e /\
      fins (objs h') <= fins (objs h3) /\ same_flags h3 h' /\ (fins (objs h3) = 0 -> sub_heap (objs h3) (objs h'))).
    { rewrite <-Hobjs1 in Hnf. pose proof (fins_nonneg (objs h3)). destruct (o_fin o).
      - apply (IHf (Z.to_nat (fins (objs h3))) ltac:(lia) (Z.to_nat (total (objs h3))) st3 h3 e); try done; [lia|].
        pose proof (total_nonneg (objs h3)). lia.
      - destruct Hfin2 as [-> ->].
        pose proof (total_death (objs h1) (objs h3) p) as Ht. rewrite Hobjs1 in Ht.
        specialize (Ht Halive Hdead3). rewrite Hobjs1 in Ho. rewrite (cnt_some _ _ _ Ho) in Ht. specialize (Ht Hone).
        rewrite Hobjs1 in Hoth3. specialize (Ht Hoth3). pose proof (total_nonneg (objs h3)).
        apply (IHt (Z.to_nat (total (objs h3))) ltac:(lia) st3 h3 e); try done; lia. }
    destruct Hnext as (fuel & h' & Hrun' & Hinv' & Hf' & Hfl' & Hsub').
    assert (Hf2 : fins (objs h2) <= fins (objs h)).
    { rewrite <-Hobjs1. destruct (o_fin o); [lia|]. destruct Hfin2 as [-> _]. lia. }
    exists (S fuel), h'. split; [|split; [done|split; [lia|split]]].
    + cbn [release_loop]. rewrite <-Hobjs1, Ho. cbn [mbind option_bind]. rewrite Hi.
      replace (o_count o - 1) with 0 by lia.
      rewrite invalidate_objs, Hrun1. cbn [fmap option_fmap option_map Z.eqb mbind option_bind].
      rewrite Hrun2. cbn [mbind option_bind]. rewrite Hrun3. cbn [mbind option_bind]. done.
    + destruct Hfl1, Hfl2, Hfl3, Hfl'. split; congruence.
    + intros Hz. rewrite <-Hobjs1 in Hz. pose proof (proj1 (fins_zero _) Hz p o Ho) as Hof.
      rewrite Hof in Hfin2. destruct Hfin2 as [-> ->]. rewrite <-Hobjs1.
      apply (sub_heap_trans _ (objs h3)); [done|]. apply Hsub'. by apply (fins_sub (objs h1)).
  - (* a reference less *)
    destruct (dec_inv h e p o st He Hinv Ho Hi ltac:(lia)) as (h1 & Hrun1 & Hinv1 & Hs1 & Hfv1 & Hc1 & Hfl1).
    assert (Ha1 : forall x, alive (objs h1) x = alive (objs h) x).
    { intros x. unfold alive. rewrite (skel_mortal _ _ x Hs1), Hc1. case_decide as Hx; [|by rewrite Z.sub_0_r].
      subst x. rewrite (some_mortal _ _ _ Ho), Hi, (cnt_some _ _ _ Ho). cbn.
      rewrite (proj2 (Z.ltb_lt 0 (o_count o))), (proj2 (Z.ltb_lt 0 (o_count o - 1))) by lia. done. }
    pose proof (total_same (objs h) (objs h1) p Hs1 Ha1 Halive Hc1) as Ht.
    pose proof (total_nonneg (objs h1)).
    pose proof (fins_finv _ _ Hfv1) as Hf1.
    assert (Hsub1 : sub_heap (objs h) (objs h1)).
    { apply sub_heap_skel; [done..|]. intros x. rewrite Hc1. case_decide; lia. }
    destruct (IHt (Z.to_nat (total (objs h1))) ltac:(lia) st h1 e) as (fuel & h' & Hrun' & Hinv' & Hf' & Hfl' & Hsub'); try done; [lia..|].
    exists (S fuel), h'. split; [|split; [done|split; [lia|split]]].
    + cbn [release_loop]. rewrite Ho. cbn [mbind option_bind]. rewrite Hi.
      rewrite (proj2 (Z.eqb_neq (o_count o - 1) 0)) by lia.
      change (fun h0 : rt => release_loop deinit fuel h0 st) with (fun h0 : rt => release_loop deinit fuel h0 st).
      rewrite Hrun1. done.
    + destruct Hfl1, Hfl'. split; congruence.
    + intros Hz. apply (sub_heap_trans _ (objs h1)); [done|]. apply Hsub'. lia.
Qed.
End loop.
End holds.
