(* ===== verification/Collector.v ===== *)
(** * Collector: the cycle collector

    [runtime/beans_rt.c], from [cc_mark_gray] to [cc_at_exit]: trial deletion
    over the buffered candidates, the death of the white set with or without
    deinit bodies, and the drain of what the dead shells handed back.  The
    three walks run on fuel computed from the heap's edges; [MarkProofs] and
    [HeapTheorems] show it is enough. *)

From stdpp Require Import gmap.
From S2P Require Import Prelude Mem ListRt MapRt Heap.

Open Scope c_scope.

(** An upper bound on the pops of one walk: every object is expanded at most
    once. *)
Definition walk_fuel (os : gmap Z obj) : nat :=
  S (map_fold (fun _ o n => S (length (cc_walk o)) + n)%nat O os).

(** ** Trial deletion *)

Fixpoint dec_push (os : gmap Z obj) (kids st : list Z) : option (gmap Z obj * list Z) :=
  match kids with
  | [] => Some (os, st)
  | c :: kids =>
      o ← os !! c;
      if o_immortal o then dec_push os kids st
      else dec_push (<[c := set_count o (o_count o - 1)]> os) kids (c :: st)
  end.

Fixpoint mark_loop (fuel : nat) (os : gmap Z obj) (st : list Z) : option (gmap Z obj) :=
  match st with
  | [] => Some os
  | p :: st =>
      match fuel with
      | O => None
      | S fuel =>
          o ← os !! p;
          if decide (o_color o = CC_GRAY) then mark_loop fuel os st
          else
            '(os, st) ← dec_push (<[p := cc_set_color o CC_GRAY]> os) (cc_walk o) st;
            mark_loop fuel os st
      end
  end.

Definition cc_mark_gray (os : gmap Z obj) (root : Z) : option (gmap Z obj) :=
  mark_loop (walk_fuel os) os [root].

(** ** Restoring what is referenced from outside *)

Fixpoint inc_push (os : gmap Z obj) (kids st : list Z) : option (gmap Z obj * list Z) :=
  match kids with
  | [] => Some (os, st)
  | c :: kids =>
      o ← os !! c;
      if o_immortal o then inc_push os kids st
      else
        let o := set_count o (o_count o + 1) in
        if decide (o_color o = CC_BLACK) then inc_push (<[c := o]> os) kids st
        else inc_push (<[c := cc_set_color o CC_BLACK]> os) kids (c :: st)
  end.

Fixpoint black_loop (fuel : nat) (os : gmap Z obj) (st : list Z) : option (gmap Z obj) :=
  match st with
  | [] => Some os
  | p :: st =>
      match fuel with
      | O => None
      | S fuel =>
          o ← os !! p;
          '(os, st) ← inc_push os (cc_walk o) st;
          black_loop fuel os st
      end
  end.

Definition cc_scan_black (os : gmap Z obj) (root : Z) : option (gmap Z obj) :=
  o ← os !! root;
  black_loop (walk_fuel os) (<[root := cc_set_color o CC_BLACK]> os) [root].

Fixpoint scan_loop (fuel : nat) (os : gmap Z obj) (st : list Z) : option (gmap Z obj) :=
  match st with
  | [] => Some os
  | p :: st =>
      match fuel with
      | O => None
      | S fuel =>
          o ← os !! p;
          if decide (o_color o = CC_GRAY) then
            if 0 <? o_count o then os ← cc_scan_black os p; scan_loop fuel os st
            else
              let os := <[p := cc_set_color o CC_WHITE]> os in
              st ← push_kids os (cc_walk o) st;
              scan_loop fuel os st
          else scan_loop fuel os st
      end
  end.

Definition cc_scan (os : gmap Z obj) (root : Z) : option (gmap Z obj) :=
  scan_loop (walk_fuel os) os [root].

(** ** Collecting the white set *)

Fixpoint white_loop (fuel : nat) (os : gmap Z obj) (st dead : list Z) : option (gmap Z obj * list Z) :=
  match st with
  | [] => Some (os, dead)
  | p :: st =>
      match fuel with
      | O => None
      | S fuel =>
          o ← os !! p;
          if decide (o_color o = CC_WHITE) then
            if o_buf o then white_loop fuel os st dead
            else
              let os := <[p := cc_set_color o CC_BLACK]> os in
              st ← push_kids os (cc_walk o) st;
              white_loop fuel os st (dead ++ [p])
          else white_loop fuel os st dead
      end
  end.

Definition cc_collect_white (os : gmap Z obj) (root : Z) (dead : list Z) : option (gmap Z obj * list Z) :=
  white_loop (walk_fuel os) os [root] dead.

(** The [for] loops over the candidates. *)
Fixpoint for_roots (f : gmap Z obj -> Z -> option (gmap Z obj)) (rs : list Z) (os : gmap Z obj) : option (gmap Z obj) :=
  match rs with
  | [] => Some os
  | r :: rs => os ← f os r; for_roots f rs os
  end.

Fixpoint collect_roots (rs : list Z) (os : gmap Z obj) (dead : list Z) : option (gmap Z obj * list Z) :=
  match rs with
  | [] => Some (os, dead)
  | r :: rs =>
      o ← os !! r;
      '(os, dead) ← cc_collect_white (<[r := set_buf o false]> os) r dead;
      collect_roots rs os dead
  end.

Definition cc_trial (rs : list Z) (os : gmap Z obj) : option (gmap Z obj * list Z) :=
  os ← for_roots cc_mark_gray rs os;
  os ← for_roots cc_scan rs os;
  collect_roots rs os [].

(** ** The white set dies *)

(** [cc_restore_edge] over one object's children. *)
Fixpoint cc_restore_edges (os : gmap Z obj) (kids : list Z) : option (gmap Z obj) :=
  match kids with
  | [] => Some os
  | c :: kids =>
      o ← os !! c;
      cc_restore_edges (if o_immortal o then os else <[c := set_count o (o_count o + 1)]> os) kids
  end.

Fixpoint restore_all (ps : list Z) (os : gmap Z obj) : option (gmap Z obj) :=
  match ps with
  | [] => Some os
  | p :: ps => o ← os !! p; os ← cc_restore_edges os (cc_walk o); restore_all ps os
  end.

Fixpoint for_all (f : rt -> Z -> option rt) (ps : list Z) (h : rt) : option rt :=
  match ps with
  | [] => Some h
  | p :: ps => h ← f h p; for_all f ps h
  end.

Definition any_fin (os : gmap Z obj) (ps : list Z) : bool :=
  existsb (fun p => match os !! p with Some o => o_fin o | None => false end) ps.

Section collector.
Context (deinit : Z -> rt -> option rt).

(** [rt_cycle_deinits_finish] *)
Definition rt_cycle_deinits_finish (fuel : nat) (h : rt) (dead : list Z) : option rt :=
  h ← for_all (fun h p =>
    o ← objs h !! p; if o_fin o then beans_do_deinit deinit h p else Some h) dead h;
  h ← for_all cc_possible_root dead h;
  for_all (beans_release deinit fuel) dead h.

Definition cc_run_cycle_deinits (fuel : nat) (h : rt) (dead : list Z) : option (rt * bool) :=
  if any_fin (objs h) dead then
    os ← restore_all dead (objs h);
    h ← for_all beans_retain dead (with_objs h os);
    h ← rt_cycle_deinits_finish fuel h dead;
    Some (h, true)
  else Some (h, false).

(** A member that is still buffered stays as a black husk. *)
Fixpoint cc_free_cycle_shells (h : rt) (dead deferred : list Z) : option (rt * list Z) :=
  match dead with
  | [] => Some (h, deferred)
  | p :: dead =>
      o ← objs h !! p;
      if o_buf o then cc_free_cycle_shells (with_objs h (<[p := cc_set_color o CC_BLACK]> (objs h))) dead deferred
      else
        '(h, child) ← cc_free_shell h p;
        cc_free_cycle_shells h dead (deferred ++ match child with Some c => [c] | None => [] end)
  end.

(** ** One collection *)

(** Live purple candidates stay; what died while it was parked gives its
    shell back; everything else drops out. *)
Fixpoint filter_roots (h : rt) (rs kept deferred : list Z) : option (rt * list Z * list Z) :=
  match rs with
  | [] => Some (h, kept, deferred)
  | p :: rs =>
      o ← objs h !! p;
      if bool_decide (o_color o = CC_PURPLE) && (0 <? o_count o) then filter_roots h rs (kept ++ [p]) deferred
      else
        let h := with_objs h (<[p := set_buf o false]> (objs h)) in
        if o_count o =? 0 then
          '(h, child) ← cc_free_shell h p;
          filter_roots h rs kept (deferred ++ match child with Some c => [c] | None => [] end)
        else filter_roots h rs kept deferred
  end.

Definition cc_next_walk_min (doomed : list Z) (walk_min : Z) : Z :=
  match doomed with
  | [] => if 2 ^ 18 <? walk_min * 4 then 2 ^ 18 else walk_min * 4
  | _ => 256
  end.

Definition cc_collect (fuel : nat) (force : bool) (h : rt) : option rt :=
  if cc_collecting h then Some h
  else if negb (beans_in_deinit h =? 0) then Some h
  else
    let h := with_flags h true (beans_in_deinit h) in
    '(h, roots, deferred) ← filter_roots h (cc_roots h) [] [];
    let h := with_roots h roots (cc_pending h) in
    let n := Z.of_nat (length roots) in
    '(h, doomed) ←
      (if negb (n =? 0) && (force || (cc_walk_min h <=? n)) then
         '(os, dead) ← cc_trial roots (objs h);
         h ← for_all rt_weak_invalidate dead (with_roots (with_objs h os) [] (cc_pending h));
         Some (with_gates h (cc_threshold h) (cc_next_walk_min dead (cc_walk_min h)), dead)
       else Some (h, []));
    let h := with_gates h (Z.of_nat (length (cc_roots h)) * 2 + 256) (cc_walk_min h) in
    '(h, taken) ← cc_run_cycle_deinits fuel h doomed;
    '(h, deferred) ← (if taken : bool then Some (h, deferred) else cc_free_cycle_shells h doomed deferred);
    h ← release_all_owed deinit fuel h deferred;
    Some (with_flags h false (beans_in_deinit h)).

(** The forced passes at exit: up to eight, and none after the second that
    leaves nothing parked. *)
Fixpoint exit_passes (passes : nat) (pass : Z) (fuel : nat) (h : rt) : option rt :=
  match passes with
  | O => Some h
  | S passes =>
      h ← cc_collect fuel true h;
      if (1 <=? pass) && (Z.of_nat (length (cc_roots h)) =? 0) then Some h
      else exit_passes passes (pass + 1) fuel h
  end.

Definition cc_at_exit (fuel : nat) (h : rt) : option rt := exit_passes 8 0 fuel h.

End collector.
