(* ===== verification/MarkProofs.v ===== *)
(** * MarkProofs: the walks of the collector, marking and scanning

    What [dec_push] and [inc_push] do to counts, colours and the work stack,
    the fuel of a walk as a sum over the heap, and sums of edges over a set of
    objects given by a test. *)

From stdpp Require Import gmap.
From S2P Require Import Prelude Mem ListRt MapRt Heap HeapSum HeapInv CtrlInv ReleaseProofs Collector.

Open Scope c_scope.

Implicit Types (os : gmap Z obj) (e : Z -> Z) (st : list Z) (P Q : Z -> bool).

(** The walks change counts and colours only. *)
Definition pres os os' : Prop :=
  skel os' = skel os /\ finv os' = finv os /\ forall x, bufd os' x = bufd os x.

Lemma pres_refl os : pres os os.
Proof. done. Qed.

Lemma pres_trans os1 os2 os3 : pres os1 os2 -> pres os2 os3 -> pres os1 os3.
Proof.
  intros (Hs & Hf & Hb) (Hs' & Hf' & Hb'). split; [by etrans|]. split; [by etrans|].
  intros x. by rewrite Hb', Hb.
Qed.

Lemma pres_insert os x o o' : os !! x = Some o ->
  static o' = static o -> o_fin o' = o_fin o -> o_buf o' = o_buf o -> pres os (<[x := o']> os).
Proof.
  intros Hx Hs Hf Hb. split; [by apply (skel_insert _ _ o)|]. split; [by apply (finv_insert _ _ o)|].
  intros y. rewrite bufd_insert. case_decide; [|done]. subst. by rewrite Hb, (bufd_some _ _ _ Hx).
Qed.

Lemma pres_dom os os' x : pres os os' -> is_Some (os !! x) -> is_Some (os' !! x).
Proof. intros (Hs & _). by rewrite <-!elem_of_dom, (skel_dom _ _ Hs). Qed.

(** The children [cc_walk] visits in place [p]. *)
Definition walk os (p : Z) : list Z := match os !! p with Some o => cc_walk o | None => [] end.

Lemma skel_walk os os' p : skel os' = skel os -> walk os' p = walk os p.
Proof.
  intros Hs. pose proof (skel_lookup _ _ p Hs) as H. unfold walk.
  destruct (os' !! p), (os !! p); try done. by apply static_eq in H as [-> _].
Qed.

Lemma kids_walk os p : kids os p = List.filter (mortal os) (walk os p).
Proof. unfold kids, walk. by destruct (os !! p). Qed.

(** ** The visitors *)

Lemma dec_push_spec l : forall os st, (forall c, c ∈ l -> is_Some (os !! c)) ->
  exists os', dec_push os l st = Some (os', rev (List.filter (mortal os) l) ++ st) /\ pres os os' /\
    (forall x, col os' x = col os x) /\ (forall x, cnt os' x = cnt os x - occ x (List.filter (mortal os) l)).
Proof.
  induction l as [|c l IH]; intros os st Hl; [exists os; split_and!; try done; intros x; cbn; lia|].
  destruct (Hl c) as [o Ho]; [set_solver|]. cbn [dec_push List.filter]. rewrite Ho. cbn [mbind option_bind].
  rewrite (some_mortal _ _ _ Ho). destruct (o_immortal o) eqn:Hi; cbn [negb]; [apply IH; set_solver|].
  set (os1 := <[c := set_count o (o_count o - 1)]> os).
  assert (Hpres : pres os os1) by (by apply (pres_insert _ _ o)).
  destruct (IH os1 (c :: st)) as (os' & -> & Hp' & Hcol & Hcnt).
  { intros d Hd. apply (pres_dom os); [done|]. apply Hl. set_solver. }
  assert (Hf : List.filter (mortal os1) l = List.filter (mortal os) l).
  { apply filter_ext_in. intros d _. by apply skel_mortal, Hpres. }
  rewrite Hf in *. exists os'. split; [cbn [rev]; by rewrite <-app_assoc|]. split; [by apply (pres_trans _ os1)|]. split.
  - intros x. rewrite Hcol. unfold os1. rewrite col_insert. case_decide; [|done]. subst. by rewrite (col_some _ _ _ Ho).
  - intros x. rewrite Hcnt. unfold os1. rewrite cnt_insert, occ_cons.
    case_decide; [subst; rewrite (cnt_some _ _ _ Ho); cbn; lia|lia].
Qed.

(** [new] are the children that were not black yet. *)
Lemma inc_push_spec l : forall os st, (forall c, c ∈ l -> is_Some (os !! c)) ->
  exists os' new, inc_push os l st = Some (os', new ++ st) /\ pres os os' /\
    (forall x, col os' x = if bool_decide (x ∈ List.filter (mortal os) l) then CC_BLACK else col os x) /\
    (forall x, cnt os' x = cnt os x + occ x (List.filter (mortal os) l)) /\
    NoDup new /\ (forall x, x ∈ new <-> x ∈ List.filter (mortal os) l /\ col os x <> CC_BLACK).
Proof.
  induction l as [|c l IH]; intros os st Hl.
  { exists os, []. split; [done|]. split; [done|]. split; [done|]. split; [intros x; cbn; lia|].
    split; [apply NoDup_nil_2|]. intros x. cbn. set_solver. }
  destruct (Hl c) as [o Ho]; [set_solver|]. cbn [inc_push List.filter]. rewrite Ho. cbn [mbind option_bind].
  rewrite (some_mortal _ _ _ Ho). destruct (o_immortal o) eqn:Hi; cbn [negb]; [apply IH; set_solver|].
  set (o1 := cc_set_color (set_count o (o_count o + 1)) CC_BLACK). set (os1 := <[c := o1]> os).
  assert (Hpres : pres os os1) by (by apply (pres_insert _ _ o)).
  assert (Hdom : forall d, d ∈ l -> is_Some (os1 !! d)).
  { intros d Hd. apply (pres_dom os); [done|]. apply Hl. set_solver. }
  assert (Hf : List.filter (mortal os1) l = List.filter (mortal os) l).
  { apply filter_ext_in. intros d _. by apply skel_mortal, Hpres. }
  assert (Hcol1 : forall x, col os1 x = if decide (c = x) then CC_BLACK else col os x) by (intros x; apply col_insert).
  assert (Hcnt1 : forall x, cnt os1 x = cnt os x + if decide (c = x) then 1 else 0).
  { intros x. unfold os1. rewrite cnt_insert. case_decide; [subst; by rewrite (cnt_some _ _ _ Ho)|lia]. }
  assert (Hcons : forall st, exists os' new, inc_push os1 l st = Some (os', new ++ st) /\ pres os os' /\
    (forall x, col os' x = if bool_decide (x ∈ c :: List.filter (mortal os) l) then CC_BLACK else col os x) /\
    (forall x, cnt os' x = cnt os x + occ x (c :: List.filter (mortal os) l)) /\
    NoDup new /\ (forall x, x ∈ new <-> x ∈ List.filter (mortal os) l /\ c <> x /\ col os x <> CC_BLACK)).
  { intros st'. destruct (IH os1 st' Hdom) as (os' & new & -> & Hp & Hcol & Hcnt & Hnd & Hnew). rewrite Hf in *.
    exists os', new. split; [done|]. split; [by apply (pres_trans _ os1)|]. split; [|split; [|split; [done|]]].
    - intros x. rewrite Hcol, Hcol1. destruct (decide (c = x)) as [->|Hne].
      + rewrite (bool_decide_true (x ∈ x :: _)) by set_solver. by case_bool_decide.
      + destruct (decide (x ∈ List.filter (mortal os) l)).
        * rewrite !bool_decide_true by set_solver. done.
        * rewrite !bool_decide_false by set_solver. done.
    - intros x. rewrite Hcnt, Hcnt1, occ_cons. lia.
    - intros x. rewrite Hnew, Hcol1. case_decide; naive_solver. }
  cbn [o_color set_count]. destruct (decide (o_color o = CC_BLACK)) as [Hb|Hb].
  - replace (<[c := set_count o (o_count o + 1)]> os) with os1.
    2:{ unfold os1, o1. f_equal. destruct o; cbn in *. by rewrite Hb. }
    destruct (Hcons st) as (os' & new & Hrun & Hp & Hcol & Hcnt & Hnd & Hnew). exists os', new. split_and?; try done.
    intros x. rewrite Hnew, elem_of_cons. split; [naive_solver|]. intros [[->|?] Hx]; [|split_and!; try done].
    + rewrite (col_some _ _ _ Ho) in Hx. done.
    + intros <-. by rewrite (col_some _ _ _ Ho) in Hx.
  - destruct (Hcons (c :: st)) as (os' & new & Hrun & Hp & Hcol & Hcnt & Hnd & Hnew). exists os', (new ++ [c]).
    split; [|split; [done|split; [done|split; [done|split]]]].
    + fold o1 os1. rewrite Hrun. by rewrite <-app_assoc.
    + apply NoDup_app. split; [done|]. split; [|apply NoDup_singleton].
      intros x Hx ->%list_elem_of_singleton. apply Hnew in Hx. naive_solver.
    + intros x. rewrite elem_of_app, Hnew, list_elem_of_singleton, elem_of_cons. split.
      * intros [?| ->]; [naive_solver|]. split; [by left|]. by rewrite (col_some _ _ _ Ho).
      * intros [[->|?] ?]; [by right|]. destruct (decide (c = x)) as [->|]; [by right|left]. done.
Qed.

(** ** Sums over the objects a test selects *)

Section sums.
Context (os0 : gmap Z obj).

(** The edges to [x] out of the objects in [P]. *)
Definition gsum P (x : Z) : Z := dsum (dom os0) (fun p => if P p then occ x (kids os0 p) else 0).
(** How many objects are in [P], and with how many children. *)
Definition nsum P : Z := dsum (dom os0) (fun p => if P p then 1 else 0).
Definition wsum P : Z := dsum (dom os0) (fun p => if P p then 1 + Z.of_nat (length (walk os0 p)) else 0).

Lemma gsum_nonneg P x : 0 <= gsum P x.
Proof. apply dsum_nonneg. intros p _. destruct (P p); [apply occ_nonneg|lia]. Qed.

Lemma nsum_nonneg P : 0 <= nsum P.
Proof. apply dsum_nonneg. intros p _. destruct (P p); lia. Qed.

Lemma wsum_nonneg P : 0 <= wsum P.
Proof. apply dsum_nonneg. intros p _. destruct (P p); lia. Qed.

Lemma gsum_ext P Q x : (forall p, p ∈ dom os0 -> P p = Q p) -> gsum P x = gsum Q x.
Proof. intros H. apply dsum_ext. intros p Hp. by rewrite H. Qed.

Lemma gsum_mono P Q x : (forall p, P p = true -> Q p = true) -> gsum P x <= gsum Q x.
Proof.
  intros H. apply dsum_le. intros p _. destruct (P p) eqn:Hp; [by rewrite (H p Hp)|].
  destruct (Q p); [apply occ_nonneg|lia].
Qed.

Lemma gsum_term P p x : P p = true -> p ∈ dom os0 -> occ x (kids os0 p) <= gsum P x.
Proof.
  intros HP Hp. unfold gsum. pose proof (dsum_term (dom os0) p (fun p => if P p then occ x (kids os0 p) else 0) Hp) as H.
  cbv beta in H. rewrite HP in H. apply H. intros q _. destruct (P q); [apply occ_nonneg|lia].
Qed.

Lemma gsum_split P Q x : (forall p, Q p = true -> P p = true) ->
  gsum P x = gsum Q x + gsum (fun p => P p && negb (Q p)) x.
Proof.
  intros H. unfold gsum. rewrite <-dsum_plus. apply dsum_ext. intros p _.
  destruct (Q p) eqn:HQ; [rewrite (H p HQ)|destruct (P p)]; cbn; lia.
Qed.

(** Adding one object to a test. *)
Lemma gsum_add P Q p x : p ∈ dom os0 -> P p = false -> Q p = true -> (forall q, q <> p -> Q q = P q) ->
  gsum Q x = gsum P x + occ x (kids os0 p).
Proof.
  intros Hp HP HQ Hq. unfold gsum.
  rewrite (dsum_upd (dom os0) p _ (fun p => if P p then occ x (kids os0 p) else 0)) by (done || (intros q _ ?; by rewrite Hq)).
  cbv beta. rewrite HP, HQ. lia.
Qed.

Lemma wsum_add P Q p : p ∈ dom os0 -> P p = false -> Q p = true -> (forall q, q <> p -> Q q = P q) ->
  wsum Q = wsum P + 1 + Z.of_nat (length (walk os0 p)).
Proof.
  intros Hp HP HQ Hq. unfold wsum.
  rewrite (dsum_upd (dom os0) p _ (fun p => if P p then 1 + Z.of_nat (length (walk os0 p)) else 0)) by (done || (intros q _ ?; by rewrite Hq)).
  cbv beta. rewrite HP, HQ. lia.
Qed.

Lemma wsum_mono P Q : (forall p, P p = true -> Q p = true) -> wsum P <= wsum Q.
Proof.
  intros H. apply dsum_le. intros p _. destruct (P p) eqn:Hp; [by rewrite (H p Hp)|]. destruct (Q p); lia.
Qed.

(** Adding a list of objects. *)
Lemma nsum_list P Q l : NoDup l -> (forall p, p ∈ l -> p ∈ dom os0 /\ P p = false) ->
  (forall q, Q q = P q || bool_decide (q ∈ l)) -> nsum Q = nsum P + Z.of_nat (length l).
Proof.
  intros Hnd. revert P. induction Hnd as [|p l Hp Hnd IH]; intros P Hl HQ.
  - cbn. unfold nsum. rewrite (dsum_ext _ _ (fun p => if P p then 1 else 0)); [lia|].
    intros q _. rewrite HQ, bool_decide_false by set_solver. by rewrite orb_false_r.
  - set (P' := fun q => P q || bool_decide (q = p)). rewrite (IH P').
    + destruct (Hl p) as [Hdom HPp]; [set_solver|]. cbn [length]. unfold nsum.
      rewrite (dsum_upd (dom os0) p (fun p0 => if P' p0 then 1 else 0) (fun p => if P p then 1 else 0)).
      * cbv beta. unfold P'. rewrite HPp, bool_decide_true by done. cbn. lia.
      * done.
      * intros q _ Hq. unfold P'. by rewrite bool_decide_false, orb_false_r.
    + intros q Hq. destruct (Hl q) as [? HPq]; [set_solver|]. split; [done|]. unfold P'.
      rewrite HPq, bool_decide_false; [done|]. intros ->. done.
    + intros q. rewrite HQ. unfold P'. rewrite <-orb_assoc. f_equal.
      destruct (decide (q = p)) as [->|].
      * rewrite bool_decide_true, (bool_decide_true (p = p)) by set_solver. done.
      * rewrite (bool_decide_false (q = p)) by done. cbn. apply bool_decide_ext. set_solver.
Qed.

Definition asum (l : list Z) (x : Z) : Z := foldr (fun p acc => occ x (kids os0 p) + acc) 0 l.

Lemma asum_cons p l x : asum (p :: l) x = occ x (kids os0 p) + asum l x.
Proof. done. Qed.

Lemma asum_app l l' x : asum (l ++ l') x = asum l x + asum l' x.
Proof. unfold asum. induction l; cbn; [done|]. lia. Qed.

Lemma gsum_list P Q l x : NoDup l -> (forall p, p ∈ l -> p ∈ dom os0 /\ P p = false) ->
  (forall q, Q q = P q || bool_decide (q ∈ l)) -> gsum Q x = gsum P x + asum l x.
Proof.
  intros Hnd. revert P. induction Hnd as [|p l Hp Hnd IH]; intros P Hl HQ.
  - cbn. rewrite (gsum_ext Q P); [lia|].
    intros q _. rewrite HQ, bool_decide_false by set_solver. by rewrite orb_false_r.
  - set (P' := fun q => P q || bool_decide (q = p)). rewrite (IH P').
    + destruct (Hl p) as [Hdom HPp]; [set_solver|]. rewrite asum_cons.
      rewrite (gsum_add P P' p); [lia|done|done| |].
      * unfold P'. by rewrite HPp, bool_decide_true.
      * intros q Hq. unfold P'. by rewrite bool_decide_false, orb_false_r.
    + intros q Hq. destruct (Hl q) as [? HPq]; [set_solver|]. split; [done|]. unfold P'.
      rewrite HPq, bool_decide_false; [done|]. intros ->. done.
    + intros q. rewrite HQ. unfold P'. rewrite <-orb_assoc. f_equal.
      destruct (decide (q = p)) as [->|].
      * rewrite bool_decide_true, (bool_decide_true (p = p)) by set_solver. done.
      * rewrite (bool_decide_false (q = p)) by done. cbn. apply bool_decide_ext. set_solver.
Qed.
End sums.

(** ** The fuel *)

Lemma walk_fuel_wsum os : Z.of_nat (walk_fuel os) = 1 + wsum os (fun _ => true).
Proof.
  unfold walk_fuel. rewrite Nat2Z.inj_succ. cut (Z.of_nat (map_fold (fun (_ : Z) o n => S (length (cc_walk o)) + n)%nat O os) = wsum os (fun _ => true)); [lia|].
  induction os as [|p o os Hp Hfold IH] using map_first_key_ind.
  - rewrite map_fold_empty. unfold wsum. by rewrite dom_empty_L, dsum_empty.
  - rewrite map_fold_insert_first_key by done. unfold wsum.
    rewrite dom_insert_L, dsum_insert by (by apply not_elem_of_dom). unfold walk at 1. rewrite lookup_insert_eq.
    rewrite Nat2Z.inj_add, IH. unfold wsum. rewrite (dsum_ext _ (fun p0 => 1 + Z.of_nat (length (walk (<[p := o]> os) p0))) (fun p0 => 1 + Z.of_nat (length (walk os p0)))); [lia|].
    intros q Hq. unfold walk. rewrite lookup_insert_ne; [done|]. intros ->. apply elem_of_dom in Hq as [? ?]. congruence.
Qed.

Lemma walk_fuel_skel os os' : skel os' = skel os -> walk_fuel os' = walk_fuel os.
Proof.
  intros Hs. apply Nat2Z.inj. rewrite !walk_fuel_wsum. f_equal. unfold wsum. rewrite (skel_dom _ _ Hs).
  apply dsum_ext. intros p _. by rewrite (skel_walk _ _ p Hs).
Qed.

(** * The marking and the scanning walks of the collector

    [cc_mark_gray] over the candidates turns gray exactly what they reach and
    takes one count per edge out of a gray object. *)

Definition is_col os (c : color) (p : Z) : bool := bool_decide (col os p = c).

(** What the candidates [rs] reach. *)
Definition reached os (rs : list Z) (x : Z) : Prop := exists r, r ∈ rs /\ rtc (edge os) r x.

Lemma reached_app os rs rs' x : reached os rs x -> reached os (rs ++ rs') x.
Proof. intros (r & Hr & Hx). exists r. split; [set_solver|done]. Qed.

Lemma reached_step os rs x y : reached os rs x -> edge os x y -> reached os rs y.
Proof. intros (r & Hr & Hx) Hy. exists r. split; [done|]. by eapply rtc_r. Qed.

Section mark.
Context {os0 : gmap Z obj} {e : Z -> Z} (Hok : heap_ok os0 e).

Lemma kids_edge p c : alive os0 p = true -> c ∈ kids os0 p -> edge os0 p c.
Proof. done. Qed.

Lemma reached_alive rs x : (forall r, r ∈ rs -> alive os0 r = true) -> reached os0 rs x -> alive os0 x = true.
Proof.
  intros Hrs (r & Hr & Hx). specialize (Hrs r Hr). clear Hr. induction Hx as [x|x y z [_ Hy] _ IH]; [done|].
  apply IH. by apply (ok_kid_alive Hok x).
Qed.

(** The heap [os] while the candidates [rs] are marked, the objects of [st]
    still to be visited. *)
Record mark_inv (rs : list Z) os st : Prop := {
  mi_pres : pres os0 os;
  mi_cnt : forall x, cnt os x = cnt os0 x - gsum os0 (is_col os CC_GRAY) x;
  mi_col : forall x, col os x = CC_GRAY /\ reached os0 rs x \/ col os x = col os0 x;
  mi_kids : forall p c, col os p = CC_GRAY -> c ∈ kids os0 p -> col os c = CC_GRAY \/ c ∈ st;
  mi_stack : forall x, x ∈ st -> reached os0 rs x
}.

Lemma mark_loop_ok rs : (forall r, r ∈ rs -> alive os0 r = true) ->
  forall fuel os st, mark_inv rs os st ->
  Z.of_nat (length st) + wsum os0 (fun p => negb (is_col os CC_GRAY p)) <= Z.of_nat fuel ->
  exists os', mark_loop fuel os st = Some os' /\ mark_inv rs os' [] /\
    (forall x, col os x = CC_GRAY \/ x ∈ st -> col os' x = CC_GRAY).
Proof.
  intros Hrs. induction fuel as [|fuel IH]; intros os st Hinv Hfuel.
  { destruct st as [|p st]; [exists os; split_and!; [done..|set_solver]|].
    pose proof (wsum_nonneg os0 (fun p => negb (is_col os CC_GRAY p))). cbn [length] in Hfuel. lia. }
  destruct st as [|p st]; [exists os; split_and!; [done..|set_solver]|].
  destruct Hinv as [Hpres Hcnt Hcol Hkids Hst].
  assert (Hrp : reached os0 rs p) by (apply Hst; set_solver).
  pose proof (reached_alive rs p Hrs Hrp) as Hap.
  destruct (alive_mortal _ _ Hap) as [Hmp _].
  assert (Hdom : p ∈ dom os0) by (by apply mortal_dom).
  destruct (mortal_some _ _ Hmp) as (o0 & Ho0 & _).
  destruct (pres_dom os0 os p Hpres) as [o Ho]; [eauto|].
  cbn [mark_loop]. rewrite Ho. cbn [mbind option_bind]. cbn [length] in Hfuel.
  destruct (decide (o_color o = CC_GRAY)) as [Hg|Hg].
  - assert (Hgp : col os p = CC_GRAY) by (by rewrite (col_some _ _ _ Ho)).
    destruct (IH os st) as (os' & Hrun & Hinv' & Hmono); [|lia|].
    + split; try done.
      * intros q c Hq Hc. destruct (Hkids q c Hq Hc) as [?|[->|?]%elem_of_cons]; auto.
      * intros x Hx. apply Hst. set_solver.
    + exists os'. split_and!; [done..|]. intros x [?|[->|?]%elem_of_cons]; auto.
  - assert (Hgp : col os p <> CC_GRAY) by (by rewrite (col_some _ _ _ Ho)).
    set (os1 := <[p := cc_set_color o CC_GRAY]> os).
    assert (Hp1 : pres os os1) by (by apply (pres_insert _ _ o)).
    assert (Hcol1 : forall x, col os1 x = if decide (p = x) then CC_GRAY else col os x) by (intros; apply col_insert).
    assert (Hcnt1 : forall x, cnt os1 x = cnt os x).
    { intros x. unfold os1. rewrite cnt_insert. case_decide; [|done]. subst. by rewrite (cnt_some _ _ _ Ho). }
    assert (Hp01 : pres os0 os1) by (by apply (pres_trans _ os)).
    assert (Hwalk : cc_walk o = walk os0 p).
    { rewrite <-(skel_walk os0 os p (proj1 Hpres)). unfold walk. by rewrite Ho. }
    destruct (dec_push_spec (cc_walk o) os1 st) as (os2 & -> & Hp2 & Hcol2 & Hcnt2).
    { intros c Hc. apply (pres_dom os0); [done|]. rewrite Hwalk in Hc. unfold walk in Hc. rewrite Ho0 in Hc.
      by apply (ho_kids _ _ Hok p o0). }
    cbn [mbind option_bind].
    assert (Hkp : List.filter (mortal os1) (cc_walk o) = kids os0 p).
    { rewrite kids_walk, Hwalk. apply filter_ext_in. intros x _. by apply skel_mortal, Hp01. }
    rewrite Hkp in *.
    assert (Hgray : forall q, is_col os2 CC_GRAY q = is_col os CC_GRAY q || bool_decide (q = p)).
    { intros q. unfold is_col. rewrite Hcol2, Hcol1. destruct (decide (p = q)) as [->|Hne].
      - rewrite (bool_decide_true (q = q)), orb_true_r by done. by apply bool_decide_true.
      - rewrite (bool_decide_false (q = p)) by done. by rewrite orb_false_r. }
    assert (Hgp' : is_col os CC_GRAY p = false) by (by apply bool_decide_false).
    destruct (IH os2 (rev (kids os0 p) ++ st)) as (os' & Hrun & Hinv' & Hmono).
    + split.
      * by apply (pres_trans _ os1).
      * intros x. rewrite Hcnt2, Hcnt1, Hcnt. rewrite (gsum_add os0 (is_col os CC_GRAY) (is_col os2 CC_GRAY) p); [lia|done|done| |].
        -- rewrite Hgray, (bool_decide_true (p = p)) by done. apply orb_true_r.
        -- intros q Hq. rewrite Hgray, (bool_decide_false (q = p)) by done. apply orb_false_r.
      * intros x. rewrite Hcol2, Hcol1. case_decide; [subst; by left|apply Hcol].
      * intros q c. rewrite !Hcol2, !Hcol1. intros Hq Hc. rewrite elem_of_app.
        destruct (decide (p = q)) as [->|Hne].
        { right. left. apply list_elem_of_In, in_rev. rewrite rev_involutive. by apply list_elem_of_In. }
        destruct (Hkids q c Hq Hc) as [Hgc|[->|?]%elem_of_cons].
        -- left. by case_decide.
        -- left. by rewrite decide_True.
        -- by right; right.
      * intros x [Hx|Hx]%elem_of_app; [|apply Hst; set_solver].
        apply (reached_step os0 rs p); [done|]. split; [done|].
        apply list_elem_of_In, in_rev, list_elem_of_In in Hx. done.
    + rewrite length_app, length_rev.
      rewrite (wsum_add os0 (fun q => negb (is_col os2 CC_GRAY q)) (fun q => negb (is_col os CC_GRAY q)) p) in Hfuel.
      * pose proof (f_equal length Hkp) as Hlen. rewrite kids_walk.
        pose proof (filter_length_le (mortal os0) (walk os0 p)). lia.
      * done.
      * rewrite Hgray, (bool_decide_true (p = p)) by done. by rewrite orb_true_r.
      * by rewrite Hgp'.
      * intros q Hq. rewrite Hgray, (bool_decide_false (q = p)) by done. by rewrite orb_false_r.
    + exists os'. split_and!; [done..|]. intros x Hx. apply Hmono. rewrite Hcol2, Hcol1, elem_of_app.
      destruct Hx as [Hx|[->|Hx]%elem_of_cons]; [left; by case_decide|left; by rewrite decide_True|by right; right].
Qed.

(** All candidates marked. *)
Record marked (rs : list Z) os : Prop := {
  mk_pres : pres os0 os;
  mk_cnt : forall x, cnt os x = cnt os0 x - gsum os0 (is_col os CC_GRAY) x;
  mk_gray : forall x, col os x = CC_GRAY <-> reached os0 rs x;
  mk_other : forall x, col os x <> CC_GRAY -> col os x = col os0 x
}.

Lemma rest_not_gray x : col os0 x <> CC_GRAY.
Proof. destruct (ho_color _ _ Hok x) as [->|[-> _]]; done. Qed.

Lemma mark_roots_ok rs : (forall r, r ∈ rs -> alive os0 r = true) ->
  exists os', for_roots cc_mark_gray rs os0 = Some os' /\ marked rs os'.
Proof.
  intros Hrs.
  cut (forall todo done os, done ++ todo = rs -> mark_inv rs os [] -> (forall x, x ∈ done -> col os x = CC_GRAY) ->
    exists os', for_roots cc_mark_gray todo os = Some os' /\ mark_inv rs os' [] /\ (forall x, x ∈ rs -> col os' x = CC_GRAY)).
  { intros H. destruct (H rs [] os0) as (os' & Hrun & [Hpres Hcnt Hcol Hkids _] & Hall); [done| |set_solver|].
    - split; try done.
      + intros x. rewrite (gsum_ext os0 _ (fun _ => false)); [|intros p _; apply bool_decide_false, rest_not_gray].
        unfold gsum. rewrite dsum_zero by done. lia.
      + auto.
      + intros p c Hp. by apply rest_not_gray in Hp.
      + set_solver.
    - exists os'. split; [done|]. split; try done.
      + intros x. split.
        * intros Hx. destruct (Hcol x) as [[_ ?]|Hx']; [done|]. rewrite Hx in Hx'. symmetry in Hx'. by apply rest_not_gray in Hx'.
        * intros (r & Hr & Hx). specialize (Hall r Hr). clear Hr. induction Hx as [x|x y z [_ Hy] _ IH]; [done|].
          apply IH. destruct (Hkids x y Hall Hy) as [?|?]; [done|set_solver].
      + intros x Hx. destruct (Hcol x) as [[? _]|?]; done. }
  induction todo as [|r todo IH]; intros done os Heq Hinv Hdone.
  - exists os. rewrite app_nil_r in Heq. subst. auto.
  - cbn [for_roots]. unfold cc_mark_gray. rewrite (walk_fuel_skel os0 os) by apply Hinv.
    assert (Hr : reached os0 rs r) by (exists r; split; [set_solver|done]).
    destruct (mark_loop_ok rs Hrs (walk_fuel os0) os [r]) as (os1 & -> & Hinv1 & Hmono).
    + destruct Hinv as [? ? ? Hkids _]. split; try done.
      * intros p c Hp Hc. destruct (Hkids p c Hp Hc); [auto|set_solver].
      * intros x ->%list_elem_of_singleton. done.
    + rewrite walk_fuel_wsum. cbn [length].
      pose proof (wsum_mono os0 (fun p => negb (is_col os CC_GRAY p)) (fun _ => true) ltac:(done)). lia.
    + cbn [mbind option_bind]. apply (IH (done ++ [r])); [by rewrite <-app_assoc|done|].
      intros x [Hx|Hx%list_elem_of_singleton]%elem_of_app; apply Hmono; [left; auto|right; set_solver].
Qed.
End mark.

(** * What is referenced from outside the candidates

    After [cc_scan] over the candidates every gray object is white or black
    again: black with its counts restored when something outside the marked
    set reaches it, white with a count of zero when nothing does. *)

Implicit Types (ax : list Z).

Section scan.
Context {os0 os1 : gmap Z obj} {e : Z -> Z} {rs : list Z}.
Context (Hok : heap_ok os0 e) (Hrs : forall r, r ∈ rs -> alive os0 r = true) (Hmark : marked (os0 := os0) rs os1).

(** The marked set. *)
Definition inR (p : Z) : bool := is_col os1 CC_GRAY p.
(** Its members not yet known to be reachable from outside. *)
Definition pale os (p : Z) : bool := inR p && negb (is_col os CC_BLACK p).
(** References from outside the marked set. *)
Definition surplus (x : Z) : Z := cnt os0 x - gsum os0 inR x.

Lemma inR_reached p : inR p = true <-> reached os0 rs p.
Proof. unfold inR, is_col. rewrite bool_decide_eq_true. apply (mk_gray _ _ Hmark). Qed.

Lemma inR_alive p : inR p = true -> alive os0 p = true.
Proof. intros H%inR_reached. by apply (reached_alive Hok rs). Qed.

Lemma inR_dom p : inR p = true -> p ∈ dom os0.
Proof. intros H%inR_alive. by apply mortal_dom, alive_mortal. Qed.

Lemma inR_kid p c : inR p = true -> c ∈ kids os0 p -> inR c = true.
Proof.
  intros Hp Hc. apply inR_reached. apply inR_reached in Hp as Hp'. eapply reached_step; [done|].
  split; [by apply inR_alive|done].
Qed.

Lemma surplus_nonneg x : mortal os0 x = true -> 0 <= surplus x.
Proof.
  intros Hm. unfold surplus. rewrite (ho_count _ _ Hok x Hm). pose proof (ho_ext _ _ Hok x).
  enough (gsum os0 inR x <= refs os0 x) by lia. apply dsum_le. intros p _.
  destruct (inR p) eqn:Hp; [by rewrite (inR_alive p Hp)|]. destruct (alive os0 p); [apply occ_nonneg|lia].
Qed.

(** [ax] are the objects turned black whose children still wait. *)
Record scan_inv os ax : Prop := {
  si_pres : pres os0 os;
  si_cnt : forall x, cnt os x = cnt os0 x - gsum os0 (pale os) x - asum os0 ax x;
  si_out : forall x, inR x = false -> col os x = col os0 x;
  si_col : forall x, inR x = true -> col os x = CC_GRAY \/ col os x = CC_WHITE \/ col os x = CC_BLACK;
  si_white : forall x, inR x = true -> col os x = CC_WHITE -> cnt os x = 0;
  si_aux : NoDup ax /\ forall x, x ∈ ax -> inR x = true /\ col os x = CC_BLACK;
  si_black : forall p c, inR p = true -> col os p = CC_BLACK -> p ∉ ax -> c ∈ kids os0 p -> col os c = CC_BLACK;
  si_why : forall x, inR x = true -> col os x = CC_BLACK ->
    exists y, inR y = true /\ 0 < surplus y /\ rtc (edge os0) y x
}.

Lemma scan_lookup os p : pres os0 os -> inR p = true -> exists o, os !! p = Some o /\ cc_walk o = walk os0 p.
Proof.
  intros Hp HR. destruct (pres_dom os0 os p Hp) as [o Ho]; [by apply elem_of_dom, inR_dom|].
  exists o. split; [done|]. rewrite <-(skel_walk os0 os p (proj1 Hp)). unfold walk. by rewrite Ho.
Qed.

Lemma scan_walk_dom os p o : pres os0 os -> inR p = true -> os !! p = Some o ->
  forall c, c ∈ cc_walk o -> is_Some (os !! c).
Proof.
  intros Hp HR Ho c Hc. apply (pres_dom os0); [done|].
  destruct (scan_lookup os p Hp HR) as (o' & Ho' & Hw). simplify_eq. rewrite Hw in Hc.
  unfold walk in Hc. pose proof (inR_dom p HR) as [o0 Ho0]%elem_of_dom. rewrite Ho0 in Hc.
  apply (ho_kids _ _ Hok p o0); [done|by apply inR_alive|done].
Qed.

Lemma scan_kids os p o : pres os0 os -> inR p = true -> os !! p = Some o ->
  List.filter (mortal os) (cc_walk o) = kids os0 p.
Proof.
  intros Hp HR Ho. destruct (scan_lookup os p Hp HR) as (o' & Ho' & Hw). simplify_eq.
  rewrite Hw, kids_walk. apply filter_ext_in. intros x _. by apply skel_mortal, Hp.
Qed.

(** A pale object with a positive count is referenced from outside. *)
Lemma scan_surplus os p : scan_inv os [] -> inR p = true -> col os p <> CC_BLACK -> cnt os p = surplus p.
Proof.
  intros Hinv HR Hc. rewrite (si_cnt _ _ Hinv). unfold surplus, asum. cbn.
  rewrite (gsum_split os0 inR (pale os)) by (intros q; unfold pale; by intros [? _]%andb_true_iff).
  enough (gsum os0 (fun q => inR q && negb (pale os q)) p = 0) by lia.
  apply dsum_zero. intros q _. destruct (inR q) eqn:HRq; [|done]. destruct (pale os q) eqn:Hq; [done|]. cbn.
  apply occ_zero. intros Hin. apply Hc. apply (si_black _ _ Hinv q); [done| |set_solver|done].
  unfold pale in Hq. rewrite HRq in Hq. cbn in Hq. apply negb_false_iff, bool_decide_eq_true in Hq. done.
Qed.

(** ** Restoring *)

Lemma black_loop_ok : forall fuel os ax, scan_inv os ax ->
  Z.of_nat (length ax) + nsum os0 (pale os) <= Z.of_nat fuel ->
  exists os', black_loop fuel os ax = Some os' /\ scan_inv os' [] /\
    (forall x, col os' x = col os x \/ col os' x = CC_BLACK).
Proof.
  induction fuel as [|fuel IH]; intros os ax Hinv Hfuel.
  { destruct ax as [|p ax]; [exists os; auto|]. pose proof (nsum_nonneg os0 (pale os)). cbn [length] in Hfuel. lia. }
  destruct ax as [|p ax]; [exists os; auto|].
  destruct Hinv as [Hpres Hcnt Hout Hcol Hwhite [Hnd Hax] Hblack Hwhy].
  apply NoDup_cons in Hnd as [Hpax Hnd]. destruct (Hax p) as [HRp Hbp]; [set_solver|].
  destruct (scan_lookup os p Hpres HRp) as (o & Ho & Hw).
  cbn [black_loop]. rewrite Ho. cbn [mbind option_bind]. cbn [length] in Hfuel.
  destruct (inc_push_spec (cc_walk o) os ax) as (os2 & new & -> & Hp2 & Hcol2 & Hcnt2 & Hndn & Hnew).
  { by apply (scan_walk_dom os p). }
  rewrite (scan_kids os p o Hpres HRp Ho) in *. cbn [mbind option_bind].
  assert (HnewR : forall x, x ∈ new -> inR x = true /\ col os x <> CC_BLACK /\ col os2 x = CC_BLACK).
  { intros x [Hx Hc]%Hnew. split; [by apply (inR_kid p)|]. split; [done|]. by rewrite Hcol2, bool_decide_true. }
  assert (Hmono : forall x, col os2 x = col os x \/ col os2 x = CC_BLACK).
  { intros x. rewrite Hcol2. case_bool_decide; auto. }
  assert (Hpale : forall q, pale os q = pale os2 q || bool_decide (q ∈ new)).
  { intros q. unfold pale, is_col. destruct (inR q) eqn:HRq; cbn.
    - rewrite Hcol2. destruct (decide (q ∈ kids os0 p)) as [Hq|Hq].
      + rewrite (bool_decide_true (q ∈ kids os0 p)), (bool_decide_true (CC_BLACK = CC_BLACK)) by done. cbn.
        destruct (decide (col os q = CC_BLACK)) as [Hc|Hc].
        * rewrite bool_decide_true by done. symmetry. apply bool_decide_false. rewrite Hnew. naive_solver.
        * rewrite bool_decide_false by done. symmetry. apply bool_decide_true. by apply Hnew.
      + rewrite (bool_decide_false (q ∈ kids os0 p)) by done.
        rewrite (bool_decide_false (q ∈ new)) by (rewrite Hnew; naive_solver). by rewrite orb_false_r.
    - symmetry. apply bool_decide_false. intros Hq. apply HnewR in Hq as [? _]. congruence. }
  assert (HnewP : forall q, q ∈ new -> q ∈ dom os0 /\ pale os2 q = false).
  { intros q Hq. destruct (HnewR q Hq) as (HRq & _ & Hc2). split; [by apply inR_dom|].
    unfold pale, is_col. rewrite HRq, bool_decide_true by done. done. }
  destruct (IH os2 (new ++ ax)) as (os' & Hrun & Hinv' & Hmono').
  - split.
    + by apply (pres_trans _ os).
    + intros x. rewrite Hcnt2, Hcnt, asum_cons, asum_app.
      rewrite (gsum_list os0 (pale os2) (pale os) new) by done. lia.
    + intros x Hx. rewrite Hcol2, bool_decide_false; [by apply Hout|]. intros Hin.
      apply (inR_kid p) in Hin; [congruence|done].
    + intros x Hx. destruct (Hmono x) as [->|?]; auto.
    + intros x Hx Hw2. rewrite Hcol2 in Hw2. case_bool_decide as Hk; [done|].
      rewrite Hcnt2, (occ_zero x), (Hwhite x) by done. lia.
    + split.
      * apply NoDup_app. split; [done|]. split; [|done]. intros x Hx Hx'. destruct (HnewR x Hx) as (_ & Hc & _).
        apply Hc. apply Hax. set_solver.
      * intros x [Hx|Hx]%elem_of_app; [by destruct (HnewR x Hx) as (? & _ & ?)|].
        destruct (Hax x) as [? Hb]; [set_solver|]. split; [done|]. destruct (Hmono x) as [->|?]; done.
    + intros q c HRq Hbq Hq Hc. rewrite elem_of_app in Hq.
      assert (Hbq0 : col os q = CC_BLACK).
      { rewrite Hcol2 in Hbq. case_bool_decide as Hk; [|done]. destruct (decide (col os q = CC_BLACK)); [done|].
        destruct Hq. left. by apply Hnew. }
      destruct (decide (q = p)) as [->|Hqp]; [by rewrite Hcol2, bool_decide_true|].
      destruct (Hmono c) as [->|?]; [|done]. apply (Hblack q); [done..| |done]. set_solver.
    + intros x HRx Hbx. destruct (decide (col os x = CC_BLACK)) as [Hb|Hb]; [by apply Hwhy|].
      rewrite Hcol2 in Hbx. case_bool_decide as Hk; [|done].
      destruct (Hwhy p HRp Hbp) as (y & HRy & Hs & Hy). exists y. split_and!; try done.
      eapply rtc_r; [done|]. split; [by apply inR_alive|done].
  - rewrite length_app. rewrite (nsum_list os0 (pale os2) (pale os) new) in Hfuel by done. lia.
  - exists os'. split_and!; [done..|]. intros x. destruct (Hmono' x) as [->|?]; auto.
Qed.

Lemma scan_black_ok os p : scan_inv os [] -> inR p = true -> col os p = CC_GRAY -> 0 < cnt os p ->
  exists os', cc_scan_black os p = Some os' /\ scan_inv os' [] /\
    (forall x, col os' x = col os x \/ col os' x = CC_BLACK) /\ col os' p = CC_BLACK.
Proof.
  intros Hinv HRp Hg Hpos. pose proof (scan_surplus os p Hinv HRp ltac:(by rewrite Hg)) as Hsur.
  destruct Hinv as [Hpres Hcnt Hout Hcol Hwhite _ Hblack Hwhy].
  destruct (scan_lookup os p Hpres HRp) as (o & Ho & Hw).
  unfold cc_scan_black. rewrite Ho. cbn [mbind option_bind].
  set (os2 := <[p := cc_set_color o CC_BLACK]> os).
  assert (Hp2 : pres os os2) by (by apply (pres_insert _ _ o)).
  assert (Hcol2 : forall x, col os2 x = if decide (p = x) then CC_BLACK else col os x) by (intros; apply col_insert).
  assert (Hcnt2 : forall x, cnt os2 x = cnt os x).
  { intros x. unfold os2. rewrite cnt_insert. case_decide; [|done]. subst. by rewrite (cnt_some _ _ _ Ho). }
  assert (Hmono : forall x, col os2 x = col os x \/ col os2 x = CC_BLACK).
  { intros x. rewrite Hcol2. case_decide; auto. }
  rewrite (walk_fuel_skel os0 os) by apply Hpres.
  destruct (black_loop_ok (walk_fuel os0) os2 [p]) as (os' & Hrun & Hinv' & Hmono').
  - split.
    + by apply (pres_trans _ os).
    + intros x. rewrite Hcnt2, Hcnt, asum_cons. unfold asum. cbn.
      rewrite (gsum_add os0 (pale os2) (pale os) p); [lia|by apply inR_dom| | |].
      * unfold pale, is_col. rewrite Hcol2, decide_True, bool_decide_true by done. apply andb_false_r.
      * unfold pale, is_col. rewrite HRp, Hg. done.
      * intros q Hq. unfold pale, is_col. by rewrite Hcol2, decide_False.
    + intros x Hx. rewrite Hcol2, decide_False; [by apply Hout|congruence].
    + intros x Hx. destruct (Hmono x) as [->|?]; auto.
    + intros x Hx. rewrite Hcol2, Hcnt2. case_decide; [done|by apply Hwhite].
    + split; [apply NoDup_singleton|]. intros x ->%list_elem_of_singleton. by rewrite Hcol2, decide_True.
    + intros q c HRq Hbq Hq Hc. rewrite Hcol2 in Hbq. rewrite decide_False in Hbq by set_solver.
      destruct (Hmono c) as [->|?]; [|done]. apply (Hblack q); [done..|set_solver|done].
    + intros x HRx. rewrite Hcol2. case_decide as Hpx; [|by apply Hwhy]. intros _. subst x.
      exists p. split_and!; [done|lia|done].
  - rewrite walk_fuel_wsum. cbn [length].
    enough (nsum os0 (pale os2) <= wsum os0 (fun _ => true)) by lia.
    apply dsum_le. intros q _. destruct (pale os2 q); lia.
  - exists os'. split_and!; try done.
    + intros x. destruct (Hmono' x) as [->|?]; auto.
    + destruct (Hmono' p) as [->|?]; [|done]. by rewrite Hcol2, decide_True.
Qed.

(** ** Scanning *)

(** Outside the work stack no white object has a gray child. *)
Record scan_st os st : Prop := {
  ss_inv : scan_inv os [];
  ss_white : forall p c, inR p = true -> col os p = CC_WHITE -> c ∈ kids os0 p -> col os c <> CC_GRAY \/ c ∈ st;
  ss_stack : forall x, x ∈ st -> inR x = true
}.

Lemma scan_loop_ok : forall fuel os st, scan_st os st ->
  Z.of_nat (length st) + wsum os0 (is_col os CC_GRAY) <= Z.of_nat fuel ->
  exists os', scan_loop fuel os st = Some os' /\ scan_st os' [] /\
    (forall x, col os x <> CC_GRAY \/ x ∈ st -> col os' x <> CC_GRAY).
Proof.
  induction fuel as [|fuel IH]; intros os st Hst Hfuel.
  { destruct st as [|p st]; [exists os; split_and!; [done..|set_solver]|].
    pose proof (wsum_nonneg os0 (is_col os CC_GRAY)). cbn [length] in Hfuel. lia. }
  destruct st as [|p st]; [exists os; split_and!; [done..|set_solver]|].
  destruct Hst as [Hinv Hwh Hstk]. pose proof (Hstk p ltac:(set_solver)) as HRp.
  pose proof (si_pres _ _ Hinv) as Hpres.
  destruct (scan_lookup os p Hpres HRp) as (o & Ho & Hw).
  cbn [scan_loop]. rewrite Ho. cbn [mbind option_bind]. cbn [length] in Hfuel.
  destruct (decide (o_color o = CC_GRAY)) as [Hg|Hg]; rewrite <-(col_some _ _ _ Ho) in Hg.
  - destruct (Z.ltb_spec 0 (o_count o)) as [Hc|Hc]; rewrite <-(cnt_some _ _ _ Ho) in Hc.
    + destruct (scan_black_ok os p Hinv HRp Hg Hc) as (os2 & -> & Hinv2 & Hmono & Hbp). cbn [mbind option_bind].
      destruct (IH os2 st) as (os' & Hrun & Hst' & Hmono').
      * split; [done| |set_solver]. intros q c HRq Hwq Hqc.
        destruct (Hmono q) as [Hq|Hq]; [|congruence]. rewrite Hq in Hwq.
        destruct (Hwh q c HRq Hwq Hqc) as [Hcg|[->|?]%elem_of_cons]; [|left; congruence|by right].
        left. destruct (Hmono c) as [-> | ->]; done.
      * enough (wsum os0 (is_col os2 CC_GRAY) <= wsum os0 (is_col os CC_GRAY)) by lia.
        apply wsum_mono. intros q. unfold is_col. rewrite !bool_decide_eq_true. destruct (Hmono q) as [-> | ->]; done.
      * exists os'. split_and!; [done..|]. intros x Hx. apply Hmono'.
        destruct Hx as [Hx|[->|Hx]%elem_of_cons]; [left|left; congruence|by right].
        destruct (Hmono x) as [-> | ->]; done.
    + (* nothing outside holds it so far *)
      pose proof (scan_surplus os p Hinv HRp ltac:(by rewrite Hg)) as Hsur.
      pose proof (surplus_nonneg p) as Hnn.
      assert (Hz : cnt os p = 0).
      { enough (0 <= surplus p) by lia. apply Hnn. apply alive_mortal. by apply inR_alive. }
      set (os2 := <[p := cc_set_color o CC_WHITE]> os).
      assert (Hp2 : pres os os2) by (by apply (pres_insert _ _ o)).
      assert (Hp02 : pres os0 os2) by (by apply (pres_trans _ os)).
      assert (Ho2 : os2 !! p = Some (cc_set_color o CC_WHITE)) by apply lookup_insert_eq.
      assert (Hcol2 : forall x, col os2 x = if decide (p = x) then CC_WHITE else col os x) by (intros; apply col_insert).
      assert (Hcnt2 : forall x, cnt os2 x = cnt os x).
      { intros x. unfold os2. rewrite cnt_insert. case_decide; [|done]. subst. by rewrite (cnt_some _ _ _ Ho). }
      rewrite push_kids_spec by (exact (scan_walk_dom os2 p _ Hp02 HRp Ho2)).
      cbn [mbind option_bind]. pose proof (scan_kids os2 p _ Hp02 HRp Ho2) as Hkp. change (cc_walk (cc_set_color o CC_WHITE)) with (cc_walk o) in Hkp.
      rewrite Hkp.
      destruct (IH os2 (rev (kids os0 p) ++ st)) as (os' & Hrun & Hst' & Hmono').
      * split.
        -- destruct Hinv as [_ Hcnt Hout Hcol Hwhite _ Hblack Hwhy]. split; try done.
           ++ intros x. rewrite Hcnt2, Hcnt. rewrite (gsum_ext os0 (pale os2) (pale os)); [done|].
              intros q _. unfold pale, is_col. rewrite Hcol2. case_decide; [|done]. subst. by rewrite Hg.
           ++ intros x Hx. rewrite Hcol2, decide_False; [by apply Hout|congruence].
           ++ intros x Hx. rewrite Hcol2. case_decide; auto.
           ++ intros x Hx. rewrite Hcol2, Hcnt2. case_decide; [by subst|by apply Hwhite].
           ++ split; [apply NoDup_nil_2|set_solver].
           ++ intros q c HRq. rewrite !Hcol2. case_decide; [done|]. intros Hbq Hq Hc'.
              case_decide; [|by apply (Hblack q)]. subst c.
              rewrite (Hblack q p HRq Hbq Hq Hc') in Hg. done.
           ++ intros x HRx. rewrite Hcol2. case_decide; [done|by apply Hwhy].
        -- intros q c HRq. rewrite !Hcol2, elem_of_app. intros Hwq Hqc.
           destruct (decide (p = c)) as [->|Hpc]; [by left|].
           destruct (decide (p = q)) as [->|Hpq].
           ++ right. left. apply list_elem_of_In, in_rev. rewrite rev_involutive. by apply list_elem_of_In.
           ++ destruct (Hwh q c HRq Hwq Hqc) as [?|[->|?]%elem_of_cons]; [by left|done|by right; right].
        -- intros x [Hx|Hx]%elem_of_app; [|apply Hstk; set_solver].
           apply list_elem_of_In, in_rev, list_elem_of_In in Hx. by apply (inR_kid p).
      * rewrite length_app, length_rev. rewrite (wsum_add os0 (is_col os2 CC_GRAY) (is_col os CC_GRAY) p) in Hfuel.
        -- rewrite kids_walk. pose proof (filter_length_le (mortal os0) (walk os0 p)). lia.
        -- by apply inR_dom.
        -- unfold is_col. rewrite Hcol2, decide_True by done. done.
        -- by apply bool_decide_true.
        -- intros q Hq. unfold is_col. by rewrite Hcol2, decide_False.
      * exists os'. split_and!; [done..|]. intros x Hx. apply Hmono'. rewrite Hcol2, elem_of_app.
        destruct Hx as [Hx|[->|Hx]%elem_of_cons]; [left; by case_decide|left; by rewrite decide_True|by right; right].
  - destruct (IH os st) as (os' & Hrun & Hst' & Hmono'); [|lia|].
    + split; [done| |set_solver]. intros q c HRq Hwq Hqc.
      destruct (Hwh q c HRq Hwq Hqc) as [?|[->|?]%elem_of_cons]; auto.
    + exists os'. split_and!; [done..|]. intros x [?|[->|?]%elem_of_cons]; auto.
Qed.

(** All candidates scanned: the marked set is white or black. *)
Record scanned os : Prop := {
  sc_pres : pres os0 os;
  sc_cnt : forall x, cnt os x = cnt os0 x - gsum os0 (is_col os CC_WHITE) x;
  sc_white : forall x, col os x = CC_WHITE -> inR x = true /\ cnt os x = 0;
  sc_col : forall x, inR x = true -> col os x = CC_WHITE \/ col os x = CC_BLACK;
  sc_out : forall x, inR x = false -> col os x = col os0 x;
  sc_black : forall p c, inR p = true -> col os p = CC_BLACK -> c ∈ kids os0 p -> col os c = CC_BLACK;
  sc_why : forall x, inR x = true -> col os x = CC_BLACK ->
    exists y, inR y = true /\ 0 < surplus y /\ rtc (edge os0) y x
}.

Lemma scan_start : scan_st os1 [].
Proof.
  assert (Hg : forall x, inR x = true -> col os1 x = CC_GRAY) by (intros x Hx; by apply bool_decide_eq_true in Hx).
  split; [|intros p c HR Hw; by rewrite Hg in Hw|set_solver]. split.
  - apply (mk_pres _ _ Hmark).
  - intros x. rewrite (mk_cnt _ _ Hmark). unfold asum. cbn. rewrite (gsum_ext os0 (pale os1) (is_col os1 CC_GRAY)); [lia|].
    intros p _. unfold pale, inR, is_col. destruct (decide (col os1 p = CC_GRAY)) as [->|]; [done|]. by rewrite (bool_decide_false (col os1 p = CC_GRAY)).
  - intros x Hx. apply (mk_other _ _ Hmark). by apply bool_decide_eq_false in Hx.
  - intros x Hx. left. auto.
  - intros x Hx. rewrite Hg; done.
  - split; [apply NoDup_nil_2|set_solver].
  - intros p c Hp. rewrite Hg; done.
  - intros x Hx. rewrite Hg; done.
Qed.

Lemma scan_done os : scan_st os [] -> (forall r, r ∈ rs -> col os r <> CC_GRAY) -> scanned os.
Proof.
  intros [Hinv Hwh _] Hroots.
  assert (Hcols : forall x, inR x = true -> col os x = CC_WHITE \/ col os x = CC_BLACK).
  { intros x Hx. cut (col os x <> CC_GRAY).
    - intros Hn. destruct (si_col _ _ Hinv x Hx) as [?|[?|?]]; auto; done.
    - apply inR_reached in Hx as (r & Hr & Hx). specialize (Hroots r Hr).
      assert (HRr : inR r = true) by (apply inR_reached; by exists r). clear Hr.
      induction Hx as [x|x y z [_ Hy] _ IH]; [done|]. apply IH; [|by apply (inR_kid x)].
      destruct (si_col _ _ Hinv x HRr) as [?|[Hw|Hb]]; [done| |].
      + destruct (Hwh x y HRr Hw Hy); [done|set_solver].
      + rewrite (si_black _ _ Hinv x y); [done..|set_solver|done]. }
  assert (Hwhite : forall x, col os x = CC_WHITE -> inR x = true).
  { intros x Hx. destruct (inR x) eqn:HR; [done|]. rewrite (si_out _ _ Hinv x HR) in Hx.
    destruct (ho_color _ _ Hok x) as [?|[? _]]; congruence. }
  split.
  - apply Hinv.
  - intros x. rewrite (si_cnt _ _ Hinv). unfold asum. cbn. rewrite (gsum_ext os0 (pale os) (is_col os CC_WHITE)); [lia|].
    intros p _. unfold pale, is_col. destruct (inR p) eqn:HR; cbn.
    + destruct (Hcols p HR) as [-> | ->]; done.
    + symmetry. apply bool_decide_false. intros Hw. apply Hwhite in Hw. congruence.
  - intros x Hx. split; [by apply Hwhite|]. apply (si_white _ _ Hinv); [by apply Hwhite|done].
  - done.
  - apply (si_out _ _ Hinv).
  - intros p c HR Hb Hc. apply (si_black _ _ Hinv p); [done..|set_solver|done].
  - apply (si_why _ _ Hinv).
Qed.

Lemma scan_roots_ok : exists os2, for_roots cc_scan rs os1 = Some os2 /\ scanned os2.
Proof.
  cut (forall todo done os, done ++ todo = rs -> scan_st os [] -> (forall x, x ∈ done -> col os x <> CC_GRAY) ->
    exists os2, for_roots cc_scan todo os = Some os2 /\ scanned os2).
  { intros H. apply (H rs [] os1); [done|apply scan_start|set_solver]. }
  induction todo as [|r todo IH]; intros done os Heq Hst Hdone.
  - exists os. split; [done|]. apply scan_done; [done|]. rewrite app_nil_r in Heq. by subst.
  - cbn [for_roots]. unfold cc_scan. rewrite (walk_fuel_skel os0 os) by apply Hst.
    assert (Hr : inR r = true) by (apply inR_reached; exists r; split; [set_solver|done]).
    destruct (scan_loop_ok (walk_fuel os0) os [r]) as (os' & -> & Hst' & Hmono).
    + destruct Hst as [Hinv Hwh _]. split; [done| |intros x ->%list_elem_of_singleton; done].
      intros p c HR Hw Hc. left. destruct (Hwh p c HR Hw Hc); [done|set_solver].
    + rewrite walk_fuel_wsum. cbn [length].
      pose proof (wsum_mono os0 (is_col os CC_GRAY) (fun _ => true) ltac:(done)). lia.
    + cbn [mbind option_bind]. apply (IH (done ++ [r])); [by rewrite <-app_assoc|done|].
      intros x [Hx|Hx]%elem_of_app; apply Hmono; [left; auto|by right].
Qed.
End scan.
