(* ===== verification/CycleProofs.v ===== *)
(** * CycleProofs: the white set, and how the condemned set dies

    [collect_roots] gathers every white object once, black again and
    unbuffered, and [cc_trial] as a whole: which objects it condemns, what
    counts it leaves, and why the others live. *)

From stdpp Require Import gmap.
From S2P Require Import Prelude Mem ListRt MapRt Heap HeapSum HeapInv CtrlInv ReleaseProofs.
From S2P Require Import ReleaseProofs Collector MarkProofs.

Open Scope c_scope.

Implicit Types (os : gmap Z obj) (st dead todo : list Z).

Section white.
Context {os0 os1 os2 : gmap Z obj} {e : Z -> Z} {rs : list Z}.
Context (Hok : heap_ok os0 e) (Hrs : forall r, r ∈ rs -> alive os0 r = true) (Hmark : marked (os0 := os0) rs os1).
Context (Hnd : NoDup rs) (Hbuf : forall x, bufd os0 x = bool_decide (x ∈ rs)).
Context (Hscan : scanned (os0 := os0) (os1 := os1) os2).

Abbreviation inR := (inR (os1 := os1)).

Record white_inv os st dead todo : Prop := {
  wi_skel : skel os = skel os0;
  wi_fin : finv os = finv os0;
  wi_cnt : forall x, cnt os x = cnt os2 x;
  wi_buf : forall x, bufd os x = bool_decide (x ∈ todo);
  wi_col : forall x, col os x = if bool_decide (x ∈ dead) then CC_BLACK else col os2 x;
  wi_dead : NoDup dead /\ forall x, x ∈ dead -> col os2 x = CC_WHITE;
  wi_kids : forall p c, p ∈ dead -> c ∈ kids os0 p -> col os2 c = CC_WHITE -> c ∈ dead \/ c ∈ st \/ c ∈ todo;
  wi_stack : forall x, x ∈ st -> inR x = true
}.

Lemma white_loop_ok todo : forall fuel os st dead, white_inv os st dead todo ->
  Z.of_nat (length st) + wsum os0 (is_col os CC_WHITE) <= Z.of_nat fuel ->
  exists os' dead', white_loop fuel os st dead = Some (os', dead') /\ white_inv os' [] dead' todo /\
    (forall x, x ∈ dead -> x ∈ dead') /\ (forall x, x ∈ st -> col os2 x = CC_WHITE -> x ∈ dead' \/ x ∈ todo).
Proof.
  induction fuel as [|fuel IH]; intros os st dead Hinv Hfuel.
  { destruct st as [|p st]; [exists os, dead; split_and!; [done..|set_solver]|].
    pose proof (wsum_nonneg os0 (is_col os CC_WHITE)). cbn [length] in Hfuel. lia. }
  destruct st as [|p st]; [exists os, dead; split_and!; [done..|set_solver]|].
  destruct Hinv as [Hskel Hfin Hcnt Hb Hcol [Hndd Hdead] Hkids Hst].
  pose proof (Hst p ltac:(set_solver)) as HRp.
  assert (Hdom : p ∈ dom os0) by (by apply (inR_dom Hok Hrs Hmark)).
  assert (exists o, os !! p = Some o) as [o Ho] by (apply elem_of_dom; by rewrite (skel_dom _ _ Hskel)).
  cbn [white_loop]. rewrite Ho. cbn [mbind option_bind]. cbn [length] in Hfuel.
  assert (Hskip : (col os2 p = CC_WHITE -> p ∈ dead \/ p ∈ todo) ->
    exists os' dead', white_loop fuel os st dead = Some (os', dead') /\ white_inv os' [] dead' todo /\
      (forall x, x ∈ dead -> x ∈ dead') /\ (forall x, x ∈ p :: st -> col os2 x = CC_WHITE -> x ∈ dead' \/ x ∈ todo)).
  { intros Hp. destruct (IH os st dead) as (os' & dead' & Hrun & Hinv' & Hmono & Hall); [|lia|].
    - split; try done; [|set_solver]. intros q c Hq Hc Hw.
      destruct (Hkids q c Hq Hc Hw) as [?|[[->|?]%elem_of_cons|?]]; auto. destruct (Hp Hw); auto.
    - exists os', dead'. split_and!; [done..|]. intros x [->|Hx]%elem_of_cons Hw; [|auto].
      destruct (Hp Hw); [left|right]; auto. }
  destruct (decide (o_color o = CC_WHITE)) as [Hw|Hw]; rewrite <-(col_some _ _ _ Ho), Hcol in Hw.
  2:{ apply Hskip. intros Hw2. case_bool_decide; [by left|done]. }
  case_bool_decide as Hpd; [done|].
  destruct (o_buf o) eqn:Hob; rewrite <-(bufd_some _ _ _ Ho), Hb in Hob.
  { apply Hskip. intros _. right. by apply bool_decide_eq_true in Hob. }
  apply bool_decide_eq_false in Hob.
  set (os' := <[p := cc_set_color o CC_BLACK]> os).
  assert (Hs' : skel os' = skel os0) by (rewrite <-Hskel; by apply (skel_insert _ _ o)).
  assert (Ho' : os' !! p = Some (cc_set_color o CC_BLACK)) by apply lookup_insert_eq.
  assert (Hwalk : cc_walk o = walk os0 p).
  { rewrite <-(skel_walk os0 os p Hskel). unfold walk. by rewrite Ho. }
  rewrite push_kids_spec.
  2:{ intros c Hc. change (cc_walk (cc_set_color o CC_BLACK)) with (cc_walk o) in Hc. rewrite Hwalk in Hc.
      apply elem_of_dom. rewrite (skel_dom _ _ Hs'). apply elem_of_dom.
      unfold walk in Hc. apply elem_of_dom in Hdom as [o0 Ho0]. rewrite Ho0 in Hc.
      apply (ho_kids _ _ Hok p o0); [done|by apply (inR_alive Hok Hrs Hmark)|done]. }
  cbn [mbind option_bind]. change (cc_walk (cc_set_color o CC_BLACK)) with (cc_walk o).
  assert (Hkp : List.filter (mortal os') (cc_walk o) = kids os0 p).
  { rewrite kids_walk, Hwalk. apply filter_ext_in. intros x _. by apply skel_mortal. }
  rewrite Hkp.
  assert (Hcol' : forall x, col os' x = if decide (p = x) then CC_BLACK else col os x) by (intros; apply col_insert).
  destruct (IH os' (rev (kids os0 p) ++ st) (dead ++ [p])) as (os3 & dead' & Hrun & Hinv' & Hmono & Hall).
  - split; try done.
    + rewrite <-Hfin. by apply (finv_insert _ _ o).
    + intros x. unfold os'. rewrite cnt_insert. case_decide; [|done]. subst. cbn. by rewrite <-(cnt_some _ _ _ Ho), Hcnt.
    + intros x. unfold os'. rewrite bufd_insert. case_decide; [|done]. subst. cbn. by rewrite <-(bufd_some _ _ _ Ho), Hb.
    + intros x. rewrite Hcol', Hcol. destruct (decide (p = x)) as [->|Hne].
      * rewrite (bool_decide_true (x ∈ dead ++ [x])) by set_solver. done.
      * rewrite (bool_decide_ext (x ∈ dead ++ [p]) (x ∈ dead)) by set_solver. done.
    + split.
      * apply NoDup_app. split; [done|]. split; [|apply NoDup_singleton]. set_solver.
      * intros x [Hx| ->%list_elem_of_singleton]%elem_of_app; [by apply Hdead|done].
    + intros q c [Hq| ->%list_elem_of_singleton]%elem_of_app Hc Hwc; rewrite !elem_of_app.
      * destruct (Hkids q c Hq Hc Hwc) as [?|[[->|?]%elem_of_cons|?]]; auto.
        left. right. set_solver.
      * right. left. left. apply list_elem_of_In, in_rev. rewrite rev_involutive. by apply list_elem_of_In.
    + intros x [Hx|Hx]%elem_of_app; [|apply Hst; set_solver].
      apply list_elem_of_In, in_rev, list_elem_of_In in Hx. by apply (inR_kid Hok Hrs Hmark p).
  - rewrite length_app, length_rev. rewrite (wsum_add os0 (is_col os' CC_WHITE) (is_col os CC_WHITE) p) in Hfuel.
    + rewrite kids_walk. pose proof (filter_length_le (mortal os0) (walk os0 p)). lia.
    + done.
    + unfold is_col. rewrite Hcol', decide_True by done. done.
    + apply bool_decide_true. by rewrite Hcol, bool_decide_false.
    + intros q Hq. unfold is_col. by rewrite Hcol', decide_False.
  - exists os3, dead'. split_and!; [done..| |].
    + intros x Hx. apply Hmono. set_solver.
    + intros x [->|Hx]%elem_of_cons Hwx; [left; apply Hmono; set_solver|]. apply Hall; [set_solver|done].
Qed.

Lemma collect_roots_ok : forall todo done os dead, done ++ todo = rs -> white_inv os [] dead todo ->
  (forall x, x ∈ done -> col os2 x = CC_WHITE -> x ∈ dead) ->
  exists os' dead', collect_roots todo os dead = Some (os', dead') /\ white_inv os' [] dead' [] /\
    (forall x, x ∈ rs -> col os2 x = CC_WHITE -> x ∈ dead').
Proof.
  induction todo as [|r todo IH]; intros done os dead Heq Hinv Hdone.
  { exists os, dead. rewrite app_nil_r in Heq. subst. auto. }
  cbn [collect_roots].
  assert (Hr : inR r = true) by (apply (inR_reached Hmark); exists r; split; [set_solver|done]).
  destruct Hinv as [Hskel Hfin Hcnt Hb Hcol Hdead Hkids _].
  assert (exists o, os !! r = Some o) as [o Ho].
  { apply elem_of_dom. rewrite (skel_dom _ _ Hskel). by apply (inR_dom Hok Hrs Hmark). }
  rewrite Ho. cbn [mbind option_bind]. set (os' := <[r := set_buf o false]> os).
  assert (Hs' : skel os' = skel os0) by (rewrite <-Hskel; by apply (skel_insert _ _ o)).
  assert (Hrtodo : r ∉ todo). { rewrite <-Heq in Hnd. apply NoDup_app in Hnd as (_ & _ & [? _]%NoDup_cons). done. }
  assert (Hc' : forall x, col os' x = col os x).
  { intros x. unfold os'. rewrite col_insert. case_decide; [|done]. subst. by rewrite (col_some _ _ _ Ho). }
  unfold cc_collect_white. rewrite (walk_fuel_skel os0 os') by done.
  destruct (white_loop_ok todo (walk_fuel os0) os' [r] dead) as (os3 & dead' & -> & Hinv' & Hmono & Hall).
  - split; try done.
    + rewrite <-Hfin. by apply (finv_insert _ _ o).
    + intros x. unfold os'. rewrite cnt_insert. case_decide; [|done]. subst. cbn. by rewrite <-(cnt_some _ _ _ Ho), Hcnt.
    + intros x. unfold os'. rewrite bufd_insert. case_decide as Hx; [subst; by rewrite bool_decide_false|].
      rewrite Hb. apply bool_decide_ext. set_solver.
    + intros x. by rewrite Hc'.
    + intros p c Hp Hc Hw. destruct (Hkids p c Hp Hc Hw) as [?|[?|[->|?]%elem_of_cons]]; [by left|set_solver|right; left; set_solver|by right; right].
    + intros x ->%list_elem_of_singleton. done.
  - rewrite walk_fuel_wsum. cbn [length]. pose proof (wsum_mono os0 (is_col os' CC_WHITE) (fun _ => true) ltac:(done)). lia.
  - cbn [mbind option_bind]. apply (IH (done ++ [r])); [by rewrite <-app_assoc|done|].
    intros x [Hx| ->%list_elem_of_singleton]%elem_of_app Hw; [by apply Hmono, Hdone|].
    destruct (Hall r); [set_solver|done|done|done].
Qed.

Lemma white_start : white_inv os2 [] [] rs.
Proof.
  destruct (sc_pres _ Hscan) as (Hs & Hf & Hb). split; try done.
  - intros x. by rewrite Hb, Hbuf.
  - split; [apply NoDup_nil_2|set_solver].
  - set_solver.
  - set_solver.
Qed.

Lemma white_all dead os : white_inv os [] dead [] -> (forall x, x ∈ rs -> col os2 x = CC_WHITE -> x ∈ dead) ->
  forall x, col os2 x = CC_WHITE <-> x ∈ dead.
Proof.
  intros Hinv Hroots x. split; [|by apply (wi_dead _ _ _ _ Hinv)].
  intros Hw. destruct (sc_white _ Hscan x Hw) as [HR _]. apply (inR_reached Hmark) in HR as (r & Hr & Hx).
  revert Hw. apply (rtc_ind_r (R := edge os0) (fun x => col os2 x = CC_WHITE -> x ∈ dead) r); [by apply Hroots| |done].
  clear x Hx. intros x y Hrx [Hax Hy] IH Hw. assert (HRx : inR x = true) by (apply (inR_reached Hmark); by exists r).
  destruct (sc_col _ Hscan x HRx) as [Hwx|Hbx].
  - destruct (wi_kids _ _ _ _ Hinv x y (IH Hwx) Hy Hw) as [?|[?|?]]; [done|set_solver..].
  - rewrite (sc_black _ Hscan x y HRx Hbx Hy) in Hw. done.
Qed.
End white.

(** ** The whole trial *)

(** A live object that stays keeps a positive count. *)
Lemma scanned_live {os0 os1 os2 : gmap Z obj} {e : Z -> Z} {rs : list Z} (Hok : heap_ok os0 e)
    (Hrs : forall r, r ∈ rs -> alive os0 r = true) (Hmark : marked (os0 := os0) rs os1)
    (Hscan : scanned (os0 := os0) (os1 := os1) os2) x :
  alive os0 x = true -> col os2 x <> CC_WHITE -> 0 < cnt os2 x.
Proof.
  intros Ha Hnw. destruct (alive_mortal _ _ Ha) as [Hm Hpos]. rewrite (sc_cnt _ Hscan).
  pose proof (inR_reached Hmark) as HR.
  assert (HWR : forall p, is_col os2 CC_WHITE p = true -> inR (os1 := os1) p = true).
  { intros p Hp%bool_decide_eq_true. by apply (sc_white _ Hscan). }
  assert (Hwy : forall y, inR (os1 := os1) y = true -> gsum os0 (is_col os2 CC_WHITE) y <= gsum os0 (inR (os1 := os1)) y).
  { intros y _. by apply gsum_mono. }
  destruct (inR (os1 := os1) x) eqn:HRx.
  - destruct (sc_col _ Hscan x HRx) as [|Hb]; [done|].
    destruct (sc_why _ Hscan x HRx Hb) as (y & HRy & Hs & Hyx).
    pose proof (surplus_nonneg Hok Hrs Hmark x Hm) as Hsx.
    assert (Hby : col os2 y = CC_BLACK).
    { destruct (sc_col _ Hscan y HRy) as [Hw|?]; [|done]. pose proof (proj2 (sc_white _ Hscan y Hw)) as H0.
      rewrite (sc_cnt _ Hscan) in H0. specialize (Hwy y HRy). unfold surplus in Hs. lia. }
    (* a black member of the marked set, or an outside reference, holds it *)
    assert (Hpath : y = x \/ exists z, inR (os1 := os1) z = true /\ col os2 z = CC_BLACK /\ x ∈ kids os0 z).
    { apply rtc_inv_r in Hyx as [->|(z & Hyz & Haz & Hzx)]; [by left|right]. exists z.
      assert (Hz : inR (os1 := os1) z = true /\ col os2 z = CC_BLACK).
      { apply (rtc_ind_r (R := edge os0) (fun z => inR (os1 := os1) z = true /\ col os2 z = CC_BLACK) y); [done| |done].
        intros u v _ [_ Hv] [HRu Hbu]. split; [by apply (inR_kid Hok Hrs Hmark u)|]. by apply (sc_black _ Hscan u). }
      naive_solver. }
    specialize (Hwy x HRx). unfold surplus in *. destruct Hpath as [->|(z & HRz & Hbz & Hzx)]; [lia|].
    pose proof (gsum_split os0 (inR (os1 := os1)) (is_col os2 CC_WHITE) x HWR) as Hsp.
    pose proof (gsum_term os0 (fun p => inR (os1 := os1) p && negb (is_col os2 CC_WHITE p)) z x) as Hz. cbv beta in Hz.
    rewrite HRz in Hz. unfold is_col in Hz at 1. rewrite Hbz in Hz. specialize (Hz eq_refl (inR_dom Hok Hrs Hmark z HRz)).
    apply occ_pos in Hzx. lia.
  - replace (gsum os0 (is_col os2 CC_WHITE) x) with 0; [lia|]. symmetry. apply dsum_zero. intros p _.
    destruct (is_col os2 CC_WHITE p) eqn:Hp; [|done]. apply occ_zero. intros Hin.
    apply (inR_kid Hok Hrs Hmark p) in Hin; [congruence|by apply HWR].
Qed.

(** What [cc_trial] leaves: [dead] is condemned, everything is black and
    unbuffered, and each count lacks exactly the edges out of [dead]. *)
Record trial_ok os0 e rs os dead : Prop := {
  tr_skel : skel os = skel os0;
  tr_fin : finv os = finv os0;
  tr_col : forall x, col os x = CC_BLACK;
  tr_buf : forall x, bufd os x = false;
  tr_nodup : NoDup dead;
  tr_cnt : forall x, cnt os x = cnt os0 x - asum os0 dead x;
  tr_dead : forall x, x ∈ dead -> alive os0 x = true /\ reached os0 rs x /\ cnt os x = 0 /\ e x = 0;
  tr_closed : forall p c, alive os0 p = true -> p ∉ dead -> c ∈ kids os0 p -> c ∉ dead;
  tr_live : forall x, alive os0 x = true -> x ∉ dead -> 0 < cnt os x;
  tr_dec : forall x, reached os0 rs x \/ ~ reached os0 rs x;
  tr_why : forall x, reached os0 rs x -> x ∉ dead ->
    exists y, reached os0 rs y /\ rtc (edge os0) y x /\
      (0 < e y \/ exists q, alive os0 q = true /\ ~ reached os0 rs q /\ y ∈ kids os0 q)
}.

Lemma cc_trial_ok os0 e rs : heap_ok os0 e -> (forall r, r ∈ rs -> alive os0 r = true) -> NoDup rs ->
  (forall x, bufd os0 x = bool_decide (x ∈ rs)) ->
  exists os dead, cc_trial rs os0 = Some (os, dead) /\ trial_ok os0 e rs os dead.
Proof.
  intros Hok Hrs Hnd Hbuf.
  destruct (mark_roots_ok Hok rs Hrs) as (os1 & Hrun1 & Hmark).
  destruct (scan_roots_ok Hok Hrs Hmark) as (os2 & Hrun2 & Hscan).
  destruct (collect_roots_ok Hok Hrs Hmark Hnd Hbuf Hscan rs [] os2 []) as (os & dead & Hrun3 & Hinv & Hroots);
    [done|apply (white_start Hok Hrs Hmark Hnd Hbuf Hscan)|set_solver|].
  exists os, dead. unfold cc_trial. rewrite Hrun1. cbn [mbind option_bind]. rewrite Hrun2. cbn [mbind option_bind].
  split; [done|].
  pose proof (white_all Hok Hrs Hmark Hnd Hbuf Hscan dead os Hinv Hroots) as Hdead.
  assert (Hgs : forall x, gsum os0 (is_col os2 CC_WHITE) x = asum os0 dead x).
  { intros x. rewrite (gsum_list os0 (fun _ => false) (is_col os2 CC_WHITE) dead).
    - unfold gsum. rewrite dsum_zero by done. lia.
    - apply Hinv.
    - intros p Hp. split; [|done]. apply Hdead in Hp. by apply (inR_dom Hok Hrs Hmark), (sc_white _ Hscan).
    - intros q. cbn. apply bool_decide_ext. apply Hdead. }
  assert (Hcnt : forall x, cnt os x = cnt os0 x - asum os0 dead x).
  { intros x. by rewrite (wi_cnt _ _ _ _ Hinv), (sc_cnt _ Hscan), Hgs. }
  assert (Hmortal : forall x, x ∈ dead -> mortal os0 x = true).
  { intros x Hx%Hdead. apply alive_mortal. by apply (inR_alive Hok Hrs Hmark), (sc_white _ Hscan). }
  (* the edges into a dead object all come from dead ones *)
  assert (Hinto : forall x, x ∈ dead -> e x = 0 /\ dsum (dom os0) (fun p => if alive os0 p && negb (is_col os2 CC_WHITE p) then occ x (kids os0 p) else 0) = 0).
  { intros x Hx. assert (H0 : cnt os2 x = 0) by (by apply (sc_white _ Hscan), Hdead).
    rewrite (sc_cnt _ Hscan), (ho_count _ _ Hok x (Hmortal x Hx)) in H0.
    pose proof (gsum_split os0 (alive os0) (is_col os2 CC_WHITE) x) as Hsp. unfold refs in H0.
    assert (Hsub : forall p, is_col os2 CC_WHITE p = true -> alive os0 p = true).
    { intros p Hp%bool_decide_eq_true. by apply (inR_alive Hok Hrs Hmark), (sc_white _ Hscan). }
    specialize (Hsp Hsub). unfold gsum at 1 in Hsp. rewrite Hsp in H0.
    pose proof (gsum_nonneg os0 (fun p => alive os0 p && negb (is_col os2 CC_WHITE p)) x).
    pose proof (ho_ext _ _ Hok x). unfold gsum in *. lia. }
  split.
  - apply Hinv.
  - apply Hinv.
  - intros x. rewrite (wi_col _ _ _ _ Hinv). case_bool_decide as Hx; [done|].
    destruct (inR (os1 := os1) x) eqn:HR.
    + destruct (sc_col _ Hscan x HR) as [Hw|?]; [|done]. by apply Hdead in Hw.
    + rewrite (sc_out _ Hscan x HR). destruct (ho_color _ _ Hok x) as [?|[_ Hb]]; [done|].
      rewrite Hbuf in Hb. apply bool_decide_eq_true in Hb.
      assert (inR (os1 := os1) x = true); [|congruence]. apply (inR_reached Hmark). by exists x.
  - intros x. by rewrite (wi_buf _ _ _ _ Hinv).
  - apply Hinv.
  - done.
  - intros x Hx. pose proof (proj2 (Hdead x) Hx) as Hw. destruct (sc_white _ Hscan x Hw) as [HR H0].
    split_and!; [by apply (inR_alive Hok Hrs Hmark)|by apply (inR_reached Hmark)| |by apply Hinto].
    by rewrite (wi_cnt _ _ _ _ Hinv).
  - intros p c Hp Hpd Hc Hcd. destruct (Hinto c Hcd) as [_ Hz].
    pose proof (dsum_zero_inv _ _ p Hz) as Ht. cbv beta in Ht. rewrite Hp in Ht.
    assert (Hnw : is_col os2 CC_WHITE p = false) by (apply bool_decide_false; by rewrite Hdead).
    rewrite Hnw in Ht. cbn in Ht. apply occ_pos in Hc. rewrite Ht in Hc; [lia| |].
    + intros q _. destruct (_ && _); [apply occ_nonneg|lia].
    + by apply mortal_dom, alive_mortal.
  - intros x Hax Hxd. rewrite (wi_cnt _ _ _ _ Hinv). apply (scanned_live Hok Hrs Hmark Hscan); [done|]. by rewrite Hdead.
  - intros x. rewrite <-(inR_reached Hmark). destruct (inR (os1 := os1) x); [by left|by right].
  - intros x Hx Hxd. pose proof (proj2 (inR_reached Hmark x) Hx) as HR.
    destruct (sc_col _ Hscan x HR) as [Hw|Hb]; [by apply Hdead in Hw|].
    destruct (sc_why _ Hscan x HR Hb) as (y & HRy & Hs & Hyx). exists y. split_and!; [by apply (inR_reached Hmark)|done|].
    unfold surplus in Hs. rewrite (ho_count _ _ Hok y) in Hs by (by apply alive_mortal, (inR_alive Hok Hrs Hmark)).
    destruct (decide (0 < e y)) as [?|He]; [by left|right].
    pose proof (gsum_split os0 (alive os0) (inR (os1 := os1)) y (fun p => inR_alive Hok Hrs Hmark p)) as Hsp.
    unfold refs in Hs. unfold gsum at 1 in Hsp. rewrite Hsp in Hs.
    assert (Hpos : 0 < gsum os0 (fun p => alive os0 p && negb (inR (os1 := os1) p)) y) by (pose proof (ho_ext _ _ Hok y); lia).
    apply dsum_pos in Hpos as (q & _ & Hq). exists q. destruct (alive os0 q); [|cbn in Hq; lia].
    destruct (inR (os1 := os1) q) eqn:HRq; cbn in Hq; [lia|]. split; [done|]. split; [|by apply occ_pos].
    intros Hr. apply (inR_reached Hmark) in Hr. congruence.
Qed.

(** * Dead shells leave the heap, and the condemned set dies

    Taking dead objects out of the heap, the filter that starts a collection,
    and the invalidation and release of a condemned set. *)

Implicit Types (e : Z -> Z) (h : rt).

Section holds.
Context {HH : Holds}.

Lemma dsum_subset (D D' : gset Z) f : D' ⊆ D -> (forall p, p ∈ D -> p ∉ D' -> f p = 0) -> dsum D f = dsum D' f.
Proof.
  intros Hsub. revert D Hsub. induction D' as [|p D' Hp IH] using set_ind_L; intros D Hsub Hz.
  - rewrite dsum_empty. apply dsum_zero. intros p Hp. apply Hz; [done|set_solver].
  - rewrite (dsum_remove D p), dsum_insert by set_solver. f_equal. apply IH; [set_solver|].
    intros q Hq Hn. apply Hz; set_solver.
Qed.

Lemma fins_sub_le os os' : sub_heap os os' -> fins os' <= fins os.
Proof.
  intros Hsub. unfold fins. rewrite <-(dsum_subset (dom os) (dom os')).
  - apply dsum_le. intros p _. destruct (os' !! p) as [o'|] eqn:Ho'.
    + destruct (Hsub p o' Ho') as (o & -> & _ & -> & _). done.
    + destruct (os !! p) as [o|]; [destruct (o_fin o)|]; lia.
  - intros x. rewrite !elem_of_dom. intros [o' Ho']. destruct (Hsub x o' Ho') as (o & Ho & _). eauto.
  - intros p _ Hp%not_elem_of_dom. by rewrite Hp.
Qed.

(** ** A part of the heap *)

Section sub.
Context {os os' : gmap Z obj}.
Context (Hsub : forall x o', os' !! x = Some o' -> exists o, os !! x = Some o /\ static o' = static o).
Context (Halive : forall x, alive os' x = true -> alive os x = true).
Context (Hclosed : forall p c, alive os' p = true -> c ∈ walk os p -> is_Some (os' !! c)).

Lemma sub_mortal x : is_Some (os' !! x) -> mortal os' x = mortal os x.
Proof.
  intros [o' Ho']. destruct (Hsub x o' Ho') as (o & Ho & [_ Hi]%static_eq).
  by rewrite (some_mortal _ _ _ Ho'), (some_mortal _ _ _ Ho), Hi.
Qed.

Lemma sub_walk p : is_Some (os' !! p) -> walk os' p = walk os p.
Proof.
  intros [o' Ho']. destruct (Hsub p o' Ho') as (o & Ho & [Hw _]%static_eq). unfold walk. by rewrite Ho', Ho.
Qed.

Lemma alive_some os1 p : alive os1 p = true -> is_Some (os1 !! p).
Proof. intros [(o & Ho & _)%mortal_some _]%alive_mortal. eauto. Qed.

Lemma sub_kids p : alive os' p = true -> kids os' p = kids os p.
Proof.
  intros Hp. rewrite !kids_walk, sub_walk by (by apply alive_some). apply filter_ext_in.
  intros c Hc. apply sub_mortal. by apply (Hclosed p).
Qed.

Lemma sub_edge p c : alive os' p = true -> edge os p c <-> edge os' p c.
Proof. intros Hp. unfold edge. by rewrite sub_kids, Hp, (Halive p Hp). Qed.

Lemma sub_refs x : refs os' x = gsum os (alive os') x.
Proof.
  unfold refs, gsum. rewrite (dsum_subset (dom os) (dom os')).
  - apply dsum_ext. intros p _. destruct (alive os' p) eqn:Hp; [|done]. by rewrite sub_kids.
  - intros x'. rewrite !elem_of_dom. intros [o' Ho']. destruct (Hsub x' o' Ho') as (o & Ho & _). eauto.
  - intros p _ Hp. destruct (alive os' p) eqn:Ha; [|done]. apply alive_some in Ha. by apply elem_of_dom in Ha.
Qed.

(** What the objects that went held is no longer counted. *)
Lemma heap_ok_sub e e' : heap_ok os e ->
  (forall x, mortal os' x = true ->
     cnt os' x - e' x = cnt os x - e x - gsum os (fun p => alive os p && negb (alive os' p)) x) ->
  (forall x, 0 <= e' x) -> (forall x, 0 < e' x -> is_Some (os' !! x)) ->
  (forall x, mortal os' x = true -> cnt os' x = 0 -> bufd os' x = true /\ col os' x = CC_BLACK) ->
  (forall x, col os' x = CC_BLACK \/ col os' x = CC_PURPLE /\ bufd os' x = true) ->
  (forall x, bufd os' x = true -> mortal os' x = true) ->
  heap_ok os' e'.
Proof.
  intros Hok Hcnt Hn Hd Hh Hcol Hb. split; try done.
  - intros x Hx. specialize (Hcnt x Hx). rewrite sub_mortal in Hx.
    2:{ apply mortal_some in Hx as (o & Ho & _). eauto. }
    rewrite (ho_count _ _ Hok x Hx) in Hcnt. rewrite sub_refs.
    pose proof (gsum_split os (alive os) (alive os') x Halive) as Hsp. unfold refs in Hcnt. unfold gsum at 1 in Hsp. lia.
  - intros x o' c Hx Ha Hc. apply (Hclosed x); [done|]. rewrite <-sub_walk by eauto. unfold walk. by rewrite Hx.
Qed.
End sub.

(** ** A husk leaves *)

Lemma alive_delete os p x : alive os p = false -> alive (delete p os) x = alive os x.
Proof.
  intros Hp. unfold alive, mortal, cnt in *. destruct (decide (x = p)) as [->|Hx].
  - by rewrite lookup_delete_eq, Hp.
  - by rewrite lookup_delete_ne.
Qed.

Section husk.
Context {os : gmap Z obj} {e : Z -> Z} {p : Z} (Hok : heap_ok os e) (Hm : mortal os p = true) (Hz : cnt os p = 0).

Lemma husk_dead : alive os p = false.
Proof. unfold alive. rewrite Hz. apply andb_false_r. Qed.

Lemma husk_ext : e p = 0 /\ refs os p = 0.
Proof.
  pose proof (ho_count _ _ Hok p Hm). pose proof (ho_ext _ _ Hok p). pose proof (refs_nonneg os p). lia.
Qed.

Lemma husk_sub x o' : delete p os !! x = Some o' -> exists o, os !! x = Some o /\ static o' = static o.
Proof. intros [_ H]%lookup_delete_Some. eauto. Qed.

Lemma husk_alive x : alive (delete p os) x = true -> alive os x = true.
Proof. rewrite alive_delete by apply husk_dead. done. Qed.

Lemma husk_closed q c : alive (delete p os) q = true -> c ∈ walk os q -> is_Some (delete p os !! c).
Proof.
  intros Hq Hc. apply husk_alive in Hq. rewrite lookup_delete_ne.
  - pose proof (alive_some _ _ Hq) as [o Ho]. unfold walk in Hc. rewrite Ho in Hc. by apply (ho_kids _ _ Hok q o).
  - intros <-. destruct husk_ext as [_ Hr]. pose proof (refs_term os q p Hq) as Ht.
    enough (0 < occ p (kids os q)) by lia. apply occ_pos. rewrite kids_walk.
    apply list_elem_of_In, filter_In. split; [by apply list_elem_of_In|done].
Qed.

Lemma heap_husk : heap_ok (delete p os) e.
Proof.
  apply (heap_ok_sub husk_sub husk_alive husk_closed e); [done|..].
  - intros x Hx. replace (gsum os (fun q => alive os q && negb (alive (delete p os) q)) x) with 0.
    + enough (x <> p) by (unfold cnt; rewrite lookup_delete_ne by done; lia).
      intros ->. unfold mortal in Hx. by rewrite lookup_delete_eq in Hx.
    + symmetry. apply dsum_zero. intros q _. rewrite alive_delete by apply husk_dead. by destruct (alive os q).
  - apply (ho_ext _ _ Hok).
  - intros x Hx. rewrite lookup_delete_ne; [by apply (ho_ext_dom _ _ Hok)|].
    intros <-. destruct husk_ext. lia.
  - intros x Hx. unfold cnt, bufd, col, mortal in *. destruct (decide (x = p)) as [->|Hne].
    + by rewrite lookup_delete_eq in Hx.
    + rewrite lookup_delete_ne in * by done. by apply (ho_husk _ _ Hok).
  - intros x. unfold bufd, col. destruct (decide (x = p)) as [->|Hne]; [rewrite lookup_delete_eq; by left|].
    rewrite lookup_delete_ne by done. apply (ho_color _ _ Hok).
  - intros x. unfold bufd, mortal. destruct (decide (x = p)) as [->|Hne]; [by rewrite lookup_delete_eq|].
    rewrite lookup_delete_ne by done. apply (ho_buf _ _ Hok).
Qed.

Lemma covered_husk : covered os e -> covered (delete p os) e.
Proof.
  intros Hcov x Hx. pose proof (husk_alive x Hx) as Hax. destruct (Hcov x Hax) as (y & [Hay Hy] & Hr). exists y. split.
  - split; [by rewrite alive_delete by apply husk_dead|].
    assert (y <> p) by (intros ->; rewrite husk_dead in Hay; done).
    unfold bufd, col in *. by rewrite lookup_delete_ne.
  - clear Hy Hx Hax. induction Hr as [x|x y z Hxy Hyz IH]; [done|].
    apply (rtc_l _ _ y); [|apply IH; by apply (ok_kid_alive Hok x), Hxy].
    apply (sub_edge husk_sub husk_alive husk_closed); [|done]. by rewrite alive_delete by apply husk_dead.
Qed.
End husk.

(** ** The filter *)

(** The candidates [kept] so far, [rs] to look at, [deferred] handed back. *)
Record filter_inv h e kept rs deferred : Prop := {
  fi_heap : heap_ok (objs h) (outside h (plus_list e deferred));
  fi_ctrl : ctrl_ok (objs h) (ctrls h) (weak_entries h);
  fi_cov : covered (objs h) (outside h (plus_list e deferred));
  fi_nodup : NoDup (kept ++ rs);
  fi_roots : forall x, x ∈ kept ++ rs <-> bufd (objs h) x = true;
  fi_kept : forall x, x ∈ kept -> alive (objs h) x = true /\ col (objs h) x = CC_PURPLE;
  fi_null : objs h !! 0 = None
}.

Lemma elem_of_mid (x p : Z) kept rs : x ∈ kept ++ p :: rs <-> x = p \/ x ∈ kept ++ rs.
Proof. rewrite !elem_of_app, elem_of_cons. naive_solver. Qed.

Lemma NoDup_mid (p : Z) kept rs : NoDup (kept ++ p :: rs) -> NoDup (kept ++ rs) /\ p ∉ kept ++ rs.
Proof.
  rewrite !NoDup_app, NoDup_cons. intros (Hk & Hd & Hp & Hr). split.
  - split; [done|]. split; [|done]. set_solver.
  - set_solver.
Qed.

(** A buffered object that is no live candidate leaves the buffer. *)
Lemma filter_drop h e kept p rs deferred o : filter_inv h e kept (p :: rs) deferred ->
  objs h !! p = Some o -> o_color o <> CC_PURPLE \/ o_count o <= 0 ->
  let h1 := with_objs h (<[p := set_buf o false]> (objs h)) in
  (o_count o <> 0 -> filter_inv h1 e kept rs deferred) /\
  (o_count o = 0 -> exists cs' child,
     cc_free_shell h1 p = Some (with_ctrls (with_objs h1 (delete p (objs h))) cs' (weak_entries h), child) /\
     filter_inv (with_ctrls (with_objs h1 (delete p (objs h))) cs' (weak_entries h)) e kept rs (deferred ++ child_list child) /\
     forall x, cref (ctrls h) x = cref cs' x + occ x (child_list child)).
Proof.
  intros [Hh Hc Hcov Hn Hr Hk H0] Ho Hnot h1. apply NoDup_mid in Hn as [Hn Hpn].
  assert (Hb : bufd (objs h) p = true) by (apply Hr, elem_of_mid; by left).
  pose proof (ho_buf _ _ Hh p Hb) as Hm.
  set (os1 := <[p := set_buf o false]> (objs h)) in *.
  assert (Hs : skel os1 = skel (objs h)) by (by apply (skel_insert _ _ o)).
  assert (Hcnt : forall x, cnt os1 x = cnt (objs h) x).
  { intros x. unfold os1. rewrite cnt_insert. case_decide; [|done]. subst. by rewrite (cnt_some _ _ _ Ho). }
  assert (Ha : forall x, alive os1 x = alive (objs h) x).
  { intros x. unfold alive. by rewrite Hcnt, (skel_mortal _ _ x Hs). }
  assert (Hbuf : forall x, bufd os1 x = if decide (p = x) then false else bufd (objs h) x).
  { intros x. unfold os1. by rewrite bufd_insert. }
  assert (Hcol : forall x, col os1 x = col (objs h) x).
  { intros x. unfold os1. rewrite col_insert. case_decide; [|done]. subst. by rewrite (col_some _ _ _ Ho). }
  assert (Hc1 : ctrl_ok os1 (ctrls h) (weak_entries h)).
  { apply (ctrl_ok_skel (objs h)); [done..|]. intros x Hl _. by apply (live_same (objs h)). }
  assert (Hpk : p ∉ kept) by set_solver.
  split.
  - intros Hnz. assert (Hblack : col (objs h) p = CC_BLACK).
    { rewrite (col_some _ _ _ Ho). destruct (ho_color _ _ Hh p) as [Hx|[Hx _]]; rewrite (col_some _ _ _ Ho) in Hx; [done|].
      destruct Hnot; [done|]. pose proof (ok_cnt_nonneg Hh p Hm). rewrite (cnt_some _ _ _ Ho) in *. lia. }
    split; cbn; try done.
    + apply (heap_ok_recount (objs h) _ (outside h (plus_list e deferred))); try done.
      * intros x _. rewrite Hcnt. unfold outside. cbn. lia.
      * apply (ho_ext _ _ Hh).
      * apply (ho_ext_dom _ _ Hh).
      * intros x Hx. rewrite Hcnt, Hbuf, Hcol. case_decide; [subst; rewrite (cnt_some _ _ _ Ho); done|]. by apply (ho_husk _ _ Hh).
      * intros x. rewrite Hcol, Hbuf. case_decide; [subst; by left|]. apply (ho_color _ _ Hh).
      * intros x. rewrite Hbuf. case_decide; [done|]. apply (ho_buf _ _ Hh).
    + apply (covered_mono (objs h) _ (outside h (plus_list e deferred))); [done..| |done].
      intros y [Hy Hor]. split; [by rewrite Ha|]. rewrite Hcol, Hbuf. destruct Hor as [?|[? Hpur]]; [by left|].
      right. case_decide; [congruence|done].
    + intros x. rewrite Hbuf. specialize (Hr x). rewrite elem_of_mid in Hr. case_decide; [subst; split; [done|done]|].
      rewrite <-Hr. naive_solver.
    + intros x Hx. rewrite Ha, Hcol. by apply Hk.
    + unfold os1. rewrite lookup_insert_ne; [done|congruence].
  - intros Hz. assert (Hcz : cnt (objs h) p = 0) by (by rewrite (cnt_some _ _ _ Ho)).
    assert (Hwn : weak_entries h !! p = None).
    { destruct (weak_entries h !! p) as [c|] eqn:Hw; [|done]. destruct (co_table _ _ _ Hc p c Hw) as [Hl _].
      apply live_alive in Hl as [_ Hl]. specialize (Hl Hm). apply alive_mortal in Hl as [_ Hl]. lia. }
    destruct (free_shell_ok h1 p (set_buf o false)) as (cs' & child & Hrun & Hc' & Hcref); [done|by apply lookup_insert_eq|done|].
    change (objs h1) with os1 in *. assert (Hdel : delete p os1 = delete p (objs h)) by (unfold os1; by rewrite delete_insert_eq).
    rewrite Hdel in *. exists cs', child. split; [done|].
    set (h2 := with_ctrls (with_objs h1 (delete p (objs h))) cs' (weak_entries h)).
    assert (Hout : forall x, outside h (plus_list e deferred) x = outside h2 (plus_list e (deferred ++ child_list child)) x).
    { intros x. unfold outside, plus_list. rewrite occ_app. specialize (Hcref x). change (ctrls h1) with (ctrls h) in Hcref. cbn [ctrls h2 with_ctrls]. lia. }
    assert (Hoth : forall x, x <> p -> alive (delete p (objs h)) x = alive (objs h) x /\ col (delete p (objs h)) x = col (objs h) x /\ bufd (delete p (objs h)) x = bufd (objs h) x).
    { intros x Hx. unfold alive, mortal, cnt, col, bufd. by rewrite lookup_delete_ne. }
    split; [|exact Hcref]. split; cbn; try done.
    + apply (heap_ok_ext _ (outside h (plus_list e deferred))); [done|]. by apply (heap_husk Hh Hm Hcz).
    + pose proof (covered_husk Hh Hm Hcz Hcov) as Hcov'. intros x Hx. destruct (Hcov' x Hx) as (y & [Hay Hy] & Hyx).
      exists y. split; [|done]. split; [done|]. by rewrite <-Hout.
    + intros x. specialize (Hr x). rewrite elem_of_mid in Hr. destruct (decide (x = p)) as [->|Hx].
      * unfold bufd. rewrite lookup_delete_eq. split; [done|done].
      * destruct (Hoth x Hx) as (_ & _ & ->). rewrite <-Hr. naive_solver.
    + intros x Hx. assert (x <> p) by set_solver. destruct (Hoth x) as (-> & -> & _); [done|]. by apply Hk.
    + rewrite lookup_delete_ne; [done|congruence].
Qed.

Lemma filter_roots_ok e : forall rs h kept deferred, filter_inv h e kept rs deferred ->
  exists h' roots deferred', filter_roots h rs kept deferred = Some (h', roots, deferred') /\
    filter_inv h' e roots [] deferred' /\ cc_roots h' = cc_roots h /\ same_flags h h' /\ cc_walk_min h' = cc_walk_min h /\
    cc_pending h' = cc_pending h /\ sub_heap (objs h) (objs h') /\
    exists new, deferred' = deferred ++ new /\ forall x, cref (ctrls h) x = cref (ctrls h') x + occ x new.
Proof.
  induction rs as [|p rs IH]; intros h kept deferred Hinv.
  { exists h, kept, deferred. split; [done|]. split; [done|]. split; [done|]. split; [done|]. split; [done|]. split; [done|].
    split; [apply sub_heap_refl|]. exists []. rewrite app_nil_r. split; [done|]. intros x. rewrite occ_nil. lia. }
  cbn [filter_roots].
  assert (Hb : bufd (objs h) p = true) by (apply (fi_roots _ _ _ _ _ Hinv), elem_of_mid; by left).
  destruct (mortal_some _ _ (ho_buf _ _ (fi_heap _ _ _ _ _ Hinv) p Hb)) as (o & Ho & Hi).
  rewrite Ho. cbn [mbind option_bind]. destruct (bool_decide (o_color o = CC_PURPLE) && (0 <? o_count o)) eqn:Hkeep.
  - apply andb_true_iff in Hkeep as [Hpur%bool_decide_eq_true Hpos%Z.ltb_lt].
    destruct (IH h (kept ++ [p]) deferred) as (h' & roots & deferred' & Hrun & Hrest).
    + destruct Hinv as [Hh Hc Hcov Hn Hr Hk H0]. split; try done.
      * by rewrite <-app_assoc.
      * intros x. rewrite <-app_assoc. apply Hr.
      * intros x [Hx| ->%list_elem_of_singleton]%elem_of_app; [by apply Hk|].
        unfold alive. rewrite (some_mortal _ _ _ Ho), Hi, (cnt_some _ _ _ Ho), (col_some _ _ _ Ho). cbn. by rewrite (proj2 (Z.ltb_lt _ _) Hpos).
    + exists h', roots, deferred'. done.
  - assert (Hnot : o_color o <> CC_PURPLE \/ o_count o <= 0).
    { apply andb_false_iff in Hkeep as [H|H]; [left; by apply bool_decide_eq_false in H|right; by apply Z.ltb_ge]. }
    destruct (filter_drop h e kept p rs deferred o Hinv Ho Hnot) as [Hlive Hdead].
    destruct (Z.eqb_spec (o_count o) 0) as [Hz|Hnz].
    + destruct (Hdead Hz) as (cs' & child & -> & Hinv' & Hcref). cbn [mbind option_bind].
      change (match child with Some c => [c] | None => [] end) with (child_list child).
      set (h2 := with_ctrls _ cs' _) in *.
      destruct (IH h2 kept (deferred ++ child_list child) Hinv') as (h' & roots & deferred' & Hrun & Hi' & Hr' & [Hf1 Hf2] & Hw' & Hp' & Hsub & new & Hnew & Hcr).
      exists h', roots, deferred'. split; [done|]. split; [done|]. split; [done|]. split; [done|]. split; [done|]. split; [done|].
      split; [|exists (child_list child ++ new)].
      * apply (sub_heap_trans _ (objs h2)); [|done]. intros x o' Hx. cbn in Hx. apply lookup_delete_Some in Hx as [_ Hx].
        exists o'. split_and!; [done..|lia].
      * rewrite app_assoc. split; [done|]. intros x. rewrite Hcref, occ_app. specialize (Hcr x). cbn in Hcr. lia.
    + destruct (IH _ kept deferred (Hlive Hnz)) as (h' & roots & deferred' & Hrun & Hi' & Hr' & [Hf1 Hf2] & Hw' & Hp' & Hsub & Hnew).
      exists h', roots, deferred'. split; [done|]. split; [done|]. split; [done|]. split; [done|]. split; [done|]. split; [done|].
      split; [|done].
      apply (sub_heap_trans _ (<[p := set_buf o false]> (objs h))); [|done].
      apply sub_heap_skel; [by apply (skel_insert _ _ o)|by apply (finv_insert _ _ o)|].
      intros x. rewrite cnt_insert. destruct (decide (p = x)) as [<-|]; [|lia]. rewrite (cnt_some _ _ _ Ho). cbn. lia.
Qed.
End holds.

(** * The condemned set dies

    The objects a trial condemns leave the heap when none has a deinit body;
    otherwise they get their counts back, are held across the bodies and are
    parked and released like any garbage. *)

Implicit Types (ps : list Z).

Section holds.
Context {HH : Holds}.

(** ** Why the others live *)

Section rooted.
Context {os0 os : gmap Z obj} {e : Z -> Z} {rs dead : list Z}.
Context (Hok : heap_ok os0 e) (Hcov : covered os0 e) (Hbuf : forall x, bufd os0 x = bool_decide (x ∈ rs)).
Context (Htr : trial_ok os0 e rs os dead).

Lemma live_path x y : rtc (edge os0) x y -> alive os0 x = true -> x ∉ dead -> y ∉ dead /\ alive os0 y = true.
Proof.
  induction 1 as [x|x y z [Hx Hy] _ IH]; [done|]. intros Ha Hd. apply IH; [by apply (ok_kid_alive Hok x)|].
  by apply (tr_closed _ _ _ _ _ Htr x).
Qed.

(** An object the candidates do not reach is held from outside. *)
Lemma unreached_rooted q : alive os0 q = true -> ~ reached os0 rs q ->
  exists y, alive os0 y = true /\ y ∉ dead /\ 0 < e y /\ rtc (edge os0) y q.
Proof.
  intros Hq Hn. destruct (Hcov q Hq) as (y & [Hay Hy] & Hyq).
  assert (Hyn : ~ reached os0 rs y).
  { intros (r & Hr & Hry). apply Hn. exists r. split; [done|]. by etrans. }
  exists y. split_and!; [done| | |done].
  - intros Hd. by apply (tr_dead _ _ _ _ _ Htr) in Hd as (_ & ? & _).
  - destruct Hy as [?|[Hb _]]; [done|]. rewrite Hbuf in Hb. apply bool_decide_eq_true in Hb.
    destruct Hyn. by exists y.
Qed.

Lemma trial_rooted x : alive os0 x = true -> x ∉ dead ->
  exists y, alive os0 y = true /\ y ∉ dead /\ 0 < e y /\ rtc (edge os0) y x.
Proof.
  intros Ha Hd. destruct (tr_dec _ _ _ _ _ Htr x) as [Hr|Hn]; [|by apply unreached_rooted].
  destruct (tr_why _ _ _ _ _ Htr x Hr Hd) as (y & Hry & Hyx & Hy).
  assert (Hay : alive os0 y = true).
  { destruct Hyx as [x|y z x [? _] _]; [done|]. done. }
  destruct (decide (0 < e y)) as [Hey|Hey].
  - exists y. split_and!; [done| |done|done]. intros Hyd.
    apply (tr_dead _ _ _ _ _ Htr) in Hyd as (_ & _ & _ & H0). lia.
  - destruct Hy as [?|(q & Hq & Hqn & Hqy)]; [done|].
    destruct (unreached_rooted q Hq Hqn) as (z & Haz & Hzd & Hez & Hzq). exists z. split_and!; try done.
    etrans; [exact Hzq|]. eapply rtc_l; [|exact Hyx]. done.
Qed.
End rooted.

(** ** The weak table *)

Lemma invalidate_all O : forall dead h, ctrl_ok O (ctrls h) (weak_entries h) ->
  exists cs' ws', for_all rt_weak_invalidate dead h = Some (with_ctrls h cs' ws') /\ ctrl_ok O cs' ws' /\
    (forall x, cref cs' x = cref (ctrls h) x) /\
    (forall x, x ∈ dead \/ weak_entries h !! x = None -> ws' !! x = None).
Proof.
  induction dead as [|p dead IH]; intros h Hok.
  { exists (ctrls h), (weak_entries h). split; [by destruct h|]. split_and!; [done|done|set_solver]. }
  cbn [for_all]. destruct (weak_entries h !! p) as [c|] eqn:Hw.
  - destruct (co_table _ _ _ Hok p c Hw) as (_ & k & Hk & _).
    destruct (invalidate_table Hok p c k Hw Hk) as [Hok' Hcref].
    set (h1 := with_ctrls h (ctrl_drop_weak (ctrls h) c (mkCtrl (c_strong k) (c_weak k) 0 (c_value_ptr k))) (delete p (weak_entries h))).
    assert (Hrun1 : rt_weak_invalidate h p = Some h1) by (unfold rt_weak_invalidate; by rewrite Hw, Hk).
    rewrite Hrun1. cbn [mbind option_bind]. destruct (IH h1 Hok') as (cs' & ws' & Hrun & Hok2 & Hcr & Hws).
    exists cs', ws'. split; [by destruct h|]. split; [done|]. split.
    + intros x. rewrite Hcr. apply Hcref.
    + intros x Hx. apply Hws. destruct (decide (x ∈ dead)) as [|Hn]; [by left|right]. cbn. apply lookup_delete_None.
      destruct Hx as [[->|?]%elem_of_cons|?]; [by left|done|by right].
  - assert (Hrun1 : rt_weak_invalidate h p = Some h) by (unfold rt_weak_invalidate; by rewrite Hw).
    rewrite Hrun1. cbn [mbind option_bind]. destruct (IH h Hok) as (cs' & ws' & Hrun & Hok2 & Hcr & Hws).
    exists cs', ws'. split; [done|]. split; [done|]. split; [done|].
    intros x [[->|?]%elem_of_cons|?]; apply Hws; auto.
Qed.

(** ** A set of shells *)

Lemma free_cycle_ok : forall dead h deferred, NoDup dead ->
  ctrl_ok (objs h) (ctrls h) (weak_entries h) ->
  (forall p, p ∈ dead -> is_Some (objs h !! p) /\ bufd (objs h) p = false /\ weak_entries h !! p = None) ->
  exists os' cs' new, cc_free_cycle_shells h dead deferred =
      Some (with_ctrls (with_objs h os') cs' (weak_entries h), deferred ++ new) /\
    ctrl_ok os' cs' (weak_entries h) /\ (forall x, cref (ctrls h) x = cref cs' x + occ x new) /\
    (forall x, os' !! x = if bool_decide (x ∈ dead) then None else objs h !! x).
Proof.
  induction dead as [|p dead IH]; intros h deferred Hnd Hok Hdead.
  { exists (objs h), (ctrls h), []. split; [by destruct h; rewrite app_nil_r|]. split; [done|].
    split; [intros x; rewrite occ_nil; lia|done]. }
  apply NoDup_cons in Hnd as [Hp Hnd]. destruct (Hdead p) as ([o Ho] & Hb & Hw); [set_solver|].
  cbn [cc_free_cycle_shells]. rewrite Ho. cbn [mbind option_bind].
  rewrite (bufd_some _ _ _ Ho) in Hb. rewrite Hb.
  destruct (free_shell_ok h p o Hok Ho Hw) as (cs1 & child & -> & Hok1 & Hcref1). cbn [mbind option_bind].
  change (match child with Some c => [c] | None => [] end) with (child_list child).
  set (h1 := with_ctrls _ cs1 _).
  destruct (IH h1 (deferred ++ child_list child)) as (os' & cs' & new & Hrun & Hok' & Hcref & Hos); [done|done| |].
  { intros q Hq. destruct (Hdead q) as (Hs & Hbq & Hwq); [set_solver|]. assert (q <> p) by set_solver.
    unfold h1, bufd in *. cbn. by rewrite lookup_delete_ne. }
  exists os', cs', (child_list child ++ new). split.
  - rewrite Hrun. cbn. by rewrite app_assoc.
  - split; [done|]. split.
    + intros x. rewrite Hcref1, occ_app. specialize (Hcref x). cbn in Hcref. lia.
    + intros x. rewrite Hos. cbn. destruct (decide (x = p)) as [->|Hx].
      * rewrite lookup_delete_eq, (bool_decide_true (p ∈ p :: dead)) by set_solver. by case_bool_decide.
      * rewrite lookup_delete_ne by done. rewrite (bool_decide_ext (x ∈ p :: dead) (x ∈ dead)) by set_solver. done.
Qed.

(** ** What a pass still owes *)

Section owed.
Context (deinit : Z -> rt -> option rt) (Hdeinit : deinit_ok deinit).

Lemma release_ok h e p : (forall x, 0 <= e x) -> rt_inv h (plus_list e [p]) ->
  exists fuel h', beans_release deinit fuel h p = Some h' /\ rt_inv h' e /\
    fins (objs h') <= fins (objs h) /\ same_flags h h' /\ (fins (objs h) = 0 -> sub_heap (objs h) (objs h')).
Proof.
  intros He Hinv.
  destruct (release_loop_ok deinit Hdeinit (Z.to_nat (fins (objs h))) (Z.to_nat (total (objs h))) [p] h e He Hinv)
    as (fuel & h' & Hrun & Hrest).
  - pose proof (fins_nonneg (objs h)). lia.
  - pose proof (total_nonneg (objs h)). lia.
  - exists fuel, h'. split; [|done]. unfold beans_release.
    assert (Hp0 : p <> 0).
    { intros ->. destruct (ho_ext_dom _ _ (ro_heap _ _ (ri_ok _ _ Hinv)) 0) as [o Ho].
      - unfold outside, plus_list. rewrite occ_cons, decide_True, occ_nil by done.
        pose proof (He 0). pose proof (cref_nonneg (ctrls h) 0). lia.
      - rewrite (ro_null _ _ (ri_ok _ _ Hinv)) in Ho. done. }
    by rewrite (proj2 (Z.eqb_neq p 0)).
Qed.

Lemma release_mono fuel fuel' h p h' : (fuel <= fuel')%nat ->
  beans_release deinit fuel h p = Some h' -> beans_release deinit fuel' h p = Some h'.
Proof. unfold beans_release. destruct (p =? 0); [done|]. apply release_loop_mono. Qed.

Lemma owed_mono fuel fuel' ps h h' : (fuel <= fuel')%nat ->
  release_all_owed deinit fuel h ps = Some h' -> release_all_owed deinit fuel' h ps = Some h'.
Proof.
  intros Hle. revert h. induction ps as [|p ps IH]; intros h; [done|]. cbn [release_all_owed].
  destruct (beans_release deinit fuel h p) as [h1|] eqn:Hr; [|done].
  rewrite (release_mono fuel fuel' h p h1 Hle Hr). cbn [mbind option_bind]. apply IH.
Qed.

Lemma owed_for_all fuel ps h : release_all_owed deinit fuel h ps = for_all (beans_release deinit fuel) ps h.
Proof. revert h. induction ps as [|p ps IH]; intros h; [done|]. cbn. destruct (beans_release deinit fuel h p); [|done]. apply IH. Qed.

(** Releasing a list of owed references, in order. *)
Lemma owed_ok : forall ps h e, (forall x, 0 <= e x) -> rt_inv h (plus_list e ps) ->
  exists fuel h', release_all_owed deinit fuel h ps = Some h' /\ rt_inv h' e /\
    fins (objs h') <= fins (objs h) /\ same_flags h h' /\ (fins (objs h) = 0 -> sub_heap (objs h) (objs h')).
Proof.
  induction ps as [|p ps IH]; intros h e He Hinv.
  { exists O, h. split; [done|]. split; [|split; [lia|split; [done|intros _; apply sub_heap_refl]]].
    apply (rt_inv_ext h (plus_list e [])); [|done]. intros x. unfold plus_list. rewrite occ_nil. lia. }
  destruct (release_ok h (plus_list e ps) p) as (f1 & h1 & Hrun1 & Hinv1 & Hf1 & Hfl1 & Hs1).
  - intros x. unfold plus_list. pose proof (He x). pose proof (occ_nonneg x ps). lia.
  - apply (rt_inv_ext h (plus_list e (p :: ps))); [|done]. intros x. unfold plus_list. rewrite !occ_cons, occ_nil. lia.
  - destruct (IH h1 e He Hinv1) as (f2 & h2 & Hrun2 & Hinv2 & Hf2 & Hfl2 & Hs2).
    exists (f1 + f2)%nat, h2. split; [|split; [done|split; [lia|split]]].
    + cbn [release_all_owed]. rewrite (release_mono f1 _ h p h1) by (done || lia). cbn [mbind option_bind].
      apply (owed_mono f2); [lia|done].
    + destruct Hfl1, Hfl2. split; congruence.
    + intros Hz. apply (sub_heap_trans _ (objs h1)); [by apply Hs1|]. apply Hs2. pose proof (fins_nonneg (objs h1)). lia.
Qed.
End owed.
End holds.
