(* ===== verification/CollectProofs.v ===== *)
(** * CollectProofs: one collection keeps the invariant

    The two ways a condemned set dies, and [cc_collect] from the filter to the
    deferred releases. *)

From stdpp Require Import gmap.
From S2P Require Import Prelude Mem ListRt MapRt Heap HeapSum HeapInv CtrlInv ReleaseProofs.
From S2P Require Import Collector MarkProofs CycleProofs.

Open Scope c_scope.

Implicit Types (os : gmap Z obj) (e : Z -> Z) (h : rt) (dead ps : list Z).

Section holds.
Context {HH : Holds}.

(** ** The state between the trial and the kill *)

(** [os0] are the objects as the filter left them, [e0] what held them from
    outside, [h] the state after the trial and the invalidation. *)
Record doomed_inv (os0 : gmap Z obj) (e0 : Z -> Z) (rs dead : list Z) (h : rt) : Prop := {
  dm_ok : heap_ok os0 e0;
  dm_cov : covered os0 e0;
  dm_buf : forall x, bufd os0 x = bool_decide (x ∈ rs);
  dm_cand : forall r, r ∈ rs -> alive os0 r = true;
  dm_trial : trial_ok os0 e0 rs (objs h) dead;
  dm_ctrl : ctrl_ok os0 (ctrls h) (weak_entries h);
  dm_weak : forall x, x ∈ dead -> weak_entries h !! x = None;
  dm_roots : cc_roots h = [];
  dm_null : os0 !! 0 = None
}.

Section doomed.
Context {os0 : gmap Z obj} {e0 : Z -> Z} {rs dead : list Z} {h : rt} (Hdm : doomed_inv os0 e0 rs dead h).

Let Hok := dm_ok _ _ _ _ _ Hdm.
Let Htr := dm_trial _ _ _ _ _ Hdm.

Lemma dm_not_alive x : mortal os0 x = true -> alive os0 x = false -> False.
Proof.
  intros Hm Ha. destruct (ho_husk _ _ Hok x Hm (ok_dead Hok x Hm Ha)) as [Hb _].
  rewrite (dm_buf _ _ _ _ _ Hdm) in Hb. apply bool_decide_eq_true in Hb.
  rewrite (dm_cand _ _ _ _ _ Hdm x Hb) in Ha. done.
Qed.

Lemma dm_mortal_alive x : mortal os0 x = true -> alive os0 x = true.
Proof. intros Hm. destruct (alive os0 x) eqn:Ha; [done|]. by destruct (dm_not_alive x Hm). Qed.

Lemma dm_dom x : is_Some (objs h !! x) <-> is_Some (os0 !! x).
Proof. by rewrite <-!elem_of_dom, (skel_dom _ _ (tr_skel _ _ _ _ _ Htr)). Qed.

Lemma asum_nonneg l x : 0 <= asum os0 l x.
Proof. induction l as [|p l IH]; [done|]. rewrite asum_cons. pose proof (occ_nonneg x (kids os0 p)). lia. Qed.

Lemma gsum_dead Q x : (forall q, q ∈ dom os0 -> Q q = bool_decide (q ∈ dead)) -> gsum os0 Q x = asum os0 dead x.
Proof.
  intros HQ. rewrite (gsum_ext os0 Q (fun q => false || bool_decide (q ∈ dead))) by done.
  rewrite (gsum_list os0 (fun _ => false) _ dead).
  - unfold gsum. rewrite dsum_zero by done. lia.
  - apply (tr_nodup _ _ _ _ _ Htr).
  - intros p Hp. split; [|done]. apply (tr_dead _ _ _ _ _ Htr) in Hp as [Hp _]. by apply mortal_dom, alive_mortal.
  - done.
Qed.

Lemma dm_live x : live os0 x -> is_Some (weak_entries h !! x) -> live (objs h) x.
Proof.
  intros [Hs Hl]%live_alive [c Hc]. apply live_alive. split; [by apply dm_dom|].
  rewrite (skel_mortal _ _ x (tr_skel _ _ _ _ _ Htr)). intros Hm. specialize (Hl Hm).
  assert (Hd : x ∉ dead) by (intros Hd%(dm_weak _ _ _ _ _ Hdm); congruence).
  unfold alive. rewrite (skel_mortal _ _ x (tr_skel _ _ _ _ _ Htr)), Hm. cbn. apply Z.ltb_lt.
  by apply (tr_live _ _ _ _ _ Htr).
Qed.

(** ** No deinit body *)

Lemma dm_free e deferred : (forall x, e0 x = outside h (plus_list e deferred) x) ->
  exists h' new, cc_free_cycle_shells h dead deferred = Some (h', deferred ++ new) /\
    rt_inv h' (plus_list e (deferred ++ new)) /\ same_flags h h' /\ sub_heap os0 (objs h') /\
    (forall x, alive (objs h') x = true <-> alive os0 x = true /\ x ∉ dead) /\
    (forall x, cref (ctrls h) x = cref (ctrls h') x + occ x new) /\
    (forall x, bufd (objs h') x = false).
Proof.
  intros He0.
  assert (Hc1 : ctrl_ok (objs h) (ctrls h) (weak_entries h)).
  { apply (ctrl_ok_skel os0); [apply (dm_ctrl _ _ _ _ _ Hdm)|apply (tr_skel _ _ _ _ _ Htr)|apply dm_live]. }
  destruct (free_cycle_ok dead h deferred) as (os' & cs' & new & Hrun & Hc' & Hcref & Hos);
    [apply (tr_nodup _ _ _ _ _ Htr)|done| |].
  { intros p Hp. split; [|split; [apply (tr_buf _ _ _ _ _ Htr)|by apply (dm_weak _ _ _ _ _ Hdm)]].
    apply dm_dom. apply (tr_dead _ _ _ _ _ Htr) in Hp as [Hp _]. by apply alive_some. }
  set (h' := with_ctrls (with_objs h os') cs' (weak_entries h)) in *. exists h', new. split; [done|].
  assert (Hsub : forall x o', os' !! x = Some o' -> exists o, os0 !! x = Some o /\ static o' = static o).
  { intros x o' Hx. rewrite Hos in Hx. case_bool_decide; [done|].
    pose proof (skel_lookup _ _ x (tr_skel _ _ _ _ _ Htr)) as Hl. rewrite Hx in Hl.
    destruct (os0 !! x) as [o|]; [eauto|done]. }
  assert (Hcnt : forall x, x ∉ dead -> cnt os' x = cnt os0 x - asum os0 dead x).
  { intros x Hx. rewrite <-(tr_cnt _ _ _ _ _ Htr). unfold cnt. by rewrite Hos, bool_decide_false. }
  assert (Hmort : forall x, mortal os' x = true <-> mortal os0 x = true /\ x ∉ dead).
  { intros x. rewrite <-(skel_mortal _ _ x (tr_skel _ _ _ _ _ Htr)). unfold mortal. rewrite Hos.
    case_bool_decide; naive_solver. }
  assert (Hal : forall x, alive os' x = true <-> alive os0 x = true /\ x ∉ dead).
  { intros x. unfold alive at 1. rewrite andb_true_iff, Hmort. split.
    - intros [[Hm Hx] _]. split; [by apply dm_mortal_alive|done].
    - intros [Ha Hx]. split; [split; [by apply alive_mortal|done]|]. apply Z.ltb_lt. rewrite Hcnt by done.
      rewrite <-(tr_cnt _ _ _ _ _ Htr). by apply (tr_live _ _ _ _ _ Htr). }
  assert (Hsubalive : forall x, alive os' x = true -> alive os0 x = true) by (intros x Hx; by apply Hal).
  assert (Hclosed : forall p c, alive os' p = true -> c ∈ walk os0 p -> is_Some (os' !! c)).
  { intros p c [Hp Hpd]%Hal Hc. rewrite Hos.
    assert (Hcd : is_Some (os0 !! c)).
    { pose proof (alive_some _ _ Hp) as [o Ho]. unfold walk in Hc. rewrite Ho in Hc. by apply (ho_kids _ _ Hok p o). }
    rewrite bool_decide_false; [by apply dm_dom|]. intros Hd. pose proof Hd as Hd'.
    apply (tr_dead _ _ _ _ _ Htr) in Hd' as (Hcm%alive_mortal & _).
    revert Hd. apply (tr_closed _ _ _ _ _ Htr p); [done..|]. rewrite kids_walk.
    apply list_elem_of_In, filter_In. split; [by apply list_elem_of_In|apply Hcm]. }
  assert (Hcolb : forall x, col os' x = CC_BLACK /\ bufd os' x = false).
  { intros x. pose proof (tr_col _ _ _ _ _ Htr x). pose proof (tr_buf _ _ _ _ _ Htr x). unfold col, bufd in *.
    rewrite Hos. by case_bool_decide. }
  assert (Hout : forall x, e0 x = outside h' (plus_list e (deferred ++ new)) x).
  { intros x. rewrite He0. unfold outside, plus_list. rewrite occ_app. specialize (Hcref x). cbn [ctrls h' with_ctrls]. lia. }
  split; [|split; [done|split; [|split; [done|split; [done|intros x; apply Hcolb]]]]].
  - split; [split|]; cbn; try done.
    + apply (heap_ok_ext _ e0); [done|]. apply (heap_ok_sub Hsub Hsubalive Hclosed e0); [done|..].
      * intros x [Hm Hx]%Hmort. rewrite Hcnt by done. rewrite gsum_dead; [lia|].
        intros q Hq. destruct (alive os0 q) eqn:Haq; cbn.
        -- case_bool_decide as Hd.
           ++ destruct (alive os' q) eqn:Hq'; [|done]. apply Hal in Hq' as [_ ?]. done.
           ++ by rewrite (proj2 (Hal q) (conj Haq Hd)).
        -- symmetry. apply bool_decide_false. intros Hd%(tr_dead _ _ _ _ _ Htr). destruct Hd as [Hd _]. congruence.
      * apply (ho_ext _ _ Hok).
      * intros x Hx. rewrite Hos, bool_decide_false; [apply dm_dom; by apply (ho_ext_dom _ _ Hok)|].
        intros Hd. apply (tr_dead _ _ _ _ _ Htr) in Hd as (_ & _ & _ & Hz). lia.
      * intros x Hm Hz. exfalso. apply Hmort in Hm as [Hm Hx]. pose proof (proj2 (Hal x) (conj (dm_mortal_alive x Hm) Hx)) as Ha.
        apply alive_mortal in Ha. lia.
      * intros x. left. apply Hcolb.
      * intros x. by rewrite (proj2 (Hcolb x)).
    + rewrite (dm_roots _ _ _ _ _ Hdm). apply NoDup_nil_2.
    + intros x. rewrite (dm_roots _ _ _ _ _ Hdm), (proj2 (Hcolb x)). set_solver.
    + destruct (os' !! 0) as [o'|] eqn:H0; [|done]. destruct (Hsub 0 o' H0) as (o & Ho & _).
      rewrite (dm_null _ _ _ _ _ Hdm) in Ho. done.
    + intros x Hx. apply Hal in Hx as [Hx Hxd].
      destruct (trial_rooted (dm_cov _ _ _ _ _ Hdm) (dm_buf _ _ _ _ _ Hdm) Htr x Hx Hxd) as (y & Hy & Hyd & Hey & Hyx).
      exists y. split; [split; [by apply Hal|left; by rewrite <-Hout]|].
      clear Hey Hx Hxd. induction Hyx as [y|y z x Hyz Hzx IH]; [done|].
      assert (Hz : z ∉ dead /\ alive os0 z = true) by (apply (live_path Hok Htr y z); [by apply rtc_once|done|done]).
      eapply rtc_l; [|apply IH; apply Hz].
      apply (sub_edge Hsub Hsubalive Hclosed); [by apply Hal|done].
  - intros x o' Hx. cbn in Hx. destruct (Hsub x o' Hx) as (o & Ho & Hst). exists o. split; [done|]. split; [done|].
    rewrite Hos in Hx. case_bool_decide as Hxd; [done|]. split.
    + by apply (finv_lookup (objs h) os0 x); [apply (tr_fin _ _ _ _ _ Htr)|..].
    + pose proof (tr_cnt _ _ _ _ _ Htr x) as Hcx. rewrite (cnt_some _ _ _ Hx), (cnt_some _ _ _ Ho) in Hcx.
      pose proof (asum_nonneg dead x). lia.
Qed.

(** ** With deinit bodies: the counts come back first *)

Lemma restore_edges_spec l : forall os, (forall c, c ∈ l -> is_Some (os !! c)) ->
  exists os', cc_restore_edges os l = Some os' /\ pres os os' /\ (forall x, col os' x = col os x) /\
    (forall x, cnt os' x = cnt os x + occ x (List.filter (mortal os) l)).
Proof.
  induction l as [|c l IH]; intros os Hl; [exists os; split_and!; try done; intros x; cbn; lia|].
  destruct (Hl c) as [o Ho]; [set_solver|]. cbn [cc_restore_edges List.filter]. rewrite Ho. cbn [mbind option_bind].
  rewrite (some_mortal _ _ _ Ho). destruct (o_immortal o) eqn:Hi; cbn [negb]; [apply IH; set_solver|].
  set (os1 := <[c := set_count o (o_count o + 1)]> os).
  assert (Hpres : pres os os1) by (by apply (pres_insert _ _ o)).
  destruct (IH os1) as (os' & -> & Hp' & Hcol & Hcnt).
  { intros d Hd. apply (pres_dom os); [done|]. apply Hl. set_solver. }
  assert (Hf : List.filter (mortal os1) l = List.filter (mortal os) l).
  { apply filter_ext_in. intros d _. by apply skel_mortal, Hpres. }
  rewrite Hf in *. exists os'. split; [done|]. split; [by apply (pres_trans _ os1)|]. split.
  - intros x. rewrite Hcol. unfold os1. rewrite col_insert. case_decide; [|done]. subst. by rewrite (col_some _ _ _ Ho).
  - intros x. rewrite Hcnt. unfold os1. rewrite cnt_insert, occ_cons.
    case_decide; [subst; rewrite (cnt_some _ _ _ Ho); cbn; lia|lia].
Qed.

Lemma restore_all_spec : forall ps os, skel os = skel os0 -> (forall p, p ∈ ps -> alive os0 p = true) ->
  exists os', restore_all ps os = Some os' /\ pres os os' /\ (forall x, col os' x = col os x) /\
    (forall x, cnt os' x = cnt os x + asum os0 ps x).
Proof.
  induction ps as [|p ps IH]; intros os Hs Hps.
  { exists os. split; [done|]. split; [done|]. split; [done|]. intros x. unfold asum. cbn. lia. }
  assert (Hp : alive os0 p = true) by (apply Hps; set_solver). pose proof (alive_some _ _ Hp) as [o0 Ho0].
  assert (exists o, os !! p = Some o) as [o Ho].
  { apply elem_of_dom. rewrite (skel_dom _ _ Hs). apply elem_of_dom. eauto. }
  cbn [restore_all]. rewrite Ho. cbn [mbind option_bind].
  assert (Hw : cc_walk o = walk os0 p) by (rewrite <-(skel_walk os0 os p Hs); unfold walk; by rewrite Ho).
  destruct (restore_edges_spec (cc_walk o) os) as (os1 & -> & Hp1 & Hcol1 & Hcnt1).
  { intros c Hc. apply elem_of_dom. rewrite (skel_dom _ _ Hs). apply elem_of_dom. rewrite Hw in Hc.
    unfold walk in Hc. rewrite Ho0 in Hc. by apply (ho_kids _ _ Hok p o0). }
  cbn [mbind option_bind].
  assert (Hk : List.filter (mortal os) (cc_walk o) = kids os0 p).
  { rewrite kids_walk, Hw. apply filter_ext_in. intros x _. by apply skel_mortal. }
  rewrite Hk in *. destruct (IH os1) as (os' & Hrun & Hp' & Hcol' & Hcnt').
  - etrans; [apply Hp1|done].
  - set_solver.
  - exists os'. split; [done|]. split; [by apply (pres_trans _ os1)|]. split.
    + intros x. by rewrite Hcol'.
    + intros x. rewrite Hcnt', Hcnt1, asum_cons. lia.
Qed.

Lemma retain_all_spec : forall ps h1, (forall p, p ∈ ps -> p <> 0 /\ mortal (objs h1) p = true) ->
  exists os', for_all beans_retain ps h1 = Some (with_objs h1 os') /\ pres (objs h1) os' /\
    (forall x, col os' x = col (objs h1) x) /\ (forall x, cnt os' x = cnt (objs h1) x + occ x ps).
Proof.
  induction ps as [|p ps IH]; intros h1 Hps.
  { exists (objs h1). split; [cbn; by rewrite with_objs_objs|]. split; [done|]. split; [done|]. intros x. rewrite occ_nil. lia. }
  destruct (Hps p) as [Hp0 Hm]; [set_solver|]. destruct (mortal_some _ _ Hm) as (o & Ho & Hi).
  set (os1 := <[p := set_count o (o_count o + 1)]> (objs h1)).
  assert (Hpres : pres (objs h1) os1) by (by apply (pres_insert _ _ o)).
  cbn [for_all]. unfold beans_retain at 2. rewrite (proj2 (Z.eqb_neq p 0) Hp0), Ho. cbn [mbind option_bind]. rewrite Hi.
  cbn [mbind option_bind].
  destruct (IH (with_objs h1 os1)) as (os' & Hrun & Hp' & Hcol & Hcnt).
  { intros q Hq. destruct (Hps q) as [? Hmq]; [set_solver|]. split; [done|]. cbn. rewrite (skel_mortal _ _ q (proj1 Hpres)). done. }
  change (objs (with_objs h1 os1)) with os1 in *. exists os'. split; [fold os1; rewrite Hrun; by destruct h1|]. split; [by apply (pres_trans _ os1)|]. split.
  - intros x. rewrite Hcol. unfold os1. rewrite col_insert. case_decide; [|done]. subst. by rewrite (col_some _ _ _ Ho).
  - intros x. rewrite Hcnt. unfold os1. rewrite cnt_insert, occ_cons.
    case_decide; [subst; rewrite (cnt_some _ _ _ Ho); cbn; lia|lia].
Qed.

(** The set restored and held: ordinary objects again. *)
Lemma dm_restore E : (forall x, e0 x = outside h E x) ->
  exists os' h', restore_all dead (objs h) = Some os' /\ for_all beans_retain dead (with_objs h os') = Some h' /\
    rt_inv h' (plus_list E dead) /\ same_flags h h' /\ finv (objs h') = finv os0 /\ ctrls h' = ctrls h /\
    (forall p, p ∈ dead -> mortal (objs h') p = true).
Proof.
  intros He0.
  assert (Hda : forall p, p ∈ dead -> alive os0 p = true) by (intros p Hp; by apply (tr_dead _ _ _ _ _ Htr)).
  destruct (restore_all_spec dead (objs h) (tr_skel _ _ _ _ _ Htr) Hda) as (os4 & Hrun4 & (Hs4 & Hf4 & Hb4) & Hcol4 & Hcnt4).
  assert (Hs04 : skel os4 = skel os0) by (etrans; [exact Hs4|apply (tr_skel _ _ _ _ _ Htr)]).
  destruct (retain_all_spec dead (with_objs h os4)) as (os5 & Hrun5 & (Hs5 & Hf5 & Hb5) & Hcol5 & Hcnt5).
  { intros p Hp. cbn. split.
    - intros ->. pose proof (alive_some _ _ (Hda 0 Hp)) as [o Ho]. rewrite (dm_null _ _ _ _ _ Hdm) in Ho. done.
    - rewrite (skel_mortal _ _ p Hs04). by apply alive_mortal, Hda. }
  cbn in *. exists os4, (with_objs (with_objs h os4) os5). split; [done|]. split; [done|].
  assert (Hs05 : skel os5 = skel os0) by (by etrans).
  assert (Hcnt : forall x, cnt os5 x = cnt os0 x + occ x dead).
  { intros x. rewrite Hcnt5, Hcnt4, (tr_cnt _ _ _ _ _ Htr). lia. }
  assert (Hal : forall x, alive os5 x = alive os0 x).
  { intros x. unfold alive at 1. rewrite (skel_mortal _ _ x Hs05). destruct (mortal os0 x) eqn:Hm; cbn.
    - rewrite (dm_mortal_alive x Hm). apply Z.ltb_lt. rewrite Hcnt. pose proof (occ_nonneg x dead).
      pose proof (dm_mortal_alive x Hm) as [_ ?]%alive_mortal. lia.
    - unfold alive. by rewrite Hm. }
  assert (Hcolb : forall x, col os5 x = CC_BLACK /\ bufd os5 x = false).
  { intros x. rewrite Hcol5, Hcol4, Hb5, Hb4. split; [apply (tr_col _ _ _ _ _ Htr)|apply (tr_buf _ _ _ _ _ Htr)]. }
  set (h5 := with_objs (with_objs h os4) os5).
  assert (Hout : forall x, outside h5 (plus_list E dead) x = e0 x + occ x dead).
  { intros x. rewrite He0. unfold outside, plus_list. cbn [ctrls h5 with_objs]. lia. }
  split; [|split; [done|split]].
  - split; [split|]; cbn; try done.
    + apply (heap_ok_recount os0 _ e0); try done.
      * intros x _. rewrite Hcnt, Hout. lia.
      * intros x. rewrite Hout. pose proof (ho_ext _ _ Hok x). pose proof (occ_nonneg x dead). lia.
      * intros x. rewrite Hout. intros Hx. destruct (decide (x ∈ dead)) as [Hd|Hd]; [by apply alive_some, Hda|].
        rewrite occ_zero in Hx by done. apply (ho_ext_dom _ _ Hok). lia.
      * intros x Hm Hz. pose proof (dm_mortal_alive x Hm) as Ha. rewrite <-Hal in Ha. apply alive_mortal in Ha. lia.
      * intros x. left. apply Hcolb.
      * intros x. by rewrite (proj2 (Hcolb x)).
    + apply (ctrl_ok_skel os0); [apply (dm_ctrl _ _ _ _ _ Hdm)|done|]. intros x Hl _. by apply (live_same os0).
    + rewrite (dm_roots _ _ _ _ _ Hdm). apply NoDup_nil_2.
    + intros x. rewrite (dm_roots _ _ _ _ _ Hdm), (proj2 (Hcolb x)). set_solver.
    + destruct (os5 !! 0) as [o|] eqn:H0; [|done]. pose proof (skel_lookup _ _ 0 Hs05) as Hl.
      rewrite H0, (dm_null _ _ _ _ _ Hdm) in Hl. done.
    + intros x Hx. rewrite Hal in Hx. destruct (decide (x ∈ dead)) as [Hd|Hd].
      * exists x. split; [|done]. split; [by rewrite Hal|]. left. rewrite Hout. apply occ_pos in Hd.
        pose proof (ho_ext _ _ Hok x). lia.
      * destruct (trial_rooted (dm_cov _ _ _ _ _ Hdm) (dm_buf _ _ _ _ _ Hdm) Htr x Hx Hd) as (y & Hy & Hyd & Hey & Hyx).
        exists y. split; [|by apply (rtc_edge os0)]. split; [by rewrite Hal|]. left. rewrite Hout.
        pose proof (occ_nonneg y dead). lia.
  - change (finv os5 = finv os0). etrans; [exact Hf5|]. etrans; [exact Hf4|apply (tr_fin _ _ _ _ _ Htr)].
  - split; [done|]. intros p Hp. cbn. rewrite (skel_mortal _ _ p Hs05). by apply alive_mortal, Hda.
Qed.
End doomed.

(** ** The bodies, the parking and the holds *)

Section bodies.
Context (deinit : Z -> rt -> option rt) (Hdeinit : deinit_ok deinit).

(** A body outside a death: the object keeps the count it had. *)
Lemma do_deinit_ok h e p o : (forall x, 0 <= e x) -> rt_inv h e -> objs h !! p = Some o -> o_fin o = true ->
  alive (objs h) p = true -> 0 < e p ->
  exists h', beans_do_deinit deinit h p = Some h' /\ rt_inv h' e /\
    fins (objs h') <= fins (objs h) /\ same_flags h h' /\
    (forall x, alive (objs h) x = true -> 0 < e x -> mortal (objs h') x = true).
Proof.
  intros He Hinv Ho Hfin Ha Hep.
  destruct (alive_mortal _ _ Ha) as [Hm Hpos]. rewrite (cnt_some _ _ _ Ho) in Hpos.
  rewrite (some_mortal _ _ _ Ho) in Hm. apply negb_true_iff in Hm.
  destruct (retain_inv h e p Hinv Ha ltac:(lia)) as (h1 & Hrun1 & Hinv1 & Hs1 & Ha1 & Hfl1).
  assert (Hp0 : (p =? 0) = false).
  { apply Z.eqb_neq. intros ->. rewrite (ro_null _ _ (ri_ok _ _ Hinv)) in Ho. done. }
  unfold beans_retain in Hrun1. rewrite Hp0, Ho in Hrun1. cbn [mbind option_bind] in Hrun1. rewrite Hm in Hrun1.
  injection Hrun1 as <-. set (o1 := set_count o (o_count o + 1)) in *. set (os1 := <[p := o1]> (objs h)) in *.
  set (h1 := with_objs h os1) in *.
  destruct (body_ok deinit Hdeinit h1 (plus_list e [p]) p o1) as (h2 & o2 & Hrun & Ho2 & Hi2 & Hc2 & Hmort & Hinv2 & _ & Hf2 & Hfl2 & Hfl2').
  { intros x. unfold plus_list. pose proof (He x). pose proof (occ_nonneg x [p]). lia. }
  { done. }
  { apply lookup_insert_eq. }
  { done. }
  { by rewrite Ha1. }
  { unfold plus_list. rewrite occ_cons, decide_True, occ_nil by done. lia. }
  set (h3 := with_flags (with_objs h2 (<[p := set_fin o2 false]> (objs h2))) (cc_collecting h2) (beans_in_deinit h2 - 1)) in *.
  set (o3 := set_count (set_fin o2 false) (o_count o)).
  assert (Hl3 : objs h3 !! p = Some (set_fin o2 false)) by apply lookup_insert_eq.
  exists (with_objs h3 (<[p := o3]> (objs h3))).
  assert (Hdec : rt_inv (with_objs h3 (<[p := o3]> (objs h3))) e).
  { replace o3 with (set_count (set_fin o2 false) (o_count (set_fin o2 false) - 1)).
    - apply held_dec; try done. cbn. rewrite Hc2. cbn. lia.
    - unfold o3. f_equal. cbn. rewrite Hc2. cbn. lia. }
  split; [|split; [done|split; [|split]]].
  - unfold beans_do_deinit. rewrite Ho. cbn [mbind option_bind].
    replace (with_objs h (<[p := set_fin (set_count o (o_count o + 1)) false]> (objs h)))
      with (with_objs h1 (<[p := set_fin o1 false]> (objs h1))).
    2:{ unfold h1, os1, with_objs. cbn. by rewrite insert_insert_eq. }
    change (cc_collecting (with_objs h1 _)) with (cc_collecting h1). change (beans_in_deinit (with_objs h1 _)) with (beans_in_deinit h1).
    rewrite Hrun. cbn [mbind option_bind]. rewrite Ho2. cbn [mbind option_bind]. f_equal.
    unfold h3, o3, with_objs, with_flags. cbn. by rewrite insert_insert_eq.
  - change (objs (with_objs h3 (<[p := o3]> (objs h3)))) with (<[p := o3]> (objs h3)).
    rewrite (fins_insert _ _ _ _ Hl3). cbn [o3 o_fin set_count set_fin].
    change (fins (objs h3) < fins os1) in Hf2. unfold os1 in Hf2. rewrite (fins_insert _ _ _ _ Ho) in Hf2. cbn in *. lia.
  - cbn. split; [done|]. cbn in *. lia.
  - intros x Hx Hex. destruct (decide (x = p)) as [->|Hxp].
    + cbn. unfold mortal. rewrite lookup_insert_eq. cbn. by rewrite Hi2.
    + pose proof (Hmort x) as Hmx. rewrite Ha1 in Hmx. specialize (Hmx Hx).
      cbn. unfold mortal in *. rewrite !lookup_insert_ne by done. apply Hmx.
      unfold plus_list. pose proof (occ_nonneg x [p]). lia.
Qed.

(** Every body once, in order. *)
Lemma bodies_ok E dead : (forall x, 0 <= E x) -> forall ps h, (forall p, p ∈ ps -> p ∈ dead) ->
  rt_inv h (plus_list E dead) -> (forall p, p ∈ dead -> mortal (objs h) p = true) ->
  exists h', for_all (fun h p => o ← objs h !! p; if o_fin o then beans_do_deinit deinit h p else Some h) ps h = Some h' /\
    rt_inv h' (plus_list E dead) /\ fins (objs h') <= fins (objs h) /\ same_flags h h' /\
    (forall p, p ∈ dead -> mortal (objs h') p = true).
Proof.
  intros HE. assert (HE' : forall x, 0 <= plus_list E dead x).
  { intros x. unfold plus_list. pose proof (HE x). pose proof (occ_nonneg x dead). lia. }
  assert (Hheld : forall x, x ∈ dead -> 0 < plus_list E dead x).
  { intros x Hx%occ_pos. unfold plus_list. pose proof (HE x). lia. }
  assert (Halive : forall h p, rt_inv h (plus_list E dead) -> mortal (objs h) p = true -> p ∈ dead -> alive (objs h) p = true).
  { intros h p Hinv Hm Hp. apply (ok_ext_alive (ro_heap _ _ (ri_ok _ _ Hinv))); [done|].
    unfold outside. pose proof (cref_nonneg (ctrls h) p). pose proof (Hheld p Hp). lia. }
  induction ps as [|p ps IH]; intros h Hps Hinv Hm.
  { exists h. split; [done|]. split; [done|]. split; [lia|]. done. }
  assert (Hp : p ∈ dead) by (apply Hps; set_solver). destruct (mortal_some _ _ (Hm p Hp)) as (o & Ho & Hi).
  cbn [for_all]. rewrite Ho. cbn [mbind option_bind]. destruct (o_fin o) eqn:Hfin.
  - destruct (do_deinit_ok h (plus_list E dead) p o HE' Hinv Ho Hfin) as (h1 & -> & Hinv1 & Hf1 & [Hfl1 Hfl1'] & Hm1); [auto..|].
    cbn [mbind option_bind]. destruct (IH h1) as (h' & Hrun & Hinv' & Hf' & [Hfl' Hfl''] & Hm'); [set_solver|done| |].
    + intros q Hq. apply Hm1; auto.
    + exists h'. split; [done|]. split; [done|]. split; [lia|]. split; [|done]. split; congruence.
  - cbn [mbind option_bind]. apply IH; [set_solver|done..].
Qed.

Lemma park_all_ok e : forall ps h, rt_inv h e -> (forall p, p ∈ ps -> alive (objs h) p = true) ->
  exists h', for_all cc_possible_root ps h = Some h' /\ rt_inv h' e /\ fins (objs h') = fins (objs h) /\ same_flags h h'.
Proof.
  induction ps as [|p ps IH]; intros h Hinv Hps; [exists h; split_and!; done|].
  cbn [for_all]. destruct (park_inv h e p Hinv) as (h1 & -> & Hinv1 & Hs1 & Hf1 & Hc1 & [Hfl1 Hfl1']); [apply Hps; set_solver|].
  cbn [mbind option_bind]. destruct (IH h1 Hinv1) as (h' & Hrun & Hinv' & Hf' & [Hfl' Hfl'']).
  { intros q Hq. unfold alive. rewrite Hc1, (skel_mortal _ _ q Hs1). apply Hps. set_solver. }
  exists h'. split; [done|]. split; [done|]. split; [by rewrite Hf', (fins_finv (objs h))|]. split; congruence.
Qed.

Lemma cycle_deinits_ok os0 e0 rs dead h E : doomed_inv os0 e0 rs dead h -> (forall x, e0 x = outside h E x) -> (forall x, 0 <= E x) ->
  any_fin (objs h) dead = true ->
  exists fuel h', (forall f, (fuel <= f)%nat -> cc_run_cycle_deinits deinit f h dead = Some (h', true)) /\
    rt_inv h' E /\ fins (objs h') <= fins os0 /\ same_flags h h'.
Proof.
  intros Hdm He0 HE Hany.
  destruct (dm_restore Hdm E He0) as (os1 & h1 & Hrun1 & Hrun2 & Hinv1 & [Hfl1 Hfl1'] & Hf1%fins_finv & _ & Hm1).
  destruct (bodies_ok E dead HE dead h1) as (h2 & Hrun3 & Hinv2 & Hf2 & [Hfl2 Hfl2'] & Hm2); [done|done|done|].
  destruct (park_all_ok (plus_list E dead) dead h2 Hinv2) as (h3 & Hrun4 & Hinv3 & Hf3 & [Hfl3 Hfl3']).
  { intros p Hp. apply (ok_ext_alive (ro_heap _ _ (ri_ok _ _ Hinv2))); [by apply Hm2|].
    unfold outside, plus_list. pose proof (cref_nonneg (ctrls h2) p). pose proof (HE p). apply occ_pos in Hp. lia. }
  destruct (owed_ok deinit Hdeinit dead h3 E HE Hinv3) as (fuel & h4 & Hrun5 & Hinv4 & Hf4 & [Hfl4 Hfl4'] & _).
  exists fuel, h4. split; [|split; [done|split; [lia|split; congruence]]].
  intros f Hf. unfold cc_run_cycle_deinits. rewrite Hany, Hrun1. cbn [mbind option_bind]. rewrite Hrun2. cbn [mbind option_bind].
  unfold rt_cycle_deinits_finish. rewrite Hrun3. cbn [mbind option_bind]. rewrite Hrun4. cbn [mbind option_bind].
  rewrite <-owed_for_all, (owed_mono deinit fuel f dead h3 h4 Hf Hrun5). done.
Qed.
End bodies.

(** ** A collection *)

Lemma filter_start h e : rt_inv h e -> filter_inv (with_flags h true (beans_in_deinit h)) e [] (cc_roots h) [].
Proof.
  intros [[Hh Hc Hn Hr H0] Hcov].
  assert (Hout : forall x, outside h e x = outside h (plus_list e []) x).
  { intros x. unfold outside, plus_list. rewrite occ_nil. lia. }
  split; cbn; try done.
  - by apply (heap_ok_ext _ (outside h e)).
  - apply (covered_mono (objs h) _ (outside h e)); [done..| |done].
    intros y [Hy Hor]. split; [done|]. change (outside (with_flags h true (beans_in_deinit h))) with (outside h).
    by rewrite <-Hout.
  - set_solver.
Qed.

Lemma gates_inv h e t w : rt_inv h e -> rt_inv (with_gates h t w) e.
Proof. intros [[]]. split; [split|]; done. Qed.

(** The candidates after the filter, with the root buffer cut to them. *)
Lemma filter_rt h e roots deferred : filter_inv h e roots [] deferred -> rt_inv (with_roots h roots (cc_pending h)) (plus_list e deferred).
Proof.
  intros [Hh Hc Hcov Hn Hr Hk H0]. rewrite app_nil_r in *. split; [split|]; done.
Qed.

(** The trial and the invalidation. *)
Lemma trial_doomed h e roots deferred : filter_inv h e roots [] deferred ->
  exists os dead h1, cc_trial roots (objs h) = Some (os, dead) /\
    for_all rt_weak_invalidate dead (with_roots (with_objs (with_roots h roots (cc_pending h)) os) [] (cc_pending h)) = Some h1 /\
    doomed_inv (objs h) (outside h (plus_list e deferred)) roots dead h1 /\
    (forall x, outside h (plus_list e deferred) x = outside h1 (plus_list e deferred) x) /\ same_flags h h1 /\
    cc_walk_min h1 = cc_walk_min h.
Proof.
  intros [Hh Hc Hcov Hn Hr Hk H0]. rewrite app_nil_r in *.
  assert (Hbuf : forall x, bufd (objs h) x = bool_decide (x ∈ roots)).
  { intros x. specialize (Hr x). case_bool_decide as Hx; [by apply Hr|].
    destruct (bufd (objs h) x) eqn:Hb; [|done]. destruct Hx. by apply Hr. }
  assert (Hcand : forall r, r ∈ roots -> alive (objs h) r = true) by (intros r Hrr; by apply Hk).
  destruct (cc_trial_ok (objs h) (outside h (plus_list e deferred)) roots Hh Hcand Hn Hbuf) as (os & dead & Hrun & Htr).
  set (h0 := with_roots (with_objs (with_roots h roots (cc_pending h)) os) [] (cc_pending h)).
  destruct (invalidate_all (objs h) dead h0 Hc) as (cs' & ws' & Hrun' & Hc' & Hcref & Hws).
  exists os, dead, (with_ctrls h0 cs' ws'). split; [done|]. split; [done|]. split; [|split; [|done]].
  - split; try done. intros x Hx. apply Hws. by left.
  - intros x. unfold outside. cbn [ctrls with_ctrls]. rewrite Hcref. done.
Qed.

Section collect.
Context (deinit : Z -> rt -> option rt) (Hdeinit : deinit_ok deinit).

Lemma occ_all_zero (l : list Z) : (forall x, occ x l = 0) -> l = [].
Proof. destruct l as [|y l]; [done|]. intros H. specialize (H y). rewrite occ_cons, decide_True in H by done. pose proof (occ_nonneg y l). lia. Qed.

(** What a collection still owes when the condemned are dealt with. *)
Lemma finish_ok h e deferred : (forall x, 0 <= e x) -> rt_inv h (plus_list e deferred) ->
  exists fuel h', (forall f, (fuel <= f)%nat ->
      release_all_owed deinit f h deferred ≫= (fun h => Some (with_flags h false (beans_in_deinit h))) = Some h') /\
    rt_inv h' e /\ fins (objs h') <= fins (objs h) /\ beans_in_deinit h' = beans_in_deinit h /\ cc_collecting h' = false /\
    (fins (objs h) = 0 -> sub_heap (objs h) (objs h')) /\ (deferred = [] -> objs h' = objs h /\ ctrls h' = ctrls h).
Proof.
  intros He Hinv. destruct (owed_ok deinit Hdeinit deferred h e He Hinv) as (fuel & h1 & Hrun & Hinv1 & Hf1 & [Hfl1 Hfl1'] & Hs1).
  exists fuel, (with_flags h1 false (beans_in_deinit h1)). split; [|split; [by apply flags_inv|split; [done|split; [done|split; [done|split; [done|]]]]]].
  - intros f Hf. by rewrite (owed_mono deinit fuel f deferred h h1 Hf Hrun).
  - intros ->. cbn in Hrun. by injection Hrun as <-.
Qed.

(** The condemned set dies, whichever way. *)
Lemma kill_ok os0 e0 rs dead h e deferred : (forall x, 0 <= e x) -> doomed_inv os0 e0 rs dead h ->
  (forall x, e0 x = outside h (plus_list e deferred) x) ->
  exists fuel h1 (taken : bool) h' new, (forall f, (fuel <= f)%nat -> cc_run_cycle_deinits deinit f h dead = Some (h1, taken)) /\
    (if taken then Some (h1, deferred) else cc_free_cycle_shells h1 dead deferred) = Some (h', deferred ++ new) /\
    rt_inv h' (plus_list e (deferred ++ new)) /\ fins (objs h') <= fins os0 /\ same_flags h h' /\
    (fins os0 = 0 -> sub_heap os0 (objs h') /\ (forall x, bufd (objs h') x = false) /\
       forall x, cref (ctrls h) x = cref (ctrls h') x + occ x new).
Proof.
  intros He Hdm He0. destruct (any_fin (objs h) dead) eqn:Hany.
  - destruct (cycle_deinits_ok deinit Hdeinit os0 e0 rs dead h (plus_list e deferred) Hdm He0) as (fuel & h1 & Hrun & Hinv & Hf & Hfl);
      [|done|].
    { intros x. unfold plus_list. pose proof (He x). pose proof (occ_nonneg x deferred). lia. }
    exists fuel, h1, true, h1, []. rewrite app_nil_r. split; [done|]. split; [done|]. split; [done|]. split; [done|]. split; [done|].
    intros Hz. exfalso. unfold any_fin in Hany. apply existsb_exists in Hany as (p & Hp%list_elem_of_In & Hfin).
    destruct (objs h !! p) as [o|] eqn:Ho; [|done].
    rewrite <-(fins_finv os0 (objs h)) in Hz by apply (tr_fin _ _ _ _ _ (dm_trial _ _ _ _ _ Hdm)).
    rewrite (proj1 (fins_zero _) Hz p o Ho) in Hfin. done.
  - destruct (dm_free Hdm e deferred He0) as (h' & new & Hrun & Hinv & Hfl & Hsub & _ & Hcref & Hb).
    exists O, h, false, h', new. split; [intros f _; unfold cc_run_cycle_deinits; by rewrite Hany|].
    split; [done|]. split; [done|]. split; [by apply fins_sub_le|]. split; [done|]. done.
Qed.

Lemma doomed_gates os0 e0 rs dead h t w : doomed_inv os0 e0 rs dead h -> doomed_inv os0 e0 rs dead (with_gates h t w).
Proof. intros []. split; done. Qed.

(** From the filtered candidates to the end of the kill. *)
Definition maybe_trial (force : bool) (roots : list Z) (h : rt) : option (rt * list Z) :=
  if negb (Z.of_nat (length roots) =? 0) && (force || (cc_walk_min h <=? Z.of_nat (length roots))) then
    '(os, dead) ← cc_trial roots (objs h);
    h ← for_all rt_weak_invalidate dead (with_roots (with_objs h os) [] (cc_pending h));
    Some (with_gates h (cc_threshold h) (cc_next_walk_min dead (cc_walk_min h)), dead)
  else Some (h, []).

Definition rearm (h : rt) : rt := with_gates h (Z.of_nat (length (cc_roots h)) * 2 + 256) (cc_walk_min h).

Lemma middle_ok force h1 e roots deferred : (forall x, 0 <= e x) -> filter_inv h1 e roots [] deferred ->
  exists fuel h3 dead h4 (taken : bool) h5 new,
    maybe_trial force roots (with_roots h1 roots (cc_pending h1)) = Some (h3, dead) /\
    (forall f, (fuel <= f)%nat -> cc_run_cycle_deinits deinit f (rearm h3) dead = Some (h4, taken)) /\
    (if taken then Some (h4, deferred) else cc_free_cycle_shells h4 dead deferred) = Some (h5, deferred ++ new) /\
    rt_inv h5 (plus_list e (deferred ++ new)) /\ fins (objs h5) <= fins (objs h1) /\ same_flags h1 h5 /\
    (fins (objs h1) = 0 -> sub_heap (objs h1) (objs h5) /\
       (forall x, cref (ctrls h1) x = cref (ctrls h5) x + occ x new) /\
       (force = true -> forall x, bufd (objs h5) x = false)).
Proof.
  intros He Hfi. set (h2 := with_roots h1 roots (cc_pending h1)). unfold maybe_trial.
  destruct (negb (Z.of_nat (length roots) =? 0) && (force || (cc_walk_min h2 <=? Z.of_nat (length roots)))) eqn:Hgate.
  - destruct (trial_doomed h1 e roots deferred Hfi) as (os & dead & h3 & Hrun & Hinval & Hdm & Hout & [Hfl Hfl'] & _).
    change (objs h2) with (objs h1). rewrite Hrun. cbn [mbind option_bind].
    change (cc_pending h2) with (cc_pending h1). change (with_objs (with_roots h1 roots (cc_pending h1)) os) with (with_objs h2 os) in Hinval.
    rewrite Hinval. cbn [mbind option_bind].
    set (h3' := rearm (with_gates h3 (cc_threshold h3) (cc_next_walk_min dead (cc_walk_min h3)))).
    destruct (kill_ok (objs h1) _ roots dead h3' e deferred He ltac:(by do 2 apply doomed_gates) Hout)
      as (fuel & h4 & taken & h5 & new & Hk1 & Hk2 & Hinv & Hf & [Hfl5 Hfl5'] & Hfin).
    exists fuel, (with_gates h3 (cc_threshold h3) (cc_next_walk_min dead (cc_walk_min h3))), dead, h4, taken, h5, new. split; [done|]. split; [exact Hk1|]. split; [done|]. split; [done|]. split; [done|].
    change (cc_collecting h3') with (cc_collecting h3) in Hfl5. change (beans_in_deinit h3') with (beans_in_deinit h3) in Hfl5'.
    split; [split; congruence|]. intros Hz. destruct (Hfin Hz) as (Hs & Hb & Hc). split; [done|]. split; [|done].
    intros x. rewrite <-Hc. specialize (Hout x). unfold outside in Hout. cbn. lia.
  - pose proof (filter_rt h1 e roots deferred Hfi) as Hinv.
    exists O, h2, [], (rearm h2), false, (rearm h2), []. rewrite app_nil_r. split; [done|]. split; [done|]. split; [done|].
    split; [by apply gates_inv|]. split; [done|]. split; [done|]. intros _. split; [apply sub_heap_refl|]. split.
    + intros x. rewrite occ_nil. cbn. lia.
    + intros ->. rewrite andb_true_r in Hgate. apply negb_false_iff, Z.eqb_eq in Hgate.
      destruct roots; [|cbn in Hgate; lia]. intros x. pose proof (fi_roots _ _ _ _ _ Hfi x) as Hr. cbn in Hr. cbn.
      destruct (bufd (objs h1) x); [|done]. pose proof (proj2 Hr eq_refl) as Hin. by apply elem_of_nil in Hin.
Qed.

Lemma collect_ok force h e : (forall x, 0 <= e x) -> rt_inv h e ->
  exists fuel h', (forall f, (fuel <= f)%nat -> cc_collect deinit f force h = Some h') /\ rt_inv h' e /\
    fins (objs h') <= fins (objs h) /\ same_flags h h' /\
    (fins (objs h) = 0 -> sub_heap (objs h) (objs h')) /\
    (cc_collecting h = false -> beans_in_deinit h = 0 -> force = true -> fins (objs h) = 0 ->
     (forall x, cref (ctrls h) x = 0) -> (forall x, bufd (objs h') x = false) /\ (forall x, cref (ctrls h') x = 0)).
Proof.
  intros He Hinv. unfold cc_collect. destruct (cc_collecting h) eqn:Hcol.
  { exists O, h. split; [done|]. split; [done|]. split; [lia|]. split; [done|]. split; [intros _; apply sub_heap_refl|done]. }
  destruct (Z.eqb_spec (beans_in_deinit h) 0) as [Hin|Hin]; cbn [negb].
  2:{ exists O, h. split; [done|]. split; [done|]. split; [lia|]. split; [done|]. split; [intros _; apply sub_heap_refl|done]. }
  set (h0 := with_flags h true (beans_in_deinit h)).
  destruct (filter_roots_ok e (cc_roots h) h0 [] [] (filter_start h e Hinv))
    as (h1 & roots & deferred & Hrun1 & Hfi & _ & [Hfl1 Hfl1'] & Hwm & Hpend & Hsub1 & new1 & Hnew1 & Hcref1).
  change (cc_roots h0) with (cc_roots h). rewrite Hrun1. cbn [mbind option_bind].
  change (objs h0) with (objs h) in Hsub1. change (ctrls h0) with (ctrls h) in Hcref1. cbn [app] in Hnew1. subst deferred.
  destruct (middle_ok force h1 e roots new1 He Hfi) as (f1 & h3 & dead & h4 & taken & h5 & new & Hm & Hk1 & Hk2 & Hinv5 & Hf5 & [Hfl5 Hfl5'] & Hfin5).
  destruct (finish_ok h5 e (new1 ++ new) He Hinv5) as (f2 & h6 & Hfi6 & Hinv6 & Hf6 & Hfl6 & Hfl6' & Hsub6 & Hempty6).
  pose proof (fins_sub_le _ _ Hsub1) as Hf1. pose proof (fins_nonneg (objs h1)). pose proof (fins_nonneg (objs h5)).
  exists (f1 + f2)%nat, h6. split; [|split; [done|split; [lia|split; [|split]]]].
  - intros f Hf. unfold maybe_trial in Hm. cbv zeta. rewrite Hm. cbn [mbind option_bind]. fold (rearm h3).
    rewrite Hk1 by lia. cbn [mbind option_bind]. rewrite Hk2. cbn [mbind option_bind]. apply Hfi6. lia.
  - split; [by rewrite Hfl6', Hcol|]. rewrite Hfl6, Hfl5', Hfl1'. done.
  - intros Hz. apply (sub_heap_trans _ (objs h1)); [done|]. apply (sub_heap_trans _ (objs h5)).
    + apply Hfin5. lia.
    + apply Hsub6. lia.
  - intros _ _ Hforce Hz Hcz. destruct Hfin5 as (_ & Hc5 & Hb5); [lia|].
    assert (Hz1 : forall x, occ x new1 = 0 /\ occ x new = 0 /\ cref (ctrls h5) x = 0).
    { intros x. specialize (Hcref1 x). specialize (Hc5 x). rewrite Hcz in Hcref1.
      pose proof (occ_nonneg x new1). pose proof (occ_nonneg x new). pose proof (cref_nonneg (ctrls h5) x). lia. }
    rewrite (occ_all_zero new1), (occ_all_zero new) in Hempty6 by apply Hz1. destruct (Hempty6 eq_refl) as [-> ->].
    split; [by apply Hb5|apply Hz1].
Qed.
End collect.
End holds.
