(* ===== verification/Handles.v ===== *)
(** * Handles: allocation, weak and shared handles

    [runtime/beans_rt.c], [beans_alloc] and the handle entries: zeroing weak
    references to objects ([beans_object_weak_new], [beans_object_weak_get]),
    and [Shared] with its weak side.  Where the pool and the host allocator
    take a block from is a parameter; an allocation first runs the collection
    that is due. *)

From stdpp Require Import gmap.
From S2P Require Import Prelude Mem ListRt MapRt Heap Collector.

Open Scope c_scope.

(** The allocator: an unused non-null address for an object, and an unused one
    for a control block. *)
Class Allocator := {
  new_block : gmap Z obj -> Z;
  new_ctrl : gmap Z BSharedCtrl -> Z;
  new_block_fresh : forall os, os !! new_block os = None /\ new_block os <> 0;
  new_ctrl_fresh : forall cs, cs !! new_ctrl cs = None
}.

Section handles.
Context {A : Allocator} (deinit : Z -> rt -> option rt).

(** [o] is the fresh box: its header words and its zeroed or copied payload. *)
Definition beans_alloc (fuel : nat) (h : rt) (o : obj) : option (rt * Z) :=
  h ← (if cc_pending h && negb (cc_collecting h) then cc_collect deinit fuel false h else Some h);
  let p := new_block (objs h) in
  Some (with_objs h (<[p := o]> (objs h)), p).

(** A fresh handle on block [c]; [extra] is 2 for a strong one, 3 for a weak
    one and 7 for a weak one on an object. *)
Definition handle_box (extra c : Z) : obj :=
  mkObj 1 false false (6 |! (extra <<! 3)) CC_BLACK false (PHandle c).

(** The block of a handle. *)
Definition handle_ctrl (h : rt) (p : Z) : option (Z * BSharedCtrl) :=
  o ← objs h !! p;
  match o_pay o with
  | PHandle c => k ← ctrls h !! c; Some (c, k)
  | _ => None
  end.

Definition set_ctrl (h : rt) (c : Z) (k : BSharedCtrl) : rt :=
  with_ctrls h (<[c := k]> (ctrls h)) (weak_entries h).

(** ** Weak references to objects *)

(** Find or create the block of an object. *)
Definition weak_ctrl_for (h : rt) (p : Z) : rt * Z :=
  match weak_entries h !! p with
  | Some c => (h, c)
  | None =>
      let c := new_ctrl (ctrls h) in
      (with_ctrls h (<[c := mkCtrl 0 1 p 0]> (ctrls h)) (<[p := c]> (weak_entries h)), c)
  end.

Definition beans_object_weak_new (fuel : nat) (h : rt) (p : Z) : option (rt * Z) :=
  if p =? 0 then Some (h, 0)
  else
    let '(h, c) := weak_ctrl_for h p in
    k ← ctrls h !! c;
    beans_alloc fuel (set_ctrl h c (mkCtrl (c_strong k) (c_weak k + 1) (c_value k) (c_value_ptr k))) (handle_box 7 c).

(** A retain that refuses to resurrect. *)
Definition rt_try_retain (h : rt) (p : Z) : option (rt * bool) :=
  o ← objs h !! p;
  if o_immortal o then Some (h, true)
  else if o_count o =? 0 then Some (h, false)
  else Some (with_objs h (<[p := set_count o (o_count o + 1)]> (objs h)), true).

Definition beans_object_weak_get (h : rt) (p : Z) : option (rt * Z) :=
  if p =? 0 then Some (h, 0)
  else
    '(c, k) ← handle_ctrl h p;
    if c_value k =? 0 then Some (h, 0)
    else
      '(h, alive) ← rt_try_retain h (c_value k);
      Some (h, if alive : bool then c_value k else 0).

(** ** Shared *)

Definition beans_shared_new (fuel : nat) (h : rt) (value value_ptr : Z) : option (rt * Z) :=
  let c := new_ctrl (ctrls h) in
  beans_alloc fuel (set_ctrl h c (mkCtrl 1 1 value value_ptr)) (handle_box 2 c).

Definition beans_shared_get (h : rt) (p : Z) : option Z :=
  '(c, k) ← handle_ctrl h p; Some (c_value k).

Definition beans_shared_downgrade (fuel : nat) (h : rt) (p : Z) : option (rt * Z) :=
  '(c, k) ← handle_ctrl h p;
  beans_alloc fuel (set_ctrl h c (mkCtrl (c_strong k) (c_weak k + 1) (c_value k) (c_value_ptr k))) (handle_box 3 c).

Definition beans_weak_upgrade (fuel : nat) (h : rt) (p : Z) : option (rt * Z) :=
  '(c, k) ← handle_ctrl h p;
  if 0 <? c_strong k then
    beans_alloc fuel (set_ctrl h c (mkCtrl (c_strong k + 1) (c_weak k) (c_value k) (c_value_ptr k))) (handle_box 2 c)
  else Some (h, 0).

Definition beans_weak_expired (h : rt) (p : Z) : option bool :=
  '(c, k) ← handle_ctrl h p; Some (c_strong k =? 0).

End handles.
