(* ===== verification/HandleProofs.v ===== *)
(** * HandleProofs: allocation and handles keep the invariant

    A fresh box takes its children from the references its maker holds; a
    handle entry takes its hold on the block before the allocation that may
    collect, and the box takes it over. *)

From stdpp Require Import gmap.
From S2P Require Import Prelude Mem ListRt MapRt Heap HeapSum HeapInv CtrlInv ReleaseProofs.
From S2P Require Import Collector MarkProofs CycleProofs CollectProofs Handles.

Open Scope c_scope.

Implicit Types (os : gmap Z obj) (e : Z -> Z) (h : rt).

(** ** A fresh object *)

Record fresh_box (o : obj) : Prop := {
  fb_count : o_count o = 1;
  fb_mortal : o_immortal o = false;
  fb_color : o_color o = CC_BLACK;
  fb_buf : o_buf o = false
}.

Section fresh.
Context {os : gmap Z obj} {e e' : Z -> Z} {p : Z} {o : obj}.
Context (Hok : heap_ok os e) (Hp : os !! p = None) (Hbox : fresh_box o).
Context (Hdom : forall c, c ∈ cc_walk o -> is_Some (os !! c)).
Context (He' : forall x, e' x = e x - occ x (List.filter (mortal os) (cc_walk o)) + if decide (p = x) then 1 else 0).
Context (Hown : forall x, occ x (List.filter (mortal os) (cc_walk o)) <= e x).

Let os' := <[p := o]> os.

Lemma fresh_other q : q <> p -> os' !! q = os !! q.
Proof. intros Hq. unfold os'. by rewrite lookup_insert_ne. Qed.

Lemma fresh_ne q : is_Some (os !! q) -> q <> p.
Proof. intros [oq Hq] ->. congruence. Qed.

Lemma fresh_mortal q : q <> p -> mortal os' q = mortal os q.
Proof. intros Hq. unfold mortal. by rewrite fresh_other. Qed.

Lemma fresh_alive q : alive os' q = if decide (q = p) then true else alive os q.
Proof.
  case_decide as Hq; [subst|unfold alive, mortal, cnt; by rewrite fresh_other].
  unfold alive, mortal, cnt, os'. rewrite lookup_insert_eq. destruct Hbox as [-> -> _ _]. done.
Qed.

Lemma fresh_kids q : alive os q = true -> kids os' q = kids os q.
Proof.
  intros Hq. pose proof (alive_some _ _ Hq) as [oq Hoq]. unfold kids. rewrite fresh_other by (apply fresh_ne; eauto).
  rewrite Hoq. apply filter_ext_in. intros c Hc. apply fresh_mortal, fresh_ne. by apply (ho_kids _ _ Hok q oq).
Qed.

Lemma fresh_kids_p : kids os' p = List.filter (mortal os) (cc_walk o).
Proof.
  unfold kids, os'. rewrite lookup_insert_eq. apply filter_ext_in. intros c Hc. by apply fresh_mortal, fresh_ne, Hdom.
Qed.

Lemma fresh_refs x : refs os' x = refs os x + occ x (List.filter (mortal os) (cc_walk o)).
Proof.
  unfold refs, os'. rewrite dom_insert_L, dsum_insert by (by apply not_elem_of_dom). fold os'.
  rewrite fresh_alive, decide_True, fresh_kids_p by done.
  rewrite (dsum_ext (dom os) _ (fun p => if alive os p then occ x (kids os p) else 0)); [lia|].
  intros q Hq. rewrite fresh_alive, decide_False by (apply fresh_ne; by apply elem_of_dom).
  destruct (alive os q) eqn:Ha; [|done]. by rewrite fresh_kids.
Qed.

Lemma fresh_ext_p : e p = 0 /\ refs os p = 0 /\ occ p (List.filter (mortal os) (cc_walk o)) = 0.
Proof.
  split; [|split].
  - pose proof (ho_ext _ _ Hok p). destruct (decide (0 < e p)) as [Hpos|]; [|lia].
    apply (ho_ext_dom _ _ Hok) in Hpos as [? ?]. congruence.
  - apply dsum_zero. intros q _. destruct (alive os q) eqn:Ha; [|done]. apply occ_zero.
    intros Hin%kids_mortal%mortal_some. destruct Hin as (? & ? & _). congruence.
  - apply occ_zero. intros [Hin _]%list_elem_of_In%filter_In. apply list_elem_of_In, Hdom in Hin as [? ?]. congruence.
Qed.

Lemma heap_fresh : heap_ok os' e'.
Proof.
  destruct fresh_ext_p as (Hep & Hrp & Hop). destruct Hbox as [Hc1 Hi1 Hcol1 Hb1].
  split.
  - intros x Hx. rewrite fresh_refs, He'. destruct (decide (p = x)) as [<-|Hne].
    + unfold cnt, os'. rewrite lookup_insert_eq, Hc1. lia.
    + rewrite fresh_mortal in Hx by done. unfold cnt. rewrite fresh_other by done.
      pose proof (ho_count _ _ Hok x Hx) as Hcx. unfold cnt in Hcx. lia.
  - intros x ox c Hx Ha Hc. rewrite fresh_alive in Ha. case_decide as Hxp.
    + subst. unfold os' in Hx. rewrite lookup_insert_eq in Hx. injection Hx as <-.
      rewrite fresh_other; [by apply Hdom|]. apply fresh_ne. by apply Hdom.
    + rewrite fresh_other in Hx by done. pose proof (ho_kids _ _ Hok x ox c Hx Ha Hc) as Hs.
      rewrite fresh_other; [done|]. by apply fresh_ne.
  - intros x. rewrite He'. specialize (Hown x). case_decide; lia.
  - intros x. rewrite He'. destruct (decide (p = x)) as [<-|Hne]; [intros _; unfold os'; rewrite lookup_insert_eq; eauto|].
    intros Hx. rewrite fresh_other by done. apply (ho_ext_dom _ _ Hok). pose proof (occ_nonneg x (List.filter (mortal os) (cc_walk o))). lia.
  - intros x Hx. destruct (decide (x = p)) as [->|Hne].
    + unfold cnt, os'. rewrite lookup_insert_eq, Hc1. lia.
    + rewrite fresh_mortal in Hx by done. unfold cnt, bufd, col. rewrite fresh_other by done. by apply (ho_husk _ _ Hok).
  - intros x. unfold col, bufd. destruct (decide (x = p)) as [->|Hne].
    + unfold os'. rewrite lookup_insert_eq, Hcol1. by left.
    + rewrite fresh_other by done. apply (ho_color _ _ Hok).
  - intros x. unfold bufd. destruct (decide (x = p)) as [->|Hne].
    + unfold os'. by rewrite lookup_insert_eq, Hb1.
    + rewrite fresh_mortal, fresh_other by done. apply (ho_buf _ _ Hok).
Qed.

Lemma covered_fresh : covered os e -> covered os' e'.
Proof.
  intros Hcov.
  assert (Hpa : anchor os' e' p).
  { split; [by rewrite fresh_alive, decide_True|]. left. rewrite He', decide_True by done. specialize (Hown p). lia. }
  assert (Hstep : forall y x, rtc (edge os) y x -> rtc (edge os') y x).
  { intros y x. apply rtc_subrel. intros u v [Hu Hv]. split; [|by rewrite fresh_kids].
    rewrite fresh_alive. by case_decide. }
  intros x Hx. rewrite fresh_alive in Hx. case_decide as Hxp; [subst; by exists p|].
  destruct (Hcov x Hx) as (y & [Hay Hy] & Hyx). pose proof (alive_some _ _ Hay) as Hsy. pose proof (fresh_ne y Hsy) as Hyp.
  destruct (decide (0 < e' y)) as [Hpos|Hnpos].
  { exists y. split; [split; [by rewrite fresh_alive, decide_False|by left]|by apply Hstep]. }
  destruct Hy as [Hy|Hy].
  - (* the reference to [y] went into the new box *)
    exists p. split; [done|]. eapply rtc_l; [|by apply Hstep]. split; [by rewrite fresh_alive, decide_True|].
    rewrite fresh_kids_p. apply occ_pos. rewrite He', decide_False in Hnpos by done. lia.
  - exists y. split; [split; [by rewrite fresh_alive, decide_False|right]|by apply Hstep].
    unfold bufd, col in *. by rewrite fresh_other.
Qed.
End fresh.

(** ** Blocks *)

(** A frame's hold on block [c], of an object when [ob]. *)
Program Definition add_hold (H : Holds) (b : bool) (c : Z) (ob : bool) : Holds := {|
  held b' c' := held b' c' + (if decide ((b', c') = (b, c)) then 1 else 0);
  held_object c' := held_object c' || (ob && negb b && bool_decide (c' = c))
|}.
Next Obligation. intros H b c ob b' c'. cbn. pose proof (held_nonneg b' c'). case_decide; lia. Qed.
Next Obligation.
  intros H b c ob c'. cbn. pose proof (held_nonneg false c').
  intros [Ho|[[_ Hb]%andb_true_iff Hc]%andb_true_iff]%orb_true_iff.
  - pose proof (held_object_held c' Ho). case_decide; lia.
  - apply negb_true_iff in Hb as ->. apply bool_decide_eq_true in Hc as ->. rewrite decide_True by done. lia.
Qed.

(** The box takes the frame's hold over. *)
Lemma ctrl_fresh (H1 H2 : Holds) os cs ws p o : @ctrl_ok H1 os cs ws -> os !! p = None -> o_immortal o = false -> 0 < o_count o ->
  (forall b c, @held H1 b c = @held H2 b c + (if decide (handle_of o = Some (b, c)) then 1 else 0)) ->
  (forall c, @held_object H2 c = true -> @held_object H1 c = true) ->
  (forall c, handle_of o = Some (false, c) -> o_extra o = 7 -> @held_object H1 c = true) ->
  @ctrl_ok H2 (<[p := o]> os) cs ws.
Proof.
  intros [Hs Hw Hh Ht Hv Hob Hhe] Hp Hi Hc Hheld Ho2 Ho1.
  assert (Hcount : forall b c, hcount (<[p := o]> os) b c + @held H2 b c = hcount os b c + @held H1 b c).
  { intros b c. rewrite Hheld, (hcount_delete (<[p := o]> os) p o) by apply lookup_insert_eq.
    rewrite delete_insert_id by done. lia. }
  split.
  - intros c k Hk. rewrite Hcount. by apply Hs.
  - intros c k Hk. rewrite Hcount. by apply Hw.
  - intros b c. rewrite Hcount. apply Hh.
  - intros x c Hx. destruct (Ht x c Hx) as [(ox & Hox & Hl) Hk]. split; [|done]. exists ox.
    rewrite lookup_insert_ne; [done|congruence].
  - done.
  - intros q oq c k Hq Hho Hex Hk. destruct (decide (q = p)) as [->|Hne].
    + rewrite lookup_insert_eq in Hq. injection Hq as <-. apply (Hhe c); [by apply Ho1|done].
    + rewrite lookup_insert_ne in Hq by done. by apply (Hob q oq c).
  - intros c k Hc2. apply Hhe. by apply Ho2.
Qed.

(** One block changes while the frame's holds on it do. *)
Lemma ctrl_set (H1 H2 : Holds) os cs ws c k' : @ctrl_ok H1 os cs ws ->
  (forall b c', c' <> c -> @held H2 b c' = @held H1 b c') ->
  (forall c', c' <> c -> @held_object H2 c' = @held_object H1 c') ->
  c_strong k' = hcount os true c + @held H2 true c ->
  c_weak k' = (if 0 <? c_strong k' then 1 else 0) + (hcount os false c + @held H2 false c) + wcount ws c -> 0 < c_weak k' ->
  (forall x, ws !! x = Some c -> c_strong k' = 0 /\ c_value k' = x) ->
  (c_strong k' = 0 -> c_value k' <> 0 -> ws !! c_value k' = Some c) ->
  (forall p o, os !! p = Some o -> handle_of o = Some (false, c) -> o_extra o = 7 -> c_strong k' = 0) ->
  (@held_object H2 c = true -> c_strong k' = 0) ->
  @ctrl_ok H2 os (<[c := k']> cs) ws.
Proof.
  intros [Hs Hw Hh Ht Hv Hob Hhe] Hne Hno Hs' Hw' Hpos Ht' Hv' Hob' Hhe'. split.
  - intros c' k. destruct (decide (c' = c)) as [->|Hc]; [rewrite lookup_insert_eq; by intros [= <-]|].
    rewrite lookup_insert_ne, Hne by done. apply Hs.
  - intros c' k. destruct (decide (c' = c)) as [->|Hc]; [rewrite lookup_insert_eq; by intros [= <-]|].
    rewrite lookup_insert_ne, Hne by done. apply Hw.
  - intros b c' Hb. destruct (decide (c' = c)) as [->|Hc]; [rewrite lookup_insert_eq; eauto|].
    rewrite lookup_insert_ne by done. rewrite Hne in Hb by done. by apply (Hh b).
  - intros x c' Hx. destruct (Ht x c' Hx) as [Hl (k & Hk & ?)]. split; [done|].
    destruct (decide (c' = c)) as [->|Hc].
    + exists k'. rewrite lookup_insert_eq. split; [done|]. by apply Ht'.
    + exists k. by rewrite lookup_insert_ne.
  - intros c' k. destruct (decide (c' = c)) as [->|Hc]; [rewrite lookup_insert_eq; by intros [= <-]|].
    rewrite lookup_insert_ne by done. apply Hv.
  - intros p o c' k Hp Hho Hex. destruct (decide (c' = c)) as [->|Hc].
    + rewrite lookup_insert_eq. intros [= <-]. by apply (Hob' p o).
    + rewrite lookup_insert_ne by done. by apply (Hob p o).
  - intros c' k Hc2. destruct (decide (c' = c)) as [->|Hc]; [rewrite lookup_insert_eq; intros [= <-]; by apply Hhe'|].
    rewrite lookup_insert_ne by done. apply Hhe. by rewrite <-Hno.
Qed.

Lemma rt_inv_ctrls (H1 H2 : Holds) h e e' cs ws : @rt_inv H1 h e -> @ctrl_ok H2 (objs h) cs ws ->
  (forall x, cref cs x + e' x = cref (ctrls h) x + e x) -> @rt_inv H2 (with_ctrls h cs ws) e'.
Proof.
  intros [[Hh Hc Hn Hr H0] Hcov] Hc' Hout. split; [split; try done|].
  - apply (heap_ok_ext _ (outside h e)); [|done]. intros x. unfold outside. cbn. by rewrite Hout.
  - cbn. apply (covered_mono (objs h) _ (outside h e)); [done..| |done].
    intros y. unfold anchor, outside. cbn. by rewrite Hout.
Qed.

(** ** Allocation *)

(** References to immortal objects count nothing. *)
Lemma rt_inv_agree {HH : Holds} h e e' : (forall x, 0 <= e x) -> rt_inv h e -> (forall x, mortal (objs h) x = true -> e' x = e x) ->
  (forall x, 0 <= e' x) -> (forall x, 0 < e' x -> is_Some (objs h !! x)) -> rt_inv h e'.
Proof.
  intros He [[Hh Hc Hn Hr H0] Hcov] Hag Hnn Hd. split; [split; try done|].
  - destruct Hh as [h1 h2 h3 h4 h5 h6 h7]. split; try done.
    + intros x Hx. rewrite (h1 x Hx). unfold outside. by rewrite Hag.
    + intros x. unfold outside. pose proof (cref_nonneg (ctrls h) x). specialize (Hnn x). lia.
    + intros x Hx. destruct (decide (0 < e' x)); [by apply Hd|]. destruct (mortal (objs h) x) eqn:Hm.
      * apply mortal_some in Hm as (? & ? & _). eauto.
      * apply h4. unfold outside in *. specialize (Hnn x). specialize (He x). lia.
  - apply (covered_mono (objs h) _ (outside h e)); [done..| |done].
    intros y [Hy Hor]. split; [done|]. apply alive_mortal in Hy as [Hm _]. unfold outside. by rewrite Hag.
Qed.

Section ops.
Context {A : Allocator} (deinit : Z -> rt -> option rt) (Hdeinit : forall H : Holds, deinit_ok deinit).

(** [beans_alloc]: the collection that is due, then the box, which takes its
    children from the references its maker holds. *)
Lemma alloc_inv (H1 H2 : Holds) h e o : (forall x, 0 <= e x) -> @rt_inv H1 h e -> fresh_box o ->
  (forall x, occ x (cc_walk o) <= e x) ->
  (forall b c, @held H1 b c = @held H2 b c + (if decide (handle_of o = Some (b, c)) then 1 else 0)) ->
  (forall c, @held_object H2 c = true -> @held_object H1 c = true) ->
  (forall c, handle_of o = Some (false, c) -> o_extra o = 7 -> @held_object H1 c = true) ->
  exists fuel h' p, (forall f, (fuel <= f)%nat -> beans_alloc deinit f h o = Some (h', p)) /\
    @rt_inv H2 h' (fun x => e x - occ x (cc_walk o) + if decide (p = x) then 1 else 0) /\
    objs h' !! p = Some o /\ p <> 0 /\
    fins (objs h') <= fins (objs h) + (if o_fin o then 1 else 0) /\ same_flags h h'.
Proof.
  intros He Hinv Hbox Hown Hheld Ho2 Ho1.
  assert (Hcol : exists fuel h1, (forall f, (fuel <= f)%nat ->
      (if cc_pending h && negb (cc_collecting h) then cc_collect deinit f false h else Some h) = Some h1) /\
      @rt_inv H1 h1 e /\ fins (objs h1) <= fins (objs h) /\ same_flags h h1).
  { destruct (cc_pending h && negb (cc_collecting h)); [|exists O, h; done].
    destruct (@collect_ok H1 deinit (Hdeinit H1) false h e He Hinv) as (fuel & h1 & Hrun & Hinv1 & Hf & Hfl & _). eauto 10. }
  destruct Hcol as (fuel & h1 & Hrun & Hinv1 & Hf1 & [Hfl1 Hfl1']).
  destruct (new_block_fresh (objs h1)) as [Hp Hp0]. set (p := new_block (objs h1)) in *.
  exists fuel, (with_objs h1 (<[p := o]> (objs h1))), p. split; [|split; [|split; [apply lookup_insert_eq|split; [done|split; [|done]]]]].
  - intros f Hf. unfold beans_alloc. rewrite (Hrun f Hf). done.
  - destruct Hinv1 as [[Hh Hc Hn Hr H0] Hcov].
    assert (Hdom : forall c, c ∈ cc_walk o -> is_Some (objs h1 !! c)).
    { intros c Hcc. apply (ho_ext_dom _ _ Hh). unfold outside. apply occ_pos in Hcc. specialize (Hown c).
      pose proof (cref_nonneg (ctrls h1) c). lia. }
    assert (Hown' : forall x, occ x (List.filter (mortal (objs h1)) (cc_walk o)) <= outside h1 e x).
    { intros x. unfold outside. pose proof (occ_filter_le (mortal (objs h1)) x (cc_walk o)). specialize (Hown x).
      pose proof (cref_nonneg (ctrls h1) x). lia. }
    set (e1 := fun x => e x - occ x (List.filter (mortal (objs h1)) (cc_walk o)) + if decide (p = x) then 1 else 0).
    set (h2 := with_objs h1 (<[p := o]> (objs h1))).
    assert (He1 : forall x, outside h2 e1 x = outside h1 e x - occ x (List.filter (mortal (objs h1)) (cc_walk o)) + if decide (p = x) then 1 else 0).
    { intros x. unfold outside, e1. cbn [ctrls h2 with_objs]. lia. }
    assert (Hep : forall x, 0 <= e1 x).
    { intros x. unfold e1. pose proof (occ_filter_le (mortal (objs h1)) x (cc_walk o)). specialize (Hown x). case_decide; lia. }
    assert (Hinv2 : @rt_inv H2 h2 e1).
    { destruct Hbox as [Hb1 Hb2 Hb3 Hb4]. split; [split; cbn; try done|].
      - by apply (heap_fresh (e := outside h1 e) Hh Hp (Build_fresh_box o Hb1 Hb2 Hb3 Hb4) Hdom He1 Hown').
      - apply (ctrl_fresh H1 H2); try done. lia.
      - intros x. rewrite Hr. unfold bufd. destruct (decide (x = p)) as [->|Hx].
        + rewrite Hp, lookup_insert_eq, Hb4. done.
        + by rewrite lookup_insert_ne.
      - by rewrite lookup_insert_ne.
      - by apply (covered_fresh (e := outside h1 e) Hh Hp (Build_fresh_box o Hb1 Hb2 Hb3 Hb4) Hdom He1 Hown'). }
    apply (rt_inv_agree h2 e1); [done|done| | |].
    + intros x Hm. unfold e1. destruct (decide (x = p)) as [->|Hx].
      * pose proof (occ_filter_le (mortal (objs h1)) p (cc_walk o)). pose proof (occ_nonneg p (List.filter (mortal (objs h1)) (cc_walk o))).
        enough (occ p (cc_walk o) = 0) by lia. apply occ_zero. intros Hin%Hdom. destruct Hin as [? ?]. congruence.
      * rewrite occ_filter; [done|]. revert Hm. unfold mortal. cbn. by rewrite lookup_insert_ne.
    + intros x. specialize (Hown x). case_decide; lia.
    + intros x Hx. cbn. destruct (decide (x = p)) as [->|Hxp]; [rewrite lookup_insert_eq; eauto|].
      rewrite lookup_insert_ne by done. apply (ho_ext_dom _ _ Hh). unfold outside. rewrite decide_False in Hx by done.
      pose proof (cref_nonneg (ctrls h1) x). pose proof (occ_nonneg x (cc_walk o)). lia.
  - cbn. unfold fins. rewrite dom_insert_L, dsum_insert by (by apply not_elem_of_dom). rewrite lookup_insert_eq.
    rewrite (dsum_ext (dom (objs h1)) _ (fun p => match objs h1 !! p with Some o => if o_fin o then 1 else 0 | None => 0 end)).
    + unfold fins in Hf1. lia.
    + intros q Hq. rewrite lookup_insert_ne; [done|]. intros ->. apply elem_of_dom in Hq as [? ?]. congruence.
Qed.

Lemma handle_box_ok extra c : fresh_box (handle_box extra c) /\ cc_walk (handle_box extra c) = [].
Proof. split; [by split|]. unfold cc_walk, handle_box. cbn [o_pay]. done. Qed.

(** A handle for a hold its maker has taken. *)
Lemma handle_alloc (H : Holds) b c extra h e : (forall x, 0 <= e x) ->
  handle_of (handle_box extra c) = Some (b, c) -> o_extra (handle_box extra c) = extra ->
  @rt_inv (add_hold H b c (extra =? 7)) h e -> (extra = 7 -> b = false) ->
  exists fuel h' p, (forall f, (fuel <= f)%nat -> beans_alloc deinit f h (handle_box extra c) = Some (h', p)) /\
    @rt_inv H h' (plus_list e [p]) /\ objs h' !! p = Some (handle_box extra c) /\ p <> 0 /\
    fins (objs h') <= fins (objs h) /\ same_flags h h'.
Proof.
  intros He Hho Hex Hinv Hb7. destruct (handle_box_ok extra c) as [Hbox Hwalk].
  destruct (alloc_inv (add_hold H b c (extra =? 7)) H h e (handle_box extra c) He Hinv Hbox) as (fuel & h' & p & Hrun & Hinv' & Ho & Hp & Hf & Hfl).
  - intros x. rewrite Hwalk, occ_nil. apply He.
  - intros b' c'. cbn [held add_hold]. rewrite Hho. repeat case_decide; try lia; congruence.
  - intros c' Hc'. cbn. by rewrite Hc'.
  - intros c' Hh7. rewrite Hho in Hh7. injection Hh7 as -> <-. rewrite Hex. intros ->. cbn. rewrite bool_decide_true by done. apply orb_true_r.
  - exists fuel, h', p. split; [done|]. split; [|split; [done|split; [done|split; [cbn in Hf; lia|done]]]].
    apply (@rt_inv_ext H h' (fun x => e x - occ x (cc_walk (handle_box extra c)) + if decide (p = x) then 1 else 0)); [|done].
    intros x. rewrite Hwalk, occ_nil. unfold plus_list. rewrite occ_cons, occ_nil. lia.
Qed.

Lemma handle_box_of c : handle_of (handle_box 2 c) = Some (true, c) /\ handle_of (handle_box 3 c) = Some (false, c) /\
  handle_of (handle_box 7 c) = Some (false, c).
Proof. done. Qed.

(** *** Weak references to objects *)

Lemma weak_ctrl_for_inv {H : Holds} h e p : rt_inv h e -> live (objs h) p -> p <> 0 ->
  forall h' c, weak_ctrl_for h p = (h', c) ->
  rt_inv h' e /\ weak_entries h' !! p = Some c /\ objs h' = objs h /\ same_flags h h' /\
    exists k, ctrls h' !! c = Some k /\ c_strong k = 0 /\ c_value k = p.
Proof.
  intros Hinv Hlive Hp0 h' c. unfold weak_ctrl_for. pose proof (ro_ctrl _ _ (ri_ok _ _ Hinv)) as Hc.
  destruct (weak_entries h !! p) as [c0|] eqn:Hw.
  - intros [= <- <-]. destruct (co_table _ _ _ Hc p c0 Hw) as (_ & k & Hk). split_and!; try done. eauto.
  - intros [= <- <-]. set (c := new_ctrl (ctrls h)). pose proof (new_ctrl_fresh (ctrls h)) as Hfresh. fold c in Hfresh.
    assert (Hnone : forall b, hcount (objs h) b c + held b c = 0).
    { intros b. pose proof (hcount_nonneg (objs h) b c). pose proof (held_nonneg b c).
      destruct (decide (0 < hcount (objs h) b c + held b c)) as [Hpos|]; [|lia].
      apply (co_handle _ _ _ Hc) in Hpos as [? ?]. congruence. }
    assert (Hws : forall x, weak_entries h !! x = Some c -> False).
    { intros x Hx. destruct (co_table _ _ _ Hc x c Hx) as (_ & k & ? & _). congruence. }
    split; [|split; [cbn; apply lookup_insert_eq|split; [done|split; [done|]]]].
    2:{ eexists. cbn. rewrite lookup_insert_eq. split; [done|]. done. }
    apply (rt_inv_ctrls H H h e); [done| |].
    + destruct Hc as [Hs Hwk Hh Ht Hv Hob Hhe].
      assert (Hwc : forall c', wcount (<[p := c]> (weak_entries h)) c' = (if decide (c = c') then 1 else 0) + wcount (weak_entries h) c').
      { intros c'. rewrite (wcount_delete (<[p := c]> (weak_entries h)) p c c') by apply lookup_insert_eq. by rewrite delete_insert_id. }
      assert (Hw0 : wcount (weak_entries h) c = 0).
      { apply dsum_zero. intros x _. case_decide as Hx; [|done]. by apply Hws in Hx. }
      split.
      * intros c' k. destruct (decide (c' = c)) as [->|Hne].
        -- rewrite lookup_insert_eq. intros [= <-]. cbn. by rewrite Hnone.
        -- rewrite lookup_insert_ne by done. apply Hs.
      * intros c' k. rewrite Hwc. destruct (decide (c' = c)) as [->|Hne].
        -- rewrite lookup_insert_eq. intros [= <-]. cbn. rewrite decide_True, Hw0 by done. specialize (Hnone false). lia.
        -- rewrite lookup_insert_ne by done. intros Hk. rewrite decide_False by done. by apply Hwk.
      * intros b c' Hb. destruct (decide (c' = c)) as [->|Hne]; [rewrite lookup_insert_eq; eauto|].
        rewrite lookup_insert_ne by done. by apply (Hh b).
      * intros x c'. destruct (decide (x = p)) as [->|Hx].
        -- rewrite lookup_insert_eq. intros [= <-]. split; [done|]. eexists. rewrite lookup_insert_eq. done.
        -- rewrite lookup_insert_ne by done. intros Hxc. destruct (Ht x c' Hxc) as [Hl (k & Hk & ?)]. split; [done|].
           exists k. rewrite lookup_insert_ne; [done|]. intros ->. by apply (Hws x).
      * intros c' k. destruct (decide (c' = c)) as [->|Hne].
        -- rewrite lookup_insert_eq. intros [= <-] _ _. cbn. by rewrite lookup_insert_eq.
        -- rewrite lookup_insert_ne by done. intros Hk Hz Hval. pose proof (Hv c' k Hk Hz Hval) as Hx.
           rewrite lookup_insert_ne; [done|]. intros Heq. rewrite <-Heq in Hx. congruence.
      * intros q o c' k Hq Hho Hex. destruct (decide (c' = c)) as [->|Hne].
        -- rewrite lookup_insert_eq. by intros [= <-].
        -- rewrite lookup_insert_ne by done. by apply (Hob q o).
      * intros c' k Hho. destruct (decide (c' = c)) as [->|Hne].
        -- rewrite lookup_insert_eq. by intros [= <-].
        -- rewrite lookup_insert_ne by done. by apply Hhe.
    + intros x. unfold cref at 1. rewrite dom_insert_L, dsum_insert by (by apply not_elem_of_dom). rewrite lookup_insert_eq.
      unfold holds at 1. cbn. unfold cref. rewrite (dsum_ext _ _ (fun c => match ctrls h !! c with Some k => if holds k x then 1 else 0 | None => 0 end)); [lia|].
      intros q Hq. rewrite lookup_insert_ne; [done|]. intros ->. apply elem_of_dom in Hq as [? ?]. congruence.
Qed.

Definition ok_after {H : Holds} h e (run : nat -> option (rt * Z)) (extra : Z) : Prop :=
  exists fuel h' p c, (forall f, (fuel <= f)%nat -> run f = Some (h', p)) /\ rt_inv h' (plus_list e [p]) /\
    objs h' !! p = Some (handle_box extra c) /\ p <> 0 /\ fins (objs h') <= fins (objs h) /\ same_flags h h'.

Lemma weak_new_inv {H : Holds} h e p : (forall x, 0 <= e x) -> rt_inv h e -> live (objs h) p -> p <> 0 ->
  ok_after h e (fun f => beans_object_weak_new deinit f h p) 7.
Proof.
  intros He Hinv Hlive Hp0. destruct (weak_ctrl_for h p) as [h1 c] eqn:Hwc.
  destruct (weak_ctrl_for_inv h e p Hinv Hlive Hp0 h1 c Hwc) as (Hinv1 & Hw1 & Hobjs1 & [Hfl1 Hfl1'] & k & Hk & Hs & Hv).
  pose proof (ro_ctrl _ _ (ri_ok _ _ Hinv1)) as Hc. destruct (co_weak _ _ _ Hc c k Hk) as [Hwk Hpos].
  pose proof (co_strong _ _ _ Hc c k Hk) as Hst.
  set (k' := mkCtrl (c_strong k) (c_weak k + 1) (c_value k) (c_value_ptr k)).
  destruct (handle_box_of c) as (_ & _ & Hho).
  destruct (handle_alloc H false c 7 (set_ctrl h1 c k') e He Hho) as (fuel & h' & r & Hrun & Hinv' & Ho & Hr & Hf & [Hfl Hfl']); [done| |done|].
  - apply (rt_inv_ctrls H _ h1 e); [done| |].
    + apply (ctrl_set H); try done; cbn.
      * intros b c' Hn. rewrite decide_False by congruence. lia.
      * intros c' Hn. rewrite bool_decide_false by done. apply orb_false_r.
      * rewrite decide_False by done. lia.
      * rewrite decide_True by done. lia.
      * lia.
      * intros x Hx. destruct (co_table _ _ _ Hc x c Hx) as (_ & k0 & Hk0 & ? & ?). by simplify_eq.
      * intros _ Hval. by apply (co_value _ _ _ Hc c k).
    + intros x. rewrite (cref_upd _ _ k) by done. unfold holds. cbn. lia.
  - exists fuel, h', r, c. split_and!; try done.
    + intros f Hf'. unfold beans_object_weak_new. rewrite (proj2 (Z.eqb_neq p 0) Hp0), Hwc, Hk. cbn [mbind option_bind]. by apply Hrun.
    + cbn in Hf. by rewrite Hobjs1 in Hf.
    + split; [exact (eq_trans Hfl Hfl1)|exact (eq_trans Hfl' Hfl1')].
Qed.

(** A weak read yields nothing or a live object, retained. *)
Lemma weak_get_inv {H : Holds} h e q o c : (forall x, 0 <= e x) -> rt_inv h e -> objs h !! q = Some o -> o_pay o = PHandle c ->
  handle_of o = Some (false, c) -> o_extra o = 7 ->
  exists h' r, beans_object_weak_get h q = Some (h', r) /\
    (r = 0 /\ h' = h \/ r <> 0 /\ live (objs h) r /\ rt_inv h' (plus_list e [r]) /\ same_flags h h').
Proof.
  intros He Hinv Hq Hpay Hho Hex. pose proof (ro_ctrl _ _ (ri_ok _ _ Hinv)) as Hc.
  destruct (co_handle _ _ _ Hc false c) as [k Hk].
  { pose proof (hcount_some (objs h) q false c) as Hone. unfold handle in Hone. rewrite Hq in Hone.
    specialize (Hone Hho). pose proof (held_nonneg false c). lia. }
  pose proof (co_object _ _ _ Hc q o c k Hq Hho Hex Hk) as Hs.
  unfold beans_object_weak_get, handle_ctrl. destruct (Z.eqb_spec q 0) as [->|Hq0].
  { rewrite (ro_null _ _ (ri_ok _ _ Hinv)) in Hq. done. }
  rewrite Hq. cbn [mbind option_bind]. rewrite Hpay, Hk. cbn [mbind option_bind].
  destruct (Z.eqb_spec (c_value k) 0) as [Hv|Hv]; [exists h, 0; auto|].
  destruct (co_table _ _ _ Hc _ _ (co_value _ _ _ Hc c k Hk Hs Hv)) as [Hlive _].
  destruct Hlive as (ox & Hox & Hl). unfold rt_try_retain. rewrite Hox. cbn [mbind option_bind].
  destruct (o_immortal ox) eqn:Hi.
  - exists h, (c_value k). split; [done|]. right. split; [done|]. split; [by exists ox; auto|]. split; [|done].
    apply (rt_inv_immortal h e (c_value k)); [done|by rewrite (some_mortal _ _ _ Hox), Hi|eauto| |].
    + intros y Hy. unfold plus_list. rewrite occ_cons, decide_False, occ_nil by done. lia.
    + unfold plus_list. pose proof (He (c_value k)). pose proof (occ_nonneg (c_value k) [c_value k]). lia.
  - destruct Hl as [Hl|Hl]; [done|]. rewrite (proj2 (Z.eqb_neq (o_count ox) 0)) by lia. cbn [mbind option_bind].
    eexists _, (c_value k). split; [done|]. right. split; [done|]. split; [by exists ox; auto|].
    assert (Ha : alive (objs h) (c_value k) = true).
    { unfold alive. rewrite (some_mortal _ _ _ Hox), Hi, (cnt_some _ _ _ Hox). cbn. by apply Z.ltb_lt. }
    destruct (retain_inv h e (c_value k) Hinv Ha (He _)) as (h' & Hr & Hinv' & _ & _ & Hfl).
    unfold beans_retain in Hr. rewrite (proj2 (Z.eqb_neq _ 0) Hv), Hox in Hr. cbn [mbind option_bind] in Hr. rewrite Hi in Hr.
    injection Hr as <-. done.
Qed.

(** *** Shared *)

Lemma shared_new_inv {H : Holds} h e value value_ptr : (forall x, 0 <= e x) -> rt_inv h e ->
  (value_ptr <> 0 -> value <> 0 -> 0 < e value) ->
  let paid := if (value_ptr =? 0) || (value =? 0) then [] else [value] in
  ok_after h (fun x => e x - occ x paid) (fun f => beans_shared_new deinit f h value value_ptr) 2.
Proof.
  intros He Hinv Hpay paid. pose proof (ro_ctrl _ _ (ri_ok _ _ Hinv)) as Hc.
  set (c := new_ctrl (ctrls h)). pose proof (new_ctrl_fresh (ctrls h)) as Hfresh. fold c in Hfresh.
  assert (Hnone : forall b, hcount (objs h) b c = 0 /\ held b c = 0).
  { intros b. pose proof (hcount_nonneg (objs h) b c). pose proof (held_nonneg b c).
    destruct (decide (0 < hcount (objs h) b c + held b c)) as [Hpos|]; [|lia].
    apply (co_handle _ _ _ Hc) in Hpos as [? ?]. congruence. }
  assert (Hws : forall x, weak_entries h !! x = Some c -> False).
  { intros x Hx. destruct (co_table _ _ _ Hc x c Hx) as (_ & k & ? & _). congruence. }
  destruct (handle_box_of c) as (Hho & _ & _). set (k' := mkCtrl 1 1 value value_ptr).
  assert (He' : forall x, 0 <= e x - occ x paid).
  { intros x. specialize (He x). unfold paid. destruct (Z.eqb_spec value_ptr 0); cbn [orb]; [rewrite occ_nil; lia|].
    destruct (Z.eqb_spec value 0); [rewrite occ_nil; lia|]. rewrite occ_cons, occ_nil. case_decide; [subst|lia].
    pose proof (Hpay n n0). lia. }
  destruct (handle_alloc H true c 2 (set_ctrl h c k') (fun x => e x - occ x paid) He' Hho) as (fuel & h' & r & Hrun & Hinv' & Ho & Hr & Hf & Hfl);
    [done| |done|].
  - apply (rt_inv_ctrls H _ h e); [done| |].
    + apply (ctrl_set H); try done; cbn.
      * intros b c' Hn. rewrite decide_False by congruence. lia.
      * intros c' Hn. apply orb_false_r.
      * rewrite decide_True by done. destruct (Hnone true). lia.
      * rewrite decide_False by done. destruct (Hnone false) as [-> ->].
        replace (wcount (weak_entries h) c) with 0; [lia|]. symmetry. apply dsum_zero. intros x _.
        case_decide as Hx; [|done]. by apply Hws in Hx.
      * intros x Hx. by apply Hws in Hx.
      * intros p o Hp Hhp Hexp. exfalso. pose proof (hcount_some (objs h) p false c) as Hone. unfold handle in Hone.
        rewrite Hp in Hone. specialize (Hone Hhp). destruct (Hnone false). lia.
      * rewrite orb_false_r. intros Ho. apply held_object_held in Ho. destruct (Hnone false). lia.
    + intros x. unfold cref at 1. rewrite dom_insert_L, dsum_insert by (by apply not_elem_of_dom). rewrite lookup_insert_eq.
      pose proof (holds_child k' x ltac:(done)) as Hch. cbn [c_value_ptr c_value k'] in Hch.
      replace (occ x paid) with (if holds k' x then 1 else 0).
      2:{ rewrite <-Hch. unfold paid. by destruct (_ || _). }
      unfold cref. rewrite (dsum_ext _ _ (fun c => match ctrls h !! c with Some k => if holds k x then 1 else 0 | None => 0 end)); [lia|].
      intros q Hq. rewrite lookup_insert_ne; [done|]. intros ->. apply elem_of_dom in Hq as [? ?]. congruence.
  - exists fuel, h', r, c. split_and!; try done; apply Hfl.
Qed.

(** A handle found in the heap: its block exists and has the holds. *)
Lemma handle_block {H : Holds} h e q o b c : rt_inv h e -> objs h !! q = Some o -> o_pay o = PHandle c -> handle_of o = Some (b, c) ->
  exists k, handle_ctrl h q = Some (c, k) /\ ctrls h !! c = Some k /\ (b = true -> 0 < c_strong k).
Proof.
  intros Hinv Hq Hpay Hho. pose proof (ro_ctrl _ _ (ri_ok _ _ Hinv)) as Hc.
  assert (Hone : 1 <= hcount (objs h) b c) by (apply (hcount_some (objs h) q); by rewrite (handle_some _ _ _ Hq)).
  pose proof (held_nonneg b c). destruct (co_handle _ _ _ Hc b c) as [k Hk]; [lia|].
  exists k. unfold handle_ctrl. rewrite Hq. cbn [mbind option_bind]. rewrite Hpay, Hk. split; [done|]. split; [done|].
  intros ->. rewrite (co_strong _ _ _ Hc c k Hk). lia.
Qed.

(** While a strong handle lives, its payload does. *)
Lemma shared_get_inv {H : Holds} h e q o c : (forall x, 0 <= e x) -> rt_inv h e -> objs h !! q = Some o -> o_pay o = PHandle c ->
  handle_of o = Some (true, c) ->
  exists v k, beans_shared_get h q = Some v /\ ctrls h !! c = Some k /\ v = c_value k /\
    (c_value_ptr k <> 0 -> v <> 0 -> live (objs h) v).
Proof.
  intros He Hinv Hq Hpay Hho. destruct (handle_block h e q o true c Hinv Hq Hpay Hho) as (k & Hhc & Hk & Hs).
  exists (c_value k), k. unfold beans_shared_get. rewrite Hhc. cbn [mbind option_bind]. split; [done|]. split; [done|]. split; [done|].
  intros Hvp Hv. pose proof (ro_heap _ _ (ri_ok _ _ Hinv)) as Hh.
  assert (Hcr : 0 < outside h e (c_value k)).
  { unfold outside. specialize (He (c_value k)). enough (1 <= cref (ctrls h) (c_value k)) by lia. unfold cref.
    pose proof (dsum_term (dom (ctrls h)) c (fun c' => match ctrls h !! c' with Some k' => if holds k' (c_value k) then 1 else 0 | None => 0 end)) as Ht.
    assert (Hhk : holds k (c_value k) = true).
    { unfold holds. rewrite (proj2 (Z.ltb_lt 0 (c_strong k))), (proj2 (Z.eqb_neq (c_value_ptr k) 0)), (proj2 (Z.eqb_neq (c_value k) 0)), Z.eqb_refl by auto. done. }
    cbv beta in Ht. rewrite Hk, Hhk in Ht.
    apply Ht; [apply elem_of_dom; eauto|]. intros c' _. destruct (ctrls h !! c') as [k'|]; [destruct (holds k' (c_value k))|]; lia. }
  apply live_alive. split; [by apply (ho_ext_dom _ _ Hh)|]. intros Hm. by apply (ok_ext_alive Hh).
Qed.

Lemma downgrade_inv {H : Holds} h e q o c : (forall x, 0 <= e x) -> rt_inv h e -> objs h !! q = Some o -> o_pay o = PHandle c ->
  handle_of o = Some (true, c) -> ok_after h e (fun f => beans_shared_downgrade deinit f h q) 3.
Proof.
  intros He Hinv Hq Hpay Hho. destruct (handle_block h e q o true c Hinv Hq Hpay Hho) as (k & Hhc & Hk & Hs).
  pose proof (ro_ctrl _ _ (ri_ok _ _ Hinv)) as Hc. destruct (co_weak _ _ _ Hc c k Hk) as [Hwk Hpos].
  pose proof (co_strong _ _ _ Hc c k Hk) as Hst.
  set (k' := mkCtrl (c_strong k) (c_weak k + 1) (c_value k) (c_value_ptr k)). destruct (handle_box_of c) as (_ & Hho3 & _).
  destruct (handle_alloc H false c 3 (set_ctrl h c k') e He Hho3) as (fuel & h' & r & Hrun & Hinv' & Ho & Hr & Hf & Hfl); [done| |done|].
  - apply (rt_inv_ctrls H _ h e); [done| |].
    + apply (ctrl_set H); try done; cbn.
      * intros b c' Hn. rewrite decide_False by congruence. lia.
      * intros c' Hn. apply orb_false_r.
      * rewrite decide_False by done. lia.
      * rewrite decide_True by done. lia.
      * lia.
      * intros x Hx. destruct (co_table _ _ _ Hc x c Hx) as (_ & k0 & Hk0 & ? & ?). by simplify_eq.
      * intros Hz Hval. by apply (co_value _ _ _ Hc c k).
      * intros p o' Hp Hhp Hexp. by apply (co_object _ _ _ Hc p o' c k).
      * rewrite orb_false_r. intros Hob. by apply (co_held _ _ _ Hc c k).
    + intros x. rewrite (cref_upd _ _ k) by done. unfold holds. cbn. lia.
  - exists fuel, h', r, c. split_and!; try done; try apply Hfl.
    intros f Hf'. unfold beans_shared_downgrade. rewrite Hhc. by apply Hrun.
Qed.

(** A weak handle upgrades while a strong one lives, and to nothing after. *)
Lemma upgrade_inv {H : Holds} h e q o b c : (forall x, 0 <= e x) -> rt_inv h e -> objs h !! q = Some o -> o_pay o = PHandle c ->
  handle_of o = Some (b, c) ->
  exists k, ctrls h !! c = Some k /\ 0 <= c_strong k /\
    (c_strong k = 0 -> forall f, beans_weak_upgrade deinit f h q = Some (h, 0)) /\
    (0 < c_strong k -> ok_after h e (fun f => beans_weak_upgrade deinit f h q) 2).
Proof.
  intros He Hinv Hq Hpay Hho. destruct (handle_block h e q o b c Hinv Hq Hpay Hho) as (k & Hhc & Hk & _).
  pose proof (ro_ctrl _ _ (ri_ok _ _ Hinv)) as Hc. destruct (co_weak _ _ _ Hc c k Hk) as [Hwk Hpos].
  pose proof (co_strong _ _ _ Hc c k Hk) as Hst. pose proof (held_nonneg true c). pose proof (hcount_nonneg (objs h) true c).
  exists k. split; [done|]. split; [lia|]. split.
  { intros Hz f. unfold beans_weak_upgrade. rewrite Hhc. cbn [mbind option_bind]. by rewrite Hz. }
  intros Hpos'. rewrite (proj2 (Z.ltb_lt _ _) Hpos') in Hwk.
  set (k' := mkCtrl (c_strong k + 1) (c_weak k) (c_value k) (c_value_ptr k)). destruct (handle_box_of c) as (Hho2 & _ & _).
  destruct (handle_alloc H true c 2 (set_ctrl h c k') e He Hho2) as (fuel & h' & r & Hrun & Hinv' & Ho & Hr & Hf & Hfl); [done| |done|].
  - apply (rt_inv_ctrls H _ h e); [done| |].
    + apply (ctrl_set H); try done; cbn.
      * intros b' c' Hn. rewrite decide_False by congruence. lia.
      * intros c' Hn. apply orb_false_r.
      * rewrite decide_True by done. lia.
      * rewrite decide_False by done. rewrite (proj2 (Z.ltb_lt 0 (c_strong k + 1))) by lia. lia.
      * intros x Hx. destruct (co_table _ _ _ Hc x c Hx) as (_ & k0 & Hk0 & ? & ?). simplify_eq. lia.
      * lia.
      * intros p o' Hp Hhp Hexp. pose proof (co_object _ _ _ Hc p o' c k Hp Hhp Hexp Hk). lia.
      * rewrite orb_false_r. intros Hob. pose proof (co_held _ _ _ Hc c k Hob Hk). lia.
    + intros x. rewrite (cref_upd _ _ k) by done. unfold holds. cbn.
      rewrite (proj2 (Z.ltb_lt 0 (c_strong k + 1))), (proj2 (Z.ltb_lt 0 (c_strong k))) by lia. lia.
  - exists fuel, h', r, c. split_and!; try done; try apply Hfl.
    intros f Hf'. unfold beans_weak_upgrade. rewrite Hhc. cbn [mbind option_bind]. rewrite (proj2 (Z.ltb_lt _ _) Hpos'). by apply Hrun.
Qed.
End ops.
