(* ===== verification/HeapSteps.v ===== *)
(** * HeapSteps: a program over the counted heap

    The runtime state together with the references the program holds, and the
    steps that change them: allocation, retain, release, a store into an
    object, a collection, weak and shared handles.  Every step is a call of
    the runtime; a store is the generated code's, which moves the references
    it writes into the object and takes the old ones out. *)

From stdpp Require Import gmap.
From S2P Require Import Prelude Mem ListRt MapRt Heap HeapSum HeapInv CtrlInv ReleaseProofs.
From S2P Require Import ReleaseProofs Collector MarkProofs CycleProofs CollectProofs.
From S2P Require Import Handles HandleProofs.

Open Scope c_scope.

Implicit Types (os : gmap Z obj) (e : Z -> Z) (h : rt).

(** Between two steps no frame holds a block. *)
Lemma none_held (b : bool) (c : Z) : 0 <= 0.
Proof. done. Qed.

Lemma none_held_object (c : Z) : false = true -> 0 < 0.
Proof. done. Qed.

#[export] Instance no_holds : Holds := {|
  held _ _ := 0; held_object _ := false; held_nonneg := none_held; held_object_held := none_held_object
|}.

(** What the program can reach. *)
Definition reachable h e (x : Z) : Prop :=
  exists y, 0 < e y /\ alive (objs h) y = true /\ rtc (edge (objs h)) y x.

Definition minus_list e (l : list Z) (x : Z) : Z := e x - occ x l.

(** The same header, other slots. *)
Definition set_pay (o : obj) (pay : payload) : obj :=
  mkObj (o_count o) (o_fin o) (o_immortal o) (o_shape o) (o_color o) (o_buf o) pay.

Section steps.
Context {A : Allocator} (deinit : Z -> rt -> option rt).

Inductive step : rt * (Z -> Z) -> rt * (Z -> Z) -> Prop :=
  | step_alloc f h e o h' p : fresh_box o -> handle_of o = None -> (forall x, occ x (cc_walk o) <= e x) ->
      beans_alloc deinit f h o = Some (h', p) ->
      step (h, e) (h', plus_list (minus_list e (cc_walk o)) [p])
  | step_retain h e p h' : reachable h e p -> beans_retain h p = Some h' -> step (h, e) (h', plus_list e [p])
  | step_release f h e p h' : 0 < e p -> beans_release deinit f h p = Some h' -> step (h, e) (h', minus_list e [p])
  | step_store h e p o pay e' : objs h !! p = Some o -> alive (objs h) p = true ->
      handle_of o = None -> handle_of (set_pay o pay) = None ->
      (forall x, occ x (cc_walk (set_pay o pay)) <= e x + occ x (cc_walk o)) ->
      (forall c, c ∈ cc_walk (set_pay o pay) -> is_Some (objs h !! c)) ->
      (forall x, e' x = e x + occ x (cc_walk o) - occ x (cc_walk (set_pay o pay))) ->
      reachable (with_objs h (<[p := set_pay o pay]> (objs h))) e' p ->
      step (h, e) (with_objs h (<[p := set_pay o pay]> (objs h)), e')
  | step_collect f force h e h' : cc_collect deinit f force h = Some h' -> step (h, e) (h', e)
  | step_weak_new f h e p h' r : 0 < e p -> beans_object_weak_new deinit f h p = Some (h', r) ->
      step (h, e) (h', plus_list e [r])
  | step_weak_get h e q o c h' r : 0 < e q -> objs h !! q = Some o -> o_pay o = PHandle c ->
      handle_of o = Some (false, c) -> o_extra o = 7 ->
      beans_object_weak_get h q = Some (h', r) ->
      step (h, e) (h', if r =? 0 then e else plus_list e [r])
  | step_shared_new f h e value value_ptr h' r : (value_ptr <> 0 -> value <> 0 -> 0 < e value) ->
      beans_shared_new deinit f h value value_ptr = Some (h', r) ->
      step (h, e) (h', plus_list (minus_list e (if (value_ptr =? 0) || (value =? 0) then [] else [value])) [r])
  | step_downgrade f h e q o c h' r : 0 < e q -> objs h !! q = Some o -> o_pay o = PHandle c ->
      handle_of o = Some (true, c) ->
      beans_shared_downgrade deinit f h q = Some (h', r) -> step (h, e) (h', plus_list e [r])
  | step_upgrade f h e q o b c h' r : 0 < e q -> objs h !! q = Some o -> o_pay o = PHandle c -> handle_of o = Some (b, c) ->
      beans_weak_upgrade deinit f h q = Some (h', r) ->
      step (h, e) (h', if r =? 0 then e else plus_list e [r]).

(** ** More fuel gives the same result *)

Lemma cycle_deinits_mono f f' h dead r : (f <= f')%nat ->
  cc_run_cycle_deinits deinit f h dead = Some r -> cc_run_cycle_deinits deinit f' h dead = Some r.
Proof.
  intros Hle. unfold cc_run_cycle_deinits. destruct (any_fin (objs h) dead); [|done].
  destruct (restore_all dead (objs h)) as [os|]; [|done]. cbn [mbind option_bind].
  destruct (for_all beans_retain dead (with_objs h os)) as [h1|]; [|done]. cbn [mbind option_bind].
  unfold rt_cycle_deinits_finish. destruct (for_all _ dead h1) as [h2|]; [|done]. cbn [mbind option_bind].
  destruct (for_all cc_possible_root dead h2) as [h3|]; [|done]. cbn [mbind option_bind].
  rewrite <-!owed_for_all. destruct (release_all_owed deinit f h3 dead) as [h4|] eqn:Hr; [|done].
  by rewrite (owed_mono deinit f f' dead h3 h4 Hle Hr).
Qed.

Lemma collect_mono f f' force h h' : (f <= f')%nat ->
  cc_collect deinit f force h = Some h' -> cc_collect deinit f' force h = Some h'.
Proof.
  intros Hle. unfold cc_collect. destruct (cc_collecting h); [done|]. destruct (negb (beans_in_deinit h =? 0)); [done|].
  destruct (filter_roots _ _ _ _) as [[[h1 roots] deferred]|]; [|done]. cbn [mbind option_bind]. cbv zeta.
  match goal with |- mbind _ ?m = _ -> _ => destruct m as [[h2 doomed]|]; [|done] end. cbn [mbind option_bind].
  match goal with |- context [cc_run_cycle_deinits deinit f ?h3 doomed] => destruct (cc_run_cycle_deinits deinit f h3 doomed) as [[h4 taken]|] eqn:Hr; [|done];
    rewrite (cycle_deinits_mono f f' h3 doomed _ Hle Hr) end. cbn [mbind option_bind].
  match goal with |- mbind _ ?m = _ -> _ => destruct m as [[h5 def5]|]; [|done] end. cbn [mbind option_bind].
  destruct (release_all_owed deinit f h5 def5) as [h6|] eqn:Hr2; [|done].
  by rewrite (owed_mono deinit f f' def5 h5 h6 Hle Hr2).
Qed.

Lemma alloc_mono f f' h o r : (f <= f')%nat -> beans_alloc deinit f h o = Some r -> beans_alloc deinit f' h o = Some r.
Proof.
  intros Hle. unfold beans_alloc. destruct (cc_pending h && negb (cc_collecting h)); [|done].
  destruct (cc_collect deinit f false h) as [h1|] eqn:Hr; [|done]. by rewrite (collect_mono f f' false h h1 Hle Hr).
Qed.
End steps.

(** ** A store *)

Section store.
Context {os : gmap Z obj} {e e' : Z -> Z} {p : Z} {o : obj} {pay : payload}.
Context (Hok : heap_ok os e) (Hp : os !! p = Some o) (Hal : alive os p = true).
Context (Hdom : forall c, c ∈ cc_walk (set_pay o pay) -> is_Some (os !! c)).
Context (He' : forall x, mortal os x = true -> e' x = e x + occ x (cc_walk o) - occ x (cc_walk (set_pay o pay))).
Context (Hnn : forall x, 0 <= e' x) (Hd' : forall x, 0 < e' x -> is_Some (os !! x)).

Let os' := <[p := set_pay o pay]> os.

Lemma store_mortal x : mortal os' x = mortal os x.
Proof.
  unfold mortal, os'. destruct (decide (x = p)) as [->|Hx]; [by rewrite lookup_insert_eq, Hp|by rewrite lookup_insert_ne].
Qed.

Lemma store_cnt x : cnt os' x = cnt os x.
Proof. unfold os'. rewrite cnt_insert. case_decide; [subst; by rewrite (cnt_some _ _ _ Hp)|done]. Qed.

Lemma store_alive x : alive os' x = alive os x.
Proof. unfold alive. by rewrite store_mortal, store_cnt. Qed.

Lemma store_kids q : q <> p -> kids os' q = kids os q.
Proof.
  intros Hq. unfold kids, os'. rewrite lookup_insert_ne by done. destruct (os !! q); [|done].
  apply filter_ext_in. intros x _. apply store_mortal.
Qed.

Lemma store_kids_p x : mortal os x = true -> occ x (kids os' p) = occ x (cc_walk (set_pay o pay)).
Proof.
  intros Hm. unfold kids, os'. rewrite lookup_insert_eq. rewrite (filter_ext_in _ (mortal os)) by (intros; apply store_mortal).
  by apply occ_filter.
Qed.

Lemma old_kids_p x : mortal os x = true -> occ x (kids os p) = occ x (cc_walk o).
Proof. intros Hm. unfold kids. rewrite Hp. by apply occ_filter. Qed.

Lemma store_refs x : mortal os x = true -> refs os' x = refs os x - occ x (cc_walk o) + occ x (cc_walk (set_pay o pay)).
Proof.
  intros Hm. unfold refs. replace (dom os') with (dom os) by (unfold os'; by rewrite dom_insert_lookup_L by eauto).
  rewrite (dsum_upd (dom os) p _ (fun p => if alive os p then occ x (kids os p) else 0)).
  - cbv beta. rewrite store_alive, Hal, store_kids_p, old_kids_p by done. lia.
  - apply elem_of_dom. eauto.
  - intros q _ Hq. by rewrite store_alive, store_kids.
Qed.

Lemma heap_store : heap_ok os' e'.
Proof.
  assert (Hsome : forall x, is_Some (os !! x) -> is_Some (os' !! x)).
  { intros x Hx. unfold os'. destruct (decide (x = p)) as [->|]; [rewrite lookup_insert_eq; eauto|by rewrite lookup_insert_ne]. }
  assert (Hcol : forall x, col os' x = col os x /\ bufd os' x = bufd os x).
  { intros x. unfold os'. rewrite col_insert, bufd_insert. case_decide; [subst|done].
    by rewrite (col_some _ _ _ Hp), (bufd_some _ _ _ Hp). }
  split.
  - intros x Hx. rewrite store_mortal in Hx. rewrite store_cnt, store_refs, He', (ho_count _ _ Hok x Hx) by done. lia.
  - intros x ox c Hx Ha Hc. apply Hsome. rewrite store_alive in Ha. unfold os' in Hx.
    destruct (decide (x = p)) as [->|Hne].
    + rewrite lookup_insert_eq in Hx. injection Hx as <-. by apply Hdom.
    + rewrite lookup_insert_ne in Hx by done. by apply (ho_kids _ _ Hok x ox).
  - done.
  - intros x Hx. by apply Hsome, Hd'.
  - intros x. rewrite store_mortal, store_cnt. destruct (Hcol x) as [-> ->]. apply (ho_husk _ _ Hok).
  - intros x. destruct (Hcol x) as [-> ->]. apply (ho_color _ _ Hok).
  - intros x. rewrite store_mortal. destruct (Hcol x) as [_ ->]. apply (ho_buf _ _ Hok).
Qed.

(** Nothing gets out of sight: what the object now holds is reached through
    it, what it held before is held by the program. *)
Lemma covered_store : (exists y, anchor os' e' y /\ rtc (edge os') y p) -> covered os e -> covered os' e'.
Proof.
  intros (z & Hz & Hzp) Hcov.
  assert (Hcol : forall x, col os' x = col os x /\ bufd os' x = bufd os x).
  { intros x. unfold os'. rewrite col_insert, bufd_insert. case_decide; [subst|done].
    by rewrite (col_some _ _ _ Hp), (bufd_some _ _ _ Hp). }
  set (Q := fun x => exists y, anchor os' e' y /\ rtc (edge os') y x).
  assert (Hnew : forall x, mortal os x = true -> 0 < occ x (cc_walk (set_pay o pay)) -> Q x).
  { intros x Hm Hx. exists z. split; [done|]. eapply rtc_r; [done|]. split; [by rewrite store_alive|].
    apply occ_pos. by rewrite store_kids_p. }
  assert (Hanc : forall y, anchor os e y -> Q y).
  { intros y [Hay Hy]. pose proof (alive_mortal _ _ Hay) as [Hm _].
    destruct Hy as [Hy|Hy].
    - destruct (decide (0 < e' y)) as [Hpos|Hn].
      + exists y. split; [|done]. split; [by rewrite store_alive|by left].
      + apply Hnew; [done|]. rewrite (He' y Hm) in Hn. pose proof (occ_nonneg y (cc_walk o)). lia.
    - exists y. split; [|done]. split; [by rewrite store_alive|right]. by destruct (Hcol y) as [-> ->]. }
  intros x Hx. rewrite store_alive in Hx. destruct (Hcov x Hx) as (y & Hy & Hyx).
  apply Hanc in Hy. clear Hx. induction Hyx as [y|y v x [Hay Hv] _ IH]; [done|]. apply IH.
  destruct (decide (y = p)) as [->|Hyp].
  - pose proof (kids_mortal _ _ _ Hv) as Hm. apply occ_pos in Hv. rewrite old_kids_p in Hv by done.
    destruct (decide (0 < occ v (cc_walk (set_pay o pay)))) as [Hpos|Hn]; [by apply Hnew|].
    exists v. split; [|done]. split.
    + rewrite store_alive. apply (ok_kid_alive Hok p); [done|]. apply occ_pos. by rewrite old_kids_p.
    + left. rewrite (He' v Hm). pose proof (ho_ext _ _ Hok v). lia.
  - destruct Hy as (y0 & Hy0 & Hr). exists y0. split; [done|]. eapply rtc_r; [done|].
    split; [by rewrite store_alive|]. by rewrite store_kids.
Qed.
End store.

(** The store leaves the control blocks alone. *)
Lemma ctrl_store {HH : Holds} os cs ws p o pay : ctrl_ok os cs ws -> os !! p = Some o ->
  handle_of o = None -> handle_of (set_pay o pay) = None -> ctrl_ok (<[p := set_pay o pay]> os) cs ws.
Proof.
  intros [Hs Hw Hh Ht Hv Hob Hhe] Hp Ho Ho'.
  assert (Hcount : forall b c, hcount (<[p := set_pay o pay]> os) b c = hcount os b c).
  { intros b c. rewrite (hcount_delete _ p (set_pay o pay)) by apply lookup_insert_eq.
    rewrite (hcount_delete os p o) by done. by rewrite delete_insert_eq, Ho, Ho'. }
  split.
  - intros c k Hk. rewrite Hcount. by apply Hs.
  - intros c k Hk. rewrite Hcount. by apply Hw.
  - intros b c. rewrite Hcount. apply Hh.
  - intros x c Hx. destruct (Ht x c Hx) as [(ox & Hox & Hl) Hk]. split; [|done].
    destruct (decide (x = p)) as [->|Hne]; [|exists ox; by rewrite lookup_insert_ne].
    exists (set_pay o pay). rewrite lookup_insert_eq. simplify_eq. done.
  - done.
  - intros q oq c k Hq. destruct (decide (q = p)) as [->|Hne].
    + rewrite lookup_insert_eq in Hq. injection Hq as <-. by rewrite Ho'.
    + rewrite lookup_insert_ne in Hq by done. by apply (Hob q oq).
  - done.
Qed.

Lemma store_inv {HH : Holds} h e e' p o pay : (forall x, 0 <= e x) -> rt_inv h e -> objs h !! p = Some o -> alive (objs h) p = true ->
  handle_of o = None -> handle_of (set_pay o pay) = None ->
  (forall c, c ∈ cc_walk (set_pay o pay) -> is_Some (objs h !! c)) ->
  (forall x, e' x = e x + occ x (cc_walk o) - occ x (cc_walk (set_pay o pay))) -> (forall x, 0 <= e' x) ->
  reachable (with_objs h (<[p := set_pay o pay]> (objs h))) e' p ->
  rt_inv (with_objs h (<[p := set_pay o pay]> (objs h))) e'.
Proof.
  intros He [[Hh Hc Hn Hr H0] Hcov] Hp Ha Ho Ho' Hdom He' Hnn (y & Hy & Hay & Hyp).
  assert (Hout : forall x, 0 <= outside h e' x).
  { intros x. unfold outside. specialize (Hnn x). pose proof (cref_nonneg (ctrls h) x). lia. }
  assert (Heq : forall x, mortal (objs h) x = true ->
    outside h e' x = outside h e x + occ x (cc_walk o) - occ x (cc_walk (set_pay o pay))).
  { intros x _. unfold outside. rewrite He'. lia. }
  assert (Hd : forall x, 0 < outside h e' x -> is_Some (objs h !! x)).
  { intros x Hx. destruct (decide (0 < outside h e x)); [by apply (ho_ext_dom _ _ Hh)|].
    apply (ho_kids _ _ Hh p o); [done..|]. apply occ_pos. unfold outside in *. rewrite He' in Hx.
    pose proof (occ_nonneg x (cc_walk (set_pay o pay))). lia. }
  split; [split|]; cbn.
  - apply (heap_store (e := outside h e) Hh Hp Ha Hdom Heq Hout Hd).
  - by apply ctrl_store.
  - done.
  - intros x. rewrite bufd_insert, Hr. case_decide; [subst|done]. by rewrite (bufd_some _ _ _ Hp).
  - rewrite lookup_insert_ne; [done|congruence].
  - apply (covered_store (e := outside h e) Hh Hp Ha Heq); [|done].
    exists y. split; [|done]. split; [done|left]. change (ctrls _) with (ctrls h) in *. unfold outside. pose proof (cref_nonneg (ctrls h) y). cbn. lia.
Qed.

(** ** Every step keeps the invariant *)

Definition state_ok (s : rt * (Z -> Z)) : Prop := (forall x, 0 <= s.2 x) /\ rt_inv s.1 s.2.

(** A run from a given fuel is the run from enough fuel. *)
Lemma run_agree {R : Type} (run : nat -> option R) (f1 : nat) (f : nat) (r r1 : R) :
  (forall f f' r, (f <= f')%nat -> run f = Some r -> run f' = Some r) ->
  run f = Some r -> (forall f', (f1 <= f')%nat -> run f' = Some r1) -> r = r1.
Proof.
  intros Hmono Hf H1. pose proof (Hmono f (f + f1)%nat r ltac:(lia) Hf) as Ha. rewrite H1 in Ha by lia. congruence.
Qed.

Lemma inv_dom h e x : rt_inv h e -> 0 < e x -> x <> 0 /\ live (objs h) x.
Proof.
  intros Hinv Hx. pose proof (ro_heap _ _ (ri_ok _ _ Hinv)) as Hh.
  assert (Ho : 0 < outside h e x) by (unfold outside; pose proof (cref_nonneg (ctrls h) x); lia).
  destruct (ho_ext_dom _ _ Hh x Ho) as [o Hox]. split.
  - intros ->. rewrite (ro_null _ _ (ri_ok _ _ Hinv)) in Hox. done.
  - apply live_alive. split; [eauto|]. intros Hm. by apply (ok_ext_alive Hh).
Qed.

Lemma reachable_alive h e x : rt_inv h e -> reachable h e x -> alive (objs h) x = true.
Proof.
  intros Hinv (y & _ & Hy & Hr). pose proof (ro_heap _ _ (ri_ok _ _ Hinv)) as Hh.
  induction Hr as [|y v x [Hay Hv] _ IH]; [done|]. apply IH. by apply (ok_kid_alive Hh y).
Qed.

Section keep.
Context {A : Allocator} (deinit : Z -> rt -> option rt) (Hdeinit : forall H : Holds, deinit_ok deinit).

Lemma plus_nonneg e l : (forall x, 0 <= e x) -> forall x, 0 <= plus_list e l x.
Proof. intros He x. unfold plus_list. specialize (He x). pose proof (occ_nonneg x l). lia. Qed.

(** A handle constructor's result. *)
Lemma handle_step h e e0 run extra f h' r : (forall x, 0 <= e0 x) ->
  (forall f f' r, (f <= f')%nat -> run f = Some r -> run f' = Some r) ->
  ok_after h e0 run extra -> run f = Some (h', r) -> e = plus_list e0 [r] -> state_ok (h', e).
Proof.
  intros He Hmono (fuel & h1 & p & c & Hrun & Hinv & _) Hr ->.
  pose proof (run_agree run fuel f _ _ Hmono Hr Hrun) as [= <- <-]. split; [by apply plus_nonneg|done].
Qed.

Lemma step_ok s s' : state_ok s -> step deinit s s' -> state_ok s'.
Proof.
  intros [He Hinv] Hstep. destruct Hstep as
    [f h e o h' p Hbox Hho Hown Hrun|h e p h' Hreach Hrun|f h e p h' Hp Hrun|h e p o pay e' Hp Ha Ho Ho' Hown Hdom He' Hreach
    |f force h e h' Hrun|f h e p h' r Hp Hrun|h e q o c h' r Hq Ho Hpay Hh Hex Hrun|f h e value vp h' r Hpay Hrun
    |f h e q o c h' r Hq Ho Hpay Hh Hrun|f h e q o b c h' r Hq Ho Hpay Hh Hrun]; cbn [fst snd] in *.
  - destruct (alloc_inv deinit Hdeinit no_holds no_holds h e o He Hinv Hbox Hown) as (fuel & h1 & p1 & Hrun1 & Hinv1 & _).
    { intros b c. rewrite Hho, decide_False by done. done. }
    { done. }
    { intros c. by rewrite Hho. }
    pose proof (run_agree _ fuel f _ _ (fun f f' r => alloc_mono deinit f f' h o r) Hrun Hrun1) as [= <- <-]. split.
    + apply plus_nonneg. intros x. unfold minus_list. specialize (Hown x). lia.
    + cbn. apply (rt_inv_ext h' (fun x => e x - occ x (cc_walk o) + if decide (p = x) then 1 else 0)); [|done].
      intros x. unfold plus_list, minus_list. rewrite occ_cons, occ_nil. lia.
  - destruct (retain_inv h e p Hinv (reachable_alive h e p Hinv Hreach) (He p)) as (h1 & Hrun1 & Hinv1 & _).
    rewrite Hrun1 in Hrun. injection Hrun as <-. split; [by apply plus_nonneg|done].
  - destruct (release_ok deinit (Hdeinit _) h (minus_list e [p]) p) as (fuel & h1 & Hrun1 & Hinv1 & _).
    { intros x. unfold minus_list. specialize (He x). rewrite occ_cons, occ_nil. case_decide; [subst|]; lia. }
    { apply (rt_inv_ext h e); [|done]. intros x. unfold plus_list, minus_list. lia. }
    assert (h1 = h') as ->.
    { pose proof (release_mono deinit f (f + fuel) h p h' ltac:(lia) Hrun) as H1.
      pose proof (release_mono deinit fuel (f + fuel) h p h1 ltac:(lia) Hrun1) as H2. congruence. }
    split; [|done]. intros x. cbn. unfold minus_list. specialize (He x). rewrite occ_cons, occ_nil. case_decide; [subst|]; lia.
  - assert (Hnn : forall x, 0 <= e' x) by (intros x; rewrite He'; specialize (Hown x); lia).
    split; [done|]. by apply (store_inv h e e' p o pay).
  - destruct (collect_ok deinit (Hdeinit _) force h e He Hinv) as (fuel & h1 & Hrun1 & Hinv1 & _).
    pose proof (run_agree _ fuel f _ _ (fun f f' r => collect_mono deinit f f' force h r) Hrun Hrun1) as <-. done.
  - destruct (inv_dom h e p Hinv Hp) as [Hp0 Hlive].
    apply (handle_step h _ e (fun f => beans_object_weak_new deinit f h p) 7 f h' r He); [|by apply weak_new_inv|done|done].
    clear. intros f f' r Hle. unfold beans_object_weak_new. destruct (p =? 0); [done|]. destruct (weak_ctrl_for h p) as [h1 c].
    destruct (ctrls h1 !! c); [|done]. cbn [mbind option_bind]. by apply alloc_mono.
  - destruct (weak_get_inv h e q o c He Hinv Ho Hpay Hh Hex) as (h1 & r1 & Hrun1 & Hcases).
    rewrite Hrun1 in Hrun. injection Hrun as <- <-. destruct Hcases as [[-> ->]|(Hr & _ & Hinv1 & _)]; [done|].
    rewrite (proj2 (Z.eqb_neq r1 0) Hr). split; [by apply plus_nonneg|done].
  - pose proof (shared_new_inv deinit Hdeinit h e value vp He Hinv Hpay) as Hok. cbv zeta in Hok.
    eapply (handle_step h _ (minus_list e _) (fun f => beans_shared_new deinit f h value vp) 2 f h' r); [|clear; intros f f' r; apply alloc_mono|exact Hok|done|done].
    intros x. cbv beta. specialize (He x). unfold minus_list. destruct (Z.eqb_spec vp 0); cbn [orb]; [rewrite occ_nil; lia|].
    destruct (Z.eqb_spec value 0); [rewrite occ_nil; lia|]. rewrite occ_cons, occ_nil. case_decide; [subst|lia].
    pose proof (Hpay n n0). lia.
  - apply (handle_step h _ e (fun f => beans_shared_downgrade deinit f h q) 3 f h' r He); [|by apply (downgrade_inv deinit Hdeinit h e q o c)|done|done].
    clear. intros f f' r Hle. unfold beans_shared_downgrade. destruct (handle_ctrl h q) as [[c k]|]; [|done]. by apply alloc_mono.
  - destruct (upgrade_inv deinit Hdeinit h e q o b c He Hinv Ho Hpay Hh) as (k & _ & Hk0 & Hgone & Hok).
    destruct (decide (c_strong k = 0)) as [Hz|Hz].
    + rewrite (Hgone Hz f) in Hrun. injection Hrun as <- <-. done.
    + assert (Hpos : 0 < c_strong k) by lia. pose proof (Hok Hpos) as (fuel & h1 & p & c1 & Hrun1 & Hinv1 & _ & Hp0 & _).
      assert (Hag : (h', r) = (h1, p)).
      { apply (run_agree (fun f => beans_weak_upgrade deinit f h q) fuel f); [|done|done].
        clear. intros f f' r Hle. unfold beans_weak_upgrade. destruct (handle_ctrl h q) as [[c k]|]; [|done]. cbn [mbind option_bind].
        destruct (0 <? c_strong k); [|done]. by apply alloc_mono. }
      injection Hag as -> ->. rewrite (proj2 (Z.eqb_neq p 0) Hp0). split; [by apply plus_nonneg|done].
Qed.

Lemma steps_ok s s' : state_ok s -> rtc (step deinit) s s' -> state_ok s'.
Proof. intros Hs Hr. induction Hr as [|s s1 s' Hst _ IH]; [done|]. apply IH. by apply (step_ok s). Qed.
End keep.

(** The runtime before the program's first allocation. *)
Definition start : rt := mkRt ∅ ∅ ∅ [] 256 256 false false 0.

Lemma start_ok : state_ok (start, fun _ => 0).
Proof.
  split; [done|]. split; [split|]; cbn.
  - split; try done. intros x. by left.
  - split; try done.
  - constructor.
  - intros x. split; [by intros ?%elem_of_nil|done].
  - done.
  - done.
Qed.

(** * What a collection leaves

    Objects the program reaches keep their contents; an object nothing holds
    is gone; a control block's payload is only ever cleared. *)

Implicit Types (cs : gmap Z BSharedCtrl).

(** ** Survival *)

Definition kept os os' (x : Z) : Prop :=
  exists o o', os !! x = Some o /\ os' !! x = Some o' /\ static o' = static o /\ o_fin o' = o_fin o.

Section survive.
Context {HH : Holds}.

Lemma live_outside h e x : rt_inv h e -> 0 < outside h e x -> is_Some (objs h !! x) /\ (mortal (objs h) x = true -> alive (objs h) x = true).
Proof.
  intros Hinv Hx. pose proof (ro_heap _ _ (ri_ok _ _ Hinv)) as Hh.
  split; [by apply (ho_ext_dom _ _ Hh)|]. intros Hm. by apply (ok_ext_alive Hh).
Qed.

Lemma sub_kept os os' x : sub_heap os os' -> is_Some (os' !! x) -> kept os os' x.
Proof. intros Hs [o' Ho']. destruct (Hs x o' Ho') as (o & Ho & Hst & Hf & _). exists o, o'. done. Qed.

Lemma kept_mortal os os' x : kept os os' x -> mortal os' x = mortal os x.
Proof.
  intros (o & o' & Ho & Ho' & Hst & _). rewrite (some_mortal _ _ _ Ho), (some_mortal _ _ _ Ho').
  apply static_eq in Hst as [_ ->]. done.
Qed.

(** What the remaining references reach survives, as it was. *)
Lemma survive h h' e x : rt_inv h' e -> sub_heap (objs h) (objs h') -> reachable h e x ->
  reachable h' e x /\ kept (objs h) (objs h') x.
Proof.
  intros Hinv Hsub (y & Hy & Hay & Hr). pose proof (ro_heap _ _ (ri_ok _ _ Hinv)) as Hh.
  assert (Ha' : alive (objs h') y = true).
  { destruct (live_outside h' e y Hinv) as [Hs Ha].
    - unfold outside. pose proof (cref_nonneg (ctrls h') y). lia.
    - apply Ha. rewrite (kept_mortal (objs h)) by (by apply sub_kept). by apply alive_mortal in Hay as [? _]. }
  assert (Hgo : rtc (edge (objs h')) y x /\ alive (objs h') x = true).
  { clear Hy Hay. induction Hr as [y|y v x [Hayv Hv] _ IH]; [done|].
    assert (Hkv : v ∈ kids (objs h') y).
    { destruct (alive_mortal _ _ Ha') as [Hmy _]. destruct (mortal_some _ _ Hmy) as (o' & Ho' & _).
      destruct (Hsub y o' Ho') as (o & Ho & Hst & _). unfold kids in Hv |- *. rewrite Ho in Hv. rewrite Ho'.
      apply static_eq in Hst as [Hw _]. rewrite Hw. apply list_elem_of_In, filter_In in Hv as [Hin Hm].
      apply list_elem_of_In, filter_In. split; [done|].
      rewrite (kept_mortal (objs h)); [done|]. apply sub_kept; [done|].
      apply (ho_kids _ _ Hh y o'); [done..|]. rewrite Hw. by apply list_elem_of_In. }
    destruct IH as [IHr IHa]; [by apply (ok_kid_alive Hh y)|]. split; [|done].
    apply (rtc_l _ _ v); [|done]. by split. }
  destruct Hgo as [Hr' Hx']. split; [by exists y|]. apply sub_kept; [done|].
  apply alive_mortal in Hx' as [(o & Ho & _)%mortal_some _]. eauto.
Qed.

Lemma sub_reachable h h' e x : sub_heap (objs h) (objs h') -> reachable h' e x -> reachable h e x.
Proof.
  intros Hsub (y & Hy & Hay & Hr).
  assert (Hal : forall z, alive (objs h') z = true -> alive (objs h) z = true).
  { intros z [(o' & Ho' & Hi)%mortal_some Hc]%alive_mortal. destruct (Hsub z o' Ho') as (o & Ho & Hst & _ & Hle).
    apply static_eq in Hst as [_ Him]. unfold alive. rewrite (some_mortal _ _ _ Ho), (cnt_some _ _ _ Ho), <-Him, Hi.
    rewrite (cnt_some _ _ _ Ho') in Hc. cbn. apply Z.ltb_lt. lia. }
  assert (Hm : forall z, mortal (objs h') z = true -> mortal (objs h) z = true).
  { intros z (o' & Ho' & Hi)%mortal_some. destruct (Hsub z o' Ho') as (o & Ho & Hst & _).
    apply static_eq in Hst as [_ Him]. by rewrite (some_mortal _ _ _ Ho), <-Him, Hi. }
  exists y. split; [done|]. split; [by apply Hal|]. clear Hy Hay. apply (rtc_subrel (edge (objs h'))); [|done].
  intros p c [Hp Hc]. split; [by apply Hal|]. destruct (alive_mortal _ _ Hp) as [(o' & Ho' & _)%mortal_some _].
  destruct (Hsub p o' Ho') as (o & Ho & Hst & _). apply static_eq in Hst as [Hw _].
  unfold kids in *. rewrite Ho' in Hc. rewrite Ho, <-Hw. apply list_elem_of_In, filter_In in Hc as [Hin Hc].
  apply list_elem_of_In, filter_In. split; [done|]. by apply Hm.
Qed.

(** Nothing is alive without a holder. *)
Lemma alive_held h e x : rt_inv h e -> alive (objs h) x = true -> 0 < refs (objs h) x + outside h e x.
Proof.
  intros Hinv Hx. destruct (alive_mortal _ _ Hx) as [Hm Hc]. pose proof (ro_heap _ _ (ri_ok _ _ Hinv)) as Hh.
  rewrite (ho_count _ _ Hh x Hm) in Hc. done.
Qed.

(** With no candidate parked and no payload held by a block, what is alive
    is what the references reach. *)
Lemma alive_reachable h e x : rt_inv h e -> (forall x, bufd (objs h) x = false) -> (forall x, cref (ctrls h) x = 0) ->
  alive (objs h) x = true -> reachable h e x.
Proof.
  intros Hinv Hb Hc Hx. destruct (ri_cov _ _ Hinv x Hx) as (y & [Hay [Hy|[Hy _]]] & Hr).
  - exists y. split; [|done]. unfold outside in Hy. rewrite Hc in Hy. lia.
  - by rewrite Hb in Hy.
Qed.

(** And an object still in the heap is alive or immortal. *)
Lemma unparked_alive h e x o : rt_inv h e -> (forall x, bufd (objs h) x = false) -> objs h !! x = Some o -> o_immortal o = false ->
  alive (objs h) x = true.
Proof.
  intros Hinv Hb Ho Hi. pose proof (ro_heap _ _ (ri_ok _ _ Hinv)) as Hh.
  assert (Hm : mortal (objs h) x = true) by (by rewrite (some_mortal _ _ _ Ho), Hi).
  unfold alive. rewrite Hm. cbn. apply Z.ltb_lt.
  pose proof (ho_count _ _ Hh x Hm). pose proof (refs_nonneg (objs h) x). pose proof (ho_ext _ _ Hh x).
  destruct (decide (cnt (objs h) x = 0)) as [Hz|]; [|lia]. destruct (ho_husk _ _ Hh x Hm Hz) as [Hbx _]. by rewrite Hb in Hbx.
Qed.
End survive.

(** ** Control blocks only lose their payload *)

Definition less_held (k k' : BSharedCtrl) : Prop :=
  (c_value k' = c_value k \/ c_value k' = 0) /\ forall x, holds k' x = true -> holds k x = true.
Definition vals_sub cs cs' : Prop :=
  forall c k', cs' !! c = Some k' -> exists k, cs !! c = Some k /\ less_held k k'.

#[export] Instance vals_sub_preorder : PreOrder vals_sub.
Proof.
  split.
  - intros cs c k Hk. exists k. split; [done|]. split; auto.
  - intros cs1 cs2 cs3 H12 H23 c k3 (k2 & (k1 & Hk1 & H1 & H1')%H12 & H2 & H2')%H23. exists k1. split; [done|].
    split; [destruct H2 as [-> | ->]; auto|auto].
Qed.

Lemma less_held_refl k : less_held k k.
Proof. split; auto. Qed.

(** A block that counts fewer handles, or lost its value, holds no more. *)
Lemma less_held_dec k k' : c_strong k' <= c_strong k -> c_value_ptr k' = c_value_ptr k -> c_value k' = c_value k -> less_held k k'.
Proof.
  intros Hs Hp Hv. split; [auto|]. intros x. unfold holds. rewrite Hp, Hv, !andb_true_iff, !Z.ltb_lt. intros [[[? ?] ?] ?]. split_and!; try done; lia.
Qed.
Lemma less_held_zero k k' : c_value k' = 0 -> less_held k k'.
Proof.
  intros Hv. split; [auto|]. intros x. unfold holds. rewrite Hv, !andb_true_iff. intros [[_ Hx] Hx'].
  apply Z.eqb_eq in Hx'. by subst.
Qed.

(** So what no block holds none holds afterwards. *)
Lemma cref_sub cs cs' : vals_sub cs cs' -> (forall x, cref cs x = 0) -> forall x, cref cs' x = 0.
Proof.
  intros Hsub Hz x. apply dsum_zero. intros c _. destruct (cs' !! c) as [k'|] eqn:Hk'; [|done].
  destruct (holds k' x) eqn:Hh; [|done]. destruct (Hsub c k' Hk') as (k & Hk & _ & Hle). apply Hle in Hh.
  pose proof (dsum_zero_inv (dom cs) (fun c => match cs !! c with Some k => if holds k x then 1 else 0 | None => 0 end) c (Hz x)) as H.
  cbv beta in H. rewrite Hk, Hh in H. apply H; [|apply elem_of_dom; eauto].
  intros q _. destruct (cs !! q) as [kq|]; [destruct (holds kq x)|]; lia.
Qed.

Lemma drop_weak_vals cs c k k0 : cs !! c = Some k0 -> less_held k0 k -> vals_sub cs (ctrl_drop_weak cs c k).
Proof.
  intros Hc Hk c' k'. unfold ctrl_drop_weak. destruct (c_weak k =? 1).
  - intros [_ Hk']%lookup_delete_Some. exists k'. split; [done|apply less_held_refl].
  - intros [[<- <-]|[_ Hk']]%lookup_insert_Some; [exists k0; split; [done|exact Hk]|exists k'; split; [done|apply less_held_refl]].
Qed.

Lemma free_shell_vals h p h' child : cc_free_shell h p = Some (h', child) -> vals_sub (ctrls h) (ctrls h').
Proof.
  unfold cc_free_shell. destruct (objs h !! p) as [o|]; [|done]. cbn [mbind option_bind].
  destruct (o_pay o) as [| | | | | |c|]; try (by intros [= <- _]).
  destruct ((o_kind o =? 6) && _); [|by intros [= <- _]]. unfold shared_shell_drop. cbn [ctrls with_objs].
  destruct (ctrls h !! c) as [k|] eqn:Hk; [|done]. cbn [mbind option_bind].
  destruct (negb (o_extra o &! 1 =? 0)); [intros [= <- _]; apply (drop_weak_vals _ _ _ k); [done|apply less_held_refl]|].
  destruct (c_strong k =? 1); [intros [= <- _]; apply (drop_weak_vals _ _ _ k); [done|by apply less_held_zero]|].
  intros [= <- _] c' k'. cbn. intros [[<- <-]|[_ Hk']]%lookup_insert_Some.
  - exists k. split; [done|]. apply less_held_dec; cbn; [lia|done|done].
  - exists k'. split; [done|apply less_held_refl].
Qed.

Lemma invalidate_vals h p h' : rt_weak_invalidate h p = Some h' -> vals_sub (ctrls h) (ctrls h').
Proof.
  unfold rt_weak_invalidate. destruct (weak_entries h !! p) as [c|]; [|by intros [= <-]].
  destruct (ctrls h !! c) as [k|] eqn:Hk; [|done]. cbn [mbind option_bind]. intros [= <-].
  apply (drop_weak_vals _ _ _ k); [done|by apply less_held_zero].
Qed.

Lemma possible_root_vals h p h' : cc_possible_root h p = Some h' -> ctrls h' = ctrls h.
Proof. unfold cc_possible_root. destruct (objs h !! p) as [o|]; [|done]. cbn. intros [= <-]. by destruct (o_buf o). Qed.

Lemma finish_death_vals h p st h' st' : rt_finish_death h p st = Some (h', st') -> vals_sub (ctrls h) (ctrls h').
Proof.
  unfold rt_finish_death. destruct (objs h !! p) as [o|]; [|done]. cbn [mbind option_bind].
  destruct (push_kids _ _ _) as [st1|]; [|done]. cbn [mbind option_bind].
  destruct (o_buf o); [by intros [= <- _]|]. destruct (cc_free_shell h p) as [[h1 child]|] eqn:Hr; [|done]. cbn [mbind option_bind].
  intros [= <- _]. by apply (free_shell_vals h p h1 child).
Qed.

Section vals.
Context (deinit : Z -> rt -> option rt).

Definition no_fin os : Prop := forall x o, os !! x = Some o -> o_fin o = false.

Lemma free_shell_objs h p h' child : cc_free_shell h p = Some (h', child) -> objs h' = delete p (objs h).
Proof.
  unfold cc_free_shell. destruct (objs h !! p) as [o|]; [|done]. cbn [mbind option_bind].
  destruct (o_pay o) as [| | | | | |c|]; try (by intros [= <- _]).
  destruct ((o_kind o =? 6) && _); [|by intros [= <- _]]. destruct (shared_shell_drop _ _ _) as [[cs ch]|]; [|done]. cbn. by intros [= <- _].
Qed.

Lemma no_fin_insert os p o o' : no_fin os -> os !! p = Some o -> o_fin o' = o_fin o -> no_fin (<[p := o']> os).
Proof.
  intros Hn Hp Hf x ox [[_ <-]|[_ Hx]]%lookup_insert_Some; [|by apply (Hn x)]. rewrite Hf. by apply (Hn p).
Qed.

Lemma no_fin_delete os p : no_fin os -> no_fin (delete p os).
Proof. intros Hn x o [_ Hx]%lookup_delete_Some. by apply (Hn x). Qed.

Lemma finish_death_no_fin h p st h' st' : no_fin (objs h) -> rt_finish_death h p st = Some (h', st') -> no_fin (objs h').
Proof.
  intros Hn. unfold rt_finish_death. destruct (objs h !! p) as [o|] eqn:Ho; [|done]. cbn [mbind option_bind].
  destruct (push_kids _ _ _) as [st1|]; [|done]. cbn [mbind option_bind].
  destruct (o_buf o); [intros [= <- _]; by apply (no_fin_insert _ _ o)|].
  destruct (cc_free_shell h p) as [[h1 child]|] eqn:Hr; [|done]. cbn [mbind option_bind]. intros [= <- _].
  rewrite (free_shell_objs _ _ _ _ Hr). by apply no_fin_delete.
Qed.

Lemma weak_invalidate_objs h p h' : rt_weak_invalidate h p = Some h' -> objs h' = objs h.
Proof.
  unfold rt_weak_invalidate. destruct (weak_entries h !! p) as [c|]; [|by intros [= <-]].
  destruct (ctrls h !! c) as [k|]; [|done]. cbn. by intros [= <-].
Qed.

Lemma release_loop_vals fuel : forall h st h', no_fin (objs h) -> release_loop deinit fuel h st = Some h' ->
  vals_sub (ctrls h) (ctrls h') /\ no_fin (objs h').
Proof.
  induction fuel as [|fuel IH]; intros h st h' Hn; (destruct st as [|p st]; [by intros [= <-]|]); [done|].
  cbn [release_loop]. destruct (objs h !! p) as [o|] eqn:Ho; [|done]. cbn [mbind option_bind].
  destruct (o_immortal o); [by apply IH|].
  assert (Hn1 : no_fin (<[p := set_count o (o_count o - 1)]> (objs h))) by (by apply (no_fin_insert _ _ o)).
  rewrite (Hn p o Ho). destruct (o_count o - 1 =? 0).
  - destruct (rt_weak_invalidate _ p) as [h1|] eqn:Hr1; [|done]. cbn [mbind option_bind].
    destruct (rt_finish_death h1 p st) as [[h3 st3]|] eqn:Hr3; [|done]. cbn [mbind option_bind].
    intros Hr. apply IH in Hr as [Hr Hn']; [|apply (finish_death_no_fin h1 p st h3 st3); [|done]; by rewrite (weak_invalidate_objs _ _ _ Hr1)].
    split; [|done]. etrans; [exact (invalidate_vals _ _ _ Hr1)|]. etrans; [exact (finish_death_vals _ _ _ _ _ Hr3)|done].
  - destruct (cyclic o).
    + destruct (cc_possible_root _ p) as [h1|] eqn:Hr1; [|done]. cbn [mbind option_bind]. intros Hr.
      apply IH in Hr as [Hr Hn']. { split; [|done]. by rewrite (possible_root_vals _ _ _ Hr1) in Hr. }
      unfold cc_possible_root in Hr1. cbn [objs with_objs] in Hr1. rewrite lookup_insert_eq in Hr1. cbn [mbind option_bind] in Hr1.
      assert (Hn2 : no_fin (<[p := set_buf (cc_set_color (set_count o (o_count o - 1)) CC_PURPLE) true]> (<[p := set_count o (o_count o - 1)]> (objs h))))
        by (apply (no_fin_insert _ _ (set_count o (o_count o - 1))); [done|apply lookup_insert_eq|done]).
      cbn in Hr1. destruct (o_buf o); by injection Hr1 as <-.
    + cbn [mbind option_bind]. intros Hr. by apply IH in Hr.
Qed.

Lemma owed_vals fuel : forall ps h h', no_fin (objs h) -> release_all_owed deinit fuel h ps = Some h' ->
  vals_sub (ctrls h) (ctrls h') /\ no_fin (objs h').
Proof.
  induction ps as [|p ps IH]; intros h h' Hn; cbn [release_all_owed]; [by intros [= <-]|]. unfold beans_release.
  destruct (p =? 0); [by apply IH|]. destruct (release_loop deinit fuel h [p]) as [h1|] eqn:Hr; [|done]. cbn [mbind option_bind].
  intros Hr'. apply release_loop_vals in Hr as [Hv Hn1]; [|done]. apply IH in Hr' as [Hv' Hn']; [|done]. split; [by etrans|done].
Qed.

Lemma filter_roots_vals : forall rs h kept deferred h' kept' deferred', no_fin (objs h) ->
  filter_roots h rs kept deferred = Some (h', kept', deferred') -> vals_sub (ctrls h) (ctrls h') /\ no_fin (objs h').
Proof.
  induction rs as [|p rs IH]; intros h kept deferred h' kept' deferred' Hn; cbn [filter_roots]; [by intros [= <- _ _]|].
  destruct (objs h !! p) as [o|] eqn:Ho; [|done]. cbn [mbind option_bind]. destruct (_ && _); [by apply IH|].
  assert (Hn1 : no_fin (<[p := set_buf o false]> (objs h))) by (by apply (no_fin_insert _ _ o)). cbv zeta.
  destruct (o_count o =? 0); [|by intros Hr%IH].
  destruct (cc_free_shell _ p) as [[h1 child]|] eqn:Hr1; [|done]. cbn [mbind option_bind].
  intros [Hv Hn']%IH; [|rewrite (free_shell_objs _ _ _ _ Hr1); by apply no_fin_delete].
  split; [|done]. etrans; [exact (free_shell_vals _ _ _ _ Hr1)|done].
Qed.

Lemma invalidate_all_vals : forall ps h h', for_all rt_weak_invalidate ps h = Some h' -> vals_sub (ctrls h) (ctrls h') /\ objs h' = objs h.
Proof.
  induction ps as [|p ps IH]; intros h h'; cbn [for_all]; [by intros [= <-]|].
  destruct (rt_weak_invalidate h p) as [h1|] eqn:Hr; [|done]. cbn [mbind option_bind]. intros [Hv Ho]%IH.
  rewrite (weak_invalidate_objs _ _ _ Hr) in Ho. split; [|done]. etrans; [exact (invalidate_vals _ _ _ Hr)|done].
Qed.

Lemma free_cycle_vals : forall dead h deferred h' deferred', no_fin (objs h) ->
  cc_free_cycle_shells h dead deferred = Some (h', deferred') -> vals_sub (ctrls h) (ctrls h') /\ no_fin (objs h').
Proof.
  induction dead as [|p dead IH]; intros h deferred h' deferred' Hn; cbn [cc_free_cycle_shells]; [by intros [= <- _]|].
  destruct (objs h !! p) as [o|] eqn:Ho; [|done]. cbn [mbind option_bind]. destruct (o_buf o).
  - intros Hr%IH; [done|]. by apply (no_fin_insert _ _ o).
  - destruct (cc_free_shell h p) as [[h1 child]|] eqn:Hr1; [|done]. cbn [mbind option_bind].
    intros [Hv Hn']%IH; [|rewrite (free_shell_objs _ _ _ _ Hr1); by apply no_fin_delete].
    split; [|done]. etrans; [exact (free_shell_vals _ _ _ _ Hr1)|done].
Qed.

Lemma no_fin_any os dead : no_fin os -> any_fin os dead = false.
Proof.
  intros Hn. unfold any_fin. induction dead as [|p dead IH]; [done|]. cbn [existsb]. rewrite IH.
  destruct (os !! p) as [o|] eqn:Ho; [|done]. by rewrite (Hn p o Ho).
Qed.

Lemma no_fin_finv os os' : finv os' = finv os -> no_fin os -> no_fin os'.
Proof.
  intros Hf Hn x o' Hx. assert (H : finv os' !! x = finv os !! x) by (by rewrite Hf).
  unfold finv in H. rewrite !lookup_fmap, Hx in H. destruct (os !! x) as [o|] eqn:Ho; [|done]. injection H as ->. by apply (Hn x).
Qed.

Lemma collect_vals {HH : Holds} f force h e h' : (forall x, 0 <= e x) -> rt_inv h e -> no_fin (objs h) ->
  cc_collect deinit f force h = Some h' -> vals_sub (ctrls h) (ctrls h') /\ no_fin (objs h').
Proof.
  intros He Hinv Hn. unfold cc_collect. destruct (cc_collecting h); [by intros [= <-]|].
  destruct (negb (beans_in_deinit h =? 0)); [by intros [= <-]|].
  destruct (filter_roots_ok e (cc_roots h) (with_flags h true (beans_in_deinit h)) [] [] (filter_start h e Hinv))
    as (h1 & roots & deferred & Hrun1 & Hfi & _).
  change (cc_roots (with_flags h true (beans_in_deinit h))) with (cc_roots h). rewrite Hrun1. cbn [mbind option_bind]. cbv zeta.
  apply filter_roots_vals in Hrun1 as [Hv1 Hn1]; [|done]. change (ctrls (with_flags h true (beans_in_deinit h))) with (ctrls h) in Hv1.
  destruct (_ && (_ || _)).
  - destruct (trial_doomed h1 e roots deferred Hfi) as (os & dead & h3 & Hrun2 & Hinval & Hdm & _).
    change (objs (with_roots h1 roots (cc_pending h1))) with (objs h1). rewrite Hrun2. cbn [mbind option_bind].
    change (cc_pending (with_roots h1 roots (cc_pending h1))) with (cc_pending h1).
    rewrite Hinval. cbn [mbind option_bind]. apply invalidate_all_vals in Hinval as [Hv3 Ho3].
    pose proof (tr_fin _ _ _ _ _ (dm_trial _ _ _ _ _ Hdm)) as Hf. apply no_fin_finv in Hf; [|done].
    unfold cc_run_cycle_deinits. cbn [objs with_gates]. rewrite (no_fin_any _ dead Hf). cbn [mbind option_bind].
    destruct (cc_free_cycle_shells _ dead deferred) as [[h5 def5]|] eqn:Hr5; [|done]. cbn [mbind option_bind].
    apply free_cycle_vals in Hr5 as [Hv5 Hn5]; [|done].
    destruct (release_all_owed deinit f h5 def5) as [h6|] eqn:Hr6; [|done]. cbn [mbind option_bind]. intros [= <-].
    apply owed_vals in Hr6 as [Hv6 Hn6]; [|done]. split; [|done].
    etrans; [exact Hv1|]. etrans; [exact Hv3|]. etrans; [exact Hv5|exact Hv6].
  - cbn [mbind option_bind cc_run_cycle_deinits any_fin existsb]. unfold cc_run_cycle_deinits. cbn [any_fin existsb mbind option_bind cc_free_cycle_shells].
    destruct (release_all_owed deinit f _ deferred) as [h6|] eqn:Hr6; [|done]. cbn [mbind option_bind]. intros [= <-].
    apply owed_vals in Hr6 as [Hv6 Hn6]; [|done]. split; [|done]. by etrans.
Qed.
End vals.

(** A weak handle on an object that is gone reads nothing. *)
Lemma weak_gone {HH : Holds} h h' e q o c k : rt_inv h' e -> sub_heap (objs h) (objs h') -> vals_sub (ctrls h) (ctrls h') ->
  objs h !! q = Some o -> o_pay o = PHandle c -> handle_of o = Some (false, c) -> o_extra o = 7 -> ctrls h !! c = Some k ->
  is_Some (objs h' !! q) -> ~ live (objs h') (c_value k) -> beans_object_weak_get h' q = Some (h', 0).
Proof.
  intros Hinv Hsub Hvals Hq Hpay Hho Hex Hk [o' Hq'] Hdead. pose proof (ro_ctrl _ _ (ri_ok _ _ Hinv)) as Hc.
  destruct (Hsub q o' Hq') as (o0 & Ho0 & Hst & _). rewrite Hq in Ho0. injection Ho0 as <-.
  pose proof (static_handle _ _ Hst) as [Hho' Hex']. rewrite Hho in Hho'. rewrite Hex in Hex'.
  assert (Hpay' : o_pay o' = PHandle c) by (destruct o', o; cbn in *; injection Hst as -> -> ->; done).
  destruct (handle_block h' e q o' false c Hinv Hq' Hpay' Hho') as (k' & Hhc & Hk' & _).
  pose proof (co_object _ _ _ Hc q o' c k' Hq' Hho' Hex' Hk') as Hs.
  destruct (Hvals c k' Hk') as (k0 & Hk0 & Hval & _). rewrite Hk in Hk0. injection Hk0 as <-.
  assert (Hz : c_value k' = 0).
  { destruct (decide (c_value k' = 0)) as [|Hne]; [done|]. destruct Hval as [Hval|]; [|done]. destruct Hdead. rewrite <-Hval.
    by apply (co_table _ _ _ Hc _ c), (co_value _ _ _ Hc c k'). }
  unfold beans_object_weak_get. destruct (q =? 0); [done|]. rewrite Hhc. cbn [mbind option_bind]. by rewrite Hz.
Qed.

Lemma fins_no_fin os : fins os = 0 -> no_fin os.
Proof. intros Hf x o Ho. by apply (proj1 (fins_zero os) Hf x). Qed.

(** ** A pass over a heap nobody holds

    With no program reference and no payload in a control block every mortal
    object is condemned.  A pass that has bodies to run runs them all and hands
    the set back, parked; [deinit_tidy] is what the passes at exit ask of the
    bodies besides [deinit_ok]: they give no object a body to run, and no
    control block a payload. *)

Definition armed os (x : Z) : bool := match os !! x with Some o => o_fin o | None => false end.
Definition payless cs : Prop := forall x, cref cs x = 0.
Definition deinit_tidy (deinit : Z -> rt -> option rt) : Prop :=
  forall p h h', deinit p h = Some h' ->
    (forall x, armed (objs h') x = true -> armed (objs h) x = true) /\ (payless (ctrls h) -> payless (ctrls h')).

(** Literals and the like have no body. *)
Definition immortals_plain os : Prop := forall x o, os !! x = Some o -> o_immortal o = true -> o_fin o = false.

Lemma armed_insert os p o x : armed (<[p := o]> os) x = if decide (p = x) then o_fin o else armed os x.
Proof. unfold armed. rewrite lookup_insert. by case_decide. Qed.

Lemma armed_none os : (forall x, armed os x = true -> False) -> no_fin os.
Proof. intros Ha x o Hx. destruct (o_fin o) eqn:Hf; [|done]. destruct (Ha x). unfold armed. by rewrite Hx. Qed.

Lemma armed_finv os os' x : finv os' = finv os -> armed os' x = armed os x.
Proof.
  intros Hf. assert (H : finv os' !! x = finv os !! x) by (by rewrite Hf). unfold finv in H. rewrite !lookup_fmap in H.
  unfold armed. by destruct (os' !! x), (os !! x); cbn in H; simplify_eq.
Qed.

Lemma armed_sub os os' x : sub_heap os os' -> armed os' x = true -> armed os x = true.
Proof. unfold armed. intros Hs. destruct (os' !! x) as [o'|] eqn:Hx; [|done]. by destruct (Hs x o' Hx) as (o & -> & _ & -> & _). Qed.

Lemma park_no_fin ps : forall h h', for_all cc_possible_root ps h = Some h' -> no_fin (objs h) -> no_fin (objs h') /\ ctrls h' = ctrls h.
Proof.
  induction ps as [|p ps IH]; intros h h'; cbn [for_all]; [by intros [= <-]|].
  destruct (cc_possible_root h p) as [h1|] eqn:Hr; [|done]. cbn [mbind option_bind]. intros Hrun Hn.
  rewrite <-(possible_root_vals _ _ _ Hr). apply IH; [done|]. clear IH Hrun. revert Hr. unfold cc_possible_root.
  destruct (objs h !! p) as [o|] eqn:Ho; [|done]. cbn. intros [= <-].
  assert (Hn' : no_fin (<[p := set_buf (cc_set_color o CC_PURPLE) true]> (objs h))) by (by apply (no_fin_insert _ _ o)).
  by destruct (o_buf o).
Qed.

Section exit.
Context {HH : Holds} (deinit : Z -> rt -> option rt) (Htidy : deinit_tidy deinit).

Lemma do_deinit_tidy h p h' : beans_do_deinit deinit h p = Some h' ->
  (forall x, armed (objs h') x = true -> armed (objs h) x = true /\ x <> p) /\ (payless (ctrls h) -> payless (ctrls h')).
Proof.
  unfold beans_do_deinit. destruct (objs h !! p) as [o|] eqn:Ho; [|done]. cbn [mbind option_bind]. cbv zeta.
  set (h0 := with_flags _ _ _). destruct (deinit p h0) as [h1|] eqn:Hr; [|done]. cbn [mbind option_bind].
  destruct (objs h1 !! p) as [o1|]; [|done]. cbn [mbind option_bind]. intros [= <-]. destruct (Htidy p h0 h1 Hr) as [Ha Hc].
  split; [|exact Hc]. intros x. cbn [objs with_flags with_objs]. rewrite armed_insert. case_decide as Hx; [done|].
  intros Hax%Ha. unfold h0 in Hax. cbn [objs with_flags with_objs] in Hax. rewrite armed_insert, decide_False in Hax by done.
  split; [done|congruence].
Qed.

Lemma bodies_tidy ps : forall h h',
  for_all (fun h p => o ← objs h !! p; if o_fin o then beans_do_deinit deinit h p else Some h) ps h = Some h' ->
  (forall x, armed (objs h') x = true -> armed (objs h) x = true /\ x ∉ ps) /\ (payless (ctrls h) -> payless (ctrls h')).
Proof.
  induction ps as [|p ps IH]; intros h h'; cbn [for_all].
  { intros [= <-]. split; [|done]. intros x Hx. split; [done|]. apply not_elem_of_nil. }
  destruct (objs h !! p) as [o|] eqn:Ho; [|done]. cbn [mbind option_bind]. destruct (o_fin o) eqn:Hf.
  - destruct (beans_do_deinit deinit h p) as [h1|] eqn:Hr; [|done]. cbn [mbind option_bind]. intros Hrun.
    destruct (do_deinit_tidy h p h1 Hr) as [Ha Hc]. destruct (IH h1 h' Hrun) as [Ha' Hc']. split; [|auto].
    intros x Hx. destruct (Ha' x Hx) as [Hx1 Hn]. destruct (Ha x Hx1) as [Hx0 Hp]. split; [done|].
    by intros [?|?]%elem_of_cons.
  - cbn [mbind option_bind]. intros Hrun. destruct (IH h h' Hrun) as [Ha' Hc']. split; [|done].
    intros x Hx. destruct (Ha' x Hx) as [Hx0 Hn]. split; [done|]. intros [->|?]%elem_of_cons; [|done].
    unfold armed in Hx0. rewrite Ho in Hx0. congruence.
Qed.

(** Nothing outside holds a mortal object: the trial condemns them all. *)
Lemma all_doomed os0 e0 rs dead h x : doomed_inv os0 e0 rs dead h -> (forall y, e0 y = 0) -> mortal os0 x = true -> x ∈ dead.
Proof.
  intros Hdm He0 Hm. destruct (decide (x ∈ dead)) as [|Hx]; [done|]. exfalso.
  destruct (trial_rooted (dm_cov _ _ _ _ _ Hdm) (dm_buf _ _ _ _ _ Hdm) (dm_trial _ _ _ _ _ Hdm) x) as (y & _ & _ & Hy & _);
    [by apply (dm_mortal_alive Hdm)|done|]. rewrite He0 in Hy. lia.
Qed.

(** The bodies of the condemned run, and what is parked and released has none. *)
Lemma doomed_bodies os0 e0 rs dead h f h' : doomed_inv os0 e0 rs dead h -> (forall x, e0 x = 0) ->
  (forall x, e0 x = outside h (fun _ => 0) x) -> immortals_plain os0 -> payless (ctrls h) ->
  cc_run_cycle_deinits deinit f h dead = Some (h', true) -> no_fin (objs h') /\ payless (ctrls h').
Proof.
  intros Hdm He0 Hout Him Hcr. unfold cc_run_cycle_deinits. destruct (any_fin _ _); [|done].
  destruct (dm_restore Hdm (fun _ => 0) Hout) as (os1 & h1 & -> & Hrun2 & _ & _ & Hfv & Hcs & _). cbn [mbind option_bind].
  rewrite Hrun2. cbn [mbind option_bind]. unfold rt_cycle_deinits_finish.
  destruct (for_all _ dead h1) as [h2|] eqn:Hrun3; [|done]. cbn [mbind option_bind].
  destruct (for_all cc_possible_root dead h2) as [h3|] eqn:Hrun4; [|done]. cbn [mbind option_bind].
  destruct (for_all _ dead h3) as [h4|] eqn:Hrun5; [|done]. cbn [mbind option_bind]. intros [= <-].
  destruct (bodies_tidy dead h1 h2 Hrun3) as [Ha2 Hc2]. rewrite Hcs in Hc2.
  assert (Hn2 : no_fin (objs h2)).
  { apply armed_none. intros x [Hx Hd]%Ha2. rewrite (armed_finv os0) in Hx by done. apply Hd. unfold armed in Hx.
    destruct (os0 !! x) as [o|] eqn:Ho; [|done]. apply (all_doomed os0 e0 rs dead h); [done..|]. rewrite (some_mortal _ _ _ Ho).
    destruct (o_immortal o) eqn:Hi; [|done]. rewrite (Him x o Ho Hi) in Hx. done. }
  destruct (park_no_fin dead h2 h3 Hrun4 Hn2) as [Hn3 Hc3]. rewrite <-owed_for_all in Hrun5.
  destruct (owed_vals deinit f dead h3 h4 Hn3 Hrun5) as [Hv Hn4]. split; [done|].
  intros x. apply (cref_sub _ _ Hv). rewrite Hc3. by apply Hc2.
Qed.

(** Without a body the condemned are gone, and they were all there was. *)
Lemma doomed_shells os0 e0 rs dead h h' deferred : doomed_inv os0 e0 rs dead h -> (forall x, e0 x = 0) ->
  (forall x, e0 x = outside h (fun _ => 0) x) -> immortals_plain os0 -> payless (ctrls h) ->
  cc_free_cycle_shells h dead [] = Some (h', deferred) -> no_fin (objs h') /\ payless (ctrls h') /\ deferred = [].
Proof.
  intros Hdm He0 Hout Him Hcr Hrun.
  destruct (dm_free Hdm (fun _ => 0) []) as (h1 & new & Hrun' & Hinv & _ & Hsub & Hal & Hcref & Hb).
  { intros x. rewrite Hout. unfold outside, plus_list. by rewrite occ_nil. }
  rewrite Hrun in Hrun'. injection Hrun' as -> ->.
  assert (Hz : forall x, cref (ctrls h1) x = 0 /\ occ x new = 0).
  { intros x. specialize (Hcref x). rewrite Hcr in Hcref. pose proof (cref_nonneg (ctrls h1) x). pose proof (occ_nonneg x new). lia. }
  split; [|split; [intros x; apply Hz|apply occ_all_zero; intros x; apply Hz]].
  apply armed_none. intros x Hx. pose proof (armed_sub _ _ x Hsub Hx) as Hx0. unfold armed in Hx, Hx0.
  destruct (objs h1 !! x) as [o'|] eqn:Ho'; [|done]. destruct (Hsub x o' Ho') as (o & Ho & Hst & _). rewrite Ho in Hx0.
  apply static_eq in Hst as [_ Hst]. destruct (o_immortal o) eqn:Hi; [by rewrite (Him x o Ho Hi) in Hx0|].
  pose proof (unparked_alive h1 _ x o' Hinv Hb Ho' Hst) as [_ Hd]%Hal. apply Hd.
  apply (all_doomed os0 e0 rs dead h); [done..|]. by rewrite (some_mortal _ _ _ Ho), Hi.
Qed.

Lemma not_taken f h dead h' : cc_run_cycle_deinits deinit f h dead = Some (h', false) -> h' = h.
Proof.
  unfold cc_run_cycle_deinits. destruct (any_fin _ _); [|by intros [= <-]].
  destruct (restore_all _ _); [|done]. cbn [mbind option_bind]. destruct (for_all beans_retain _ _); [|done]. cbn [mbind option_bind].
  by destruct (rt_cycle_deinits_finish deinit _ _ _).
Qed.

(** The rest of a pass after its trial. *)
Lemma doomed_pass os0 e0 rs dead h f h' : doomed_inv os0 e0 rs dead h -> (forall x, e0 x = 0) -> immortals_plain os0 -> payless (ctrls h) ->
  ('(h, taken) ← cc_run_cycle_deinits deinit f h dead;
   '(h, deferred) ← (if taken : bool then Some (h, []) else cc_free_cycle_shells h dead []);
   h ← release_all_owed deinit f h deferred;
   Some (with_flags h false (beans_in_deinit h))) = Some h' -> no_fin (objs h') /\ payless (ctrls h').
Proof.
  intros Hdm He0 Him Hcr. assert (Hout : forall x, e0 x = outside h (fun _ => 0) x) by (intros x; rewrite He0; unfold outside; by rewrite Hcr).
  destruct (cc_run_cycle_deinits deinit f h dead) as [[h5 [|]]|] eqn:Hk; [| |done]; cbn [mbind option_bind].
  - cbn [release_all_owed mbind option_bind]. intros [= <-].
    exact (doomed_bodies _ _ _ _ _ _ _ Hdm He0 Hout Him Hcr Hk).
  - apply not_taken in Hk as ->.
    destruct (cc_free_cycle_shells h dead []) as [[h6 deferred]|] eqn:Hs; [|done]. cbn [mbind option_bind].
    destruct (doomed_shells _ _ _ _ _ _ _ Hdm He0 Hout Him Hcr Hs) as (Hn & Hc & ->).
    cbn [release_all_owed mbind option_bind]. by intros [= <-].
Qed.

(** Nothing outside and nothing parked: no mortal object at all. *)
Lemma nothing_left h x o : rt_inv h (fun _ => 0) -> payless (ctrls h) -> (forall y, bufd (objs h) y = false) ->
  objs h !! x = Some o -> o_immortal o = true.
Proof.
  intros Hinv Hcr Hb Ho. destruct (o_immortal o) eqn:Hi; [done|].
  pose proof (unparked_alive h _ x o Hinv Hb Ho Hi) as Ha.
  by destruct (alive_reachable h _ x Hinv Hb Hcr Ha) as (y & Hy & _).
Qed.

Lemma unparked_plain h : rt_inv h (fun _ => 0) -> payless (ctrls h) -> (forall y, bufd (objs h) y = false) ->
  immortals_plain (objs h) -> no_fin (objs h).
Proof. intros Hinv Hcr Hb Him x o Ho. apply (Him x o Ho). by apply (nothing_left h x o). Qed.

(** What a forced pass leaves when nothing outside holds an object: no body
    to run, and no payload. *)
Lemma exit_pass f h h' : rt_inv h (fun _ => 0) -> cc_collecting h = false -> beans_in_deinit h = 0 ->
  immortals_plain (objs h) -> payless (ctrls h) -> cc_collect deinit f true h = Some h' ->
  no_fin (objs h') /\ payless (ctrls h').
Proof.
  intros Hinv Hcol Hin Him Hcr. unfold cc_collect. rewrite Hcol, Hin. cbn [negb Z.eqb].
  destruct (filter_roots_ok (fun _ => 0) (cc_roots h) (with_flags h true 0) [] []) as
    (h1 & roots & deferred & Hrun1 & Hfi & _ & _ & _ & _ & Hsub1 & new & Hnew & Hcref1).
  { pose proof (filter_start h _ Hinv) as Hs. by rewrite Hin in Hs. }
  cbn [app] in Hnew. subst deferred. change (ctrls (with_flags h true 0)) with (ctrls h) in Hcref1.
  assert (Hz : forall x, cref (ctrls h1) x = 0 /\ occ x new = 0).
  { intros x. specialize (Hcref1 x). rewrite Hcr in Hcref1. pose proof (cref_nonneg (ctrls h1) x). pose proof (occ_nonneg x new). lia. }
  assert (new = []) as -> by (apply occ_all_zero; intros x; apply Hz).
  assert (Him1 : immortals_plain (objs h1)).
  { intros x o' Hx Hi. destruct (Hsub1 x o' Hx) as (o & Ho & Hst & -> & _). apply static_eq in Hst as [_ Hst].
    apply (Him x o Ho). by rewrite <-Hst. }
  assert (Hout0 : forall x, outside h1 (plus_list (fun _ => 0) []) x = 0).
  { intros x. unfold outside, plus_list. rewrite occ_nil, (proj1 (Hz x)). done. }
  change (cc_roots (with_flags h true 0)) with (cc_roots h). rewrite Hrun1. cbn [mbind option_bind]. cbv zeta.
  cbn [orb]. rewrite andb_true_r. destruct (Z.eqb_spec (Z.of_nat (length roots)) 0) as [Hl|Hl]; cbn [negb mbind option_bind].
  - unfold cc_run_cycle_deinits. cbn [any_fin existsb mbind option_bind cc_free_cycle_shells release_all_owed].
    intros [= <-]. split; [|intros x; apply Hz]. destruct roots; [|cbn in Hl; lia].
    apply (unparked_plain (with_roots h1 [] (cc_pending h1))); [exact (filter_rt _ _ _ _ Hfi)|intros x; apply Hz| |done].
    intros y. pose proof (fi_roots _ _ _ _ _ Hfi y) as Hr. cbn in Hr |- *. destruct (bufd (objs h1) y); [|done].
    pose proof (proj2 Hr eq_refl) as Hy. by apply elem_of_nil in Hy.
  - destruct (trial_doomed h1 _ roots [] Hfi) as (os & dead & h3 & Hrun2 & Hinval & Hdm & Hout & _).
    change (objs (with_roots h1 roots (cc_pending h1))) with (objs h1). rewrite Hrun2. cbn [mbind option_bind].
    change (cc_pending (with_roots h1 roots (cc_pending h1))) with (cc_pending h1).
    rewrite Hinval. cbn [mbind option_bind].
    apply (doomed_pass (objs h1) (outside h1 (plus_list (fun _ => 0) [])) roots dead); [by do 2 apply doomed_gates|done..|].
    intros x. specialize (Hout x). rewrite Hout0 in Hout. unfold outside, plus_list in Hout. rewrite occ_nil in Hout. cbn. lia.
Qed.
End exit.

(** * A small program

    Two nodes are allocated, linked into a cycle, given a weak handle and let
    go; the witnesses of the heap's theorems run on its states. *)

(** An allocator that takes the next free multiple of 16. *)
Definition next_free {B : Type} (m : gmap Z B) : Z := 16 * (1 + foldr Z.max 0 (map_to_list m).*1).

Lemma foldr_max (l : list Z) x : x ∈ l -> x <= foldr Z.max 0 l.
Proof. induction l as [|y l IH]; [by intros ?%elem_of_nil|]. intros [->|Hx]%elem_of_cons; cbn; [lia|]. specialize (IH Hx). lia. Qed.

Lemma foldr_max_nonneg (l : list Z) : 0 <= foldr Z.max 0 l.
Proof. induction l as [|y l IH]; cbn; lia. Qed.

Lemma next_free_fresh {B : Type} (m : gmap Z B) : m !! next_free m = None /\ next_free m <> 0.
Proof.
  pose proof (foldr_max_nonneg (map_to_list m).*1). split; [|unfold next_free; lia].
  destruct (m !! next_free m) as [b|] eqn:Hb; [|done]. exfalso.
  assert (Hin : next_free m ∈ (map_to_list m).*1).
  { apply list_elem_of_fmap. exists (next_free m, b). split; [done|]. by apply elem_of_map_to_list. }
  apply foldr_max in Hin. unfold next_free in Hin. lia.
Qed.

Lemma next_free_ctrl (m : gmap Z BSharedCtrl) : m !! next_free m = None.
Proof. apply next_free_fresh. Qed.

#[export] Instance bump : Allocator := {|
  new_block := next_free; new_ctrl := next_free; new_block_fresh := next_free_fresh; new_ctrl_fresh := next_free_ctrl
|}.

(** A body that does nothing. *)
Definition quiet : Z -> rt -> option rt := fun _ h => Some h.

Lemma quiet_ok (H : Holds) : deinit_ok quiet.
Proof.
  intros h e p He Hinv Ha Hp. exists h. split; [done|]. split; [done|]. split; [|done].
  intros x Hx _. by apply alive_mortal.
Qed.

(** A class object of two words, the second a pointer. *)
Definition word_pay (next : Z) : payload := PFixed (replicate 8 0 ++ rt_store_le next 8) None.
Definition node (fin : bool) (next : Z) : obj := mkObj 1 fin false (1 |! (2 <<! 3)) CC_BLACK false (word_pay next).

Definition after {R : Type} (r : option (rt * R)) : rt := match r with Some (h, _) => h | None => start end.
Definition after' (r : option rt) : rt := match r with Some h => h | None => start end.

Definition h1 : rt := Eval vm_compute in after (beans_alloc quiet 9 start (node false 0)).
Definition e1 : Z -> Z := plus_list (minus_list (fun _ => 0) []) [16].
Definition h2 : rt := Eval vm_compute in after (beans_alloc quiet 9 h1 (node false 16)).
Definition e2 : Z -> Z := plus_list (minus_list e1 [16]) [272].
Definition h3 : rt := Eval vm_compute in after' (beans_retain h2 272).
Definition e3 : Z -> Z := plus_list e2 [272].
Definition h4 : rt := with_objs h3 (<[16 := set_pay (node false 0) (word_pay 272)]> (objs h3)).
Definition e4 (x : Z) : Z := e3 x + occ x [] - occ x [272].
Definition h5 : rt := Eval vm_compute in after (beans_object_weak_new quiet 9 h4 272).
Definition e5 : Z -> Z := plus_list e4 [4368].

Lemma demo_walk : cc_walk (node false 0) = [] /\ cc_walk (node false 16) = [16] /\
  cc_walk (set_pay (node false 0) (word_pay 272)) = [272].
Proof. by vm_compute. Qed.

(** The cycle 16 <-> 272, held once by the program, and the handle 4368. *)
Lemma linked_ok : state_ok (h5, e5).
Proof.
  destruct demo_walk as (Hw0 & Hw16 & Hw272).
  apply (steps_ok quiet quiet_ok (start, fun _ => 0)); [apply start_ok|].
  apply (rtc_l _ _ (h1, e1)).
  { apply (step_alloc quiet 9 start _ (node false 0)); [by split|done|by rewrite Hw0|by vm_compute]. }
  apply (rtc_l _ _ (h2, e2)).
  { apply (step_alloc quiet 9 h1 e1 (node false 16)); [by split|done| |by vm_compute].
    intros x. rewrite Hw16. unfold e1, plus_list, minus_list.
    rewrite !occ_cons, !occ_nil. case_decide; lia. }
  apply (rtc_l _ _ (h3, e3)).
  { apply step_retain; [|by vm_compute]. exists 272. split; [done|]. split; [by vm_compute|done]. }
  apply (rtc_l _ _ (h4, e4)).
  { apply (step_store quiet h3 e3 16 (node false 0) (word_pay 272) e4); try done.
    - intros x. rewrite Hw0, Hw272.
      unfold e3, e2, plus_list. rewrite !occ_cons, !occ_nil. unfold minus_list, e1, plus_list, minus_list.
      rewrite !occ_cons, !occ_nil. repeat case_decide; lia.
    - intros c. rewrite Hw272. intros ->%list_elem_of_singleton. by eexists.
    - exists 272. split; [done|]. split; [by vm_compute|]. apply rtc_once. split; [by vm_compute|].
      apply list_elem_of_In. left. by vm_compute. }
  apply rtc_once. apply (step_weak_new quiet 9 h4 e4 272); [done|by vm_compute].
Qed.

Definition h6 : rt := Eval vm_compute in after' (beans_release quiet 9 h5 272).
Definition e6 : Z -> Z := minus_list e5 [272].

(** The cycle let go: it counts one and one and is parked. *)
Lemma parked_ok : state_ok (h6, e6).
Proof.
  apply (step_ok quiet quiet_ok (h5, e5)); [apply linked_ok|].
  apply (step_release quiet 9 h5 e5 272); [done|by vm_compute].
Qed.

Definition h7 : rt := Eval vm_compute in after' (beans_release quiet 9 h6 4368).
Definition e7 : Z -> Z := minus_list e6 [4368].

(** The handle let go too. *)
Lemma dropped_ok : state_ok (h7, e7).
Proof.
  apply (step_ok quiet quiet_ok (h6, e6)); [apply parked_ok|].
  apply (step_release quiet 9 h6 e6 4368); [done|by vm_compute].
Qed.

Lemma e7_zero x : e7 x = 0.
Proof.
  unfold e7, e6, e5, e4, e3, e2, e1, minus_list, plus_list. rewrite !occ_cons, !occ_nil. repeat case_decide; lia.
Qed.

Lemma cref_weak : (forall x, cref (ctrls h5) x = 0) /\ (forall x, cref (ctrls h6) x = 0) /\ (forall x, cref (ctrls h7) x = 0).
Proof. split_and!; intros x; by vm_compute. Qed.

(** A shared value without a payload. *)
Definition hs : rt := Eval vm_compute in after (beans_shared_new quiet 9 start 0 0).
Definition es : Z -> Z := plus_list (minus_list (fun _ => 0) []) [16].

Lemma shared_ok : state_ok (hs, es).
Proof.
  apply (step_ok quiet quiet_ok (start, fun _ => 0)); [apply start_ok|].
  apply (step_shared_new quiet 9 start (fun _ => 0) 0 0); [done|by vm_compute].
Qed.

Lemma quiet_tidy : deinit_tidy quiet.
Proof. intros p h h' [= <-]. done. Qed.

(** The dropped cycle with a body on each node. *)
Definition arm (h : rt) (x : Z) : rt :=
  match objs h !! x with Some o => with_objs h (<[x := set_fin o true]> (objs h)) | None => h end.
Definition h8 : rt := Eval vm_compute in arm (arm h7 16) 272.

Lemma armed_ok : state_ok (h8, fun _ => 0).
Proof.
  split; [done|]. cbn [fst snd].
  assert (Harm : forall h x, rt_inv h (fun _ => 0) -> rt_inv (arm h x) (fun _ => 0)).
  { intros h x Hinv. unfold arm. destruct (objs h !! x) as [o|] eqn:Ho; [|done]. by apply (fin_inv h _ x o). }
  change h8 with (arm (arm h7 16) 272). do 2 apply Harm.
  destruct dropped_ok as [_ Hinv]. apply (rt_inv_ext _ e7); [apply e7_zero|done].
Qed.

Lemma armed_plain : immortals_plain (objs h8).
Proof.
  change (map_Forall (fun _ o => o_immortal o = true -> o_fin o = false) (objs h8)).
  apply (bool_decide_eq_true_1 _). vm_compute. reflexivity.
Qed.
