(* ===== verification/WeakTable.v ===== *)
(** * WeakTable: the side table of control blocks

    [runtime/beans_rt.c], the open-addressing table from objects to the
    control blocks of their weak handles: probing, growth at three quarters,
    and deletion by taking the rest of the cluster out and putting it back.
    A cell is the pair of an object and its block; the object 0 marks an empty
    cell.  Probing loops run on the table's capacity as fuel: the proofs
    show a table always has an empty cell. *)

From stdpp Require Import gmap.
From S2P Require Import Prelude.

Open Scope c_scope.

Record weak_table : Type := mkWeak { weak_cells : list (Z * Z); weak_cap : Z; weak_len : Z }.

Definition weak_empty : weak_table := mkWeak [] 0 0.

Definition weak_slot_for (obj cap : Z) : Z :=
  let h := u64 obj in
  let h := h ^! (h >>! 33) in
  let h := h *! 0xff51afd7ed558ccd in
  let h := h ^! (h >>! 33) in
  h &! (cap - 1).

Definition cell_obj (cells : list (Z * Z)) (at_ : Z) : Z :=
  match cells !! Z.to_nat at_ with Some (k, _) => k | None => 0 end.

Definition weak_next (at_ cap : Z) : Z := (at_ + 1) &! (cap - 1).

(** The loop [while (cells[at].obj && cells[at].obj != obj)]; placing an entry
    passes the object 0, which stops at an empty cell only. *)
Fixpoint weak_probe (fuel : nat) (cells : list (Z * Z)) (cap obj at_ : Z) : option Z :=
  match fuel with
  | O => None
  | S fuel =>
      if cell_obj cells at_ =? 0 then Some at_
      else if cell_obj cells at_ =? obj then Some at_
      else weak_probe fuel cells cap obj (weak_next at_ cap)
  end.

Definition weak_place (cells : list (Z * Z)) (cap : Z) (cell : Z * Z) : option (list (Z * Z)) :=
  at_ ← weak_probe (Z.to_nat cap) cells cap 0 (weak_slot_for cell.1 cap);
  Some (<[Z.to_nat at_ := cell]> cells).

Fixpoint grow_loop (old cells : list (Z * Z)) (cap : Z) : option (list (Z * Z)) :=
  match old with
  | [] => Some cells
  | cell :: old =>
      if cell.1 =? 0 then grow_loop old cells cap
      else cells ← weak_place cells cap cell; grow_loop old cells cap
  end.

Definition weak_table_grow (t : weak_table) : option weak_table :=
  let cap := if weak_cap t =? 0 then 64 else weak_cap t * 2 in
  cells ← grow_loop (weak_cells t) (replicate (Z.to_nat cap) (0, 0)) cap;
  Some (mkWeak cells cap (weak_len t)).

(** The block of [obj]; [fresh] is the new block for an object that has none,
    and the flag says it was used. *)
Definition weak_table_find (t : weak_table) (obj fresh : Z) : option (weak_table * Z * bool) :=
  t ← (if (weak_cap t =? 0) || (weak_cap t * 3 <=? weak_len t * 4) then weak_table_grow t else Some t);
  at_ ← weak_probe (Z.to_nat (weak_cap t)) (weak_cells t) (weak_cap t) obj (weak_slot_for obj (weak_cap t));
  cell ← weak_cells t !! Z.to_nat at_;
  Some (if cell.1 =? 0
        then (mkWeak (<[Z.to_nat at_ := (obj, fresh)]> (weak_cells t)) (weak_cap t) (weak_len t + 1), fresh, true)
        else (t, cell.2, false)).

(** The rest of the cluster is taken out cell by cell and placed again. *)
Fixpoint remove_loop (fuel : nat) (cells : list (Z * Z)) (cap next : Z) : option (list (Z * Z)) :=
  match fuel with
  | O => None
  | S fuel =>
      cell ← cells !! Z.to_nat next;
      if cell.1 =? 0 then Some cells
      else
        cells ← weak_place (<[Z.to_nat next := (0, 0)]> cells) cap cell;
        remove_loop fuel cells cap (weak_next next cap)
  end.

Definition weak_table_remove (t : weak_table) (at_ : Z) : option weak_table :=
  cells ← remove_loop (Z.to_nat (weak_cap t)) (<[Z.to_nat at_ := (0, 0)]> (weak_cells t)) (weak_cap t) (weak_next at_ (weak_cap t));
  Some (mkWeak cells (weak_cap t) (weak_len t - 1)).

(** The table's part of [rt_weak_invalidate]: the dying object's block. *)
Definition weak_table_take (t : weak_table) (obj : Z) : option (weak_table * option Z) :=
  if weak_len t =? 0 then Some (t, None)
  else if weak_cap t =? 0 then Some (t, None)
  else
    at_ ← weak_probe (Z.to_nat (weak_cap t)) (weak_cells t) (weak_cap t) obj (weak_slot_for obj (weak_cap t));
    cell ← weak_cells t !! Z.to_nat at_;
    if cell.1 =? 0 then Some (t, None)
    else t ← weak_table_remove t at_; Some (t, Some cell.2).

(** * The weak table is a finite map

    Probing from an object's home cell meets no empty cell before the object
    ([reach]).  Deletion keeps that: while the rest of the cluster is placed
    again, the objects already placed are reachable and those behind the
    cluster never were at risk. *)

Implicit Types (cells : list (Z * Z)).

Definition wfull cells : Z := Z.of_nat (length (List.filter (fun c => negb (c.1 =? 0)) cells)).

Lemma wfull_cons c cells : wfull (c :: cells) = (if c.1 =? 0 then 0 else 1) + wfull cells.
Proof. unfold wfull. cbn [List.filter]. destruct (c.1 =? 0); cbn [negb length]; lia. Qed.

Lemma wfull_replicate n : wfull (replicate n (0, 0)) = 0.
Proof. induction n as [|n IH]; [done|]. cbn [replicate]. rewrite wfull_cons, IH. done. Qed.

Lemma wfull_insert cells i c c' : cells !! i = Some c ->
  wfull (<[i := c']> cells) = wfull cells - (if c.1 =? 0 then 0 else 1) + (if c'.1 =? 0 then 0 else 1).
Proof.
  revert i. induction cells as [|x cells IH]; intros i Hi; [done|]. destruct i as [|i]; cbn [lookup list_lookup] in Hi.
  - injection Hi as ->. change (<[0%nat := c']> (c :: cells)) with (c' :: cells). rewrite !wfull_cons. lia.
  - change (<[S i := c']> (x :: cells)) with (x :: <[i := c']> cells). rewrite !wfull_cons, (IH i) by done. lia.
Qed.

Lemma wfull_all cells : (forall i c, cells !! i = Some c -> c.1 <> 0) -> wfull cells = Z.of_nat (length cells).
Proof.
  induction cells as [|c cells IH]; [done|]. intros Hall. rewrite wfull_cons, IH by (intros i d Hd; by apply (Hall (S i))).
  rewrite (proj2 (Z.eqb_neq _ 0) (Hall O c eq_refl)). cbn [length]. lia.
Qed.

Section table.
Context (cap : Z) (Hcap : 0 < cap) (Hmask : forall x, x &! (cap - 1) = x mod cap).

Definition pos (s j : Z) : Z := (s + j) mod cap.
Definition dist (s i : Z) : Z := (i - s) mod cap.

Lemma pos_range s j : 0 <= pos s j < cap.
Proof. apply Z.mod_pos_bound. done. Qed.

Lemma dist_range s i : 0 <= dist s i < cap.
Proof. apply Z.mod_pos_bound. done. Qed.

Lemma pos_dist s i : 0 <= i < cap -> pos s (dist s i) = i.
Proof.
  intros Hi. unfold pos, dist. rewrite Zplus_mod_idemp_r. replace (s + (i - s)) with i by lia. by apply Z.mod_small.
Qed.

Lemma dist_pos s j : 0 <= j < cap -> dist s (pos s j) = j.
Proof.
  intros Hj. unfold pos, dist. rewrite Zminus_mod_idemp_l. replace (s + j - s) with j by lia. by apply Z.mod_small.
Qed.

Lemma pos_inj s j j' : 0 <= j < cap -> 0 <= j' < cap -> pos s j = pos s j' -> j = j'.
Proof. intros Hj Hj' He. rewrite <-(dist_pos s j), <-(dist_pos s j') by done. by rewrite He. Qed.

Lemma next_pos s j : weak_next (pos s j) cap = pos s (j + 1).
Proof. unfold weak_next, pos. rewrite Hmask, Zplus_mod_idemp_l. f_equal. lia. Qed.

Lemma slot_range k : 0 <= weak_slot_for k cap < cap.
Proof. unfold weak_slot_for. rewrite Hmask. apply Z.mod_pos_bound. done. Qed.

Lemma pos_0 s : 0 <= s < cap -> pos s 0 = s.
Proof. intros Hs. unfold pos. rewrite Z.add_0_r. by apply Z.mod_small. Qed.

(** Seen from another cell. *)
Lemma pos_rel a s j : 0 <= s < cap -> pos s j = pos a (dist a s + j).
Proof.
  intros Hs. rewrite <-(pos_dist a s) at 1 by done. unfold pos. rewrite Zplus_mod_idemp_l. f_equal. lia.
Qed.

Lemma pos_wrap a j : pos a (j + cap) = pos a j.
Proof. unfold pos. replace (a + (j + cap)) with (a + j + 1 * cap) by lia. apply Z_mod_plus_full. Qed.

Lemma dist_rel a s i : 0 <= s < cap -> 0 <= i < cap ->
  dist s i = (if dist a s <=? dist a i then dist a i - dist a s else dist a i - dist a s + cap).
Proof.
  intros Hs Hi. pose proof (dist_range a s). pose proof (dist_range a i).
  assert (He : dist s i = (dist a i - dist a s) mod cap).
  { unfold dist. rewrite Zminus_mod_idemp_l, Zminus_mod_idemp_r. f_equal. lia. }
  rewrite He. destruct (Z.leb_spec (dist a s) (dist a i)); [apply Z.mod_small; lia|].
  rewrite <-(Z_mod_plus_full _ 1). rewrite Z.mod_small; lia.
Qed.

(** ** Cells *)

Definition reach cells (s i : Z) : Prop := forall j, 0 <= j < dist s i -> cell_obj cells (pos s j) <> 0.

Definition has cells (k c : Z) : Prop := exists i, 0 <= i < cap /\ cells !! Z.to_nat i = Some (k, c).

Record table_ok cells : Prop := {
  to_length : Z.of_nat (length cells) = cap;
  to_reach : forall i, 0 <= i < cap -> cell_obj cells i <> 0 -> reach cells (weak_slot_for (cell_obj cells i) cap) i;
  to_unique : forall i j, 0 <= i < cap -> 0 <= j < cap -> cell_obj cells i <> 0 -> cell_obj cells i = cell_obj cells j -> i = j
}.

Lemma cell_lookup cells i : Z.of_nat (length cells) = cap -> 0 <= i < cap -> exists c, cells !! Z.to_nat i = Some (cell_obj cells i, c).
Proof.
  intros Hl Hi. destruct (lookup_lt_is_Some_2 cells (Z.to_nat i)) as [[k c] Hc]; [lia|].
  exists c. unfold cell_obj. by rewrite Hc.
Qed.

Lemma cell_insert cells i c j : Z.of_nat (length cells) = cap -> 0 <= i < cap -> 0 <= j < cap ->
  cell_obj (<[Z.to_nat i := c]> cells) j = if decide (i = j) then c.1 else cell_obj cells j.
Proof.
  intros Hl Hi Hj. unfold cell_obj. case_decide as Hij.
  - subst. rewrite list_lookup_insert_eq by lia. by destruct c.
  - rewrite list_lookup_insert_ne by lia. done.
Qed.

Lemma has_obj cells k c : has cells k c -> exists i, 0 <= i < cap /\ cell_obj cells i = k.
Proof. intros (i & Hi & Hc). exists i. unfold cell_obj. by rewrite Hc. Qed.

Lemma obj_has cells i : Z.of_nat (length cells) = cap -> 0 <= i < cap -> exists c, has cells (cell_obj cells i) c.
Proof. intros Hl Hi. destruct (cell_lookup cells i Hl Hi) as [c Hc]. exists c, i. done. Qed.

Lemma has_insert cells i c0 cell k c : Z.of_nat (length cells) = cap -> 0 <= i < cap -> cells !! Z.to_nat i = Some c0 ->
  (forall j, 0 <= j < cap -> cell_obj cells j = k -> k <> 0 -> c0.1 = k -> j = i) -> k <> 0 ->
  has (<[Z.to_nat i := cell]> cells) k c <-> cell = (k, c) \/ has cells k c /\ c0.1 <> k.
Proof.
  intros Hl Hi Hc0 Hu Hk. split.
  - intros (j & Hj & Hc). destruct (decide (i = j)) as [<-|Hij].
    + rewrite list_lookup_insert_eq in Hc by lia. left. by injection Hc.
    + rewrite list_lookup_insert_ne in Hc by lia. right. split; [by exists j|]. intros He. apply Hij. symmetry. apply Hu; try done.
      unfold cell_obj. by rewrite Hc.
  - intros [->|[(j & Hj & Hc) Hne]].
    + exists i. split; [done|]. by rewrite list_lookup_insert_eq by lia.
    + exists j. split; [done|]. rewrite list_lookup_insert_ne; [done|]. intros Hij. rewrite Hij in Hc0. rewrite Hc in Hc0. injection Hc0 as <-. done.
Qed.

(** ** Probing *)

Definition has_empty cells : Prop := exists i, 0 <= i < cap /\ cell_obj cells i = 0.

Lemma probe_spec cells obj s : has_empty cells -> 0 <= s < cap -> forall fuel d, (Z.to_nat (cap - d) <= fuel)%nat -> 0 <= d ->
  (forall j, 0 <= j < d -> cell_obj cells (pos s j) <> 0 /\ cell_obj cells (pos s j) <> obj) ->
  exists d', d <= d' < cap /\ weak_probe fuel cells cap obj (pos s d) = Some (pos s d') /\
    (forall j, 0 <= j < d' -> cell_obj cells (pos s j) <> 0 /\ cell_obj cells (pos s j) <> obj) /\
    (cell_obj cells (pos s d') = 0 \/ cell_obj cells (pos s d') = obj).
Proof.
  intros (e & He & Hempty) Hs. induction fuel as [|fuel IH]; intros d Hf Hd Hbefore.
  - exfalso. assert (cap <= d) by lia. pose proof (dist_range s e). destruct (Hbefore (dist s e)) as [Hne _]; [lia|].
    by rewrite pos_dist in Hne.
  - cbn [weak_probe].
    assert (Hlt : d < cap).
    { destruct (decide (d < cap)) as [|Hn]; [done|]. pose proof (dist_range s e). destruct (Hbefore (dist s e)) as [Hne _]; [lia|].
      by rewrite pos_dist in Hne. }
    destruct (Z.eqb_spec (cell_obj cells (pos s d)) 0) as [Hz|Hz]; [exists d; split_and!; auto; lia|].
    destruct (Z.eqb_spec (cell_obj cells (pos s d)) obj) as [Ho|Ho]; [exists d; split_and!; auto; lia|].
    rewrite next_pos. destruct (IH (d + 1)) as (d' & Hd' & Hrun & Hrest); [lia|lia| |].
    + intros j Hj. destruct (decide (j = d)) as [->|]; [done|]. apply Hbefore. lia.
    + exists d'. split; [lia|done].
Qed.

(** An object in the table is found; one that is not gives an empty cell. *)
Lemma probe_find cells obj : table_ok cells -> has_empty cells -> obj <> 0 ->
  exists i, 0 <= i < cap /\ weak_probe (Z.to_nat cap) cells cap obj (weak_slot_for obj cap) = Some i /\
    reach cells (weak_slot_for obj cap) i /\
    (cell_obj cells i = obj \/ cell_obj cells i = 0 /\ forall j, 0 <= j < cap -> cell_obj cells j <> obj).
Proof.
  intros Hok He Hobj. pose proof (slot_range obj) as Hs. set (s := weak_slot_for obj cap) in *.
  destruct (probe_spec cells obj s He Hs (Z.to_nat cap) 0) as (d & Hd & Hrun & Hbefore & Hstop); [lia|lia|intros j; lia|].
  rewrite pos_0 in Hrun by done. exists (pos s d). split; [apply pos_range|]. split; [done|]. split.
  { intros j Hj. rewrite dist_pos in Hj by lia. by apply Hbefore. }
  destruct (decide (cell_obj cells (pos s d) = obj)) as [|Hne]; [by left|right]. split; [by destruct Hstop|].
  intros i Hi Hk. pose proof (to_reach _ Hok i Hi ltac:(lia)) as Hr. rewrite Hk in Hr. fold s in Hr.
  pose proof (dist_range s i). destruct (decide (d < dist s i)) as [Hlt|Hge].
  - specialize (Hr d ltac:(lia)). destruct Hstop; done.
  - destruct (decide (d = dist s i)) as [->|Hne'].
    + rewrite pos_dist in Hne by done. done.
    + destruct (Hbefore (dist s i)) as [_ Hb]; [lia|]. by rewrite pos_dist in Hb.
Qed.

(** ** Placing *)

(** The first empty cell from the home of [k]. *)
Lemma place_spec cells k c : Z.of_nat (length cells) = cap -> has_empty cells ->
  exists q, 0 <= q < cap /\ weak_place cells cap (k, c) = Some (<[Z.to_nat q := (k, c)]> cells) /\
    cell_obj cells q = 0 /\ reach cells (weak_slot_for k cap) q.
Proof.
  intros Hl He. pose proof (slot_range k) as Hs. set (s := weak_slot_for k cap) in *.
  destruct (probe_spec cells 0 s He Hs (Z.to_nat cap) 0) as (d & Hd & Hrun & Hbefore & Hstop); [lia|lia|intros j; lia|].
  rewrite pos_0 in Hrun by done. exists (pos s d). split; [apply pos_range|]. split; [|split].
  - unfold weak_place. cbn [fst]. fold s. by rewrite Hrun.
  - by destruct Hstop.
  - intros j Hj. rewrite dist_pos in Hj by lia. by apply Hbefore.
Qed.

(** Filling an empty cell harms no path. *)
Lemma reach_fill cells q cell s i : Z.of_nat (length cells) = cap -> 0 <= q < cap -> cell.1 <> 0 ->
  reach cells s i -> reach (<[Z.to_nat q := cell]> cells) s i.
Proof.
  intros Hl Hq Hc Hr j Hj. rewrite cell_insert by (done || apply pos_range). case_decide; [done|]. by apply Hr.
Qed.

Lemma place_ok cells k c q : table_ok cells -> 0 <= q < cap -> cell_obj cells q = 0 -> reach cells (weak_slot_for k cap) q -> k <> 0 ->
  (forall j, 0 <= j < cap -> cell_obj cells j <> k) ->
  table_ok (<[Z.to_nat q := (k, c)]> cells) /\ wfull (<[Z.to_nat q := (k, c)]> cells) = wfull cells + 1 /\
  forall k' c', k' <> 0 -> has (<[Z.to_nat q := (k, c)]> cells) k' c' <-> k' = k /\ c' = c \/ has cells k' c'.
Proof.
  intros [Hl Hr Hu] Hq Hz Hreach Hk Hnew. split; [split|split].
  - by rewrite length_insert.
  - intros i Hi. rewrite cell_insert by done. case_decide as Hqi; cbn [fst]; intros Hne; apply reach_fill; try done; [by subst|by apply Hr].
  - intros i j Hi Hj. rewrite !cell_insert by done. repeat case_decide; cbn [fst]; subst; try done.
    + intros _ He. by destruct (Hnew j Hj).
    + intros _ He. by destruct (Hnew i Hi).
    + by apply Hu.
  - destruct (cell_lookup cells q Hl Hq) as [c0 Hc0]. rewrite (wfull_insert _ _ _ _ Hc0). cbn [fst]. rewrite Hz.
    rewrite (proj2 (Z.eqb_neq k 0) Hk). cbn. lia.
  - intros k' c' Hk'. destruct (cell_lookup cells q Hl Hq) as [c0 Hc0].
    rewrite (has_insert cells q _ (k, c) k' c' Hl Hq Hc0); [|cbn [fst]; rewrite Hz; intros; congruence|done].
    cbn [fst]. rewrite Hz. split.
    + intros [[= -> ->]|[Hh _]]; auto.
    + intros [[-> ->]|Hh]; auto.
Qed.

(** ** Removing *)

Section remove.
Context {cells0 : list (Z * Z)} {a M : Z} (Hok : table_ok cells0) (Ha : 0 <= a < cap).
Context (HM : 1 <= M < cap) (HMz : cell_obj cells0 (pos a M) = 0) (Hcluster : forall j, 1 <= j < M -> cell_obj cells0 (pos a j) <> 0).

(** A path that ends before the first empty cell behind [a] does not cross
    it, and one that ends behind it starts behind it. *)
Lemma path_before cells s i : cell_obj cells (pos a M) = 0 -> 0 <= s < cap -> 0 <= i < cap -> reach cells s i -> dist a i <= M ->
  dist a s <= dist a i \/ M < dist a s.
Proof.
  intros Hz Hs Hi Hr Hle. destruct (decide (dist a s <= dist a i)) as [|Hn]; [by left|]. right.
  destruct (decide (M < dist a s)) as [|Hn']; [done|]. exfalso.
  apply (Hr (M - dist a s)); [|rewrite (pos_rel a) by done; by replace (dist a s + (M - dist a s)) with M by lia].
  rewrite (dist_rel a s i) by done. destruct (Z.leb_spec (dist a s) (dist a i)); [lia|]. pose proof (dist_range a i). lia.
Qed.

Lemma path_behind cells s i : cell_obj cells (pos a M) = 0 -> 0 <= s < cap -> 0 <= i < cap -> reach cells s i -> M < dist a i ->
  M < dist a s <= dist a i.
Proof.
  intros Hz Hs Hi Hr Hlt. pose proof (dist_range a i). pose proof (dist_range a s).
  pose proof (dist_rel a s i Hs Hi) as Hd. destruct (Z.leb_spec (dist a s) (dist a i)).
  - split; [|done]. destruct (decide (M < dist a s)) as [|Hn]; [done|]. exfalso.
    apply (Hr (M - dist a s)); [lia|]. rewrite (pos_rel a) by done. by replace (dist a s + (M - dist a s)) with M by lia.
  - exfalso. apply (Hr (M - dist a s + cap)); [lia|]. rewrite (pos_rel a) by done.
    replace (dist a s + (M - dist a s + cap)) with (M + cap) by lia. by rewrite pos_wrap.
Qed.

Record removing (n : Z) (T : list (Z * Z)) : Prop := {
  rm_length : Z.of_nat (length T) = cap;
  rm_same : forall j, n <= j < cap -> T !! Z.to_nat (pos a j) = cells0 !! Z.to_nat (pos a j);
  rm_has : forall k c, k <> 0 -> has T k c <-> has cells0 k c /\ k <> cell_obj cells0 a;
  rm_unique : forall i j, 0 <= i < cap -> 0 <= j < cap -> cell_obj T i <> 0 -> cell_obj T i = cell_obj T j -> i = j;
  rm_reach : forall i, 0 <= i < cap -> dist a i < n -> cell_obj T i <> 0 -> reach T (weak_slot_for (cell_obj T i) cap) i;
  rm_count : wfull T = wfull cells0 - 1
}.

Lemma rm_obj n T j : removing n T -> n <= j < cap -> cell_obj T (pos a j) = cell_obj cells0 (pos a j).
Proof. intros Hrm Hj. unfold cell_obj. by rewrite (rm_same _ _ Hrm j Hj). Qed.

Lemma dist_self : dist a a = 0.
Proof. unfold dist. rewrite Z.sub_diag. by apply Z.mod_small. Qed.

Lemma removing_start : cell_obj cells0 a <> 0 -> removing 1 (<[Z.to_nat a := (0, 0)]> cells0).
Proof.
  intros Hk. destruct Hok as [Hl Hr Hu]. destruct (cell_lookup cells0 a Hl Ha) as [c0 Hc0]. split.
  - by rewrite length_insert.
  - intros j Hj. rewrite list_lookup_insert_ne; [done|]. pose proof (pos_range a j).
    intros He. assert (Hpa : pos a j = a) by lia. pose proof (dist_pos a j ltac:(lia)) as Hd. rewrite Hpa, dist_self in Hd. lia.
  - intros k c Hk'. rewrite (has_insert cells0 a _ (0, 0) k c Hl Ha Hc0); [|intros j Hj <- Hne Hcc; cbn [fst] in Hcc; symmetry; by apply Hu|done].
    cbn [fst]. split; [intros [[= <- <-]|[? ?]]; [done|split; [done|congruence]]|intros [? ?]; right; split; [done|congruence]].
  - intros i j Hi Hj. rewrite !cell_insert by done. repeat case_decide; cbn [fst]; subst; try done; by apply Hu.
  - intros i Hi Hd. assert (Hd0 : dist a i = 0) by (pose proof (dist_range a i); lia).
    assert (i = a) as ->. { rewrite <-(pos_dist a i), Hd0 by done. by apply pos_0. }
    rewrite cell_insert, decide_True by done. done.
  - rewrite (wfull_insert _ _ _ _ Hc0). cbn [fst]. rewrite (proj2 (Z.eqb_neq _ 0) Hk). cbn. lia.
Qed.

(** One cell of the cluster taken out and placed again. *)
Lemma removing_step n T : 1 <= n < M -> removing n T -> exists c T',
  T !! Z.to_nat (pos a n) = Some (cell_obj T (pos a n), c) /\ cell_obj T (pos a n) <> 0 /\
  weak_place (<[Z.to_nat (pos a n) := (0, 0)]> T) cap (cell_obj T (pos a n), c) = Some T' /\ removing (n + 1) T'.
Proof.
  intros Hn Hrm. pose proof (rm_length _ _ Hrm) as Hl. pose proof (pos_range a n) as Hp.
  set (p := pos a n) in *. set (k := cell_obj T p) in *.
  destruct (cell_lookup T p Hl Hp) as [c Hc]. fold k in Hc.
  assert (Hk0 : k = cell_obj cells0 p) by (apply (rm_obj n T n Hrm); lia).
  assert (Hk : k <> 0) by (rewrite Hk0; apply Hcluster; lia).
  set (T1 := <[Z.to_nat p := (0, 0)]> T).
  assert (Hl1 : Z.of_nat (length T1) = cap) by (unfold T1; by rewrite length_insert).
  assert (HT1p : cell_obj T1 p = 0) by (unfold T1; by rewrite cell_insert, decide_True).
  assert (HTM : cell_obj T (pos a M) = 0) by (rewrite (rm_obj n T M Hrm); [done|lia]).
  destruct (place_spec T1 k c Hl1) as (q & Hq & Hrun & Hqz & Hqr); [by exists p|].
  pose proof (slot_range k) as Hs. set (s := weak_slot_for k cap) in *.
  assert (Hdp : dist a p = n) by (apply dist_pos; lia).
  assert (Hr0 : reach cells0 s p) by (unfold s; rewrite Hk0; apply (to_reach _ Hok); [done|congruence]).
  assert (Hqn : dist a q <= n).
  { pose proof (path_before cells0 s p HMz Hs Hp Hr0 ltac:(lia)) as Hcase. rewrite Hdp in Hcase.
    pose proof (dist_rel a s p Hs Hp) as Hdsp. rewrite Hdp in Hdsp. pose proof (dist_range a s). pose proof (dist_range s q).
    assert (Hle : dist s q <= dist s p).
    { destruct (decide (dist s q <= dist s p)) as [|Hgt]; [done|]. exfalso. pose proof (dist_range s p).
      apply (Hqr (dist s p)); [lia|]. by rewrite pos_dist. }
    rewrite <-(pos_dist s q), (pos_rel a s) by done. destruct Hcase as [Hcase|Hcase].
    - rewrite (proj2 (Z.leb_le _ _) Hcase) in Hdsp. rewrite dist_pos; lia.
    - destruct (Z.leb_spec (dist a s) n); [lia|]. destruct (decide (dist a s + dist s q < cap)) as [Hlt|Hge].
      + exfalso. apply (Hr0 (dist s q)); [lia|]. rewrite (pos_rel a s) by done.
        rewrite <-(rm_obj n T _ Hrm) by lia. rewrite <-(pos_rel a s), pos_dist by done.
        unfold T1 in Hqz. rewrite cell_insert in Hqz by done. case_decide as Hpq; [|done].
        exfalso. rewrite <-Hpq in *. lia.
      + replace (dist a s + dist s q) with ((dist a s + dist s q - cap) + cap) by lia. rewrite pos_wrap, dist_pos; lia. }
  assert (Hu1 : forall j, 0 <= j < cap -> cell_obj T1 j <> k).
  { intros j Hj. unfold T1. rewrite cell_insert by done. case_decide as Hpj; cbn [fst]; [done|]. intros He.
    apply Hpj. by apply (rm_unique _ _ Hrm). }
  exists c, (<[Z.to_nat q := (k, c)]> T1). split; [done|]. split; [done|]. split; [exact Hrun|].
  destruct (cell_lookup T1 q Hl1 Hq) as [c1 Hc1]. rewrite Hqz in Hc1. split.
  - by rewrite length_insert.
  - intros j Hj. pose proof (pos_range a j). unfold T1. rewrite !list_lookup_insert_ne.
    + apply (rm_same _ _ Hrm). lia.
    + intros He. assert (Hpp : pos a n = pos a j) by lia. apply pos_inj in Hpp; lia.
    + intros He. assert (Hqq : q = pos a j) by lia. rewrite Hqq, dist_pos in Hqn; lia.
  - intros k' c' Hk'. rewrite <-(rm_has _ _ Hrm k' c' Hk').
    rewrite (has_insert T1 q _ (k, c) k' c' Hl1 Hq Hc1); [|cbn [fst]; congruence|done]. cbn [fst]. unfold T1.
    rewrite (has_insert T p _ (0, 0) k' c' Hl Hp Hc); [|intros j Hj <- Hne Hcc; cbn [fst] in Hcc; symmetry; by apply (rm_unique _ _ Hrm)|done].
    cbn [fst]. split.
    + intros [[= <- <-]|[[[= <- <-]|[Hh _]] _]]; [by exists p|done|done].
    + intros Hh. destruct (decide (k' = k)) as [->|Hne]; [left|right; split; [|congruence]; right; split; [done|congruence]].
      destruct Hh as (i & Hi & Hci). assert (p = i) as <-.
      { apply (rm_unique _ _ Hrm); [done..|]. unfold cell_obj at 2. by rewrite Hci. }
      rewrite Hc in Hci. by injection Hci as ->.
  - intros i j Hi Hj. rewrite !cell_insert by done. destruct (decide (q = i)) as [Hqi|Hqi], (decide (q = j)) as [Hqj|Hqj]; cbn [fst].
    + congruence.
    + intros _ He. by destruct (Hu1 j Hj).
    + intros _ He. by destruct (Hu1 i Hi).
    + unfold T1. rewrite !cell_insert by done.
      destruct (decide (p = i)) as [Hpi|Hpi], (decide (p = j)) as [Hpj|Hpj]; cbn [fst]; try congruence. by apply (rm_unique _ _ Hrm).
  - intros i Hi Hdi. rewrite cell_insert by done. case_decide as Hqi; cbn [fst].
    + intros _. subst q. by apply reach_fill.
    + intros Hne. apply reach_fill; try done. unfold T1 in Hne |- *. rewrite cell_insert in Hne |- * by done.
      case_decide as Hpi; cbn [fst] in *; [done|].
      assert (Hdi' : dist a i < n).
      { destruct (decide (dist a i = n)) as [He|]; [|lia]. exfalso. apply Hpi. unfold p. rewrite <-He. by apply pos_dist. }
      pose proof (rm_reach _ _ Hrm i Hi Hdi' Hne) as Hri. set (si := weak_slot_for (cell_obj T i) cap) in *.
      assert (Hsi : 0 <= si < cap) by apply slot_range.
      pose proof (path_before T si i HTM Hsi Hi Hri ltac:(lia)) as Hcase. pose proof (dist_rel a si i Hsi Hi) as Hds.
      pose proof (dist_range a si). pose proof (dist_range a i).
      intros j Hj. rewrite cell_insert by (done || apply pos_range). case_decide as Hpj; [|by apply Hri]. exfalso.
      rewrite (pos_rel a si j Hsi) in Hpj. unfold p in Hpj.
      destruct (Z.leb_spec (dist a si) (dist a i)).
      * apply pos_inj in Hpj; lia.
      * destruct (decide (dist a si + j < cap)); [apply pos_inj in Hpj; lia|].
        replace (dist a si + j) with ((dist a si + j - cap) + cap) in Hpj by lia. rewrite pos_wrap in Hpj. apply pos_inj in Hpj; lia.
  - rewrite (wfull_insert _ _ _ _ Hc1). cbn [fst]. rewrite (proj2 (Z.eqb_neq k 0) Hk).
    unfold T1. rewrite (wfull_insert _ _ _ _ Hc). cbn [fst]. rewrite (proj2 (Z.eqb_neq k 0) Hk), (rm_count _ _ Hrm). cbn. lia.
Qed.

Lemma remove_loop_spec : forall fuel n T, 1 <= n <= M -> (Z.to_nat (M - n) < fuel)%nat -> removing n T ->
  exists T', remove_loop fuel T cap (pos a n) = Some T' /\ removing M T'.
Proof.
  induction fuel as [|fuel IH]; intros n T Hn Hf Hrm; [lia|]. cbn [remove_loop].
  destruct (decide (n = M)) as [->|Hne].
  - destruct (cell_lookup T (pos a M) (rm_length _ _ Hrm) (pos_range a M)) as [c ->]. cbn [mbind option_bind fst].
    rewrite (rm_obj M T M Hrm), HMz by lia. exists T. done.
  - destruct (removing_step n T ltac:(lia) Hrm) as (c & T' & -> & Hk & Hpl & Hrm'). cbn [mbind option_bind fst].
    rewrite (proj2 (Z.eqb_neq _ 0) Hk), Hpl. cbn [mbind option_bind]. rewrite next_pos. apply (IH (n + 1)); [lia|lia|done].
Qed.

Lemma removing_ok T : removing M T -> table_ok T.
Proof.
  intros Hrm. split; [apply Hrm| |apply Hrm]. intros i Hi Hk.
  destruct (decide (dist a i < M)) as [Hlt|Hge]; [by apply (rm_reach _ _ Hrm)|].
  pose proof (dist_range a i) as Hdi. pose proof (rm_obj M T (dist a i) Hrm ltac:(lia)) as Ho. rewrite pos_dist in Ho by done.
  destruct (decide (dist a i = M)) as [He|Hne].
  { rewrite <-He, pos_dist in HMz by done. congruence. }
  rewrite Ho in Hk |- *. pose proof (to_reach _ Hok i Hi Hk) as Hr. pose proof (slot_range (cell_obj cells0 i)) as Hs.
  set (s := weak_slot_for (cell_obj cells0 i) cap) in *.
  pose proof (path_behind cells0 s i HMz Hs Hi Hr ltac:(lia)) as Hb. pose proof (dist_rel a s i Hs Hi) as Hd.
  destruct (Z.leb_spec (dist a s) (dist a i)); [|lia].
  intros j Hj. rewrite (pos_rel a s) by done. rewrite (rm_obj M T) by (done || lia). rewrite <-pos_rel by done. by apply Hr.
Qed.
End remove.

(** The first empty cell behind [a]. *)
Lemma first_hole cells a : 0 <= a < cap -> cell_obj cells a <> 0 -> has_empty cells ->
  exists M, 1 <= M < cap /\ cell_obj cells (pos a M) = 0 /\ forall j, 1 <= j < M -> cell_obj cells (pos a j) <> 0.
Proof.
  intros Ha Hk He. destruct (probe_spec cells 0 a He Ha (Z.to_nat cap) 0) as (d & Hd & _ & Hbefore & Hstop); [lia|lia|intros j; lia|].
  exists d. assert (d <> 0). { intros ->. rewrite pos_0 in Hstop by done. tauto. }
  split; [lia|]. split; [tauto|]. intros j Hj. apply Hbefore. lia.
Qed.

Lemma remove_ok cells a : table_ok cells -> has_empty cells -> 0 <= a < cap -> cell_obj cells a <> 0 ->
  exists T, remove_loop (Z.to_nat cap) (<[Z.to_nat a := (0, 0)]> cells) cap (weak_next a cap) = Some T /\
    table_ok T /\ wfull T = wfull cells - 1 /\
    forall k c, k <> 0 -> has T k c <-> has cells k c /\ k <> cell_obj cells a.
Proof.
  intros Hok He Ha Hk. destruct (first_hole cells a Ha Hk He) as (M & HM & HMz & Hcl).
  assert (weak_next a cap = pos a 1) as ->. { pose proof (next_pos a 0) as Hn. by rewrite pos_0 in Hn. }
  destruct (remove_loop_spec Hok HM HMz Hcl (Z.to_nat cap) 1 (<[Z.to_nat a := (0, 0)]> cells)) as (T & Hrun & Hrm);
    [lia|lia|by apply (removing_start (M := M))|].
  exists T. split; [exact Hrun|]. split; [by apply (removing_ok Hok HM HMz T)|]. split; [apply (rm_count _ _ Hrm)|apply (rm_has _ _ Hrm)].
Qed.
End table.

(** ** The table as a map *)

Lemma pow_mask b x : 0 <= b -> x &! (2 ^ b - 1) = x mod 2 ^ b.
Proof. intros Hb. rewrite <-land_mask by done. f_equal. rewrite Z.ones_equiv. lia. Qed.

(** [t] holds exactly the entries of [m], and a quarter of it is empty. *)
Definition weak_reps (t : weak_table) (m : gmap Z Z) : Prop :=
  m !! 0 = None /\ weak_len t = wfull (weak_cells t) /\
  if weak_cap t =? 0 then weak_cells t = [] /\ m = ∅
  else (exists b, 0 < b /\ weak_cap t = 2 ^ b /\ 4 <= weak_cap t) /\ table_ok (weak_cap t) (weak_cells t) /\
    weak_len t * 4 <= weak_cap t * 3 /\
    forall k c, k <> 0 -> has (weak_cap t) (weak_cells t) k c <-> m !! k = Some c.

Lemma table_has_empty cap cells : Z.of_nat (length cells) = cap -> wfull cells < cap -> has_empty cap cells.
Proof.
  intros Hl Hn. destruct (decide (Exists (fun c => c.1 = 0) cells)) as [Hex|Hno].
  - apply Exists_exists in Hex as (c & (i & Hi)%list_elem_of_lookup & Hz). exists (Z.of_nat i).
    split; [apply lookup_lt_Some in Hi; lia|]. unfold cell_obj. rewrite Nat2Z.id, Hi. by destruct c.
  - exfalso. rewrite wfull_all in Hn; [lia|]. intros i c Hc Hz. apply Hno. apply Exists_exists. exists c.
    split; [by eapply list_elem_of_lookup_2|done].
Qed.

(** Placing the old cells into the new array, one after the other. *)
Lemma grow_loop_ok cap : 0 < cap -> (forall x, x &! (cap - 1) = x mod cap) -> forall old cells,
  table_ok cap cells -> wfull cells + wfull old < cap -> NoDup (List.filter (fun k => negb (k =? 0)) old.*1) ->
  (forall cell, cell ∈ old -> cell.1 <> 0 -> forall j, 0 <= j < cap -> cell_obj cells j <> cell.1) ->
  exists cells', grow_loop old cells cap = Some cells' /\ table_ok cap cells' /\ wfull cells' = wfull cells + wfull old /\
    forall k c, k <> 0 -> has cap cells' k c <-> (k, c) ∈ old \/ has cap cells k c.
Proof.
  intros Hcap Hmask. induction old as [|[k c] old IH]; intros cells Hok Hn Hnd Hnew; cbn [grow_loop fst].
  - exists cells. split; [done|]. split; [done|]. split; [unfold wfull at 3; cbn; lia|]. intros k c Hk. split; [auto|].
    intros [Hin|]; [|done]. by apply elem_of_nil in Hin.
  - rewrite wfull_cons in Hn. cbn [fst] in Hn. cbn [fmap list_fmap fst List.filter] in Hnd.
    destruct (Z.eqb_spec k 0) as [->|Hk]; cbn [negb] in Hnd.
    + destruct (IH cells Hok ltac:(lia) Hnd) as (cells' & Hrun & Hok' & Hn' & Hhas).
      { intros cell Hin. apply Hnew. by right. }
      exists cells'. split; [done|]. split; [done|]. split; [rewrite wfull_cons; cbn; lia|]. intros k' c' Hk'. rewrite Hhas, elem_of_cons by done.
      split; [tauto|]. intros [[[= -> ->]|]|]; tauto.
    + apply NoDup_cons in Hnd as [Hnot Hnd]. pose proof (to_length _ _ Hok) as Hl.
      assert (0 <= wfull old) by (unfold wfull; lia).
      destruct (place_spec cap Hcap Hmask cells k c Hl) as (q & Hq & -> & Hz & Hr); [apply table_has_empty; [done|lia]|].
      cbn [mbind option_bind].
      destruct (place_ok cap Hcap Hmask cells k c q Hok Hq Hz Hr Hk) as (Hok1 & Hn1 & Hhas1); [intros j Hj; apply (Hnew (k, c)); [by left|done..]|].
      destruct (IH _ Hok1 ltac:(lia) Hnd) as (cells' & Hrun & Hok' & Hn' & Hhas).
      { intros cell Hin Hc j Hj. rewrite (cell_insert cap Hcap Hmask) by done. case_decide; cbn [fst]; [|apply Hnew; [by right|done..]].
        intros ->. apply Hnot. apply list_elem_of_In, filter_In. split; [|by apply negb_true_iff, Z.eqb_neq].
        apply list_elem_of_In, list_elem_of_fmap. by exists cell. }
      exists cells'. split; [done|]. split; [done|]. split; [rewrite wfull_cons; cbn [fst]; rewrite (proj2 (Z.eqb_neq k 0) Hk); lia|].
      intros k' c' Hk'. rewrite Hhas, Hhas1, elem_of_cons by done. split; [intros [|[[-> ->]|]]; auto|intros [[[= -> ->]|]|]; auto].
Qed.

Lemma has_unique cap cells : table_ok cap cells -> NoDup (List.filter (fun k => negb (k =? 0)) cells.*1).
Proof.
  intros [Hl _ Hu]. assert (Hgo : forall (l : list (Z * Z)) o, (forall i j x y, l !! i = Some x -> l !! j = Some y -> x.1 <> 0 -> x.1 = y.1 -> i = j) ->
    o = l -> NoDup (List.filter (fun k => negb (k =? 0)) l.*1)).
  { clear. induction l as [|x l IH]; intros o Hinj _; [constructor|]. cbn [fmap list_fmap List.filter].
    assert (Hl : NoDup (List.filter (fun k => negb (k =? 0)) l.*1)).
    { apply (IH l); [|done]. intros i j y z Hy Hz Hne He. by injection (Hinj (S i) (S j) y z Hy Hz Hne He). }
    destruct (Z.eqb_spec x.1 0) as [Hz|Hz]; cbn [negb]; [done|]. apply NoDup_cons. split; [|done].
    intros [(y & Hxy & Hy)%list_elem_of_In%list_elem_of_fmap _]%list_elem_of_In%filter_In. apply list_elem_of_lookup in Hy as [i Hi].
    pose proof (Hinj O (S i) x y eq_refl Hi Hz Hxy) as He. done. }
  apply (Hgo cells cells); [|done]. intros i j x y Hx Hy Hne He. apply Nat2Z.inj.
  pose proof (lookup_lt_Some _ _ _ Hx). pose proof (lookup_lt_Some _ _ _ Hy).
  assert (Hcx : cell_obj cells (Z.of_nat i) = x.1) by (unfold cell_obj; rewrite Nat2Z.id, Hx; by destruct x).
  assert (Hcy : cell_obj cells (Z.of_nat j) = y.1) by (unfold cell_obj; rewrite Nat2Z.id, Hy; by destruct y).
  apply Hu; [lia|lia| |]; congruence.
Qed.

Lemma table_empty cap : 0 < cap -> table_ok cap (replicate (Z.to_nat cap) (0, 0)).
Proof.
  intros Hcap. assert (Hz : forall i, 0 <= i < cap -> cell_obj (replicate (Z.to_nat cap) (0, 0)) i = 0).
  { intros i Hi. unfold cell_obj. by rewrite lookup_replicate_2 by lia. }
  split; [rewrite length_replicate; lia| |]; intros i; intros; rewrite Hz in *; done.
Qed.

(** Growing keeps the entries. *)
Lemma weak_grow_reps t m : weak_reps t m -> exists t', weak_table_grow t = Some t' /\ weak_reps t' m /\
  weak_cap t' <> 0 /\ weak_len t' * 4 < weak_cap t' * 3.
Proof.
  intros (Hm0 & Hlen & Hrep). unfold weak_table_grow. destruct (Z.eqb_spec (weak_cap t) 0) as [Hc0|Hc0].
  - destruct Hrep as [Hcells ->]. rewrite Hcells in *. cbn [grow_loop mbind option_bind]. eexists. split; [done|].
    assert (Hz : weak_len t = 0) by (rewrite Hlen; done). pose proof (table_empty 64 ltac:(lia)) as Hok.
    split; [|cbn; lia]. split; [done|]. cbn [weak_len weak_cells weak_cap]. split; [by rewrite wfull_replicate|]. cbn [Z.eqb].
    split; [exists 6; lia|]. split; [done|]. split; [lia|]. intros k c Hk. rewrite lookup_empty. split; [|done].
    intros (i & Hi & Hc). apply lookup_replicate in Hc as [[= -> ->] _]. done.
  - destruct Hrep as ((b & Hb & Hcap & H4) & Hok & Hload & Hhas). set (cap := weak_cap t * 2).
    assert (Hcap2 : cap = 2 ^ (b + 1)) by (unfold cap; rewrite Hcap, Z.pow_add_r by lia; lia).
    assert (Hmask : forall x, x &! (cap - 1) = x mod cap) by (intros x; rewrite Hcap2; apply pow_mask; lia).
    destruct (grow_loop_ok cap ltac:(lia) Hmask (weak_cells t) (replicate (Z.to_nat cap) (0, 0))) as (cells & Hrun & Hok' & Hn' & Hhas').
    { apply table_empty. lia. }
    { rewrite wfull_replicate. lia. }
    { by apply (has_unique (weak_cap t)). }
    { intros cell _ Hne j Hj. unfold cell_obj. rewrite lookup_replicate_2 by lia. done. }
    rewrite Hrun. cbn [mbind option_bind]. eexists. split; [done|]. rewrite wfull_replicate in Hn'.
    split; [|cbn; lia]. split; [done|]. cbn [weak_len weak_cells weak_cap]. split; [lia|].
    rewrite (proj2 (Z.eqb_neq cap 0)) by lia. split; [exists (b + 1); lia|]. split; [done|]. split; [lia|]. intros k c Hk.
    rewrite Hhas', <-Hhas by done. split.
    + intros [(i & Hi)%list_elem_of_lookup|(i & Hi & Hc)].
      * exists (Z.of_nat i). rewrite Nat2Z.id. split; [|done]. apply lookup_lt_Some in Hi. pose proof (to_length _ _ Hok). lia.
      * apply lookup_replicate in Hc as [[= -> ->] _]. done.
    + intros (i & Hi & Hc). left. by eapply list_elem_of_lookup_2.
Qed.

(** The table with its capacity at hand. *)
Lemma reps_table t m : weak_reps t m -> weak_cap t <> 0 ->
  0 < weak_cap t /\ (forall x, x &! (weak_cap t - 1) = x mod weak_cap t) /\ table_ok (weak_cap t) (weak_cells t) /\
  has_empty (weak_cap t) (weak_cells t) /\ weak_len t * 4 <= weak_cap t * 3 /\ (exists b, 0 < b /\ weak_cap t = 2 ^ b /\ 4 <= weak_cap t) /\
  forall k c, k <> 0 -> has (weak_cap t) (weak_cells t) k c <-> m !! k = Some c.
Proof.
  intros (Hm0 & Hlen & Hrep) Hc0. rewrite (proj2 (Z.eqb_neq _ 0) Hc0) in Hrep.
  destruct Hrep as ((b & Hb & Hcap & H4) & Hok & Hload & Hhas). split; [lia|]. split.
  { intros x. rewrite Hcap. apply pow_mask. lia. }
  split; [done|]. split; [|split; [done|split; [by exists b|done]]].
  apply table_has_empty; [apply Hok|]. lia.
Qed.

Lemma weak_find_reps t m obj fresh : weak_reps t m -> obj <> 0 ->
  exists t' c new, weak_table_find t obj fresh = Some (t', c, new) /\
    match m !! obj with
    | Some c0 => c = c0 /\ new = false /\ weak_reps t' m
    | None => c = fresh /\ new = true /\ weak_reps t' (<[obj := fresh]> m)
    end.
Proof.
  intros Hreps Hobj. unfold weak_table_find.
  assert (Hgrow : exists t', (if (weak_cap t =? 0) || (weak_cap t * 3 <=? weak_len t * 4) then weak_table_grow t else Some t) = Some t' /\
    weak_reps t' m /\ weak_cap t' <> 0 /\ weak_len t' * 4 < weak_cap t' * 3).
  { destruct (Z.eqb_spec (weak_cap t) 0); cbn [orb]; [by apply weak_grow_reps|].
    destruct (Z.leb_spec (weak_cap t * 3) (weak_len t * 4)); [by apply weak_grow_reps|]. exists t. split_and!; try done. }
  destruct Hgrow as (t' & -> & Hreps' & Hc0 & Hload). cbn [mbind option_bind]. clear Hreps t. rename t' into t.
  destruct (reps_table t m Hreps' Hc0) as (Hcap & Hmask & Hok & He & _ & Hpow & Hhas).
  destruct (probe_find (weak_cap t) Hcap Hmask (weak_cells t) obj Hok He Hobj) as (i & Hi & -> & Hreach & Hcase). cbn [mbind option_bind].
  destruct (cell_lookup (weak_cap t) (weak_cells t) i (to_length _ _ Hok) Hi) as [c Hc]. rewrite Hc. cbn [mbind option_bind fst snd].
  destruct Hcase as [Hk|[Hz Hnone]].
  - rewrite Hk in Hc |- *. rewrite (proj2 (Z.eqb_neq obj 0) Hobj).
    assert (Hm : m !! obj = Some c) by (apply Hhas; [done|]; by exists i).
    exists t, c, false. split; [done|]. by rewrite Hm.
  - assert (Hm : m !! obj = None).
    { destruct (m !! obj) as [c'|] eqn:Hm; [|done]. apply Hhas in Hm as (j & Hj & Hcj)%has_obj; [|done]. by destruct (Hnone j Hj). }
    rewrite Hz, Hm. cbn [Z.eqb].
    destruct (place_ok (weak_cap t) Hcap Hmask (weak_cells t) obj fresh i Hok Hi Hz Hreach Hobj Hnone) as (Hok' & Hn' & Hhas').
    eexists _, fresh, true. split; [done|]. split; [done|]. split; [done|]. destruct Hreps' as (Hm0 & Hlen & _).
    split; [by rewrite lookup_insert_ne|]. cbn [weak_len weak_cells weak_cap]. split; [lia|].
    rewrite (proj2 (Z.eqb_neq _ 0) Hc0). split; [done|]. split; [done|]. split; [destruct Hpow as (b & Hb & Hp & H4)|].
    { replace b with (b - 1 + 1) in Hp by lia. rewrite Z.pow_add_r in Hp by lia.
      destruct (decide (b = 1)) as [->|]; [cbn in Hp; lia|]. replace (b - 1) with (b - 2 + 1) in Hp by lia. rewrite Z.pow_add_r in Hp by lia. lia. }
    intros k c' Hk. rewrite Hhas', Hhas by done. destruct (decide (k = obj)) as [->|Hne].
    + rewrite lookup_insert_eq, Hm. split; [by intros [[_ ->]|]|intros [= ->]; by left].
    + rewrite lookup_insert_ne by done. split; [by intros [[]|]|by right].
Qed.

Lemma weak_take_reps t m obj : weak_reps t m -> obj <> 0 ->
  exists t', weak_table_take t obj = Some (t', m !! obj) /\ weak_reps t' (delete obj m).
Proof.
  intros Hreps Hobj. unfold weak_table_take.
  assert (Habs : (forall c, m !! obj = Some c -> False) -> delete obj m = m /\ m !! obj = None).
  { intros Hno. assert (Hm : m !! obj = None) by (destruct (m !! obj) as [c|] eqn:Hm; [by destruct (Hno c)|done]).
    split; [by apply delete_id|done]. }
  destruct (Z.eqb_spec (weak_cap t) 0) as [Hc0|Hc0].
  { pose proof Hreps as (Hm0 & Hlen & Hrep). rewrite Hc0 in Hrep. destruct Hrep as [_ ->].
    exists t. rewrite delete_empty. by destruct (weak_len t =? 0). }
  destruct (reps_table t m Hreps Hc0) as (Hcap & Hmask & Hok & He & Hload & Hpow & Hhas).
  pose proof Hreps as (Hm0 & Hlen & _).
  destruct (probe_find (weak_cap t) Hcap Hmask (weak_cells t) obj Hok He Hobj) as (i & Hi & Hrun & _ & Hcase).
  destruct (cell_lookup (weak_cap t) (weak_cells t) i (to_length _ _ Hok) Hi) as [c Hc].
  destruct (Z.eqb_spec (weak_len t) 0) as [Hz0|_].
  { destruct Habs as [-> ->]; [|by exists t]. intros c' (j & Hj & Hcj)%Hhas; [|done].
    pose proof (wfull_insert _ _ _ (0, 0) Hcj) as Hn. cbn [fst] in Hn. rewrite (proj2 (Z.eqb_neq obj 0) Hobj) in Hn. cbn in Hn.
    assert (0 <= wfull (<[Z.to_nat j := (0, 0)]> (weak_cells t))) by (unfold wfull; lia). lia. }
  rewrite Hrun. cbn [mbind option_bind]. rewrite Hc. cbn [mbind option_bind fst snd].
  destruct Hcase as [Hk|[Hz Hnone]].
  - rewrite Hk in Hc |- *. rewrite (proj2 (Z.eqb_neq obj 0) Hobj).
    assert (Hm : m !! obj = Some c) by (apply Hhas; [done|]; by exists i). rewrite Hm.
    destruct (remove_ok (weak_cap t) Hcap Hmask (weak_cells t) i Hok He Hi) as (T & Hrm & Hok' & Hn' & Hhas'); [congruence|].
    unfold weak_table_remove. rewrite Hrm. cbn [mbind option_bind]. eexists. split; [done|].
    split; [by rewrite lookup_delete_ne|]. cbn [weak_len weak_cells weak_cap]. split; [lia|]. rewrite (proj2 (Z.eqb_neq _ 0) Hc0).
    split; [done|]. split; [done|]. split; [lia|]. intros k c' Hk'. rewrite Hhas', Hhas, Hk by done.
    destruct (decide (k = obj)) as [->|Hne]; [rewrite lookup_delete_eq; split; [by intros []|done]|].
    rewrite lookup_delete_ne by done. tauto.
  - rewrite Hz. cbn [Z.eqb]. destruct Habs as [-> ->]; [|by exists t].
    intros c' Hm. apply Hhas in Hm as (j & Hj & Hcj)%has_obj; [|done]. by destruct (Hnone j Hj).
Qed.

Lemma weak_empty_reps : weak_reps weak_empty ∅.
Proof. done. Qed.
