(* ===== verification/HeapTheorems.v ===== *)
(** * HeapTheorems: the properties of the counted heap

    The heap's invariant over whole programs, the cascade of a release, the
    exactness of the cycle collector, and what weak and shared handles
    promise. *)

From stdpp Require Import gmap.
From S2P Require Import Prelude Mem ListRt MapRt Heap HeapSum HeapInv CtrlInv ReleaseProofs.
From S2P Require Import Collector MarkProofs CycleProofs CollectProofs Handles HandleProofs HeapSteps.
From S2P Require Import WeakTable.

Open Scope c_scope.

(** C1: in every state a program reaches from the empty runtime by the
    runtime's calls and by stores into its objects, whatever well-behaved
    deinit bodies run: an object's count is the number of slots of live
    objects that hold it, plus the control blocks and the program references
    that do; no live object and no reference points at freed memory; the root
    buffer lists the buffered objects, each once; and every live object is
    within reach of the program, of a control block or of a parked
    candidate. *)
Theorem program_invariant {A : Allocator} (deinit : Z -> rt -> option rt) (h : rt) (e : Z -> Z) :
  (forall H : Holds, deinit_ok deinit) -> rtc (step deinit) (start, fun _ => 0) (h, e) ->
  (forall x o, objs h !! x = Some o -> o_immortal o = false -> o_count o = refs (objs h) x + cref (ctrls h) x + e x) /\
  (forall x, 0 < e x -> live (objs h) x) /\
  (forall p o c, objs h !! p = Some o -> alive (objs h) p = true -> c ∈ cc_walk o -> live (objs h) c) /\
  NoDup (cc_roots h) /\ (forall x, x ∈ cc_roots h <-> bufd (objs h) x = true) /\
  (forall x, alive (objs h) x = true -> exists y, rtc (edge (objs h)) y x /\ alive (objs h) y = true /\
     (0 < e y \/ 0 < cref (ctrls h) y \/ y ∈ cc_roots h /\ col (objs h) y = CC_PURPLE)).
Proof.
  intros Hd Hr. destruct (steps_ok deinit Hd _ _ start_ok Hr) as [He Hinv]. cbn in He, Hinv.
  pose proof (ro_heap _ _ (ri_ok _ _ Hinv)) as Hh. split; [|split; [|split; [|split; [|split]]]].
  - intros x o Ho Hi. pose proof (ho_count _ _ Hh x) as Hc. rewrite (some_mortal _ _ _ Ho), Hi, (cnt_some _ _ _ Ho) in Hc.
    rewrite Hc by done. unfold outside. lia.
  - intros x Hx. by apply (inv_dom h e).
  - intros p o c Ho Ha Hc. apply live_alive. split; [by apply (ho_kids _ _ Hh p o)|]. intros Hm.
    apply (ok_kid_alive Hh p); [done|]. unfold kids. rewrite Ho. apply list_elem_of_In, filter_In.
    split; [by apply list_elem_of_In|done].
  - apply (ro_nodup _ _ (ri_ok _ _ Hinv)).
  - apply (ro_roots _ _ (ri_ok _ _ Hinv)).
  - intros x Hx. destruct (ri_cov _ _ Hinv x Hx) as (y & [Hay Hy] & Hyx). exists y. split; [done|]. split; [done|].
    unfold outside in Hy. destruct Hy as [Hy|[Hb Hcol]].
    + pose proof (cref_nonneg (ctrls h) y). specialize (He y). lia.
    + right. right. split; [|done]. by apply (ro_roots _ _ (ri_ok _ _ Hinv)).
Qed.

Lemma program_invariant_witness : o_count (node false 0) = 1 /\ rtc (step quiet) (start, fun _ => 0) (h1, e1) /\
  live (objs h1) 16.
Proof.
  assert (Hr : rtc (step quiet) (start, fun _ => 0) (h1, e1)).
  { apply rtc_once. apply (step_alloc quiet 9 start _ (node false 0)); [by split|done|by rewrite (proj1 demo_walk)|by vm_compute]. }
  split; [done|]. split; [done|].
  destruct (program_invariant quiet h1 e1 quiet_ok Hr) as (_ & Hl & _). by apply Hl.
Defined.

(** C4: releasing a reference the program holds terminates, with deinit bodies
    or without: for enough fuel the cascade has a result that keeps the
    invariant for the references left, in which nothing is alive that no live
    object, control block or reference holds.  When no finalizer is left to
    run, everything the remaining references reach survives with its
    contents. *)
Theorem release_correct (deinit : Z -> rt -> option rt) (h : rt) (e : Z -> Z) (p : Z) :
  deinit_ok deinit -> state_ok (h, e) -> 0 < e p ->
  exists fuel h', (forall f, (fuel <= f)%nat -> beans_release deinit f h p = Some h') /\
    state_ok (h', minus_list e [p]) /\
    (forall x, alive (objs h') x = true -> 0 < refs (objs h') x + cref (ctrls h') x + minus_list e [p] x) /\
    (fins (objs h) = 0 -> forall x, reachable h (minus_list e [p]) x -> kept (objs h) (objs h') x).
Proof.
  intros Hd [He Hinv] Hp. cbn in He, Hinv.
  assert (He' : forall x, 0 <= minus_list e [p] x).
  { intros x. unfold minus_list. specialize (He x). rewrite occ_cons, occ_nil. case_decide; [subst|]; lia. }
  destruct (release_ok deinit Hd h (minus_list e [p]) p He') as (fuel & h' & Hrun & Hinv' & _ & _ & Hsub).
  { apply (rt_inv_ext h e); [|done]. intros x. unfold plus_list, minus_list. lia. }
  exists fuel, h'. split; [intros f Hf; by apply (release_mono deinit fuel)|]. split; [by split|]. split.
  - intros x Hx. pose proof (alive_held h' _ x Hinv' Hx) as Hh. unfold outside in Hh. lia.
  - intros Hz x Hx. by apply (survive h h' (minus_list e [p])); [|apply Hsub|].
Qed.

Lemma release_correct_witness : exists fuel h', (forall f, (fuel <= f)%nat -> beans_release quiet f h5 272 = Some h') /\
  state_ok (h', minus_list e5 [272]).
Proof.
  destruct (release_correct quiet h5 e5 272 (quiet_ok _) linked_ok ltac:(done)) as (fuel & h' & Hrun & Hok & _).
  by exists fuel, h'.
Defined.

(** C3: trial deletion is exact.  From any heap in order whose buffered
    objects are the candidates [rs], the three walks terminate, and the set
    they condemn is precisely what the candidates reach and neither a
    reference from outside nor a live object the candidates do not reach
    leads to.  The others get their counts back, less the slots of the
    condemned, and every object is black and unbuffered again. *)
Theorem trial_exact (os : gmap Z obj) (e : Z -> Z) (rs : list Z) :
  heap_ok os e -> NoDup rs -> (forall r, r ∈ rs -> alive os r = true) -> (forall x, bufd os x = bool_decide (x ∈ rs)) ->
  exists os' dead, cc_trial rs os = Some (os', dead) /\ NoDup dead /\
    (forall x, x ∈ dead <-> reached os rs x /\
       ~ exists y, rtc (edge os) y x /\ (0 < e y \/ exists q, alive os q = true /\ ~ reached os rs q /\ y ∈ kids os q)) /\
    (forall x, cnt os' x = cnt os x - asum os dead x) /\
    skel os' = skel os /\ finv os' = finv os /\ (forall x, col os' x = CC_BLACK) /\ (forall x, bufd os' x = false).
Proof.
  intros Hok Hn Ha Hb. destruct (cc_trial_ok os e rs Hok Ha Hn Hb) as (os' & dead & Hrun & Htr).
  exists os', dead. split; [done|]. split; [apply Htr|]. split; [|split_and!; apply Htr].
  intros x. split.
  - intros Hx. destruct (tr_dead _ _ _ _ _ Htr x Hx) as (Hax & Hrx & _). split; [done|].
    intros (y & Hyx & Hwhy).
    assert (Hy : y ∉ dead).
    { intros Hyd. destruct (tr_dead _ _ _ _ _ Htr y Hyd) as (_ & _ & _ & Hey). destruct Hwhy as [Hey'|(q & Haq & Hrq & Hyq)]; [lia|].
      apply (tr_closed _ _ _ _ _ Htr q y Haq); [|done..]. intros Hq. destruct (tr_dead _ _ _ _ _ Htr q Hq) as (_ & ? & _). done. }
    clear Hwhy. induction Hyx as [y|y v x [Hay Hv] _ IH]; [done|]. apply IH; [done..|]. by apply (tr_closed _ _ _ _ _ Htr y v).
  - intros [Hrx Hno]. destruct (decide (x ∈ dead)) as [|Hx]; [done|]. exfalso. apply Hno.
    destruct (tr_why _ _ _ _ _ Htr x Hrx Hx) as (y & _ & Hyx & Hwhy). by exists y.
Qed.

Lemma trial_exact_witness : exists os' dead, cc_trial [272] (objs h6) = Some (os', dead) /\ NoDup dead /\
  (forall x, x ∈ dead -> reached (objs h6) [272] x).
Proof.
  destruct parked_ok as [_ Hinv]. cbn in Hinv. pose proof (ro_heap _ _ (ri_ok _ _ Hinv)) as Hh.
  destruct (trial_exact (objs h6) (outside h6 e6) [272]) as (os' & dead & Hrun & Hn & Hd & _); [done| | | |].
  - apply NoDup_singleton.
  - intros r ->%list_elem_of_singleton. by vm_compute.
  - intros x. pose proof (ro_roots _ _ (ri_ok _ _ Hinv) x) as Hr. change (cc_roots h6) with [272] in Hr.
    case_bool_decide as Hx; [by apply Hr|]. destruct (bufd (objs h6) x); [|done]. destruct Hx. by apply Hr.
  - exists os', dead. split; [done|]. split; [done|]. intros x Hx. by apply Hd.
Defined.

(** C5: a collection, forced or not, terminates and keeps the invariant for the
    program's references, whatever well-behaved deinit bodies the condemned
    objects run; it never nests, and it never leaves more finalizers to run
    than it found. *)
Theorem collect_terminates (deinit : Z -> rt -> option rt) (force : bool) (h : rt) (e : Z -> Z) :
  deinit_ok deinit -> state_ok (h, e) ->
  exists fuel h', (forall f, (fuel <= f)%nat -> cc_collect deinit f force h = Some h') /\
    state_ok (h', e) /\ fins (objs h') <= fins (objs h) /\
    cc_collecting h' = cc_collecting h /\ beans_in_deinit h' = beans_in_deinit h /\
    (cc_collecting h = true \/ beans_in_deinit h <> 0 -> h' = h).
Proof.
  intros Hd [He Hinv]. cbn in He, Hinv.
  destruct (collect_ok deinit Hd force h e He Hinv) as (fuel & h' & Hrun & Hinv' & Hf & [Hfl Hfl'] & _).
  exists fuel, h'. split_and!; try done. intros Hn. specialize (Hrun fuel ltac:(lia)). revert Hrun. unfold cc_collect.
  destruct (cc_collecting h); [by intros [= <-]|]. destruct Hn as [|Hn]; [done|].
  rewrite (proj2 (Z.eqb_neq (beans_in_deinit h) 0)) by done. by intros [= <-].
Qed.

Lemma collect_terminates_witness : exists fuel h', (forall f, (fuel <= f)%nat -> cc_collect quiet f true h6 = Some h') /\
  state_ok (h', e6).
Proof.
  destruct (collect_terminates quiet true h6 e6 (quiet_ok _) parked_ok) as (fuel & h' & Hrun & Hok & _). by exists fuel, h'.
Defined.

(** C2: a forced collection frees exactly the garbage.  With no finalizer to
    run and no payload held by a control block, afterwards the mortal objects
    of the heap are the ones the program reaches, cycles included; those keep
    their contents, and no candidate stays parked. *)
Theorem collect_exact (deinit : Z -> rt -> option rt) (h : rt) (e : Z -> Z) :
  deinit_ok deinit -> state_ok (h, e) -> cc_collecting h = false -> beans_in_deinit h = 0 -> fins (objs h) = 0 ->
  (forall x, cref (ctrls h) x = 0) ->
  exists fuel h', (forall f, (fuel <= f)%nat -> cc_collect deinit f true h = Some h') /\ state_ok (h', e) /\
    (forall x, (exists o, objs h' !! x = Some o /\ o_immortal o = false) <-> reachable h e x) /\
    (forall x, reachable h e x -> kept (objs h) (objs h') x) /\ cc_roots h' = [].
Proof.
  intros Hd [He Hinv] Hcol Hin Hf Hcr. cbn in He, Hinv.
  destruct (collect_ok deinit Hd true h e He Hinv) as (fuel & h' & Hrun & Hinv' & _ & _ & Hsub & Hall).
  destruct (Hall Hcol Hin eq_refl Hf Hcr) as [Hb Hc]. specialize (Hsub Hf).
  exists fuel, h'. split; [done|]. split; [done|]. split; [|split].
  - intros x. split.
    + intros (o & Ho & Hi). apply (sub_reachable h h' e x Hsub). apply alive_reachable; [done..|]. by apply (unparked_alive h' e x o).
    + intros Hx. destruct (survive h h' e x Hinv' Hsub Hx) as [Hx' _].
      apply (reachable_alive h' e x Hinv') in Hx'. apply alive_mortal in Hx' as [Hm _]. by apply mortal_some in Hm.
  - intros x Hx. by apply (survive h h' e x Hinv' Hsub).
  - destruct (cc_roots h') as [|x rs] eqn:Hr; [done|]. pose proof (proj1 (ro_roots _ _ (ri_ok _ _ Hinv') x)) as Hbx.
    rewrite Hr, Hb in Hbx. discriminate Hbx. by left.
Qed.

Lemma collect_exact_witness : fins (objs h6) = 0 /\ exists fuel h', (forall f, (fuel <= f)%nat -> cc_collect quiet f true h6 = Some h') /\
  (forall x, (exists o, objs h' !! x = Some o /\ o_immortal o = false) <-> reachable h6 e6 x).
Proof.
  split; [by vm_compute|].
  destruct (collect_exact quiet h6 e6 (quiet_ok _) parked_ok) as (fuel & h' & Hrun & _ & Hx & _);
    [done|done|by vm_compute|apply cref_weak|]. by exists fuel, h'.
Defined.



(** C7: a weak reference never dangles.  Reading the handle [q] of an object
    gives nothing, and changes nothing, or gives a live object with one more
    reference counted; and once a release or a collection has killed the
    object, the handle reads nothing, even if the address is used again. *)
Theorem weak_reference_safe (deinit : Z -> rt -> option rt) (h : rt) (e : Z -> Z) (q c : Z) (o : obj) (k : BSharedCtrl) :
  deinit_ok deinit -> state_ok (h, e) -> objs h !! q = Some o -> o_pay o = PHandle c -> handle_of o = Some (false, c) -> o_extra o = 7 ->
  ctrls h !! c = Some k ->
  (exists h' r, beans_object_weak_get h q = Some (h', r) /\
     (r = 0 /\ h' = h \/ r <> 0 /\ live (objs h) r /\ state_ok (h', plus_list e [r]))) /\
  (fins (objs h) = 0 -> forall f p h', 0 < e p -> beans_release deinit f h p = Some h' ->
     is_Some (objs h' !! q) -> ~ live (objs h') (c_value k) -> beans_object_weak_get h' q = Some (h', 0)) /\
  (fins (objs h) = 0 -> forall f force h', cc_collect deinit f force h = Some h' ->
     is_Some (objs h' !! q) -> ~ live (objs h') (c_value k) -> beans_object_weak_get h' q = Some (h', 0)).
Proof.
  intros Hd [He Hinv] Hq Hpay Hho Hex Hk. cbn in He, Hinv. split; [|split].
  - destruct (weak_get_inv h e q o c He Hinv Hq Hpay Hho Hex) as (h' & r & Hrun & Hcases). exists h', r. split; [done|].
    destruct Hcases as [|(Hr & Hl & Hinv' & _)]; [by left|right]. split; [done|]. split; [done|]. split; [by apply plus_nonneg|done].
  - intros Hf f p h' Hp Hrun Hq' Hdead.
    assert (He' : forall x, 0 <= minus_list e [p] x).
    { intros x. unfold minus_list. specialize (He x). rewrite occ_cons, occ_nil. case_decide; [subst|]; lia. }
    destruct (release_ok deinit Hd h (minus_list e [p]) p He') as (fuel & h1 & Hrun1 & Hinv1 & _ & _ & Hsub).
    { apply (rt_inv_ext h e); [|done]. intros x. unfold plus_list, minus_list. lia. }
    assert (h1 = h') as ->.
    { pose proof (release_mono deinit f (f + fuel) h p h' ltac:(lia) Hrun) as H1.
      pose proof (release_mono deinit fuel (f + fuel) h p h1 ltac:(lia) Hrun1) as H2. congruence. }
    apply (weak_gone h h' _ q o c k Hinv1); try done; [by apply Hsub|].
    assert (Hr : release_all_owed deinit f h [p] = Some h') by (cbn [release_all_owed]; by rewrite Hrun).
    by apply (owed_vals deinit f [p]); [apply fins_no_fin|].
  - intros Hf f force h' Hrun Hq' Hdead.
    destruct (collect_ok deinit Hd force h e He Hinv) as (fuel & h1 & Hrun1 & Hinv1 & _ & _ & Hsub & _).
    pose proof (run_agree _ fuel f _ _ (fun f f' r => collect_mono deinit f f' force h r) Hrun Hrun1) as <-.
    apply (weak_gone h h' e q o c k Hinv1); try done; [by apply Hsub|].
    by apply (collect_vals deinit f force h e); [..|apply fins_no_fin|].
Qed.

Lemma weak_reference_safe_witness : beans_object_weak_get h6 4368 = Some (after' (beans_retain h6 272), 272) /\
  beans_object_weak_get (after' (cc_collect quiet 9 true h6)) 4368 = Some (after' (cc_collect quiet 9 true h6), 0).
Proof.
  split; [by vm_compute|].
  destruct (weak_reference_safe quiet h6 e6 4368 16 (handle_box 7 16) (mkCtrl 0 2 272 0) (quiet_ok _) parked_ok)
    as (_ & _ & Hc); [vm_compute; reflexivity..|].
  apply (Hc ltac:(vm_compute; reflexivity) 9%nat true); [vm_compute; reflexivity|vm_compute; eexists; reflexivity|].
  intros (o & Ho & _). vm_compute in Ho. discriminate Ho.
Defined.

(** C8: the weak table implements the map of weak entries the other theorems
    speak of.  A table that holds the entries of the runtime state finds or
    creates an object's control block as [weak_ctrl_for] does and gives up a
    dying object's block as [rt_weak_invalidate] does, for every object and
    through growth and cluster deletion; every probe ends, and the table holds
    the entries of the state that results. *)
Theorem weak_table_refines {A : Allocator} (h : rt) (t : weak_table) (p : Z) :
  weak_reps t (weak_entries h) -> p <> 0 ->
  (exists t' h' c new, weak_table_find t p (new_ctrl (ctrls h)) = Some (t', c, new) /\ weak_ctrl_for h p = (h', c) /\
     new = negb (bool_decide (is_Some (weak_entries h !! p))) /\ weak_reps t' (weak_entries h')) /\
  (forall h', rt_weak_invalidate h p = Some h' ->
     exists t', weak_table_take t p = Some (t', weak_entries h !! p) /\ weak_reps t' (weak_entries h')).
Proof.
  intros Hr Hp. split.
  - destruct (weak_find_reps t (weak_entries h) p (new_ctrl (ctrls h)) Hr Hp) as (t' & c & new & Hrun & Hcase).
    unfold weak_ctrl_for. destruct (weak_entries h !! p) as [c0|].
    + destruct Hcase as (-> & -> & Hr'). exists t', h, c0, false. rewrite bool_decide_true by eauto. done.
    + destruct Hcase as (-> & -> & Hr'). eexists t', _, _, true. split; [done|]. split; [done|]. rewrite bool_decide_false; [done|]. by intros [].
  - intros h' Hrun. destruct (weak_take_reps t (weak_entries h) p Hr Hp) as (t' & Ht & Hr'). exists t'. split; [done|].
    unfold rt_weak_invalidate in Hrun. destruct (weak_entries h !! p) as [c|] eqn:Hw.
    + destruct (ctrls h !! c) as [k|]; [|done]. cbn in Hrun. by injection Hrun as <-.
    + injection Hrun as <-. by rewrite delete_id in Hr'.
Qed.

Lemma weak_table_refines_witness : exists t, weak_table_find weak_empty 272 16 = Some (t, 16, true) /\ weak_len t = 1.
Proof.
  destruct (weak_table_refines start weak_empty 272 weak_empty_reps ltac:(done)) as [(t & h' & c & new & Hrun & Hc & Hn & Hr) _].
  vm_compute in Hc. injection Hc as <- <-. vm_compute in Hn. subst new. exists t. split; [exact Hrun|].
  vm_compute in Hrun. injection Hrun as <-. reflexivity.
Defined.

(** [Shared] and its weak side.  A strong handle's payload is alive; a weak
    handle upgrades to a new strong one as long as a strong handle lives, and
    then to nothing; it reports itself expired exactly when the block counts
    no strong handle. *)
Theorem shared_handles_correct {A : Allocator} (deinit : Z -> rt -> option rt) (h : rt) (e : Z -> Z) (q c : Z) (o : obj) (b : bool) :
  (forall H : Holds, deinit_ok deinit) -> state_ok (h, e) -> objs h !! q = Some o -> o_pay o = PHandle c -> handle_of o = Some (b, c) ->
  exists k, ctrls h !! c = Some k /\ c_strong k = hcount (objs h) true c /\
    (b = true -> beans_shared_get h q = Some (c_value k) /\ (c_value_ptr k <> 0 -> c_value k <> 0 -> live (objs h) (c_value k))) /\
    beans_weak_expired h q = Some (bool_decide (hcount (objs h) true c = 0)) /\
    (hcount (objs h) true c = 0 -> forall f, beans_weak_upgrade deinit f h q = Some (h, 0)) /\
    (0 < hcount (objs h) true c -> exists fuel h' r c', (forall f, (fuel <= f)%nat -> beans_weak_upgrade deinit f h q = Some (h', r)) /\
       state_ok (h', plus_list e [r]) /\ r <> 0 /\ objs h' !! r = Some (handle_box 2 c')).
Proof.
  intros Hd [He Hinv] Hq Hpay Hho. cbn in He, Hinv.
  destruct (upgrade_inv deinit Hd h e q o b c He Hinv Hq Hpay Hho) as (k & Hk & Hk0 & Hgone & Hup).
  pose proof (co_strong _ _ _ (ro_ctrl _ _ (ri_ok _ _ Hinv)) c k Hk) as Hs. cbn [held no_holds] in Hs. rewrite Z.add_0_r in Hs.
  exists k. split; [done|]. split; [done|]. split; [|split; [|split]].
  - intros ->. destruct (shared_get_inv h e q o c He Hinv Hq Hpay Hho) as (v & k' & Hv & Hk' & -> & Hl). simplify_eq. done.
  - destruct (handle_block h e q o b c Hinv Hq Hpay Hho) as (k' & Hhc & Hk' & _). simplify_eq.
    unfold beans_weak_expired. rewrite Hhc. cbn [mbind option_bind]. f_equal. rewrite Hs.
    destruct (Z.eqb_spec (hcount (objs h) true c) 0); case_bool_decide; done.
  - intros Hz. apply Hgone. lia.
  - intros Hz. destruct Hup as (fuel & h' & r & c' & Hrun & Hinv' & Ho & Hr & _); [lia|].
    exists fuel, h', r, c'. split; [done|]. split; [|done]. split; [by apply plus_nonneg|done].
Qed.

Lemma shared_handles_correct_witness : exists k, ctrls hs !! 16 = Some k /\ c_strong k = hcount (objs hs) true 16 /\
  beans_weak_expired hs 16 = Some false.
Proof.
  destruct (shared_handles_correct quiet hs es 16 16 (handle_box 2 16) true quiet_ok shared_ok)
    as (k & Hk & Hs & _ & He & _); [vm_compute; reflexivity..|].
  exists k. split; [done|]. split; [done|]. rewrite He. vm_compute. reflexivity.
Defined.

(** A body may not drop the last reference to its own object.  The object 16
    counts one reference when its body starts, the one in 272; the body clears
    that slot and releases what it held.  [beans_do_deinit] then stores the
    count it read before the body, so the reference stays counted with nothing
    that holds it: the passes at exit free neither object. *)
Definition unlink (p : Z) (h : rt) : option rt :=
  o ← objs h !! p;
  let other := List.hd 0 (cc_walk o) in
  o' ← objs h !! other;
  beans_release quiet 9 (with_objs h (<[other := set_pay o' (word_pay 0)]> (objs h))) (List.hd 0 (cc_walk o')).

Definition self_cycle : rt :=
  mkRt {[16 := set_buf (cc_set_color (node true 272) CC_PURPLE) true; 272 := node false 16]} ∅ ∅ [16] 256 256 false false 0.

Example unlink_leaks : (fun h => ((fun x => (x.1, o_count x.2, cc_walk x.2)) <$> map_to_list (objs h), cc_roots h)) <$>
  cc_at_exit unlink 99 self_cycle = Some ([(272, 1, []); (16, 1, [272])], []).
Proof. vm_compute. reflexivity. Qed.
