(* ===== verification/Chan.v ===== *)
(** * Chan: channels between fibers

    [runtime/beans_rt.c], the channel section.  A [BChan] is a ring of [cap]
    elements and two first-in first-out lines of parked fibers.  Every entry
    runs with the channel's mutex held from its start, or from its return from
    a park, to its end or its next park, so each of these segments is one
    function here: it returns the channel, what the caller gets ([Waits] when
    the fiber parked) and the fiber it woke.  Callers are fibers; the
    condition variables of plain threads are left out, and so is the sharing
    mark, which only the collector of threaded programs reads.  How a woken
    fiber gets to run is [Fiber]. *)

From stdpp Require Import gmap.
From S2P Require Import Prelude Mem.

Open Scope c_scope.

Record BChan : Type := mkChan {
  ch_q : str;
  ch_head : Z;
  ch_count : Z;
  ch_cap : Z;
  ch_closed : bool;
  ch_stride : Z;
  ch_ptr_mask : Z;
  ch_send : list Z;
  ch_recv : list Z
}.

Definition ring (c : BChan) (q : str) (head count : Z) : BChan :=
  mkChan q head count (ch_cap c) (ch_closed c) (ch_stride c) (ch_ptr_mask c) (ch_send c) (ch_recv c).
Definition with_lines (c : BChan) (send recv : list Z) : BChan :=
  mkChan (ch_q c) (ch_head c) (ch_count c) (ch_cap c) (ch_closed c) (ch_stride c) (ch_ptr_mask c) send recv.

(** The bytes of one element: a slot of the generic channel is 8 bytes. *)
Definition elem_width (c : BChan) : Z := if ch_stride c <? 0 then - ch_stride c else ch_stride c.

(** ** Making a channel *)

Section new.
Context `{Alloc}.

Definition beans_chan_new (cap elem_ptr : Z) : result BChan :=
  let cap := if 0 <? cap then cap else 1 in
  match rt_zalloc (cap * 8) with
  | None => Panic out_of_memory 0 0
  | Some q => Ok (mkChan q 0 0 cap false (-8) elem_ptr [] [])
  end.

Definition beans_chan_new_typed (cap stride ptr_mask : Z) : result BChan :=
  if (stride <=? 0) || (2 ^ 30 <? stride) then Panic (lit "invalid channel element size") 0 0
  else
    let capacity := if 0 <? cap then cap else 1 in
    if 2 ^ 58 `quot` stride <? capacity then Panic (lit "channel capacity too large") 0 0
    else
      match rt_zalloc (capacity * stride) with
      | None => Panic out_of_memory 0 0
      | Some q => Ok (mkChan q 0 0 capacity false stride ptr_mask [] [])
      end.

Definition beans_gate_new : result BChan := beans_chan_new 1 0.

End new.

(** ** The lines of parked fibers *)

Definition fiber_line_push (line : list Z) (fiber : Z) : list Z := line ++ [fiber].

Definition fiber_line_pop (line : list Z) : option Z * list Z :=
  match line with
  | [] => (None, [])
  | fiber :: line => (Some fiber, line)
  end.

Fixpoint fiber_line_remove (line : list Z) (fiber : Z) : list Z :=
  match line with
  | [] => []
  | f :: line => if f =? fiber then line else f :: fiber_line_remove line fiber
  end.

Definition chan_wake_receiver (c : BChan) : BChan * option Z :=
  let '(fiber, line) := fiber_line_pop (ch_recv c) in (with_lines c (ch_send c) line, fiber).
Definition chan_wake_sender (c : BChan) : BChan * option Z :=
  let '(fiber, line) := fiber_line_pop (ch_send c) in (with_lines c line (ch_recv c), fiber).

(** ** The ring *)

(** Where the element [i] places behind the head lives. *)
Definition ring_at (c : BChan) (i : Z) : Z := Z.rem (ch_head c + i) (ch_cap c) * elem_width c.

Definition chan_put (c : BChan) (value : str) : BChan :=
  ring c (mem_set (ch_q c) (ring_at c (ch_count c)) value) (ch_head c) (ch_count c + 1).

(** A typed channel clears the slot it takes. *)
Definition chan_take (c : BChan) : str * BChan :=
  let at_ := ch_head c * elem_width c in
  let value := sub_str (ch_q c) at_ (elem_width c) in
  let q := if 0 <? ch_stride c then mem_set (ch_q c) at_ (mem_zero (ch_stride c)) else ch_q c in
  (value, ring c q (Z.rem (ch_head c + 1) (ch_cap c)) (ch_count c - 1)).

(** ** The entries, one segment each *)

Inductive outcome : Type :=
  | Done (ok : Z) (value : str)
  | Waits.

Definition segment : Type := BChan * outcome * option Z.

(** [beans_chan_send] and [beans_chan_send_typed]. *)
Definition beans_chan_send (c : BChan) (fiber : Z) (value : str) : segment :=
  if (ch_count c <? ch_cap c) || ch_closed c then
    if ch_closed c then (c, Done 0 [], None)
    else
      let '(c, woken) := chan_wake_receiver (chan_put c value) in
      (c, Done 1 [], woken)
  else (with_lines c (fiber_line_push (ch_send c) fiber) (ch_recv c), Waits, None).

(** [beans_chan_recv] and [beans_chan_recv_typed]. *)
Definition beans_chan_recv (c : BChan) (fiber : Z) : segment :=
  if negb (ch_count c =? 0) || ch_closed c then
    if ch_count c =? 0 then (c, Done 0 [], None)
    else
      let '(value, c) := chan_take c in
      let '(c, woken) := chan_wake_sender c in
      (c, Done 1 value, woken)
  else (with_lines c (ch_send c) (fiber_line_push (ch_recv c) fiber), Waits, None).

Definition beans_chan_try_send (c : BChan) (value : str) : segment :=
  if ch_closed c || (ch_count c =? ch_cap c) then (c, Done 0 [], None)
  else
    let '(c, woken) := chan_wake_receiver (chan_put c value) in
    (c, Done 1 [], woken).

Definition beans_chan_try_recv (c : BChan) : segment :=
  if ch_count c =? 0 then (c, Done 0 [], None)
  else
    let '(value, c) := chan_take c in
    let '(c, woken) := chan_wake_sender c in
    (c, Done 1 value, woken).

(** Every parked fiber is woken, the senders first. *)
Definition beans_chan_close (c : BChan) : BChan * list Z :=
  (mkChan (ch_q c) (ch_head c) (ch_count c) (ch_cap c) true (ch_stride c) (ch_ptr_mask c) [] [],
   ch_send c ++ ch_recv c).

Definition beans_gate_open (c : BChan) : BChan * list Z := beans_chan_close c.
Definition beans_gate_is_open (c : BChan) : Z := c_bool (ch_closed c).
Definition beans_gate_wait (c : BChan) (fiber : Z) : segment :=
  if ch_closed c then (c, Done 1 [], None)
  else (with_lines c (ch_send c) (fiber_line_push (ch_recv c) fiber), Waits, None).

(** ** Fibers over one channel *)

(** What a waiting fiber wants; the flag is its waiter's [signalled]. *)
Inductive want : Type := WSend (value : str) | WRecv.

Record chan_state : Type := mkState {
  s_chan : BChan;
  s_wait : gmap Z (want * bool);
  s_sent : list str;
  s_got : list str
}.

(** What can happen next: a fiber calls an entry, a signalled fiber comes back
    from its park, a fiber that is not signalled observes its cancel. *)
Inductive event : Type :=
  | ESend (fiber : Z) (value : str)
  | ERecv (fiber : Z)
  | ETrySend (value : str)
  | ETryRecv
  | EClose
  | EWake (fiber : Z)
  | ECancel (fiber : Z).

Definition signal (ws : gmap Z (want * bool)) (woken : option Z) : gmap Z (want * bool) :=
  match woken with
  | None => ws
  | Some f => alter (fun w => (fst w, true)) f ws
  end.

(** The end of a send segment: the history, the waiter, the fiber woken. *)
Definition finish_send (s : chan_state) (fiber : option Z) (value : str) (r : segment) : chan_state :=
  let '(c, out, woken) := r in
  match out with
  | Waits =>
      mkState c (match fiber with Some f => <[f := (WSend value, false)]> (s_wait s) | None => s_wait s end) (s_sent s) (s_got s)
  | Done ok _ => mkState c (signal (s_wait s) woken) (if ok =? 1 then s_sent s ++ [value] else s_sent s) (s_got s)
  end.

Definition finish_recv (s : chan_state) (fiber : option Z) (r : segment) : chan_state :=
  let '(c, out, woken) := r in
  match out with
  | Waits =>
      mkState c (match fiber with Some f => <[f := (WRecv, false)]> (s_wait s) | None => s_wait s end) (s_sent s) (s_got s)
  | Done ok value => mkState c (signal (s_wait s) woken) (s_sent s) (if ok =? 1 then s_got s ++ [value] else s_got s)
  end.

Definition drop_wait (s : chan_state) (fiber : Z) : chan_state :=
  mkState (s_chan s) (delete fiber (s_wait s)) (s_sent s) (s_got s).

(** [None]: the event cannot happen in this state. *)
Definition chan_event (s : chan_state) (ev : event) : option chan_state :=
  let c := s_chan s in
  match ev with
  | ESend f v =>
      if bool_decide (s_wait s !! f = None) && (slen v =? elem_width c)
      then Some (finish_send s (Some f) v (beans_chan_send c f v)) else None
  | ERecv f =>
      if bool_decide (s_wait s !! f = None) then Some (finish_recv s (Some f) (beans_chan_recv c f)) else None
  | ETrySend v => if slen v =? elem_width c then Some (finish_send s None v (beans_chan_try_send c v)) else None
  | ETryRecv => Some (finish_recv s None (beans_chan_try_recv c))
  | EClose =>
      let '(c, woken) := beans_chan_close c in
      Some (mkState c (foldl (fun ws f => signal ws (Some f)) (s_wait s) woken) (s_sent s) (s_got s))
  | EWake f =>
      match s_wait s !! f with
      | Some (WSend v, true) => Some (finish_send (drop_wait s f) (Some f) v (beans_chan_send c f v))
      | Some (WRecv, true) => Some (finish_recv (drop_wait s f) (Some f) (beans_chan_recv c f))
      | _ => None
      end
  | ECancel f =>
      match s_wait s !! f with
      | Some (WSend _, false) =>
          Some (mkState (with_lines c (fiber_line_remove (ch_send c) f) (ch_recv c)) (delete f (s_wait s)) (s_sent s) (s_got s))
      | Some (WRecv, false) =>
          Some (mkState (with_lines c (ch_send c) (fiber_line_remove (ch_recv c) f)) (delete f (s_wait s)) (s_sent s) (s_got s))
      | _ => None
      end
  end.

Fixpoint chan_run (s : chan_state) (evs : list event) : option chan_state :=
  match evs with
  | [] => Some s
  | ev :: evs => s ← chan_event s ev; chan_run s evs
  end.

Definition chan_start (c : BChan) : chan_state := mkState c ∅ [] [].
