(* ===== verification/ChanProofs.v ===== *)
(** * ChanProofs: the ring and the lines of a channel

    [buffer c] is the content of the ring, oldest first; putting appends to it
    and taking removes its head.  [chan_ok] adds what the lines of waiting
    fibers promise: a fiber waits unsignalled exactly when it is in its line,
    and while receivers wait, enough fibers have been signalled to take what
    is buffered (and dually for senders). *)

From stdpp Require Import gmap.
From S2P Require Import Prelude Mem HeapSum HeapInv Chan.

Open Scope c_scope.

Implicit Types (ws : gmap Z (want * bool)) (c : BChan) (s : chan_state).

(** ** The ring *)

Lemma lookup_sub_str (m : str) off n k : 0 <= off ->
  sub_str m off n !! k = if decide (Z.of_nat k < n) then m !! (Z.to_nat off + k)%nat else None.
Proof.
  intros Ho. unfold sub_str. case_decide.
  - rewrite lookup_take_lt by lia. by rewrite lookup_drop.
  - apply lookup_take_ge. lia.
Qed.

Lemma lookup_mem_set (m : str) off bs k : 0 <= off -> off + slen bs <= slen m ->
  mem_set m off bs !! k = if decide (off <= Z.of_nat k < off + slen bs) then bs !! (k - Z.to_nat off)%nat else m !! k.
Proof.
  intros Ho Hl. unfold mem_set, slen in *. destruct (decide (k < Z.to_nat off)%nat) as [Hk|Hk].
  - rewrite lookup_app_l by (rewrite length_take; lia). rewrite lookup_take_lt by lia. by rewrite decide_False by lia.
  - rewrite lookup_app_r by (rewrite length_take; lia). rewrite length_take.
    replace (Z.to_nat off `min` length m)%nat with (Z.to_nat off) by lia. case_decide as Hd.
    + rewrite lookup_app_l by lia. done.
    + rewrite lookup_app_r by lia. rewrite lookup_drop. f_equal. lia.
Qed.

Section cells.
Context (q : str) (w : Z) (Hw : 0 < w).

Lemma cell_set_same i v : 0 <= i -> (i + 1) * w <= slen q -> slen v = w -> sub_str (mem_set q (i * w) v) (i * w) w = v.
Proof.
  intros Hi Hq Hv. apply list_eq. intros k. rewrite lookup_sub_str by nia. case_decide as Hk.
  - rewrite lookup_mem_set by nia. rewrite decide_True by nia. f_equal. lia.
  - symmetry. apply lookup_ge_None. unfold slen in Hv. lia.
Qed.

Lemma cell_set_other i j v : 0 <= i -> 0 <= j -> i <> j -> (j + 1) * w <= slen q -> slen v = w ->
  sub_str (mem_set q (j * w) v) (i * w) w = sub_str q (i * w) w.
Proof.
  intros Hi Hj Hij Hq Hv. apply list_eq. intros k. rewrite !lookup_sub_str by nia. case_decide as Hk; [|done].
  rewrite lookup_mem_set by nia. rewrite decide_False; [done|]. rewrite Hv. intros Hd.
  assert (i * w <= Z.of_nat (Z.to_nat (i * w) + k) < (i + 1) * w) by nia. nia.
Qed.
End cells.

Record ring_ok (c : BChan) : Prop := {
  rg_width : 0 < elem_width c;
  rg_head : 0 <= ch_head c < ch_cap c;
  rg_count : 0 <= ch_count c <= ch_cap c;
  rg_len : slen (ch_q c) = ch_cap c * elem_width c
}.

(** The element [i] places behind the head. *)
Definition nth_elem (c : BChan) (i : Z) : str := sub_str (ch_q c) (ring_at c i) (elem_width c).
Definition buffer (c : BChan) : list str := (fun i => nth_elem c (Z.of_nat i)) <$> seq 0 (Z.to_nat (ch_count c)).

Lemma buffer_length c : ring_ok c -> Z.of_nat (length (buffer c)) = ch_count c.
Proof. intros Hok. unfold buffer. rewrite length_fmap, length_seq. pose proof (rg_count c Hok). lia. Qed.

Lemma rem_range c i : ring_ok c -> 0 <= i -> 0 <= Z.rem (ch_head c + i) (ch_cap c) < ch_cap c.
Proof. intros Hok Hi. pose proof (rg_head c Hok). rewrite Z.rem_mod_nonneg by lia. apply Z.mod_pos_bound. lia. Qed.

Lemma rem_cases x cap : 0 <= x < 2 * cap -> Z.rem x cap = if x <? cap then x else x - cap.
Proof.
  intros Hx. rewrite Z.rem_mod_nonneg by lia. destruct (Z.ltb_spec x cap); [apply Z.mod_small; lia|].
  rewrite <-(Z_mod_plus_full x (-1)), Z.mod_small; lia.
Qed.

Lemma rem_inj c i j : ring_ok c -> 0 <= i < ch_cap c -> 0 <= j < ch_cap c ->
  Z.rem (ch_head c + i) (ch_cap c) = Z.rem (ch_head c + j) (ch_cap c) -> i = j.
Proof.
  intros Hok Hi Hj. pose proof (rg_head c Hok). rewrite !rem_cases by lia.
  destruct (Z.ltb_spec (ch_head c + i) (ch_cap c)), (Z.ltb_spec (ch_head c + j) (ch_cap c)); lia.
Qed.

Lemma put_ok c v : ring_ok c -> ch_count c < ch_cap c -> slen v = elem_width c ->
  ring_ok (chan_put c v) /\ buffer (chan_put c v) = buffer c ++ [v].
Proof.
  intros Hok Hc Hv. pose proof (rg_count c Hok). pose proof (rem_range c (ch_count c) Hok ltac:(lia)) as Hr.
  pose proof (rg_width c Hok) as Hw. pose proof (rg_len c Hok) as Hl.
  assert (Hfit : (Z.rem (ch_head c + ch_count c) (ch_cap c) + 1) * elem_width c <= slen (ch_q c) /\ 0 <= ring_at c (ch_count c)).
  { unfold ring_at. generalize dependent (Z.rem (ch_head c + ch_count c) (ch_cap c)). intros r Hr. nia. }
  destruct Hfit as [Hfit Hat]. split.
  - split; [done|by destruct Hok|cbn; lia|]. cbn [chan_put ring ch_q ch_cap]. rewrite mem_set_len; [done|done|rewrite Hv; unfold ring_at; lia].
  - unfold buffer. cbn [chan_put ring ch_count]. replace (Z.to_nat (ch_count c + 1)) with (S (Z.to_nat (ch_count c))) by lia.
    rewrite seq_S, fmap_app. cbn [fmap list_fmap]. f_equal.
    + apply list_fmap_ext. intros k i [Hi1 Hi2]%lookup_seq. unfold nth_elem, ring_at, elem_width. cbn [chan_put ring ch_q ch_head ch_cap ch_stride].
      apply cell_set_other; try done; [by apply rem_range; [|lia]|lia|]. intros He. apply rem_inj in He; [lia|done|lia|lia].
    + f_equal. unfold nth_elem. cbn [chan_put ring ch_q ch_head ch_cap]. unfold ring_at. cbn [chan_put ring ch_head ch_cap].
      replace (0 + Z.to_nat (ch_count c))%nat with (Z.to_nat (ch_count c)) by lia. rewrite Z2Nat.id by lia.
      apply cell_set_same; [done|lia|done|done].
Qed.

Lemma take_ok c v c' : ring_ok c -> ch_count c <> 0 -> chan_take c = (v, c') ->
  ring_ok c' /\ buffer c = v :: buffer c' /\ ch_count c' = ch_count c - 1.
Proof.
  intros Hok Hc. pose proof (rg_count c Hok). pose proof (rg_head c Hok) as Hh. pose proof (rg_width c Hok) as Hw. pose proof (rg_len c Hok) as Hl.
  unfold chan_take. intros [= <- <-].
  assert (Hfit : (ch_head c + 1) * elem_width c <= slen (ch_q c)) by nia.
  set (q := if 0 <? ch_stride c then _ else _).
  assert (Hq : slen q = slen (ch_q c) /\ forall i, 0 <= i -> i <> ch_head c ->
    sub_str q (i * elem_width c) (elem_width c) = sub_str (ch_q c) (i * elem_width c) (elem_width c)).
  { unfold q. destruct (Z.ltb_spec 0 (ch_stride c)); [|done].
    assert (He : elem_width c = ch_stride c) by (unfold elem_width; rewrite (proj2 (Z.ltb_ge _ _)); lia).
    assert (Hz : slen (mem_zero (ch_stride c)) = elem_width c) by (rewrite mem_zero_len; lia).
    split; [apply mem_set_len; nia|]. intros i Hi Hne. apply cell_set_other; lia || done. }
  destruct Hq as [Hq1 Hq2].
  assert (Hsucc : forall i, 0 <= i -> Z.rem (Z.rem (ch_head c + 1) (ch_cap c) + i) (ch_cap c) = Z.rem (ch_head c + (1 + i)) (ch_cap c)).
  { intros i Hi. pose proof (rem_range c 1 Hok ltac:(lia)). rewrite !Z.rem_mod_nonneg in * by lia. rewrite Zplus_mod_idemp_l. f_equal. lia. }
  split; [|split; [|done]].
  - split; cbn [ring ch_q ch_head ch_count ch_cap]; [done|exact (rem_range c 1 Hok ltac:(lia))|lia|rewrite Hq1; exact Hl].
  - unfold buffer. cbn [ring ch_count]. replace (Z.to_nat (ch_count c)) with (S (Z.to_nat (ch_count c - 1))) by lia.
    cbn [seq]. rewrite <-seq_shift, fmap_cons. f_equal.
    + unfold nth_elem, ring_at. rewrite Z.add_0_r, Z.rem_small by lia. done.
    + rewrite <-list_fmap_compose. apply list_fmap_ext. intros k i [Hi1 Hi2]%lookup_seq. cbn [compose]. unfold nth_elem, ring_at, elem_width.
      cbn [ring ch_q ch_head ch_cap ch_stride]. fold (elem_width c). rewrite Hsucc by lia. replace (Z.of_nat (S i)) with (1 + Z.of_nat i) by lia.
      symmetry. apply Hq2; [apply rem_range; [done|lia]|]. intros He.
      assert (Hh0 : Z.rem (ch_head c + (1 + Z.of_nat i)) (ch_cap c) = Z.rem (ch_head c + 0) (ch_cap c)) by (rewrite He, Z.add_0_r, Z.rem_small; lia).
      apply rem_inj in Hh0; [lia|done|lia|lia].
Qed.

Lemma lines_buffer c (send recv : list Z) : ring_ok (with_lines c send recv) <-> ring_ok c.
Proof. split; intros []; by split. Qed.

(** ** Counting the signalled *)

Definition tally (g : want * bool -> Z) (ws : gmap Z (want * bool)) : Z :=
  dsum (dom ws) (fun f => match ws !! f with Some w => g w | None => 0 end).
Definition tally_at (g : want * bool -> Z) (w : option (want * bool)) : Z := match w with Some w => g w | None => 0 end.

Lemma tally_delete g ws f : tally g (delete f ws) = tally g ws - tally_at g (ws !! f).
Proof.
  unfold tally, tally_at. destruct (ws !! f) as [w|] eqn:Hf; [|rewrite delete_id by done; lia].
  rewrite (dsum_remove (dom ws) f) by (apply elem_of_dom; eauto). rewrite Hf, dom_delete_L.
  rewrite (dsum_ext _ _ (fun f => match ws !! f with Some w => g w | None => 0 end)); [lia|].
  intros x Hx. rewrite lookup_delete_ne by set_solver. done.
Qed.

Lemma tally_insert g ws f w : tally g (<[f := w]> ws) = tally g ws - tally_at g (ws !! f) + g w.
Proof.
  rewrite <-insert_delete_eq. pose proof (tally_delete g (<[f := w]> (delete f ws)) f) as H.
  rewrite delete_insert_eq, delete_delete_eq, lookup_insert_eq, tally_delete in H. cbn [tally_at] in H. lia.
Qed.

Definition is_recv (w : want) : bool := match w with WRecv => true | WSend _ => false end.
Definition sig (recv : bool) (w : want * bool) : Z := if snd w && Bool.eqb (is_recv (fst w)) recv then 1 else 0.
Definition signalled (recv : bool) (ws : gmap Z (want * bool)) : Z := tally (sig recv) ws.

Lemma signalled_nonneg recv ws : 0 <= signalled recv ws.
Proof. apply dsum_nonneg. intros f _. destruct (ws !! f) as [[w b]|]; [|done]. unfold sig. destruct (_ && _); lia. Qed.

(** ** The invariant *)

(** [line] holds the fibers that wait on that side and are not signalled. *)
Definition line_ok (recv : bool) (line : list Z) (ws : gmap Z (want * bool)) : Prop :=
  NoDup line /\ forall f, f ∈ line <-> exists w, ws !! f = Some (w, false) /\ is_recv w = recv.

(** [kr] and [ks] count a signalled fiber that has left its park and not yet
    taken its element or its place. *)
Record chan_ok (kr ks : Z) (s : chan_state) : Prop := {
  ck_ring : ring_ok (s_chan s);
  ck_fifo : s_sent s = s_got s ++ buffer (s_chan s);
  ck_send : line_ok false (ch_send (s_chan s)) (s_wait s);
  ck_recv : line_ok true (ch_recv (s_chan s)) (s_wait s);
  ck_value : forall f v b, s_wait s !! f = Some (WSend v, b) -> slen v = elem_width (s_chan s);
  ck_closed : ch_closed (s_chan s) = true -> ch_send (s_chan s) = [] /\ ch_recv (s_chan s) = [];
  ck_takers : ch_recv (s_chan s) <> [] -> ch_count (s_chan s) <= signalled true (s_wait s) + kr;
  ck_givers : ch_send (s_chan s) <> [] -> ch_cap (s_chan s) - ch_count (s_chan s) <= signalled false (s_wait s) + ks
}.

Lemma signalled_insert recv ws f w : signalled recv (<[f := w]> ws) = signalled recv ws - tally_at (sig recv) (ws !! f) + sig recv w.
Proof. apply tally_insert. Qed.

Lemma line_insert_signalled recv line ws f w : line_ok recv line ws -> ws !! f = None -> line_ok recv line (<[f := (w, true)]> ws).
Proof.
  intros [Hn Hl] Hf. split; [done|]. intros g. rewrite Hl. destruct (decide (g = f)) as [->|Hg].
  - rewrite lookup_insert_eq, Hf. split; intros (? & [=] & _).
  - by rewrite lookup_insert_ne.
Qed.

(** The head of a line is signalled. *)
Lemma signal_head recv f line ws : line_ok recv (f :: line) ws ->
  line_ok recv line (signal ws (Some f)) /\ (forall l, line_ok (negb recv) l ws -> line_ok (negb recv) l (signal ws (Some f))) /\
  signalled recv (signal ws (Some f)) = signalled recv ws + 1 /\ signalled (negb recv) (signal ws (Some f)) = signalled (negb recv) ws /\
  exists w, ws !! f = Some (w, false) /\ signal ws (Some f) = <[f := (w, true)]> ws.
Proof.
  intros [Hn Hl]. apply NoDup_cons in Hn as [Hf Hn]. destruct (proj1 (Hl f)) as (w & Hw & Hr); [by left|].
  assert (He : signal ws (Some f) = <[f := (w, true)]> ws).
  { unfold signal. apply map_eq. intros g. destruct (decide (g = f)) as [->|Hg].
    - by rewrite lookup_alter_eq, lookup_insert_eq, Hw.
    - by rewrite lookup_alter_ne, lookup_insert_ne. }
  rewrite He. split; [|split; [|split; [|split; [|by exists w]]]].
  - split; [done|]. intros g. destruct (decide (g = f)) as [->|Hg].
    + rewrite lookup_insert_eq. split; [done|]. by intros (? & [=] & _).
    + rewrite lookup_insert_ne, <-Hl, elem_of_cons by done. tauto.
  - intros l [Hnl Hll]. split; [done|]. intros g. rewrite Hll. destruct (decide (g = f)) as [->|Hg].
    + rewrite lookup_insert_eq, Hw. split; intros (? & [= <-] & Hr'). rewrite Hr in Hr'. by destruct recv.
    + by rewrite lookup_insert_ne.
  - rewrite signalled_insert, Hw. unfold tally_at, sig. cbn [fst snd andb]. rewrite Hr, eqb_reflx. lia.
  - rewrite signalled_insert, Hw. unfold tally_at, sig. cbn [fst snd andb]. rewrite Hr. destruct recv; cbn; lia.
Qed.

(** A fiber joins its line. *)
Lemma line_push recv line ws f w : line_ok recv line ws -> ws !! f = None -> is_recv w = recv ->
  line_ok recv (fiber_line_push line f) (<[f := (w, false)]> ws) /\
  (forall l, line_ok (negb recv) l ws -> line_ok (negb recv) l (<[f := (w, false)]> ws)) /\
  forall r, signalled r (<[f := (w, false)]> ws) = signalled r ws.
Proof.
  intros [Hn Hl] Hf Hr. split; [split|split].
  - unfold fiber_line_push. apply NoDup_app. split; [done|]. split; [|apply NoDup_singleton].
    intros g Hg ->%list_elem_of_singleton. apply Hl in Hg as (? & ? & _). congruence.
  - intros g. unfold fiber_line_push. rewrite elem_of_app, list_elem_of_singleton, Hl. destruct (decide (g = f)) as [->|Hg].
    + rewrite lookup_insert_eq. split; [intros _; by exists w|by right].
    + rewrite lookup_insert_ne by done. tauto.
  - intros l [Hnl Hll]. split; [done|]. intros g. rewrite Hll. destruct (decide (g = f)) as [->|Hg].
    + rewrite lookup_insert_eq, Hf. split; [by intros (? & [=] & _)|]. intros (? & [= <-] & Hr'). rewrite Hr in Hr'. by destruct recv.
    + by rewrite lookup_insert_ne.
  - intros r. rewrite signalled_insert, Hf. unfold tally_at, sig. cbn. lia.
Qed.

Lemma value_signal ws (f : Z) w v b (g : Z) n : ws !! f = Some (w, false) -> (forall f v b, ws !! f = Some (WSend v, b) -> slen v = n) ->
  <[f := (w, true)]> ws !! g = Some (WSend v, b) -> slen v = n.
Proof.
  intros Hf Hv. destruct (decide (g = f)) as [->|Hg].
  - rewrite lookup_insert_eq. intros [= -> <-]. by apply (Hv f v false).
  - rewrite lookup_insert_ne by done. apply Hv.
Qed.

(** Putting an element, with the receiver it wakes. *)
Lemma put_inv kr ks s v c woken : chan_ok kr ks s -> 0 <= kr -> 0 <= ks <= 1 -> ch_closed (s_chan s) = false -> ch_count (s_chan s) < ch_cap (s_chan s) ->
  slen v = elem_width (s_chan s) -> chan_wake_receiver (chan_put (s_chan s) v) = (c, woken) ->
  chan_ok kr 0 (mkState c (signal (s_wait s) woken) (s_sent s ++ [v]) (s_got s)).
Proof.
  intros [Hr Hf Hs Hv Hval Hcl Htk Hgv] Hkr Hks Hc Hlt Hlen. destruct (put_ok _ v Hr Hlt Hlen) as [Hr' Hb].
  unfold chan_wake_receiver, fiber_line_pop. change (ch_recv (chan_put (s_chan s) v)) with (ch_recv (s_chan s)).
  change (ch_send (chan_put (s_chan s) v)) with (ch_send (s_chan s)). destruct (ch_recv (s_chan s)) as [|f line] eqn:Hline; intros [= <- <-].
  - split; cbn [s_chan s_wait s_sent s_got with_lines ch_send ch_recv ch_closed ch_count ch_cap chan_put ring]; try done.
    + by apply lines_buffer.
    + rewrite Hf, <-app_assoc. f_equal. exact (eq_sym Hb).
    + intros Hne. specialize (Hgv Hne). cbn [signal]. lia.
  - destruct (signal_head true f line (s_wait s) Hv) as (Hl' & Ho & Hsg & Hsn & w & Hw & He).
    split; cbn [s_chan s_wait s_sent s_got with_lines ch_send ch_recv ch_closed ch_count ch_cap chan_put ring]; try done.
    + by apply lines_buffer.
    + rewrite Hf, <-app_assoc. f_equal. exact (eq_sym Hb).
    + by apply (Ho _ Hs).
    + intros g v' b. rewrite He. by apply value_signal.
    + by rewrite Hc.
    + intros _. rewrite Hsg. specialize (Htk ltac:(done)). lia.
    + intros Hne. specialize (Hgv Hne). cbn [negb] in Hsn. rewrite Hsn. lia.
Qed.

(** Taking an element, with the sender it wakes. *)
Lemma take_inv kr ks s v c0 c woken : chan_ok kr ks s -> 0 <= ks -> 0 <= kr <= 1 -> ch_count (s_chan s) <> 0 ->
  chan_take (s_chan s) = (v, c0) -> chan_wake_sender c0 = (c, woken) ->
  chan_ok 0 ks (mkState c (signal (s_wait s) woken) (s_sent s) (s_got s ++ [v])).
Proof.
  intros [Hr Hf Hs Hv Hval Hcl Htk Hgv] Hks Hkr Hc Htake. destruct (take_ok _ v c0 Hr Hc Htake) as (Hr' & Hb & Hcnt).
  assert (Hsame : ch_send c0 = ch_send (s_chan s) /\ ch_recv c0 = ch_recv (s_chan s) /\ ch_closed c0 = ch_closed (s_chan s) /\
    ch_cap c0 = ch_cap (s_chan s) /\ elem_width c0 = elem_width (s_chan s)) by (unfold chan_take in Htake; by injection Htake as _ <-).
  destruct Hsame as (H1 & H2 & H3 & H4 & H5). unfold chan_wake_sender, fiber_line_pop. rewrite H1, H2.
  destruct (ch_send (s_chan s)) as [|f line] eqn:Hline; intros [= <- <-].
  - split; cbn [s_chan s_wait s_sent s_got with_lines ch_send ch_recv ch_closed ch_count ch_cap]; try done.
    + by apply lines_buffer.
    + rewrite Hf, Hb, <-app_assoc. done.
    + intros g v' b Hg. rewrite (Hval g v' b Hg). exact (eq_sym H5).
    + rewrite H3. intros Hcl'. by apply Hcl.
    + intros Hne. specialize (Htk Hne). rewrite Hcnt. cbn [signal]. lia.
  - destruct (signal_head false f line (s_wait s) Hs) as (Hl' & Ho & Hsg & Hsn & w & Hw & He).
    split; cbn [s_chan s_wait s_sent s_got with_lines ch_send ch_recv ch_closed ch_count ch_cap]; try done.
    + by apply lines_buffer.
    + rewrite Hf, Hb, <-app_assoc. done.
    + by apply (Ho _ Hv).
    + intros g v' b Hg. rewrite He in Hg. apply (value_signal _ f w v' b g (elem_width (s_chan s))) in Hg; [|done..]. rewrite Hg. exact (eq_sym H5).
    + rewrite H3. intros Hcl'. destruct (Hcl Hcl') as [[=] _].
    + intros Hne. specialize (Htk Hne). rewrite Hcnt. cbn [negb] in Hsn. rewrite Hsn. lia.
    + intros _. rewrite Hsg, Hcnt, H4. specialize (Hgv ltac:(done)). lia.
Qed.

(** A closed channel leaves the lines empty, so nothing is promised. *)
Lemma closed_slack kr ks s : chan_ok kr ks s -> ch_closed (s_chan s) = true -> chan_ok 0 0 s.
Proof. intros [Hr Hf Hs Hv Hval Hcl Htk Hgv] Hc. destruct (Hcl Hc) as [H1 H2]. split; try done; by rewrite ?H1, ?H2. Qed.

(** One segment of a send. *)
Lemma send_inv ks s f v : chan_ok 0 ks s -> 0 <= ks <= 1 -> s_wait s !! f = None -> slen v = elem_width (s_chan s) ->
  chan_ok 0 0 (finish_send s (Some f) v (beans_chan_send (s_chan s) f v)).
Proof.
  intros Hok Hks Hf Hv. unfold beans_chan_send. pose proof (rg_count _ (ck_ring _ _ _ Hok)) as Hcnt.
  destruct (ch_closed (s_chan s)) eqn:Hcl.
  { rewrite orb_true_r. cbn [finish_send signal]. apply (closed_slack 0 ks) in Hok; [|done]. by destruct s. }
  rewrite orb_false_r. destruct (Z.ltb_spec (ch_count (s_chan s)) (ch_cap (s_chan s))) as [Hlt|Hge].
  - destruct (chan_wake_receiver (chan_put (s_chan s) v)) as [c woken] eqn:Hw. cbn [finish_send].
    by apply (put_inv 0 ks s v c woken Hok).
  - cbn [finish_send]. destruct Hok as [Hr Hfi Hs Hrv Hval Hclo Htk Hgv].
    destruct (line_push false (ch_send (s_chan s)) (s_wait s) f (WSend v) Hs Hf eq_refl) as (Hl & Ho & Hsg).
    split; cbn [s_chan s_wait s_sent s_got with_lines ch_send ch_recv ch_closed ch_count ch_cap]; try done.
    + by apply lines_buffer.
    + by apply (Ho _ Hrv).
    + intros g v' b. destruct (decide (g = f)) as [->|Hg]; [rewrite lookup_insert_eq; by intros [= <- <-]|].
      rewrite lookup_insert_ne by done. apply Hval.
    + by rewrite Hcl.
    + rewrite Hsg. apply Htk.
    + intros _. rewrite Hsg. pose proof (signalled_nonneg false (s_wait s)). lia.
Qed.

(** One segment of a receive. *)
Lemma recv_inv kr s f : chan_ok kr 0 s -> 0 <= kr <= 1 -> s_wait s !! f = None ->
  chan_ok 0 0 (finish_recv s (Some f) (beans_chan_recv (s_chan s) f)).
Proof.
  intros Hok Hkr Hf. unfold beans_chan_recv. destruct (Z.eqb_spec (ch_count (s_chan s)) 0) as [Hz|Hz]; cbn [negb orb].
  - destruct (ch_closed (s_chan s)) eqn:Hcl.
    { cbn [finish_recv signal]. apply (closed_slack kr 0) in Hok; [|done]. by destruct s. }
    cbn [finish_recv]. destruct Hok as [Hr Hfi Hs Hrv Hval Hclo Htk Hgv].
    destruct (line_push true (ch_recv (s_chan s)) (s_wait s) f WRecv Hrv Hf eq_refl) as (Hl & Ho & Hsg).
    split; cbn [s_chan s_wait s_sent s_got with_lines ch_send ch_recv ch_closed ch_count ch_cap]; try done.
    + by apply lines_buffer.
    + by apply (Ho _ Hs).
    + intros g v' b. destruct (decide (g = f)) as [->|Hg]; [rewrite lookup_insert_eq; by intros [=]|].
      rewrite lookup_insert_ne by done. apply Hval.
    + by rewrite Hcl.
    + intros _. rewrite Hsg. pose proof (signalled_nonneg true (s_wait s)). lia.
    + rewrite Hsg. apply Hgv.
  - destruct (chan_take (s_chan s)) as [v c0] eqn:Ht. destruct (chan_wake_sender c0) as [c woken] eqn:Hw. cbn [finish_recv].
    by apply (take_inv kr 0 s v c0 c woken Hok).
Qed.

(** A signalled fiber leaves its park. *)
Lemma drop_inv s f w : chan_ok 0 0 s -> s_wait s !! f = Some (w, true) ->
  chan_ok (if is_recv w then 1 else 0) (if is_recv w then 0 else 1) (drop_wait s f).
Proof.
  intros [Hr Hf Hs Hv Hval Hcl Htk Hgv] Hw.
  assert (Hsig : forall r, signalled r (delete f (s_wait s)) = signalled r (s_wait s) - if Bool.eqb (is_recv w) r then 1 else 0).
  { intros r. unfold signalled. rewrite tally_delete, Hw. cbn. unfold sig. cbn. by destruct (Bool.eqb _ _). }
  assert (Hline : forall r l, line_ok r l (s_wait s) -> line_ok r l (delete f (s_wait s))).
  { intros r l [Hn Hl]. split; [done|]. intros g. rewrite Hl. destruct (decide (g = f)) as [->|Hg].
    - rewrite lookup_delete_eq, Hw. split; intros (? & [=] & _).
    - by rewrite lookup_delete_ne. }
  split; cbn [s_chan s_wait s_sent s_got drop_wait]; auto.
  - intros g v b Hg. apply lookup_delete_Some in Hg as [_ Hg]. by apply (Hval g v b).
  - intros Hne. rewrite Hsig. specialize (Htk Hne). destruct (is_recv w); cbn; lia.
  - intros Hne. rewrite Hsig. specialize (Hgv Hne). destruct (is_recv w); cbn; lia.
Qed.

Lemma line_remove_elem line (f : Z) : NoDup line ->
  NoDup (fiber_line_remove line f) /\ forall g, g ∈ fiber_line_remove line f <-> g ∈ line /\ g <> f.
Proof.
  induction 1 as [|x line Hx Hn [IHn IH]]; cbn [fiber_line_remove]; [split; [constructor|set_solver]|].
  destruct (Z.eqb_spec x f) as [->|Hne].
  - split; [done|]. intros g. set_solver.
  - split; [apply NoDup_cons; rewrite IH; split; [tauto|done]|]. intros g. rewrite !elem_of_cons, IH.
    split; [intros [->|[Hg Hgf]]; auto|intros [[->|Hg] Hgf]; auto].
Qed.

(** A fiber that is not signalled leaves its line. *)
Lemma cancel_line recv line ws (f : Z) w : line_ok recv line ws -> ws !! f = Some (w, false) -> is_recv w = recv ->
  line_ok recv (fiber_line_remove line f) (delete f ws).
Proof.
  intros [Hn Hl] Hw Hr. destruct (line_remove_elem line f Hn) as [Hn' He]. split; [done|]. intros g. rewrite He, Hl.
  destruct (decide (g = f)) as [->|Hg]; [rewrite lookup_delete_eq; split; [by intros []|by intros (? & [=] & _)]|].
  rewrite lookup_delete_ne by done. tauto.
Qed.

Lemma cancel_other recv line ws (f : Z) w : line_ok recv line ws -> ws !! f = Some (w, false) -> is_recv w <> recv ->
  line_ok recv line (delete f ws).
Proof.
  intros [Hn Hl] Hw Hr. split; [done|]. intros g. rewrite Hl. destruct (decide (g = f)) as [->|Hg].
  - rewrite lookup_delete_eq, Hw. split; [by intros (? & [= <-] & ?)|by intros (? & [=] & _)].
  - by rewrite lookup_delete_ne.
Qed.

Lemma cancel_signalled recv ws (f : Z) w : ws !! f = Some (w, false) -> signalled recv (delete f ws) = signalled recv ws.
Proof. intros Hw. unfold signalled. rewrite tally_delete, Hw. cbn. unfold sig. cbn. lia. Qed.

Lemma remove_nonempty line (f : Z) : fiber_line_remove line f <> [] -> line <> [].
Proof. by destruct line. Qed.

(** Everyone in the lines is signalled. *)
Lemma signal_all l : forall ws g, foldl (fun ws f => signal ws (Some f)) ws l !! g =
  if decide (g ∈ l) then (fun w => (fst w, true)) <$> ws !! g else ws !! g.
Proof.
  induction l as [|f l IH]; intros ws g; cbn [foldl]; [rewrite decide_False by apply not_elem_of_nil; done|].
  rewrite IH. unfold signal. destruct (decide (g = f)) as [->|Hg].
  - rewrite lookup_alter_eq, (decide_True (P := f ∈ f :: l)) by (by left). case_decide; [|done]. by destruct (ws !! f) as [[]|].
  - rewrite lookup_alter_ne by done. destruct (decide (g ∈ l)); [by rewrite decide_True by (by right)|].
    rewrite decide_False; [done|]. by intros [|]%elem_of_cons.
Qed.

Lemma close_inv s c woken : chan_ok 0 0 s -> beans_chan_close (s_chan s) = (c, woken) ->
  chan_ok 0 0 (mkState c (foldl (fun ws f => signal ws (Some f)) (s_wait s) woken) (s_sent s) (s_got s)).
Proof.
  intros [Hr Hf Hs Hv Hval Hcl Htk Hgv] [= <- <-].
  assert (Hnone : forall r, line_ok r [] (foldl (fun ws f => signal ws (Some f)) (s_wait s) (ch_send (s_chan s) ++ ch_recv (s_chan s)))).
  { intros r. split; [constructor|]. intros g. split; [by intros ?%elem_of_nil|]. rewrite signal_all. intros (w & Hw & Hrw). exfalso.
    case_decide as Hin.
    - by destruct (s_wait s !! g) as [[]|].
    - apply Hin, elem_of_app. destruct (is_recv w) eqn:Hi; [right; apply Hv|left; apply Hs]; by exists w. }
  split; cbn [s_chan s_wait s_sent s_got ch_send ch_recv ch_closed ch_count ch_cap]; try done.
  - by destruct Hr.
  - intros g v b. rewrite signal_all. case_decide; [|apply Hval]. destruct (s_wait s !! g) as [[w b']|] eqn:Hg; [|done].
    cbn. intros [= -> _]. by apply (Hval g v b').
Qed.

(** ** Events *)

Lemma event_ok s ev s' : chan_ok 0 0 s -> chan_event s ev = Some s' -> chan_ok 0 0 s'.
Proof.
  intros Hok. unfold chan_event. destruct ev as [f v|f|v| | |f|f].
  - case_bool_decide as Hf; [|done]. destruct (Z.eqb_spec (slen v) (elem_width (s_chan s))); [|done]. intros [= <-].
    by apply (send_inv 0).
  - case_bool_decide as Hf; [|done]. intros [= <-]. by apply (recv_inv 0).
  - destruct (Z.eqb_spec (slen v) (elem_width (s_chan s))); [|done]. intros [= <-]. unfold beans_chan_try_send.
    destruct (ch_closed (s_chan s)) eqn:Hcl; cbn [orb finish_send signal]; [by destruct s|].
    destruct (Z.eqb_spec (ch_count (s_chan s)) (ch_cap (s_chan s))) as [He|Hne]; [by destruct s|].
    destruct (chan_wake_receiver _) as [c woken] eqn:Hw. pose proof (rg_count _ (ck_ring _ _ _ Hok)).
    apply (put_inv 0 0 s v c woken Hok); try done; lia.
  - intros [= <-]. unfold beans_chan_try_recv. destruct (Z.eqb_spec (ch_count (s_chan s)) 0) as [Hz|Hz]; [by destruct s|].
    destruct (chan_take (s_chan s)) as [v c0] eqn:Ht. destruct (chan_wake_sender c0) as [c woken] eqn:Hw.
    by apply (take_inv 0 0 s v c0 c woken Hok).
  - destruct (beans_chan_close (s_chan s)) as [c woken] eqn:Hc. intros [= <-]. by apply close_inv.
  - destruct (s_wait s !! f) as [[[v|] []]|] eqn:Hf; try done; intros [= <-].
    + pose proof (drop_inv s f _ Hok Hf) as Hd. cbn in Hd.
      apply (send_inv 1 (drop_wait s f)); [done|lia|apply lookup_delete_eq|]. by apply (ck_value _ _ _ Hok f v true).
    + pose proof (drop_inv s f _ Hok Hf) as Hd. cbn in Hd. apply (recv_inv 1 (drop_wait s f)); [done|lia|apply lookup_delete_eq].
  - destruct (s_wait s !! f) as [[w b]|] eqn:Hf; [|done].
    assert (Hgen : forall c, b = false -> c = (if is_recv w then with_lines (s_chan s) (ch_send (s_chan s)) (fiber_line_remove (ch_recv (s_chan s)) f)
        else with_lines (s_chan s) (fiber_line_remove (ch_send (s_chan s)) f) (ch_recv (s_chan s))) ->
      chan_ok 0 0 (mkState c (delete f (s_wait s)) (s_sent s) (s_got s))).
    { intros c -> ->. destruct Hok as [Hr Hfi Hs Hv Hval Hcl Htk Hgv]. destruct (is_recv w) eqn:Hw.
      - split; cbn [s_chan s_wait s_sent s_got with_lines ch_send ch_recv ch_closed ch_count ch_cap]; try done.
        + by apply lines_buffer.
        + apply (cancel_other _ _ _ _ w); [done..|congruence].
        + by apply (cancel_line _ _ _ _ w).
        + intros g v b [_ Hg]%lookup_delete_Some. by apply (Hval g v b).
        + intros Hc. destruct (Hcl Hc) as [-> ->]. done.
        + intros Hne. rewrite (cancel_signalled _ _ _ w) by done. by apply Htk, (remove_nonempty _ f).
        + intros Hne. rewrite (cancel_signalled _ _ _ w) by done. by apply Hgv.
      - split; cbn [s_chan s_wait s_sent s_got with_lines ch_send ch_recv ch_closed ch_count ch_cap]; try done.
        + by apply lines_buffer.
        + by apply (cancel_line _ _ _ _ w).
        + apply (cancel_other _ _ _ _ w); [done..|congruence].
        + intros g v b [_ Hg]%lookup_delete_Some. by apply (Hval g v b).
        + intros Hc. destruct (Hcl Hc) as [-> ->]. done.
        + intros Hne. rewrite (cancel_signalled _ _ _ w) by done. by apply Htk.
        + intros Hne. rewrite (cancel_signalled _ _ _ w) by done. by apply Hgv, (remove_nonempty _ f). }
    destruct w as [v|], b; try done; intros [= <-]; by apply Hgen.
Qed.

Lemma run_ok evs : forall s s', chan_ok 0 0 s -> chan_run s evs = Some s' -> chan_ok 0 0 s'.
Proof.
  induction evs as [|ev evs IH]; intros s s' Hok; cbn [chan_run]; [by intros [= <-]|].
  destruct (chan_event s ev) as [s1|] eqn:He; [|done]. cbn [mbind option_bind]. apply IH. by apply (event_ok s ev).
Qed.

Lemma start_chan_ok c : ring_ok c -> ch_count c = 0 -> ch_send c = [] -> ch_recv c = [] -> chan_ok 0 0 (chan_start c).
Proof.
  intros Hr Hc Hs Hv. split; cbn [chan_start s_chan s_wait s_sent s_got]; try done.
  - unfold buffer. by rewrite Hc.
  - rewrite Hs. split; [constructor|]. intros f. rewrite lookup_empty. split; [by intros ?%elem_of_nil|by intros (? & [=] & _)].
  - rewrite Hv. split; [constructor|]. intros f. rewrite lookup_empty. split; [by intros ?%elem_of_nil|by intros (? & [=] & _)].
Qed.

Section new.
Context `{Alloc, !AllocLaws}.

Lemma chan_new_ok cap ptr c : beans_chan_new cap ptr = Ok c ->
  ring_ok c /\ ch_count c = 0 /\ ch_send c = [] /\ ch_recv c = [] /\ elem_width c = 8 /\ ch_closed c = false /\ ch_cap c = Z.max 1 cap.
Proof.
  unfold beans_chan_new. destruct (rt_zalloc _) as [q|] eqn:Hq; [|done]. intros [= <-].
  assert (Hcap : (if 0 <? cap then cap else 1) = Z.max 1 cap) by (destruct (Z.ltb_spec 0 cap); lia).
  apply rt_zalloc_eq in Hq as ->. rewrite Hcap. split; [|done].
  split; cbn [elem_width ch_stride ch_head ch_cap ch_count ch_q]; [done|lia|lia|]. rewrite mem_zero_len by lia. done.
Qed.

Lemma chan_new_typed_ok cap stride ptr c : beans_chan_new_typed cap stride ptr = Ok c ->
  ring_ok c /\ ch_count c = 0 /\ ch_send c = [] /\ ch_recv c = [] /\ elem_width c = stride /\ ch_closed c = false /\ ch_cap c = Z.max 1 cap.
Proof.
  unfold beans_chan_new_typed. destruct (Z.leb_spec stride 0); cbn [orb]; [done|]. destruct (2 ^ 30 <? stride); [done|].
  destruct (_ <? _); [done|]. destruct (rt_zalloc _) as [q|] eqn:Hq; [|done]. intros [= <-].
  assert (Hcap : (if 0 <? cap then cap else 1) = Z.max 1 cap) by (destruct (Z.ltb_spec 0 cap); lia).
  apply rt_zalloc_eq in Hq as ->. rewrite Hcap.
  assert (Hw : forall q h n cl m a b, elem_width (mkChan q h n (Z.max 1 cap) cl stride m a b) = stride).
  { intros. unfold elem_width. cbn [ch_stride]. rewrite (proj2 (Z.ltb_ge _ _)); [done|lia]. }
  split; [|split_and!; try done; by rewrite Hw].
  split; rewrite ?Hw; cbn [ch_head ch_cap ch_count ch_q]; [done|lia|lia|]. rewrite mem_zero_len by lia. done.
Qed.
End new.
