(* ===== verification/ChanTheorems.v ===== *)
(** * ChanTheorems: what a channel promises to the fibers that share it

    [chan_correct] is the contract of a channel over every run of its entries;
    [chan_entries_correct] is the answer of each entry on its own, branch by
    branch. *)

From stdpp Require Import gmap.
From S2P Require Import Prelude Mem.
From S2P Require Import HeapSum HeapInv.
From S2P Require Import Chan.
From S2P Require Import ChanProofs.

Open Scope c_scope.

(** Nobody is on the way back from a park. *)
Definition quiet (s : chan_state) : Prop := forall f w, s_wait s !! f <> Some (w, true).

Lemma quiet_signalled s r : quiet s -> signalled r (s_wait s) = 0.
Proof.
  intros Hq. apply dsum_zero. intros f _. destruct (s_wait s !! f) as [[w []]|] eqn:Hf; [by destruct (Hq f w)|..]; done.
Qed.

(** C15: what enters a channel leaves it once and in order, however the fibers
    that share it interleave: after any run of sends, receives, tries, a
    close, wakes and cancels on a fresh channel, the elements accepted are
    those delivered followed by those buffered, at most [cap] are buffered,
    a closed channel has nobody parked who has not been woken, and no wakeup
    is lost: once the woken fibers have run, a parked receiver means that the
    channel is empty and a parked sender that it is full, so the two never
    wait for each other. *)
Theorem chan_correct `{Alloc, !AllocLaws} cap stride ptr_mask c evs s :
  beans_chan_new cap ptr_mask = Ok c \/ beans_chan_new_typed cap stride ptr_mask = Ok c -> chan_run (chan_start c) evs = Some s ->
  s_sent s = s_got s ++ buffer (s_chan s) /\
  Z.of_nat (length (buffer (s_chan s))) = ch_count (s_chan s) /\ ch_count (s_chan s) <= ch_cap (s_chan s) /\
  (ch_closed (s_chan s) = true -> forall f w, s_wait s !! f <> Some (w, false)) /\
  (quiet s -> forall f, (s_wait s !! f = Some (WRecv, false) -> buffer (s_chan s) = []) /\
    (forall v, s_wait s !! f = Some (WSend v, false) -> Z.of_nat (length (buffer (s_chan s))) = ch_cap (s_chan s))).
Proof.
  intros Hnew Hrun.
  assert (Hstart : ring_ok c /\ ch_count c = 0 /\ ch_send c = [] /\ ch_recv c = [])
    by (destruct Hnew as [Hn|Hn]; [apply chan_new_ok in Hn|apply chan_new_typed_ok in Hn]; tauto).
  destruct Hstart as (Hr & Hz & Hs & Hv).
  pose proof (run_ok _ _ _ (start_chan_ok c Hr Hz Hs Hv) Hrun) as Hok.
  pose proof (rg_count _ (ck_ring _ _ _ Hok)) as Hc. pose proof (buffer_length _ (ck_ring _ _ _ Hok)) as Hl.
  split; [apply Hok|]. split; [done|]. split; [lia|]. split.
  - intros Hcl f w Hf. destruct (ck_closed _ _ _ Hok Hcl) as [H1 H2]. destruct (is_recv w) eqn:Hw.
    + assert (Hin : f ∈ ch_recv (s_chan s)) by (apply (ck_recv _ _ _ Hok); eauto). rewrite H2 in Hin. by apply elem_of_nil in Hin.
    + assert (Hin : f ∈ ch_send (s_chan s)) by (apply (ck_send _ _ _ Hok); eauto). rewrite H1 in Hin. by apply elem_of_nil in Hin.
  - intros Hq f. split.
    + intros Hf. assert (Hin : f ∈ ch_recv (s_chan s)) by (apply (ck_recv _ _ _ Hok); eauto).
      pose proof (ck_takers _ _ _ Hok ltac:(intros He; rewrite He in Hin; by apply elem_of_nil in Hin)) as Ht.
      rewrite quiet_signalled in Ht by done. apply length_zero_iff_nil. lia.
    + intros v Hf. assert (Hin : f ∈ ch_send (s_chan s)) by (apply (ck_send _ _ _ Hok); eauto).
      pose proof (ck_givers _ _ _ Hok ltac:(intros He; rewrite He in Hin; by apply elem_of_nil in Hin)) as Ht.
      rewrite quiet_signalled in Ht by done. lia.
Qed.

#[local] Instance chan_alloc : Alloc := fun n => if n <? 2 ^ 63 then Some (mem_zero n) else None.
#[local] Instance chan_alloc_laws : AllocLaws.
Proof.
  split; intros n b Hn; unfold rt_alloc, chan_alloc; destruct (Z.ltb_spec n (2 ^ 63)); try done.
  intros [= <-]. by apply mem_zero_len.
Qed.

(** Fiber 1 fills a channel of one byte; fiber 2 has to wait and is woken by
    the receive of fiber 3; fiber 3 then waits and is given the second byte. *)
Definition demo_events : list event :=
  [ESend 1 [7]; ESend 2 [8]; ERecv 3; EWake 2; ERecv 3; ERecv 3; ESend 1 [9]; EWake 3; ERecv 4].
Definition demo_start : BChan := mkChan [0] 0 0 1 false 1 0 [] [].
Definition demo_end : chan_state :=
  mkState (mkChan [0] 0 0 1 false 1 0 [] [4]) {[ 4 := (WRecv, false) ]} [[7]; [8]; [9]] [[7]; [8]; [9]].

Lemma chan_correct_witness :
  chan_run (chan_start demo_start) demo_events = Some demo_end /\ s_sent demo_end = s_got demo_end ++ buffer (s_chan demo_end).
Proof.
  assert (Hrun : chan_run (chan_start demo_start) demo_events = Some demo_end) by (vm_compute; reflexivity).
  split; [exact Hrun|].
  apply (chan_correct 1 1 0 demo_start demo_events demo_end); [right; vm_compute; reflexivity|exact Hrun].
Defined.

(** ** The entries *)

(** The abstract channel: a bounded queue with two lines. *)
Record queue : Type := mkQueue {
  q_elems : list str;
  q_cap : Z;
  q_closed : bool;
  q_send : list Z;
  q_recv : list Z
}.

Definition view (c : BChan) : queue := mkQueue (buffer c) (ch_cap c) (ch_closed c) (ch_send c) (ch_recv c).
Definition view_segment (r : segment) : queue * outcome * option Z := let '(c, out, woken) := r in (view c, out, woken).

Definition queue_full (q : queue) : bool := Z.of_nat (length (q_elems q)) =? q_cap q.

Definition queue_put (q : queue) (v : str) : queue * outcome * option Z :=
  (mkQueue (q_elems q ++ [v]) (q_cap q) (q_closed q) (q_send q) (tail (q_recv q)), Done 1 [], head (q_recv q)).
Definition queue_take (q : queue) (v : str) (rest : list str) : queue * outcome * option Z :=
  (mkQueue rest (q_cap q) (q_closed q) (tail (q_send q)) (q_recv q), Done 1 v, head (q_send q)).

Definition spec_send (q : queue) (fiber : Z) (v : str) : queue * outcome * option Z :=
  if q_closed q then (q, Done 0 [], None)
  else if queue_full q then (mkQueue (q_elems q) (q_cap q) (q_closed q) (q_send q ++ [fiber]) (q_recv q), Waits, None)
  else queue_put q v.
Definition spec_try_send (q : queue) (v : str) : queue * outcome * option Z :=
  if q_closed q || queue_full q then (q, Done 0 [], None) else queue_put q v.
Definition spec_recv (q : queue) (fiber : Z) : queue * outcome * option Z :=
  match q_elems q with
  | v :: rest => queue_take q v rest
  | [] =>
      if q_closed q then (q, Done 0 [], None)
      else (mkQueue [] (q_cap q) (q_closed q) (q_send q) (q_recv q ++ [fiber]), Waits, None)
  end.
Definition spec_try_recv (q : queue) : queue * outcome * option Z :=
  match q_elems q with
  | v :: rest => queue_take q v rest
  | [] => (q, Done 0 [], None)
  end.
Definition spec_close (q : queue) : queue * list Z :=
  (mkQueue (q_elems q) (q_cap q) true [] [], q_send q ++ q_recv q).

Section entries.
Context (c : BChan) (Hok : ring_ok c).

Lemma view_put v : ch_count c < ch_cap c -> slen v = elem_width c ->
  (let '(c', woken) := chan_wake_receiver (chan_put c v) in (view c', Done 1 [], woken)) = queue_put (view c) v.
Proof.
  intros Hlt Hv. destruct (put_ok c v Hok Hlt Hv) as [_ Hb].
  unfold chan_wake_receiver, fiber_line_pop, queue_put. change (ch_recv (chan_put c v)) with (ch_recv c).
  destruct (ch_recv c) as [|f l] eqn:Hl; unfold view; rewrite Hl; cbn [q_elems q_cap q_closed q_send q_recv];
    change (buffer (with_lines (chan_put c v) _ _)) with (buffer (chan_put c v)); by rewrite Hb.
Qed.

Lemma view_take : ch_count c <> 0 -> exists v rest, buffer c = v :: rest /\
  (let '(v, c0) := chan_take c in let '(c', woken) := chan_wake_sender c0 in (view c', Done 1 v, woken)) = queue_take (view c) v rest.
Proof.
  intros Hne. destruct (chan_take c) as [v c0] eqn:Ht. destruct (take_ok c v c0 Hok Hne Ht) as (_ & Hb & _).
  exists v, (buffer c0). split; [done|]. unfold chan_take in Ht.
  assert (Hs : ch_send c0 = ch_send c /\ ch_recv c0 = ch_recv c /\ ch_closed c0 = ch_closed c /\ ch_cap c0 = ch_cap c) by (by injection Ht as _ <-).
  destruct Hs as (H1 & H2 & H3 & H4). unfold chan_wake_sender, fiber_line_pop, queue_take, view.
  cbn [q_elems q_cap q_closed q_send q_recv]. rewrite H1, H2. destruct (ch_send c) as [|f l]; cbn [tail head with_lines ch_cap ch_closed ch_send ch_recv]; by rewrite H3, H4.
Qed.

Lemma view_full : (ch_count c <? ch_cap c) = negb (queue_full (view c)).
Proof.
  unfold queue_full, view. cbn [q_elems q_cap]. rewrite buffer_length by done. pose proof (rg_count c Hok).
  destruct (Z.ltb_spec (ch_count c) (ch_cap c)), (Z.eqb_spec (ch_count c) (ch_cap c)); cbn; lia.
Qed.

Lemma view_empty : (ch_count c =? 0) = match buffer c with [] => true | _ => false end.
Proof. pose proof (buffer_length c Hok). destruct (buffer c); cbn [length] in *; lia. Qed.

End entries.

(** C16: on a well-formed ring every entry is the operation of a bounded first-
    in first-out queue: a send is refused once the channel is closed, waits at
    the end of the senders' line while it is full, and otherwise appends its
    element and wakes the first receiver; a receive delivers the oldest
    element and wakes the first sender, even when the channel is closed, and
    on an empty channel answers none if it is closed and waits otherwise; the
    try entries never wait; close wakes everyone, the senders first. *)
Theorem chan_refines c (Hok : ring_ok c) fiber v (Hv : slen v = elem_width c) :
  view_segment (beans_chan_send c fiber v) = spec_send (view c) fiber v /\
  view_segment (beans_chan_try_send c v) = spec_try_send (view c) v /\
  view_segment (beans_chan_recv c fiber) = spec_recv (view c) fiber /\
  view_segment (beans_chan_try_recv c) = spec_try_recv (view c) /\
  (let '(c', woken) := beans_chan_close c in (view c', woken)) = spec_close (view c).
Proof.
  pose proof (view_full c Hok) as Hfull. pose proof (rg_count c Hok) as Hc. split; [|split; [|split; [|split]]].
  - unfold beans_chan_send, spec_send. change (q_closed (view c)) with (ch_closed c). rewrite Hfull.
    destruct (ch_closed c) eqn:Hcl; rewrite ?orb_true_r, ?orb_false_r; [done|].
    destruct (queue_full (view c)) eqn:Hq; [by unfold view_segment, view; rewrite <-Hcl|].
    rewrite <-(view_put c Hok v) by (done || lia). by destruct (chan_wake_receiver _).
  - unfold beans_chan_try_send, spec_try_send. change (q_closed (view c)) with (ch_closed c).
    assert (He : (ch_count c =? ch_cap c) = queue_full (view c)) by (destruct (queue_full (view c)); cbn in Hfull; lia). rewrite He.
    destruct (ch_closed c); cbn [orb]; [done|]. destruct (queue_full (view c)) eqn:Hq; [done|].
    rewrite <-(view_put c Hok v) by (done || (cbn in Hfull; lia)). by destruct (chan_wake_receiver _).
  - unfold beans_chan_recv, spec_recv. change (q_elems (view c)) with (buffer c). rewrite view_empty by done.
    pose proof (view_take c Hok) as Ht. pose proof (buffer_length c Hok) as Hl. destruct (buffer c) as [|x rest] eqn:Hb; cbn [negb orb].
    + unfold view. cbn [q_closed q_cap q_send q_recv]. destruct (ch_closed c) eqn:Hcl; unfold view_segment, view; rewrite ?Hb, ?Hcl; [done|].
      change (buffer (with_lines c _ _)) with (buffer c). change (ch_closed (with_lines c _ _)) with (ch_closed c). by rewrite Hb, Hcl.
    + cbn [length] in Hl. destruct Ht as (x' & rest' & [= <- <-] & <-); [lia|].
      destruct (chan_take c) as [y c0]. by destruct (chan_wake_sender c0).
  - unfold beans_chan_try_recv, spec_try_recv. change (q_elems (view c)) with (buffer c). rewrite view_empty by done.
    pose proof (view_take c Hok) as Ht. pose proof (buffer_length c Hok) as Hl. destruct (buffer c) as [|x rest] eqn:Hb; [done|].
    cbn [length] in Hl. destruct Ht as (x' & rest' & [= <- <-] & <-); [lia|].
    destruct (chan_take c) as [y c0]. by destruct (chan_wake_sender c0).
  - done.
Qed.

Lemma chan_refines_witness :
  view_segment (beans_chan_send (s_chan demo_end) 5 [6]) = (mkQueue [[6]] 1 false [] [], Done 1 [], Some 4).
Proof.
  assert (Hok : ring_ok (s_chan demo_end)) by (split; vm_compute; split; congruence || (intros; discriminate)).
  rewrite (proj1 (chan_refines (s_chan demo_end) Hok 5 [6] eq_refl)). vm_compute. reflexivity.
Defined.
