(* ===== verification/Sleep.v ===== *)
(** * Sleep: the timer heap of a fiber worker

    [runtime/beans_fiber.c], the sleep section.  A worker keeps its sleeping
    fibers in a binary min-heap of deadlines: an array whose first
    [sleeper_count] entries are [sleepers] here.  The loops that move a hole
    up or down are shared by the entries that contain a copy of them.  The
    array's growth is the host's ([realloc], which aborts when it fails). *)

From S2P Require Import Prelude.

Open Scope c_scope.

Record BeansSleeper : Type := mkSleeper { deadline : Z; sl_fiber : Z }.

#[global] Instance sleeper_eq_dec : EqDecision BeansSleeper.
Proof. solve_decision. Defined.

(** [worker->sleepers[i].deadline]. *)
Definition deadline_at (s : list BeansSleeper) (i : nat) : Z :=
  match s !! i with Some e => deadline e | None => 0 end.

(** [while (at > 0) { ... }]: the hole at [at] moves up past later deadlines. *)
Fixpoint sift_up (fuel : nat) (s : list BeansSleeper) (at_ : nat) (d : Z) : list BeansSleeper * nat :=
  match fuel, at_ with
  | S fuel, S _ =>
      let parent := ((at_ - 1) / 2)%nat in
      match s !! parent with
      | None => (s, at_)
      | Some e => if deadline e <=? d then (s, at_) else sift_up fuel (<[at_ := e]> s) parent d
      end
  | _, _ => (s, at_)
  end.

(** [for (;;) { ... }]: the hole at [at] moves down past earlier deadlines. *)
Fixpoint sift_down (fuel : nat) (s : list BeansSleeper) (at_ : nat) (d : Z) : list BeansSleeper * nat :=
  match fuel with
  | O => (s, at_)
  | S fuel =>
      let child := (2 * at_ + 1)%nat in
      if (length s <=? child)%nat then (s, at_)
      else
        let child := if (child + 1 <? length s)%nat && (deadline_at s (child + 1) <? deadline_at s child)
          then (child + 1)%nat else child in
        match s !! child with
        | None => (s, at_)
        | Some e => if d <=? deadline e then (s, at_) else sift_down fuel (<[at_ := e]> s) child d
        end
  end.

Definition sleeper_push (s : list BeansSleeper) (d fiber : Z) : list BeansSleeper :=
  let x := mkSleeper d fiber in
  let '(s, at_) := sift_up (length s) (s ++ [x]) (length s) d in
  <[at_ := x]> s.

(** The last entry leaves its slot: the shorter array and the entry. *)
Definition sleeper_drop_last (s : list BeansSleeper) : list BeansSleeper * option BeansSleeper :=
  (take (length s - 1) s, last s).

Definition sleeper_pop_min (s : list BeansSleeper) : list BeansSleeper :=
  match sleeper_drop_last s with
  | (s, Some x) => let '(s, at_) := sift_down (length s) s 0 (deadline x) in <[at_ := x]> s
  | (s, None) => s
  end.

(** The due entries, in the order their fibers are resumed, and the rest. *)
Fixpoint fire_loop (fuel : nat) (s : list BeansSleeper) (now : Z) : list Z * list BeansSleeper :=
  match fuel, s with
  | S fuel, e :: _ =>
      if deadline e <=? now then
        let '(resumed, rest) := fire_loop fuel (sleeper_pop_min s) now in
        (sl_fiber e :: resumed, rest)
      else ([], s)
  | _, _ => ([], s)
  end.

Definition sleeper_fire_due (s : list BeansSleeper) (now : Z) : list Z * list BeansSleeper :=
  fire_loop (length s) s now.

(** The index of the fiber's first entry. *)
Definition sleeper_find (s : list BeansSleeper) (fiber : Z) : option nat :=
  fst <$> list_find (fun e => sl_fiber e = fiber) s.

Definition sleeper_remove (s : list BeansSleeper) (fiber : Z) : list BeansSleeper :=
  match sleeper_find s fiber with
  | None => s
  | Some i =>
      match sleeper_drop_last s with
      | (s, Some x) =>
          if (i =? length s)%nat then s
          else
            let '(s, at_) := sift_up i s i (deadline x) in
            let '(s, at_) := if (at_ =? i)%nat then sift_down (length s) s at_ (deadline x) else (s, at_) in
            <[at_ := x]> s
      | (s, None) => s
      end
  end.

Example push_three : deadline <$> sleeper_push (sleeper_push (sleeper_push [] 5 1) 3 2) 4 3 = [3; 5; 4].
Proof. reflexivity. Qed.
Example remove_middle :
  sleeper_remove [mkSleeper 1 1; mkSleeper 2 2; mkSleeper 9 3; mkSleeper 7 4] 2 = [mkSleeper 1 1; mkSleeper 7 4; mkSleeper 9 3].
Proof. reflexivity. Qed.
