(* ===== verification/SleepProofs.v ===== *)
(** * SleepProofs: the timer heap keeps its order and its entries

    A hole at [at_] is a slot whose entry is about to be overwritten:
    [hole_ok] is the heap order of all the others.  Moving the hole up or down
    keeps it, and filling the hole where both loops stop gives a heap of the
    same entries. *)

From Stdlib Require Import Sorted.
From S2P Require Import Prelude Sleep.

Open Scope c_scope.

Implicit Types (s : list BeansSleeper) (e x : BeansSleeper).

Abbreviation parent i := ((i - 1) / 2)%nat.

Definition heap_ok (s : list BeansSleeper) : Prop :=
  forall i, (0 < i < length s)%nat -> deadline_at s (parent i) <= deadline_at s i.

Definition hole_ok (s : list BeansSleeper) (at_ : nat) : Prop :=
  (forall i, (0 < i < length s)%nat -> i <> at_ -> parent i <> at_ -> deadline_at s (parent i) <= deadline_at s i) /\
  (forall i, (0 < at_)%nat -> (0 < i < length s)%nat -> parent i = at_ -> deadline_at s (parent at_) <= deadline_at s i).

Definition above_ok (s : list BeansSleeper) (at_ : nat) (d : Z) : Prop :=
  (0 < at_)%nat -> deadline_at s (parent at_) <= d.
Definition below_ok (s : list BeansSleeper) (at_ : nat) (d : Z) : Prop :=
  forall i, (0 < i < length s)%nat -> parent i = at_ -> d <= deadline_at s i.

Lemma parent_lt i : (0 < i)%nat -> (parent i < i)%nat.
Proof. intros. apply Nat.Div0.div_lt_upper_bound; lia. Qed.

Lemma deadline_at_insert s i j e : (i < length s)%nat ->
  deadline_at (<[i := e]> s) j = if decide (i = j) then deadline e else deadline_at s j.
Proof.
  intros Hi. unfold deadline_at. case_decide as Hj; [subst; by rewrite list_lookup_insert_eq|by rewrite list_lookup_insert_ne].
Qed.

Lemma deadline_at_lookup s i e : s !! i = Some e -> deadline_at s i = deadline e.
Proof. unfold deadline_at. by intros ->. Qed.

Lemma fill_ok s at_ x : (at_ < length s)%nat -> hole_ok s at_ -> above_ok s at_ (deadline x) -> below_ok s at_ (deadline x) ->
  heap_ok (<[at_ := x]> s).
Proof.
  intros Ha [Ho Hg] Hab Hbe i. rewrite length_insert. intros Hi. pose proof (parent_lt i (proj1 Hi)) as Hp.
  rewrite !deadline_at_insert by done. do 2 case_decide; subst; try lia.
  - by apply Hbe.
  - apply Hab. lia.
  - by apply Ho; [|congruence|congruence].
Qed.

(** ** Permutations *)

Lemma insert_exchange s i e x : s !! i = Some e -> x :: s ≡ₚ e :: <[i := x]> s.
Proof.
  revert i. induction s as [|y s IH]; intros [|i]; cbn; try done; intros He.
  - injection He as ->. apply Permutation_swap.
  - rewrite (perm_swap y x s), (IH i He). apply perm_swap.
Qed.

Lemma hole_move s i j e x : (i < length s)%nat -> i <> j -> s !! j = Some e -> <[j := x]> (<[i := e]> s) ≡ₚ <[i := x]> s.
Proof.
  intros Hi Hij He. destruct (lookup_lt_is_Some_2 s i Hi) as [o Ho].
  pose proof (insert_exchange s i o e Ho) as H1. pose proof (insert_exchange s i o x Ho) as H2.
  pose proof (insert_exchange (<[i := e]> s) j e x) as H3. rewrite list_lookup_insert_ne in H3 by done. specialize (H3 He).
  apply (Permutation_cons_inv (a := e)), (Permutation_cons_inv (a := o)).
  rewrite <-H3, (perm_swap x o), <-H1, (perm_swap e x), H2. apply perm_swap.
Qed.

(** ** The loops *)

Lemma move_up_ok s at_ e : (0 < at_ < length s)%nat -> s !! parent at_ = Some e -> hole_ok s at_ ->
  hole_ok (<[at_ := e]> s) (parent at_) /\ below_ok (<[at_ := e]> s) (parent at_) (deadline e).
Proof.
  intros Ha He [Ho Hg]. pose proof (parent_lt at_ (proj1 Ha)) as Hp. pose proof (deadline_at_lookup _ _ _ He) as Hd.
  assert (Hsib : forall i, (0 < i < length s)%nat -> i <> at_ -> parent i = parent at_ -> deadline e <= deadline_at s i).
  { intros i Hi Hne Hpi. rewrite <-Hd, <-Hpi. apply Ho; [done|done|]. rewrite Hpi. lia. }
  unfold below_ok, hole_ok. rewrite length_insert. split; [split|]; intros i.
  - intros Hi Hne1 Hne2. rewrite !deadline_at_insert by lia. destruct (decide (at_ = i)) as [->|]; [done|].
    case_decide as Hpi; [rewrite <-Hd; apply Hg; [lia|done|done]|by apply Ho].
  - intros Hp0 Hi Hpi. pose proof (parent_lt (parent at_) Hp0). rewrite !deadline_at_insert by lia. rewrite decide_False by lia.
    assert (Hup : deadline_at s (parent (parent at_)) <= deadline e) by (rewrite <-Hd; apply Ho; lia).
    case_decide as Hia; [done|]. pose proof (Hsib i Hi (not_eq_sym Hia) Hpi). lia.
  - intros Hi Hpi. rewrite deadline_at_insert by lia. case_decide as Hia; [done|]. apply Hsib; [done|congruence|done].
Qed.

Lemma sift_up_ok fuel : forall s at_ d s' at', (at_ < length s)%nat -> (at_ <= fuel)%nat -> hole_ok s at_ ->
  sift_up fuel s at_ d = (s', at') ->
  length s' = length s /\ (at' < length s)%nat /\ hole_ok s' at' /\ above_ok s' at' d /\ (at' = at_ /\ s' = s \/ below_ok s' at' d) /\
  forall x, <[at' := x]> s' ≡ₚ <[at_ := x]> s.
Proof.
  induction fuel as [|fuel IH]; intros s at_ d s' at' Ha Hf Hh; cbn [sift_up].
  - intros [= <- <-]. split_and!; auto. intros ?; lia.
  - destruct at_ as [|a]; [intros [= <- <-]; split_and!; auto; by intros ?%Nat.lt_irrefl|].
    set (at_ := S a) in *. pose proof (parent_lt at_ ltac:(unfold at_; lia)) as Hp.
    destruct (s !! parent at_) as [e|] eqn:He; [|apply lookup_ge_None in He; lia].
    pose proof (deadline_at_lookup _ _ _ He) as Hd. destruct (Z.leb_spec (deadline e) d) as [Hle|Hlt].
    + intros [= <- <-]. split_and!; auto. intros _. lia.
    + intros Hr. destruct (move_up_ok s at_ e ltac:(unfold at_; lia) He Hh) as [Hh' Hb].
      apply IH in Hr; [|rewrite length_insert; lia|lia|done]. destruct Hr as (Hl & Ha' & Hho & Hab & Hbe & Hperm).
      rewrite length_insert in Hl, Ha'. split_and!; auto.
      * right. destruct Hbe as [[-> ->]|Hbe]; [|done]. intros i Hi Hpi. specialize (Hb i Hi Hpi). lia.
      * intros x. rewrite Hperm. apply hole_move; [lia|unfold at_ in *; lia|done].
Qed.

Lemma move_down_ok s at_ c e : (at_ < length s)%nat -> (0 < c)%nat -> parent c = at_ -> s !! c = Some e -> hole_ok s at_ ->
  below_ok s at_ (deadline e) -> hole_ok (<[at_ := e]> s) c /\ above_ok (<[at_ := e]> s) c (deadline e).
Proof.
  intros Ha Hc0 Hc He [Ho Hg] Hmin. pose proof (parent_lt c Hc0) as Hp. pose proof (deadline_at_lookup _ _ _ He) as Hd.
  pose proof (lookup_lt_Some _ _ _ He) as Hlt. split; [split|].
  - intros i. rewrite length_insert. intros Hi Hne1 Hne2. pose proof (parent_lt i (proj1 Hi)). rewrite !deadline_at_insert by lia.
    case_decide as H1; [rewrite decide_False by lia; by apply Hmin|]. case_decide as H2; [|by apply Ho; congruence].
    subst i. rewrite <-Hd. apply Hg; lia.
  - intros i _. rewrite length_insert, Hc. intros Hi Hpi. pose proof (parent_lt i (proj1 Hi)). rewrite !deadline_at_insert by lia.
    rewrite decide_True by done. rewrite decide_False by lia. rewrite <-Hd, <-Hpi. apply Ho; [done|lia|lia].
  - intros _. rewrite Hc, deadline_at_insert by lia. by rewrite decide_True.
Qed.

Lemma parent_children at_ i : (0 < i)%nat -> parent i = at_ -> i = (2 * at_ + 1)%nat \/ i = (2 * at_ + 2)%nat.
Proof. intros Hi <-. pose proof (Nat.div_mod_eq (i - 1) 2). pose proof (Nat.mod_upper_bound (i - 1) 2). lia. Qed.

Lemma parent_left at_ : parent (2 * at_ + 1)%nat = at_.
Proof. rewrite Nat.add_sub, Nat.mul_comm. by apply Nat.div_mul. Qed.
Lemma parent_right at_ : parent (2 * at_ + 1 + 1)%nat = at_.
Proof. rewrite Nat.add_sub, Nat.mul_comm, Nat.div_add_l by done. cbn. lia. Qed.

(** The child the hole would move to holds the earlier deadline. *)
Lemma min_child s at_ c : (2 * at_ + 1 < length s)%nat ->
  c = (if (2 * at_ + 1 + 1 <? length s)%nat && (deadline_at s (2 * at_ + 1 + 1) <? deadline_at s (2 * at_ + 1))
       then (2 * at_ + 1 + 1)%nat else (2 * at_ + 1)%nat) ->
  (at_ < c < length s)%nat /\ parent c = at_ /\ below_ok s at_ (deadline_at s c).
Proof.
  intros Hl Hc. assert (Hrange : (at_ < c < length s)%nat /\ parent c = at_).
  { subst c. destruct (Nat.ltb_spec (2 * at_ + 1 + 1) (length s)); cbn [andb]; [destruct (_ <? _)|]; rewrite ?parent_left, ?parent_right; lia. }
  split; [lia|]. split; [lia|]. intros i Hi Hpi. apply parent_children in Hpi; [|lia].
  replace (2 * at_ + 2)%nat with (2 * at_ + 1 + 1)%nat in Hpi by lia. subst c.
  destruct (Nat.ltb_spec (2 * at_ + 1 + 1) (length s)); cbn [andb].
  - destruct (Z.ltb_spec (deadline_at s (2 * at_ + 1 + 1)) (deadline_at s (2 * at_ + 1))); destruct Hpi as [-> | ->]; lia.
  - destruct Hpi as [-> | ->]; lia.
Qed.

Lemma sift_down_ok fuel : forall s at_ d s' at', (at_ < length s)%nat -> (length s <= fuel + at_)%nat -> hole_ok s at_ -> above_ok s at_ d ->
  sift_down fuel s at_ d = (s', at') ->
  length s' = length s /\ (at' < length s)%nat /\ hole_ok s' at' /\ above_ok s' at' d /\ below_ok s' at' d /\
  forall x, <[at' := x]> s' ≡ₚ <[at_ := x]> s.
Proof.
  induction fuel as [|fuel IH]; intros s at_ d s' at' Ha Hf Hh Hab; cbn [sift_down]; [lia|].
  destruct (Nat.leb_spec (length s) (2 * at_ + 1)) as [Hend|Hin].
  { intros [= <- <-]. split_and!; auto. intros i Hi Hpi. apply parent_children in Hpi; lia. }
  set (c := if _ && _ then _ else _). destruct (min_child s at_ c Hin eq_refl) as (Hc & Hpc & Hmin).
  destruct (s !! c) as [e|] eqn:He; [|apply lookup_ge_None in He; lia]. rewrite (deadline_at_lookup _ _ _ He) in Hmin.
  destruct (Z.leb_spec d (deadline e)) as [Hle|Hlt].
  - intros [= <- <-]. split_and!; auto. intros i Hi Hpi. specialize (Hmin i Hi Hpi). lia.
  - intros Hr. destruct (move_down_ok s at_ c e) as [Hh' Hab']; [lia|lia|done..|].
    apply IH in Hr; [|rewrite length_insert; lia|rewrite length_insert; lia|done|intros H0; specialize (Hab' H0); lia].
    destruct Hr as (Hl & Ha' & Hho & Hab2 & Hbe & Hperm). rewrite length_insert in Hl, Ha'. split_and!; auto.
    intros x. rewrite Hperm. apply hole_move; [lia|lia|done].
Qed.

(** ** The operations *)

Lemma deadline_at_app s l i : (i < length s)%nat -> deadline_at (s ++ l) i = deadline_at s i.
Proof. intros Hi. unfold deadline_at. by rewrite lookup_app_l. Qed.

Lemma timer_push_ok s d f : heap_ok s -> heap_ok (sleeper_push s d f) /\ sleeper_push s d f ≡ₚ mkSleeper d f :: s.
Proof.
  intros Hok. unfold sleeper_push. destruct (sift_up _ _ _ _) as [s' at'] eqn:Hr.
  assert (Hno : forall i, (0 < i < length (s ++ [mkSleeper d f]))%nat -> parent i <> length s).
  { intros i Hi. pose proof (parent_lt i (proj1 Hi)). rewrite length_app in Hi. cbn in Hi. lia. }
  apply sift_up_ok in Hr; [|rewrite length_app; cbn; lia|done|split].
  - destruct Hr as (Hl & Ha & Hh & Hab & Hbe & Hperm). split.
    + apply fill_ok; [lia|done|done|]. destruct Hbe as [[-> ->]|Hbe]; [|done]. intros i Hi Hpi. by destruct (Hno i Hi).
    + rewrite Hperm. rewrite insert_app_r_alt, Nat.sub_diag by done. cbn. by rewrite Permutation_app_comm.
  - intros i Hi Hne _. rewrite length_app in Hi. cbn in Hi. pose proof (parent_lt i (proj1 Hi)).
    rewrite !deadline_at_app by lia. apply Hok. lia.
  - intros i _ Hi Hpi. by destruct (Hno i Hi).
Qed.

Lemma deadline_at_take s n i : (i < n)%nat -> deadline_at (take n s) i = deadline_at s i.
Proof. intros Hi. unfold deadline_at. by rewrite lookup_take_lt. Qed.

Lemma take_heap s n : heap_ok s -> heap_ok (take n s).
Proof.
  intros Hok i. rewrite length_take. intros Hi. pose proof (parent_lt i (proj1 Hi)). rewrite !deadline_at_take by lia. apply Hok. lia.
Qed.

Lemma heap_hole s at_ : heap_ok s -> (at_ < length s)%nat -> hole_ok s at_.
Proof.
  intros Hok Ha. split; [by intros i Hi _ _; apply Hok|]. intros i H0 Hi Hpi. pose proof (Hok i Hi). pose proof (Hok at_ ltac:(lia)).
  rewrite Hpi in *. lia.
Qed.

Lemma drop_last_cases s : s = [] \/ exists s' x, s = s' ++ [x] /\ sleeper_drop_last s = (s', Some x).
Proof.
  destruct s as [|x s' _] using rev_ind; [by left|right]. exists s', x. split; [done|]. unfold sleeper_drop_last.
  rewrite last_snoc, length_app, Nat.add_sub, take_app_length. done.
Qed.

Lemma pop_min_ok s e rest : s = e :: rest -> heap_ok s -> heap_ok (sleeper_pop_min s) /\ e :: sleeper_pop_min s ≡ₚ s.
Proof.
  intros Hs Hok. destruct (drop_last_cases s) as [->|(s' & x & Hs' & Hdrop)]; [done|]. unfold sleeper_pop_min. rewrite Hdrop.
  destruct (sift_down _ _ _ _) as [s2 at2] eqn:Hr. destruct s' as [|e' s'].
  - cbn in Hr. injection Hr as <- <-. cbn. rewrite Hs' in Hs. injection Hs as <- <-. rewrite Hs'. split; [|done]. intros i Hi. cbn in Hi. lia.
  - assert (Hok' : heap_ok (e' :: s')).
    { replace (e' :: s') with (take (length (e' :: s')) s); [by apply take_heap|]. by rewrite Hs', take_app_length. }
    assert (He : e' = e) by (rewrite Hs' in Hs; by injection Hs).
    apply sift_down_ok in Hr; [|cbn; lia|lia|apply heap_hole; [done|cbn; lia]|intros ?; lia].
    destruct Hr as (Hl & Ha & Hh & Hab & Hbe & Hperm). split; [apply fill_ok; [lia|done..]|].
    rewrite Hperm, Hs', He. cbn. constructor. by rewrite Permutation_app_comm.
Qed.

Lemma heap_min s : heap_ok s -> forall i e, s !! i = Some e -> deadline_at s 0 <= deadline e.
Proof.
  intros Hok i. induction (lt_wf i) as [i _ IH]. intros e He. pose proof (lookup_lt_Some _ _ _ He).
  destruct (decide (i = 0)%nat) as [->|Hi]; [by rewrite (deadline_at_lookup _ _ _ He)|].
  pose proof (parent_lt i ltac:(lia)) as Hp. destruct (lookup_lt_is_Some_2 s (parent i)) as [p Hp']; [lia|].
  pose proof (IH _ Hp p Hp'). pose proof (Hok i ltac:(lia)) as Ho. rewrite (deadline_at_lookup _ _ _ He), (deadline_at_lookup _ _ _ Hp') in Ho. lia.
Qed.

Lemma root_min e rest : heap_ok (e :: rest) -> Forall (fun x => deadline e <= deadline x) (e :: rest).
Proof. intros Hok. apply Forall_lookup. intros i x Hx. by apply (heap_min _ Hok i x). Qed.

Lemma find_spec s f : match sleeper_find s f with
  | None => f ∉ (sl_fiber <$> s)
  | Some i => exists e, s !! i = Some e /\ sl_fiber e = f
  end.
Proof.
  unfold sleeper_find. destruct (list_find _ s) as [[i e]|] eqn:Hf; cbn.
  - apply list_find_Some in Hf as (H1 & H2 & _). eauto.
  - apply list_find_None in Hf. intros (e & -> & He)%list_elem_of_fmap. rewrite Forall_forall in Hf. by apply (Hf e).
Qed.

Lemma timer_remove_ok s f : heap_ok s -> heap_ok (sleeper_remove s f) /\
  ((f ∉ (sl_fiber <$> s)) /\ sleeper_remove s f = s \/ exists e, sl_fiber e = f /\ e :: sleeper_remove s f ≡ₚ s).
Proof.
  intros Hok. unfold sleeper_remove. pose proof (find_spec s f) as Hf. destruct (sleeper_find s f) as [i|]; [|auto].
  destruct Hf as (e & He & Hef). destruct (drop_last_cases s) as [->|(s' & x & Hs & Hdrop)]; [done|]. rewrite Hdrop.
  assert (Hok' : heap_ok s').
  { replace s' with (take (length s') s); [by apply take_heap|]. by rewrite Hs, take_app_length. }
  destruct (Nat.eqb_spec i (length s')) as [->|Hne].
  - split; [done|right; exists e]. split; [done|]. rewrite Hs, lookup_app_r, Nat.sub_diag in He by done. injection He as ->.
    rewrite Hs. by rewrite Permutation_app_comm.
  - assert (Hi : (i < length s')%nat) by (pose proof (lookup_lt_Some _ _ _ He) as Hl; rewrite Hs, length_app in Hl; cbn in Hl; lia).
    rewrite Hs, lookup_app_l in He by done. destruct (sift_up _ _ _ _) as [s1 a1] eqn:H1.
    apply sift_up_ok in H1; [|done|done|by apply heap_hole]. destruct H1 as (Hl1 & Ha1 & Hh1 & Hab1 & Hbe1 & Hp1).
    destruct (if (a1 =? i)%nat then _ else _) as [s2 a2] eqn:H2.
    assert (Hfin : length s2 = length s' /\ (a2 < length s')%nat /\ hole_ok s2 a2 /\ above_ok s2 a2 (deadline x) /\ below_ok s2 a2 (deadline x) /\
      forall y, <[a2 := y]> s2 ≡ₚ <[i := y]> s').
    { destruct (Nat.eqb_spec a1 i) as [->|Hai].
      - apply sift_down_ok in H2; [|lia|lia|done|done]. destruct H2 as (H3 & H4 & H5 & H6 & H7 & H8). split_and!; auto; try lia.
        intros y. by rewrite H8.
      - injection H2 as <- <-. split_and!; auto. by destruct Hbe1 as [[]|]. }
    destruct Hfin as (Hl & Ha & Hh & Hab & Hbe & Hperm). split; [apply fill_ok; [lia|done..]|right].
    exists e. split; [done|]. rewrite Hperm, Hs. rewrite <-(insert_exchange s' i e x He). by rewrite Permutation_app_comm.
Qed.

(** * What the timer heap promises to the scheduler *)

Implicit Types (due rest : list BeansSleeper).

(** What a worker does with its timers. *)
Inductive timer_op : Type :=
  | TPush (d fiber : Z)
  | TRemove (fiber : Z)
  | TFire (now : Z).

Definition timer_step (s : list BeansSleeper) (op : timer_op) : list BeansSleeper :=
  match op with
  | TPush d f => sleeper_push s d f
  | TRemove f => sleeper_remove s f
  | TFire now => snd (sleeper_fire_due s now)
  end.

Lemma fire_loop_ok fuel now : forall s resumed rest, heap_ok s -> (length s <= fuel)%nat -> fire_loop fuel s now = (resumed, rest) ->
  heap_ok rest /\ Forall (fun e => now < deadline e) rest /\
  exists due, resumed = sl_fiber <$> due /\ due ++ rest ≡ₚ s /\ Forall (fun e => deadline e <= now) due /\
    StronglySorted (fun a b => deadline a <= deadline b) due.
Proof.
  induction fuel as [|fuel IH]; intros s resumed rest Hok Hf.
  { destruct s; [|cbn in Hf; lia]. cbn. intros [= <- <-]. split_and!; [done|constructor|]. exists []. split_and!; try done; constructor. }
  destruct s as [|e s]; cbn [fire_loop].
  { intros [= <- <-]. split_and!; [done|constructor|]. exists []. split_and!; try done; constructor. }
  destruct (pop_min_ok (e :: s) e s eq_refl Hok) as [Hok' Hperm]. pose proof (root_min e s Hok) as Hmin.
  destruct (Z.leb_spec (deadline e) now) as [Hle|Hgt].
  - destruct (fire_loop fuel (sleeper_pop_min (e :: s)) now) as [r' rest'] eqn:Hr. intros [= <- <-].
    apply IH in Hr as (Hh & Hlate & due & -> & Hp & Hdue & Hsort); [|done|apply Permutation_length in Hperm; cbn in *; lia].
    split_and!; [done|done|]. exists (e :: due). split_and!; [done| |by constructor|].
    + cbn. rewrite Hp. done.
    + constructor; [done|]. apply Forall_forall. intros x Hx. rewrite Forall_forall in Hmin. apply Hmin.
      rewrite <-Hperm, <-Hp. right. apply elem_of_app. by left.
  - intros [= <- <-]. split_and!; [done| |].
    + apply (Forall_impl _ _ _ Hmin). intros x Hx. cbn beta in *. lia.
    + exists []. split_and!; try done; constructor.
Qed.

Lemma fire_due_ok s now resumed rest : heap_ok s -> sleeper_fire_due s now = (resumed, rest) ->
  heap_ok rest /\ Forall (fun e => now < deadline e) rest /\
  exists due, resumed = sl_fiber <$> due /\ due ++ rest ≡ₚ s /\ Forall (fun e => deadline e <= now) due /\
    StronglySorted (fun a b => deadline a <= deadline b) due.
Proof. intros Hok. by apply fire_loop_ok. Qed.

Lemma timer_step_ok s op : heap_ok s -> heap_ok (timer_step s op).
Proof.
  intros Hok. destruct op as [d f|f|now]; cbn [timer_step].
  - by apply timer_push_ok.
  - by apply timer_remove_ok.
  - destruct (sleeper_fire_due s now) as [resumed rest] eqn:Hf. exact (proj1 (fire_due_ok _ _ _ _ Hok Hf)).
Qed.

Lemma timer_steps_ok ops : forall s, heap_ok s -> heap_ok (foldl timer_step s ops).
Proof. induction ops as [|op ops IH]; intros s Hok; cbn; [done|]. by apply IH, timer_step_ok. Qed.

(** C30: the heap of a worker's timers implements the multiset of the armed
    timers, after any sequence of arming, cancelling and firing: arming adds
    one entry, cancelling takes out one entry of the fiber if it has any, and
    firing resumes exactly the fibers whose deadline has passed, in the order
    of the deadlines, so that whatever stays armed is still to come; the
    nearest deadline, which bounds the idle wait, is the root's. *)
Theorem timers_correct (ops : list timer_op) (s := foldl timer_step [] ops) :
  (forall d f, sleeper_push s d f ≡ₚ mkSleeper d f :: s) /\
  (forall f, (f ∉ (sl_fiber <$> s)) /\ sleeper_remove s f = s \/ exists e, sl_fiber e = f /\ e :: sleeper_remove s f ≡ₚ s) /\
  (forall now, exists fired rest, sleeper_fire_due s now = (sl_fiber <$> fired, rest) /\ fired ++ rest ≡ₚ s /\
    Forall (fun e => deadline e <= now) fired /\ Forall (fun e => now < deadline e) rest /\
    StronglySorted (fun a b => deadline a <= deadline b) fired) /\
  (forall e, e ∈ s -> deadline_at s 0 <= deadline e).
Proof.
  assert (Hok : heap_ok s) by (apply timer_steps_ok; intros i Hi; cbn in Hi; lia).
  split; [intros d f; by apply timer_push_ok|]. split; [intros f; exact (proj2 (timer_remove_ok s f Hok))|]. split.
  - intros now. destruct (sleeper_fire_due s now) as [resumed rest] eqn:Hf.
    destruct (fire_due_ok s now resumed rest Hok Hf) as (_ & Hlate & fired & -> & Hp & Hdue & Hsort).
    by exists fired, rest.
  - intros e [i He]%list_elem_of_lookup. by apply (heap_min s Hok i).
Qed.
