(* ===== verification/Fiber.v ===== *)
(** * Fiber: one worker, its fibers, and the threads that wake them

    [runtime/beans_fiber.c]: spawn, park, yield, resume, cancel, join, sleep,
    finish and the scheduler of one worker.  Two kinds of thread run: the
    worker's own (its program counter is [owner]: the scheduler loop or the
    fiber it switched to), and any number of others inside
    [beans_fiber_resume].  A step of either makes at most one access to what
    they share ([state], [pending_wake], the inbox under its lock), so every
    interleaving of those accesses is a sequence of [event]s.

    A fiber's own code is the environment: [ORun f] may call any entry.  What
    a parked fiber's stack waits for is its [cont].  Stacks, unwinding, the
    kernel poller, names and messages are left out; the completion hook may
    resume any fiber ([ESettleDone]).  [w_owed] is a ghost: the fibers resumed
    since they last came back from a park. *)

From stdpp Require Import gmap.
From S2P Require Import Prelude.
From S2P Require Import Sleep.

Open Scope c_scope.

Inductive fiber_state : Type := FIBER_RUNNING | FIBER_READY | FIBER_PARKING | FIBER_PARKED | FIBER_DONE.
Inductive disposition : Type := DISPOSE_PARK | DISPOSE_YIELD | DISPOSE_FINISH.

#[global] Instance fiber_state_eq_dec : EqDecision fiber_state.
Proof. solve_decision. Defined.

Definition BEANS_FIBER_OK : Z := 0.
Definition BEANS_FIBER_PANICKED : Z := 1.
Definition BEANS_FIBER_CANCELLED : Z := 2.
Definition BEANS_FIBER_POOL_MAX : nat := 64.
Definition BEANS_FIBER_DEFAULT_STACK : Z := 512 * 1024.

(** Where the stack of a fiber that switched away continues. *)
Inductive cont : Type :=
  | KStart
  | KPark
  | KYield
  | KJoin (child : Z)
  | KSleep (until : Z).

#[global] Instance cont_eq_dec : EqDecision cont.
Proof. solve_decision. Defined.

Record BeansFiber : Type := mkFiber {
  fb_state : fiber_state;
  pending_wake : bool;
  cancel_flag : bool;
  cancel_mask : bool;
  cancel_handler : bool;
  unwind_status : Z;
  fb_status : Z;
  fb_joiner : option Z;
  forgotten : bool;
  fb_joined : bool;
  is_root : bool;
  stack_reserve : Z;
  fb_cont : cont
}.

Definition set_state (st : fiber_state) (x : BeansFiber) : BeansFiber :=
  mkFiber st (pending_wake x) (cancel_flag x) (cancel_mask x) (cancel_handler x) (unwind_status x) (fb_status x) (fb_joiner x) (forgotten x) (fb_joined x) (is_root x) (stack_reserve x) (fb_cont x).
Definition set_pending (b : bool) (x : BeansFiber) : BeansFiber :=
  mkFiber (fb_state x) b (cancel_flag x) (cancel_mask x) (cancel_handler x) (unwind_status x) (fb_status x) (fb_joiner x) (forgotten x) (fb_joined x) (is_root x) (stack_reserve x) (fb_cont x).
Definition set_cancel (x : BeansFiber) : BeansFiber :=
  mkFiber (fb_state x) (pending_wake x) true (cancel_mask x) (cancel_handler x) (unwind_status x) (fb_status x) (fb_joiner x) (forgotten x) (fb_joined x) (is_root x) (stack_reserve x) (fb_cont x).
Definition set_mask (b : bool) (x : BeansFiber) : BeansFiber :=
  mkFiber (fb_state x) (pending_wake x) (cancel_flag x) b (cancel_handler x) (unwind_status x) (fb_status x) (fb_joiner x) (forgotten x) (fb_joined x) (is_root x) (stack_reserve x) (fb_cont x).
Definition set_handler (b : bool) (x : BeansFiber) : BeansFiber :=
  mkFiber (fb_state x) (pending_wake x) (cancel_flag x) (cancel_mask x) b (unwind_status x) (fb_status x) (fb_joiner x) (forgotten x) (fb_joined x) (is_root x) (stack_reserve x) (fb_cont x).
Definition set_unwind (u : Z) (x : BeansFiber) : BeansFiber :=
  mkFiber (fb_state x) (pending_wake x) (cancel_flag x) (cancel_mask x) (cancel_handler x) u (fb_status x) (fb_joiner x) (forgotten x) (fb_joined x) (is_root x) (stack_reserve x) (fb_cont x).
Definition set_status (s : Z) (x : BeansFiber) : BeansFiber :=
  mkFiber (fb_state x) (pending_wake x) (cancel_flag x) (cancel_mask x) (cancel_handler x) (unwind_status x) s (fb_joiner x) (forgotten x) (fb_joined x) (is_root x) (stack_reserve x) (fb_cont x).
Definition set_joiner (j : option Z) (x : BeansFiber) : BeansFiber :=
  mkFiber (fb_state x) (pending_wake x) (cancel_flag x) (cancel_mask x) (cancel_handler x) (unwind_status x) (fb_status x) j (forgotten x) (fb_joined x) (is_root x) (stack_reserve x) (fb_cont x).
Definition set_forgotten (x : BeansFiber) : BeansFiber :=
  mkFiber (fb_state x) (pending_wake x) (cancel_flag x) (cancel_mask x) (cancel_handler x) (unwind_status x) (fb_status x) (fb_joiner x) true (fb_joined x) (is_root x) (stack_reserve x) (fb_cont x).
Definition set_joined (x : BeansFiber) : BeansFiber :=
  mkFiber (fb_state x) (pending_wake x) (cancel_flag x) (cancel_mask x) (cancel_handler x) (unwind_status x) (fb_status x) (fb_joiner x) (forgotten x) true (is_root x) (stack_reserve x) (fb_cont x).
Definition set_cont (k : cont) (x : BeansFiber) : BeansFiber :=
  mkFiber (fb_state x) (pending_wake x) (cancel_flag x) (cancel_mask x) (cancel_handler x) (unwind_status x) (fb_status x) (fb_joiner x) (forgotten x) (fb_joined x) (is_root x) (stack_reserve x) k.

(** Where a thread is inside [beans_fiber_resume]: before the first load,
    before the compare-exchange, before the push, before the latch, before the
    second load. *)
Inductive resume_pc : Type :=
  | RLoad (f : Z)
  | RCas (f : Z)
  | RPush (f : Z)
  | RLatch (f : Z)
  | RCheck (f : Z).

(** Where the worker's thread is. *)
Inductive owner : Type :=
  | OSched                                  (* at the head of the scheduler loop *)
  | ORun (f : Z)                            (* in the code of [f] *)
  | OJoin (f child : Z)                     (* at the loop head of beans_fiber_join *)
  | OSleep (f until : Z)                    (* at the loop head of beans_fiber_sleep *)
  | OParkLatch (f : Z)                      (* in beans_fiber_park, before the exchange *)
  | OStore (f : Z) (d : disposition)        (* before the store of PARKING *)
  | OSettle (f : Z) (d : disposition)       (* switched away; settle begins *)
  | OSettleCas (f : Z)                      (* settle, before its compare-exchange *)
  | OReady (f : Z)                          (* settle, before the store of READY *)
  | OFinished (f : Z)                       (* settle, after the completion hook *)
  | OBack (f : Z)                           (* switched back into a park *)
  | OResume (r : resume_pc) (k : owner).    (* in beans_fiber_resume, then [k] *)

Record BeansWorker : Type := mkWorker {
  w_fibers : gmap Z BeansFiber;
  w_owner : owner;
  w_ready : list Z;
  w_inbox : list Z;
  w_live : Z;
  w_all : list Z;
  w_pool : list Z;
  w_sleepers : list BeansSleeper;
  w_now : Z;
  w_remote : list resume_pc;
  w_page : Z;
  w_owed : gset Z
}.

Definition at_owner (w : BeansWorker) (o : owner) : BeansWorker :=
  mkWorker (w_fibers w) o (w_ready w) (w_inbox w) (w_live w) (w_all w) (w_pool w) (w_sleepers w) (w_now w) (w_remote w) (w_page w) (w_owed w).
Definition with_fibers (w : BeansWorker) (m : gmap Z BeansFiber) : BeansWorker :=
  mkWorker m (w_owner w) (w_ready w) (w_inbox w) (w_live w) (w_all w) (w_pool w) (w_sleepers w) (w_now w) (w_remote w) (w_page w) (w_owed w).
Definition with_queues (w : BeansWorker) (ready inbox : list Z) : BeansWorker :=
  mkWorker (w_fibers w) (w_owner w) ready inbox (w_live w) (w_all w) (w_pool w) (w_sleepers w) (w_now w) (w_remote w) (w_page w) (w_owed w).
Definition with_all (w : BeansWorker) (live : Z) (all : list Z) : BeansWorker :=
  mkWorker (w_fibers w) (w_owner w) (w_ready w) (w_inbox w) live all (w_pool w) (w_sleepers w) (w_now w) (w_remote w) (w_page w) (w_owed w).
Definition with_pool (w : BeansWorker) (pool : list Z) : BeansWorker :=
  mkWorker (w_fibers w) (w_owner w) (w_ready w) (w_inbox w) (w_live w) (w_all w) pool (w_sleepers w) (w_now w) (w_remote w) (w_page w) (w_owed w).
Definition with_sleepers (w : BeansWorker) (s : list BeansSleeper) (now : Z) : BeansWorker :=
  mkWorker (w_fibers w) (w_owner w) (w_ready w) (w_inbox w) (w_live w) (w_all w) (w_pool w) s now (w_remote w) (w_page w) (w_owed w).
Definition with_remote (w : BeansWorker) (r : list resume_pc) : BeansWorker :=
  mkWorker (w_fibers w) (w_owner w) (w_ready w) (w_inbox w) (w_live w) (w_all w) (w_pool w) (w_sleepers w) (w_now w) r (w_page w) (w_owed w).
Definition with_owed (w : BeansWorker) (s : gset Z) : BeansWorker :=
  mkWorker (w_fibers w) (w_owner w) (w_ready w) (w_inbox w) (w_live w) (w_all w) (w_pool w) (w_sleepers w) (w_now w) (w_remote w) (w_page w) s.

(** A field of fiber [f] changes. *)
Definition upd (w : BeansWorker) (f : Z) (g : BeansFiber -> BeansFiber) : BeansWorker := with_fibers w (alter g f (w_fibers w)).

(** ** Queues and records *)

Definition ready_push (w : BeansWorker) (f : Z) : BeansWorker := with_queues w (w_ready w ++ [f]) (w_inbox w).
Definition inbox_post (w : BeansWorker) (f : Z) : BeansWorker := with_queues w (w_ready w) (w_inbox w ++ [f]).
Definition inbox_drain (w : BeansWorker) : BeansWorker := with_queues w (w_ready w ++ w_inbox w) [].
Definition all_add (w : BeansWorker) (f : Z) : BeansWorker := with_all w (w_live w + 1) (f :: w_all w).
Definition all_remove (w : BeansWorker) (f : Z) : BeansWorker := with_all w (w_live w - 1) (filter (fun g => g <> f) (w_all w)).

Definition fiber_retire (w : BeansWorker) (f : Z) : BeansWorker :=
  if decide (length (w_pool w) < BEANS_FIBER_POOL_MAX)%nat then with_pool w (f :: w_pool w)
  else with_fibers w (delete f (w_fibers w)).

(** The first pooled record with a large enough stack, and the others. *)
Fixpoint pool_take (m : gmap Z BeansFiber) (pool : list Z) (reserve : Z) : option (Z * list Z) :=
  match pool with
  | [] => None
  | f :: pool =>
      if match m !! f with Some x => reserve <=? stack_reserve x | None => false end then Some (f, pool)
      else '(g, rest) ← pool_take m pool reserve; Some (g, f :: rest)
  end.

(** What [stack_map] reserves: whole pages, at least four, the guard included. *)
Definition stack_map (reserve page : Z) : Z :=
  let whole := (reserve + page - 1) &! Z.lnot (page - 1) in
  if whole <? page * 4 then page * 4 else whole.

Definition fresh_fiber (reserve : Z) : BeansFiber :=
  mkFiber FIBER_READY false false false false 0 0 None false false false reserve KStart.

(** [addr] is the record [calloc] returns when the pool has none. *)
Definition beans_fiber_spawn (w : BeansWorker) (reserve addr : Z) : option BeansWorker :=
  let reserve := if reserve =? 0 then BEANS_FIBER_DEFAULT_STACK else reserve in
  '(f, kept, w) ←
    match pool_take (w_fibers w) (w_pool w) reserve with
    | Some (f, pool) =>
        x ← w_fibers w !! f;
        Some (f, stack_reserve x, with_pool w pool)
    | None => if decide (w_fibers w !! addr = None) then Some (addr, stack_map reserve (w_page w), w) else None
    end;
  let w := with_owed (with_fibers w (<[f := fresh_fiber kept]> (w_fibers w))) (w_owed w ∖ {[f]}) in
  Some (ready_push (all_add w f) f).

(** ** Parking *)

Definition fiber_cancel_observable (x : BeansFiber) : bool :=
  negb (cancel_mask x) && (unwind_status x =? 0) && cancel_flag x.

(** Cancellation cleanup: the installed handler masks further cancels, or the
    controlled unwind begins. *)
Definition beans_fiber_exit_cancelled (w : BeansWorker) (f : Z) : BeansWorker :=
  upd w f (fun x => if cancel_handler x then set_mask true x else set_unwind BEANS_FIBER_CANCELLED x).

(** The wake is delivered; a yield leaves it to the next park. *)
Definition park_woken (w : BeansWorker) (f : Z) (k : cont) : BeansWorker :=
  let w := upd w f (set_cont KPark) in
  match k with KYield => w | _ => with_owed w (w_owed w ∖ {[f]}) end.

(** Back from the park in [k] with its verdict: what the caller of the park
    does next. *)
Definition park_return (w : BeansWorker) (f : Z) (k : cont) (cancelled : bool) : BeansWorker :=
  let w := park_woken w f k in
  match k with
  | KStart | KPark | KYield => at_owner w (ORun f)
  | KJoin child =>
      let w := upd w child (set_joiner None) in
      if cancelled && bool_decide (fb_state <$> w_fibers w !! child <> Some FIBER_DONE)
      then at_owner (beans_fiber_exit_cancelled w f) (ORun f)
      else at_owner w (OJoin f child)
  | KSleep until =>
      if cancelled
      then at_owner (beans_fiber_exit_cancelled (with_sleepers w (sleeper_remove (w_sleepers w) f) (w_now w)) f) (ORun f)
      else at_owner w (OSleep f until)
  end.

(** The entry of [beans_fiber_park], called from [k]. *)
Definition beans_fiber_park (w : BeansWorker) (f : Z) (k : cont) : option BeansWorker :=
  x ← w_fibers w !! f;
  Some (if fiber_cancel_observable x then park_return w f k true
        else at_owner (upd w f (set_cont k)) (OParkLatch f)).

Definition beans_fiber_yield (w : BeansWorker) (f : Z) : option BeansWorker :=
  x ← w_fibers w !! f;
  Some (if fiber_cancel_observable x then at_owner w (ORun f)
        else at_owner (upd w f (set_cont KYield)) (OStore f DISPOSE_YIELD)).

Definition fiber_finish (w : BeansWorker) (f status : Z) : BeansWorker :=
  at_owner (upd w f (set_status status)) (OStore f DISPOSE_FINISH).

(** ** Waking *)

(** One access of [beans_fiber_resume]: where the caller is next ([None]: it
    returned) and whether it is about to queue the fiber itself. *)
Definition resume_step (m : gmap Z BeansFiber) (r : resume_pc) : option (gmap Z BeansFiber * option resume_pc) :=
  match r with
  | RLoad f =>
      x ← m !! f;
      Some (m, match fb_state x with
               | FIBER_PARKED => Some (RCas f)
               | FIBER_DONE => None
               | _ => Some (RLatch f)
               end)
  | RCas f =>
      x ← m !! f;
      Some (if decide (fb_state x = FIBER_PARKED) then (alter (set_state FIBER_READY) f m, Some (RPush f))
            else (m, Some (RLoad f)))
  | RLatch f => _ ← m !! f; Some (alter (set_pending true) f m, Some (RCheck f))
  | RCheck f =>
      x ← m !! f;
      Some (m, if decide (fb_state x = FIBER_PARKED) then Some (RLoad f) else None)
  | RPush f => Some (m, None)
  end.

Definition resume_target (r : resume_pc) : Z :=
  match r with RLoad f | RCas f | RPush f | RLatch f | RCheck f => f end.

(** The call of [beans_fiber_resume] by the worker's thread, then [k]. *)
Definition beans_fiber_resume (w : BeansWorker) (f : Z) (k : owner) : BeansWorker :=
  at_owner (with_owed w ({[f]} ∪ w_owed w)) (OResume (RLoad f) k).

Definition beans_fiber_cancel (w : BeansWorker) (f : Z) (k : owner) : BeansWorker :=
  beans_fiber_resume (upd w f set_cancel) f k.

(** The worker's thread inside [beans_fiber_resume]: its push is [ready_push]. *)
Definition owner_resume_step (w : BeansWorker) (r : resume_pc) (k : owner) : option BeansWorker :=
  '(m, next) ← resume_step (w_fibers w) r;
  let w := with_fibers w m in
  let w := match r with RPush f => ready_push w f | _ => w end in
  Some (at_owner w (match next with Some r => OResume r k | None => k end)).

(** Another thread inside it: its push is [inbox_post]. *)
Definition remote_resume_step (w : BeansWorker) (i : nat) : option BeansWorker :=
  r ← w_remote w !! i;
  '(m, next) ← resume_step (w_fibers w) r;
  let w := with_fibers w m in
  let w := match r with RPush f => inbox_post w f | _ => w end in
  Some (with_remote w (match next with Some r => <[i := r]> (w_remote w) | None => delete i (w_remote w) end)).

(** ** The scheduler *)

Definition run_one (w : BeansWorker) (f : Z) : option BeansWorker :=
  x ← w_fibers w !! f;
  Some (at_owner (upd w f (set_state FIBER_RUNNING)) (match fb_cont x with KStart => ORun f | _ => OBack f end)).

Definition ready_pop (w : BeansWorker) : option (Z * BeansWorker) :=
  match w_ready w with
  | [] => None
  | f :: ready => Some (f, with_queues w ready (w_inbox w))
  end.

(** [hook]: the fiber the completion hook resumes, if any. *)
Definition settle (w : BeansWorker) (f : Z) (d : disposition) (hook : option Z) : option BeansWorker :=
  x ← w_fibers w !! f;
  Some (match d with
        | DISPOSE_PARK =>
            at_owner (upd w f (set_pending false)) (if pending_wake x then OReady f else OSettleCas f)
        | DISPOSE_YIELD => at_owner w (OReady f)
        | DISPOSE_FINISH =>
            let w := all_remove (upd w f (set_state FIBER_DONE)) f in
            match hook with
            | Some g => beans_fiber_resume w g (OFinished f)
            | None => at_owner w (OFinished f)
            end
        end).

Definition settle_cas (w : BeansWorker) (f : Z) : option BeansWorker :=
  x ← w_fibers w !! f;
  Some (if decide (fb_state x = FIBER_PARKING) then at_owner (upd w f (set_state FIBER_PARKED)) OSched
        else at_owner w (OReady f)).

Definition settle_finished (w : BeansWorker) (f : Z) : option BeansWorker :=
  x ← w_fibers w !! f;
  Some (match fb_joiner x with
        | Some j => beans_fiber_resume w j OSched
        | None => at_owner (if forgotten x then fiber_retire w f else w) OSched
        end).

(** ** Events *)

Inductive event : Type :=
  (* the worker's thread makes its next access *)
  | EStep
  (* the running fiber calls an entry *)
  | ECall (c : call)
  (* the scheduler loop *)
  | EDrain
  | EFire
  | ERunOne
  (* settle completes a finish, with what the hook resumes *)
  | ESettleDone (hook : option Z)
  (* time, and other threads *)
  | ETick (n : Z)
  | ERemote (f : Z)
  | ERemoteStep (i : nat)
with call : Type :=
  | CSpawn (reserve addr : Z)
  | CPark
  | CYield
  | CSleep (nanos : Z)
  | CJoin (child : Z)
  | CResume (f : Z)
  | CCancel (f : Z)
  | CForget (f : Z)
  | CMask (b : bool)
  | CHandler (b : bool)
  | CExitCancelled
  | CFinish (status : Z).

(** The entries, called by the running fiber [f].  [beans_fiber_join] has one
    caller per fiber, and never a fiber that was handed back. *)
Definition call_step (w : BeansWorker) (f : Z) (c : call) : option BeansWorker :=
  match c with
  | CSpawn reserve addr => beans_fiber_spawn w reserve addr
  | CPark => beans_fiber_park w f KPark
  | CYield => beans_fiber_yield w f
  | CSleep nanos =>
      if nanos <=? 0 then Some w
      else Some (at_owner (with_sleepers w (sleeper_push (w_sleepers w) (w_now w + nanos) f) (w_now w)) (OSleep f (w_now w + nanos)))
  | CJoin child =>
      x ← w_fibers w !! child;
      if fb_joined x || forgotten x || bool_decide (child ∈ w_pool w) then None
      else match fb_joiner x with Some _ => None | None => Some (at_owner w (OJoin f child)) end
  | CResume g => Some (beans_fiber_resume w g (ORun f))
  | CCancel g => Some (beans_fiber_cancel w g (ORun f))
  | CForget g => Some (upd w g set_forgotten)
  | CMask b => Some (upd w f (set_mask b))
  | CHandler b => Some (upd w f (set_handler b))
  | CExitCancelled => Some (beans_fiber_exit_cancelled w f)
  | CFinish status =>
      x ← w_fibers w !! f;
      if is_root x then None else Some (fiber_finish w f status)
  end.

(** The next access of the worker's thread outside the scheduler loop. *)
Definition owner_step (w : BeansWorker) : option BeansWorker :=
  match w_owner w with
  | OJoin f child =>
      x ← w_fibers w !! child;
      if decide (fb_state x = FIBER_DONE)
      then Some (at_owner (fiber_retire (upd w child set_joined) child) (ORun f))
      else beans_fiber_park (upd w child (set_joiner (Some f))) f (KJoin child)
  | OSleep f until =>
      if w_now w <? until then beans_fiber_park w f (KSleep until) else Some (at_owner w (ORun f))
  | OParkLatch f =>
      x ← w_fibers w !! f;
      let w := upd w f (set_pending false) in
      Some (if pending_wake x then park_return w f (fb_cont x) false else at_owner w (OStore f DISPOSE_PARK))
  | OStore f d => Some (at_owner (upd w f (set_state FIBER_PARKING)) (OSettle f d))
  | OSettle f DISPOSE_FINISH => None
  | OSettle f d => settle w f d None
  | OSettleCas f => settle_cas w f
  | OReady f => Some (at_owner (ready_push (upd w f (set_state FIBER_READY)) f) OSched)
  | OFinished f => settle_finished w f
  | OBack f => x ← w_fibers w !! f; Some (park_return w f (fb_cont x) (fiber_cancel_observable x))
  | OResume r k => owner_resume_step w r k
  | OSched | ORun _ => None
  end.

(** [None]: the event cannot happen here. *)
Definition step (w : BeansWorker) (ev : event) : option BeansWorker :=
  match ev with
  | EStep => owner_step w
  | ECall c => match w_owner w with ORun f => call_step w f c | _ => None end
  | EDrain => match w_owner w with OSched => Some (inbox_drain w) | _ => None end
  | EFire =>
      match w_owner w, w_sleepers w with
      | OSched, e :: _ =>
          if deadline e <=? w_now w
          then Some (beans_fiber_resume (with_sleepers w (sleeper_pop_min (w_sleepers w)) (w_now w)) (sl_fiber e) OSched)
          else None
      | _, _ => None
      end
  | ERunOne => match w_owner w with OSched => '(f, w) ← ready_pop w; run_one w f | _ => None end
  | ESettleDone hook => match w_owner w with OSettle f DISPOSE_FINISH => settle w f DISPOSE_FINISH hook | _ => None end
  | ETick n => if 0 <=? n then Some (with_sleepers w (w_sleepers w) (w_now w + n)) else None
  | ERemote f => Some (with_owed (with_remote w (w_remote w ++ [RLoad f])) ({[f]} ∪ w_owed w))
  | ERemoteStep i => remote_resume_step w i
  end.

Fixpoint run (w : BeansWorker) (evs : list event) : option BeansWorker :=
  match evs with
  | [] => Some w
  | ev :: evs => w ← step w ev; run w evs
  end.

(** [beans_worker_bootstrap]: the calling thread is the root fiber. *)
Definition root_fiber : BeansFiber := mkFiber FIBER_RUNNING false false false false 0 0 None false false true 0 KStart.
Definition beans_worker_bootstrap (root now page : Z) : BeansWorker :=
  mkWorker {[ root := root_fiber ]} (ORun root) [] [] 1 [root] [] [] now [] page ∅.

(** An event of the worker's own thread, or time. *)
Definition local_event (ev : event) : bool :=
  match ev with ERemote _ | ERemoteStep _ => false | _ => true end.
