(* ===== verification/FiberProofs.v ===== *)
(** * FiberProofs: where a fiber is

    [queue_inv] holds in every state of every interleaving: a fiber is in the
    run queue, the inbox or a thread's hand exactly when it is [READY], and
    never twice; the worker's thread runs the one [RUNNING] fiber or settles
    the one [PARKING]; the table of live fibers is exact. *)

From stdpp Require Import gmap.
From S2P Require Import Prelude.
From S2P Require Import Sleep.
From S2P Require Import Fiber.

Open Scope c_scope.

Implicit Types (w : BeansWorker) (m : gmap Z BeansFiber) (r : resume_pc) (k : owner).

(** ** Views of the fiber table *)

Definition st m (f : Z) : option fiber_state := fb_state <$> m !! f.
Definition jo m (f : Z) : option (option Z) := fb_joiner <$> m !! f.
Definition co m (f : Z) : option cont := fb_cont <$> m !! f.
Definition pe m (f : Z) : bool := match m !! f with Some x => pending_wake x | None => false end.

Lemma view_alter {A} (p : BeansFiber -> A) m f g h :
  (forall x, p (g x) = p x) -> p <$> alter g f m !! h = p <$> m !! h.
Proof.
  intros Hp. destruct (decide (h = f)) as [->|Hh]; [|by rewrite lookup_alter_ne].
  rewrite lookup_alter_eq. destruct (m !! f); cbn; [by rewrite Hp|done].
Qed.

Lemma st_keep m f g h : (forall x, fb_state (g x) = fb_state x) -> st (alter g f m) h = st m h.
Proof. apply view_alter. Qed.
Lemma jo_keep m f g h : (forall x, fb_joiner (g x) = fb_joiner x) -> jo (alter g f m) h = jo m h.
Proof. apply view_alter. Qed.
Lemma co_keep m f g h : (forall x, fb_cont (g x) = fb_cont x) -> co (alter g f m) h = co m h.
Proof. apply view_alter. Qed.
Lemma pe_keep m f g h : (forall x, pending_wake (g x) = pending_wake x) -> pe (alter g f m) h = pe m h.
Proof.
  intros Hp. unfold pe. destruct (decide (h = f)) as [->|Hh]; [|by rewrite lookup_alter_ne].
  rewrite lookup_alter_eq. by destruct (m !! f); cbn.
Qed.

Lemma st_set m f s h : is_Some (m !! f) -> st (alter (set_state s) f m) h = if decide (h = f) then Some s else st m h.
Proof.
  intros [x Hx]. unfold st. case_decide as Hh; [subst; rewrite lookup_alter_eq, Hx; done|by rewrite lookup_alter_ne].
Qed.

Lemma st_some m f s : st m f = Some s -> is_Some (m !! f).
Proof. unfold st. destruct (m !! f); [eauto|done]. Qed.

Lemma co_set m f s h : is_Some (m !! f) -> co (alter (set_cont s) f m) h = if decide (h = f) then Some s else co m h.
Proof.
  intros [x Hx]. unfold co. case_decide as Hh; [subst; rewrite lookup_alter_eq, Hx; done|by rewrite lookup_alter_ne].
Qed.
Lemma jo_set m f s h : is_Some (m !! f) -> jo (alter (set_joiner s) f m) h = if decide (h = f) then Some s else jo m h.
Proof.
  intros [x Hx]. unfold jo. case_decide as Hh; [subst; rewrite lookup_alter_eq, Hx; done|by rewrite lookup_alter_ne].
Qed.
Lemma pe_set m f b h : is_Some (m !! f) -> pe (alter (set_pending b) f m) h = if decide (h = f) then b else pe m h.
Proof.
  intros [x Hx]. unfold pe. case_decide as Hh; [subst; rewrite lookup_alter_eq, Hx; done|by rewrite lookup_alter_ne].
Qed.

(** ** Who holds a fiber *)

Definition pushing r : list Z := match r with RPush f => [f] | _ => [] end.

Fixpoint owner_pushing (o : owner) : list Z := match o with OResume r k => pushing r ++ owner_pushing k | _ => [] end.

Fixpoint owner_running (o : owner) : option Z :=
  match o with
  | ORun f | OJoin f _ | OSleep f _ | OParkLatch f | OStore f _ | OBack f => Some f
  | OResume _ k => owner_running k
  | _ => None
  end.

Fixpoint owner_parking (o : owner) : option Z :=
  match o with
  | OSettle f _ | OSettleCas f | OReady f => Some f
  | OResume _ k => owner_parking k
  | _ => None
  end.

Definition queued w : list Z := w_ready w ++ w_inbox w ++ owner_pushing (w_owner w) ++ (w_remote w ≫= pushing).

Record queue_inv w : Prop := {
  q_nodup : NoDup (queued w);
  q_ready : forall f, f ∈ queued w <-> st (w_fibers w) f = Some FIBER_READY;
  q_run : forall f, owner_running (w_owner w) = Some f <-> st (w_fibers w) f = Some FIBER_RUNNING;
  q_park : forall f, owner_parking (w_owner w) = Some f <-> st (w_fibers w) f = Some FIBER_PARKING;
  q_all : NoDup (w_all w);
  q_live : w_live w = Z.of_nat (length (w_all w));
  q_known : forall f, f ∈ w_all w <-> exists s, st (w_fibers w) f = Some s /\ s <> FIBER_DONE
}.

(** Nothing of it changes. *)
Lemma queue_keep w w' : queue_inv w -> queued w' ≡ₚ queued w -> (forall f, st (w_fibers w') f = st (w_fibers w) f) ->
  owner_running (w_owner w') = owner_running (w_owner w) -> owner_parking (w_owner w') = owner_parking (w_owner w) ->
  w_all w' = w_all w -> w_live w' = w_live w -> queue_inv w'.
Proof.
  intros [Hn Hr Hru Hp Ha Hl Hk] Hq Hst Hr' Hp' Ha' Hl'. split.
  - by rewrite Hq.
  - intros f. by rewrite Hq, Hst.
  - intros f. by rewrite Hr', Hst.
  - intros f. by rewrite Hp', Hst.
  - by rewrite Ha'.
  - by rewrite Ha', Hl'.
  - intros f. by rewrite Ha', Hst.
Qed.

(** Fiber [f] moves to state [s]. *)
Lemma queue_move w w' f (s : option fiber_state) : queue_inv w -> (forall g, st (w_fibers w') g = if decide (g = f) then s else st (w_fibers w) g) ->
  NoDup (queued w') ->
  (forall g, g ∈ queued w' <-> if decide (g = f) then s = Some FIBER_READY else g ∈ queued w) ->
  (forall g, owner_running (w_owner w') = Some g <-> if decide (g = f) then s = Some FIBER_RUNNING else owner_running (w_owner w) = Some g) ->
  (forall g, owner_parking (w_owner w') = Some g <-> if decide (g = f) then s = Some FIBER_PARKING else owner_parking (w_owner w) = Some g) ->
  NoDup (w_all w') -> w_live w' = Z.of_nat (length (w_all w')) ->
  (forall g, g ∈ w_all w' <-> if decide (g = f) then exists s', s = Some s' /\ s' <> FIBER_DONE else g ∈ w_all w) -> queue_inv w'.
Proof.
  intros [Hn Hr Hru Hp Ha Hl Hk] Hst Hn' Hr' Hru' Hp' Ha' Hl' Hk'. split; try done.
  - intros g. rewrite Hr', Hst. case_decide; [done|apply Hr].
  - intros g. rewrite Hru', Hst. case_decide; [done|apply Hru].
  - intros g. rewrite Hp', Hst. case_decide; [done|apply Hp].
  - intros g. rewrite Hk', Hst. case_decide; [done|apply Hk].
Qed.

(** A live fiber changes state and stays live. *)
Lemma queue_shift w w' f s0 s : queue_inv w -> st (w_fibers w) f = Some s0 -> s0 <> FIBER_DONE -> s <> FIBER_DONE -> s0 <> s ->
  (forall g, st (w_fibers w') g = if decide (g = f) then Some s else st (w_fibers w) g) ->
  match s0, s with
  | FIBER_READY, _ => queued w ≡ₚ f :: queued w'
  | _, FIBER_READY => queued w' ≡ₚ f :: queued w
  | _, _ => queued w' ≡ₚ queued w
  end ->
  owner_running (w_owner w') = match s, s0 with FIBER_RUNNING, _ => Some f | _, FIBER_RUNNING => None | _, _ => owner_running (w_owner w) end ->
  (s = FIBER_RUNNING -> owner_running (w_owner w) = None) ->
  owner_parking (w_owner w') = match s, s0 with FIBER_PARKING, _ => Some f | _, FIBER_PARKING => None | _, _ => owner_parking (w_owner w) end ->
  (s = FIBER_PARKING -> owner_parking (w_owner w) = None) ->
  w_all w' = w_all w -> w_live w' = w_live w -> queue_inv w'.
Proof.
  intros Hinv Hs0 Hd0 Hd Hne Hst Hq Hr Hrn Hp Hpn Ha Hl. pose proof Hinv as [Hn Hre Hru Hpk Hal Hli Hk].
  apply (queue_move w w' f (Some s)); try done.
  - destruct s0, s; try done; rewrite ?Hq; try done; try (apply NoDup_cons; split; [rewrite Hre, Hs0; congruence|done]);
      rewrite Hq in Hn; by apply NoDup_cons in Hn as [_ Hn].
  - intros g. pose proof (Hre g) as Hg. case_decide as Hgf.
    + subst g. rewrite Hs0 in Hg. destruct s0, s; try done; rewrite ?Hq, ?elem_of_cons;
        try (rewrite Hq in Hn; apply NoDup_cons in Hn as [Hn _]); split; try done; try (by intros ?%Hg); try (by left); intros; congruence.
    + destruct s0, s; try done; rewrite ?Hq, ?elem_of_cons; tauto.
  - intros g. pose proof (Hru f) as Hf. rewrite Hr. rewrite Hs0 in Hf. case_decide as Hgf.
    + subst g. destruct s, s0; try done; split; try done; try (intros H; apply Hf in H; congruence); congruence.
    + destruct s, s0; try done; split; try congruence; rewrite ?(Hrn eq_refl); try done; intros H; exfalso; apply Hgf;
        pose proof (proj2 Hf eq_refl); congruence.
  - intros g. pose proof (Hpk f) as Hf. rewrite Hp. rewrite Hs0 in Hf. case_decide as Hgf.
    + subst g. destruct s, s0; try done; split; try done; try (intros H; apply Hf in H; congruence); congruence.
    + destruct s, s0; try done; split; try congruence; rewrite ?(Hpn eq_refl); try done; intros H; exfalso; apply Hgf;
        pose proof (proj2 Hf eq_refl); congruence.
  - by rewrite Ha.
  - by rewrite Ha, Hl.
  - intros g. rewrite Ha. case_decide as Hgf; [|done]. subst g. rewrite Hk. split; intros _; eauto.
Qed.

(** ** Joins and the pool *)

Fixpoint owner_head (o : owner) : option (Z * Z) :=
  match o with OJoin f c => Some (f, c) | OResume _ k => owner_head k | _ => None end.
Fixpoint owner_finished (o : owner) : option Z :=
  match o with OFinished f => Some f | OResume _ k => owner_finished k | _ => None end.

(** A child is joined by one fiber and handed back once. *)
Record link_inv w : Prop := {
  l_wait : forall f c, co (w_fibers w) f = Some (KJoin c) -> jo (w_fibers w) c = Some (Some f) /\ c ∉ w_pool w;
  l_head : forall f c, owner_head (w_owner w) = Some (f, c) -> jo (w_fibers w) c = Some None /\ c ∉ w_pool w;
  l_fin : forall f, owner_finished (w_owner w) = Some f -> st (w_fibers w) f = Some FIBER_DONE /\ f ∉ w_pool w;
  l_nodup : NoDup (w_pool w);
  l_pool : forall f, f ∈ w_pool w -> st (w_fibers w) f = Some FIBER_DONE
}.

Lemma link_keep w w' : link_inv w -> w_pool w' = w_pool w ->
  (forall f c, co (w_fibers w') f = Some (KJoin c) -> co (w_fibers w) f = Some (KJoin c)) ->
  (forall f, jo (w_fibers w') f = jo (w_fibers w) f) ->
  (forall f, st (w_fibers w) f = Some FIBER_DONE -> st (w_fibers w') f = Some FIBER_DONE) ->
  owner_head (w_owner w') = None \/ owner_head (w_owner w') = owner_head (w_owner w) ->
  owner_finished (w_owner w') = None \/ owner_finished (w_owner w') = owner_finished (w_owner w) -> link_inv w'.
Proof.
  intros [Hw Hh Hf Hn Hp] Hpool Hco Hjo Hst Ho Hfi. split.
  - intros f c Hc. rewrite Hjo, Hpool. by apply Hw, Hco.
  - intros f c. rewrite Hjo, Hpool. destruct Ho as [-> | ->]; [done|apply Hh].
  - intros f. rewrite Hpool. destruct Hfi as [-> | ->]; [done|]. intros H. destruct (Hf f H). auto.
  - by rewrite Hpool.
  - intros f. rewrite Hpool. auto.
Qed.

Ltac wsimp := cbn [at_owner with_fibers with_queues with_all with_pool with_sleepers with_remote with_owed upd
  ready_push inbox_post inbox_drain all_add all_remove
  w_fibers w_owner w_ready w_inbox w_live w_all w_pool w_sleepers w_now w_remote w_page w_owed
  owner_pushing owner_running owner_parking owner_head owner_finished pushing app] in *.

Lemma queued_step w w' : w_ready w' ++ w_inbox w' ≡ₚ w_ready w ++ w_inbox w -> owner_pushing (w_owner w') = owner_pushing (w_owner w) ->
  w_remote w' = w_remote w -> queued w' ≡ₚ queued w.
Proof. intros Hq Ho Hr. unfold queued. rewrite Ho, Hr, !(assoc_L app). by rewrite Hq. Qed.

(** A step that touches neither queues, states nor the live table. *)
Ltac queue_frame :=
  match goal with H : queue_inv ?w |- queue_inv _ =>
    apply (queue_keep w); [exact H | try (apply queued_step; wsimp; reflexivity) |
      try (intros ?; wsimp; rewrite ?st_keep by done; reflexivity) | try reflexivity | try reflexivity | try reflexivity | try reflexivity ] end.
Ltac link_frame :=
  match goal with H : link_inv ?w |- link_inv _ =>
    apply (link_keep w); [exact H | try reflexivity | try (intros ? ?; wsimp; rewrite ?co_keep by done; done) |
      try (intros ?; wsimp; rewrite ?jo_keep by done; reflexivity) | try (intros ?; wsimp; rewrite ?st_keep by done; done) |
      try (right; reflexivity); try (left; reflexivity) | try (right; reflexivity); try (left; reflexivity) ] end.

Lemma list_delete_insert_same {A} (l : list A) i x : delete i (<[i := x]> l) = delete i l.
Proof. revert i. induction l as [|y l IH]; intros [|i]; cbn; try done. f_equal. apply IH. Qed.

Lemma remote_push l i r : l !! i = Some r -> l ≫= pushing ≡ₚ pushing r ++ (delete i l ≫= pushing).
Proof. intros Hi. rewrite (delete_Permutation l i r Hi) at 1. done. Qed.
Lemma remote_move l i r r' : l !! i = Some r -> <[i := r']> l ≫= pushing ≡ₚ pushing r' ++ (delete i l ≫= pushing).
Proof.
  intros Hi. rewrite (remote_push (<[i := r']> l) i r') by (apply list_lookup_insert_eq; by eapply lookup_lt_Some).
  by rewrite list_delete_insert_same.
Qed.

(** One access of [beans_fiber_resume]. *)
Lemma resume_step_st m r m' next : resume_step m r = Some (m', next) ->
  (forall f, jo m' f = jo m f) /\ (forall f, co m' f = co m f) /\ (forall f, is_Some (m' !! f) <-> is_Some (m !! f)) /\
  match r, next with
  | RCas f, Some (RPush g) => g = f /\ st m f = Some FIBER_PARKED /\ (forall g, st m' g = if decide (g = f) then Some FIBER_READY else st m g) /\ (forall g, pe m' g = pe m g)
  | RCas f, Some (RLoad g) => g = f /\ m' = m /\ st m f <> Some FIBER_PARKED
  | RLoad f, Some (RCas g) => g = f /\ m' = m /\ st m f = Some FIBER_PARKED
  | RLoad f, Some (RLatch g) => g = f /\ m' = m /\ st m f <> Some FIBER_PARKED /\ st m f <> Some FIBER_DONE
  | RLoad f, None => m' = m /\ st m f = Some FIBER_DONE
  | RLatch f, Some (RCheck g) => g = f /\ (forall g, st m' g = st m g) /\ (forall g, pe m' g = if decide (g = f) then true else pe m g)
  | RCheck f, Some (RLoad g) => g = f /\ m' = m /\ st m f = Some FIBER_PARKED
  | RCheck f, None => m' = m /\ st m f <> Some FIBER_PARKED
  | RPush f, None => m' = m
  | _, _ => False
  end.
Proof.
  assert (Hal : forall g f h, is_Some (alter g f m !! h) <-> is_Some (m !! h)).
  { intros g f h. destruct (decide (h = f)) as [->|]; [|by rewrite lookup_alter_ne]. rewrite lookup_alter_eq. by destruct (m !! f). }
  assert (Hup : forall g f, (forall x, fb_joiner (g x) = fb_joiner x) -> (forall x, fb_cont (g x) = fb_cont x) ->
    (forall h, jo (alter g f m) h = jo m h) /\ (forall h, co (alter g f m) h = co m h) /\ (forall h, is_Some (alter g f m !! h) <-> is_Some (m !! h))).
  { intros g f H1 H2. split; [intros h; by rewrite jo_keep|]. split; [intros h; by rewrite co_keep|intros h; apply Hal]. }
  destruct r as [f|f|f|f|f]; unfold resume_step; destruct (m !! f) as [x|] eqn:Hx; cbn; try done.
  - destruct (fb_state x) eqn:Hs; intros [= <- <-]; (split; [done|split; [done|split; [done|]]]); unfold st; rewrite Hx; cbn; rewrite Hs; done.
  - case_decide as Hd; intros [= <- <-].
    + destruct (Hup (set_state FIBER_READY) f) as (H1 & H2 & H3); [done..|]. split; [done|split; [done|split; [done|]]].
      unfold st at 1. rewrite Hx. cbn. rewrite Hd. split; [done|split; [done|split]]; intros g; [apply st_set; eauto|by rewrite pe_keep].
    + split; [done|split; [done|split; [done|]]]. unfold st. rewrite Hx. cbn. split; [done|split; [done|congruence]].
  - intros [= <- <-]. done.
  - intros [= <- <-]. done.
  - intros [= <- <-]. destruct (Hup (set_pending true) f) as (H1 & H2 & H3); [done..|]. split; [done|split; [done|split; [done|]]].
    split; [done|split]; intros g; [by rewrite st_keep|apply pe_set; eauto].
  - case_decide as Hd; intros [= <- <-]; (split; [done|split; [done|split; [done|]]]); unfold st; rewrite Hx; cbn; repeat split; try done; congruence.
Qed.

Lemma owner_resume_queue w r k w' : queue_inv w -> w_owner w = OResume r k -> owner_resume_step w r k = Some w' -> queue_inv w'.
Proof.
  intros Hq Ho. unfold owner_resume_step. destruct (resume_step (w_fibers w) r) as [[m next]|] eqn:Hr; [|done].
  apply resume_step_st in Hr as (Hjo & Hco & Hdom & Hr). cbn [mbind option_bind]. intros [= <-].
  assert (Hkeep : forall o, w_fibers w = m \/ (forall f, st m f = st (w_fibers w) f) -> owner_running o = owner_running (w_owner w) -> owner_parking o = owner_parking (w_owner w) ->
    owner_pushing o = owner_pushing (w_owner w) -> queue_inv (at_owner (with_fibers w m) o)).
  { intros o Hm H1 H2 H3. apply (queue_keep w); try done; [by apply queued_step; wsimp|]. intros f. wsimp. destruct Hm as [->|Hm]; [done|apply Hm]. }
  destruct r as [f|f|f|f|f], next as [[g|g|g|g|g]|]; try done.
  - destruct Hr as (-> & -> & _). apply Hkeep; [by left|rewrite Ho; done..].
  - destruct Hr as (-> & -> & _). apply Hkeep; [by left|rewrite Ho; done..].
  - destruct Hr as (-> & _). apply Hkeep; [by left|rewrite Ho; done..].
  - destruct Hr as (-> & -> & _). apply Hkeep; [by left|rewrite Ho; done..].
  - destruct Hr as (-> & Hs & Hst & _). apply (queue_shift w _ f FIBER_PARKED FIBER_READY); try done; try (wsimp; rewrite Ho; done).
    unfold queued. wsimp. rewrite Ho. cbn. solve_Permutation.
  - subst m. apply (queue_keep w); try done; try (wsimp; rewrite Ho; done). unfold queued. wsimp. rewrite Ho. cbn. solve_Permutation.
  - destruct Hr as (-> & Hst & _). apply Hkeep; [by right|rewrite Ho; done..].
  - destruct Hr as (-> & -> & _). apply Hkeep; [by left|rewrite Ho; done..].
  - destruct Hr as (-> & _). apply Hkeep; [by left|rewrite Ho; done..].
Qed.

Lemma remote_resume_queue w i w' : queue_inv w -> remote_resume_step w i = Some w' -> queue_inv w'.
Proof.
  intros Hq. unfold remote_resume_step. destruct (w_remote w !! i) as [r|] eqn:Hi; [|done]. cbn [mbind option_bind].
  destruct (resume_step (w_fibers w) r) as [[m next]|] eqn:Hr; [|done].
  apply resume_step_st in Hr as (Hjo & Hco & Hdom & Hr). cbn [mbind option_bind]. intros [= <-].
  pose proof (remote_push _ i r Hi) as Hout. pose proof (fun r' => remote_move _ i r r' Hi) as Hin.
  assert (Hkeep : forall rs, (forall f, st m f = st (w_fibers w) f) -> rs ≫= pushing ≡ₚ w_remote w ≫= pushing -> queue_inv (with_remote (with_fibers w m) rs)).
  { intros rs Hm Hrs. apply (queue_keep w); try done. unfold queued. wsimp. by rewrite Hrs. }
  destruct r as [f|f|f|f|f], next as [[g|g|g|g|g]|]; try done.
  - destruct Hr as (-> & -> & _). apply Hkeep; [done|]. by rewrite Hin, Hout.
  - destruct Hr as (-> & -> & _). apply Hkeep; [done|]. by rewrite Hin, Hout.
  - destruct Hr as (-> & _). apply Hkeep; [done|]. by rewrite Hout.
  - destruct Hr as (-> & -> & _). apply Hkeep; [done|]. by rewrite Hin, Hout.
  - destruct Hr as (-> & Hs & Hst & _). apply (queue_shift w _ f FIBER_PARKED FIBER_READY); try done.
    unfold queued. wsimp. rewrite Hin, Hout. cbn. solve_Permutation.
  - subst m. apply (queue_keep w); try done. unfold queued. wsimp. rewrite Hout. cbn. solve_Permutation.
  - destruct Hr as (-> & Hst & _). apply Hkeep; [done|]. by rewrite Hin, Hout.
  - destruct Hr as (-> & -> & _). apply Hkeep; [done|]. by rewrite Hin, Hout.
  - destruct Hr as (-> & _). apply Hkeep; [done|]. by rewrite Hout.
Qed.

(** ** Parking *)

Lemma exit_cancelled_views w f : 
  (forall g, st (w_fibers (beans_fiber_exit_cancelled w f)) g = st (w_fibers w) g) /\
  (forall g, jo (w_fibers (beans_fiber_exit_cancelled w f)) g = jo (w_fibers w) g) /\
  (forall g, co (w_fibers (beans_fiber_exit_cancelled w f)) g = co (w_fibers w) g) /\
  (forall g, pe (w_fibers (beans_fiber_exit_cancelled w f)) g = pe (w_fibers w) g).
Proof.
  unfold beans_fiber_exit_cancelled. wsimp. repeat split; intros g; [apply st_keep|apply jo_keep|apply co_keep|apply pe_keep];
    intros x; by destruct (cancel_handler x).
Qed.

(** Two states that only differ in what parking touches. *)
Record same_place w w' : Prop := {
  sp_ready : w_ready w' = w_ready w;
  sp_inbox : w_inbox w' = w_inbox w;
  sp_live : w_live w' = w_live w;
  sp_all : w_all w' = w_all w;
  sp_pool : w_pool w' = w_pool w;
  sp_remote : w_remote w' = w_remote w;
  sp_now : w_now w' = w_now w;
  sp_st : forall g, st (w_fibers w') g = st (w_fibers w) g;
  sp_pe : forall g, pe (w_fibers w') g = pe (w_fibers w) g
}.

Lemma park_return_place w f (k : cont) (b : bool) : same_place w (park_return w f k b).
Proof.
  unfold park_return. destruct (exit_cancelled_views w f) as (H1 & H2 & H3 & H4).
  assert (Hw1 : same_place w (park_woken w f k)).
  { unfold park_woken. destruct k; split; try reflexivity; intros g; wsimp; by rewrite ?st_keep, ?pe_keep. }
  assert (Hat : forall w2 o, same_place w w2 -> same_place w (at_owner w2 o)) by (intros w2 o []; by split).
  assert (Hexit : forall w2, same_place w w2 -> same_place w (beans_fiber_exit_cancelled w2 f)).
  { intros w2 []. destruct (exit_cancelled_views w2 f) as (E1 & _ & _ & E4). split; try done; intros g; [by rewrite E1|by rewrite E4]. }
  assert (Hjo : forall w2 c j, same_place w w2 -> same_place w (upd w2 c (set_joiner j))).
  { intros w2 c j []. split; try done; intros g; wsimp; by rewrite ?st_keep, ?pe_keep. }
  assert (Hsl : forall w2 s, same_place w w2 -> same_place w (with_sleepers w2 s (w_now w2))) by (intros w2 s []; by split).
  destruct k as [| | |c|d]; auto; [destruct (_ && _)|destruct b]; auto 6.
Qed.

Definition after_park (f : Z) (k : cont) : owner :=
  match k with KStart | KPark | KYield => ORun f | KJoin c => OJoin f c | KSleep d => OSleep f d end.

Lemma park_return_owner w f (k : cont) (b : bool) : w_owner (park_return w f k b) = ORun f \/ w_owner (park_return w f k b) = after_park f k.
Proof. unfold park_return. destruct k; auto; [destruct (_ && _)|destruct b]; auto. Qed.

Lemma same_place_queue w w' : queue_inv w -> same_place w w' -> owner_pushing (w_owner w') = owner_pushing (w_owner w) ->
  owner_running (w_owner w') = owner_running (w_owner w) -> owner_parking (w_owner w') = owner_parking (w_owner w) -> queue_inv w'.
Proof.
  intros Hq Hs H1 H2 H3. apply (queue_keep w); try apply Hs; try done.
  apply queued_step; [by rewrite (sp_ready _ _ Hs), (sp_inbox _ _ Hs)|done|apply Hs].
Qed.

Lemma park_return_queue w f (k : cont) (b : bool) : queue_inv w -> owner_pushing (w_owner w) = [] -> owner_running (w_owner w) = Some f ->
  owner_parking (w_owner w) = None -> queue_inv (park_return w f k b).
Proof.
  intros Hq H1 H2 H3. apply (same_place_queue w); [done|apply park_return_place|..]; rewrite ?H1, ?H2, ?H3;
    destruct (park_return_owner w f k b) as [-> | ->]; by destruct k.
Qed.

Lemma park_queue w f (k : cont) w' : queue_inv w -> owner_pushing (w_owner w) = [] -> owner_running (w_owner w) = Some f ->
  owner_parking (w_owner w) = None -> beans_fiber_park w f k = Some w' -> queue_inv w'.
Proof.
  intros Hq H1 H2 H3. unfold beans_fiber_park. destruct (w_fibers w !! f) as [x|]; [|done]. cbn. intros [= <-].
  destruct (fiber_cancel_observable x); [by apply park_return_queue|]. apply (same_place_queue w); try done.
  split; try done; intros g; wsimp; by rewrite ?st_keep, ?pe_keep.
Qed.

(** The worker's thread moves on. *)
Lemma at_queue w o : queue_inv w -> owner_pushing o = owner_pushing (w_owner w) -> owner_running o = owner_running (w_owner w) ->
  owner_parking o = owner_parking (w_owner w) -> queue_inv (at_owner w o).
Proof. intros Hq H1 H2 H3. by apply (same_place_queue w). Qed.

Lemma upd_queue w f g : queue_inv w -> (forall x, fb_state (g x) = fb_state x) -> queue_inv (upd w f g).
Proof. intros Hq Hg. apply (queue_keep w); try done. intros h. wsimp. by apply st_keep. Qed.

Lemma retire_queue w f : queue_inv w -> st (w_fibers w) f = Some FIBER_DONE -> queue_inv (fiber_retire w f).
Proof.
  intros Hq Hf. unfold fiber_retire. case_decide; [by apply (queue_keep w)|].
  pose proof Hq as [Hn Hr Hru Hp Ha Hl Hk]. apply (queue_move w _ f None); try done.
  - intros g. wsimp. unfold st. case_decide as Hgf; [subst; by rewrite lookup_delete_eq|by rewrite lookup_delete_ne].
  - intros g. change (queued (with_fibers w _)) with (queued w). rewrite Hr. case_decide as Hgf; [|done]. subst. rewrite Hf. done.
  - intros g. wsimp. rewrite Hru. case_decide as Hgf; [|done]. subst. rewrite Hf. done.
  - intros g. wsimp. rewrite Hp. case_decide as Hgf; [|done]. subst. rewrite Hf. done.
  - intros g. wsimp. rewrite Hk. case_decide as Hgf; [|done]. subst. rewrite Hf. split; intros (s & [= <-] & ?); done.
Qed.

Lemma pool_take_in m pool reserve f rest : pool_take m pool reserve = Some (f, rest) -> f ∈ pool /\ pool ≡ₚ f :: rest.
Proof.
  revert rest. induction pool as [|g pool IH]; intros rest; cbn; [done|]. destruct (match m !! g with Some x => _ | None => false end).
  - intros [= <- <-]. split; [by left|done].
  - destruct (pool_take m pool reserve) as [[h r]|] eqn:Hp; [|done]. cbn. intros [= <- <-]. destruct (IH r eq_refl) as [H1 H2].
    split; [by right|]. rewrite H2. apply perm_swap.
Qed.

(** What a spawn adds: a record that was in the pool or is new. *)
Lemma spawn_spec w reserve addr w' : beans_fiber_spawn w reserve addr = Some w' ->
  exists f kept pool, (f ∈ w_pool w /\ w_pool w ≡ₚ f :: pool \/ w_fibers w !! f = None /\ pool = w_pool w) /\
    w' = ready_push (all_add (with_owed (with_fibers (with_pool w pool) (<[f := fresh_fiber kept]> (w_fibers w))) (w_owed w ∖ {[f]})) f) f.
Proof.
  unfold beans_fiber_spawn. destruct (pool_take _ _ _) as [[f pool]|] eqn:Hp.
  - destruct (w_fibers w !! f) as [x|]; [|done]. cbn [mbind option_bind]. intros [= <-]. apply pool_take_in in Hp as [H1 H2].
    exists f, (stack_reserve x), pool. split; [by left|done].
  - case_decide as Ha; [|done]. cbn [mbind option_bind]. intros [= <-]. eexists addr, _, (w_pool w). split; [by right|]. by destruct w.
Qed.

Lemma spawn_queue w reserve addr w' : queue_inv w -> link_inv w -> beans_fiber_spawn w reserve addr = Some w' -> queue_inv w'.
Proof.
  intros Hq Hl Hs. apply spawn_spec in Hs as (f & kept & pool & Hf & ->). pose proof Hq as [Hn Hr Hru Hp Ha Hli Hk].
  assert (Hnew : st (w_fibers w) f = None \/ st (w_fibers w) f = Some FIBER_DONE).
  { destruct Hf as [[Hf _]|[Hf _]]; [right; by apply (l_pool w Hl)|left; unfold st; by rewrite Hf]. }
  assert (Hnq : f ∉ queued w) by (rewrite Hr; destruct Hnew as [-> | ->]; done).
  assert (Hna : f ∉ w_all w) by (rewrite Hk; destruct Hnew as [-> | ->]; [by intros (? & ? & _)|by intros (? & [= <-] & ?)]).
  set (w' := ready_push _ f).
  assert (Hqq : queued w' ≡ₚ f :: queued w) by (unfold queued, w'; wsimp; solve_Permutation).
  apply (queue_move w w' f (Some FIBER_READY)); try done.
  - intros g. unfold w'. wsimp. unfold st. case_decide as Hgf; [subst; by rewrite lookup_insert_eq|by rewrite lookup_insert_ne].
  - rewrite Hqq. by constructor.
  - intros g. rewrite Hqq, elem_of_cons. case_decide; [subst; split; [done|by left]|]. split; [by intros [|]|by right].
  - intros g. unfold w'. wsimp. case_decide as Hgf; [|done]. subst. rewrite Hru. destruct Hnew as [-> | ->]; split; congruence.
  - intros g. unfold w'. wsimp. case_decide as Hgf; [|done]. subst. rewrite Hp. destruct Hnew as [-> | ->]; split; congruence.
  - unfold w'. wsimp. by constructor.
  - unfold w'. wsimp. rewrite Hli. cbn [length]. lia.
  - intros g. unfold w'. wsimp. rewrite elem_of_cons. case_decide as Hgf; [|tauto]. split; [by exists FIBER_READY|by left].
Qed.

Lemma filter_ne_id (l : list Z) f : f ∉ l -> filter (fun g => g <> f) l = l.
Proof.
  induction l as [|z l IH]; [done|]. intros [H1 H2]%not_elem_of_cons. rewrite filter_cons, decide_True by congruence.
  f_equal. auto.
Qed.

Lemma length_filter_ne (l : list Z) f : NoDup l -> f ∈ l -> length l = S (length (filter (fun g => g <> f) l)).
Proof.
  induction 1 as [|y l Hy Hnd IH]; [by intros ?%elem_of_nil|]. intros Hin. rewrite filter_cons. case_decide as Hyf.
  - cbn. f_equal. apply IH. apply elem_of_cons in Hin as [|]; congruence.
  - destruct (decide (y = f)) as [->|]; [|tauto]. by rewrite filter_ne_id.
Qed.

Lemma settle_finish_queue w f d hook w' : queue_inv w -> w_owner w = OSettle f d -> settle w f d hook = Some w' -> queue_inv w'.
Proof.
  intros Hq Ho. unfold settle. destruct (w_fibers w !! f) as [x|] eqn:Hx; [|done]. cbn [mbind option_bind]. intros [= <-].
  pose proof Hq as [Hn Hr Hru Hp Ha Hli Hk].
  assert (Hpk : st (w_fibers w) f = Some FIBER_PARKING) by (apply Hp; by rewrite Ho).
  destruct d.
  - apply at_queue; [by apply upd_queue|..]; wsimp; rewrite Ho; by destruct (pending_wake x).
  - apply at_queue; [done|..]; by rewrite Ho.
  - assert (Hfin : forall o, owner_pushing o = [] -> owner_running o = None -> owner_parking o = None ->
      queue_inv (at_owner (all_remove (upd w f (set_state FIBER_DONE)) f) o)).
    { intros o H1 H2 H3. set (w' := at_owner _ o).
      assert (Hqq : queued w' = queued w) by (unfold queued, w'; wsimp; by rewrite H1, Ho).
      apply (queue_move w w' f (Some FIBER_DONE)); try done.
      - intros g. unfold w'. wsimp. apply st_set; eauto.
      - by rewrite Hqq.
      - intros g. rewrite Hqq. case_decide as Hgf; [|done]. subst. rewrite Hr, Hpk. split; congruence.
      - intros g. unfold w'. wsimp. rewrite H2, Ho. cbn. case_decide; [|done]. split; congruence.
      - intros g. unfold w'. wsimp. rewrite H3, Ho. cbn. case_decide; [split; congruence|]. split; congruence.
      - unfold w'. wsimp. by apply NoDup_filter.
      - unfold w'. wsimp. assert (Hin : f ∈ w_all w) by (apply Hk; eauto). rewrite Hli.
        rewrite (length_filter_ne (w_all w) f) by done. lia.
      - intros g. unfold w'. wsimp. rewrite list_elem_of_filter. case_decide as Hgf; [|tauto]. split; [tauto|intros (? & [= <-] & ?); done]. }
    destruct hook; [|by apply Hfin]. unfold beans_fiber_resume.
    match goal with |- queue_inv (at_owner (with_owed ?w2 _) ?o) => apply (queue_keep (at_owner w2 o)) end; try done. by apply Hfin.
Qed.

Lemma owner_step_queue w w' : queue_inv w -> link_inv w -> owner_step w = Some w' -> queue_inv w'.
Proof.
  intros Hq Hl. unfold owner_step. destruct (w_owner w) as [|f|f c|f d|f|f d|f d|f|f|f|f|r k] eqn:Ho; try done.
  - destruct (w_fibers w !! c) as [x|] eqn:Hx; [|done]. cbn [mbind option_bind]. case_decide as Hd.
    + intros [= <-]. assert (Hqa : queue_inv (at_owner (upd w c set_joined) (ORun f))).
      { apply at_queue; [by apply upd_queue|..]; wsimp; by rewrite Ho. }
      apply (retire_queue _ c) in Hqa; [|wsimp; rewrite st_keep by done; unfold st; rewrite Hx; cbn; by rewrite Hd].
      revert Hqa. unfold fiber_retire. wsimp. by case_decide.
    + apply park_queue; [by apply upd_queue|wsimp; by rewrite Ho..].
  - case_match; [|intros [= <-]; apply at_queue; [done|by rewrite Ho..]]. apply park_queue; [done|by rewrite Ho..].
  - destruct (w_fibers w !! f) as [x|] eqn:Hx; [|done]. cbn [mbind option_bind]. intros [= <-]. destruct (pending_wake x).
    + apply park_return_queue; [by apply upd_queue|wsimp; by rewrite Ho..].
    + apply at_queue; [by apply upd_queue|wsimp; by rewrite Ho..].
  - intros [= <-]. assert (Hf : st (w_fibers w) f = Some FIBER_RUNNING) by (apply (q_run _ Hq); by rewrite Ho).
    apply (queue_shift w _ f FIBER_RUNNING FIBER_PARKING); try done; try (wsimp; by rewrite Ho).
    + intros g. wsimp. apply st_set. by eapply st_some.
    + apply queued_step; [done|by rewrite Ho|done].
  - destruct d; intros Hs; try done; by eapply settle_finish_queue in Hs.
  - unfold settle_cas. destruct (w_fibers w !! f) as [x|] eqn:Hx; [|done]. cbn [mbind option_bind]. intros [= <-].
    case_decide as Hd; [|apply at_queue; [done|by rewrite Ho..]].
    apply (queue_shift w _ f FIBER_PARKING FIBER_PARKED); try done; try (wsimp; by rewrite Ho).
    + unfold st. rewrite Hx. cbn. by rewrite Hd.
    + intros g. wsimp. apply st_set. eauto.
    + apply queued_step; [done|by rewrite Ho|done].
  - intros [= <-]. assert (Hf : st (w_fibers w) f = Some FIBER_PARKING) by (apply (q_park _ Hq); by rewrite Ho).
    apply (queue_shift w _ f FIBER_PARKING FIBER_READY); try done; try (wsimp; by rewrite Ho).
    + intros g. wsimp. apply st_set. by eapply st_some.
    + unfold queued. wsimp. rewrite Ho. cbn. solve_Permutation.
  - unfold settle_finished. destruct (w_fibers w !! f) as [x|] eqn:Hx; [|done]. cbn [mbind option_bind]. intros [= <-].
    assert (Hf : st (w_fibers w) f = Some FIBER_DONE) by (apply (l_fin w Hl); by rewrite Ho).
    destruct (fb_joiner x) as [j|].
    + apply (queue_keep w); try done; try (wsimp; by rewrite Ho). apply queued_step; [done|by rewrite Ho|done].
    + destruct (forgotten x); [|apply at_queue; [done|by rewrite Ho..]].
      apply at_queue; [by apply retire_queue|unfold fiber_retire; case_decide; wsimp; by rewrite Ho..].
  - destruct (w_fibers w !! f) as [x|]; [|done]. cbn [mbind option_bind]. intros [= <-]. apply park_return_queue; [done|by rewrite Ho..].
  - by apply owner_resume_queue.
Qed.

Lemma call_step_queue w f c w' : queue_inv w -> link_inv w -> w_owner w = ORun f -> call_step w f c = Some w' -> queue_inv w'.
Proof.
  intros Hq Hl Ho. destruct c as [reserve addr| | |n|c|g|g|g|b|b| |s]; cbn [call_step].
  - by apply spawn_queue.
  - apply park_queue; [done|by rewrite Ho..].
  - unfold beans_fiber_yield. destruct (w_fibers w !! f) as [x|]; [|done]. cbn [mbind option_bind]. intros [= <-].
    destruct (fiber_cancel_observable x); (apply at_queue; [by try apply upd_queue|wsimp; by rewrite Ho..]).
  - case_match; intros [= <-]; [done|]. apply (queue_keep w); try done; try (wsimp; by rewrite Ho). apply queued_step; [done|by rewrite Ho|done].
  - destruct (w_fibers w !! c) as [x|]; [|done]. cbn [mbind option_bind]. destruct (_ || _); [done|]. destruct (fb_joiner x); [done|].
    intros [= <-]. apply at_queue; [done|by rewrite Ho..].
  - intros [= <-]. apply (queue_keep w); try done; try (wsimp; by rewrite Ho). apply queued_step; [done|by rewrite Ho|done].
  - intros [= <-]. apply (queue_keep (upd w g set_cancel)); [by apply upd_queue| |done|wsimp; by rewrite Ho..|done|done].
    apply queued_step; [done|wsimp; by rewrite Ho|done].
  - intros [= <-]. by apply upd_queue.
  - intros [= <-]. by apply upd_queue.
  - intros [= <-]. by apply upd_queue.
  - intros [= <-]. apply (queue_keep w); try done. apply exit_cancelled_views.
  - destruct (w_fibers w !! f) as [x|]; [|done]. cbn [mbind option_bind]. destruct (is_root x); [done|]. intros [= <-].
    apply at_queue; [by apply upd_queue|wsimp; by rewrite Ho..].
Qed.

Lemma step_queue w ev w' : queue_inv w -> link_inv w -> step w ev = Some w' -> queue_inv w'.
Proof.
  intros Hq Hl. destruct ev as [|c| | | |hook|n|f|i]; cbn [step].
  - by apply owner_step_queue.
  - destruct (w_owner w) eqn:Ho; try done. by apply call_step_queue.
  - destruct (w_owner w) eqn:Ho; try done. intros [= <-]. apply (queue_keep w); try done. unfold queued. wsimp. rewrite Ho. cbn. solve_Permutation.
  - destruct (w_owner w) eqn:Ho; try done. destruct (w_sleepers w) as [|e s]; [done|]. case_match; [|done]. intros [= <-].
    apply (queue_keep w); try done; try (wsimp; by rewrite Ho). apply queued_step; [done|by rewrite Ho|done].
  - destruct (w_owner w) eqn:Ho; try done. unfold ready_pop. destruct (w_ready w) as [|f ready] eqn:Hr; [done|]. cbn [mbind option_bind].
    unfold run_one. wsimp. destruct (w_fibers w !! f) as [x|] eqn:Hx; [|done]. cbn [mbind option_bind]. intros [= <-].
    assert (Hf : st (w_fibers w) f = Some FIBER_READY) by (apply (q_ready _ Hq); unfold queued; rewrite Hr; by left).
    apply (queue_shift w _ f FIBER_READY FIBER_RUNNING); try done; wsimp; try (by rewrite Ho).
    + intros g. apply st_set. eauto.
    + unfold queued. wsimp. rewrite Hr, Ho. by destruct (fb_cont x).
    + rewrite ?Ho; by destruct (fb_cont x).
    + rewrite ?Ho; by destruct (fb_cont x).
  - destruct (w_owner w) as [| | | | | |f []| | | | |] eqn:Ho; try done. by apply settle_finish_queue.
  - case_match; [|done]. intros [= <-]. by apply (queue_keep w).
  - intros [= <-]. apply (queue_keep w); try done. unfold queued. wsimp. rewrite bind_app. cbn. by rewrite app_nil_r.
  - by apply remote_resume_queue.
Qed.
