(* ===== verification/FiberLinks.v ===== *)
(** * FiberLinks: joins, the record pool, timers and wakes through every step *)

From stdpp Require Import gmap.
From S2P Require Import Prelude Sleep SleepProofs Fiber FiberProofs.

Open Scope c_scope.

Implicit Types (w : BeansWorker) (m : gmap Z BeansFiber) (r : resume_pc) (k : cont).

(** [link_inv] of all fibers but [f], for the worker's thread in [f]. *)
Record link_but w f : Prop := {
  lb_wait : forall g c, g <> f -> co (w_fibers w) g = Some (KJoin c) -> jo (w_fibers w) c = Some (Some g) /\ c ∉ w_pool w;
  lb_nodup : NoDup (w_pool w);
  lb_pool : forall g, g ∈ w_pool w -> st (w_fibers w) g = Some FIBER_DONE
}.

(** Nobody but [f] waits for the child [k] names. *)
Definition alone w f k : Prop :=
  match k with
  | KJoin c => is_Some (jo (w_fibers w) c) /\ (c ∉ w_pool w) /\ forall g, g <> f -> co (w_fibers w) g <> Some (KJoin c)
  | _ => True
  end.

Lemma link_but_of w f : link_inv w -> link_but w f.
Proof. intros [Hw _ _ Hn Hp]. split; [|done..]. intros g c _. apply Hw. Qed.

Lemma alone_of w f k : link_inv w -> co (w_fibers w) f = Some k -> alone w f k.
Proof.
  intros Hl Hk. destruct k as [| | |c|d]; try done. destruct (l_wait _ Hl _ _ Hk) as [H1 H2]. cbn. split; [eauto|]. split; [done|].
  intros g Hg Hc. destruct (l_wait _ Hl _ _ Hc) as [H3 _]. congruence.
Qed.

(** The views of the state after a park. *)
Lemma park_return_jo w f k b c : is_Some (jo (w_fibers w) c) ->
  jo (w_fibers (park_return w f k b)) c = if decide (k = KJoin c) then Some None else jo (w_fibers w) c.
Proof.
  assert (Hw : forall c, jo (w_fibers (park_woken w f k)) c = jo (w_fibers w) c) by (intros c'; unfold park_woken; destruct k; wsimp; by apply jo_keep).
  intros Hc. unfold park_return. destruct k as [| | |c'|d]; rewrite ?decide_False by done; wsimp; try apply Hw.
  - assert (Hj : jo (w_fibers (upd (park_woken w f (KJoin c')) c' (set_joiner None))) c = if decide (KJoin c' = KJoin c) then Some None else jo (w_fibers w) c).
    { wsimp. destruct (decide (c' = c)) as [->|Hne].
      - rewrite decide_True by done. rewrite jo_set; [by rewrite decide_True|]. rewrite <-Hw in Hc. unfold jo in Hc. by rewrite fmap_is_Some in Hc.
      - rewrite decide_False by congruence. rewrite <-(Hw c). unfold jo. by rewrite lookup_alter_ne. }
    destruct (_ && _); wsimp; [|exact Hj]. destruct (exit_cancelled_views (upd (park_woken w f (KJoin c')) c' (set_joiner None)) f) as (_ & H2 & _).
    by rewrite H2.
  - destruct b; wsimp; [|apply Hw]. rewrite (proj1 (proj2 (exit_cancelled_views _ f))). wsimp. apply Hw.
Qed.

Lemma park_return_co w f k b g : co (w_fibers (park_return w f k b)) g = if decide (g = f) then (fun _ => KPark) <$> w_fibers w !! f else co (w_fibers w) g.
Proof.
  assert (Hw : co (w_fibers (park_woken w f k)) g = if decide (g = f) then (fun _ => KPark) <$> w_fibers w !! f else co (w_fibers w) g).
  { unfold park_woken, co. destruct k; wsimp; (case_decide as Hg; [subst; rewrite lookup_alter_eq; by destruct (w_fibers w !! f)|by rewrite lookup_alter_ne]). }
  unfold park_return. destruct k as [| | |c|d]; wsimp; try apply Hw.
  - destruct (_ && _); wsimp; rewrite ?(proj1 (proj2 (proj2 (exit_cancelled_views _ f)))); wsimp; by rewrite co_keep.
  - destruct b; wsimp; rewrite ?(proj1 (proj2 (proj2 (exit_cancelled_views _ f)))); wsimp; apply Hw.
Qed.

Lemma park_return_link w f k b : link_but w f -> alone w f k -> link_inv (park_return w f k b).
Proof.
  intros [Hw Hn Hp] Ha. pose proof (park_return_place w f k b) as Hs. split.
  - intros g c. rewrite park_return_co, (sp_pool _ _ Hs). case_decide as Hg; [by destruct (w_fibers w !! f)|]. intros Hc.
    destruct (Hw g c Hg Hc) as [H1 H2]. split; [|done]. rewrite park_return_jo by eauto. case_decide as Hk; [|done].
    subst k. by destruct Ha as (_ & _ & Ha); destruct (Ha g Hg).
  - intros g c. rewrite (sp_pool _ _ Hs). destruct (park_return_owner w f k b) as [-> | ->]; [done|].
    intros Hk. assert (k = KJoin c) as -> by (destruct k; cbn in Hk; congruence). destruct Ha as (H1 & H2 & _).
    rewrite park_return_jo by done. by rewrite decide_True.
  - intros g. destruct (park_return_owner w f k b) as [-> | ->]; [done|]. by destruct k.
  - by rewrite (sp_pool _ _ Hs).
  - intros g. rewrite (sp_pool _ _ Hs), (sp_st _ _ Hs). apply Hp.
Qed.

Lemma park_link w f k w' : link_but w f -> alone w f k -> (forall c, k = KJoin c -> jo (w_fibers w) c = Some (Some f)) ->
  beans_fiber_park w f k = Some w' -> link_inv w'.
Proof.
  intros Hb Ha Hj. unfold beans_fiber_park. destruct (w_fibers w !! f) as [x|] eqn:Hx; [|done]. cbn [mbind option_bind]. intros [= <-].
  destruct (fiber_cancel_observable x); [by apply park_return_link|]. destruct Hb as [Hw Hn Hp]. split; try done.
  - intros g c. wsimp. rewrite co_set by eauto. rewrite jo_keep by done. case_decide as Hg; [|by apply Hw]. subst g. intros [= ->].
    split; [by apply Hj|apply Ha].
  - intros g. wsimp. rewrite st_keep by done. apply Hp.
Qed.

(** Handing a record back. *)
Lemma retire_link w c o : link_inv w -> jo (w_fibers w) c = Some None -> c ∉ w_pool w -> st (w_fibers w) c = Some FIBER_DONE ->
  owner_head o = None -> owner_finished o = None -> link_inv (at_owner (fiber_retire w c) o).
Proof.
  intros [Hw Hh Hf Hn Hp] Hj Hc Hd H1 H2. assert (Hnc : forall g, co (w_fibers w) g <> Some (KJoin c)) by (intros g Hg; destruct (Hw _ _ Hg); congruence).
  unfold fiber_retire. case_decide; split; wsimp; try (intros ? ?; rewrite H1; done); try (intros ?; rewrite H2; done); try done.
  - intros g d Hg. destruct (Hw g d Hg) as [H3 H4]. split; [done|]. rewrite not_elem_of_cons. split; [|done]. intros ->. by destruct (Hnc g).
  - by constructor.
  - intros g [->|Hg]%elem_of_cons; [done|by apply Hp].
  - intros g d Hg. unfold co in Hg. destruct (decide (g = c)) as [->|Hgc]; [by rewrite lookup_delete_eq in Hg|]. rewrite lookup_delete_ne in Hg by done.
    destruct (Hw g d Hg) as [H3 H4]. split; [|done]. unfold jo. rewrite lookup_delete_ne; [done|]. intros <-. by destruct (Hnc g).
  - intros g Hg. unfold st. rewrite lookup_delete_ne; [by apply Hp|]. intros ->. done.
Qed.

Lemma upd_link w f g : link_inv w -> (forall x, fb_state (g x) = fb_state x) -> (forall x, fb_cont (g x) = fb_cont x) ->
  (forall x, fb_joiner (g x) = fb_joiner x) -> link_inv (upd w f g).
Proof.
  intros Hl H1 H2 H3. apply (link_keep w); try done; try (by right).
  - intros h c. wsimp. by rewrite co_keep.
  - intros h. wsimp. by rewrite jo_keep.
  - intros h. wsimp. by rewrite st_keep.
Qed.

Lemma at_link w o : link_inv w -> owner_head o = None -> owner_finished o = None -> link_inv (at_owner w o).
Proof. intros Hl H1 H2. apply (link_keep w); try done; by left. Qed.

Lemma spawn_link w reserve addr w' : link_inv w -> beans_fiber_spawn w reserve addr = Some w' ->
  owner_head (w_owner w) = None -> owner_finished (w_owner w) = None -> link_inv w'.
Proof.
  intros Hl Hs H1 H2. pose proof Hl as [Hw Hh Hf Hn Hp]. apply spawn_spec in Hs as (f & kept & pool & Hfp & ->).
  assert (Hnc : forall g, co (w_fibers w) g <> Some (KJoin f)).
  { intros g Hg. destruct (Hw _ _ Hg) as [H3 H4]. destruct Hfp as [[Hin _]|[Hno _]]; [done|]. unfold jo in H3. by rewrite Hno in H3. }
  assert (Hpool : forall g, g ∈ pool -> g <> f /\ g ∈ w_pool w).
  { intros g Hg. destruct Hfp as [[_ Hperm]|[Hno ->]].
    - rewrite Hperm in Hn |- *. apply NoDup_cons in Hn as [Hn _]. split; [congruence|by right].
    - split; [|done]. intros ->. specialize (Hp f Hg). unfold st in Hp. by rewrite Hno in Hp. }
  split; wsimp; rewrite ?H1, ?H2; try done.
  - intros g c Hg. unfold co in Hg. destruct (decide (g = f)) as [->|Hgf]; [by rewrite lookup_insert_eq in Hg|]. rewrite lookup_insert_ne in Hg by done.
    destruct (Hw g c Hg) as [H3 H4]. split; [|by intros [_ ?]%Hpool]. unfold jo. rewrite lookup_insert_ne; [done|]. intros <-. by destruct (Hnc g).
  - destruct Hfp as [[_ Hperm]|[_ ->]]; [|done]. rewrite Hperm in Hn. by apply NoDup_cons in Hn as [_ Hn].
  - intros g Hg. destruct (Hpool g Hg) as [Hgf Hin]. unfold st. rewrite lookup_insert_ne by done. by apply Hp.
Qed.

Lemma resume_link w r m next : link_inv w -> resume_step (w_fibers w) r = Some (m, next) -> link_inv (with_fibers w m).
Proof.
  intros Hl Hr. apply resume_step_st in Hr as (Hjo & Hco & Hdom & Hr). apply (link_keep w); try done; try (by right); wsimp.
  - intros f c. by rewrite Hco.
  - intros f Hf. destruct r as [g|g|g|g|g], next as [[h|h|h|h|h]|]; try done; try (destruct Hr as (_ & -> & _); done); try (destruct Hr as (-> & _); done).
    + destruct Hr as (-> & Hg & Hst & _). rewrite Hst. case_decide; [subst; congruence|done].
    + by subst m.
Qed.

Lemma jo_of m f x : m !! f = Some x -> jo m f = Some (fb_joiner x).
Proof. unfold jo. by intros ->. Qed.
Lemma co_of m f x : m !! f = Some x -> co m f = Some (fb_cont x).
Proof. unfold co. by intros ->. Qed.
Lemma st_of m f x : m !! f = Some x -> st m f = Some (fb_state x).
Proof. unfold st. by intros ->. Qed.

Lemma owner_step_link w w' : queue_inv w -> link_inv w -> owner_step w = Some w' -> link_inv w'.
Proof.
  intros Hq Hl. unfold owner_step. destruct (w_owner w) as [|f|f c|f d|f|f d|f d|f|f|f|f|r k] eqn:Ho; try done.
  - destruct (l_head w Hl f c) as [Hj Hc]; [by rewrite Ho|]. destruct (w_fibers w !! c) as [x|] eqn:Hx; [|done]. cbn [mbind option_bind]. case_decide as Hd.
    + intros [= <-]. apply retire_link; try done; [by apply upd_link|wsimp; by rewrite jo_keep|wsimp; rewrite st_keep by done; by rewrite (st_of _ _ _ Hx), Hd].
    + assert (Hnc : forall g, co (w_fibers w) g <> Some (KJoin c)) by (intros g Hg; destruct (l_wait w Hl _ _ Hg); congruence).
      assert (Hjc : jo (w_fibers (upd w c (set_joiner (Some f)))) c = Some (Some f)) by (wsimp; rewrite jo_set by eauto; by rewrite decide_True).
      apply park_link; [split|cbn; split; [eauto|split; [done|]]|by intros ? [= <-]].
      * intros g d Hg. wsimp. rewrite co_keep by done. intros Hgd. destruct (l_wait w Hl g d Hgd). split; [|done].
        rewrite jo_set by eauto. rewrite decide_False; [done|]. intros ->. by destruct (Hnc g).
      * apply Hl.
      * intros g Hg. wsimp. rewrite st_keep by done. by apply (l_pool w Hl).
      * intros g _. wsimp. by rewrite co_keep.
  - case_match; [|intros [= <-]; by apply at_link]. apply park_link; [by apply link_but_of|done|done].
  - destruct (w_fibers w !! f) as [x|] eqn:Hx; [|done]. cbn [mbind option_bind]. intros [= <-].
    assert (Hu : link_inv (upd w f (set_pending false))) by (by apply upd_link). destruct (pending_wake x); [|by apply at_link].
    apply park_return_link; [by apply link_but_of|]. apply alone_of; [done|]. wsimp. rewrite co_keep by done. by apply co_of.
  - intros [= <-]. assert (Hf : st (w_fibers w) f = Some FIBER_RUNNING) by (apply (q_run _ Hq); by rewrite Ho).
    apply (link_keep w); try done; try (by left); wsimp.
    + intros g c. by rewrite co_keep.
    + intros g. by rewrite jo_keep.
    + intros g Hg. rewrite st_set by (by eapply st_some). case_decide; [subst; congruence|done].
  - assert (Hs : forall d, settle w f d None = Some w' -> d <> DISPOSE_FINISH -> link_inv w').
    { intros e. unfold settle. destruct (w_fibers w !! f) as [x|]; [|done]. cbn [mbind option_bind]. destruct e; intros [= <-] He; try done.
      - apply at_link; [by apply upd_link|by destruct (pending_wake x)..].
      - by apply at_link. }
    destruct d; try done; intros H; by eapply Hs.
  - unfold settle_cas. destruct (w_fibers w !! f) as [x|] eqn:Hx; [|done]. cbn [mbind option_bind]. intros [= <-].
    case_decide as Hd; [|by apply at_link]. apply (link_keep w); try done; try (by left); wsimp.
    + intros g c. by rewrite co_keep.
    + intros g. by rewrite jo_keep.
    + intros g Hg. rewrite st_set by eauto. case_decide; [|done]. subst. rewrite (st_of _ _ _ Hx) in Hg. congruence.
  - intros [= <-]. assert (Hf : st (w_fibers w) f = Some FIBER_PARKING) by (apply (q_park _ Hq); by rewrite Ho).
    apply (link_keep w); try done; try (by left); wsimp.
    + intros g c. by rewrite co_keep.
    + intros g. by rewrite jo_keep.
    + intros g Hg. rewrite st_set by (by eapply st_some). case_decide; [subst; congruence|done].
  - unfold settle_finished. destruct (w_fibers w !! f) as [x|] eqn:Hx; [|done]. cbn [mbind option_bind]. intros [= <-].
    destruct (l_fin w Hl f) as [Hd Hp]; [by rewrite Ho|]. destruct (fb_joiner x) as [j|] eqn:Hj.
    + apply (link_keep w); try done; by left.
    + destruct (forgotten x); [|by apply at_link]. apply retire_link; try done. by rewrite (jo_of _ _ _ Hx), Hj.
  - destruct (w_fibers w !! f) as [x|] eqn:Hx; [|done]. cbn [mbind option_bind]. intros [= <-].
    apply park_return_link; [by apply link_but_of|]. apply alone_of; [done|]. by apply co_of.
  - unfold owner_resume_step. destruct (resume_step (w_fibers w) r) as [[m next]|] eqn:Hr; [|done]. cbn [mbind option_bind]. intros [= <-].
    pose proof (resume_link w r m next Hl Hr) as Hl'. apply (link_keep (with_fibers w m)); try done; try (by destruct r).
    + right. wsimp. rewrite Ho. by destruct next.
    + right. wsimp. rewrite Ho. by destruct next.
Qed.

Lemma call_step_link w f c w' : link_inv w -> w_owner w = ORun f -> call_step w f c = Some w' -> link_inv w'.
Proof.
  intros Hl Ho. destruct c as [reserve addr| | |n|c|g|g|g|b|b| |s]; cbn [call_step].
  - intros Hs. eapply spawn_link; [done|exact Hs|by rewrite Ho..].
  - apply park_link; [by apply link_but_of|done|done].
  - unfold beans_fiber_yield. destruct (w_fibers w !! f) as [x|] eqn:Hx; [|done]. cbn [mbind option_bind]. intros [= <-].
    destruct (fiber_cancel_observable x); [by apply at_link|]. apply (link_keep w); try done; try (by left); wsimp.
    + intros g c. rewrite co_set by eauto. by case_decide.
    + intros g. by rewrite jo_keep.
    + intros g. by rewrite st_keep.
  - case_match; intros [= <-]; [done|]. apply (link_keep w); try done; by left.
  - destruct (w_fibers w !! c) as [x|] eqn:Hx; [|done]. cbn [mbind option_bind]. destruct (_ || _) eqn:Hg; [done|].
    destruct (fb_joiner x) eqn:Hj; [done|]. intros [= <-]. pose proof Hl as [Hw Hh Hf Hn Hp]. split; try done.
    intros ? ? [= <- <-]. wsimp. rewrite (jo_of _ _ _ Hx), Hj. split; [done|]. apply orb_false_iff in Hg as [_ Hg].
    by apply bool_decide_eq_false in Hg.
  - intros [= <-]. apply (link_keep w); try done; wsimp; right; by rewrite Ho.
  - intros [= <-]. apply (link_keep (upd w g set_cancel)); [by apply upd_link|try done..]; wsimp; right; by rewrite Ho.
  - intros [= <-]. by apply upd_link.
  - intros [= <-]. by apply upd_link.
  - intros [= <-]. by apply upd_link.
  - intros [= <-]. destruct (exit_cancelled_views w f) as (H1 & H2 & H3 & _). apply (link_keep w); try done; try (by right).
    + intros g c. by rewrite H3.
    + intros g. by rewrite H1.
  - destruct (w_fibers w !! f) as [x|]; [|done]. cbn [mbind option_bind]. destruct (is_root x); [done|]. intros [= <-].
    apply at_link; [by apply upd_link|done..].
Qed.

Lemma step_link w ev w' : queue_inv w -> link_inv w -> step w ev = Some w' -> link_inv w'.
Proof.
  intros Hq Hl. destruct ev as [|c| | | |hook|n|f|i]; cbn [step].
  - by apply owner_step_link.
  - destruct (w_owner w) eqn:Ho; try done. by apply call_step_link.
  - destruct (w_owner w) eqn:Ho; try done. intros [= <-]. apply (link_keep w); try done; by right.
  - destruct (w_owner w) eqn:Ho; try done. destruct (w_sleepers w) as [|e s]; [done|]. case_match; [|done]. intros [= <-].
    apply (link_keep w); try done; by left.
  - destruct (w_owner w) eqn:Ho; try done. unfold ready_pop. destruct (w_ready w) as [|f ready] eqn:Hr; [done|]. cbn [mbind option_bind].
    unfold run_one. wsimp. destruct (w_fibers w !! f) as [x|] eqn:Hx; [|done]. cbn [mbind option_bind]. intros [= <-].
    assert (Hf : st (w_fibers w) f = Some FIBER_READY) by (apply (q_ready _ Hq); unfold queued; rewrite Hr; by left).
    apply (link_keep w); try done; wsimp; try (left; by destruct (fb_cont x)).
    + intros g c. by rewrite co_keep.
    + intros g. by rewrite jo_keep.
    + intros g Hg. rewrite st_set by eauto. case_decide; [subst; congruence|done].
  - destruct (w_owner w) as [| | | | | |f []| | | | |] eqn:Ho; try done. unfold settle.
    destruct (w_fibers w !! f) as [x|] eqn:Hx; [|done]. cbn [mbind option_bind]. intros [= <-].
    assert (Hf : st (w_fibers w) f = Some FIBER_PARKING) by (apply (q_park _ Hq); by rewrite Ho).
    set (w1 := all_remove _ f). pose proof Hl as [Hw Hh Hfi Hn Hp].
    assert (Hst : forall g, st (w_fibers w1) g = if decide (g = f) then Some FIBER_DONE else st (w_fibers w) g) by (intros g; wsimp; apply st_set; eauto).
    assert (Hfp : f ∉ w_pool w) by (intros Hin; apply Hp in Hin; congruence).
    assert (Hfin : forall o owed, owner_head o = None -> owner_finished o = Some f -> link_inv (at_owner (with_owed w1 owed) o)).
    { intros o owed H1 H2. split; wsimp; try done.
      - intros g c. unfold w1. wsimp. rewrite co_keep, jo_keep by done. apply Hw.
      - intros g c. by rewrite H1.
      - intros g. rewrite H2. intros [= <-]. split; [|done]. by rewrite (Hst f), decide_True.
      - intros g Hg. rewrite (Hst g). case_decide; [done|]. by apply Hp. }
    destruct hook as [g|]; [by apply (Hfin _ ({[g]} ∪ w_owed w))|].
    assert (He : at_owner w1 (OFinished f) = at_owner (with_owed w1 (w_owed w)) (OFinished f)) by done. rewrite He. by apply Hfin.
  - case_match; [|done]. intros [= <-]. apply (link_keep w); try done; by right.
  - intros [= <-]. apply (link_keep w); try done; by right.
  - unfold remote_resume_step. destruct (w_remote w !! i) as [r|] eqn:Hi; [|done]. cbn [mbind option_bind].
    destruct (resume_step (w_fibers w) r) as [[m next]|] eqn:Hr; [|done]. cbn [mbind option_bind]. intros [= <-].
    pose proof (resume_link w r m next Hl Hr) as Hl'. apply (link_keep (with_fibers w m)); try done; by destruct r; try right.
Qed.

Lemma start_inv root now page : queue_inv (beans_worker_bootstrap root now page) /\ link_inv (beans_worker_bootstrap root now page).
Proof.
  assert (Hst : forall f, st {[root := root_fiber]} f = if decide (f = root) then Some FIBER_RUNNING else None).
  { intros f. unfold st. case_decide; [subst; by rewrite lookup_singleton_eq|by rewrite lookup_singleton_ne]. }
  assert (Hco : forall f c, co {[root := root_fiber]} f <> Some (KJoin c)).
  { intros f c. unfold co. destruct (decide (f = root)) as [->|]; [by rewrite lookup_singleton_eq|by rewrite lookup_singleton_ne]. }
  split.
  - split; cbn.
    + constructor.
    + intros g. rewrite Hst. split; [by intros ?%elem_of_nil|by case_decide].
    + intros g. rewrite Hst. case_decide; split; congruence.
    + intros g. rewrite Hst. case_decide; split; congruence.
    + apply NoDup_singleton.
    + done.
    + intros g. rewrite Hst, list_elem_of_singleton. case_decide; split; [eauto|done|done|by intros (? & ? & _)].
  - split; cbn; try done.
    + intros g c Hg. by destruct (Hco g c).
    + constructor.
    + by intros g ?%elem_of_nil.
Qed.

Lemma run_inv evs : forall w w', queue_inv w -> link_inv w -> run w evs = Some w' -> queue_inv w' /\ link_inv w'.
Proof.
  induction evs as [|ev evs IH]; intros w w' Hq Hl; cbn [run]; [by intros [= <-]|].
  destruct (step w ev) as [w1|] eqn:Hs; [|done]. cbn [mbind option_bind]. apply IH; [by eapply step_queue|by eapply step_link].
Qed.

(** * Timers, joins and wakes

    [sleep_inv] holds in every interleaving: a fiber parked in a sleep has its
    timer armed or is owed a wake, and one parked in a join whose child is
    done is owed one or about to be.  [wake_inv] holds while the worker's own
    thread does all the waking: a fiber that is owed a wake has it latched, is
    on its way to the run queue or in it. *)

(** ** Wakes of the worker's own thread *)

Definition parks (k : option cont) : Prop :=
  match k with Some (KPark | KJoin _ | KSleep _) => True | _ => False end.

(** A wake that is delivered, latched, or waits in the run queue. *)
Definition settled_wake m (f : Z) : Prop :=
  st m f = Some FIBER_DONE \/ st m f = None \/ pe m f = true \/ st m f = Some FIBER_READY /\ parks (co m f).

(** The worker's thread has the wake in hand. *)
Definition carries (o : owner) m (f : Z) : Prop :=
  match o with
  | OResume (RLoad g | RCas g | RLatch g) _ => g = f
  | OBack g | OReady g => g = f /\ parks (co m f)
  | _ => False
  end.

Definition plain (o : owner) : Prop := match o with ORun _ | OSched | OFinished _ => True | _ => False end.

Definition owner_ok (o : owner) m : Prop :=
  match o with
  | OResume r k =>
      plain k /\ match r with RCas f => st m f = Some FIBER_PARKED | RLatch f | RCheck f => st m f <> Some FIBER_PARKED | _ => True end
  | OParkLatch f | OStore f DISPOSE_PARK | OSettle f DISPOSE_PARK => parks (co m f)
  | OSettleCas f => parks (co m f) /\ pe m f = false
  | _ => True
  end.

Record wake_inv w : Prop := {
  wk_remote : w_remote w = [];
  wk_owner : owner_ok (w_owner w) (w_fibers w);
  wk_parked : forall f, st (w_fibers w) f = Some FIBER_PARKED -> parks (co (w_fibers w) f) /\ pe (w_fibers w) f = false;
  wk_owed : forall f, f ∈ w_owed w -> settled_wake (w_fibers w) f \/ carries (w_owner w) (w_fibers w) f
}.

Lemma settled_running m f : settled_wake m f -> st m f = Some FIBER_RUNNING \/ st m f = Some FIBER_PARKING -> pe m f = true.
Proof. intros [H|[H|[H|[H _]]]] [H1|H1]; congruence. Qed.

(** All but fiber [f] keeps its views. *)
Definition same_but m m' (f : Z) : Prop :=
  forall g, g <> f -> st m' g = st m g /\ pe m' g = pe m g /\ co m' g = co m g.

Lemma settled_other m m' f g : same_but m m' f -> g <> f -> settled_wake m g -> settled_wake m' g.
Proof. intros Hs Hg. destruct (Hs g Hg) as (H1 & H2 & H3). unfold settled_wake. by rewrite H1, H2, H3. Qed.

(** A step of the worker's thread that concerns only [f]. *)
Lemma wake_step w w' f : wake_inv w -> same_but (w_fibers w) (w_fibers w') f -> w_remote w' = w_remote w ->
  owner_ok (w_owner w') (w_fibers w') ->
  (st (w_fibers w') f = Some FIBER_PARKED -> parks (co (w_fibers w') f) /\ pe (w_fibers w') f = false) ->
  (forall g, g ∈ w_owed w' -> g <> f -> g ∈ w_owed w /\ (~ carries (w_owner w) (w_fibers w) g) \/ carries (w_owner w') (w_fibers w') g) ->
  (f ∈ w_owed w' -> settled_wake (w_fibers w') f \/ carries (w_owner w') (w_fibers w') f) -> wake_inv w'.
Proof.
  intros [Hr Ho Hp Hw] Hs Hr' Ho' Hp' Hw' Hf'. split; [congruence|done| |].
  - intros g. destruct (decide (g = f)) as [->|Hg]; [done|]. destruct (Hs g Hg) as (H1 & H2 & H3). rewrite H1, H2, H3. apply Hp.
  - intros g Hg. destruct (decide (g = f)) as [->|Hgf]; [auto|]. destruct (Hw' g Hg Hgf) as [[Hin Hnc]|]; [|auto]. left.
    destruct (Hw g Hin) as [H|H]; [|done]. by apply (settled_other (w_fibers w) _ f).
Qed.

Lemma same_but_refl m f : same_but m m f.
Proof. done. Qed.
Lemma same_but_alter m f g : same_but m (alter g f m) f.
Proof. intros h Hh. unfold st, pe, co. by rewrite !lookup_alter_ne. Qed.
Lemma same_but_keep m f h g : (forall x, fb_state (g x) = fb_state x) -> (forall x, fb_cont (g x) = fb_cont x) ->
  (forall x, pending_wake (g x) = pending_wake x) -> same_but m (alter g h m) f.
Proof. intros H1 H2 H3 x _. by rewrite st_keep, co_keep, pe_keep. Qed.
Lemma same_but_trans m1 m2 m3 f : same_but m1 m2 f -> same_but m2 m3 f -> same_but m1 m3 f.
Proof. intros H1 H2 g Hg. destruct (H1 g Hg) as (? & ? & ?), (H2 g Hg) as (? & ? & ?). repeat split; congruence. Qed.

(** After a park that returned. *)
Lemma park_woken_owed w f k g : g ∈ w_owed (park_woken w f k) <-> g ∈ w_owed w /\ (g = f -> k = KYield).
Proof. unfold park_woken. destruct k; wsimp; rewrite ?elem_of_difference, ?elem_of_singleton; intuition congruence. Qed.

Lemma park_return_owed w f k b : w_owed (park_return w f k b) = w_owed (park_woken w f k).
Proof. unfold park_return. destruct k; wsimp; try done; [destruct (_ && _)|destruct b]; done. Qed.

Lemma park_return_same w f k b : same_but (w_fibers w) (w_fibers (park_return w f k b)) f.
Proof.
  intros g Hg. pose proof (park_return_place w f k b) as Hs. rewrite (sp_st _ _ Hs), (sp_pe _ _ Hs), park_return_co.
  by rewrite decide_False.
Qed.

Lemma park_return_wake w f k b : wake_inv w -> st (w_fibers w) f = Some FIBER_RUNNING ->
  (forall g, g <> f -> ~ carries (w_owner w) (w_fibers w) g) -> (k = KYield -> f ∈ w_owed w -> pe (w_fibers w) f = true) -> wake_inv (park_return w f k b).
Proof.
  intros Hwk Hf Hnc Hy. pose proof (park_return_place w f k b) as Hs.
  assert (Ho : owner_ok (w_owner (park_return w f k b)) (w_fibers (park_return w f k b))) by (destruct (park_return_owner w f k b) as [-> | ->]; by destruct k).
  apply (wake_step w _ f); try done; [apply park_return_same|apply Hs|by rewrite (sp_st _ _ Hs), Hf| |].
  - intros g. rewrite park_return_owed, park_woken_owed. intros [Hg _] Hgf. left. auto.
  - rewrite park_return_owed, park_woken_owed. intros [Hg Hk]. left. right. right. left. rewrite (sp_pe _ _ Hs). auto.
Qed.

Lemma park_wake w f k w' : wake_inv w -> st (w_fibers w) f = Some FIBER_RUNNING -> parks (Some k) -> (forall g, ~ carries (w_owner w) (w_fibers w) g) ->
  beans_fiber_park w f k = Some w' -> wake_inv w'.
Proof.
  intros Hwk Hf Hk Hnc. unfold beans_fiber_park. destruct (w_fibers w !! f) as [x|] eqn:Hx; [|done]. cbn [mbind option_bind]. intros [= <-].
  destruct (fiber_cancel_observable x).
  - apply park_return_wake; [done|done|auto|]. intros ->. done.
  - apply (wake_step w _ f); try done; wsimp; [apply same_but_alter|cbn; rewrite co_set by eauto; by rewrite decide_True|rewrite st_keep by done; congruence|auto|].
    intros Hin. left. right. right. left. rewrite pe_keep by done. apply settled_running; [|auto]. destruct (wk_owed _ Hwk f Hin) as [|Hc]; [done|].
    by destruct (Hnc f).
Qed.

(** Nothing the invariant reads changes but the worker's thread. *)
Lemma wake_same w w' : wake_inv w -> (forall g, st (w_fibers w') g = st (w_fibers w) g /\ pe (w_fibers w') g = pe (w_fibers w) g /\ co (w_fibers w') g = co (w_fibers w) g) ->
  w_remote w' = w_remote w -> owner_ok (w_owner w') (w_fibers w') -> (forall g, ~ carries (w_owner w) (w_fibers w) g) ->
  (forall g, g ∈ w_owed w' -> g ∈ w_owed w \/ carries (w_owner w') (w_fibers w') g) -> wake_inv w'.
Proof.
  intros [Hr Ho Hp Hw] Hs Hr' Ho' Hnc Hw'. split; [congruence|done| |].
  - intros g. destruct (Hs g) as (H1 & H2 & H3). rewrite H1, H2, H3. apply Hp.
  - intros g Hg. destruct (Hw' g Hg) as [Hin|]; [|auto]. left. destruct (Hw g Hin) as [H|H]; [|by destruct (Hnc g)].
    destruct (Hs g) as (H1 & H2 & H3). unfold settled_wake. by rewrite H1, H2, H3.
Qed.

Lemma same_views w f g : (forall x, fb_state (g x) = fb_state x) -> (forall x, fb_cont (g x) = fb_cont x) ->
  (forall x, pending_wake (g x) = pending_wake x) ->
  forall h, st (w_fibers (upd w f g)) h = st (w_fibers w) h /\ pe (w_fibers (upd w f g)) h = pe (w_fibers w) h /\ co (w_fibers (upd w f g)) h = co (w_fibers w) h.
Proof. intros H1 H2 H3 h. wsimp. by rewrite st_keep, pe_keep, co_keep. Qed.

Lemma retire_wake w c o : wake_inv w -> st (w_fibers w) c = Some FIBER_DONE -> (forall g, ~ carries (w_owner w) (w_fibers w) g) ->
  (forall m, owner_ok o m) -> wake_inv (at_owner (fiber_retire w c) o).
Proof.
  intros Hwk Hc Hnc Ho. unfold fiber_retire. case_decide; [by apply (wake_same w); auto|].
  apply (wake_step w _ c); try done; wsimp; auto.
  - intros g Hg. unfold st, pe, co. by rewrite lookup_delete_ne.
  - unfold st. by rewrite lookup_delete_eq.
  - intros _. left. right. left. unfold st. by rewrite lookup_delete_eq.
Qed.

Lemma wake_drop w o : wake_inv w -> owner_ok o (w_fibers w) -> (forall g, ~ carries (w_owner w) (w_fibers w) g) -> wake_inv (at_owner w o).
Proof. intros Hwk Ho Hnc. apply (wake_same w); auto. Qed.

(** [beans_fiber_resume] by the worker's thread. *)
Lemma resume_wake w r (k : owner) w' : wake_inv w -> queue_inv w -> w_owner w = OResume r k -> owner_resume_step w r k = Some w' -> wake_inv w'.
Proof.
  intros Hwk Hq Ho. unfold owner_resume_step. destruct (resume_step (w_fibers w) r) as [[m next]|] eqn:Hr; [|done].
  apply resume_step_st in Hr as (Hjo & Hco & Hdom & Hr). cbn [mbind option_bind]. intros [= <-].
  pose proof (wk_owner _ Hwk) as Hok. rewrite Ho in Hok. cbn in Hok. destruct Hok as [Hk Hok].
  assert (Hkok : forall m, owner_ok k m) by (intros m'; clear -Hk; destruct k; cbn in *; tauto).
  assert (Hkc : forall m g, ~ carries k m g) by (intros m' g; clear -Hk; destruct k; cbn in *; tauto).
  assert (Hgen : forall w2 o, w_fibers w2 = m -> w_remote w2 = w_remote w -> w_owed w2 = w_owed w -> owner_ok o m -> (forall g, st m g = st (w_fibers w) g) ->
    (forall g, pe (w_fibers w) g = true -> pe m g = true) -> (forall g, pe m g = true -> pe (w_fibers w) g = true \/ st m g <> Some FIBER_PARKED) ->
    (forall g, carries (OResume r k) (w_fibers w) g -> settled_wake m g \/ carries o m g) -> wake_inv (at_owner w2 o)).
  { intros w2 o H1 H2 H3 H4 H5 H6 H7 H8. split; wsimp; rewrite ?H1, ?H2, ?H3.
    - apply Hwk.
    - done.
    - intros g Hg. rewrite Hco. rewrite H5 in Hg. destruct (wk_parked _ Hwk g Hg) as [Hp1 Hp2]. split; [done|].
      destruct (pe m g) eqn:Hpe; [|done]. destruct (H7 g Hpe) as [|Hne]; [congruence|]. rewrite H5 in Hne. done.
    - intros g Hg. destruct (wk_owed _ Hwk g Hg) as [[H|[H|[H|[H Hc]]]]|H]; [left..|].
      + left. by rewrite H5.
      + right. left. by rewrite H5.
      + right. right. left. auto.
      + right. right. right. by rewrite H5, Hco.
      + apply H8. by rewrite <-Ho. }
  destruct r as [f|f|f|f|f], next as [[g|g|g|g|g]|]; try done.
  - destruct Hr as (-> & -> & Hs). apply Hgen; auto. by split.
  - destruct Hr as (-> & -> & Hs & _). apply Hgen; auto. by split.
  - destruct Hr as (-> & Hs). apply Hgen; auto. intros g <-. left. by left.
  - destruct Hr as (_ & _ & Hs). done.
  - destruct Hr as (-> & Hs & Hst & Hpe). destruct (wk_parked _ Hwk f Hs) as [Hpk _].
    apply (wake_step w _ f); try done; wsimp.
    + intros h Hh. by rewrite Hst, Hpe, Hco, decide_False.
    + by rewrite Hst, decide_True.
    + intros h Hh Hhf. left. rewrite Ho. cbn. split; [done|congruence].
    + intros _. left. right. right. right. rewrite Hst, Hco, decide_True by done. done.
  - subst m. apply Hgen; auto. intros g [].
  - destruct Hr as (-> & Hst & Hpe). apply Hgen; auto.
    + split; [done|]. by rewrite Hst.
    + intros g. rewrite Hpe. by case_decide.
    + intros g. rewrite Hpe. case_decide; [|auto]. subst. right. by rewrite Hst.
    + intros g <-. left. right. right. left. by rewrite Hpe, decide_True.
  - destruct Hr as (_ & _ & Hs). done.
  - destruct Hr as (-> & Hs). apply Hgen; auto. intros g [].
Qed.

Lemma park_woken_twice w f k : k <> KYield -> park_woken (with_owed w (w_owed w ∖ {[f]})) f k = park_woken w f k.
Proof.
  intros Hk. assert (He : (w_owed w ∖ {[f]}) ∖ {[f]} = w_owed w ∖ {[f]}) by (apply set_eq; intros g; rewrite !elem_of_difference; tauto).
  unfold park_woken, with_owed, upd. wsimp. by destruct k; rewrite ?He.
Qed.

Lemma running_of w f : queue_inv w -> owner_running (w_owner w) = Some f -> st (w_fibers w) f = Some FIBER_RUNNING.
Proof. intros Hq. apply (q_run _ Hq). Qed.
Lemma parking_of w f : queue_inv w -> owner_parking (w_owner w) = Some f -> st (w_fibers w) f = Some FIBER_PARKING.
Proof. intros Hq. apply (q_park _ Hq). Qed.

Lemma owed_settled w f : wake_inv w -> f ∈ w_owed w -> ~ carries (w_owner w) (w_fibers w) f -> settled_wake (w_fibers w) f.
Proof. intros Hwk Hf Hnc. by destruct (wk_owed _ Hwk f Hf). Qed.

Lemma settle_wake w f d hook w' : wake_inv w -> queue_inv w -> w_owner w = OSettle f d -> settle w f d hook = Some w' -> wake_inv w'.
Proof.
  intros Hwk Hq Ho. unfold settle. destruct (w_fibers w !! f) as [x|] eqn:Hx; [|done]. cbn [mbind option_bind]. intros [= <-].
  assert (Hf : st (w_fibers w) f = Some FIBER_PARKING) by (apply parking_of; [done|by rewrite Ho]).
  pose proof (wk_owner _ Hwk) as Hok. rewrite Ho in Hok.
  assert (Hnc : forall g, ~ carries (w_owner w) (w_fibers w) g) by (rewrite Ho; intros g []).
  assert (Hpf : f ∈ w_owed w -> pe (w_fibers w) f = true) by (intros Hin; apply settled_running; [by apply owed_settled|auto]).
  assert (Hpx : pe (w_fibers w) f = pending_wake x) by (unfold pe; by rewrite Hx).
  assert (Hp0 : pe (alter (set_pending false) f (w_fibers w)) f = false) by (rewrite pe_set by eauto; by rewrite decide_True).
  destruct d.
  - apply (wake_step w _ f); try done; wsimp; auto.
    + apply same_but_alter.
    + destruct (pending_wake x); cbn; rewrite ?co_keep by done; auto.
    + rewrite st_keep by done. congruence.
    + intros Hin. destruct (pending_wake x) eqn:Hpw; [|rewrite Hpf in Hpx by done; done]. right. cbn. rewrite co_keep by done. auto.
  - apply (wake_step w _ f); try done; wsimp; auto; [congruence|]. intros Hin. left. right. right. left. auto.
  - assert (Hfin : forall o owed, (forall m, owner_ok o m) -> (forall g, g ∈ owed -> g ∈ w_owed w \/ forall m, carries o m g) ->
      wake_inv (at_owner (with_owed (all_remove (upd w f (set_state FIBER_DONE)) f) owed) o)).
    { intros o owed H1 H2. assert (Hd : st (alter (set_state FIBER_DONE) f (w_fibers w)) f = Some FIBER_DONE) by (rewrite st_set by eauto; by rewrite decide_True).
      apply (wake_step w _ f); try done; wsimp.
      - apply same_but_alter.
      - rewrite Hd. done.
      - intros g Hg Hgf. destruct (H2 g Hg); auto.
      - intros _. left. by left. }
    destruct hook as [g|].
    + apply (Hfin (OResume (RLoad g) (OFinished f)) ({[g]} ∪ w_owed w)); [done|]. intros h [Hh|Hh]%elem_of_union; [idtac|auto].
      apply elem_of_singleton in Hh as ->. by right.
    + assert (He : forall w2, at_owner w2 (OFinished f) = at_owner (with_owed w2 (w_owed w2)) (OFinished f)) by done. rewrite He. apply Hfin; [done|auto].
Qed.

Lemma owner_step_wake w w' : wake_inv w -> queue_inv w -> link_inv w -> owner_step w = Some w' -> wake_inv w'.
Proof.
  intros Hwk Hq Hl. unfold owner_step. pose proof (wk_owner _ Hwk) as Hok.
  destruct (w_owner w) as [|f|f c|f d|f|f d|f d|f|f|f|f|r k] eqn:Ho; try done.
  - assert (Hnc : forall g, ~ carries (w_owner w) (w_fibers w) g) by (rewrite Ho; intros g []).
    destruct (w_fibers w !! c) as [x|] eqn:Hx; [|done]. cbn [mbind option_bind].
    case_decide as Hd.
    + intros [= <-]. apply retire_wake; [|wsimp; rewrite st_keep by done; by rewrite (st_of _ _ _ Hx), Hd|wsimp; rewrite Ho; by intros ? []|done].
      apply (wake_same w); auto; [by apply same_views|]. wsimp. by rewrite Ho.
    + apply park_wake; [|wsimp; rewrite st_keep by done; apply running_of; [done|by rewrite Ho]|done|wsimp; rewrite Ho; by intros ? []].
      apply (wake_same w); auto; [by apply same_views|]. wsimp. by rewrite Ho.
  - assert (Hnc : forall g, ~ carries (w_owner w) (w_fibers w) g) by (rewrite Ho; intros g []).
    case_match; [|intros [= <-]; by apply wake_drop]. apply park_wake; [done|apply running_of; [done|by rewrite Ho]|done|done].
  - assert (Hnc : forall g, ~ carries (w_owner w) (w_fibers w) g) by (rewrite Ho; intros g []).
    destruct (w_fibers w !! f) as [x|] eqn:Hx; [|done]. cbn [mbind option_bind]. intros [= <-].
    assert (Hf : st (w_fibers w) f = Some FIBER_RUNNING) by (apply running_of; [done|by rewrite Ho]).
    assert (Hpx : pe (w_fibers w) f = pending_wake x) by (unfold pe; by rewrite Hx). cbn in Hok. rewrite (co_of _ _ _ Hx) in Hok.
    assert (Hpf : f ∈ w_owed w -> pe (w_fibers w) f = true) by (intros Hin; apply settled_running; [by apply owed_settled|auto]).
    destruct (pending_wake x).
    + set (w1 := upd w f (set_pending false)).
      assert (Hb : wake_inv (with_owed w1 (w_owed w1 ∖ {[f]}))).
      { apply (wake_step w _ f); try done; unfold w1; wsimp; auto.
        - apply same_but_alter.
        - rewrite Ho. cbn. rewrite co_keep by done. by rewrite (co_of _ _ _ Hx).

        - rewrite st_keep by done. congruence.
        - intros g [Hg _]%elem_of_difference _. auto.
        - intros [_ Hg]%elem_of_difference. destruct Hg. by apply elem_of_singleton. }
      assert (He : park_return w1 f (fb_cont x) false = park_return (with_owed w1 (w_owed w1 ∖ {[f]})) f (fb_cont x) false).
      { unfold park_return. rewrite park_woken_twice; [done|]. intros Hy. by rewrite Hy in Hok. }
      rewrite He. apply park_return_wake; [done|unfold w1; wsimp; by rewrite st_keep|unfold w1; wsimp; rewrite Ho; by intros ? _ []|].
      intros Hy. by rewrite Hy in Hok.
    + apply (wake_step w _ f); try done; wsimp; auto.
      * apply same_but_alter.
      * cbn. rewrite co_keep by done. by rewrite (co_of _ _ _ Hx).
      * rewrite st_keep by done. congruence.
      * intros Hin. rewrite Hpf in Hpx by done. done.
  - intros [= <-]. assert (Hnc : forall g, ~ carries (w_owner w) (w_fibers w) g) by (rewrite Ho; intros g []).
    assert (Hf : st (w_fibers w) f = Some FIBER_RUNNING) by (apply running_of; [done|by rewrite Ho]). pose proof (st_some _ _ _ Hf) as Hs.
    apply (wake_step w _ f); try done; wsimp; auto.
    + apply same_but_alter.
    + destruct d; cbn in *; try done. by rewrite co_keep.
    + rewrite st_set by done. by rewrite decide_True.
    + intros Hin. left. right. right. left. rewrite pe_keep by done. apply settled_running; [by apply owed_settled|auto].
  - destruct d; intros Hs; try done; by eapply settle_wake in Hs.
  - unfold settle_cas. destruct (w_fibers w !! f) as [x|] eqn:Hx; [|done]. cbn [mbind option_bind]. intros [= <-].
    assert (Hnc : forall g, ~ carries (w_owner w) (w_fibers w) g) by (rewrite Ho; intros g []). destruct Hok as [Hok1 Hok2].
    assert (Hf : st (w_fibers w) f = Some FIBER_PARKING) by (apply parking_of; [done|by rewrite Ho]).
    rewrite decide_True by (rewrite (st_of _ _ _ Hx) in Hf; congruence).
    apply (wake_step w _ f); try done; wsimp; auto.
    + apply same_but_alter.
    + rewrite co_keep, pe_keep by done. auto.
    + intros Hin. pose proof (settled_running _ f (owed_settled _ _ Hwk Hin (Hnc f)) (or_intror Hf)). congruence.
  - intros [= <-]. assert (Hf : st (w_fibers w) f = Some FIBER_PARKING) by (apply parking_of; [done|by rewrite Ho]). pose proof (st_some _ _ _ Hf) as Hs.
    apply (wake_step w _ f); try done; wsimp; auto.
    + apply same_but_alter.
    + rewrite st_set by done. by rewrite decide_True.
    + intros g Hg Hgf. left. rewrite Ho. cbn. split; [done|]. intros [? _]. congruence.
    + intros Hin. left. destruct (wk_owed _ Hwk f Hin) as [H|H].
      * right. right. left. rewrite pe_keep by done. apply settled_running; auto.
      * right. right. right. rewrite Ho in H. rewrite st_set by done. rewrite decide_True by done. rewrite co_keep by done. split; [done|apply H].
  - assert (Hnc : forall g, ~ carries (w_owner w) (w_fibers w) g) by (rewrite Ho; intros g []). unfold settle_finished.
    destruct (w_fibers w !! f) as [x|] eqn:Hx; [|done]. cbn [mbind option_bind]. intros [= <-]. destruct (fb_joiner x) as [j|].
    + apply (wake_same w); try done; auto. wsimp. intros g [Hg|Hg]%elem_of_union; [idtac|auto]. apply elem_of_singleton in Hg as ->. by right.
    + destruct (forgotten x); [|by apply wake_drop]. apply retire_wake; try done. apply (l_fin w Hl). by rewrite Ho.
  - destruct (w_fibers w !! f) as [x|] eqn:Hx; [|done]. cbn [mbind option_bind]. intros [= <-].
    assert (Hf : st (w_fibers w) f = Some FIBER_RUNNING) by (apply running_of; [done|by rewrite Ho]).
    apply park_return_wake; [done|done|rewrite Ho; cbn; intros g Hg [? _]; congruence|].
    intros Hk Hin. destruct (wk_owed _ Hwk f Hin) as [H|H]; [by apply settled_running; auto|]. rewrite Ho in H. destruct H as [_ H].
    rewrite (co_of _ _ _ Hx), Hk in H. done.
  - by apply resume_wake.
Qed.

Lemma call_step_wake w f c w' : wake_inv w -> queue_inv w -> link_inv w -> w_owner w = ORun f -> call_step w f c = Some w' -> wake_inv w'.
Proof.
  intros Hwk Hq Hl Ho. assert (Hnc : forall g, ~ carries (w_owner w) (w_fibers w) g) by (rewrite Ho; intros g []).
  assert (Hf : st (w_fibers w) f = Some FIBER_RUNNING) by (apply running_of; [done|by rewrite Ho]).
  assert (Hpf : f ∈ w_owed w -> pe (w_fibers w) f = true) by (intros Hin; apply settled_running; [by apply owed_settled|auto]).
  assert (Hupd : forall h g, (forall x, fb_state (g x) = fb_state x) -> (forall x, fb_cont (g x) = fb_cont x) ->
    (forall x, pending_wake (g x) = pending_wake x) -> wake_inv (upd w h g)).
  { intros h g H1 H2 H3. apply (wake_same w); auto; [by apply same_views|]. wsimp. by rewrite Ho. }
  destruct c as [reserve addr| | |n|c|g|g|g|b|b| |s]; cbn [call_step].
  - intros Hs. apply spawn_spec in Hs as (g & kept & pool & Hg & ->). apply (wake_step w _ g); try done; wsimp.
    + intros h Hh. unfold st, pe, co. by rewrite lookup_insert_ne.
    + by rewrite Ho.
    + unfold st. by rewrite lookup_insert_eq.
    + intros h [Hh _]%elem_of_difference _. auto.
    + intros [_ Hh]%elem_of_difference. destruct Hh. by apply elem_of_singleton.
  - by apply park_wake.
  - unfold beans_fiber_yield. destruct (w_fibers w !! f) as [x|] eqn:Hx; [|done]. cbn [mbind option_bind]. intros [= <-].
    destruct (fiber_cancel_observable x); [by apply wake_drop|]. apply (wake_step w _ f); try done; wsimp; auto.
    + apply same_but_alter.
    + rewrite st_keep by done. congruence.
    + intros Hin. left. right. right. left. rewrite pe_keep by done. auto.
  - case_match; intros [= <-]; [done|]. by apply (wake_same w); auto.
  - destruct (w_fibers w !! c) as [x|]; [|done]. cbn [mbind option_bind]. destruct (_ || _); [done|]. destruct (fb_joiner x); [done|].
    intros [= <-]. by apply wake_drop.
  - intros [= <-]. apply (wake_same w); try done. wsimp. intros h [Hh|Hh]%elem_of_union; [|auto]. apply elem_of_singleton in Hh as ->. by right.
  - intros [= <-]. apply (wake_same w); try done; [by apply same_views|]. wsimp. intros h [Hh|Hh]%elem_of_union; [|auto].
    apply elem_of_singleton in Hh as ->. by right.
  - intros [= <-]. by apply Hupd.
  - intros [= <-]. by apply Hupd.
  - intros [= <-]. by apply Hupd.
  - intros [= <-]. unfold beans_fiber_exit_cancelled. apply Hupd; intros x; by destruct (cancel_handler x).
  - destruct (w_fibers w !! f) as [x|]; [|done]. cbn [mbind option_bind]. destruct (is_root x); [done|]. intros [= <-].
    assert (Hu : wake_inv (upd w f (set_status s))) by (by apply Hupd). apply wake_drop; [done|done|]. wsimp. rewrite Ho. by intros ? [].
Qed.

Lemma step_wake w ev w' : local_event ev = true -> wake_inv w -> queue_inv w -> link_inv w -> step w ev = Some w' -> wake_inv w'.
Proof.
  intros Hev Hwk Hq Hl. destruct ev as [|c| | | |hook|n|f|i]; cbn [step]; try done.
  - by apply owner_step_wake.
  - destruct (w_owner w) eqn:Ho; try done. by apply call_step_wake.
  - destruct (w_owner w) eqn:Ho; try done. intros [= <-]. apply (wake_same w); auto; wsimp; rewrite Ho; [done|by intros ? []].
  - destruct (w_owner w) eqn:Ho; try done. destruct (w_sleepers w) as [|e s]; [done|]. case_match; [|done]. intros [= <-].
    apply (wake_same w); try done; wsimp; [rewrite Ho; by intros ? []|]. intros h [Hh|Hh]%elem_of_union; [|auto].
    apply elem_of_singleton in Hh as ->. by right.
  - destruct (w_owner w) eqn:Ho; try done. unfold ready_pop. destruct (w_ready w) as [|f ready] eqn:Hr; [done|]. cbn [mbind option_bind].
    unfold run_one. wsimp. destruct (w_fibers w !! f) as [x|] eqn:Hx; [|done]. cbn [mbind option_bind]. intros [= <-].
    assert (Hf : st (w_fibers w) f = Some FIBER_READY) by (apply (q_ready _ Hq); unfold queued; rewrite Hr; by left).
    assert (Hnc : forall g, ~ carries (w_owner w) (w_fibers w) g) by (rewrite Ho; intros g []).
    apply (wake_step w _ f); try done; wsimp; auto.
    + apply same_but_alter.
    + by destruct (fb_cont x).
    + rewrite st_set by eauto. by rewrite decide_True.
    + intros Hin. destruct (owed_settled w f Hwk Hin (Hnc f)) as [H|[H|[H|[_ H]]]]; [congruence..| |].
      * left. right. right. left. by rewrite pe_keep.
      * right. rewrite (co_of _ _ _ Hx) in H. destruct (fb_cont x) eqn:Hk; cbn in H; try done; cbn; rewrite co_keep by done;
          by rewrite (co_of _ _ _ Hx), Hk.
  - destruct (w_owner w) as [| | | | | |f []| | | | |] eqn:Ho; try done. by apply settle_wake.
  - case_match; [|done]. intros [= <-]. split; try apply Hwk.
Qed.

Lemma start_wake root now page : wake_inv (beans_worker_bootstrap root now page).
Proof.
  split; cbn; [done|done| |by intros f ?%elem_of_empty]. intros f. unfold st.
  destruct (decide (f = root)) as [->|]; [by rewrite lookup_singleton_eq|by rewrite lookup_singleton_ne].
Qed.

Lemma run_wake evs : forall w w', forallb local_event evs = true -> wake_inv w -> queue_inv w -> link_inv w -> run w evs = Some w' -> wake_inv w'.
Proof.
  induction evs as [|ev evs IH]; intros w w'; cbn [run forallb]; [by intros _ ? _ _ [= <-]|]. intros [He Hes]%andb_true_iff Hwk Hq Hl.
  destruct (step w ev) as [w1|] eqn:Hs; [|done]. cbn [mbind option_bind].
  intros Hr. apply (IH w1); [done|by eapply step_wake|by eapply step_queue|by eapply step_link|done].
Qed.

(** * who waits for a timer or a child really has one to wait for *)

Fixpoint owner_sleep (o : owner) : option (Z * Z) :=
  match o with OSleep f d => Some (f, d) | OResume _ k => owner_sleep k | _ => None end.

(** A fiber parked in a sleep has its timer armed, or the timer fired and the
    wake is owed; one parked in a join whose child is done is owed a wake, or
    is about to be. *)
Record sleep_inv w : Prop := {
  sl_heap : heap_ok (w_sleepers w);
  sl_wait : forall f d, co (w_fibers w) f = Some (KSleep d) -> mkSleeper d f ∈ w_sleepers w \/ f ∈ w_owed w /\ d <= w_now w;
  sl_head : forall f d, owner_sleep (w_owner w) = Some (f, d) -> mkSleeper d f ∈ w_sleepers w \/ d <= w_now w;
  sl_join : forall f c, co (w_fibers w) f = Some (KJoin c) -> st (w_fibers w) c = Some FIBER_DONE ->
    f ∈ w_owed w \/ owner_finished (w_owner w) = Some c
}.

Lemma sleep_keep w w' : sleep_inv w -> heap_ok (w_sleepers w') -> w_now w <= w_now w' ->
  (forall e, e ∈ w_sleepers w -> e ∈ w_sleepers w') ->
  (forall f d, co (w_fibers w') f = Some (KSleep d) -> co (w_fibers w) f = Some (KSleep d)) ->
  (forall f c, co (w_fibers w') f = Some (KJoin c) -> co (w_fibers w) f = Some (KJoin c)) ->
  (forall f, f ∈ w_owed w -> co (w_fibers w') f <> Some KPark -> co (w_fibers w') f <> Some KStart -> f ∈ w_owed w') ->
  (forall c, st (w_fibers w') c = Some FIBER_DONE -> st (w_fibers w) c = Some FIBER_DONE) ->
  owner_sleep (w_owner w') = None \/ owner_sleep (w_owner w') = owner_sleep (w_owner w) ->
  (forall c, owner_finished (w_owner w) = Some c -> owner_finished (w_owner w') = Some c) -> sleep_inv w'.
Proof.
  intros [Hh Hw Hhd Hj] Hh' Hn Hs Hc1 Hc2 Ho Hd Hos Hof. split; [done| | |].
  - intros f d Hf. destruct (Hw f d (Hc1 f d Hf)) as [H|[H1 H2]]; [left; auto|right]. split; [|lia]. apply Ho; [done|congruence|congruence].
  - intros f d Hf. destruct Hos as [Hos|Hos]; rewrite Hos in Hf; [done|]. destruct (Hhd f d Hf) as [H|H]; [left; auto|right; lia].
  - intros f c Hf Hdone. destruct (Hj f c (Hc2 f c Hf) (Hd c Hdone)) as [H|H]; [left|right; auto]. apply Ho; [done|congruence|congruence].
Qed.

Lemma sleep_at w o : sleep_inv w -> owner_sleep o = None -> (forall c, owner_finished (w_owner w) = Some c -> owner_finished o = Some c) -> sleep_inv (at_owner w o).
Proof. intros Hs H1 H2. apply (sleep_keep w); try done; [by apply Hs|by left]. Qed.

Lemma sleep_upd w f g : sleep_inv w -> (forall x, fb_state (g x) = fb_state x) -> (forall x, fb_cont (g x) = fb_cont x) -> sleep_inv (upd w f g).
Proof.
  intros Hs H1 H2. apply (sleep_keep w); try done; try (by right); [by apply Hs|..]; wsimp.
  - intros h d. by rewrite co_keep.
  - intros h c. by rewrite co_keep.
  - intros c. by rewrite st_keep.
Qed.

Lemma sleep_owe w s o : sleep_inv w -> (forall f, f ∈ w_owed w -> f ∈ s) -> owner_sleep o = None ->
  (forall c, owner_finished (w_owner w) = Some c -> owner_finished o = Some c) -> sleep_inv (at_owner (with_owed w s) o).
Proof. intros Hs H1 H2 H3. apply (sleep_keep w); try done; try (by left); [apply Hs|auto]. Qed.

Lemma remove_other s f d g : heap_ok s -> g <> f -> mkSleeper d g ∈ s -> mkSleeper d g ∈ sleeper_remove s f.
Proof.
  intros Hok Hg Hin. destruct (timer_remove_ok s f Hok) as [_ [[_ ->]|(e & He & Hp)]]; [done|]. rewrite <-Hp in Hin.
  apply elem_of_cons in Hin as [<-|]; [done|done].
Qed.

Lemma park_return_sleepers w f k b :
  w_sleepers (park_return w f k b) = w_sleepers w \/
  (exists d, k = KSleep d) /\ w_owner (park_return w f k b) = ORun f /\ w_sleepers (park_return w f k b) = sleeper_remove (w_sleepers w) f.
Proof.
  assert (Hw : w_sleepers (park_woken w f k) = w_sleepers w) by (unfold park_woken; by destruct k).
  unfold park_return. destruct k as [| | |c|d]; try (left; exact Hw); [destruct (_ && _); left; exact Hw|]. destruct b; [right|left; exact Hw].
  split; [eauto|]. split; [done|]. wsimp. change (w_sleepers (beans_fiber_exit_cancelled ?w2 f)) with (w_sleepers w2). wsimp. by rewrite Hw.
Qed.

Lemma park_return_sleep w f k b : sleep_inv w -> (forall d, k = KSleep d -> mkSleeper d f ∈ w_sleepers w \/ d <= w_now w) ->
  owner_finished (w_owner w) = None -> sleep_inv (park_return w f k b).
Proof.
  intros Hs Hk Hfin. pose proof (park_return_place w f k b) as Hp. pose proof Hs as [Hh Hw Hhd Hj].
  assert (Hh' : heap_ok (w_sleepers (park_return w f k b))).
  { destruct (park_return_sleepers w f k b) as [-> |(_ & _ & ->)]; [done|by apply timer_remove_ok]. }
  assert (Hin : forall g d, g <> f -> mkSleeper d g ∈ w_sleepers w -> mkSleeper d g ∈ w_sleepers (park_return w f k b)).
  { intros g d Hg. destruct (park_return_sleepers w f k b) as [-> |(_ & _ & ->)]; [done|by apply remove_other]. }
  assert (Howe : forall g, g <> f -> g ∈ w_owed w -> g ∈ w_owed (park_return w f k b)).
  { intros g Hg Hin'. rewrite park_return_owed, park_woken_owed. by split. }
  split; [done| | |].
  - intros g d. rewrite park_return_co. case_decide as Hg; [by destruct (w_fibers w !! f)|]. intros Hc.
    rewrite (sp_now _ _ Hp). destruct (Hw g d Hc) as [|[]]; [left|right]; auto.
  - intros g d Ho. destruct (park_return_sleepers w f k b) as [-> |(_ & Hr & _)]; [|by rewrite Hr in Ho].
    rewrite (sp_now _ _ Hp). destruct (park_return_owner w f k b) as [Hr|Hr]; rewrite Hr in Ho; [done|].
    assert (g = f /\ k = KSleep d) as [-> Hk'] by (destruct k; cbn in Ho; split; congruence). auto.
  - intros g c. rewrite park_return_co, (sp_st _ _ Hp). case_decide as Hg; [by destruct (w_fibers w !! f)|]. intros Hc Hd.
    destruct (Hj g c Hc Hd) as [|Hf]; [left; auto|congruence].
Qed.

Lemma park_sleep w f k w' : sleep_inv w -> (forall d, k = KSleep d -> mkSleeper d f ∈ w_sleepers w) ->
  (forall c, k = KJoin c -> st (w_fibers w) c <> Some FIBER_DONE) ->
  owner_finished (w_owner w) = None -> beans_fiber_park w f k = Some w' -> sleep_inv w'.
Proof.
  intros Hs Hk Hj Hfin. unfold beans_fiber_park. destruct (w_fibers w !! f) as [x|] eqn:Hx; [|done]. cbn [mbind option_bind]. intros [= <-].
  destruct (fiber_cancel_observable x); [apply park_return_sleep; auto|]. pose proof Hs as [Hh Hw Hhd Hjn]. split; wsimp; try done.
  - intros g d. rewrite co_set by eauto. case_decide as Hg; [|apply Hw]. subst g. intros [= ->]. auto.
  - intros g c. rewrite co_set, st_keep by eauto. case_decide as Hg; [|intros H1 H2; destruct (Hjn g c H1 H2); [by left|congruence]].
    intros [= ->] Hd. by destruct (Hj c).
Qed.

Lemma retire_sleep w c o : sleep_inv w -> owner_sleep o = None -> owner_finished (w_owner w) = None -> sleep_inv (at_owner (fiber_retire w c) o).
Proof.
  intros Hs H1 H2. unfold fiber_retire. case_decide; [apply (sleep_keep w); try done; [apply Hs|by left|by rewrite H2]|].
  assert (Hco : forall g v, co (delete c (w_fibers w)) g = Some v -> co (w_fibers w) g = Some v).
  { intros g v. unfold co. destruct (decide (g = c)) as [->|]; [by rewrite lookup_delete_eq|by rewrite lookup_delete_ne]. }
  apply (sleep_keep w); wsimp; auto; [apply Hs|lia| |by rewrite H2].
  intros g. unfold st. destruct (decide (g = c)) as [->|]; [by rewrite lookup_delete_eq|by rewrite lookup_delete_ne].
Qed.

Lemma resume_sleep w r m next : sleep_inv w -> resume_step (w_fibers w) r = Some (m, next) -> sleep_inv (with_fibers w m).
Proof.
  intros Hs Hr. apply resume_step_st in Hr as (Hjo & Hco & Hdom & Hr).
  assert (Hd : forall c, st m c = Some FIBER_DONE -> st (w_fibers w) c = Some FIBER_DONE).
  { intros c. destruct r as [g|g|g|g|g], next as [[h|h|h|h|h]|]; try done; try (destruct Hr as (_ & -> & _); done); try (destruct Hr as (-> & _); done).
    - destruct Hr as (-> & Hg & Hst & _). rewrite Hst. by case_decide.
    - by subst m. }
  apply (sleep_keep w); wsimp; auto; [apply Hs|lia|intros f d; by rewrite Hco|intros f c; by rewrite Hco].
Qed.

Lemma sleep_ext w w' : sleep_inv w -> w_sleepers w' = w_sleepers w -> w_now w' = w_now w -> w_fibers w' = w_fibers w -> w_owed w' = w_owed w ->
  w_owner w' = w_owner w -> sleep_inv w'.
Proof. intros [] H1 H2 H3 H4 H5. split; rewrite ?H1, ?H2, ?H3, ?H4, ?H5; done. Qed.

Lemma sleep_move w f s o : sleep_inv w -> is_Some (w_fibers w !! f) -> s <> FIBER_DONE -> owner_sleep o = None ->
  owner_finished (w_owner w) = None -> sleep_inv (at_owner (upd w f (set_state s)) o).
Proof.
  intros Hs Hf Hne H1 H2. apply (sleep_keep w); wsimp; auto; [apply Hs|lia| | | |by rewrite H2].
  - intros g d. by rewrite co_keep.
  - intros g c. by rewrite co_keep.
  - intros c. rewrite st_set by done. case_decide; congruence.
Qed.

Lemma in_union_r (s : gset Z) (g f : Z) : f ∈ s -> f ∈ {[g]} ∪ s.
Proof. intros. apply elem_of_union. by right. Qed.

Lemma settle_sleep w f d hook w' : sleep_inv w -> w_owner w = OSettle f d -> settle w f d hook = Some w' -> sleep_inv w'.
Proof.
  intros Hs Ho. unfold settle. destruct (w_fibers w !! f) as [x|] eqn:Hx; [|done]. cbn [mbind option_bind]. intros [= <-]. destruct d.
  - apply sleep_at; [by apply sleep_upd|by destruct (pending_wake x)|wsimp; by rewrite Ho].
  - apply sleep_at; [done|done|by rewrite Ho].
  - assert (Hfin : forall o owed, owner_sleep o = None -> owner_finished o = Some f -> (forall g, g ∈ w_owed w -> g ∈ owed) ->
      sleep_inv (at_owner (with_owed (all_remove (upd w f (set_state FIBER_DONE)) f) owed) o)).
    { intros o owed H1 H2 H3. destruct Hs as [Hh Hw Hhd Hj]. split; wsimp; [done| | |].
      - intros g e. rewrite co_keep by done. intros Hg. destruct (Hw g e Hg) as [|[]]; [by left|right; auto].
      - intros g e. by rewrite H1.
      - intros g c. rewrite co_keep, st_set by eauto. case_decide as Hc; [intros _ _; right; by rewrite H2, Hc|].
        intros Hg Hd. destruct (Hj g c Hg Hd) as [|Hf]; [left; auto|]. by rewrite Ho in Hf. }
    destruct hook as [g|].
    + apply (Hfin (OResume (RLoad g) (OFinished f)) ({[g]} ∪ w_owed w)); [done|done|]. intros h. apply in_union_r.
    + assert (He : forall w2, at_owner w2 (OFinished f) = at_owner (with_owed w2 (w_owed w2)) (OFinished f)) by done. rewrite He. by apply Hfin.
Qed.

Lemma owner_step_sleep w w' : sleep_inv w -> queue_inv w -> link_inv w -> owner_step w = Some w' -> sleep_inv w'.
Proof.
  intros Hs Hq Hl. unfold owner_step. destruct (w_owner w) as [|f|f c|f d|f|f d|f d|f|f|f|f|r k] eqn:Ho; try done.
  - destruct (w_fibers w !! c) as [x|] eqn:Hx; [|done]. cbn [mbind option_bind]. case_decide as Hd.
    + intros [= <-]. apply retire_sleep; [by apply sleep_upd|done|wsimp; by rewrite Ho].
    + apply park_sleep; [by apply sleep_upd|done| |wsimp; by rewrite Ho]. intros ? [= <-]. wsimp. rewrite st_keep by done.
      rewrite (st_of _ _ _ Hx). congruence.
  - destruct (Z.ltb_spec (w_now w) d); [|intros [= <-]; apply sleep_at; [done|done|by rewrite Ho]].
    apply park_sleep; [done| |done|by rewrite Ho]. intros ? [= <-]. destruct (sl_head w Hs f d) as [|]; [by rewrite Ho|done|lia].
  - destruct (w_fibers w !! f) as [x|] eqn:Hx; [|done]. cbn [mbind option_bind]. intros [= <-].
    assert (Hu : sleep_inv (upd w f (set_pending false))) by (by apply sleep_upd). destruct (pending_wake x).
    + apply park_return_sleep; [done| |wsimp; by rewrite Ho]. intros d Hk. destruct (sl_wait w Hs f d) as [|[]]; [by rewrite (co_of _ _ _ Hx), Hk|by left|by right].
    + apply sleep_at; [done|done|wsimp; by rewrite Ho].
  - intros [= <-]. apply sleep_move; [done| |done|done|by rewrite Ho]. apply (st_some _ _ FIBER_RUNNING), running_of; [done|by rewrite Ho].
  - destruct d; intros H; try done; by eapply settle_sleep in H.
  - unfold settle_cas. destruct (w_fibers w !! f) as [x|] eqn:Hx; [|done]. cbn [mbind option_bind]. intros [= <-].
    case_decide; [apply sleep_move; [done|eauto|done|done|by rewrite Ho]|apply sleep_at; [done|done|by rewrite Ho]].
  - intros [= <-]. assert (Hf : is_Some (w_fibers w !! f)) by (apply (st_some _ _ FIBER_PARKING), parking_of; [done|by rewrite Ho]).
    apply (sleep_ext (at_owner (upd w f (set_state FIBER_READY)) OSched)); try done. apply sleep_move; try done. by rewrite Ho.
  - unfold settle_finished. destruct (w_fibers w !! f) as [x|] eqn:Hx; [|done]. cbn [mbind option_bind]. intros [= <-].
    assert (Hnow : sleep_inv (at_owner (with_owed w (match fb_joiner x with Some j => {[j]} ∪ w_owed w | None => w_owed w end)) OSched)).
    { destruct Hs as [Hh Hw Hhd Hj]. split; wsimp; try done.
      - intros g e Hg. destruct (Hw g e Hg) as [|[]]; [by left|right]. split; [|done]. destruct (fb_joiner x); [by apply in_union_r|done].
      - intros g c Hg Hd. destruct (l_wait w Hl g c Hg) as [Hjo _]. left. destruct (Hj g c Hg Hd) as [Hin|Hf].
        + destruct (fb_joiner x); [by apply in_union_r|done].
        + rewrite Ho in Hf. injection Hf as <-. rewrite (jo_of _ _ _ Hx) in Hjo. injection Hjo as ->. set_solver. }
    destruct (fb_joiner x) as [j|].
    + by apply (sleep_keep _ _ Hnow); try done; [apply Hs|left].
    + destruct (forgotten x).
      * assert (Hr : at_owner (fiber_retire w f) OSched = at_owner (fiber_retire (at_owner (with_owed w (w_owed w)) OSched) f) OSched)
          by (unfold fiber_retire; wsimp; by case_decide).
        rewrite Hr. by apply retire_sleep.
      * apply (sleep_ext _ _ Hnow); done.
  - destruct (w_fibers w !! f) as [x|] eqn:Hx; [|done]. cbn [mbind option_bind]. intros [= <-].
    apply park_return_sleep; [done| |by rewrite Ho]. intros d Hk. destruct (sl_wait w Hs f d) as [|[]]; [by rewrite (co_of _ _ _ Hx), Hk|by left|by right].
  - unfold owner_resume_step. destruct (resume_step (w_fibers w) r) as [[m next]|] eqn:Hr; [|done]. cbn [mbind option_bind]. intros [= <-].
    pose proof (resume_sleep w r m next Hs Hr) as Hs'. apply (sleep_keep (with_fibers w m)); try done; try (by destruct r).
    + destruct r; apply Hs.
    + right. wsimp. rewrite Ho. destruct r; by destruct next.
    + wsimp. rewrite Ho. destruct r; by destruct next.
Qed.

Lemma call_step_sleep w f c w' : sleep_inv w -> link_inv w -> w_owner w = ORun f -> call_step w f c = Some w' -> sleep_inv w'.
Proof.
  intros Hs Hl Ho. pose proof (sl_heap w Hs) as Hh. destruct c as [reserve addr| | |n|c|g|g|g|b|b| |s]; cbn [call_step].
  - intros Hsp. apply spawn_spec in Hsp as (g & kept & pool & Hg & ->).
    assert (Hco : forall h v, co (<[g := fresh_fiber kept]> (w_fibers w)) h = Some v -> v = KStart \/ co (w_fibers w) h = Some v /\ h <> g).
    { intros h v. unfold co. destruct (decide (h = g)) as [->|]; [rewrite lookup_insert_eq; intros [= <-]; by left|rewrite lookup_insert_ne by done; by right]. }
    apply (sleep_keep w); wsimp; auto; [lia| | | |].
    + intros h d Hd. destruct (Hco h _ Hd) as [|[]]; [done|done].
    + intros h d Hd. destruct (Hco h _ Hd) as [|[]]; [done|done].
    + intros h Hh1 _ Hh2. apply elem_of_difference. split; [done|]. intros ->%elem_of_singleton. apply Hh2. unfold co. by rewrite lookup_insert_eq.
    + intros h. unfold st. destruct (decide (h = g)) as [->|]; [by rewrite lookup_insert_eq|by rewrite lookup_insert_ne].
  - apply park_sleep; [done..|by rewrite Ho].
  - unfold beans_fiber_yield. destruct (w_fibers w !! f) as [x|] eqn:Hx; [|done]. cbn [mbind option_bind]. intros [= <-].
    destruct (fiber_cancel_observable x); [apply sleep_at; [done|done|by rewrite Ho]|].
    apply (sleep_keep w); wsimp; auto; [lia| | | |by rewrite Ho].
    + intros g d. rewrite co_set by eauto. by case_decide.
    + intros g d. rewrite co_set by eauto. by case_decide.
    + intros c. by rewrite st_keep.
  - destruct (n <=? 0); intros [= <-]; [done|]. destruct (timer_push_ok (w_sleepers w) (w_now w + n) f Hh) as [Hh' Hp].
    destruct Hs as [_ Hw Hhd Hj]. split; wsimp; [done| | |].
    + intros g d Hg. destruct (Hw g d Hg) as [|]; [left|by right]. rewrite Hp. by right.
    + intros ? ? [= <- <-]. left. rewrite Hp. by left.
    + intros g c Hg Hd. destruct (Hj g c Hg Hd) as [|Hf]; [by left|]. by rewrite Ho in Hf.
  - destruct (w_fibers w !! c) as [x|]; [|done]. cbn [mbind option_bind]. destruct (_ || _); [done|]. destruct (fb_joiner x); [done|].
    intros [= <-]. apply sleep_at; [done|done|by rewrite Ho].
  - intros [= <-]. apply sleep_owe; [done|intros h; apply in_union_r|done|by rewrite Ho].
  - intros [= <-]. apply (sleep_owe (upd w g set_cancel)); [by apply sleep_upd|intros h; apply in_union_r|done|wsimp; by rewrite Ho].
  - intros [= <-]. by apply sleep_upd.
  - intros [= <-]. by apply sleep_upd.
  - intros [= <-]. by apply sleep_upd.
  - intros [= <-]. unfold beans_fiber_exit_cancelled. apply sleep_upd; [done|intros x; by destruct (cancel_handler x)..].
  - destruct (w_fibers w !! f) as [x|]; [|done]. cbn [mbind option_bind]. destruct (is_root x); [done|]. intros [= <-].
    apply sleep_at; [by apply sleep_upd|done|wsimp; by rewrite Ho].
Qed.

Lemma step_sleep w ev w' : sleep_inv w -> queue_inv w -> link_inv w -> step w ev = Some w' -> sleep_inv w'.
Proof.
  intros Hs Hq Hl. pose proof (sl_heap w Hs) as Hh. destruct ev as [|c| | | |hook|n|f|i]; cbn [step].
  - by apply owner_step_sleep.
  - destruct (w_owner w) eqn:Ho; try done. by apply call_step_sleep.
  - destruct (w_owner w) eqn:Ho; try done. intros [= <-]. by apply (sleep_ext w).
  - destruct (w_owner w) eqn:Ho; try done. destruct (w_sleepers w) as [|e s] eqn:He; [done|]. destruct (Z.leb_spec (deadline e) (w_now w)); [|done].
    intros [= <-]. destruct (pop_min_ok (e :: s) e s eq_refl Hh) as [Hh' Hp]. destruct Hs as [_ Hw Hhd Hj]. split; wsimp; try done.
    + intros g d Hg. destruct (Hw g d Hg) as [Hin|[]]; [|right; split; [by apply in_union_r|done]]. rewrite He, <-Hp in Hin.
      apply elem_of_cons in Hin as [<-|Hin]; [right|by left]. split; [apply elem_of_union; left; by apply elem_of_singleton|done].
    + intros g c Hg Hd. destruct (Hj g c Hg Hd) as [|Hf]; [left; by apply in_union_r|]. by rewrite Ho in Hf.
  - destruct (w_owner w) eqn:Ho; try done. unfold ready_pop. destruct (w_ready w) as [|f ready] eqn:Hr; [done|]. cbn [mbind option_bind].
    unfold run_one. wsimp. destruct (w_fibers w !! f) as [x|] eqn:Hx; [|done]. cbn [mbind option_bind]. intros [= <-].
    apply (sleep_ext (at_owner (upd w f (set_state FIBER_RUNNING)) (match fb_cont x with KStart => ORun f | _ => OBack f end))); try done.
    apply sleep_move; [done|eauto|done|by destruct (fb_cont x)|by rewrite Ho].
  - destruct (w_owner w) as [| | | | | |f []| | | | |] eqn:Ho; try done. by apply settle_sleep.
  - destruct (Z.leb_spec 0 n); [|done]. intros [= <-]. apply (sleep_keep w); try done; try (by right); wsimp; first [lia|auto].
  - intros [= <-]. apply (sleep_keep w); try done; try (by right); wsimp; first [done|intros g Hg _ _; by apply in_union_r].
  - unfold remote_resume_step. destruct (w_remote w !! i) as [r|]; [|done]. cbn [mbind option_bind].
    destruct (resume_step (w_fibers w) r) as [[m next]|] eqn:Hr; [|done]. cbn [mbind option_bind]. intros [= <-].
    pose proof (resume_sleep w r m next Hs Hr) as Hs'. apply (sleep_ext (with_fibers w m)); try done; by destruct r.
Qed.

Lemma start_sleep root now page : sleep_inv (beans_worker_bootstrap root now page).
Proof.
  assert (Hco : forall f v, co {[root := root_fiber]} f = Some v -> v = KStart).
  { intros f v. unfold co. destruct (decide (f = root)) as [->|]; [rewrite lookup_singleton_eq|rewrite lookup_singleton_ne by done]; cbn; congruence. }
  split; cbn.
  - intros i Hi. cbn in Hi. lia.
  - intros f d Hf. by apply Hco in Hf.
  - done.
  - intros f d Hf. by apply Hco in Hf.
Qed.

Lemma run_sleep evs : forall w w', sleep_inv w -> queue_inv w -> link_inv w -> run w evs = Some w' -> sleep_inv w'.
Proof.
  induction evs as [|ev evs IH]; intros w w' Hs Hq Hl; cbn [run]; [by intros [= <-]|].
  destruct (step w ev) as [w1|] eqn:Hst; [|done]. cbn [mbind option_bind]. intros Hr.
  apply (IH w1); [by eapply step_sleep|by eapply step_queue|by eapply step_link|done].
Qed.
