(* ===== verification/FiberTheorems.v ===== *)
(** * FiberTheorems: what the fiber scheduler guarantees, and where it does not

    The theorems speak of the states [run] reaches from a bootstrapped worker.
    An event of another thread is [ERemote] or [ERemoteStep]; runs without them
    are the runs of a program whose fibers only wake each other. *)

From stdpp Require Import gmap.
From S2P Require Import Prelude.
From S2P Require Import Sleep.
From S2P Require Import SleepProofs.
From S2P Require Import Fiber.
From S2P Require Import FiberProofs.
From S2P Require Import FiberLinks.
From S2P Require Import FiberLinks.
From S2P Require Import FiberLinks.

Open Scope c_scope.

Section reached.
Context (root now page : Z) (evs : list event) (w : BeansWorker).
Context (Hrun : run (beans_worker_bootstrap root now page) evs = Some w).

Lemma reached_inv : queue_inv w /\ link_inv w.
Proof. destruct (start_inv root now page). by apply (run_inv evs (beans_worker_bootstrap root now page)). Qed.

Lemma reached_sleep : sleep_inv w.
Proof. destruct (start_inv root now page). by apply (run_sleep evs (beans_worker_bootstrap root now page)); [apply start_sleep|..]. Qed.

Lemma reached_wake : forallb local_event evs = true -> wake_inv w.
Proof. intros Hl. destruct (start_inv root now page). by apply (run_wake evs (beans_worker_bootstrap root now page)); [|apply start_wake|..]. Qed.

End reached.

(** C9: however the worker and any number of waking threads interleave, every
    fiber is in exactly one place: it waits in the run queue, in the inbox or
    in the hand of a thread that is pushing it exactly when it is [READY], and
    never twice; it runs on the worker's thread exactly when it is [RUNNING]
    and is being settled exactly when it is [PARKING], so a fiber that is
    switching away is never run; the table and the count of live fibers are
    exact; a pooled record is [DONE] and pooled once; and the compare-exchange
    of settle always finds [PARKING]. *)
Theorem fiber_places_exact root now page evs w : run (beans_worker_bootstrap root now page) evs = Some w ->
  NoDup (queued w) /\
  (forall f, f ∈ queued w <-> st (w_fibers w) f = Some FIBER_READY) /\
  (forall f, owner_running (w_owner w) = Some f <-> st (w_fibers w) f = Some FIBER_RUNNING) /\
  (forall f, owner_parking (w_owner w) = Some f <-> st (w_fibers w) f = Some FIBER_PARKING) /\
  NoDup (w_all w) /\ w_live w = Z.of_nat (length (w_all w)) /\
  (forall f, f ∈ w_all w <-> exists s, st (w_fibers w) f = Some s /\ s <> FIBER_DONE) /\
  NoDup (w_pool w) /\ (forall f, f ∈ w_pool w -> st (w_fibers w) f = Some FIBER_DONE) /\
  (forall f, w_owner w = OSettleCas f -> st (w_fibers w) f = Some FIBER_PARKING).
Proof.
  intros Hrun. destruct (reached_inv _ _ _ _ _ Hrun) as [[Hn Hr Hru Hp Ha Hl Hk] [_ _ _ Hpn Hpd]]. split_and?; try done.
  intros f Hf. apply Hp. by rewrite Hf.
Qed.

(** Fiber 1 is the root; it starts fiber 2, parks and is woken by it while
    another thread resumes fiber 2. *)
Definition demo_run : list event :=
  [ECall (CSpawn 0 2); ECall CPark; EStep; EStep; EStep; EStep; ERunOne; ERemote 2; ECall (CResume 1); ERemoteStep 0;
   EStep; ERemoteStep 0; EStep; EStep; ERemoteStep 0; ECall CPark; EStep; ECall (CFinish 0); EStep; ESettleDone None; EStep; ERunOne].

Lemma fiber_places_exact_witness :
  exists w, run (beans_worker_bootstrap 1 0 4096) demo_run = Some w /\ NoDup (queued w).
Proof.
  destruct (run (beans_worker_bootstrap 1 0 4096) demo_run) as [w|] eqn:Hr; [|exfalso; vm_compute in Hr; discriminate].
  exists w. split; [reflexivity|]. apply (fiber_places_exact 1 0 4096 demo_run w Hr).
Defined.

(** The root parks; another thread resumes it between the exchange and the
    compare-exchange of settle. *)
Definition lost_run : list event :=
  [ECall CPark; EStep; EStep; ERemote 1; ERemoteStep 0; EStep; ERemoteStep 0; ERemoteStep 0; EStep].

(** C10: a wake by a fiber of the same worker, a timer, a join or a completion
    hook is never lost: whenever the scheduler is at the head of its loop, a
    fiber that was resumed and has not come back from a park since is finished
    or in the run queue, and no parked fiber has a wake latched.  It is not so
    for the wake of another thread: if its latch and its second load of the
    state fall between the exchange and the compare-exchange of settle, the
    fiber is parked for good with the wake latched. *)
Theorem fiber_wakes_delivered root now page evs w (Hlocal : forallb local_event evs = true)
  (Hrun : run (beans_worker_bootstrap root now page) evs = Some w) (Hsched : w_owner w = OSched) :
  (forall f x, f ∈ w_owed w -> w_fibers w !! f = Some x -> fb_state x = FIBER_DONE \/ fb_state x = FIBER_READY /\ f ∈ w_ready w ++ w_inbox w) /\
  (forall f x, w_fibers w !! f = Some x -> fb_state x = FIBER_PARKED -> pending_wake x = false /\ f ∉ w_owed w) /\
  exists w' x, run (beans_worker_bootstrap 1 0 4096) lost_run = Some w' /\ w_owner w' = OSched /\
    w_ready w' ++ w_inbox w' = [] /\ w_remote w' = [] /\ 1 ∈ w_owed w' /\
    w_fibers w' !! 1 = Some x /\ fb_state x = FIBER_PARKED /\ pending_wake x = true.
Proof.
  destruct (reached_inv _ _ _ _ _ Hrun) as [Hq _]. pose proof (reached_wake _ _ _ _ _ Hrun Hlocal) as Hwk.
  assert (Hqueue : forall f, f ∈ queued w -> f ∈ w_ready w ++ w_inbox w).
  { intros f. unfold queued. rewrite Hsched, (wk_remote _ Hwk). cbn. by rewrite app_nil_r. }
  assert (Howed : forall f x, f ∈ w_owed w -> w_fibers w !! f = Some x -> fb_state x = FIBER_DONE \/ fb_state x = FIBER_READY).
  { intros f x Hf Hx. destruct (wk_owed _ Hwk f Hf) as [H|H]; [|rewrite Hsched in H; destruct H]. unfold settled_wake in H. rewrite (st_of _ _ _ Hx) in H.
    destruct H as [H|[H|[H|[H _]]]]; [left; congruence|done| |right; congruence].
    destruct (fb_state x) eqn:Hs; auto; exfalso.
    - pose proof (q_run _ Hq f) as Hr. rewrite Hsched, (st_of _ _ _ Hx), Hs in Hr. discriminate (proj2 Hr eq_refl).
    - pose proof (q_park _ Hq f) as Hr. rewrite Hsched, (st_of _ _ _ Hx), Hs in Hr. discriminate (proj2 Hr eq_refl).
    - destruct (wk_parked _ Hwk f) as [_ Hp]; [rewrite (st_of _ _ _ Hx); congruence|]. congruence. }
  split; [|split].
  - intros f x Hf Hx. destruct (Howed f x Hf Hx) as [|Hr]; [by left|right]. split; [done|]. apply Hqueue, (q_ready _ Hq).
    by rewrite (st_of _ _ _ Hx), Hr.
  - intros f x Hx Hs. split.
    + destruct (wk_parked _ Hwk f) as [_ Hp]; [by rewrite (st_of _ _ _ Hx), Hs|]. unfold pe in Hp. by rewrite Hx in Hp.
    + intros Hf. destruct (Howed f x Hf Hx); congruence.
  - eexists _, _. split; [vm_compute; reflexivity|]. cbn. split_and!; reflexivity.
Qed.

(** The root spawns fiber 2 and parks; fiber 2 resumes it and parks. *)
Definition local_run : list event :=
  [ECall (CSpawn 0 2); ECall CPark; EStep; EStep; EStep; EStep; ERunOne; ECall (CResume 1); EStep; EStep; EStep;
   ECall CPark; EStep; EStep; EStep; EStep].

Lemma fiber_wakes_delivered_witness :
  exists w, run (beans_worker_bootstrap 1 0 4096) local_run = Some w /\
    forall x, w_fibers w !! 2 = Some x -> fb_state x = FIBER_PARKED -> pending_wake x = false.
Proof.
  destruct (run (beans_worker_bootstrap 1 0 4096) local_run) as [w|] eqn:Hr; [|exfalso; vm_compute in Hr; discriminate].
  exists w. split; [reflexivity|]. intros x Hx Hs.
  apply (fiber_wakes_delivered 1 0 4096 local_run w eq_refl Hr) with (f := 2); [|exact Hx|exact Hs].
  vm_compute in Hr. injection Hr as <-. reflexivity.
Defined.

(** The root starts and forgets 65 fibers; the first 64 fill the pool, and the
    last sleeps for one nanosecond that passes before its first look at the
    clock. *)
Definition stale_run : list event :=
  (seq 2 65 ≫= fun i => [ECall (CSpawn 0 (Z.of_nat i)); ECall (CForget (Z.of_nat i))]) ++ [ECall CYield; EStep; EStep; EStep] ++
  (seq 0 64 ≫= fun _ => [ERunOne; ECall (CFinish 0); EStep; ESettleDone None; EStep]) ++
  [ERunOne; ECall (CSleep 1); ETick 1; EStep; ECall (CFinish 0); EStep; ESettleDone None; EStep; EFire].

(** C11: in every interleaving a parked fiber waits for something that will
    wake it: in a sleep its timer is armed, or has fired and the wake is owed;
    in a join its child is not done and knows its joiner, or the wake is owed
    or is what settle does next.  The converse fails: a sleep whose deadline
    passes before it first parks leaves its timer armed, and the timer fires
    at the fiber's record after it has been freed. *)
Theorem fiber_waits_backed root now page evs w : run (beans_worker_bootstrap root now page) evs = Some w ->
  (forall f x d, w_fibers w !! f = Some x -> fb_cont x = KSleep d -> mkSleeper d f ∈ w_sleepers w \/ f ∈ w_owed w /\ d <= w_now w) /\
  (forall f x c, w_fibers w !! f = Some x -> fb_cont x = KJoin c -> exists y, w_fibers w !! c = Some y /\ fb_joiner y = Some f /\
    (fb_state y = FIBER_DONE -> f ∈ w_owed w \/ owner_finished (w_owner w) = Some c)) /\
  exists w', run (beans_worker_bootstrap 1 0 4096) stale_run = Some w' /\ forallb local_event stale_run = true /\
    w_owner w' = OResume (RLoad 66) OSched /\ w_fibers w' !! 66 = None.
Proof.
  intros Hrun. destruct (reached_inv _ _ _ _ _ Hrun) as [_ Hl]. pose proof (reached_sleep _ _ _ _ _ Hrun) as Hs. split; [|split].
  - intros f x d Hx Hk. apply (sl_wait _ Hs). by rewrite (co_of _ _ _ Hx), Hk.
  - intros f x c Hx Hk. assert (Hc : co (w_fibers w) f = Some (KJoin c)) by (by rewrite (co_of _ _ _ Hx), Hk).
    destruct (l_wait _ Hl _ _ Hc) as [Hj _]. unfold jo in Hj. destruct (w_fibers w !! c) as [y|] eqn:Hy; [|done]. exists y.
    injection Hj as Hj. split; [done|split; [done|]]. intros Hd. apply (sl_join _ Hs f c Hc). by rewrite (st_of _ _ _ Hy), Hd.
  - eexists. split; [vm_compute; reflexivity|]. split_and!; vm_compute; reflexivity.
Qed.

(** The root starts fiber 2 and joins it; fiber 2 sleeps. *)
Definition wait_run : list event :=
  [ECall (CSpawn 0 2); ECall (CJoin 2); EStep; EStep; EStep; EStep; EStep; ERunOne; ECall (CSleep 5); EStep; EStep; EStep; EStep; EStep].

Lemma fiber_waits_backed_witness :
  exists w, run (beans_worker_bootstrap 1 0 4096) wait_run = Some w /\ w_owner w = OSched /\
    forall x, w_fibers w !! 2 = Some x -> fb_cont x = KSleep 5 -> mkSleeper 5 2 ∈ w_sleepers w \/ 2 ∈ w_owed w /\ 5 <= w_now w.
Proof.
  destruct (run (beans_worker_bootstrap 1 0 4096) wait_run) as [w|] eqn:Hr; [|exfalso; vm_compute in Hr; discriminate].
  exists w. split; [reflexivity|]. split; [vm_compute in Hr; injection Hr as <-; reflexivity|]. intros x Hx Hk.
  apply (fiber_waits_backed 1 0 4096 wait_run w Hr) with (f := 2) (x := x); [exact Hx|exact Hk].
Defined.
