(* ===== verification/TaskGroup.v ===== *)
(** * TaskGroup: brewed fibers and their groups

    [runtime/beans_rt.c], the brew and TaskGroup sections.  A [BBrew] row
    holds a child's result until somebody claims it; a [BTaskGroup] keeps the
    rows of a fleet.  What the layer sees of [beans_fiber.c] is a record per
    fiber: which row it writes to, whether the completion hook is set, and how
    it ended.  The owning fiber parks at three places (in [next], in
    [wait_all] and inside [beans_fiber_join]); [pc] says at which, and an
    [event] is one stretch of code between two parks, of the owner or of a
    child that ends.  A native program installs no cancel handler, so a park
    answered by a cancellation unwinds and the entry does not return; the
    unwinding owner runs the cleanup of its scope, where no cancellation is
    observed any more.

    References are released through [deinit_panic]: whether the deinit bodies
    a release runs panic, and with what.  [w_made], [w_moved] and [w_woken]
    are ghosts, and so is the log [w_released] of the references given up.
    [None] is an access to a row that is gone, or a call the layer never
    makes. *)

From stdpp Require Import gmap.
From S2P Require Import Prelude.

Open Scope c_scope.

Definition BREW_OK : Z := 0.
Definition BREW_PANICKED : Z := 1.
Definition BREW_CANCELLED : Z := 2.
Definition BEANS_BREW_JOINED_ALREADY : Z := 3.

(** The result type of a child: one slot, a reference or not, or a box of
    [size] bytes. *)
Inductive flavor : Type :=
  | Narrow (result_ptr : bool)
  | Wide (size : Z).

(** A result on its way to the caller. *)
Inductive value : Type :=
  | VSlot (v : Z)
  | VBytes (bs : str).

#[global] Instance flavor_eq_dec : EqDecision flavor.
Proof. solve_decision. Defined.
#[global] Instance value_eq_dec : EqDecision value.
Proof. solve_decision. Defined.

(** [b_kind]: the thunk, the pointer mask and the result size; [b_box]: the
    bytes of the box at [b_payload]. *)
Record BBrew : Type := mkBrew {
  b_payload : Z;
  b_box : str;
  b_value : Z;
  b_env : Z;
  b_fiber : option Z;
  b_kind : flavor;
  b_status : Z;
  b_joined : bool;
  b_done_stamp : Z;
  b_message : str
}.

Record BTaskGroup : Type := mkGroup {
  g_children : list Z;
  g_delivered : Z;
  g_clock : Z;
  g_waiter : option Z
}.

(** A fiber record: its argument, its completion hook, its ending. *)
Record child : Type := mkChild { ch_row : Z; ch_hook : bool; ch_end : option (Z * str) }.

(** Where the owning fiber is parked, and the call it is in; [PDead]: the
    process ended on a second panic. *)
Inductive pc : Type :=
  | PIdle
  | PDead
  | PNext
  | PTry
  | PWait
  | PCancel (i : nat)
  | PScope (i : nat) (line col : Z)
  | PJoin (h : Z)
  | PScopeOne (h line col : Z).

Record world : Type := mkWorld {
  w_rows : gmap Z BBrew;
  w_fibers : gmap Z child;
  w_group : BTaskGroup;
  w_self : Z;
  w_pc : pc;
  w_cancelled : list Z;
  w_released : list Z;
  w_moved : list Z;
  w_made : list Z;
  w_woken : bool;
  w_unwinding : bool
}.

Definition with_rows (m : gmap Z BBrew) (w : world) : world :=
  mkWorld m (w_fibers w) (w_group w) (w_self w) (w_pc w) (w_cancelled w) (w_released w) (w_moved w) (w_made w) (w_woken w) (w_unwinding w).
Definition with_fibers (m : gmap Z child) (w : world) : world :=
  mkWorld (w_rows w) m (w_group w) (w_self w) (w_pc w) (w_cancelled w) (w_released w) (w_moved w) (w_made w) (w_woken w) (w_unwinding w).
Definition with_group (g : BTaskGroup) (w : world) : world :=
  mkWorld (w_rows w) (w_fibers w) g (w_self w) (w_pc w) (w_cancelled w) (w_released w) (w_moved w) (w_made w) (w_woken w) (w_unwinding w).
Definition with_pc (p : pc) (w : world) : world :=
  mkWorld (w_rows w) (w_fibers w) (w_group w) (w_self w) p (w_cancelled w) (w_released w) (w_moved w) (w_made w) (w_woken w) (w_unwinding w).
Definition with_cancelled (l : list Z) (w : world) : world :=
  mkWorld (w_rows w) (w_fibers w) (w_group w) (w_self w) (w_pc w) l (w_released w) (w_moved w) (w_made w) (w_woken w) (w_unwinding w).
Definition with_released (l : list Z) (w : world) : world :=
  mkWorld (w_rows w) (w_fibers w) (w_group w) (w_self w) (w_pc w) (w_cancelled w) l (w_moved w) (w_made w) (w_woken w) (w_unwinding w).
Definition with_moved (l : list Z) (w : world) : world :=
  mkWorld (w_rows w) (w_fibers w) (w_group w) (w_self w) (w_pc w) (w_cancelled w) (w_released w) l (w_made w) (w_woken w) (w_unwinding w).
Definition with_made (l : list Z) (w : world) : world :=
  mkWorld (w_rows w) (w_fibers w) (w_group w) (w_self w) (w_pc w) (w_cancelled w) (w_released w) (w_moved w) l (w_woken w) (w_unwinding w).
Definition with_woken (b : bool) (w : world) : world :=
  mkWorld (w_rows w) (w_fibers w) (w_group w) (w_self w) (w_pc w) (w_cancelled w) (w_released w) (w_moved w) (w_made w) b (w_unwinding w).
Definition with_unwinding (b : bool) (w : world) : world :=
  mkWorld (w_rows w) (w_fibers w) (w_group w) (w_self w) (w_pc w) (w_cancelled w) (w_released w) (w_moved w) (w_made w) (w_woken w) b.

(** ** Code over the world *)

(** A stretch of code: it may fault, return or panic. *)
Definition M (A : Type) : Type := world -> option (result A * world).

#[global] Instance M_ret : MRet M := fun A a w => Some (Ok a, w).
#[global] Instance M_bind : MBind M := fun A B f m w =>
  '(r, w) ← m w; match r with Ok a => f a w | Panic t l c => Some (Panic t l c, w) end.

Definition get : M world := fun w => Some (Ok w, w).
Definition modify (f : world -> world) : M unit := fun w => Some (Ok tt, f w).
Definition fault {A} : M A := fun _ => None.
Definition panic {A} (text : str) (line col : Z) : M A := fun w => Some (Panic text line col, w).
Definition lift {A} (o : option A) : M A := fun w => a ← o; Some (Ok a, w).

Definition row_at (h : Z) : M BBrew := w ← get; lift (w_rows w !! h).
Definition set_row (h : Z) (r : BBrew) : M unit := modify (fun w => with_rows (<[h := r]> (w_rows w)) w).
Definition group : M BTaskGroup := w ← get; mret (w_group w).
Definition set_group (g : BTaskGroup) : M unit := modify (with_group g).

Definition set_children (l : list Z) (g : BTaskGroup) : BTaskGroup := mkGroup l (g_delivered g) (g_clock g) (g_waiter g).
Definition set_waiter (o : option Z) (g : BTaskGroup) : BTaskGroup := mkGroup (g_children g) (g_delivered g) (g_clock g) o.
(** [len = 0; delivered = 0]. *)
Definition emptied (g : BTaskGroup) : BTaskGroup := mkGroup [] 0 (g_clock g) (g_waiter g).

(** The references [l] holds. *)
Definition refs (l : list Z) : list Z := List.filter (fun p => negb (p =? 0)) l.
(** The masked slots of a row, last slot first: the order its death releases. *)
Definition row_refs (r : BBrew) : list Z :=
  refs (b_env r :: match b_kind r with Narrow true => [b_value r] | Narrow false => [] | Wide _ => [b_payload r] end).

Section layer.
Context (deinit_panic : Z -> option str).

(** [beans_release] of a reference the layer holds. *)
Definition beans_release (p : Z) : M unit :=
  if p =? 0 then mret tt
  else
    _ ← modify (fun w => with_released (w_released w ++ [p]) w);
    match deinit_panic p with Some text => panic text 0 0 | None => mret tt end.

(** The cascade's guard: a panic does not stop the releases after it; a
    second one ends the process. *)
Fixpoint release_all (ps : list Z) : M unit :=
  match ps with
  | [] => mret tt
  | p :: ps => fun w =>
      '(r, w) ← beans_release p w;
      match r with
      | Ok _ => release_all ps w
      | Panic t l c =>
          '(r, w) ← release_all ps w;
          match r with Ok _ => Some (Panic t l c, w) | Panic _ _ _ => None end
      end
  end.

(** [beans_release] of a row: its one reference, so it dies. *)
Definition release_row (h : Z) : M unit :=
  r ← row_at h;
  _ ← modify (fun w => with_rows (delete h (w_rows w)) w);
  release_all (row_refs r).

(** An emptied box holds nothing a deinit body could run for. *)
Definition release_box (p : Z) : M unit :=
  if p =? 0 then mret tt else modify (fun w => with_released (w_released w ++ [p]) w).

(** ** The child *)

Definition store_result (v : value) (r : BBrew) : option BBrew :=
  match b_kind r, v with
  | Narrow _, VSlot v => Some (mkBrew (b_payload r) (b_box r) v (b_env r) (b_fiber r) (b_kind r) (b_status r) (b_joined r) (b_done_stamp r) (b_message r))
  | Wide n, VBytes bs =>
      if slen bs =? n then Some (mkBrew (b_payload r) bs (b_value r) (b_env r) (b_fiber r) (b_kind r) (b_status r) (b_joined r) (b_done_stamp r) (b_message r))
      else None
  | _, _ => None
  end.
Definition set_env (p : Z) (r : BBrew) : BBrew :=
  mkBrew (b_payload r) (b_box r) (b_value r) p (b_fiber r) (b_kind r) (b_status r) (b_joined r) (b_done_stamp r) (b_message r).
Definition set_fiber (o : option Z) (r : BBrew) : BBrew :=
  mkBrew (b_payload r) (b_box r) (b_value r) (b_env r) o (b_kind r) (b_status r) (b_joined r) (b_done_stamp r) (b_message r).
Definition set_value (v : Z) (r : BBrew) : BBrew :=
  mkBrew (b_payload r) (b_box r) v (b_env r) (b_fiber r) (b_kind r) (b_status r) (b_joined r) (b_done_stamp r) (b_message r).
Definition set_payload (p : Z) (bs : str) (r : BBrew) : BBrew :=
  mkBrew p bs (b_value r) (b_env r) (b_fiber r) (b_kind r) (b_status r) (b_joined r) (b_done_stamp r) (b_message r).
Definition set_message (m : str) (r : BBrew) : BBrew :=
  mkBrew (b_payload r) (b_box r) (b_value r) (b_env r) (b_fiber r) (b_kind r) (b_status r) (b_joined r) (b_done_stamp r) m.
Definition set_joined (status : Z) (m : str) (r : BBrew) : BBrew :=
  mkBrew (b_payload r) (b_box r) (b_value r) (b_env r) None (b_kind r) status true (b_done_stamp r) m.
Definition set_stamp (n : Z) (r : BBrew) : BBrew :=
  mkBrew (b_payload r) (b_box r) (b_value r) (b_env r) (b_fiber r) (b_kind r) (b_status r) (b_joined r) n (b_message r).

(** The references a stored result brings along. *)
Definition value_refs (k : flavor) (v : value) : list Z :=
  match k, v with Narrow true, VSlot v => refs [v] | _, _ => [] end.

(** [brew_main], from the thunk's return on; [v] is what the thunk made. *)
Definition brew_main (h : Z) (v : value) : M unit :=
  r ← row_at h;
  r' ← lift (store_result v r);
  _ ← modify (fun w => with_made (w_made w ++ value_refs (b_kind r) v) w);
  _ ← set_row h r';
  _ ← beans_release (b_env r);
  r ← row_at h;
  set_row h (set_env 0 r).

(** [beans_fiber_resume] of the owner. *)
Definition beans_fiber_resume (f : Z) : M unit := modify (with_woken true).

Definition taskgroup_child_done (h : Z) : M unit :=
  r ← row_at h; g ← group;
  _ ← set_row h (set_stamp (g_clock g + 1) r);
  _ ← set_group (mkGroup (g_children g) (g_delivered g) (g_clock g + 1) (g_waiter g));
  match g_waiter g with
  | Some f => _ ← modify (fun w => with_group (set_waiter None (w_group w)) w); beans_fiber_resume f
  | None => mret tt
  end.

(** [settle] of a finished fiber. *)
Definition child_settles (f status : Z) (text : str) : M unit :=
  w ← get; c ← lift (w_fibers w !! f);
  _ ← modify (fun w => with_fibers (<[f := mkChild (ch_row c) (ch_hook c) (Some (status, text))]> (w_fibers w)) w);
  if ch_hook c then taskgroup_child_done (ch_row c) else mret tt.

(** The thunk of fiber [f] returned [v]. *)
Definition child_returns (f : Z) (v : value) : M unit := fun w =>
  c ← w_fibers w !! f;
  '(r, w) ← brew_main (ch_row c) v w;
  match r with
  | Ok _ => child_settles f BREW_OK [] w
  | Panic t _ _ => child_settles f BREW_PANICKED t w
  end.

(** ** One brewed fiber *)

(** [h], [payload] and [fiber]: what the allocator and the spawn return. *)
Definition brew_start (h : Z) (fiber : option Z) : M Z :=
  match fiber with
  | None => panic (lit "brew could not reserve a fiber stack") 0 0
  | Some f =>
      w ← get; r ← row_at h;
      if decide (w_fibers w !! f = None) then
        _ ← set_row h (set_fiber (Some f) r);
        _ ← modify (fun w => with_fibers (<[f := mkChild h false None]> (w_fibers w)) w);
        mret h
      else fault
  end.

Definition new_row (h payload env : Z) (k : flavor) : M unit :=
  w ← get;
  if decide (w_rows w !! h = None /\ h <> 0) then
    _ ← modify (fun w => with_made (w_made w ++ refs [env; payload]) w);
    set_row h (mkBrew payload [] 0 env None k (-1) false 0 [])
  else fault.

Definition beans_brew (h env : Z) (result_ptr : bool) (fiber : option Z) : M Z :=
  _ ← new_row h 0 env (Narrow result_ptr); brew_start h fiber.

Definition beans_brew_typed (h payload env size : Z) (fiber : option Z) : M Z :=
  if (size <=? 0) || (2 ^ 30 <? size) then panic (lit "invalid brew result size") 0 0
  else if payload =? 0 then fault
  else _ ← new_row h payload env (Wide size); brew_start h fiber.

Definition brew_of (k : flavor) (h payload env : Z) (fiber : option Z) : M Z :=
  match k with
  | Narrow p => beans_brew h env p fiber
  | Wide n => beans_brew_typed h payload env n fiber
  end.

(** [beans_fiber_join], from its loop head: [None] when the caller parks. *)
Definition beans_fiber_join (f : Z) : M (option (Z * str)) :=
  w ← get; c ← lift (w_fibers w !! f);
  match ch_end c with
  | None => mret None
  | Some e => _ ← modify (fun w => with_fibers (delete f (w_fibers w)) w); mret (Some e)
  end.

Definition beans_brew_join (h : Z) : M (option Z) :=
  r ← row_at h;
  if b_joined r then
    _ ← set_row h (set_message (lit "brew handle already joined") r);
    mret (Some BEANS_BREW_JOINED_ALREADY)
  else
    f ← lift (b_fiber r);
    e ← beans_fiber_join f;
    match e with
    | None => mret None
    | Some (status, text) => _ ← set_row h (set_joined status text r); mret (Some status)
    end.

Definition beans_brew_value (h : Z) : M Z :=
  r ← row_at h;
  _ ← set_row h (set_value 0 r);
  _ ← modify (fun w => with_moved (w_moved w ++ value_refs (b_kind r) (VSlot (b_value r))) w);
  mret (b_value r).

Definition beans_brew_value_typed (h size : Z) : M str :=
  r ← row_at h;
  match b_kind r with
  | Wide n =>
      if negb (size =? n) then panic (lit "brew result size mismatch") 0 0
      else
        _ ← set_row h (set_payload 0 [] r);
        _ ← release_box (b_payload r);
        mret (b_box r)
  | Narrow _ => fault
  end.

Definition beans_brew_status (h : Z) : M Z := r ← row_at h; mret (b_status r).
Definition beans_brew_message (h : Z) : M str := r ← row_at h; mret (b_message r).

Definition beans_brew_cancel (h : Z) : M unit :=
  r ← row_at h;
  match b_fiber r with
  | Some f => modify (fun w => with_cancelled (w_cancelled w ++ [f]) w)
  | None => mret tt
  end.

Definition brew_drop_result (h : Z) : M unit :=
  r ← row_at h;
  if negb (b_status r =? BREW_OK) then mret tt
  else if negb (b_payload r =? 0) then
    _ ← beans_release (b_payload r);
    r ← row_at h; set_row h (set_payload 0 [] r)
  else
    _ ← match b_kind r with Narrow true => beans_release (b_value r) | _ => mret tt end;
    r ← row_at h; set_row h (set_value 0 r).

Definition escalated (message : str) : str := lit "a brewed fiber panicked with no join to catch it: " ++ message.

(** [None]: the join parks. *)
Definition beans_brew_scope_join (h line col : Z) : M (option unit) :=
  r ← row_at h;
  if b_joined r then mret (Some tt)
  else
    s ← beans_brew_join h;
    match s with
    | None => mret None
    | Some status =>
        r ← row_at h;
        if status =? BREW_PANICKED then panic (take 599 (escalated (b_message r))) line col
        else _ ← brew_drop_result h; mret (Some tt)
    end.

(** ** The group *)

Definition beans_taskgroup_new : BTaskGroup := mkGroup [] 0 0 None.

Definition taskgroup_adopt (h : Z) : M unit :=
  g ← group;
  _ ← set_group (set_children (g_children g ++ [h]) g);
  r ← row_at h; f ← lift (b_fiber r);
  w ← get; c ← lift (w_fibers w !! f);
  modify (with_fibers (<[f := mkChild (ch_row c) true (ch_end c)]> (w_fibers w))).

Definition beans_taskgroup_brew (h env : Z) (result_ptr : bool) (fiber : option Z) : M unit :=
  h ← beans_brew h env result_ptr fiber; taskgroup_adopt h.
Definition beans_taskgroup_brew_typed (h payload env size : Z) (fiber : option Z) : M unit :=
  h ← beans_brew_typed h payload env size fiber; taskgroup_adopt h.

(** The loop of [taskgroup_pick_done], from index [i]. *)
Fixpoint pick_from (l : list Z) (i : nat) (best : option (nat * Z)) : M (option nat) :=
  match l with
  | [] => mret (fst <$> best)
  | p :: l =>
      if p =? 0 then pick_from l (S i) best
      else
        r ← row_at p;
        if b_done_stamp r =? 0 then pick_from l (S i) best
        else if match best with None => true | Some (_, stamp) => b_done_stamp r <? stamp end
        then pick_from l (S i) (Some (i, b_done_stamp r))
        else pick_from l (S i) best
  end.

Definition taskgroup_pick_done : M (option nat) := g ← group; pick_from (g_children g) 0 None.

Definition taskgroup_live : M bool := g ← group; mret (existsb (fun p => negb (p =? 0)) (g_children g)).

Definition taskgroup_detach (index : nat) : M Z :=
  g ← group;
  row ← lift (g_children g !! index);
  let delivered := g_delivered g + 1 in
  _ ← set_group (if delivered =? slen (g_children g) then mkGroup [] 0 (g_clock g) (g_waiter g)
                 else mkGroup (<[index := 0]> (g_children g)) delivered (g_clock g) (g_waiter g));
  mret row.

(** [next] and [try_next] end with a row or NULL, or the owner parks. *)
Inductive next_row : Type := NRow (h : Z) | NNull | NPark.

(** A finished row: its join answers without parking. *)
Definition join_finished (h : Z) : M Z := s ← beans_brew_join h; lift s.

Definition deliver (index : nat) : M next_row :=
  h ← taskgroup_detach index; _ ← join_finished h; mret (NRow h).

(** Before [beans_fiber_park] for the group. *)
Definition wait_here : M unit :=
  modify (fun w => with_woken false (with_group (set_waiter (Some (w_self w)) (w_group w)) w)).
(** After it. *)
Definition waited : M unit := modify (fun w => with_group (set_waiter None (w_group w)) w).

(** The loop body of [beans_taskgroup_next]. *)
Definition beans_taskgroup_next : M next_row :=
  index ← taskgroup_pick_done;
  match index with
  | Some i => deliver i
  | None =>
      live ← taskgroup_live;
      if (live : bool) then _ ← wait_here; mret NPark else mret NNull
  end.

(** [beans_taskgroup_try_next] up to its yield, and after it. *)
Definition beans_taskgroup_try_next : M next_row :=
  index ← taskgroup_pick_done;
  match index with
  | Some i => deliver i
  | None => live ← taskgroup_live; if (live : bool) then mret NPark else mret NNull
  end.
Definition try_next_yielded : M next_row :=
  index ← taskgroup_pick_done;
  match index with Some i => deliver i | None => mret NNull end.

(** ** Waiting for all *)

Fixpoint pending_from (l : list Z) : M bool :=
  match l with
  | [] => mret false
  | p :: l =>
      if p =? 0 then pending_from l
      else r ← row_at p; if b_done_stamp r =? 0 then mret true else pending_from l
  end.

Fixpoint wait_joins (l : list Z) (i : nat) (bad : option nat) : M (option nat) :=
  match l with
  | [] => mret bad
  | p :: l =>
      if p =? 0 then wait_joins l (S i) bad
      else
        _ ← join_finished p;
        status ← beans_brew_status p;
        wait_joins l (S i)
          (match bad with None => if status =? BREW_OK then None else Some i | Some _ => bad end)
  end.

Definition child_at (i : nat) : M Z := g ← group; lift (g_children g !! i).
Definition clear_child (i : nat) : M unit := g ← group; set_group (set_children (<[i := 0]> (g_children g)) g).
Definition reset_group : M unit := g ← group; set_group (emptied g).

(** The rows below index [n], newest first. *)
Fixpoint wait_discard (bad n : nat) : M unit :=
  match n with
  | O => mret tt
  | S i =>
      h ← child_at i;
      if (h =? 0) || Nat.eqb i bad then wait_discard bad i
      else _ ← brew_drop_result h; _ ← release_row h; wait_discard bad i
  end.

(** [inl]: the first failing row, or NULL; [inr]: the owner parks. *)
Definition beans_taskgroup_wait_all_join : M (option Z + unit) :=
  g ← group;
  pending ← pending_from (g_children g);
  if (pending : bool) then _ ← wait_here; mret (inr tt)
  else
    bad ← wait_joins (g_children g) 0 None;
    match bad with
    | None => mret (inl None)
    | Some bad =>
        first ← child_at bad;
        _ ← wait_discard bad (length (g_children g));
        _ ← reset_group;
        mret (inl (Some first))
    end.

Fixpoint collect_from (elem : flavor) (i n : nat) : M (list value) :=
  match n with
  | O => mret []
  | S n =>
      h ← child_at i;
      if h =? 0 then collect_from elem (S i) n
      else
        v ← match elem with
            | Narrow _ => v ← beans_brew_value h; mret (VSlot v)
            | Wide stride => bs ← beans_brew_value_typed h stride; mret (VBytes bs)
            end;
        _ ← clear_child i;
        _ ← release_row h;
        vs ← collect_from elem (S i) n;
        mret (v :: vs)
  end.

(** [beans_taskgroup_collect] and [beans_taskgroup_collect_typed]. *)
Definition beans_taskgroup_collect (elem : flavor) : M (list value) :=
  g ← group;
  vs ← collect_from elem 0 (length (g_children g));
  _ ← reset_group;
  mret vs.

(** ** Cancelling, and the end of the scope *)

Fixpoint request_cancel (n : nat) : M unit :=
  match n with
  | O => mret tt
  | S i =>
      h ← child_at i;
      _ ← (if h =? 0 then mret tt else beans_brew_cancel h);
      request_cancel i
  end.
Definition beans_taskgroup_request_cancel : M unit := g ← group; request_cancel (length (g_children g)).

(** The next [n] rows from [i]; [Some j]: the join of row [j] parks. *)
Fixpoint cancel_joins (i n : nat) : M (option nat) :=
  match n with
  | O => mret None
  | S n =>
      h ← child_at i;
      if h =? 0 then cancel_joins (S i) n
      else
        s ← beans_brew_join h;
        match s with None => mret (Some i) | Some _ => cancel_joins (S i) n end
  end.

Fixpoint cancel_discard (n : nat) : M unit :=
  match n with
  | O => mret tt
  | S i =>
      h ← child_at i;
      if h =? 0 then cancel_discard i
      else _ ← brew_drop_result h; _ ← clear_child i; _ ← release_row h; cancel_discard i
  end.

(** [beans_taskgroup_cancel_all] from the join of row [i] on.  While the owner
    is parked nobody adds a row, so the length is the [n] of the code. *)
Definition cancel_from (i : nat) : M (option nat) :=
  g ← group;
  let n := length (g_children g) in
  j ← cancel_joins i (n - i);
  match j with
  | Some j => mret (Some j)
  | None => _ ← cancel_discard n; _ ← reset_group; mret None
  end.
Definition beans_taskgroup_cancel_all : M (option nat) := _ ← beans_taskgroup_request_cancel; cancel_from 0.

Fixpoint scope_joins (line col : Z) (i n : nat) : M (option nat) :=
  match n with
  | O => mret None
  | S n =>
      h ← child_at i;
      if h =? 0 then scope_joins line col (S i) n
      else
        r ← row_at h;
        if b_joined r then scope_joins line col (S i) n
        else
          s ← beans_brew_join h;
          match s with
          | None => mret (Some i)
          | Some status =>
              r ← row_at h;
              if status =? BREW_PANICKED then panic (take 599 (escalated (b_message r))) line col
              else scope_joins line col (S i) n
          end
  end.

Fixpoint scope_discard (n : nat) : M unit :=
  match n with
  | O => mret tt
  | S i =>
      h ← child_at i;
      _ ← clear_child i;
      if h =? 0 then scope_discard i
      else _ ← brew_drop_result h; _ ← release_row h; scope_discard i
  end.

(** [beans_taskgroup_scope_join] from row [i] on. *)
Definition scope_from (line col : Z) (i : nat) : M (option nat) :=
  g ← group;
  let n := length (g_children g) in
  j ← scope_joins line col i (n - i);
  match j with
  | Some j => mret (Some j)
  | None => _ ← scope_discard n; _ ← reset_group; mret None
  end.
Definition beans_taskgroup_scope_join (line col : Z) : M (option nat) := scope_from line col 0.

(** ** Programs *)

(** What a [Result] is built from. *)
Inductive outcome : Type :=
  | Got (v : value)
  | Failed (status : Z) (text : str).

(** The entries that read a joined row. *)
Definition claim (h : Z) : M outcome :=
  status ← beans_brew_status h;
  if status =? BREW_OK then
    r ← row_at h;
    match b_kind r with
    | Narrow _ => v ← beans_brew_value h; mret (Got (VSlot v))
    | Wide n => bs ← beans_brew_value_typed h n; mret (Got (VBytes bs))
    end
  else text ← beans_brew_message h; mret (Failed status text).

Inductive answer : Type :=
  | AStarted
  | ARow (h : Z) (o : outcome)
  | ANone
  | AList (vs : list value)
  | AJoined (o : outcome)
  | ADone
  | AParked
  | ACancelled
  | APanic (text : str) (line col : Z).

(** A claimed row goes with its reader. *)
Definition claim_row (h : Z) : M answer := o ← claim h; _ ← release_row h; mret (ARow h o).

(** An entry answers, or parks at a [pc]. *)
Definition park (p : pc) : M (answer + pc) := _ ← modify (with_woken false); mret (inr p).

Definition after_next (p : pc) (n : next_row) : M (answer + pc) :=
  match n with
  | NRow h => a ← claim_row h; mret (inl a)
  | NNull => mret (inl ANone)
  | NPark => mret (inr p)
  end.

Context (elem : flavor).

Definition op_next : M (answer + pc) := n ← beans_taskgroup_next; after_next PNext n.
Definition op_try : M (answer + pc) := n ← beans_taskgroup_try_next; after_next PTry n.
Definition op_wait_all : M (answer + pc) :=
  first ← beans_taskgroup_wait_all_join;
  match first with
  | inr _ => mret (inr PWait)
  | inl None => vs ← beans_taskgroup_collect elem; mret (inl (AList vs))
  | inl (Some h) => a ← claim_row h; mret (inl a)
  end.
Definition op_cancel (m : M (option nat)) : M (answer + pc) :=
  j ← m; match j with Some i => park (PCancel i) | None => mret (inl ADone) end.
Definition op_scope (line col : Z) (m : M (option nat)) : M (answer + pc) :=
  j ← m; match j with Some i => park (PScope i line col) | None => mret (inl ADone) end.
Definition op_join (h : Z) : M (answer + pc) :=
  s ← beans_brew_join h;
  match s with
  | None => park (PJoin h)
  | Some status =>
      if status =? BEANS_BREW_JOINED_ALREADY
      then text ← beans_brew_message h; mret (inl (AJoined (Failed status text)))
      else o ← claim h; mret (inl (AJoined o))
  end.
Definition op_scope_one (h line col : Z) : M (answer + pc) :=
  s ← beans_brew_scope_join h line col;
  match s with None => park (PScopeOne h line col) | Some _ => mret (inl ADone) end.

Inductive event : Type :=
  (* the owner calls an entry *)
  | EBrew (h payload env : Z) (fiber : option Z)
  | ENext
  | ETryNext
  | EWaitAll
  | ERequestCancel
  | ECancelAll
  | EScopeJoin (line col : Z)
  (* the same for the handle of one brewed fiber *)
  | EBrewOne (k : flavor) (h payload env : Z) (fiber : option Z)
  | EJoin (h : Z)
  | ECancelOne (h : Z)
  | EScopeOne (h line col : Z)
  | EDrop (h : Z)
  (* the owner's own code panics *)
  | EUnwind
  (* the owner's park returns *)
  | EBack (cancelled : bool)
  (* a child ends *)
  | EReturn (f : Z) (v : value)
  | EPanic (f : Z) (text : str)
  | ECancelled (f : Z).

Definition brew_in_group (h payload env : Z) (fiber : option Z) : M unit :=
  match elem with
  | Narrow p => beans_taskgroup_brew h env p fiber
  | Wide n => beans_taskgroup_brew_typed h payload env n fiber
  end.

(** What the owner's call runs. *)
Definition owner_op (ev : event) : option (M (answer + pc)) :=
  match ev with
  | EBrew h payload env fiber => Some (_ ← brew_in_group h payload env fiber; mret (inl AStarted))
  | ENext => Some op_next
  | ETryNext => Some op_try
  | EWaitAll => Some op_wait_all
  | ERequestCancel => Some (_ ← beans_taskgroup_request_cancel; mret (inl ADone))
  | ECancelAll => Some (op_cancel beans_taskgroup_cancel_all)
  | EScopeJoin line col => Some (op_scope line col (beans_taskgroup_scope_join line col))
  | EBrewOne k h payload env fiber => Some (_ ← brew_of k h payload env fiber; mret (inl AStarted))
  | EJoin h => Some (op_join h)
  | ECancelOne h => Some (_ ← beans_brew_cancel h; mret (inl ADone))
  | EScopeOne h line col => Some (op_scope_one h line col)
  | EDrop h => Some (_ ← release_row h; mret (inl ADone))
  | EUnwind => Some (mret (inl ACancelled))
  | _ => None
  end.

(** The child the join at [p] waits for. *)
Definition waits_for (w : world) (p : pc) : option Z :=
  h ← match p with
      | PCancel i | PScope i _ _ => g_children (w_group w) !! i
      | PJoin h | PScopeOne h _ _ => Some h
      | PIdle | PDead | PNext | PTry | PWait => None
      end;
  r ← w_rows w !! h; b_fiber r.

Definition child_done (w : world) (f : Z) : bool :=
  match w_fibers w !! f with Some c => bool_decide (is_Some (ch_end c)) | None => false end.

(** What the owner runs when its park returns. *)
Definition back_op (w : world) (cancelled : bool) : option (M (answer + pc)) :=
  if cancelled && w_unwinding w then None
  else match w_pc w with
  | PIdle | PDead => None
  | PNext => Some (_ ← waited; if cancelled then mret (inl ACancelled) else op_next)
  | PWait => Some (_ ← waited; if cancelled then mret (inl ACancelled) else op_wait_all)
  | PTry => Some (n ← try_next_yielded; after_next PTry n)
  | p =>
      f ← waits_for w p;
      if cancelled && negb (child_done w f) then Some (mret (inl ACancelled))
      else match p with
           | PCancel i => Some (op_cancel (cancel_from i))
           | PScope i line col => Some (op_scope line col (scope_from line col i))
           | PJoin h => Some (op_join h)
           | PScopeOne h line col => Some (op_scope_one h line col)
           | _ => None
           end
  end.

(** Runs an operation of the owner to its end or its park.  A cancellation or
    a panic unwinds; a panic on the way ends the process. *)
Definition owner_runs (m : M (answer + pc)) (w : world) : option (world * answer) :=
  '(r, w) ← m w;
  Some (match r with
        | Ok (inl ACancelled) => (with_pc PIdle (with_unwinding true w), ACancelled)
        | Ok (inl a) => (with_pc PIdle w, a)
        | Ok (inr p) => (with_pc p w, AParked)
        | Panic t l c =>
            (if w_unwinding w then with_pc PDead w else with_pc PIdle (with_unwinding true w), APanic t l c)
        end).

(** What an unwinding owner still calls: the cleanup of its scope. *)
Definition cleanup (ev : event) : bool :=
  match ev with
  | ERequestCancel | EScopeJoin _ _ | ECancelOne _ | EScopeOne _ _ _ | EDrop _ => true
  | _ => false
  end.

Definition child_runs (m : M unit) (w : world) : option (world * answer) :=
  '(r, w) ← m w; match r with Ok _ => Some (w, ADone) | Panic _ _ _ => None end.

Definition running (w : world) (f : Z) : bool :=
  match w_fibers w !! f with Some c => negb (bool_decide (is_Some (ch_end c))) | None => false end.

Definition step (w : world) (ev : event) : option (world * answer) :=
  match ev with
  | EBack cancelled => m ← back_op w cancelled; owner_runs m w
  | EReturn f v => if running w f then child_runs (child_returns f v) w else None
  | EPanic f text => if running w f then child_runs (child_settles f BREW_PANICKED text) w else None
  | ECancelled f => if running w f then child_runs (child_settles f BREW_CANCELLED []) w else None
  | ev =>
      match w_pc w with
      | PIdle => if w_unwinding w && negb (cleanup ev) then None else m ← owner_op ev; owner_runs m w
      | _ => None
      end
  end.

Fixpoint run (w : world) (evs : list event) : option (world * list answer) :=
  match evs with
  | [] => Some (w, [])
  | ev :: evs => '(w, a) ← step w ev; '(w, l) ← run w evs; Some (w, a :: l)
  end.

Definition fresh_world (self : Z) : world :=
  mkWorld ∅ ∅ beans_taskgroup_new self PIdle [] [] [] [] false false.

End layer.
