(* ===== verification/TaskGroupProofs.v ===== *)
(** * TaskGroupProofs: the rows of a fleet and their owners

    When no deinit body panics, every stretch of the layer's code comes back:
    [base] holds of the rows and the fibers between any two calls, [fleet] of
    the children of the group.  A discarded row hands its references back in
    one known order ([discarded]); the three discarding loops are
    [drop_rows].  The last part compares two runs that differ in which bodies
    panic: they are the same as long as none of the references released tells
    them apart ([step_follows]). *)

From stdpp Require Import gmap.
From S2P Require Import Prelude TaskGroup.

Open Scope c_scope.

Implicit Types (w : world) (r : BBrew) (c : child) (h f : Z) (l : list Z).

(** ** Results of stretches of code *)

(** [m] comes back from [w], and its answer and world satisfy [Q]; a panic
    satisfies [E]. *)
Definition wp {A} (m : M A) w (Q : A -> world -> Prop) (E : str -> Z -> Z -> world -> Prop) : Prop :=
  match m w with
  | Some (Ok a, w') => Q a w'
  | Some (Panic t l c, w') => E t l c w'
  | None => False
  end.

Abbreviation no_panic := (fun _ _ _ _ => False).

Lemma wp_bind {A B} (m : M A) (k : A -> M B) w Q E :
  wp m w (fun a w' => wp (k a) w' Q E) E -> wp (m ≫= k) w Q E.
Proof. unfold wp, mbind, M_bind. destruct (m w) as [[[a|t ln cl] w']|]; done. Qed.

Lemma wp_mono {A} (m : M A) w (Q Q' : A -> world -> Prop) (E E' : str -> Z -> Z -> world -> Prop) :
  wp m w Q E -> (forall a w', Q a w' -> Q' a w') -> (forall t ln cl w', E t ln cl w' -> E' t ln cl w') -> wp m w Q' E'.
Proof. unfold wp. destruct (m w) as [[[a|t ln cl] w']|]; eauto. Qed.

Lemma row_at_run h w r : w_rows w !! h = Some r -> row_at h w = Some (Ok r, w).
Proof. intros Hr. unfold row_at, get, lift, mbind, M_bind. cbn. by rewrite Hr. Qed.

Lemma bind_run {A B} (m : M A) (k : A -> M B) w a w' : m w = Some (Ok a, w') -> (m ≫= k) w = k a w'.
Proof. unfold mbind, M_bind. by intros ->. Qed.

Lemma bind_panics {A B} (m : M A) (k : A -> M B) w t (ln cl : Z) w' :
  m w = Some (Panic t ln cl, w') -> (m ≫= k) w = Some (Panic t ln cl, w').
Proof. unfold mbind, M_bind. by intros ->. Qed.

(** The next instruction of a stretch of code. *)
Tactic Notation "exec" uconstr(H) := rewrite (bind_run _ _ _ _ _ H); cbv beta.

Lemma set_group_run g w : set_group g w = Some (Ok tt, with_group g w).
Proof. done. Qed.

Lemma wp_run {A} (m : M A) w a w' (Q : A -> world -> Prop) E : m w = Some (Ok a, w') -> Q a w' -> wp m w Q E.
Proof. unfold wp. by intros ->. Qed.

Lemma wp_bind_run {A B} (m : M A) (k : A -> M B) w a w' Q E : m w = Some (Ok a, w') -> wp (k a) w' Q E -> wp (m ≫= k) w Q E.
Proof. unfold wp. intros Hm. by rewrite (bind_run m k w a w' Hm). Qed.

(** ** The invariant *)

Definition nz l : list Z := List.filter (fun p => negb (p =? 0)) l.

Definition ended_ok (e : Z * str) : Prop := fst e = BREW_OK \/ fst e = BREW_PANICKED \/ fst e = BREW_CANCELLED.

(** How a row's child stands: running, ended but not joined, or joined. *)
Definition row_ok w h r : Prop :=
  match b_fiber r with
  | Some f => b_joined r = false /\ exists hook e, w_fibers w !! f = Some (mkChild h hook e) /\ (forall x, e = Some x -> ended_ok x)
  | None => b_joined r = true /\ ended_ok (b_status r, b_message r)
  end.

(** How the child of a row ended. *)
Definition ending w h : option (Z * str) :=
  r ← w_rows w !! h;
  match b_fiber r with Some f => c ← w_fibers w !! f; ch_end c | None => Some (b_status r, b_message r) end.

Definition held w : list Z := map_to_list (w_rows w) ≫= fun hr => row_refs (snd hr).

Record base w : Prop := {
  bs_null : w_rows w !! 0 = None;
  bs_row : forall h r, w_rows w !! h = Some r -> row_ok w h r;
  bs_box : forall h r, w_rows w !! h = Some r ->
    match b_kind r with Narrow _ => b_payload r = 0 | Wide _ => b_joined r = false -> b_payload r <> 0 end;
  bs_value : forall h r, w_rows w !! h = Some r -> ending w h = None -> b_value r = 0;
  bs_fiber : forall f c, w_fibers w !! f = Some c -> exists r, w_rows w !! ch_row c = Some r /\ b_fiber r = Some f;
  bs_ledger : held w ++ w_released w ++ w_moved w ≡ₚ w_made w
}.

(** What the reader of a row will get. *)
Definition result_of r : value := match b_kind r with Narrow _ => VSlot (b_value r) | Wide _ => VBytes (b_box r) end.

Definition outcome_of w h : option outcome :=
  r ← w_rows w !! h; e ← ending w h;
  Some (if fst e =? BREW_OK then Got (result_of r) else Failed (fst e) (snd e)).

Definition stamp w h : Z := match w_rows w !! h with Some r => b_done_stamp r | None => 0 end.

Definition rows_of w : list Z := nz (g_children (w_group w)).

Record fleet (elem : flavor) w : Prop := {
  fl_nodup : NoDup (rows_of w);
  fl_row : forall h, h ∈ rows_of w -> exists r, w_rows w !! h = Some r /\ b_kind r = elem;
  fl_hook : forall f c, w_fibers w !! f = Some c -> ch_hook c = true <-> ch_row c ∈ rows_of w;
  fl_clock : forall h, h ∈ rows_of w -> 0 <= stamp w h <= g_clock (w_group w);
  fl_runs : forall h, h ∈ rows_of w -> stamp w h = 0 <-> ending w h = None;
  fl_stamps : forall h h', h ∈ rows_of w -> h' ∈ rows_of w -> stamp w h = stamp w h' -> stamp w h <> 0 -> h = h';
  fl_delivered : g_delivered (w_group w) + slen (rows_of w) = slen (g_children (w_group w));
  fl_some : g_children (w_group w) <> [] -> rows_of w <> [];
  fl_positive : 0 <= g_clock (w_group w)
}.

(** ** Sums of references *)

Lemma held_insert (m : gmap Z BBrew) h r r' : m !! h = Some r ->
  map_to_list (<[h := r']> m) ≫= (fun hr => row_refs (snd hr)) ≡ₚ row_refs r' ++ (map_to_list (delete h m) ≫= fun hr => row_refs (snd hr)).
Proof.
  intros Hh. rewrite <-insert_delete_eq. rewrite map_to_list_insert by apply lookup_delete_eq. done.
Qed.

Lemma held_delete (m : gmap Z BBrew) h r : m !! h = Some r ->
  map_to_list m ≫= (fun hr => row_refs (snd hr)) ≡ₚ row_refs r ++ (map_to_list (delete h m) ≫= fun hr => row_refs (snd hr)).
Proof. intros Hh. rewrite <-(held_insert m h r r Hh). by rewrite insert_id. Qed.

Lemma held_new (m : gmap Z BBrew) h r : m !! h = None ->
  map_to_list (<[h := r]> m) ≫= (fun hr => row_refs (snd hr)) ≡ₚ row_refs r ++ (map_to_list m ≫= fun hr => row_refs (snd hr)).
Proof. intros Hh. by rewrite map_to_list_insert. Qed.

Lemma refs_cons p l : refs (p :: l) = refs [p] ++ refs l.
Proof. unfold refs. cbn. by destruct (p =? 0). Qed.

Lemma refs_zero l : refs (0 :: l) = refs l.
Proof. done. Qed.

Definition result_refs r : list Z :=
  match b_kind r with Narrow true => refs [b_value r] | Narrow false => [] | Wide _ => refs [b_payload r] end.

Lemma row_refs_eq r : row_refs r = refs [b_env r] ++ result_refs r.
Proof. unfold row_refs, result_refs. rewrite refs_cons. by destruct (b_kind r) as [[]|]. Qed.

(** What a discarded row gives up, in order. *)
Definition discarded r : list Z := if b_status r =? BREW_OK then result_refs r ++ refs [b_env r] else row_refs r.

Lemma discarded_perm r : discarded r ≡ₚ row_refs r.
Proof. unfold discarded. rewrite row_refs_eq. destruct (_ =? _); [apply Permutation_app_comm|done]. Qed.

(** ** How the rows change *)

(** The record of a running child's row and its ending change at once. *)
Lemma base_end w w' h f r r' hook e rel made : base w -> w_rows w !! h = Some r -> b_fiber r = Some f ->
  w_fibers w !! f = Some (mkChild h hook None) -> w_rows w' = <[h := r']> (w_rows w) ->
  w_fibers w' = <[f := mkChild h hook (Some e)]> (w_fibers w) -> ended_ok e ->
  b_fiber r' = b_fiber r -> b_joined r' = b_joined r -> b_kind r' = b_kind r -> b_payload r' = b_payload r ->
  w_released w' = w_released w ++ rel -> w_moved w' = w_moved w -> w_made w' = w_made w ++ made ->
  row_refs r' ++ rel ≡ₚ row_refs r ++ made -> base w'.
Proof.
  intros [B0 B1 B2 BV B3 B4] Hh Hf Hc Hrows Hfib He Hf' Hj Hk Hp Hrel Hmov Hmade Hperm.
  assert (Hne : h <> 0) by congruence.
  assert (Hother : forall h' x g, w_rows w !! h' = Some x -> b_fiber x = Some g -> h' <> h -> g <> f).
  { intros h' x g Hx Hg Hn ->. destruct (B3 f _ Hc) as (y & Hy & _). specialize (B1 h' x Hx). unfold row_ok in B1. rewrite Hg in B1.
    destruct B1 as [_ (k & e' & Hk' & _)]. congruence. }
  split.
  - by rewrite Hrows, lookup_insert_ne.
  - intros h' x. rewrite Hrows. destruct (decide (h = h')) as [<-|Hn].
    + rewrite lookup_insert_eq. intros [= <-]. specialize (B1 h r Hh). unfold row_ok in *. rewrite Hf', Hj, Hfib, Hf in *.
      destruct B1 as [? _]. split; [done|]. exists hook, (Some e). split; [apply lookup_insert_eq|]. by intros ? [= <-].
    + rewrite lookup_insert_ne by done. intros Hx. specialize (B1 h' x Hx). unfold row_ok in *. rewrite Hfib.
      destruct (b_fiber x) as [g|] eqn:Hg; [|done]. rewrite lookup_insert_ne; [done|]. intros ->. by apply (Hother h' x g Hx Hg).
  - intros h' x. rewrite Hrows. destruct (decide (h = h')) as [<-|Hn].
    + rewrite lookup_insert_eq. intros [= <-]. rewrite Hk, Hj, Hp. by apply (B2 h).
    + rewrite lookup_insert_ne by done. apply B2.
  - intros h' x. rewrite Hrows. unfold ending. rewrite Hrows, Hfib. destruct (decide (h = h')) as [<-|Hn].
    + rewrite lookup_insert_eq. cbn. rewrite Hf', Hf, lookup_insert_eq. done.
    + rewrite lookup_insert_ne by done. intros Hx. rewrite Hx. cbn. destruct (b_fiber x) as [g|] eqn:Hg; [|done].
      rewrite lookup_insert_ne; [|intros ->; by apply (Hother h' x g Hx Hg)]. intros He'. apply (BV h' x Hx). unfold ending. by rewrite Hx; cbn; rewrite Hg.
  - intros g c. rewrite Hfib, Hrows. destruct (decide (f = g)) as [<-|Hn].
    + rewrite lookup_insert_eq. intros [= <-]. cbn. rewrite lookup_insert_eq. exists r'. by rewrite Hf'.
    + rewrite lookup_insert_ne by done. intros Hg. destruct (B3 g c Hg) as (x & Hx & Hgx). exists x. split; [|done].
      rewrite lookup_insert_ne; [done|]. intros ->. congruence.
  - unfold held in *. rewrite Hrows, Hrel, Hmov, Hmade, (held_insert _ _ r) by done.
    rewrite <-B4, (held_delete _ _ r Hh). set (H0 := map_to_list _ ≫= _).
    transitivity ((row_refs r' ++ rel) ++ H0 ++ w_released w ++ w_moved w); [solve_Permutation|].
    rewrite Hperm. solve_Permutation.
Qed.

(** A child starts. *)
Lemma base_new w w' h f r hook : base w -> h <> 0 -> w_rows w !! h = None -> w_fibers w !! f = None ->
  b_fiber r = Some f -> b_joined r = false -> b_value r = 0 ->
  match b_kind r with Narrow _ => b_payload r = 0 | Wide _ => b_payload r <> 0 end ->
  w_rows w' = <[h := r]> (w_rows w) -> w_fibers w' = <[f := mkChild h hook None]> (w_fibers w) ->
  w_released w' = w_released w -> w_moved w' = w_moved w -> w_made w' = w_made w ++ row_refs r -> base w'.
Proof.
  intros [B0 B1 B2 BV B3 B4] Hne Hh Hfr Hf Hj Hv Hk Hrows Hfib Hrel Hmov Hmade.
  assert (Hother : forall h' x g, w_rows w !! h' = Some x -> b_fiber x = Some g -> g <> f).
  { intros h' x g Hx Hg ->. specialize (B1 h' x Hx). unfold row_ok in B1. rewrite Hg in B1. destruct B1 as [_ (k & e & Hc & _)]. congruence. }
  split.
  - by rewrite Hrows, lookup_insert_ne.
  - intros h' x. rewrite Hrows. unfold row_ok. rewrite Hfib. destruct (decide (h = h')) as [<-|Hn].
    + rewrite lookup_insert_eq. intros [= <-]. rewrite Hf. split; [done|]. exists hook, None. by rewrite lookup_insert_eq.
    + rewrite lookup_insert_ne by done. intros Hx. specialize (B1 h' x Hx). unfold row_ok in B1.
      destruct (b_fiber x) as [g|] eqn:Hg; [|done]. rewrite lookup_insert_ne; [done|]. intros ->. by apply (Hother h' x g Hx Hg).
  - intros h' x. rewrite Hrows. destruct (decide (h = h')) as [<-|Hn].
    + rewrite lookup_insert_eq. intros [= <-]. by destruct (b_kind r).
    + rewrite lookup_insert_ne by done. apply B2.
  - intros h' x. rewrite Hrows. unfold ending. rewrite Hrows, Hfib. destruct (decide (h = h')) as [<-|Hn].
    + rewrite lookup_insert_eq. by intros [= <-].
    + rewrite lookup_insert_ne by done. intros Hx. rewrite Hx. cbn. destruct (b_fiber x) as [g|] eqn:Hg; [|done].
      rewrite lookup_insert_ne; [|intros ->; by apply (Hother h' x g Hx Hg)]. intros He'. apply (BV h' x Hx). unfold ending. by rewrite Hx; cbn; rewrite Hg.
  - intros g c. rewrite Hfib, Hrows. destruct (decide (f = g)) as [<-|Hn].
    + rewrite lookup_insert_eq. intros [= <-]. cbn. rewrite lookup_insert_eq. by exists r.
    + rewrite lookup_insert_ne by done. intros Hg. destruct (B3 g c Hg) as (x & Hx & Hgx). exists x. split; [|done].
      rewrite lookup_insert_ne; [done|]. intros ->. congruence.
  - unfold held in *. rewrite Hrows, Hrel, Hmov, Hmade, held_new, <-B4 by done. solve_Permutation.
Qed.

(** A joined row leaves. *)
Lemma base_delete w w' h r rel mov : base w -> w_rows w !! h = Some r -> b_fiber r = None ->
  w_rows w' = delete h (w_rows w) -> w_fibers w' = w_fibers w ->
  w_released w' = w_released w ++ rel -> w_moved w' = w_moved w ++ mov -> w_made w' = w_made w ->
  rel ++ mov ≡ₚ row_refs r -> base w'.
Proof.
  intros [B0 B1 B2 BV B3 B4] Hh Hf Hrows Hfib Hrel Hmov Hmade Hperm. split.
  - rewrite Hrows. destruct (decide (h = 0)) as [->|Hn]; [apply lookup_delete_eq|by rewrite lookup_delete_ne].
  - intros h' x. rewrite Hrows. intros [Hn Hx]%lookup_delete_Some. specialize (B1 h' x Hx). unfold row_ok in *. by rewrite Hfib.
  - intros h' x. rewrite Hrows. intros [Hn Hx]%lookup_delete_Some. by apply B2 in Hx.
  - intros h' x. unfold ending. rewrite Hrows, Hfib. intros Hx. rewrite Hx. apply lookup_delete_Some in Hx as [Hn Hx].
    specialize (BV h' x Hx). unfold ending in BV. by rewrite Hx in BV.
  - intros f c. rewrite Hfib, Hrows. intros Hc. destruct (B3 f c Hc) as (x & Hx & Hfx).
    exists x. split; [|done]. rewrite lookup_delete_ne; [done|]. intros ->. congruence.
  - unfold held in *. rewrite Hrows, Hrel, Hmov, Hmade, <-B4, (held_delete _ _ r Hh), <-Hperm. solve_Permutation.
Qed.

(** A finished child is joined. *)
Definition joined_world h f r (e : Z * str) w : world :=
  with_rows (<[h := set_joined (fst e) (snd e) r]> (w_rows w)) (with_fibers (delete f (w_fibers w)) w).

Lemma ending_row w h r : w_rows w !! h = Some r ->
  ending w h = match b_fiber r with Some f => c ← w_fibers w !! f; ch_end c | None => Some (b_status r, b_message r) end.
Proof. unfold ending. by intros ->. Qed.

Lemma ending_join w h f r hook e h' : base w -> w_rows w !! h = Some r -> b_fiber r = Some f ->
  w_fibers w !! f = Some (mkChild h hook (Some e)) -> ending (joined_world h f r e w) h' = ending w h'.
Proof.
  intros B Hr Hf Hc. unfold ending. cbn. destruct (decide (h = h')) as [<-|Hn].
  - rewrite lookup_insert_eq, Hr. cbn. rewrite Hf, Hc. cbn. by destruct e.
  - rewrite lookup_insert_ne by done. destruct (w_rows w !! h') as [x|] eqn:Hx; [|done]. cbn.
    destruct (b_fiber x) as [g|] eqn:Hg; [|done]. rewrite lookup_delete_ne; [done|]. intros ->.
    pose proof (bs_row _ B _ _ Hx) as Hrow. unfold row_ok in Hrow. rewrite Hg in Hrow. destruct Hrow as [_ (k & e' & Hk & _)].
    congruence.
Qed.

Lemma base_join w h f r hook e : base w -> w_rows w !! h = Some r -> b_fiber r = Some f ->
  w_fibers w !! f = Some (mkChild h hook (Some e)) -> base (joined_world h f r e w).
Proof.
  intros B Hr Hf Hc. pose proof B as [B0 B1 B2 BV B3 B4]. assert (Hne : h <> 0) by congruence.
  pose proof (B1 h r Hr) as Hrow. unfold row_ok in Hrow. rewrite Hf in Hrow.
  destruct Hrow as [Hj (hook' & e' & Hc' & He)]. rewrite Hc in Hc'. injection Hc' as <- <-.
  split; cbn.
  - by rewrite lookup_insert_ne.
  - intros h' x. destruct (decide (h = h')) as [<-|Hn].
    + rewrite lookup_insert_eq. intros [= <-]. split; [done|]. destruct e; by apply He.
    + rewrite lookup_insert_ne by done. intros Hx. specialize (B1 h' x Hx). unfold row_ok in *. cbn.
      destruct (b_fiber x) as [g|] eqn:Hg; [|done]. destruct B1 as [? (k & e' & Hk & ?)]. split; [done|].
      exists k, e'. split; [|done]. rewrite lookup_delete_ne; [done|]. intros ->. congruence.
  - intros h' x. destruct (decide (h = h')) as [<-|Hn].
    + rewrite lookup_insert_eq. intros [= <-]. cbn. specialize (B2 h r Hr). by destruct (b_kind r).
    + rewrite lookup_insert_ne by done. apply B2.
  - intros h' x Hx Hend. rewrite (ending_join w h f r hook e h' B Hr Hf Hc) in Hend. apply lookup_insert_Some in Hx as [[<- <-]|[_ Hx]]; [|by apply (BV h')].
    rewrite (ending_row _ _ _ Hr), Hf, Hc in Hend. done.
  - intros g c [Hn Hg]%lookup_delete_Some. destruct (B3 g c Hg) as (x & Hx & Hgx). exists x. split; [|done].
    rewrite lookup_insert_ne; [done|]. intros ->. congruence.
  - unfold held in *. cbn. rewrite (held_insert _ _ r) by done. rewrite <-B4, (held_delete _ _ r Hr).
    change (row_refs (set_joined (fst e) (snd e) r)) with (row_refs r). solve_Permutation.
Qed.

Lemma outcome_join w h f r hook e h' : base w -> w_rows w !! h = Some r -> b_fiber r = Some f ->
  w_fibers w !! f = Some (mkChild h hook (Some e)) -> outcome_of (joined_world h f r e w) h' = outcome_of w h'.
Proof.
  intros B Hr Hf Hc. unfold outcome_of. rewrite (ending_join _ _ _ _ hook) by done. cbn. destruct (decide (h = h')) as [<-|Hn].
  - by rewrite lookup_insert_eq, Hr.
  - by rewrite lookup_insert_ne.
Qed.

Lemma join_run h f r hook e w : w_rows w !! h = Some r -> b_joined r = false -> b_fiber r = Some f ->
  w_fibers w !! f = Some (mkChild h hook e) ->
  beans_brew_join h w = match e with
    | Some e => Some (Ok (Some (fst e)), joined_world h f r e w)
    | None => Some (Ok None, w)
    end.
Proof.
  intros Hr Hj Hf Hc. unfold beans_brew_join. exec (row_at_run h w r Hr). rewrite Hj, Hf.
  unfold beans_fiber_join, lift, get, mbind, M_bind, mret, M_ret. cbn. rewrite Hc. cbn.
  by destruct e as [[s t]|].
Qed.

(** ** The group's rows *)

Lemma fleet_frame elem w w' : fleet elem w ->
  g_children (w_group w') = g_children (w_group w) -> g_clock (w_group w') = g_clock (w_group w) ->
  g_delivered (w_group w') = g_delivered (w_group w) ->
  (forall h, h ∈ rows_of w -> exists r', w_rows w' !! h = Some r' /\ b_kind r' = elem) ->
  (forall h, h ∈ rows_of w -> stamp w' h = stamp w h) ->
  (forall h, h ∈ rows_of w -> ending w' h = None <-> ending w h = None) ->
  (forall f c, w_fibers w' !! f = Some c -> exists c0, w_fibers w !! f = Some c0 /\ ch_row c0 = ch_row c /\ ch_hook c0 = ch_hook c) ->
  fleet elem w'.
Proof.
  intros [F1 F2 F3 F4 F5 F6 F7 F8 F9] Hch Hck Hd Hrow Hst He Hhook.
  assert (Hro : rows_of w' = rows_of w) by (unfold rows_of; by rewrite Hch).
  split; rewrite ?Hro, ?Hch, ?Hck, ?Hd; try done.
  - intros f c Hc. destruct (Hhook f c Hc) as (c0 & Hc0 & <- & <-). by apply F3 in Hc0.
  - intros h Hh. rewrite Hst by done. by apply F4.
  - intros h Hh. rewrite Hst, He by done. by apply F5.
  - intros h h' Hh Hh'. rewrite !Hst by done. by apply F6.
Qed.

Lemma fleet_join elem w h f r hook e : base w -> fleet elem w -> w_rows w !! h = Some r -> b_fiber r = Some f ->
  w_fibers w !! f = Some (mkChild h hook (Some e)) -> fleet elem (joined_world h f r e w).
Proof.
  intros B F Hr Hf Hc. apply (fleet_frame elem w); try done.
  - intros h' Hh'. destruct (fl_row _ _ F h' Hh') as (x & Hx & Hk). cbn. destruct (decide (h = h')) as [<-|Hn].
    + rewrite lookup_insert_eq. eexists. split; [done|]. cbn. congruence.
    + rewrite lookup_insert_ne by done. eauto.
  - intros h' Hh'. unfold stamp. cbn. destruct (decide (h = h')) as [<-|Hn].
    + by rewrite lookup_insert_eq, Hr.
    + by rewrite lookup_insert_ne.
  - intros h' _. by rewrite (ending_join _ _ _ _ hook).
  - cbn. intros g c [_ Hg]%lookup_delete_Some. by exists c.
Qed.

(** ** Giving up rows *)

Lemma refs_idem l : refs (refs l) = refs l.
Proof.
  unfold refs. induction l as [|p l IH]; [done|]. cbn. destruct (negb (p =? 0)) eqn:Hp; [|done]. cbn. by rewrite Hp, IH.
Qed.

#[local] Arguments refs : simpl never.
#[local] Arguments row_refs : simpl never.

Lemma row_refs_idem r : refs (row_refs r) = row_refs r.
Proof. apply refs_idem. Qed.

Lemma with_released_nil w : with_released (w_released w ++ []) w = w.
Proof. rewrite app_nil_r. by destruct w. Qed.

(** The row without its unclaimed result. *)
Definition emptied_row r : BBrew := if b_payload r =? 0 then set_value 0 r else set_payload 0 [] r.

Definition dropped_world h r w : world := with_released (w_released w ++ discarded r) (with_rows (delete h (w_rows w)) w).

Definition claimed_world h r w : world :=
  let ok := b_status r =? BREW_OK in
  let slot := match b_kind r with Narrow _ => true | Wide _ => false end in
  with_released (w_released w ++ (if ok && slot then refs [b_env r] else discarded r))
    (with_moved (w_moved w ++ (if ok && slot then result_refs r else [])) (with_rows (delete h (w_rows w)) w)).

Definition outcome_at r : outcome := if b_status r =? BREW_OK then Got (result_of r) else Failed (b_status r) (b_message r).

(** A list of rows leaves, each as [F] says. *)
Definition remove_all (F : Z -> BBrew -> world -> world) l w : world :=
  fold_left (fun w h => match w_rows w !! h with Some r => F h r w | None => w end) l w.

Abbreviation discard_all := (remove_all dropped_world).
Abbreviation claim_all := (remove_all claimed_world).

Lemma discard_all_group l g w : discard_all l (with_group g w) = with_group g (discard_all l w).
Proof.
  revert w. induction l as [|h l IH]; intros w; [done|]. cbn. destruct (w_rows w !! h) as [r|]; [apply (IH (dropped_world h r w))|apply IH].
Qed.

Lemma claim_all_group l g w : claim_all l (with_group g w) = with_group g (claim_all l w).
Proof.
  revert w. induction l as [|h l IH]; intros w; [done|]. cbn. destruct (w_rows w !! h) as [r|]; [apply (IH (claimed_world h r w))|apply IH].
Qed.

Lemma remove_all_cons F h r l w : w_rows w !! h = Some r -> remove_all F (h :: l) w = remove_all F l (F h r w).
Proof. intros Hr. cbn. by rewrite Hr. Qed.

Section quiet.
Context (deinit_panic : Z -> option str) (Hquiet : forall p, deinit_panic p = None).

Lemma release_run p w : beans_release deinit_panic p w = Some (Ok tt, with_released (w_released w ++ refs [p]) w).
Proof.
  unfold beans_release, refs, modify, mbind, M_bind, mret, M_ret. cbn. destruct (p =? 0); cbn; [by rewrite with_released_nil|].
  by rewrite Hquiet.
Qed.

Lemma release_all_run ps w : release_all deinit_panic ps w = Some (Ok tt, with_released (w_released w ++ refs ps) w).
Proof.
  revert w. induction ps as [|p ps IH]; intros w; [by rewrite with_released_nil|].
  rewrite (refs_cons p ps), app_assoc. cbn [release_all]. rewrite release_run. cbn -[refs]. by rewrite IH.
Qed.

Lemma release_row_run h r w : w_rows w !! h = Some r ->
  release_row deinit_panic h w = Some (Ok tt, with_released (w_released w ++ row_refs r) (with_rows (delete h (w_rows w)) w)).
Proof.
  intros Hr. unfold release_row. exec (row_at_run h w r Hr). unfold modify, mbind, M_bind. cbn -[row_refs release_all].
  by rewrite release_all_run, row_refs_idem.
Qed.

Lemma drop_result_run h r w : w_rows w !! h = Some r ->
  match b_kind r with Narrow _ => b_payload r = 0 | Wide _ => True end ->
  brew_drop_result deinit_panic h w = Some (Ok tt,
    if b_status r =? BREW_OK
    then with_released (w_released w ++ result_refs r) (with_rows (<[h := emptied_row r]> (w_rows w)) w) else w).
Proof.
  intros Hr Hk. unfold brew_drop_result. exec (row_at_run h w r Hr).
  destruct (b_status r =? BREW_OK); cbn [negb]; [|done].
  unfold result_refs, emptied_row. destruct (Z.eqb_spec (b_payload r) 0) as [Hp|Hp]; cbn [negb].
  - assert (Hpay : (match b_kind r with Narrow true => beans_release deinit_panic (b_value r) | _ => mret tt end) w =
      Some (Ok tt, with_released (w_released w ++ match b_kind r with Narrow true => refs [b_value r] | Narrow false => [] | Wide _ => refs [b_payload r] end) w)).
    { destruct (b_kind r) as [[]|]; [by rewrite release_run|by rewrite with_released_nil|]. rewrite Hp, refs_zero. by rewrite with_released_nil. }
    exec Hpay. by exec (row_at_run h (with_released _ w) r Hr).
  - destruct (b_kind r) as [[]|]; [done..|]. exec (release_run _ _).
    by exec (row_at_run h (with_released _ w) r Hr).
Qed.

Lemma emptied_refs r : match b_kind r with Narrow _ => b_payload r = 0 | Wide _ => True end -> row_refs (emptied_row r) = refs [b_env r].
Proof.
  intros Hk. rewrite row_refs_eq. unfold result_refs, emptied_row.
  destruct (Z.eqb_spec (b_payload r) 0) as [Hp|Hp]; cbn -[refs]; destruct (b_kind r) as [[]|];
    rewrite ?Hp; try done; apply app_nil_r.
Qed.

(** The result is dropped, then the row released, whatever happens to the
    group's list in between. *)
Definition half_dropped h r w : world :=
  if b_status r =? BREW_OK
  then with_released (w_released w ++ result_refs r) (with_rows (<[h := emptied_row r]> (w_rows w)) w) else w.

Lemma half_dropped_group h r w : w_group (half_dropped h r w) = w_group w.
Proof. unfold half_dropped. by destruct (_ =? _). Qed.

Lemma with_group_id w : with_group (w_group w) w = w.
Proof. by destruct w. Qed.

Lemma release_dropped_run h r g w : w_rows w !! h = Some r ->
  match b_kind r with Narrow _ => b_payload r = 0 | Wide _ => True end ->
  release_row deinit_panic h (with_group g (half_dropped h r w)) = Some (Ok tt, with_group g (dropped_world h r w)).
Proof.
  intros Hr Hk. unfold half_dropped, dropped_world, discarded. destruct (b_status r =? BREW_OK).
  - rewrite (release_row_run h (emptied_row r) (with_group g (with_released _ (with_rows _ w))) (lookup_insert_eq _ _ _)).
    cbn. by rewrite emptied_refs, delete_insert_eq, <-app_assoc.
  - by rewrite (release_row_run h r (with_group g w) Hr).
Qed.

Lemma nz_app l l' : nz (l ++ l') = nz l ++ nz l'.
Proof. apply List.filter_app. Qed.

Lemma nz_take_S l i h : l !! i = Some h -> nz (take (S i) l) = nz (take i l) ++ (if h =? 0 then [] else [h]).
Proof. intros Hl. rewrite (take_S_r _ _ _ Hl), nz_app. unfold nz at 2. cbn. by destruct (h =? 0). Qed.

(** The rows of [l] are joined, and their boxes match their kinds. *)
Definition droppable w l : Prop :=
  NoDup l /\ forall h, h ∈ l -> exists r, w_rows w !! h = Some r /\ b_fiber r = None /\
    match b_kind r with Narrow _ => b_payload r = 0 | Wide _ => True end.

Lemma droppable_step w w' l h r : droppable w (h :: l) -> w_rows w !! h = Some r -> w_rows w' = delete h (w_rows w) -> droppable w' l.
Proof.
  intros [Hnd Hl] Hr Hw. apply NoDup_cons in Hnd as [Hh Hnd]. split; [done|]. intros h' Hh'.
  destruct (Hl h') as (r' & Hr' & ?); [by right|]. exists r'. split; [|done]. rewrite Hw, lookup_delete_ne; [done|]. by intros ->.
Qed.

Lemma child_at_run i h w : g_children (w_group w) !! i = Some h -> child_at i w = Some (Ok h, w).
Proof. intros Hi. unfold child_at, group, get, lift, mbind, M_bind. cbn. by rewrite Hi. Qed.

Lemma clear_child_run i w : clear_child i w = Some (Ok tt, with_group (set_children (<[i := 0]> (g_children (w_group w))) (w_group w)) w).
Proof. done. Qed.

Lemma drop_result_half h r w : w_rows w !! h = Some r ->
  match b_kind r with Narrow _ => b_payload r = 0 | Wide _ => True end ->
  brew_drop_result deinit_panic h w = Some (Ok tt, half_dropped h r w).
Proof. apply drop_result_run. Qed.

Lemma cancel_discard_run n : forall w, (n <= length (g_children (w_group w)))%nat ->
  droppable w (rev (nz (take n (g_children (w_group w))))) ->
  exists ch, cancel_discard deinit_panic n w =
    Some (Ok tt, with_group (set_children ch (w_group w)) (discard_all (rev (nz (take n (g_children (w_group w))))) w)).
Proof.
  induction n as [|n IH]; intros w Hn Hd.
  { exists (g_children (w_group w)). cbn. by destruct w as [? ? [] ? ? ? ? ? ? ? ?]. }
  destruct (lookup_lt_is_Some_2 (g_children (w_group w)) n Hn) as [h Hh].
  rewrite (nz_take_S _ _ _ Hh) in Hd |- *. cbn [cancel_discard]. exec (child_at_run n h w Hh).
  destruct (Z.eqb_spec h 0) as [_|Hnz]; [rewrite app_nil_r in Hd |- *; apply IH; [lia|done]|].
  rewrite rev_app_distr in Hd |- *. cbn [rev app] in Hd |- *.
  destruct (proj2 Hd h ltac:(by left)) as (r & Hr & _ & Hk).
  exec (drop_result_half h r w Hr Hk). exec (clear_child_run n _). rewrite half_dropped_group.
  exec (release_dropped_run h r _ w Hr Hk). rewrite (remove_all_cons dropped_world h r _ w Hr).
  set (g := set_children _ (w_group w)). set (w1 := dropped_world h r w).
  assert (Ht : take n (g_children g) = take n (g_children (w_group w))) by (cbn; by rewrite take_insert_ge).
  destruct (IH (with_group g w1)) as [ch Hch].
  - cbn. rewrite length_insert. lia.
  - cbn [w_group with_group]. rewrite Ht. by eapply (droppable_step w _ _ h r).
  - exists ch. rewrite Hch. cbn [w_group with_group]. by rewrite Ht, discard_all_group.
Qed.

Lemma scope_discard_run n : forall w, (n <= length (g_children (w_group w)))%nat ->
  droppable w (rev (nz (take n (g_children (w_group w))))) ->
  exists ch, scope_discard deinit_panic n w =
    Some (Ok tt, with_group (set_children ch (w_group w)) (discard_all (rev (nz (take n (g_children (w_group w))))) w)).
Proof.
  induction n as [|n IH]; intros w Hn Hd.
  { exists (g_children (w_group w)). cbn. by destruct w as [? ? [] ? ? ? ? ? ? ? ?]. }
  destruct (lookup_lt_is_Some_2 (g_children (w_group w)) n Hn) as [h Hh].
  rewrite (nz_take_S _ _ _ Hh) in Hd |- *. cbn [scope_discard]. exec (child_at_run n h w Hh).
  exec (clear_child_run n _). set (g := set_children _ (w_group w)).
  assert (Ht : take n (g_children g) = take n (g_children (w_group w))) by (cbn; by rewrite take_insert_ge).
  destruct (Z.eqb_spec h 0) as [_|Hnz].
  { rewrite app_nil_r in Hd |- *. destruct (IH (with_group g w)) as [ch Hch].
    - cbn. rewrite length_insert. lia.
    - cbn [w_group with_group]. by rewrite Ht.
    - exists ch. rewrite Hch. cbn [w_group with_group]. by rewrite Ht, discard_all_group. }
  rewrite rev_app_distr in Hd |- *. cbn [rev app] in Hd |- *.
  destruct (proj2 Hd h ltac:(by left)) as (r & Hr & _ & Hk).
  exec (drop_result_half h r (with_group g w) Hr Hk).
  rewrite <-(with_group_id (half_dropped h r (with_group g w))), half_dropped_group.
  exec (release_dropped_run h r _ (with_group g w) Hr Hk). rewrite (remove_all_cons dropped_world h r _ w Hr).
  destruct (IH (with_group g (dropped_world h r w))) as [ch Hch].
  - cbn. rewrite length_insert. lia.
  - cbn [w_group with_group]. rewrite Ht. by eapply (droppable_step w _ _ h r).
  - exists ch. cbn [w_group with_group] in Hch. rewrite Ht, discard_all_group in Hch. exact Hch.
Qed.

Lemma wait_discard_run bad n : forall w, (n <= length (g_children (w_group w)))%nat ->
  let l := rev (nz (take n (<[bad := 0]> (g_children (w_group w))))) in
  droppable w l -> wait_discard deinit_panic bad n w = Some (Ok tt, discard_all l w).
Proof.
  induction n as [|n IH]; intros w Hn; [done|]. cbn zeta.
  destruct (lookup_lt_is_Some_2 (g_children (w_group w)) n Hn) as [h Hh]. cbn [wait_discard]. exec (child_at_run n h w Hh).
  assert (Hi : <[bad := 0]> (g_children (w_group w)) !! n = Some (if Nat.eqb n bad then 0 else h)).
  { destruct (Nat.eqb_spec n bad) as [<-|Hne]; [by rewrite list_lookup_insert_eq|by rewrite list_lookup_insert_ne]. }
  rewrite (nz_take_S _ _ _ Hi). destruct (Nat.eqb n bad) eqn:Hb; cbn [orb].
  { rewrite orb_true_r, app_nil_r. apply IH. lia. }
  rewrite orb_false_r. destruct (Z.eqb_spec h 0) as [_|Hnz]; [rewrite app_nil_r; apply IH; lia|].
  rewrite rev_app_distr. cbn [rev app]. intros Hd. destruct (proj2 Hd h ltac:(by left)) as (r & Hr & _ & Hk).
  exec (drop_result_half h r w Hr Hk). rewrite <-(with_group_id (half_dropped h r w)), half_dropped_group.
  exec (release_dropped_run h r _ w Hr Hk). rewrite (remove_all_cons dropped_world h r _ w Hr).
  change (with_group (w_group w) (dropped_world h r w)) with (dropped_world h r w).
  apply (IH (dropped_world h r w)); [cbn; lia|]. by eapply (droppable_step w _ _ h r).
Qed.

(** ** Claiming a row *)

Lemma row_set_run h r w : set_row h r w = Some (Ok tt, with_rows (<[h := r]> (w_rows w)) w).
Proof. done. Qed.

Definition half_claimed h r w : world :=
  match b_kind r with
  | Narrow _ => with_moved (w_moved w ++ result_refs r) (with_rows (<[h := set_value 0 r]> (w_rows w)) w)
  | Wide _ => with_released (w_released w ++ result_refs r) (with_rows (<[h := set_payload 0 [] r]> (w_rows w)) w)
  end.

Lemma half_claimed_group h r w : w_group (half_claimed h r w) = w_group w.
Proof. unfold half_claimed. by destruct (b_kind r). Qed.

Lemma value_run h r p w : w_rows w !! h = Some r -> b_kind r = Narrow p ->
  beans_brew_value h w = Some (Ok (b_value r), half_claimed h r w).
Proof.
  intros Hr Hk. unfold beans_brew_value, half_claimed, result_refs. exec (row_at_run h w r Hr). exec (row_set_run h _ w).
  rewrite Hk. by destruct p.
Qed.

Lemma value_typed_run h r n w : w_rows w !! h = Some r -> b_kind r = Wide n ->
  beans_brew_value_typed h n w = Some (Ok (b_box r), half_claimed h r w).
Proof.
  intros Hr Hk. unfold beans_brew_value_typed, half_claimed, result_refs. exec (row_at_run h w r Hr). rewrite Hk, Z.eqb_refl.
  cbn [negb]. exec (row_set_run h _ w). unfold release_box, refs. cbn. destruct (b_payload r =? 0); [|done]. cbn. by rewrite app_nil_r.
Qed.

Lemma release_claimed_run h r g w : w_rows w !! h = Some r -> b_status r = BREW_OK ->
  release_row deinit_panic h (with_group g (half_claimed h r w)) = Some (Ok tt, with_group g (claimed_world h r w)).
Proof.
  intros Hr Hok. unfold half_claimed, claimed_world, discarded. rewrite Hok. cbn [Z.eqb BREW_OK andb].
  destruct (b_kind r) as [p|n] eqn:Hk.
  - rewrite (release_row_run h (set_value 0 r) (with_group g (with_moved _ (with_rows _ w))) (lookup_insert_eq _ _ _)). cbn.
    rewrite delete_insert_eq, row_refs_eq. unfold result_refs. cbn. rewrite Hk. by destruct p; rewrite ?app_nil_r.
  - rewrite (release_row_run h (set_payload 0 [] r) (with_group g (with_released _ (with_rows _ w))) (lookup_insert_eq _ _ _)). cbn.
    rewrite delete_insert_eq, row_refs_eq. unfold result_refs. cbn. rewrite Hk, !app_nil_r. by rewrite <-app_assoc.
Qed.

Lemma claim_run h r w : w_rows w !! h = Some r ->
  claim h w = Some (Ok (outcome_at r), if b_status r =? BREW_OK then half_claimed h r w else w).
Proof.
  intros Hr. assert (Hst : beans_brew_status h w = Some (Ok (b_status r), w)) by (unfold beans_brew_status; by exec (row_at_run h w r Hr)).
  unfold claim, outcome_at. exec Hst. destruct (b_status r =? BREW_OK).
  - exec (row_at_run h w r Hr). unfold result_of. destruct (b_kind r) as [p|n] eqn:Hk; [by exec (value_run h r p w Hr Hk)|by exec (value_typed_run h r n w Hr Hk)].
  - unfold beans_brew_message. unfold mbind at 1, M_bind at 1. by exec (row_at_run h w r Hr).
Qed.

Lemma claim_row_run h r w : w_rows w !! h = Some r -> claim_row deinit_panic h w = Some (Ok (ARow h (outcome_at r)), claimed_world h r w).
Proof.
  intros Hr. unfold claim_row. exec (claim_run h r w Hr). destruct (Z.eqb_spec (b_status r) BREW_OK) as [Hok|Hok].
  - rewrite <-(with_group_id (half_claimed h r w)), half_claimed_group. exec (release_claimed_run h r _ w Hr Hok). by destruct w.
  - exec (release_row_run h r w Hr). unfold claimed_world, discarded. rewrite (proj2 (Z.eqb_neq _ _) Hok).
    cbn. rewrite app_nil_r. by destruct w.
Qed.

(** Collecting the results of the next [n] rows. *)
Lemma collect_run elem n : forall i w, (i + n <= length (g_children (w_group w)))%nat ->
  let l := nz (take n (drop i (g_children (w_group w)))) in
  NoDup l -> (forall h, h ∈ l -> exists r, w_rows w !! h = Some r /\ b_kind r = elem /\ b_status r = BREW_OK) ->
  exists ch, collect_from deinit_panic elem i n w =
    Some (Ok ((fun h => default (VSlot 0) (result_of <$> w_rows w !! h)) <$> l), with_group (set_children ch (w_group w)) (claim_all l w)).
Proof.
  induction n as [|n IH]; intros i w Hn; cbn zeta.
  { intros _ _. exists (g_children (w_group w)). rewrite take_0. cbn. by destruct w as [? ? [] ? ? ? ? ? ? ? ?]. }
  destruct (lookup_lt_is_Some_2 (g_children (w_group w)) i ltac:(lia)) as [h Hh]. rewrite (drop_S _ _ _ Hh), firstn_cons.
  cbn [collect_from]. exec (child_at_run i h w Hh). destruct (h =? 0) eqn:Hz.
  { unfold nz at 1 2 3 4. cbn [List.filter]. rewrite Hz. cbn [negb]. intros Hnd Hl. apply IH; [lia|done|done]. }
  assert (Hnz : forall x, nz (h :: x) = h :: nz x) by (intros x; unfold nz; cbn; by rewrite Hz).
  rewrite Hnz. intros [Hhl Hnd]%NoDup_cons Hl. destruct (Hl h ltac:(by left)) as (r & Hr & Hk & Hok).
  assert (Hv : (match elem with
      | Narrow _ => v ← beans_brew_value h; mret (VSlot v)
      | Wide stride => bs ← beans_brew_value_typed h stride; mret (VBytes bs)
      end) w = Some (Ok (result_of r), half_claimed h r w)).
  { unfold result_of. rewrite Hk. destruct elem as [p|m]; [by exec (value_run h r p w Hr Hk)|by exec (value_typed_run h r m w Hr Hk)]. }
  exec Hv. exec (clear_child_run i _). rewrite half_claimed_group. exec (release_claimed_run h r _ w Hr Hok).
  set (g := set_children _ (w_group w)). set (w1 := claimed_world h r w).
  assert (Ht : drop (S i) (g_children g) = drop (S i) (g_children (w_group w))) by (cbn; rewrite drop_insert_lt by lia; done).
  destruct (IH (S i) (with_group g w1)) as [ch Hch]; cbn [w_group with_group]; rewrite ?Ht.
  - cbn. rewrite length_insert. lia.
  - done.
  - intros h' Hh'. destruct (Hl h' ltac:(by right)) as (r' & Hr' & ?). exists r'. split; [|done]. cbn.
    rewrite lookup_delete_ne; [done|]. by intros ->.
  - cbn [w_group with_group] in Hch. rewrite Ht in Hch. rewrite claim_all_group in Hch. exists ch. exec Hch.
    rewrite (remove_all_cons claimed_world h r _ w Hr). cbn. rewrite Hr. cbn.
    rewrite (list_fmap_ext (fun h0 => default (VSlot 0) (result_of <$> delete h (w_rows w) !! h0))
      (fun h0 => default (VSlot 0) (result_of <$> w_rows w !! h0))); [done|].
    intros k h' Hh'%list_elem_of_lookup_2. cbn. rewrite lookup_delete_ne; [done|]. by intros ->.
Qed.

End quiet.

(** ** What the drops keep *)

Lemma base_ext w w' : base w -> w_rows w' = w_rows w -> w_fibers w' = w_fibers w -> w_released w' = w_released w ->
  w_moved w' = w_moved w -> w_made w' = w_made w -> base w'.
Proof.
  intros [B0 B1 B2 BV B3 B4] Hr Hf Hrel Hm Hma. split; unfold row_ok, held, ending in *; rewrite ?Hr, ?Hf, ?Hrel, ?Hm, ?Hma; try done.
Qed.

Lemma base_dropped w h r : base w -> w_rows w !! h = Some r -> b_fiber r = None -> base (dropped_world h r w).
Proof.
  intros B Hr Hf. eapply (base_delete w _ h r (discarded r) []); try done; [by rewrite app_nil_r|].
  rewrite app_nil_r. apply discarded_perm.
Qed.

Lemma base_claimed w h r : base w -> w_rows w !! h = Some r -> b_fiber r = None -> base (claimed_world h r w).
Proof.
  intros B Hr Hf. unfold claimed_world.
  eapply (base_delete w _ h r (if (b_status r =? BREW_OK) && match b_kind r with Narrow _ => true | Wide _ => false end then refs [b_env r] else discarded r)
    (if (b_status r =? BREW_OK) && match b_kind r with Narrow _ => true | Wide _ => false end then result_refs r else [])); try done.
  destruct (_ && _); [by rewrite row_refs_eq|]. rewrite app_nil_r. apply discarded_perm.
Qed.

Lemma base_droppable w l : base w -> NoDup l -> (forall h, h ∈ l -> exists r, w_rows w !! h = Some r /\ b_fiber r = None) -> droppable w l.
Proof.
  intros B Hnd Hl. split; [done|]. intros h Hh. destruct (Hl h Hh) as (r & Hr & Hf). exists r. split_and!; [done|done|].
  pose proof (bs_box _ B _ _ Hr) as Hb. by destruct (b_kind r).
Qed.

(** What a way of removing rows leaves alone. *)
Record remover (F : Z -> BBrew -> world -> world) : Prop := {
  rm_base : forall w h r, base w -> w_rows w !! h = Some r -> b_fiber r = None -> base (F h r w);
  rm_rows : forall w h r, w_rows (F h r w) = delete h (w_rows w);
  rm_rest : forall w h r, w_fibers (F h r w) = w_fibers w /\ w_group (F h r w) = w_group w /\ w_self (F h r w) = w_self w /\
    w_pc (F h r w) = w_pc w /\ w_woken (F h r w) = w_woken w /\ w_unwinding (F h r w) = w_unwinding w
}.

Lemma dropped_remover : remover dropped_world.
Proof. split; [by intros; apply base_dropped|done|done]. Qed.

Lemma claimed_remover : remover claimed_world.
Proof. split; [by intros; apply base_claimed|done|done]. Qed.

Lemma remove_all_ok F l : remover F -> forall w, base w -> droppable w l ->
  base (remove_all F l w) /\ w_fibers (remove_all F l w) = w_fibers w /\ w_group (remove_all F l w) = w_group w /\
  w_self (remove_all F l w) = w_self w /\ w_pc (remove_all F l w) = w_pc w /\
  w_woken (remove_all F l w) = w_woken w /\ w_unwinding (remove_all F l w) = w_unwinding w /\
  (forall h, h ∉ l -> w_rows (remove_all F l w) !! h = w_rows w !! h).
Proof.
  intros R. induction l as [|h l IH]; intros w B Hd; [done|].
  destruct (proj2 Hd h ltac:(by left)) as (r & Hr & Hf & _). rewrite (remove_all_cons F h r l w Hr).
  destruct (rm_rest _ R w h r) as (E1 & E2 & E3 & E4 & E5 & E6). pose proof (rm_rows _ R w h r) as E7.
  destruct (IH (F h r w)) as (B' & H1 & H2 & H3 & H4 & H5 & H6 & H7);
    [by apply R|by eapply droppable_step|].
  split_and!; [done|by rewrite H1|by rewrite H2|by rewrite H3|by rewrite H4|by rewrite H5|by rewrite H6|].
  intros x [Hne Hx]%not_elem_of_cons. rewrite H7 by done. by rewrite E7, lookup_delete_ne.
Qed.

(** The references the rows give up, in the order they go. *)
Lemma released_removed F G l : remover F -> (forall w h r, w_released (F h r w) = w_released w ++ G r) -> forall w, droppable w l ->
  w_released (remove_all F l w) = w_released w ++ (l ≫= fun h => default [] (G <$> w_rows w !! h)).
Proof.
  intros R HG. induction l as [|h l IH]; intros w Hd; [by rewrite app_nil_r|]. destruct (proj2 Hd h ltac:(by left)) as (r & Hr & _).
  rewrite (remove_all_cons F h r l w Hr), IH by (eapply droppable_step; [done|done|apply R]). cbn. rewrite Hr, HG, <-app_assoc. cbn. do 2 f_equal.
  apply Forall_bind_ext, Forall_forall. intros x Hx. rewrite (rm_rows _ R), lookup_delete_ne; [done|]. destruct Hd as [Hnd _].
  apply NoDup_cons in Hnd as [? _]. by intros ->.
Qed.

(** ** The rows that stay *)

Lemma fleet_sub elem w w' : fleet elem w ->
  NoDup (rows_of w') -> (forall h, h ∈ rows_of w' -> h ∈ rows_of w) ->
  g_clock (w_group w') = g_clock (w_group w) ->
  g_delivered (w_group w') + slen (rows_of w') = slen (g_children (w_group w')) ->
  (g_children (w_group w') <> [] -> rows_of w' <> []) ->
  (forall h, h ∈ rows_of w' -> w_rows w' !! h = w_rows w !! h) ->
  (forall h, h ∈ rows_of w' -> ending w' h = ending w h) ->
  (forall f c, w_fibers w' !! f = Some c -> w_fibers w !! f = Some c /\ (ch_row c ∈ rows_of w -> ch_row c ∈ rows_of w')) ->
  fleet elem w'.
Proof.
  intros [F1 F2 F3 F4 F5 F6 F7 F8 F9] Hnd Hin Hck Hdel Hsome Hrows Hend Hfib.
  assert (Hst : forall h, h ∈ rows_of w' -> stamp w' h = stamp w h) by (intros h Hh; unfold stamp; by rewrite Hrows).
  split; try done; [..|by rewrite Hck].
  - intros h Hh. rewrite Hrows by done. by apply F2, Hin.
  - intros f c Hc. destruct (Hfib f c Hc) as [Hc' Hr]. rewrite (F3 f c Hc'). split; [done|apply Hin].
  - intros h Hh. rewrite Hst, Hck by done. by apply F4, Hin.
  - intros h Hh. rewrite Hst, Hend by done. by apply F5, Hin.
  - intros h h' Hh Hh'. rewrite !Hst by done. apply F6; by apply Hin.
Qed.

Lemma nz_in l h : h ∈ nz l <-> h ∈ l /\ h <> 0.
Proof.
  unfold nz. rewrite !list_elem_of_In, List.filter_In, negb_true_iff, Z.eqb_neq. done.
Qed.

(** ** The first row to finish *)

(** The finished rows of [l], with their indices from [i] on. *)
Fixpoint finished w (l : list Z) (i : nat) : list (nat * Z) :=
  match l with
  | [] => []
  | p :: l => if (p =? 0) || (stamp w p =? 0) then finished w l (S i) else (i, stamp w p) :: finished w l (S i)
  end.

Definition earlier (best : option (nat * Z)) (x : nat * Z) : option (nat * Z) :=
  match best with None => Some x | Some b => if snd x <? snd b then Some x else Some b end.

Lemma pick_from_run w l : forall i best, (forall h, h ∈ nz l -> is_Some (w_rows w !! h)) ->
  pick_from l i best w = Some (Ok (fst <$> fold_left earlier (finished w l i) best), w).
Proof.
  induction l as [|p l IH]; intros i best Hl; [done|]. cbn [pick_from finished].
  assert (Hl' : forall h, h ∈ nz l -> is_Some (w_rows w !! h)).
  { intros h [? ?]%nz_in. apply Hl, nz_in. split; [by right|done]. }
  destruct (Z.eqb_spec p 0) as [Hp|Hp]; cbn [orb]; [by apply IH|].
  destruct (Hl p) as [r Hr]; [apply nz_in; split; [by left|done]|]. exec (row_at_run p w r Hr).
  replace (stamp w p) with (b_done_stamp r) by (unfold stamp; by rewrite Hr).
  destruct (b_done_stamp r =? 0); [by apply IH|]. cbn [fold_left]. destruct best as [[j s]|]; cbn [earlier snd]; [|by apply IH].
  destruct (b_done_stamp r <? s); by apply IH.
Qed.

Lemma earlier_spec xs : forall best,
  match fold_left earlier xs best with
  | None => best = None /\ xs = []
  | Some b => (best = Some b \/ b ∈ xs) /\ (forall x, best = Some x \/ x ∈ xs -> snd b <= snd x)
  end.
Proof.
  induction xs as [|x xs IH]; intros best; cbn [fold_left].
  { destruct best; [|done]. split; [by left|]. intros x [[= <-]|Hx]; [done|set_solver]. }
  specialize (IH (earlier best x)). destruct (fold_left _ _ _) as [b|].
  - destruct IH as [Hb Hmin]. destruct best as [b0|]; cbn [earlier] in *.
    + destruct (Z.ltb_spec (snd x) (snd b0)).
      * pose proof (Hmin x (or_introl eq_refl)). split; [destruct Hb as [[= ->]|?]; right; set_solver|].
        intros y [[= <-]|[->|?]%elem_of_cons]; [lia|lia|auto].
      * pose proof (Hmin b0 (or_introl eq_refl)). split; [destruct Hb as [[= ->]|?]; [by left|right; set_solver]|].
        intros y [[= <-]|[->|?]%elem_of_cons]; [lia|lia|auto].
    + pose proof (Hmin x (or_introl eq_refl)). split; [destruct Hb as [[= ->]|?]; right; set_solver|].
      intros y [[=]|[->|?]%elem_of_cons]; [lia|auto].
  - destruct IH as [He _]. destruct best as [b|]; cbn in He; [|done]. by destruct (_ <? _).
Qed.

Lemma finished_in w l : forall i x, x ∈ finished w l i <->
  exists k h, l !! k = Some h /\ h <> 0 /\ stamp w h <> 0 /\ x = ((i + k)%nat, stamp w h).
Proof.
  induction l as [|p l IH]; intros i x; cbn [finished].
  { split; [set_solver|by intros (? & ? & ? & _)]. }
  assert (Hs : x ∈ finished w l (S i) <-> exists k h, (p :: l) !! S k = Some h /\ h <> 0 /\ stamp w h <> 0 /\ x = ((i + S k)%nat, stamp w h)).
  { rewrite IH. split; intros (k & h & ? & ? & ? & ->); exists k, h; split_and!; try done; f_equal; lia. }
  destruct ((p =? 0) || (stamp w p =? 0)) eqn:Hb; bools.
  - rewrite Hs. split; [intros (k & h & ?); by exists (S k), h|]. intros ([|k] & h & Hk & ? & ? & ->); [|by exists k, h].
    exfalso. injection Hk as ->. destruct Hb; bools; done.
  - rewrite elem_of_cons, Hs. split.
    + intros [->|(k & h & ?)]; [exists 0%nat, p; split_and!; try done; by rewrite Nat.add_0_r|by exists (S k), h].
    + intros ([|k] & h & Hk & ? & ? & ->); [left|right; by exists k, h]. injection Hk as ->. by rewrite Nat.add_0_r.
Qed.

(** [taskgroup_pick_done]: the finished row with the smallest stamp. *)
Lemma pick_done_run w : (forall h, h ∈ rows_of w -> is_Some (w_rows w !! h)) ->
  exists res, taskgroup_pick_done w = Some (Ok res, w) /\
    match res with
    | None => forall h, h ∈ rows_of w -> stamp w h = 0
    | Some i => exists h, g_children (w_group w) !! i = Some h /\ h ∈ rows_of w /\ stamp w h <> 0 /\
        forall h', h' ∈ rows_of w -> stamp w h' <> 0 -> stamp w h <= stamp w h'
    end.
Proof.
  intros Hl. eexists. split; [by apply pick_from_run|]. pose proof (earlier_spec (finished w (g_children (w_group w)) 0) None) as Hs.
  assert (Hfin : forall h, h ∈ rows_of w -> stamp w h <> 0 -> exists k, (k, stamp w h) ∈ finished w (g_children (w_group w)) 0).
  { intros h [[k Hk]%list_elem_of_lookup ?]%nz_in ?. exists k. apply finished_in. by exists k, h. }
  destruct (fold_left _ _ _) as [b|]; cbn.
  - destruct Hs as [[[=]|Hb] Hmin]. apply finished_in in Hb as (k & h & Hk & Hh & Hst & ->).
    exists h. split_and!; [done|apply nz_in; split; [by eapply list_elem_of_lookup_2|done]|done|].
    intros h' Hh' Hn. destruct (Hfin h' Hh' Hn) as [k' Hk']. apply (Hmin _ (or_intror Hk')).
  - destruct Hs as [_ Hs]. intros h Hh. destruct (Z.eq_dec (stamp w h) 0) as [|Hn]; [done|].
    destruct (Hfin h Hh Hn) as [k Hk]. rewrite Hs in Hk. set_solver.
Qed.

(** ** Joining rows *)

(** [w'] is [w] after joins: the rows [l] are joined, and nobody sees more
    than that. *)
Record joins w w' l : Prop := {
  jn_base : base w -> base w';
  jn_fleet : forall elem, base w -> fleet elem w -> fleet elem w';
  jn_same : w_group w' = w_group w /\ w_self w' = w_self w /\ w_pc w' = w_pc w /\ w_woken w' = w_woken w /\
    w_unwinding w' = w_unwinding w /\ w_released w' = w_released w;
  jn_ending : forall h, base w -> ending w' h = ending w h;
  jn_outcome : forall h, base w -> outcome_of w' h = outcome_of w h;
  jn_row : forall h r, w_rows w !! h = Some r -> exists r', w_rows w' !! h = Some r' /\ b_kind r' = b_kind r /\
    row_refs r' = row_refs r /\ result_refs r' = result_refs r /\ b_env r' = b_env r /\ b_done_stamp r' = b_done_stamp r /\
    (b_fiber r = None -> r' = r) /\ (b_fiber r' = b_fiber r \/ b_fiber r' = None);
  jn_done : forall h, h ∈ l -> exists r', w_rows w' !! h = Some r' /\ b_fiber r' = None;
  jn_other : forall h, h ∉ l -> w_rows w' !! h = w_rows w !! h
}.

Lemma joins_refl w : joins w w [].
Proof. split; try done; [intros h r Hr; exists r; split_and!; try done; by left|set_solver]. Qed.

Lemma joins_trans w w' w'' l l' : joins w w' l -> joins w' w'' l' -> base w -> joins w w'' (l ++ l').
Proof.
  intros [B1 F1 S1 E1 O1 R1 D1 X1] [B2 F2 S2 E2 O2 R2 D2 X2] B. split.
  - auto.
  - eauto.
  - destruct S1 as (? & ? & ? & ? & ? & ?), S2 as (? & ? & ? & ? & ? & ?). split_and!; congruence.
  - intros h _. by rewrite E2, E1 by auto.
  - intros h _. by rewrite O2, O1 by auto.
  - intros h r Hr. destruct (R1 h r Hr) as (r1 & Hr1 & ? & ? & ? & ? & ? & Hn1 & Hf1).
    destruct (R2 h r1 Hr1) as (r2 & Hr2 & ? & ? & ? & ? & ? & Hn2 & Hf2). exists r2. split_and!; try congruence.
    + intros Hn. specialize (Hn1 Hn). subst. auto.
    + destruct Hf2 as [Hf2|]; [|by right]. rewrite Hf2. done.
  - intros h [Hh|Hh]%elem_of_app; [|auto]. destruct (D1 h Hh) as (r & Hr & Hf).
    destruct (R2 h r Hr) as (r' & Hr' & _ & _ & _ & _ & _ & Hn & _). specialize (Hn Hf). subst. by exists r.
  - intros h [Hh Hh']%not_elem_of_app. by rewrite X2, X1.
Qed.

Lemma joins_one w h f r hook e : base w -> w_rows w !! h = Some r -> b_fiber r = Some f ->
  w_fibers w !! f = Some (mkChild h hook (Some e)) -> joins w (joined_world h f r e w) [h].
Proof.
  intros B Hr Hf Hc. split; try done.
  - intros _. by eapply base_join.
  - intros elem _ F. by eapply fleet_join.
  - intros h' _. by eapply ending_join.
  - intros h' _. by eapply outcome_join.
  - intros h' r' Hr'. cbn. destruct (decide (h = h')) as [<-|Hn].
    + rewrite lookup_insert_eq. eexists. split; [done|]. assert (r' = r) as -> by congruence. split_and!; try done; [congruence|by right].
    + rewrite lookup_insert_ne by done. exists r'. split_and!; try done. by left.
  - intros h' ->%list_elem_of_singleton. cbn. rewrite lookup_insert_eq. eauto.
  - intros h' Hh'%not_elem_of_cons. cbn. rewrite lookup_insert_ne; [done|]. intros ->. by destruct Hh'.
Qed.

Lemma joins_skip w h r : base w -> w_rows w !! h = Some r -> b_fiber r = None -> joins w w [h].
Proof.
  intros B Hr Hf. split; try done.
  - intros h' r' Hr'. exists r'. split_and!; try done. by left.
  - intros h' ->%list_elem_of_singleton. eauto.
Qed.

(** A row whose child ended, not joined yet. *)
Definition ready_row w h r f e : Prop :=
  w_rows w !! h = Some r /\ b_joined r = false /\ b_fiber r = Some f /\ exists hook, w_fibers w !! f = Some (mkChild h hook (Some e)).

Lemma row_cases w h r : base w -> w_rows w !! h = Some r ->
  (b_joined r = true /\ b_fiber r = None /\ ending w h = Some (b_status r, b_message r)) \/
  (b_joined r = false /\ exists f hook, b_fiber r = Some f /\ w_fibers w !! f = Some (mkChild h hook (ending w h))).
Proof.
  intros B Hr. pose proof (bs_row _ B _ _ Hr) as Hrow. unfold row_ok in Hrow. rewrite (ending_row _ _ _ Hr).
  destruct (b_fiber r) as [f|].
  - destruct Hrow as [Hj (hook & e & Hc & _)]. right. split; [done|]. exists f, hook. split; [done|]. rewrite Hc. done.
  - destruct Hrow as [Hj _]. left. done.
Qed.

Lemma join_ready h r f e w : base w -> ready_row w h r f e ->
  beans_brew_join h w = Some (Ok (Some (fst e)), joined_world h f r e w) /\ joins w (joined_world h f r e w) [h].
Proof.
  intros B (Hr & Hj & Hf & hook & Hc). split; [by rewrite (join_run h f r hook (Some e) w Hr Hj Hf Hc)|by eapply joins_one].
Qed.

Lemma ready_after w w' h h' r f e : base w -> joins w w' [h'] -> h <> h' -> ready_row w h r f e -> ready_row w' h r f e.
Proof.
  intros B J Hne (Hr & Hj & Hf & hook & Hc).
  assert (Hr' : w_rows w' !! h = Some r) by (rewrite (jn_other _ _ _ J); [done|by intros ->%list_elem_of_singleton]).
  pose proof (jn_base _ _ _ J B) as B'. pose proof (jn_ending _ _ _ J h B) as He. rewrite (ending_row _ _ _ Hr), Hf, Hc in He. cbn in He.
  destruct (row_cases w' h r B' Hr') as [(? & ? & _)|(_ & g & hook' & Hg & Hc')]; [congruence|].
  assert (g = f) as -> by congruence. rewrite He in Hc'. split_and!; try done. by exists hook'.
Qed.

(** The code that joins every row of a list, all of them ended: what the
    index of the first failing row is, and the joins. *)
Definition got w h : bool := match outcome_of w h with Some (Got _) => true | _ => false end.

Fixpoint first_bad w (l : list Z) (i : nat) : option nat :=
  match l with
  | [] => None
  | p :: l => if (p =? 0) || got w p then first_bad w l (S i) else Some i
  end.

Lemma first_bad_ext w w' l i : (forall h, outcome_of w' h = outcome_of w h) -> first_bad w' l i = first_bad w l i.
Proof. intros Ho. revert i. induction l as [|p l IH]; intros i; [done|]. cbn. unfold got. by rewrite Ho, IH. Qed.

Lemma join_finished_run h r f e w : base w -> ready_row w h r f e ->
  join_finished h w = Some (Ok (fst e), joined_world h f r e w).
Proof. intros B Hr. unfold join_finished. by exec (proj1 (join_ready h r f e w B Hr)). Qed.

Lemma outcome_ready w h r f e : ready_row w h r f e ->
  outcome_of w h = Some (if fst e =? BREW_OK then Got (result_of r) else Failed (fst e) (snd e)).
Proof.
  intros (Hr & _ & Hf & hook & Hc). unfold outcome_of. rewrite Hr. cbn. rewrite (ending_row _ _ _ Hr), Hf, Hc. done.
Qed.

Lemma wait_joins_run l : forall i bad w, base w -> NoDup (nz l) -> (forall h, h ∈ nz l -> exists r f e, ready_row w h r f e) ->
  exists w', wait_joins l i bad w = Some (Ok (match bad with Some b => Some b | None => first_bad w l i end), w') /\ joins w w' (nz l).
Proof.
  induction l as [|p l IH]; intros i bad w B Hnd Hl; cbn [wait_joins].
  { exists w. split; [by destruct bad|apply joins_refl]. }
  assert (Hnz : nz (p :: l) = if p =? 0 then nz l else p :: nz l) by (unfold nz; cbn; by destruct (p =? 0)).
  rewrite Hnz in Hnd, Hl |- *. cbn [first_bad]. destruct (p =? 0); cbn [orb]; [by apply IH|].
  destruct (Hl p ltac:(by left)) as (r & f & e & Hrdy). apply NoDup_cons in Hnd as [Hp Hnd].
  destruct (join_ready p r f e w B Hrdy) as [_ J]. exec (join_finished_run p r f e w B Hrdy).
  set (w1 := joined_world p f r e w) in *.
  assert (Hst : beans_brew_status p w1 = Some (Ok (fst e), w1)).
  { unfold beans_brew_status. by exec (row_at_run p w1 (set_joined (fst e) (snd e) r) (lookup_insert_eq _ _ _)). }
  exec Hst. pose proof (jn_base _ _ _ J B) as B1.
  destruct (IH (S i) (match bad with Some _ => bad | None => if fst e =? BREW_OK then None else Some i end) w1 B1 Hnd) as (w' & Hw & J').
  { intros h Hh. destruct (Hl h ltac:(by right)) as (r' & f' & e' & Hr'). exists r', f', e'. apply (ready_after w w1 h p); [done|done|by intros ->|done]. }
  exists w'. split; [|by apply (joins_trans _ _ _ [p] (nz l) J J' B)].
  replace (match bad with None => if fst e =? BREW_OK then None else Some i | Some _ => bad end)
    with (match bad with Some _ => bad | None => if fst e =? BREW_OK then None else Some i end) by (by destruct bad).
  rewrite Hw. rewrite (first_bad_ext w w1) by (intros; by apply (jn_outcome _ _ _ J)). unfold got.
  rewrite (outcome_ready w p r f e Hrdy). destruct bad; [done|]. by destruct (fst e =? BREW_OK).
Qed.

Definition unjoined w h : Prop := exists r, w_rows w !! h = Some r /\ b_joined r = false.

Lemma nz_cons h l : nz (h :: l) = if h =? 0 then nz l else h :: nz l.
Proof. unfold nz. cbn. by destruct (h =? 0). Qed.

Lemma ready_of w h r f hook e : w_rows w !! h = Some r -> b_joined r = false -> b_fiber r = Some f ->
  w_fibers w !! f = Some (mkChild h hook (Some e)) -> ready_row w h r f e.
Proof. intros. split_and!; try done. by exists hook. Qed.

(** How a loop that joins the rows [l] ends: every row it passed satisfies
    [P]; it is through, or it parks at a row that satisfies [stop], or the row
    it joined last makes it panic. *)
Definition loop_post (P stop : Z -> Prop) (boom : Z -> str -> Z -> Z -> Prop) (i : nat) l w w' (res : result (option nat)) : Prop :=
  exists k, (forall h, h ∈ nz (take k l) -> P h) /\
    match res with
    | Ok None => k = length l /\ joins w w' (nz l)
    | Ok (Some j) => j = (i + k)%nat /\ (exists h, l !! k = Some h /\ h <> 0 /\ stop h) /\ joins w w' (nz (take k l))
    | Panic t ln c => (exists h, l !! k = Some h /\ h <> 0 /\ boom h t ln c) /\ joins w w' (nz (take (S k) l))
    end.

Lemma loop_post_cons P stop boom i h l w w1 w' l1 res : base w -> joins w w1 l1 -> (forall x, nz (h :: x) = l1 ++ nz x) ->
  (forall x, x ∈ l1 -> P x) -> loop_post P stop boom (S i) l w1 w' res -> loop_post P stop boom i (h :: l) w w' res.
Proof.
  intros B J Hnz HP (k & Hk & Hres). exists (S k). split.
  { cbn [take]. intros x. rewrite Hnz. intros [?|?]%elem_of_app; auto. }
  destruct res as [[j|]|t ln c].
  - destruct Hres as (-> & Hs & J'). split; [lia|]. split; [done|]. cbn [take]. rewrite Hnz. by apply (joins_trans _ w1).
  - destruct Hres as (-> & J'). split; [done|]. rewrite Hnz. by apply (joins_trans _ w1).
  - destruct Hres as (Hb & J'). split; [done|]. change (take (S (S k)) (h :: l)) with (h :: take (S k) l). rewrite Hnz. by apply (joins_trans _ w1).
Qed.

(** What the rest of the loop still finds. *)
Lemma joins_rest w w1 h h' : base w -> joins w w1 [h] -> h' <> h ->
  w_rows w1 !! h' = w_rows w !! h' /\ ending w1 h' = ending w h' /\ (unjoined w1 h' <-> unjoined w h').
Proof.
  intros B J Hne. assert (Hr : w_rows w1 !! h' = w_rows w !! h').
  { apply (jn_other _ _ _ J). by intros ?%list_elem_of_singleton. }
  split_and!; [done|by apply (jn_ending _ _ _ J)|]. unfold unjoined. by rewrite Hr.
Qed.

Lemma child_index w i n h l : take (S n) (drop i (g_children (w_group w))) = h :: l ->
  g_children (w_group w) !! i = Some h /\ take n (drop (S i) (g_children (w_group w))) = l.
Proof.
  intros Hl. destruct (g_children (w_group w) !! i) as [x|] eqn:Hi.
  - rewrite (drop_S _ _ _ Hi) in Hl. by injection Hl as -> ->.
  - apply lookup_ge_None_1 in Hi. by rewrite drop_ge in Hl.
Qed.

(** The loop of [cancel_all]: it stops at the first child still running. *)
Lemma cancel_joins_run P stop boom n : forall i w l, take n (drop i (g_children (w_group w))) = l -> length l = n ->
  base w -> NoDup (nz l) ->
  (forall h, h ∈ nz l -> unjoined w h /\ match ending w h with Some _ => P h | None => stop h end) ->
  exists w' res, cancel_joins i n w = Some (Ok res, w') /\ loop_post P stop boom i l w w' (Ok res).
Proof.
  induction n as [|n IH]; intros i w l Hl Hlen B Hnd Hun.
  { destruct l; [|done]. exists w, None. split; [done|]. exists 0%nat. split; [set_solver|]. split; [done|apply joins_refl]. }
  destruct l as [|h l]; [done|]. injection Hlen as Hlen. destruct (child_index w i n h l Hl) as [Hi Hl'].
  cbn [cancel_joins]. exec (child_at_run i h w Hi). destruct (Z.eqb_spec h 0) as [Hz|Hz].
  { assert (Hnz : forall x, nz (h :: x) = [] ++ nz x) by (intros x; by rewrite nz_cons, Hz). rewrite Hnz in Hnd, Hun.
    destruct (IH (S i) w l Hl' Hlen B Hnd Hun) as (w' & res & Hw & Hres). exists w', res. split; [done|].
    eapply (loop_post_cons _ _ _ i h l w w w' []); [done|apply joins_refl|done|set_solver|done]. }
  assert (Hnz : forall x, nz (h :: x) = [h] ++ nz x) by (intros x; by rewrite nz_cons, (proj2 (Z.eqb_neq _ _) Hz)).
  rewrite Hnz in Hnd, Hun. apply NoDup_cons in Hnd as [Hh Hnd].
  destruct (Hun h ltac:(by left)) as [(r & Hr & Hj) Hend].
  destruct (row_cases w h r B Hr) as [(? & _)|(_ & f & hook & Hf & Hc)]; [congruence|]. destruct (ending w h) as [e|] eqn:He.
  - destruct (join_ready h r f e w B (ready_of _ _ _ _ _ _ Hr Hj Hf Hc)) as [Hjn J]. exec Hjn.
    set (w1 := joined_world h f r e w) in *.
    destruct (IH (S i) w1 l Hl' Hlen (jn_base _ _ _ J B) Hnd) as (w' & res & Hw & Hres).
    { intros x Hx. destruct (joins_rest w w1 h x B J) as (_ & -> & Hu); [by intros ->|]. rewrite Hu. apply Hun. by right. }
    exists w', res. split; [done|]. eapply (loop_post_cons _ _ _ i h l w w1 w' [h]); [done|done|done|by intros x ->%list_elem_of_singleton|done].
  - unfold mbind, M_bind. rewrite (join_run h f r hook None w Hr Hj Hf Hc). exists w, (Some i). split; [done|].
    exists 0%nat. split; [set_solver|]. split; [lia|]. split; [by exists h|apply joins_refl].
Qed.

(** The loop of [scope_join]: it passes over joined rows, and stops at the
    first child still running or the first panic nobody saw. *)
Lemma scope_joins_run P stop boom line col n : forall i w l, take n (drop i (g_children (w_group w))) = l -> length l = n ->
  base w -> NoDup (nz l) ->
  (forall h, h ∈ nz l -> is_Some (w_rows w !! h) /\ (~ unjoined w h -> P h) /\ (unjoined w h ->
    match ending w h with
    | Some (s, text) => if s =? BREW_PANICKED then boom h (take 599 (escalated text)) line col else P h
    | None => stop h
    end)) ->
  exists w' res, scope_joins line col i n w = Some (res, w') /\ loop_post P stop boom i l w w' res.
Proof.
  induction n as [|n IH]; intros i w l Hl Hlen B Hnd Hrows.
  { destruct l; [|done]. exists w, (Ok None). split; [done|]. exists 0%nat. split; [set_solver|]. split; [done|apply joins_refl]. }
  destruct l as [|h l]; [done|]. injection Hlen as Hlen. destruct (child_index w i n h l Hl) as [Hi Hl'].
  cbn [scope_joins]. exec (child_at_run i h w Hi). destruct (Z.eqb_spec h 0) as [Hz|Hz].
  { assert (Hnz : forall x, nz (h :: x) = [] ++ nz x) by (intros x; by rewrite nz_cons, Hz). rewrite Hnz in Hnd, Hrows.
    destruct (IH (S i) w l Hl' Hlen B Hnd Hrows) as (w' & res & Hw & Hres). exists w', res. split; [done|].
    eapply (loop_post_cons _ _ _ i h l w w w' []); [done|apply joins_refl|done|set_solver|done]. }
  assert (Hnz : forall x, nz (h :: x) = [h] ++ nz x) by (intros x; by rewrite nz_cons, (proj2 (Z.eqb_neq _ _) Hz)).
  rewrite Hnz in Hnd, Hrows. apply NoDup_cons in Hnd as [Hh Hnd].
  destruct (Hrows h ltac:(by left)) as ([r Hr] & Hjoined & Hun). exec (row_at_run h w r Hr).
  assert (Hgo : forall w1, joins w w1 [h] -> P h ->
    exists w' res, scope_joins line col (S i) n w1 = Some (res, w') /\ loop_post P stop boom i (h :: l) w w' res).
  { intros w1 J HP. destruct (IH (S i) w1 l) as (w' & res & Hw & Hres); [|done|by apply (jn_base _ _ _ J)|done| |].
    - destruct (jn_same _ _ _ J) as (-> & _). done.
    - intros x Hx. destruct (joins_rest w w1 h x B J) as (-> & -> & Hu); [by intros ->|]. rewrite Hu. apply Hrows. by right.
    - exists w', res. split; [done|]. eapply (loop_post_cons _ _ _ i h l w w1 w' [h]); [done|done|done|by intros x ->%list_elem_of_singleton|done]. }
  destruct (row_cases w h r B Hr) as [(Hj & Hf & _)|(Hj & f & hook & Hf & Hc)].
  { rewrite Hj. apply Hgo; [by apply (joins_skip w h r)|]. apply Hjoined. intros (x & Hx & ?). congruence. }
  rewrite Hj. specialize (Hun ltac:(by exists r)). destruct (ending w h) as [[s text]|] eqn:He.
  - destruct (join_ready h r f (s, text) w B (ready_of _ _ _ _ _ _ Hr Hj Hf Hc)) as [Hjn J]. exec Hjn. cbn [fst].
    exec (row_at_run h (joined_world h f r (s, text) w) _ (lookup_insert_eq _ _ _)). destruct (s =? BREW_PANICKED); [|by apply Hgo].
    eexists _, _. split; [done|]. exists 0%nat. split; [set_solver|]. split; [by exists h|]. cbn [take]. by rewrite Hnz.
  - unfold mbind at 1, M_bind at 1. rewrite (join_run h f r hook None w Hr Hj Hf Hc). eexists w, (Ok (Some i)). split; [done|].
    exists 0%nat. split; [set_solver|]. split; [lia|]. split; [by exists h|apply joins_refl].
Qed.

(** ** Panics that do not happen

    [d1] and [d2] say which deinit bodies panic.  A stretch of code that runs
    under [d1] runs the same under [d2] when the two agree on the references
    it has released. *)

Create HintDb follows.

Section follows.
Context (d1 d2 : Z -> option str).

Definition longer w w' : Prop := exists l, w_released w' = w_released w ++ l.
Definition agree w : Prop := forall p, p ∈ w_released w -> d1 p = d2 p.
Definition follows {A} (m1 m2 : M A) : Prop :=
  forall w res w', m1 w = Some (res, w') -> longer w w' /\ (agree w' -> m2 w = Some (res, w')).

#[local] Instance longer_preorder : PreOrder longer.
Proof.
  split; [intros w; exists []; by rewrite app_nil_r|]. intros w1 w2 w3 [l Hl] [l' Hl']. exists (l ++ l'). by rewrite Hl', Hl, app_assoc.
Qed.

Lemma longer_agree w w' : longer w w' -> agree w' -> agree w.
Proof. intros [l Hl] Ha p Hp. apply Ha. rewrite Hl. apply elem_of_app. by left. Qed.

Lemma follows_bind {A B} (m1 m2 : M A) (k1 k2 : A -> M B) :
  follows m1 m2 -> (forall a, follows (k1 a) (k2 a)) -> follows (m1 ≫= k1) (m2 ≫= k2).
Proof.
  intros Hm Hk w res w' Hrun. unfold mbind, M_bind in *. destruct (m1 w) as [[r1 w1]|] eqn:H1; [|done]. cbn in Hrun.
  destruct (Hm w r1 w1 H1) as [Hl1 Ha1]. destruct r1 as [a|t ln c].
  - destruct (Hk a w1 res w' Hrun) as [Hl2 Ha2]. split; [by etrans|]. intros Ha.
    rewrite (Ha1 (longer_agree _ _ Hl2 Ha)). cbn. auto.
  - injection Hrun as <- <-. split; [done|]. intros Ha. by rewrite (Ha1 Ha).
Qed.

Lemma follows_same {A} (m : M A) : (forall w res w', m w = Some (res, w') -> w_released w' = w_released w) -> follows m m.
Proof. intros Hm w res w' Hrun. split; [exists []; by rewrite app_nil_r, (Hm _ _ _ Hrun)|done]. Qed.

Lemma follows_ret {A} (a : A) : follows (mret a) (mret a).
Proof. apply follows_same. by intros w res w' [= _ <-]. Qed.
Lemma follows_get : follows get get.
Proof. apply follows_same. by intros w res w' [= _ <-]. Qed.
Lemma follows_lift {A} (o : option A) : follows (lift o) (lift o).
Proof. apply follows_same. unfold lift. destruct o; [|done]. by intros w res w' [= _ <-]. Qed.
Lemma follows_panic {A} (text : str) (line col : Z) : follows (panic (A := A) text line col) (panic text line col).
Proof. apply follows_same. by intros w res w' [= _ <-]. Qed.
Lemma follows_fault {A} : follows (fault (A := A)) fault.
Proof. by apply follows_same. Qed.
Lemma follows_modify (f : world -> world) : (forall w, longer w (f w)) -> follows (modify f) (modify f).
Proof. intros Hf w res w' [= <- <-]. split; [apply Hf|done]. Qed.

Lemma release_follows p : follows (beans_release d1 p) (beans_release d2 p).
Proof.
  unfold beans_release. destruct (p =? 0); [apply follows_ret|]. intros w res w' Hrun.
  unfold modify, mbind, M_bind in *. cbn in *. set (w1 := with_released (w_released w ++ [p]) w) in *.
  assert (w' = w1) as -> by (destruct (d1 p); by injection Hrun as _ <-). split; [by exists [p]|].
  intros Ha. assert (Hp : p ∈ w_released w1) by (apply elem_of_app; right; by left). by rewrite <-(Ha p Hp).
Qed.

Lemma release_all_follows ps : follows (release_all d1 ps) (release_all d2 ps).
Proof.
  induction ps as [|p ps IH]; [apply follows_ret|]. intros w res w' Hrun. cbn [release_all] in *.
  destruct (beans_release d1 p w) as [[r1 w1]|] eqn:H1; [|done]. cbn in Hrun.
  destruct (release_follows p w r1 w1 H1) as [Hl1 Ha1].
  assert (Hin : exists a2, release_all d1 ps w1 = Some (a2, w') /\ match r1, a2 with
      | Ok _, _ => res = a2 | Panic t l c, Ok _ => res = Panic t l c | _, _ => False end).
  { destruct r1 as [u|t l c]; [eauto|]. destruct (release_all d1 ps w1) as [[[u|t2 l2 c2] w2]|]; [|done..].
    injection Hrun as <- <-. by exists (Ok u). }
  destruct Hin as (a2 & H2 & Hres). destruct (IH w1 a2 w' H2) as [Hl2 Ha2]. split; [by etrans|]. intros Ha.
  rewrite (Ha1 (longer_agree _ _ Hl2 Ha)). cbn. specialize (Ha2 Ha).
  destruct r1; [by rewrite Ha2, Hres|]. rewrite Ha2. destruct a2; [by rewrite Hres|done].
Qed.

#[local] Hint Resolve release_follows release_all_follows follows_ret follows_get follows_lift @follows_panic @follows_fault : follows.
#[local] Hint Unfold row_at set_row group set_group release_row release_box taskgroup_child_done beans_fiber_resume child_settles : follows.

Ltac follow_leaf := first [solve [eauto with follows] | apply follows_modify; intros ?; first [exists []; by rewrite app_nil_r | by eexists]].
Ltac follow :=
  repeat match goal with
  | |- forall _, _ => intros ?
  | |- follows (mbind _ _) (mbind _ _) => apply follows_bind
  | |- follows (match ?x with _ => _ end) _ => destruct x
  | |- _ => follow_leaf
  | |- follows ?m _ =>
      let f := match m with ?f _ _ _ _ _ _ => f | ?f _ _ _ _ _ => f | ?f _ _ _ _ => f | ?f _ _ _ => f | ?f _ _ => f | ?f _ => f | ?f => f end in unfold f
  end.

Lemma release_row_follows h : follows (release_row d1 h) (release_row d2 h).
Proof. follow. Qed.
#[local] Hint Resolve release_row_follows : follows.

Lemma drop_result_follows h : follows (brew_drop_result d1 h) (brew_drop_result d2 h).
Proof. follow. Qed.
#[local] Hint Resolve drop_result_follows : follows.

Lemma child_settles_follows f status text : follows (child_settles f status text) (child_settles f status text).
Proof. follow. Qed.

Lemma brew_main_follows h v : follows (brew_main d1 h v) (brew_main d2 h v).
Proof. follow. Qed.

Lemma pick_from_follows l : forall i best, follows (pick_from l i best) (pick_from l i best).
Proof. induction l as [|p l IH]; intros i best; cbn [pick_from]; follow. Qed.
Lemma pending_from_follows l : follows (pending_from l) (pending_from l).
Proof. induction l as [|p l IH]; cbn [pending_from]; follow. Qed.
Lemma wait_joins_follows l : forall i bad, follows (wait_joins l i bad) (wait_joins l i bad).
Proof. induction l as [|p l IH]; intros i bad; cbn [wait_joins]; follow. Qed.
Lemma wait_discard_follows bad n : follows (wait_discard d1 bad n) (wait_discard d2 bad n).
Proof. induction n as [|n IH]; cbn [wait_discard]; follow. Qed.
Lemma collect_from_follows elem n : forall i, follows (collect_from d1 elem i n) (collect_from d2 elem i n).
Proof. induction n as [|n IH]; intros i; cbn [collect_from]; follow. Qed.
Lemma request_cancel_follows n : follows (request_cancel n) (request_cancel n).
Proof. induction n as [|n IH]; cbn [request_cancel]; follow. Qed.
Lemma cancel_joins_follows n : forall i, follows (cancel_joins i n) (cancel_joins i n).
Proof. induction n as [|n IH]; intros i; cbn [cancel_joins]; follow. Qed.
Lemma cancel_discard_follows n : follows (cancel_discard d1 n) (cancel_discard d2 n).
Proof. induction n as [|n IH]; cbn [cancel_discard]; follow. Qed.
Lemma scope_joins_follows line col n : forall i, follows (scope_joins line col i n) (scope_joins line col i n).
Proof. induction n as [|n IH]; intros i; cbn [scope_joins]; follow. Qed.
Lemma scope_discard_follows n : follows (scope_discard d1 n) (scope_discard d2 n).
Proof. induction n as [|n IH]; cbn [scope_discard]; follow. Qed.
#[local] Hint Resolve child_settles_follows brew_main_follows pick_from_follows pending_from_follows wait_joins_follows wait_discard_follows
  collect_from_follows request_cancel_follows cancel_joins_follows cancel_discard_follows scope_joins_follows scope_discard_follows : follows.

Context (elem : flavor).

Definition follows_opt {A} (o1 o2 : option (M A)) : Prop :=
  match o1, o2 with Some m1, Some m2 => follows m1 m2 | None, None => True | _, _ => False end.

Lemma owner_op_follows ev : follows_opt (owner_op d1 elem ev) (owner_op d2 elem ev).
Proof. destruct ev; cbn [owner_op follows_opt]; try exact I; follow. Qed.

Lemma back_op_follows w x : follows_opt (back_op d1 elem w x) (back_op d2 elem w x).
Proof.
  unfold back_op. destruct (x && w_unwinding w); [exact I|].
  destruct (w_pc w); try exact I; try (cbn [follows_opt]; follow; fail);
    destruct (waits_for w _); try exact I; cbn [mbind option_bind];
    (destruct (x && negb _); cbn [follows_opt]; follow).
Qed.

Lemma owner_runs_follows m1 m2 w w' a : follows m1 m2 -> owner_runs m1 w = Some (w', a) ->
  longer w w' /\ (agree w' -> owner_runs m2 w = Some (w', a)).
Proof.
  intros Hm. unfold owner_runs. destruct (m1 w) as [[res w1]|] eqn:H1; [|done]. cbn. intros Hrun. destruct (Hm w res w1 H1) as [Hl Ha].
  assert (w_released w' = w_released w1) as Hw'.
  { destruct res as [[[]|]|]; cbn in Hrun; try (by injection Hrun as <- _). destruct (w_unwinding w1); by injection Hrun as <- _. }
  assert (Hs : agree w' -> agree w1) by (unfold agree; by rewrite Hw').
  split; [destruct Hl as [l Hl]; exists l; by rewrite Hw'|]. intros Hag. by rewrite (Ha (Hs Hag)).
Qed.

Lemma child_runs_follows m1 m2 w w' a : follows m1 m2 -> child_runs m1 w = Some (w', a) ->
  longer w w' /\ (agree w' -> child_runs m2 w = Some (w', a)).
Proof.
  intros Hm. unfold child_runs. destruct (m1 w) as [[res w1]|] eqn:H1; [|done]. cbn. destruct (Hm w res w1 H1) as [Hl Ha].
  destruct res; [|done]. intros [= <- <-]. split; [done|]. intros Hag. by rewrite (Ha Hag).
Qed.

Lemma child_returns_follows f v : follows (child_returns d1 f v) (child_returns d2 f v).
Proof.
  intros w res w' Hrun. unfold child_returns in *. destruct (w_fibers w !! f) as [c|]; [|done]. cbn in *.
  destruct (brew_main d1 (ch_row c) v w) as [[r1 w1]|] eqn:H1; [|done]. cbn in Hrun.
  destruct (brew_main_follows (ch_row c) v w r1 w1 H1) as [Hl1 Ha1].
  assert (Hin : exists status text, child_settles f status text w1 = Some (res, w') /\
     (match r1 with Ok _ => child_settles f BREW_OK [] w1 | Panic t _ _ => child_settles f BREW_PANICKED t w1 end) = Some (res, w')).
  { destruct r1; eauto. }
  destruct Hin as (status & text & Hset & Hm). destruct (child_settles_follows f status text w1 res w' Hset) as [Hl2 _].
  split; [by etrans|]. intros Ha. by rewrite (Ha1 (longer_agree _ _ Hl2 Ha)).
Qed.

(** The owner's calls. *)
Definition owner_event (ev : event) : bool :=
  match ev with EBack _ | EReturn _ _ | EPanic _ _ | ECancelled _ => false | _ => true end.

(** A step under [d1] is the step under [d2]. *)
Lemma step_follows w ev w' a : step d1 elem w ev = Some (w', a) -> longer w w' /\ (agree w' -> step d2 elem w ev = Some (w', a)).
Proof.
  assert (Howner : forall o1 o2, follows_opt o1 o2 -> (m ← o1; owner_runs m w) = Some (w', a) ->
    longer w w' /\ (agree w' -> (m ← o2; owner_runs m w) = Some (w', a))).
  { intros [m1|] [m2|] Hm; try done. cbn. by apply owner_runs_follows. }
  assert (Hcall : owner_event ev = true -> step d1 elem w ev = Some (w', a) -> longer w w' /\ (agree w' -> step d2 elem w ev = Some (w', a))).
  { intros Ho. assert (Hs : forall d, step d elem w ev = match w_pc w with
        | PIdle => if w_unwinding w && negb (cleanup ev) then None else m ← owner_op d elem ev; owner_runs m w | _ => None end)
      by (intros d; by destruct ev).
    rewrite !Hs. destruct (w_pc w); try done. destruct (_ && _); [done|]. apply Howner, owner_op_follows. }
  destruct ev; try (by apply Hcall); unfold step.
  - apply Howner, back_op_follows.
  - destruct (running w f); [|done]. apply child_runs_follows, child_returns_follows.
  - destruct (running w f); [|done]. apply child_runs_follows, child_settles_follows.
  - destruct (running w f); [|done]. apply child_runs_follows, child_settles_follows.
Qed.
End follows.
