(* ===== verification/TaskGroupTheorems.v ===== *)
(** * TaskGroupTheorems: what a fleet promises the fiber that owns it

    The owner sees its fleet as the rows in spawn order and the queue of the
    finished ones in completion order.  [promise] is what each call may answer
    and what it leaves behind, references included.  As long as no deinit body
    that a release runs panics ([tame]), every reachable state keeps it, no row
    is touched after its release, every reference is given up once, and a
    parked owner is woken; the examples at the end show the two entries that a
    panicking body makes fail. *)

From stdpp Require Import gmap.
From Stdlib Require Import Sorted.
From S2P Require Import Prelude TaskGroup TaskGroupProofs.

Open Scope c_scope.

Implicit Types (w : world) (r : BBrew) (h f : Z) (l q : list Z).

#[local] Arguments refs : simpl never.
#[local] Arguments row_refs : simpl never.

(** ** The abstract fleet *)

(** A row as its owner sees it: how it ended, the references a discard gives
    up, and those left to give up once the result is claimed. *)
Record seen : Type := mkSeen { s_row : Z; s_end : option outcome; s_given : list Z; s_left : list Z }.

Definition given w h : list Z :=
  match w_rows w !! h, ending w h with
  | Some r, Some (s, _) => if s =? BREW_OK then result_refs r ++ refs [b_env r] else row_refs r
  | _, _ => []
  end.

Definition left_over w h : list Z :=
  match w_rows w !! h, ending w h with
  | Some r, Some (s, _) =>
      if (s =? BREW_OK) && match b_kind r with Narrow _ => true | Wide _ => false end then refs [b_env r] else given w h
  | _, _ => []
  end.

Definition see w h : seen := mkSeen h (outcome_of w h) (given w h) (left_over w h).
Definition view w : list seen := see w <$> rows_of w.

(** The finished rows, the first to finish first. *)
Record queue_ok w q : Prop := {
  qu_in : forall h, h ∈ q <-> h ∈ rows_of w /\ stamp w h <> 0;
  qu_sorted : StronglySorted (fun a b => stamp w a < stamp w b) q
}.

Inductive call : Type :=
  | CNext
  | CTry
  | CTryAgain
  | CWait
  | CCancel
  | CScope (line col : Z).

Definition ended (s : seen) : Prop := is_Some (s_end s).
Definition panicked (s : seen) : Prop := exists text, s_end s = Some (Failed BREW_PANICKED text).

Inductive promise (unwinding : bool) (rows : list seen) : list Z -> call -> answer -> list Z -> list seen -> list Z -> Prop :=
  | P_row c a s b q o :
      c = CNext \/ c = CTry \/ c = CTryAgain -> rows = a ++ s :: b -> s_end s = Some o ->
      promise unwinding rows (s_row s :: q) c (ARow (s_row s) o) (s_left s) (a ++ b) q
  | P_none c : c = CNext \/ c = CTry -> rows = [] -> promise unwinding rows [] c ANone [] [] []
  | P_not_yet : promise unwinding rows [] CTryAgain ANone [] rows []
  | P_next_parks c : c = CNext \/ c = CTry -> rows <> [] -> promise unwinding rows [] c AParked [] rows []
  | P_list q vs : Forall2 (fun s v => s_end s = Some (Got v)) rows vs ->
      promise unwinding rows q CWait (AList vs) (rows ≫= s_left) [] []
  | P_failed q a s b status text : rows = a ++ s :: b -> Forall (fun s => exists v, s_end s = Some (Got v)) a ->
      s_end s = Some (Failed status text) -> Forall ended b ->
      promise unwinding rows q CWait (ARow (s_row s) (Failed status text)) ((rev (a ++ b) ≫= s_given) ++ s_given s) [] []
  | P_wait_parks q : Exists (fun s => s_end s = None) rows -> promise unwinding rows q CWait AParked [] rows q
  | P_cancelled_all q : Forall ended rows -> promise unwinding rows q CCancel ADone (rev rows ≫= s_given) [] []
  | P_cancel_parks q : Exists (fun s => s_end s = None) rows -> promise unwinding rows q CCancel AParked [] rows q
  | P_scope_ends q line col : Forall ended rows -> (unwinding = false -> Forall (fun s => ~ panicked s) rows) ->
      promise unwinding rows q (CScope line col) ADone (rev rows ≫= s_given) [] []
  | P_scope_parks q line col : Exists (fun s => s_end s = None) rows ->
      promise unwinding rows q (CScope line col) AParked [] rows q
  | P_scope_panics q line col a s b text : rows = a ++ s :: b -> Forall ended a ->
      (unwinding = false -> Forall (fun s => ~ panicked s) a) -> s_end s = Some (Failed BREW_PANICKED text) ->
      promise unwinding rows q (CScope line col) (APanic (take 599 (escalated text)) line col) [] rows q.

(** ** The invariant *)

Definition passed w h : Prop := exists e, ending w h = Some e /\ (w_unwinding w = false -> fst e <> BREW_PANICKED).

Definition all_unjoined w : Prop := forall h, h ∈ rows_of w -> unjoined w h.

Definition child_nth w (i : nat) (h : Z) : Prop := g_children (w_group w) !! i = Some h /\ h <> 0.

Definition joined w h : Prop := exists r, w_rows w !! h = Some r /\ b_fiber r = None.

(** What holds while the owner is at [p]. *)
Definition at_pc (p : pc) w : Prop :=
  match p with
  | PIdle => g_waiter (w_group w) = None /\ (w_unwinding w = false -> all_unjoined w)
  | PTry => g_waiter (w_group w) = None /\ all_unjoined w
  | PDead => g_waiter (w_group w) = None
  | PNext => all_unjoined w /\
      if w_woken w then g_waiter (w_group w) = None
      else g_waiter (w_group w) = Some (w_self w) /\ rows_of w <> [] /\ forall h, h ∈ rows_of w -> stamp w h = 0
  | PWait => all_unjoined w /\
      if w_woken w then g_waiter (w_group w) = None
      else g_waiter (w_group w) = Some (w_self w) /\ exists h, h ∈ rows_of w /\ stamp w h = 0
  | PCancel i => g_waiter (w_group w) = None /\ (exists h, child_nth w i h) /\
      (forall j h, (j < i)%nat -> child_nth w j h -> joined w h) /\
      (forall j h, (i <= j)%nat -> child_nth w j h -> unjoined w h)
  | PScope i _ _ => g_waiter (w_group w) = None /\ (exists h, child_nth w i h /\ unjoined w h) /\
      (forall j h, (j < i)%nat -> child_nth w j h -> joined w h /\ passed w h) /\
      (w_unwinding w = false -> forall j h, (i <= j)%nat -> child_nth w j h -> unjoined w h)
  | PJoin h | PScopeOne h _ _ => g_waiter (w_group w) = None /\ (w_unwinding w = false -> all_unjoined w) /\
      unjoined w h /\ h ∉ rows_of w
  end.

Section fleets.
Context (deinit_panic : Z -> option str) (Hquiet : forall p, deinit_panic p = None) (elem : flavor).

Definition inv w : Prop := base w /\ fleet elem w /\ at_pc (w_pc w) w.

(** ** What joins and removals leave to see *)

Lemma see_joins w w' l h : base w -> joins w w' l -> is_Some (w_rows w !! h) -> see w' h = see w h.
Proof.
  intros B J [r Hr]. destruct (jn_row _ _ _ J h r Hr) as (r' & Hr' & Hk & Hrr & Hres & Henv & _).
  unfold see, left_over, given. by rewrite (jn_outcome _ _ _ J h B), (jn_ending _ _ _ J h B), Hr, Hr', Hk, Hrr, Hres, Henv.
Qed.

Lemma rows_joins w w' l : joins w w' l -> rows_of w' = rows_of w.
Proof. intros J. unfold rows_of. by destruct (jn_same _ _ _ J) as (-> & _). Qed.

Lemma view_joins w w' l : base w -> fleet elem w -> joins w w' l -> view w' = view w.
Proof.
  intros B F J. unfold view. rewrite (rows_joins _ _ _ J). apply list_fmap_ext. intros i h Hh%list_elem_of_lookup_2.
  apply (see_joins _ _ _ _ B J). destruct (fl_row _ _ F h Hh) as (r & Hr & _). eauto.
Qed.

Lemma stamp_joins w w' l h : joins w w' l -> is_Some (w_rows w !! h) -> stamp w' h = stamp w h.
Proof.
  intros J [r Hr]. destruct (jn_row _ _ _ J h r Hr) as (r' & Hr' & _ & _ & _ & _ & Hst & _). unfold stamp. by rewrite Hr, Hr'.
Qed.

Lemma sorted_stamps w w' q : (forall h, h ∈ q -> stamp w' h = stamp w h) -> StronglySorted (fun a b => stamp w a < stamp w b) q ->
  StronglySorted (fun a b => stamp w' a < stamp w' b) q.
Proof.
  intros Hst Hs. induction Hs as [|h q Hs IH Hh]; [constructor|]. constructor; [apply IH; intros x Hx; apply Hst; by right|].
  rewrite Forall_forall in Hh |- *. intros x Hx. rewrite !Hst; [by apply Hh|by right|by left].
Qed.

Lemma queue_joins w w' l q : base w -> fleet elem w -> joins w w' l -> queue_ok w q -> queue_ok w' q.
Proof.
  intros B F J [Hin Hs]. assert (Hst : forall h, h ∈ rows_of w -> stamp w' h = stamp w h).
  { intros h Hh. apply (stamp_joins _ _ _ _ J). destruct (fl_row _ _ F h Hh) as (r & Hr & _). eauto. }
  split.
  - intros h. rewrite Hin, (rows_joins _ _ _ J). split; intros [? ?]; (split; [done|]); [by rewrite Hst|by rewrite <-Hst].
  - apply (sorted_stamps w); [|done]. intros h Hh. apply Hst. by apply Hin.
Qed.

(** A row that keeps its record, and its child the fiber's. *)
Lemma ending_same w w' h : w_rows w' !! h = w_rows w !! h ->
  (forall r f, w_rows w !! h = Some r -> b_fiber r = Some f -> w_fibers w' !! f = w_fibers w !! f) -> ending w' h = ending w h.
Proof.
  intros Hr Hf. unfold ending. rewrite Hr. destruct (w_rows w !! h) as [r|]; [|done]. cbn. destruct (b_fiber r) as [f|] eqn:Hfr; [|done].
  by rewrite (Hf r f).
Qed.

Lemma see_same w w' h : w_rows w' !! h = w_rows w !! h -> ending w' h = ending w h -> see w' h = see w h.
Proof. intros Hr He. unfold see, outcome_of, given, left_over. unfold given. by rewrite Hr, He. Qed.

Lemma given_joined w h r : w_rows w !! h = Some r -> b_fiber r = None -> given w h = discarded r.
Proof. intros Hr Hf. unfold given. rewrite Hr, (ending_row _ _ _ Hr), Hf. done. Qed.

Lemma left_joined w h r : w_rows w !! h = Some r -> b_fiber r = None ->
  left_over w h = if (b_status r =? BREW_OK) && match b_kind r with Narrow _ => true | Wide _ => false end then refs [b_env r] else discarded r.
Proof. intros Hr Hf. unfold left_over. rewrite Hr, (ending_row _ _ _ Hr), Hf. by rewrite (given_joined w h r Hr Hf). Qed.

(** ** Taking one finished row *)

Lemma nz_split l i h : l !! i = Some h -> h <> 0 ->
  nz l = nz (take i l) ++ h :: nz (drop (S i) l) /\ nz (<[i := 0]> l) = nz (take i l) ++ nz (drop (S i) l).
Proof.
  intros Hi Hh. split.
  - rewrite <-(take_drop_middle l i h Hi) at 1. by rewrite nz_app, nz_cons, (proj2 (Z.eqb_neq _ _) Hh).
  - rewrite insert_take_drop by (by eapply lookup_lt_Some). by rewrite nz_app, nz_cons.
Qed.

Lemma in_middle (a b : list Z) h x : x ∈ a ++ h :: b <-> x = h \/ x ∈ a ++ b.
Proof. rewrite !elem_of_app, elem_of_cons. tauto. Qed.

(** The group after the row at [i] is detached. *)
Definition detached w (i : nat) : BTaskGroup :=
  let g := w_group w in
  if g_delivered g + 1 =? slen (g_children g) then mkGroup [] 0 (g_clock g) (g_waiter g)
  else mkGroup (<[i := 0]> (g_children g)) (g_delivered g + 1) (g_clock g) (g_waiter g).

Lemma detach_run w i h : g_children (w_group w) !! i = Some h -> taskgroup_detach i w = Some (Ok h, with_group (detached w i) w).
Proof.
  intros Hi. unfold taskgroup_detach, detached, group, get, lift, mbind, M_bind. cbn. rewrite Hi. cbn. by destruct (_ =? _).
Qed.

(** The rows left after [h] is detached, and the counts. *)
Lemma detached_rows w i h : fleet elem w -> child_nth w i h -> exists a b, rows_of w = a ++ h :: b /\
  nz (g_children (detached w i)) = a ++ b /\
  g_delivered (detached w i) + slen (a ++ b) = slen (g_children (detached w i)) /\
  (g_children (detached w i) <> [] -> a ++ b <> []) /\
  g_clock (detached w i) = g_clock (w_group w) /\ g_waiter (detached w i) = g_waiter (w_group w).
Proof.
  intros F [Hi Hh]. destruct (nz_split _ _ _ Hi Hh) as [Hab Hab'].
  set (a := nz (take i _)) in *. set (b := nz (drop _ _)) in *. exists a, b. split; [done|].
  pose proof (fl_delivered _ _ F) as Hd. unfold rows_of in Hd. rewrite Hab, !slen_app, slen_cons in Hd.
  unfold detached. pose proof (slen_nonneg a). pose proof (slen_nonneg b). rewrite slen_app. destruct (Z.eqb_spec (g_delivered (w_group w) + 1) (slen (g_children (w_group w)))).
  - assert (a = [] /\ b = []) as [-> ->] by (split; apply nil_length_inv; unfold slen in *; lia). done.
  - cbn. split_and!; [done| | |done|done].
    + unfold slen in *. rewrite length_insert. lia.
    + intros _ Hnil. apply app_nil in Hnil as [-> ->]. unfold slen in *. cbn in *. lia.
Qed.

(** The world after the row is claimed. *)
Definition taken w i h f r (e : Z * str) : world :=
  claimed_world h (set_joined (fst e) (snd e) r) (joined_world h f r e (with_group (detached w i) w)).

Lemma deliver_run w i h r f e p : base w -> child_nth w i h -> ready_row w h r f e ->
  (deliver i ≫= after_next deinit_panic p) w =
    Some (Ok (inl (ARow h (if fst e =? BREW_OK then Got (result_of r) else Failed (fst e) (snd e)))), taken w i h f r e).
Proof.
  intros B [Hi Hh] Hrdy. unfold deliver. set (w1 := with_group (detached w i) w).
  assert (B1 : base w1) by (by eapply base_ext).
  assert (Hd : (h ← taskgroup_detach i; _ ← join_finished h; mret (NRow h)) w = Some (Ok (NRow h), joined_world h f r e w1)).
  { exec (detach_run w i h Hi). by exec (join_finished_run h r f e w1 B1 Hrdy). }
  exec Hd. unfold after_next. by exec (claim_row_run deinit_panic Hquiet h (set_joined (fst e) (snd e) r) (joined_world h f r e w1) (lookup_insert_eq _ _ _)).
Qed.

Lemma taken_rows w i h f r e x : x <> h -> w_rows (taken w i h f r e) !! x = w_rows w !! x.
Proof. intros Hx. cbn. by rewrite lookup_delete_ne, lookup_insert_ne. Qed.

Lemma taken_ending w i h f r e x : base w -> ready_row w h r f e -> x <> h -> ending (taken w i h f r e) x = ending w x.
Proof.
  intros B (Hr & Hj & Hf & hook & Hc) Hx. apply ending_same; [by apply taken_rows|]. intros x' g Hx' Hg. cbn. rewrite lookup_delete_ne; [done|].
  intros <-. destruct (row_cases w x x' B Hx') as [(_ & ? & _)|(_ & g' & hook' & Hg' & Hc')]; congruence.
Qed.

Lemma taken_ok w i h r f e : base w -> fleet elem w -> child_nth w i h -> ready_row w h r f e ->
  base (taken w i h f r e) /\ fleet elem (taken w i h f r e) /\
  (exists a b, rows_of w = a ++ h :: b /\ rows_of (taken w i h f r e) = a ++ b) /\
  w_released (taken w i h f r e) = w_released w ++ left_over w h.
Proof.
  intros B F Hi Hrdy. pose proof Hrdy as (Hr & Hj & Hf & hook & Hc). set (w1 := with_group (detached w i) w).
  assert (B1 : base w1) by (by eapply base_ext).
  assert (B2 : base (joined_world h f r e w1)) by (by eapply base_join).
  assert (Hbase : base (taken w i h f r e)) by (apply base_claimed; [done|apply lookup_insert_eq|done]).
  destruct (detached_rows w i h F Hi) as (a & b & Hab & Hab' & Hdel & Hsome & Hck & _).
  assert (Hro : rows_of (taken w i h f r e) = a ++ b) by exact Hab'.
  assert (Hnd : NoDup (a ++ h :: b)) by (rewrite <-Hab; apply F). rewrite <-Permutation_middle in Hnd. apply NoDup_cons in Hnd as [Hh Hnd].
  assert (Hne : forall x, x ∈ rows_of (taken w i h f r e) -> x <> h /\ x ∈ rows_of w).
  { rewrite Hro, Hab. intros x Hx. split; [by intros ->|]. apply in_middle. by right. }
  split; [done|]. split; [|split; [by exists a, b|]].
  - apply (fleet_sub elem w); rewrite ?Hro; try done.
    + intros x Hx. apply Hne. by rewrite Hro.
    + intros x Hx. apply taken_rows. apply Hne. by rewrite Hro.
    + intros x Hx. apply taken_ending; [done|done|]. apply Hne. by rewrite Hro.
    + intros g c. cbn. intros [Hn Hg]%lookup_delete_Some. split; [done|]. rewrite Hab. intros Hin.
      assert (ch_row c <> h). { intros Heq. destruct (bs_fiber _ B _ _ Hg) as (x & Hx & Hgx). congruence. }
      by apply in_middle in Hin as [?|?].
  - cbn -[joined_world]. change (w_released (joined_world h f r e w1)) with (w_released w). f_equal.
    unfold left_over, given. rewrite Hr, (ending_row _ _ _ Hr), Hf, Hc. cbn. destruct e as [s t]. cbn.
    unfold discarded. cbn. by destruct (s =? BREW_OK).
Qed.

Lemma queue_head w h q : fleet elem w -> queue_ok w q -> h ∈ rows_of w -> stamp w h <> 0 ->
  (forall x, x ∈ rows_of w -> stamp w x <> 0 -> stamp w h <= stamp w x) -> exists q', q = h :: q'.
Proof.
  intros F [Hin Hs] Hh Hst Hmin. assert (Hq : h ∈ q) by (by apply Hin). destruct q as [|x q]; [set_solver|].
  exists q. f_equal. apply elem_of_cons in Hq as [->|Hq]; [done|]. inversion_clear Hs as [|? ? _ Hx]. rewrite Forall_forall in Hx. specialize (Hx h Hq).
  destruct (proj1 (Hin x) ltac:(by left)) as [Hxr Hxs]. specialize (Hmin x Hxr Hxs). lia.
Qed.

Lemma queue_taken w i h r f e q : base w -> fleet elem w -> child_nth w i h -> ready_row w h r f e ->
  queue_ok w (h :: q) -> queue_ok (taken w i h f r e) q.
Proof.
  intros B F Hi Hrdy [Hin Hs]. destruct (taken_ok w i h r f e B F Hi Hrdy) as (_ & _ & (a & b & Hab & Hab') & _).
  assert (Hnd : NoDup (a ++ h :: b)) by (rewrite <-Hab; apply F). rewrite <-Permutation_middle in Hnd. apply NoDup_cons in Hnd as [Hh Hnd].
  assert (Hst : forall x, x <> h -> stamp (taken w i h f r e) x = stamp w x) by (intros x Hx; unfold stamp; by rewrite taken_rows).
  inversion_clear Hs as [|? ? Hs' Hlt]. rewrite Forall_forall in Hlt.
  assert (Hq : forall x, x ∈ q -> x <> h) by (intros x Hx ->; specialize (Hlt h Hx); lia). split.
  - intros x. rewrite Hab'. split.
    + intros Hx. destruct (proj1 (Hin x) ltac:(by right)) as [Hxr Hxs]. rewrite Hab in Hxr. rewrite Hst by auto. split; [|done].
      apply in_middle in Hxr as [?|?]; [|done]. by destruct (Hq x Hx).
    + intros [Hx Hxs]. assert (x <> h) by (by intros ->). rewrite Hst in Hxs by done.
      assert (Hxq : x ∈ h :: q) by (apply Hin; split; [rewrite Hab; apply in_middle; by right|done]). by apply elem_of_cons in Hxq as [->|].
  - apply (sorted_stamps w); [|done]. intros x Hx. by apply Hst, Hq.
Qed.

(** ** The calls *)

Definition answer_of (res : result (answer + pc)) : answer :=
  match res with Ok (inl a) => a | Ok (inr _) => AParked | Panic t l c => APanic t l c end.

(** Where the owner is next; a panic promises [PDead]'s share. *)
Definition next_pc (res : result (answer + pc)) : pc :=
  match res with Ok (inl _) => PIdle | Ok (inr p) => p | Panic _ _ _ => PDead end.

(** What a call does to a state in order. *)
Definition op_ok w (c : call) (m : M (answer + pc)) : Prop := exists res w',
  m w = Some (res, w') /\ base w' /\ fleet elem w' /\ at_pc (next_pc res) w' /\ answer_of res <> ACancelled /\
  w_self w' = w_self w /\ w_unwinding w' = w_unwinding w /\
  forall q, queue_ok w q -> exists rel q', w_released w' = w_released w ++ rel /\ queue_ok w' q' /\
    promise (w_unwinding w) (view w) q c (answer_of res) rel (view w') q'.

Lemma rows_exist w h : fleet elem w -> h ∈ rows_of w -> is_Some (w_rows w !! h).
Proof. intros F Hh. destruct (fl_row _ _ F h Hh) as (r & Hr & _). eauto. Qed.

Lemma ready_ended w h : base w -> unjoined w h -> ending w h <> None -> exists r f e, ready_row w h r f e /\ ending w h = Some e.
Proof.
  intros B (r & Hr & Hj) He. destruct (row_cases w h r B Hr) as [(? & _)|(_ & f & hook & Hf & Hc)]; [congruence|].
  destruct (ending w h) as [e|]; [|done]. exists r, f, e. split; [|done]. by eapply ready_of.
Qed.

Lemma ready_finished w h : base w -> fleet elem w -> h ∈ rows_of w -> unjoined w h -> stamp w h <> 0 ->
  exists r f e, ready_row w h r f e.
Proof.
  intros B F Hh Hu Hs. destruct (ready_ended w h B Hu) as (r & f & e & ? & _); [|by exists r, f, e].
  intros He. by apply (fl_runs _ _ F h Hh) in He.
Qed.

Lemma queue_nil w q : queue_ok w q -> (forall h, h ∈ rows_of w -> stamp w h = 0) -> q = [].
Proof.
  intros [Hin _] Hz. destruct q as [|h q]; [done|]. destruct (proj1 (Hin h) ltac:(by left)) as [Hh Hs]. by specialize (Hz h Hh).
Qed.

Lemma view_nil w : view w = [] <-> rows_of w = [].
Proof. unfold view. split; [apply fmap_nil_inv|by intros ->]. Qed.

(** A finished row is handed over. *)
Lemma deliver_ok w c p i h : base w -> fleet elem w -> g_waiter (w_group w) = None -> all_unjoined w ->
  c = CNext \/ c = CTry \/ c = CTryAgain -> child_nth w i h -> h ∈ rows_of w -> stamp w h <> 0 ->
  (forall x, x ∈ rows_of w -> stamp w x <> 0 -> stamp w h <= stamp w x) ->
  op_ok w c (deliver i ≫= after_next deinit_panic p).
Proof.
  intros B F Hw Hu Hc Hi Hh Hs Hmin. destruct (ready_finished w h B F Hh (Hu h Hh) Hs) as (r & f & e & Hrdy).
  destruct (taken_ok w i h r f e B F Hi Hrdy) as (B' & F' & (a & b & Hab & Hab') & Hrel).
  assert (Hnd : NoDup (a ++ h :: b)) by (rewrite <-Hab; apply F).
  rewrite <-Permutation_middle in Hnd. apply NoDup_cons in Hnd as [Hha _].
  assert (Hne : forall x, x ∈ a ++ b -> x <> h) by (intros x Hx ->; done).
  eexists _, _. split; [by apply deliver_run|]. split; [done|]. split; [done|]. split.
  { split; [change (g_waiter (detached w i) = None); by destruct (detached_rows w i h F Hi) as (? & ? & _ & _ & _ & _ & _ & ->)|]. intros _ x. rewrite Hab'. intros Hx.
    destruct (Hu x) as (r' & Hr' & ?); [rewrite Hab; apply in_middle; by right|]. exists r'. by rewrite taken_rows by auto. }
  split; [done|]. split; [done|]. split; [done|]. intros q Hq.
  destruct (queue_head w h q F Hq Hh Hs Hmin) as [q' ->]. exists (left_over w h), q'. split; [done|]. split; [by eapply queue_taken|].
  assert (Hv : view w = (see w <$> a) ++ see w h :: (see w <$> b)) by (unfold view; by rewrite Hab, fmap_app).
  assert (Hv' : view (taken w i h f r e) = (see w <$> a) ++ (see w <$> b)).
  { unfold view. rewrite Hab', <-fmap_app. apply list_fmap_ext. intros k x Hx%list_elem_of_lookup_2.
    apply see_same; [apply taken_rows|apply taken_ending]; auto. }
  rewrite Hv'. exact (P_row _ _ c _ (see w h) _ q' _ Hc Hv (outcome_ready w h r f e Hrdy)).
Qed.

Lemma live_run w : taskgroup_live w = Some (Ok (existsb (fun p => negb (p =? 0)) (g_children (w_group w))), w).
Proof. done. Qed.

Lemma live_rows w : existsb (fun p => negb (p =? 0)) (g_children (w_group w)) = bool_decide (rows_of w <> []).
Proof.
  unfold rows_of. induction (g_children (w_group w)) as [|p l IH]; [done|]. cbn [existsb]. rewrite nz_cons.
  destruct (p =? 0); cbn [negb orb]; [exact IH|by rewrite bool_decide_eq_true_2].
Qed.

Lemma pick_cases w : fleet elem w -> exists res, taskgroup_pick_done w = Some (Ok res, w) /\
  match res with
  | None => forall h, h ∈ rows_of w -> stamp w h = 0
  | Some i => exists h, child_nth w i h /\ h ∈ rows_of w /\ stamp w h <> 0 /\
      forall x, x ∈ rows_of w -> stamp w x <> 0 -> stamp w h <= stamp w x
  end.
Proof.
  intros F. destruct (pick_done_run w) as (res & Hres & Hp); [intros; by apply rows_exist|]. exists res. split; [done|].
  destruct res as [i|]; [|done]. destruct Hp as (h & Hi & Hh & ? & ?). exists h. split; [|done]. split; [done|]. unfold rows_of in Hh. by apply nz_in in Hh as [_ ?].
Qed.

Lemma fleet_same w w' : fleet elem w -> w_rows w' = w_rows w -> w_fibers w' = w_fibers w ->
  g_children (w_group w') = g_children (w_group w) -> g_clock (w_group w') = g_clock (w_group w) ->
  g_delivered (w_group w') = g_delivered (w_group w) -> fleet elem w'.
Proof.
  intros F Hr Hf Hc Hk Hd. apply (fleet_frame elem w); [done|done|done|done| | | |].
  - intros h Hh. rewrite Hr. by apply (fl_row _ _ F).
  - intros h _. unfold stamp. by rewrite Hr.
  - intros h _. unfold ending. by rewrite Hr, Hf.
  - intros f c. rewrite Hf. intros Hc'. by exists c.
Qed.

(** A call that leaves the fleet alone. *)
Lemma op_same w c (m : M (answer + pc)) res : base w -> fleet elem w -> m w = Some (res, w) -> at_pc (next_pc res) w ->
  answer_of res <> ACancelled -> (forall q, queue_ok w q -> promise (w_unwinding w) (view w) q c (answer_of res) [] (view w) q) -> op_ok w c m.
Proof.
  intros B F Hm Hat Ha Hp. exists res, w. split_and!; try done. intros q Hq. exists [], q. rewrite app_nil_r. auto.
Qed.

Lemma next_ok w : base w -> fleet elem w -> g_waiter (w_group w) = None -> all_unjoined w -> op_ok w CNext (op_next deinit_panic).
Proof.
  intros B F Hw Hu. destruct (pick_cases w F) as ([i|] & Hp & Hres).
  - destruct Hres as (h & Hi & Hh & Hs & Hmin).
    assert (Hm : op_next deinit_panic w = (deliver i ≫= after_next deinit_panic PNext) w).
    { unfold op_next, beans_taskgroup_next. unfold mbind at 1, M_bind at 1. by exec Hp. }
    destruct (deliver_ok w CNext PNext i h B F Hw Hu (or_introl eq_refl) Hi Hh Hs Hmin) as (res & w' & ? & ?).
    exists res, w'. by rewrite Hm.
  - assert (Hm : op_next deinit_panic w = if bool_decide (rows_of w <> [])
      then Some (Ok (inr PNext), with_woken false (with_group (set_waiter (Some (w_self w)) (w_group w)) w)) else Some (Ok (inl ANone), w)).
    { unfold op_next, beans_taskgroup_next. unfold mbind at 1, M_bind at 1. exec Hp. exec (live_run w). rewrite live_rows.
      by destruct (bool_decide _). }
    destruct (decide (rows_of w = [])) as [Hn|Hn].
    + rewrite bool_decide_eq_false_2 in Hm by (by intros []). apply (op_same w CNext _ (Ok (inl ANone))); [done|done|done|by split|done|].
      intros q Hq. rewrite (queue_nil w q Hq Hres). cbn [answer_of]. rewrite (proj2 (view_nil w) Hn). apply P_none; [by left|done].
    + rewrite bool_decide_eq_true_2 in Hm by done. eexists _, _. split; [exact Hm|].
      set (w' := with_woken _ _). split; [by eapply base_ext|]. split; [by apply (fleet_same w)|].
      split; [by split_and!|]. split; [done|]. split; [done|]. split; [done|]. intros q Hq. exists [], q. split; [by rewrite app_nil_r|].
      split; [by destruct Hq|]. rewrite (queue_nil w q Hq Hres). apply P_next_parks; [by left|]. by rewrite view_nil.
Qed.

Lemma try_ok w : base w -> fleet elem w -> g_waiter (w_group w) = None -> all_unjoined w -> op_ok w CTry (op_try deinit_panic).
Proof.
  intros B F Hw Hu. destruct (pick_cases w F) as ([i|] & Hp & Hres).
  - destruct Hres as (h & Hi & Hh & Hs & Hmin).
    assert (Hm : op_try deinit_panic w = (deliver i ≫= after_next deinit_panic PTry) w).
    { unfold op_try, beans_taskgroup_try_next. unfold mbind at 1, M_bind at 1. by exec Hp. }
    destruct (deliver_ok w CTry PTry i h B F Hw Hu (or_intror (or_introl eq_refl)) Hi Hh Hs Hmin) as (res & w' & ? & ?).
    exists res, w'. by rewrite Hm.
  - assert (Hm : op_try deinit_panic w = Some (Ok (if bool_decide (rows_of w <> []) then inr PTry else inl ANone), w)).
    { unfold op_try, beans_taskgroup_try_next. unfold mbind at 1, M_bind at 1. exec Hp. exec (live_run w). rewrite live_rows.
      by destruct (bool_decide _). }
    apply (op_same w CTry _ _ B F Hm); [by case_bool_decide|by case_bool_decide|]. intros q Hq. rewrite (queue_nil w q Hq Hres).
    case_bool_decide as Hn; cbn [answer_of]; [apply P_next_parks; [by right|by rewrite view_nil]|].
    assert (Hr : rows_of w = []) by (by destruct (rows_of w)). rewrite (proj2 (view_nil w) Hr). apply P_none; [by right|done].
Qed.

Lemma try_again_ok w : base w -> fleet elem w -> g_waiter (w_group w) = None -> all_unjoined w ->
  op_ok w CTryAgain (n ← try_next_yielded; after_next deinit_panic PTry n).
Proof.
  intros B F Hw Hu. destruct (pick_cases w F) as ([i|] & Hp & Hres).
  - destruct Hres as (h & Hi & Hh & Hs & Hmin).
    assert (Hm : (n ← try_next_yielded; after_next deinit_panic PTry n) w = (deliver i ≫= after_next deinit_panic PTry) w).
    { unfold try_next_yielded. unfold mbind at 1, M_bind at 1. by exec Hp. }
    destruct (deliver_ok w CTryAgain PTry i h B F Hw Hu (or_intror (or_intror eq_refl)) Hi Hh Hs Hmin) as (res & w' & ? & ?).
    exists res, w'. by rewrite Hm.
  - assert (Hm : (n ← try_next_yielded; after_next deinit_panic PTry n) w = Some (Ok (inl ANone), w)).
    { unfold try_next_yielded. unfold mbind at 1, M_bind at 1. by exec Hp. }
    apply (op_same w CTryAgain _ _ B F Hm); [by split|done|]. intros q Hq. rewrite (queue_nil w q Hq Hres). apply P_not_yet.
Qed.

(** ** Emptying the group *)

Lemma running_rows w h : base w -> fleet elem w -> h ∈ rows_of w -> (ending w h = None <-> s_end (see w h) = None).
Proof.
  intros B F Hh. cbn. unfold outcome_of. destruct (rows_exist w h F Hh) as [r Hr]. rewrite Hr. cbn. by destruct (ending w h).
Qed.

(** The rows were joined; now they are gone and the group is empty. *)
Lemma emptied_ok w1 w' : base w1 -> fleet elem w1 -> (forall h, h ∈ rows_of w1 -> exists r, w_rows w1 !! h = Some r /\ b_fiber r = None) ->
  base w' -> w_fibers w' = w_fibers w1 -> w_group w' = emptied (w_group w1) ->
  fleet elem w' /\ rows_of w' = [] /\ view w' = [] /\ queue_ok w' [].
Proof.
  intros B Fl Hj B' Hf Hg. assert (Hro : rows_of w' = []) by (unfold rows_of; by rewrite Hg).
  split; [|split; [done|split; [by apply view_nil|]]].
  - split; rewrite ?Hro, ?Hg; [constructor|by intros ? ?%elem_of_nil| |by intros ? ?%elem_of_nil|by intros ? ?%elem_of_nil|
      by intros ? ? ?%elem_of_nil|done|done|apply (fl_positive _ _ Fl)].
    intros f c. rewrite Hf. intros Hc. split; [|by intros Hn%elem_of_nil]. intros Hk%(fl_hook _ _ Fl f c Hc).
    destruct (Hj _ Hk) as (r & Hr & Hfr). destruct (bs_fiber _ B _ _ Hc) as (x & Hx & Hfx). congruence.
  - split; [|constructor]. intros h. rewrite Hro. split; [by intros Hn%elem_of_nil|by intros [Hn%elem_of_nil _]].
Qed.

Lemma pending_run w l : (forall h, h ∈ nz l -> is_Some (w_rows w !! h)) ->
  pending_from l w = Some (Ok (existsb (fun h => stamp w h =? 0) (nz l)), w).
Proof.
  induction l as [|p l IH]; intros Hl; [done|]. cbn [pending_from]. rewrite nz_cons in Hl |- *. destruct (p =? 0); [by apply IH|].
  destruct (Hl p ltac:(by left)) as [r Hr]. exec (row_at_run p w r Hr). cbn [existsb]. unfold stamp at 1. rewrite Hr.
  destruct (b_done_stamp r =? 0); [done|]. cbn [orb]. apply IH. intros h Hh. apply Hl. by right.
Qed.

Lemma wait_parks_ok w m : base w -> fleet elem w -> all_unjoined w -> (exists h, h ∈ rows_of w /\ stamp w h = 0) ->
  m w = Some (Ok (inr PWait), with_woken false (with_group (set_waiter (Some (w_self w)) (w_group w)) w)) -> op_ok w CWait m.
Proof.
  intros B F Hu (h & Hh & Hs) Hm. eexists _, _. split; [exact Hm|].
  split; [by eapply base_ext|]. split; [by apply (fleet_same w)|]. split; [split; [exact Hu|split; [done|by exists h]]|].
  split; [done|]. split; [done|]. split; [done|]. intros q Hq. exists [], q. split; [by rewrite app_nil_r|].
  split; [by destruct Hq|]. apply P_wait_parks, Exists_exists. exists (see w h). split; [by apply list_elem_of_fmap_2|].
  apply running_rows; [done|done|done|]. by apply (fl_runs _ _ F).
Qed.

Lemma first_bad_spec w l : forall i, match first_bad w l i with
  | None => forall h, h ∈ nz l -> got w h = true
  | Some j => exists k h, j = (i + k)%nat /\ l !! k = Some h /\ h <> 0 /\ got w h = false /\ forall x, x ∈ nz (take k l) -> got w x = true
  end.
Proof.
  induction l as [|p l IH]; intros i; cbn [first_bad]; [by intros h Hh%elem_of_nil|].
  destruct ((p =? 0) || got w p) eqn:Hp.
  - specialize (IH (S i)). assert (Hc : forall x y, x ∈ nz (p :: y) -> x ∈ nz y \/ got w x = true).
    { intros x y. rewrite nz_cons. destruct (p =? 0); [by left|]. intros [->|?]%elem_of_cons; [by right|by left]. }
    destruct (first_bad w l (S i)) as [j|].
    + destruct IH as (k & h & -> & ? & ? & ? & Hg). exists (S k), h. split_and!; [lia|done|done|done|].
      cbn [take]. intros x [?|?]%Hc; auto.
    + intros h [?|?]%Hc; auto.
  - bools. exists 0%nat, p. split_and!; [lia|done|done|done|by intros x Hx%elem_of_nil].
Qed.

Lemma outcome_joined w h r : w_rows w !! h = Some r -> b_fiber r = None -> outcome_of w h = Some (outcome_at r).
Proof. intros Hr Hf. unfold outcome_of, outcome_at. rewrite Hr. cbn. by rewrite (ending_row _ _ _ Hr), Hf. Qed.

(** The rows of the group after every one of them was joined. *)
Definition joined_rows w : Prop := forall h, h ∈ rows_of w -> joined w h.

Lemma joins_all w w1 : joins w w1 (rows_of w) -> joined_rows w1.
Proof. intros J h. rewrite (rows_joins _ _ _ J). apply (jn_done _ _ _ J). Qed.

(** What the rows give up, as the owner sees it. *)
Lemma removed_view w w1 (G : BBrew -> list Z) (s : seen -> list Z) l : base w -> fleet elem w -> joins w w1 (rows_of w) ->
  (forall h, h ∈ l -> h ∈ rows_of w) ->
  (forall h r, w_rows w1 !! h = Some r -> b_fiber r = None -> s (see w1 h) = G r) ->
  (l ≫= fun h => default [] (G <$> w_rows w1 !! h)) = (see w <$> l) ≫= s.
Proof.
  intros B F J Hl Hs. induction l as [|h l IH]; [done|]. cbn. f_equal; [|apply IH; intros; apply Hl; by right].
  assert (Hh : h ∈ rows_of w) by (apply Hl; by left). destruct (jn_done _ _ _ J h Hh) as (r & Hr & Hf).
  rewrite Hr. cbn. rewrite <-(Hs h r Hr Hf). f_equal. apply (see_joins _ _ _ _ B J), rows_exist; done.
Qed.

Lemma given_see w h r : w_rows w !! h = Some r -> b_fiber r = None -> s_given (see w h) = discarded r.
Proof. apply given_joined. Qed.

(** All succeeded: the values, in spawn order. *)
Lemma collects_ok w w1 q : base w -> fleet elem w -> g_waiter (w_group w) = None -> joins w w1 (rows_of w) ->
  (forall h, h ∈ rows_of w -> got w h = true) -> exists vs w',
  beans_taskgroup_collect deinit_panic elem w1 = Some (Ok vs, w') /\ base w' /\ fleet elem w' /\ rows_of w' = [] /\
  g_waiter (w_group w') = None /\ w_self w' = w_self w /\ w_unwinding w' = w_unwinding w /\ queue_ok w' [] /\
  exists rel, w_released w' = w_released w ++ rel /\ promise (w_unwinding w) (view w) q CWait (AList vs) rel (view w') [].
Proof.
  intros B F Hw J Hgot. pose proof (jn_base _ _ _ J B) as B1. pose proof (jn_fleet _ _ _ J elem B F) as F1.
  pose proof (joins_all _ _ J) as Hj. pose proof (rows_joins _ _ _ J) as Hro.
  assert (Hd : droppable w1 (rows_of w1)) by (apply base_droppable; [done|apply F1|exact Hj]).
  set (n := length (g_children (w_group w1))).
  assert (Hrows : nz (take n (drop 0 (g_children (w_group w1)))) = rows_of w1) by (unfold n; by rewrite drop_0, take_ge).
  destruct (collect_run deinit_panic Hquiet elem n 0 w1 ltac:(done)) as [ch Hc]; rewrite ?Hrows; [apply F1| |].
  { intros h Hh. destruct (Hj h Hh) as (r & Hr & Hf). destruct (fl_row _ _ F1 h Hh) as (r' & Hr' & Hk). exists r. split_and!; [done|congruence|].
    rewrite Hro in Hh. specialize (Hgot h Hh). unfold got in Hgot. rewrite <-(jn_outcome _ _ _ J h B), (outcome_joined _ _ _ Hr Hf) in Hgot.
    unfold outcome_at in Hgot. destruct (Z.eqb_spec (b_status r) BREW_OK); done. }
  rewrite Hrows in Hc. destruct (remove_all_ok claimed_world (rows_of w1) claimed_remover w1 B1 Hd) as (Bc & E1 & E2 & E3 & E4 & E5 & E6 & _).
  set (wc := claim_all (rows_of w1) w1) in *. set (w' := with_group (emptied (w_group w1)) wc).
  assert (B' : base w') by (by eapply base_ext).
  destruct (emptied_ok w1 w' B1 F1 Hj B' E1 eq_refl) as (F' & Hn & Hv & Hq).
  destruct (jn_same _ _ _ J) as (Eg & Es & _ & _ & Eu & Er).
  eexists _, w'. split; [unfold beans_taskgroup_collect; exec (eq_refl : group w1 = Some (Ok (w_group w1), w1)); by exec Hc|].
  split_and!; [done|done|done|by cbn; rewrite Eg|by cbn; rewrite E3|by cbn; rewrite E6|done|].
  exists (rows_of w1 ≫= fun h => default [] ((fun r => if (b_status r =? BREW_OK) && match b_kind r with Narrow _ => true | Wide _ => false end then refs [b_env r] else discarded r) <$> w_rows w1 !! h)).
  split.
  { cbn. unfold wc. rewrite (released_removed claimed_world _ _ claimed_remover (fun _ _ _ => eq_refl)) by done. by rewrite Er. }
  rewrite Hv, Hro. rewrite (removed_view w w1 _ s_left _ B F J); [|done|apply left_joined]. apply P_list. unfold view.
  rewrite Forall2_fmap. apply Forall2_same_length_lookup. split; [done|]. intros k h h' Hh Hh'. rewrite Hh in Hh'. injection Hh' as <-.
  apply list_elem_of_lookup_2 in Hh. cbn. rewrite <-(jn_outcome _ _ _ J h B). rewrite <-Hro in Hh. destruct (Hj h Hh) as (r & Hr & Hf).
  rewrite Hr, (outcome_joined _ _ _ Hr Hf). cbn. rewrite Hro in Hh. specialize (Hgot h Hh). unfold got in Hgot.
  rewrite <-(jn_outcome _ _ _ J h B), (outcome_joined _ _ _ Hr Hf) in Hgot. unfold outcome_at in *. by destruct (b_status r =? BREW_OK).
Qed.

Lemma rev_see w l : rev (see w <$> l) = see w <$> rev l.
Proof. symmetry. apply List.map_rev. Qed.

Lemma see_got w h : h ∈ rows_of w -> got w h = true -> exists v, s_end (see w h) = Some (Got v).
Proof. unfold got. cbn. destruct (outcome_of w h) as [[v|]|]; [by exists v|done|done]. Qed.

Lemma see_ended w h : base w -> fleet elem w -> h ∈ rows_of w -> ending w h <> None -> ended (see w h).
Proof.
  intros B F Hh He. unfold ended. destruct (s_end (see w h)) eqn:Hs; [by eexists|]. by apply running_rows in Hs.
Qed.

(** One failed: the first of them in spawn order is handed over, the others go
    newest first. *)
Lemma wait_fails_ok w w1 bad q : base w -> fleet elem w -> g_waiter (w_group w) = None -> joins w w1 (rows_of w) ->
  (forall h, h ∈ rows_of w -> ending w h <> None) -> first_bad w (g_children (w_group w)) 0 = Some bad -> exists h o w',
  (first ← child_at bad; _ ← wait_discard deinit_panic bad (length (g_children (w_group w))); _ ← reset_group;
   claim_row deinit_panic first) w1 = Some (Ok (ARow h o), w') /\
  base w' /\ fleet elem w' /\ rows_of w' = [] /\
  g_waiter (w_group w') = None /\ w_self w' = w_self w /\ w_unwinding w' = w_unwinding w /\ queue_ok w' [] /\
  exists rel, w_released w' = w_released w ++ rel /\ promise (w_unwinding w) (view w) q CWait (ARow h o) rel (view w') [].
Proof.
  intros B F Hw J Hend Hbad. pose proof (jn_base _ _ _ J B) as B1. pose proof (jn_fleet _ _ _ J elem B F) as F1.
  pose proof (joins_all _ _ J) as Hj. pose proof (rows_joins _ _ _ J) as Hro. destruct (jn_same _ _ _ J) as (Eg & Es & _ & _ & Eu & Er).
  pose proof (first_bad_spec w (g_children (w_group w)) 0) as Hfb. rewrite Hbad in Hfb. destruct Hfb as (k & h & Hk & Hi & Hh & Hng & Hgot).
  cbn in Hk. subst k. destruct (nz_split _ _ _ Hi Hh) as [Hab Hab'].
  set (a := nz (take bad (g_children (w_group w)))) in *. set (b := nz (drop (S bad) (g_children (w_group w)))) in *.
  assert (Hnd : NoDup (a ++ h :: b)) by (rewrite <-Hab; apply F).
  assert (Hin : forall x, x ∈ a ++ h :: b -> x ∈ rows_of w) by (intros x Hx; unfold rows_of; by rewrite Hab).
  set (n := length (g_children (w_group w))). set (l := rev (a ++ b)).
  assert (Hl : forall x, x ∈ l -> x <> h /\ x ∈ rows_of w).
  { intros x Hx. unfold l in Hx. rewrite <-Permutation_rev in Hx. split; [|apply Hin, in_middle; by right].
    intros ->. rewrite <-Permutation_middle in Hnd. by apply NoDup_cons in Hnd as [? _]. }
  assert (Hd : droppable w1 l).
  { apply base_droppable; [done| |].
    - unfold l. rewrite <-Permutation_rev. rewrite <-Permutation_middle in Hnd. by apply NoDup_cons in Hnd as [_ ?].
    - intros x Hx. apply Hj. rewrite Hro. by apply Hl. }
  assert (Hlw : rev (nz (take n (<[bad:=0]> (g_children (w_group w1))))) = l).
  { rewrite Eg, take_ge by (rewrite length_insert; done). by rewrite Hab'. }
  assert (Hdisc : wait_discard deinit_panic bad n w1 = Some (Ok tt, discard_all l w1)).
  { rewrite <-Hlw. apply wait_discard_run; [done|by rewrite Eg|by rewrite Hlw]. }
  destruct (remove_all_ok dropped_world l dropped_remover w1 B1 Hd) as (Bd & E1 & E2 & E3 & E4 & E5 & E6 & Erows).
  set (wd := discard_all l w1) in *.
  destruct (jn_done _ _ _ J h) as (r & Hr & Hf); [apply Hin, in_middle; by left|].
  assert (Hr' : w_rows wd !! h = Some r) by (rewrite Erows; [done|]; intros Hx; by destruct (Hl h Hx)).
  set (we := with_group (emptied (w_group w1)) wd). set (w' := claimed_world h r we).
  assert (Be : base we) by (by eapply base_ext). assert (B' : base w') by (by apply base_claimed).
  destruct (emptied_ok w1 w' B1 F1 Hj B' E1 eq_refl) as (F' & Hn & Hv & Hq).
  assert (Ho : outcome_of w h = Some (outcome_at r)) by (rewrite <-(jn_outcome _ _ _ J h B); by apply outcome_joined).
  unfold got in Hng. rewrite Ho in Hng. unfold outcome_at in Ho, Hng.
  destruct (Z.eqb_spec (b_status r) BREW_OK) as [|Hbadst]; [done|]. apply Z.eqb_neq in Hbadst.
  exists h, (Failed (b_status r) (b_message r)), w'. split.
  { assert (Hi1 : g_children (w_group w1) !! bad = Some h) by (by rewrite Eg).
    exec (child_at_run bad h w1 Hi1). exec Hdisc.
    assert (Hres : reset_group wd = Some (Ok tt, we)) by (unfold we; rewrite <-E2; done). exec Hres.
    rewrite (claim_row_run deinit_panic Hquiet h r we Hr'). unfold outcome_at. by rewrite Hbadst. }
  split_and!; [done|done|done|by cbn; rewrite Eg|by cbn; rewrite E3|by cbn; rewrite E6|done|].
  eexists. split.
  { unfold w', claimed_world. cbn. rewrite Hbadst. cbn [andb]. unfold wd.
    rewrite (released_removed dropped_world _ _ dropped_remover (fun _ _ _ => eq_refl)) by done. rewrite Er, <-app_assoc. reflexivity. }
  rewrite Hv, (removed_view w w1 _ s_given _ B F J); [|intros x Hx; by apply Hl|apply given_see].
  replace (discarded r) with (s_given (see w h)).
  2:{ rewrite <-(given_see w1 h r Hr Hf). f_equal. symmetry. apply (see_joins _ _ _ _ B J), rows_exist; [done|]. apply Hin, in_middle. by left. }
  unfold l. rewrite <-rev_see, fmap_app.
  apply (P_failed _ _ q (see w <$> a) (see w h) (see w <$> b) (b_status r) (b_message r)).
  - unfold view, rows_of. by rewrite Hab, fmap_app.
  - apply Forall_fmap, Forall_forall. intros x Hx. apply (see_got w x); [apply Hin; apply elem_of_app; by left|by apply Hgot].
  - exact Ho.
  - apply Forall_fmap, Forall_forall. intros x Hx. assert (Hxr : x ∈ rows_of w) by (apply Hin, elem_of_app; right; by right).
    apply see_ended; auto.
Qed.

Lemma wait_ok w : base w -> fleet elem w -> g_waiter (w_group w) = None -> all_unjoined w -> op_ok w CWait (op_wait_all deinit_panic elem).
Proof.
  intros B F Hw Hu. pose proof (pending_run w (g_children (w_group w)) (fun h => rows_exist w h F)) as Hp.
  assert (Hg : group w = Some (Ok (w_group w), w)) by done.
  destruct (existsb _ _) eqn:Hex in Hp.
  - apply existsb_exists in Hex as (h & Hh & Hs). apply list_elem_of_In in Hh. apply Z.eqb_eq in Hs.
    apply wait_parks_ok; [done|done|done|by exists h|]. unfold op_wait_all, beans_taskgroup_wait_all_join.
    unfold mbind at 1, M_bind at 1. exec Hg. by exec Hp.
  - assert (Hst : forall h, h ∈ rows_of w -> stamp w h <> 0).
    { intros h Hh Hs. apply Bool.not_true_iff_false in Hex. apply Hex, existsb_exists. exists h. split; [by apply list_elem_of_In|by apply Z.eqb_eq]. }
    assert (Hend : forall h, h ∈ rows_of w -> ending w h <> None) by (intros h Hh He; apply (Hst h Hh); by apply (fl_runs _ _ F)).
    destruct (wait_joins_run (g_children (w_group w)) 0 None w B (fl_nodup _ _ F)) as (w1 & Hj & J).
    { intros h Hh. apply (ready_finished w h B F Hh); auto. }
    destruct (first_bad w (g_children (w_group w)) 0) as [bad|] eqn:Hbad.
    + assert (Hm : op_wait_all deinit_panic elem w = ((first ← child_at bad; _ ← wait_discard deinit_panic bad (length (g_children (w_group w)));
        _ ← reset_group; claim_row deinit_panic first) ≫= (fun a => mret (inl a))) w1).
      { unfold op_wait_all, beans_taskgroup_wait_all_join. unfold mbind at 1, M_bind at 1. exec Hg. exec Hp. exec Hj.
        unfold mbind, M_bind. destruct (child_at bad w1) as [[[first|] ?]|]; [|done|done]; cbn.
        match goal with |- context [wait_discard ?d ?b ?n ?x] => destruct (wait_discard d b n x) as [[[[]|] x1]|]; [|done|done] end.
        by destruct (reset_group x1) as [[[[]|] ?]|]. }
      assert (Hall := fun q => wait_fails_ok w w1 bad q B F Hw J Hend Hbad).
      destruct (Hall []) as (h & o & w' & Hrun & B' & F' & Hn & Hw' & Es & Eu & Hq' & _).
      exists (Ok (inl (ARow h o))), w'. split; [by rewrite Hm; exec Hrun|]. split_and!; try done.
      { split; [done|]. intros _ x. by rewrite Hn, elem_of_nil. }
      intros q _. destruct (Hall q) as (h2 & o2 & w2 & Hrun2 & _ & _ & _ & _ & _ & _ & _ & rel & Hrel & Hpr).
      rewrite Hrun in Hrun2. injection Hrun2 as <- <- <-. by exists rel, [].
    + pose proof (first_bad_spec w (g_children (w_group w)) 0) as Hgot. rewrite Hbad in Hgot.
      assert (Hall := fun q => collects_ok w w1 q B F Hw J Hgot).
      destruct (Hall []) as (vs & w' & Hrun & B' & F' & Hn & Hw' & Es & Eu & Hq' & _).
      exists (Ok (inl (AList vs))), w'. split.
      { unfold op_wait_all, beans_taskgroup_wait_all_join. unfold mbind at 1, M_bind at 1. exec Hg. exec Hp. exec Hj.
        cbn. by exec Hrun. }
      split_and!; try done.
      { split; [done|]. intros _ x. by rewrite Hn, elem_of_nil. }
      intros q _. destruct (Hall q) as (vs2 & w2 & Hrun2 & _ & _ & _ & _ & _ & _ & _ & rel & Hrel & Hpr).
      rewrite Hrun in Hrun2. injection Hrun2 as <- <-. by exists rel, [].
Qed.

(** ** Cancelling *)

Lemma child_in w j h : child_nth w j h -> h ∈ rows_of w.
Proof. intros [Hj Hh]. unfold rows_of. apply nz_in. split; [by eapply list_elem_of_lookup_2|done]. Qed.

Lemma in_range w i k h : h ∈ nz (take k (drop i (g_children (w_group w)))) <-> exists j, (i <= j < i + k)%nat /\ child_nth w j h.
Proof.
  rewrite nz_in, list_elem_of_lookup. split.
  - intros [[m Hm] Hh]. apply lookup_take_Some in Hm as [Hm Hk]. rewrite lookup_drop in Hm. exists (i + m)%nat. split; [lia|done].
  - intros (j & Hj & Hl & Hh). split; [|done]. exists (j - i)%nat. apply lookup_take_Some. rewrite lookup_drop. split; [|lia].
    by replace (i + (j - i))%nat with j by lia.
Qed.

Lemma child_inj w i j h : fleet elem w -> child_nth w i h -> child_nth w j h -> i = j.
Proof.
  intros F. assert (Hlt : forall i j, child_nth w i h -> child_nth w j h -> ~ (i < j)%nat).
  { intros i' j' Hi [Hj Hh] Hlt. destruct (nz_split _ _ _ Hj Hh) as [Hs _]. pose proof (fl_nodup _ _ F) as Hnd. unfold rows_of in Hnd.
    rewrite Hs, <-Permutation_middle in Hnd. apply NoDup_cons in Hnd as [Hn _]. apply Hn, elem_of_app. left.
    change (take j' (g_children (w_group w))) with (take j' (drop 0 (g_children (w_group w)))). apply in_range. exists i'. split; [lia|done]. }
  intros Hi Hj. pose proof (Hlt i j Hi Hj). pose proof (Hlt j i Hj Hi). lia.
Qed.

Lemma joins_joined w l : base w -> (forall h, h ∈ l -> joined w h) -> joins w w l.
Proof.
  intros B. induction l as [|h l IH]; intros Hl; [apply joins_refl|]. destruct (Hl h ltac:(by left)) as (r & Hr & Hf).
  apply (joins_trans w w w [h] l); [by apply (joins_skip w h r)|apply IH; intros; apply Hl; by right|done].
Qed.

(** The whole group is joined once the rest of it is. *)
Lemma joins_whole w w1 i : base w -> (forall j h, (j < i)%nat -> child_nth w j h -> joined w h) ->
  joins w w1 (nz (drop i (g_children (w_group w)))) -> joins w w1 (rows_of w).
Proof.
  intros B Hlt J. unfold rows_of. rewrite <-(take_drop i (g_children (w_group w))) at 1. rewrite nz_app.
  apply (joins_trans w w w1 _ _); [|done|done]. apply joins_joined; [done|]. intros h Hh.
  change (take i (g_children (w_group w))) with (take i (drop 0 (g_children (w_group w)))) in Hh. apply in_range in Hh as (j & ? & Hj).
  apply (Hlt j); [lia|done].
Qed.

(** Every row dropped, newest first. *)
Lemma discarded_ok w w1 : base w -> fleet elem w -> g_waiter (w_group w) = None -> joins w w1 (rows_of w) ->
  let w' := with_group (emptied (w_group w1)) (discard_all (rev (rows_of w1)) w1) in
  base w' /\ fleet elem w' /\ at_pc PIdle w' /\ w_self w' = w_self w /\ w_unwinding w' = w_unwinding w /\ queue_ok w' [] /\ view w' = [] /\
  w_released w' = w_released w ++ (rev (view w) ≫= s_given).
Proof.
  intros B F Hw J w'. pose proof (jn_base _ _ _ J B) as B1. pose proof (jn_fleet _ _ _ J elem B F) as F1.
  pose proof (joins_all _ _ J) as Hj. pose proof (rows_joins _ _ _ J) as Hro. destruct (jn_same _ _ _ J) as (Eg & Es & _ & _ & Eu & Er).
  assert (Hd : droppable w1 (rev (rows_of w1))).
  { apply base_droppable; [done|rewrite <-Permutation_rev; apply F1|]. intros h Hh. rewrite <-Permutation_rev in Hh. by apply Hj. }
  destruct (remove_all_ok dropped_world _ dropped_remover w1 B1 Hd) as (Bd & E1 & E2 & E3 & E4 & E5 & E6 & _).
  assert (B' : base w') by (by eapply base_ext).
  destruct (emptied_ok w1 w' B1 F1 Hj B' E1 eq_refl) as (F' & Hn & Hv & Hq).
  split; [done|]. split; [done|]. split; [split; [by cbn; rewrite Eg|intros _ x; by rewrite Hn, elem_of_nil]|].
  split; [by cbn; rewrite E3|]. split; [by cbn; rewrite E6|]. split; [done|]. split; [done|].
  cbn. rewrite (released_removed dropped_world _ _ dropped_remover (fun _ _ _ => eq_refl)) by done. rewrite Er, Hro. f_equal.
  unfold view. rewrite rev_see. apply (removed_view w w1 _ s_given _ B F J); [|apply given_see].
  intros h Hh. by rewrite <-Permutation_rev in Hh.
Qed.

Lemma discard_ready w w1 : base w -> fleet elem w -> joins w w1 (rows_of w) ->
  droppable w1 (rev (nz (take (length (g_children (w_group w))) (g_children (w_group w1))))).
Proof.
  intros B F J. destruct (jn_same _ _ _ J) as (Eg & _). rewrite Eg, take_ge by done. change (nz (g_children (w_group w))) with (rows_of w).
  apply base_droppable; [by apply (jn_base _ _ _ J)|rewrite <-Permutation_rev; apply F|].
  intros h Hh. rewrite <-Permutation_rev in Hh. by apply (jn_done _ _ _ J).
Qed.

(** Parking at a row whose child still runs. *)
Lemma unjoined_after w w1 i k j h : fleet elem w -> joins w w1 (nz (take k (drop i (g_children (w_group w))))) -> child_nth w j h ->
  (i + k <= j)%nat -> unjoined w h -> unjoined w1 h.
Proof.
  intros F J Hj Hle (r & Hr & ?). exists r. rewrite (jn_other _ _ _ J); [done|]. intros (j' & ? & Hj')%in_range.
  pose proof (child_inj w j j' h F Hj Hj'). lia.
Qed.

Lemma joined_after w w1 i k j h : joins w w1 (nz (take k (drop i (g_children (w_group w))))) ->
  (forall j h, (j < i)%nat -> child_nth w j h -> joined w h) -> child_nth w j h -> (j < i + k)%nat -> joined w1 h.
Proof.
  intros J Hlt Hj Hle. destruct (Nat.lt_ge_cases j i) as [Hji|Hji].
  - destruct (Hlt j h Hji Hj) as (r & Hr & Hf). destruct (jn_row _ _ _ J h r Hr) as (r' & Hr' & _ & _ & _ & _ & _ & Heq & _).
    rewrite (Heq Hf) in Hr'. by exists r.
  - apply (jn_done _ _ _ J), in_range. exists j. split; [lia|done].
Qed.

Lemma child_nth_joins w w1 l j h : joins w w1 l -> child_nth w1 j h <-> child_nth w j h.
Proof. intros J. unfold child_nth. by destruct (jn_same _ _ _ J) as (-> & _). Qed.

Lemma cancel_from_ok w i : base w -> fleet elem w -> g_waiter (w_group w) = None ->
  (forall j h, (j < i)%nat -> child_nth w j h -> joined w h) -> (forall j h, (i <= j)%nat -> child_nth w j h -> unjoined w h) ->
  op_ok w CCancel (op_cancel (cancel_from deinit_panic i)).
Proof.
  intros B F Hw Hlt Hge. set (ch := g_children (w_group w)). set (n := length ch).
  assert (Hl : take (n - i) (drop i ch) = drop i ch) by (apply take_ge; rewrite length_drop; lia).
  assert (Hg : group w = Some (Ok (w_group w), w)) by done.
  assert (Hin : forall h, h ∈ nz (drop i ch) -> exists j, (i <= j)%nat /\ child_nth w j h).
  { intros h Hh. rewrite <-Hl in Hh. apply in_range in Hh as (j & ? & ?). exists j. split; [lia|done]. }
  destruct (cancel_joins_run (fun h => ending w h <> None) (fun h => ending w h = None) (fun _ _ _ _ => False) (n - i) i w (drop i ch) Hl)
    as (w1 & res & Hrun & k & Hk & Hres); [rewrite length_drop; lia|done| | |].
  { pose proof (fl_nodup _ _ F) as Hnd. unfold rows_of in Hnd. rewrite <-(take_drop i (g_children (w_group w))), nz_app in Hnd.
    by apply NoDup_app in Hnd as (_ & _ & ?). }
  { intros h Hh. destruct (Hin h Hh) as (j & Hj & Hc). split; [by apply (Hge j)|]. by destruct (ending w h). }
  destruct res as [j|].
  - destruct Hres as (-> & (h & Hkh & Hh & He) & J). rewrite lookup_drop in Hkh. destruct (jn_same _ _ _ J) as (Eg & Es & _ & _ & Eu & Er).
    eexists (Ok (inr (PCancel (i + k)))), (with_woken false w1). split.
    { unfold op_cancel, cancel_from. unfold mbind at 1, M_bind at 1. exec Hg. by exec Hrun. }
    pose proof (jn_base _ _ _ J B) as B1. pose proof (jn_fleet _ _ _ J elem B F) as F1.
    split; [by eapply base_ext|]. split; [by apply (fleet_same w1)|]. split.
    { cbn [next_pc at_pc]. split; [by cbn; rewrite Eg|]. split; [exists h; by apply (child_nth_joins _ _ _ _ _ J)|]. split.
      - intros j x Hj Hc. apply (child_nth_joins _ _ _ _ _ J) in Hc. by apply (joined_after w w1 i k j x J Hlt Hc).
      - intros j x Hj Hc. apply (child_nth_joins _ _ _ _ _ J) in Hc. apply (unjoined_after w w1 i k j x F J Hc Hj). apply (Hge j); [lia|done]. }
    split; [done|]. split; [done|]. split; [done|]. intros q Hq. exists [], q. split; [by cbn; rewrite app_nil_r|].
    split; [by destruct (queue_joins w w1 _ q B F J Hq)|]. change (view (with_woken false w1)) with (view w1). rewrite (view_joins _ _ _ B F J).
    apply P_cancel_parks, Exists_exists. exists (see w h). assert (Hr : h ∈ rows_of w) by (by eapply (child_in w (i + k))).
    split; [by apply list_elem_of_fmap_2|]. by apply running_rows.
  - destruct Hres as (-> & J). pose proof (joins_whole w w1 i B Hlt J) as J'. destruct (jn_same _ _ _ J) as (Eg & _).
    destruct (discarded_ok w w1 B F Hw J') as (B' & F' & Hat & Es & Eu & Hq' & Hv & Hrel).
    destruct (cancel_discard_run deinit_panic Hquiet n w1) as [ch' Hdisc]; [by rewrite Eg|by apply (discard_ready w)|].
    rewrite (take_ge (g_children (w_group w1))) in Hdisc by (by rewrite Eg).
    exists (Ok (inl ADone)), (with_group (emptied (w_group w1)) (discard_all (rev (rows_of w1)) w1)). split.
    { unfold op_cancel, cancel_from. unfold mbind at 1, M_bind at 1. exec Hg. exec Hrun. by exec Hdisc. }
    split_and!; try done. intros q Hq. exists (rev (view w) ≫= s_given), []. split; [done|]. split; [done|]. rewrite Hv.
    apply P_cancelled_all, Forall_fmap, Forall_forall. intros h Hh. apply see_ended; [done|done|done|].
    rewrite <-(jn_ending _ _ _ J' h B). destruct (jn_done _ _ _ J' h Hh) as (r & Hr & Hf). by rewrite (ending_row _ _ _ Hr), Hf.
Qed.

Lemma request_cancel_run n : forall w, (n <= length (g_children (w_group w)))%nat -> (forall h, h ∈ rows_of w -> is_Some (w_rows w !! h)) ->
  exists l, request_cancel n w = Some (Ok tt, with_cancelled l w).
Proof.
  induction n as [|n IH]; intros w Hn Hrows; [exists (w_cancelled w); by destruct w|].
  destruct (lookup_lt_is_Some_2 (g_children (w_group w)) n Hn) as [h Hh]. cbn [request_cancel]. exec (child_at_run n h w Hh).
  assert (Hc : exists l, (if h =? 0 then mret tt else beans_brew_cancel h) w = Some (Ok tt, with_cancelled l w)).
  { destruct (Z.eqb_spec h 0) as [|Hz]; [exists (w_cancelled w); by destruct w|]. destruct (Hrows h) as [r Hr]; [by apply (child_in w n)|].
    unfold beans_brew_cancel. exec (row_at_run h w r Hr). destruct (b_fiber r) as [f|]; [eexists; reflexivity|exists (w_cancelled w); by destruct w]. }
  destruct Hc as [l Hc]. exec Hc. destruct (IH (with_cancelled l w)) as [l' Hl']; [cbn; lia|done|]. exists l'. by rewrite Hl'.
Qed.

(** A state that differs in what no call reads. *)
Lemma op_ext w w1 c m m' : op_ok w1 c m' -> m w = m' w1 -> view w1 = view w -> w_released w1 = w_released w -> w_self w1 = w_self w ->
  w_unwinding w1 = w_unwinding w -> (forall q, queue_ok w q -> queue_ok w1 q) -> op_ok w c m.
Proof.
  intros (res & w' & Hm & B & F & Hat & Ha & Hs & Hu & Hq) Hmm Hv Hr Hself Hunw Hqq. exists res, w'. rewrite Hmm, <-Hself, <-Hunw, <-Hv, <-Hr.
  split_and!; try done. intros q Hq'. apply Hq. by apply Hqq.
Qed.

Lemma cancel_all_ok w : base w -> fleet elem w -> g_waiter (w_group w) = None -> all_unjoined w ->
  op_ok w CCancel (op_cancel (beans_taskgroup_cancel_all deinit_panic)).
Proof.
  intros B F Hw Hu. destruct (request_cancel_run (length (g_children (w_group w))) w) as [l Hl]; [done|intros; by apply rows_exist|].
  assert (Hreq : beans_taskgroup_request_cancel w = Some (Ok tt, with_cancelled l w)) by exact Hl.
  apply (op_ext w (with_cancelled l w) _ _ (op_cancel (cancel_from deinit_panic 0))); try done.
  - apply cancel_from_ok; [by eapply base_ext|by apply (fleet_same w)|done|lia|]. intros j h _ Hj. apply Hu. by apply (child_in w j).
  - unfold op_cancel, beans_taskgroup_cancel_all. unfold mbind at 1, M_bind at 1. by exec Hreq.
  - intros q Hq. by destruct Hq.
Qed.

(** ** The end of the scope *)

Lemma passed_see w h : base w -> fleet elem w -> h ∈ rows_of w -> passed w h ->
  ended (see w h) /\ (w_unwinding w = false -> ~ panicked (see w h)).
Proof.
  intros B F Hh (e & He & Hp). split; [apply see_ended; [done|done|done|by rewrite He]|]. intros Hu (text & Ht). apply (Hp Hu).
  cbn in Ht. unfold outcome_of in Ht. destruct (rows_exist w h F Hh) as [r Hr]. rewrite Hr, He in Ht. cbn in Ht.
  destruct (fst e =? BREW_OK); [done|]. by injection Ht.
Qed.

Lemma passed_joins w w1 l h : base w -> joins w w1 l -> passed w h -> passed w1 h.
Proof.
  intros B J (e & He & Hp). destruct (jn_same _ _ _ J) as (_ & _ & _ & _ & Eu & _). exists e. by rewrite (jn_ending _ _ _ J h B), Eu.
Qed.

Lemma seen_panic w h text : fleet elem w -> h ∈ rows_of w -> ending w h = Some (BREW_PANICKED, text) ->
  s_end (see w h) = Some (Failed BREW_PANICKED text).
Proof. intros F Hh He. cbn. unfold outcome_of. destruct (rows_exist w h F Hh) as [r ->]. by rewrite He. Qed.

Lemma scope_from_ok w i line col : base w -> fleet elem w -> g_waiter (w_group w) = None ->
  (forall j h, (j < i)%nat -> child_nth w j h -> joined w h /\ passed w h) ->
  (w_unwinding w = false -> forall j h, (i <= j)%nat -> child_nth w j h -> unjoined w h) ->
  op_ok w (CScope line col) (op_scope line col (scope_from deinit_panic line col i)).
Proof.
  intros B F Hw Hlt Hge. set (ch := g_children (w_group w)). set (n := length ch).
  assert (Hl : take (n - i) (drop i ch) = drop i ch) by (apply take_ge; rewrite length_drop; lia).
  assert (Hg : group w = Some (Ok (w_group w), w)) by done.
  assert (Hin : forall h, h ∈ nz (drop i ch) -> exists j, (i <= j)%nat /\ child_nth w j h).
  { intros h Hh. rewrite <-Hl in Hh. apply in_range in Hh as (j & ? & ?). exists j. split; [lia|done]. }
  destruct (scope_joins_run (passed w) (fun h => ending w h = None /\ unjoined w h)
    (fun h t ln c => exists text, ending w h = Some (BREW_PANICKED, text) /\ t = take 599 (escalated text) /\ ln = line /\ c = col)
    line col (n - i) i w (drop i ch) Hl) as (w1 & res & Hrun & k & Hk & Hres); [rewrite length_drop; lia|done| | |].
  { pose proof (fl_nodup _ _ F) as Hnd. unfold rows_of in Hnd. rewrite <-(take_drop i (g_children (w_group w))), nz_app in Hnd.
    by apply NoDup_app in Hnd as (_ & _ & ?). }
  { intros h Hh. destruct (Hin h Hh) as (j & Hj & Hc). destruct (rows_exist w h F (child_in w j h Hc)) as [r Hr].
    split; [by eauto|]. split.
    - intros Hn. destruct (row_cases w h r B Hr) as [(_ & _ & He)|(Hjf & _)]; [|by destruct Hn; exists r].
      eexists. split; [exact He|]. intros Hu. destruct Hn. by apply (Hge Hu j).
    - intros Hu. destruct (ending w h) as [[s text]|] eqn:He; [|done]. destruct (Z.eqb_spec s BREW_PANICKED) as [->|]; [by exists text|].
      by exists (s, text). }
  assert (Hpass : forall j h, (j < i + k)%nat -> child_nth w j h -> passed w h).
  { intros j h Hj Hc. destruct (Nat.lt_ge_cases j i) as [Hji|Hji]; [by apply (Hlt j)|]. apply Hk, in_range. exists j. split; [lia|done]. }
  assert (Hlt' : forall j h, (j < i)%nat -> child_nth w j h -> joined w h) by (intros j h Hj Hc; by apply (Hlt j)).
  destruct res as [[j|]|t ln c].
  - destruct Hres as (-> & (h & Hkh & Hh & He & Hun) & J). rewrite lookup_drop in Hkh. destruct (jn_same _ _ _ J) as (Eg & Es & _ & _ & Eu & Er).
    eexists (Ok (inr (PScope (i + k) line col))), (with_woken false w1). split.
    { unfold op_scope, scope_from. unfold mbind at 1, M_bind at 1. exec Hg. by exec Hrun. }
    pose proof (jn_base _ _ _ J B) as B1. pose proof (jn_fleet _ _ _ J elem B F) as F1.
    split; [by eapply base_ext|]. split; [by apply (fleet_same w1)|]. split.
    { cbn [next_pc at_pc]. split; [by cbn; rewrite Eg|]. split; [exists h; split; [by apply (child_nth_joins _ _ _ _ _ J)|]|split].
      - by apply (unjoined_after w w1 i k (i + k) h F J).
      - intros j x Hj Hc. apply (child_nth_joins _ _ _ _ _ J) in Hc. split; [by apply (joined_after w w1 i k j x J Hlt' Hc)|].
        apply (passed_joins w w1 _ x B J). by apply (Hpass j).
      - intros Hu j x Hj Hc. apply (child_nth_joins _ _ _ _ _ J) in Hc. apply (unjoined_after w w1 i k j x F J Hc Hj).
        apply (Hge ltac:(by rewrite <-Eu) j); [lia|done]. }
    split; [done|]. split; [done|]. split; [done|]. intros q Hq. exists [], q. split; [by cbn; rewrite app_nil_r|].
    split; [by destruct (queue_joins w w1 _ q B F J Hq)|]. change (view (with_woken false w1)) with (view w1). rewrite (view_joins _ _ _ B F J).
    apply P_scope_parks, Exists_exists. exists (see w h). assert (Hr : h ∈ rows_of w) by (by eapply (child_in w (i + k))).
    split; [by apply list_elem_of_fmap_2|]. by apply running_rows.
  - destruct Hres as (Hkl & J). pose proof (joins_whole w w1 i B Hlt' J) as J'. destruct (jn_same _ _ _ J) as (Eg & _).
    destruct (discarded_ok w w1 B F Hw J') as (B' & F' & Hat & Es & Eu & Hq' & Hv & Hrel).
    destruct (scope_discard_run deinit_panic Hquiet n w1) as [ch' Hdisc]; [by rewrite Eg|by apply (discard_ready w)|].
    rewrite (take_ge (g_children (w_group w1))) in Hdisc by (by rewrite Eg).
    exists (Ok (inl ADone)), (with_group (emptied (w_group w1)) (discard_all (rev (rows_of w1)) w1)). split.
    { unfold op_scope, scope_from. unfold mbind at 1, M_bind at 1. exec Hg. exec Hrun. by exec Hdisc. }
    split_and!; try done. intros q Hq. exists (rev (view w) ≫= s_given), []. split; [done|]. split; [done|]. rewrite Hv.
    assert (Hall : forall h, h ∈ rows_of w -> passed w h).
    { intros h Hh. unfold rows_of in Hh. rewrite <-(take_ge (g_children (w_group w)) (i + k)) in Hh by (rewrite Hkl, length_drop; unfold ch; lia).
      change (take (i + k) (g_children (w_group w))) with (take (i + k) (drop 0 (g_children (w_group w)))) in Hh.
      apply in_range in Hh as (j & ? & Hc). apply (Hpass j); [lia|done]. }
    apply P_scope_ends; [|intros Hu]; apply Forall_fmap, Forall_forall; intros h Hh; destruct (passed_see w h B F Hh (Hall h Hh)); auto.
  - destruct Hres as ((h & Hkh & Hh & text & He & -> & -> & ->) & J). rewrite lookup_drop in Hkh. destruct (jn_same _ _ _ J) as (Eg & Es & _ & _ & Eu & Er).
    eexists (Panic _ _ _), w1. split.
    { unfold op_scope, scope_from. unfold mbind at 1, M_bind at 1. exec Hg. by rewrite (bind_panics _ _ _ _ _ _ _ Hrun). }
    pose proof (jn_base _ _ _ J B) as B1. pose proof (jn_fleet _ _ _ J elem B F) as F1.
    split; [done|]. split; [done|]. split; [by cbn; rewrite Eg|]. split; [done|]. split; [done|]. split; [done|].
    intros q Hq. exists [], q. split; [by rewrite app_nil_r|]. split; [by apply (queue_joins w w1 _ q B F J)|]. rewrite (view_joins _ _ _ B F J).
    destruct (nz_split _ _ _ Hkh Hh) as [Hab _].
    assert (Ha : forall x, x ∈ nz (take (i + k) (g_children (w_group w))) -> x ∈ rows_of w /\ passed w x).
    { intros x Hx. change (take (i + k) (g_children (w_group w))) with (take (i + k) (drop 0 (g_children (w_group w)))) in Hx.
      apply in_range in Hx as (j & ? & Hc). split; [by apply (child_in w j)|]. apply (Hpass j); [lia|done]. }
    apply (P_scope_panics _ _ _ _ _ (see w <$> nz (take (i + k) (g_children (w_group w)))) (see w h) (see w <$> nz (drop (S (i + k)) (g_children (w_group w))))).
    + unfold view, rows_of. fold ch. by rewrite Hab, fmap_app.
    + apply Forall_fmap, Forall_forall. intros x Hx. destruct (Ha x Hx). by apply passed_see.
    + intros Hu. apply Forall_fmap, Forall_forall. intros x Hx. destruct (Ha x Hx). by apply passed_see.
    + apply (seen_panic w h text F); [|done]. by apply (child_in w (i + k)).
Qed.

Lemma scope_join_ok w line col : base w -> fleet elem w -> g_waiter (w_group w) = None -> (w_unwinding w = false -> all_unjoined w) ->
  op_ok w (CScope line col) (op_scope line col (beans_taskgroup_scope_join deinit_panic line col)).
Proof.
  intros B F Hw Hu. apply scope_from_ok; [done|done|done|lia|]. intros Hun j h _ Hj. apply (Hu Hun). by apply (child_in w j).
Qed.

(** ** A child ends *)

(** What [settle] leaves behind. *)
Definition settled (w : world) (h f : Z) (r : BBrew) (hook : bool) (e : Z * str) : world :=
  let w1 := with_fibers (<[f := mkChild h hook (Some e)]> (w_fibers w)) w in
  let g := w_group w in
  if hook then
    with_woken (match g_waiter g with Some _ => true | None => w_woken w end)
      (with_group (mkGroup (g_children g) (g_delivered g) (g_clock g + 1) None)
        (with_rows (<[h := set_stamp (g_clock g + 1) r]> (w_rows w)) w1))
  else w1.

Lemma settle_run w h f r hook e : w_fibers w !! f = Some (mkChild h hook None) -> w_rows w !! h = Some r ->
  child_settles f (fst e) (snd e) w = Some (Ok tt, settled w h f r hook e).
Proof.
  intros Hc Hr. destruct e as [s t]. unfold child_settles, lift, get. unfold mbind, M_bind. cbn. rewrite Hc. cbn.
  destruct hook; [|done]. unfold taskgroup_child_done, row_at, get, lift, group, set_row, set_group, modify. unfold mbind, M_bind. cbn. rewrite Hr. cbn.
  unfold settled. cbn. destruct (g_waiter (w_group w)) as [x|] eqn:Hw; cbn; done.
Qed.

(** The row after its thunk returned [v]. *)
Definition returned (r' : BBrew) (v : value) (r : BBrew) (h : Z) (w : world) : world :=
  with_released (w_released w ++ refs [b_env r])
    (with_rows (<[h := set_env 0 r']> (w_rows w)) (with_made (w_made w ++ value_refs (b_kind r) v) w)).

Lemma brew_main_run h r r' v w : w_rows w !! h = Some r -> store_result v r = Some r' ->
  brew_main deinit_panic h v w = Some (Ok tt, returned r' v r h w).
Proof.
  intros Hr Hv. unfold brew_main. exec (row_at_run h w r Hr).
  assert (Hl : lift (store_result v r) w = Some (Ok r', w)) by (rewrite Hv; done). exec Hl.
  set (w1 := with_made (w_made w ++ value_refs (b_kind r) v) w).
  exec (eq_refl : modify (fun w => with_made (w_made w ++ value_refs (b_kind r) v) w) w = Some (Ok tt, w1)).
  exec (row_set_run h r' w1). exec (release_run deinit_panic Hquiet (b_env r) _).
  exec (row_at_run h (with_released _ (with_rows _ w1)) r' (lookup_insert_eq _ _ _)).
  rewrite row_set_run. unfold returned. cbn. by rewrite insert_insert_eq.
Qed.

Lemma store_fields v r r' : store_result v r = Some r' -> b_fiber r' = b_fiber r /\ b_joined r' = b_joined r /\ b_kind r' = b_kind r /\
  b_payload r' = b_payload r /\ b_env r' = b_env r /\ b_done_stamp r' = b_done_stamp r /\ b_status r' = b_status r /\
  result_of r' = v /\ (b_value r = 0 -> result_refs r' ≡ₚ result_refs r ++ value_refs (b_kind r) v).
Proof.
  unfold store_result, result_of, result_refs, value_refs. destruct (b_kind r) as [p|n] eqn:Hk, v as [x|bs]; intros Hs; try done.
  - injection Hs as <-. cbn. rewrite ?Hk. split_and!; try done. intros ->. by destruct p.
  - destruct (slen bs =? n); [|done]. injection Hs as <-. cbn. rewrite ?Hk. split_and!; try done. intros _. by rewrite app_nil_r.
Qed.

(** A running child's row. *)
Definition running_row w h f r hook : Prop :=
  w_rows w !! h = Some r /\ b_fiber r = Some f /\ w_fibers w !! f = Some (mkChild h hook None).

Lemma running_cases w f c : base w -> w_fibers w !! f = Some c -> ch_end c = None -> exists r, running_row w (ch_row c) f r (ch_hook c).
Proof.
  intros B Hc He. destruct (bs_fiber _ B _ _ Hc) as (r & Hr & Hf). exists r. split_and!; [done|done|]. destruct c as [a b e]. cbn in *. by subst e.
Qed.

Lemma running_unjoined w h f r hook : base w -> running_row w h f r hook -> b_joined r = false /\ unjoined w h /\ ending w h = None /\ b_value r = 0.
Proof.
  intros B (Hr & Hf & Hc). assert (He : ending w h = None) by (rewrite (ending_row _ _ _ Hr), Hf, Hc; done).
  destruct (row_cases w h r B Hr) as [(_ & ? & _)|(Hj & _)]; [congruence|]. split_and!; [done|by exists r|done|by apply (bs_value _ B h)].
Qed.

(** The world once the child of [h] ended: only that row changed. *)
Record ends w w' h f r hook r' (e : Z * str) rel made : Prop := {
  en_row : running_row w h f r hook;
  en_rows : w_rows w' = <[h := if hook then set_stamp (g_clock (w_group w) + 1) r' else r']> (w_rows w);
  en_fibers : w_fibers w' = <[f := mkChild h hook (Some e)]> (w_fibers w);
  en_fields : b_fiber r' = b_fiber r /\ b_joined r' = b_joined r /\ b_kind r' = b_kind r /\ b_payload r' = b_payload r /\ b_done_stamp r' = b_done_stamp r;
  en_ok : ended_ok e;
  en_refs : row_refs r' ++ rel ≡ₚ row_refs r ++ made;
  en_ledger : w_released w' = w_released w ++ rel /\ w_moved w' = w_moved w /\ w_made w' = w_made w ++ made;
  en_group : w_group w' = if hook then mkGroup (g_children (w_group w)) (g_delivered (w_group w)) (g_clock (w_group w) + 1) None else w_group w;
  en_woken : w_woken w' = if hook then match g_waiter (w_group w) with Some _ => true | None => w_woken w end else w_woken w;
  en_same : w_self w' = w_self w /\ w_pc w' = w_pc w /\ w_unwinding w' = w_unwinding w
}.

Lemma settle_ends w h f r hook e : running_row w h f r hook -> ended_ok e -> ends w (settled w h f r hook e) h f r hook r e [] [].
Proof. intros Hr He. destruct hook; split; try done; cbn; rewrite ?app_nil_r; try done. by destruct Hr as (Hr & _); rewrite insert_id. Qed.

Lemma return_ends w h f r r' hook v : base w -> running_row w h f r hook -> store_result v r = Some r' ->
  ends w (settled (returned r' v r h w) h f (set_env 0 r') hook (BREW_OK, [])) h f r hook (set_env 0 r') (BREW_OK, []) (refs [b_env r]) (value_refs (b_kind r) v).
Proof.
  intros B Hr Hv. destruct (store_fields v r r' Hv) as (? & ? & ? & ? & ? & ? & ? & ? & Hres). destruct (running_unjoined w h f r hook B Hr) as (_ & _ & _ & Hz).
  assert (Hperm : row_refs (set_env 0 r') ++ refs [b_env r] ≡ₚ row_refs r ++ value_refs (b_kind r) v).
  { rewrite !row_refs_eq. change (result_refs (set_env 0 r')) with (result_refs r'). cbn [b_env set_env]. change (refs [0]) with (@nil Z).
    rewrite (Hres Hz). solve_Permutation. }
  destruct hook; split; try done; cbn; try (by left); by rewrite ?insert_insert_eq.
Qed.

Lemma sorted_snoc {A} (R : A -> A -> Prop) (l : list A) x : StronglySorted R l -> Forall (fun y => R y x) l -> StronglySorted R (l ++ [x]).
Proof.
  induction 1 as [|y l Hs IH Hy]; intros Hx; [by repeat constructor|]. apply Forall_cons in Hx as [Hyx Hx]. cbn. constructor; [by apply IH|].
  apply Forall_app. by split; [|constructor].
Qed.

Section ends.
Context (w w' : world) (h f : Z) (r : BBrew) (hook : bool) (r' : BBrew) (e : Z * str) (rel made : list Z).
Context (B : base w) (F : fleet elem w) (En : ends w w' h f r hook r' e rel made).

Let r1 : BBrew := if hook then set_stamp (g_clock (w_group w) + 1) r' else r'.

Lemma ends_other x : x <> h -> w_rows w' !! x = w_rows w !! x /\ ending w' x = ending w x.
Proof.
  intros Hx. assert (Hr : w_rows w' !! x = w_rows w !! x) by (rewrite (en_rows _ _ _ _ _ _ _ _ _ _ En), lookup_insert_ne; done).
  split; [done|]. apply ending_same; [done|]. intros y g Hy Hg. rewrite (en_fibers _ _ _ _ _ _ _ _ _ _ En), lookup_insert_ne; [done|].
  intros <-. destruct (en_row _ _ _ _ _ _ _ _ _ _ En) as (_ & _ & Hc).
  destruct (row_cases w x y B Hy) as [(_ & ? & _)|(_ & g' & hook' & Hg' & Hc')]; congruence.
Qed.

Lemma ends_row : w_rows w' !! h = Some r1 /\ ending w' h = Some e.
Proof.
  assert (Hr : w_rows w' !! h = Some r1) by (rewrite (en_rows _ _ _ _ _ _ _ _ _ _ En); apply lookup_insert_eq). split; [done|].
  destruct (en_row _ _ _ _ _ _ _ _ _ _ En) as (_ & Hf & _). destruct (en_fields _ _ _ _ _ _ _ _ _ _ En) as (Hf' & _).
  rewrite (ending_row _ _ _ Hr), (en_fibers _ _ _ _ _ _ _ _ _ _ En). unfold r1. destruct hook; cbn; by rewrite Hf', Hf, lookup_insert_eq.
Qed.

Lemma ends_rows_of : rows_of w' = rows_of w.
Proof. unfold rows_of. rewrite (en_group _ _ _ _ _ _ _ _ _ _ En). by destruct hook. Qed.

Lemma ends_hook : hook = true <-> h ∈ rows_of w.
Proof. destruct (en_row _ _ _ _ _ _ _ _ _ _ En) as (_ & _ & Hc). apply (fl_hook _ _ F f _ Hc). Qed.

Lemma ends_base : base w'.
Proof.
  destruct (en_row _ _ _ _ _ _ _ _ _ _ En) as (Hr & Hf & Hc). destruct (en_fields _ _ _ _ _ _ _ _ _ _ En) as (E1 & E2 & E3 & E4 & E5).
  destruct (en_ledger _ _ _ _ _ _ _ _ _ _ En) as (L1 & L2 & L3).
  apply (base_end w w' h f r r1 hook e rel made); try done; unfold r1; try (by destruct hook).
  - apply (en_rows _ _ _ _ _ _ _ _ _ _ En).
  - apply (en_fibers _ _ _ _ _ _ _ _ _ _ En).
  - apply (en_ok _ _ _ _ _ _ _ _ _ _ En).
  - pose proof (en_refs _ _ _ _ _ _ _ _ _ _ En). by destruct hook.
Qed.

Lemma ends_stamp x : x ∈ rows_of w -> stamp w' x = if decide (x = h) then g_clock (w_group w) + 1 else stamp w x.
Proof.
  intros Hx. unfold stamp. case_decide as Heq; [subst x|by rewrite (proj1 (ends_other x Heq))].
  rewrite (proj1 ends_row). unfold r1. by rewrite (proj2 ends_hook Hx).
Qed.

Lemma ends_stamps x : x ∈ rows_of w -> 0 <= stamp w x <= g_clock (w_group w).
Proof. apply (fl_clock _ _ F). Qed.

Lemma ends_fleet : fleet elem w'.
Proof.
  pose proof ends_rows_of as Hro. pose proof (en_group _ _ _ _ _ _ _ _ _ _ En) as Hg.
  assert (Hch : g_children (w_group w') = g_children (w_group w) /\ g_delivered (w_group w') = g_delivered (w_group w)) by (rewrite Hg; by destruct hook).
  destruct Hch as [Hch Hdel]. split; rewrite ?Hro, ?Hch, ?Hdel; [apply F| | | | | |apply (fl_delivered _ _ F)|apply (fl_some _ _ F)|].
  - intros x Hx. destruct (fl_row _ _ F x Hx) as (y & Hy & Hk). destruct (decide (x = h)) as [->|Hn].
    + exists r1. split; [apply ends_row|]. destruct (en_row _ _ _ _ _ _ _ _ _ _ En) as (Hr & _). destruct (en_fields _ _ _ _ _ _ _ _ _ _ En) as (_ & _ & Hk' & _).
      assert (y = r) as -> by congruence. unfold r1. destruct hook; cbn; congruence.
    + exists y. by rewrite (proj1 (ends_other x Hn)).
  - intros g c. rewrite (en_fibers _ _ _ _ _ _ _ _ _ _ En). destruct (decide (f = g)) as [<-|Hn].
    + rewrite lookup_insert_eq. intros [= <-]. apply ends_hook.
    + rewrite lookup_insert_ne by done. apply (fl_hook _ _ F).
  - intros x Hx. rewrite (ends_stamp x Hx), Hg. pose proof (ends_stamps x Hx). case_decide as Hxh; [subst x; rewrite (proj2 ends_hook Hx); cbn; lia|].
    destruct hook; cbn; lia.
  - intros x Hx. rewrite (ends_stamp x Hx). pose proof (ends_stamps x Hx). case_decide as Hxh; [subst x|rewrite (proj2 (ends_other x Hxh)); by apply (fl_runs _ _ F)].
    rewrite (proj2 ends_row). split; [lia|done].
  - intros x y Hx Hy. rewrite (ends_stamp x Hx), (ends_stamp y Hy). pose proof (ends_stamps x Hx). pose proof (ends_stamps y Hy).
    repeat case_decide; subst; try done; try lia. apply (fl_stamps _ _ F); done.
  - rewrite Hg. pose proof (fl_positive _ _ F). destruct hook; cbn; lia.
Qed.

Lemma ends_unjoined x : unjoined w x -> unjoined w' x.
Proof.
  intros (y & Hy & Hj). destruct (decide (x = h)) as [->|Hn]; [|exists y; by rewrite (proj1 (ends_other x Hn))].
  exists r1. split; [apply ends_row|]. destruct (en_row _ _ _ _ _ _ _ _ _ _ En) as (Hr & _). destruct (en_fields _ _ _ _ _ _ _ _ _ _ En) as (_ & Hj' & _).
  assert (y = r) as -> by congruence. unfold r1. destruct hook; cbn; congruence.
Qed.

Lemma ends_joined x : joined w x -> joined w' x /\ (passed w x -> passed w' x).
Proof.
  intros (y & Hy & Hf). assert (Hn : x <> h).
  { intros ->. destruct (en_row _ _ _ _ _ _ _ _ _ _ En) as (Hr & Hfr & _). congruence. }
  destruct (ends_other x Hn) as [Hr He]. split; [exists y; by rewrite Hr|]. destruct (en_same _ _ _ _ _ _ _ _ _ _ En) as (_ & _ & Hu).
  intros (e' & He' & Hp). exists e'. by rewrite He, Hu.
Qed.

Lemma ends_child j x : child_nth w' j x <-> child_nth w j x.
Proof. unfold child_nth. rewrite (en_group _ _ _ _ _ _ _ _ _ _ En). by destruct hook. Qed.

Lemma ends_at p : at_pc p w -> at_pc p w'.
Proof.
  destruct (en_same _ _ _ _ _ _ _ _ _ _ En) as (Hs & _ & Hu). pose proof (en_group _ _ _ _ _ _ _ _ _ _ En) as Hg. pose proof (en_woken _ _ _ _ _ _ _ _ _ _ En) as Hwk.
  assert (Hw : g_waiter (w_group w) = None -> g_waiter (w_group w') = None) by (rewrite Hg; by destruct hook).
  assert (Hall : all_unjoined w -> all_unjoined w') by (intros H x; rewrite ends_rows_of; intros Hx; by apply ends_unjoined, H).
  assert (Hpark : forall (P P' : Prop), (hook = false -> P -> P') ->
    (if w_woken w then g_waiter (w_group w) = None else g_waiter (w_group w) = Some (w_self w) /\ P) ->
    (if w_woken w' then g_waiter (w_group w') = None else g_waiter (w_group w') = Some (w_self w') /\ P')).
  { intros P P' HP. rewrite Hwk, Hg, Hs. destruct (w_woken w).
    - intros Hn. rewrite Hn. by destruct hook.
    - intros [Hn HPw]. rewrite Hn. destruct hook; cbn; [done|]. split; [done|]. by apply HP. }
  assert (Hstamp : hook = false -> forall x, x ∈ rows_of w -> stamp w' x = stamp w x).
  { intros Hf x Hx. rewrite (ends_stamp x Hx). case_decide as Heq; [|done]. subst x. apply ends_hook in Hx. congruence. }
  destruct p; cbn [at_pc]; rewrite ?Hu, ?ends_rows_of.
  - intros [? ?]. auto.
  - auto.
  - intros [? Hp]. split; [auto|]. revert Hp. apply Hpark. intros Hf [Hne Hz]. split; [done|]. intros x Hx. by rewrite Hstamp; auto.
  - intros [? ?]. auto.
  - intros [? Hp]. split; [auto|]. revert Hp. apply Hpark. intros Hf (x & Hx & Hz). exists x. split; [done|]. by rewrite Hstamp.
  - intros (? & (x & Hx) & H1 & H2). split_and!; [auto|exists x; by apply ends_child| |]; intros j y Hj Hy%ends_child.
    + apply ends_joined. by apply (H1 j).
    + apply ends_unjoined. by apply (H2 j).
  - intros (? & (x & Hx & Hux) & H1 & H2). split_and!; [auto|exists x; split; [by apply ends_child|by apply ends_unjoined]| |].
    + intros j y Hj Hy%ends_child. destruct (H1 j y Hj Hy) as [Hjo Hpa]. destruct (ends_joined y Hjo). auto.
    + intros Hun j y Hj Hy%ends_child. apply ends_unjoined. by apply (H2 Hun j).
  - intros (? & ? & Hj & Hn). split_and!; [auto|auto|by apply ends_unjoined|done].
  - intros (? & ? & Hj & Hn). split_and!; [auto|auto|by apply ends_unjoined|done].
Qed.

Lemma ends_see x : x <> h -> see w' x = see w x.
Proof. intros Hx. destruct (ends_other x Hx). by apply see_same. Qed.

Lemma ends_view : if hook then exists a b g l, view w = a ++ mkSeen h None [] [] :: b /\
    view w' = a ++ mkSeen h (Some (if fst e =? BREW_OK then Got (result_of r') else Failed (fst e) (snd e))) g l :: b
  else view w' = view w.
Proof.
  destruct (en_row _ _ _ _ _ _ _ _ _ _ En) as (Hr & Hf & Hc). unfold view. rewrite ends_rows_of.
  pose proof ends_hook as Hhook. pose proof ends_see as Hsees. destruct ends_row as [Hr' He']. unfold r1 in Hr'. clear r1 En. destruct hook.
  - assert (Hh : h ∈ rows_of w) by (by apply Hhook). apply list_elem_of_split in Hh as (a & b & Hab).
    pose proof (fl_nodup _ _ F) as Hnd. rewrite Hab in Hnd |- *. rewrite <-Permutation_middle in Hnd. apply NoDup_cons in Hnd as [Hn _].
    exists (see w <$> a), (see w <$> b), (given w' h), (left_over w' h). rewrite !fmap_app. split.
    + f_equal. cbn. f_equal. assert (He : ending w h = None) by (rewrite (ending_row _ _ _ Hr), Hf, Hc; done).
      unfold see, outcome_of, given, left_over, given. by rewrite Hr, He.
    + assert (Hsee : forall l, (forall x, x ∈ l -> x <> h) -> see w' <$> l = see w <$> l).
      { intros l Hl. apply list_fmap_ext. intros k x Hx%list_elem_of_lookup_2. by apply Hsees, Hl. }
      rewrite (Hsee a) by (intros x Hx ->; apply Hn, elem_of_app; by left). f_equal. cbn.
      rewrite (Hsee b) by (intros x Hx ->; apply Hn, elem_of_app; by right). f_equal. unfold see. f_equal.
      unfold outcome_of. by rewrite Hr', He'.
  - apply list_fmap_ext. intros k x Hx%list_elem_of_lookup_2. apply Hsees. intros ->. by apply Hhook in Hx.
Qed.

Lemma ends_queue q : queue_ok w q -> queue_ok w' (if hook then q ++ [h] else q).
Proof.
  intros [Hin Hs]. destruct (en_row _ _ _ _ _ _ _ _ _ _ En) as (Hr & Hf & Hc).
  assert (Hrun : h ∈ rows_of w -> stamp w h = 0).
  { intros Hh. apply (fl_runs _ _ F h Hh). by rewrite (ending_row _ _ _ Hr), Hf, Hc. }
  assert (Hst : forall x, x ∈ q -> stamp w' x = stamp w x).
  { intros x Hx. apply Hin in Hx as [Hx Hn]. rewrite (ends_stamp x Hx). case_decide as Heq; [|done]. subst x. by destruct Hn; apply Hrun. }
  assert (Hsq : StronglySorted (fun a b => stamp w' a < stamp w' b) q).
  { by apply (sorted_stamps w). }
  pose proof ends_stamp as Hes. pose proof ends_stamps as Hcl. pose proof ends_hook as Hh. pose proof ends_rows_of as Hro. clear r1 En. destruct hook.
  - assert (Hhr : h ∈ rows_of w) by (by apply Hh). split.
    + intros x. rewrite Hro, elem_of_app, list_elem_of_singleton, Hin. split.
      * intros [[Hx Hn]| ->]; [split; [done|]|split; [done|]].
        -- rewrite (Hes x Hx). pose proof (Hcl x Hx). case_decide; [lia|done].
        -- rewrite (Hes h Hhr), decide_True by done. pose proof (Hcl h Hhr). lia.
      * intros [Hx Hn]. destruct (decide (x = h)) as [->|Hne]; [by right|left]. split; [done|]. by rewrite (Hes x Hx), decide_False in Hn.
    + apply sorted_snoc; [done|]. apply Forall_forall. intros x Hx. apply Hin in Hx as [Hx Hn]. rewrite (Hes h Hhr), (Hes x Hx), (decide_True (P:=h=h)) by done.
      pose proof (Hcl x Hx). case_decide; [subst x; by destruct Hn; apply Hrun|lia].
  - split; [|done]. intros x. rewrite Hro, Hin. split; intros [Hx Hn]; (split; [done|]).
    + rewrite (Hes x Hx). case_decide; [subst x; by apply Hh in Hx|done].
    + rewrite (Hes x Hx) in Hn. case_decide; [subst x; by apply Hh in Hx|done].
Qed.

End ends.

(** ** A child starts *)

(** What the caller passes and the runtime hands out is in order. *)
Definition can_brew w (k : flavor) (h payload : Z) (fiber : option Z) : Prop :=
  h <> 0 /\ w_rows w !! h = None /\ (exists f, fiber = Some f /\ w_fibers w !! f = None) /\
  match k with Wide n => 0 < n <= 2 ^ 30 /\ payload <> 0 | Narrow _ => True end.

Definition new_brew (k : flavor) (payload env f : Z) : BBrew :=
  mkBrew (match k with Narrow _ => 0 | Wide _ => payload end) [] 0 env (Some f) k (-1) false 0 [].

Definition brewed (hook : bool) (g : BTaskGroup) (k : flavor) (h payload env f : Z) w : world :=
  with_group g (with_fibers (<[f := mkChild h hook None]> (w_fibers w))
    (with_rows (<[h := new_brew k payload env f]> (w_rows w)) (with_made (w_made w ++ row_refs (new_brew k payload env f)) w))).

Lemma new_refs k payload env f : row_refs (new_brew k payload env f) = refs [env; b_payload (new_brew k payload env f)].
Proof. unfold row_refs. by destruct k as [[]|]. Qed.

Lemma brew_run k h payload env f w : can_brew w k h payload (Some f) ->
  brew_of k h payload env (Some f) w = Some (Ok h, brewed false (w_group w) k h payload env f w).
Proof.
  intros (Hh & Hr & (f' & [= <-] & Hf) & Hk). set (p := match k with Narrow _ => 0 | Wide _ => payload end).
  assert (Hnew : new_row h p env k w =
    Some (Ok tt, with_rows (<[h := mkBrew p [] 0 env None k (-1) false 0 []]> (w_rows w)) (with_made (w_made w ++ refs [env; p]) w))).
  { unfold new_row. exec (eq_refl : get w = Some (Ok w, w)). rewrite decide_True by done. done. }
  assert (Hstart : forall w1, w_rows w1 !! h = Some (mkBrew p [] 0 env None k (-1) false 0 []) -> w_fibers w1 !! f = None ->
    brew_start h (Some f) w1 = Some (Ok h, with_fibers (<[f := mkChild h false None]> (w_fibers w1)) (with_rows (<[h := new_brew k payload env f]> (w_rows w1)) w1))).
  { intros w1 Hr1 Hf1. unfold brew_start. exec (eq_refl : get w1 = Some (Ok w1, w1)). exec (row_at_run h w1 _ Hr1). rewrite decide_True by done. done. }
  assert (Hbrew : (_ ← new_row h p env k; brew_start h (Some f)) w = Some (Ok h, brewed false (w_group w) k h payload env f w)).
  { exec Hnew. rewrite Hstart; [|apply lookup_insert_eq|done]. unfold brewed. rewrite new_refs. cbn. rewrite insert_insert_eq. by destruct w. }
  destruct k as [b|n]; [exact Hbrew|]. cbn [brew_of]. unfold beans_brew_typed. destruct Hk as [Hn Hp].
  rewrite (proj2 (Z.leb_gt _ _)), (proj2 (Z.ltb_ge _ _)), (proj2 (Z.eqb_neq _ _) Hp) by lia. exact Hbrew.
Qed.

Lemma brew_group_run h payload env f w : can_brew w elem h payload (Some f) ->
  brew_in_group elem h payload env (Some f) w =
    Some (Ok tt, brewed true (set_children (g_children (w_group w) ++ [h]) (w_group w)) elem h payload env f w).
Proof.
  intros Hc. pose proof (brew_run elem h payload env f w Hc) as Hb.
  assert (Ha : taskgroup_adopt h (brewed false (w_group w) elem h payload env f w) =
    Some (Ok tt, brewed true (set_children (g_children (w_group w) ++ [h]) (w_group w)) elem h payload env f w)).
  { set (w1 := brewed false _ _ _ _ _ _ _). unfold taskgroup_adopt. exec (eq_refl : group w1 = Some (Ok (w_group w), w1)). exec (set_group_run _ w1).
    set (w2 := with_group _ w1). exec (row_at_run h w2 (new_brew elem payload env f) (lookup_insert_eq _ _ _)).
    exec (eq_refl : lift (b_fiber (new_brew elem payload env f)) w2 = Some (Ok f, w2)). exec (eq_refl : get w2 = Some (Ok w2, w2)).
    assert (Hl : lift (w_fibers w2 !! f) w2 = Some (Ok (mkChild h false None), w2)).
    { unfold lift, w2, w1. cbn. by rewrite lookup_insert_eq. }
    exec Hl. unfold modify. unfold w2, w1, brewed. cbn. by rewrite insert_insert_eq. }
  unfold brew_in_group, beans_taskgroup_brew, beans_taskgroup_brew_typed. unfold brew_of in Hb. destruct elem; by exec Hb.
Qed.

Section brewed.
Context (w : world) (k : flavor) (h payload env f : Z) (B : base w) (F : fleet elem w) (Hc : can_brew w k h payload (Some f)).

Lemma brewed_new : h <> 0 /\ w_rows w !! h = None /\ w_fibers w !! f = None.
Proof. by destruct Hc as (? & ? & (f' & [= <-] & ?) & _). Qed.

Lemma brewed_base hook g : base (brewed hook g k h payload env f w).
Proof.
  destruct brewed_new as (Hh & Hr & Hf). eapply (base_new w _ h f (new_brew k payload env f) hook); try done.
  destruct Hc as (_ & _ & _ & Hk). by destruct k as [|]; [|destruct Hk].
Qed.

Lemma brewed_old hook g x : is_Some (w_rows w !! x) -> x <> h /\ w_rows (brewed hook g k h payload env f w) !! x = w_rows w !! x /\
  ending (brewed hook g k h payload env f w) x = ending w x.
Proof.
  destruct brewed_new as (Hh & Hr & Hf). intros [r Hx]. assert (Hn : x <> h) by congruence. split; [done|].
  assert (Hrow : w_rows (brewed hook g k h payload env f w) !! x = w_rows w !! x) by (cbn; by rewrite lookup_insert_ne).
  split; [done|]. apply ending_same; [done|]. intros y f' Hy Hf'. cbn. rewrite lookup_insert_ne; [done|]. intros <-.
  destruct (row_cases w x y B Hy) as [(_ & ? & _)|(_ & g' & hook' & Hg' & Hc')]; congruence.
Qed.

Lemma brewed_row hook g : w_rows (brewed hook g k h payload env f w) !! h = Some (new_brew k payload env f) /\
  ending (brewed hook g k h payload env f w) h = None.
Proof. unfold ending. cbn. rewrite !lookup_insert_eq. cbn. by rewrite lookup_insert_eq. Qed.

(** Outside the group nothing changes. *)
Lemma brewed_alone : let w' := brewed false (w_group w) k h payload env f w in
  fleet elem w' /\ view w' = view w /\ (forall q, queue_ok w q -> queue_ok w' q) /\ (all_unjoined w -> all_unjoined w').
Proof.
  intros w'. assert (Hold : forall x, x ∈ rows_of w -> x <> h /\ w_rows w' !! x = w_rows w !! x /\ ending w' x = ending w x).
  { intros x Hx. apply brewed_old. by apply rows_exist. }
  assert (Hst : forall x, x ∈ rows_of w -> stamp w' x = stamp w x) by (intros x Hx; unfold stamp; by rewrite (proj1 (proj2 (Hold x Hx)))).
  assert (Hnh : h ∉ rows_of w) by (intros Hh; by destruct (Hold h Hh)). split_and!.
  - destruct F as [F1 F2 F3 F4 F5 F6 F7 F8 F9]. split; try done.
    + intros x Hx. rewrite (proj1 (proj2 (Hold x Hx))). by apply F2.
    + intros g c. cbn. destruct (decide (f = g)) as [<-|Hn]; [|rewrite lookup_insert_ne by done; apply F3].
      rewrite lookup_insert_eq. intros [= <-]. cbn. split; [done|]. intros Hh. by destruct Hnh.
    + intros x Hx. rewrite (Hst x Hx). by apply F4.
    + intros x Hx. rewrite (Hst x Hx), (proj2 (proj2 (Hold x Hx))). by apply F5.
    + intros x y Hx Hy. rewrite (Hst x Hx), (Hst y Hy). by apply F6.
  - apply list_fmap_ext. intros i x Hx%list_elem_of_lookup_2. destruct (Hold x Hx) as (_ & ? & ?). by apply see_same.
  - intros q [Hin Hs]. split.
    + intros x. rewrite Hin. change (rows_of w') with (rows_of w). split; intros [Hx ?]; (split; [done|]); by rewrite (Hst x Hx) in *.
    + apply (sorted_stamps w); [|done]. intros x Hx. apply Hst. by apply Hin.
  - intros Hu x Hx. destruct (Hu x Hx) as (y & Hy & ?). exists y. by rewrite (proj1 (proj2 (Hold x Hx))).
Qed.

(** In the group the row is the last, and runs. *)
Lemma brewed_in_group : k = elem -> let w' := brewed true (set_children (g_children (w_group w) ++ [h]) (w_group w)) k h payload env f w in
  fleet elem w' /\ view w' = view w ++ [mkSeen h None [] []] /\ (forall q, queue_ok w q -> queue_ok w' q) /\ (all_unjoined w -> all_unjoined w').
Proof.
  intros Hk w'. destruct brewed_new as (Hh & Hr & Hf). assert (Hro : rows_of w' = rows_of w ++ [h]).
  { unfold rows_of. cbn. rewrite nz_app, nz_cons, (proj2 (Z.eqb_neq _ _) Hh). done. }
  assert (Hold : forall x, x ∈ rows_of w -> x <> h /\ w_rows w' !! x = w_rows w !! x /\ ending w' x = ending w x).
  { intros x Hx. apply brewed_old. by apply rows_exist. }
  assert (Hst : forall x, x ∈ rows_of w -> stamp w' x = stamp w x) by (intros x Hx; unfold stamp; by rewrite (proj1 (proj2 (Hold x Hx)))).
  destruct (brewed_row true (set_children (g_children (w_group w) ++ [h]) (w_group w))) as [Hrow Hend].
  assert (Hsh : stamp w' h = 0) by (unfold stamp, w'; by rewrite Hrow).
  assert (Hin : forall x, x ∈ rows_of w' <-> x ∈ rows_of w \/ x = h) by (intros x; by rewrite Hro, elem_of_app, list_elem_of_singleton).
  assert (Hnh : h ∉ rows_of w) by (intros Hx; by destruct (Hold h Hx)). split_and!.
  - destruct F as [F1 F2 F3 F4 F5 F6 F7 F8 F9]. split; [|setoid_rewrite Hin..| | |done].
    + rewrite Hro. apply NoDup_app. split_and!; [done| |by apply NoDup_singleton]. by intros x Hx ->%list_elem_of_singleton.
    + intros x [Hx| ->]; [rewrite (proj1 (proj2 (Hold x Hx))); by apply F2|]. exists (new_brew k payload env f). split; [done|exact Hk].
    + intros g c. cbn. destruct (decide (f = g)) as [<-|Hn]; [rewrite lookup_insert_eq; intros [= <-]; cbn; split; [by right|done]|].
      rewrite lookup_insert_ne by done. intros Hg. rewrite (F3 g c Hg). split; [by left|]. intros [?|Heq]; [done|].
      destruct (bs_fiber _ B _ _ Hg) as (y & Hy & _). rewrite Heq in Hy. congruence.
    + intros x [Hx| ->]; [rewrite (Hst x Hx); by apply F4|]. rewrite Hsh. split; [lia|done].
    + intros x [Hx| ->]; [rewrite (Hst x Hx), (proj2 (proj2 (Hold x Hx))); by apply F5|]. rewrite Hsh. by split.
    + intros x y [Hx| ->] [Hy| ->]; rewrite ?Hsh, ?(Hst x Hx), ?(Hst y Hy); try done; try (intros; lia). by apply F6.
    + rewrite Hro. cbn. rewrite !slen_app. change (slen [h]) with 1. lia.
    + rewrite Hro. intros _ Hn. by apply app_nil in Hn as [_ ?].
  - unfold view. rewrite Hro, fmap_app. f_equal.
    + apply list_fmap_ext. intros i x Hx%list_elem_of_lookup_2. destruct (Hold x Hx) as (_ & ? & ?). by apply see_same.
    + cbn. f_equal. unfold see, outcome_of, given, left_over, given, w'. by rewrite Hrow, Hend.
  - intros q [Hqin Hs]. split.
    + intros x. rewrite Hqin, Hin. split; [intros [Hx ?]; split; [by left|by rewrite (Hst x Hx)]|].
      intros [[Hx| ->] Hn]; [split; [done|by rewrite (Hst x Hx) in Hn]|done].
    + apply (sorted_stamps w); [|done]. intros x Hx. apply Hst. by apply Hqin.
  - intros Hu x [Hx| ->]%Hin; [|exists (new_brew k payload env f); by split]. destruct (Hu x Hx) as (y & Hy & ?). exists y.
    by rewrite (proj1 (proj2 (Hold x Hx))).
Qed.
End brewed.

(** ** One brewed fiber *)

(** What a call on a handle outside the group does. *)
Definition lone_ok w (m : M (answer + pc)) : Prop := exists res w',
  m w = Some (res, w') /\ base w' /\ fleet elem w' /\ at_pc (next_pc res) w' /\ answer_of res <> ACancelled /\
  w_self w' = w_self w /\ w_unwinding w' = w_unwinding w /\ view w' = view w /\ forall q, queue_ok w q -> queue_ok w' q.

(** A change of one row outside the group. *)
Lemma lone_frame w w' h : fleet elem w -> h ∉ rows_of w -> w_group w' = w_group w ->
  (forall x, x <> h -> w_rows w' !! x = w_rows w !! x /\ ending w' x = ending w x) ->
  (forall f c, w_fibers w' !! f = Some c -> w_fibers w !! f = Some c) ->
  fleet elem w' /\ view w' = view w /\ (forall q, queue_ok w q -> queue_ok w' q) /\ (all_unjoined w -> all_unjoined w').
Proof.
  intros F Hn Hg Hold Hfib. assert (Hro : rows_of w' = rows_of w) by (unfold rows_of; by rewrite Hg).
  assert (Hne : forall x, x ∈ rows_of w -> x <> h) by (intros x Hx ->; done).
  assert (Hst : forall x, x ∈ rows_of w -> stamp w' x = stamp w x) by (intros x Hx; unfold stamp; by rewrite (proj1 (Hold x (Hne x Hx)))).
  split_and!.
  - apply (fleet_frame elem w); [done|by rewrite Hg..| | | |].
    + intros x Hx. rewrite (proj1 (Hold x (Hne x Hx))). by apply (fl_row _ _ F).
    + exact Hst.
    + intros x Hx. by rewrite (proj2 (Hold x (Hne x Hx))).
    + intros f c Hc. exists c. auto.
  - unfold view. rewrite Hro. apply list_fmap_ext. intros i x Hx%list_elem_of_lookup_2. destruct (Hold x (Hne x Hx)). by apply see_same.
  - intros q [Hin Hs]. split.
    + intros x. rewrite Hin, Hro. split; intros [Hx ?]; (split; [done|]); by rewrite (Hst x Hx) in *.
    + apply (sorted_stamps w); [|done]. intros x Hx. apply Hst. by apply Hin.
  - intros Hu x. rewrite Hro. intros Hx. destruct (Hu x Hx) as (y & Hy & ?). exists y. by rewrite (proj1 (Hold x (Hne x Hx))).
Qed.

(** A joined row's record changes. *)
Lemma base_joined_row w w' h r r' rel mov : base w -> w_rows w !! h = Some r -> b_fiber r = None ->
  w_rows w' = <[h := r']> (w_rows w) -> w_fibers w' = w_fibers w ->
  b_fiber r' = None -> b_joined r' = true -> b_status r' = b_status r ->
  match b_kind r' with Narrow _ => b_payload r' = 0 | Wide _ => True end ->
  w_released w' = w_released w ++ rel -> w_moved w' = w_moved w ++ mov -> w_made w' = w_made w ->
  row_refs r' ++ rel ++ mov ≡ₚ row_refs r -> base w' /\ forall x, x <> h -> w_rows w' !! x = w_rows w !! x /\ ending w' x = ending w x.
Proof.
  intros [B0 B1 B2 BV B3 B4] Hh Hf Hrows Hfib Hf' Hj' Hs Hk Hrel Hmov Hmade Hperm.
  assert (Hne : h <> 0) by congruence. split.
  2:{ intros x Hx. assert (Hr : w_rows w' !! x = w_rows w !! x) by (by rewrite Hrows, lookup_insert_ne). split; [done|].
      apply ending_same; [done|]. intros. by rewrite Hfib. }
  split.
  - by rewrite Hrows, lookup_insert_ne.
  - intros x y. rewrite Hrows. unfold row_ok. rewrite Hfib. intros [[<- <-]|[_ Hy]]%lookup_insert_Some; [|by apply B1].
    rewrite Hf'. split; [done|]. specialize (B1 h r Hh). unfold row_ok, ended_ok in *. rewrite Hf in B1. cbn in *. rewrite Hs. apply B1.
  - intros x y. rewrite Hrows. intros [[<- <-]|[_ Hy]]%lookup_insert_Some; [|by apply (B2 x)]. destruct (b_kind r'); [done|]. by rewrite Hj'.
  - intros x y. rewrite Hrows. intros [[<- <-]|[Hn Hy]]%lookup_insert_Some.
    + unfold ending. rewrite Hrows, lookup_insert_eq. cbn. by rewrite Hf'.
    + unfold ending. rewrite Hrows, lookup_insert_ne, Hfib by done. by apply (BV x).
  - intros g c. rewrite Hfib, Hrows. intros Hg. destruct (B3 g c Hg) as (x & Hx & Hgx). exists x. split; [|done].
    rewrite lookup_insert_ne; [done|]. intros ->. congruence.
  - unfold held in *. rewrite Hrows, Hrel, Hmov, Hmade, (held_insert _ _ r) by done.
    rewrite <-B4, (held_delete _ _ r Hh), <-Hperm. solve_Permutation.
Qed.

Section lone.
Context (w : world) (h : Z) (B : base w) (F : fleet elem w) (Hn : h ∉ rows_of w) (Hw : g_waiter (w_group w) = None)
  (Hu : w_unwinding w = false -> all_unjoined w).

(** The row changed, nothing else of note. *)
Lemma lone_done (m : M (answer + pc)) w' res : m w = Some (res, w') -> base w' -> w_group w' = w_group w ->
  (forall x, x <> h -> w_rows w' !! x = w_rows w !! x /\ ending w' x = ending w x) ->
  (forall f c, w_fibers w' !! f = Some c -> w_fibers w !! f = Some c) -> w_self w' = w_self w -> w_unwinding w' = w_unwinding w ->
  (forall p, res <> Ok (inr p)) -> res <> Ok (inl ACancelled) -> lone_ok w m.
Proof.
  intros Hm B' Hg Hold Hfib Hs Hun Hp Ha. destruct (lone_frame w w' h F Hn Hg Hold Hfib) as (F' & Hv & Hq & Hall).
  exists res, w'. split; [done|]. split; [done|]. split; [done|]. split.
  { destruct res as [[a|p]|t ln c]; [|by destruct (Hp p)|]; cbn; rewrite Hg; [split; [done|]|done]. rewrite Hun. auto. }
  split; [destruct res as [[a|p]|t ln c]; cbn; [intros ->; done|done|done]|]. split_and!; done.
Qed.

(** The row stays as it is: the owner parks at it. *)
Lemma lone_parks p r f hook : running_row w h f r hook -> p = PJoin h \/ (exists line col, p = PScopeOne h line col) ->
  forall m, m w = Some (Ok (inr p), with_woken false w) -> lone_ok w m.
Proof.
  intros Hr Hp m Hm. destruct (running_unjoined w h f r hook B Hr) as (_ & Hj & _ & _).
  exists (Ok (inr p)), (with_woken false w). split; [done|]. split; [by eapply base_ext|]. split; [by apply (fleet_same w)|]. split.
  { destruct Hp as [->|(line & col & ->)]; by split_and!. }
  split_and!; try done. intros q Hq. by destruct Hq.
Qed.

Lemma base_half_claimed r : w_rows w !! h = Some r -> b_fiber r = None ->
  base (half_claimed h r w) /\ forall x, x <> h -> w_rows (half_claimed h r w) !! x = w_rows w !! x /\ ending (half_claimed h r w) x = ending w x.
Proof.
  intros Hr Hf. pose proof (bs_row _ B h r Hr) as Hrow. unfold row_ok in Hrow. rewrite Hf in Hrow. destruct Hrow as [Hj _].
  pose proof (bs_box _ B h r Hr) as Hk. unfold half_claimed. destruct (b_kind r) as [p|n] eqn:Hkr.
  - apply (base_joined_row w _ h r (set_value 0 r) [] (result_refs r) B Hr Hf); cbn; rewrite ?app_nil_r; try done; [by rewrite Hkr|].
    rewrite !row_refs_eq. unfold result_refs. cbn. rewrite Hkr. by destruct p; rewrite ?app_nil_r.
  - apply (base_joined_row w _ h r (set_payload 0 [] r) (result_refs r) [] B Hr Hf); cbn; rewrite ?app_nil_r; try done; [by rewrite Hkr|].
    rewrite !row_refs_eq. unfold result_refs. cbn. by rewrite Hkr, app_nil_r.
Qed.

Lemma base_half_dropped r : w_rows w !! h = Some r -> b_fiber r = None ->
  base (half_dropped h r w) /\ forall x, x <> h -> w_rows (half_dropped h r w) !! x = w_rows w !! x /\ ending (half_dropped h r w) x = ending w x.
Proof.
  intros Hr Hf. pose proof (bs_row _ B h r Hr) as Hrow. unfold row_ok in Hrow. rewrite Hf in Hrow. destruct Hrow as [Hj _].
  pose proof (bs_box _ B h r Hr) as Hk. unfold half_dropped. destruct (b_status r =? BREW_OK); [|done].
  apply (base_joined_row w _ h r (emptied_row r) (result_refs r) [] B Hr Hf); cbn; rewrite ?app_nil_r; try done;
    try (unfold emptied_row; by destruct (b_payload r =? 0)).
  - unfold emptied_row. destruct (Z.eqb_spec (b_payload r) 0); cbn; by destruct (b_kind r).
  - rewrite emptied_refs, (row_refs_eq r); [done|]. by destruct (b_kind r).
Qed.
End lone.

Lemma lone_ext w w1 m m' : lone_ok w1 m' -> m w = m' w1 -> view w1 = view w -> w_self w1 = w_self w -> w_unwinding w1 = w_unwinding w ->
  (forall q, queue_ok w q -> queue_ok w1 q) -> lone_ok w m.
Proof.
  intros (res & w' & Hm & B & F & Hat & Ha & Hs & Hu & Hv & Hq) Hmm Hv1 Hs1 Hu1 Hq1. exists res, w'. rewrite Hmm, <-Hv1, <-Hs1, <-Hu1.
  split_and!; try done. auto.
Qed.

(** A handle whose child ended is joined first. *)
Lemma lone_joined w h f r e : base w -> fleet elem w -> h ∉ rows_of w -> ready_row w h r f e ->
  let w1 := joined_world h f r e w in
  base w1 /\ fleet elem w1 /\ (h ∉ rows_of w1) /\ view w1 = view w /\ (forall q, queue_ok w q -> queue_ok w1 q) /\
  (all_unjoined w -> all_unjoined w1) /\ w_rows w1 !! h = Some (set_joined (fst e) (snd e) r).
Proof.
  intros B F Hn Hrdy w1. destruct (join_ready h r f e w B Hrdy) as [_ J]. pose proof (jn_base _ _ _ J B) as B1.
  destruct (lone_frame w w1 h F Hn eq_refl) as (F1 & Hv & Hq & Hall).
  { intros x Hx. destruct (joins_rest w w1 h x B J Hx) as (? & ? & _). done. }
  { intros g c. cbn. by intros [_ ?]%lookup_delete_Some. }
  split_and!; try done. apply lookup_insert_eq.
Qed.

Lemma handle_cases w h : base w -> is_Some (w_rows w !! h) -> exists r, w_rows w !! h = Some r /\
  ((b_joined r = true /\ b_fiber r = None) \/ (b_joined r = false /\ (exists f hook, running_row w h f r hook)) \/
   exists f e, ready_row w h r f e /\ ended_ok e).
Proof.
  intros B [r Hr]. exists r. split; [done|]. destruct (row_cases w h r B Hr) as [(? & ? & _)|(Hj & f & hook & Hf & Hc)]; [by left|right].
  destruct (ending w h) as [e|] eqn:He; [right|left; split; [done|]; by exists f, hook]. exists f, e. split; [by eapply ready_of|].
  pose proof (bs_row _ B h r Hr) as Hrow. unfold row_ok in Hrow. rewrite Hf in Hrow. destruct Hrow as [_ (k & e' & Hc' & Hok)].
  rewrite Hc in Hc'. injection Hc' as _ <-. by apply Hok.
Qed.

Lemma op_join_ok w h : base w -> fleet elem w -> h ∉ rows_of w -> g_waiter (w_group w) = None ->
  (w_unwinding w = false -> all_unjoined w) -> is_Some (w_rows w !! h) -> lone_ok w (op_join h).
Proof.
  intros B F Hn Hw Hu Hex. destruct (handle_cases w h B Hex) as (r & Hr & [(Hj & Hf)|[(Hj & f & hook & Hrun)|(f & e & Hrdy & Hok)]]).
  - set (r' := set_message (lit "brew handle already joined") r). set (w' := with_rows (<[h := r']> (w_rows w)) w).
    assert (Hjn : beans_brew_join h w = Some (Ok (Some BEANS_BREW_JOINED_ALREADY), w')).
    { unfold beans_brew_join. exec (row_at_run h w r Hr). rewrite Hj. by exec (row_set_run h r' w). }
    destruct (base_joined_row w w' h r r' [] [] B Hr Hf) as [B' Hold]; try done; try (by rewrite app_nil_r).
    { pose proof (bs_box _ B h r Hr). cbn. by destruct (b_kind r). }
    apply (lone_done w h F Hn Hw Hu _ w' (Ok (inl (AJoined (Failed BEANS_BREW_JOINED_ALREADY (b_message r')))))); try done.
    unfold op_join. exec Hjn. rewrite Z.eqb_refl. unfold beans_brew_message. unfold mbind at 1, M_bind at 1.
    by exec (row_at_run h w' r' (lookup_insert_eq _ _ _)).
  - destruct Hrun as (Hr' & Hf & Hc). apply (lone_parks w h B F Hn Hw Hu (PJoin h) r f hook); [done|by left|].
    unfold op_join, mbind, M_bind. by rewrite (join_run h f r hook None w Hr Hj Hf Hc).
  - destruct (join_ready h r f e w B Hrdy) as [Hjn _]. destruct (lone_joined w h f r e B F Hn Hrdy) as (B1 & F1 & Hn1 & Hv & Hq & Hall & Hr1).
    set (w1 := joined_world h f r e w) in *. set (r1 := set_joined (fst e) (snd e) r) in *.
    apply (lone_ext w w1 _ (o ← claim h; mret (inl (AJoined o)))); try done.
    + destruct (base_half_claimed w1 h B1 r1 Hr1 eq_refl) as [B2 Hold].
      pose proof (claim_run h r1 w1 Hr1) as Hcl. destruct (b_status r1 =? BREW_OK).
      * apply (lone_done w1 h F1 Hn1 Hw ltac:(auto) _ (half_claimed h r1 w1) (Ok (inl (AJoined (outcome_at r1))))); try done;
          [by exec Hcl|unfold half_claimed; by destruct (b_kind r1)..|unfold half_claimed; by destruct (b_kind r1)|unfold half_claimed; by destruct (b_kind r1)].
      * apply (lone_done w1 h F1 Hn1 Hw ltac:(auto) _ w1 (Ok (inl (AJoined (outcome_at r1))))); try done. by exec Hcl.
    + unfold op_join. exec Hjn. destruct (Z.eqb_spec (fst e) BEANS_BREW_JOINED_ALREADY) as [He|]; [|done].
      destruct Hok as [Ho|[Ho|Ho]]; rewrite Ho in He; done.
Qed.

Lemma scope_one_ok w h line col : base w -> fleet elem w -> h ∉ rows_of w -> g_waiter (w_group w) = None ->
  (w_unwinding w = false -> all_unjoined w) -> is_Some (w_rows w !! h) -> lone_ok w (op_scope_one deinit_panic h line col).
Proof.
  intros B F Hn Hw Hu Hex. destruct (handle_cases w h B Hex) as (r & Hr & [(Hj & Hf)|[(Hj & f & hook & Hrun)|(f & e & Hrdy & Hok)]]).
  - apply (lone_done w h F Hn Hw Hu _ w (Ok (inl ADone))); try done. unfold op_scope_one, beans_brew_scope_join.
    unfold mbind at 1, M_bind at 1. exec (row_at_run h w r Hr). by rewrite Hj.
  - destruct Hrun as (Hr' & Hf & Hc). apply (lone_parks w h B F Hn Hw Hu (PScopeOne h line col) r f hook); [done|right; by exists line, col|].
    unfold op_scope_one, beans_brew_scope_join. unfold mbind at 1, M_bind at 1. exec (row_at_run h w r Hr). rewrite Hj.
    unfold mbind, M_bind. by rewrite (join_run h f r hook None w Hr Hj Hf Hc).
  - destruct (join_ready h r f e w B Hrdy) as [Hjn _]. destruct (lone_joined w h f r e B F Hn Hrdy) as (B1 & F1 & Hn1 & Hv & Hq & Hall & Hr1).
    set (w1 := joined_world h f r e w) in *. set (r1 := set_joined (fst e) (snd e) r) in *.
    assert (Hj : b_joined r = false) by (by destruct Hrdy as (_ & ? & _)).
    apply (lone_ext w w1 _ (fun w => if fst e =? BREW_PANICKED then Some (Panic (take 599 (escalated (snd e))) line col, w)
      else (_ ← brew_drop_result deinit_panic h; mret (inl ADone)) w)); try done.
    + destruct (fst e =? BREW_PANICKED) eqn:Hp.
      * apply (lone_done w1 h F1 Hn1 Hw ltac:(auto) _ w1 (Panic (take 599 (escalated (snd e))) line col)); try done.
      * destruct (base_half_dropped w1 h B1 r1 Hr1 eq_refl) as [B2 Hold].
        assert (Hd : brew_drop_result deinit_panic h w1 = Some (Ok tt, half_dropped h r1 w1)).
        { apply (drop_result_half deinit_panic Hquiet h r1 w1 Hr1). pose proof (bs_box _ B1 h r1 Hr1). by destruct (b_kind r1). }
        apply (lone_done w1 h F1 Hn1 Hw ltac:(auto) _ (half_dropped h r1 w1) (Ok (inl ADone))); try done;
          [by exec Hd|unfold half_dropped; by destruct (b_status r1 =? BREW_OK)..|unfold half_dropped; by destruct (b_status r1 =? BREW_OK)|
           unfold half_dropped; by destruct (b_status r1 =? BREW_OK)].
    + unfold op_scope_one, beans_brew_scope_join. unfold mbind at 1, M_bind at 1. exec (row_at_run h w r Hr). rewrite Hj. exec Hjn.
      exec (row_at_run h w1 r1 Hr1). destruct (fst e =? BREW_PANICKED); [done|].
      assert (Hd : brew_drop_result deinit_panic h w1 = Some (Ok tt, half_dropped h r1 w1)).
      { apply (drop_result_half deinit_panic Hquiet h r1 w1 Hr1). pose proof (bs_box _ B1 h r1 Hr1). by destruct (b_kind r1). }
      exec Hd. by exec Hd.
Qed.

Lemma cancel_one_ok w h : base w -> fleet elem w -> h ∉ rows_of w -> g_waiter (w_group w) = None ->
  (w_unwinding w = false -> all_unjoined w) -> is_Some (w_rows w !! h) -> lone_ok w (_ ← beans_brew_cancel h; mret (inl ADone)).
Proof.
  intros B F Hn Hw Hu [r Hr].
  assert (Hc : exists l, beans_brew_cancel h w = Some (Ok tt, with_cancelled l w)).
  { unfold beans_brew_cancel. exec (row_at_run h w r Hr). destruct (b_fiber r) as [f|]; [eexists; reflexivity|exists (w_cancelled w); by destruct w]. }
  destruct Hc as [l Hc]. apply (lone_done w h F Hn Hw Hu _ (with_cancelled l w) (Ok (inl ADone))); try done; [by exec Hc|by eapply base_ext].
Qed.

Lemma drop_ok w h : base w -> fleet elem w -> h ∉ rows_of w -> g_waiter (w_group w) = None ->
  (w_unwinding w = false -> all_unjoined w) -> joined w h -> lone_ok w (_ ← release_row deinit_panic h; mret (inl ADone)).
Proof.
  intros B F Hn Hw Hu (r & Hr & Hf). pose proof (release_row_run deinit_panic Hquiet h r w Hr) as Hrel. set (w' := with_released _ _) in Hrel.
  assert (B' : base w') by (eapply (base_delete w w' h r (row_refs r) []); try done; by rewrite ?app_nil_r).
  apply (lone_done w h F Hn Hw Hu _ w' (Ok (inl ADone))); try done; [by exec Hrel|].
  intros x Hx. assert (Hr' : w_rows w' !! x = w_rows w !! x) by (cbn; by rewrite lookup_delete_ne). split; [done|]. by apply ending_same.
Qed.

(** ** Every step *)

Definition runs w f : Prop := exists c, w_fibers w !! f = Some c /\ ch_end c = None.

(** What the program and the scheduler may do next. *)
Definition allowed w (ev : event) : Prop :=
  (owner_event ev = true -> w_pc w = PIdle /\ (w_unwinding w = true -> cleanup ev = true)) /\
  match ev with
  | EBrew h payload _ fiber => can_brew w elem h payload fiber
  | EBrewOne k h payload _ fiber => can_brew w k h payload fiber
  | EJoin h | ECancelOne h | EScopeOne h _ _ => is_Some (w_rows w !! h) /\ h ∉ rows_of w
  | EDrop h => joined w h /\ h ∉ rows_of w
  | EBack x => w_pc w <> PIdle /\ w_pc w <> PDead /\ (x = true -> w_unwinding w = false)
  | EReturn f v => exists c r, w_fibers w !! f = Some c /\ ch_end c = None /\ w_rows w !! ch_row c = Some r /\ is_Some (store_result v r)
  | EPanic f _ | ECancelled f => runs w f
  | ENext | ETryNext | EWaitAll | ERequestCancel | ECancelAll | EScopeJoin _ _ | EUnwind => True
  end.

(** The call an event makes or continues. *)
Definition call_of (p : pc) (ev : event) : option call :=
  match ev with
  | ENext => Some CNext
  | ETryNext => Some CTry
  | EWaitAll => Some CWait
  | ECancelAll => Some CCancel
  | EScopeJoin line col => Some (CScope line col)
  | EBack _ =>
      match p with
      | PNext => Some CNext
      | PTry => Some CTryAgain
      | PWait => Some CWait
      | PCancel _ => Some CCancel
      | PScope _ line col => Some (CScope line col)
      | PIdle | PDead | PJoin _ | PScopeOne _ _ _ => None
      end
  | _ => None
  end.

(** The owner's picture after fiber [f] ended with [o]. *)
Definition ended_as w w' f (o : outcome) q q' : Prop :=
  match w_fibers w !! f with
  | Some c =>
      if ch_hook c then
        exists a b g l, view w = a ++ mkSeen (ch_row c) None [] [] :: b /\
          view w' = a ++ mkSeen (ch_row c) (Some o) g l :: b /\ q' = q ++ [ch_row c]
      else view w' = view w /\ q' = q
  | None => False
  end.

(** The owner's picture after an event. *)
Definition told w (ev : event) (a : answer) w' q q' : Prop :=
  match ev with
  | EBrew h _ _ _ => view w' = view w ++ [mkSeen h None [] []] /\ q' = q
  | EReturn f v => ended_as w w' f (Got v) q q'
  | EPanic f text => ended_as w w' f (Failed BREW_PANICKED text) q q'
  | ECancelled f => ended_as w w' f (Failed BREW_CANCELLED []) q q'
  | _ =>
      match call_of (w_pc w) ev with
      | Some c =>
          (exists rel, w_released w' = w_released w ++ rel /\ promise (w_unwinding w) (view w) q c a rel (view w') q') \/
          (a = ACancelled /\ ev = EBack true /\ view w' = view w /\ q' = q)
      | None => view w' = view w /\ q' = q
      end
  end.

(** The state an event leads to is in order, and the picture is right. *)
Definition step_ok w ev : Prop := exists w' a, step deinit_panic elem w ev = Some (w', a) /\ inv w' /\
  forall q, queue_ok w q -> exists q', queue_ok w' q' /\ told w ev a w' q q'.

Lemma at_pc_ext p w w' : at_pc p w -> w_group w' = w_group w -> w_rows w' = w_rows w -> w_fibers w' = w_fibers w -> w_self w' = w_self w ->
  w_woken w' = w_woken w -> w_unwinding w' = w_unwinding w -> at_pc p w'.
Proof.
  intros Hat Hg Hr Hf Hs Hk Hu.
  assert (E : w' = with_made (w_made w') (with_moved (w_moved w') (with_released (w_released w') (with_cancelled (w_cancelled w') (with_pc (w_pc w') w)))))
    by (destruct w, w'; cbn in *; by subst).
  rewrite E. exact Hat.
Qed.

Lemma owner_runs_ok m w res w' : m w = Some (res, w') -> base w' -> fleet elem w' -> at_pc (next_pc res) w' -> answer_of res <> ACancelled ->
  exists w'', owner_runs m w = Some (w'', answer_of res) /\ inv w'' /\ view w'' = view w' /\ w_released w'' = w_released w' /\
    (forall q, queue_ok w' q -> queue_ok w'' q).
Proof.
  intros Hm B F Hat Ha.
  assert (Hpc : forall p, at_pc p w' -> inv (with_pc p w') /\ (forall q, queue_ok w' q -> queue_ok (with_pc p w') q)).
  { intros p Hp. split; [|intros q Hq; by destruct Hq]. split; [by eapply base_ext|]. split; [by apply (fleet_same w')|]. exact Hp. }
  unfold owner_runs. rewrite Hm. cbn. destruct res as [[a|p]|t ln c].
  - exists (with_pc PIdle w'). destruct (Hpc PIdle Hat) as [Hi Hq]. split; [by destruct a; try done|]. split_and!; done.
  - exists (with_pc p w'). destruct (Hpc p Hat) as [Hi Hq]. split_and!; done.
  - destruct (w_unwinding w') eqn:Hun.
    + exists (with_pc PDead w'). destruct (Hpc PDead Hat) as [Hi Hq]. split_and!; done.
    + exists (with_pc PIdle (with_unwinding true w')). split; [done|]. split; [|split; [done|split; [done|intros q Hq; by destruct Hq]]].
      split; [by eapply base_ext|]. split; [by apply (fleet_same w')|]. by split.
Qed.

(** A call of the owner. *)
Lemma call_step w ev c m : op_ok w c m -> step deinit_panic elem w ev = owner_runs m w -> call_of (w_pc w) ev = Some c -> step_ok w ev.
Proof.
  intros (res & w' & Hm & B & F & Hat & Ha & _ & _ & Hq) Hs Hc. destruct (owner_runs_ok m w res w' Hm B F Hat Ha) as (w'' & Hrun & Hi & Hv & Hr & Hqq).
  exists w'', (answer_of res). split; [by rewrite Hs|]. split; [done|]. intros q Hq0. destruct (Hq q Hq0) as (rel & q' & Hrel & Hq' & Hp).
  exists q'. split; [auto|]. assert (Ht : exists rel, w_released w'' = w_released w ++ rel /\ promise (w_unwinding w) (view w) q c (answer_of res) rel (view w'') q').
  { exists rel. by rewrite Hr, Hv. }
  destruct ev; try discriminate Hc; unfold told; rewrite Hc; by left.
Qed.

(** A call that does not concern the group. *)
Lemma lone_step w ev m : lone_ok w m -> step deinit_panic elem w ev = owner_runs m w -> call_of (w_pc w) ev = None ->
  match ev with EBrew _ _ _ _ | EReturn _ _ | EPanic _ _ | ECancelled _ => False | _ => True end -> step_ok w ev.
Proof.
  intros (res & w' & Hm & B & F & Hat & Ha & _ & _ & Hv' & Hq) Hs Hc Hev. destruct (owner_runs_ok m w res w' Hm B F Hat Ha) as (w'' & Hrun & Hi & Hv & Hr & Hqq).
  exists w'', (answer_of res). split; [by rewrite Hs|]. split; [done|]. intros q Hq0. exists q. split; [auto|].
  destruct ev; try done; unfold told; rewrite Hc; by rewrite Hv, Hv'.
Qed.

(** A cancellation answers the park. *)
Lemma cancelled_step w w1 c m : inv w -> step deinit_panic elem w (EBack true) = owner_runs m w -> call_of (w_pc w) (EBack true) = c ->
  m w = Some (Ok (inl ACancelled), w1) -> (w1 = w \/ w1 = with_group (set_waiter None (w_group w)) w) -> g_waiter (w_group w1) = None -> step_ok w (EBack true).
Proof.
  intros (B & F & Hat) Hs Hc Hm Hw1 Hw. exists (with_pc PIdle (with_unwinding true w1)), ACancelled.
  split; [by rewrite Hs; unfold owner_runs; rewrite Hm|]. split.
  { split; [destruct Hw1 as [->| ->]; by eapply base_ext|]. split; [destruct Hw1 as [->| ->]; by apply (fleet_same w)|]. by split. }
  intros q Hq. exists q. split; [destruct Hq; destruct Hw1 as [->| ->]; by split|]. unfold told. rewrite Hc.
  assert (Hv : view (with_pc PIdle (with_unwinding true w1)) = view w) by (by destruct Hw1 as [->| ->]).
  destruct c; [right|]; by rewrite Hv.
Qed.

Lemma owner_step w ev m : owner_event ev = true -> allowed w ev -> owner_op deinit_panic elem ev = Some m ->
  step deinit_panic elem w ev = owner_runs m w.
Proof.
  intros Ho [Hidle _] Hm. destruct (Hidle Ho) as [Hpc Hun].
  assert (Hc : w_unwinding w && negb (cleanup ev) = false) by (destruct (w_unwinding w); [by rewrite Hun|done]).
  destruct ev; try discriminate Ho; unfold step; rewrite Hpc, Hc, Hm; done.
Qed.

Lemma brew_step w ev h payload env fiber : ev = EBrew h payload env fiber -> inv w -> allowed w ev -> step_ok w ev.
Proof.
  intros Hev (B & F & Hat) Hal. pose proof (owner_step w ev _ ltac:(by rewrite Hev) Hal ltac:(by rewrite Hev)) as Hs. subst ev.
  destruct Hal as [Hidle Hc]. destruct (Hidle eq_refl) as [Hpc Hun]. rewrite Hpc in Hat. destruct Hat as [Hw Hu].
  assert (Hf : w_unwinding w = false) by (destruct (w_unwinding w); [by specialize (Hun eq_refl)|done]).
  destruct (id Hc) as (_ & _ & (f & -> & _) & _). pose proof (brew_group_run h payload env f w Hc) as Hrun.
  destruct (brewed_in_group w elem h payload env f B F Hc eq_refl) as (F' & Hv & Hq & Hall).
  set (w' := brewed true _ _ _ _ _ _ _) in *.
  destruct (owner_runs_ok (_ ← brew_in_group elem h payload env (Some f); mret (inl AStarted)) w (Ok (inl AStarted)) w')
    as (w'' & Hr & Hi & Hv' & _ & Hqq); try done; [by exec Hrun|by apply brewed_base|split; [done|intros _; auto]|].
  exists w'', AStarted. split; [by rewrite Hs|]. split; [done|]. intros q Hq0. exists q. split; [auto|]. split; [by rewrite Hv'|done].
Qed.

Lemma brew_one_ok w k h payload env fiber : base w -> fleet elem w -> g_waiter (w_group w) = None -> all_unjoined w ->
  can_brew w k h payload fiber -> lone_ok w (_ ← brew_of k h payload env fiber; mret (inl AStarted)).
Proof.
  intros B F Hw Hu Hc. destruct (id Hc) as (_ & _ & (f & -> & _) & _). pose proof (brew_run k h payload env f w Hc) as Hrun.
  destruct (brewed_alone w k h payload env f B F Hc) as (F' & Hv & Hq & Hall).
  eexists (Ok (inl AStarted)), _. split; [by exec Hrun|]. split; [by apply brewed_base|]. split; [done|]. split; [|done]. split; auto.
Qed.

Lemma request_ok w : base w -> fleet elem w -> g_waiter (w_group w) = None -> (w_unwinding w = false -> all_unjoined w) ->
  lone_ok w (_ ← beans_taskgroup_request_cancel; mret (inl ADone)).
Proof.
  intros B F Hw Hu. destruct (request_cancel_run (length (g_children (w_group w))) w) as [l Hl]; [done|intros; by apply rows_exist|].
  assert (Hreq : beans_taskgroup_request_cancel w = Some (Ok tt, with_cancelled l w)) by exact Hl.
  eexists (Ok (inl ADone)), _. split; [by exec Hreq|]. split; [by eapply base_ext|]. split; [by apply (fleet_same w)|].
  split_and!; try done. intros q Hq. by destruct Hq.
Qed.

Lemma unwind_step w : inv w -> allowed w EUnwind -> step_ok w EUnwind.
Proof.
  intros (B & F & Hat) Hal. pose proof (owner_step w EUnwind _ eq_refl Hal eq_refl) as Hs.
  destruct Hal as [Hidle _]. destruct (Hidle eq_refl) as [Hpc _]. rewrite Hpc in Hat. destruct Hat as [Hw _].
  exists (with_pc PIdle (with_unwinding true w)), ACancelled. split; [by rewrite Hs|]. split.
  { split; [by eapply base_ext|]. split; [by apply (fleet_same w)|by split]. }
  intros q Hq. exists q. split; [by destruct Hq|done].
Qed.

(** The owner calls an entry. *)
Lemma owner_call_ok w ev : inv w -> owner_event ev = true -> allowed w ev -> step_ok w ev.
Proof.
  intros Hi Ho Hal. pose proof Hi as (B & F & Hat). destruct (proj1 Hal Ho) as [Hpc Hun]. pose proof (proj2 Hal) as Hev.
  rewrite Hpc in Hat. destruct Hat as [Hw Hu].
  assert (Hall : cleanup ev = false -> all_unjoined w).
  { intros Hc. apply Hu. destruct (w_unwinding w); [|done]. by rewrite Hun in Hc. }
  destruct ev; try discriminate Ho; try (by eapply brew_step); try (by apply unwind_step);
    pose proof (owner_step w _ _ Ho Hal eq_refl) as Hs;
    first [refine (call_step w _ _ _ _ Hs _); [|by rewrite Hpc] | refine (lone_step w _ _ _ Hs _ _); [|by rewrite Hpc|exact I]].
  - by apply next_ok; auto.
  - by apply try_ok; auto.
  - by apply wait_ok; auto.
  - by apply request_ok.
  - by apply cancel_all_ok; auto.
  - by apply scope_join_ok.
  - by apply brew_one_ok; auto.
  - destruct Hev. by apply op_join_ok.
  - destruct Hev. by apply cancel_one_ok.
  - destruct Hev. by apply scope_one_ok.
  - destruct Hev. by apply drop_ok.
Qed.

(** The owner's park returns. *)
Lemma back_run w x m : back_op deinit_panic elem w x = Some m -> step deinit_panic elem w (EBack x) = owner_runs m w.
Proof. intros Hm. unfold step. by rewrite Hm. Qed.

Lemma waited_ok w c m : base w -> fleet elem w ->
  (forall w1, base w1 -> fleet elem w1 -> g_waiter (w_group w1) = None -> all_unjoined w1 -> op_ok w1 c m) -> all_unjoined w ->
  op_ok w c (_ ← waited; m).
Proof.
  intros B F Hm Hu. set (w1 := with_group (set_waiter None (w_group w)) w).
  apply (op_ext w w1 _ _ m); try done; [|intros q Hq; by destruct Hq].
  apply Hm; [by eapply base_ext|by apply (fleet_same w)|done|done].
Qed.

Lemma waits_for_run w h f r : w_rows w !! h = Some r -> b_fiber r = Some f ->
  (forall i, child_nth w i h -> waits_for w (PCancel i) = Some f /\ forall line col, waits_for w (PScope i line col) = Some f) /\
  waits_for w (PJoin h) = Some f /\ forall line col, waits_for w (PScopeOne h line col) = Some f.
Proof. intros Hr Hf. unfold waits_for. split; [intros i [Hi _]; rewrite Hi|]; cbn; rewrite Hr; auto. Qed.

Lemma unjoined_fiber w h : base w -> unjoined w h -> exists r f, w_rows w !! h = Some r /\ b_fiber r = Some f.
Proof.
  intros B (r & Hr & Hj). destruct (row_cases w h r B Hr) as [(? & _)|(_ & f & _ & Hf & _)]; [congruence|]. by exists r, f.
Qed.

(** A park inside a join goes on with [m], unless cancelled in time. *)
Lemma join_back w x p f m : inv w -> (x = true -> w_unwinding w = false) -> w_pc w = p -> waits_for w p = Some f ->
  g_waiter (w_group w) = None -> (back_op deinit_panic elem w x =
    if x && w_unwinding w then None else if x && negb (child_done w f) then Some (mret (inl ACancelled)) else Some m) ->
  (step deinit_panic elem w (EBack x) = owner_runs m w -> step_ok w (EBack x)) -> step_ok w (EBack x).
Proof.
  intros Hi Hx Hp Hwf Hw Hb Hgo. assert (Hxu : x && w_unwinding w = false) by (destruct x; [by rewrite Hx|done]). rewrite Hxu in Hb.
  destruct (x && negb (child_done w f)) eqn:Hc; [|by apply Hgo, back_run]. destruct x; [|done].
  eapply (cancelled_step w w); [done|by apply back_run|reflexivity|reflexivity|by left|done].
Qed.

Lemma back_step w x : inv w -> allowed w (EBack x) -> step_ok w (EBack x).
Proof.
  intros Hi [_ (Hn & Hd & Hx)]. pose proof Hi as (B & F & Hat). destruct (w_pc w) as [| | | | |i|i line col|h|h line col] eqn:Hpc; try done.
  - destruct Hat as [Hu _]. destruct x.
    + eapply (cancelled_step w _ _ (_ ← waited; mret (inl ACancelled))); [done| |reflexivity|reflexivity|by right|done].
      apply back_run. unfold back_op. by rewrite Hpc, Hx.
    + eapply (call_step w _ CNext (_ ← waited; op_next deinit_panic)); [|by apply back_run; unfold back_op; rewrite Hpc|by rewrite Hpc].
      apply waited_ok; try done. intros. by apply next_ok.
  - destruct Hat as [Hw Hu].
    eapply (call_step w _ CTryAgain); [by apply try_again_ok| |by rewrite Hpc]. apply back_run. unfold back_op. rewrite Hpc.
    destruct x; [by rewrite Hx|done].
  - destruct Hat as [Hu _]. destruct x.
    + eapply (cancelled_step w _ _ (_ ← waited; mret (inl ACancelled))); [done| |reflexivity|reflexivity|by right|done].
      apply back_run. unfold back_op. by rewrite Hpc, Hx.
    + eapply (call_step w _ CWait (_ ← waited; op_wait_all deinit_panic elem)); [|by apply back_run; unfold back_op; rewrite Hpc|by rewrite Hpc].
      apply waited_ok; try done. intros. by apply wait_ok.
  - destruct Hat as (Hw & (h & Hh) & H1 & H2). destruct (unjoined_fiber w h B (H2 i h ltac:(lia) Hh)) as (r & f & Hr & Hf).
    destruct (waits_for_run w h f r Hr Hf) as [Hwf _]. destruct (Hwf i Hh) as [Hwf' _].
    eapply (join_back w x _ f); [done|done|exact Hpc|exact Hwf'|done|unfold back_op; rewrite Hpc, Hwf'; cbn; reflexivity|].
    intros Hs. eapply call_step; [by apply (cancel_from_ok w i)|exact Hs|by rewrite Hpc].
  - destruct Hat as (Hw & (h & Hh & Hun) & H1 & H2). destruct (unjoined_fiber w h B Hun) as (r & f & Hr & Hf).
    destruct (waits_for_run w h f r Hr Hf) as [Hwf _]. destruct (Hwf i Hh) as [_ Hwf']. specialize (Hwf' line col).
    eapply (join_back w x _ f); [done|done|exact Hpc|exact Hwf'|done|unfold back_op; rewrite Hpc, Hwf'; cbn; reflexivity|].
    intros Hs. eapply call_step; [by apply (scope_from_ok w i line col)|exact Hs|by rewrite Hpc].
  - destruct Hat as (Hw & Hu & Hun & Hh). destruct (unjoined_fiber w h B Hun) as (r & f & Hr & Hf).
    destruct (waits_for_run w h f r Hr Hf) as (_ & Hwf & _).
    eapply (join_back w x _ f); [done|done|exact Hpc|exact Hwf|done|unfold back_op; rewrite Hpc, Hwf; cbn; reflexivity|].
    intros Hs. eapply lone_step; [apply (op_join_ok w h); eauto|exact Hs|by rewrite Hpc|done].
  - destruct Hat as (Hw & Hu & Hun & Hh). destruct (unjoined_fiber w h B Hun) as (r & f & Hr & Hf).
    destruct (waits_for_run w h f r Hr Hf) as (_ & _ & Hwf). specialize (Hwf line col).
    eapply (join_back w x _ f); [done|done|exact Hpc|exact Hwf|done|unfold back_op; rewrite Hpc, Hwf; cbn; reflexivity|].
    intros Hs. eapply lone_step; [apply (scope_one_ok w h line col); eauto|exact Hs|by rewrite Hpc|done].
Qed.

(** A child ends: the owner's picture changes in one row. *)
Lemma ends_ok w w' h f r hook r' e rel made : inv w -> ends w w' h f r hook r' e rel made -> inv w' /\
  forall q, queue_ok w q -> exists q', queue_ok w' q' /\
    ended_as w w' f (if fst e =? BREW_OK then Got (result_of r') else Failed (fst e) (snd e)) q q'.
Proof.
  intros (B & F & Hat) En. split.
  { split; [by eapply ends_base|]. split; [by eapply ends_fleet|]. destruct (en_same _ _ _ _ _ _ _ _ _ _ En) as (_ & Hp & _).
    rewrite Hp. by eapply ends_at. }
  intros q Hq. exists (if hook then q ++ [h] else q). split; [by eapply ends_queue|]. unfold ended_as.
  destruct (en_row _ _ _ _ _ _ _ _ _ _ En) as (_ & _ & Hc). rewrite Hc. cbn. pose proof (ends_view w w' h f r hook r' e rel made B F En) as Hv.
  destruct hook; [|done]. destruct Hv as (a & b & g & l & Hv & Hv'). by exists a, b, g, l.
Qed.

Lemma runs_running w f : runs w f -> running w f = true.
Proof. intros (c & Hc & He). unfold running. by rewrite Hc, He. Qed.

Lemma settles_step w f e : inv w -> runs w f -> ended_ok e -> exists w',
  child_runs (child_settles f (fst e) (snd e)) w = Some (w', ADone) /\ inv w' /\
  (fst e <> BREW_OK -> forall q, queue_ok w q -> exists q', queue_ok w' q' /\ ended_as w w' f (Failed (fst e) (snd e)) q q').
Proof.
  intros Hi (c & Hc & He) Hok. pose proof Hi as (B & F & _). destruct (running_cases w f c B Hc He) as (r & Hr).
  destruct c as [h hook e0]. cbn in *. subst e0. exists (settled w h f r hook e).
  split; [unfold child_runs; destruct Hr as (Hr & _); by rewrite (settle_run w h f r hook e Hc Hr)|].
  destruct (ends_ok w _ h f r hook r e [] [] Hi (settle_ends w h f r hook e Hr Hok)) as [Hi' Hq]. split; [done|].
  intros Hne. by rewrite (proj2 (Z.eqb_neq _ _) Hne) in Hq.
Qed.

Lemma return_step w f v : inv w -> allowed w (EReturn f v) -> step_ok w (EReturn f v).
Proof.
  intros Hi [_ (c & r & Hc & He & Hr0 & r' & Hv)]. pose proof Hi as (B & F & _). destruct (running_cases w f c B Hc He) as (r1 & Hr).
  assert (r1 = r) as -> by (destruct Hr; congruence). pose proof (runs_running w f (ex_intro _ c (conj Hc He))) as Hrun.
  destruct c as [h hook e0]. cbn in *. subst e0. pose proof (return_ends w h f r r' hook v B Hr Hv) as En.
  destruct (ends_ok w _ h f r hook _ _ _ _ Hi En) as [Hi' Hq]. destruct (store_fields v r r' Hv) as (_ & _ & _ & _ & _ & _ & _ & Hres & _).
  change (result_of (set_env 0 r')) with (result_of r') in Hq. cbn in Hq. rewrite Hres in Hq.
  eexists _, ADone. split; [|split; [exact Hi'|exact Hq]].
  unfold step. rewrite Hrun. unfold child_runs, child_returns. rewrite Hc. cbn. destruct Hr as (Hr & Hf & _).
  rewrite (brew_main_run h r r' v w Hr Hv). cbn.
  pose proof (settle_run (returned r' v r h w) h f (set_env 0 r') hook (BREW_OK, []) Hc (lookup_insert_eq _ _ _)) as Hset.
  cbn [fst snd] in Hset. by rewrite Hset.
Qed.

Lemma every_step w ev : inv w -> allowed w ev -> step_ok w ev.
Proof.
  intros Hi Hal. destruct (owner_event ev) eqn:Ho; [by apply owner_call_ok|]. destruct ev; try discriminate Ho.
  - by apply back_step.
  - by apply return_step.
  - pose proof (proj2 Hal) as Hr. destruct (settles_step w f (BREW_PANICKED, text) Hi Hr) as (w' & Hs & Hi' & Hq); [right; by left|].
    exists w', ADone. split; [unfold step; by rewrite (runs_running w f Hr)|]. split; [done|]. by apply Hq.
  - pose proof (proj2 Hal) as Hr. destruct (settles_step w f (BREW_CANCELLED, []) Hi Hr) as (w' & Hs & Hi' & Hq); [right; by right|].
    exists w', ADone. split; [unfold step; by rewrite (runs_running w f Hr)|]. split; [done|]. by apply Hq.
Qed.

(** ** Reachable states *)

Inductive reachable : world -> Prop :=
  | reach_fresh self : reachable (fresh_world self)
  | reach_step w ev w' a : reachable w -> allowed w ev -> step deinit_panic elem w ev = Some (w', a) -> reachable w'.

Lemma fresh_ok self : inv (fresh_world self) /\ queue_ok (fresh_world self) [].
Proof.
  assert (Hr : rows_of (fresh_world self) = []) by done. split; [split; [|split]|].
  - split; try done.
  - split; rewrite ?Hr; try done; [constructor|..]; by intros h Hh%elem_of_nil.
  - split; [done|]. intros _ h Hh. by apply elem_of_nil in Hh.
  - split; [|constructor]. intros h. rewrite Hr. split; [by intros ?%elem_of_nil|by intros [?%elem_of_nil _]].
Qed.

Lemma reachable_ok w : reachable w -> inv w /\ exists q, queue_ok w q.
Proof.
  induction 1 as [self|w ev w' a _ [Hi [q Hq]] Hal Hs]; [destruct (fresh_ok self); eauto|].
  destruct (every_step w ev Hi Hal) as (w'' & a' & Hs' & Hi' & Hqq). rewrite Hs in Hs'. injection Hs' as <- <-.
  split; [done|]. destruct (Hqq q Hq) as (q' & Hq' & _). eauto.
Qed.

(** A list of events the program may run through. *)
Fixpoint all_allowed w (evs : list event) : Prop :=
  match evs with
  | [] => True
  | ev :: evs => allowed w ev /\ match step deinit_panic elem w ev with Some (w', _) => all_allowed w' evs | None => False end
  end.

Lemma all_allowed_cons w ev evs w' a : allowed w ev -> step deinit_panic elem w ev = Some (w', a) -> all_allowed w' evs -> all_allowed w (ev :: evs).
Proof. intros Hal Hs Hall. cbn [all_allowed]. by rewrite Hs. Qed.

Lemma reachable_run evs : forall w w' (l : list answer), reachable w -> all_allowed w evs -> run deinit_panic elem w evs = Some (w', l) -> reachable w'.
Proof.
  induction evs as [|ev evs IH]; intros w w' l Hr Hal Hrun; cbn in *; [by injection Hrun as <- _|]. destruct Hal as [Hal Hall].
  destruct (step deinit_panic elem w ev) as [[w1 a]|] eqn:Hs; [|done]. cbn in Hrun.
  destruct (run deinit_panic elem w1 evs) as [[w2 l2]|] eqn:Hrun'; [|done]. injection Hrun as <- _.
  eapply (IH w1); [by eapply reach_step|done|exact Hrun'].
Qed.

(** The row the next call answers with. *)
Lemma promise_row u rows h q c a rel rows' q' : promise u rows (h :: q) c a rel rows' q' -> c = CNext -> exists o, a = ARow h o.
Proof. intros Hp. remember (h :: q) as hq eqn:Hhq. destruct Hp; intros Hc; subst; try discriminate; injection Hhq as <- _; eauto. Qed.

Lemma all_ended rows : Forall ended rows -> Exists (fun s => s_end s = None) rows -> False.
Proof.
  intros Ha (s & Hs & He)%Exists_exists. rewrite Forall_forall in Ha. destruct (Ha s Hs) as [o Ho]. congruence.
Qed.

Lemma promise_done u rows q c a rel rows' q' : promise u rows q c a rel rows' q' -> Forall ended rows -> c = CWait \/ c = CCancel -> a <> AParked.
Proof.
  intros Hp He Hc. pose proof (all_ended rows He) as Hall. destruct Hp; try done; intros _; first [by apply Hall|destruct_or?; congruence].
Qed.

End fleets.

(** ** Panics that did not happen *)

Definition quiet : Z -> option str := fun _ => None.

Lemma quiet_is p : quiet p = None.
Proof. done. Qed.

(** No reference given up so far has a deinit body that panics. *)
Definition tame (deinit_panic : Z -> option str) w : Prop := forall p, p ∈ w_released w -> deinit_panic p = None.

Lemma tame_agree deinit_panic w : tame deinit_panic w -> agree deinit_panic quiet w /\ agree quiet deinit_panic w.
Proof. intros Ht. split; intros p Hp; by rewrite (Ht p Hp). Qed.

Lemma tame_reachable deinit_panic elem w : tame deinit_panic w -> reachable deinit_panic elem w -> reachable quiet elem w.
Proof.
  intros Ht Hr. induction Hr as [self|w ev w' a _ IH Hal Hs]; [constructor|].
  destruct (step_follows deinit_panic quiet elem w ev w' a Hs) as [[l Hl] Ha].
  eapply reach_step; [apply IH|exact Hal|apply Ha, tame_agree, Ht]. intros p Hp. apply Ht. rewrite Hl. apply elem_of_app. by left.
Qed.

(** ** A fleet of three *)

(** The body of the object at 101 panics. *)
Definition noisy (p : Z) : option str := if p =? 101 then Some (lit "boom") else None.

Definition three_brews : list event :=
  [EBrew 1 0 51 (Some 11); EBrew 2 0 52 (Some 12); EBrew 3 0 53 (Some 13)].
(** Two children ended, the last one first; the owner has asked for nothing. *)
Definition two_ended : list event := three_brews ++ [EReturn 13 (VSlot 103); EPanic 12 (lit "oops")].
(** The owner is parked in [next] when a child returns. *)
Definition woken_in_next : list event := three_brews ++ [ENext; EReturn 13 (VSlot 103)].

Definition world_after (evs : list event) : world :=
  match run quiet (Narrow true) (fresh_world 1) evs with Some (w, _) => w | None => fresh_world 1 end.

Ltac may allow := eapply all_allowed_cons; [allow|vm_compute; reflexivity|].
Ltac may_call := may ltac:(by split).
Ltac may_brew f := may ltac:(split; [by split|split_and!; [done|vm_compute; reflexivity|exists f; split; vm_compute; reflexivity|exact I]]).
Ltac may_return := may ltac:(split; [done|do 2 eexists; split_and!; [vm_compute; reflexivity..|by eexists]]).
Ltac may_fail := may ltac:(split; [done|eexists; split; vm_compute; reflexivity]).

Lemma three_reachable : reachable quiet (Narrow true) (world_after three_brews).
Proof.
  eapply (reachable_run _ _ three_brews); [apply (reach_fresh _ _ 1)| |vm_compute; reflexivity].
  may_brew 11. may_brew 12. may_brew 13. exact I.
Qed.

Lemma ended_reachable : reachable noisy (Narrow true) (world_after two_ended).
Proof.
  eapply (reachable_run _ _ two_ended); [apply (reach_fresh _ _ 1)| |vm_compute; reflexivity].
  may_brew 11. may_brew 12. may_brew 13. may_return. may_fail. exact I.
Qed.

Lemma ended_tame : tame noisy (world_after two_ended).
Proof.
  unfold tame. assert (w_released (world_after two_ended) = [53]) as -> by (vm_compute; reflexivity).
  by intros p ->%list_elem_of_singleton.
Qed.

Lemma woken_reachable : reachable quiet (Narrow true) (world_after woken_in_next).
Proof.
  eapply (reachable_run _ _ woken_in_next); [apply (reach_fresh _ _ 1)| |vm_compute; reflexivity].
  may_brew 11. may_brew 12. may_brew 13. may_call. may_return. exact I.
Qed.

(** ** The properties *)

(** C12: whatever a reachable fleet is asked, by its owner, by a child that
    ends or by the scheduler that answers a park, the code runs to an answer
    or a park without touching a row that is gone, and the answer, the rows
    the owner still holds, the completion order of the finished ones and the
    references given up are what the abstract fleet promises.  This is so as
    long as no deinit body that a release runs panics: none has so far, and
    the event runs as it would if none did, unless one of the references it
    releases has such a body.  ([wait_all_leaves_freed_rows] below is what a
    panic there leaves behind.) *)
Theorem taskgroup_refines deinit_panic elem w : tame deinit_panic w -> reachable deinit_panic elem w ->
  exists q, queue_ok w q /\ forall ev, allowed elem w ev -> exists w' a q',
    step quiet elem w ev = Some (w', a) /\ queue_ok w' q' /\ told w ev a w' q q' /\
    (tame deinit_panic w' -> step deinit_panic elem w ev = Some (w', a)) /\
    (forall w'' a'', step deinit_panic elem w ev = Some (w'', a'') -> tame deinit_panic w'' -> w'' = w' /\ a'' = a).
Proof.
  intros Ht Hr%tame_reachable; [|done]. destruct (reachable_ok quiet quiet_is elem w Hr) as [Hi [q Hq]]. exists q. split; [done|]. intros ev Hal.
  destruct (every_step quiet quiet_is elem w ev Hi Hal) as (w' & a & Hs & _ & Hqq). destruct (Hqq q Hq) as (q' & ? & ?).
  exists w', a, q'. split_and!; try done.
  - intros Ht'. by apply (step_follows quiet deinit_panic elem w ev w' a Hs), tame_agree.
  - intros w'' a'' Hs'' Ht''. apply (step_follows deinit_panic quiet) in Hs'' as [_ Ha]. specialize (Ha (proj1 (tame_agree _ _ Ht''))).
    rewrite Hs in Ha. by injection Ha as <- <-.
Qed.

(** The next call, where the body of a result still held would panic. *)
Lemma taskgroup_refines_witness : noisy 101 <> None /\ exists q, queue_ok (world_after two_ended) q /\ exists w' a q',
  step noisy (Narrow true) (world_after two_ended) ENext = Some (w', a) /\ queue_ok w' q' /\
  told (world_after two_ended) ENext a w' q q'.
Proof.
  split; [done|]. destruct (taskgroup_refines noisy (Narrow true) _ ended_tame ended_reachable) as (q & Hq & Hall).
  exists q. split; [exact Hq|]. destruct (Hall ENext) as (w' & a & q' & Hs & Hq' & Ht & Hrun & _); [by split|].
  exists w', a, q'. split; [|by split]. apply Hrun. vm_compute in Hs. injection Hs as <- _. intros p Hp. cbn [w_released] in Hp.
  repeat (apply elem_of_cons in Hp as [->|Hp]; [reflexivity|]). by apply elem_of_nil in Hp.
Defined.

(** C13: as long as no deinit body that a release ran has panicked, the
    references the layer made, took over or stored are exactly those its rows
    hold, those it released and those it moved to a reader, each once, and the
    rows on the fleet's list are live, different, and of the fleet's type.
    ([drop_result_releases_twice] below is a panic that breaks it.) *)
Theorem taskgroup_conserves deinit_panic elem w : tame deinit_panic w -> reachable deinit_panic elem w ->
  held w ++ w_released w ++ w_moved w ≡ₚ w_made w /\ NoDup (rows_of w) /\
  forall h, h ∈ rows_of w -> exists r, w_rows w !! h = Some r /\ b_kind r = elem.
Proof.
  intros Ht Hr%tame_reachable; [|done]. destruct (reachable_ok quiet quiet_is elem w Hr) as [(B & F & _) _].
  split; [apply B|]. split; [apply F|]. apply (fl_row _ _ F).
Qed.

Lemma taskgroup_conserves_witness : let w := world_after two_ended in
  (held w ++ w_released w ++ w_moved w ≡ₚ w_made w /\ NoDup (rows_of w) /\
   forall h, h ∈ rows_of w -> exists r, w_rows w !! h = Some r /\ b_kind r = Narrow true) /\ w_made w = [51; 52; 53; 103].
Proof. split; [exact (taskgroup_conserves noisy (Narrow true) _ ended_tame ended_reachable)|vm_compute; reflexivity]. Defined.

(** C14: no wakeup is lost, when no deinit body panics.  An owner parked in [next] with a finished child
    has been resumed, and goes on with the first child to finish; an owner
    parked in [wait_all] whose children have all ended has been resumed and
    does not park again; neither does one whose [cancel_all] was joining. *)
Theorem taskgroup_wakes deinit_panic elem w q : (forall p, deinit_panic p = None) -> reachable deinit_panic elem w -> queue_ok w q ->
  (forall h q', w_pc w = PNext -> q = h :: q' ->
     w_woken w = true /\ exists w' o, step deinit_panic elem w (EBack false) = Some (w', ARow h o)) /\
  (w_pc w = PWait -> Forall ended (view w) ->
     w_woken w = true /\ exists w' a, step deinit_panic elem w (EBack false) = Some (w', a) /\ a <> AParked) /\
  (forall i, w_pc w = PCancel i -> Forall ended (view w) ->
     exists w' a, step deinit_panic elem w (EBack false) = Some (w', a) /\ a <> AParked).
Proof.
  intros Hquiet Hr Hq. destruct (reachable_ok deinit_panic Hquiet elem w Hr) as [Hi _]. pose proof Hi as (B & F & Hat).
  assert (Hstep : forall c, call_of (w_pc w) (EBack false) = Some c -> w_pc w <> PIdle -> w_pc w <> PDead -> exists w' a rel q',
    step deinit_panic elem w (EBack false) = Some (w', a) /\ promise (w_unwinding w) (view w) q c a rel (view w') q').
  { intros c Hc H1 H2. destruct (every_step deinit_panic Hquiet elem w (EBack false) Hi) as (w' & a & Hs & _ & Hqq); [by split|].
    destruct (Hqq q Hq) as (q' & _ & Ht). unfold told in Ht. rewrite Hc in Ht. destruct Ht as [(rel & _ & Hp)|(_ & ? & _)]; [|done].
    by exists w', a, rel, q'. }
  split; [|split].
  - intros h q' Hpc ->. rewrite Hpc in Hat, Hstep. split.
    + destruct Hat as [_ Hwk]. destruct (w_woken w); [done|]. destruct Hwk as (_ & _ & Hz).
      destruct (proj1 (qu_in _ _ Hq h) ltac:(by left)) as [Hh Hs]. by destruct (Hs (Hz h Hh)).
    + destruct (Hstep CNext) as (w' & a & rel & q'' & Hs & Hp); [done|done|done|].
      destruct (promise_row _ _ _ _ _ _ _ _ _ Hp eq_refl) as [o ->]. by exists w', o.
  - intros Hpc He. rewrite Hpc in Hat, Hstep. split.
    + destruct Hat as [_ Hwk]. destruct (w_woken w); [done|]. destruct Hwk as (_ & h & Hh & Hz). exfalso. apply (all_ended (view w) He).
      apply Exists_exists. exists (see w h). split; [by apply list_elem_of_fmap_2|]. apply (running_rows elem); [done|done|done|].
      by apply (fl_runs _ _ F).
    + destruct (Hstep CWait) as (w' & a & rel & q'' & Hs & Hp); [done|done|done|]. exists w', a. split; [done|].
      apply (promise_done _ _ _ _ _ _ _ _ Hp He). by left.
  - intros i Hpc He. rewrite Hpc in Hstep. destruct (Hstep CCancel) as (w' & a & rel & q'' & Hs & Hp); [done|done|done|].
    exists w', a. split; [done|]. apply (promise_done _ _ _ _ _ _ _ _ Hp He). by right.
Qed.

Lemma taskgroup_wakes_witness : let w := world_after woken_in_next in
  w_woken w = true /\ exists w' o, step quiet (Narrow true) w (EBack false) = Some (w', ARow 3 o).
Proof.
  assert (Hrows : rows_of (world_after woken_in_next) = [1; 2; 3]) by (vm_compute; reflexivity).
  assert (Hq : queue_ok (world_after woken_in_next) [3]).
  { split; [|repeat constructor]. intros h. rewrite Hrows, !elem_of_cons, elem_of_nil. split.
    - intros [->|[]]. split; [auto|]. vm_compute. discriminate.
    - intros [[->|[->|[->|[]]]] Hs]; [by destruct Hs|by destruct Hs|by left]. }
  exact (proj1 (taskgroup_wakes quiet (Narrow true) _ [3] quiet_is woken_reachable Hq) 3 [] eq_refl eq_refl).
Defined.

(** ** Deinit bodies that panic

    The theorems above ask for quiet deinits where they run.  A deinit body
    that panics ends the stretch of code that released its object, and two
    entries are not written for that. *)

(** [wait_all] releases the rows of a failed fleet while they are still on
    the list; the unwinding scope then reads a row that is gone. *)
Definition failed_fleet : list event :=
  three_brews ++ [EReturn 13 (VSlot 103); EPanic 12 (lit "oops"); EReturn 11 (VSlot 101); EWaitAll].

Example wait_all_leaves_freed_rows :
  (exists w (l : list answer), run noisy (Narrow true) (fresh_world 1) failed_fleet = Some (w, l) /\ w_unwinding w = true /\
     3 ∈ rows_of w /\ w_rows w !! 3 = None) /\
  run noisy (Narrow true) (fresh_world 1) (failed_fleet ++ [EScopeJoin 3 4]) = None /\
  run quiet (Narrow true) (fresh_world 1) (failed_fleet ++ [EScopeJoin 3 4]) <> None.
Proof.
  split; [|split; [vm_compute; reflexivity|vm_compute; discriminate]].
  do 2 eexists. split; [vm_compute; reflexivity|]. split; [reflexivity|]. split; [vm_compute; by right; right; left|reflexivity].
Qed.

(** [brew_drop_result] forgets the result only after the release returns: the
    cleanup after the panic releases the same reference again. *)
Definition two_results : list event :=
  [EBrew 1 0 51 (Some 11); EBrew 2 0 52 (Some 12); EReturn 12 (VSlot 103); EReturn 11 (VSlot 101); ECancelAll].

Example drop_result_releases_twice : exists w (l : list answer),
  run noisy (Narrow true) (fresh_world 1) (two_results ++ [EScopeJoin 3 4]) = Some (w, l) /\
  w_made w = [51; 52; 103; 101] /\ w_released w = [52; 51; 103; 101; 101].
Proof. do 2 eexists. split; [vm_compute; reflexivity|]. by split. Qed.
