(* ===== verification/JsonScan.v ===== *)
(** * JsonScan: the plain-run scan of the JSON writer

    [runtime/encoding/beans_enc_json.c], [beans_json_plain_span]: how many
    leading bytes of a string the writer copies as they are.  The source has
    four builds of the scan (a NEON or an SSE2 loop over sixteen bytes, a loop
    over an eight-byte word, a byte loop) chained by what the host has; all of
    them are here, the vector intrinsics lane by lane as lists. *)

From S2P Require Import Prelude Mem.

Open Scope c_scope.

(** Which loops the build has, in front of the byte loop. *)
Inductive scan_path : Type := ScanNeon | ScanSse2 | ScanSwar | ScanBytes.

#[export] Instance scan_path_eq_dec : EqDecision scan_path.
Proof. solve_decision. Defined.

(** [__builtin_ctz], [__builtin_ctzll] of a nonzero word. *)
Fixpoint pos_ctz (p : positive) : Z :=
  match p with xO p => 1 + pos_ctz p | _ => 0 end.

Definition ctz (x : Z) : Z := match x with Zpos p => pos_ctz p | _ => 0 end.

(** ** Vector lanes *)

Definition vdupq (c : Z) : list Z := replicate 16 c.
Definition lanes2 (f : Z -> Z -> Z) (a b : list Z) : list Z := zip_with f a b.
Definition lane_mask (b : bool) : Z := if b then 0xFF else 0.

Definition vcltq : list Z -> list Z -> list Z := lanes2 (fun a b => lane_mask (a <? b)).
Definition vtstq : list Z -> list Z -> list Z := lanes2 (fun a b => lane_mask (negb ((a &! b) =? 0))).
Definition vceqq : list Z -> list Z -> list Z := lanes2 (fun a b => lane_mask (a =? b)).
Definition vorrq : list Z -> list Z -> list Z := lanes2 Z.lor.
Definition vandq : list Z -> list Z -> list Z := lanes2 Z.land.
Definition vmaxq : list Z -> list Z -> list Z := lanes2 Z.max.
Definition vmaxvq (v : list Z) : Z := foldr Z.max 0 v.

(** [_mm_movemask_epi8]: bit [i] is the sign of lane [i]. *)
Definition movemask (v : list Z) : Z := foldr (fun b m => c_bool (128 <=? b) + 2 * m) 0 v.

(** The flagged lanes of sixteen bytes, as each loop computes them. *)
Definition neon_breaks (v : list Z) : list Z :=
  vorrq (vorrq (vcltq v (vdupq 0x20)) (vtstq v (vdupq 0x80)))
        (vorrq (vceqq v (vdupq 34)) (vceqq v (vdupq 92))).

Definition sse2_breaks (v : list Z) : list Z :=
  let is_ctrl := vceqq (vmaxq v (vdupq 0x1F)) (vdupq 0x1F) in
  let is_high := vceqq (vandq v (vdupq 0x80)) (vdupq 0x80) in
  vorrq (vorrq is_ctrl is_high) (vorrq (vceqq v (vdupq 34)) (vceqq v (vdupq 92))).

(** One round of each loop at sixteen bytes: [None] goes on. *)
Definition neon_round (v : list Z) : option Z :=
  let breaks := neon_breaks v in
  if vmaxvq breaks =? 0 then None
  else
    let low := le (take 8 breaks) in
    if negb (low =? 0) then Some (ctz low >>! 3)
    else let high := le (drop 8 breaks) in Some (8 + (ctz high >>! 3)).

Definition sse2_round (v : list Z) : option Z :=
  let mask := movemask (sse2_breaks v) in
  if mask =? 0 then None else Some (ctz mask).

(** ** The eight-byte word *)

Definition has_zero (x k : Z) : Z := ((x -! k) &! ~! x) &! 0x8080808080808080.

Definition swar_breaks (word : Z) : Z :=
  let high := word &! 0x8080808080808080 in
  let control := has_zero word 0x2020202020202020 in
  let quoted := has_zero (word ^! 0x2222222222222222) 0x0101010101010101 in
  let slashed := has_zero (word ^! 0x5C5C5C5C5C5C5C5C) 0x0101010101010101 in
  high |! control |! quoted |! slashed.

Definition swar_round (v : list Z) : option Z :=
  let breaks := swar_breaks (le v) in
  if breaks =? 0 then None else Some (ctz breaks >>! 3).

(** ** The loops *)

(** [while (at + width <= len)] with a round at [src + at]: the offset and
    whether the function returned. *)
Fixpoint scan_blocks (fuel : nat) (width : Z) (round : list Z -> option Z) (src : str) (at_ : Z) : Z * bool :=
  match fuel with
  | O => (at_, false)
  | S fuel =>
      if at_ + width <=? slen src then
        match round (sub_str src at_ width) with
        | None => scan_blocks fuel width round src (at_ + width)
        | Some off => (at_ + off, true)
        end
      else (at_, false)
  end.

Definition plain_byte (c : Z) : bool :=
  (0x20 <=? c) && (c <? 0x80) && negb (c =? 34) && negb (c =? 92).

Fixpoint scan_bytes (fuel : nat) (src : str) (at_ : Z) : Z :=
  match fuel with
  | O => at_
  | S fuel =>
      if at_ <? slen src then
        if plain_byte (c_at src (Z.to_nat at_)) then scan_bytes fuel src (at_ + 1) else at_
      else at_
  end.

(** Each loop advances by at least one byte. *)
Definition json_plain_span (path : scan_path) (src : str) : Z :=
  let fuel := S (length src) in
  let '(at1, done1) :=
    match path with
    | ScanNeon => scan_blocks fuel 16 neon_round src 0
    | ScanSse2 => scan_blocks fuel 16 sse2_round src 0
    | _ => (0, false)
    end in
  if done1 : bool then at1
  else
    let '(at2, done2) :=
      match path with
      | ScanBytes => (at1, false)
      | _ => scan_blocks fuel 8 swar_round src at1
      end in
    if done2 : bool then at2 else scan_bytes fuel src at2.

(** ** The reference: the length of the longest plain prefix *)

Fixpoint plain_prefix (src : str) : Z :=
  match src with
  | c :: src => if plain_byte c then 1 + plain_prefix src else 0
  | [] => 0
  end.

(** ** Lowest set bit *)

Lemma pos_ctz_spec p : exists m, Zpos p = 2 ^ pos_ctz p * m /\ Z.odd m = true /\ 0 <= pos_ctz p.
Proof.
  induction p as [p _|p (m & He & Ho & Hp)|]; cbn [pos_ctz].
  - exists (Zpos p~1). split_and!; [lia|done|lia].
  - exists m. split_and!; [|done|lia]. rewrite Z.pow_add_r by lia. lia.
  - by exists 1.
Qed.

Lemma ctz_odd k m : 0 <= k -> 0 < m -> Z.odd m = true -> ctz (2 ^ k * m) = k.
Proof.
  intros Hk Hm Ho. revert k Hk. apply natlike_ind.
  - rewrite Z.pow_0_r, Z.mul_1_l. destruct m as [|p|p]; [done| |done]. by destruct p.
  - intros k Hk IH. rewrite Z.pow_succ_r, <-Z.mul_assoc by lia.
    assert (0 < 2 ^ k) by (apply Z.pow_pos_nonneg; lia).
    destruct (2 ^ k * m) as [|p|p] eqn:He; [lia| |lia]. change (2 * Z.pos p) with (Z.pos p~0). cbn [ctz pos_ctz] in *. lia.
Qed.

(** The lowest bit of a nonzero byte is not moved by what is above it. *)
Lemma ctz_byte c y : 0 < c < 256 -> 0 <= y -> ctz (c + 256 * y) = ctz c /\ 0 <= ctz c < 8.
Proof.
  intros Hc Hy. destruct c as [|p|p]; [lia| |lia]. destruct (pos_ctz_spec p) as (m & He & Ho & Hp).
  cbn [ctz]. set (k := pos_ctz p) in *. assert (Hk : k < 8).
  { destruct (Z.lt_ge_cases k 8) as [|Hge]; [done|]. exfalso.
    assert (2 ^ 8 <= 2 ^ k) by (apply Z.pow_le_mono_r; lia).
    assert (0 < m) by nia. change (2 ^ 8) with 256 in *. nia. }
  split; [|lia]. rewrite He. assert (0 < 2 ^ k) by (apply Z.pow_pos_nonneg; lia).
  assert (0 < m) by nia.
  replace (2 ^ k * m + 256 * y) with (2 ^ k * (m + 2 ^ (8 - k) * y)).
  2:{ rewrite Z.mul_add_distr_l, Z.mul_assoc, <-Z.pow_add_r by lia. by replace (k + (8 - k)) with 8 by lia. }
  assert (0 < 2 ^ (8 - k)) by (apply Z.pow_pos_nonneg; lia).
  apply ctz_odd; [lia|nia|]. rewrite Z.odd_add, Ho, Z.odd_mul.
  replace (8 - k) with (Z.succ (7 - k)) by lia. rewrite Z.pow_succ_r by lia. by rewrite Z.odd_mul.
Qed.

Lemma ctz_shift k y : 0 <= k -> 0 < y -> ctz (2 ^ k * y) = k + ctz y.
Proof.
  intros Hk Hy. destruct y as [|p|p]; [lia| |lia]. destruct (pos_ctz_spec p) as (m & He & Ho & Hp).
  assert (0 < m) by (pose proof (Z.pow_pos_nonneg 2 (pos_ctz p)); nia).
  rewrite He, Z.mul_assoc, <-Z.pow_add_r, !ctz_odd by (done || lia). done.
Qed.

(** ** Words byte by byte *)

Lemma testbit_byte a b n : is_u8 a -> 0 <= n ->
  Z.testbit (a + 256 * b) n = if n <? 8 then Z.testbit a n else Z.testbit b (n - 8).
Proof.
  intros Ha Hn. unfold is_u8 in Ha. change 256 with (2 ^ 8). rewrite (Z.mul_comm _ b), <-lor_add, Z.lor_spec by lia.
  destruct (Z.ltb_spec n 8).
  - by rewrite Z.mul_pow2_bits_low, orb_false_r by lia.
  - rewrite Z.mul_pow2_bits by lia. replace (Z.testbit a n) with false; [done|].
    symmetry. destruct (Z.eq_dec a 0) as [->|]; [apply Z.bits_0|]. apply Z.bits_above_log2; [lia|].
    assert (Z.log2 a < 8) by (apply Z.log2_lt_pow2; lia). lia.
Qed.

(** A bitwise operation acts on the low byte and on the rest. *)
Lemma byte_op (op : Z -> Z -> Z) (opb : bool -> bool -> bool) a b c d :
  (forall x y n, Z.testbit (op x y) n = opb (Z.testbit x n) (Z.testbit y n)) ->
  is_u8 a -> is_u8 c -> is_u8 (op a c) -> op (a + 256 * b) (c + 256 * d) = op a c + 256 * op b d.
Proof.
  intros Hop Ha Hc Hac. apply Z.bits_inj'. intros n Hn. rewrite Hop, !testbit_byte, !Hop by done.
  by destruct (n <? 8).
Qed.

Lemma u8_op (op : Z -> Z -> Z) a c :
  (forall n, 8 <= n -> Z.testbit (op a c) n = false) -> 0 <= op a c -> is_u8 (op a c).
Proof.
  intros Hb Hn. unfold is_u8. split; [done|]. destruct (Z.lt_ge_cases (op a c) (2 ^ 8)) as [|Hge]; [done|].
  pose proof (Z.log2_le_pow2 (op a c) 8 ltac:(lia)) as [Hl _]. specialize (Hl Hge).
  specialize (Hb (Z.log2 (op a c)) Hl). rewrite Z.bit_log2 in Hb by lia. done.
Qed.

Lemma u8_high a n : is_u8 a -> 8 <= n -> Z.testbit a n = false.
Proof.
  intros Ha Hn. replace a with (a + 256 * 0) by lia.
  rewrite testbit_byte by (done || lia). rewrite (proj2 (Z.ltb_ge _ _)) by lia. apply Z.bits_0.
Qed.

Lemma land_u8 a c : is_u8 a -> is_u8 c -> is_u8 (Z.land a c).
Proof.
  intros Ha Hc. apply u8_op; [|unfold is_u8 in *; apply Z.land_nonneg; lia].
  intros n Hn. by rewrite Z.land_spec, u8_high.
Qed.

Lemma lor_u8 a c : is_u8 a -> is_u8 c -> is_u8 (Z.lor a c).
Proof.
  intros Ha Hc. apply u8_op; [|unfold is_u8 in *; apply Z.lor_nonneg; lia].
  intros n Hn. by rewrite Z.lor_spec, !u8_high.
Qed.

Lemma lxor_u8 a c : is_u8 a -> is_u8 c -> is_u8 (Z.lxor a c).
Proof.
  intros Ha Hc. apply u8_op; [|unfold is_u8 in *; apply Z.lxor_nonneg; lia].
  intros n Hn. by rewrite Z.lxor_spec, !u8_high.
Qed.

#[export] Hint Resolve land_u8 lor_u8 lxor_u8 : word.

Lemma land_bytes a b c d : is_u8 a -> is_u8 c -> Z.land (a + 256 * b) (c + 256 * d) = Z.land a c + 256 * Z.land b d.
Proof. intros. apply (byte_op Z.land andb); auto using Z.land_spec with word. Qed.

Lemma lor_bytes a b c d : is_u8 a -> is_u8 c -> Z.lor (a + 256 * b) (c + 256 * d) = Z.lor a c + 256 * Z.lor b d.
Proof. intros. apply (byte_op Z.lor orb); auto using Z.lor_spec with word. Qed.

Lemma lxor_bytes a b c d : is_u8 a -> is_u8 c -> Z.lxor (a + 256 * b) (c + 256 * d) = Z.lxor a c + 256 * Z.lxor b d.
Proof. intros. apply (byte_op Z.lxor xorb); auto using Z.lxor_spec with word. Qed.

(** ** The word test, byte by byte with its borrow *)

(** [rep n k]: the byte [k] in each of [n] places. *)
Definition rep (n : nat) (k : Z) : Z := le (replicate n k).

Definition zeros_n (n : nat) (x k : Z) : Z :=
  Z.land (Z.land ((x - k) mod 256 ^ Z.of_nat n) (256 ^ Z.of_nat n - 1 - x)) (rep n 0x80).

Definition zero_byte (c k : Z) : Z := Z.land (Z.land ((c - k) mod 256) (255 - c)) 0x80.

Lemma zeros_step n c y kb kr : is_u8 c -> 0 <= kb < 256 ->
  zeros_n (S n) (c + 256 * y) (kb + 256 * kr) = zero_byte c kb + 256 * zeros_n n y (kr + c_bool (c <? kb)).
Proof.
  intros Hc Hk. unfold zeros_n, zero_byte. set (M := 256 ^ Z.of_nat n).
  assert (HM : 256 ^ Z.of_nat (S n) = 256 * M).
  { unfold M. rewrite Nat2Z.inj_succ, Z.pow_succ_r by lia. done. }
  assert (0 < M) by (unfold M; apply Z.pow_pos_nonneg; lia).
  set (b := c_bool (c <? kb)).
  assert (H1 : (c + 256 * y - (kb + 256 * kr)) mod (256 * M) = (c - kb) mod 256 + 256 * ((y - (kr + b)) mod M)).
  { replace (c + 256 * y - (kb + 256 * kr)) with ((c - kb) mod 256 + 256 * (y - (kr + b)))
      by (unfold b, c_bool, is_u8 in *; destruct (Z.ltb_spec c kb); dlia).
    rewrite Z.rem_mul_r by lia. f_equal.
    - replace (256 * (y - (kr + b))) with ((y - (kr + b)) * 256) by ring.
      rewrite Z.mod_add by lia. by rewrite Z.mod_mod.
    - do 2 f_equal. replace (256 * (y - (kr + b))) with ((y - (kr + b)) * 256) by ring. rewrite Z.div_add by lia.
      rewrite Z.div_small by (apply Z.mod_pos_bound; lia). lia. }
  rewrite HM, H1. replace (256 * M - 1 - (c + 256 * y)) with (255 - c + 256 * (M - 1 - y)) by ring.
  change (rep (S n) 128) with (128 + 256 * rep n 128).
  assert (is_u8 ((c - kb) mod 256)) by (unfold is_u8; dlia). assert (is_u8 (255 - c)) by (unfold is_u8 in *; lia).
  rewrite !land_bytes by (repeat apply land_u8; done). done.
Qed.

Lemma rep_nonneg n k : 0 <= k -> 0 <= rep n k.
Proof. intros Hk. induction n as [|n IH]; [done|]. change (rep (S n) k) with (k + 256 * rep n k). lia. Qed.

Lemma zeros_nonneg n x k : 0 <= zeros_n n x k.
Proof. unfold zeros_n. rewrite !Z.land_nonneg. right. by apply rep_nonneg. Qed.

Definition breaks_n (n : nat) (w c q s : Z) : Z :=
  Z.lor (Z.lor (Z.lor (Z.land w (rep n 0x80)) (zeros_n n w c)) (zeros_n n (Z.lxor w (rep n 0x22)) q))
        (zeros_n n (Z.lxor w (rep n 0x5C)) s).

Definition break_byte (c : Z) : Z :=
  Z.lor (Z.lor (Z.lor (Z.land c 0x80) (zero_byte c 0x20)) (zero_byte (Z.lxor c 0x22) 1)) (zero_byte (Z.lxor c 0x5C) 1).

Lemma zero_byte_u8 c k : is_u8 c -> is_u8 (zero_byte c k).
Proof. intros Hc. unfold zero_byte. pose proof (Z.mod_pos_bound (c - k) 256 ltac:(lia)).
  repeat apply land_u8; unfold is_u8 in *; lia. Qed.

Lemma break_byte_u8 c : is_u8 c -> is_u8 (break_byte c).
Proof.
  intros Hc. unfold break_byte.
  repeat (apply lor_u8 || apply zero_byte_u8 || apply land_u8 || apply lxor_u8 || done).
Qed.

Lemma breaks_step n c y kc kq ks : is_u8 c ->
  breaks_n (S n) (c + 256 * y) (0x20 + 256 * kc) (1 + 256 * kq) (1 + 256 * ks) =
  break_byte c + 256 * breaks_n n y (kc + c_bool (c <? 0x20)) (kq + c_bool (Z.lxor c 0x22 <? 1))
                                (ks + c_bool (Z.lxor c 0x5C <? 1)).
Proof.
  intros Hc. unfold breaks_n, break_byte.
  change (rep (S n) 128) with (128 + 256 * rep n 128).
  change (rep (S n) 34) with (34 + 256 * rep n 34). change (rep (S n) 92) with (92 + 256 * rep n 92).
  assert (Hu : is_u8 34 /\ is_u8 92 /\ is_u8 128) by (unfold is_u8; lia). destruct Hu as (? & ? & ?).
  rewrite !lxor_bytes, land_bytes by done. rewrite !zeros_step by (auto using lxor_u8 || lia).
  rewrite !lor_bytes by (repeat (apply lor_u8 || apply zero_byte_u8 || apply land_u8 || apply lxor_u8 || done)).
  done.
Qed.

(** What the 256 bytes do. *)
Lemma break_byte_all : forallb (fun c =>
  Bool.eqb (break_byte c =? 0) (plain_byte c) &&
  implb (plain_byte c) (negb (c <? 0x20) && negb (Z.lxor c 0x22 <? 1) && negb (Z.lxor c 0x5C <? 1)))
  (Z.of_nat <$> seq 0 256) = true.
Proof. vm_compute. reflexivity. Qed.

Lemma byte_in c : is_u8 c -> List.In c (Z.of_nat <$> seq 0 256).
Proof.
  intros Hc. unfold is_u8 in Hc. apply list_elem_of_In, list_elem_of_fmap. exists (Z.to_nat c).
  split; [lia|]. apply elem_of_seq. lia.
Qed.

Lemma break_byte_spec c : is_u8 c ->
  if plain_byte c then break_byte c = 0 /\ c_bool (c <? 0x20) = 0 /\ c_bool (Z.lxor c 0x22 <? 1) = 0 /\
    c_bool (Z.lxor c 0x5C <? 1) = 0 else 0 < break_byte c.
Proof.
  intros Hc. pose proof (proj1 (forallb_forall _ _) break_byte_all c (byte_in c Hc)) as Hb. cbv beta in Hb.
  apply andb_true_iff in Hb as [H1 H2]. apply eqb_prop in H1.
  pose proof (break_byte_u8 c Hc) as Hu. unfold is_u8 in Hu. destruct (plain_byte c).
  - cbn [implb] in H2. apply andb_true_iff in H2 as [H2 H5]. apply andb_true_iff in H2 as [H3 H4].
    apply Z.eqb_eq in H1. apply negb_true_iff in H3, H4, H5. by rewrite H1, H3, H4, H5.
  - apply Z.eqb_neq in H1. lia.
Qed.

Lemma breaks_nonneg n w c q s : 0 <= breaks_n n w c q s.
Proof.
  unfold breaks_n. rewrite !Z.lor_nonneg, Z.land_nonneg.
  pose proof (rep_nonneg n 0x80 ltac:(lia)). auto using zeros_nonneg.
Qed.

(** The lowest flagged byte of the word is the first that is not plain; a
    flag above it may be a borrow and does not matter. *)
Lemma breaks_first bs : bytes_ok bs ->
  let b := breaks_n (length bs) (le bs) (rep (length bs) 0x20) (rep (length bs) 1) (rep (length bs) 1) in
  if b =? 0 then plain_prefix bs = slen bs else ctz b / 8 = plain_prefix bs /\ plain_prefix bs < slen bs.
Proof.
  induction 1 as [|c bs Hc Hbs IH]; [done|]. cbn zeta in *. cbn [length plain_prefix]. rewrite slen_cons.
  change (le (c :: bs)) with (c + 256 * le bs).
  change (rep (S (length bs)) 32) with (32 + 256 * rep (length bs) 32).
  change (rep (S (length bs)) 1) with (1 + 256 * rep (length bs) 1). rewrite breaks_step by done.
  pose proof (break_byte_spec c Hc) as Hb. pose proof (break_byte_u8 c Hc) as Hu. unfold is_u8 in Hu.
  pose proof (slen_nonneg bs). destruct (plain_byte c).
  - destruct Hb as (-> & -> & -> & ->). rewrite !Z.add_0_r, Z.add_0_l.
    set (b := breaks_n _ _ _ _ _) in *. pose proof (breaks_nonneg (length bs) (le bs) (rep (length bs) 32)
      (rep (length bs) 1) (rep (length bs) 1)) as Hn. fold b in Hn. clearbody b.
    destruct (Z.eqb_spec b 0) as [Hz|Hne]; [rewrite Hz; change (256 * 0 =? 0) with true; cbv iota; lia|]. rewrite (proj2 (Z.eqb_neq _ _)) by lia.
    change 256 with (2 ^ 8). rewrite ctz_shift by lia. destruct IH. dlia.
  - set (y := breaks_n _ _ _ _ _). pose proof (breaks_nonneg (length bs) (le bs) (rep (length bs) 32 + c_bool (c <? 32))
      (rep (length bs) 1 + c_bool (Z.lxor c 34 <? 1)) (rep (length bs) 1 + c_bool (Z.lxor c 92 <? 1))) as Hn.
    fold y in Hn. clearbody y. rewrite (proj2 (Z.eqb_neq _ _)) by lia.
    destruct (ctz_byte (break_byte c) y) as [-> Hr]; [lia..|]. split; [|lia]. apply Z.div_small. lia.
Qed.

(** ** The rounds *)

Definition round_ok (width : nat) (round : list Z -> option Z) : Prop := forall v,
  bytes_ok v -> length v = width ->
  match round v with
  | None => plain_prefix v = Z.of_nat width
  | Some off => off = plain_prefix v /\ off < Z.of_nat width
  end.

Lemma swar_round_ok : round_ok 8 swar_round.
Proof.
  intros v Hv Hl. pose proof (breaks_first v Hv) as Hb. pose proof (le_range v Hv) as Hr.
  unfold slen in *. rewrite Hl in *. change (2 ^ (8 * Z.of_nat 8)) with (2 ^ 64) in Hr.
  fold (is_u64 (le v)) in Hr.
  assert (He : swar_breaks (le v) = breaks_n 8 (le v) (rep 8 0x20) (rep 8 1) (rep 8 1)).
  { assert (Hn : forall x, ~! x = 256 ^ Z.of_nat 8 - 1 - u64 x).
    { intros x. change (256 ^ Z.of_nat 8) with (2 ^ 64). unfold u64, Z.lnot. dlia. }
    assert (Hx : forall k, is_u64 k -> is_u64 (le v ^! k)).
    { intros k Hk. unfold is_u64 in *. split; [apply Z.lxor_nonneg; lia|].
      destruct (Z.eq_dec (Z.lxor (le v) k) 0) as [->|]; [done|].
      assert (0 <= Z.lxor (le v) k) by (apply Z.lxor_nonneg; lia).
      apply Z.log2_lt_pow2; [lia|]. apply Z.le_lt_trans with (Z.max (Z.log2 (le v)) (Z.log2 k)); [apply Z.log2_lxor; lia|].
      apply Z.max_lub_lt; [destruct (Z.eq_dec (le v) 0) as [->|]|destruct (Z.eq_dec k 0) as [->|]];
        (done || (apply Z.log2_lt_pow2; lia)). }
    unfold swar_breaks, breaks_n, has_zero, zeros_n. rewrite !Hn.
    rewrite (u64_small (le v)), !(u64_small (le v ^! _)) by (exact Hr || (apply Hx; unfold is_u64; lia)).
    reflexivity. }
  unfold swar_round. rewrite He. cbn zeta in Hb. destruct (_ =? 0); [done|].
  rewrite shr_div by lia. change (2 ^ 3) with 8. lia.
Qed.

(** *** Lanes *)

Lemma lanes_dup f v k : length v = 16%nat -> lanes2 f v (vdupq k) = (fun c => f c k) <$> v.
Proof.
  unfold lanes2, vdupq. intros <-. induction v as [|c v IH]; [done|]. cbn [length replicate zip_with fmap list_fmap].
  by f_equal.
Qed.

Lemma lanes_fmap f (g h : Z -> Z) v : lanes2 f (g <$> v) (h <$> v) = (fun c => f (g c) (h c)) <$> v.
Proof. unfold lanes2. induction v as [|c v IH]; [done|]. cbn [zip_with fmap list_fmap]. by f_equal. Qed.

(** A flagged lane is [0xFF]. *)
Definition lane_break (c : Z) : Z := lane_mask (negb (plain_byte c)).

Lemma lanes_ext (f : Z -> Z) v :
  forallb (fun c => f c =? lane_break c) (Z.of_nat <$> seq 0 256) = true -> bytes_ok v -> f <$> v = lane_break <$> v.
Proof.
  intros Hall Hv. apply list_fmap_ext. intros i c Hc. apply Z.eqb_eq.
  apply (proj1 (forallb_forall _ _) Hall). apply byte_in. by apply (Forall_lookup_1 _ _ _ _ Hv Hc).
Qed.

Lemma neon_lanes v : bytes_ok v -> length v = 16%nat -> neon_breaks v = lane_break <$> v.
Proof.
  intros Hv Hl. unfold neon_breaks, vorrq, vcltq, vtstq, vceqq. rewrite !lanes_dup, !lanes_fmap by done.
  apply lanes_ext; [vm_compute; reflexivity|done].
Qed.

Lemma sse2_lanes v : bytes_ok v -> length v = 16%nat -> sse2_breaks v = lane_break <$> v.
Proof.
  intros Hv Hl. unfold sse2_breaks, vorrq, vandq, vmaxq, vceqq.
  rewrite !(lanes_dup _ v) by done. rewrite !lanes_dup by (by rewrite length_fmap).
  rewrite <-!list_fmap_compose, !lanes_fmap. apply lanes_ext; [vm_compute; reflexivity|done].
Qed.

Lemma lane_max v : if vmaxvq (lane_break <$> v) =? 0 then plain_prefix v = slen v else plain_prefix v < slen v.
Proof.
  induction v as [|c v IH]; [done|]. cbn [fmap list_fmap vmaxvq foldr plain_prefix]. fold (vmaxvq (lane_break <$> v)).
  rewrite slen_cons. pose proof (slen_nonneg v). unfold lane_break at 1, lane_mask.
  assert (0 <= vmaxvq (lane_break <$> v)).
  { clear. induction v as [|c v IH]; cbn [fmap list_fmap vmaxvq foldr]; [lia|]. fold (vmaxvq (lane_break <$> v)). lia. }
  destruct (plain_byte c); cbn [negb].
  - rewrite Z.max_r by lia. destruct (_ =? 0); lia.
  - rewrite (proj2 (Z.eqb_neq _ _)) by lia. lia.
Qed.

Lemma plain_prefix_range v : 0 <= plain_prefix v <= slen v.
Proof.
  induction v as [|c v IH]; cbn [plain_prefix]; [done|]. rewrite slen_cons. destruct (plain_byte c); lia.
Qed.

Lemma plain_prefix_app a b :
  plain_prefix (a ++ b) = if plain_prefix a =? slen a then slen a + plain_prefix b else plain_prefix a.
Proof.
  induction a as [|c a IH]; [done|]. cbn [app plain_prefix]. rewrite slen_cons. pose proof (plain_prefix_range a).
  destruct (plain_byte c).
  - rewrite IH. destruct (Z.eqb_spec (plain_prefix a) (slen a)), (Z.eqb_spec (1 + plain_prefix a) (1 + slen a)); lia.
  - rewrite (proj2 (Z.eqb_neq _ _)) by lia. done.
Qed.

(** The word of the lanes: its lowest set bit is in the first flagged byte. *)
Lemma lane_word v : let w := le (lane_break <$> v) in
  if w =? 0 then plain_prefix v = slen v else 0 < w /\ ctz w / 8 = plain_prefix v /\ plain_prefix v < slen v.
Proof.
  cbn zeta. induction v as [|c v IH]; [done|]. cbn [fmap list_fmap plain_prefix]. rewrite slen_cons.
  change (le (lane_break c :: (lane_break <$> v))) with (lane_break c + 256 * le (lane_break <$> v)).
  assert (0 <= le (lane_break <$> v)).
  { clear. induction v as [|c v IH]; [done|]. cbn [fmap list_fmap].
    change (le (lane_break c :: (lane_break <$> v))) with (lane_break c + 256 * le (lane_break <$> v)).
    unfold lane_break at 1, lane_mask. destruct (negb _); lia. }
  pose proof (slen_nonneg v). generalize dependent (le (lane_break <$> v)). intros w IH Hw.
  unfold lane_break, lane_mask. destruct (plain_byte c); cbn [negb].
  - rewrite Z.add_0_l. destruct (Z.eqb_spec w 0) as [Hz|]; [rewrite Hz; change (256 * 0 =? 0) with true; cbv iota; lia|].
    rewrite (proj2 (Z.eqb_neq _ _)) by lia. change 256 with (2 ^ 8). rewrite ctz_shift by lia.
    destruct IH as (_ & IH & ?). split_and!; dlia.
  - rewrite (proj2 (Z.eqb_neq _ _)) by lia. destruct (ctz_byte 255 w) as [-> Hr]; [lia..|].
    split_and!; [lia|by apply Z.div_small|lia].
Qed.

(** The mask has a bit a lane. *)
Lemma lane_bits v : let w := movemask (lane_break <$> v) in
  if w =? 0 then plain_prefix v = slen v else 0 < w /\ ctz w = plain_prefix v /\ plain_prefix v < slen v.
Proof.
  cbn zeta. induction v as [|c v IH]; [done|]. cbn [fmap list_fmap plain_prefix movemask foldr]. rewrite slen_cons.
  fold (movemask (lane_break <$> v)). pose proof (slen_nonneg v).
  generalize dependent (movemask (lane_break <$> v)). intros w IH.
  unfold lane_break, lane_mask. destruct (plain_byte c); cbn [negb].
  - change (c_bool (128 <=? 0)) with 0. rewrite Z.add_0_l.
    destruct (Z.eqb_spec w 0) as [Hz|]; [rewrite Hz; change (2 * 0 =? 0) with true; cbv iota; lia|].
    rewrite (proj2 (Z.eqb_neq _ _)) by lia. change 2 with (2 ^ 1). rewrite ctz_shift by lia. destruct IH. lia.
  - change (c_bool (128 <=? 255)) with 1. assert (0 <= w) by (destruct (Z.eqb_spec w 0); [|destruct IH]; lia).
    rewrite (proj2 (Z.eqb_neq _ _)) by lia. split_and!; [lia| |lia].
    replace (1 + 2 * w) with (2 ^ 0 * (1 + 2 * w)) by lia. apply ctz_odd; [lia..|].
    by rewrite Z.odd_add, Z.odd_mul.
Qed.

Lemma neon_round_ok : round_ok 16 neon_round.
Proof.
  intros v Hv Hl. unfold neon_round. rewrite neon_lanes by done. pose proof (lane_max v) as Hm.
  assert (Hs : slen v = 16) by (unfold slen; lia). destruct (_ =? 0); [lia|].
  rewrite <-fmap_take, <-fmap_drop. pose proof (lane_word (take 8 v)) as H1. pose proof (lane_word (drop 8 v)) as H2.
  pose proof (plain_prefix_app (take 8 v) (drop 8 v)) as Ha. rewrite take_drop in Ha.
  assert (slen (take 8 v) = 8) by (unfold slen; rewrite length_take; lia).
  assert (slen (drop 8 v) = 8) by (unfold slen; rewrite length_drop; lia). cbn zeta in *.
  rewrite !shr_div by lia. change (2 ^ 3) with 8. destruct (_ =? 0); cbn [negb].
  - rewrite H1, Z.eqb_refl in Ha. destruct (le (lane_break <$> drop 8 v) =? 0); [|destruct H2 as (_ & ? & ?)]; lia.
  - destruct H1 as (_ & ? & ?). rewrite (proj2 (Z.eqb_neq _ _)) in Ha by lia. lia.
Qed.

Lemma sse2_round_ok : round_ok 16 sse2_round.
Proof.
  intros v Hv Hl. unfold sse2_round. rewrite sse2_lanes by done. pose proof (lane_bits v) as Hm.
  assert (Hs : slen v = 16) by (unfold slen; lia). cbn zeta in Hm. destruct (_ =? 0); [lia|]. destruct Hm as (_ & ? & ?). lia.
Qed.

(** ** The loops *)

Lemma scan_blocks_ok width round src : round_ok width round -> (0 < width)%nat -> bytes_ok src ->
  forall fuel at_, 0 <= at_ <= slen src -> plain_prefix (take (Z.to_nat at_) src) = at_ ->
  let '(at', d) := scan_blocks fuel (Z.of_nat width) round src at_ in
  if d : bool then at' = plain_prefix src
  else at_ <= at' <= slen src /\ plain_prefix (take (Z.to_nat at') src) = at'.
Proof.
  intros Hr Hw Hb. induction fuel as [|fuel IH]; intros at_ Hat Hp; cbn [scan_blocks]; [lia|].
  destruct (Z.leb_spec (at_ + Z.of_nat width) (slen src)) as [Hle|]; [|lia].
  set (v := sub_str src at_ (Z.of_nat width)).
  assert (Hl : length v = width).
  { unfold v, sub_str. rewrite Nat2Z.id, length_take, length_drop. unfold slen in *. lia. }
  assert (Hv : bytes_ok v) by (unfold v, sub_str; by apply Forall_take, Forall_drop).
  assert (Hs1 : take (Z.to_nat (at_ + Z.of_nat width)) src = take (Z.to_nat at_) src ++ v).
  { unfold v, sub_str. rewrite Nat2Z.id, take_take_drop. f_equal. lia. }
  assert (Hs2 : slen (take (Z.to_nat at_) src) = at_) by (unfold slen in *; rewrite length_take; lia).
  pose proof (plain_prefix_app (take (Z.to_nat at_) src) v) as Ha. rewrite <-Hs1, Hp, Hs2, Z.eqb_refl in Ha.
  specialize (Hr v Hv Hl). destruct (round v) as [off|].
  - destruct Hr as [-> Hlt]. rewrite <-(take_drop (Z.to_nat (at_ + Z.of_nat width)) src), plain_prefix_app, Ha.
    unfold slen in *. rewrite length_take. rewrite (proj2 (Z.eqb_neq _ _)) by lia. lia.
  - specialize (IH (at_ + Z.of_nat width)). rewrite Hr in Ha.
    specialize (IH ltac:(lia) Ha). destruct (scan_blocks _ _ _ _ _) as [at' d]. destruct d; [done|lia].
Qed.

Lemma scan_bytes_ok src : forall fuel at_, slen src - at_ < Z.of_nat fuel -> 0 <= at_ <= slen src ->
  plain_prefix (take (Z.to_nat at_) src) = at_ -> scan_bytes fuel src at_ = plain_prefix src.
Proof.
  induction fuel as [|fuel IH]; intros at_ Hf Hat Hp; cbn [scan_bytes]; [lia|].
  assert (Hs : slen (take (Z.to_nat at_) src) = at_) by (unfold slen in *; rewrite length_take; lia).
  pose proof (plain_prefix_app (take (Z.to_nat at_) src) (drop (Z.to_nat at_) src)) as Ha.
  rewrite take_drop, Hp, Hs, Z.eqb_refl in Ha.
  destruct (Z.ltb_spec at_ (slen src)) as [Hlt|Hge].
  - destruct (lookup_lt_is_Some_2 src (Z.to_nat at_)) as [c Hc]; [unfold slen in *; lia|].
    unfold c_at. rewrite Hc. cbn [default]. rewrite (drop_S _ _ _ Hc) in Ha. cbn [plain_prefix] in Ha.
    cbn. destruct (plain_byte c) eqn:Hpl; [|lia].
    apply IH; [lia|lia|]. replace (Z.to_nat (at_ + 1)) with (S (Z.to_nat at_)) by lia.
    rewrite (take_S_r _ _ _ Hc), plain_prefix_app, Hp, Hs, Z.eqb_refl. cbn [plain_prefix]. rewrite Hpl. lia.
  - rewrite drop_ge in Ha by (unfold slen in *; lia). cbn [plain_prefix] in Ha. lia.
Qed.

(** Every build of the scan stops at the same byte. *)
Lemma plain_span_ok path src : bytes_ok src -> json_plain_span path src = plain_prefix src.
Proof.
  intros Hb. unfold json_plain_span. set (fuel := S (length src)).
  assert (H1 : let '(a1, d1) := match path with
      | ScanNeon => scan_blocks fuel 16 neon_round src 0 | ScanSse2 => scan_blocks fuel 16 sse2_round src 0
      | _ => (0, false) end in
    if d1 : bool then a1 = plain_prefix src else 0 <= a1 <= slen src /\ plain_prefix (take (Z.to_nat a1) src) = a1).
  { pose proof (slen_nonneg src). assert (H0 : plain_prefix (take (Z.to_nat 0) src) = 0) by done.
    destruct path; [exact (scan_blocks_ok 16 _ src neon_round_ok ltac:(lia) Hb fuel 0 ltac:(lia) H0)
      |exact (scan_blocks_ok 16 _ src sse2_round_ok ltac:(lia) Hb fuel 0 ltac:(lia) H0)|lia|lia]. }
  destruct (match path with ScanNeon => _ | _ => _ end) as [a1 d1]. destruct d1; [done|]. destruct H1 as [Ha Hp].
  assert (H2 : let '(a2, d2) := match path with ScanBytes => (a1, false) | _ => scan_blocks fuel 8 swar_round src a1 end in
    if d2 : bool then a2 = plain_prefix src else 0 <= a2 <= slen src /\ plain_prefix (take (Z.to_nat a2) src) = a2).
  { pose proof (scan_blocks_ok 8 _ src swar_round_ok ltac:(lia) Hb fuel a1 Ha Hp) as Hsw.
    change (Z.of_nat 8) with 8 in Hsw. destruct path; [..|done];
      (destruct (scan_blocks fuel 8 swar_round src a1) as [a2 d2]; destruct d2; [done|lia]). }
  destruct (match path with ScanBytes => _ | _ => _ end) as [a2 d2]. destruct d2; [done|]. destruct H2 as [Ha2 Hp2].
  apply scan_bytes_ok; [unfold fuel, slen in *; lia|done|done].
Qed.
