(* ===== verification/JsonOut.v ===== *)
(** * JsonOut: the growing buffer and the scalars of the JSON direct writer

    [runtime/encoding/beans_enc_json.c], [BeansJsonDirect]: growth (a private
    [malloc] block that doubles, or a caller's Bytes through the reserve
    callback), raw runs, characters, integers and escaped strings.  A writer
    answers the C code's [1] (written), [0] (out of memory), [-1] (invalid
    UTF-8) or [-2] (refused).  [None] is a write or read outside the memory
    the code was given, or a loop that does not end; [Panic] comes from the
    Bytes behind the reserve callback. *)

From S2P Require Import Prelude Mem Text Bytes JsonScan.

Open Scope c_scope.

(** ** The C library's allocator *)

(** [malloc] and [realloc]: a block of the size asked for, the old bytes first;
    [calloc]: whether the zeroed array was granted. *)
Class CHeap : Type := {
  c_malloc : Z -> option str;
  c_calloc : Z -> Z -> bool;
  c_realloc : str -> Z -> option str
}.

Class CHeapLaws `{CHeap} : Prop := {
  c_malloc_len n b : 0 <= n -> c_malloc n = Some b -> slen b = n;
  c_realloc_spec p n b : slen p <= n -> c_realloc p n = Some b -> exists tail, b = p ++ tail /\ slen b = n
}.

(** ** The buffer *)

(** In append mode [d_handle] is the caller's Bytes; its data is [d_data]. *)
Record BeansJsonDirect : Type := mkDirect {
  d_data : str;
  d_len : Z;
  d_cap : Z;
  d_oom : bool;
  d_handle : option Bytes
}.

Definition FIRST : Z := 1024.
Definition SIZE_MAX : Z := 2 ^ 64 - 1.

Definition set_oom (out : BeansJsonDirect) : BeansJsonDirect :=
  mkDirect (d_data out) (d_len out) (d_cap out) true (d_handle out).
Definition set_out (out : BeansJsonDirect) (data : str) (len : Z) : BeansJsonDirect :=
  mkDirect data len (d_cap out) (d_oom out) (d_handle out).
Definition set_room (out : BeansJsonDirect) (data : str) (cap : Z) (h : option Bytes) : BeansJsonDirect :=
  mkDirect data (d_len out) cap (d_oom out) h.

(** The bytes written so far. *)
Definition d_text (out : BeansJsonDirect) : str := sub_str (d_data out) 0 (d_len out).

(** A C function on the buffer: its answer and the buffer after it. *)
Abbreviation writer S := (S -> run (Z * S)).

Definition got {S} (wrote : Z) (s : S) : run (Z * S) := Some (Ok (wrote, s)).

(** A read or a write that may be out of bounds, before what follows it. *)
Definition must {A} (r : option A) : run A := Ok <$> r.

(** [if (wrote != 1) return wrote;] between two calls. *)
Definition then_write {S} (f g : writer S) : writer S := fun s =>
  '(wrote, s) ← f s;
  if wrote =? 1 then g s else got wrote s.

Notation "f ;;! g" := (then_write f g) (at level 100, g at level 200, right associativity) : c_scope.

Definition answer {S} (wrote : Z) : writer S := fun s => got wrote s.

(** A store of [bs] at [data + at]; outside the block it is undefined. *)
Definition poke (data : str) (at_ : Z) (bs : str) : option str :=
  if (0 <=? at_) && (at_ + slen bs <=? slen data) then Some (mem_set data at_ bs) else None.

Section out.
Context `{Alloc, CHeap} (path : scan_path).

(** [while (cap < need)]: [Some None] is the overflow exit. *)
Fixpoint direct_cap_loop (fuel : nat) (cap need : Z) : option (option Z) :=
  match fuel with
  | O => None
  | S fuel =>
      if cap <? need then
        if (SIZE_MAX >>! 1) <? cap then Some None else direct_cap_loop fuel (cap <<! 1) need
      else Some (Some cap)
  end.

(** A nonzero 64-bit capacity passes [SIZE_MAX >> 1] within 64 doublings. *)
Definition CAP_FUEL : nat := 66.

Definition direct_grow (extra : Z) : writer BeansJsonDirect := fun out =>
  let need := d_len out +! extra in
  if need <? d_len out then got 0 (set_oom out)
  else if need <=? d_cap out then got 1 out
  else
    match d_handle out with
    | Some b =>
        b ← beans_bytes_reserve_raw (mkBytes (d_data out) (b_len b) (b_cap b)) (d_len out) need;
        got 1 (set_room out (b_data b) (u64 (b_cap b)) (Some b))
    | None =>
        let cap := if negb (d_cap out =? 0) then d_cap out else FIRST in
        cap ← must (direct_cap_loop CAP_FUEL cap need);
        match cap with
        | None => got 0 (set_oom out)
        | Some cap =>
            match c_realloc (d_data out) cap with
            | None => got 0 (set_oom out)
            | Some grown => got 1 (set_room out grown cap None)
            end
        end
    end.

(** The copies of a run of at most 32 bytes: eights, then four, two, one. *)
Fixpoint copy_eights (fuel : nat) (data : str) (dst : Z) (text : str) (at_ : Z) : option (str * Z) :=
  match fuel with
  | O => Some (data, at_)
  | S fuel =>
      if at_ + 8 <=? slen text then
        data ← poke data (dst + at_) (sub_str text at_ 8);
        copy_eights fuel data dst text (at_ + 8)
      else Some (data, at_)
  end.

Definition copy_part (n : Z) (dst : Z) (text : str) (st : str * Z) : option (str * Z) :=
  let '(data, at_) := st in
  if at_ + n <=? slen text then
    data ← poke data (dst + at_) (sub_str text at_ n);
    Some (data, at_ + n)
  else Some st.

Definition copy_run (data : str) (dst : Z) (text : str) : option str :=
  if slen text <=? 32 then
    st ← copy_eights 5 data dst text 0;
    st ← copy_part 4 dst text st;
    st ← copy_part 2 dst text st;
    st ← copy_part 1 dst text st;
    Some (fst st)
  else poke data dst text.

Definition direct_raw (text : str) : writer BeansJsonDirect := fun out =>
  '(ok, out) ← direct_grow (slen text) out;
  if ok =? 0 then got 0 out
  else
    data ← must (copy_run (d_data out) (d_len out) text);
    got 1 (set_out out data (d_len out +! slen text)).

Definition direct_char (c : Z) : writer BeansJsonDirect := fun out =>
  '(ok, out) ← direct_grow 1 out;
  if ok =? 0 then got 0 out
  else
    data ← must (poke (d_data out) (d_len out) [c]);
    got 1 (set_out out data (d_len out +! 1)).

(** ** Integers *)

Definition digit_pairs : str := lit
  "00010203040506070809101112131415161718192021222324252627282930313233343536373839404142434445464748495051525354555657585960616263646566676869707172737475767778798081828384858687888990919293949596979899".

Definition digit_pair (rem : Z) : str := sub_str digit_pairs (rem * 2) 2.

(** [digits + at], the tail of [char digits[20]] filled so far. *)
Fixpoint uint_pairs (fuel : nat) (value : Z) (tail : str) : option (Z * str) :=
  match fuel with
  | O => None
  | S fuel =>
      if 100 <=? value then uint_pairs fuel (value / 100) (digit_pair (value mod 100) ++ tail)
      else Some (value, tail)
  end.

(** [None] when the 20 bytes would not do. *)
Definition json_uint_digits (value : Z) : option str :=
  '(value, tail) ← uint_pairs 10 value [];
  let digits := (if 10 <=? value then digit_pair value else [ch_0 + value]) ++ tail in
  if slen digits <=? 20 then Some digits else None.

Definition direct_uint (value : Z) : writer BeansJsonDirect := fun out =>
  digits ← must (json_uint_digits value);
  direct_raw digits out.

Definition direct_sint (value : Z) : writer BeansJsonDirect :=
  if 0 <=? value then direct_uint (u64 value)
  else direct_char ch_minus ;;! direct_uint (~! (u64 value) +! 1).

(** ** Strings *)

Definition hex_digit (d : Z) : Z := c_at (lit "0123456789ABCDEF") (Z.to_nat d).

Definition json_escape (c : Z) : str :=
  if c =? 34 then [92; 34]
  else if c =? 92 then [92; 92]
  else if c =? 8 then [92; 98]
  else if c =? 9 then [92; 116]
  else if c =? 10 then [92; 110]
  else if c =? 12 then [92; 102]
  else if c =? 13 then [92; 114]
  else [92; 117; 48; 48; hex_digit (c >>! 4); hex_digit (c &! 15)].

(** The sequence that starts at [src]: its length, or [None] for [-1].  The
    bytes tested are within [src]. *)
Definition utf8_need (src : str) : option Z :=
  let c := c_at src 0 in let c1 := c_at src 1 in let c2 := c_at src 2 in let c3 := c_at src 3 in
  let is_cont b := (b &! 0xC0) =? 0x80 in
  let need :=
    if (0xC2 <=? c) && (c <=? 0xDF) then 2
    else if (0xE0 <=? c) && (c <=? 0xEF) then 3
    else if (0xF0 <=? c) && (c <=? 0xF4) then 4
    else 0 in
  if need =? 0 then None
  else if slen src <? need then None
  else if negb (is_cont c1) then None
  else if need =? 3 then
    if negb (is_cont c2) then None
    else if (c =? 0xE0) && (c1 <? 0xA0) then None
    else if (c =? 0xED) && (0x9F <? c1) then None
    else Some need
  else if need =? 4 then
    if negb (is_cont c2) || negb (is_cont c3) then None
    else if (c =? 0xF0) && (c1 <? 0x90) then None
    else if (c =? 0xF4) && (0x8F <? c1) then None
    else Some need
  else Some need.

(** [while (at < len)], [src] being what is left at [at]. *)
Fixpoint direct_string_loop (fuel : nat) (src : str) : writer BeansJsonDirect :=
  match fuel with
  | O => fun _ => None
  | S fuel =>
      if slen src =? 0 then answer 1
      else
        let span := json_plain_span path src in
        (if span =? 0 then answer 1 else direct_raw (sub_str src 0 span)) ;;!
        (let src := drop (Z.to_nat span) src in
         if slen src =? 0 then answer 1
         else
           let c := c_at src 0 in
           if c <? 0x80 then direct_raw (json_escape c) ;;! direct_string_loop fuel (drop 1 src)
           else
             match utf8_need src with
             | None => answer (-1)
             | Some need =>
                 direct_raw (sub_str src 0 need) ;;! direct_string_loop fuel (drop (Z.to_nat need) src)
             end)
  end.

Definition direct_string (src : str) : writer BeansJsonDirect :=
  direct_char 34 ;;! direct_string_loop (S (length src)) src ;;! direct_char 34.

End out.
