(* ===== verification/JsonText.v ===== *)
(** * JsonText: what a JSON writer appends, and the text of a string

    The buffer invariant [out_ok] and the specification [writes]: a writer
    stays inside its block, comes back, and either answers its code with
    exactly its text appended, or ran out of memory with a prefix of it. *)

From S2P Require Import Prelude Digits Text TextProofs Str StrProofs Mem Bytes BytesProofs JsonScan.
From S2P Require Import JsonOut.

Open Scope c_scope.

Record out_ok (out : BeansJsonDirect) : Prop := {
  oo_data : slen (d_data out) = d_cap out;
  oo_len : 0 <= d_len out <= d_cap out;
  oo_cap : d_cap out < 2 ^ 64;
  oo_bytes : bytes_ok (d_text out);
  oo_handle : forall b, d_handle out = Some b -> b_cap b = d_cap out /\ 8 <= d_cap out < 2 ^ 63 /\ 0 <= b_len b <= d_len out
}.

(** The panics of the reserve callback. *)
Definition reserve_panic (m : str) : Prop := m = out_of_memory \/ m = lit "JSON output too large".

Lemma sub_str_0_app a b n : n <= slen a -> sub_str (a ++ b) 0 n = sub_str a 0 n.
Proof. intros Hn. unfold sub_str, slen in *. rewrite !drop_0, take_app_le; [done|lia]. Qed.

(** ** Stores *)

Lemma mem_set_app data dst a b : 0 <= dst -> dst + slen (a ++ b) <= slen data ->
  mem_set (mem_set data dst a) (dst + slen a) b = mem_set data dst (a ++ b).
Proof.
  intros Hd Hl. pose proof (slen_nonneg a). pose proof (slen_nonneg b). rewrite slen_app in Hl.
  destruct (mem_split data dst) as (x & y & -> & Hx); [lia|]. rewrite slen_app in Hl.
  destruct (mem_split y (slen a)) as (a' & z & -> & Ha); [lia|]. rewrite slen_app in Hl.
  destruct (mem_split z (slen b)) as (b' & w & -> & Hb); [lia|]. rewrite <-Hx, (mem_set_at x a' a (b' ++ w)) by done.
  replace (x ++ a ++ b' ++ w) with ((x ++ a) ++ b' ++ w) by (symmetry; apply app_assoc).
  rewrite <-slen_app, (mem_set_at (x ++ a) b' b w) by done.
  replace (x ++ a' ++ b' ++ w) with (x ++ (a' ++ b') ++ w) by (by rewrite !app_assoc).
  rewrite mem_set_at by (rewrite !slen_app; lia). by rewrite !app_assoc.
Qed.

Lemma mem_set_nil data at_ : mem_set data at_ [] = data.
Proof. unfold mem_set. cbn [app length]. by rewrite Nat.add_0_r, take_drop. Qed.

Lemma poke_ok data at_ bs : 0 <= at_ -> at_ + slen bs <= slen data -> poke data at_ bs = Some (mem_set data at_ bs).
Proof. intros H1 H2. unfold poke. rewrite !(proj2 (Z.leb_le _ _)) by lia. done. Qed.

(** A copy that has reached [at_], carried on by [n] bytes. *)
Lemma poke_next data dst text at_ n : 0 <= dst -> dst + slen text <= slen data -> 0 <= at_ -> 0 <= n ->
  at_ + n <= slen text ->
  poke (mem_set data dst (sub_str text 0 at_)) (dst + at_) (sub_str text at_ n) =
  Some (mem_set data dst (sub_str text 0 (at_ + n))).
Proof.
  intros Hd Hl Ha Hn Ht. assert (H1 : slen (sub_str text 0 at_) = at_) by (apply sub_str_len; lia).
  assert (H2 : slen (sub_str text at_ n) = n) by (apply sub_str_len; lia).
  assert (He : sub_str text 0 (at_ + n) = sub_str text 0 at_ ++ sub_str text at_ n).
  { unfold sub_str. rewrite !drop_0, take_take_drop. f_equal. lia. }
  rewrite poke_ok by (rewrite ?mem_set_len; lia). rewrite He.
  pose proof (mem_set_app data dst (sub_str text 0 at_) (sub_str text at_ n)) as Hm. rewrite H1 in Hm.
  rewrite Hm; [done|done|]. rewrite slen_app. lia.
Qed.

Lemma copy_eights_ok data dst text : 0 <= dst -> dst + slen text <= slen data -> forall fuel at_,
  0 <= at_ <= slen text -> slen text - at_ < 8 * Z.of_nat fuel ->
  exists at', copy_eights fuel (mem_set data dst (sub_str text 0 at_)) dst text at_ =
    Some (mem_set data dst (sub_str text 0 at'), at') /\ at_ <= at' <= slen text /\ slen text < at' + 8.
Proof.
  intros Hd Hl. induction fuel as [|fuel IH]; intros at_ Ha Hf; [lia|]. cbn [copy_eights].
  destruct (Z.leb_spec (at_ + 8) (slen text)).
  - rewrite poke_next by lia. cbn. destruct (IH (at_ + 8)) as (at' & -> & ? & ?); [lia..|]. exists at'. split; [done|lia].
  - exists at_. split; [done|lia].
Qed.

Lemma copy_part_ok n data dst text at_ : 0 <= dst -> dst + slen text <= slen data -> 0 < n ->
  0 <= at_ <= slen text -> slen text < at_ + 2 * n ->
  exists at', copy_part n dst text (mem_set data dst (sub_str text 0 at_), at_) =
    Some (mem_set data dst (sub_str text 0 at'), at') /\ at_ <= at' <= slen text /\ slen text < at' + n.
Proof.
  intros Hd Hl Hn Ha Hf. unfold copy_part. destruct (Z.leb_spec (at_ + n) (slen text)).
  - rewrite poke_next by lia. cbn. exists (at_ + n). split; [done|lia].
  - exists at_. split; [done|lia].
Qed.

(** The copies by eights and by halves are one [memcpy]. *)
Lemma copy_run_ok data dst text : 0 <= dst -> dst + slen text <= slen data ->
  copy_run data dst text = Some (mem_set data dst text).
Proof.
  intros Hd Hl. pose proof (slen_nonneg text). unfold copy_run.
  destruct (Z.leb_spec (slen text) 32); [|by apply poke_ok].
  destruct (copy_eights_ok data dst text Hd Hl 5 0) as (a1 & E1 & ? & ?); [lia..|].
  rewrite (sub_str_zero text 0 0), mem_set_nil in E1 by done. rewrite E1. cbn -[copy_part].
  destruct (copy_part_ok 4 data dst text a1) as (a2 & E2 & ? & ?); [lia..|]. rewrite E2. cbn -[copy_part].
  destruct (copy_part_ok 2 data dst text a2) as (a3 & E3 & ? & ?); [lia..|]. rewrite E3. cbn -[copy_part].
  destruct (copy_part_ok 1 data dst text a3) as (a4 & E4 & ? & ?); [lia..|]. rewrite E4. cbn.
  replace a4 with (slen text) by lia. by rewrite sub_str_all.
Qed.

(** ** Growing *)

Lemma cap_loop_ok need : need <= SIZE_MAX -> forall fuel cap, 1 <= cap <= SIZE_MAX -> 2 ^ 64 <= cap * 2 ^ Z.of_nat fuel ->
  exists r, direct_cap_loop (S fuel) cap need = Some r /\
  match r with
  | Some cap' => need <= cap' /\ cap <= cap' <= SIZE_MAX /\ (cap' = cap \/ cap' < 2 * need)
  | None => 2 ^ 63 <= need
  end.
Proof.
  unfold SIZE_MAX. intros Hn. induction fuel as [|fuel IH]; intros cap Hc Hf; [change (2 ^ Z.of_nat 0) with 1 in Hf; lia|].
  change (direct_cap_loop (S (S fuel)) cap need) with
    (if cap <? need then if (SIZE_MAX >>! 1) <? cap then Some None else direct_cap_loop (S fuel) (cap <<! 1) need
     else Some (Some cap)).
  change (SIZE_MAX >>! 1) with (2 ^ 63 - 1).
  destruct (Z.ltb_spec cap need); [|exists (Some cap); split; [done|lia]].
  destruct (Z.ltb_spec (2 ^ 63 - 1) cap); [exists None; split; [done|lia]|].
  rewrite shl_mul, u64_small by (unfold is_u64; lia). change (2 ^ 1) with 2.
  rewrite Nat2Z.inj_succ, Z.pow_succ_r in Hf by lia.
  destruct (IH (cap * 2)) as (r & -> & Hr); [lia..|]. exists r. split; [done|]. destruct r; lia.
Qed.

Section writes.
Context `{AllocLaws, CHeapLaws} (path : scan_path).

(** Every request of a reasonable size is granted. *)
Definition ample : Prop := (forall p n, n < 2 ^ 62 -> c_realloc p n <> None) /\ (forall n, n < 2 ^ 62 -> rt_alloc n <> None).

(** No promise that [n] more bytes fit. *)
Definition lacking (out : BeansJsonDirect) (n : Z) : Prop := ~ (ample /\ d_len out + n <= 2 ^ 58).

Definition same_mode (out out' : BeansJsonDirect) : Prop := d_handle out' = None <-> d_handle out = None.

Lemma text_len out : out_ok out -> slen (d_text out) = d_len out.
Proof. intros O. destruct O. unfold d_text. apply sub_str_len; lia. Qed.

Lemma bytes_grow_some b need : ample -> bytes_rep b -> need <= 2 ^ 58 -> exists b', bytes_grow b need = Some (Ok b').
Proof.
  intros [_ Ha] R Hn. unfold bytes_grow. destruct (Z.leb_spec need (b_cap b)); [by eexists|].
  pose proof (br_cap b R). destruct (grow_cap_ends need ltac:(lia) 65 (b_cap b)) as (cap & -> & ? & ? & ?);
    [lia|change (2 ^ Z.of_nat 65) with (2 ^ 65); lia|].
  unfold rt_big_realloc, rt_big_alloc. specialize (Ha cap ltac:(lia)). by destruct (rt_alloc cap); [eexists|].
Qed.

(** The reserve callback on a Bytes whose data is [data]: the data is kept and
    there is room, or it is too large or out of memory. *)
Lemma out_reserve_spec b data len need : slen data = b_cap b -> 8 <= b_cap b < 2 ^ 63 -> 0 <= b_len b <= b_cap b ->
  bytes_ok (sub_str data 0 (b_len b)) -> 0 <= len <= b_cap b -> 0 <= need < 2 ^ 64 ->
  match beans_bytes_reserve_raw (mkBytes data (b_len b) (b_cap b)) len need with
  | Some (Ok b') => b_len b' = len /\ slen (b_data b') = b_cap b' /\ 8 <= b_cap b' < 2 ^ 63 /\ need <= b_cap b' /\
      b_cap b <= b_cap b' /\ exists tail, b_data b' = data ++ tail
  | Some (Panic m _ _) => reserve_panic m /\ (2 ^ 58 < need \/ (~ ample /\ b_cap b < need))
  | None => False
  end.
Proof.
  intros Hd Hcap Hbl Hb Hl Hn. unfold beans_bytes_reserve_raw. destruct (Z.ltb_spec (2 ^ 58) need).
  { split; [by right|by left]. }
  rewrite !i64_small by (unfold is_i64; lia).
  assert (R : bytes_rep (mkBytes data (b_len b) (b_cap b))) by (by split; cbn [b_data b_len b_cap]; [lia|lia|lia|]).
  pose proof (grow_ok _ need R ltac:(lia)) as Hg. pose proof (fun Ha => bytes_grow_some _ need Ha R ltac:(lia)) as Hs.
  assert (Hfit : need <= b_cap b -> bytes_grow (mkBytes data (b_len b) (b_cap b)) need = Some (Ok (mkBytes data (b_len b) (b_cap b)))).
  { intros Hle. unfold bytes_grow. cbn [b_cap]. by rewrite (proj2 (Z.leb_le _ _)). }
  destruct (bytes_grow _ _) as [[b'|e l c]|]; cbn [mbind run_bind ends_with] in *; [| |done].
  - destruct Hg as (R' & _ & _ & Hge & Hmono & Hdbl & tail & Htail). cbn [b_data b_cap] in *.
    pose proof (br_data b' R'). pose proof (br_cap b' R'). cbn [b_data b_cap b_len set_bytes].
    split_and!; [done|done|done|lia|done|done|by exists tail].
  - split; [by left|right]. split.
    + intros Ha. by destruct (Hs Ha).
    + destruct (Z.lt_ge_cases (b_cap b) need); [done|]. by specialize (Hfit ltac:(lia)).
Qed.

(** The growth of the caller's Bytes: its stored bytes are what was written. *)
Lemma grow_handle extra out b : 0 <= extra -> out_ok out -> d_handle out = Some b ->
  d_cap out < d_len out + extra < 2 ^ 64 ->
  match b' ← beans_bytes_reserve_raw (mkBytes (d_data out) (b_len b) (b_cap b)) (d_len out) (d_len out + extra);
        got 1 (set_room out (b_data b') (u64 (b_cap b')) (Some b')) with
  | Some (Ok (w, out')) => out_ok out' /\ d_len out' = d_len out /\ d_text out' = d_text out /\ same_mode out out' /\
      w = 1 /\ d_len out + extra <= d_cap out' /\ d_oom out' = d_oom out
  | Some (Panic m _ _) => d_handle out <> None /\ reserve_panic m /\ lacking out extra
  | None => False
  end.
Proof.
  intros He O Hh Hn. destruct (oo_handle out O b Hh) as (Hbc & Hcap & Hbl). pose proof (oo_len out O).
  pose proof (oo_data out O) as Hd. assert (d_handle out <> None) by congruence.
  assert (Hb : bytes_ok (sub_str (d_data out) 0 (b_len b))).
  { pose proof (oo_bytes out O) as Hb. unfold d_text in Hb.
    replace (sub_str (d_data out) 0 (b_len b)) with (sub_str (sub_str (d_data out) 0 (d_len out)) 0 (b_len b)); [by apply sub_bytes_ok|].
    rewrite sub_str_sub by lia. done. }
  pose proof (out_reserve_spec b (d_data out) (d_len out) (d_len out + extra) ltac:(lia) ltac:(lia) ltac:(lia) Hb
    ltac:(lia) ltac:(lia)) as Hr.
  destruct (beans_bytes_reserve_raw _ _ _) as [[b'|m l c]|]; cbn [mbind run_bind]; [| |done].
  - destruct Hr as (Hl' & Hd' & Hc' & Hge & _ & tail & Htail). unfold got. rewrite u64_small by (unfold is_u64; lia).
    assert (Ht : d_text (set_room out (b_data b') (b_cap b') (Some b')) = d_text out).
    { unfold d_text. cbn [d_data d_len set_room]. rewrite Htail. apply sub_str_0_app. lia. }
    split_and!; [|done|exact Ht|by split; intros|done|done|done].
    split; cbn [d_data d_len d_cap d_handle set_room]; [done|lia|lia|rewrite Ht; apply O|].
    intros b2 [= <-]. lia.
  - destruct Hr as [Hp Hor]. split_and!; [done|done|]. intros [Ha Hs]. destruct Hor as [?|[? _]]; [lia|done].
Qed.

(** After a growth: the same text, with room unless the answer is 0. *)
Lemma out_grow_spec extra out : 0 <= extra < 2 ^ 64 -> out_ok out ->
  match direct_grow extra out with
  | Some (Ok (w, out')) =>
      out_ok out' /\ d_len out' = d_len out /\ d_text out' = d_text out /\ same_mode out out' /\
      ((w = 1 /\ d_len out + extra <= d_cap out' /\ d_oom out' = d_oom out) \/
       (w = 0 /\ d_oom out' = true /\ lacking out extra))
  | Some (Panic m _ _) => d_handle out <> None /\ reserve_panic m /\ lacking out extra
  | None => False
  end.
Proof.
  intros He O. pose proof (oo_len out O). pose proof (oo_cap out O). unfold direct_grow. cbv zeta.
  assert (Hs : out_ok (set_oom out)) by (destruct O; by split).
  assert (Hm : same_mode out (set_oom out)) by done.
  assert (Hno : lacking out extra -> match got 0 (set_oom out) with
      | Some (Ok (w, out')) => out_ok out' /\ d_len out' = d_len out /\ d_text out' = d_text out /\ same_mode out out' /\
          ((w = 1 /\ d_len out + extra <= d_cap out' /\ d_oom out' = d_oom out) \/
           (w = 0 /\ d_oom out' = true /\ lacking out extra))
      | Some (Panic m _ _) => d_handle out <> None /\ reserve_panic m /\ lacking out extra
      | None => False end) by (intros Hl; split_and!; [done..|]; by right).
  destruct (Z.lt_ge_cases (d_len out + extra) (2 ^ 64)) as [Hlt|Hge].
  2:{ replace (d_len out +! extra) with (d_len out + extra - 2 ^ 64) by (unfold u64; dlia).
      rewrite (proj2 (Z.ltb_lt _ _)) by lia. apply Hno. unfold lacking. lia. }
  rewrite u64_small by (unfold is_u64; lia). rewrite (proj2 (Z.ltb_ge _ _)) by lia.
  destruct (Z.leb_spec (d_len out + extra) (d_cap out)); [split_and!; [done..|]; left; done|].
  destruct (d_handle out) as [b|] eqn:Hh.
  - pose proof (grow_handle extra out b ltac:(lia) O Hh ltac:(lia)) as Hg.
    destruct (_ ≫= _) as [[[w out']|m l c]|]; [|by rewrite Hh in Hg|done].
    destruct Hg as (? & ? & ? & ? & ? & ? & ?). split_and!; [done..|]. by left.
  - set (cap := if negb (d_cap out =? 0) then d_cap out else FIRST).
    assert (Hc : 1 <= cap <= SIZE_MAX /\ (cap = d_cap out \/ cap = FIRST)).
    { unfold cap, FIRST, SIZE_MAX. destruct (Z.eqb_spec (d_cap out) 0); cbn [negb]; lia. }
    destruct (cap_loop_ok (d_len out + extra) ltac:(unfold SIZE_MAX; lia) 65 cap) as (r & Hr & Hcap);
      [lia|change (2 ^ Z.of_nat 65) with (2 ^ 65); lia|].
    change 66%nat with CAP_FUEL in Hr. rewrite Hr. cbn [must fmap option_fmap option_map mbind run_bind].
    destruct r as [cap'|]; [|apply Hno; unfold lacking; lia]. unfold SIZE_MAX in Hcap.
    destruct (c_realloc (d_data out) cap') as [grown|] eqn:Hg.
    + apply c_realloc_spec in Hg as (tail & -> & Hl); [|rewrite (oo_data out O); lia].
      assert (Ht : d_text (set_room out (d_data out ++ tail) cap' None) = d_text out).
      { unfold d_text. cbn [d_data d_len set_room]. apply sub_str_0_app. rewrite (oo_data out O). lia. }
      split_and!; [|done|done|split; intros; done|left; split_and!; [done|cbn; lia|done]].
      split; cbn [d_data d_len d_cap d_handle set_room]; [done|lia|lia|rewrite Ht; apply O|done].
    + apply Hno. unfold lacking. intros [[Ha _] Hsz]. apply (Ha (d_data out) cap'); [|done].
      unfold FIRST in *. lia.
Qed.
(** ** The specification of a writer *)

(** A state that holds the buffer. *)
Class OutOf (S : Type) : Type := out_of : S -> BeansJsonDirect.
#[export] Instance direct_out : OutOf BeansJsonDirect := fun out => out.

Definition writes {T} `{OutOf T} (p : writer T) (wrote : Z) (text : str) : Prop := forall s, out_ok (out_of s) ->
  match p s with
  | Some (Ok (w, s')) => out_ok (out_of s') /\ same_mode (out_of s) (out_of s') /\
      ((w = wrote /\ d_text (out_of s') = d_text (out_of s) ++ text /\ d_oom (out_of s') = d_oom (out_of s)) \/
       (w = 0 /\ d_oom (out_of s') = true /\ lacking (out_of s) (slen text) /\
        exists sent, sent `prefix_of` text /\ d_text (out_of s') = d_text (out_of s) ++ sent))
  | Some (Panic m _ _) => d_handle (out_of s) <> None /\ reserve_panic m /\ lacking (out_of s) (slen text)
  | None => False
  end.

Lemma lacking_le out n m : n <= m -> lacking out n -> lacking out m.
Proof. intros Hle Hl [Ha Hs]. apply Hl. split; [done|lia]. Qed.

Lemma writes_answer {T} `{OutOf T} w : writes (answer (S := T) w) w [].
Proof. intros s O. cbn. split_and!; [done|done|]. left. by rewrite app_nil_r. Qed.

Lemma writes_seq {T} `{OutOf T} (f g : writer T) a b wrote : writes f 1 a -> writes g wrote b -> writes (f ;;! g) wrote (a ++ b).
Proof.
  intros Hf Hg s O. specialize (Hf s O). unfold then_write. pose proof (slen_nonneg b). rewrite slen_app.
  destruct (f s) as [[[w s1]|m l c]|]; cbn [mbind run_bind]; [|destruct Hf as (? & ? & ?); split_and!; [done..|]|done].
  2:{ apply (lacking_le _ (slen a)); [lia|done]. }
  destruct Hf as (O1 & Hm1 & [(-> & Ht1 & Ho1)|(-> & Ho1 & Hl & sent & Hp & Ht1)]).
  2:{ split_and!; [done..|]. right. split_and!; [done|done|apply (lacking_le _ (slen a)); [lia|done]|].
      exists sent. split; [by apply prefix_app_r|done]. }
  specialize (Hg s1 O1). change (1 =? 1) with true. cbv iota.
  assert (Hlen : d_len (out_of s1) = d_len (out_of s) + slen a) by (rewrite <-!text_len, Ht1, slen_app by done; done).
  assert (Hl2 : lacking (out_of s1) (slen b) -> lacking (out_of s) (slen a + slen b)).
  { intros Hl [Ha Hs]. apply Hl. split; [done|lia]. }
  unfold same_mode in *.
  destruct (g s1) as [[[w s2]|m l c]|]; [|destruct Hg as (? & ? & ?); split_and!; [tauto|done|by apply Hl2]|done].
  destruct Hg as (O2 & Hm2 & Hg). split_and!; [done|tauto|].
  destruct Hg as [(-> & Ht2 & Ho2)|(-> & Ho2 & Hl & sent & Hp & Ht2)].
  - left. split_and!; [done|by rewrite Ht2, Ht1, app_assoc|congruence].
  - right. split_and!; [done|done|by apply Hl2|]. exists (a ++ sent). split; [by apply prefix_app|].
    by rewrite Ht2, Ht1, app_assoc.
Qed.

(** A refusal ends the sequence. *)
Lemma writes_stop {T} `{OutOf T} (f g : writer T) a wrote : wrote <> 1 -> writes f wrote a -> writes (f ;;! g) wrote a.
Proof.
  intros Hw Hf s O. specialize (Hf s O). unfold then_write.
  destruct (f s) as [[[w s1]|m l c]|]; cbn [mbind run_bind]; [|done|done].
  destruct Hf as (O1 & Hm1 & [(-> & ?)|(-> & ?)]).
  - rewrite (proj2 (Z.eqb_neq _ _)) by done. split_and!; [done|done|by left].
  - split_and!; [done|done|by right].
Qed.

Lemma bytes_ok_app a b : bytes_ok (a ++ b) <-> bytes_ok a /\ bytes_ok b.
Proof. apply Forall_app. Qed.

(** Room for the bytes, then a store of them. *)
Lemma store_ok out text : out_ok out -> bytes_ok text -> d_len out + slen text <= d_cap out ->
  out_ok (set_out out (mem_set (d_data out) (d_len out) text) (d_len out + slen text)) /\
  d_text (set_out out (mem_set (d_data out) (d_len out) text) (d_len out + slen text)) = d_text out ++ text.
Proof.
  intros O Hb Hr. pose proof (oo_len out O). pose proof (oo_data out O) as Hd. pose proof (slen_nonneg text).
  assert (Ht : d_text (set_out out (mem_set (d_data out) (d_len out) text) (d_len out + slen text)) = d_text out ++ text).
  { unfold d_text. cbn [d_data d_len set_out]. destruct (mem_split (d_data out) (d_len out)) as (x & y & Hxy & Hx); [lia|].
    rewrite Hxy. destruct (mem_split y (slen text)) as (u & v & -> & Hu); [rewrite Hxy, slen_app in Hd; lia|].
    rewrite <-Hx, mem_set_at, <-slen_app by done. rewrite app_assoc, !sub_str_at0. done. }
  split; [|exact Ht]. split; [| |apply O|rewrite Ht; apply bytes_ok_app; split; [apply O|done]|].
  - cbn [d_data d_cap set_out]. by rewrite mem_set_len by lia.
  - cbn [d_len d_cap set_out]. lia.
  - intros b Hh. pose proof (oo_handle out O b Hh). cbn [d_cap d_len set_out]. lia.
Qed.

Lemma writes_store (store : str -> Z -> option str) text :
  (forall data at_, 0 <= at_ -> at_ + slen text <= slen data -> store data at_ = Some (mem_set data at_ text)) ->
  bytes_ok text -> slen text < 2 ^ 63 ->
  writes (fun out : BeansJsonDirect =>
    '(ok, out) ← direct_grow (slen text) out;
    if ok =? 0 then got 0 out
    else data ← must (store (d_data out) (d_len out)); got 1 (set_out out data (d_len out +! slen text))) 1 text.
Proof.
  intros Hst Hb Hl out O. unfold out_of, direct_out in *. pose proof (slen_nonneg text). pose proof (out_grow_spec (slen text) out ltac:(lia) O) as Hg.
  destruct (direct_grow _ out) as [[[w out1]|m l c]|]; cbn [mbind run_bind]; [|done|done].
  destruct Hg as (O1 & Hlen & Ht & Hm & [(-> & Hr & Ho)|(-> & Ho & Hk)]).
  - cbn [Z.eqb]. rewrite Hst by (rewrite ?(oo_data out1 O1); pose proof (oo_len out1 O1); lia).
    cbn [must fmap option_fmap option_map mbind run_bind]. rewrite <-Hlen in Hr.
    pose proof (oo_cap out1 O1). pose proof (oo_len out1 O1). rewrite u64_small by (unfold is_u64; lia).
    destruct (store_ok out1 text O1 Hb Hr) as [O2 Ht2]. split_and!; [done|done|]. left. split_and!; [done|by rewrite Ht2, Ht|done].
  - cbn [Z.eqb]. split_and!; [done..|]. right. split_and!; [done..|]. exists []. split; [apply prefix_nil|].
    by rewrite app_nil_r.
Qed.

Lemma writes_raw text : bytes_ok text -> slen text < 2 ^ 63 -> writes (direct_raw text) 1 text.
Proof. intros Hb Hl. apply (writes_store (fun data at_ => copy_run data at_ text)); [by intros; apply copy_run_ok|done|done]. Qed.

Lemma writes_char c : is_u8 c -> writes (direct_char c) 1 [c].
Proof.
  intros Hc. apply (writes_store (fun data at_ => poke data at_ [c]) [c]); [by intros; apply poke_ok| |done].
  by constructor.
Qed.

(** ** Integers *)

Lemma digit_pairs_all : forallb (fun r => bool_decide (digit_pair r = [ch_0 + r / 10; ch_0 + r mod 10]))
  (Z.of_nat <$> seq 0 100) = true.
Proof. vm_compute. reflexivity. Qed.

Lemma digit_pair_eq r : 0 <= r < 100 -> digit_pair r = [ch_0 + r / 10; ch_0 + r mod 10].
Proof.
  intros Hr. pose proof (proj1 (forallb_forall _ _) digit_pairs_all r) as H3.
  apply (bool_decide_eq_true_1 _), H3. apply list_elem_of_In, list_elem_of_fmap. exists (Z.to_nat r). split; [lia|].
  apply elem_of_seq. lia.
Qed.

Lemma is_text_pair v ds : 100 <= v -> is_text (v / 100) ds -> is_text v (ds ++ digit_pair (v mod 100)).
Proof.
  intros Hv Ht. rewrite digit_pair_eq by dlia.
  replace (ds ++ [ch_0 + v mod 100 / 10; ch_0 + v mod 100 mod 10]) with ((ds ++ [ch_0 + (v / 10) mod 10]) ++ [ch_0 + v mod 10]).
  2:{ rewrite <-app_assoc. cbn [app]. replace (v mod 100 / 10) with ((v / 10) mod 10) by dlia.
      by replace (v mod 100 mod 10) with (v mod 10) by dlia. }
  apply is_text_snoc; [lia|]. apply is_text_snoc; [dlia|]. by replace (v / 10 / 10) with (v / 100) by dlia.
Qed.

Lemma uint_pairs_S fuel value tail : uint_pairs (S fuel) value tail =
  if 100 <=? value then uint_pairs fuel (value / 100) (digit_pair (value mod 100) ++ tail) else Some (value, tail).
Proof. done. Qed.

Lemma uint_pairs_ok fuel : forall value tail, 0 <= value < 100 ^ Z.of_nat (S fuel) ->
  exists v ds, uint_pairs (S fuel) value tail = Some (v, ds ++ tail) /\ 0 <= v < 100 /\
    (forall a, is_text v a -> is_text value (a ++ ds)).
Proof.
  induction fuel as [|fuel IH]; intros value tail Hv; rewrite uint_pairs_S.
  - change (100 ^ Z.of_nat 1) with 100 in Hv. rewrite (proj2 (Z.leb_gt _ _)) by lia. exists value, []. split_and!; [done|lia|lia|].
    intros a. by rewrite app_nil_r.
  - destruct (Z.leb_spec 100 value) as [Hge|Hlt].
    + rewrite Nat2Z.inj_succ, Z.pow_succ_r in Hv by lia.
      destruct (IH (value / 100) (digit_pair (value mod 100) ++ tail)) as (v & ds & -> & Hr & Ha); [dlia|].
      exists v, (ds ++ digit_pair (value mod 100)). split_and!; [by rewrite app_assoc|lia|lia|].
      intros a Hta. rewrite app_assoc. apply is_text_pair; [done|by apply Ha].
    + exists value, []. split_and!; [done|lia|lia|]. intros a. by rewrite app_nil_r.
Qed.

Lemma json_uint_digits_ok v : is_u64 v -> exists ds, json_uint_digits v = Some ds /\ is_text v ds.
Proof.
  intros Hv. unfold json_uint_digits. destruct (uint_pairs_ok 9 v []) as (q & ds & -> & Hq & Ha).
  { unfold is_u64 in Hv. change (100 ^ Z.of_nat 10) with (10 ^ 20). lia. }
  cbn [mbind option_bind]. rewrite app_nil_r.
  assert (Ht : is_text v ((if 10 <=? q then digit_pair q else [ch_0 + q]) ++ ds)).
  { apply Ha. destruct (Z.leb_spec 10 q); [|apply is_text_digit; lia]. rewrite digit_pair_eq by lia.
    apply (is_text_snoc q [ch_0 + q / 10]); [lia|]. apply is_text_digit. dlia. }
  rewrite (proj2 (Z.leb_le _ _)); [by eexists|]. destruct Ht as (_ & _ & ->). by apply ndigits_u64.
Qed.

Lemma digits_bytes ds : digits_ok ds -> bytes_ok ds.
Proof. intros Hd. eapply Forall_impl; [exact Hd|]. cbv beta. unfold is_u8, ch_0, ch_9. lia. Qed.

Lemma writes_uint v ds : is_u64 v -> is_text v ds -> writes (direct_uint v) 1 ds.
Proof.
  intros Hv Ht. destruct (json_uint_digits_ok v Hv) as (ds' & He & Ht').
  rewrite (is_text_unique v ds ds' Ht Ht'). unfold direct_uint. rewrite He.
  apply writes_raw; [apply digits_bytes, Ht'|]. destruct Ht' as (_ & _ & ->). pose proof (ndigits_u64 v Hv). lia.
Qed.

Lemma writes_sint v s : is_i64 v -> int_text v s -> writes (direct_sint v) 1 s.
Proof.
  intros Hv (ds & Ht & ->). unfold direct_sint. unfold is_i64 in Hv. destruct (Z.leb_spec 0 v) as [Hp|Hn].
  - rewrite (proj2 (Z.ltb_ge _ _)), u64_small by (unfold is_u64; lia). rewrite Z.abs_eq in Ht by lia.
    apply writes_uint; [unfold is_u64; lia|done].
  - rewrite (proj2 (Z.ltb_lt _ _)) by done. apply (writes_seq _ _ [ch_minus] ds).
    + apply writes_char. unfold is_u8, ch_minus. lia.
    + replace (~! (u64 v) +! 1) with (Z.abs v) by (unfold u64, Z.lnot; dlia). apply writes_uint; [unfold is_u64; lia|done].
Qed.

End writes.

(** * UTF-8, JSON strings and the string writer

    What a string is as JSON text: code points, their UTF-8 bytes, the quoted
    and escaped form, and a reader of that form.  The writer
    [direct_string] appends the quoted form of a valid string and refuses any
    other. *)

(** ** Code points *)

Definition scalar (cp : Z) : Prop := 0 <= cp < 0xD800 \/ 0xE000 <= cp <= 0x10FFFF.

#[export] Instance scalar_dec cp : Decision (scalar cp).
Proof. unfold scalar. apply _. Defined.

Definition utf8 (cp : Z) : str :=
  if cp <? 0x80 then [cp]
  else if cp <? 0x800 then [0xC0 + cp / 64; 0x80 + cp mod 64]
  else if cp <? 0x10000 then [0xE0 + cp / 4096; 0x80 + cp / 64 mod 64; 0x80 + cp mod 64]
  else [0xF0 + cp / 262144; 0x80 + cp / 4096 mod 64; 0x80 + cp / 64 mod 64; 0x80 + cp mod 64].

Definition utf8s (cps : list Z) : str := cps ≫= utf8.

Definition valid_utf8 (s : str) : Prop := exists cps, Forall scalar cps /\ s = utf8s cps.

(** ** JSON strings *)

(** A code point inside the quotes. *)
Definition jchar (cp : Z) : str := if (cp <? 0x80) && negb (plain_byte cp) then json_escape cp else utf8 cp.

Definition jquote (cps : list Z) : str := 34 :: (cps ≫= jchar) ++ [34].

Definition hex_value (c : Z) : option Z :=
  if is_digit c then Some (c - 48)
  else if (65 <=? c) && (c <=? 70) then Some (c - 55)
  else if (97 <=? c) && (c <=? 102) then Some (c - 87)
  else None.

(** A reader of RFC 8259 strings, after the opening quote: the bytes and what
    follows the closing one.  An escaped surrogate is not read. *)
Fixpoint jread (s : str) : option (str * str) :=
  match s with
  | [] => None
  | c :: s =>
      if c =? 34 then Some ([], s)
      else if c =? 92 then
        match s with
        | e :: s =>
            let plain b := '(out, rest) ← jread s; Some (b :: out, rest) in
            if e =? 34 then plain 34
            else if e =? 92 then plain 92
            else if e =? 47 then plain 47
            else if e =? 98 then plain 8
            else if e =? 102 then plain 12
            else if e =? 110 then plain 10
            else if e =? 114 then plain 13
            else if e =? 116 then plain 9
            else if e =? 117 then
              match s with
              | h3 :: h2 :: h1 :: h0 :: s =>
                  d3 ← hex_value h3; d2 ← hex_value h2; d1 ← hex_value h1; d0 ← hex_value h0;
                  let cp := ((d3 * 16 + d2) * 16 + d1) * 16 + d0 in
                  if bool_decide (scalar cp) then '(out, rest) ← jread s; Some (utf8 cp ++ out, rest) else None
              | _ => None
              end
            else None
        | [] => None
        end
      else if c <? 0x20 then None
      else '(out, rest) ← jread s; Some (c :: out, rest)
  end.

(** ** UTF-8 is a prefix code *)

Lemma utf8s_app a b : utf8s (a ++ b) = utf8s a ++ utf8s b.
Proof. apply bind_app. Qed.

Lemma utf8_prefix a b x y : scalar a -> scalar b -> utf8 a ++ x = utf8 b ++ y -> a = b /\ x = y.
Proof.
  unfold scalar, utf8. intros Ha Hb. split_tests; bools; cbn [app]; intros [=]; split; try done; dlia.
Qed.

Lemma utf8_bytes cp : scalar cp -> bytes_ok (utf8 cp).
Proof. unfold scalar, utf8, is_u8. intros Hs. split_tests; bools; repeat constructor; dlia. Qed.

Lemma utf8_ascii c : c < 0x80 -> utf8 c = [c].
Proof. intros Hc. unfold utf8. by rewrite (proj2 (Z.ltb_lt _ _)). Qed.

Lemma utf8_ne cp : utf8 cp <> [].
Proof. unfold utf8. split_tests; done. Qed.

(** A string that starts with a code point is valid with its rest. *)
Lemma valid_cons cp s : scalar cp -> valid_utf8 (utf8 cp ++ s) <-> valid_utf8 s.
Proof.
  intros Hc. split.
  - intros (cps & Hs & He). destruct Hs as [|cp' cps Hc' Hs].
    + apply app_eq_nil in He as [He _]. by apply utf8_ne in He.
    + change (utf8s (cp' :: cps)) with (utf8 cp' ++ utf8s cps) in He. apply utf8_prefix in He as [_ ->]; [|done..].
      by exists cps.
  - intros (cps & Hs & ->). exists (cp :: cps). split; [by constructor|done].
Qed.

Lemma valid_nil : valid_utf8 [].
Proof. by exists []. Qed.

(** ** The sequence test of the writer *)

Lemma cont_all : forallb (fun b => Bool.eqb (Z.land b 0xC0 =? 0x80) ((0x80 <=? b) && (b <=? 0xBF)))
  (Z.of_nat <$> seq 0 256) = true.
Proof. vm_compute. reflexivity. Qed.

Lemma cont_eq b : is_u8 b -> (Z.land b 0xC0 =? 0x80) = (0x80 <=? b) && (b <=? 0xBF).
Proof. intros Hb. apply eqb_prop, (proj1 (forallb_forall _ _) cont_all), byte_in, Hb. Qed.

Lemma c_at_u8 s i : bytes_ok s -> is_u8 (c_at s i).
Proof.
  intros Hs. unfold c_at. destruct (s !! i) as [c|] eqn:Hc; [|done]. by apply (Forall_lookup_1 _ _ _ _ Hs Hc).
Qed.

(** The first [n] bytes of a long enough string. *)
Lemma src_split s n : (n <= length s)%nat -> s = (c_at s <$> seq 0 n) ++ drop n s.
Proof.
  revert s. induction n as [|n IH]; intros s Hn; [by rewrite drop_0|]. destruct s as [|c s]; [cbn in Hn; lia|].
  cbn [seq fmap list_fmap app drop]. f_equal. rewrite (IH s) at 1 by (cbn in Hn; lia). f_equal.
  rewrite <-fmap_S_seq, <-list_fmap_compose. done.
Qed.

(** A code point past ASCII is taken whole. *)
Lemma utf8_need_scalar cp rest : scalar cp -> 0x80 <= cp -> bytes_ok rest ->
  utf8_need (utf8 cp ++ rest) = Some (slen (utf8 cp)).
Proof.
  intros Hs Hc Hr. assert (Hb : bytes_ok (utf8 cp ++ rest)) by (apply bytes_ok_app; auto using utf8_bytes).
  unfold utf8_need. cbv zeta. rewrite !cont_eq by (by apply c_at_u8). rewrite slen_app. pose proof (slen_nonneg rest).
  clear Hb Hr. generalize dependent (slen rest). intros k Hk. unfold utf8, scalar in *.
  destruct (Z.ltb_spec cp 0x80); [lia|].
  destruct (Z.ltb_spec cp 0x800); [|destruct (Z.ltb_spec cp 0x10000)]; cbn [app c_at lookup list_lookup default];
    unfold slen; cbn [length]; unfold c_at; cbn [lookup list_lookup default]; cbn;
    split_tests; bools; try done; dlia.
Qed.

Lemma utf8_need_some src n : bytes_ok src -> utf8_need src = Some n ->
  exists cp, scalar cp /\ 0x80 <= cp /\ sub_str src 0 n = utf8 cp /\ 2 <= n <= slen src.
Proof.
  intros Hb. unfold utf8_need. cbv zeta. rewrite !cont_eq by (by apply c_at_u8).
  assert (Hsub : forall k, Z.of_nat k <= slen src -> sub_str src 0 (Z.of_nat k) = c_at src <$> seq 0 k).
  { intros k Hk. unfold sub_str, slen in *. rewrite drop_0, Nat2Z.id. rewrite (src_split src k) at 1 by lia.
    rewrite take_app_le by (rewrite length_fmap, length_seq; lia). by rewrite take_ge by (rewrite length_fmap, length_seq; lia). }
  pose proof (Hsub 2%nat) as S2. pose proof (Hsub 3%nat) as S3. pose proof (Hsub 4%nat) as S4. clear Hsub.
  cbn [seq fmap list_fmap] in S2, S3, S4. change (Z.of_nat 2) with 2 in S2. change (Z.of_nat 3) with 3 in S3.
  change (Z.of_nat 4) with 4 in S4. pose proof (c_at_u8 src 0 Hb). pose proof (c_at_u8 src 1 Hb).
  pose proof (c_at_u8 src 2 Hb). pose proof (c_at_u8 src 3 Hb). unfold is_u8 in *.
  generalize dependent (c_at src 0). intros c. generalize dependent (c_at src 1). intros c1.
  generalize dependent (c_at src 2). intros c2. generalize dependent (c_at src 3). intros c3. intros.
  assert (Hfin : forall cp n' l, scalar cp -> 0x80 <= cp -> (n' <= slen src -> sub_str src 0 n' = l) -> l = utf8 cp ->
    2 <= n' <= slen src -> exists cp, scalar cp /\ 0x80 <= cp /\ sub_str src 0 n' = utf8 cp /\ 2 <= n' <= slen src).
  { intros cp n' l ? ? Hl -> ?. exists cp. split_and!; [done|done|apply Hl; lia|lia|lia]. }
  repeat (case_match; bools; try done); simplify_eq; try lia; rewrite ?Z.eqb_neq, ?Z.ltb_ge in *.
  - apply (Hfin ((c - 0xE0) * 4096 + (c1 - 0x80) * 64 + (c2 - 0x80)) 3 _ ltac:(unfold scalar; lia) ltac:(lia) S3); [|lia].
    unfold utf8. rewrite !(proj2 (Z.ltb_ge _ _)), (proj2 (Z.ltb_lt _ _)) by lia. repeat f_equal; dlia.
  - apply (Hfin ((c - 0xF0) * 262144 + (c1 - 0x80) * 4096 + (c2 - 0x80) * 64 + (c3 - 0x80)) 4 _
      ltac:(unfold scalar; lia) ltac:(lia) S4); [|lia].
    unfold utf8. rewrite !(proj2 (Z.ltb_ge _ _)) by lia. repeat f_equal; dlia.
  - apply (Hfin ((c - 0xC0) * 64 + (c1 - 0x80)) 2 _ ltac:(unfold scalar; lia) ltac:(lia) S2); [|lia].
    unfold utf8. rewrite (proj2 (Z.ltb_ge _ _)), (proj2 (Z.ltb_lt _ _)) by lia. repeat f_equal; dlia.
Qed.

(** The test finds a code point when there is one, and only then. *)
Lemma utf8_need_ok src : bytes_ok src -> 0x80 <= c_at src 0 ->
  match utf8_need src with
  | Some n => exists cp, scalar cp /\ 0x80 <= cp /\ sub_str src 0 n = utf8 cp /\ 2 <= n <= slen src
  | None => ~ valid_utf8 src
  end.
Proof.
  intros Hb Hc. destruct (utf8_need src) as [n|] eqn:Hn; [by apply utf8_need_some|].
  intros (cps & Hs & ->). destruct Hs as [|cp cps Hcp Hs]; [done|].
  change (utf8s (cp :: cps)) with (utf8 cp ++ utf8s cps) in *. apply bytes_ok_app in Hb as [_ Hb].
  destruct (Z.lt_ge_cases cp 0x80) as [Hlt|Hge]; [rewrite utf8_ascii in Hc by done; cbn in Hc; lia|].
  by rewrite utf8_need_scalar in Hn.
Qed.

(** ** The writer *)

Lemma valid_app cps s : Forall scalar cps -> valid_utf8 (utf8s cps ++ s) <-> valid_utf8 s.
Proof.
  induction 1 as [|cp cps Hc _ IH]; [done|]. change (utf8s (cp :: cps)) with (utf8 cp ++ utf8s cps).
  by rewrite <-app_assoc, valid_cons.
Qed.

Lemma plain_run s : Forall (fun c => plain_byte c = true) (sub_str s 0 (plain_prefix s)) /\
  (drop (Z.to_nat (plain_prefix s)) s <> [] -> plain_byte (c_at (drop (Z.to_nat (plain_prefix s)) s) 0) = false).
Proof.
  unfold sub_str. rewrite drop_0. induction s as [|c s IH]; [done|]. cbn [plain_prefix].
  destruct (plain_byte c) eqn:Hc.
  - pose proof (plain_prefix_range s). replace (Z.to_nat (1 + plain_prefix s)) with (S (Z.to_nat (plain_prefix s))) by lia.
    cbn [take drop]. destruct IH. split; [by constructor|done].
  - change (Z.to_nat 0) with 0%nat. cbn [take drop]. split; [constructor|done].
Qed.

Lemma plain_range c : plain_byte c = true -> 0x20 <= c < 0x80.
Proof. unfold plain_byte. intros. bools. lia. Qed.

Lemma plain_texts p : Forall (fun c => plain_byte c = true) p -> Forall scalar p /\ utf8s p = p /\ (p ≫= jchar) = p.
Proof.
  induction 1 as [|c p Hc Hp (IH1 & IH2 & IH3)]; [done|]. pose proof (plain_range c Hc). split_and!.
  - constructor; [left; lia|done].
  - change (utf8s (c :: p)) with (utf8 c ++ utf8s p). by rewrite utf8_ascii, IH2 by lia.
  - change ((c :: p) ≫= jchar) with (jchar c ++ (p ≫= jchar)). unfold jchar at 1.
    by rewrite Hc, andb_false_r, utf8_ascii, IH3 by lia.
Qed.

Lemma escape_bytes : forallb (fun c => forallb (fun b => (0 <=? b) && (b <? 256)) (json_escape c)) (Z.of_nat <$> seq 0 256) = true.
Proof. vm_compute. reflexivity. Qed.

Lemma escape_ok c : is_u8 c -> bytes_ok (json_escape c) /\ slen (json_escape c) <= 6.
Proof.
  intros Hc. split.
  - pose proof (proj1 (forallb_forall _ _) escape_bytes c (byte_in c Hc)) as Hf. cbv beta in Hf.
    rewrite forallb_forall in Hf. apply Forall_forall. intros b Hb. specialize (Hf b (proj1 (list_elem_of_In _ _) Hb)).
    bools. unfold is_u8. lia.
  - unfold json_escape. split_tests; done.
Qed.

Section string.
Context `{AllocLaws, CHeapLaws} (path : scan_path).

(** What a writer of the characters of [s] does. *)
Definition writes_chars (f : writer BeansJsonDirect) (s : str) : Prop :=
  (exists cps, Forall scalar cps /\ s = utf8s cps /\ writes f 1 (cps ≫= jchar)) \/
  (~ valid_utf8 s /\ exists text, slen text <= 6 * slen s /\ writes f (-1) text).

Lemma jchar_len cps : slen (cps ≫= jchar) <= 6 * slen (utf8s cps).
Proof.
  induction cps as [|cp cps IH]; [done|]. change ((cp :: cps) ≫= jchar) with (jchar cp ++ (cps ≫= jchar)).
  change (utf8s (cp :: cps)) with (utf8 cp ++ utf8s cps). rewrite !slen_app.
  assert (slen (jchar cp) <= 6 * slen (utf8 cp)); [|lia]. unfold jchar, json_escape, utf8. split_tests; done.
Qed.

Lemma chars_prepend g f cps s src : src = utf8s cps ++ s -> Forall scalar cps -> writes g 1 (cps ≫= jchar) ->
  writes_chars f s -> writes_chars (g ;;! f) src.
Proof.
  intros -> Hs Hg [(cps2 & Hs2 & -> & Hf)|(Hn & text & Hle & Hf)].
  - left. exists (cps ++ cps2). split_and!; [by apply Forall_app|by rewrite utf8s_app|].
    rewrite bind_app. by apply writes_seq.
  - right. split; [by rewrite valid_app|]. exists ((cps ≫= jchar) ++ text). split; [|by apply writes_seq].
    pose proof (jchar_len cps). rewrite !slen_app. lia.
Qed.

Lemma string_loop_ok fuel : forall src, bytes_ok src -> slen src < 2 ^ 63 -> slen src < Z.of_nat fuel ->
  writes_chars (direct_string_loop path fuel src) src.
Proof.
  induction fuel as [|fuel IH]; intros src Hb Hl Hf; [pose proof (slen_nonneg src); lia|]. cbn [direct_string_loop].
  destruct (Z.eqb_spec (slen src) 0) as [He|Hne].
  { left. exists []. destruct src; [|rewrite slen_cons in He; pose proof (slen_nonneg src); lia].
    split_and!; [done|done|]. apply writes_answer. }
  cbv zeta. rewrite plain_span_ok by done. pose proof (plain_prefix_range src) as Hr.
  destruct (plain_run src) as [Hp Hstop]. set (n := plain_prefix src) in *.
  destruct (plain_texts _ Hp) as (Hps & Hpu & Hpj).
  assert (Hsplit : src = utf8s (sub_str src 0 n) ++ drop (Z.to_nat n) src).
  { rewrite Hpu. unfold sub_str. by rewrite drop_0, take_drop. }
  apply (chars_prepend _ _ _ _ _ Hsplit Hps).
  { rewrite Hpj. destruct (Z.eqb_spec n 0) as [->|].
    - rewrite sub_str_zero by done. apply writes_answer.
    - apply writes_raw; [by apply sub_bytes_ok|]. rewrite sub_str_len; lia. }
  set (s := drop (Z.to_nat n) src) in *. assert (Hbs : bytes_ok s) by (by apply Forall_drop).
  assert (Hls : slen s = slen src - n) by (unfold s, slen in *; rewrite length_drop; lia).
  destruct (Z.eqb_spec (slen s) 0) as [He|Hne2].
  { left. exists []. destruct s; [|rewrite slen_cons in He; pose proof (slen_nonneg s); lia].
    split_and!; [done|done|]. apply writes_answer. }
  destruct s as [|c s'] eqn:Hs; [done|]. specialize (Hstop ltac:(done)). cbn in Hstop. rewrite slen_cons in *.
  inversion Hbs as [|? ? Hc Hbs']; subst. change (c_at (c :: s') 0) with c.
  destruct (Z.ltb_spec c 0x80) as [Hlt|Hge].
  - unfold is_u8 in Hc. apply (chars_prepend _ _ [c] s'); [|constructor; [left; lia|done]| |].
    + unfold utf8s. cbn. by rewrite utf8_ascii.
    + change ([c] ≫= jchar) with (jchar c ++ []). rewrite app_nil_r. unfold jchar.
      rewrite (proj2 (Z.ltb_lt _ _)), Hstop by done. cbn [andb negb].
      destruct (escape_ok c Hc). apply writes_raw; [done|lia].
    + cbn [drop app]. apply IH; [done|lia|lia].
  - pose proof (utf8_need_ok (c :: s') Hbs Hge) as Hneed. destruct (utf8_need (c :: s')) as [need|].
    2:{ right. split; [done|]. exists []. split; [rewrite slen_cons; change (slen []) with 0; lia|]. apply writes_answer. }
    destruct Hneed as (cp & Hcp & Hcp2 & Hsub & Hneed). rewrite slen_cons in Hneed.
    assert (Hs2 : c :: s' = utf8s [cp] ++ drop (Z.to_nat need) (c :: s')).
    { change (utf8s [cp]) with (utf8 cp ++ []). rewrite app_nil_r, <-Hsub. unfold sub_str. by rewrite drop_0, take_drop. }
    apply (chars_prepend _ _ _ _ _ Hs2); [by constructor| |].
    + change ([cp] ≫= jchar) with (jchar cp ++ []). rewrite app_nil_r. unfold jchar.
      rewrite (proj2 (Z.ltb_ge _ _)) by lia. cbn [andb]. rewrite <-Hsub. apply writes_raw; [by apply sub_bytes_ok|].
      rewrite sub_str_len by (rewrite ?slen_cons; lia). lia.
    + apply IH; [by apply Forall_drop| |]; unfold slen in *; rewrite length_drop; cbn [length]; lia.
Qed.

Lemma string_ok src : bytes_ok src -> slen src < 2 ^ 63 ->
  (exists cps, Forall scalar cps /\ src = utf8s cps /\ writes (direct_string path src) 1 (jquote cps)) \/
  (~ valid_utf8 src /\ exists text, slen text <= 6 * slen src + 2 /\ writes (direct_string path src) (-1) text).
Proof.
  intros Hb Hl. assert (Hq : writes (direct_char 34) 1 [34]) by (apply writes_char; unfold is_u8; lia).
  unfold direct_string.
  destruct (string_loop_ok (S (length src)) src Hb Hl) as [(cps & Hs & -> & Hw)|(Hn & text & Hle & Hw)]; [unfold slen; lia| |].
  - left. exists cps. split_and!; [done|done|]. apply (writes_seq _ _ [34]); [done|]. by apply writes_seq.
  - right. split; [done|]. exists ([34] ++ text). split; [rewrite slen_app; change (slen [34]) with 1; lia|].
    apply writes_seq; [done|]. by apply writes_stop.
Qed.

End string.

(** ** Reading it back *)

Lemma jread_high c s : 0x80 <= c -> jread (c :: s) = '(out, rest) ← jread s; Some (c :: out, rest).
Proof.
  intros Hc. cbn [jread]. rewrite !(proj2 (Z.eqb_neq _ _)) by lia. by rewrite (proj2 (Z.ltb_ge _ _)) by lia.
Qed.

Lemma jread_highs cs s out rest : Forall (fun c => 0x80 <= c) cs -> jread s = Some (out, rest) ->
  jread (cs ++ s) = Some (cs ++ out, rest).
Proof.
  intros Hcs Hs. induction Hcs as [|c cs Hc _ IH]; [done|]. cbn [app]. by rewrite jread_high, IH.
Qed.

Lemma utf8_high cp : scalar cp -> 0x80 <= cp -> Forall (fun c => 0x80 <= c) (utf8 cp).
Proof. unfold scalar, utf8. intros Hs Hc. split_tests; bools; repeat constructor; dlia. Qed.

Lemma jread_u h1 h0 d1 d0 s : hex_value h1 = Some d1 -> hex_value h0 = Some d0 -> 0 <= d1 * 16 + d0 < 0x80 ->
  jread (92 :: 117 :: 48 :: 48 :: h1 :: h0 :: s) = '(out, rest) ← jread s; Some (d1 * 16 + d0 :: out, rest).
Proof.
  intros H1 H0 Hr. cbn [jread Z.eqb Pos.eqb]. change (hex_value 48) with (Some 0). rewrite H1, H0. cbn [mbind option_bind].
  change (0 * 16 + 0) with 0. change (0 * 16) with 0. rewrite Z.add_0_l. rewrite bool_decide_true by (left; lia).
  rewrite utf8_ascii by lia. done.
Qed.

Lemma jread_char cp s out rest : scalar cp -> jread s = Some (out, rest) -> jread (jchar cp ++ s) = Some (utf8 cp ++ out, rest).
Proof.
  intros Hc Hs. unfold jchar. destruct (Z.ltb_spec cp 0x80) as [Hlt|Hge]; cbn [andb].
  2:{ by apply jread_highs; [apply utf8_high|]. }
  rewrite utf8_ascii by done. destruct (plain_byte cp) eqn:Hp; cbn [negb app].
  - unfold plain_byte in Hp. bools. cbn [jread]. rewrite !(proj2 (Z.eqb_neq _ _)), (proj2 (Z.ltb_ge _ _)) by lia.
    by rewrite Hs.
  - assert (Hcase : cp = 34 \/ cp = 92 \/ exists k, (k < 32)%nat /\ cp = Z.of_nat k).
    { destruct Hc as [Hc|Hc]; [|lia]. unfold plain_byte in Hp. destruct (Z.le_gt_cases 0x20 cp).
      - rewrite (proj2 (Z.leb_le _ _)), (proj2 (Z.ltb_lt _ _)) in Hp by lia. cbn [andb] in Hp. bools.
        destruct Hp; bools; lia.
      - right; right. exists (Z.to_nat cp). lia. }
    clear Hp Hc Hlt. destruct Hcase as [->|[->|(k & Hk & ->)]]; [cbn; by rewrite Hs..|].
    do 32 (destruct k as [|k]; [first [lazy [Z.of_nat Pos.of_succ_nat Pos.succ]; cbn; by rewrite Hs
      | etransitivity; [eapply (jread_u _ _ _ _ s); [reflexivity|reflexivity|split; [by vm_compute|reflexivity]]|by rewrite Hs]]|]). lia.
Qed.

(** The quoted form reads back as the bytes it was written from. *)
Lemma jread_quote cps rest : Forall scalar cps -> jread ((cps ≫= jchar) ++ 34 :: rest) = Some (utf8s cps, rest).
Proof.
  induction 1 as [|cp cps Hc _ IH]; [done|]. change ((cp :: cps) ≫= jchar) with (jchar cp ++ (cps ≫= jchar)).
  rewrite <-app_assoc. by apply jread_char.
Qed.
