(* ===== verification/JsonEnc.v ===== *)
(** * JsonEnc: typed JSON encoding

    [runtime/encoding/beans_enc_json.c]: the compiler's schemas over records in
    memory, the direct writer ([beans_json_direct_value], [_object], the key
    skeleton, the first capacity, [beans_json_direct_encode]), the tree the DOM
    path builds for yyjson ([beans_json_typed_encode_*]) and the entry
    [beans_enc_json_typed_encode] that chooses between them.  Memory is a byte
    at each mapped address of a little-endian 64-bit host; schemas and the
    callbacks are reached through pointers.  yyjson is a parameter: whether
    its n-th node can be allocated, and its writer. *)

From S2P Require Import Prelude Mem Text Bytes JsonScan JsonOut.

Open Scope c_scope.

#[local] Set Warnings "-register-all".

(** ** Schemas *)

Record BeansJsonTypedField : Type := mkField {
  f_kind : Z;
  f_flags : Z;
  f_value_offset : Z;
  f_presence_offset : Z;
  f_primary_name : Z;
  f_primary_name_len : Z
}.

(** A bucket of the key table; [field] is the index plus one, 0 when empty. *)
Record BeansJsonTypedKey : Type := mkKey { k_name : Z; k_len : Z; k_field : Z }.

Record BeansJsonTypedComplex : Type := mkComplex {
  x_child_schema : Z;
  x_element_kind : Z;
  x_element_schema : Z;
  x_element_size : Z;
  x_element_pointer_mask : Z;
  x_box_size : Z;
  x_box_meta : Z;
  x_box_value_offset : Z;
  x_missing_value : Z
}.

(** The arrays behind [keys], [fields] and [complex]; [None] is the null
    pointer. *)
Record BeansJsonTypedSchema : Type := mkSchema {
  s_field_count : Z;
  s_key_mask : Z;
  s_flags : Z;
  s_keys : option (list BeansJsonTypedKey);
  s_fields : option (list BeansJsonTypedField);
  s_record_size : Z;
  s_pointer_mask : Z;
  s_complex : option (list BeansJsonTypedComplex)
}.

Definition TYPED_BOOL : Z := 1.
Definition TYPED_SINT : Z := 2.
Definition TYPED_UINT : Z := 3.
Definition TYPED_F32 : Z := 4.
Definition TYPED_F64 : Z := 5.
Definition TYPED_STRING : Z := 6.
Definition TYPED_STRUCT : Z := 7.
Definition TYPED_LIST : Z := 8.

Definition TYPED_OPTIONAL : Z := 1.
Definition TYPED_IGNORED : Z := 4.
Definition TYPED_BOXED_OPTION : Z := 8.
Definition TYPED_ROOT_ARRAY : Z := 2.

Definition has_flag (flags bit : Z) : bool := negb ((flags &! bit) =? 0).

(** ** Memory *)

Record image : Type := mkImage {
  im_byte : Z -> option Z;
  im_schema : Z -> option BeansJsonTypedSchema
}.

(** [n] bytes at [p]; [None] when one is not mapped. *)
Definition rd (m : image) (p n : Z) : option str := mapM (im_byte m) (seqZ p n).

(** A word at [p], as [memcpy] into a variable of [n] bytes reads it. *)
Definition rd_le (m : image) (p n : Z) : option Z := le <$> rd m p n.

(** [BeansJsonListPrefix]: the data pointer, the length and the stride. *)
Record list_prefix : Type := mkPrefix { lp_data : Z; lp_len : Z; lp_stride : Z }.

Definition rd_prefix (m : image) (p : Z) : option list_prefix :=
  data ← rd_le m p 8; len ← rd_le m (p + 8) 8; stride ← rd_le m (p + 24) 8;
  Some (mkPrefix data len (i64 stride)).

Definition typed_list_stride (l : list_prefix) : Z :=
  if lp_stride l <? 0 then - lp_stride l else if negb (lp_stride l =? 0) then lp_stride l else 8.

(** A field with its index and its row of [complex]. *)
Abbreviation row := (Z * BeansJsonTypedField * option BeansJsonTypedComplex)%type.

(** The [field_count] rows; [None] when an array is shorter or missing. *)
Definition schema_rows (s : BeansJsonTypedSchema) : option (list row) :=
  let n := Z.to_nat (s_field_count s) in
  if s_field_count s =? 0 then Some [] else
  fields ← s_fields s;
  if (n <=? length fields)%nat then
    match s_complex s with
    | None => Some (zip (zip (Z.of_nat <$> seq 0 n) (take n fields)) (replicate n None))
    | Some cs =>
        if (n <=? length cs)%nat then
          Some (zip (zip (Z.of_nat <$> seq 0 n) (take n fields)) (Some <$> take n cs))
        else None
    end
  else None.

(** ** Reading a value *)

Section read.
Context (m : image).

(** A signed read widens: [(uint64_t)(int64_t)number]. *)
Definition typed_read_integer (value bits : Z) (want_unsigned i64_slot : bool) : option Z :=
  if i64_slot then rd_le m value 8
  else if bool_decide (bits ∈ [8; 16; 32]) then
    raw ← rd_le m value (bits / 8);
    Some (if want_unsigned then raw else if raw <? 2 ^ (bits - 1) then raw else u64 (raw - 2 ^ bits))
  else rd_le m value 8.

(** Where a field's value is, and whether there is one. *)
Definition field_place (record : Z) (f : BeansJsonTypedField) (complex : option BeansJsonTypedComplex) : option (bool * Z) :=
  let value := record + f_value_offset f in
  if has_flag (f_flags f) TYPED_OPTIONAL then
    if negb (f_presence_offset f =? SIZE_MAX) then
      b ← rd_le m (record + f_presence_offset f) 1;
      Some (negb (b =? 0), value)
    else if has_flag (f_flags f) TYPED_BOXED_OPTION then
      box_word ← rd_le m value 8;
      match complex with
      | Some x =>
          if negb (box_word =? x_missing_value x) then Some (true, box_word + x_box_value_offset x)
          else Some (false, value)
      | None => Some (false, value)
      end
    else
      pointer ← rd_le m value 8;
      Some (negb (pointer =? 0), value)
  else Some (true, value).

End read.

(** What a value's reader is told of it: the C parameters of the same names. *)
Record vdesc : Type := mkDesc {
  v_kind : Z;
  v_flags : Z;
  v_child_schema : Z;
  v_element_kind : Z;
  v_element_schema : Z;
  v_element_size : Z
}.

Definition field_desc (f : BeansJsonTypedField) (complex : option BeansJsonTypedComplex) : vdesc :=
  match complex with
  | Some x => mkDesc (f_kind f) (f_flags f) (x_child_schema x) (x_element_kind x) (x_element_schema x) (x_element_size x)
  | None => mkDesc (f_kind f) (f_flags f) 0 0 0 0
  end.

(** An element: its flags carry the width of an integer. *)
Definition element_desc (element_kind element_schema element_size : Z) : vdesc :=
  let flags := if (element_kind =? TYPED_SINT) || (element_kind =? TYPED_UINT) then u64 (Z.shiftl (element_size *! 8) 8) else 0 in
  mkDesc element_kind flags element_schema 0 0 0.

(** [(unsigned)(flags >> 8)]. *)
Definition flag_bits (flags : Z) : Z := u32 (flags >>! 8).

(** ** The direct writer *)

Record BeansJsonDirectContext : Type := mkCtx { c_out : BeansJsonDirect; c_req7 : Z }.

(** A writer of the buffer, inside the context. *)
Definition on_out (f : writer BeansJsonDirect) : writer BeansJsonDirectContext := fun c =>
  '(wrote, out) ← f (c_out c);
  got wrote (mkCtx out (c_req7 c)).

Definition set_req7 (index : Z) : writer BeansJsonDirectContext := fun c => got 1 (mkCtx (c_out c) index).

(** A read of memory, then what is written of it. *)
Definition with_read {A S} (r : option A) (f : A -> writer S) : writer S := fun s =>
  match r with Some a => f a s | None => None end.

Record BeansJsonSkel : Type := mkSkel { sk_bytes : str; sk_off : list Z; sk_len : list Z }.

Section direct.
Context `{Alloc, CHeap} (path : scan_path) (m : image) (string_len : Z -> Z).

Let out_char (c : Z) : writer BeansJsonDirectContext := on_out (direct_char c).
Let out_raw (text : str) : writer BeansJsonDirectContext := on_out (direct_raw text).
Let out_string (src : str) : writer BeansJsonDirectContext := on_out (direct_string path src).

(** *** The key skeleton *)

Definition ignored (f : BeansJsonTypedField) : bool := has_flag (f_flags f) TYPED_IGNORED.

(** The first loop: [Some None] when a key needs escaping, else the total. *)
Fixpoint skel_total (rows : list row) (total : Z) : option (option Z) :=
  match rows with
  | [] => Some (Some total)
  | (_, f, _) :: rows =>
      if ignored f then skel_total rows total
      else
        name ← rd m (f_primary_name f) (f_primary_name_len f);
        if forallb plain_byte name then skel_total rows (total +! (f_primary_name_len f +! 4)) else Some None
  end.

Fixpoint skel_fill (rows : list row) (first : bool) (pos : Z) (skel : BeansJsonSkel) : option BeansJsonSkel :=
  match rows with
  | [] => Some skel
  | (index, f, _) :: rows =>
      if ignored f then skel_fill rows first pos skel
      else
        name ← rd m (f_primary_name f) (f_primary_name_len f);
        let text := [if first then 123 else 44; 34] ++ name ++ [34; 58] in
        bytes ← poke (sk_bytes skel) pos text;
        skel_fill rows false (pos + slen text)
          (mkSkel bytes (<[Z.to_nat index := u32 pos]> (sk_off skel)) (<[Z.to_nat index := u32 (slen text)]> (sk_len skel)))
  end.

(** [Some None] is the answer 0: keys are written one by one. *)
Definition skel_build (schema : BeansJsonTypedSchema) : option (option BeansJsonSkel) :=
  match s_fields schema with
  | None => Some None
  | Some _ =>
      let count := s_field_count schema in
      if count =? 0 then Some None
      else
        rows ← schema_rows schema;
        total ← skel_total rows 0;
        match total with
        | None => Some None
        | Some total =>
            if total =? 0 then Some None
            else
              match c_malloc total with
              | Some bytes =>
                  if c_calloc count 4 then
                    let zeros := replicate (Z.to_nat count) 0 in
                    skel ← skel_fill rows true 0 (mkSkel bytes zeros zeros);
                    Some (Some skel)
                  else Some None
              | None => Some None
              end
        end
  end.

(** The constant text of field [index]. *)
Definition skel_text (skel : BeansJsonSkel) (index : Z) : option str :=
  off ← sk_off skel !! Z.to_nat index;
  len ← sk_len skel !! Z.to_nat index;
  if off + len <=? slen (sk_bytes skel) then Some (sub_str (sk_bytes skel) off len) else None.

(** *** Values, lists and objects *)

Section value.
(** [beans_json_direct_value] itself, for what is nested. *)
Context (value_writer : vdesc -> Z -> bool -> writer BeansJsonDirectContext).

Definition direct_key (skel : option BeansJsonSkel) (index : Z) (f : BeansJsonTypedField) (first : bool)
    : writer BeansJsonDirectContext :=
  match skel with
  | Some skel => with_read (skel_text skel index) out_raw
  | None =>
      (if first then answer 1 else out_char 44) ;;!
      with_read (rd m (f_primary_name f) (f_primary_name_len f)) out_string ;;!
      out_char 58
  end.

Fixpoint object_fields (rows : list row) (record : Z) (skel : option BeansJsonSkel) (first : bool)
    : writer BeansJsonDirectContext :=
  match rows with
  | [] => answer 1
  | (index, f, complex) :: rows =>
      if ignored f then object_fields rows record skel first
      else
        set_req7 index ;;!
        with_read (field_place m record f complex) (fun '(present, value) =>
          direct_key skel index f first ;;!
          (if present : bool then value_writer (field_desc f complex) value false else out_raw (lit "null"))) ;;!
        object_fields rows record skel false
  end.

Definition direct_object (schema : Z) (record : Z) (skel : option BeansJsonSkel) : writer BeansJsonDirectContext :=
  with_read (im_schema m schema ≫= schema_rows) (fun rows =>
    (match skel with Some _ => answer 1 | None => out_char 123 end) ;;!
    object_fields rows record skel true ;;!
    out_char 125).

(** [n] more elements, the next at [item]. *)
Fixpoint list_items (n : nat) (stride : Z) (first : bool) (item : Z)
    (write : Z -> writer BeansJsonDirectContext) : writer BeansJsonDirectContext :=
  match n with
  | O => answer 1
  | S n =>
      (if first then answer 1 else out_char 44) ;;!
      write item ;;!
      list_items n stride false (item + stride) write
  end.

(** [list_ptr]: what [memcpy(&list_pointer, value, ...)] reads. *)
Definition direct_list (d : vdesc) (list_ptr : option Z) : writer BeansJsonDirectContext :=
  with_read list_ptr (fun list_pointer =>
    if (list_pointer =? 0) || (v_element_size d =? 0) then answer (-2)
    else
      with_read (rd_prefix m list_pointer) (fun l =>
        out_char 91 ;;!
        with_read
          (if (v_element_kind d =? TYPED_STRUCT) && negb (v_element_schema d =? 0) && (1 <? lp_len l)
           then im_schema m (v_element_schema d) ≫= skel_build else Some None)
          (fun skel =>
             list_items (Z.to_nat (lp_len l)) (typed_list_stride l) true (lp_data l) (fun item =>
               match skel with
               | Some skel => direct_object (v_element_schema d) item (Some skel)
               | None =>
                   value_writer (element_desc (v_element_kind d) (v_element_schema d) (v_element_size d)) item
                     (lp_stride l <? 0)
               end)) ;;!
        out_char 93)).

End value.

(** One unit of fuel a nested value. *)
Fixpoint direct_value (fuel : nat) (d : vdesc) (value : Z) (i64_slot : bool) : writer BeansJsonDirectContext :=
  match fuel with
  | O => fun _ => None
  | S fuel =>
      let kind := v_kind d in
      if kind =? TYPED_BOOL then
        with_read (rd_le m value (if i64_slot then 8 else 1)) (fun b =>
          if negb (b =? 0) then out_raw (lit "true") else out_raw (lit "false"))
      else if (kind =? TYPED_SINT) || (kind =? TYPED_UINT) then
        with_read (typed_read_integer m value (flag_bits (v_flags d)) (kind =? TYPED_UINT) i64_slot) (fun integer =>
          on_out (if kind =? TYPED_UINT then direct_uint integer else direct_sint (i64 integer)))
      else if kind =? TYPED_STRING then
        with_read (rd_le m value 8) (fun string =>
          if string =? 0 then answer (-2)
          else
            let length_ := string_len string in
            if length_ <? 0 then answer (-2)
            else with_read (rd m string length_) out_string)
      else if (kind =? TYPED_STRUCT) && negb (v_child_schema d =? 0) then
        direct_object (direct_value fuel) (v_child_schema d) value None
      else if kind =? TYPED_LIST then direct_list (direct_value fuel) d (rd_le m value 8)
      else answer (-2)
  end.

(** *** Which schemas, and how much room at first *)

(** [beans_json_direct_eligible] at depth [33 - fuel]. *)
Fixpoint direct_eligible (fuel : nat) (schema : Z) : option bool :=
  if schema =? 0 then Some false
  else
    s ← im_schema m schema;
    match s_fields s, fuel with
    | None, _ | _, O => Some false
    | Some _, S fuel =>
        rows ← schema_rows s;
        (fix all (rows : list row) : option bool :=
          match rows with
          | [] => Some true
          | (_, f, complex) :: rows =>
              if ignored f then all rows
              else
                let kind := f_kind f in
                if (kind =? TYPED_F32) || (kind =? TYPED_F64) then Some false
                else
                  child ← (if kind =? TYPED_STRUCT then
                             match complex with None => Some false | Some x => direct_eligible fuel (x_child_schema x) end
                           else Some true);
                  if negb child then Some false
                  else
                    element ← (if kind =? TYPED_LIST then
                                 match complex with
                                 | None => Some false
                                 | Some x =>
                                     let e := x_element_kind x in
                                     if (e =? TYPED_F32) || (e =? TYPED_F64) || (e =? TYPED_LIST) then Some false
                                     else if e =? TYPED_STRUCT then direct_eligible fuel (x_element_schema x)
                                     else Some true
                                 end
                               else Some true);
                    if negb element then Some false else all rows
          end) rows
    end.

(** Depths 0 to 32 are walked. *)
Definition ELIGIBLE_FUEL : nat := 33.

(** [beans_json_direct_record_size] at depth [5 - fuel]. *)
Fixpoint direct_record_size (fuel : nat) (schema : Z) : option Z :=
  if schema =? 0 then Some 32
  else
    s ← im_schema m schema;
    match s_fields s, fuel with
    | None, _ | _, O => Some 32
    | Some _, S fuel =>
        rows ← schema_rows s;
        (fix sum (rows : list row) (total : Z) : option Z :=
          match rows with
          | [] => Some total
          | (_, f, complex) :: rows =>
              if ignored f then sum rows total
              else
                let total := total +! (f_primary_name_len f +! 4) in
                let kind := f_kind f in
                more ← (if kind =? TYPED_BOOL then Some 5
                        else if (kind =? TYPED_SINT) || (kind =? TYPED_UINT) then Some 8
                        else if (kind =? TYPED_F32) || (kind =? TYPED_F64) then Some 12
                        else if kind =? TYPED_STRING then Some 24
                        else if kind =? TYPED_STRUCT then
                          direct_record_size fuel (match complex with Some x => x_child_schema x | None => 0 end)
                        else if kind =? TYPED_LIST then Some 64
                        else Some 16);
                sum rows (total +! more)
          end) rows 2
    end.

Definition direct_first_cap (schema : BeansJsonTypedSchema) (sp root : Z) : option Z :=
  want ← direct_record_size 5 sp;
  want ← (if has_flag (s_flags schema) TYPED_ROOT_ARRAY then
            if negb (root =? 0) then
              l ← rd_prefix m root;
              let count := lp_len l in
              let bound := Z.shiftl 32 20 in
              if want +! 1 =? 0 then None
              else
                let count := if bound / (want +! 1) <? count then bound / (want +! 1) else count in
                Some (count *! (want +! 1) +! 2)
            else Some want
          else Some want);
  Some (if want <? FIRST then FIRST else want).

End direct.

(** ** The tree for yyjson *)

(** A yyjson value; a real is the bits of its double. *)
Inductive jval : Type :=
  | JNull
  | JBool (b : bool)
  | JUint (n : Z)
  | JSint (n : Z)
  | JReal (bits : Z)
  | JStr (s : str)
  | JArr (vs : list jval)
  | JObj (kvs : list (str * jval)).

Record BeansJsonEncodeContext : Type := mkEnc { e_nodes : nat; e_req7 : Z }.

(** A C function that answers a value or the null pointer. *)
Abbreviation builder A := (BeansJsonEncodeContext -> option (option A * BeansJsonEncodeContext)).

(** yyjson: whether a document and its n-th node can be allocated; its writer,
    the text or the error code of a value under write flags.  [widen_f32] is
    the host's conversion of a float to a double, on bits. *)
Class Yyjson : Type := {
  yy_doc : bool;
  yy_room : nat -> bool;
  yy_write : Z -> jval -> str + Z;
  widen_f32 : Z -> Z
}.

Section dom.
Context `{Yyjson} (m : image) (string_len : Z -> Z).

(** A constructor call: one node. *)
Definition node (v : jval) : builder jval := fun c =>
  Some (if yy_room (e_nodes c) then Some v else None, mkEnc (S (e_nodes c)) (e_req7 c)).

Definition null {A} : builder A := fun c => Some (None, c).

(** [if (!x) return NULL;] after the call. *)
Definition then_build {A B} (f : builder A) (g : A -> builder B) : builder B := fun c =>
  match f c with
  | Some (Some a, c) => g a c
  | Some (None, c) => Some (None, c)
  | None => None
  end.

Definition read_build {A B} (r : option A) (f : A -> builder B) : builder B := fun c =>
  match r with Some a => f a c | None => None end.

Section value.
Context (value_builder : vdesc -> Z -> bool -> builder jval).

(** The value is built before the key, and both before either is checked. *)
Definition encode_member (record : Z) (r : row) : builder (str * jval) :=
  let '(index, f, complex) := r in
  fun c =>
  let c := mkEnc (e_nodes c) index in
  read_build (field_place m record f complex) (fun '(present, value) => fun c =>
    '(encoded, c) ← (if present : bool then value_builder (field_desc f complex) value false c else node JNull c);
    read_build (rd m (f_primary_name f) (f_primary_name_len f)) (fun name c =>
      '(key, c) ← node (JStr name) c;
      match encoded, key with
      | Some v, Some _ => Some (Some (name, v), c)
      | _, _ => Some (None, c)
      end) c) c.

Fixpoint encode_members (rows : list row) (record : Z) : builder (list (str * jval)) :=
  match rows with
  | [] => fun c => Some (Some [], c)
  | r :: rows =>
      if has_flag (f_flags (snd (fst r))) TYPED_IGNORED then encode_members rows record
      else
        then_build (encode_member record r) (fun kv =>
        then_build (encode_members rows record) (fun kvs c => Some (Some (kv :: kvs), c)))
  end.

Definition typed_encode_object (schema record : Z) : builder jval :=
  then_build (node (JObj [])) (fun _ =>
  read_build (im_schema m schema ≫= schema_rows) (fun rows =>
  then_build (encode_members rows record) (fun kvs c => Some (Some (JObj kvs), c)))).

Fixpoint encode_items (n : nat) (stride : Z) (item : Z) (build : Z -> builder jval) : builder (list jval) :=
  match n with
  | O => fun c => Some (Some [], c)
  | S n =>
      then_build (build item) (fun v =>
      then_build (encode_items n stride (item + stride) build) (fun vs c => Some (Some (v :: vs), c)))
  end.

Definition typed_encode_list (element_kind element_schema element_size : Z) (list_ptr : option Z) : builder jval :=
  read_build list_ptr (fun list_pointer =>
    if (list_pointer =? 0) || (element_size =? 0) then null
    else
      read_build (rd_prefix m list_pointer) (fun l =>
      then_build (node (JArr [])) (fun _ =>
      then_build
        (encode_items (Z.to_nat (lp_len l)) (typed_list_stride l) (lp_data l) (fun item =>
           value_builder (element_desc element_kind element_schema element_size) item (lp_stride l <? 0)))
        (fun vs c => Some (Some (JArr vs), c))))).

End value.

Fixpoint typed_encode_value (fuel : nat) (d : vdesc) (value : Z) (i64_slot : bool) : builder jval :=
  match fuel with
  | O => fun _ => None
  | S fuel =>
      let kind := v_kind d in
      if kind =? TYPED_BOOL then
        read_build (rd_le m value (if i64_slot then 8 else 1)) (fun b => node (JBool (negb (b =? 0))))
      else if (kind =? TYPED_SINT) || (kind =? TYPED_UINT) then
        read_build (typed_read_integer m value (flag_bits (v_flags d)) (kind =? TYPED_UINT) i64_slot) (fun integer =>
          node (if kind =? TYPED_UINT then JUint integer else JSint (i64 integer)))
      else if kind =? TYPED_F32 then
        read_build (if i64_slot then u32 <$> rd_le m value 8 else rd_le m value 4) (fun bits => node (JReal (widen_f32 bits)))
      else if kind =? TYPED_F64 then
        read_build (rd_le m value 8) (fun bits => node (JReal bits))
      else if kind =? TYPED_STRING then
        read_build (rd_le m value 8) (fun string =>
          if string =? 0 then null
          else
            let length_ := string_len string in
            if length_ <? 0 then null
            else read_build (rd m string length_) (fun s => node (JStr s)))
      else if (kind =? TYPED_STRUCT) && negb (v_child_schema d =? 0) then
        typed_encode_object (typed_encode_value fuel) (v_child_schema d) value
      else if kind =? TYPED_LIST then
        typed_encode_list (typed_encode_value fuel) (v_element_kind d) (v_element_schema d) (v_element_size d) (rd_le m value 8)
      else null
  end.

End dom.

(** ** The entry *)

Definition ENC_OK : Z := 0.
Definition ENC_ERR_INVALID : Z := 1.
Definition ENC_ERR_MEMORY : Z := 5.
Definition WERR_INVALID : Z := 1.
Definition WERR_NAN_INF : Z := 2.
Definition WERR_MEMORY : Z := 3.
Definition WRITE_COMPACT : Z := 0.
Definition WRITE_PRETTY_FOUR : Z := 1.
Definition WRITE_PRETTY_TWO : Z := 2.
Definition WRITE_APPEND : Z := 3.
Definition YYJSON_WRITE_PRETTY : Z := 1.
Definition YYJSON_WRITE_PRETTY_TWO_SPACES : Z := 64.
Definition YYJSON_WRITE_ERROR_MEMORY_ALLOCATION : Z := 2.
Definition YYJSON_WRITE_ERROR_NAN_OR_INF : Z := 4.

(** The status and what the request buffer and the caller's Bytes hold after:
    [req[3]] to [req[5]] and [req[7]]. *)
Record encode_answer : Type := mkAnswer {
  a_status : Z;
  a_buffer : option str;
  a_len : Z;
  a_werr : Z;
  a_field : Z;
  a_bytes : option Bytes
}.

Definition refused (status werr field : Z) (b : option Bytes) : run encode_answer :=
  Some (Ok (mkAnswer status None 0 werr field b)).

Section encode.
Context `{Alloc, CHeap, Yyjson} (path : scan_path) (m : image).

(** Nesting of an eligible schema: two values a level, and the root list. *)
Definition DIRECT_FUEL : nat := 68.

Definition root_desc (schema : Z) (s : BeansJsonTypedSchema) : vdesc :=
  mkDesc TYPED_LIST 0 0 TYPED_STRUCT schema (s_record_size s).

Definition direct_root (string_len : Z -> Z) (schema root : Z) (s : BeansJsonTypedSchema) : writer BeansJsonDirectContext :=
  if has_flag (s_flags s) TYPED_ROOT_ARRAY then
    direct_list path m (direct_value path m string_len DIRECT_FUEL) (root_desc schema s) (Some root)
  else direct_object path m (direct_value path m string_len DIRECT_FUEL) schema root None.

(** [reserve(handle, len, min_cap, &cap)] on the Bytes whose data is [data]. *)
Definition reserve (b : Bytes) (data : str) (len min_cap : Z) : run Bytes :=
  beans_bytes_reserve_raw (mkBytes data (b_len b) (b_cap b)) len min_cap.

Definition direct_encode (string_len : Z -> Z) (schema root : Z) (s : BeansJsonTypedSchema)
    (handle : option Bytes) (start_len : Z) : run encode_answer :=
  first ← must (direct_first_cap m s schema root);
  out ← match handle with
        | Some b =>
            b ← reserve b (b_data b) start_len (start_len +! first);
            Some (Ok (mkDirect (b_data b) start_len (u64 (b_cap b)) false (Some b)))
        | None =>
            match c_malloc first with
            | Some data => Some (Ok (mkDirect data 0 first false None))
            | None => Some (Ok (mkDirect [] 0 0 false None))
            end
        end;
  '(wrote, c) ← direct_root string_len schema root s (mkCtx out SIZE_MAX);
  let out := c_out c in
  if negb (wrote =? 1) then
    b ← match d_handle out with
        | Some b => b ← reserve b (d_data out) start_len start_len; Some (Ok (Some b))
        | None => Some (Ok None)
        end;
    if wrote =? -1 then refused ENC_ERR_INVALID WERR_INVALID (c_req7 c) b
    else refused ENC_ERR_MEMORY WERR_MEMORY (c_req7 c) b
  else
    match d_handle out with
    | Some b =>
        b ← reserve b (d_data out) (d_len out) (d_len out);
        Some (Ok (mkAnswer ENC_OK None (d_len out -! start_len) 0 SIZE_MAX (Some b)))
    | None => Some (Ok (mkAnswer ENC_OK (Some (d_data out)) (d_len out) 0 SIZE_MAX None))
    end.

Definition dom_root (fuel : nat) (string_len : Z -> Z) (schema root : Z) (s : BeansJsonTypedSchema) : builder jval :=
  if has_flag (s_flags s) TYPED_ROOT_ARRAY then
    typed_encode_list m (typed_encode_value m string_len fuel) TYPED_STRUCT schema (s_record_size s) (Some root)
  else typed_encode_object m (typed_encode_value m string_len fuel) schema root.

Definition write_flags (mode : Z) : Z :=
  let flags := if mode =? WRITE_PRETTY_FOUR then YYJSON_WRITE_PRETTY else 0 in
  if mode =? WRITE_PRETTY_TWO then flags |! YYJSON_WRITE_PRETTY_TWO_SPACES else flags.

(** The DOM path; [fuel] bounds the nesting of the values it walks. *)
Definition dom_encode (fuel : nat) (string_len : Z -> Z) (schema root : Z) (s : BeansJsonTypedSchema) (mode : Z)
    (handle : option Bytes) (start_len : Z) : run encode_answer :=
  if negb yy_doc then refused ENC_ERR_MEMORY WERR_MEMORY SIZE_MAX handle
  else
    '(value, c) ← must (dom_root fuel string_len schema root s (mkEnc 0 SIZE_MAX));
    match value with
    | None => refused ENC_ERR_MEMORY WERR_MEMORY (e_req7 c) handle
    | Some value =>
        match yy_write (write_flags mode) value with
        | inr code =>
            refused ENC_ERR_INVALID
              (if code =? YYJSON_WRITE_ERROR_NAN_OR_INF then WERR_NAN_INF
               else if code =? YYJSON_WRITE_ERROR_MEMORY_ALLOCATION then WERR_MEMORY else WERR_INVALID)
              (e_req7 c) handle
        | inl text =>
            match handle with
            | Some b =>
                b ← reserve b (b_data b) start_len (start_len +! slen text);
                data ← must (poke (b_data b) start_len text);
                b ← reserve b data (start_len +! slen text) (start_len +! slen text);
                Some (Ok (mkAnswer ENC_OK None (slen text) 0 SIZE_MAX (Some b)))
            | None => Some (Ok (mkAnswer ENC_OK (Some text) (slen text) 0 SIZE_MAX None))
            end
        end
    end.

(** [handle] is the Bytes of append mode, [None] without the grow callback. *)
Definition enc_json_typed_encode (fuel : nat) (direct_disabled : bool) (string_len : option (Z -> Z)) (schema root mode : Z)
    (handle : option Bytes) (start_len : Z) : run encode_answer :=
  let append := mode =? WRITE_APPEND in
  let start_len := if append then start_len else 0 in
  let handle := if append then handle else None in
  if (root =? 0) || (schema =? 0) then refused ENC_ERR_INVALID WERR_INVALID SIZE_MAX handle
  else
    s ← must (im_schema m schema);
    match s_fields s, s_complex s, string_len with
    | Some _, Some _, Some string_len =>
        if append && bool_decide (handle = None) then refused ENC_ERR_INVALID WERR_INVALID SIZE_MAX handle
        else
          let compact := (mode =? WRITE_COMPACT) || append in
          eligible ← must (if negb direct_disabled && compact then direct_eligible m ELIGIBLE_FUEL schema else Some false);
          if eligible : bool then direct_encode string_len schema root s handle start_len
          else dom_encode fuel string_len schema root s mode handle start_len
    | _, _, _ => refused ENC_ERR_INVALID WERR_INVALID SIZE_MAX handle
    end.

End encode.
