(* ===== verification/JsonSim.v ===== *)
(** * JsonSim: the direct writer against the tree

    The compact text [jprint] of a tree, and the simulation: over the same
    schema and memory, the direct writer appends the compact text of the tree
    the DOM path builds, or refuses when there is none. *)

From S2P Require Import Prelude Digits Text TextProofs Str StrProofs Mem Bytes BytesProofs JsonScan.
From S2P Require Import JsonOut JsonText JsonEnc.

Open Scope c_scope.

(** ** A decoder of UTF-8 *)

(** The code point that [n] bytes would make. *)
Definition candidate (n : nat) (s : str) : Z :=
  let tail i := c_at s i - 0x80 in
  match n with
  | 1%nat => c_at s 0
  | 2%nat => (c_at s 0 - 0xC0) * 64 + tail 1%nat
  | 3%nat => ((c_at s 0 - 0xE0) * 64 + tail 1%nat) * 64 + tail 2%nat
  | _ => (((c_at s 0 - 0xF0) * 64 + tail 1%nat) * 64 + tail 2%nat) * 64 + tail 3%nat
  end.

(** The code point at the head: the one whose bytes are there. *)
Definition decode1 (s : str) : option Z :=
  snd <$> list_find (fun cp => scalar cp /\ utf8 cp `prefix_of` s) ((fun n => candidate n s) <$> [1; 2; 3; 4]%nat).

Fixpoint utf8_decode (fuel : nat) (s : str) : option (list Z) :=
  match fuel, s with
  | _, [] => Some []
  | O, _ => None
  | S fuel, _ =>
      cp ← decode1 s;
      cps ← utf8_decode fuel (drop (length (utf8 cp)) s);
      Some (cp :: cps)
  end.

Lemma candidate_utf8 cp s : scalar cp -> candidate (length (utf8 cp)) (utf8 cp ++ s) = cp.
Proof. unfold scalar, utf8. intros Hs. split_tests; bools; cbn; dlia. Qed.

Lemma utf8_length cp : (1 <= length (utf8 cp) <= 4)%nat.
Proof. unfold utf8. split_tests; cbn; lia. Qed.

Lemma decode1_ok s cp : decode1 s = Some cp -> scalar cp /\ exists rest, s = utf8 cp ++ rest.
Proof.
  unfold decode1. destruct (list_find _ _) as [[i x]|] eqn:He; cbn; [|done]. intros [= <-].
  apply list_find_Some in He as (_ & [Hs [rest ->]] & _). by split; [|exists rest].
Qed.

Lemma decode1_utf8 cp s : scalar cp -> decode1 (utf8 cp ++ s) = Some cp.
Proof.
  intros Hs. destruct (decode1 (utf8 cp ++ s)) as [x|] eqn:He.
  - apply decode1_ok in He as (Hx & rest & Hr). by apply utf8_prefix in Hr as [-> _].
  - exfalso. unfold decode1 in He. apply fmap_None, list_find_None in He. rewrite Forall_forall in He.
    apply (He cp).
    + apply list_elem_of_fmap. exists (length (utf8 cp)). split; [by rewrite candidate_utf8|].
      pose proof (utf8_length cp). rewrite !elem_of_cons. lia.
    + split; [done|by apply prefix_app_r].
Qed.

Lemma utf8_decode_ok fuel : forall s cps, (length s <= fuel)%nat ->
  utf8_decode fuel s = Some cps <-> Forall scalar cps /\ s = utf8s cps.
Proof.
  induction fuel as [|fuel IH]; intros s cps Hf.
  { destruct s; [|cbn in Hf; lia]. cbn. split; [intros [= <-]; split; [constructor|done]|].
    intros [Hs He]. destruct Hs as [|cp cps Hc Hs]; [done|]. change (utf8s (cp :: cps)) with (utf8 cp ++ utf8s cps) in He.
    symmetry in He. apply app_eq_nil in He as [He _]. by apply utf8_ne in He. }
  destruct s as [|c s].
  { cbn. split; [intros [= <-]; split; [constructor|done]|].
    intros [Hs He]. destruct Hs as [|cp cps Hc Hs]; [done|]. change (utf8s (cp :: cps)) with (utf8 cp ++ utf8s cps) in He.
    symmetry in He. apply app_eq_nil in He as [He _]. by apply utf8_ne in He. }
  cbn [utf8_decode]. split.
  - intros He. destruct (decode1 (c :: s)) as [cp|] eqn:Hd; cbn [mbind option_bind] in He; [|done].
    apply decode1_ok in Hd as (Hc & rest & Hr). rewrite Hr, drop_app_length in He.
    pose proof (utf8_length cp). assert (Hl : (length rest <= fuel)%nat).
    { apply (f_equal length) in Hr. rewrite length_app in Hr. cbn [length] in *. lia. }
    destruct (utf8_decode fuel rest) as [cps'|] eqn:Hd; cbn [mbind option_bind] in He; [|done]. simplify_eq.
    apply IH in Hd as [Hs ->]; [|done]. split; [by constructor|done].
  - intros [Hs He]. destruct Hs as [|cp cps Hc Hs]; [done|].
    change (utf8s (cp :: cps)) with (utf8 cp ++ utf8s cps) in He. rewrite He, decode1_utf8 by done.
    cbn [mbind option_bind]. rewrite drop_app_length. pose proof (utf8_length cp).
    rewrite (proj2 (IH (utf8s cps) cps ltac:(apply (f_equal length) in He; rewrite length_app in He; cbn [length] in *; lia))); done.
Qed.

(** ** The compact text of a tree *)

Definition jstring (s : str) : option str := jquote <$> utf8_decode (length s) s.

Definition jjoin (ts : list str) : str :=
  match ts with [] => [] | t :: ts => t ++ (ts ≫= cons 44) end.

Definition jtrue : str := lit "true".
Definition jfalse : str := lit "false".
Definition jnull : str := lit "null".

Section print.
(** The text of a real, from its bits: none for a NaN or an infinity. *)
Context (real_text : Z -> option str).

(** [None]: a string that is not UTF-8, or a real without text. *)
Fixpoint jprint (v : jval) : option str :=
  match v with
  | JNull => Some jnull
  | JBool b => Some (if b then jtrue else jfalse)
  | JUint n => Some (rt_utoa n)
  | JSint n => Some (rt_itoa n)
  | JReal bits => real_text bits
  | JStr s => jstring s
  | JArr vs => ts ← mapM jprint vs; Some (91 :: jjoin ts ++ [93])
  | JObj kvs =>
      ts ← mapM (fun kv => k ← jstring (fst kv); t ← jprint (snd kv); Some (k ++ 58 :: t)) kvs;
      Some (123 :: jjoin ts ++ [125])
  end.

Definition jmember (kv : str * jval) : option str :=
  k ← jstring (fst kv); t ← jprint (snd kv); Some (k ++ 58 :: t).
End print.

Lemma jstring_ok s t : jstring s = Some t <-> exists cps, Forall scalar cps /\ s = utf8s cps /\ t = jquote cps.
Proof.
  unfold jstring. split.
  - intros He. destruct (utf8_decode _ _) as [cps|] eqn:Hd; cbn in He; simplify_eq.
    apply utf8_decode_ok in Hd as [Hs Hu]; [|done]. by exists cps.
  - intros (cps & Hs & Hu & ->). by rewrite (proj2 (utf8_decode_ok _ s cps (le_n _)) (conj Hs Hu)).
Qed.

Lemma jstring_none s : jstring s = None <-> ~ valid_utf8 s.
Proof.
  split.
  - intros Hn (cps & Hs & Hu). assert (He : jstring s = Some (jquote cps)) by (apply jstring_ok; by exists cps). congruence.
  - intros Hn. destruct (jstring s) as [t|] eqn:He; [|done]. exfalso. apply Hn. apply jstring_ok in He as (cps & ? & ? & _).
    by exists cps.
Qed.

Lemma jstring_plain s : forallb plain_byte s = true -> jstring s = Some (34 :: s ++ [34]).
Proof.
  intros Hp. assert (Hf : Forall (fun c => plain_byte c = true) s).
  { apply Forall_forall. intros c Hc. apply (proj1 (forallb_forall _ _) Hp). by apply list_elem_of_In. }
  destruct (plain_texts s Hf) as (Hs & Hu & Hj). apply jstring_ok. exists s. split_and!; [done..|].
  unfold jquote. by rewrite Hj.
Qed.

(** ** What a writer answers for a tree

    [Some (Some t)]: the tree's text; [Some None]: a tree without text; [None]:
    no tree. *)

#[export] Instance ctx_out : OutOf BeansJsonDirectContext := c_out.

Section answers.
Context `{AllocLaws, CHeapLaws}.

Definition answers (p : writer BeansJsonDirectContext) (r : option (option str)) : Prop :=
  match r with
  | Some (Some t) => writes p 1 t
  | Some None => exists t, writes p (-1) t
  | None => exists w t, (w = -1 \/ w = -2) /\ writes p w t
  end.

Lemma answers_bad p r t : writes p (-1) t -> (forall x, r <> Some (Some x)) -> answers p r.
Proof. intros Hp Hr. destruct r as [[x|]|]; [by destruct (Hr x)|by exists t|exists (-1), t; auto]. Qed.

(** [a] in front of the text. *)
Definition lead (a : str) (r : option (option str)) : option (option str) :=
  match r with Some (Some t) => Some (Some (a ++ t)) | _ => r end.

Lemma answers_seq f g a r : writes f 1 a -> answers g r -> answers (f ;;! g) (lead a r).
Proof.
  intros Hf Hg. destruct r as [[t|]|]; cbn in *.
  - by apply writes_seq.
  - destruct Hg as [t Hg]. eexists. by apply writes_seq.
  - destruct Hg as (w & t & Hw & Hg). eexists w, _. split; [done|]. by apply writes_seq.
Qed.

(** The first of two failed; so does the whole, however the rest is built. *)
Lemma answers_stop f g r1 r : answers f r1 -> (forall x, r1 <> Some (Some x)) -> (forall x, r <> Some (Some x)) ->
  (r1 = None -> r = None) -> answers (f ;;! g) r.
Proof.
  intros Hf Hx Hr Hn. destruct r1 as [[t|]|]; cbn in Hf; [by destruct (Hx t)| |].
  - destruct Hf as [t Hf]. apply (answers_bad _ _ t); [|done]. by apply writes_stop.
  - rewrite Hn by done. destruct Hf as (w & t & Hw & Hf). exists w, t. split; [done|]. apply writes_stop; [lia|done].
Qed.

Lemma writes_on_out f w t : writes f w t -> writes (on_out f) w t.
Proof.
  intros Hf c O. specialize (Hf (c_out c) O). unfold on_out, out_of, direct_out, ctx_out in *.
  destruct (f (c_out c)) as [[[w' o']|m l k]|]; cbn [mbind run_bind got c_out]; done.
Qed.

Lemma writes_req7 i : writes (set_req7 i) 1 [].
Proof. intros c O. cbn. split_and!; [done|done|]. left. by rewrite app_nil_r. Qed.

Lemma writes_char_c c : is_u8 c -> writes (on_out (direct_char c)) 1 [c].
Proof. intros Hc. by apply writes_on_out, writes_char. Qed.

Lemma writes_raw_c t : bytes_ok t -> slen t < 2 ^ 63 -> writes (on_out (direct_raw t)) 1 t.
Proof. intros Hc Hl. by apply writes_on_out, writes_raw. Qed.

Lemma string_answers path s : bytes_ok s -> slen s < 2 ^ 63 -> answers (on_out (direct_string path s)) (Some (jstring s)).
Proof.
  intros Hb Hl. destruct (string_ok path s Hb Hl) as [(cps & Hs & He & Hw)|(Hn & t & _ & Hw)].
  - rewrite (proj2 (jstring_ok s (jquote cps))) by (by exists cps). cbn. by apply writes_on_out.
  - rewrite (proj2 (jstring_none s)) by done. cbn. exists t. by apply writes_on_out.
Qed.

End answers.

(** * The simulation of the tree by the direct writer

    Value by value, member by member, element by element: where the DOM path
    builds a tree, the direct writer answers with its compact text. *)

(** ** Schemas the compiler emits *)

(** A key is mapped, and the keys of a schema take less than 4 GiB. *)
Definition key_ok (m : image) (f : BeansJsonTypedField) : Prop :=
  0 <= f_primary_name_len f < 2 ^ 32 /\ rd m (f_primary_name f) (f_primary_name_len f) <> None.

Fixpoint keys_len (rows : list row) : Z :=
  match rows with [] => 0 | (_, f, _) :: rows => (if ignored f then 0 else f_primary_name_len f + 4) + keys_len rows end.

Record image_ok (m : image) : Prop := {
  im_u8 p b : im_byte m p = Some b -> is_u8 b;
  im_count p s : im_schema m p = Some s -> 0 <= s_field_count s;
  im_keys p s rows : im_schema m p = Some s -> schema_rows s = Some rows ->
    Forall (fun r : row => key_ok m (snd (fst r))) rows /\ keys_len rows < 2 ^ 32
}.

(** ** Reads *)

Section sim.
Context `{AllocLaws, CHeapLaws, Yyjson} (path : scan_path) (m : image) (string_len : Z -> Z) (real_text : Z -> option str).
Hypothesis Hm : image_ok m.
Hypothesis Hlen : forall p, is_i64 (string_len p).
Hypothesis Hroom : forall k, yy_room k = true.

Lemma rd_ok p n s : rd m p n = Some s -> bytes_ok s /\ slen s = Z.max 0 n.
Proof.
  unfold rd. intros Hr. apply mapM_Some in Hr. split.
  - apply Forall_forall. intros b Hb. apply list_elem_of_lookup in Hb as [i Hi].
    destruct (Forall2_lookup_r _ _ _ _ _ Hr Hi) as (a & _ & Ha). by apply (im_u8 m Hm a).
  - apply Forall2_length in Hr. unfold slen. rewrite <-Hr, length_seqZ. lia.
Qed.

Lemma rd_le_u64 p n v : 0 <= n <= 8 -> rd_le m p n = Some v -> 0 <= v < 2 ^ (8 * n).
Proof.
  unfold rd_le. intros Hn Hr. destruct (rd m p n) as [s|] eqn:He; cbn in Hr; simplify_eq.
  destruct (rd_ok p n s He) as [Hb Hl]. pose proof (le_range s Hb). rewrite Hl, Z.max_r in * by lia. done.
Qed.

Lemma read_integer_u64 value bits uns slot v : typed_read_integer m value bits uns slot = Some v -> is_u64 v.
Proof.
  unfold typed_read_integer. destruct slot; [apply (rd_le_u64 value 8); lia|].
  destruct (bool_decide_reflect (bits ∈ [8; 16; 32])) as [Hb|]; [|apply (rd_le_u64 value 8); lia].
  destruct (rd_le m value (bits / 8)) as [raw|] eqn:He; cbn [mbind option_bind]; [|done]. intros [= <-].
  rewrite !elem_of_cons in Hb. assert (Hr : 0 <= raw < 2 ^ bits /\ bits <= 32).
  { destruct Hb as [->|[->|[->|Hb]]]; [..|by apply not_elem_of_nil in Hb]; (split; [|lia]);
      apply rd_le_u64 in He; (done || (cbn; lia)). }
  assert (2 ^ bits <= 2 ^ 32) by (apply Z.pow_le_mono_r; lia).
  unfold is_u64. repeat case_match; [lia|lia|apply u64_is].
Qed.

(** ** Keys *)

Definition key_lead (skel : option BeansJsonSkel) (first : bool) : str :=
  if first then match skel with Some _ => [123] | None => [] end else [44].

(** The skeleton holds each key in its place. *)
Fixpoint skel_for (skel : BeansJsonSkel) (rows : list row) (first : bool) : Prop :=
  match rows with
  | [] => True
  | (index, f, _) :: rows =>
      if ignored f then skel_for skel rows first
      else (exists name, rd m (f_primary_name f) (f_primary_name_len f) = Some name /\ forallb plain_byte name = true /\
             skel_text skel index = Some (key_lead (Some skel) first ++ (34 :: name ++ [34]) ++ [58])) /\
           skel_for skel rows false
  end.

Definition skel_ok (skel : option BeansJsonSkel) (rows : list row) (first : bool) : Prop :=
  match skel with Some skel => skel_for skel rows first | None => True end.

Lemma writes_read {A} (r : option A) a (f : A -> writer BeansJsonDirectContext) w t :
  r = Some a -> writes (f a) w t -> writes (with_read r f) w t.
Proof. intros ->. done. Qed.

Lemma answers_read {A} (r : option A) a (f : A -> writer BeansJsonDirectContext) x :
  r = Some a -> answers (f a) x -> answers (with_read r f) x.
Proof. intros ->. done. Qed.

Lemma key_answers skel index f first name : key_ok m f -> rd m (f_primary_name f) (f_primary_name_len f) = Some name ->
  (forall sk, skel = Some sk -> forallb plain_byte name = true /\
     skel_text sk index = Some (key_lead (Some sk) first ++ (34 :: name ++ [34]) ++ [58])) ->
  answers (direct_key path m skel index f first)
    (Some (k ← jstring name; Some (key_lead skel first ++ k ++ [58]))).
Proof.
  intros [Hk _] Hr Hs. destruct (rd_ok _ _ _ Hr) as [Hb Hl]. unfold direct_key. destruct skel as [sk|].
  - destruct (Hs sk eq_refl) as [Hp Ht]. rewrite (jstring_plain name Hp). cbn [mbind option_bind answers].
    apply (writes_read _ _ _ _ _ Ht). apply writes_raw_c.
    + unfold key_lead. apply bytes_ok_app. split; [destruct first; (repeat constructor; unfold is_u8; lia)|].
      apply bytes_ok_app. split; [|repeat constructor; unfold is_u8; lia].
      constructor; [unfold is_u8; lia|]. apply bytes_ok_app. split; [done|repeat constructor; unfold is_u8; lia].
    + rewrite !slen_app, slen_cons, slen_app, Hl. change (slen [58]) with 1. change (slen [34]) with 1.
      assert (slen (key_lead (Some sk) first) = 1) by (destruct first; done). lia.
  - pose proof (string_answers path name Hb ltac:(lia)) as Hsa.
    assert (Hl1 : writes (if first then answer 1 else on_out (direct_char 44)) 1 (key_lead None first)).
    { destruct first; [apply writes_answer|apply writes_char_c; unfold is_u8; lia]. }
    destruct (jstring name) as [k|]; cbn [mbind option_bind answers] in *.
    + apply writes_seq; [done|]. apply writes_seq; [|apply writes_char_c; unfold is_u8; lia].
      by apply (writes_read _ _ _ _ _ Hr).
    + destruct Hsa as [t Hsa]. eexists. apply writes_seq; [done|]. apply writes_stop; [lia|].
      by apply (writes_read _ _ _ _ _ Hr).
Qed.

(** ** Members *)

Definition vals_sim (dv : vdesc -> Z -> bool -> writer BeansJsonDirectContext) (bv : vdesc -> Z -> bool -> builder jval)
    (d : vdesc) : Prop :=
  forall value slot c r c', bv d value slot c = Some (r, c') -> answers (dv d value slot) (jprint real_text <$> r).

(** What the members of a tree print as after [first]. *)
Definition members_text (skel : option BeansJsonSkel) (first : bool) (kvs : list (str * jval)) : option str :=
  ts ← mapM (jmember real_text) kvs;
  Some (match ts with [] => [] | _ => key_lead skel first ++ jjoin ts end).

Lemma node_some v c r c' : node v c = Some (r, c') -> r = Some v.
Proof. unfold node. rewrite Hroom. by intros [= <- _]. Qed.

Lemma member_sim dv bv record index f x skel first c r c' : key_ok m f -> vals_sim dv bv (field_desc f x) ->
  (forall sk, skel = Some sk -> skel_for sk [(index, f, x)] first) -> ignored f = false ->
  encode_member m bv record (index, f, x) c = Some (r, c') ->
  answers (set_req7 index ;;! with_read (field_place m record f x) (fun '(present, value) =>
      direct_key path m skel index f first ;;!
      (if present : bool then dv (field_desc f x) value false else on_out (direct_raw (lit "null")))))
    (kv ← r; Some (t ← jmember real_text kv; Some (key_lead skel first ++ t))).
Proof.
  intros Hk Hv Hsk Hig. unfold encode_member, read_build. cbv beta.
  destruct (field_place m record f x) as [[present value]|] eqn:Hp; [|done].
  destruct (if present then bv (field_desc f x) value false (mkEnc (e_nodes c) index) else node JNull (mkEnc (e_nodes c) index))
    as [[encoded c1]|] eqn:He; cbn [mbind option_bind]; [|done].
  destruct (rd m (f_primary_name f) (f_primary_name_len f)) as [name|] eqn:Hr; [|done].
  unfold node at 1. rewrite Hroom. cbn [mbind option_bind]. intros Hres.
  assert (Hval : answers (if present : bool then dv (field_desc f x) value false else on_out (direct_raw (lit "null")))
    (jprint real_text <$> encoded)).
  { destruct present; [by apply (Hv _ _ _ _ _ He)|]. apply node_some in He as ->.
    cbn. apply writes_raw_c; [repeat constructor; unfold is_u8; lia|done]. }
  assert (Hr2 : r = v ← encoded; Some (name, v)) by (destruct encoded; by simplify_eq). rewrite Hr2. clear Hres Hr2 r.
  pose proof (key_answers skel index f first name Hk Hr) as Hkey.
  specialize (Hkey ltac:(intros sk ->; specialize (Hsk sk eq_refl); cbn in Hsk; rewrite Hig in Hsk;
    destruct Hsk as [(name' & Hr' & ? & ?) _]; rewrite Hr in Hr'; simplify_eq; done)).
  assert (Hgo : forall y, answers (direct_key path m skel index f first ;;!
      (if present then dv (field_desc f x) value false else on_out (direct_raw (lit "null")))) y ->
    answers (set_req7 index ;;! with_read (Some (present, value)) (fun '(present, value) =>
      direct_key path m skel index f first ;;!
      (if present : bool then dv (field_desc f x) value false else on_out (direct_raw (lit "null"))))) y).
  { intros y Hy. pose proof (answers_seq (set_req7 index) _ [] y (writes_req7 index) Hy) as Ha.
    replace (lead [] y) with y in Ha by (by destruct y as [[?|]|]). exact Ha. }
  apply Hgo. clear Hgo. destruct (jstring name) as [k|] eqn:Hj; cbn [mbind option_bind] in Hkey.
  - pose proof (answers_seq _ _ _ _ Hkey Hval) as Ha. destruct encoded as [v|]; cbn [mbind option_bind fmap option_fmap option_map lead] in *; [|done].
    unfold jmember. cbn [fst snd]. rewrite Hj. cbn [mbind option_bind].
    destruct (jprint real_text v) as [t|]; cbn [lead mbind option_bind] in *; [|done].
    by replace (key_lead skel first ++ k ++ 58 :: t) with ((key_lead skel first ++ k ++ [58]) ++ t)
      by (by rewrite <-!app_assoc).
  - cbn [answers] in Hkey. destruct Hkey as [t Ht]. apply (answers_bad _ _ t); [by apply writes_stop|].
    destruct encoded; cbn [mbind option_bind]; [|done]. unfold jmember. cbn [fst snd]. by rewrite Hj.
Qed.

Lemma answers_ext p q r : (forall c, p c = q c) -> answers p r -> answers q r.
Proof.
  intros He. assert (Hw : forall w t, writes p w t -> writes q w t).
  { intros w t Hp c O. specialize (Hp c O). by rewrite He in Hp. }
  destruct r as [[t|]|]; cbn; [apply Hw|intros [t Hp]; eauto|intros (w & t & ? & Hp); eauto 6].
Qed.

Lemma then_assoc (f g h : writer BeansJsonDirectContext) c : ((f ;;! g) ;;! h) c = (f ;;! g ;;! h) c.
Proof.
  unfold then_write. destruct (f c) as [[[w c1]|? ? ?]|]; cbn [mbind run_bind]; [|done|done].
  destruct (w =? 1) eqn:Hw; [done|]. unfold got. cbn [mbind run_bind]. by rewrite Hw.
Qed.

Definition row_ok dv bv (r : row) : Prop :=
  let '(_, f, x) := r in ignored f = false -> key_ok m f /\ vals_sim dv bv (field_desc f x).

Lemma members_sim dv bv record skel rows : forall first c r c', Forall (row_ok dv bv) rows -> skel_ok skel rows first ->
  encode_members m bv rows record c = Some (r, c') ->
  answers (object_fields path m dv rows record skel first) (kvs ← r; Some (members_text skel first kvs)).
Proof.
  induction rows as [|[[index f] x] rows IH]; intros first c r c' Hrows Hsk; cbn [encode_members object_fields].
  { intros [= <- <-]. cbn. apply writes_answer. }
  inversion Hrows as [|? ? Hrow Hrows']; subst. cbn [fst snd]. change (has_flag (f_flags f) TYPED_IGNORED) with (ignored f).
  destruct (ignored f) eqn:Hig.
  { apply IH; [done|]. destruct skel; [|done]. cbn in Hsk. by rewrite Hig in Hsk. }
  destruct (Hrow Hig) as [Hk Hv]. unfold then_build at 1.
  destruct (encode_member m bv record (index, f, x) c) as [[r1 c1]|] eqn:Hem; [|done]. intros Hres.
  assert (Hs1 : forall sk, skel = Some sk -> skel_for sk [(index, f, x)] first).
  { intros sk ->. cbn in *. rewrite Hig in *. by destruct Hsk. }
  assert (Hs2 : skel_ok skel rows false) by (destruct skel; [|done]; cbn in *; rewrite Hig in Hsk; by destruct Hsk).
  pose proof (member_sim dv bv record index f x skel first c r1 c1 Hk Hv Hs1 Hig Hem) as Hm1.
  apply (answers_ext _ _ _ (then_assoc _ _ _)). destruct r1 as [kv|]; cbn [mbind option_bind] in Hm1.
  2:{ simplify_eq. by apply (answers_stop _ _ None). }
  unfold then_build in Hres. destruct (encode_members m bv rows record c1) as [[r2 c2]|] eqn:Her; [|done].
  specialize (IH false c1 r2 c2 Hrows' Hs2 Her).
  assert (Hr : r = kvs ← r2; Some (kv :: kvs)) by (destruct r2; by simplify_eq). rewrite Hr. clear Hr Hres.
  destruct (jmember real_text kv) as [t|] eqn:Hj; cbn [mbind option_bind] in Hm1.
  - pose proof (answers_seq _ _ _ _ Hm1 IH) as Ha. destruct r2 as [kvs|]; cbn [mbind option_bind lead] in *; [|done].
    unfold members_text in *. cbn [mapM]. rewrite Hj. cbn [mbind option_bind mret option_ret].
    destruct (mapM (jmember real_text) kvs) as [ts|]; cbn [mbind option_bind mret option_ret lead] in *; [|done].
    replace (key_lead skel first ++ jjoin (t :: ts)) with
      ((key_lead skel first ++ t) ++ match ts with [] => [] | _ => key_lead skel false ++ jjoin ts end); [done|].
    cbn [jjoin]. rewrite <-app_assoc. do 2 f_equal. by destruct ts.
  - apply (answers_stop _ _ (Some None)); [done|done| |done]. destruct r2; cbn [mbind option_bind]; [|done].
    unfold members_text. cbn [mapM]. by rewrite Hj.
Qed.

Lemma members_nonempty bv rows record : forall c kvs c', 0 < keys_len rows ->
  encode_members m bv rows record c = Some (Some kvs, c') -> kvs <> [].
Proof.
  induction rows as [|[[index f] x] rows IH]; intros c kvs c' Hl; cbn [keys_len encode_members fst snd] in *; [lia|].
  change (has_flag (f_flags f) TYPED_IGNORED) with (ignored f). destruct (ignored f); [apply IH; lia|].
  unfold then_build. destruct (encode_member _ _ _ _ _) as [[[kv|] c1]|]; [|done|done].
  destruct (encode_members _ _ _ _ _) as [[[kvs'|] c2]|]; [|done|done]. intros He. by simplify_eq.
Qed.

Lemma object_sim dv bv schema s rows record skel c r c' :
  im_schema m schema = Some s -> schema_rows s = Some rows -> Forall (row_ok dv bv) rows -> skel_ok skel rows true ->
  (skel <> None -> 0 < keys_len rows) ->
  typed_encode_object m bv schema record c = Some (r, c') ->
  answers (direct_object path m dv schema record skel) (jprint real_text <$> r).
Proof.
  intros Hs Hr Hrows Hsk Hne. unfold typed_encode_object, then_build, read_build, node, direct_object. rewrite Hroom, Hs.
  cbn [mbind option_bind]. rewrite Hr. unfold with_read.
  destruct (encode_members m bv rows record _) as [[r1 c1]|] eqn:He; [|done]. intros Hres.
  pose proof (members_sim dv bv record skel rows true _ _ _ Hrows Hsk He) as Hmem.
  assert (Hopen : writes (match skel with Some _ => answer 1 | None => on_out (direct_char 123) end) 1
    (match skel with Some _ => [] | None => [123] end)).
  { destruct skel; [apply writes_answer|apply writes_char_c; unfold is_u8; lia]. }
  assert (Hclose : writes (on_out (direct_char 125)) 1 [125]) by (apply writes_char_c; unfold is_u8; lia).
  destruct r1 as [kvs|]; simplify_eq; cbn [mbind option_bind fmap option_fmap option_map] in *.
  2:{ destruct Hmem as (w & t & Hw & Hmem). eexists w, _. split; [done|]. apply writes_seq; [exact Hopen|].
      apply writes_stop; [lia|exact Hmem]. }
  unfold members_text in Hmem. cbn [jprint]. change (mapM (fun kv => k ← jstring kv.1; t ← jprint real_text kv.2; Some (k ++ 58 :: t)) kvs)
    with (mapM (jmember real_text) kvs).
  destruct (mapM (jmember real_text) kvs) as [ts|] eqn:Hts; cbn [mbind option_bind answers] in *.
  - assert (Hte : skel <> None -> ts <> []).
    { intros Hsome ->. specialize (Hne Hsome). apply (members_nonempty bv rows record _ kvs _ Hne) in He.
      apply mapM_Some, Forall2_length in Hts. destruct kvs; [done|done]. }
    pose proof (writes_seq _ _ _ _ _ Hopen (writes_seq _ _ _ _ _ Hmem Hclose)) as Hall.
    match type of Hall with writes _ _ ?t => replace (123 :: jjoin ts ++ [125]) with t; [exact Hall|] end.
    unfold key_lead. destruct ts as [|t ts], skel; try done. by destruct (Hte ltac:(done)).
  - destruct Hmem as [t Hmem]. eexists. apply writes_seq; [exact Hopen|]. apply writes_stop; [lia|exact Hmem].
Qed.

(** ** Elements *)

Lemma items_sim (write : Z -> writer BeansJsonDirectContext) (build : Z -> builder jval) stride n :
  (forall item c r c', build item c = Some (r, c') -> answers (write item) (jprint real_text <$> r)) ->
  forall first item c r c', encode_items n stride item build c = Some (r, c') ->
  answers (list_items n stride first item write)
    (vs ← r; Some (ts ← mapM (jprint real_text) vs; Some (if first : bool then jjoin ts else ts ≫= cons 44))).
Proof.
  intros Hb. induction n as [|n IH]; intros first item c r c'; cbn [encode_items list_items].
  { intros [= <- <-]. cbn. destruct first; apply writes_answer. }
  unfold then_build at 1. destruct (build item c) as [[r1 c1]|] eqn:He; [|done]. intros Hres.
  specialize (Hb item c r1 c1 He).
  assert (Hsep : writes (if first then answer 1 else on_out (direct_char 44)) 1 (if first then [] else [44])).
  { destruct first; [apply writes_answer|apply writes_char_c; unfold is_u8; lia]. }
  assert (Hgo : forall y, answers (write item ;;! list_items n stride false (item + stride) write) y ->
    answers ((if first then answer 1 else on_out (direct_char 44)) ;;! write item ;;! list_items n stride false (item + stride) write)
      (lead (if first then [] else [44]) y)) by (intros y; by apply answers_seq).
  destruct r1 as [v|]; cbn [fmap option_fmap option_map] in Hb.
  2:{ simplify_eq. apply (Hgo None). by apply (answers_stop _ _ None). }
  unfold then_build in Hres. destruct (encode_items n stride (item + stride) build c1) as [[r2 c2]|] eqn:Her; [|done].
  specialize (IH false (item + stride) c1 r2 c2 Her).
  assert (Hr : r = vs ← r2; Some (v :: vs)) by (destruct r2; by simplify_eq). rewrite Hr. clear Hr Hres.
  destruct (jprint real_text v) as [t|] eqn:Hj.
  - pose proof (Hgo _ (answers_seq _ _ _ _ Hb IH)) as Ha. destruct r2 as [vs|]; cbn [mbind option_bind lead] in *; [|done].
    cbn [mapM]. rewrite Hj. cbn [mbind option_bind mret option_ret].
    destruct (mapM (jprint real_text) vs) as [ts|]; cbn [mbind option_bind mret option_ret lead] in *; [|done].
    by destruct first.
  - assert (Hst : answers (write item ;;! list_items n stride false (item + stride) write) (Some None))
      by (by apply (answers_stop _ _ (Some None))).
    apply Hgo in Hst. cbn [lead answers] in Hst. destruct Hst as [t Hst]. apply (answers_bad _ _ t); [done|].
    destruct r2; cbn [mbind option_bind]; [|done]. cbn [mapM]. by rewrite Hj.
Qed.

(** ** The skeleton *)

Definition row_index (r : row) : nat := Z.to_nat (fst (fst r)).

Lemma zip_index n : forall k (fs : list BeansJsonTypedField) (cs : list (option BeansJsonTypedComplex)),
  length fs = n -> length cs = n -> row_index <$> zip (zip (Z.of_nat <$> seq k n) fs) cs = seq k n.
Proof.
  induction n as [|n IH]; intros k [|f fs] [|c cs] Hf Hc; try done. cbn [seq fmap list_fmap zip_with].
  unfold row_index at 1. cbn [fst]. rewrite Nat2Z.id. f_equal. injection Hf as Hf. injection Hc as Hc. by apply IH.
Qed.

Lemma rows_index s rows : schema_rows s = Some rows -> row_index <$> rows = seq 0 (length rows) /\
  Z.of_nat (length rows) <= Z.max 0 (s_field_count s).
Proof.
  unfold schema_rows. destruct (s_field_count s =? 0); [intros [= <-]; split; [done|cbn; lia]|].
  set (n := Z.to_nat (s_field_count s)). destruct (s_fields s) as [fs|]; cbn [mbind option_bind]; [|done].
  destruct (Nat.leb_spec n (length fs)); [|done].
  assert (Hgen : forall (cs : list (option BeansJsonTypedComplex)), length cs = n ->
    let rows := zip (zip (Z.of_nat <$> seq 0 n) (take n fs)) cs in
    row_index <$> rows = seq 0 (length rows) /\ Z.of_nat (length rows) <= Z.max 0 (s_field_count s)).
  { intros cs Hc rs. assert (Hl : length rs = n).
    { unfold rs. rewrite !length_zip_with_l_eq; [by rewrite length_fmap, length_seq| |];
        rewrite ?length_zip_with_l_eq; rewrite ?length_fmap, ?length_seq, ?length_take; lia. }
    rewrite Hl. split; [|lia]. apply zip_index; [rewrite length_take; lia|done]. }
  destruct (s_complex s) as [cs|]; [|intros [= <-]; apply (Hgen (replicate n None)); by rewrite length_replicate].
  destruct (Nat.leb_spec n (length cs)); [|done]. intros [= <-]. apply (Hgen (Some <$> take n cs)).
  rewrite length_fmap, length_take. lia.
Qed.

Lemma keys_len_nonneg rows : Forall (fun r : row => key_ok m (snd (fst r))) rows -> 0 <= keys_len rows.
Proof.
  induction 1 as [|[[i f] x] rows [Hk _] _ IH]; cbn [keys_len fst snd] in *; [lia|]. destruct (ignored f); lia.
Qed.

(** The first loop: every key is plain and the total is theirs, or it gives up. *)
Lemma skel_total_ok rows : Forall (fun r : row => key_ok m (snd (fst r))) rows -> forall total,
  0 <= total -> total + keys_len rows < 2 ^ 64 ->
  skel_total m rows total = Some None \/
  (skel_total m rows total = Some (Some (total + keys_len rows)) /\
   Forall (fun r : row => ignored (snd (fst r)) = false -> exists name,
     rd m (f_primary_name (snd (fst r))) (f_primary_name_len (snd (fst r))) = Some name /\ forallb plain_byte name = true) rows).
Proof.
  induction 1 as [|[[i f] x] rows [Hk Hr] Hks IH]; intros total Ht Hb; cbn [skel_total keys_len fst snd] in *.
  { right. rewrite Z.add_0_r. done. }
  pose proof (keys_len_nonneg rows Hks). destruct (ignored f) eqn:Hig.
  - destruct (IH total Ht ltac:(lia)) as [->|[-> Hf]]; [by left|right]. split; [do 2 f_equal; lia|]. constructor; [|done].
    cbn. by rewrite Hig.
  - destruct (rd m _ _) as [name|] eqn:Hn; [|done]. cbn [mbind option_bind]. destruct (forallb plain_byte name) eqn:Hp; [|by left].
    rewrite (u64_small (f_primary_name_len f + 4)), u64_small by (unfold is_u64; lia).
    destruct (IH (total + (f_primary_name_len f + 4)) ltac:(lia) ltac:(lia)) as [->|[-> Hf]]; [by left|right].
    split; [do 2 f_equal; lia|]. constructor; [|done]. intros _. by exists name.
Qed.

Lemma skel_fill_ok count rows : forall first pos skel,
  Forall (fun r : row => key_ok m (snd (fst r))) rows ->
  Forall (fun r : row => ignored (snd (fst r)) = false -> exists name,
    rd m (f_primary_name (snd (fst r))) (f_primary_name_len (snd (fst r))) = Some name /\ forallb plain_byte name = true) rows ->
  NoDup (row_index <$> rows) -> Forall (fun r => (row_index r < count)%nat) rows ->
  length (sk_off skel) = count -> length (sk_len skel) = count -> 0 <= pos -> pos + keys_len rows < 2 ^ 32 ->
  pos + keys_len rows <= slen (sk_bytes skel) ->
  exists skel', skel_fill m rows first pos skel = Some skel' /\ skel_for skel' rows first /\
    slen (sk_bytes skel') = slen (sk_bytes skel) /\ sub_str (sk_bytes skel') 0 pos = sub_str (sk_bytes skel) 0 pos /\
    (forall i, i ∉ row_index <$> rows -> sk_off skel' !! i = sk_off skel !! i /\ sk_len skel' !! i = sk_len skel !! i).
Proof.
  induction rows as [|[[index f] x] rows IH]; intros first pos skel Hk Hp Hnd Hix Ho Hl Hpos Hb Hroom'; cbn [skel_fill].
  { by exists skel. }
  inversion Hk as [|? ? [Hkl _] Hk']; subst. inversion Hp as [|? ? Hpl Hp']; subst. cbn [fmap list_fmap] in Hnd.
  inversion Hnd as [|? ? Hni Hnd']; subst. inversion Hix as [|? ? Hi Hix']; subst. cbn [keys_len fst snd skel_for] in *.
  pose proof (keys_len_nonneg rows Hk'). destruct (ignored f) eqn:Hig.
  { destruct (IH first pos skel) as (sk & -> & ? & ? & ? & Hrest); [done..|lia|lia|].
    exists sk. split_and!; [done..|]. intros i Hnot. apply Hrest. intros Hin. apply Hnot. cbn. by right. }
  destruct (Hpl eq_refl) as (name & Hn & Hpn). rewrite Hn. cbn [mbind option_bind].
  destruct (rd_ok _ _ _ Hn) as [_ Hnl]. set (text := [if first then 123 else 44; 34] ++ name ++ [34; 58]).
  assert (Htl : slen text = f_primary_name_len f + 4).
  { unfold text. rewrite !slen_app, Hnl. change (slen [34; 58]) with 2. change (slen [if first then 123 else 44; 34]) with 2. lia. }
  rewrite poke_ok by lia. cbn [mbind option_bind]. set (bytes := mem_set (sk_bytes skel) pos text).
  assert (Hbl : slen bytes = slen (sk_bytes skel)) by (unfold bytes; rewrite mem_set_len; lia).
  set (skel1 := mkSkel bytes _ _).
  destruct (IH false (pos + slen text) skel1) as (sk & -> & Hfor & Hlen' & Hpre & Hrest);
    [done..|cbn; by rewrite length_insert|cbn; by rewrite length_insert|lia|lia|cbn [sk_bytes skel1]; lia|].
  cbn [sk_bytes sk_off sk_len skel1] in *. exists sk.
  assert (Hsplit : sub_str bytes 0 (pos + slen text) = sub_str (sk_bytes skel) 0 pos ++ text).
  { destruct (mem_split (sk_bytes skel) pos) as (a & b & Hab & Ha); [lia|].
    destruct (mem_split b (slen text)) as (b1 & b2 & -> & Hb1); [rewrite Hab, slen_app in Hroom'; lia|].
    unfold bytes. rewrite Hab, <-Ha, mem_set_at, <-slen_app, app_assoc, !sub_str_at0 by done. done. }
  destruct (Hrest (row_index (index, f, x)) Hni) as [Hoff Hln]. unfold row_index in Hoff, Hln, Hi. cbn [fst] in Hoff, Hln, Hi.
  rewrite list_lookup_insert_eq in Hoff, Hln by lia. split_and!.
  - done.
  - exists name. split_and!; [done|done|]. unfold skel_text. rewrite Hoff, Hln. cbn [mbind option_bind].
    unfold u32. rewrite !Z.mod_small by lia. rewrite (proj2 (Z.leb_le _ _)) by lia. f_equal.
    transitivity text.
    + transitivity (sub_str (sub_str (sk_bytes sk) 0 (pos + slen text)) pos (slen text));
        [by rewrite sub_str_sub by lia|]. rewrite Hpre, Hsplit.
      assert (Hpl2 : slen (sub_str (sk_bytes skel) 0 pos) = pos) by (apply sub_str_len; lia).
      rewrite <-Hpl2 at 2. rewrite <-(app_nil_r text) at 1. by rewrite sub_str_at.
    + unfold text, key_lead. destruct first; cbn [app]; by rewrite <-!app_assoc.
  - done.
  - lia.
  - assert (Hs0 : forall z, slen z = slen (sk_bytes skel) -> sub_str (sub_str z 0 (pos + slen text)) 0 pos = sub_str z 0 pos).
    { intros z Hz. rewrite sub_str_sub by lia. done. }
    rewrite <-(Hs0 (sk_bytes sk)), Hpre, Hs0 by lia. unfold bytes.
    destruct (mem_split (sk_bytes skel) pos) as (a & b & Hab & Ha); [lia|].
    destruct (mem_split b (slen text)) as (b1 & b2 & -> & Hb1); [rewrite Hab, slen_app in Hroom'; lia|].
    by rewrite Hab, <-Ha, mem_set_at, !sub_str_at0 by done.
  - intros i Hnot. destruct (Hrest i) as [-> ->]; [intros Hin; apply Hnot; by right|].
    rewrite !list_lookup_insert_ne; [done|..]; intros <-; apply Hnot; by left.
Qed.

Lemma skel_build_ok s rows : schema_rows s = Some rows -> 0 <= s_field_count s ->
  Forall (fun r : row => key_ok m (snd (fst r))) rows -> keys_len rows < 2 ^ 32 ->
  exists skel, skel_build m s = Some skel /\ skel_ok skel rows true /\ (skel <> None -> 0 < keys_len rows).
Proof.
  intros Hr Hc Hk Hb. unfold skel_build. assert (Hno : exists skel, Some None = Some skel /\ skel_ok skel rows true /\
    (skel <> None -> 0 < keys_len rows)) by (by exists None).
  destruct (s_fields s); [|done]. destruct (s_field_count s =? 0); [done|]. rewrite Hr. cbn [mbind option_bind].
  destruct (skel_total_ok rows Hk 0) as [->|[-> Hp]]; [lia|lia|done|]. cbn [mbind option_bind]. rewrite Z.add_0_l.
  pose proof (keys_len_nonneg rows Hk). destruct (Z.eqb_spec (keys_len rows) 0); [done|].
  destruct (c_malloc (keys_len rows)) as [bytes|] eqn:Hma; [|done]. destruct (c_calloc _ _); [|done].
  apply c_malloc_len in Hma; [|lia]. destruct (rows_index s rows Hr) as [Hix Hcount].
  destruct (skel_fill_ok (Z.to_nat (s_field_count s)) rows true 0
    (mkSkel bytes (replicate (Z.to_nat (s_field_count s)) 0) (replicate (Z.to_nat (s_field_count s)) 0)))
    as (sk & -> & Hfor & _); cbn [sk_off sk_len sk_bytes]; try done; try (by rewrite length_replicate); try lia.
  - rewrite Hix. apply NoDup_seq.
  - apply Forall_forall. intros r Hin. assert (Hin2 : row_index r ∈ row_index <$> rows) by (apply list_elem_of_fmap; by exists r).
    rewrite Hix, elem_of_seq in Hin2. lia.
  - exists (Some sk). split_and!; [done|done|intros _; lia].
Qed.

(** ** Eligible schemas *)

Definition elig_desc (n : nat) (d : vdesc) : Prop :=
  v_kind d <> TYPED_F32 /\ v_kind d <> TYPED_F64 /\
  (v_kind d = TYPED_STRUCT -> direct_eligible m n (v_child_schema d) = Some true) /\
  (v_kind d = TYPED_LIST -> v_element_kind d <> TYPED_F32 /\ v_element_kind d <> TYPED_F64 /\ v_element_kind d <> TYPED_LIST /\
     (v_element_kind d = TYPED_STRUCT -> direct_eligible m n (v_element_schema d) = Some true)).

Lemma eligible_rows n schema : direct_eligible m n schema = Some true ->
  exists n' s rows, n = S n' /\ im_schema m schema = Some s /\ schema_rows s = Some rows /\ schema <> 0 /\ s_fields s <> None /\
    Forall (fun '(_, f, x) => ignored f = false -> elig_desc n' (field_desc f x)) rows.
Proof.
  destruct n as [|n]; cbn [direct_eligible].
  { destruct (schema =? 0); [done|]. destruct (im_schema m schema) as [s|]; cbn [mbind option_bind]; [|done].
    by destruct (s_fields s). }
  destruct (Z.eqb_spec schema 0); [done|]. destruct (im_schema m schema) as [s|] eqn:Hs; cbn [mbind option_bind]; [|done].
  destruct (s_fields s) eqn:Hfs; [|done]. destruct (schema_rows s) as [rows|] eqn:Hr; cbn [mbind option_bind]; [|done].
  intros He. exists n, s, rows. split_and!; [done..|by rewrite Hfs|]. clear Hr. induction rows as [|[[i f] x] rows IH]; [constructor|].
  destruct (ignored f) eqn:Hig; [constructor; [congruence|by apply IH]|].
  destruct ((f_kind f =? TYPED_F32) || (f_kind f =? TYPED_F64)) eqn:Hk; [done|]. apply orb_false_iff in Hk as [Hk1 Hk2].
  apply Z.eqb_neq in Hk1, Hk2.
  destruct (if f_kind f =? TYPED_STRUCT then _ else _) as [[|]|] eqn:Hch; cbn [mbind option_bind negb] in He; [|done|done].
  destruct (if f_kind f =? TYPED_LIST then _ else _) as [[|]|] eqn:Hel; cbn [mbind option_bind negb] in He; [|done|done].
  constructor; [|by apply IH]. intros _. destruct x as [x|]; unfold elig_desc, field_desc; cbn -[direct_eligible TYPED_LIST TYPED_STRUCT TYPED_F32 TYPED_F64] in *.
  - split_and!; [done|done|intros Hst; rewrite Hst in Hch; done|]. intros Hli. rewrite Hli, Z.eqb_refl in Hel.
    destruct ((x_element_kind x =? TYPED_F32) || _ || _) eqn:Hn; [done|].
    apply orb_false_iff in Hn as [Hn Hn3]. apply orb_false_iff in Hn as [Hn1 Hn2]. apply Z.eqb_neq in Hn1, Hn2, Hn3.
    split_and!; [done..|]. intros Hst. by rewrite Hst in Hel.
  - split_and!; [done|done|intros Hst; by rewrite Hst in Hch|intros Hli; by rewrite Hli in Hel].
Qed.

Definition level_sim (n f fd : nat) : Prop :=
  forall d, elig_desc n d -> vals_sim (direct_value path m string_len f) (typed_encode_value m string_len fd) d.

Lemma eligible_object n schema record (skel : option BeansJsonSkel) f fd c r c' :
  (forall n', n = S n' -> level_sim n' f fd) -> direct_eligible m n schema = Some true ->
  (skel = None \/ exists s, im_schema m schema = Some s /\ skel_build m s = Some skel) ->
  typed_encode_object m (typed_encode_value m string_len fd) schema record c = Some (r, c') ->
  answers (direct_object path m (direct_value path m string_len f) schema record skel) (jprint real_text <$> r).
Proof.
  intros Hl He Hsk Hb. apply eligible_rows in He as (n' & s & rows & -> & Hs & Hr & Hne & _ & Hel).
  destruct (im_keys m Hm schema s rows Hs Hr) as [Hk Htot].
  assert (Hsk2 : skel_ok skel rows true /\ (skel <> None -> 0 < keys_len rows)).
  { destruct Hsk as [->|(s' & Hs' & Hsk)]; [done|]. rewrite Hs in Hs'. simplify_eq.
    destruct (skel_build_ok s' rows Hr (im_count m Hm _ _ Hs) Hk Htot) as (sk & Hsb & ? & ?).
    rewrite Hsb in Hsk. by simplify_eq. }
  destruct Hsk2 as [Hsk1 Hsk2]. apply (object_sim _ (typed_encode_value m string_len fd) schema s rows record skel c r c' Hs Hr); [|done|done|done].
  apply Forall_forall. intros [[i f'] x] Hin. unfold row_ok. intros Hig. split.
  - rewrite Forall_forall in Hk. exact (Hk _ Hin).
  - rewrite Forall_forall in Hel. apply (Hl n' eq_refl). exact (Hel _ Hin Hig).
Qed.

(** ** Values *)

Lemma node_build v c r c' : node v c = Some (r, c') -> jprint real_text <$> r = Some (jprint real_text v).
Proof. intros Hn. by apply node_some in Hn as ->. Qed.

Lemma refuse_answers : answers (answer (-2)) None.
Proof. exists (-2), []. split; [by right|]. apply writes_answer. Qed.

(** A value that is not a list, whose struct is simulated. *)
Lemma plain_value_sim n f fd d : elig_desc n d -> v_kind d <> TYPED_LIST -> (forall n' fd', n = S n' -> level_sim n' f fd') ->
  vals_sim (direct_value path m string_len (S f)) (typed_encode_value m string_len fd) d.
Proof.
  intros (Hf32 & Hf64 & Hst & _) Hnl Hl value slot c r c'. destruct fd as [|fd]; [done|].
  cbn [direct_value typed_encode_value]. rewrite (proj2 (Z.eqb_neq _ _) Hf32), (proj2 (Z.eqb_neq _ _) Hf64), (proj2 (Z.eqb_neq _ _) Hnl).
  unfold read_build. destruct (Z.eqb_spec (v_kind d) TYPED_BOOL).
  { destruct (rd_le m value _) as [b|]; [|done]. intros Hn. rewrite (node_build _ _ _ _ Hn). cbn [jprint]. apply (answers_read _ _ _ _ eq_refl).
    destruct (b =? 0); cbn [negb answers]; (apply writes_raw_c; [repeat constructor; unfold is_u8; lia|done]). }
  destruct ((v_kind d =? TYPED_SINT) || (v_kind d =? TYPED_UINT)) eqn:Hint.
  { destruct (typed_read_integer _ _ _ _ _) as [v|] eqn:Hv; [|done]. apply read_integer_u64 in Hv.
    intros Hn. rewrite (node_build _ _ _ _ Hn). apply (answers_read _ _ _ _ eq_refl).
    destruct (v_kind d =? TYPED_UINT); cbn [jprint answers]; apply writes_on_out.
    - apply writes_uint; [done|by apply rt_utoa_text].
    - apply writes_sint; [apply i64_is|apply rt_itoa_text, i64_is]. }
  destruct (Z.eqb_spec (v_kind d) TYPED_STRING).
  { destruct (rd_le m value 8) as [p|]; [|done]. intros Hn. apply (answers_read _ _ _ _ eq_refl). revert Hn.
    destruct (p =? 0); [intros [= <- _]; apply refuse_answers|].
    destruct (Z.ltb_spec (string_len p) 0); [intros [= <- _]; apply refuse_answers|].
    destruct (rd m p (string_len p)) as [s|] eqn:Hs; [|done]. intros Hn. rewrite (node_build _ _ _ _ Hn).
    destruct (rd_ok _ _ _ Hs) as [Hb Hsl]. pose proof (Hlen p) as Hi. unfold is_i64 in Hi.
    apply (answers_read _ _ _ _ eq_refl). apply string_answers; [done|lia]. }
  destruct (Z.eqb_spec (v_kind d) TYPED_STRUCT) as [Hk|]; cbn [andb]; [|intros [= <- _]; apply refuse_answers].
  destruct (v_child_schema d =? 0); cbn [negb]; [intros [= <- _]; apply refuse_answers|].
  intros Hb. apply (eligible_object n _ _ None f fd c r c'); [by intros n' ->; apply Hl|by apply Hst|by left|done].
Qed.

(** A list of values that are not lists, by its pointer. *)
Lemma list_sim n f fd d ptr c r c' :
  v_element_kind d <> TYPED_F32 -> v_element_kind d <> TYPED_F64 -> v_element_kind d <> TYPED_LIST ->
  (v_element_kind d = TYPED_STRUCT -> direct_eligible m n (v_element_schema d) = Some true) ->
  (forall n' fd', n = S n' -> level_sim n' f fd') -> (forall n' fd', n = S n' -> level_sim n' (S f) fd') ->
  typed_encode_list m (typed_encode_value m string_len fd) (v_element_kind d) (v_element_schema d) (v_element_size d) ptr c = Some (r, c') ->
  answers (direct_list path m (direct_value path m string_len (S f)) d ptr) (jprint real_text <$> r).
Proof.
  intros Hk1 Hk2 Hk3 Hst Hl Hl2. unfold typed_encode_list, direct_list, read_build. destruct ptr as [p|]; [|done]. intros Hres. apply (answers_read _ _ _ _ eq_refl). revert Hres.
  destruct ((p =? 0) || (v_element_size d =? 0)); [intros [= <- _]; apply refuse_answers|].
  destruct (rd_prefix m p) as [l|]; [|done]. intros Hres. apply (answers_read _ _ _ _ eq_refl). revert Hres. unfold then_build at 1, node at 1. rewrite Hroom. unfold then_build.
  set (ed := element_desc (v_element_kind d) (v_element_schema d) (v_element_size d)).
  assert (Hed : elig_desc n ed).
  { unfold elig_desc, ed, element_desc. cbn [v_kind v_child_schema v_element_kind v_element_schema].
    split_and!; [done|done|done|intros He; by destruct (Hk3 He)]. }
  destruct (encode_items _ _ _ _ _) as [[r1 c1]|] eqn:Hit; [|done]. intros Hres.
  set (skr := if (v_element_kind d =? TYPED_STRUCT) && negb (v_element_schema d =? 0) && (1 <? lp_len l)
    then im_schema m (v_element_schema d) ≫= skel_build m else Some None).
  assert (Hskr : exists skel, skr = Some skel /\ (skel = None \/ (v_element_kind d = TYPED_STRUCT /\ v_element_schema d <> 0 /\
    exists s, im_schema m (v_element_schema d) = Some s /\ skel_build m s = Some skel))).
  { unfold skr. destruct (Z.eqb_spec (v_element_kind d) TYPED_STRUCT) as [Hks|]; cbn [andb]; [|by exists None; split; [|left]].
    destruct (Z.eqb_spec (v_element_schema d) 0); cbn [andb negb]; [by exists None; split; [|left]|].
    destruct (1 <? lp_len l); [|by exists None; split; [|left]].
    destruct (eligible_rows n _ (Hst Hks)) as (n' & s & rows & _ & Hs & Hr & _). rewrite Hs. cbn [mbind option_bind].
    destruct (im_keys m Hm _ s rows Hs Hr) as [Hk Htot].
    destruct (skel_build_ok s rows Hr (im_count m Hm _ _ Hs) Hk Htot) as (sk & Hsb & _). exists sk. split; [done|right].
    split_and!; [done..|]. by exists s. }
  destruct Hskr as (skel & Hskr & Hsk).
  pose proof (items_sim (fun item => match skel with
      | Some skel => direct_object path m (direct_value path m string_len (S f)) (v_element_schema d) item (Some skel)
      | None => direct_value path m string_len (S f) ed item (lp_stride l <? 0) end)
    (fun item => typed_encode_value m string_len fd ed item (lp_stride l <? 0)) (typed_list_stride l) (Z.to_nat (lp_len l))) as Hi.
  assert (Hitem : forall item c r c', typed_encode_value m string_len fd ed item (lp_stride l <? 0) c = Some (r, c') ->
    answers (match skel with
      | Some skel => direct_object path m (direct_value path m string_len (S f)) (v_element_schema d) item (Some skel)
      | None => direct_value path m string_len (S f) ed item (lp_stride l <? 0) end) (jprint real_text <$> r)).
  { intros item k rk k' Hb. destruct skel as [sk|].
    - destruct Hsk as [|(Hks & Hne & s & Hs & Hsb)]; [done|]. destruct fd as [|fd]; [done|]. cbn [typed_encode_value] in Hb.
      change (v_kind ed) with (v_element_kind d) in Hb. change (v_child_schema ed) with (v_element_schema d) in Hb.
      rewrite Hks, (proj2 (Z.eqb_neq _ _) Hne) in Hb. change (TYPED_STRUCT =? TYPED_BOOL) with false in Hb.
      cbn -[typed_encode_object typed_encode_value] in Hb.
      apply (eligible_object n _ _ (Some sk) (S f) fd k rk k'); [by intros n' ->; apply Hl2|by apply Hst|right; by exists s|done].
    - apply (plain_value_sim n f fd ed Hed ltac:(by intros He; destruct (Hk3 He)) Hl item (lp_stride l <? 0) k rk k' Hb). }
  specialize (Hi Hitem true _ _ _ _ Hit).
  assert (Hopen : writes (on_out (direct_char 91)) 1 [91]) by (apply writes_char_c; unfold is_u8; lia).
  assert (Hclose : writes (on_out (direct_char 93)) 1 [93]) by (apply writes_char_c; unfold is_u8; lia).
  destruct r1 as [vs|]; simplify_eq; cbn [mbind option_bind fmap option_fmap option_map] in *.
  - cbn [jprint]. destruct (mapM (jprint real_text) vs) as [ts|]; cbn [mbind option_bind answers] in *.
    + apply (writes_seq _ _ [91]); [exact Hopen|]. apply writes_seq; [|done]. by apply (writes_read _ _ _ _ _ Hskr).
    + destruct Hi as [t Hi]. exists ([91] ++ t). apply writes_seq; [exact Hopen|]. apply writes_stop; [lia|].
      by apply (writes_read _ _ _ _ _ Hskr).
  - destruct Hi as (w & t & Hw & Hi). exists w, ([91] ++ t). split; [done|]. apply writes_seq; [exact Hopen|].
    apply writes_stop; [lia|]. by apply (writes_read _ _ _ _ _ Hskr).
Qed.

Lemma level_ok n : forall f fd, (2 * n + 2 <= f)%nat -> level_sim n f fd.
Proof.
  induction n as [|n IH]; intros f fd Hf d Hd.
  - destruct f as [|[|f]]; [lia|lia|]. destruct (Z.eq_dec (v_kind d) TYPED_LIST) as [Hk|Hk]; [|by apply (plain_value_sim 0)].
    intros value slot c r c'. destruct fd as [|fd]; [done|]. cbn [direct_value typed_encode_value]. rewrite Hk.
    destruct Hd as (_ & _ & _ & Hd). destruct (Hd Hk) as (? & ? & ? & ?).
    apply (list_sim 0 f fd d _ c r c'); done.
  - destruct f as [|[|f]]; [lia|lia|]. destruct (Z.eq_dec (v_kind d) TYPED_LIST) as [Hk|Hk].
    2:{ apply (plain_value_sim (S n)); [done|done|]. intros n' fd' [= ->]. apply IH. lia. }
    intros value slot c r c'. destruct fd as [|fd]; [done|]. cbn [direct_value typed_encode_value]. rewrite Hk.
    destruct Hd as (_ & _ & _ & Hd). destruct (Hd Hk) as (? & ? & ? & ?).
    apply (list_sim (S n) f fd d _ c r c'); [done..| |]; intros n' fd' [= ->]; apply IH; lia.
Qed.

End sim.
