(* ===== verification/JsonPaths.v ===== *)
(** * JsonPaths: an encode from its request to its answer

    The first capacity, the buffer an encode starts with, the commit and the
    roll-back of the caller's Bytes, and what each path delivers. *)

From S2P Require Import Prelude Digits Mem Text TextProofs Str StrProofs Bytes BytesProofs.
From S2P Require Import JsonScan JsonOut JsonText JsonEnc JsonSim.

Open Scope c_scope.

Section enc.
Context `{AllocLaws, CHeapLaws, Yyjson} (path : scan_path) (m : image) (string_len : Z -> Z) (real_text : Z -> option str).

(** ** The first guess *)

Lemma record_size_total k : forall n schema, image_ok m -> direct_eligible m n schema = Some true ->
  exists w, direct_record_size m k schema = Some w /\ 0 <= w.
Proof.
  induction k as [|k IH]; intros n schema Hm He; apply eligible_rows in He as (n' & s & rows & -> & Hs & Hr & Hne & _ & Hel);
    cbn [direct_record_size]; rewrite (proj2 (Z.eqb_neq _ _) Hne), Hs; cbn [mbind option_bind].
  { exists 32. by destruct (s_fields s). }
  destruct (s_fields s) as [fs|]; [|by exists 32]. rewrite Hr. cbn [mbind option_bind].
  assert (Hgen : forall total, 0 <= total -> exists w, (fix sum (rows : list row) (total : Z) : option Z :=
          match rows with
          | [] => Some total
          | (_, f, complex) :: rows =>
              if ignored f then sum rows total
              else
                let total := total +! (f_primary_name_len f +! 4) in
                let kind := f_kind f in
                more ← (if kind =? TYPED_BOOL then Some 5
                        else if (kind =? TYPED_SINT) || (kind =? TYPED_UINT) then Some 8
                        else if (kind =? TYPED_F32) || (kind =? TYPED_F64) then Some 12
                        else if kind =? TYPED_STRING then Some 24
                        else if kind =? TYPED_STRUCT then
                          direct_record_size m k (match complex with Some x => x_child_schema x | None => 0 end)
                        else if kind =? TYPED_LIST then Some 64
                        else Some 16);
                sum rows (total +! more)
          end) rows total = Some w /\ 0 <= w).
  { clear Hr. induction Hel as [|[[i f] x] rows Hrow _ IHr]; intros total Ht; [by exists total|].
    destruct (ignored f) eqn:Hig; [by apply IHr|]. cbv zeta. destruct (Hrow eq_refl) as (_ & _ & Hst & _).
    assert (Hsome : exists more, (if f_kind f =? TYPED_BOOL then Some 5
      else if (f_kind f =? TYPED_SINT) || (f_kind f =? TYPED_UINT) then Some 8
      else if (f_kind f =? TYPED_F32) || (f_kind f =? TYPED_F64) then Some 12
      else if f_kind f =? TYPED_STRING then Some 24
      else if f_kind f =? TYPED_STRUCT then direct_record_size m k (match x with Some x => x_child_schema x | None => 0 end)
      else if f_kind f =? TYPED_LIST then Some 64 else Some 16) = Some more).
    { repeat (case_match; [by eexists|]). destruct (Z.eqb_spec (f_kind f) TYPED_STRUCT) as [Hk|].
      - destruct x as [x|]; cbn [field_desc v_kind v_child_schema] in Hst.
        + destruct (IH n' (x_child_schema x) Hm (Hst Hk)) as (w & -> & _). by eexists.
        + specialize (Hst Hk). by destruct n'.
      - case_match; by eexists. }
    destruct Hsome as [more ->]. cbn [mbind option_bind]. apply IHr. pose proof (u64_is (u64 (total + u64 (f_primary_name_len f + 4)) + more)) as Hu. unfold is_u64 in Hu. lia. }
  apply Hgen. lia.
Qed.

(** Between a kilobyte and the larger of the estimate and 32 MiB. *)
Lemma first_cap_ok s schema root w : direct_record_size m 5 schema = Some w -> 0 <= w < 2 ^ 57 ->
  (has_flag (s_flags s) TYPED_ROOT_ARRAY = true -> root <> 0 -> exists l, rd_prefix m root = Some l /\ 0 <= lp_len l) ->
  exists first, direct_first_cap m s schema root = Some first /\ FIRST <= first <= Z.max (2 ^ 26) w.
Proof.
  intros Hw Hr Hl. unfold direct_first_cap. rewrite Hw. cbn [mbind option_bind].
  assert (Hgo : forall v, 0 <= v <= Z.max (2 ^ 26) w -> exists first, Some (if v <? FIRST then FIRST else v) = Some first /\
    FIRST <= first <= Z.max (2 ^ 26) w).
  { intros v Hv. exists (if v <? FIRST then FIRST else v). split; [done|]. unfold FIRST. destruct (Z.ltb_spec v 1024); lia. }
  destruct (has_flag _ _); [|apply Hgo; lia]. destruct (Z.eqb_spec root 0); cbn [negb mbind option_bind]; [apply Hgo; lia|].
  destruct (Hl eq_refl ltac:(done)) as (l & -> & Hll). cbn [mbind option_bind]. cbv zeta.
  rewrite !(u64_small (w + 1)) by (unfold is_u64; lia). rewrite (proj2 (Z.eqb_neq _ _)) by lia. cbn [mbind option_bind].
  change (Z.shiftl 32 20) with (2 ^ 25). set (bound := 2 ^ 25 / (w + 1)).
  set (count := if bound <? lp_len l then bound else lp_len l).
  assert (Hc : 0 <= count <= bound) by (unfold count; assert (0 <= bound) by (apply Z.div_pos; lia); destruct (Z.ltb_spec bound (lp_len l)); lia).
  assert (Hb : bound * (w + 1) <= 2 ^ 25) by (unfold bound; pose proof (Z.mul_div_le (2 ^ 25) (w + 1)); lia).
  assert (Hcw : 0 <= count * (w + 1) <= 2 ^ 25) by nia.
  rewrite (u64_small (count * (w + 1))), u64_small by (unfold is_u64; lia). apply Hgo. lia.
Qed.

(** ** The root *)

Lemma root_sim fuel schema root s r c c' : image_ok m -> (forall p, is_i64 (string_len p)) -> (forall k, yy_room k = true) ->
  im_schema m schema = Some s -> direct_eligible m ELIGIBLE_FUEL schema = Some true ->
  dom_root m fuel string_len schema root s c = Some (r, c') ->
  answers (direct_root path m string_len schema root s) (jprint real_text <$> r).
Proof.
  intros Hm Hlen Hroom Hs He. unfold dom_root, direct_root. destruct (has_flag _ _).
  - intros Hb. apply (list_sim path m string_len real_text Hm Hlen Hroom 33 67 fuel (root_desc schema s) (Some root) c r c');
      [done|done|done|by intros _| | |exact Hb]; intros n' fd' [= <-]; apply level_ok; (done || lia).
  - intros Hb. apply (eligible_object path m string_len real_text Hm Hroom 33 schema root None 68 fuel c r c');
      [|done|by left|exact Hb]. intros n' [= <-]. apply level_ok; (done || lia).
Qed.

(** ** Where the text goes *)

(** The target of an encode: a fresh buffer, or a Bytes with its length. *)
Definition target_ok (handle : option Bytes) (start_len : Z) : Prop :=
  match handle with
  | None => start_len = 0
  | Some b => bytes_rep b /\ b_cap b < 2 ^ 63 /\ start_len = b_len b /\ b_len b <= 2 ^ 58
  end.

Definition delivered (handle : option Bytes) (text : str) (a : encode_answer) : Prop :=
  a_status a = ENC_OK /\ a_len a = slen text /\ a_werr a = 0 /\ a_field a = SIZE_MAX /\
  match handle with
  | None => a_bytes a = None /\ exists data, a_buffer a = Some data /\ sub_str data 0 (slen text) = text
  | Some b => a_buffer a = None /\ exists b', a_bytes a = Some b' /\ contents b' = contents b ++ text
  end.

Definition delivers (handle : option Bytes) (text : str) (r : run encode_answer) : Prop :=
  exists a, r = Some (Ok a) /\ delivered handle text a.

(** An error status and the target as it was, or the callback's panic. *)
Definition refuses (handle : option Bytes) (r : run encode_answer) : Prop :=
  match r with
  | Some (Ok a) => a_status a <> ENC_OK /\ a_buffer a = None /\ a_len a = 0 /\ contents <$> a_bytes a = contents <$> handle
  | Some (Panic e _ _) => handle <> None /\ reserve_panic e
  | None => False
  end.

(** Enough memory for [n] bytes in the end. *)
Definition roomy (n : Z) : Prop := ample /\ (forall k, k < 2 ^ 62 -> c_malloc k <> None) /\ n <= 2 ^ 58.

Lemma refused_refuses status werr field b b' : status <> ENC_OK -> contents <$> b' = contents <$> b ->
  refuses b (refused status werr field b').
Proof. intros Hs Hb. by split_and!. Qed.

(** The buffer an encode starts with. *)
Lemma enc_start_ok handle start_len first : target_ok handle start_len -> FIRST <= first <= 2 ^ 57 ->
  match (match handle with
         | Some b =>
             b ← reserve b (b_data b) start_len (start_len +! first);
             Some (Ok (mkDirect (b_data b) start_len (u64 (b_cap b)) false (Some b)))
         | None =>
             match c_malloc first with
             | Some data => Some (Ok (mkDirect data 0 first false None))
             | None => Some (Ok (mkDirect [] 0 0 false None))
             end
         end) with
  | Some (Ok out) => out_ok out /\ d_text out = from_option contents [] handle /\ d_len out = start_len /\
      (d_handle out = None <-> handle = None) /\ d_oom out = false
  | Some (Panic e _ _) => handle <> None /\ reserve_panic e /\ ~ roomy (start_len + first)
  | None => False
  end.
Proof.
  intros Ht Hf. unfold FIRST in Hf. destruct handle as [b|]; cbn [target_ok from_option] in *.
  - destruct Ht as (R & Hc & -> & Hl). pose proof (br_data b R). pose proof (br_cap b R). pose proof (br_len b R).
    rewrite u64_small by (unfold is_u64; lia).
    pose proof (out_reserve_spec b (b_data b) (b_len b) (b_len b + first) ltac:(done) ltac:(lia) ltac:(lia) (br_bytes b R)
      ltac:(lia) ltac:(lia)) as Hr. unfold reserve.
    destruct (beans_bytes_reserve_raw _ _ _) as [[b'|e l c]|]; cbn [mbind run_bind]; [| |done].
    + destruct Hr as (Hl' & Hd' & Hc' & Hge & _ & tail & Htail). rewrite u64_small by (unfold is_u64; lia).
      assert (Ht : d_text (mkDirect (b_data b') (b_len b) (b_cap b') false (Some b')) = contents b).
      { unfold d_text, contents. cbn [d_data d_len]. rewrite Htail. apply sub_str_0_app. lia. }
      split; [|split_and!; done].
      split; cbn [d_data d_len d_cap d_handle]; [done|lia|lia|rewrite Ht; apply R|intros b2 [= <-]; lia].
    + destruct Hr as [Hp Hor]. split_and!; [done|done|]. intros (Ha & _ & Hs). destruct Hor as [?|[? _]]; [lia|done].
  - destruct (c_malloc first) as [data|] eqn:Hma; (split; [|split_and!; done]).
    + apply c_malloc_len in Hma; [|lia]. split; cbn [d_data d_len d_cap d_handle]; [done|lia|lia| |done].
      unfold d_text. cbn [d_data d_len]. rewrite sub_str_zero by lia. constructor.
    + split; cbn [d_data d_len d_cap d_handle]; [done|lia|lia|constructor|done].
Qed.

(** The caller's Bytes once it is told its final length, a prefix of what is
    stored. *)
Lemma commit_ok out b len : out_ok out -> d_handle out = Some b -> 0 <= len <= d_len out ->
  match reserve b (d_data out) len len with
  | Some (Ok b') => contents b' = sub_str (d_text out) 0 len
  | Some (Panic e _ _) => reserve_panic e /\ 2 ^ 58 < len
  | None => False
  end.
Proof.
  intros O Hh Hl. destruct (oo_handle out O b Hh) as (Hbc & Hcap & Hbl). pose proof (oo_len out O). pose proof (oo_data out O).
  assert (Hb : bytes_ok (sub_str (d_data out) 0 (b_len b))).
  { pose proof (oo_bytes out O) as Hb. unfold d_text in Hb.
    replace (sub_str (d_data out) 0 (b_len b)) with (sub_str (sub_str (d_data out) 0 (d_len out)) 0 (b_len b)); [by apply sub_bytes_ok|].
    rewrite sub_str_sub by lia. done. }
  pose proof (out_reserve_spec b (d_data out) len len ltac:(lia) ltac:(lia) ltac:(lia) Hb ltac:(lia) ltac:(lia)) as Hr.
  unfold reserve. destruct (beans_bytes_reserve_raw _ _ _) as [[b'|e l c]|]; [| |done].
  - destruct Hr as (Hl' & _ & _ & _ & _ & tail & Htail). unfold contents, d_text. rewrite Hl', Htail.
    rewrite sub_str_sub, sub_str_0_app by lia. done.
  - destruct Hr as [Hp Hor]. split; [done|lia].
Qed.

(** A writer that did not answer 1: the Bytes is cut back. *)
Lemma rollback_refuses handle start_len out sent wrote field : target_ok handle start_len -> out_ok out ->
  (d_handle out = None <-> handle = None) -> d_text out = from_option contents [] handle ++ sent ->
  refuses handle (
    b ← match d_handle out with
        | Some b => b ← reserve b (d_data out) start_len start_len; Some (Ok (Some b))
        | None => Some (Ok None)
        end;
    if wrote =? -1 then refused ENC_ERR_INVALID WERR_INVALID field b else refused ENC_ERR_MEMORY WERR_MEMORY field b).
Proof.
  intros Ht O Hh Htext. assert (Hr : forall b', contents <$> b' = contents <$> handle ->
    refuses handle (if wrote =? -1 then refused ENC_ERR_INVALID WERR_INVALID field b' else refused ENC_ERR_MEMORY WERR_MEMORY field b')).
  { intros b' Hb'. by destruct (wrote =? -1); apply refused_refuses. }
  destruct (d_handle out) as [b|] eqn:Hb; cbn [mbind run_bind].
  2:{ apply Hr. destruct handle; [|done]. by pose proof (proj1 Hh eq_refl). }
  destruct handle as [b0|]; [|by pose proof (proj2 Hh eq_refl)]. cbn [target_ok from_option] in *.
  destruct Ht as (R & _ & -> & Hl). pose proof (br_len b0 R). pose proof (text_len out O) as Hlen. rewrite Htext, slen_app in Hlen.
  pose proof (contents_len b0 R) as Hc. pose proof (slen_nonneg sent).
  pose proof (commit_ok out b (b_len b0) O Hb ltac:(lia)) as Hcommit.
  destruct (reserve _ _ _ _) as [[b'|e l c]|]; cbn [mbind run_bind]; [|lia|done].
  apply Hr. cbn. f_equal. rewrite Hcommit, Htext, <-Hc. by apply sub_str_at0.
Qed.

(** What the writer of the root did from [out]. *)
Definition ran (handle : option Bytes) (start_len : Z) (r : option (option str)) (x : run (Z * BeansJsonDirectContext)) : Prop :=
  match x with
  | Some (Ok (w, c)) => out_ok (c_out c) /\ (d_handle (c_out c) = None <-> handle = None) /\
      (exists sent, d_text (c_out c) = from_option contents [] handle ++ sent /\ (w = 1 -> r = Some (Some sent))) /\
      (forall text, r = Some (Some text) -> ample -> start_len + slen text <= 2 ^ 58 -> w = 1)
  | Some (Panic e _ _) => handle <> None /\ reserve_panic e /\
      (forall text, r = Some (Some text) -> ample -> start_len + slen text <= 2 ^ 58 -> False)
  | None => False
  end.

Lemma writes_ran handle r p w t out : out_ok out -> d_text out = from_option contents [] handle ->
  (d_handle out = None <-> handle = None) -> writes p w t -> (w = 1 -> r = Some (Some t)) ->
  (w <> 1 -> forall text, r <> Some (Some text)) -> ran handle (d_len out) r (p (mkCtx out SIZE_MAX)).
Proof.
  intros O Htext Hh Hw Hr1 Hn1. specialize (Hw (mkCtx out SIZE_MAX) O). unfold out_of, ctx_out in Hw. cbn [c_out] in Hw.
  assert (Hdec : forall text, r = Some (Some text) -> w = 1 /\ text = t).
  { intros text Hr. destruct (Z.eq_dec w 1) as [Hw1|Hne]; [|by destruct (Hn1 Hne text)]. specialize (Hr1 Hw1). split; congruence. }
  assert (Hlk : lacking out (slen t) -> forall text, r = Some (Some text) -> ample -> d_len out + slen text <= 2 ^ 58 -> False).
  { intros Hlk text Hr Ham Hsz. destruct (Hdec text Hr) as [_ ->]. by apply Hlk. }
  unfold ran. destruct (p _) as [[[w' c]|e l k]|]; [| |done].
  - destruct Hw as (O' & Hmode & Hw). unfold same_mode in Hmode. split; [done|]. split; [tauto|]. split.
    + destruct Hw as [(-> & Htx & _)|(-> & _ & _ & sent & _ & Htx)]; eexists; (split; [by rewrite Htx, Htext|done]).
    + intros text Hr Ham Hsz. destruct Hw as [(-> & _)|(-> & _ & Hl & _)]; [by apply (Hdec text)|].
      exfalso. by apply (Hlk Hl text).
  - destruct Hw as (Hne & Hp & Hl). split; [tauto|]. split; [done|]. by apply Hlk.
Qed.

Lemma answers_ran handle r p out : out_ok out -> d_text out = from_option contents [] handle ->
  (d_handle out = None <-> handle = None) -> answers p r -> ran handle (d_len out) r (p (mkCtx out SIZE_MAX)).
Proof.
  intros O Htext Hh Ha. destruct r as [[t|]|]; cbn [answers] in Ha.
  - by apply (writes_ran handle _ _ 1 t).
  - destruct Ha as [t Ha]. by apply (writes_ran handle _ _ (-1) t).
  - destruct Ha as (w & t & Hw & Ha). apply (writes_ran handle _ _ w t); (done || lia).
Qed.

(** What an encode promises of a tree's text [r] when [n] bytes are enough. *)
Definition encoded (handle : option Bytes) (start_len first : Z) (r : option (option str)) (res : run encode_answer) : Prop :=
  (refuses handle res \/ exists text, r = Some (Some text) /\ delivers handle text res) /\
  (forall text, r = Some (Some text) -> roomy (start_len + first) -> start_len + slen text <= 2 ^ 58 -> delivers handle text res).

Lemma encoded_delivers handle start_len first text res : delivers handle text res ->
  encoded handle start_len first (Some (Some text)) res.
Proof. intros Hd. split; [right; by exists text|]. by intros ? [= <-] _ _. Qed.

Lemma target_len handle start_len : target_ok handle start_len -> slen (from_option contents [] handle) = start_len.
Proof.
  intros Ht. destruct handle as [b|]; cbn [target_ok from_option] in *; [|by rewrite Ht].
  destruct Ht as (R & _ & -> & _). by apply contents_len.
Qed.

(** The buffer after the answer 1. *)
Lemma enc_finish_ok handle start_len first sent out : target_ok handle start_len -> out_ok out ->
  (d_handle out = None <-> handle = None) -> d_text out = from_option contents [] handle ++ sent ->
  encoded handle start_len first (Some (Some sent))
    (match d_handle out with
     | Some b =>
         b ← reserve b (d_data out) (d_len out) (d_len out);
         Some (Ok (mkAnswer ENC_OK None (d_len out -! start_len) 0 SIZE_MAX (Some b)))
     | None => Some (Ok (mkAnswer ENC_OK (Some (d_data out)) (d_len out) 0 SIZE_MAX None))
     end).
Proof.
  intros Ht O Hh Htx. pose proof (text_len _ O) as Hl. rewrite Htx, slen_app, (target_len _ _ Ht) in Hl.
  pose proof (slen_nonneg sent). pose proof (oo_len _ O). pose proof (oo_cap _ O).
  assert (0 <= start_len) by (rewrite <-(target_len _ _ Ht); apply slen_nonneg).
  destruct (d_handle out) as [b|] eqn:Hb.
  - destruct handle as [b0|]; [|by pose proof (proj2 Hh eq_refl)]. cbn [from_option] in *.
    pose proof (commit_ok out b (d_len out) O Hb ltac:(lia)) as Hcm.
    destruct (reserve _ _ _ _) as [[b'|e l k]|]; cbn [mbind run_bind]; [| |done].
    + apply encoded_delivers. eexists; split; [done|]. split_and!; [done| |done|done|done|].
      * cbn [a_len]. rewrite u64_small by (unfold is_u64; lia). lia.
      * exists b'. split; [done|]. rewrite Hcm, <-Htx, <-(text_len _ O). apply sub_str_all.
    + destruct Hcm as [Hp Hbig]. split; [left; by split|]. intros text [= <-] _ Hsz. lia.
  - destruct handle as [b0|]; [by pose proof (proj1 Hh eq_refl)|]. cbn [from_option app target_ok] in *.
    apply encoded_delivers. eexists; split; [done|]. split_and!; [done|cbn [a_len]; lia|done|done|done|].
    eexists. split; [done|]. rewrite <-Htx at 2. unfold d_text. f_equal. lia.
Qed.

Lemma direct_encode_ok handle start_len schema root s first r : target_ok handle start_len ->
  direct_first_cap m s schema root = Some first -> FIRST <= first <= 2 ^ 57 ->
  answers (direct_root path m string_len schema root s) r ->
  encoded handle start_len first r (direct_encode path m string_len schema root s handle start_len).
Proof.
  intros Ht Hf Hfr Ha. unfold direct_encode. rewrite Hf. cbn [must fmap option_fmap option_map mbind run_bind].
  pose proof (enc_start_ok handle start_len first Ht Hfr) as Hst.
  destruct (match handle with Some _ => _ | None => _ end) as [[out|e l c]|]; cbn [mbind run_bind]; [| |done].
  2:{ destruct Hst as (? & ? & ?). split; [by left|by intros]. }
  destruct Hst as (O & Htext & Hlen & Hh & _). pose proof (answers_ran handle r _ out O Htext Hh Ha) as Hrun. rewrite Hlen in Hrun.
  unfold ran in Hrun. destruct (direct_root _ _ _ _ _ _ _) as [[[w c]|e l k]|]; cbn [mbind run_bind]; [| |done].
  2:{ destruct Hrun as (? & ? & Hno). split; [by left|]. intros text Hr (Ham & _) Hsz. by destruct (Hno text Hr Ham Hsz). }
  destruct Hrun as (O' & Hh' & (sent & Htx & Hsent) & Hone). destruct (Z.eqb_spec w 1) as [->|Hw1]; cbn [negb].
  - rewrite (Hsent eq_refl). by apply enc_finish_ok.
  - split; [left; by apply (rollback_refuses handle start_len _ sent)|].
    intros text Hr (Ham & _) Hsz. by destruct (Hw1 (Hone text Hr Ham Hsz)).
Qed.

(** ** The DOM path *)

Lemma dom_encode_ok handle start_len schema root s mode fuel r c' : target_ok handle start_len ->
  write_flags mode = 0 ->
  (forall v t, jprint real_text v = Some t -> yy_write 0 v = inl t) ->
  (forall v, jprint real_text v = None -> exists code, yy_write 0 v = inr code) ->
  dom_root m fuel string_len schema root s (mkEnc 0 SIZE_MAX) = Some (r, c') ->
  let res := dom_encode m fuel string_len schema root s mode handle start_len in
  match (v ← r; jprint real_text v) with
  | Some text => yy_doc = true -> roomy (start_len + slen text) -> delivers handle text res
  | None => refuses handle res
  end.
Proof.
  intros Ht Hfl Hok Hbad Hroot. cbv zeta. unfold dom_encode. rewrite Hfl, Hroot.
  assert (Href : forall status werr field, status <> ENC_OK -> refuses handle (refused status werr field handle))
    by (intros; by apply refused_refuses).
  destruct r as [v|]; cbn [mbind option_bind].
  2:{ destruct yy_doc; cbn [negb must fmap option_fmap option_map mbind run_bind]; by apply Href. }
  destruct (jprint real_text v) as [text|] eqn:Hp.
  2:{ destruct (Hbad v Hp) as [code Hc]. destruct yy_doc; cbn [negb must fmap option_fmap option_map mbind run_bind]; [|by apply Href].
      rewrite Hc. by apply Href. }
  intros -> (Ham & _ & Hsz). cbn [negb must fmap option_fmap option_map mbind run_bind]. rewrite (Hok v text Hp).
  pose proof (slen_nonneg text). destruct handle as [b|]; cbn [target_ok] in Ht.
  2:{ eexists. split; [done|]. split_and!; [done|done|done|done|done|]. exists text. split; [done|]. apply sub_str_all. }
  destruct Ht as (R & Hc & -> & Hl). pose proof (br_len b R). pose proof (br_cap b R). pose proof (br_data b R).
  rewrite u64_small by (unfold is_u64; lia).
  pose proof (out_reserve_spec b (b_data b) (b_len b) (b_len b + slen text) ltac:(done) ltac:(lia) ltac:(lia) (br_bytes b R)
    ltac:(lia) ltac:(lia)) as Hr. unfold reserve.
  destruct (beans_bytes_reserve_raw (mkBytes (b_data b) _ _) _ _) as [[b1|e l k]|]; cbn [mbind run_bind]; [|exfalso|done].
  2:{ destruct Hr as (_ & [?|[? _]]); [lia|done]. }
  destruct Hr as (Hl1 & Hd1 & Hc1 & Hge & _ & tail & Htail). rewrite poke_ok by lia.
  cbn [must fmap option_fmap option_map mbind run_bind].
  assert (Hset : sub_str (mem_set (b_data b1) (b_len b) text) 0 (b_len b + slen text) = contents b ++ text).
  { assert (Hcb : contents b = sub_str (b_data b1) 0 (b_len b)).
    { rewrite Htail, sub_str_0_app by lia. done. }
    rewrite Hcb. destruct (mem_split (b_data b1) (b_len b)) as (x & y & Hxy & Hx); [lia|].
    destruct (mem_split y (slen text)) as (u & z & -> & Hu); [rewrite Hxy, slen_app in Hd1; lia|].
    rewrite Hxy, <-Hx, mem_set_at, <-slen_app, app_assoc, !sub_str_at0 by done. done. }
  pose proof (out_reserve_spec b1 (mem_set (b_data b1) (b_len b) text) (b_len b + slen text) (b_len b + slen text)) as Hr2.
  rewrite mem_set_len in Hr2 by lia. specialize (Hr2 Hd1 Hc1 ltac:(lia)).
  specialize (Hr2 ltac:(rewrite Hl1; replace (sub_str (mem_set (b_data b1) (b_len b) text) 0 (b_len b)) with (contents b);
    [apply R|]; rewrite <-(sub_str_at0 (contents b) text), contents_len, <-Hset, sub_str_sub by (done || lia); done) ltac:(lia) ltac:(lia)).
  destruct (beans_bytes_reserve_raw _ _ _) as [[b2|e l k]|]; cbn [mbind run_bind]; [|exfalso|done].
  2:{ destruct Hr2 as (_ & [?|[? _]]); [lia|done]. }
  destruct Hr2 as (Hl2 & Hd2 & _ & _ & _ & tail2 & Htail2). eexists. split; [done|]. split_and!; [done|done|done|done|done|].
  exists b2. split; [done|]. unfold contents at 1. rewrite Hl2, Htail2, sub_str_0_app by (rewrite mem_set_len; lia). done.
Qed.

(** ** The entry *)

(** A compact encode of an eligible schema, to a fresh buffer or appended. *)
Record request_ok (schema root mode : Z) (s : BeansJsonTypedSchema) (handle : option Bytes) (start_len : Z) : Prop := {
  rq_schema : im_schema m schema = Some s;
  rq_complex : s_complex s <> None;
  rq_root : root <> 0;
  rq_eligible : direct_eligible m ELIGIBLE_FUEL schema = Some true;
  rq_mode : (mode = WRITE_COMPACT /\ handle = None) \/ (mode = WRITE_APPEND /\ handle <> None);
  rq_target : target_ok handle start_len;
  rq_size w : direct_record_size m 5 schema = Some w -> w < 2 ^ 57;
  rq_list : has_flag (s_flags s) TYPED_ROOT_ARRAY = true -> rd_prefix m root <> None
}.

Lemma entry_paths fuel schema root mode s handle start_len disabled : request_ok schema root mode s handle start_len ->
  enc_json_typed_encode path m fuel disabled (Some string_len) schema root mode handle start_len =
  if disabled : bool then dom_encode m fuel string_len schema root s mode handle start_len
  else direct_encode path m string_len schema root s handle start_len.
Proof.
  intros Q. destruct (eligible_rows _ _ _ (rq_eligible _ _ _ _ _ _ Q)) as (n & s' & rows & Hn & Hs & Hr & Hne & Hf & _).
  rewrite (rq_schema _ _ _ _ _ _ Q) in Hs. injection Hs as <-.
  pose proof (rq_complex _ _ _ _ _ _ Q) as Hc. pose proof (rq_target _ _ _ _ _ _ Q) as Ht.
  unfold enc_json_typed_encode. cbv zeta. rewrite (proj2 (Z.eqb_neq _ _) Hne), (proj2 (Z.eqb_neq _ _) (rq_root _ _ _ _ _ _ Q)).
  cbn [orb]. rewrite (rq_schema _ _ _ _ _ _ Q). cbn [must fmap option_fmap option_map mbind run_bind].
  destruct (s_fields s); [|done]. destruct (s_complex s); [|done].
  destruct (rq_mode _ _ _ _ _ _ Q) as [[-> ->]|[-> Hh]].
  - change (WRITE_COMPACT =? WRITE_APPEND) with false. change (WRITE_COMPACT =? WRITE_COMPACT) with true. cbn [andb orb].
    cbn [target_ok] in Ht. subst start_len.
    destruct disabled; cbn [negb andb]; [done|]. by rewrite (rq_eligible _ _ _ _ _ _ Q).
  - change (WRITE_APPEND =? WRITE_APPEND) with true. change (WRITE_APPEND =? WRITE_COMPACT) with false. cbn [andb orb].
    rewrite bool_decide_false by done. destruct disabled; cbn [negb andb]; [done|]. by rewrite (rq_eligible _ _ _ _ _ _ Q).
Qed.

Lemma request_first schema root mode s handle start_len : image_ok m -> request_ok schema root mode s handle start_len ->
  exists first, direct_first_cap m s schema root = Some first /\ FIRST <= first <= 2 ^ 57.
Proof.
  intros Hm Q. destruct (record_size_total 5 _ _ Hm (rq_eligible _ _ _ _ _ _ Q)) as (w & Hw & Hpos).
  pose proof (rq_size _ _ _ _ _ _ Q w Hw) as Hsz.
  destruct (first_cap_ok s schema root w Hw ltac:(lia)) as (first & Hf & Hr); [|exists first; split; [done|lia]].
  intros Hflag _. pose proof (rq_list _ _ _ _ _ _ Q Hflag) as Hl. destruct (rd_prefix m root) as [l|] eqn:Hp; [|done].
  exists l. split; [done|]. unfold rd_prefix in Hp. destruct (rd_le m root 8); cbn [mbind option_bind] in Hp; [|done].
  destruct (rd_le m (root + 8) 8) as [len|] eqn:Hlen; cbn [mbind option_bind] in Hp; [|done].
  destruct (rd_le m (root + 24) 8); cbn [mbind option_bind] in Hp; [|done]. simplify_eq. cbn [lp_len].
  apply (rd_le_u64 m Hm _ 8) in Hlen; lia.
Qed.
End enc.
