(* ===== verification/JsonTheorems.v ===== *)
(** * JsonTheorems: what typed JSON encoding guarantees

    The plain scan, the string writer, and the encoder: the direct writer
    delivers the bytes of the DOM path, comes back within its fuel, stays
    inside its memory and rolls a failed append back. *)

From S2P Require Import Prelude Digits Mem Text TextProofs Str StrProofs Bytes BytesProofs.
From S2P Require Import JsonScan JsonOut JsonText JsonEnc JsonSim JsonPaths.

Open Scope c_scope.

(** ** A little image *)

Definition put_bytes (at_ : Z) (bs : str) (m : Z -> option Z) : Z -> option Z := fun p =>
  if (at_ <=? p) && (p <? at_ + slen bs) then bs !! Z.to_nat (p - at_) else m p.

(** A schema with an integer and a string, another with a list of it; records
    that hold them.  The strings are UTF-8, save the one at 2100. *)
Definition item_schema : BeansJsonTypedSchema := mkSchema 2 0 0 None
  (Some [mkField TYPED_SINT 16384 0 SIZE_MAX 100 2; mkField TYPED_STRING 0 8 SIZE_MAX 110 4]) 16 0
  (Some [mkComplex 0 0 0 0 0 0 0 0 0; mkComplex 0 0 0 0 0 0 0 0 0]).

Definition page_schema : BeansJsonTypedSchema := mkSchema 2 0 0 None
  (Some [mkField TYPED_BOOL 0 0 SIZE_MAX 120 2; mkField TYPED_LIST 0 8 SIZE_MAX 130 5]) 16 0
  (Some [mkComplex 0 0 0 0 0 0 0 0 0; mkComplex 0 TYPED_STRUCT 1 16 0 0 0 0 0]).

Definition pair_schema : BeansJsonTypedSchema := mkSchema 2 0 0 None
  (Some [mkField TYPED_STRING 0 0 SIZE_MAX 100 2; mkField TYPED_STRING 0 8 SIZE_MAX 110 4]) 16 0
  (Some [mkComplex 0 0 0 0 0 0 0 0 0; mkComplex 0 0 0 0 0 0 0 0 0]).

Definition json_memory : Z -> option Z :=
  put_bytes 100 (lit "id") $ put_bytes 110 (lit "name") $ put_bytes 120 (lit "ok") $ put_bytes 130 (lit "items") $
  put_bytes 2000 (lit "ann" ++ [10]) $ put_bytes 2050 [195; 169] $ put_bytes 2100 [195; 40] $
  put_bytes 1000 (rt_store_le (2 ^ 64 - 7) 8 ++ rt_store_le 2000 8 ++ rt_store_le 42 8 ++ rt_store_le 2050 8) $
  put_bytes 1100 (rt_store_le 5 8 ++ rt_store_le 2100 8) $ put_bytes 1400 (rt_store_le 2100 8 ++ rt_store_le 0 8) $
  put_bytes 1200 (rt_store_le 1000 8 ++ rt_store_le 2 8 ++ rt_store_le 2 8 ++ rt_store_le 16 8) $
  put_bytes 1300 (rt_store_le 1 8 ++ rt_store_le 1200 8) $ fun _ => None.

Definition json_image : image := mkImage json_memory
  (fun p => if p =? 1 then Some item_schema else if p =? 2 then Some page_schema
            else if p =? 3 then Some pair_schema else None).

Definition json_len (p : Z) : Z := if p =? 2000 then 4 else 2.

#[local] Instance json_alloc : Alloc := fun n => if n <? 2 ^ 63 then Some (mem_zero n) else None.

#[local] Instance json_alloc_laws : AllocLaws.
Proof.
  split; unfold rt_alloc, json_alloc; intros n b Hn; destruct (Z.ltb_spec n (2 ^ 63)); intros [= <-];
    [by apply mem_zero_len|done].
Qed.

#[local] Instance json_heap : CHeap := {
  c_malloc n := Some (mem_zero n);
  c_calloc _ _ := true;
  c_realloc p n := Some (p ++ mem_zero (n - slen p))
}.

#[local] Instance json_heap_laws : CHeapLaws.
Proof.
  split.
  - intros n b Hn [= <-]. by apply mem_zero_len.
  - intros p n b Hn [= <-]. eexists. split; [done|]. rewrite slen_app, mem_zero_len; lia.
Qed.

(** A yyjson that writes compact text; no real has any. *)
#[local] Instance json_yy : Yyjson := {
  yy_doc := true;
  yy_room _ := true;
  yy_write _ v := match jprint (fun _ => None) v with Some t => inl t | None => inr 7 end;
  widen_f32 x := x
}.

(** What a fresh compact encode answers: the status, the text, the error. *)
Definition encode_text (disabled : bool) (path : scan_path) (schema root : Z) : option (Z * str * Z) :=
  match enc_json_typed_encode path json_image 10 disabled (Some json_len) schema root WRITE_COMPACT None 0 with
  | Some (Ok a) => Some (a_status a, sub_str (default [] (a_buffer a)) 0 (a_len a), a_werr a)
  | _ => None
  end.

Definition encode_status (disabled : bool) (path : scan_path) (schema root : Z) : option Z :=
  match enc_json_typed_encode path json_image 10 disabled (Some json_len) schema root WRITE_COMPACT None 0 with
  | Some (Ok a) => Some (a_status a)
  | _ => None
  end.

Example encode_page : forallb (fun p => bool_decide (encode_text false p 2 1300 = Some (ENC_OK,
    lit "{" ++ [34] ++ lit "ok" ++ [34] ++ lit ":true," ++ [34] ++ lit "items" ++ [34] ++
    lit ":[{" ++ [34] ++ lit "id" ++ [34] ++ lit ":-7," ++ [34] ++ lit "name" ++ [34] ++ lit ":" ++ [34] ++ lit "ann\n" ++ [34] ++
    lit "},{" ++ [34] ++ lit "id" ++ [34] ++ lit ":42," ++ [34] ++ lit "name" ++ [34] ++ lit ":" ++ [34; 195; 169; 34] ++ lit "}]}", 0)))
  [ScanNeon; ScanSse2; ScanSwar; ScanBytes] = true.
Proof. vm_compute. reflexivity. Qed.

Example encode_bad : encode_text false ScanSwar 1 1100 = Some (ENC_ERR_INVALID, [], WERR_INVALID) /\
  encode_text true ScanSwar 1 1100 = Some (ENC_ERR_INVALID, [], WERR_INVALID).
Proof. vm_compute. split; reflexivity. Qed.

Lemma put_bytes_u8 at_ bs m : bytes_ok bs -> (forall p b, m p = Some b -> is_u8 b) ->
  forall p b, put_bytes at_ bs m p = Some b -> is_u8 b.
Proof.
  intros Hb Hm p b. unfold put_bytes. destruct (_ && _); [|apply Hm].
  intros Hl. by apply (Forall_lookup_1 _ _ _ _ Hb Hl).
Qed.

Definition bytes_okb (s : str) : bool := forallb (fun b => (0 <=? b) && (b <? 256)) s.

Lemma bytes_okb_ok s : bytes_okb s = true -> bytes_ok s.
Proof.
  unfold bytes_okb. rewrite forallb_forall. intros Hs. apply Forall_forall. intros b Hb.
  specialize (Hs b (proj1 (list_elem_of_In _ _) Hb)). bools. unfold is_u8. lia.
Qed.

(** [key_ok], decided. *)
Definition keys_okb (rows : list row) : bool :=
  forallb (fun r : row => (0 <=? f_primary_name_len (snd (fst r))) && (f_primary_name_len (snd (fst r)) <? 2 ^ 32) &&
    bool_decide (rd json_image (f_primary_name (snd (fst r))) (f_primary_name_len (snd (fst r))) <> None)) rows.

Lemma json_image_ok : image_ok json_image.
Proof.
  assert (Hs : forall p s, im_schema json_image p = Some s -> s = item_schema \/ s = page_schema \/ s = pair_schema).
  { intros p s. cbn [im_schema json_image]. repeat case_match; intros [= <-]; auto. }
  assert (Hk : forall rows, keys_okb rows = true -> Forall (fun r : row => key_ok json_image (snd (fst r))) rows).
  { intros rows Hr. apply Forall_forall. intros x Hx. unfold keys_okb in Hr. rewrite forallb_forall in Hr.
    specialize (Hr x (proj1 (list_elem_of_In _ _) Hx)). cbv beta in Hr. apply andb_true_iff in Hr as [Hr Hb].
    apply bool_decide_eq_true_1 in Hb. bools. split; [lia|done]. }
  split.
  - cbn [im_byte json_image]. unfold json_memory. repeat (apply put_bytes_u8; [apply bytes_okb_ok; vm_compute; reflexivity|]). done.
  - intros p s Hp. destruct (Hs p s Hp) as [->|[->| ->]]; cbn; lia.
  - intros p s rows Hp Hr. destruct (Hs p s Hp) as [->|[->| ->]]; vm_compute in Hr; injection Hr as <-;
      (split; [apply Hk; vm_compute; reflexivity|vm_compute; reflexivity]).
Qed.

(** ** The scan *)

(** The NEON, SSE2, eight-byte and byte builds of the plain scan agree:
    each answers the length of the longest prefix of bytes that JSON text
    copies as they are. *)
Theorem json_span_agree path src : bytes_ok src -> json_plain_span path src = plain_prefix src.
Proof. apply plain_span_ok. Qed.

Lemma json_span_witness : json_plain_span ScanSwar (lit "plain text, " ++ [10]) = 12.
Proof.
  rewrite (json_span_agree ScanSwar (lit "plain text, " ++ [10])); [vm_compute; reflexivity|].
  repeat constructor; lia.
Defined.

(** ** Strings *)

(** C24: The string writer stays inside its buffer, comes back, and either
    appends a quoted form that reads back as exactly the bytes it was given
    (which are then UTF-8), or refuses bytes that are not UTF-8, or ran out of
    memory; it does not run out when six times the string and two more bytes
    are certain to fit. *)
Theorem json_string_correct `{AllocLaws, CHeapLaws} path src out : bytes_ok src -> slen src < 2 ^ 63 -> out_ok out ->
  match direct_string path src out with
  | Some (Ok (w, out')) => out_ok out' /\
      ((w = 1 /\ valid_utf8 src /\ exists q, d_text out' = d_text out ++ 34 :: q /\ jread q = Some (src, [])) \/
       (w = -1 /\ ~ valid_utf8 src) \/
       (w = 0 /\ d_oom out' = true /\ lacking out (6 * slen src + 2)))
  | Some (Panic e _ _) => d_handle out <> None /\ reserve_panic e /\ lacking out (6 * slen src + 2)
  | None => False
  end.
Proof.
  intros Hb Hl O. destruct (string_ok path src Hb Hl) as [(cps & Hs & -> & Hw)|(Hn & text & Hle & Hw)].
  - specialize (Hw out O). unfold out_of, direct_out in Hw. pose proof (jchar_len cps) as Hj.
    assert (Hq : slen (jquote cps) <= 6 * slen (utf8s cps) + 2).
    { unfold jquote. rewrite slen_cons, slen_app. change (slen [34]) with 1. lia. }
    destruct (direct_string path (utf8s cps) out) as [[[w out']|e l c]|]; [| |done].
    + destruct Hw as (O' & _ & [(-> & Ht & _)|(-> & Ho & Hk & _)]); (split; [done|]).
      * left. split_and!; [done|by exists cps|]. exists ((cps ≫= jchar) ++ [34]). split; [done|]. by apply jread_quote.
      * right; right. split_and!; [done|done|by apply (lacking_le _ _ _ Hq)].
    + destruct Hw as (? & ? & Hk). split_and!; [done|done|by apply (lacking_le _ _ _ Hq)].
  - specialize (Hw out O). unfold out_of, direct_out in Hw.
    destruct (direct_string path src out) as [[[w out']|e l c]|]; [| |done].
    + destruct Hw as (O' & _ & [(-> & _)|(-> & Ho & Hk & _)]); (split; [done|]); [by right; left|].
      right; right. split_and!; [done|done|by apply (lacking_le _ _ _ Hle)].
    + destruct Hw as (? & ? & Hk). split_and!; [done|done|by apply (lacking_le _ _ _ Hle)].
Qed.

(** ** The encoder *)

Section encoder.
Context `{AllocLaws, CHeapLaws, Yyjson} (path : scan_path) (m : image) (string_len : Z -> Z) (real_text : Z -> option str).
Context (fuel : nat) (schema root mode start_len : Z) (s : BeansJsonTypedSchema) (handle : option Bytes)
  (r : option jval) (c' : BeansJsonEncodeContext).
Hypothesis Hm : image_ok m.
Hypothesis Hlen : forall p, is_i64 (string_len p).
Hypothesis Hroom : forall k, yy_room k = true.
Hypothesis Hreq : request_ok m schema root mode s handle start_len.
Hypothesis Hroot : dom_root m fuel string_len schema root s (mkEnc 0 SIZE_MAX) = Some (r, c').

(** C23: Whatever the allocator does, the direct path comes back within its
    fuel and never leaves its memory: it delivers exactly the compact text of
    the record's tree, into a fresh buffer or after the bytes the caller's
    Bytes already held; or it answers an error and that Bytes holds what it
    held before; or the grow callback panics.  A record without a tree or with
    a string that is not UTF-8 is never delivered. *)
Theorem json_encode_safe :
  let res := enc_json_typed_encode path m fuel false (Some string_len) schema root mode handle start_len in
  refuses handle res \/ exists v text, r = Some v /\ jprint real_text v = Some text /\ delivers handle text res.
Proof.
  cbv zeta. rewrite (entry_paths path m string_len fuel schema root mode s handle start_len false Hreq).
  destruct (request_first m schema root mode s handle start_len Hm Hreq) as (first & Hf & Hfr).
  pose proof (root_sim path m string_len real_text fuel schema root s r _ _ Hm Hlen Hroom (rq_schema _ _ _ _ _ _ _ Hreq)
    (rq_eligible _ _ _ _ _ _ _ Hreq) Hroot) as Ha.
  destruct (direct_encode_ok path m string_len real_text handle start_len schema root s first _ (rq_target _ _ _ _ _ _ _ Hreq) Hf Hfr Ha)
    as [[Hr|(text & Hr & Hd)] _]; [by left|right].
  destruct r as [v|]; cbn in Hr; [|done]. injection Hr as Hr. by exists v, text.
Qed.

Hypothesis Hdoc : yy_doc = true.
Hypothesis Hok : forall v t, jprint real_text v = Some t -> yy_write 0 v = inl t.
Hypothesis Hbad : forall v, jprint real_text v = None -> exists code, yy_write 0 v = inr code.

(** C22: With enough memory the two paths of the encoder are
    interchangeable: they deliver the same bytes with the same results in the
    request buffer, and refuse the same records. *)
Theorem json_paths_agree :
  let direct := enc_json_typed_encode path m fuel false (Some string_len) schema root mode handle start_len in
  let dom := enc_json_typed_encode path m fuel true (Some string_len) schema root mode handle start_len in
  match (v ← r; jprint real_text v) with
  | Some text =>
      (forall first, direct_first_cap m s schema root = Some first -> roomy (start_len + Z.max first (slen text))) ->
      delivers handle text direct /\ delivers handle text dom
  | None => refuses handle direct /\ refuses handle dom
  end.
Proof.
  cbv zeta. rewrite !(entry_paths path m string_len fuel schema root mode s handle start_len _ Hreq).
  destruct (request_first m schema root mode s handle start_len Hm Hreq) as (first & Hf & Hfr).
  pose proof (root_sim path m string_len real_text fuel schema root s r _ _ Hm Hlen Hroom (rq_schema _ _ _ _ _ _ _ Hreq)
    (rq_eligible _ _ _ _ _ _ _ Hreq) Hroot) as Ha.
  destruct (direct_encode_ok path m string_len real_text handle start_len schema root s first _ (rq_target _ _ _ _ _ _ _ Hreq) Hf Hfr Ha)
    as [Hone Hall].
  assert (Hfl : write_flags mode = 0) by (destruct (rq_mode _ _ _ _ _ _ _ Hreq) as [[-> _]|[-> _]]; done).
  pose proof (dom_encode_ok m string_len real_text handle start_len schema root s mode fuel r c' (rq_target _ _ _ _ _ _ _ Hreq)
    Hfl Hok Hbad Hroot) as Hdom. cbv zeta in Hdom.
  destruct (v ← r; jprint real_text v) as [text|] eqn:Hr.
  - intros Hroomy. destruct (Hroomy first Hf) as (Ham & Hma & Hsz).
    assert (Hsome : jprint real_text <$> r = Some (Some text)) by (destruct r as [v|]; [cbn in Hr; cbn; by rewrite Hr|done]).
    split; [apply (Hall text Hsome); [split_and!; [done|done|]|]|apply (Hdom Hdoc); split_and!; [done|done|]]; lia.
  - split; [|exact Hdom]. destruct Hone as [|(text & Hs & _)]; [done|]. destruct r as [v|]; cbn in *; [congruence|done].
Qed.

End encoder.

(** The record's tree in the little image, and that the request is in order. *)
Definition json_tree : option jval * BeansJsonEncodeContext :=
  default (None, mkEnc 0 0) (dom_root json_image 10 json_len 2 1300 page_schema (mkEnc 0 SIZE_MAX)).

Lemma json_root_eq : dom_root json_image 10 json_len 2 1300 page_schema (mkEnc 0 SIZE_MAX) = Some json_tree.
Proof. vm_compute. reflexivity. Qed.

Lemma json_request : request_ok json_image 2 1300 WRITE_COMPACT page_schema None 0.
Proof.
  split; [done|done|done|vm_compute; reflexivity|left; done|done| |done].
  intros w Hw. vm_compute in Hw. injection Hw as <-. lia.
Qed.

Lemma json_len_i64 p : is_i64 (json_len p).
Proof. unfold json_len, is_i64. destruct (p =? 2000); lia. Qed.

Definition quoted_src : str := lit "a" ++ [34; 195; 169; 7].
Definition small_out : BeansJsonDirect := mkDirect (mem_zero 64) 0 64 false None.

Example quoted_text : option_map (fun r => match r with Ok (w, o) => (w, d_text o) | Panic _ _ _ => (0, []) end)
  (direct_string ScanSwar quoted_src small_out) =
  Some (1, [34; 97; 92; 34; 195; 169; 92; 117; 48; 48; 48; 55; 34]).
Proof. vm_compute. reflexivity. Qed.

Lemma json_string_witness : bytes_ok quoted_src /\ out_ok small_out /\
  exists out' q, direct_string ScanSwar quoted_src small_out = Some (Ok (1, out')) /\
    d_text out' = 34 :: q /\ jread q = Some (quoted_src, []).
Proof.
  assert (O : out_ok small_out) by (split; cbn; [reflexivity|lia|lia|constructor|discriminate]).
  assert (B : bytes_ok quoted_src) by (apply bytes_okb_ok; vm_compute; reflexivity).
  split; [exact B|]. split; [exact O|].
  pose proof (json_string_correct ScanSwar quoted_src small_out B ltac:(vm_compute; reflexivity) O) as H.
  destruct (direct_string ScanSwar quoted_src small_out) as [r|] eqn:E; [|destruct H].
  vm_compute in E. injection E as <-.
  destruct H as [_ [(_ & _ & q & Hq & Hr)|[[Hw _]|[Hw _]]]]; [|discriminate Hw..].
  eexists _, q. split; [reflexivity|]. by split.
Defined.

Lemma json_safe_witness : exists text, jprint (fun _ => None) <$> fst json_tree = Some (Some text) /\
  delivers None text (enc_json_typed_encode ScanNeon json_image 10 false (Some json_len) 2 1300 WRITE_COMPACT None 0).
Proof.
  destruct (json_encode_safe ScanNeon json_image json_len (fun _ => None) 10 2 1300 WRITE_COMPACT 0 page_schema None
    (fst json_tree) (snd json_tree) json_image_ok json_len_i64 ltac:(done) json_request
    ltac:(rewrite json_root_eq; reflexivity)) as [Hr|(v & text & Hv & Ht & Hd)].
  - exfalso. assert (He : encode_status false ScanNeon 2 1300 = Some ENC_OK) by (vm_compute; reflexivity).
    unfold encode_status in He. destruct (enc_json_typed_encode _ _ _ _ _ _ _ _ _ _) as [[a|? ? ?]|]; [|done|done].
    destruct Hr as [Hr _]. injection He as He. by apply Hr.
  - exists text. split; [|exact Hd]. rewrite Hv. cbn. by rewrite Ht.
Defined.

Lemma json_roomy : roomy (0 + 4096).
Proof. split; [split|split]; [done| |done|vm_compute; discriminate]. intros n Hn. unfold rt_alloc, json_alloc. by rewrite (proj2 (Z.ltb_lt _ _)) by lia. Qed.

Definition json_text : str := default [] (v ← fst json_tree; jprint (fun _ => None) v).

Lemma json_text_eq : (v ← fst json_tree; jprint (fun _ => None) v) = Some json_text.
Proof. vm_compute. reflexivity. Qed.

Lemma json_room first : direct_first_cap json_image page_schema 2 1300 = Some first ->
  roomy (0 + Z.max first (slen json_text)).
Proof.
  intros Hf. assert (Hf1 : first = 1024) by (vm_compute in Hf; congruence).
  assert (Hl : slen json_text <= 4096) by (vm_compute; discriminate).
  destruct json_roomy as (Ha & Hma & _). split; [exact Ha|]. split; [exact Hma|]. lia.
Qed.

Lemma json_paths_witness :
  delivers None json_text (enc_json_typed_encode ScanSse2 json_image 10 false (Some json_len) 2 1300 WRITE_COMPACT None 0) /\
  delivers None json_text (enc_json_typed_encode ScanSse2 json_image 10 true (Some json_len) 2 1300 WRITE_COMPACT None 0).
Proof.
  assert (Hbad : forall v, jprint (fun _ => None) v = None -> exists code, yy_write 0 v = inr code)
    by (intros v Hv; cbn; rewrite Hv; by exists 7).
  assert (Hok : forall v t, jprint (fun _ => None) v = Some t -> yy_write 0 v = inl t) by (intros v t Hv; cbn; by rewrite Hv).
  pose proof (json_paths_agree ScanSse2 json_image json_len (fun _ => None) 10 2 1300 WRITE_COMPACT 0 page_schema None
    (fst json_tree) (snd json_tree) json_image_ok json_len_i64 (fun _ => eq_refl) json_request
    ltac:(rewrite json_root_eq; reflexivity) eq_refl Hok Hbad) as Hp.
  cbv zeta in Hp. rewrite json_text_eq in Hp. exact (Hp json_room).
Defined.

(** The paths refuse the same records with different errors: a string that is
    not UTF-8 before a null one is invalid data to the direct writer and a
    memory error to the DOM walk. *)
Lemma json_error_order :
  encode_text false ScanSwar 3 1400 = Some (ENC_ERR_INVALID, [], WERR_INVALID) /\
  encode_text true ScanSwar 3 1400 = Some (ENC_ERR_MEMORY, [], WERR_MEMORY).
Proof. vm_compute. split; reflexivity. Qed.
