(* ===== verification/JsonDec.v ===== *)
(** * JsonDec: typed JSON decoding

    [runtime/encoding/beans_enc_json.c]: the key table of a schema, the depth
    limit, and the walk that maps a parsed document into records and lists
    ([beans_json_typed_*_direct], [beans_json_typed_decode_walk] and its entry
    [beans_enc_json_typed_decode_direct]).  The portable fallback through a table
    of field slots ([beans_enc_json_typed_bind]) is not modelled.

    The heap maps each writable address to its byte; the program's constants
    (schemas, keys, names) are an [image] of their own.  A parsed document is
    the tree [jval] of [JsonEnc].  yyjson's reader, the callbacks that make
    lists and blocks, and the host's conversions of numbers are parameters; an
    allocation of theirs that is refused panics.  [None] is an access outside
    the memory, or a walk out of fuel. *)

From stdpp Require Import gmap.
From S2P Require Import Prelude Mem Text Bytes JsonScan JsonOut JsonEnc.

Open Scope c_scope.

Definition TYPED_DEFAULT : Z := 2.
Definition TYPED_ALLOW_UNKNOWN : Z := 1.
Definition TYPED_HAS_MISSING : Z := 4.

Definition TYPED_ERR_ROOT : Z := 101.
Definition TYPED_ERR_UNKNOWN : Z := 102.
Definition TYPED_ERR_DUPLICATE : Z := 103.
Definition TYPED_ERR_TYPE : Z := 104.
Definition TYPED_ERR_RANGE : Z := 105.
Definition TYPED_ERR_MISSING : Z := 106.
Definition TYPED_ERR_NULL : Z := 107.
Definition TYPED_ERR_DEPTH : Z := 108.

Definition JSON_ERR_MEMORY : Z := 3.
Definition JSON_ERR_EMPTY : Z := 10.
Definition ENC_ERR_RANGE : Z := 2.
Definition ENC_ERR_TYPE : Z := 3.

(** ** The key table *)

Definition json_typed_key_hash (text : str) (mask : Z) : Z :=
  fold_left (fun hash c => u64 (u64 ((hash <<! 5) + hash) + c) &! mask) text 0.

(** [a] and [b] have the same length. *)
Definition json_name_eq (a b : str) : bool := bool_decide (a = b).

(** [for (scanned = 0; scanned <= key_mask; scanned++)]; [Some None] is the
    null pointer. *)
Fixpoint find_key_loop (im : image) (n : nat) (keys : list BeansJsonTypedKey) (mask : Z) (text : str) (slot : Z)
    : option (option BeansJsonTypedKey) :=
  match n with
  | O => Some None
  | S n =>
      key ← keys !! Z.to_nat slot;
      if k_field key =? 0 then Some None
      else
        same ← (if k_len key =? slen text then name ← rd im (k_name key) (k_len key); Some (json_name_eq name text) else Some false);
        if (same : bool) then Some (Some key) else find_key_loop im n keys mask text ((slot + 1) &! mask)
  end.

Definition json_typed_find_key (im : image) (s : BeansJsonTypedSchema) (text : str) : option (option BeansJsonTypedKey) :=
  keys ← s_keys s;
  find_key_loop im (Z.to_nat (s_key_mask s + 1)) keys (s_key_mask s) text (json_typed_key_hash text (s_key_mask s)).

(** ** The depth limit *)

Definition is_ctn (v : jval) : bool := match v with JArr _ | JObj _ => true | _ => false end.

Fixpoint json_typed_within_depth (v : jval) (depth maximum : Z) : bool :=
  if maximum <? depth then false
  else
    match v with
    | JArr vs =>
        negb ((0 <? Z.of_nat (length vs)) && (maximum <? depth + 1)) &&
        forallb (fun item => negb (is_ctn item) || json_typed_within_depth item (depth + 1) maximum) vs
    | JObj kvs =>
        negb ((0 <? Z.of_nat (length kvs)) && (maximum <? depth + 1)) &&
        forallb (fun kv => negb (is_ctn (snd kv)) || json_typed_within_depth (snd kv) (depth + 1) maximum) kvs
    | _ => true
    end.

(** ** Numbers *)

(** 1 and the word, 0 for no integer, -1 out of range; a shift by less than
    nothing is [None]. *)
Definition json_typed_integer (v : jval) (want_unsigned : bool) (bits : Z) : option (Z * Z) :=
  match v with
  | JUint n | JSint n =>
      if want_unsigned then
        if n <? 0 then Some (-1, 0)
        else if (bits <? 64) && (2 ^ bits - 1 <? n) then Some (-1, 0)
        else Some (1, n)
      else
        if 2 ^ 63 - 1 <? n then Some (-1, 0)
        else if bits <? 64 then
          if bits <=? 0 then None
          else if (n <? - 2 ^ (bits - 1)) || (2 ^ (bits - 1) - 1 <? n) then Some (-1, 0)
          else Some (1, u64 n)
        else Some (1, u64 n)
  | _ => Some (0, 0)
  end.

(** The callbacks of a request, and the conversions of the host on the bits of
    floating point numbers. *)
Class DecodeHost : Type := {
  new_list : Z -> Z -> Z -> gmap Z Z -> option (Z * gmap Z Z);
  allocate : Z -> Z -> gmap Z Z -> option (Z * gmap Z Z);
  alloc_bytes : Z -> Z -> gmap Z Z -> option (Z * gmap Z Z);
  int_to_f64 : Z -> Z;
  narrow_f32 : Z -> Z;
  f32_finite : Z -> bool
}.

(** [yyjson_get_num]; [None] for no number. *)
Definition json_get_num `{DecodeHost} (v : jval) : option Z :=
  match v with JUint n | JSint n => Some (int_to_f64 n) | JReal bits => Some bits | _ => None end.

(** ** The state of a decode *)

(** [req[5]] and [req[7]] of the request; the pointers released so far. *)
Record decode : Type := mkDecode {
  dc_heap : gmap Z Z;
  dc_req5 : Z;
  dc_req7 : Z;
  dc_released : list Z
}.

(** A refused allocation is the runtime's panic. *)
Definition decoder (A : Type) : Type := decode -> option (result (A * decode)).
#[export] Instance decoder_ret : MRet decoder := fun _ a d => Some (Ok (a, d)).
#[export] Instance decoder_bind : MBind decoder := fun _ _ f m d =>
  match m d with
  | Some (Ok (a, d)) => f a d
  | Some (Panic msg line col) => Some (Panic msg line col)
  | None => None
  end.

Definition lift {A} (o : option A) : decoder A := fun d => match o with Some a => Some (Ok (a, d)) | None => None end.
Definition get_heap : decoder (gmap Z Z) := fun d => Some (Ok (dc_heap d, d)).
Definition set_heap (h : gmap Z Z) : decoder unit := fun d => Some (Ok (tt, mkDecode h (dc_req5 d) (dc_req7 d) (dc_released d))).
Definition set_req5 (code : Z) : decoder unit := fun d => Some (Ok (tt, mkDecode (dc_heap d) code (dc_req7 d) (dc_released d))).
Definition set_index (index : Z) : decoder unit := fun d => Some (Ok (tt, mkDecode (dc_heap d) (dc_req5 d) index (dc_released d))).
Definition release (p : Z) : decoder unit := fun d => Some (Ok (tt, mkDecode (dc_heap d) (dc_req5 d) (dc_req7 d) (p :: dc_released d))).

(** [memcpy] to [p]: every byte is mapped. *)
Definition wr (h : gmap Z Z) (p : Z) (bs : str) : option (gmap Z Z) :=
  if forallb (fun a => bool_decide (is_Some (h !! a))) (seqZ p (slen bs)) then Some (map_seqZ p bs ∪ h) else None.

Definition store (p : Z) (bs : str) : decoder unit := h ← get_heap; h ← lift (wr h p bs); set_heap h.

(** A pointer as [memcpy(target, &p, sizeof p)] leaves it. *)
Definition word_bytes (p : Z) : str := rt_store_le p 8.

(** An allocating callback: the block and the heap with it, or a panic. *)
Definition call (f : gmap Z Z -> option (Z * gmap Z Z)) : decoder Z :=
  h ← get_heap;
  match f h with
  | Some (p, h) => _ ← set_heap h; mret p
  | None => fun _ => Some (Panic out_of_memory 0 0)
  end.

Definition heap_image (im : image) (h : gmap Z Z) : image := mkImage (fun p => h !! p) (im_schema im).
Definition load_word (im : image) (p : Z) : decoder Z := h ← get_heap; lift (rd_le (heap_image im h) p 8).
Definition load_prefix (im : image) (p : Z) : decoder list_prefix := h ← get_heap; lift (rd_prefix (heap_image im h) p).

(** ** Scalars in memory *)

Definition json_typed_storage_stride (value_size kind : Z) : Z :=
  if kind =? TYPED_STRUCT then i64 value_size else if kind =? TYPED_F32 then 4 else -8.

Definition integer_bytes (value bits : Z) : str :=
  if bits =? 8 then rt_store_le (u8 value) 1
  else if bits =? 16 then rt_store_le (value mod 2 ^ 16) 2
  else if bits =? 32 then rt_store_le (u32 value) 4
  else rt_store_le value 8.
Definition json_typed_write_integer (target value bits : Z) : decoder unit := store target (integer_bytes value bits).

Fixpoint missing_loop (rows : list row) (record : Z) : decoder unit :=
  match rows with
  | [] => mret tt
  | (_, f, complex) :: rows =>
      _ ← match complex with
          | Some x => if x_missing_value x =? 0 then mret tt else store (record + f_value_offset f) (word_bytes (x_missing_value x))
          | None => mret tt
          end;
      missing_loop rows record
  end.

Definition json_typed_init_record (s : BeansJsonTypedSchema) (record : Z) : decoder unit :=
  _ ← store record (mem_zero (s_record_size s));
  if has_flag (s_flags s) TYPED_HAS_MISSING then rows ← lift (schema_rows s); missing_loop rows record
  else mret tt.

(** ** The fields met so far: bits in words of 64 *)

Definition seen_bit (seen : list Z) (index : Z) : option bool :=
  word ← seen !! Z.to_nat (index >>! 6); Some (negb ((word &! (1 <<! (index &! 63))) =? 0)).
Definition seen_set (seen : list Z) (index : Z) : list Z :=
  alter (fun word => word |! (1 <<! (index &! 63))) (Z.to_nat (index >>! 6)) seen.

(** [memset(seen, 0)], then the bits below [expected]. *)
Definition seen_init (words expected : Z) : list Z :=
  fold_left seen_set (seqZ 0 expected) (replicate (Z.to_nat words) 0).

(** ** The walk *)

Section walk.
Context `{DecodeHost, CHeap} (im : image) (has_new_list : bool) (max_depth : Z).

Section value.
(** [beans_json_typed_value_direct] itself, for what is nested. *)
Context (value_direct : vdesc -> Z -> jval -> Z -> Z -> decoder Z).

Definition element_mask (complex : option BeansJsonTypedComplex) : Z :=
  match complex with Some x => x_element_pointer_mask x | None => 0 end.

Definition store_value (f : BeansJsonTypedField) (complex : option BeansJsonTypedComplex) (record : Z) (v : jval) (target depth : Z)
    : decoder Z :=
  status ← value_direct (field_desc f complex) (element_mask complex) v target depth;
  if negb (status =? 0) then mret status
  else
    _ ← (if f_presence_offset f =? SIZE_MAX then mret tt else store (record + f_presence_offset f) [1]);
    mret 0.

Definition json_typed_store_direct (rows : list row) (index : Z) (v : jval) (record depth : Z) : decoder Z :=
  '(_, f, complex) ← lift (rows !! Z.to_nat index);
  match v with
  | JNull => mret (if has_flag (f_flags f) TYPED_OPTIONAL then 0 else TYPED_ERR_NULL)
  | _ =>
      if has_flag (f_flags f) TYPED_BOXED_OPTION then
        match complex with
        | None => mret TYPED_ERR_TYPE
        | Some x =>
            box ← call (allocate (x_box_size x) (x_box_meta x));
            _ ← store box (mem_zero (x_box_size x));
            _ ← store (record + f_value_offset f) (word_bytes box);
            store_value f complex record v (box + x_box_value_offset x) depth
        end
      else store_value f complex record v (record + f_value_offset f) depth
  end.

(** [while ((item = next) != NULL)]; [index] elements are stored. *)
Fixpoint list_direct_loop (d : vdesc) (list_ptr stride : Z) (index : Z) (vs : list jval) (depth : Z) : decoder Z :=
  match vs with
  | [] => mret 0
  | item :: vs =>
      output ← load_prefix im list_ptr;
      let destination := lp_data output + index * stride in
      _ ← store destination (mem_zero (v_element_size d));
      _ ← store (list_ptr + 8) (word_bytes (index + 1));
      status ← value_direct (element_desc (v_element_kind d) (v_element_schema d) (v_element_size d)) 0 item destination (depth + 1);
      if negb (status =? 0) then mret status else list_direct_loop d list_ptr stride (index + 1) vs depth
  end.

Definition json_typed_list_direct (d : vdesc) (mask : Z) (v : jval) (target depth : Z) : decoder Z :=
  match v with
  | JArr vs =>
      if negb has_new_list || (v_element_size d =? 0) then mret TYPED_ERR_TYPE
      else
        list_ptr ← call (new_list (json_typed_storage_stride (v_element_size d) (v_element_kind d)) mask (Z.of_nat (length vs)));
        _ ← store target (word_bytes list_ptr);
        output ← load_prefix im list_ptr;
        list_direct_loop d list_ptr (typed_list_stride output) 0 vs depth
  | _ => mret TYPED_ERR_TYPE
  end.

(** What an object's loop carries: [expected], and [seen] once a member came
    out of order. *)
Record progress : Type := mkProgress { pg_expected : Z; pg_seen : option (list Z) }.

(** The field a member's name stands for, or the answer that ends the walk. *)
Inductive place : Type := PField (index : Z) (pg : progress) | PSkip (pg : progress) | PStop (code : Z).

Definition member_place (s : BeansJsonTypedSchema) (rows : list row) (name : str) (pg : progress) : option place :=
  let ordered := bool_decide (pg_seen pg = None) in
  expected_here ←
    (if ordered && (pg_expected pg <? s_field_count s) then
       '(_, f, _) ← rows !! Z.to_nat (pg_expected pg);
       if f_primary_name_len f =? slen name then
         primary ← rd im (f_primary_name f) (f_primary_name_len f); Some (json_name_eq primary name)
       else Some false
     else Some false);
  if (expected_here : bool) then Some (PField (pg_expected pg) (mkProgress (pg_expected pg + 1) None))
  else
    let seen := match pg_seen pg with Some seen => seen | None => seen_init ((s_field_count s + 63) / 64) (pg_expected pg) end in
    let pg := mkProgress (pg_expected pg) (Some seen) in
    key ← json_typed_find_key im s name;
    match key with
    | None => Some (if has_flag (s_flags s) TYPED_ALLOW_UNKNOWN then PSkip pg else PStop TYPED_ERR_UNKNOWN)
    | Some key =>
        let index := k_field key - 1 in
        dup ← seen_bit seen index;
        Some (if (dup : bool) then PStop TYPED_ERR_DUPLICATE else PField index (mkProgress (pg_expected pg) (Some (seen_set seen index))))
    end.

(** The members; the progress at the end, or the status that ends the walk. *)
Fixpoint object_loop (s : BeansJsonTypedSchema) (rows : list row) (record depth : Z) (kvs : list (str * jval)) (pg : progress)
    : decoder (progress + Z) :=
  match kvs with
  | [] => mret (inl pg)
  | (name, v) :: kvs =>
      at_ ← lift (member_place s rows name pg);
      match at_ with
      | PStop code => _ ← set_req5 code; mret (inr ENC_ERR_INVALID)
      | PSkip pg =>
          if json_typed_within_depth v (depth + 1) max_depth then object_loop s rows record depth kvs pg
          else _ ← set_req5 TYPED_ERR_DEPTH; mret (inr ENC_ERR_INVALID)
      | PField index pg =>
          _ ← set_index index;
          code ← json_typed_store_direct rows index v record (depth + 1);
          if code =? 0 then object_loop s rows record depth kvs pg
          else if code <? 0 then mret (inr (- code))
          else
            _ ← set_req5 code;
            mret (inr (if code =? TYPED_ERR_RANGE then ENC_ERR_RANGE else ENC_ERR_TYPE))
      end
  end.

Definition may_miss (f : BeansJsonTypedField) : bool :=
  negb ((f_flags f &! (TYPED_OPTIONAL |! TYPED_DEFAULT |! TYPED_IGNORED)) =? 0).

Fixpoint missing_check (rows : list row) (seen : option (list Z)) : decoder Z :=
  match rows with
  | [] => mret ENC_OK
  | (index, f, _) :: rows =>
      stored ← lift (match seen with Some seen => seen_bit seen index | None => Some false end);
      if (stored : bool) || may_miss f then missing_check rows seen
      else _ ← set_req5 TYPED_ERR_MISSING; _ ← set_index index; mret ENC_ERR_INVALID
  end.

Definition json_typed_object_direct (schema : Z) (v : jval) (record depth : Z) : decoder Z :=
  match v with
  | JObj kvs =>
      s ← lift (im_schema im schema);
      rows ← lift (schema_rows s);
      let seen_words := (s_field_count s + 63) / 64 in
      if (2 <? seen_words) && bool_decide (c_malloc (seen_words * 8) = None) then
        _ ← set_req5 JSON_ERR_MEMORY; mret ENC_ERR_MEMORY
      else
        ended ← object_loop s rows record depth kvs (mkProgress 0 None);
        match ended with
        | inr status => mret status
        | inl pg => missing_check (match pg_seen pg with None => drop (Z.to_nat (pg_expected pg)) rows | Some _ => rows end) (pg_seen pg)
        end
  | _ => _ ← set_req5 TYPED_ERR_ROOT; mret ENC_ERR_TYPE
  end.

End value.

(** One unit of fuel a nested value. *)
Fixpoint json_typed_value_direct (fuel : nat) (d : vdesc) (mask : Z) (v : jval) (target depth : Z) : decoder Z :=
  match fuel with
  | O => fun _ => None
  | S fuel =>
      let kind := v_kind d in
      if max_depth <? depth then mret TYPED_ERR_DEPTH
      else if kind =? TYPED_BOOL then
        match v with
        | JBool b => _ ← store target [if b then 1 else 0]; mret 0
        | _ => mret TYPED_ERR_TYPE
        end
      else if (kind =? TYPED_SINT) || (kind =? TYPED_UINT) then
        let bits := flag_bits (v_flags d) in
        '(result, integer) ← lift (json_typed_integer v (kind =? TYPED_UINT) bits);
        if result =? 0 then mret TYPED_ERR_TYPE
        else if result <? 0 then mret TYPED_ERR_RANGE
        else _ ← json_typed_write_integer target integer bits; mret 0
      else if kind =? TYPED_F32 then
        match json_get_num v with
        | Some number =>
            let narrowed := narrow_f32 number in
            if f32_finite narrowed then _ ← store target (rt_store_le narrowed 4); mret 0 else mret TYPED_ERR_RANGE
        | None => mret TYPED_ERR_TYPE
        end
      else if kind =? TYPED_F64 then
        match json_get_num v with
        | Some number => _ ← store target (rt_store_le number 8); mret 0
        | None => mret TYPED_ERR_TYPE
        end
      else if kind =? TYPED_STRING then
        match v with
        | JStr text =>
            string ← call (alloc_bytes (slen text + 1) (u64 (Z.shiftl (slen text) 3)));
            _ ← store string text;
            _ ← store (string + slen text) [0];
            _ ← store target (word_bytes string);
            mret 0
        | _ => mret TYPED_ERR_TYPE
        end
      else if kind =? TYPED_STRUCT then
        if v_child_schema d =? 0 then mret TYPED_ERR_TYPE
        else
          s ← lift (im_schema im (v_child_schema d));
          _ ← json_typed_init_record s target;
          status ← json_typed_object_direct (json_typed_value_direct fuel) (v_child_schema d) v target depth;
          mret (if status =? ENC_OK then 0 else - status)
      else if kind =? TYPED_LIST then json_typed_list_direct (json_typed_value_direct fuel) d mask v target depth
      else mret TYPED_ERR_TYPE
  end.

(** *** Giving a refused record back *)

(** One unit of fuel a nested record. *)
Fixpoint json_typed_release_record (fuel : nat) (schema record : Z) : decoder unit :=
  match fuel with
  | O => fun _ => None
  | S fuel =>
      s ← lift (im_schema im schema);
      rows ← lift (schema_rows s);
      (fix fields (rows : list row) : decoder unit :=
        match rows with
        | [] => mret tt
        | (_, f, complex) :: rows =>
            let value := record + f_value_offset f in
            _ ← (if has_flag (f_flags f) TYPED_BOXED_OPTION then
                   box ← load_word im value; if box =? 0 then mret tt else release box
                 else if (f_kind f =? TYPED_STRING) || (f_kind f =? TYPED_LIST) then
                   owned ← load_word im value; if owned =? 0 then mret tt else release owned
                 else
                   match complex with
                   | Some x =>
                       if (f_kind f =? TYPED_STRUCT) && negb (x_child_schema x =? 0)
                       then json_typed_release_record fuel (x_child_schema x) value else mret tt
                   | None => mret tt
                   end);
            fields rows
        end) rows
  end.

(** *** The document *)

(** The records of a root array, while they decode. *)
Fixpoint records_loop (fuel : nat) (schema : Z) (s : BeansJsonTypedSchema) (list_ptr stride index : Z) (vs : list jval) : decoder Z :=
  match vs with
  | [] => mret ENC_OK
  | item :: vs =>
      output ← load_prefix im list_ptr;
      let record := lp_data output + index * stride in
      _ ← json_typed_init_record s record;
      _ ← store (list_ptr + 8) (word_bytes (index + 1));
      status ← json_typed_object_direct (json_typed_value_direct fuel) schema item record 2;
      if negb (status =? ENC_OK) then mret status else records_loop fuel schema s list_ptr stride (index + 1) vs
  end.

(** The status, and [req[3]]. *)
Definition decode_root (fuel : nat) (schema : Z) (s : BeansJsonTypedSchema) (root : jval) (req3 : Z) : decoder (Z * Z) :=
  if has_flag (s_flags s) TYPED_ROOT_ARRAY then
    let vs := match root with JArr vs => vs | _ => [] end in
    let count := Z.of_nat (length vs) in
    if negb has_new_list then _ ← set_req5 JSON_ERR_MEMORY; mret (ENC_ERR_MEMORY, req3)
    else if (0 <? count) && (max_depth <? 2) then _ ← set_req5 TYPED_ERR_DEPTH; mret (ENC_ERR_INVALID, req3)
    else
      list_ptr ← call (new_list (json_typed_storage_stride (s_record_size s) TYPED_STRUCT) (s_pointer_mask s) count);
      output ← load_prefix im list_ptr;
      status ← records_loop fuel schema s list_ptr (typed_list_stride output) 0 vs;
      if status =? ENC_OK then mret (status, list_ptr)
      else if list_ptr =? 0 then mret (status, list_ptr)
      else _ ← release list_ptr; mret (status, 0)
  else
    _ ← json_typed_init_record s req3;
    status ← json_typed_object_direct (json_typed_value_direct fuel) schema root req3 1;
    _ ← (if status =? ENC_OK then mret tt else json_typed_release_record fuel schema req3);
    mret (status, req3).

End walk.

(** *** The entry *)

Definition READ_ALLOW_COMMENTS : Z := 1.
Definition READ_ALLOW_TRAILING_COMMAS : Z := 2.
Definition READ_ALLOW_INF_AND_NAN : Z := 4.
Definition READ_INSITU : Z := 8.
Definition YYJSON_READ_INSITU : Z := 1.
Definition YYJSON_READ_ALLOW_TRAILING_COMMAS : Z := 4.
Definition YYJSON_READ_ALLOW_COMMENTS : Z := 8.
Definition YYJSON_READ_ALLOW_INF_AND_NAN : Z := 16.

Definition read_flags (options : Z) : Z :=
  let add bit flag flags := if has_flag options bit then flags |! flag else flags in
  add READ_INSITU YYJSON_READ_INSITU
    (add READ_ALLOW_INF_AND_NAN YYJSON_READ_ALLOW_INF_AND_NAN
      (add READ_ALLOW_TRAILING_COMMAS YYJSON_READ_ALLOW_TRAILING_COMMAS (add READ_ALLOW_COMMENTS YYJSON_READ_ALLOW_COMMENTS 0))).

(** yyjson's codes, by their numbers in [yyjson.h]. *)
Definition json_map_read_code (code : Z) : Z :=
  if code =? 2 then JSON_ERR_MEMORY else if code =? 3 then JSON_ERR_EMPTY else if code =? 5 then 2
  else if code =? 4 then 4 else if code =? 9 then 5 else if code =? 10 then 6 else if code =? 11 then 7
  else if code =? 8 then 8 else if code =? 7 then 9 else 1.

(** The reader: the tree of a text under read flags, or a code and an offset. *)
Class YyRead : Type := yy_read : Z -> str -> jval + Z * Z.

(** How deep a tree nests; a walk needs no more fuel. *)
Fixpoint jheight (v : jval) : nat :=
  match v with
  | JArr vs => S (foldr (fun v n => Nat.max (jheight v) n) O vs)
  | JObj kvs => S (foldr (fun kv n => Nat.max (jheight (snd kv)) n) O kvs)
  | _ => 1
  end.

(** The answer: the status, [req[3]], [req[5]] to [req[7]], and the memory. *)
Record decode_answer : Type := mkDecoded {
  da_status : Z;
  da_req3 : Z;
  da_req5 : Z;
  da_req6 : Z;
  da_req7 : Z;
  da_heap : gmap Z Z;
  da_released : list Z
}.

Section entry.
Context `{DecodeHost, CHeap, YyRead} (im : image).

(** [callbacks]: both the allocator and the release were given; [nest] bounds
    the nesting of the schema's records. *)
Definition json_typed_decode_walk (nest : nat) (callbacks has_new_list : bool) (src : str) (options schema req3 : Z) (h : gmap Z Z)
    : run decode_answer :=
  let stop status req5 req6 := Some (Ok (mkDecoded status req3 req5 req6 SIZE_MAX h [])) in
  if schema =? 0 then stop ENC_ERR_INVALID TYPED_ERR_TYPE 0
  else
    s ← must (im_schema im schema);
    match s_keys s, s_fields s with
    | Some _, Some _ =>
        if negb callbacks || (s_record_size s =? 0) then stop ENC_ERR_INVALID TYPED_ERR_TYPE 0
        else if slen src =? 0 then stop ENC_ERR_INVALID JSON_ERR_EMPTY 0
        else
          match yy_read (read_flags options) src with
          | inr (code, pos) => stop ENC_ERR_INVALID (json_map_read_code code) pos
          | inl root =>
              let max_depth := options >>! 8 in
              let root_array := has_flag (s_flags s) TYPED_ROOT_ARRAY in
              if max_depth =? 0 then stop ENC_ERR_INVALID TYPED_ERR_DEPTH 0
              else
                match root_array, root with
                | true, JArr _ | false, JObj _ =>
                    let count := match root with JArr vs => Z.of_nat (length vs) | _ => 1 end in
                    '((status, req3), d) ← decode_root im has_new_list max_depth (Nat.max nest (jheight root)) schema s root req3
                      (mkDecode h 0 SIZE_MAX []);
                    Some (Ok (mkDecoded status req3 (dc_req5 d) count (if status =? ENC_OK then SIZE_MAX else dc_req7 d) (dc_heap d) (dc_released d)))
                | _, _ => stop ENC_ERR_TYPE TYPED_ERR_ROOT 0
                end
          end
    | _, _ => stop ENC_ERR_INVALID TYPED_ERR_TYPE 0
    end.

(** What the probe is told: the status and [req[5]] to [req[7]]. *)
Definition decode_probe (a : decode_answer) : Z * Z * Z * Z := (da_status a, da_req5 a, da_req6 a, da_req7 a).
Definition enc_json_typed_decode_direct (nest : nat) (callbacks has_new_list publish : bool) (src : str) (options schema req3 : Z) (h : gmap Z Z)
    : run (decode_answer * option (Z * Z * Z * Z)) :=
  a ← json_typed_decode_walk nest callbacks has_new_list src options schema req3 h;
  Some (Ok (a, if publish then Some (decode_probe a) else None)).

End entry.
