(* ===== verification/JsonRead.v ===== *)
(** * JsonRead: what a decode writes and an encode reads

    Writes and reads of the decoder's heap, and the values an encode finds in a
    memory: [reads_tree m d p slot v] says that the encoder's tree of the value
    at [p] is [v].  It only depends on the bytes the encoder reads, so it
    survives every change of the other bytes. *)

From stdpp Require Import gmap.
From S2P Require Import Prelude Mem Text Bytes JsonScan JsonOut JsonEnc JsonSim JsonDec.

Open Scope c_scope.

Implicit Types (h : gmap Z Z) (R : Z -> bool) (v : jval).

(** ** Ranges of the heap *)

Definition range (p n : Z) : Z -> bool := fun a => (p <=? a) && (a <? p + n).

Lemma range_true p n a : range p n a = true <-> p <= a < p + n.
Proof. unfold range. rewrite andb_true_iff, Z.leb_le, Z.ltb_lt. done. Qed.

(** Every byte of the region can be written. *)
Definition mapped h R : Prop := forall a, R a = true -> is_Some (h !! a).

(** The later heap has the same bytes outside [R] and no fewer. *)
Definition frame h h' R : Prop := forall a, is_Some (h !! a) -> is_Some (h' !! a) /\ (R a = false -> h' !! a = h !! a).

Lemma frame_refl h R : frame h h R.
Proof. intros a Ha. done. Qed.

Lemma frame_trans h1 h2 h3 R : frame h1 h2 R -> frame h2 h3 R -> frame h1 h3 R.
Proof.
  intros H12 H23 a Ha. destruct (H12 a Ha) as [Hs He]. destruct (H23 a Hs) as [Hs' He']. split; [done|].
  intros HR. by rewrite He', He.
Qed.

Lemma frame_weaken h h' R R' : frame h h' R -> (forall a, R a = true -> R' a = true) -> frame h h' R'.
Proof. intros Hf HR a Ha. destruct (Hf a Ha) as [Hs He]. split; [done|]. intros Hn. apply He. destruct (R a) eqn:Hr; [|done]. by rewrite (HR a Hr) in Hn. Qed.

(** Changes of bytes the first heap did not have. *)
Lemma frame_fresh h1 h2 h3 R R' : frame h1 h2 R -> frame h2 h3 R' -> (forall a, is_Some (h1 !! a) -> R' a = true -> R a = true) -> frame h1 h3 R.
Proof.
  intros H12 H23 HR a Ha. destruct (H12 a Ha) as [Hs He]. destruct (H23 a Hs) as [Hs' He']. split; [done|].
  intros Hn. assert (R' a = false) as Hn'. { destruct (R' a) eqn:Hr; [|done]. by rewrite HR in Hn. }
  by rewrite He', He.
Qed.

Lemma kept_none h h' R a : frame h h' R -> h' !! a = None -> h !! a = None.
Proof. intros Hf Hn. destruct (h !! a) as [b|] eqn:Hb; [|done]. destruct (Hf a ltac:(done)) as [[c Hs] _]. congruence. Qed.

Lemma mapped_frame h h' R R' : mapped h R -> frame h h' R' -> mapped h' R.
Proof. intros Hm Hf a Ha. apply Hf, Hm, Ha. Qed.

Lemma lookup_bytes (p : Z) (bs : str) a : (map_seqZ p bs : gmap Z Z) !! a = if range p (slen bs) a then bs !! Z.to_nat (a - p) else None.
Proof.
  destruct (range p (slen bs) a) eqn:Hr.
  - apply range_true in Hr. rewrite lookup_map_seqZ. by rewrite option_guard_True by lia.
  - destruct ((map_seqZ p bs : gmap Z Z) !! a) as [b|] eqn:Hb; [|done]. apply lookup_map_seqZ_Some in Hb as [Hp Hb].
    apply lookup_lt_Some in Hb. assert (range p (slen bs) a = true) as Ht by (apply range_true; unfold slen; lia). congruence.
Qed.

Lemma wr_ok h p bs : mapped h (range p (slen bs)) -> exists h', wr h p bs = Some h' /\ frame h h' (range p (slen bs)) /\
  (forall a, h !! a = None -> h' !! a = None) /\ forall a, range p (slen bs) a = true -> h' !! a = bs !! Z.to_nat (a - p).
Proof.
  intros Hm. unfold wr. rewrite (proj2 (forallb_forall _ _)).
  2: { intros a [Ha1 Ha2]%list_elem_of_In%elem_of_seqZ. apply bool_decide_eq_true, Hm, range_true. lia. }
  eexists. split; [done|]. assert (Hl : forall a, (map_seqZ p bs ∪ h) !! a = if range p (slen bs) a then bs !! Z.to_nat (a - p) else h !! a).
  { intros a. rewrite lookup_union, lookup_bytes. destruct (range p (slen bs) a) eqn:Hr; [|by rewrite (left_id_L None _)].
    apply range_true in Hr. destruct (lookup_lt_is_Some_2 bs (Z.to_nat (a - p))) as [b ->]; [unfold slen in Hr; lia|]. by destruct (h !! a). }
  split_and!.
  - intros a Ha. rewrite Hl. destruct (range p (slen bs) a) eqn:Hr; [|done]. apply range_true in Hr. split; [|done].
    apply lookup_lt_is_Some_2. unfold slen in Hr. lia.
  - intros a Ha. rewrite Hl. destruct (range p (slen bs) a) eqn:Hr; [|done]. destruct (Hm a Hr) as [? Hs]. congruence.
  - intros a Ha. by rewrite Hl, Ha.
Qed.

(** ** Memories that agree *)

(** [m'] has the bytes of [m] and perhaps more. *)
Record ext (m m' : image) : Prop := {
  ext_byte : forall a b, im_byte m a = Some b -> im_byte m' a = Some b;
  ext_schema : im_schema m' = im_schema m
}.

Lemma ext_refl m : ext m m.
Proof. done. Qed.

Lemma ext_trans m1 m2 m3 : ext m1 m2 -> ext m2 m3 -> ext m1 m3.
Proof. intros [H1 E1] [H2 E2]. split; [auto|congruence]. Qed.

(** The constants under the heap; the bytes of a part of it: those of the
    region, and those the earlier heap did not have. *)
Definition full (im : image) h : image := mkImage (fun a => match h !! a with Some b => Some b | None => im_byte im a end) (im_schema im).
Definition foot (im : image) h h' R : image :=
  mkImage (fun a => if R a || bool_decide (h !! a = None) then im_byte (full im h') a else None) (im_schema im).

Lemma foot_full im h h' R : ext (foot im h h' R) (full im h').
Proof. split; [|done]. intros a b. cbn. by destruct (_ || _). Qed.

(** Later changes spare what was read: they hit other bytes of the first heap,
    or bytes that are newer. *)
Lemma foot_ext im h h1 h2 h3 R1 R2 R : frame h2 h3 R2 -> (forall a, h1 !! a = None -> h !! a = None) ->
  (forall a, R1 a = true -> R a = true \/ h !! a = None) -> (forall a, is_Some (h2 !! a) -> R1 a = true \/ h1 !! a = None -> R2 a = false) ->
  (forall a, im_byte im a <> None -> h3 !! a = None) -> ext (foot im h1 h2 R1) (foot im h h3 R).
Proof.
  intros H23 Hn H1 H2 Him. split; [|done]. intros a b. cbn. destruct (R1 a || bool_decide (h1 !! a = None)) eqn:Hr; [|done].
  assert (Hold : R1 a = true \/ h1 !! a = None) by (apply orb_true_iff in Hr as [?|?%bool_decide_eq_true]; auto).
  assert (Hnew : R a || bool_decide (h !! a = None) = true).
  { apply orb_true_iff. rewrite bool_decide_eq_true. destruct Hold as [Hr1|Hnone]; auto. }
  rewrite Hnew. destruct (h2 !! a) as [c|] eqn:Hc.
  - intros [= <-]. destruct (H23 a ltac:(done)) as [_ He]. by rewrite (He (H2 a ltac:(done) Hold)), Hc.
  - intros Hb. rewrite Him by congruence. done.
Qed.

Section reads.
Context (m m' : image) (Hx : ext m m').

Lemma rd_ext p n s : rd m p n = Some s -> rd m' p n = Some s.
Proof.
  unfold rd. rewrite !mapM_Some. intros Hr. eapply Forall2_impl; [exact Hr|]. intros a b. apply (ext_byte _ _ Hx).
Qed.

Lemma rd_le_ext p n w : rd_le m p n = Some w -> rd_le m' p n = Some w.
Proof. unfold rd_le. intros Hr. destruct (rd m p n) as [s|] eqn:He; [|done]. by rewrite (rd_ext _ _ _ He). Qed.

Lemma rd_prefix_ext p l : rd_prefix m p = Some l -> rd_prefix m' p = Some l.
Proof.
  unfold rd_prefix. destruct (rd_le m p 8) as [d|] eqn:H1; [|done]. destruct (rd_le m (p + 8) 8) as [n|] eqn:H2; [|done].
  destruct (rd_le m (p + 24) 8) as [t|] eqn:H3; [|done]. by rewrite (rd_le_ext _ _ _ H1), (rd_le_ext _ _ _ H2), (rd_le_ext _ _ _ H3).
Qed.

Lemma read_integer_ext p bits uns slot w : typed_read_integer m p bits uns slot = Some w -> typed_read_integer m' p bits uns slot = Some w.
Proof.
  unfold typed_read_integer. destruct slot; [apply rd_le_ext|]. destruct (bool_decide _); [|apply rd_le_ext].
  destruct (rd_le m p (bits / 8)) as [u|] eqn:He; [|done]. by rewrite (rd_le_ext _ _ _ He).
Qed.

Lemma field_place_ext record f x r : field_place m record f x = Some r -> field_place m' record f x = Some r.
Proof.
  unfold field_place. cbv zeta. destruct (has_flag _ _); [|done]. destruct (negb _).
  - destruct (rd_le m _ 1) as [b|] eqn:He; [|done]. by rewrite (rd_le_ext _ _ _ He).
  - destruct (has_flag _ _); destruct (rd_le m _ 8) as [b|] eqn:He; try done; by rewrite (rd_le_ext _ _ _ He).
Qed.
End reads.

(** ** The trees an encode reads

    A string's length is in the header word before it, as the runtime's
    [beans_slen] reads it: bits 3 to 60. *)

Definition header_len (m : image) (p : Z) : Z :=
  match rd_le m (p - 8) 8 with Some w => (w &! Z.ones 61) >>! 3 | None => -1 end.

Section mono.
Context `{Yyjson} (m m' : image) (Hx : ext m m').

Let enc := typed_encode_value m (header_len m).
Let enc' := typed_encode_value m' (header_len m').

(** A builder that made a value makes it again. *)
Definition keeps {A} (f g : builder A) : Prop := forall c a c', f c = Some (Some a, c') -> g c = Some (Some a, c').

Lemma keeps_refl {A} (f : builder A) : keeps f f.
Proof. by intros c a c'. Qed.

Lemma keeps_then {A B} (f f' : builder A) (g g' : A -> builder B) : keeps f f' -> (forall a, keeps (g a) (g' a)) -> keeps (then_build f g) (then_build f' g').
Proof.
  intros Hf Hg c b c'. unfold then_build. destruct (f c) as [[[a|] c1]|] eqn:He; [|by intros [=]..]. rewrite (Hf _ _ _ He). apply Hg.
Qed.

Lemma keeps_read {A B} (r r' : option A) (f f' : A -> builder B) : (forall a, r = Some a -> r' = Some a) -> (forall a, keeps (f a) (f' a)) ->
  keeps (read_build r f) (read_build r' f').
Proof. intros Hr Hf c b c'. unfold read_build. destruct r as [a|]; [|by intros [=]]. rewrite (Hr a eq_refl). apply Hf. Qed.

Lemma keeps_at {A} (g : BeansJsonEncodeContext -> BeansJsonEncodeContext) (F G : builder A) : keeps F G -> keeps (fun c => F (g c)) (fun c => G (g c)).
Proof. intros Hk c. apply Hk. Qed.

Lemma keeps_member bv bv' record r : (forall d p slot, keeps (bv d p slot) (bv' d p slot)) -> keeps (encode_member m bv record r) (encode_member m' bv' record r).
Proof.
  intros Hv. destruct r as [[index f] x].
  refine (keeps_at (fun c => mkEnc (e_nodes c) index) (read_build _ _) (read_build _ _) _).
  apply keeps_read; [intros a; by apply field_place_ext|]. intros [present value] c [name v] c'.
  set (r := if present then bv (field_desc f x) value false c else node JNull c).
  destruct r as [[[e|] c1]|] eqn:He; subst r; cbn [mbind option_bind]; [| |done].
  - assert (He' : (if present then bv' (field_desc f x) value false c else node JNull c) = Some (Some e, c1)).
    { destruct present; [by apply Hv|done]. }
    rewrite He'. cbn [mbind option_bind]. refine (keeps_read _ _ _ _ _ _ c1 (name, v) c'); [intros a; by apply rd_ext|]. intros k. apply keeps_refl.
  - intros Hr. exfalso. unfold read_build in Hr. destruct (rd m _ _); [|done]. destruct (node (JStr _) c1) as [[k c2]|]; done.
Qed.

Lemma keeps_members bv bv' record rows : (forall d p slot, keeps (bv d p slot) (bv' d p slot)) ->
  keeps (encode_members m bv rows record) (encode_members m' bv' rows record).
Proof.
  intros Hv. induction rows as [|r rows IH]; cbn [encode_members]; [apply keeps_refl|]. destruct (has_flag _ _); [done|].
  apply keeps_then; [by apply keeps_member|]. intros kv. apply keeps_then; [done|]. intros kvs. apply keeps_refl.
Qed.

Lemma keeps_object bv bv' schema record : (forall d p slot, keeps (bv d p slot) (bv' d p slot)) ->
  keeps (typed_encode_object m bv schema record) (typed_encode_object m' bv' schema record).
Proof.
  intros Hv. unfold typed_encode_object. apply keeps_then; [apply keeps_refl|]. intros _. apply keeps_read; [by rewrite (ext_schema _ _ Hx)|].
  intros rows. apply keeps_then; [by apply keeps_members|]. intros kvs. apply keeps_refl.
Qed.

Lemma keeps_items n stride build build' : (forall p, keeps (build p) (build' p)) -> forall item, keeps (encode_items n stride item build) (encode_items n stride item build').
Proof.
  intros Hb. induction n as [|n IH]; intros item; cbn [encode_items]; [apply keeps_refl|]. apply keeps_then; [done|]. intros v.
  apply keeps_then; [done|]. intros vs. apply keeps_refl.
Qed.

Lemma keeps_list bv bv' k s n ptr ptr' : (forall d p slot, keeps (bv d p slot) (bv' d p slot)) -> (forall p, ptr = Some p -> ptr' = Some p) ->
  keeps (typed_encode_list m bv k s n ptr) (typed_encode_list m' bv' k s n ptr').
Proof.
  intros Hv Hp. unfold typed_encode_list. apply keeps_read; [done|]. intros p. destruct (_ || _); [apply keeps_refl|].
  apply keeps_read; [intros l; by apply rd_prefix_ext|]. intros l. apply keeps_then; [apply keeps_refl|]. intros _.
  apply keeps_then; [apply keeps_items; intros q; apply Hv|]. intros vs. apply keeps_refl.
Qed.

Lemma header_len_ext p : 0 <= header_len m p -> header_len m' p = header_len m p.
Proof. unfold header_len. destruct (rd_le m (p - 8) 8) as [w|] eqn:He; [|lia]. by rewrite (rd_le_ext _ _ Hx _ _ _ He). Qed.

Lemma encode_mono fuel : forall fuel' d p slot, (fuel <= fuel')%nat -> keeps (enc fuel d p slot) (enc' fuel' d p slot).
Proof.
  induction fuel as [|fuel IH]; intros fuel' d p slot Hf; [by intros c a c'|]. destruct fuel' as [|fuel']; [lia|].
  assert (Hv : forall d p slot, keeps (enc fuel d p slot) (enc' fuel' d p slot)) by (intros; apply IH; lia).
  unfold enc, enc' in *. cbn [typed_encode_value]. cbv zeta. destruct (_ =? TYPED_BOOL).
  { apply keeps_read; [intros b; by apply rd_le_ext|]. intros b. apply keeps_refl. }
  destruct (_ || _). { apply keeps_read; [intros b; by apply read_integer_ext|]. intros b. apply keeps_refl. }
  destruct (_ =? TYPED_F32).
  { apply keeps_read; [|intros b; apply keeps_refl]. intros b. destruct slot; [|by apply rd_le_ext].
    destruct (rd_le m p 8) as [w|] eqn:He; [|done]. by rewrite (rd_le_ext _ _ Hx _ _ _ He). }
  destruct (_ =? TYPED_F64). { apply keeps_read; [intros b; by apply rd_le_ext|]. intros b. apply keeps_refl. }
  destruct (_ =? TYPED_STRING).
  { apply keeps_read; [intros b; by apply rd_le_ext|]. intros s. destruct (s =? 0); [apply keeps_refl|].
    destruct (Z.ltb_spec (header_len m s) 0); [by intros c a c' [=]|]. rewrite header_len_ext by done.
    destruct (Z.ltb_spec (header_len m s) 0); [lia|]. apply keeps_read; [intros b; by apply rd_ext|]. intros t. apply keeps_refl. }
  destruct (_ && _); [by apply keeps_object|]. destruct (_ =? TYPED_LIST); [|apply keeps_refl]. apply keeps_list; [done|]. intros q. by apply rd_le_ext.
Qed.
End mono.

(** With fuel to spare and whatever was built before, the encoder's tree of the
    value at [p] is [v]. *)
Definition reads_tree `{Yyjson} (m : image) (d : vdesc) (p : Z) (slot : bool) v : Prop :=
  exists fuel, forall c, exists c', typed_encode_value m (header_len m) fuel d p slot c = Some (Some v, c').

Lemma reads_ext `{Yyjson} m m' d p slot v : ext m m' -> reads_tree m d p slot v -> reads_tree m' d p slot v.
Proof. intros Hx [fuel Hf]. exists fuel. intros c. destruct (Hf c) as [c' Hc]. exists c'. by apply (encode_mono m m' Hx fuel fuel d p slot ltac:(lia)). Qed.

(** ** Values by their bytes *)

Section values.
Context `{Yyjson} (m : image).
Hypothesis Hroom : forall k, yy_room k = true.

Lemma node_made v c : node v c = Some (Some v, mkEnc (S (e_nodes c)) (e_req7 c)).
Proof. unfold node. by rewrite Hroom. Qed.

Lemma reads_fuel fuel fuel' d p slot v : (fuel <= fuel')%nat ->
  (forall c, exists c', typed_encode_value m (header_len m) fuel d p slot c = Some (Some v, c')) ->
  forall c, exists c', typed_encode_value m (header_len m) fuel' d p slot c = Some (Some v, c').
Proof. intros Hf Hr c. destruct (Hr c) as [c' Hc]. exists c'. by apply (encode_mono m m (ext_refl m) fuel fuel' d p slot Hf). Qed.

Ltac reads_one := exists 1%nat; intros c; cbn [typed_encode_value]; cbv zeta.

Lemma reads_bool d p b : v_kind d = TYPED_BOOL -> rd_le m p 1 = Some b -> reads_tree m d p false (JBool (negb (b =? 0))).
Proof. intros Hk Hb. reads_one. rewrite Hk. cbn [Z.eqb TYPED_BOOL Pos.eqb]. rewrite Hb. eexists. apply node_made. Qed.

Lemma reads_int d p (uns : bool) bits slot n : v_kind d = (if uns then TYPED_UINT else TYPED_SINT) -> flag_bits (v_flags d) = bits ->
  typed_read_integer m p bits uns slot = Some n -> reads_tree m d p slot (if uns then JUint n else JSint (i64 n)).
Proof.
  intros Hk <- Hn. reads_one. rewrite Hk. destruct uns.
  - change (TYPED_UINT =? TYPED_BOOL) with false. change (_ || _) with true. cbv iota. change (TYPED_UINT =? TYPED_UINT) with true. rewrite Hn.
    eexists. apply node_made.
  - change (TYPED_SINT =? TYPED_BOOL) with false. change (_ || _) with true. cbv iota. change (TYPED_SINT =? TYPED_UINT) with false. rewrite Hn.
    eexists. apply node_made.
Qed.

Lemma reads_f32 d p bits : v_kind d = TYPED_F32 -> rd_le m p 4 = Some bits -> reads_tree m d p false (JReal (widen_f32 bits)).
Proof. intros Hk Hb. reads_one. rewrite Hk. cbn -[rd_le node]. rewrite Hb. eexists. apply node_made. Qed.

Lemma reads_f64 d p slot bits : v_kind d = TYPED_F64 -> rd_le m p 8 = Some bits -> reads_tree m d p slot (JReal bits).
Proof. intros Hk Hb. reads_one. rewrite Hk. cbn -[rd_le node]. rewrite Hb. eexists. apply node_made. Qed.

Lemma reads_string d p slot s t : v_kind d = TYPED_STRING -> rd_le m p 8 = Some s -> s <> 0 -> header_len m s = slen t -> rd m s (slen t) = Some t ->
  reads_tree m d p slot (JStr t).
Proof.
  intros Hk Hb Hs Hl Ht. reads_one. rewrite Hk. cbn -[rd_le rd header_len node]. rewrite Hb. cbn -[rd header_len node].
  rewrite (proj2 (Z.eqb_neq _ _)) by done. rewrite Hl, (proj2 (Z.ltb_ge _ _)) by apply slen_nonneg. rewrite Ht. eexists. apply node_made.
Qed.

(** One member as the encoder finds it. *)
Definition row_reads (record : Z) (r : row) (kv : str * jval) : Prop :=
  let '(_, f, x) := r in
  ignored f = false /\ rd m (f_primary_name f) (f_primary_name_len f) = Some (fst kv) /\
  exists present value, field_place m record f x = Some (present, value) /\
    if present : bool then reads_tree m (field_desc f x) value false (snd kv) else snd kv = JNull.

Lemma members_read record rows kvs : Forall2 (row_reads record) rows kvs -> exists fuel, forall c, exists c',
  encode_members m (typed_encode_value m (header_len m) fuel) rows record c = Some (Some kvs, c').
Proof.
  induction 1 as [|[[index f] x] [name v] rows kvs (Hi & Hn & present & value & Hp & Hv) _ [fuel IH]]; [exists O; intros c; by exists c|].
  assert (Hr : exists fuel, forall c, exists c', (if present then typed_encode_value m (header_len m) fuel (field_desc f x) value false c
    else node JNull c) = Some (Some v, c')).
  { destruct present; [exact Hv|]. exists O. intros c. cbn in Hv. rewrite Hv. eexists. apply node_made. }
  destruct Hr as [fuel1 Hr]. exists (Nat.max fuel fuel1). intros c. cbn [encode_members]. unfold ignored in Hi. cbn [fst snd] in *. rewrite Hi. unfold then_build at 1.
  assert (Hr' : exists c1, (if present then typed_encode_value m (header_len m) (Nat.max fuel fuel1) (field_desc f x) value false (mkEnc (e_nodes c) index)
    else node JNull (mkEnc (e_nodes c) index)) = Some (Some v, c1)).
  { destruct present; [|apply Hr]. apply (reads_fuel fuel1); [lia|done]. }
  destruct Hr' as [c1 Hc1]. unfold encode_member. cbv zeta. unfold read_build at 1. rewrite Hp, Hc1. cbn [mbind option_bind]. unfold read_build. rewrite Hn, node_made.
  cbn [mbind option_bind]. unfold then_build. destruct (IH (mkEnc (S (e_nodes c1)) (e_req7 c1))) as [c2 Hc2].
  assert (Hk : keeps (encode_members m (typed_encode_value m (header_len m) fuel) rows record)
    (encode_members m (typed_encode_value m (header_len m) (Nat.max fuel fuel1)) rows record)).
  { apply keeps_members; [apply ext_refl|]. intros. apply encode_mono; [apply ext_refl|lia]. }
  rewrite (Hk _ _ _ Hc2). by eexists.
Qed.

Lemma reads_object d p s rows kvs : v_kind d = TYPED_STRUCT -> v_child_schema d <> 0 -> im_schema m (v_child_schema d) = Some s ->
  schema_rows s = Some rows -> Forall2 (row_reads p) rows kvs -> reads_tree m d p false (JObj kvs).
Proof.
  intros Hk Hc Hs Hr Hkv. destruct (members_read p rows kvs Hkv) as [fuel Hf]. exists (S fuel). intros c. cbn [typed_encode_value]. rewrite Hk.
  cbn -[typed_encode_object header_len]. rewrite (proj2 (Z.eqb_neq _ _)) by done. cbn -[typed_encode_object header_len]. unfold typed_encode_object, then_build.
  rewrite node_made. unfold read_build. rewrite Hs. cbn [mbind option_bind]. rewrite Hr. destruct (Hf (mkEnc (S (e_nodes c)) (e_req7 c))) as [c' ->]. by eexists.
Qed.

Lemma items_read build n : forall stride item vs, length vs = n ->
  (forall i v c, vs !! i = Some v -> exists c', build (item + Z.of_nat i * stride) c = Some (Some v, c')) ->
  forall c, exists c', encode_items n stride item build c = Some (Some vs, c').
Proof.
  induction n as [|n IH]; intros stride item [|v vs] Hl Hb c; cbn [length] in Hl; try lia; [by exists c|]. cbn [encode_items]. unfold then_build.
  destruct (Hb O v c eq_refl) as [c1 Hc1]. replace (item + Z.of_nat 0 * stride) with item in Hc1 by lia. rewrite Hc1.
  destruct (IH stride (item + stride) vs ltac:(lia)) with (c := c1) as [c2 ->]; [|by eexists].
  intros i w c' Hi. replace (item + stride + Z.of_nat i * stride) with (item + Z.of_nat (S i) * stride) by lia. by apply Hb.
Qed.

(** The items of a list, from its prefix. *)
Lemma list_read ek es sz lp l vs : sz <> 0 -> lp <> 0 -> rd_prefix m lp = Some l -> lp_len l = Z.of_nat (length vs) ->
  (forall i v, vs !! i = Some v -> reads_tree m (element_desc ek es sz) (lp_data l + Z.of_nat i * typed_list_stride l) (lp_stride l <? 0) v) ->
  exists fuel, forall c, exists c', typed_encode_list m (typed_encode_value m (header_len m) fuel) ek es sz (Some lp) c = Some (Some (JArr vs), c').
Proof.
  intros He Hlp Hl Hn Hvs. remember (element_desc ek es sz) as ed eqn:Hed.
  assert (Hf : exists fuel, forall i v c, vs !! i = Some v -> exists c', typed_encode_value m (header_len m) fuel ed
    (lp_data l + Z.of_nat i * typed_list_stride l) (lp_stride l <? 0) c = Some (Some v, c')).
  { clear Hn. revert Hvs. generalize (lp_data l). induction vs as [|v vs IH]; intros q Hvs; [by exists O|].
    destruct (IH (q + typed_list_stride l)) as [f1 Hf1].
    { intros i w Hi. replace (q + typed_list_stride l + Z.of_nat i * typed_list_stride l) with (q + Z.of_nat (S i) * typed_list_stride l) by lia. by apply Hvs. }
    destruct (Hvs O v eq_refl) as [f2 Hf2]. exists (Nat.max f1 f2). intros i w c Hi. destruct i as [|i].
    - injection Hi as <-. apply (reads_fuel f2); [lia|done].
    - apply (reads_fuel f1); [lia|]. intros c0. replace (q + Z.of_nat (S i) * typed_list_stride l) with (q + typed_list_stride l + Z.of_nat i * typed_list_stride l) by lia. by apply Hf1. }
  destruct Hf as [fuel Hf]. exists fuel. intros c. unfold typed_encode_list, read_build.
  rewrite !(proj2 (Z.eqb_neq _ 0)) by done. cbn -[header_len rd_prefix typed_encode_value node element_desc]. rewrite <-Hed, Hl. unfold then_build. rewrite node_made.
  destruct (items_read (fun item => typed_encode_value m (header_len m) fuel ed item (lp_stride l <? 0)) (Z.to_nat (lp_len l))
    (typed_list_stride l) (lp_data l) vs) with (c := mkEnc (S (e_nodes c)) (e_req7 c)) as [c' ->]; [lia| |by eexists].
  intros i v c0 Hi. by apply Hf.
Qed.

Lemma reads_list d p lp l vs slot : v_kind d = TYPED_LIST -> v_element_size d <> 0 -> rd_le m p 8 = Some lp -> lp <> 0 -> rd_prefix m lp = Some l ->
  lp_len l = Z.of_nat (length vs) ->
  (forall i v, vs !! i = Some v -> reads_tree m (element_desc (v_element_kind d) (v_element_schema d) (v_element_size d))
     (lp_data l + Z.of_nat i * typed_list_stride l) (lp_stride l <? 0) v) ->
  reads_tree m d p slot (JArr vs).
Proof.
  intros Hk He Hp Hlp Hl Hn Hvs. destruct (list_read _ _ _ lp l vs He Hlp Hl Hn Hvs) as [fuel Hf]. exists (S fuel). intros c. cbn [typed_encode_value]. rewrite Hk.
  cbn -[typed_encode_list rd_le header_len]. rewrite Hp. apply Hf.
Qed.

(** A struct is what the encoder's entry walks. *)
Lemma reads_record d p v : v_kind d = TYPED_STRUCT -> v_child_schema d <> 0 -> reads_tree m d p false v ->
  exists fuel, forall c, exists c', typed_encode_object m (typed_encode_value m (header_len m) fuel) (v_child_schema d) p c = Some (Some v, c').
Proof.
  intros Hk Hc [[|fuel] Hf]; [by destruct (Hf (mkEnc 0 0)) as [c' ?]|]. exists fuel. intros c. destruct (Hf c) as [c' Hr]. exists c'. cbn [typed_encode_value] in Hr.
  rewrite Hk in Hr. cbn -[typed_encode_object header_len] in Hr. by rewrite (proj2 (Z.eqb_neq _ _) Hc) in Hr.
Qed.
End values.
