(* ===== verification/JsonDecSpec.v ===== *)
(** * JsonDecSpec: what a typed decode should answer

    The abstract side of the decoder: a type [jty] with its layout, the answer
    [check] gives for a document at a type (the tree the decoded record stands
    for, or the status and the code of the first fault), and [describes], which
    says that a compiled schema is the schema of a type.  The key table and the
    depth limit are specified here too. *)

From stdpp Require Import gmap.
From S2P Require Import Prelude Mem Text Bytes JsonScan JsonOut JsonEnc JsonSim JsonDec.
From S2P Require Import JsonRead.

Open Scope c_scope.

#[local] Set Warnings "-register-all".

Implicit Types (v : jval).

(** ** Trees *)

Lemma jval_rec (P : jval -> Prop) :
  P JNull -> (forall b, P (JBool b)) -> (forall n, P (JUint n)) -> (forall n, P (JSint n)) -> (forall b, P (JReal b)) -> (forall s, P (JStr s)) ->
  (forall vs, Forall P vs -> P (JArr vs)) -> (forall kvs, Forall (fun kv => P (snd kv)) kvs -> P (JObj kvs)) -> forall v, P v.
Proof.
  intros H1 H2 H3 H4 H5 H6 Ha Ho. fix IH 1. intros [|b|n|n|b|s|vs|kvs]; [exact H1|apply H2|apply H3|apply H4|apply H5|apply H6|..].
  - apply Ha. induction vs as [|v vs IHvs]; constructor; [apply IH|exact IHvs].
  - apply Ho. induction kvs as [|[k v] kvs IHkvs]; constructor; [apply IH|exact IHkvs].
Qed.

Definition heights (vs : list jval) : nat := foldr (fun v n => Nat.max (jheight v) n) O vs.

Lemma heights_cons v vs : heights (v :: vs) = Nat.max (jheight v) (heights vs).
Proof. done. Qed.

Lemma jheight_arr vs : jheight (JArr vs) = S (heights vs).
Proof. done. Qed.

Lemma jheight_obj kvs : jheight (JObj kvs) = S (heights (snd <$> kvs)).
Proof. cbn. f_equal. induction kvs as [|kv kvs IH]; [done|]. cbn. by rewrite IH. Qed.

Lemma heights_le vs v : v ∈ vs -> (jheight v <= heights vs)%nat.
Proof. induction vs as [|w vs IH]; intros Hv; [by apply not_elem_of_nil in Hv|]. rewrite heights_cons. apply elem_of_cons in Hv as [->|Hv]; [lia|]. specialize (IH Hv). lia. Qed.

Lemma jheight_pos v : (1 <= jheight v)%nat.
Proof. destruct v; cbn; lia. Qed.

(** ** The depth limit *)

Lemma within_items (vs : list jval) depth maximum :
  Forall (fun v => forall depth, json_typed_within_depth v depth maximum = (depth + Z.of_nat (jheight v) - 1 <=? maximum)) vs -> depth <= maximum ->
  negb ((0 <? Z.of_nat (length vs)) && (maximum <? depth + 1)) &&
    forallb (fun item => negb (is_ctn item) || json_typed_within_depth item (depth + 1) maximum) vs =
  (depth + Z.of_nat (heights vs) <=? maximum).
Proof.
  intros Hvs Hd. apply eq_true_iff_eq. rewrite andb_true_iff, negb_true_iff, forallb_forall, Z.leb_le. rewrite Forall_forall in Hvs. split.
  - intros [Hl Ha]. induction vs as [|v vs IH]; [cbn; lia|]. rewrite heights_cons.
    assert (Hm : depth + 1 <= maximum). { apply andb_false_iff in Hl as [Hl|Hl]; bools; cbn [length] in *; lia. }
    assert (depth + Z.of_nat (heights vs) <= maximum).
    { apply IH; [intros w Hw; apply Hvs; by apply elem_of_cons; right| |intros w Hw; apply Ha; by right].
      rewrite (proj2 (Z.ltb_ge maximum _)) by lia. apply andb_false_r. }
    pose proof (Ha v (or_introl eq_refl)) as Hv. rewrite (Hvs v) in Hv by (by apply elem_of_cons; left).
    assert (depth + Z.of_nat (jheight v) <= maximum); [|lia].
    apply orb_true_iff in Hv as [Hc|Hv]; [|bools; lia]. destruct v; cbn in Hc |- *; done || lia.
  - intros Hh. split.
    + destruct vs as [|v vs]; [done|]. rewrite heights_cons in Hh. pose proof (jheight_pos v). apply andb_false_iff. right. apply Z.ltb_ge. lia.
    + intros v Hv%list_elem_of_In. pose proof (heights_le vs v Hv). rewrite (Hvs v Hv). apply orb_true_iff. right. apply Z.leb_le. lia.
Qed.

(** The skipped part of a document is measured by its nesting. *)
Lemma within_depth_spec v : forall depth maximum, json_typed_within_depth v depth maximum = (depth + Z.of_nat (jheight v) - 1 <=? maximum).
Proof.
  intros depth maximum. revert depth. induction v as [| | | | | |vs Hvs|kvs Hkvs] using jval_rec; intros depth;
    try (cbn; destruct (Z.ltb_spec maximum depth); symmetry; [apply Z.leb_gt|apply Z.leb_le]; lia).
  - cbn [json_typed_within_depth]. rewrite jheight_arr. destruct (Z.ltb_spec maximum depth); [symmetry; apply Z.leb_gt; lia|].
    rewrite within_items by done. f_equal. lia.
  - cbn [json_typed_within_depth]. rewrite jheight_obj. destruct (Z.ltb_spec maximum depth); [symmetry; apply Z.leb_gt; lia|].
    pose proof (within_items (snd <$> kvs) depth maximum) as Hw. rewrite length_fmap in Hw. assert (Hk : Forall (fun v => forall depth, json_typed_within_depth v depth maximum = (depth + Z.of_nat (jheight v) - 1 <=? maximum)) (snd <$> kvs)) by (by apply Forall_fmap).
    replace (depth + Z.of_nat (S (heights (snd <$> kvs))) - 1) with (depth + Z.of_nat (heights (snd <$> kvs))) by lia.
    rewrite <-Hw by done. f_equal. clear. induction kvs as [|kv kvs IH]; [done|]. cbn [forallb fmap list_fmap]. by rewrite IH.
Qed.

(** ** The key table *)

(** Buckets [2 ^ k]; a live bucket is reached from its name's home without
    crossing an empty one, and stands for the index [index_of] gives. *)
Record table_ok (im : image) (keys : list BeansJsonTypedKey) (k : Z) (index_of : str -> option nat) : Prop := {
  tb_size : 0 <= k <= 32 /\ Z.of_nat (length keys) = 2 ^ k;
  tb_live : forall j key, keys !! Z.to_nat j = Some key -> 0 <= j -> k_field key <> 0 ->
    exists name, rd im (k_name key) (k_len key) = Some name /\ slen name = k_len key /\ 1 <= k_field key /\
      index_of name = Some (Z.to_nat (k_field key - 1)) /\
      forall i, 0 <= i < (j - json_typed_key_hash name (2 ^ k - 1)) mod 2 ^ k ->
        exists key', keys !! Z.to_nat ((json_typed_key_hash name (2 ^ k - 1) + i) mod 2 ^ k) = Some key' /\ k_field key' <> 0;
  tb_full : forall name i, index_of name = Some i ->
    exists j key, 0 <= j /\ keys !! Z.to_nat j = Some key /\ k_field key <> 0 /\ rd im (k_name key) (k_len key) = Some name
}.

Lemma land_buckets a k : 0 <= k -> a &! (2 ^ k - 1) = a mod 2 ^ k.
Proof. intros Hk. rewrite <-Z.land_ones by done. f_equal. rewrite Z.ones_equiv. lia. Qed.

Lemma hash_home text k : 0 <= k -> 0 <= json_typed_key_hash text (2 ^ k - 1) < 2 ^ k.
Proof.
  intros Hk. unfold json_typed_key_hash. pose proof (Z.pow_pos_nonneg 2 k ltac:(lia) ltac:(lia)).
  assert (Hgen : forall text h, 0 <= h < 2 ^ k -> 0 <= fold_left (fun hash c => u64 (u64 ((hash <<! 5) + hash) + c) &! (2 ^ k - 1)) text h < 2 ^ k).
  { clear text. induction text as [|c text IH]; intros h Hh; [done|]. cbn [fold_left]. apply IH. rewrite land_buckets by done. apply Z.mod_pos_bound. lia. }
  apply Hgen. lia.
Qed.

Section table.
Context (im : image) (keys : list BeansJsonTypedKey) (k : Z) (index_of : str -> option nat) (Ht : table_ok im keys k index_of).

(** The loop from [o] buckets past the home, before the bucket of the name. *)
Lemma find_key_loop_spec text n : forall o, let home := json_typed_key_hash text (2 ^ k - 1) in 0 <= o -> Z.of_nat n + o = 2 ^ k ->
  (forall j key, keys !! Z.to_nat j = Some key -> 0 <= j < 2 ^ k -> k_field key <> 0 -> rd im (k_name key) (k_len key) = Some text -> o <= (j - home) mod 2 ^ k) ->
  match index_of text with
  | Some i => exists key, find_key_loop im n keys (2 ^ k - 1) text ((home + o) mod 2 ^ k) = Some (Some key) /\ k_field key = Z.of_nat i + 1
  | None => find_key_loop im n keys (2 ^ k - 1) text ((home + o) mod 2 ^ k) = Some None
  end.
Proof.
  destruct Ht as [[Hk Hlen] Hlive Hfull]. pose proof (Z.pow_pos_nonneg 2 k ltac:(lia) ltac:(lia)) as Hpow.
  pose proof (hash_home text k ltac:(lia)) as Hh. cbv zeta. remember (json_typed_key_hash text (2 ^ k - 1)) as home eqn:Hhome.
  induction n as [|n IH]; intros o Ho Hn Hlow.
  - destruct (index_of text) as [i|] eqn:Hi; [|done]. exfalso. destruct (Hfull text i Hi) as (j & key & Hj & Hkey & Hf & Hr).
    pose proof (lookup_lt_Some _ _ _ Hkey). specialize (Hlow j key Hkey ltac:(lia) Hf Hr). pose proof (Z.mod_pos_bound (j - home) (2 ^ k) ltac:(lia)). lia.
  - pose proof (Z.mod_pos_bound (home + o) (2 ^ k) ltac:(lia)) as Hb. set (slot := (home + o) mod 2 ^ k) in *.
    assert (Hd : (slot - home) mod 2 ^ k = o).
    { unfold slot. rewrite Zminus_mod_idemp_l. replace (home + o - home) with o by lia. apply Z.mod_small. lia. }
    assert (Hat : forall j, 0 <= j < 2 ^ k -> (j - home) mod 2 ^ k = o -> j = slot).
    { intros j Hj He. unfold slot. rewrite <-He, Zplus_mod_idemp_r. replace (home + (j - home)) with j by lia. symmetry. by apply Z.mod_small. }
    destruct (lookup_lt_is_Some_2 keys (Z.to_nat slot)) as [key Hkey]; [lia|]. cbn [find_key_loop]. rewrite Hkey. cbn [mbind option_bind].
    destruct (Z.eqb_spec (k_field key) 0) as [He|Hne].
    { destruct (index_of text) as [i|] eqn:Hi; [|done]. exfalso. destruct (Hfull text i Hi) as (j & key' & Hj & Hkey' & Hf & Hr).
      pose proof (lookup_lt_Some _ _ _ Hkey') as Hjl. pose proof (Hlow j key' Hkey' ltac:(lia) Hf Hr) as Hlo.
      destruct (Z.eq_dec ((j - home) mod 2 ^ k) o) as [Heq|Hgt]; [apply Hat in Heq; [|lia]; subst j; congruence|].
      destruct (Hlive j key' Hkey' Hj Hf) as (name & Hr' & _ & _ & _ & Hcl). assert (name = text) as -> by congruence. rewrite <-Hhome in Hcl.
      destruct (Hcl o ltac:(lia)) as (key2 & Hk2 & Hne2). fold slot in Hk2. congruence. }
    destruct (Hlive slot key Hkey ltac:(lia) Hne) as (name & Hr & Hsl & H1 & Hio & _).
    assert (Hnext : name <> text -> match index_of text with
      | Some i => exists key, find_key_loop im n keys (2 ^ k - 1) text ((slot + 1) &! (2 ^ k - 1)) = Some (Some key) /\ k_field key = Z.of_nat i + 1
      | None => find_key_loop im n keys (2 ^ k - 1) text ((slot + 1) &! (2 ^ k - 1)) = Some None end).
    { intros Hneq. rewrite land_buckets by lia. replace ((slot + 1) mod 2 ^ k) with ((home + (o + 1)) mod 2 ^ k).
      2: { unfold slot. rewrite Zplus_mod_idemp_l. f_equal. lia. }
      apply IH; [lia|lia|]. intros j key' Hkey' Hj Hf Hr'. pose proof (Hlow j key' Hkey' Hj Hf Hr').
      destruct (Z.eq_dec ((j - home) mod 2 ^ k) o) as [Heq|Hgt]; [|lia]. apply Hat in Heq; [|done]. subst j. congruence. }
    destruct (Z.eqb_spec (k_len key) (slen text)) as [Hle|Hle]; cbn [mbind option_bind].
    + rewrite Hr. cbn [mbind option_bind]. unfold json_name_eq. destruct (bool_decide_reflect (name = text)) as [->|Hneq]; [|by apply Hnext].
      rewrite Hio. eexists. split; [done|]. lia.
    + apply Hnext. intros ->. congruence.
Qed.

(** The table finds the field a name stands for. *)
Lemma find_key_spec s text : s_keys s = Some keys -> s_key_mask s = 2 ^ k - 1 ->
  match index_of text with
  | Some i => exists key, json_typed_find_key im s text = Some (Some key) /\ k_field key = Z.of_nat i + 1
  | None => json_typed_find_key im s text = Some None
  end.
Proof.
  intros Hs Hm. unfold json_typed_find_key. rewrite Hs, Hm. cbn [mbind option_bind]. destruct (tb_size _ _ _ _ Ht) as [Hk Hlen].
  pose proof (Z.pow_pos_nonneg 2 k ltac:(lia) ltac:(lia)). pose proof (hash_home text k ltac:(lia)) as Hh.
  pose proof (find_key_loop_spec text (Z.to_nat (2 ^ k - 1 + 1)) 0) as Hf. cbv zeta in Hf. rewrite !Z.add_0_r, (Z.mod_small _ _ Hh) in Hf.
  apply Hf; [lia|lia|]. intros. apply Z.mod_pos_bound. lia.
Qed.
End table.

(** ** Types and answers *)

(** A struct has its size, whether unknown names are allowed, and its fields in
    schema order: the names (the primary first), optional or not, the type. *)
Inductive jty : Type :=
  | TBool
  | TInt (uns : bool) (bits : Z)
  | TF32
  | TF64
  | TStr
  | TStruct (size : Z) (allow : bool) (fs : list (list str * bool * jty))
  | TList (e : jty).

Abbreviation fld := (list str * bool * jty)%type.

Definition fld_name (f : fld) : str := default [] (head (fst (fst f))).

Definition width (t : jty) : Z :=
  match t with
  | TBool => 1 | TInt _ bits => bits / 8 | TF32 => 4 | TF64 | TStr | TList _ => 8
  | TStruct size _ _ => size
  end.

(** The field a name stands for. *)
Definition field_index (fs : list fld) (name : str) : option nat := fst <$> list_find (fun f : fld => name ∈ fst (fst f)) fs.

Definition wrong_type : jval + Z * Z := inr (ENC_ERR_TYPE, TYPED_ERR_TYPE).
Definition out_of_range : jval + Z * Z := inr (ENC_ERR_RANGE, TYPED_ERR_RANGE).

Definition check_int (uns : bool) (bits n : Z) : jval + Z * Z :=
  if uns then if (0 <=? n) && (n <? 2 ^ bits) then inl (JUint n) else out_of_range
  else if (- 2 ^ (bits - 1) <=? n) && (n <? 2 ^ (bits - 1)) then inl (JSint n) else out_of_range.

(** The members of a finished object: what was met, or [null] where that is
    allowed. *)
Fixpoint check_end (fs : list fld) (vals : list (option jval)) : list (str * jval) + Z * Z :=
  match fs, vals with
  | f :: fs, val :: vals =>
      match val, snd (fst f) with
      | None, false => inr (ENC_ERR_INVALID, TYPED_ERR_MISSING)
      | _, _ =>
          match check_end fs vals with
          | inl kvs => inl ((fld_name f, default JNull val) :: kvs)
          | inr e => inr e
          end
      end
  | _, _ => inl []
  end.

Section check.
Context `{DecodeHost, Yyjson} (max_depth : Z).

(** The answer of [v] at a type, [depth] deep in its document. *)
Fixpoint check v (t : jty) (depth : Z) {struct v} : jval + Z * Z :=
  if max_depth <? depth then inr (ENC_ERR_TYPE, TYPED_ERR_DEPTH)
  else
    match t with
    | TBool => match v with JBool _ => inl v | _ => wrong_type end
    | TInt uns bits => match v with JUint n | JSint n => check_int uns bits n | _ => wrong_type end
    | TF32 =>
        match json_get_num v with
        | Some bits => if f32_finite (narrow_f32 bits) then inl (JReal (widen_f32 (narrow_f32 bits))) else out_of_range
        | None => wrong_type
        end
    | TF64 => match json_get_num v with Some bits => inl (JReal bits) | None => wrong_type end
    | TStr => match v with JStr _ => inl v | _ => wrong_type end
    | TList e =>
        match v with
        | JArr vs =>
            (fix items (vs done : list jval) : jval + Z * Z :=
              match vs with
              | [] => inl (JArr done)
              | x :: vs => match check x e (depth + 1) with inl w => items vs (done ++ [w]) | inr err => inr err end
              end) vs []
        | _ => wrong_type
        end
    | TStruct _ allow fs =>
        match v with
        | JObj kvs =>
            (fix members (kvs : list (str * jval)) (vals : list (option jval)) : jval + Z * Z :=
              match kvs with
              | [] => match check_end fs vals with inl kvs => inl (JObj kvs) | inr err => inr err end
              | (name, x) :: kvs =>
                  match field_index fs name with
                  | None =>
                      if allow then
                        if depth + Z.of_nat (jheight x) <=? max_depth then members kvs vals else inr (ENC_ERR_INVALID, TYPED_ERR_DEPTH)
                      else inr (ENC_ERR_INVALID, TYPED_ERR_UNKNOWN)
                  | Some i =>
                      match vals !! i, fs !! i with
                      | Some (Some _), _ => inr (ENC_ERR_INVALID, TYPED_ERR_DUPLICATE)
                      | _, Some (_, opt, t) =>
                          match match x with
                                | JNull => if opt : bool then inl JNull else inr (ENC_ERR_TYPE, TYPED_ERR_NULL)
                                | _ => check x t (depth + 1)
                                end with
                          | inl w => members kvs (<[i := Some w]> vals)
                          | inr err => inr err
                          end
                      | _, None => inr (ENC_ERR_INVALID, TYPED_ERR_UNKNOWN)
                      end
                  end
              end) kvs (replicate (length fs) None)
        | _ => inr (ENC_ERR_TYPE, TYPED_ERR_ROOT)
        end
    end.

(** The loops of [check] on their own. *)
Definition check_null x (opt : bool) (t : jty) (depth : Z) : jval + Z * Z :=
  match x with JNull => if opt then inl JNull else inr (ENC_ERR_TYPE, TYPED_ERR_NULL) | _ => check x t depth end.

Fixpoint check_items (e : jty) (depth : Z) (vs done : list jval) : jval + Z * Z :=
  match vs with
  | [] => inl (JArr done)
  | x :: vs => match check x e (depth + 1) with inl w => check_items e depth vs (done ++ [w]) | inr err => inr err end
  end.

Fixpoint check_members (allow : bool) (fs : list fld) (depth : Z) (kvs : list (str * jval)) (vals : list (option jval)) : jval + Z * Z :=
  match kvs with
  | [] => match check_end fs vals with inl kvs => inl (JObj kvs) | inr err => inr err end
  | (name, x) :: kvs =>
      match field_index fs name with
      | None =>
          if allow then
            if depth + Z.of_nat (jheight x) <=? max_depth then check_members allow fs depth kvs vals else inr (ENC_ERR_INVALID, TYPED_ERR_DEPTH)
          else inr (ENC_ERR_INVALID, TYPED_ERR_UNKNOWN)
      | Some i =>
          match vals !! i, fs !! i with
          | Some (Some _), _ => inr (ENC_ERR_INVALID, TYPED_ERR_DUPLICATE)
          | _, Some (_, opt, t) =>
              match check_null x opt t (depth + 1) with
              | inl w => check_members allow fs depth kvs (<[i := Some w]> vals)
              | inr err => inr err
              end
          | _, None => inr (ENC_ERR_INVALID, TYPED_ERR_UNKNOWN)
          end
      end
  end.

Lemma check_list e vs depth : check (JArr vs) (TList e) depth = if max_depth <? depth then inr (ENC_ERR_TYPE, TYPED_ERR_DEPTH) else check_items e depth vs [].
Proof.
  cbn [check]. destruct (max_depth <? depth); [done|]. match goal with |- ?f vs [] = _ => enough (forall acc, f vs acc = check_items e depth vs acc) as He by apply He end.
  induction vs as [|x vs IH]; intros acc; [done|]. cbn [check_items]. destruct (check x e (depth + 1)); [apply IH|done].
Qed.

Lemma check_struct size allow fs kvs depth : check (JObj kvs) (TStruct size allow fs) depth =
  if max_depth <? depth then inr (ENC_ERR_TYPE, TYPED_ERR_DEPTH) else check_members allow fs depth kvs (replicate (length fs) None).
Proof.
  cbn [check]. destruct (max_depth <? depth); [done|]. generalize (replicate (length fs) (@None jval)).
  induction kvs as [|[name x] kvs IH]; intros vals; [done|]. cbn [check_members]. unfold check_null.
  destruct (field_index fs name) as [i|]; [|destruct allow; [|done]; destruct (_ <=? _); [apply IH|done]].
  destruct (vals !! i) as [[w|]|]; [done|..]; (destruct (fs !! i) as [[[ns opt] t]|]; [|done]);
    (destruct (match x with JNull => _ | _ => _ end); [apply IH|done]).
Qed.

End check.

(** ** The schema of a type *)

Definition nullable (t : jty) : bool := match t with TStr | TList _ => true | _ => false end.

(** The bytes of a field, from the start of its record. *)
Definition field_bytes (f : BeansJsonTypedField) (t : jty) : Z -> bool := fun a =>
  range (f_value_offset f) (width t) a || (negb (f_presence_offset f =? SIZE_MAX) && (a =? f_presence_offset f)).

(** A field the direct path accepts: no default, not ignored, not boxed; an
    option is a presence byte or a pointer that may be null. *)
Record field_ok (im : image) (names : list str) (opt : bool) (t : jty) (f : BeansJsonTypedField) : Prop := {
  fo_names : exists name rest, names = name :: rest /\ rd im (f_primary_name f) (f_primary_name_len f) = Some name /\ f_primary_name_len f = slen name;
  fo_ignored : ignored f = false;
  fo_boxed : has_flag (f_flags f) TYPED_BOXED_OPTION = false;
  fo_opt : has_flag (f_flags f) TYPED_OPTIONAL = opt;
  fo_miss : may_miss f = opt;
  fo_place : if opt then f_presence_offset f <> SIZE_MAX \/ nullable t = true else f_presence_offset f = SIZE_MAX;
  fo_apart : f_presence_offset f <> SIZE_MAX -> range (f_value_offset f) (width t) (f_presence_offset f) = false
}.

(** The fields lie inside the record and apart. *)
Definition layout_ok (size : Z) (fs : list fld) (rows : list row) : Prop :=
  forall i names opt t index f x, fs !! i = Some (names, opt, t) -> rows !! i = Some (index, f, x) ->
    (forall a, field_bytes f t a = true -> 0 <= a < size) /\
    forall j names' opt' t' index' f' x', fs !! j = Some (names', opt', t') -> rows !! j = Some (index', f', x') -> i <> j ->
      forall a, field_bytes f t a = true -> field_bytes f' t' a = false.

(** The names of different fields differ. *)
Definition names_apart (fs : list fld) : Prop :=
  forall i f name, fs !! i = Some f -> name ∈ fst (fst f) -> field_index fs name = Some i.

(** [d] is what the compiler emits for a value of type [t]; [slot] when it is an
    element of a list of 8-byte slots.  Left out are the lists whose elements
    are narrower than the slots the list keeps, those of narrow integers and of
    bools: the decoder does not fill such a slot ([narrow_list_slot] in
    [JsonDecTheorems]). *)
Fixpoint describes (im : image) (t : jty) (d : vdesc) (slot : bool) {struct t} : Prop :=
  match t with
  | TBool => v_kind d = TYPED_BOOL /\ slot = false
  | TInt uns bits => v_kind d = (if uns then TYPED_UINT else TYPED_SINT) /\ flag_bits (v_flags d) = bits /\ bits ∈ [8; 16; 32; 64] /\
      (slot = true -> bits = 64)
  | TF32 => v_kind d = TYPED_F32 /\ slot = false
  | TF64 => v_kind d = TYPED_F64
  | TStr => v_kind d = TYPED_STRING
  | TStruct size allow fs => v_kind d = TYPED_STRUCT /\ slot = false /\ v_child_schema d <> 0 /\ exists s rows keys k,
      im_schema im (v_child_schema d) = Some s /\ schema_rows s = Some rows /\ s_keys s = Some keys /\ s_key_mask s = 2 ^ k - 1 /\
      table_ok im keys k (field_index fs) /\ has_flag (s_flags s) TYPED_ALLOW_UNKNOWN = allow /\ has_flag (s_flags s) TYPED_HAS_MISSING = false /\
      s_record_size s = size /\ 0 <= size /\ s_field_count s = Z.of_nat (length fs) /\ names_apart fs /\ layout_ok size fs rows /\
      (fix fields (fs : list fld) (rows : list row) : Prop :=
        match fs, rows with
        | [], [] => True
        | (names, opt, t) :: fs, (_, f, x) :: rows => field_ok im names opt t f /\ describes im t (field_desc f x) false /\ fields fs rows
        | _, _ => False
        end) fs rows
  | TList e => v_kind d = TYPED_LIST /\ v_element_size d = width e /\ 0 < width e < 2 ^ 30 /\
      let stride := json_typed_storage_stride (width e) (v_element_kind d) in
      Z.abs stride = width e /\ describes im e (element_desc (v_element_kind d) (v_element_schema d) (width e)) (stride <? 0)
  end.

Lemma fields_describe im fs : forall rows,
  (fix fields (fs : list fld) (rows : list row) : Prop :=
    match fs, rows with
    | [], [] => True
    | (names, opt, t) :: fs, (_, f, x) :: rows => field_ok im names opt t f /\ describes im t (field_desc f x) false /\ fields fs rows
    | _, _ => False
    end) fs rows ->
  length fs = length rows /\ forall i names opt t index f x, fs !! i = Some (names, opt, t) -> rows !! i = Some (index, f, x) ->
    field_ok im names opt t f /\ describes im t (field_desc f x) false.
Proof.
  induction fs as [|[[names opt] t] fs IH]; intros [|[[index f] x] rows] Hf; try done. destruct Hf as (H1 & H2 & Hf). destruct (IH rows Hf) as [Hl Hi].
  split; [cbn; lia|]. intros [|i] names' opt' t' index' f' x' He Hr; [injection He as <- <- <-; by injection Hr as <- <- <-|]. by apply (Hi i _ _ _ index' f' x').
Qed.
