(* ===== verification/JsonDecProofs.v ===== *)
(** * JsonDecProofs: the decode walk answers as its specification

    [dwp m d Q]: from the state [d] the decoder [m] comes back with a value and a
    state of [Q], or panics because an allocation was refused; it never leaves
    the memory.  The walk is shown to answer [check], to change only the bytes
    of its target and new memory, and to leave bytes an encode reads back as
    the tree [check] gives. *)

From stdpp Require Import gmap.
From S2P Require Import Prelude Mem Text Bytes JsonScan JsonOut JsonEnc JsonSim JsonDec.
From S2P Require Import JsonRead JsonDecSpec.

Open Scope c_scope.

Implicit Types (h : gmap Z Z) (R : Z -> bool) (v : jval) (d : decode).

(** ** Running a decoder *)

Definition dwp {A} (m : decoder A) d (Q : A -> decode -> Prop) : Prop :=
  match m d with
  | Some (Ok (a, d)) => Q a d
  | Some (Panic msg line col) => msg = out_of_memory
  | None => False
  end.

Lemma dwp_ret {A} (a : A) d (Q : A -> decode -> Prop) : Q a d -> dwp (mret a) d Q.
Proof. done. Qed.

Lemma dwp_bind {A B} (m : decoder A) (f : A -> decoder B) d Q : dwp m d (fun a d => dwp (f a) d Q) -> dwp (m ≫= f) d Q.
Proof. unfold dwp, mbind, decoder_bind. by destruct (m d) as [[[a d']|]|]. Qed.

Lemma dwp_mono {A} (m : decoder A) d (Q Q' : A -> decode -> Prop) : dwp m d Q -> (forall a d', Q a d' -> Q' a d') -> dwp m d Q'.
Proof. unfold dwp. intros Hm HQ. destruct (m d) as [[[a d']|]|]; [by apply HQ|done..]. Qed.

Lemma dwp_lift {A} (o : option A) a d (Q : A -> decode -> Prop) : o = Some a -> Q a d -> dwp (lift o) d Q.
Proof. by intros ->. Qed.

Lemma dwp_same {A} (m m' : decoder A) d Q : m d = m' d -> dwp m' d Q -> dwp m d Q.
Proof. unfold dwp. by intros ->. Qed.

Lemma dwp_req5 {B} c (m : decoder B) d Q : dwp m (mkDecode (dc_heap d) c (dc_req7 d) (dc_released d)) Q -> dwp (_ ← set_req5 c; m) d Q.
Proof. done. Qed.

Lemma dwp_index {B} c (m : decoder B) d Q : dwp m (mkDecode (dc_heap d) (dc_req5 d) c (dc_released d)) Q -> dwp (_ ← set_index c; m) d Q.
Proof. done. Qed.

Lemma dwp_release {B} p (m : decoder B) d Q : dwp m (mkDecode (dc_heap d) (dc_req5 d) (dc_req7 d) (p :: dc_released d)) Q -> dwp (_ ← release p; m) d Q.
Proof. done. Qed.

Definition with_heap d h : decode := mkDecode h (dc_req5 d) (dc_req7 d) (dc_released d).

Lemma dwp_store p bs d (Q : unit -> decode -> Prop) : mapped (dc_heap d) (range p (slen bs)) ->
  (forall h', wr (dc_heap d) p bs = Some h' -> frame (dc_heap d) h' (range p (slen bs)) -> (forall a, dc_heap d !! a = None -> h' !! a = None) ->
     (forall a, range p (slen bs) a = true -> h' !! a = bs !! Z.to_nat (a - p)) -> Q tt (with_heap d h')) ->
  dwp (store p bs) d Q.
Proof.
  intros Hm HQ. destruct (wr_ok (dc_heap d) p bs Hm) as (h' & Hw & H1 & H2 & H3). unfold dwp, store, mbind, decoder_bind, get_heap, lift. rewrite Hw. by apply HQ.
Qed.

Lemma dwp_call f d (Q : Z -> decode -> Prop) : (forall p h', f (dc_heap d) = Some (p, h') -> Q p (with_heap d h')) -> dwp (call f) d Q.
Proof. intros HQ. unfold dwp, call, mbind, decoder_bind, get_heap. destruct (f (dc_heap d)) as [[p h']|] eqn:He; [|done]. by apply HQ. Qed.

Lemma dwp_prefix im p l d (Q : list_prefix -> decode -> Prop) : rd_prefix (heap_image im (dc_heap d)) p = Some l -> Q l d -> dwp (load_prefix im p) d Q.
Proof. intros Hl HQ. unfold dwp, load_prefix, mbind, decoder_bind, get_heap, lift. by rewrite Hl. Qed.

Lemma dwp_word im p w d (Q : Z -> decode -> Prop) : rd_le (heap_image im (dc_heap d)) p 8 = Some w -> Q w d -> dwp (load_word im p) d Q.
Proof. intros Hl HQ. unfold dwp, load_word, mbind, decoder_bind, get_heap, lift. by rewrite Hl. Qed.

(** ** The callbacks *)

(** New memory: nothing old changes, and no constant of the program is hit. *)
Record grown (im : image) h h' : Prop := {
  gr_frame : frame h h' (fun _ => false);
  gr_const : forall a, im_byte im a <> None -> h !! a = None -> h' !! a = None
}.

(** What a region of new memory is. *)
Definition new_region h h' R : Prop := forall a, R a = true -> h !! a = None /\ is_Some (h' !! a).

Class DecodeHostLaws `{DecodeHost} (im : image) : Prop := {
  bytes_made size meta h p h' : 0 <= size -> alloc_bytes size meta h = Some (p, h') ->
    0 < p < 2 ^ 64 /\ grown im h h' /\ new_region h h' (range (p - 8) (8 + size)) /\ rd_le (heap_image im h') (p - 8) 8 = Some meta;
  list_made stride mask count h p h' : 0 < Z.abs stride -> 0 <= count -> new_list stride mask count h = Some (p, h') ->
    0 < p < 2 ^ 64 /\ grown im h h' /\ new_region h h' (range p 32) /\
    exists data, rd_prefix (heap_image im h') p = Some (mkPrefix data 0 stride) /\ new_region h h' (range data (count * Z.abs stride)) /\
      forall a, range p 32 a = true -> range data (count * Z.abs stride) a = false;
  finite_widen bits : f32_finite (narrow_f32 bits) = true -> 0 <= narrow_f32 bits < 2 ^ 32;
  real_word n : 0 <= int_to_f64 n < 2 ^ 64
}.

(** ** Bytes and words *)

Lemma rd_bytes m p bs : (forall i b, bs !! i = Some b -> im_byte m (p + Z.of_nat i) = Some b) -> rd m p (slen bs) = Some bs.
Proof.
  intros Hb. unfold rd. apply mapM_Some. apply Forall2_same_length_lookup_2; [unfold slen; rewrite length_seqZ; lia|].
  intros i a b Ha Hi. apply lookup_seqZ in Ha as [-> _]. by apply Hb.
Qed.

Lemma le_store w n : 0 <= w -> 0 <= n -> le (rt_store_le w n) = w mod 2 ^ (8 * n).
Proof.
  intros Hw Hn. unfold rt_store_le. destruct (store_le_loop_spec (Z.to_nat n) w 0 Hw ltac:(lia)) as (_ & _ & ->). rewrite Z2Nat.id by lia. by rewrite Z.div_1_r.
Qed.

Lemma rd_stored m p w n : 0 <= n -> 0 <= w < 2 ^ (8 * n) -> (forall i b, rt_store_le w n !! i = Some b -> im_byte m (p + Z.of_nat i) = Some b) ->
  rd_le m p n = Some w.
Proof.
  intros Hn Hw Hb. unfold rd_le. pose proof (rt_store_le_len w n ltac:(lia) Hn) as Hl. pose proof (rd_bytes m p (rt_store_le w n) Hb) as Hr. rewrite Hl in Hr.
  rewrite Hr. cbn. rewrite le_store by lia. by rewrite Z.mod_small.
Qed.

Lemma rd_sub m m' p n s : rd m p n = Some s -> (forall a b, p <= a < p + n -> im_byte m a = Some b -> im_byte m' a = Some b) -> rd m' p n = Some s.
Proof.
  unfold rd. rewrite !mapM_Some. intros Hr Hb. apply Forall2_same_length_lookup in Hr as [Hl Hr]. apply Forall2_same_length_lookup_2; [done|].
  intros i a b Ha Hi. apply Hb; [apply lookup_seqZ in Ha; lia|by apply (Hr i)].
Qed.

Lemma rd_le_sub m m' p n w : rd_le m p n = Some w -> (forall a b, p <= a < p + n -> im_byte m a = Some b -> im_byte m' a = Some b) -> rd_le m' p n = Some w.
Proof. unfold rd_le. intros Hr Hb. destruct (rd m p n) as [s|] eqn:He; [|done]. by rewrite (rd_sub m m' p n s He Hb). Qed.

Lemma prefix_sub m m' p l : rd_prefix m p = Some l -> (forall a b, p <= a < p + 32 -> im_byte m a = Some b -> im_byte m' a = Some b) -> rd_prefix m' p = Some l.
Proof.
  unfold rd_prefix. intros Hr Hb. destruct (rd_le m p 8) as [x|] eqn:H1; [|done]. destruct (rd_le m (p + 8) 8) as [y|] eqn:H2; [|done].
  destruct (rd_le m (p + 24) 8) as [z|] eqn:H3; [|done].
  rewrite (rd_le_sub m m' _ _ _ H1), (rd_le_sub m m' _ _ _ H2), (rd_le_sub m m' _ _ _ H3); [done|intros a b Ha; apply Hb; lia..].
Qed.

(** A range of the heap lies in a range of a list's block. *)
Lemma range_sub p n q k a : p <= q -> q + k <= p + n -> range q k a = true -> range p n a = true.
Proof. rewrite !range_true. lia. Qed.

Lemma range_mapped h p n q k : mapped h (range p n) -> p <= q -> q + k <= p + n -> mapped h (range q k).
Proof. intros Hm H1 H2 a Ha. apply Hm. by apply (range_sub p n q k). Qed.

(** ** Documents whose numbers and texts fit *)

Fixpoint tree_ok v : Prop :=
  match v with
  | JUint n | JReal n => 0 <= n < 2 ^ 64
  | JSint n => - 2 ^ 63 <= n < 2 ^ 63
  | JStr s => slen s < 2 ^ 58
  | JArr vs => Z.of_nat (length vs) < 2 ^ 58 /\ (fix all (vs : list jval) : Prop := match vs with [] => True | v :: vs => tree_ok v /\ all vs end) vs
  | JObj kvs => (fix all (kvs : list (str * jval)) : Prop := match kvs with [] => True | kv :: kvs => tree_ok (snd kv) /\ all kvs end) kvs
  | _ => True
  end.

Lemma tree_arr vs : tree_ok (JArr vs) <-> Z.of_nat (length vs) < 2 ^ 58 /\ Forall tree_ok vs.
Proof. cbn. induction vs as [|v vs IH]; [by split; [intros [? _]|]|]. rewrite Forall_cons. cbn [length]. split; intros [H1 [H2 H3]]; (split; [done|split; [done|]]); apply IH; (split; [lia|done]) || apply IH. Qed.

Lemma tree_obj kvs : tree_ok (JObj kvs) <-> Forall (fun kv => tree_ok (snd kv)) kvs.
Proof. cbn. induction kvs as [|kv kvs IH]; [done|]. rewrite Forall_cons. by rewrite IH. Qed.

(** ** Bits of the fields met *)

Lemma seen_bit_spec (seen : list Z) i word : 0 <= i -> seen !! Z.to_nat (i / 64) = Some word -> seen_bit seen i = Some (Z.testbit word (i mod 64)).
Proof.
  intros Hi Hw. unfold seen_bit. rewrite shr_div by lia. change (2 ^ 6) with 64. rewrite Hw. cbn [mbind option_bind]. f_equal.
  change 63 with (Z.ones 6). rewrite Z.land_ones by lia. change (2 ^ 6) with 64. pose proof (Z.mod_pos_bound i 64 ltac:(lia)).
  rewrite shl_mul, Z.mul_1_l by lia. rewrite u64_small by (unfold is_u64; split; [lia|apply Z.pow_lt_mono_r; lia]).
  destruct (Z.testbit word (i mod 64)) eqn:Hb.
  - apply negb_true_iff, Z.eqb_neq. intros He. assert (Z.testbit (word &! 2 ^ (i mod 64)) (i mod 64) = true); [|rewrite He, Z.bits_0 in *; done].
    rewrite Z.land_spec, Hb, Z.pow2_bits_true by lia. done.
  - apply negb_false_iff, Z.eqb_eq. apply Z.bits_inj'. intros n Hn. rewrite Z.land_spec, Z.bits_0. destruct (Z.eq_dec n (i mod 64)) as [->|Hne]; [by rewrite Hb|].
    rewrite Z.pow2_bits_false by lia. apply andb_false_r.
Qed.

Lemma seen_bit_some (seen : list Z) i : 0 <= i < 64 * Z.of_nat (length seen) -> exists word, seen !! Z.to_nat (i / 64) = Some word.
Proof. intros Hi. apply lookup_lt_is_Some_2. pose proof (Z.div_lt_upper_bound i 64 (Z.of_nat (length seen)) ltac:(lia) ltac:(lia)). pose proof (Z.div_pos i 64 ltac:(lia) ltac:(lia)). lia. Qed.

Lemma seen_set_spec (seen : list Z) i j : 0 <= i -> 0 <= j < 64 * Z.of_nat (length seen) ->
  seen_bit (seen_set seen i) j = if j =? i then Some true else seen_bit seen j.
Proof.
  intros Hi Hj. destruct (seen_bit_some seen j Hj) as [word Hw]. unfold seen_set. rewrite shr_div by lia. change (2 ^ 6) with 64.
  change 63 with (Z.ones 6). rewrite Z.land_ones by lia. change (2 ^ 6) with 64. pose proof (Z.mod_pos_bound i 64 ltac:(lia)).
  rewrite shl_mul, Z.mul_1_l by lia. rewrite u64_small by (unfold is_u64; split; [lia|apply Z.pow_lt_mono_r; lia]).
  destruct (Z.eq_dec (j / 64) (i / 64)) as [He|Hne].
  - rewrite (seen_bit_spec _ j (word |! 2 ^ (i mod 64))) by (try lia; rewrite <-He, list_lookup_alter_eq, Hw; done).
    rewrite Z.lor_spec, Z.pow2_bits_eqb by lia. rewrite (seen_bit_spec seen j word) by (done || lia).
    destruct (Z.eqb_spec j i) as [->|Hji]; [by rewrite Z.eqb_refl, orb_true_r|].
    destruct (Z.eqb_spec (i mod 64) (j mod 64)) as [Hm|_]; [dlia|]. by rewrite orb_false_r.
  - rewrite (seen_bit_spec _ j word); [|lia|].
    + rewrite (proj2 (Z.eqb_neq j i)) by (intros ->; done). symmetry. by apply seen_bit_spec; [lia|].
    + rewrite list_lookup_alter_ne; [done|]. pose proof (Z.div_pos i 64 ltac:(lia) ltac:(lia)). pose proof (Z.div_pos j 64 ltac:(lia) ltac:(lia)). lia.
Qed.

Lemma seen_set_length (seen : list Z) i : length (seen_set seen i) = length seen.
Proof. apply length_alter. Qed.

Lemma seen_init_spec words expected : 0 <= expected -> length (seen_init words expected) = Z.to_nat words /\
  forall j, 0 <= j < 64 * words -> seen_bit (seen_init words expected) j = Some (j <? expected).
Proof.
  intros He. unfold seen_init. replace expected with (Z.of_nat (Z.to_nat expected)) by lia. generalize (Z.to_nat expected) as n. clear He. induction n as [|n [IHl IH]].
  - cbn [seqZ]. change (seqZ 0 (Z.of_nat 0)) with (@nil Z). cbn [fold_left]. rewrite length_replicate. split; [done|]. intros j Hj.
    rewrite (seen_bit_spec _ j 0); [|lia|apply lookup_replicate_2; pose proof (Z.div_lt_upper_bound j 64 words ltac:(lia) ltac:(lia)); pose proof (Z.div_pos j 64 ltac:(lia) ltac:(lia)); lia].
    rewrite Z.bits_0. f_equal. symmetry. apply Z.ltb_ge. lia.
  - rewrite seqZ_S, fold_left_app. cbn [fold_left]. rewrite seen_set_length. split; [done|]. intros j Hj.
    rewrite seen_set_spec by (rewrite ?IHl; lia). rewrite IH by done. destruct (Z.eqb_spec j (0 + Z.of_nat n)); [f_equal; symmetry; apply Z.ltb_lt; lia|].
    f_equal. apply eq_true_iff_eq. rewrite !Z.ltb_lt. lia.
Qed.

(** ** The end of an object *)

Definition is_met (o : option (option jval)) : bool := match o with Some (Some _) => true | _ => false end.

(** What [pg] knows is which fields have a value. *)
Record progress_ok (n : nat) (vals : list (option jval)) (pg : progress) : Prop := {
  po_length : length vals = n;
  po_ordered : pg_seen pg = None -> 0 <= pg_expected pg <= Z.of_nat n /\ forall i, (i < n)%nat -> is_met (vals !! i) = (Z.of_nat i <? pg_expected pg);
  po_seen : forall seen, pg_seen pg = Some seen -> Z.of_nat n <= 64 * Z.of_nat (length seen) /\
    forall i, (i < n)%nat -> seen_bit seen (Z.of_nat i) = Some (is_met (vals !! i))
}.

Lemma check_end_drop n : forall (fs : list fld) (vals : list (option jval)), (forall i, (i < n)%nat -> is_met (vals !! i) = true) ->
  match check_end fs vals, check_end (drop n fs) (drop n vals) with
  | inl _, inl _ => True
  | inr e, inr e' => e = e'
  | _, _ => False
  end.
Proof.
  induction n as [|n IH]; intros fs vals Hm; [rewrite !drop_0; by destruct (check_end fs vals)|]. destruct fs as [|f fs]; [by destruct vals|]. destruct vals as [|val vals].
  { by specialize (Hm O ltac:(lia)). }
  cbn [drop check_end]. pose proof (Hm O ltac:(lia)) as H0. cbn in H0. destruct val as [w|]; [|done].
  assert (Hm' : forall i, (i < n)%nat -> is_met (vals !! i) = true) by (intros i Hi; apply (Hm (S i)); lia). specialize (IH fs vals Hm').
  destruct (check_end fs vals), (check_end (drop n fs) (drop n vals)); done.
Qed.

(** Rows are numbered. *)
Lemma zip_at n : forall k (gs : list BeansJsonTypedField) (cs : list (option BeansJsonTypedComplex)) i index f x,
  zip (zip (Z.of_nat <$> seq k n) gs) cs !! i = Some (index, f, x) -> index = Z.of_nat (k + i).
Proof.
  induction n as [|n IH]; intros k [|g gs] [|c cs] [|i] index f x He; cbn in He; try done.
  - injection He as <- _ _. lia.
  - apply IH in He. lia.
Qed.

Lemma rows_at s rows i index f x : schema_rows s = Some rows -> rows !! i = Some (index, f, x) -> index = Z.of_nat i.
Proof.
  unfold schema_rows. destruct (s_field_count s =? 0); [by intros [= <-]|]. destruct (s_fields s) as [gs|]; [|done]. cbn [mbind option_bind]. destruct (_ <=? _)%nat; [|done].
  destruct (s_complex s) as [cs|]; [destruct (_ <=? _)%nat; [|done]|]; intros [= <-] He; by apply zip_at in He.
Qed.

Section object.
Context (fs : list fld) (rows : list row).
Context (Hlen : length fs = length rows) (Hrow : forall i index f x, rows !! i = Some (index, f, x) -> index = Z.of_nat i).
Context (Hmiss : forall i names opt t index f x, fs !! i = Some (names, opt, t) -> rows !! i = Some (index, f, x) -> may_miss f = opt).

Lemma missing_spec vals (seen : option (list Z)) n : length vals = length fs ->
  (forall i, (n <= i < length fs)%nat -> match seen with Some seen => seen_bit seen (Z.of_nat i) = Some (is_met (vals !! i)) | None => is_met (vals !! i) = false end) ->
  forall d, dwp (missing_check (drop n rows) seen) d (fun status d' => dc_heap d' = dc_heap d /\ dc_released d' = dc_released d /\
    match check_end (drop n fs) (drop n vals) with inl _ => status = ENC_OK | inr (st, code) => status = st /\ dc_req5 d' = code end).
Proof.
  intros Hv Hs d. remember (length fs - n)%nat as k eqn:Hk. revert n Hs Hk. induction k as [|k IH]; intros n Hs Hk.
  - rewrite !drop_ge by lia. by apply dwp_ret.
  - destruct (lookup_lt_is_Some_2 fs n) as [[[names opt] t] Hf]; [lia|]. destruct (lookup_lt_is_Some_2 rows n) as [[[index f] x] Hr]; [lia|].
    destruct (lookup_lt_is_Some_2 vals n) as [val Hval]; [lia|]. rewrite (drop_S _ _ _ Hf), (drop_S _ _ _ Hr), (drop_S _ _ _ Hval). cbn [missing_check check_end snd fst].
    specialize (IH (S n) ltac:(intros i Hi; apply Hs; lia) ltac:(lia)). pose proof (Hs n ltac:(lia)) as Hn. rewrite Hval in Hn. pose proof (Hrow _ _ _ _ Hr) as ->.
    assert (Hlk : (match seen with Some seen => seen_bit seen (Z.of_nat n) | None => Some false end) =
      Some (match seen with Some _ => is_met (Some val) | None => false end)) by (by destruct seen).
    apply dwp_bind. eapply dwp_lift; [exact Hlk|]. rewrite (Hmiss _ _ _ _ _ _ _ Hf Hr).
    destruct val as [w|]; [|destruct opt].
    + destruct seen as [seen|]; [|done]. cbn [is_met orb]. eapply dwp_mono; [exact IH|]. intros st d' (H1 & H2 & H3). split_and!; [done|done|].
      destruct (check_end (drop (S n) fs) (drop (S n) vals)); done.
    + rewrite orb_true_r. eapply dwp_mono; [exact IH|]. intros st d' (H1 & H2 & H3). split_and!; [done|done|].
      destruct (check_end (drop (S n) fs) (drop (S n) vals)); done.
    + rewrite orb_false_r. replace (match seen with Some _ => _ | None => _ end) with false by (by destruct seen). by cbn.
Qed.

(** ** Where a member goes *)

Lemma field_index_lt name i : field_index fs name = Some i -> (i < length fs)%nat.
Proof.
  unfold field_index. destruct (list_find _ fs) as [[j f]|] eqn:He; [|done]. intros [= <-]. apply list_find_Some in He as [Hf _]. by eapply lookup_lt_Some.
Qed.

Lemma met_insert (vals : list (option jval)) i j (w : jval) : (i < length vals)%nat -> is_met (<[i := Some w]> vals !! j) = is_met (vals !! j) || bool_decide (i = j).
Proof.
  intros Hi. destruct (decide (i = j)) as [->|Hne].
  - rewrite list_lookup_insert_eq by done. by rewrite bool_decide_eq_true_2, orb_true_r.
  - rewrite list_lookup_insert_ne by done. by rewrite bool_decide_eq_false_2, orb_false_r.
Qed.

Context (im : image) (s : BeansJsonTypedSchema) (keys : list BeansJsonTypedKey) (k : Z).
Context (Hkeys : s_keys s = Some keys) (Hmask : s_key_mask s = 2 ^ k - 1) (Htable : table_ok im keys k (field_index fs)).
Context (Hcount : s_field_count s = Z.of_nat (length fs)) (Hnames : names_apart fs).
Context (Hok : forall i names opt t index f x, fs !! i = Some (names, opt, t) -> rows !! i = Some (index, f, x) -> field_ok im names opt t f).

Definition seen_ok (vals : list (option jval)) (seen : list Z) : Prop := Z.of_nat (length fs) <= 64 * Z.of_nat (length seen) /\
  forall i, (i < length fs)%nat -> seen_bit seen (Z.of_nat i) = Some (is_met (vals !! i)).

(** The bits, once a member is out of order. *)
Lemma seen_now vals pg : progress_ok (length fs) vals pg ->
  seen_ok vals (match pg_seen pg with Some seen => seen | None => seen_init ((s_field_count s + 63) / 64) (pg_expected pg) end).
Proof.
  intros [Hl Ho Hs]. destruct (pg_seen pg) as [seen|] eqn:Hp; [by apply Hs|]. destruct (Ho eq_refl) as [He Hm]. rewrite Hcount.
  destruct (seen_init_spec ((Z.of_nat (length fs) + 63) / 64) (pg_expected pg) ltac:(lia)) as [Hi Hb].
  assert (Hw : Z.of_nat (length fs) <= 64 * ((Z.of_nat (length fs) + 63) / 64)) by dlia. split; [lia|].
  intros i Hlt. rewrite Hb by lia. by rewrite Hm.
Qed.

Lemma table_place vals pg seen name expected : progress_ok (length fs) vals pg -> seen_ok vals seen ->
  exists at_, (key ← json_typed_find_key im s name;
    match key with
    | None => Some (if has_flag (s_flags s) TYPED_ALLOW_UNKNOWN then PSkip (mkProgress expected (Some seen)) else PStop TYPED_ERR_UNKNOWN)
    | Some key =>
        let index := k_field key - 1 in
        dup ← seen_bit seen index;
        Some (if (dup : bool) then PStop TYPED_ERR_DUPLICATE else PField index (mkProgress expected (Some (seen_set seen index))))
    end) = Some at_ /\
  match field_index fs name with
  | None => if has_flag (s_flags s) TYPED_ALLOW_UNKNOWN then exists pg', at_ = PSkip pg' /\ progress_ok (length fs) vals pg' else at_ = PStop TYPED_ERR_UNKNOWN
  | Some i => if is_met (vals !! i) then at_ = PStop TYPED_ERR_DUPLICATE
      else exists pg', at_ = PField (Z.of_nat i) pg' /\ forall w, progress_ok (length fs) (<[i := Some w]> vals) pg'
  end.
Proof.
  intros [Hl _ _] [Hsl Hsb]. pose proof (find_key_spec im keys k (field_index fs) Htable s name Hkeys Hmask) as Hf.
  destruct (field_index fs name) as [i|] eqn:Hi.
  - destruct Hf as (key & -> & Hk). cbn [mbind option_bind]. cbv zeta. pose proof (field_index_lt _ _ Hi) as Hlt. replace (k_field key - 1) with (Z.of_nat i) by lia.
    rewrite (Hsb i Hlt). cbn [mbind option_bind]. destruct (is_met (vals !! i)) eqn:Hm; [by eexists|]. eexists. split; [done|]. eexists. split; [done|].
    intros w. split; cbn; [by rewrite length_insert|done|]. intros seen' [= <-]. rewrite seen_set_length. split; [done|]. intros j Hj.
    rewrite seen_set_spec by lia. rewrite met_insert by lia. destruct (Z.eqb_spec (Z.of_nat j) (Z.of_nat i)) as [He|Hne].
    + rewrite bool_decide_eq_true_2 by lia. by rewrite orb_true_r.
    + rewrite bool_decide_eq_false_2 by lia. by rewrite orb_false_r, Hsb.
  - rewrite Hf. cbn [mbind option_bind]. eexists. split; [done|]. destruct (has_flag _ _); [|done]. eexists. split; [done|]. split; cbn; [done|done|].
    by intros seen' [= <-].
Qed.

Lemma member_place_spec vals pg name : progress_ok (length fs) vals pg -> exists at_, member_place im s rows name pg = Some at_ /\
  match field_index fs name with
  | None => if has_flag (s_flags s) TYPED_ALLOW_UNKNOWN then exists pg', at_ = PSkip pg' /\ progress_ok (length fs) vals pg' else at_ = PStop TYPED_ERR_UNKNOWN
  | Some i => if is_met (vals !! i) then at_ = PStop TYPED_ERR_DUPLICATE
      else exists pg', at_ = PField (Z.of_nat i) pg' /\ forall w, progress_ok (length fs) (<[i := Some w]> vals) pg'
  end.
Proof.
  intros Hpg. pose proof (table_place vals pg _ name (pg_expected pg) Hpg (seen_now vals pg Hpg)) as Hslow. unfold member_place. cbv zeta.
  destruct (bool_decide_reflect (pg_seen pg = None)) as [Hord|]; [|exact Hslow]. cbn [andb].
  destruct (po_ordered _ _ _ Hpg Hord) as [He Hm]. destruct (Z.ltb_spec (pg_expected pg) (s_field_count s)) as [Hlt|]; [|exact Hslow].
  set (n := Z.to_nat (pg_expected pg)). destruct (lookup_lt_is_Some_2 fs n) as [[[names opt] t] Hf]; [lia|].
  destruct (lookup_lt_is_Some_2 rows n) as [[[index f] x] Hr]; [lia|]. rewrite Hr. cbn [mbind option_bind].
  destruct (fo_names _ _ _ _ _ (Hok _ _ _ _ _ _ _ Hf Hr)) as (primary & rest & Hns & Hrd & Hpl).
  destruct (Z.eqb_spec (f_primary_name_len f) (slen name)); [|exact Hslow]. rewrite Hrd. cbn [mbind option_bind]. unfold json_name_eq.
  destruct (bool_decide_reflect (primary = name)) as [->|]; [|exact Hslow]. eexists. split; [done|].
  assert (Hi : field_index fs name = Some n). { apply (Hnames n _ name Hf). cbn. rewrite Hns. by apply elem_of_cons; left. }
  rewrite Hi, Hm by lia. destruct (Z.ltb_spec (Z.of_nat n) (pg_expected pg)); [lia|]. eexists. split; [f_equal; lia|]. intros w.
  pose proof (po_length _ _ _ Hpg) as Hl. split; cbn; [by rewrite length_insert| |done]. intros _. split; [lia|]. intros i Hi'.
  rewrite met_insert, Hm by lia. apply eq_true_iff_eq. rewrite orb_true_iff, bool_decide_eq_true, !Z.ltb_lt. lia.
Qed.
End object.

(** ** Values *)

Section walk.
Context `{DecodeHost, CHeap, Yyjson} (im : image) `{!DecodeHostLaws im} (max_depth : Z).
Hypothesis Hroom : forall k, yy_room k = true.
Hypothesis Hmalloc : forall n, c_malloc n <> None.

(** The heap and the program's constants do not overlap. *)
Definition apart h : Prop := forall a, im_byte im a <> None -> h !! a = None.

Definition step_ok d d' R : Prop := frame (dc_heap d) (dc_heap d') R /\ apart (dc_heap d') /\ dc_released d' = dc_released d.

(** How a status above 0 (a code) or below (an answer already given) stands for
    the fault [e]. *)
Definition fails (e : Z * Z) (status : Z) d : Prop :=
  (0 < status /\ status = snd e /\ fst e = (if status =? TYPED_ERR_RANGE then ENC_ERR_RANGE else ENC_ERR_TYPE)) \/
  (status < 0 /\ status = - fst e /\ dc_req5 d = snd e).

Definition value_post (t : jty) (dv : vdesc) (slot : bool) (p : Z) d (res : jval + Z * Z) (status : Z) d' : Prop :=
  step_ok d d' (range p (width t)) /\
  match res with
  | inl w => status = 0 /\ reads_tree (foot im (dc_heap d) (dc_heap d') (range p (width t))) dv p slot w /\
      (nullable t = true -> exists q, rd_le (foot im (dc_heap d) (dc_heap d') (range p (width t))) p 8 = Some q /\ q <> 0)
  | inr e => fails e status d'
  end.

Lemma step_refl d R : apart (dc_heap d) -> step_ok d d R.
Proof. intros Ha. split_and!; [apply frame_refl|done|done]. Qed.

Lemma type_fails d : fails (ENC_ERR_TYPE, TYPED_ERR_TYPE) TYPED_ERR_TYPE d.
Proof. by left. Qed.

Lemma refuse_post t dv slot p d e status : apart (dc_heap d) -> fails e status d -> value_post t dv slot p d (inr e) status d.
Proof. intros Ha Hf. split; [by apply step_refl|done]. Qed.

Lemma foot_at h h' R a b : R a = true -> h' !! a = Some b -> im_byte (foot im h h' R) a = Some b.
Proof. intros HR Hb. cbn. by rewrite HR, Hb. Qed.

Lemma foot_new h h' R a b : h !! a = None -> h' !! a = Some b -> im_byte (foot im h h' R) a = Some b.
Proof. intros Hn Hb. cbn. by rewrite (bool_decide_eq_true_2 _ Hn), orb_true_r, Hb. Qed.

(** A store of the whole value. *)
Lemma store_post t dv slot p d bs w : nullable t = false -> slen bs = width t -> mapped (dc_heap d) (range p (width t)) -> apart (dc_heap d) ->
  (forall m, (forall i b, bs !! i = Some b -> im_byte m (p + Z.of_nat i) = Some b) -> reads_tree m dv p slot w) ->
  dwp (_ ← store p bs; mret 0) d (value_post t dv slot p d (inl w)).
Proof.
  intros Hnn Hl Hm Ha Hr. apply dwp_bind. rewrite <-Hl in *. apply dwp_store; [done|]. intros h' _ Hf Hn Hb. apply dwp_ret. split; [|split; [done|split; [|by rewrite Hnn]]].
  - rewrite <-Hl. split_and!; [done| |done]. intros a Hc. apply Hn, Ha, Hc.
  - rewrite <-Hl. apply Hr. intros i b Hi. pose proof (lookup_lt_Some _ _ _ Hi). apply foot_at; [apply range_true; unfold slen; lia|].
    cbn. rewrite Hb by (apply range_true; unfold slen; lia). by replace (Z.to_nat (p + Z.of_nat i - p)) with i by lia.
Qed.

Lemma narrow_unsigned k n : 0 <= k <= 64 -> 0 <= n < 2 ^ k -> (u64 n) mod 2 ^ k = u64 n.
Proof.
  intros Hk Hn. pose proof (Z.pow_le_mono_r 2 k 64 ltac:(lia) ltac:(lia)). rewrite u64_small by (unfold is_u64; lia). by apply Z.mod_small.
Qed.

(** A narrow signed number widens back. *)
Lemma narrow_signed k n : 1 <= k <= 64 -> - 2 ^ (k - 1) <= n < 2 ^ (k - 1) ->
  let r := (u64 n) mod 2 ^ k in (if r <? 2 ^ (k - 1) then r else u64 (r - 2 ^ k)) = u64 n.
Proof.
  intros Hk Hn. cbv zeta. assert (H2 : 2 ^ k = 2 * 2 ^ (k - 1)) by (rewrite <-Z.pow_succ_r by lia; f_equal; lia).
  assert (Hr : (u64 n) mod 2 ^ k = n mod 2 ^ k).
  { unfold u64. rewrite (Z.mod_eq n (2 ^ 64)) by lia. assert (H64 : 2 ^ 64 = 2 ^ (64 - k) * 2 ^ k) by (rewrite <-Z.pow_add_r by lia; f_equal; lia).
    rewrite H64 at 1. replace (n - _) with (n + (- (2 ^ (64 - k) * (n / 2 ^ 64))) * 2 ^ k) by lia. by rewrite Z_mod_plus_full. }
  rewrite Hr. destruct (Z.ltb_spec n 0).
  - replace (n mod 2 ^ k) with (n + 2 ^ k) by (apply (Z.mod_unique_pos _ _ (-1)); lia). destruct (Z.ltb_spec (n + 2 ^ k) (2 ^ (k - 1))); [lia|]. f_equal. lia.
  - rewrite Z.mod_small by lia. destruct (Z.ltb_spec n (2 ^ (k - 1))); [|lia]. pose proof (Z.pow_le_mono_r 2 (k - 1) 63 ltac:(lia) ltac:(lia)).
    rewrite u64_small by (unfold is_u64; lia). done.
Qed.

Lemma integer_reads (uns : bool) (bits n : Z) (slot : bool) m p dv : v_kind dv = (if uns then TYPED_UINT else TYPED_SINT) -> flag_bits (v_flags dv) = bits -> bits ∈ [8; 16; 32; 64] ->
  (slot = true -> bits = 64) -> (if uns then 0 <= n < 2 ^ bits else - 2 ^ (bits - 1) <= n < 2 ^ (bits - 1)) ->
  (forall i b, integer_bytes (u64 n) bits !! i = Some b -> im_byte m (p + Z.of_nat i) = Some b) -> reads_tree m dv p slot (if uns then JUint n else JSint n).
Proof.
  intros Hk Hf Hb Hs Hn Hm.
  assert (Hnarrow : forall w, bits ∈ [8; 16; 32] -> integer_bytes (u64 n) bits = rt_store_le ((u64 n) mod 2 ^ bits) w -> w = bits / 8 ->
    typed_read_integer m p bits uns slot = Some (u64 n)).
  { intros w Hb3 Hi ->. rewrite Hi in Hm. unfold typed_read_integer. rewrite (bool_decide_eq_true_2 _ Hb3). assert (Hb' : 8 <= bits <= 32 /\ bits = 8 * (bits / 8)).
    { rewrite !elem_of_cons, elem_of_nil in Hb3. destruct Hb3 as [->|[->|[->|[]]]]; done || lia. }
    destruct slot; [specialize (Hs eq_refl); lia|].
    pose proof (Z.mod_pos_bound (u64 n) (2 ^ bits) ltac:(apply Z.pow_pos_nonneg; lia)) as Hmod.
    rewrite (rd_stored m p ((u64 n) mod 2 ^ bits) (bits / 8)); [|lia|by rewrite <-(proj2 Hb')|exact Hm]. cbn [mbind option_bind]. f_equal.
    destruct uns; [apply narrow_unsigned; lia|exact (narrow_signed bits n ltac:(lia) Hn)]. }
  assert (Hread : typed_read_integer m p bits uns slot = Some (u64 n)).
  { rewrite !elem_of_cons, elem_of_nil in Hb. destruct Hb as [->|[->|[->|[->|[]]]]]; [apply (Hnarrow 1)|apply (Hnarrow 2)|apply (Hnarrow 4)|]; try (rewrite !elem_of_cons; auto); try done.
    unfold typed_read_integer. rewrite bool_decide_eq_false_2 by (rewrite !elem_of_cons, elem_of_nil; lia).
    destruct slot; (apply rd_stored; [lia|apply u64_is|exact Hm]). }
  pose proof (reads_int m Hroom dv p uns bits slot (u64 n) Hk Hf Hread) as Hr.
  assert (8 <= bits <= 64) by (rewrite !elem_of_cons, elem_of_nil in Hb; lia).
  destruct uns.
  - pose proof (Z.pow_le_mono_r 2 bits 64 ltac:(lia) ltac:(lia)). by rewrite u64_small in Hr by (unfold is_u64; lia).
  - pose proof (Z.pow_le_mono_r 2 (bits - 1) 63 ltac:(lia) ltac:(lia)). by replace (i64 (u64 n)) with n in Hr by (unfold i64, u64; dlia).
Qed.

Lemma integer_width (uns : bool) (bits n : Z) : bits ∈ [8; 16; 32; 64] -> slen (integer_bytes (u64 n) bits) = width (TInt uns bits).
Proof.
  intros Hb. unfold integer_bytes, width. pose proof (u64_is n) as Hn. unfold is_u64 in Hn. rewrite !elem_of_cons in Hb.
  destruct Hb as [->|[->|[->|[->|Hb]]]]; [..|by apply not_elem_of_nil in Hb]; cbn [Z.eqb Pos.eqb]; rewrite rt_store_le_len; try done; unfold u8, u32; try (apply Z.mod_pos_bound; lia); lia.
Qed.

(** *** Strings *)

Lemma frame_some h h' R a b : frame h h' R -> h !! a = Some b -> R a = false -> h' !! a = Some b.
Proof. intros Hf Hb HR. destruct (Hf a ltac:(done)) as [_ He]. by rewrite He. Qed.

(** Bytes written at [q] are found there after changes elsewhere. *)
Lemma bytes_stay h h' R q bs : (forall a, range q (slen bs) a = true -> h !! a = bs !! Z.to_nat (a - q)) -> frame h h' R ->
  (forall a, range q (slen bs) a = true -> R a = false) -> forall i b, bs !! i = Some b -> h' !! (q + Z.of_nat i) = Some b.
Proof.
  intros Hb Hf HR i b Hi. pose proof (lookup_lt_Some _ _ _ Hi). assert (Hr : range q (slen bs) (q + Z.of_nat i) = true) by (apply range_true; unfold slen; lia).
  eapply frame_some; [exact Hf| |by apply HR]. rewrite Hb by done. by replace (Z.to_nat (q + Z.of_nat i - q)) with i by lia.
Qed.

Lemma word_len w : slen (word_bytes w) = 8.
Proof. reflexivity. Qed.

(** What a store leaves. *)
Definition stored h h' q bs : Prop := frame h h' (range q (slen bs)) /\ (forall a, h !! a = None -> h' !! a = None) /\
  forall a, range q (slen bs) a = true -> h' !! a = bs !! Z.to_nat (a - q).

Lemma dwp_stored q bs d (Q : unit -> decode -> Prop) : mapped (dc_heap d) (range q (slen bs)) ->
  (forall h', stored (dc_heap d) h' q bs -> Q tt (with_heap d h')) -> dwp (store q bs) d Q.
Proof. intros Hm HQ. apply dwp_store; [done|]. intros h' _ F1 F2 F3. by apply HQ. Qed.

Lemma grown_apart h h' : grown im h h' -> apart h -> apart h'.
Proof. intros Hg Ha a Hc. apply (gr_const _ _ _ Hg a Hc). by apply Ha. Qed.

Lemma stored_apart h h' q bs : stored h h' q bs -> apart h -> apart h'.
Proof. intros (_ & Hn & _) Ha a Hc. by apply Hn, Ha. Qed.

(** A region of new memory stays outside a range of old memory. *)
Lemma new_apart h h' q n p w a : new_region h h' (range q n) -> mapped h (range p w) -> range q n a = true -> range p w a = false.
Proof. intros Hn Hm Ha. destruct (range p w a) eqn:Hr; [|done]. destruct (Hn a Ha) as [He _]. destruct (Hm a Hr) as [b Hb]. congruence. Qed.

Lemma string_header n : 0 <= n < 2 ^ 58 -> u64 (Z.shiftl n 3) = 8 * n /\ ((8 * n) &! Z.ones 61) >>! 3 = n.
Proof.
  intros Hn. rewrite Z.shiftl_mul_pow2 by lia. split; [rewrite u64_small by (unfold is_u64; lia); lia|].
  rewrite Z.land_ones by lia. rewrite shr_div by lia. rewrite Z.mod_small by lia. change (2 ^ 3) with 8. rewrite Z.mul_comm. by apply Z.div_mul.
Qed.

Definition make_string (text : str) (target : Z) : decoder Z :=
  string ← call (alloc_bytes (slen text + 1) (u64 (Z.shiftl (slen text) 3)));
  _ ← store string text; _ ← store (string + slen text) [0]; _ ← store target (word_bytes string); mret 0.

Lemma string_post dv slot p d t : v_kind dv = TYPED_STRING -> slen t < 2 ^ 58 -> mapped (dc_heap d) (range p 8) -> apart (dc_heap d) ->
  dwp (make_string t p) d (value_post TStr dv slot p d (inl (JStr t))).
Proof.
  intros Hk Hlen Hm Ha. unfold make_string. pose proof (slen_nonneg t) as Hl0. destruct (string_header (slen t) ltac:(lia)) as [-> Hhead].
  apply dwp_bind, dwp_call. intros s h1 Hs. destruct (bytes_made (slen t + 1) _ _ _ _ ltac:(lia) Hs) as (Hs0 & Hg & Hnew & Hhd).
  assert (Hnr : forall q n, s - 8 <= q -> q + n <= s + slen t + 1 -> new_region (dc_heap d) h1 (range q n)).
  { intros q n L1 L2 a Hr. apply Hnew. apply range_true in Hr. apply range_true. lia. }
  assert (Hold : frame (dc_heap d) h1 (range p 8)) by (eapply frame_weaken; [apply Hg|done]).
  apply dwp_bind, dwp_stored; [intros a Hr; by apply (Hnr s (slen t) ltac:(lia) ltac:(lia))|]. intros h2 S2. cbn [with_heap dc_heap] in *.
  apply dwp_bind, dwp_stored; [intros a Hr; apply S2; by apply (Hnr (s + slen t) 1 ltac:(lia) ltac:(lia))|]. intros h3 S3. cbn [with_heap dc_heap] in *.
  apply dwp_bind, dwp_stored; [rewrite word_len; intros a Hr; apply S3, S2, Hg, Hm, Hr|]. intros h4 S4. cbn [with_heap dc_heap] in *. apply dwp_ret.
  assert (Ha4 : apart h4) by (eapply stored_apart; [exact S4|]; eapply stored_apart; [exact S3|]; eapply stored_apart; [exact S2|]; by eapply grown_apart).
  destruct S2 as (F2 & _ & B2), S3 as (F3 & _ & _), S4 as (F4 & _ & B4). rewrite word_len in F4, B4. change (slen [0]) with 1 in F3.
  assert (Hnone : forall a, range (s - 8) (8 + (slen t + 1)) a = true -> dc_heap d !! a = None /\ range p 8 a = false).
  { intros a Hr. split; [by apply Hnew|]. by eapply new_apart; [exact Hnew| |]. }
  assert (Hin : forall q n a, s - 8 <= q -> q + n <= s + slen t + 1 -> range q n a = true -> range (s - 8) (8 + (slen t + 1)) a = true).
  { intros q n a L1 L2 Hr. apply range_true in Hr. apply range_true. lia. }
  split; [|split; [done|split]].
  - split_and!; [|done|done]. eapply frame_trans; [|exact F4]. eapply frame_fresh; [eapply frame_fresh; [exact Hold|exact F2|]|exact F3|];
      intros a [b Hb] Hr; (destruct (Hnone a) as [He _]; [eapply (Hin _ _ a); [| |exact Hr]; lia|congruence]).
  - apply reads_string with s; [done|done| |lia| |].
    + apply rd_stored; [lia|change (2 ^ (8 * 8)) with (2 ^ 64); lia|]. intros i b Hi. apply foot_at.
      * apply lookup_lt_Some in Hi. change (length (rt_store_le s 8)) with 8%nat in Hi. apply range_true. cbn [width]. lia.
      * by apply (bytes_stay h4 h4 (fun _ => false) p (word_bytes s)); [exact B4|apply frame_refl|done|].
    + unfold header_len. rewrite (rd_le_sub (heap_image im h1) _ _ _ _ Hhd); [done|]. intros a b Hr Hb.
      assert (Hr' : range (s - 8) (8 + (slen t + 1)) a = true) by (apply range_true; lia). destruct (Hnone a Hr') as [He Hp].
      apply foot_new; [done|]. eapply frame_some; [exact F4| |done]. eapply frame_some; [exact F3| |apply not_true_iff_false; rewrite range_true; lia].
      eapply frame_some; [exact F2|exact Hb|apply not_true_iff_false; rewrite range_true; lia].
    + apply rd_bytes. intros i b Hi. pose proof (lookup_lt_Some _ _ _ Hi) as Hlt.
      assert (Hr' : range (s - 8) (8 + (slen t + 1)) (s + Z.of_nat i) = true) by (apply range_true; unfold slen; lia). destruct (Hnone _ Hr') as [He Hp].
      apply foot_new; [done|]. eapply frame_some; [exact F4| |done]. apply (bytes_stay h2 h3 _ s t B2 F3); [|done].
      intros a Hr. apply not_true_iff_false. rewrite range_true in *. lia.
  - intros _. exists s. split; [|lia]. apply rd_stored; [lia|change (2 ^ (8 * 8)) with (2 ^ 64); lia|]. intros i b Hi. apply foot_at.
    + apply lookup_lt_Some in Hi. change (length (rt_store_le s 8)) with 8%nat in Hi. apply range_true. cbn [width]. lia.
    + by apply (bytes_stay h4 h4 (fun _ => false) p (word_bytes s)); [exact B4|apply frame_refl|done|].
Qed.

(** *** Lists *)

(** The parts of the walk below [n] levels answer [check]. *)
Definition good n (V : vdesc -> Z -> jval -> Z -> Z -> decoder Z) : Prop := forall t dv slot mask v p depth d,
  (jheight v <= n)%nat -> describes im t dv slot -> tree_ok v -> mapped (dc_heap d) (range p (width t)) -> apart (dc_heap d) ->
  dwp (V dv mask v p depth) d (value_post t dv slot p d (check max_depth v t depth)).

Lemma fails_nonzero e status d : fails e status d -> (status =? 0) = false.
Proof. intros [(Hs & _)|(Hs & _)]; apply Z.eqb_neq; lia. Qed.

Lemma prefix_len m m' p data n n' stride : rd_prefix m p = Some (mkPrefix data n stride) -> is_u64 n' ->
  (forall a b, range p 32 a = true -> range (p + 8) 8 a = false -> im_byte m a = Some b -> im_byte m' a = Some b) ->
  (forall i b, word_bytes n' !! i = Some b -> im_byte m' (p + 8 + Z.of_nat i) = Some b) -> rd_prefix m' p = Some (mkPrefix data n' stride).
Proof.
  intros Hr Hn Hs Hw. unfold rd_prefix in *. destruct (rd_le m p 8) as [x|] eqn:E1; [|done]. destruct (rd_le m (p + 8) 8) as [y|] eqn:E2; [|done].
  destruct (rd_le m (p + 24) 8) as [z|] eqn:E3; [|done]. cbn [mbind option_bind] in *. injection Hr as -> -> Hz.
  assert (Hle : forall q, (q = p \/ q = p + 24) -> forall a b, q <= a < q + 8 -> im_byte m a = Some b -> im_byte m' a = Some b).
  { intros q Hq a b Ha. apply Hs; [apply range_true; lia|apply not_true_iff_false; rewrite range_true; lia]. }
  rewrite (rd_le_sub m m' _ _ _ E1) by (apply Hle; by left). rewrite (rd_le_sub m m' _ _ _ E3) by (apply Hle; by right).
  unfold word_bytes in Hw. rewrite (rd_stored m' (p + 8) n' 8) by (done || lia). cbn [mbind option_bind]. by rewrite Hz.
Qed.

Section items.
Context (n : nat) (V : vdesc -> Z -> jval -> Z -> Z -> decoder Z) (HV : good n V) (e : jty) (dv : vdesc) (stride lp data count depth : Z) (h0 : gmap Z Z).
Let ed := element_desc (v_element_kind dv) (v_element_schema dv) (v_element_size dv).
Let w := width e.
Context (Hed : describes im e ed (stride <? 0)) (Hsize : v_element_size dv = w) (Hw : 0 < w) (Hcount : 0 <= count < 2 ^ 63).
Let block : Z -> bool := fun a => range data (count * w) a || range lp 32 a.
Context (Hblock : mapped h0 block) (Hoff : forall a, range lp 32 a = true -> range data (count * w) a = false).

Record list_inv (ws : list jval) d : Prop := {
  li_length : Z.of_nat (length ws) <= count;
  li_frame : frame h0 (dc_heap d) block;
  li_apart : apart (dc_heap d);
  li_prefix : rd_prefix (heap_image im (dc_heap d)) lp = Some (mkPrefix data (Z.of_nat (length ws)) stride);
  li_items : forall i v, ws !! i = Some v -> reads_tree (foot im h0 (dc_heap d) (range (data + Z.of_nat i * w) w)) ed (data + Z.of_nat i * w) (stride <? 0) v
}.

Lemma item_place i a : 0 <= i < count -> range (data + i * w) w a = true -> block a = true /\ range lp 32 a = false.
Proof.
  intros Hi Ha. assert (Hd : range data (count * w) a = true) by (apply range_true; apply range_true in Ha; nia). unfold block. rewrite Hd. split; [done|].
  destruct (range lp 32 a) eqn:Hr; [|done]. by rewrite (Hoff a Hr) in Hd.
Qed.

Lemma items_apart i j a : 0 <= i -> 0 <= j -> i <> j -> range (data + i * w) w a = true -> range (data + j * w) w a = false.
Proof. intros Hi Hj Hij Ha. apply not_true_iff_false. rewrite range_true in *. intros Hb. assert (i < j \/ j < i) as [?|?] by lia; nia. Qed.

(** One more item: the zeroed place, the length, and the value that came. *)
Lemma item_step ws v d1 d2 : list_inv ws d1 -> let i := Z.of_nat (length ws) in let q := data + i * w in i < count ->
  frame (dc_heap d1) (dc_heap d2) (fun a => range q w a || range (lp + 8) 8 a) -> (forall j b, word_bytes (i + 1) !! j = Some b -> dc_heap d2 !! (lp + 8 + Z.of_nat j) = Some b) ->
  apart (dc_heap d2) -> reads_tree (foot im h0 (dc_heap d2) (range q w)) ed q (stride <? 0) v -> list_inv (ws ++ [v]) d2.
Proof.
  intros [_ Hf Ha Hp Hws] i q Hi Hf2 Hlen Ha2 Hv. split.
  - rewrite length_app. cbn [length]. lia.
  - eapply frame_trans; [exact Hf|]. eapply frame_weaken; [exact Hf2|]. intros a [Hr|Hr]%orb_true_iff.
    + by apply (item_place i a ltac:(lia) Hr).
    + unfold block. apply orb_true_iff. right. apply range_true. apply range_true in Hr. lia.
  - done.
  - rewrite length_app. cbn [length]. replace (Z.of_nat (length ws + 1)) with (i + 1) by lia. eapply prefix_len; [exact Hp|unfold is_u64; lia| |exact Hlen].
    intros a b Hr Hn Hb. eapply frame_some; [exact Hf2|exact Hb|]. cbn. rewrite Hn, orb_false_r. destruct (range q w a) eqn:Hq; [|done].
    destruct (item_place i a ltac:(lia) Hq). congruence.
  - intros j x Hj. destruct (decide (j = length ws)) as [->|Hne].
    + rewrite lookup_app_r, Nat.sub_diag in Hj by done. injection Hj as <-. exact Hv.
    + pose proof (lookup_lt_Some _ _ _ Hj) as Hjl. rewrite length_app in Hjl. cbn [length] in Hjl. rewrite lookup_app_l in Hj by lia.
      eapply reads_ext; [|by apply Hws]. eapply foot_ext; [exact Hf2|done|by left| |exact Ha2].
      intros a _ Hr. cbn. apply orb_false_iff. destruct Hr as [Hr|Hr].
      * split; [by apply (items_apart (Z.of_nat j)); [lia..|]|]. destruct (item_place (Z.of_nat j) a ltac:(lia) Hr) as [_ Hlp].
        apply not_true_iff_false. intros Hc. apply not_true_iff_false in Hlp. apply Hlp. apply range_true. apply range_true in Hc. lia.
      * split; apply not_true_iff_false; intros Hc.
        -- destruct (item_place i a ltac:(lia) Hc) as [Hb _]. destruct (Hblock a Hb). congruence.
        -- assert (Hb : block a = true) by (unfold block; apply orb_true_iff; right; apply range_true; apply range_true in Hc; lia). destruct (Hblock a Hb). congruence.
Qed.

Lemma items_loop vs : forall ws d1, list_inv ws d1 -> Z.of_nat (length ws + length vs) = count -> Forall tree_ok vs -> (heights vs <= n)%nat ->
  dwp (list_direct_loop im V dv lp w (Z.of_nat (length ws)) vs depth) d1 (fun status d' => frame h0 (dc_heap d') block /\ apart (dc_heap d') /\
    dc_released d' = dc_released d1 /\
    match check_items max_depth e depth vs ws with inl r => status = 0 /\ exists ws', r = JArr ws' /\ list_inv ws' d' | inr err => fails err status d' end).
Proof.
  induction vs as [|v vs IH]; intros ws d1 Hinv Hc Hok Hh.
  { apply dwp_ret. destruct Hinv as [? ? ? ? ?]. split_and!; [done..|]. split; [done|]. by exists ws. }
  cbn [list_direct_loop check_items length] in *. apply Forall_cons in Hok as [Hv Hok]. rewrite heights_cons in Hh. pose proof Hinv as [_ Hf Ha Hp _].
  set (i := Z.of_nat (length ws)) in *. remember (data + i * w) as q eqn:Hq. fold ed. rewrite Hsize.
  assert (Hq' : forall a, range q w a = true -> block a = true /\ range lp 32 a = false) by (intros a; subst q; apply item_place; lia).
  apply dwp_bind. eapply dwp_prefix; [exact Hp|]. cbn [lp_data]. rewrite <-Hq.
  assert (Hzl : slen (mem_zero w) = w) by (apply mem_zero_len; lia).
  apply dwp_bind, dwp_stored; [rewrite Hzl; intros a Hr; by apply Hf, Hblock, Hq'|]. intros h2 S2. cbn [with_heap dc_heap] in *.
  assert (Hlp8 : forall a, range (lp + 8) 8 a = true -> range lp 32 a = true) by (intros a Hr; apply range_true; apply range_true in Hr; lia).
  assert (Hlpb : forall a, range (lp + 8) 8 a = true -> block a = true) by (intros a Hr; unfold block; rewrite (Hlp8 a Hr); apply orb_true_r).
  apply dwp_bind, dwp_stored; [rewrite word_len; intros a Hr; by apply S2, Hf, Hblock, Hlpb|]. intros h3 S3. cbn [with_heap dc_heap] in *.
  assert (Ha3 : apart h3) by (eapply stored_apart; [exact S3|]; by eapply stored_apart). destruct S2 as (F2 & _ & _), S3 as (F3 & _ & B3). rewrite Hzl in F2. rewrite word_len in F3, B3.
  apply dwp_bind. eapply dwp_mono; [apply (HV e ed (stride <? 0) 0 v q (depth + 1)); [lia|done|done| |done]|].
  { cbn. intros a Hr. apply F3, F2, Hf, Hblock. by apply Hq'. }
  intros status d4 [(F4 & Ha4 & Hrel) Hres]. cbn [dc_heap dc_released] in *.
  assert (F14 : frame (dc_heap d1) (dc_heap d4) (fun a => range q w a || range (lp + 8) 8 a)).
  { eapply frame_trans; [|eapply frame_weaken; [exact F4|intros a Hr; apply orb_true_iff; by left]].
    eapply frame_trans; eapply frame_weaken; [exact F2| |exact F3|]; intros a Hr; apply orb_true_iff; auto. }
  destruct (check max_depth v e (depth + 1)) as [r|err] eqn:Hck.
  - destruct Hres as (-> & Hr & _). cbn [negb Z.eqb]. replace (i + 1) with (Z.of_nat (length (ws ++ [r]))) by (rewrite length_app; cbn [length]; lia).
    eapply dwp_mono; [apply IH; [|rewrite length_app; cbn [length]; lia|done|lia]|].
    + eapply item_step; [exact Hinv|lia|by rewrite Hq in F14| |done|].
      * eapply bytes_stay; [exact B3|exact F4|]. cbn. intros a Hra. rewrite word_len in Hra. destruct (range q w a) eqn:Hqa; [|done]. destruct (Hq' a Hqa) as [_ Hn]. by rewrite (Hlp8 a Hra) in Hn.
      * rewrite Hq in Hr. eapply reads_ext; [|exact Hr]. eapply foot_ext; [apply frame_refl|  |by left|done|exact Ha4].
        intros a Hn. eapply kept_none; [exact Hf|]. eapply kept_none; [exact F2|]. by eapply kept_none.
    + intros st d' (R1 & R2 & R3 & R4). split_and!; [done|done| |done]. rewrite R3. by rewrite Hrel.
  - pose proof (fails_nonzero _ _ _ Hres) as ->. cbn [negb]. apply dwp_ret. split_and!; [|done|done|done].
    eapply frame_trans; [exact Hf|]. eapply frame_weaken; [exact F14|]. intros a [Hr|Hr]%orb_true_iff; [by apply Hq'|by apply Hlpb].
Qed.
End items.

Lemma stride_abs data k stride : 0 < Z.abs stride -> typed_list_stride (mkPrefix data k stride) = Z.abs stride.
Proof. intros Hs. unfold typed_list_stride. cbn [lp_stride]. destruct (Z.ltb_spec stride 0); [lia|]. rewrite (proj2 (Z.eqb_neq stride 0)) by lia. cbn. lia. Qed.

Lemma list_post n V e dv slot mask vs p depth d : good n V -> describes im (TList e) dv slot -> (heights vs <= n)%nat -> tree_ok (JArr vs) ->
  mapped (dc_heap d) (range p 8) -> apart (dc_heap d) ->
  dwp (json_typed_list_direct im true V dv mask (JArr vs) p depth) d (value_post (TList e) dv slot p d (check_items max_depth e depth vs [])).
Proof.
  intros HV (Hk & Hsize & Hw & Hst & Hed) Hh [Hlen Hok]%tree_arr Hm Ha. unfold json_typed_list_direct. rewrite (proj2 (Z.eqb_neq _ 0)) by lia. cbn [negb orb]. rewrite Hsize in *.
  remember (json_typed_storage_stride (width e) (v_element_kind dv)) as stride eqn:Hstride. remember (Z.of_nat (length vs)) as count eqn:Hcount.
  apply dwp_bind, dwp_call. intros lp h1 Hmade. destruct (list_made stride _ count _ _ _ ltac:(lia) ltac:(lia) Hmade) as (Hlp & Hg & Hnew & data & Hpre & Hnd & Hoff). rewrite Hst in Hnd, Hoff.
  assert (Hold : frame (dc_heap d) h1 (range p 8)) by (eapply frame_weaken; [apply Hg|done]).
  apply dwp_bind, dwp_stored; [rewrite word_len; intros a Hr; apply Hg, Hm, Hr|]. intros h2 S2. cbn [with_heap dc_heap] in *.
  assert (Ha2 : apart h2) by (eapply stored_apart; [exact S2|]; by eapply grown_apart). destruct S2 as (F2 & N2 & B2). rewrite word_len in F2, B2.
  assert (Hp2 : rd_prefix (heap_image im h2) lp = Some (mkPrefix data 0 stride)).
  { eapply prefix_sub; [exact Hpre|]. intros a b Hr Hb. eapply frame_some; [exact F2|exact Hb|]. eapply new_apart; [exact Hnew|exact Hm|by apply range_true]. }
  apply dwp_bind. eapply dwp_prefix; [exact Hp2|]. rewrite stride_abs, Hst by lia.
  assert (Hfresh : forall a, range data (count * width e) a || range lp 32 a = true -> dc_heap d !! a = None /\ is_Some (h1 !! a)) by (intros a [Hr|Hr]%orb_true_iff; [by apply Hnd|by apply Hnew]).
  eapply dwp_mono; [apply (items_loop n V HV e dv stride lp data count depth h2) with (ws := [])|].
  all: try (rewrite ?Hsize; done || lia).
  - intros a Hr. by apply F2, Hfresh.
  - split; [cbn; lia|apply frame_refl|done|exact Hp2|done].
  - intros status d' (R1 & R2 & R3 & R4). split.
    + split_and!; [|done|by rewrite R3]. eapply frame_fresh; [eapply frame_trans; [exact Hold|exact F2]|exact R1|]. intros a [b Hb] Hr. destruct (Hfresh a Hr). congruence.
    + destruct (check_items max_depth e depth vs []) as [r|err]; [|done]. destruct R4 as (-> & ws & -> & [L0 L1 L2 L3 L4]). split; [done|].
      assert (Hword : rd_le (foot im (dc_heap d) (dc_heap d') (range p 8)) p 8 = Some lp).
      { apply rd_stored; [lia|change (2 ^ (8 * 8)) with (2 ^ 64); lia|]. intros i b Hi. apply foot_at.
        - apply lookup_lt_Some in Hi. change (length (rt_store_le lp 8)) with 8%nat in Hi. apply range_true. lia.
        - eapply (bytes_stay _ _ _ p (word_bytes lp)); [exact B2|exact R1| |exact Hi]. rewrite word_len. intros a Hr.
          apply not_true_iff_false. intros Hc. destruct (Hfresh a Hc) as [He _]. destruct (Hm a Hr). congruence. }
      split; [|intros _; exists lp; split; [exact Hword|lia]]. cbn [width].
      apply reads_list with lp (mkPrefix data (Z.of_nat (length ws)) stride); [done|done|rewrite Hsize; lia|done|lia| |done|].
      * eapply prefix_sub; [exact L3|]. intros a b Hr Hb. apply foot_new; [|exact Hb]. by apply Hnew, range_true.
      * cbn [lp_data lp_stride]. rewrite stride_abs, Hst, Hsize by lia. intros i v Hi. rewrite Hsize in L4. eapply reads_ext; [|by apply L4].
        eapply foot_ext; [apply frame_refl| | |done|exact R2].
        -- intros a Hn. eapply kept_none; [exact Hold|]. by eapply kept_none.
        -- intros a Hr. right. apply lookup_lt_Some in Hi. apply Hnd, range_true. apply range_true in Hr. nia.
Qed.

(** *** Structs *)

Lemma const_ext h h' R : apart h -> apart h' -> ext im (foot im h h' R).
Proof. intros Ha Ha'. split; [|done]. intros a b Hb. cbn. rewrite (bool_decide_eq_true_2 (h !! a = None)), orb_true_r by (apply Ha; congruence). by rewrite Ha' by congruence. Qed.

Lemma row_reads_ext m m' record r kv : ext m m' -> row_reads m record r kv -> row_reads m' record r kv.
Proof.
  intros Hx. destruct r as [[index f] x]. intros (Hi & Hn & present & value & Hp & Hv). split; [done|]. split; [by apply (rd_ext _ _ Hx)|].
  exists present, value. split; [by apply (field_place_ext _ _ Hx)|]. destruct present; [by eapply reads_ext|done].
Qed.

Section struct.
Context (n : nat) (V : vdesc -> Z -> jval -> Z -> Z -> decoder Z) (HV : good n V) (size : Z) (allow : bool) (fs : list fld) (sid : Z).
Context (s : BeansJsonTypedSchema) (rows : list row) (keys : list BeansJsonTypedKey) (k : Z).
Context (Hsch : im_schema im sid = Some s) (Hrows : schema_rows s = Some rows) (Hkeys : s_keys s = Some keys) (Hmask : s_key_mask s = 2 ^ k - 1).
Context (Htable : table_ok im keys k (field_index fs)) (Hallow : has_flag (s_flags s) TYPED_ALLOW_UNKNOWN = allow) (Hcount : s_field_count s = Z.of_nat (length fs)).
Context (Hnames : names_apart fs) (Hlay : layout_ok size fs rows) (Hlen : length fs = length rows).
Context (Hfield : forall i names opt t index f x, fs !! i = Some (names, opt, t) -> rows !! i = Some (index, f, x) ->
  field_ok im names opt t f /\ describes im t (field_desc f x) false).
Context (h0 : gmap Z Z) (record : Z) (Hrec : mapped h0 (range record size)) (Hh0 : apart h0).

Definition place_of (f : BeansJsonTypedField) (t : jty) : Z -> bool := fun a => field_bytes f t (a - record).

Record struct_inv (vals : list (option jval)) d : Prop := {
  si_frame : frame h0 (dc_heap d) (range record size);
  si_apart : apart (dc_heap d);
  si_fields : forall i names opt t index f x, fs !! i = Some (names, opt, t) -> rows !! i = Some (index, f, x) ->
    match vals !! i with
    | Some (Some w) => row_reads (foot im h0 (dc_heap d) (place_of f t)) record (index, f, x) (fld_name (names, opt, t), w)
    | _ => forall a, place_of f t a = true -> dc_heap d !! a = Some 0
    end
}.

Lemma place_in i names opt t index f x a : fs !! i = Some (names, opt, t) -> rows !! i = Some (index, f, x) -> place_of f t a = true -> range record size a = true.
Proof. intros Hf Hr Ha. destruct (Hlay _ _ _ _ _ _ _ Hf Hr) as [Hin _]. apply Hin in Ha. apply range_true. lia. Qed.

Lemma place_value f t a : range (record + f_value_offset f) (width t) a = true -> place_of f t a = true.
Proof. intros Hr. unfold place_of, field_bytes. apply orb_true_iff. left. apply range_true. apply range_true in Hr. lia. Qed.

Lemma place_presence f t a : f_presence_offset f <> SIZE_MAX -> a = record + f_presence_offset f -> place_of f t a = true.
Proof. intros Hp ->. unfold place_of, field_bytes. apply orb_true_iff. right. rewrite (proj2 (Z.eqb_neq _ _) Hp). apply Z.eqb_eq. lia. Qed.

(** A field all of whose bytes are zero is absent. *)
Lemma absent_reads names t index f x h : field_ok im names true t f -> apart h ->
  (forall a, place_of f t a = true -> h !! a = Some 0) -> row_reads (foot im h0 h (place_of f t)) record (index, f, x) (fld_name (names, true, t), JNull).
Proof.
  intros [Hn Hi Hb Ho _ Hp _] Ha Hz. destruct Hn as (name & rest & -> & Hrd & Hl). split; [done|]. cbn [fst snd fld_name head default].
  split; [apply (rd_ext _ _ (const_ext h0 h (place_of f t) Hh0 Ha)); exact Hrd|]. exists false. unfold field_place. rewrite Ho. cbv zeta.
  assert (Hzero : forall q w, 0 <= w -> (forall i b, rt_store_le 0 w !! i = Some b -> b = 0 /\ place_of f t (q + Z.of_nat i) = true) ->
    rd_le (foot im h0 h (place_of f t)) q w = Some 0).
  { intros q w Hw Hall. apply rd_stored; [done|split; [lia|apply Z.pow_pos_nonneg; lia]|]. intros i b Hib. destruct (Hall i b Hib) as [-> Hpl]. apply foot_at; [done|by apply Hz]. }
  destruct (Z.eqb_spec (f_presence_offset f) SIZE_MAX) as [He|Hne]; cbn [negb].
  - destruct Hp as [?|Hnl]; [done|]. rewrite Hb. eexists. rewrite (Hzero _ 8); [done|lia|]. intros i b Hib. change (rt_store_le 0 8) with (replicate 8 0) in Hib.
    apply lookup_replicate in Hib as [-> Hlt]. split; [done|]. apply place_value, range_true. replace (width t) with 8 by (by destruct t). lia.
  - eexists. rewrite (Hzero _ 1); [done|lia|]. intros i b Hib. change (rt_store_le 0 1) with (replicate 1 0) in Hib.
    apply lookup_replicate in Hib as [-> Hlt]. split; [done|]. apply place_presence; [done|lia].
Qed.

(** A change of one field's bytes leaves the others. *)
Lemma others_stay vals d1 h2 i names opt t index f x w : struct_inv vals d1 -> fs !! i = Some (names, opt, t) -> rows !! i = Some (index, f, x) ->
  (i < length vals)%nat -> frame (dc_heap d1) h2 (place_of f t) -> apart h2 -> row_reads (foot im h0 h2 (place_of f t)) record (index, f, x) (fld_name (names, opt, t), w) ->
  forall d2, dc_heap d2 = h2 -> struct_inv (<[i := Some w]> vals) d2.
Proof.
  intros [Hf Ha Hv] Hi Hr Hlt Hfr Ha2 Hw d2 Hd2. split; rewrite ?Hd2; [|done|].
  - eapply frame_trans; [exact Hf|]. eapply frame_weaken; [exact Hfr|]. intros a. by eapply place_in.
  - intros j names' opt' t' index' f' x' Hj Hr'. destruct (decide (i = j)) as [<-|Hne].
    { rewrite list_lookup_insert_eq by done. rewrite Hi in Hj. rewrite Hr in Hr'. injection Hj as <- <- <-. by injection Hr' as <- <- <-. }
    rewrite list_lookup_insert_ne by done. specialize (Hv j _ _ _ _ _ _ Hj Hr').
    assert (Hapart : forall a, place_of f' t' a = true -> place_of f t a = false).
    { intros a. destruct (Hlay _ _ _ _ _ _ _ Hj Hr') as [_ Hoth]. unfold place_of. by apply (Hoth i names opt t index f x). }
    assert (Hzero : (forall a, place_of f' t' a = true -> dc_heap d1 !! a = Some 0) -> forall a, place_of f' t' a = true -> h2 !! a = Some 0).
    { intros Hz a Hpa. eapply frame_some; [exact Hfr|by apply Hz|by apply Hapart]. }
    destruct (vals !! j) as [[w'|]|]; [|by apply Hzero..]. eapply row_reads_ext; [|exact Hv]. eapply foot_ext; [exact Hfr|done|by left| |exact Ha2].
    intros a _ [Hpa|Hn]; [by apply Hapart|]. destruct (place_of f t a) eqn:Hpl; [|done]. destruct (Hrec a (place_in _ _ _ _ _ _ _ _ Hi Hr Hpl)). congruence.
Qed.

(** A present field reads as the value that was stored. *)
Lemma present_reads names opt t index f x h1 h2 h3 w : field_ok im names opt t f -> (forall a, h1 !! a = None -> h0 !! a = None) -> apart h3 ->
  let p := record + f_value_offset f in
  reads_tree (foot im h1 h2 (range p (width t))) (field_desc f x) p false w ->
  (nullable t = true -> exists q, rd_le (foot im h1 h2 (range p (width t))) p 8 = Some q /\ q <> 0) ->
  frame h2 h3 (range (record + f_presence_offset f) (if f_presence_offset f =? SIZE_MAX then 0 else 1)) -> 
  (f_presence_offset f <> SIZE_MAX -> h3 !! (record + f_presence_offset f) = Some 1 /\ is_Some (h1 !! (record + f_presence_offset f))) ->
  row_reads (foot im h0 h3 (place_of f t)) record (index, f, x) (fld_name (names, opt, t), w).
Proof.
  intros [Hn Hi Hb Ho _ Hp Hap] Hnone Ha p Hw Hnl H23 Hpres. destruct Hn as (name & rest & -> & Hrd & Hl). split; [done|]. cbn [fst snd fld_name head default].
  split; [apply (rd_ext _ _ (const_ext h0 h3 (place_of f t) Hh0 Ha)); exact Hrd|].
  assert (Hx : ext (foot im h1 h2 (range p (width t))) (foot im h0 h3 (place_of f t))).
  { eapply foot_ext; [exact H23|done|intros a Hr; left; by apply place_value| |exact Ha]. intros a _ Hr. apply not_true_iff_false. intros Hc.
    destruct (Z.eqb_spec (f_presence_offset f) SIZE_MAX) as [|Hne]; apply range_true in Hc; [lia|]. assert (a = record + f_presence_offset f) as -> by lia. destruct Hr as [Hr|Hr].
    - pose proof (Hap Hne) as Hf. apply not_true_iff_false in Hf. apply Hf. apply range_true. apply range_true in Hr. unfold p in Hr. lia.
    - destruct (Hpres Hne) as [_ [? ?]]. congruence. }
  exists true, p. split; [|by eapply reads_ext]. unfold field_place. rewrite Ho. cbv zeta. fold p. destruct opt; [|done].
  destruct (Z.eqb_spec (f_presence_offset f) SIZE_MAX) as [He|Hne]; cbn [negb].
  - destruct Hp as [?|Hnull]; [done|]. rewrite Hb. destruct (Hnl Hnull) as (q & Hq & Hq0). rewrite (rd_le_ext _ _ Hx _ _ _ Hq). cbn [mbind option_bind]. by rewrite (proj2 (Z.eqb_neq _ _) Hq0).
  - destruct (Hpres Hne) as [H1p _]. rewrite (rd_stored _ _ 1 1); [done|lia|lia|]. intros i b Hib. change (rt_store_le 1 1) with [1] in Hib. destruct i as [|i]; [|done]. injection Hib as <-.
    rewrite Z.add_0_r. apply foot_at; [by apply place_presence|done].
Qed.

Lemma store_there i index f x v depth d : rows !! i = Some (index, f, x) -> v <> JNull -> has_flag (f_flags f) TYPED_BOXED_OPTION = false ->
  json_typed_store_direct V rows (Z.of_nat i) v record depth d = store_value V f x record v (record + f_value_offset f) depth d.
Proof. intros Hr Hv Hb. unfold json_typed_store_direct, mbind, decoder_bind, lift. rewrite Nat2Z.id, Hr, Hb. by destruct v. Qed.

(** One member's value. *)
Lemma store_step vals d1 i names opt t index f x v depth : struct_inv vals d1 -> length vals = length fs -> fs !! i = Some (names, opt, t) -> rows !! i = Some (index, f, x) ->
  is_met (vals !! i) = false -> (jheight v <= n)%nat -> tree_ok v ->
  dwp (json_typed_store_direct V rows (Z.of_nat i) v record depth) d1 (fun code d2 => frame h0 (dc_heap d2) (range record size) /\ apart (dc_heap d2) /\
    dc_released d2 = dc_released d1 /\
    match check_null max_depth v opt t depth with inl w => code = 0 /\ struct_inv (<[i := Some w]> vals) d2 | inr err => fails err code d2 end).
Proof.
  intros Hinv Hvl Hi Hr Hmet Hh Hok. pose proof Hinv as [Hf Ha Hv]. destruct (Hfield _ _ _ _ _ _ _ Hi Hr) as [Hfo Hdesc]. pose proof (lookup_lt_Some _ _ _ Hi) as Hlt.
  assert (Hcase : v = JNull \/ v <> JNull) by (destruct v; auto). destruct Hcase as [->|Hnn].
  { unfold json_typed_store_direct. apply dwp_bind. eapply dwp_lift; [rewrite Nat2Z.id; exact Hr|]. apply dwp_ret. cbn [check_null]. split_and!; [done..|]. rewrite (fo_opt _ _ _ _ _ Hfo). destruct opt; [|by left]. split; [done|].
    eapply others_stay; [exact Hinv|exact Hi|exact Hr|lia|apply frame_refl|done| |done]. apply absent_reads; [done|done|].
    specialize (Hv _ _ _ _ _ _ _ Hi Hr). destruct (vals !! i) as [[w|]|]; done. }
  eapply dwp_same; [by apply (store_there i index f x v depth d1 Hr Hnn (fo_boxed _ _ _ _ _ Hfo))|].
  replace (check_null max_depth v opt t depth) with (check max_depth v t depth) by (by destruct v).
  set (p := record + f_value_offset f). unfold store_value.
  assert (Hin : forall a, range p (width t) a = true -> range record size a = true) by (intros a Hra; eapply place_in; [exact Hi|exact Hr|by apply place_value]).
  apply dwp_bind. eapply dwp_mono; [apply (HV t _ false _ v p depth); [done|done|done|intros a Hra; by apply Hf, Hrec, Hin|done]|].
  intros status d2 [(F2 & Ha2 & Hrel) Hres]. destruct (check max_depth v t depth) as [w|err].
  2: { rewrite (fails_nonzero _ _ _ Hres). apply dwp_ret. split_and!; [|done|done|done]. eapply frame_trans; [exact Hf|]. by eapply frame_weaken. }
  destruct Hres as (-> & Hw & Hnl). cbn [negb Z.eqb].
  assert (Hnone : forall a, dc_heap d1 !! a = None -> h0 !! a = None).
  { intros a Hn. by eapply kept_none. }
  assert (Hend : forall d3, frame (dc_heap d2) (dc_heap d3) (range (record + f_presence_offset f) (if f_presence_offset f =? SIZE_MAX then 0 else 1)) -> apart (dc_heap d3) ->
    dc_released d3 = dc_released d2 -> (f_presence_offset f <> SIZE_MAX -> dc_heap d3 !! (record + f_presence_offset f) = Some 1) ->
    frame h0 (dc_heap d3) (range record size) /\ apart (dc_heap d3) /\ dc_released d3 = dc_released d1 /\ 0 = 0 /\ struct_inv (<[i := Some w]> vals) d3).
  { intros d3 F3 Ha3 Hrel3 Hp3.
    assert (F13 : frame (dc_heap d1) (dc_heap d3) (place_of f t)).
    { eapply frame_trans; eapply frame_weaken; [exact F2|intros a; by apply place_value|exact F3|]. intros a Hra. destruct (Z.eqb_spec (f_presence_offset f) SIZE_MAX); apply range_true in Hra; [lia|].
      apply place_presence; [done|lia]. }
    assert (Hst : struct_inv (<[i := Some w]> vals) d3).
    { eapply others_stay; [exact Hinv|exact Hi|exact Hr|lia|exact F13|done| |done]. eapply present_reads; [exact Hfo|exact Hnone|exact Ha3|exact Hw|exact Hnl|exact F3|].
      intros Hne. split; [by apply Hp3|]. apply Hf, Hrec. eapply place_in; [exact Hi|exact Hr|by apply place_presence]. }
    destruct Hst. split_and!; done || congruence. }
  apply dwp_bind. revert Hend. destruct (Z.eqb_spec (f_presence_offset f) SIZE_MAX) as [He|Hne]; intros Hend.
  - apply dwp_ret, dwp_ret. apply Hend; [apply frame_refl|done|done|done].
  - apply dwp_stored; change (slen [1]) with 1; [intros a Hra; apply F2, Hf, Hrec; eapply place_in; [exact Hi|exact Hr|apply place_presence; [done|apply range_true in Hra; lia]]|].
    intros h3 S3. apply dwp_ret. apply Hend; [apply S3|by eapply stored_apart|done|]. intros _. destruct S3 as (_ & _ & B3). cbn [with_heap dc_heap].
    rewrite B3 by (apply range_true; change (slen [1]) with 1; lia). by rewrite Z.sub_diag.
Qed.

(** Where the members leave the object: at its end, or with an answer. *)
Lemma members_loop depth kvs : forall vals pg d1, struct_inv vals d1 -> progress_ok (length fs) vals pg -> Forall (fun kv => tree_ok (snd kv)) kvs ->
  (heights (snd <$> kvs) <= n)%nat ->
  dwp (object_loop im max_depth V s rows record depth kvs pg) d1 (fun ended d2 => frame h0 (dc_heap d2) (range record size) /\ apart (dc_heap d2) /\
    dc_released d2 = dc_released d1 /\
    match ended with
    | inl pg' => exists vals', progress_ok (length fs) vals' pg' /\ struct_inv vals' d2 /\
        check_members max_depth allow fs depth kvs vals = check_members max_depth allow fs depth [] vals'
    | inr status => check_members max_depth allow fs depth kvs vals = inr (status, dc_req5 d2) /\ 0 < status
    end).
Proof.
  induction kvs as [|[name v] kvs IH]; intros vals pg d1 Hinv Hpg Hok Hh.
  { apply dwp_ret. destruct Hinv as [I1 I2 I3]. split_and!; [done..|]. exists vals. done. }
  cbn [object_loop check_members]. apply Forall_cons in Hok as [Hv Hok]. cbn [snd fmap list_fmap] in *. rewrite heights_cons in Hh.
  destruct (member_place_spec fs rows Hlen im s keys k Hkeys Hmask Htable Hcount Hnames) with (vals := vals) (pg := pg) (name := name) as (at_ & Hat & Hplace); [|done|].
  { intros. by eapply Hfield. }
  apply dwp_bind. eapply dwp_lift; [exact Hat|]. rewrite Hallow in Hplace. pose proof Hinv as [I1 I2 _].
  destruct (field_index fs name) as [i|] eqn:Hi.
  2: { destruct allow.
    - destruct Hplace as (pg' & -> & Hpg'). rewrite within_depth_spec. replace (depth + 1 + Z.of_nat (jheight v) - 1) with (depth + Z.of_nat (jheight v)) by lia.
      destruct (_ <=? _); [apply IH; [done..|lia]|]. apply dwp_req5, dwp_ret. by split_and!.
    - rewrite Hplace. apply dwp_req5, dwp_ret. by split_and!. }
  pose proof (po_length _ _ _ Hpg) as Hvl. pose proof (field_index_lt fs _ _ Hi) as Hlt.
  destruct (lookup_lt_is_Some_2 fs i) as [[[names opt] t] Hfi]; [done|]. destruct (lookup_lt_is_Some_2 rows i) as [[[index f] x] Hri]; [lia|].
  destruct (is_met (vals !! i)) eqn:Hmet.
  { rewrite Hplace. destruct (vals !! i) as [[w|]|]; [|done..]. apply dwp_req5, dwp_ret. by split_and!. }
  destruct Hplace as (pg' & -> & Hpg'). apply dwp_index.
  replace (match vals !! i with Some (Some _) => _ | _ => _ end) with (match check_null max_depth v opt t (depth + 1) with
    | inl w => check_members max_depth allow fs depth kvs (<[i := Some w]> vals) | inr err => inr err end) by (rewrite Hfi; destruct (vals !! i) as [[w|]|]; done).
  apply dwp_bind. eapply dwp_mono; [eapply (store_step vals _ i names opt t index f x v (depth + 1)); [|done|done|done|done|lia|done]|].
  { by destruct Hinv as [J1 J2 J3]; split. }
  intros code d2 (F2 & Ha2 & Hrel & Hres). destruct (check_null max_depth v opt t (depth + 1)) as [w|err].
  - destruct Hres as [-> Hinv2]. cbn [Z.eqb]. eapply dwp_mono; [apply (IH _ pg' d2 Hinv2 (Hpg' w) Hok ltac:(lia))|]. intros ended d3 (R1 & R2 & R3 & R4). split_and!; [done|done| |done].
    by rewrite R3, Hrel.
  - rewrite (fails_nonzero _ _ _ Hres). destruct err as [est ecode]. destruct Hres as [(Hpos & Hc & Hs)|(Hneg & Hst & Hreq)]; cbn [fst snd] in *.
    + rewrite (proj2 (Z.ltb_ge code 0)) by lia. apply dwp_req5, dwp_ret. split_and!; [done|done|done| |]; cbn [set_req5 dc_req5].
      * by rewrite Hs, Hc.
      * destruct (_ =? _); done.
    + rewrite (proj2 (Z.ltb_lt code 0)) by lia. apply dwp_ret. split_and!; [done|done|done| |lia]. rewrite Hreq. do 2 f_equal. lia.
Qed.

Lemma check_end_fails gs vals status code : check_end gs vals = inr (status, code) -> 0 < status.
Proof.
  revert vals. induction gs as [|g gs IH]; intros [|val vals] He; cbn [check_end] in He; try done.
  destruct val as [w|]; [|destruct (snd (fst g)); [|by injection He as <- <-]]; (destruct (check_end gs vals) as [|[st c]] eqn:Hc; [done|]; injection He as <- <-; by eapply IH).
Qed.

Lemma end_reads (P : row -> str * jval -> Prop) gs : forall rs vals members, length gs = length rs -> length vals = length gs ->
  (forall i names opt t r, gs !! i = Some (names, opt, t) -> rs !! i = Some r ->
    match vals !! i with Some (Some w) => P r (fld_name (names, opt, t), w) | _ => opt = true -> P r (fld_name (names, opt, t), JNull) end) ->
  check_end gs vals = inl members -> Forall2 P rs members.
Proof.
  induction gs as [|[[names opt] t] gs IH]; intros [|r rs] [|val vals] members Hl Hvl HP He; cbn [length check_end] in *; try lia; [injection He as <-; constructor|].
  pose proof (HP O names opt t r eq_refl eq_refl) as H0P. cbn in H0P, He.
  assert (Hrest : forall members, check_end gs vals = inl members -> Forall2 P rs members).
  { intros ms Hms. apply (IH rs vals ms); [lia|lia| |done]. intros i. exact (HP (S i)). }
  destruct val as [w|]; [|destruct opt; [|done]]; (destruct (check_end gs vals) as [ms|]; [|done]; injection He as <-; constructor; [auto|by apply Hrest]).
Qed.

Lemma object_post kvs depth d : dc_heap d = h0 -> (forall a, range record size a = true -> h0 !! a = Some 0) -> tree_ok (JObj kvs) -> (heights (snd <$> kvs) <= n)%nat ->
  dwp (json_typed_object_direct im max_depth V sid (JObj kvs) record depth) d (fun status d2 => frame h0 (dc_heap d2) (range record size) /\ apart (dc_heap d2) /\
    dc_released d2 = dc_released d /\
    match check_members max_depth allow fs depth kvs (replicate (length fs) None) with
    | inl w => status = ENC_OK /\ exists members, w = JObj members /\ Forall2 (row_reads (foot im h0 (dc_heap d2) (range record size)) record) rows members
    | inr (st, code) => status = st /\ dc_req5 d2 = code /\ 0 < st
    end).
Proof.
  intros Hd Hz Hok%tree_obj Hh. unfold json_typed_object_direct. apply dwp_bind. eapply dwp_lift; [exact Hsch|]. apply dwp_bind. eapply dwp_lift; [exact Hrows|].
  rewrite (bool_decide_eq_false_2 _ (Hmalloc _)), andb_false_r.
  assert (Hi0 : struct_inv (replicate (length fs) None) d).
  { split; rewrite ?Hd; [apply frame_refl|done|]. intros i names opt t index f x Hf Hr. pose proof (lookup_lt_Some _ _ _ Hf). rewrite lookup_replicate_2 by done.
    intros a Ha. apply Hz. by eapply place_in. }
  assert (Hp0 : progress_ok (length fs) (replicate (length fs) None) (mkProgress 0 None)).
  { split; [apply length_replicate| |done]. intros _. cbn. split; [lia|]. intros i Hi. rewrite lookup_replicate_2 by done. cbn. symmetry. apply Z.ltb_ge. lia. }
  apply dwp_bind. eapply dwp_mono; [apply (members_loop depth kvs _ _ d Hi0 Hp0 Hok Hh)|]. intros ended d1 (R1 & R2 & R3 & R4).
  destruct ended as [pg|status]; [|by destruct R4 as [-> Hpos]; apply dwp_ret].
  destruct R4 as (vals & Hpg & [I1 I2 Iv] & ->). cbn [check_members].
  pose proof (missing_spec fs rows Hlen) as Hmiss. specialize (Hmiss (fun i index f x => rows_at s rows i index f x Hrows)).
  specialize (Hmiss ltac:(intros; destruct (Hfield _ _ _ _ _ _ _ ltac:(eassumption) ltac:(eassumption)) as [[] _]; done)).
  assert (Hend : dwp (missing_check (match pg_seen pg with None => drop (Z.to_nat (pg_expected pg)) rows | Some _ => rows end) (pg_seen pg)) d1 (fun status d' =>
    dc_heap d' = dc_heap d1 /\ dc_released d' = dc_released d1 /\
    match check_end fs vals with inl _ => status = ENC_OK | inr (st, code) => status = st /\ dc_req5 d' = code end)).
  { pose proof (po_length _ _ _ Hpg) as Hvl. destruct (pg_seen pg) as [seen|] eqn:Hs.
    - destruct (po_seen _ _ _ Hpg seen Hs) as [_ Hbits]. specialize (Hmiss vals (Some seen) O Hvl). rewrite !drop_0 in Hmiss. apply Hmiss. intros i Hi. apply Hbits. lia.
    - destruct (po_ordered _ _ _ Hpg Hs) as [He Hm]. eapply dwp_mono; [apply (Hmiss vals None (Z.to_nat (pg_expected pg)) Hvl)|].
      + intros i Hi. rewrite Hm by lia. apply Z.ltb_ge. lia.
      + intros st d' (H1' & H2' & H3'). split_and!; [done|done|]. pose proof (check_end_drop (Z.to_nat (pg_expected pg)) fs vals) as Hdrop.
        specialize (Hdrop ltac:(intros i Hi; rewrite Hm by lia; apply Z.ltb_lt; lia)).
        destruct (check_end fs vals) as [|[]], (check_end (drop _ fs) (drop _ vals)) as [|[]]; try done. by injection Hdrop as <- <-. }
  eapply dwp_mono; [exact Hend|]. intros status d2 (E1 & E2 & E3). rewrite E1. split_and!; [done|done|by rewrite E2|].
  destruct (check_end fs vals) as [members|[st code]] eqn:Hce.
  - split; [done|]. exists members. split; [done|]. eapply end_reads; [exact Hlen|apply (po_length _ _ _ Hpg)| |exact Hce].
    intros i names opt t [[index f] x] Hf Hr. specialize (Iv _ _ _ _ _ _ _ Hf Hr). destruct (Hfield _ _ _ _ _ _ _ Hf Hr) as [Hfo _].
    assert (Hx : ext (foot im h0 (dc_heap d1) (place_of f t)) (foot im h0 (dc_heap d1) (range record size))).
    { eapply foot_ext; [apply frame_refl|done| |done|exact I2]. intros a Ha. left. by eapply place_in. }
    assert (Habs : (forall a, place_of f t a = true -> dc_heap d1 !! a = Some 0) -> opt = true ->
      row_reads (foot im h0 (dc_heap d1) (range record size)) record (index, f, x) (fld_name (names, opt, t), JNull)).
    { intros Hzz ->. eapply row_reads_ext; [exact Hx|]. by apply absent_reads. }
    destruct (vals !! i) as [[w|]|]; [by eapply row_reads_ext|by apply Habs..].
  - destruct E3 as [-> ->]. split_and!; [done..|]. by eapply check_end_fails.
Qed.
End struct.

(** *** Every value *)

Lemma check_depth v t depth : max_depth < depth -> check max_depth v t depth = inr (ENC_ERR_TYPE, TYPED_ERR_DEPTH).
Proof. intros Hd. destruct v; cbn [check]; by rewrite (proj2 (Z.ltb_lt _ _) Hd). Qed.

Lemma integer_check v uns bits n : v = JUint n \/ v = JSint n -> - 2 ^ 63 <= n < 2 ^ 64 -> bits ∈ [8; 16; 32; 64] ->
  match check_int uns bits n with
  | inl w => json_typed_integer v uns bits = Some (1, u64 n) /\ w = (if uns then JUint n else JSint n) /\
      (if uns then 0 <= n < 2 ^ bits else - 2 ^ (bits - 1) <= n < 2 ^ (bits - 1))
  | inr e => json_typed_integer v uns bits = Some (-1, 0) /\ e = (ENC_ERR_RANGE, TYPED_ERR_RANGE)
  end.
Proof.
  intros Hv Hn Hb. assert (Hb2 : 8 <= bits <= 64) by (rewrite !elem_of_cons, elem_of_nil in Hb; lia).
  replace (json_typed_integer v uns bits) with (json_typed_integer (JUint n) uns bits) by (by destruct Hv as [-> | ->]). unfold check_int, json_typed_integer.
  destruct uns.
  - pose proof (Z.pow_le_mono_r 2 bits 64 ltac:(lia) ltac:(lia)). destruct (Z.ltb_spec n 0), (Z.leb_spec 0 n); try lia; cbn [andb].
    { done. }
    destruct (Z.ltb_spec n (2 ^ bits)); destruct (Z.ltb_spec bits 64); cbn [andb]; rewrite ?u64_small by (unfold is_u64; lia).
    + destruct (Z.ltb_spec (2 ^ bits - 1) n); [lia|done].
    + done.
    + destruct (Z.ltb_spec (2 ^ bits - 1) n); [done|lia].
    + assert (bits = 64) as -> by lia. lia.
  - pose proof (Z.pow_le_mono_r 2 (bits - 1) 63 ltac:(lia) ltac:(lia)). rewrite (proj2 (Z.leb_gt bits 0)) by lia.
    destruct (Z.leb_spec (- 2 ^ (bits - 1)) n), (Z.ltb_spec n (2 ^ (bits - 1))); cbn [andb]; destruct (Z.ltb_spec (2 ^ 63 - 1) n); try lia; try done;
      destruct (Z.ltb_spec bits 64), (Z.ltb_spec n (- 2 ^ (bits - 1))), (Z.ltb_spec (2 ^ (bits - 1) - 1) n); cbn [orb]; try lia; try done;
      assert (bits = 64) as -> by lia; lia.
Qed.

Ltac kinds := unfold TYPED_BOOL, TYPED_SINT, TYPED_UINT, TYPED_F32, TYPED_F64, TYPED_STRING, TYPED_STRUCT, TYPED_LIST; cbn [Z.eqb Pos.eqb orb].

Lemma range_fails d : fails (ENC_ERR_RANGE, TYPED_ERR_RANGE) TYPED_ERR_RANGE d.
Proof. by left. Qed.

Section level.
Context (n : nat) (HV : good n (json_typed_value_direct im true max_depth n)).

Definition value_ok (t : jty) (dv : vdesc) (slot : bool) (mask : Z) v p depth d : Prop :=
  dwp (json_typed_value_direct im true max_depth (S n) dv mask v p depth) d (value_post t dv slot p d (check max_depth v t depth)).

Lemma integer_ok uns bits dv slot mask v p depth d : describes im (TInt uns bits) dv slot -> tree_ok v -> depth <= max_depth ->
  mapped (dc_heap d) (range p (width (TInt uns bits))) -> apart (dc_heap d) -> value_ok (TInt uns bits) dv slot mask v p depth d.
Proof.
  intros (Hk & Hf & Hb & Hs) Hok Hd Hm Ha. unfold value_ok. cbn [json_typed_value_direct]. cbv zeta. rewrite (proj2 (Z.ltb_ge _ _) Hd), Hk, Hf.
  assert (Hc : check max_depth v (TInt uns bits) depth = match v with JUint n | JSint n => check_int uns bits n | _ => wrong_type end)
    by (destruct v; cbn [check]; by rewrite (proj2 (Z.ltb_ge _ _) Hd)).
  assert (Hnum : (exists m, (v = JUint m \/ v = JSint m) /\ - 2 ^ 63 <= m < 2 ^ 64 /\ check max_depth v (TInt uns bits) depth = check_int uns bits m) \/
    (json_typed_integer v uns bits = Some (0, 0) /\ check max_depth v (TInt uns bits) depth = wrong_type)).
  { destruct v; cbn in Hok; try (right; done); left; eexists; (split; [auto|split; [lia|exact Hc]]). }
  assert (Hu : ((if uns then TYPED_UINT else TYPED_SINT) =? TYPED_BOOL) = false /\
    (((if uns then TYPED_UINT else TYPED_SINT) =? TYPED_SINT) || ((if uns then TYPED_UINT else TYPED_SINT) =? TYPED_UINT)) = true /\
    ((if uns then TYPED_UINT else TYPED_SINT) =? TYPED_UINT) = uns) by (by destruct uns). destruct Hu as (-> & -> & ->).
  destruct Hnum as [(m & Hv & Hr & ->)|[Hi ->]].
  - pose proof (integer_check v uns bits m Hv Hr Hb) as Hic. destruct (check_int uns bits m) as [w|e].
    + destruct Hic as (Hi & -> & Hrange). apply dwp_bind. eapply dwp_lift; [exact Hi|]. cbn [Z.eqb Z.ltb Z.compare]. eapply store_post; [done|by apply integer_width|done|done|].
      intros m' Hb'. by apply (integer_reads uns bits m slot m' p dv).
    + destruct Hic as [Hi ->]. apply dwp_bind. eapply dwp_lift; [exact Hi|]. cbn [Z.eqb Z.ltb Z.compare]. apply dwp_ret, refuse_post; [done|apply range_fails].
  - apply dwp_bind. eapply dwp_lift; [exact Hi|]. cbn [Z.eqb]. apply dwp_ret, refuse_post; [done|apply type_fails].
Qed.

Lemma real_ok t dv slot mask v p depth d : t = TF32 \/ t = TF64 -> describes im t dv slot -> tree_ok v -> depth <= max_depth ->
  mapped (dc_heap d) (range p (width t)) -> apart (dc_heap d) -> value_ok t dv slot mask v p depth d.
Proof.
  intros Ht Hdesc Hok Hd Hm Ha. unfold value_ok. cbn [json_typed_value_direct]. cbv zeta. rewrite (proj2 (Z.ltb_ge _ _) Hd).
  assert (Hnum : forall bits, json_get_num v = Some bits -> 0 <= bits < 2 ^ 64).
  { intros bits Hb. destruct v; cbn in Hb, Hok; try done; injection Hb as <-; try apply real_word; done. }
  destruct Ht as [-> | ->]; cbn [describes width] in *.
  - destruct Hdesc as [Hk ->]. replace (check max_depth v TF32 depth) with (match json_get_num v with
      | Some bits => if f32_finite (narrow_f32 bits) then inl (JReal (widen_f32 (narrow_f32 bits))) else out_of_range | None => wrong_type end)
      by (destruct v; cbn [check]; by rewrite (proj2 (Z.ltb_ge _ _) Hd)).
    rewrite Hk. kinds. destruct (json_get_num v) as [bits|]; [|apply dwp_ret, refuse_post; [done|apply type_fails]].
    destruct (f32_finite (narrow_f32 bits)) eqn:Hfin; [|apply dwp_ret, refuse_post; [done|apply range_fails]].
    pose proof (finite_widen bits Hfin) as Hw. eapply store_post; [done|by apply rt_store_le_len; [apply Hw|]|done|done|]. intros m Hb. apply reads_f32; [done..|].
    by apply rd_stored; [lia|change (2 ^ (8 * 4)) with (2 ^ 32)|].
  - replace (check max_depth v TF64 depth) with (match json_get_num v with Some bits => inl (JReal bits) | None => wrong_type end)
      by (destruct v; cbn [check]; by rewrite (proj2 (Z.ltb_ge _ _) Hd)).
    rewrite Hdesc. kinds. destruct (json_get_num v) as [bits|] eqn:Hb; [|apply dwp_ret, refuse_post; [done|apply type_fails]].
    pose proof (Hnum bits eq_refl) as Hw. eapply store_post; [done|by apply rt_store_le_len; [apply Hw|]|done|done|]. intros m Hbm. apply reads_f64; [done..|].
    by apply rd_stored; [lia|change (2 ^ (8 * 8)) with (2 ^ 64)|].
Qed.

(** The answer of an object. *)
Definition object_answer (t : jty) (dv : vdesc) (p : Z) d (res : jval + Z * Z) (status : Z) d' : Prop :=
  step_ok d d' (range p (width t)) /\
  match res with
  | inl w => status = ENC_OK /\ reads_tree (foot im (dc_heap d) (dc_heap d') (range p (width t))) dv p false w
  | inr (st, code) => status = st /\ dc_req5 d' = code /\ 0 < st
  end.

(** An object walk over a zeroed record, whatever the value is. *)
Lemma object_any size allow fs dv v p depth d : describes im (TStruct size allow fs) dv false ->
  (jheight v <= S n)%nat -> tree_ok v -> depth <= max_depth ->
  mapped (dc_heap d) (range p size) -> (forall a, range p size a = true -> dc_heap d !! a = Some 0) -> apart (dc_heap d) ->
  dwp (json_typed_object_direct im max_depth (json_typed_value_direct im true max_depth n) (v_child_schema dv) v p depth) d
    (object_answer (TStruct size allow fs) dv p d (check max_depth v (TStruct size allow fs) depth)).
Proof.
  intros (Hk & _ & Hc & s & rows & keys & k & Hsch & Hrows & Hkeys & Hmask & Htab & Hallow & Hmissing & Hsz & Hsize & Hcount & Hnames & Hlay & Hfields) Hh Hok Hd Hm Hz Ha.
  destruct (fields_describe im fs rows Hfields) as [Hlen Hfield].
  destruct v as [|b|z|z|z|t|vs|kvs].
  1-7: apply dwp_req5, dwp_ret; cbn [check]; rewrite (proj2 (Z.ltb_ge _ _) Hd); split; [by split_and!|done].
  rewrite check_struct, (proj2 (Z.ltb_ge _ _) Hd). rewrite jheight_obj in Hh.
  eapply dwp_mono; [eapply (object_post n _ HV size allow fs (v_child_schema dv) s rows keys k) with (h0 := dc_heap d); try eassumption; try done; lia|].
  intros status d2 (R1 & R2 & R3 & R4). split; [by split_and!|].
  destruct (check_members max_depth allow fs depth kvs (replicate (length fs) None)) as [w|[st code]]; [|done].
  destruct R4 as (-> & members & -> & Hreads). split; [done|]. by eapply reads_object.
Qed.

(** The record before its members: zero. *)
Lemma init_zero size allow fs dv s p d : describes im (TStruct size allow fs) dv false -> im_schema im (v_child_schema dv) = Some s ->
  mapped (dc_heap d) (range p size) -> apart (dc_heap d) ->
  dwp (json_typed_init_record s p) d (fun _ d' => step_ok d d' (range p size) /\ (forall a, range p size a = true -> dc_heap d' !! a = Some 0) /\
    (forall a, dc_heap d !! a = None -> dc_heap d' !! a = None)).
Proof.
  intros (_ & _ & _ & s' & rows & keys & k & Hsch & _ & _ & _ & _ & _ & Hmissing & Hsz & Hsize & _) Hs Hm Ha. assert (s' = s) as -> by congruence.
  unfold json_typed_init_record. rewrite Hmissing, Hsz. assert (Hzl : slen (mem_zero size) = size) by (apply mem_zero_len; lia).
  apply dwp_bind, dwp_stored; [by rewrite Hzl|]. intros h1 S1. apply dwp_ret. pose proof (stored_apart _ _ _ _ S1 Ha) as Ha1.
  destruct S1 as (F1 & N1 & B1). rewrite Hzl in F1, B1. split_and!; [by split_and!| |done]. intros a Hr. cbn [dc_heap with_heap]. rewrite B1 by done.
  unfold mem_zero. apply lookup_replicate_2. apply range_true in Hr. lia.
Qed.

Lemma struct_ok size allow fs dv slot mask v p depth d : describes im (TStruct size allow fs) dv slot -> (jheight v <= S n)%nat -> tree_ok v -> depth <= max_depth ->
  mapped (dc_heap d) (range p size) -> apart (dc_heap d) -> value_ok (TStruct size allow fs) dv slot mask v p depth d.
Proof.
  intros Hdesc Hh Hok Hd Hm Ha. pose proof Hdesc as (Hk & -> & Hc & s & _ & _ & _ & Hsch & _).
  unfold value_ok. cbn [json_typed_value_direct]. cbv zeta. rewrite (proj2 (Z.ltb_ge _ _) Hd), Hk. kinds.
  rewrite (proj2 (Z.eqb_neq _ _) Hc). apply dwp_bind. eapply dwp_lift; [exact Hsch|].
  apply dwp_bind. eapply dwp_mono; [by eapply init_zero|]. intros _ d1 ((F1 & Ha1 & R1) & Hz & N1).
  apply dwp_bind. eapply dwp_mono; [eapply (object_any size allow fs dv v p depth d1 Hdesc Hh Hok Hd); [by apply (mapped_frame _ _ _ _ Hm F1)|done|done]|].
  intros status d2 [(F2 & Ha2 & R2) Hres]. apply dwp_ret. cbn [width] in *. split; [split_and!; [by eapply frame_trans|done|by rewrite R2]|].
  destruct (check max_depth v (TStruct size allow fs) depth) as [w|[st code]].
  - destruct Hres as [-> Hw]. split; [done|split; [|done]]. eapply reads_ext; [|exact Hw]. eapply foot_ext; [apply frame_refl| |by left|done|exact Ha2].
    intros a. by apply (kept_none _ _ _ _ F1).
  - destruct Hres as (-> & Hreq & Hpos). change ENC_OK with 0. rewrite (proj2 (Z.eqb_neq st 0)) by lia. right. cbn [fst snd]. split; [lia|]. by split.
Qed.
End level.

(** The walk answers [check] whatever the value, when it has fuel for its
    nesting. *)
Lemma value_good n : good n (json_typed_value_direct im true max_depth n).
Proof.
  induction n as [|n IH]; intros t dv slot mask v p depth d Hh Hdesc Hok Hm Ha; [pose proof (jheight_pos v); lia|].
  destruct (Z.ltb_spec max_depth depth) as [Hlt|Hd].
  { rewrite check_depth by done. cbn [json_typed_value_direct]. cbv zeta. rewrite (proj2 (Z.ltb_lt _ _) Hlt). apply dwp_ret, refuse_post; [done|by left]. }
  destruct t as [|uns bits| | | |size allow fs|e].
  - destruct Hdesc as [Hk ->]. cbn [json_typed_value_direct]. cbv zeta. rewrite (proj2 (Z.ltb_ge _ _) Hd), Hk. kinds.
    destruct v as [|b|z|z|z|t|vs|kvs]; cbn [check]; rewrite (proj2 (Z.ltb_ge _ _) Hd).
    1,3-8: apply dwp_ret, refuse_post; [done|apply type_fails].
    eapply store_post; [done|done|done|done|]. intros m Hb. assert (Hrd : rd_le m p 1 = Some (if b then 1 else 0)).
    { apply rd_stored; [lia|destruct b; lia|]. by destruct b. }
    pose proof (reads_bool m Hroom dv p _ Hk Hrd) as Hr. by destruct b.
  - by apply integer_ok.
  - apply real_ok; auto.
  - apply real_ok; auto.
  - cbn [describes] in Hdesc. cbn [json_typed_value_direct]. cbv zeta. rewrite (proj2 (Z.ltb_ge _ _) Hd), Hdesc. kinds.
    destruct v as [|b|z|z|z|t|vs|kvs]; cbn [check]; rewrite (proj2 (Z.ltb_ge _ _) Hd).
    1-5,7-8: apply dwp_ret, refuse_post; [done|apply type_fails].
    by apply string_post.
  - by apply struct_ok.
  - pose proof Hdesc as (Hk & _). cbn [json_typed_value_direct]. cbv zeta. rewrite (proj2 (Z.ltb_ge _ _) Hd), Hk. kinds.
    destruct v as [|b|z|z|z|t|vs|kvs]; cbn [json_typed_list_direct].
    1-6,8: cbn [check]; rewrite (proj2 (Z.ltb_ge _ _) Hd); apply dwp_ret, refuse_post; [done|apply type_fails].
    rewrite check_list, (proj2 (Z.ltb_ge _ _) Hd). rewrite jheight_arr in Hh. apply (list_post n); [exact IH|done|lia|done|done|done].
Qed.
End walk.
