(* ===== verification/JsonDecTheorems.v ===== *)
(** * JsonDecTheorems: what typed JSON decoding guarantees

    The whole walk: it ends, answers what the specification answers for the
    document, changes nothing but the record and new memory, and leaves a record
    whose encoding is the document brought to the form of its type; that form
    decodes to the same record again. *)

From stdpp Require Import gmap.
From S2P Require Import Prelude Mem Text Bytes JsonScan JsonOut JsonEnc JsonSim JsonDec.
From S2P Require Import JsonRead JsonDecSpec JsonDecProofs.

Open Scope c_scope.

Implicit Types (h : gmap Z Z) (v w : jval) (d : decode).

(** ** Giving a record back *)

(** How deep records nest without a list between them. *)
Fixpoint tnest (t : jty) : nat :=
  match t with
  | TStruct _ _ fs => S ((fix all (fs : list fld) : nat := match fs with [] => O | (_, _, t) :: fs => Nat.max (tnest t) (all fs) end) fs)
  | _ => O
  end.

Lemma tnest_field size allow fs i names opt t : fs !! i = Some (names, opt, t) -> (S (tnest t) <= tnest (TStruct size allow fs))%nat.
Proof.
  cbn [tnest]. revert i. induction fs as [|[[ns o] t'] fs IH]; intros [|i] Hi; try done.
  - injection Hi as -> -> ->. lia.
  - specialize (IH i Hi). lia.
Qed.

Lemma word_mapped im h p : mapped h (range p 8) -> exists q, rd_le (heap_image im h) p 8 = Some q.
Proof.
  intros Hm. unfold rd_le, rd. destruct (mapM (im_byte (heap_image im h)) (seqZ p 8)) as [s|] eqn:He; [by eexists|]. exfalso.
  apply mapM_None, Exists_exists in He as (a & Ha & Hn). apply elem_of_seqZ in Ha. destruct (Hm a) as [b Hb]; [apply range_true; lia|]. cbn in Hn. congruence.
Qed.

(** What a release leaves alone. *)
Definition spared d d' : Prop := dc_heap d' = dc_heap d /\ dc_req5 d' = dc_req5 d /\ dc_req7 d' = dc_req7 d.

Lemma spared_trans d1 d2 d3 : spared d1 d2 -> spared d2 d3 -> spared d1 d3.
Proof. intros (A1 & A2 & A3) (B1 & B2 & B3). by split_and!; etrans. Qed.

Section release.
Context `{DecodeHost} (im : image).

(** The kind of a field tells what its bytes own. *)
Lemma owned_kind t f x : describes im t (field_desc f x) false -> f_kind f = v_kind (field_desc f x) /\
  ((f_kind f =? TYPED_STRING) || (f_kind f =? TYPED_LIST)) = nullable t /\
  (f_kind f = TYPED_STRUCT -> exists size allow fs, t = TStruct size allow fs).
Proof.
  intros Hd. assert (Hk : f_kind f = v_kind (field_desc f x)) by (by destruct x). rewrite Hk. split; [done|].
  destruct t as [|uns bits| | | |size allow fs|e]; cbn [describes] in Hd; try destruct Hd as (Hd & _); rewrite Hd; try destruct uns; (split; [done|]); intros He; try done; eauto.
Qed.

Lemma release_word_ok o p d (Hp : exists q, rd_le (heap_image im (dc_heap d)) p 8 = Some q) (Ho : o = load_word im p) :
  dwp (owned ← o; if owned =? 0 then mret tt else release owned) d (fun _ d' => spared d d').
Proof. subst o. destruct Hp as [q Hq]. apply dwp_bind. eapply dwp_word; [exact Hq|]. by destruct (q =? 0). Qed.

Lemma release_record_ok fuel : forall size allow fs dv record d, describes im (TStruct size allow fs) dv false -> (tnest (TStruct size allow fs) <= fuel)%nat ->
  mapped (dc_heap d) (range record size) -> dwp (json_typed_release_record im fuel (v_child_schema dv) record) d (fun _ d' => spared d d').
Proof.
  induction fuel as [|fuel IH]; intros size allow fs dv record d Hdesc Hnest Hm; [cbn in Hnest; lia|].
  destruct Hdesc as (Hk & _ & Hc & s & rows & keys & k & Hsch & Hrows & _ & _ & _ & _ & _ & _ & _ & _ & _ & Hlay & Hfields).
  destruct (fields_describe im fs rows Hfields) as [Hlen Hfield]. cbn [json_typed_release_record].
  apply dwp_bind. eapply dwp_lift; [exact Hsch|]. apply dwp_bind. eapply dwp_lift; [exact Hrows|].
  assert (Hpt : forall i names opt t index f x, fs !! i = Some (names, opt, t) -> rows !! i = Some (index, f, x) ->
    has_flag (f_flags f) TYPED_BOXED_OPTION = false /\ describes im t (field_desc f x) false /\ (tnest t <= fuel)%nat /\
    mapped (dc_heap d) (range (record + f_value_offset f) (width t))).
  { intros i names opt t index f x Hi Hr. destruct (Hfield _ _ _ _ _ _ _ Hi Hr) as [Hfo Hd]. pose proof (tnest_field size allow fs _ _ _ _ Hi). split_and!; [apply Hfo|done|lia|].
    intros a Ha. apply Hm. destruct (Hlay _ _ _ _ _ _ _ Hi Hr) as [Hin _]. specialize (Hin (a - record)). apply range_true in Ha. apply range_true.
    assert (field_bytes f t (a - record) = true) by (unfold field_bytes; apply orb_true_iff; left; apply range_true; lia). specialize (Hin ltac:(done)). lia. }
  clear Hfields Hfield Hlay Hrows Hm Hnest. revert fs d Hlen Hpt. induction rows as [|[[index f] x] rows IHr]; intros fs d Hlen Hpt; [by apply dwp_ret|].
  destruct fs as [|[[names opt] t] fs]; [done|]. destruct (Hpt O names opt t index f x eq_refl eq_refl) as (Hbox & Hd & Hn & Hmap). rewrite Hbox.
  destruct (owned_kind t f x Hd) as (Hkf & Hown & Hst). rewrite Hown.
  assert (Hrest : forall d', spared d d' -> forall m : decoder unit, m = (fix fields (rows : list row) : decoder unit :=
    match rows with
    | [] => mret tt
    | (_, f, complex) :: rows =>
        let value := record + f_value_offset f in
        _ ← (if has_flag (f_flags f) TYPED_BOXED_OPTION then
               box ← load_word im value; if box =? 0 then mret tt else release box
             else if (f_kind f =? TYPED_STRING) || (f_kind f =? TYPED_LIST) then
               owned ← load_word im value; if owned =? 0 then mret tt else release owned
             else
               match complex with
               | Some x =>
                   if (f_kind f =? TYPED_STRUCT) && negb (x_child_schema x =? 0)
                   then json_typed_release_record im fuel (x_child_schema x) value else mret tt
               | None => mret tt
               end);
        fields rows
    end) rows -> dwp m d' (fun _ d2 => spared d d2)).
  { intros d' Hs m ->. eapply dwp_mono; [apply (IHr fs d'); [cbn in Hlen; lia|]|].
    - intros i names' opt' t' index' f' x' Hi Hr'. destruct Hs as (-> & _). exact (Hpt (S i) names' opt' t' index' f' x' Hi Hr').
    - intros ? d2 Hs2. by eapply spared_trans. }
  apply dwp_bind. eapply (dwp_mono _ _ (fun _ d' => spared d d')); [|intros ? d' Hs; by apply (Hrest d' Hs)].
  destruct (nullable t) eqn:Hnull.
  - apply (release_word_ok _ (record + f_value_offset f)); [|done]. apply word_mapped. by replace 8 with (width t) by (by destruct t).
  - destruct x as [x|]; [|by apply dwp_ret]. destruct (Z.eqb_spec (f_kind f) TYPED_STRUCT) as [He|]; [|by apply dwp_ret]. destruct (Hst He) as (sz & al & gs & ->).
    destruct (Z.eqb_spec (x_child_schema x) 0); [by apply dwp_ret|]. exact (IH sz al gs (field_desc f (Some x)) (record + f_value_offset f) d Hd Hn Hmap).
Qed.
End release.

(** ** The root *)

(** What the encoder's tree of the record or list at [root] is. *)
Definition encodes `{Yyjson} (m : image) (s : BeansJsonTypedSchema) (schema root : Z) w : Prop :=
  exists fuel, forall c, exists c', dom_root m fuel (header_len m) schema root s c = Some (Some w, c').

(** The answer for a document of records; no depth at all is refused first, and
    so are the records of an array when only its own level is allowed. *)
Definition root_answer `{DecodeHost, Yyjson} (max_depth : Z) (root_array : bool) (root : jval) (t : jty) : jval + Z * Z :=
  if max_depth =? 0 then inr (ENC_ERR_INVALID, TYPED_ERR_DEPTH)
  else if root_array then
    match root with
    | JArr vs => if (0 <? Z.of_nat (length vs)) && (max_depth <? 2) then inr (ENC_ERR_INVALID, TYPED_ERR_DEPTH) else check max_depth root (TList t) 1
    | _ => inr (ENC_ERR_TYPE, TYPED_ERR_ROOT)
    end
  else check max_depth root t 1.

Section root.
Context `{DecodeHost, CHeap, Yyjson} (im : image) `{!DecodeHostLaws im} (max_depth : Z).
Hypothesis Hroom : forall k, yy_room k = true.
Hypothesis Hmalloc : forall n, c_malloc n <> None.
Context (size : Z) (allow : bool) (fs : list fld) (schema : Z) (s : BeansJsonTypedSchema).
Let t := TStruct size allow fs.
Let rd_ := mkDesc TYPED_STRUCT 0 schema 0 0 0.
Context (Hdesc : describes im t rd_ false) (Hs : im_schema im schema = Some s) (Hsize : 0 < size < 2 ^ 30) (Hrs : s_record_size s = size).

Lemma encodes_record m p w : has_flag (s_flags s) TYPED_ROOT_ARRAY = false -> schema <> 0 -> reads_tree m rd_ p false w -> encodes m s schema p w.
Proof.
  intros Hf Hc Hr. destruct (reads_record m rd_ p w eq_refl Hc Hr) as [fuel Hfu]. exists fuel. intros c. unfold dom_root. rewrite Hf. apply Hfu.
Qed.

Section records.
Context (fuel : nat) (lp data count : Z) (h0 : gmap Z Z).
Let dv := mkDesc TYPED_LIST 0 0 TYPED_STRUCT schema size.
Let block : Z -> bool := fun a => range data (count * size) a || range lp 32 a.
Context (Hcount : 0 <= count < 2 ^ 63) (Hblock : mapped h0 block) (Hoff : forall a, range lp 32 a = true -> range data (count * size) a = false).

Lemma records_ok vs : forall ws d1, list_inv im t dv size lp data count h0 ws d1 -> Z.of_nat (length ws + length vs) = count -> Forall tree_ok vs ->
  (heights vs <= S fuel)%nat -> (vs = [] \/ 2 <= max_depth) ->
  dwp (records_loop im true max_depth fuel schema s lp size (Z.of_nat (length ws)) vs) d1 (fun status d' => frame h0 (dc_heap d') block /\ apart im (dc_heap d') /\
    dc_released d' = dc_released d1 /\
    match check_items max_depth t 1 vs ws with
    | inl r => status = ENC_OK /\ exists ws', r = JArr ws' /\ list_inv im t dv size lp data count h0 ws' d'
    | inr (st, code) => status = st /\ dc_req5 d' = code /\ 0 < st
    end).
Proof.
  induction vs as [|v vs IH]; intros ws d1 Hinv Hc Hok Hh Hdep.
  { apply dwp_ret. destruct Hinv as [? ? ? ? ?]. split_and!; [done..|]. split; [done|]. by exists ws. }
  cbn [records_loop check_items length] in *. apply Forall_cons in Hok as [Hv Hok]. rewrite heights_cons in Hh. pose proof Hinv as [_ Hf Ha Hp _].
  destruct Hdep as [?|Hdep]; [done|]. set (i := Z.of_nat (length ws)) in *. remember (data + i * size) as q eqn:Hq.
  assert (Hq' : forall a, range q size a = true -> block a = true /\ range lp 32 a = false) by (intros a; subst q; apply (item_place t lp data count (proj1 Hsize) Hoff); lia).
  assert (Hlp8 : forall a, range (lp + 8) 8 a = true -> range lp 32 a = true) by (intros a Hr; apply range_true; apply range_true in Hr; lia).
  assert (Hlpb : forall a, range (lp + 8) 8 a = true -> block a = true) by (intros a Hr; unfold block; rewrite (Hlp8 a Hr); apply orb_true_r).
  apply dwp_bind. eapply dwp_prefix; [exact Hp|]. cbn [lp_data]. rewrite <-Hq.
  apply dwp_bind. eapply dwp_mono; [eapply (init_zero im size allow fs rd_ s q d1 Hdesc Hs); [intros a Hr; by apply Hf, Hblock, Hq'|done]|]. intros _ d2 ((F2 & Ha2 & R2) & Hz & _).
  apply dwp_bind, dwp_stored; [rewrite word_len; intros a Hr; by apply F2, Hf, Hblock, Hlpb|]. intros h3 S3. pose proof (stored_apart im _ _ _ _ S3 Ha2) as Ha3.
  destruct S3 as (F3 & _ & B3). rewrite word_len in F3, B3.
  apply dwp_bind. eapply dwp_mono; [eapply (object_any im max_depth Hroom Hmalloc fuel (value_good im max_depth Hroom Hmalloc fuel) size allow fs rd_ v q 2 (with_heap d2 h3) Hdesc); [lia|done|done| | |done]|].
  { cbn [with_heap dc_heap]. intros a Hr. by apply F3, F2, Hf, Hblock, Hq'. }
  { cbn [with_heap dc_heap]. intros a Hr. eapply frame_some; [exact F3|by apply Hz|]. destruct (range (lp + 8) 8 a) eqn:Hl; [|done]. destruct (Hq' a Hr) as [_ Hn]. by rewrite (Hlp8 a Hl) in Hn. }
  intros status d4 [(F4 & Ha4 & R4) Hres]. cbn [with_heap dc_heap dc_released width] in *.
  assert (F14 : frame (dc_heap d1) (dc_heap d4) (fun a => range q size a || range (lp + 8) 8 a)).
  { eapply frame_trans; [|eapply frame_weaken; [exact F4|intros a Hr; apply orb_true_iff; by left]].
    eapply frame_trans; eapply frame_weaken; [exact F2| |exact F3|]; intros a Hr; apply orb_true_iff; auto. }
  fold t in Hres. change (1 + 1) with 2. destruct (check max_depth v t 2) as [r|[st code]].
  - destruct Hres as (-> & Hr). cbn [negb Z.eqb ENC_OK]. replace (i + 1) with (Z.of_nat (length (ws ++ [r]))) by (rewrite length_app; cbn [length]; lia).
    eapply dwp_mono; [apply IH; [|rewrite length_app; cbn [length]; lia|done|lia|by right]|].
    + eapply (item_step im t dv size lp data count h0 (proj1 Hsize) Hcount Hblock Hoff); [exact Hinv|lia|by rewrite Hq in F14| |done|].
      * eapply bytes_stay; [exact B3|exact F4|]. intros a Hra. rewrite word_len in Hra. destruct (range q size a) eqn:Hqa; [|done]. destruct (Hq' a Hqa) as [_ Hn]. by rewrite (Hlp8 a Hra) in Hn.
      * rewrite Hq in Hr. cbn [v_element_kind v_element_schema v_element_size dv]. change (element_desc TYPED_STRUCT schema size) with rd_. rewrite (proj2 (Z.ltb_ge size 0)) by lia.
        eapply reads_ext; [|exact Hr]. eapply foot_ext; [apply frame_refl| |by left|done|exact Ha4].
        intros a Hn. eapply kept_none; [exact Hf|]. eapply kept_none; [exact F2|]. by eapply kept_none.
    + intros st d' (Q1 & Q2 & Q3 & Q4). split_and!; [done|done| |done]. by rewrite Q3, R4.
  - destruct Hres as (-> & Hreq & Hpos). change ENC_OK with 0. rewrite (proj2 (Z.eqb_neq st 0)) by lia. cbn [negb]. apply dwp_ret. split_and!; [|done|by rewrite R4|done..].
    eapply frame_trans; [exact Hf|]. eapply frame_weaken; [exact F14|]. intros a [Hr|Hr]%orb_true_iff; [by apply Hq'|by apply Hlpb].
Qed.
End records.

(** What is changed: a single record, or new memory only. *)
Definition root_region (req3 : Z) : Z -> bool := if has_flag (s_flags s) TYPED_ROOT_ARRAY then fun _ => false else range req3 size.

Definition root_post (req3 : Z) (root : jval) d (res : Z * Z) d' : Prop :=
  frame (dc_heap d) (dc_heap d') (root_region req3) /\ apart im (dc_heap d') /\
  match root_answer max_depth (has_flag (s_flags s) TYPED_ROOT_ARRAY) root t with
  | inl w => fst res = ENC_OK /\ dc_released d' = dc_released d /\ encodes (full im (dc_heap d')) s schema (snd res) w /\
      (has_flag (s_flags s) TYPED_ROOT_ARRAY = false -> snd res = req3)
  | inr (st, code) => fst res = st /\ dc_req5 d' = code /\ 0 < st
  end.

Lemma single_ok fuel root req3 d : has_flag (s_flags s) TYPED_ROOT_ARRAY = false -> schema <> 0 -> (jheight root <= fuel)%nat -> (tnest t <= fuel)%nat -> tree_ok root -> 1 <= max_depth ->
  mapped (dc_heap d) (range req3 size) -> apart im (dc_heap d) ->
  dwp (decode_root im true max_depth fuel schema s root req3) d (root_post req3 root d).
Proof.
  intros Hf Hc Hh Hn Hok Hd Hm Ha. unfold decode_root, root_post, root_region, root_answer. rewrite Hf, (proj2 (Z.eqb_neq max_depth 0)) by lia.
  apply dwp_bind. eapply dwp_mono; [by eapply (init_zero im size allow fs rd_ s)|]. intros _ d1 ((F1 & Ha1 & R1) & Hz & N1).
  apply dwp_bind. eapply dwp_mono; [eapply (object_any im max_depth Hroom Hmalloc fuel (value_good im max_depth Hroom Hmalloc fuel) size allow fs rd_ root req3 1 d1 Hdesc); [lia|done|lia|by apply (mapped_frame _ _ _ _ Hm F1)|done|done]|].
  intros status d2 [(F2 & Ha2 & R2) Hres]. cbn [width] in *. fold t in Hres. pose proof (frame_trans _ _ _ _ F1 F2) as F. apply dwp_bind. destruct (check max_depth root t 1) as [w|[st code]].
  - destruct Hres as [-> Hr]. apply dwp_ret, dwp_ret. split_and!; [done|done|done|by rewrite R2| |done]. apply encodes_record; [done|done|].
    eapply reads_ext; [|exact Hr]. apply foot_full.
  - destruct Hres as (-> & Hreq & Hpos). change ENC_OK with 0. rewrite (proj2 (Z.eqb_neq st 0)) by lia.
    eapply dwp_mono; [eapply (release_record_ok im fuel size allow fs rd_ req3 d2 Hdesc Hn); by apply (mapped_frame _ _ _ _ Hm F)|]. intros _ d3 (E1 & E2 & E3). apply dwp_ret. rewrite E1, E2. by split_and!.
Qed.

Lemma array_ok fuel vs req3 d : has_flag (s_flags s) TYPED_ROOT_ARRAY = true -> schema <> 0 -> (jheight (JArr vs) <= fuel)%nat -> tree_ok (JArr vs) -> 1 <= max_depth -> apart im (dc_heap d) ->
  dwp (decode_root im true max_depth fuel schema s (JArr vs) req3) d (root_post req3 (JArr vs) d).
Proof.
  intros Hf Hc Hh [Hlen Hok]%tree_arr Hd Ha. unfold decode_root, root_post, root_region, root_answer. rewrite Hf, (proj2 (Z.eqb_neq max_depth 0)) by lia. rewrite jheight_arr in Hh. cbn [negb].
  remember (Z.of_nat (length vs)) as count eqn:Hcount. destruct ((0 <? count) && (max_depth <? 2)) eqn:Hdeep.
  { apply dwp_req5, dwp_ret. by split_and!; [apply frame_refl|..]. }
  rewrite check_list, (proj2 (Z.ltb_ge max_depth 1)) by lia.
  assert (Hst : json_typed_storage_stride (s_record_size s) TYPED_STRUCT = size) by (unfold json_typed_storage_stride; cbn [Z.eqb TYPED_STRUCT Pos.eqb]; rewrite Hrs; unfold i64; dlia). rewrite Hst.
  apply dwp_bind, dwp_call. intros lp h1 Hmade. destruct (list_made size _ count _ _ _ ltac:(lia) ltac:(lia) Hmade) as (Hlp & Hg & Hnew & data & Hpre & Hnd & Hoff).
  replace (Z.abs size) with size in * by lia. pose proof (grown_apart im _ _ Hg Ha) as Ha1.
  apply dwp_bind. eapply dwp_prefix; [exact Hpre|]. rewrite stride_abs by lia. replace (Z.abs size) with size by lia.
  assert (Hfresh : forall a, range data (count * size) a || range lp 32 a = true -> dc_heap d !! a = None /\ is_Some (h1 !! a)) by (intros a [Hr|Hr]%orb_true_iff; [by apply Hnd|by apply Hnew]).
  apply dwp_bind. eapply dwp_mono; [apply (records_ok fuel lp data count h1) with (ws := [])|].
  all: try (done || lia).
  - intros a Hr. by apply Hfresh.
  - split; [cbn; lia|apply frame_refl|done|exact Hpre|done].
  - destruct vs as [|v vs]; [by left|right]. apply andb_false_iff in Hdeep as [He|He]; bools; cbn [length] in *; lia.
  - intros status d2 (R1 & R2 & R3 & R4). cbn [with_heap dc_released] in R3.
    assert (F : frame (dc_heap d) (dc_heap d2) (fun _ => false)).
    { eapply frame_fresh; [apply Hg|exact R1|]. intros a [b Hb] Hr. destruct (Hfresh a Hr). congruence. }
    destruct (check_items max_depth t 1 vs []) as [r|[st code]].
    + destruct R4 as (-> & ws & -> & [L0 L1 L2 L3 L4]). change ENC_OK with 0 at 1. cbn [Z.eqb]. apply dwp_ret. split_and!; [done|done|done|by rewrite R3| |done].
      assert (Hx : rd_prefix (full im (dc_heap d2)) lp = Some (mkPrefix data (Z.of_nat (length ws)) size)).
      { eapply prefix_sub; [exact L3|]. intros a b _ Hb. cbn in *. by rewrite Hb. }
      destruct (list_read (full im (dc_heap d2)) Hroom TYPED_STRUCT schema size lp _ ws ltac:(lia) ltac:(cbn; lia) Hx eq_refl) as [f Hfu].
      { intros i v Hi. cbn [lp_data lp_stride]. rewrite stride_abs by lia. replace (Z.abs size) with size by lia. eapply reads_ext; [|by apply L4]. apply foot_full. }
      exists f. intros c. unfold dom_root. rewrite Hf, Hrs. apply Hfu.
    + destruct R4 as (-> & Hreq & Hpos). change ENC_OK with 0. rewrite (proj2 (Z.eqb_neq st 0)) by lia. rewrite (proj2 (Z.eqb_neq lp 0)) by lia. apply dwp_release, dwp_ret. by split_and!.
Qed.
End root.

(** ** The form of a type

    What [check] gives is in the form of the type: checked again it stays as it
    is.  Printed and read again, a signed number that is not negative comes back
    as an unsigned one. *)

Fixpoint reread v : jval :=
  match v with
  | JSint n => if 0 <=? n then JUint n else JSint n
  | JArr vs => JArr (map reread vs)
  | JObj kvs => JObj (map (fun kv => (fst kv, reread (snd kv))) kvs)
  | _ => v
  end.

Lemma reread_null v : reread v = JNull -> v = JNull.
Proof. destruct v; cbn; try done. by destruct (0 <=? n). Qed.

Section form.
Context `{DecodeHost, Yyjson} (im : image) (max_depth : Z).
Hypothesis Hnarrow : forall bits, f32_finite (narrow_f32 bits) = true -> narrow_f32 (widen_f32 (narrow_f32 bits)) = narrow_f32 bits.

(** A value in the form of its type. *)
Definition formed (t : jty) depth w : Prop := check max_depth (reread w) t depth = inl w /\ w <> JNull.

Definition forms v : Prop := forall t dv slot depth w, describes im t dv slot -> check max_depth v t depth = inl w -> formed t depth w.

Lemma int_formed uns bits n depth w : depth <= max_depth -> check_int uns bits n = inl w -> formed (TInt uns bits) depth w.
Proof.
  intros Hd Hc. unfold check_int in Hc. unfold formed. destruct uns.
  - destruct (_ && _) eqn:He; [|done]. injection Hc as <-. cbn [reread check]. rewrite (proj2 (Z.ltb_ge _ _) Hd). unfold check_int. by rewrite He.
  - destruct (_ && _) eqn:He; [|done]. injection Hc as <-. cbn [reread]. split; [|done]. destruct (0 <=? n); cbn [check]; rewrite (proj2 (Z.ltb_ge _ _) Hd); unfold check_int; by rewrite He.
Qed.

Lemma items_formed e dv slot depth vs : Forall forms vs -> describes im e dv slot -> forall acc w, check_items max_depth e depth vs acc = inl w ->
  exists ws, w = JArr (acc ++ ws) /\ forall acc', check_items max_depth e depth (map reread ws) acc' = inl (JArr (acc' ++ ws)).
Proof.
  intros Hvs He. induction Hvs as [|v vs Hv _ IH]; intros acc w Hc; cbn [check_items] in Hc.
  { injection Hc as <-. exists []. split; [by rewrite app_nil_r|]. intros acc'. cbn. by rewrite app_nil_r. }
  destruct (check max_depth v e (depth + 1)) as [x|] eqn:Hx; [|done]. destruct (IH _ _ Hc) as (ws & -> & Hws). exists (x :: ws). split; [by rewrite <-app_assoc|].
  intros acc'. cbn [map check_items]. destruct (Hv e dv slot _ _ He Hx) as [-> _]. rewrite Hws. by rewrite <-app_assoc.
Qed.

Lemma items_length e depth vs : forall acc w, check_items max_depth e depth vs acc = inl w -> exists ws, w = JArr ws /\ length ws = (length acc + length vs)%nat.
Proof.
  induction vs as [|v vs IH]; intros acc w Hc; cbn [check_items] in Hc; [injection Hc as <-; exists acc; split; [done|cbn; lia]|].
  destruct (check max_depth v e (depth + 1)); [|done]. destruct (IH _ _ Hc) as (ws & -> & Hl). exists ws. rewrite length_app in Hl. cbn [length] in *. split; [done|lia].
Qed.

(** *** Objects *)

Lemma end_zip (gs : list fld) : forall vals members, length vals = length gs -> check_end gs vals = inl members ->
  members = zip (fld_name <$> gs) (default JNull <$> vals) /\ forall i names opt t, gs !! i = Some (names, opt, t) -> vals !! i = Some None -> opt = true.
Proof.
  induction gs as [|[[ns o] t] gs IH]; intros [|val vals] members Hl Hc; cbn [length] in Hl; try lia; [by injection Hc as <-|]. cbn [check_end snd fst] in Hc.
  assert (Hc' : match check_end gs vals with inl kvs => inl ((fld_name (ns, o, t), default JNull val) :: kvs) | inr e => inr e end = inl members /\ (val = None -> o = true))
    by (destruct val; [done|]; by destruct o).
  destruct Hc' as [Hc' Ho]. destruct (check_end gs vals) as [ms|] eqn:He; [|done]. injection Hc' as <-. destruct (IH vals ms ltac:(lia) He) as [-> Hi]. split; [done|].
  intros [|i] names opt t' Hg Hv; [injection Hg as <- <- <-; injection Hv as ->; auto|by eapply Hi].
Qed.

Lemma end_full (gs : list fld) : forall ws, length ws = length gs -> check_end gs (Some <$> ws) = inl (zip (fld_name <$> gs) ws).
Proof. induction gs as [|g gs IH]; intros [|w ws] Hl; cbn [length] in Hl; try lia; [done|]. cbn. rewrite IH by lia. by destruct (snd (fst g)). Qed.

Section members.
Context (allow : bool) (fs : list fld) (rows : list row) (depth : Z) (Hlen : length fs = length rows) (Hnames : names_apart fs).
Context (Hfield : forall i names opt t index f x, fs !! i = Some (names, opt, t) -> rows !! i = Some (index, f, x) ->
  field_ok im names opt t f /\ describes im t (field_desc f x) false).

Definition val_ok (i : nat) w : Prop := forall names opt t, fs !! i = Some (names, opt, t) -> check_null max_depth (reread w) opt t (depth + 1) = inl w.

Definition vals_ok (vals : list (option jval)) : Prop := length vals = length fs /\ forall i w, vals !! i = Some (Some w) -> val_ok i w.

Lemma null_formed v opt t dv slot w : forms v -> describes im t dv slot -> check_null max_depth v opt t (depth + 1) = inl w ->
  check_null max_depth (reread w) opt t (depth + 1) = inl w.
Proof.
  intros Hv Hd Hc. assert (Hcase : v = JNull \/ check_null max_depth v opt t (depth + 1) = check max_depth v t (depth + 1)) by (destruct v; auto). destruct Hcase as [-> | He].
  - cbn in Hc. destruct opt; [|done]. by injection Hc as <-.
  - rewrite He in Hc. destruct (Hv t dv slot _ _ Hd Hc) as [Hw Hn]. assert (Hr : reread w <> JNull) by (intros ?%reread_null; done).
    unfold check_null. by destruct (reread w).
Qed.

Lemma members_formed kvs : Forall (fun kv => forms (snd kv)) kvs -> forall vals w, vals_ok vals -> check_members max_depth allow fs depth kvs vals = inl w ->
  exists vals' members, vals_ok vals' /\ check_end fs vals' = inl members /\ w = JObj members.
Proof.
  induction 1 as [|[name v] kvs Hv _ IH]; intros vals w Hok Hc; cbn [check_members snd] in *.
  { destruct (check_end fs vals) as [ms|] eqn:He; [|done]. injection Hc as <-. by exists vals, ms. }
  destruct (field_index fs name) as [i|]; [|destruct allow; [|done]; destruct (_ <=? _); [by eapply IH|done]].
  destruct (fs !! i) as [[[names opt] t]|] eqn:Hi; [|by destruct (vals !! i) as [[]|]].
  assert (Hc' : match check_null max_depth v opt t (depth + 1) with inl w => check_members max_depth allow fs depth kvs (<[i := Some w]> vals) | inr err => inr err end = inl w)
    by (destruct (vals !! i) as [[x|]|]; done).
  destruct (check_null max_depth v opt t (depth + 1)) as [x|] eqn:Hx; [|done]. eapply IH; [|exact Hc']. destruct Hok as [Hl Hvals]. split; [by rewrite length_insert|].
  intros j y Hj. destruct (decide (i = j)) as [<-|Hne]; [|rewrite list_lookup_insert_ne in Hj by done; by apply Hvals].
  rewrite list_lookup_insert_eq in Hj by (rewrite Hl; by eapply lookup_lt_Some). injection Hj as <-. intros names' opt' t' Hi'. rewrite Hi in Hi'. injection Hi' as <- <- <-.
  destruct (lookup_lt_is_Some_2 rows i) as [[[index f] r] Hr]; [rewrite <-Hlen; by eapply lookup_lt_Some|]. eapply null_formed; [exact Hv|by eapply (Hfield i)|exact Hx].
Qed.

(** The members of the form, from the [k]th on. *)
Lemma form_members ws : length ws = length fs -> (forall i w, ws !! i = Some w -> val_ok i w) -> forall n k, (n + k = length fs)%nat ->
  check_members max_depth allow fs depth (map (fun kv => (fst kv, reread (snd kv))) (drop k (zip (fld_name <$> fs) ws))) ((Some <$> take k ws) ++ replicate n None) =
  inl (JObj (zip (fld_name <$> fs) ws)).
Proof.
  intros Hl Hws. induction n as [|n IH]; intros k Hk.
  - rewrite drop_ge by (rewrite length_zip_with_l_eq; rewrite !length_fmap; lia). rewrite take_ge by lia. cbn [map check_members replicate]. rewrite app_nil_r. by rewrite end_full.
  - destruct (lookup_lt_is_Some_2 fs k) as [[[names opt] t] Hf]; [lia|]. destruct (lookup_lt_is_Some_2 ws k) as [w Hw]; [lia|].
    assert (Hz : zip (fld_name <$> fs) ws !! k = Some (fld_name (names, opt, t), w)).
    { apply lookup_zip_with_Some. exists (fld_name (names, opt, t)), w. split_and!; [done| |done]. by rewrite list_lookup_fmap, Hf. }
    rewrite (drop_S _ _ _ Hz). cbn [map check_members fst snd]. destruct (lookup_lt_is_Some_2 rows k) as [[[index f] x] Hr]; [lia|].
    destruct (Hfield _ _ _ _ _ _ _ Hf Hr) as [Hfo _]. destruct (fo_names _ _ _ _ _ Hfo) as (name & rest & -> & _).
    rewrite (Hnames k _ (fld_name (name :: rest, opt, t)) Hf) by (cbn; by apply elem_of_cons; left).
    assert (Hlt : length (Some <$> take k ws) = k) by (rewrite length_fmap, length_take; lia).
    rewrite lookup_app_r by lia. rewrite Hlt, Nat.sub_diag. cbn [replicate lookup list_lookup]. rewrite Hf. rewrite (Hws k w Hw _ _ _ Hf).
    replace (<[k:=Some w]> ((Some <$> take k ws) ++ None :: replicate n None)) with ((Some <$> take (S k) ws) ++ replicate n None); [apply (IH (S k)); lia|].
    rewrite (take_S_r _ _ _ Hw), fmap_app, <-app_assoc. rewrite insert_app_r_alt by lia. by rewrite Hlt, Nat.sub_diag.
Qed.
End members.

Lemma real_formed t bits depth w : t = TF32 \/ t = TF64 -> depth <= max_depth ->
  (match t with TF32 => if f32_finite (narrow_f32 bits) then inl (JReal (widen_f32 (narrow_f32 bits))) else out_of_range | _ => inl (JReal bits) end = inl w) -> formed t depth w.
Proof.
  intros [-> | ->] Hd Hc.
  - destruct (f32_finite (narrow_f32 bits)) eqn:Hf; [|done]. injection Hc as <-. split; [|done]. cbn [reread check json_get_num]. rewrite (proj2 (Z.ltb_ge _ _) Hd). by rewrite Hnarrow, Hf.
  - injection Hc as <-. split; [|done]. cbn [reread check json_get_num]. by rewrite (proj2 (Z.ltb_ge _ _) Hd).
Qed.

Lemma check_forms v : forms v.
Proof.
  induction v as [|b|n|n|bits|s|vs Hvs|kvs Hkvs] using jval_rec; intros t dv slot depth w Hd Hc;
    (destruct (Z.ltb_spec max_depth depth) as [Hlt|Hle]; [by rewrite check_depth in Hc|]); pose proof (proj2 (Z.ltb_ge _ _) Hle) as Hb.
  1-6: destruct t; cbn [check json_get_num] in Hc; rewrite Hb in Hc; try done; try (by eapply int_formed); try (by eapply real_formed; [auto|done|exact Hc]);
    try (injection Hc as <-; split; [cbn [reread check]; by rewrite Hb|done]).
  - destruct t as [| | | | |size allow fs|e]; try (cbn [check json_get_num] in Hc; rewrite Hb in Hc; done). rewrite check_list, Hb in Hc. destruct Hd as (_ & _ & _ & _ & He).
    destruct (items_formed e _ _ depth vs Hvs He [] w Hc) as (ws & -> & Hws). split; [|done]. cbn [reread app]. rewrite check_list, Hb. apply (Hws []).
  - destruct t as [| | | | |size allow fs|e]; try (cbn [check json_get_num] in Hc; rewrite Hb in Hc; done). rewrite check_struct, Hb in Hc.
    destruct Hd as (_ & _ & _ & s & rows & keys & k & _ & _ & _ & _ & _ & _ & _ & _ & _ & _ & Hnames & _ & Hfields).
    destruct (fields_describe im fs rows Hfields) as [Hlen Hfield].
    destruct (members_formed allow fs rows depth Hlen Hfield kvs Hkvs (replicate (length fs) None) w) as (vals & members & [Hl Hvals] & He & ->); [|done|].
    { split; [apply length_replicate|]. intros i x Hi. by apply lookup_replicate in Hi as [? _]. }
    destruct (end_zip fs vals members Hl He) as [-> Hopt]. split; [|done]. cbn [reread]. rewrite check_struct, Hb.
    apply (form_members allow fs rows depth Hlen Hnames Hfield (default JNull <$> vals)) with (k := O); [by rewrite length_fmap| |lia].
    intros i x Hi. apply list_lookup_fmap_Some in Hi as (val & Hx & Hv). subst x. destruct val as [x|]; [by apply Hvals|].
    intros names opt t Hf. by rewrite (Hopt i names opt t Hf Hv).
Qed.
End form.

(** ** The entry *)

(** The answer for a text: what the reader refuses, then what the walk finds. *)
Definition text_answer `{DecodeHost, Yyjson, YyRead} (options : Z) (src : str) (root_array : bool) (t : jty) : jval + Z * Z :=
  if slen src =? 0 then inr (ENC_ERR_INVALID, JSON_ERR_EMPTY)
  else
    match yy_read (read_flags options) src with
    | inr (code, _) => inr (ENC_ERR_INVALID, json_map_read_code code)
    | inl root => root_answer (options >>! 8) root_array root t
    end.

(** A schema of records of type [t], and a reader whose trees hold words and
    texts that are not longer than their source. *)
Record record_schema (im : image) (t : jty) (schema : Z) (s : BeansJsonTypedSchema) : Prop := {
  rs_describes : describes im t (mkDesc TYPED_STRUCT 0 schema 0 0 0) false;
  rs_struct : exists size allow fs, t = TStruct size allow fs;
  rs_found : im_schema im schema = Some s;
  rs_fields : s_fields s <> None;
  rs_size : 0 < s_record_size s < 2 ^ 30
}.

Class YyReadLaws `{YyRead} : Prop := read_tree flags src root : yy_read flags src = inl root -> tree_ok root.

(** The bytes a decode may change. *)
Definition decode_region (s : BeansJsonTypedSchema) (req3 : Z) : Z -> bool :=
  if has_flag (s_flags s) TYPED_ROOT_ARRAY then fun _ => false else range req3 (s_record_size s).

(** An answer of the entry is that of [e]; the rest of the memory is kept. *)
Definition decodes `{Yyjson} (im : image) (s : BeansJsonTypedSchema) (schema req3 : Z) h (e : jval + Z * Z) (a : decode_answer) : Prop :=
  frame h (da_heap a) (decode_region s req3) /\
  match e with
  | inl w => da_status a = ENC_OK /\ da_req7 a = SIZE_MAX /\ da_released a = [] /\ encodes (full im (da_heap a)) s schema (da_req3 a) w /\
      (has_flag (s_flags s) TYPED_ROOT_ARRAY = false -> da_req3 a = req3)
  | inr (status, code) => da_status a = status /\ da_req5 a = code /\ status <> ENC_OK
  end.

(** A run ends with an answer of [P], or in the panic of a refused allocation. *)
Definition ends_in {A} (r : run A) (P : A -> Prop) : Prop :=
  match r with Some (Ok a) => P a | Some (Panic msg _ _) => msg = out_of_memory | None => False end.

Section entry.
Context `{DecodeHost, CHeap, Yyjson, YyRead} (im : image) `{!DecodeHostLaws im, !YyReadLaws}.
Hypothesis Hroom : forall k, yy_room k = true.
Hypothesis Hmalloc : forall n, c_malloc n <> None.
Context (t : jty) (schema : Z) (s : BeansJsonTypedSchema) (Hrec : record_schema im t schema s).

Lemma schema_parts : exists size allow fs, t = TStruct size allow fs /\ schema <> 0 /\ is_Some (s_keys s) /\ s_record_size s = size.
Proof.
  destruct Hrec as [Hd (size & allow & fs & ->) Hs Hf Hz]. exists size, allow, fs. destruct Hd as (_ & _ & Hc & s' & rows & keys & k & Hsch & _ & Hk & _ & _ & _ & _ & Hsz & _).
  cbn [v_child_schema] in *. assert (s' = s) as -> by congruence. split_and!; [done..| |done]. by eexists.
Qed.

(** The end of the walk from the end of the root. *)
Lemma root_decodes (e : jval + Z * Z) req3 h count (r : option (result (Z * Z * decode))) :
  match r with
  | Some (Ok (res, d')) => frame h (dc_heap d') (decode_region s req3) /\
      match e with
      | inl w => fst res = ENC_OK /\ dc_released d' = [] /\ encodes (full im (dc_heap d')) s schema (snd res) w /\
          (has_flag (s_flags s) TYPED_ROOT_ARRAY = false -> snd res = req3)
      | inr (st, code) => fst res = st /\ dc_req5 d' = code /\ 0 < st
      end
  | Some (Panic msg _ _) => msg = out_of_memory
  | None => False
  end ->
  ends_in ('((status, req3), d) ← r;
    Some (Ok (mkDecoded status req3 (dc_req5 d) count (if status =? ENC_OK then SIZE_MAX else dc_req7 d) (dc_heap d) (dc_released d)))) (decodes im s schema req3 h e).
Proof.
  destruct r as [[[[status r3] d']|msg line col]|]; cbn [mbind run_bind]; [|done..]. intros [Hf He]. split; [done|]. cbn [fst snd] in He.
  destruct e as [w|[st code]].
  - destruct He as (-> & Hrel & Henc & Hr3). by split_and!.
  - destruct He as (-> & Hreq & Hpos). split_and!; [done|done|]. unfold ENC_OK. cbn. lia.
Qed.

Lemma walk_decodes nest src options req3 h : (tnest t <= nest)%nat -> mapped h (decode_region s req3) -> apart im h -> 0 <= options < 2 ^ 64 ->
  ends_in (json_typed_decode_walk im nest true true src options schema req3 h)
    (decodes im s schema req3 h (text_answer options src (has_flag (s_flags s) TYPED_ROOT_ARRAY) t)).
Proof.
  intros Hn Hm Ha Ho. destruct schema_parts as (size & allow & fs & -> & Hc & [keys Hk] & Hsz). destruct Hrec as [Hd _ Hs Hf Hz].
  unfold json_typed_decode_walk, text_answer. rewrite (proj2 (Z.eqb_neq schema 0)) by done. rewrite Hs. cbn [must fmap option_fmap option_map mbind run_bind]. rewrite Hk.
  destruct (s_fields s) as [gs|] eqn:Hgs; [|done]. rewrite (proj2 (Z.eqb_neq (s_record_size s) 0)) by lia. cbn [negb orb].
  destruct (slen src =? 0); [split; [apply frame_refl|by split_and!]|].
  destruct (yy_read (read_flags options) src) as [root|[code pos]] eqn:Hr; [|split; [apply frame_refl|by split_and!]].
  pose proof (read_tree _ _ _ Hr) as Hok. assert (Hshr : 0 <= options >>! 8) by (rewrite shr_div by lia; apply Z.div_pos; lia).
  destruct (Z.eqb_spec (options >>! 8) 0) as [He|Hne].
  { unfold root_answer. rewrite He. split; [apply frame_refl|by split_and!]. }
  assert (Hdep : 1 <= options >>! 8) by lia. remember (options >>! 8) as max_depth eqn:Hmd.
  assert (Hshape : match has_flag (s_flags s) TYPED_ROOT_ARRAY, root with true, JArr _ | false, JObj _ => True
    | _, _ => root_answer max_depth (has_flag (s_flags s) TYPED_ROOT_ARRAY) root (TStruct size allow fs) = inr (ENC_ERR_TYPE, TYPED_ERR_ROOT) end).
  { unfold root_answer. rewrite (proj2 (Z.eqb_neq max_depth 0)) by lia. destruct (has_flag _ _), root; try done; cbn [check]; by rewrite (proj2 (Z.ltb_ge _ _) Hdep). }
  assert (Hwalk : forall count, match has_flag (s_flags s) TYPED_ROOT_ARRAY, root with true, JArr _ | false, JObj _ => True | _, _ => False end ->
    ends_in ('((status, req3), d) ← decode_root im true max_depth (Nat.max nest (jheight root)) schema s root req3 (mkDecode h 0 SIZE_MAX []);
      Some (Ok (mkDecoded status req3 (dc_req5 d) count (if status =? ENC_OK then SIZE_MAX else dc_req7 d) (dc_heap d) (dc_released d))))
    (decodes im s schema req3 h (root_answer max_depth (has_flag (s_flags s) TYPED_ROOT_ARRAY) root (TStruct size allow fs)))).
  { intros count Hsh. apply root_decodes. unfold decode_region in *. assert (Hpost : dwp (decode_root im true max_depth (Nat.max nest (jheight root)) schema s root req3) (mkDecode h 0 SIZE_MAX [])
      (root_post im max_depth size allow fs schema s req3 root (mkDecode h 0 SIZE_MAX []))).
    { destruct (has_flag (s_flags s) TYPED_ROOT_ARRAY) eqn:Hra; destruct root; try done.
      - apply (array_ok im max_depth Hroom Hmalloc); try done; lia.
      - apply (single_ok im max_depth Hroom Hmalloc); try done; try lia. cbn. by rewrite <-Hsz. }
    unfold dwp in Hpost. destruct (decode_root _ _ _ _ _ _ _ _ _) as [[[res d']|msg line col]|]; [|done..]. destruct Hpost as (P1 & _ & P2).
    unfold root_region in P1. rewrite Hsz. by split. }
  destruct (has_flag (s_flags s) TYPED_ROOT_ARRAY), root; try (rewrite Hshape; split; [apply frame_refl|by split_and!]); by apply Hwalk.
Qed.

(** The form of an answer is answered again. *)
Lemma answer_stable max_depth ra root w (Hnarrow : forall bits, f32_finite (narrow_f32 bits) = true -> narrow_f32 (widen_f32 (narrow_f32 bits)) = narrow_f32 bits) :
  root_answer max_depth ra root t = inl w -> root_answer max_depth ra (reread w) t = inl w.
Proof.
  destruct Hrec as [Hd (size & allow & fs & He) Hs _ Hz]. unfold root_answer. destruct (max_depth =? 0); [done|]. destruct ra.
  - destruct root as [| | | | | |vs|]; try done. destruct (_ && _) eqn:Hg; [done|]. intros Hc.
    destruct (check_forms im max_depth Hnarrow (JArr vs) (TList t) (mkDesc TYPED_LIST 0 0 TYPED_STRUCT schema (width t)) false 1 w) as [Hw _]; [|done|].
    { destruct schema_parts as (size' & allow' & fs' & He' & _ & _ & Hsz). rewrite He in He'. injection He' as <- <- <-. rewrite He in *. cbn [describes v_kind v_element_size v_element_kind v_element_schema width].
      assert (Hst : json_typed_storage_stride size TYPED_STRUCT = size) by (unfold json_typed_storage_stride; cbn [Z.eqb TYPED_STRUCT Pos.eqb]; unfold i64; dlia).
      rewrite Hst. rewrite (proj2 (Z.ltb_ge size 0)) by lia. refine (conj eq_refl (conj eq_refl (conj _ (conj _ Hd)))); lia. }
    assert (Hl : exists ws, w = JArr ws /\ length ws = length vs).
    { rewrite check_list in Hc. destruct (max_depth <? 1); [done|]. destruct (items_length max_depth t 1 vs [] w Hc) as (ws & -> & Hl). by exists ws. }
    destruct Hl as (ws & -> & Hl). cbn [reread] in *. rewrite length_map, Hl, Hg. exact Hw.
  - intros Hc. by eapply check_forms.
Qed.
End entry.

(** ** Typed decoding *)

(** C25: A typed decode ends.  Whatever the options, the text and the memory, the
    entry [beans_enc_json_typed_decode_direct] answers what the specification
    answers for the text: on success the status is OK and what was decoded - the
    caller's record, or a new list of records - encodes as the checked document;
    on a fault the status and the code are those of the first fault, in document
    order (unknown, repeated and missing names, wrong types, numbers out of range,
    null where none may be, nesting past the limit).  Nothing outside the
    record and new memory changes, every access is inside the memory, and a
    refused allocation is the panic of the runtime.  [record_schema] leaves
    boxed options, defaults, ignored fields and lists of narrow integers or
    bools out (such a list keeps 8-byte slots, see [narrow_list_slot]), and
    yyjson and [malloc], which the parser draws on, do not refuse memory. *)
Theorem json_decode_correct `{DecodeHost, CHeap, Yyjson, YyRead} (im : image) `{!DecodeHostLaws im, !YyReadLaws} (t : jty) (schema : Z) (s : BeansJsonTypedSchema)
    nest publish src options req3 h :
  (forall k, yy_room k = true) -> (forall n, c_malloc n <> None) -> record_schema im t schema s ->
  (tnest t <= nest)%nat -> mapped h (decode_region s req3) -> apart im h -> 0 <= options < 2 ^ 64 ->
  ends_in (enc_json_typed_decode_direct im nest true true publish src options schema req3 h) (fun '(a, probe) =>
    decodes im s schema req3 h (text_answer options src (has_flag (s_flags s) TYPED_ROOT_ARRAY) t) a /\
    probe = (if publish : bool then Some (decode_probe a) else None)).
Proof.
  intros Hroom Hmalloc Hrec Hn Hm Ha Ho. pose proof (walk_decodes im Hroom Hmalloc t schema s Hrec nest src options req3 h Hn Hm Ha Ho) as Hw.
  unfold enc_json_typed_decode_direct. destruct (json_typed_decode_walk _ _ _ _ _ _ _ _ _) as [[a|msg line col]|]; [by split|done..].
Qed.

(** C26: Decoding is the inverse of encoding.  What a decode leaves encodes as a
    tree; a text that reads as this tree, decoded into any other record under the
    same options, is accepted again (or panics for want of memory) and leaves a
    record that encodes as the same tree.  The schemas are those of the theorem
    above, lists of narrow integers and bools excluded, and yyjson and [malloc]
    do not refuse memory. *)
Theorem json_decode_roundtrip `{DecodeHost, CHeap, Yyjson, YyRead} (im : image) `{!DecodeHostLaws im, !YyReadLaws} (t : jty) (schema : Z) (s : BeansJsonTypedSchema)
    nest src options req3 h a :
  (forall k, yy_room k = true) -> (forall n, c_malloc n <> None) ->
  (forall bits, f32_finite (narrow_f32 bits) = true -> narrow_f32 (widen_f32 (narrow_f32 bits)) = narrow_f32 bits) ->
  record_schema im t schema s -> (tnest t <= nest)%nat -> mapped h (decode_region s req3) -> apart im h -> 0 <= options < 2 ^ 64 ->
  json_typed_decode_walk im nest true true src options schema req3 h = Some (Ok a) -> da_status a = ENC_OK ->
  exists w, encodes (full im (da_heap a)) s schema (da_req3 a) w /\
    forall src' req3' h', src' <> [] -> yy_read (read_flags options) src' = inl (reread w) -> mapped h' (decode_region s req3') -> apart im h' ->
      ends_in (json_typed_decode_walk im nest true true src' options schema req3' h') (fun a' =>
        da_status a' = ENC_OK /\ encodes (full im (da_heap a')) s schema (da_req3 a') w /\ frame h' (da_heap a') (decode_region s req3')).
Proof.
  intros Hroom Hmalloc Hnarrow Hrec Hn Hm Ha Ho Hrun Hok. pose proof (walk_decodes im Hroom Hmalloc t schema s Hrec nest src options req3 h Hn Hm Ha Ho) as Hw.
  rewrite Hrun in Hw. destruct Hw as [_ Hw]. unfold text_answer in Hw. destruct (slen src =? 0); [destruct Hw as (? & _ & ?); congruence|].
  destruct (yy_read (read_flags options) src) as [root|[code pos]]; [|destruct Hw as (? & _ & ?); congruence].
  destruct (root_answer _ _ root t) as [w|[st code]] eqn:Hans; [|destruct Hw as (? & _ & ?); congruence]. destruct Hw as (_ & _ & _ & Henc & _). exists w. split; [done|].
  intros src' req3' h' Hne Hrd Hm' Ha'. pose proof (walk_decodes im Hroom Hmalloc t schema s Hrec nest src' options req3' h' Hn Hm' Ha' Ho) as Hw.
  unfold text_answer in Hw. rewrite (proj2 (Z.eqb_neq (slen src') 0)) in Hw by (destruct src'; [done|unfold slen; cbn; lia]). rewrite Hrd in Hw.
  rewrite (answer_stable im t schema s Hrec _ _ _ _ Hnarrow Hans) in Hw. revert Hw. match goal with |- ends_in ?r _ -> _ => destruct r as [[a'|msg line col]|] end; [|done..].
  intros (Hf & Hst & _ & _ & Henc' & _). done.
Qed.

(** ** A host *)

(** A heap that grows at its end; a reader of a few texts; "conversions" that
    keep 32 bits. *)
Definition heap_end h : Z := map_fold (fun a _ top => Z.max (a + 1) top) 10000 h.

Lemma heap_end_above h a : is_Some (h !! a) -> a < heap_end h.
Proof.
  unfold heap_end. intros [b Hb]. revert a b Hb. apply (map_fold_weak_ind (fun top h => forall a b, h !! a = Some b -> a < top)); [by intros a b|].
  intros i x m top Hi IH a b Hb. destruct (decide (i = a)) as [->|Hne]; [lia|]. rewrite lookup_insert_ne in Hb by done. specialize (IH a b Hb). lia.
Qed.

Lemma heap_end_min h : 10000 <= heap_end h.
Proof. unfold heap_end. apply (map_fold_weak_ind (fun top (_ : gmap Z Z) => 10000 <= top)); [done|]. intros. lia. Qed.

(** A block of bytes past the end. *)
Definition with_block h q (bs : str) : gmap Z Z := map_seqZ q bs ∪ h.

Lemma block_lookup h q bs a : heap_end h <= q -> with_block h q bs !! a = if range q (slen bs) a then bs !! Z.to_nat (a - q) else h !! a.
Proof.
  intros Hq. unfold with_block. rewrite lookup_union, lookup_bytes. destruct (range q (slen bs) a) eqn:Hr; [|by rewrite (left_id_L None _)].
  apply range_true in Hr. destruct (h !! a) eqn:Ha; [pose proof (heap_end_above h a ltac:(done)); lia|]. by rewrite (right_id_L None _).
Qed.

Lemma block_new h q bs : heap_end h <= q -> new_region h (with_block h q bs) (range q (slen bs)).
Proof.
  intros Hq a Hr. rewrite block_lookup, Hr by done. apply range_true in Hr. split; [|apply lookup_lt_is_Some_2; unfold slen in Hr; lia].
  destruct (h !! a) eqn:Ha; [|done]. pose proof (heap_end_above h a ltac:(done)). lia.
Qed.

Lemma block_grown im h q bs : (forall a, im_byte im a <> None -> a < 10000) -> heap_end h <= q -> grown im h (with_block h q bs).
Proof.
  intros Hc Hq. split.
  - intros a Ha. rewrite block_lookup by done. destruct (range q (slen bs) a) eqn:Hr; [|done]. apply range_true in Hr. pose proof (heap_end_above h a Ha). lia.
  - intros a Ha Hn. rewrite block_lookup by done. destruct (range q (slen bs) a) eqn:Hr; [|done]. apply range_true in Hr. pose proof (Hc a Ha). pose proof (heap_end_min h). lia.
Qed.

Lemma block_bytes h q pre bs post i b : heap_end h <= q -> bs !! i = Some b -> with_block h q (pre ++ bs ++ post) !! (q + slen pre + Z.of_nat i) = Some b.
Proof.
  intros Hq Hb. rewrite block_lookup by done. pose proof (lookup_lt_Some _ _ _ Hb). rewrite (proj2 (range_true _ _ _)) by (unfold slen; rewrite !length_app; lia).
  replace (Z.to_nat (q + slen pre + Z.of_nat i - q)) with (length pre + i)%nat by (unfold slen; lia). by rewrite lookup_app_r, Nat.add_sub', lookup_app_l by lia.
Qed.

Definition list_block (p count stride : Z) : str :=
  word_bytes (p + 32) ++ word_bytes 0 ++ word_bytes count ++ word_bytes (u64 stride) ++ mem_zero (count * Z.abs stride).

#[local] Instance small_host : DecodeHost := {
  new_list stride _ count h := let p := heap_end h in
    if (p + 32 <? 2 ^ 64) && bool_decide (is_i64 stride) then Some (p, with_block h p (list_block p count stride)) else None;
  allocate _ _ _ := None;
  alloc_bytes size meta h := let p := heap_end h in
    if (p + 8 <? 2 ^ 64) && (0 <=? meta) && (meta <? 2 ^ 64) then Some (p + 8, with_block h p (word_bytes meta ++ mem_zero size)) else None;
  int_to_f64 n := u64 n;
  narrow_f32 bits := u32 bits;
  f32_finite bits := bits <? 2 ^ 31
}.

Lemma word_stored m q (n : Z) : is_u64 n -> (forall i b, word_bytes n !! i = Some b -> im_byte m (q + Z.of_nat i) = Some b) -> rd_le m q 8 = Some n.
Proof. intros Hw Hb. by apply rd_stored. Qed.

(** A word of a block of the heap. *)
Lemma block_word im h q pre n post p : heap_end h <= q -> is_u64 n -> p = q + slen pre -> rd_le (heap_image im (with_block h q (pre ++ word_bytes n ++ post))) p 8 = Some n.
Proof. intros Hq Hn ->. apply word_stored; [done|]. intros i b Hi. cbn. by apply block_bytes. Qed.

Lemma small_host_laws im : (forall a, im_byte im a <> None -> a < 10000) -> DecodeHostLaws im.
Proof.
  intros Hc. split.
  - intros size meta h p h' Hs Ha. cbn in Ha. pose proof (heap_end_min h). destruct (_ && _) eqn:Hg; [|done]. bools. injection Ha as <- <-.
    assert (Hl : slen (word_bytes meta ++ mem_zero size) = 8 + size) by (rewrite slen_app, word_len, mem_zero_len; lia).
    split_and!; [lia|lia|by apply block_grown| |].
    + replace (heap_end h + 8 - 8) with (heap_end h) by lia. rewrite <-Hl. by apply block_new.
    + apply (block_word im h (heap_end h) []); [done|unfold is_u64; lia|change (slen []) with 0; lia].
  - intros stride mask count h p h' Hst Hcount Ha. cbn in Ha. pose proof (heap_end_min h). destruct (_ && _) eqn:Hg; [|done]. injection Ha as <- <-.
    apply andb_true_iff in Hg as [Hg1 Hg2%bool_decide_eq_true]. bools. unfold list_block. set (zs := mem_zero (count * Z.abs stride)). set (q := heap_end h) in *.
    assert (Hzs : slen zs = count * Z.abs stride) by (apply mem_zero_len; nia).
    pose proof (block_new h q (word_bytes (q + 32) ++ word_bytes 0 ++ word_bytes count ++ word_bytes (u64 stride) ++ zs) ltac:(done)) as Hnew.
    rewrite !slen_app, !word_len, Hzs in Hnew.
    split_and!; [lia|lia|by apply block_grown|intros a Hr; apply Hnew, range_true; apply range_true in Hr; nia|].
    exists (q + 32). split_and!.
    + unfold rd_prefix. set (bs := word_bytes (q + 32) ++ _).
      assert (R1 : rd_le (heap_image im (with_block h q bs)) q 8 = Some (q + 32)) by (apply (block_word im h q []); [done|unfold is_u64; lia|change (slen []) with 0; lia]).
      assert (R2 : rd_le (heap_image im (with_block h q bs)) (q + 8) 8 = Some 0) by (by apply (block_word im h q (word_bytes (q + 32)))).
      assert (R3 : rd_le (heap_image im (with_block h q bs)) (q + 24) 8 = Some (u64 stride)) by (apply (block_word im h q (word_bytes (q + 32) ++ word_bytes 0 ++ word_bytes count)); [done|apply u64_is|done]).
      rewrite R1, R2, R3. cbn [mbind option_bind].
      do 2 f_equal. clear -Hg2. unfold is_i64, i64, u64 in *. dlia.
    + intros a Hr. apply Hnew, range_true. apply range_true in Hr. lia.
    + intros a Hr. apply not_true_iff_false. rewrite range_true in *. lia.
  - intros bits Hf. cbn in *. unfold u32. dlia.
  - intros n. apply u64_is.
Qed.

#[local] Instance small_heap : CHeap := { c_malloc n := Some (mem_zero n); c_calloc _ _ := true; c_realloc p n := Some (p ++ mem_zero (n - slen p)) }.
#[local] Instance small_yy : Yyjson := { yy_doc := true; yy_room _ := true; yy_write _ _ := inr 7; widen_f32 x := x }.

(** ** A schema *)

(** [{"id" or "ident": i32, "tag": string?, "xs": [i64], "at": {"on": bool, "x": f32?}}], unknown names allowed outside. *)
Definition at_type : jty := TStruct 8 false [([lit "on"], false, TBool); ([lit "x"], true, TF32)].
Definition item_type : jty := TStruct 32 true
  [([lit "id"; lit "ident"], false, TInt false 32); ([lit "tag"], true, TStr); ([lit "xs"], false, TList (TInt false 64)); ([lit "at"], false, at_type)].

Definition no_complex : BeansJsonTypedComplex := mkComplex 0 0 0 0 0 0 0 0 0.
Definition no_key : BeansJsonTypedKey := mkKey 0 0 0.
Definition at_keys : list BeansJsonTypedKey := [mkKey 160 1 2; mkKey 150 2 1; no_key; no_key].
Definition at_schema : BeansJsonTypedSchema := mkSchema 2 3 0 (Some at_keys)
  (Some [mkField TYPED_BOOL 0 0 SIZE_MAX 150 2; mkField TYPED_F32 TYPED_OPTIONAL 4 1 160 1]) 8 0 (Some [no_complex; no_complex]).
Definition item_keys : list BeansJsonTypedKey := [no_key; no_key; no_key; mkKey 130 2 3; mkKey 110 5 1; mkKey 100 2 1; mkKey 120 3 2; mkKey 140 2 4].
Definition item_schema_of (flags : Z) : BeansJsonTypedSchema := mkSchema 4 7 flags (Some item_keys)
  (Some [mkField TYPED_SINT 8192 0 SIZE_MAX 100 2; mkField TYPED_STRING TYPED_OPTIONAL 8 SIZE_MAX 120 3; mkField TYPED_LIST 0 16 SIZE_MAX 130 2; mkField TYPED_STRUCT 0 24 SIZE_MAX 140 2]) 32 0
  (Some [no_complex; no_complex; mkComplex 0 TYPED_SINT 0 8 0 0 0 0 0; mkComplex 2 0 0 0 0 0 0 0 0]).

Definition decode_constants : list (Z * str) := [(100, lit "id"); (110, lit "ident"); (120, lit "tag"); (130, lit "xs"); (140, lit "at"); (150, lit "on"); (160, lit "x")].
Definition decode_image : image := mkImage
  (fun a => foldr (fun '(p, bs) rest => if range p (slen bs) a then bs !! Z.to_nat (a - p) else rest) None decode_constants)
  (fun p => if p =? 1 then Some (item_schema_of TYPED_ALLOW_UNKNOWN) else if p =? 2 then Some at_schema
            else if p =? 3 then Some (item_schema_of (TYPED_ALLOW_UNKNOWN |! TYPED_ROOT_ARRAY)) else None).

(** ** A document *)

Definition quoted (text : str) : str := [34] ++ text ++ [34].

Definition doc_text : str := [123] ++ quoted (lit "xs") ++ lit ":[3,-4]," ++ quoted (lit "ident") ++ lit ":-7," ++ quoted (lit "more") ++ lit ":[null]," ++
  quoted (lit "at") ++ lit ":" ++ [123] ++ quoted (lit "on") ++ lit ":true" ++ [125; 125].
Definition doc_tree : jval := JObj [(lit "xs", JArr [JUint 3; JSint (-4)]); (lit "ident", JSint (-7)); (lit "more", JArr [JNull]); (lit "at", JObj [(lit "on", JBool true)])].
Definition doc_form : jval := JObj [(lit "id", JSint (-7)); (lit "tag", JNull); (lit "xs", JArr [JSint 3; JSint (-4)]);
  (lit "at", JObj [(lit "on", JBool true); (lit "x", JNull)])].
Definition form_text : str := [123] ++ quoted (lit "id") ++ lit ":-7," ++ quoted (lit "tag") ++ lit ":null," ++ quoted (lit "xs") ++ lit ":[3,-4]," ++
  quoted (lit "at") ++ lit ":" ++ [123] ++ quoted (lit "on") ++ lit ":true," ++ quoted (lit "x") ++ lit ":null" ++ [125; 125].

(** A reader of these two texts. *)
#[local] Instance small_read : YyRead := fun _ src =>
  if bool_decide (src = doc_text) then inl doc_tree else if bool_decide (src = form_text) then inl (reread doc_form) else inr (6, 0).

Definition item_memory (p : Z) : gmap Z Z := map_seqZ p (replicate 32 7).

(** Decode a text into the record at [p], then encode what is there. *)
Definition decode_tree (src : str) (p : Z) : option (Z * Z * option jval) :=
  match enc_json_typed_decode_direct decode_image 2 true true true src 1024 1 p (item_memory p) with
  | Some (Ok (a, _)) => Some (da_status a, da_req7 a,
      match dom_root (full decode_image (da_heap a)) 9 (header_len (full decode_image (da_heap a))) 1 (da_req3 a) (item_schema_of TYPED_ALLOW_UNKNOWN) (mkEnc 0 0) with
      | Some (v, _) => v | None => None end)
  | _ => None
  end.

Example decode_doc : decode_tree doc_text 5000 = Some (ENC_OK, SIZE_MAX, Some doc_form) /\ decode_tree form_text 6000 = Some (ENC_OK, SIZE_MAX, Some doc_form).
Proof. by vm_compute. Qed.

(** A list of 4-byte integers has 8-byte slots; an item fills the low half of
    its slot, so [-1] is read back as [2^32 - 1]. *)
Definition narrow_schema : BeansJsonTypedSchema := mkSchema 1 0 0 (Some [mkKey 130 2 1]) (Some [mkField TYPED_LIST 0 0 SIZE_MAX 130 2]) 8 0
  (Some [mkComplex 0 TYPED_SINT 0 4 0 0 0 0 0]).

Example narrow_list_slot : match json_typed_value_direct decode_image true 4 3 (field_desc (mkField TYPED_LIST 0 0 SIZE_MAX 130 2) (Some (mkComplex 0 TYPED_SINT 0 4 0 0 0 0 0)))
    0 (JArr [JSint (-1)]) 5000 1 (mkDecode (item_memory 5000) 0 0 []) with
  | Some (Ok (0, d)) => fst <$> typed_encode_value (full decode_image (dc_heap d)) (header_len (full decode_image (dc_heap d))) 3
      (field_desc (mkField TYPED_LIST 0 0 SIZE_MAX 130 2) (Some (mkComplex 0 TYPED_SINT 0 4 0 0 0 0 0))) 5000 false (mkEnc 0 0)
  | _ => None
  end = Some (Some (JArr [JSint 4294967295])).
Proof. by vm_compute. Qed.

(** ** The schema is that of its type *)

Lemma field_bytes_iff f t a : field_bytes f t a = true <-> f_value_offset f <= a < f_value_offset f + width t \/ (f_presence_offset f <> SIZE_MAX /\ a = f_presence_offset f).
Proof. unfold field_bytes. rewrite orb_true_iff, range_true, andb_true_iff, negb_true_iff, Z.eqb_neq, Z.eqb_eq. done. Qed.

(** A test that a key table is right. *)
Definition key_okb (im : image) (keys : list BeansJsonTypedKey) (k : Z) (fs : list fld) (j : nat) (key : BeansJsonTypedKey) : bool :=
  (k_field key =? 0) ||
  match rd im (k_name key) (k_len key) with
  | Some name =>
      let home := json_typed_key_hash name (2 ^ k - 1) in
      (slen name =? k_len key) && (1 <=? k_field key) && bool_decide (field_index fs name = Some (Z.to_nat (k_field key - 1))) &&
      forallb (fun i => match keys !! Z.to_nat ((home + i) mod 2 ^ k) with Some key' => negb (k_field key' =? 0) | None => false end)
        (seqZ 0 ((Z.of_nat j - home) mod 2 ^ k))
  | None => false
  end.

Definition table_okb (im : image) (keys : list BeansJsonTypedKey) (k : Z) (fs : list fld) : bool :=
  (0 <=? k) && (k <=? 32) && (Z.of_nat (length keys) =? 2 ^ k) &&
  forallb (fun '(j, key) => key_okb im keys k fs j key) (imap pair keys) &&
  forallb (fun f : fld => forallb (fun name => existsb (fun key => negb (k_field key =? 0) && bool_decide (rd im (k_name key) (k_len key) = Some name)) keys) (fst (fst f))) fs.

Lemma table_okb_ok im keys k fs : table_okb im keys k fs = true -> table_ok im keys k (field_index fs).
Proof.
  unfold table_okb. rewrite !andb_true_iff, !forallb_forall. intros [[[[Hk1 Hk2] Hlen] Hlive] Hfull]. bools. split; [done|..].
  - intros j key Hkey Hj Hf. assert (Hin : In (Z.to_nat j, key) (imap pair keys)).
    { apply list_elem_of_In, list_elem_of_lookup. exists (Z.to_nat j). by rewrite list_lookup_imap, Hkey. }
    specialize (Hlive _ Hin). cbn in Hlive. unfold key_okb in Hlive. rewrite (proj2 (Z.eqb_neq _ _) Hf) in Hlive. cbn [orb] in Hlive.
    destruct (rd im (k_name key) (k_len key)) as [name|]; [|done]. rewrite !andb_true_iff, forallb_forall in Hlive. destruct Hlive as [[[Hl H1] Hi%bool_decide_eq_true] Hrun]. bools.
    exists name. split_and!; [done..|]. intros i Hi'. specialize (Hrun i). rewrite Z2Nat.id in Hrun by done.
    specialize (Hrun ltac:(apply list_elem_of_In, elem_of_seqZ; lia)). destruct (keys !! _) as [key'|]; [|done]. exists key'. split; [done|]. by apply negb_true_iff, Z.eqb_neq in Hrun.
  - intros name i Hi. unfold field_index in Hi. destruct (list_find _ fs) as [[j f]|] eqn:He; [|done]. apply list_find_Some in He as (Hf & Hn & _).
    specialize (Hfull f ltac:(apply list_elem_of_In; by eapply list_elem_of_lookup_2)). rewrite forallb_forall in Hfull. specialize (Hfull name ltac:(by apply list_elem_of_In)).
    apply existsb_exists in Hfull as (key & Hin & Hkk). apply andb_true_iff in Hkk as [Hne Hrd%bool_decide_eq_true]. apply list_elem_of_In, list_elem_of_lookup in Hin as [j' Hj'].
    exists (Z.of_nat j'), key. rewrite Nat2Z.id. split_and!; [lia|done| |done]. by apply negb_true_iff, Z.eqb_neq in Hne.
Qed.

Definition names_apartb (fs : list fld) : bool := forallb (fun '(i, f) => forallb (fun name => bool_decide (field_index fs name = Some i)) (fst (fst f))) (imap pair (fs : list fld)).

Lemma names_apartb_ok fs : names_apartb fs = true -> names_apart fs.
Proof.
  unfold names_apartb. rewrite forallb_forall. intros Ha i f name Hf Hn. assert (Hin : In (i, f) (imap pair fs)) by (apply list_elem_of_In, list_elem_of_lookup; exists i; by rewrite list_lookup_imap, Hf).
  specialize (Ha _ Hin). cbn in Ha. rewrite forallb_forall in Ha. specialize (Ha name ltac:(by apply list_elem_of_In)). by apply bool_decide_eq_true in Ha.
Qed.

(** Fields one after the other do not overlap. *)
Fixpoint layoutb (at_ size : Z) (fs : list fld) (rows : list row) : bool :=
  match fs, rows with
  | (_, _, t) :: fs, (_, f, _) :: rows =>
      let low := if f_presence_offset f =? SIZE_MAX then f_value_offset f else Z.min (f_value_offset f) (f_presence_offset f) in
      let high := if f_presence_offset f =? SIZE_MAX then f_value_offset f + width t else Z.max (f_value_offset f + width t) (f_presence_offset f + 1) in
      (at_ <=? low) && (low <=? high) && (high <=? size) && layoutb high size fs rows
  | _, _ => true
  end.

Lemma layoutb_bounds fs : forall at_ size rows, layoutb at_ size fs rows = true -> forall i names opt t index f x, fs !! i = Some (names, opt, t) -> rows !! i = Some (index, f, x) ->
  forall a, field_bytes f t a = true -> at_ <= a < size.
Proof.
  induction fs as [|[[ns o] t'] fs IH]; intros at_ size [|[[ix g] y] rows] Hl [|i] names opt t index f x Hf Hr a Ha; try done; cbn [layoutb] in Hl; rewrite !andb_true_iff in Hl; destruct Hl as [[[H1 H2] H3] Hl].
  - injection Hf as -> -> ->. injection Hr as -> -> ->. apply field_bytes_iff in Ha. revert H1 H2 H3. destruct (Z.eqb_spec (f_presence_offset f) SIZE_MAX); rewrite !Z.leb_le; lia.
  - specialize (IH _ _ _ Hl i _ _ _ _ _ _ Hf Hr a Ha). revert H1 H2 H3 IH. destruct (f_presence_offset g =? SIZE_MAX); rewrite !Z.leb_le; lia.
Qed.

Lemma layoutb_ok fs : forall at_ size rows, 0 <= at_ -> layoutb at_ size fs rows = true -> layout_ok size fs rows.
Proof.
  induction fs as [|[[ns o] t'] fs IH]; intros at_ size rows Hat Hl i names opt t index f x Hf Hr; [done|]. split.
  { intros a Ha. pose proof (layoutb_bounds _ _ _ _ Hl i _ _ _ _ _ _ Hf Hr a Ha). lia. }
  destruct rows as [|[[ix g] y] rows]; [done|]. cbn [layoutb] in Hl. rewrite !andb_true_iff in Hl. destruct Hl as [[[H1 H2] H3] Hl].
  set (high := if f_presence_offset g =? SIZE_MAX then f_value_offset g + width t' else Z.max (f_value_offset g + width t') (f_presence_offset g + 1)) in *.
  assert (Hhead : forall a, field_bytes g t' a = true -> a < high).
  { intros a Ha. apply field_bytes_iff in Ha. unfold high. destruct (Z.eqb_spec (f_presence_offset g) SIZE_MAX); lia. }
  assert (Hlow : 0 <= high) by (clearbody high; revert H1 H2; destruct (f_presence_offset g =? SIZE_MAX); rewrite !Z.leb_le; lia).
  intros j names' opt' t'' index' f' x' Hf' Hr' Hij a Ha. apply not_true_iff_false. intros Ha'. destruct i as [|i], j as [|j]; try done.
  - injection Hf as -> -> ->. injection Hr as -> -> ->. pose proof (layoutb_bounds _ _ _ _ Hl j _ _ _ _ _ _ Hf' Hr' a Ha'). specialize (Hhead a Ha). lia.
  - injection Hf' as -> -> ->. injection Hr' as -> -> ->. pose proof (layoutb_bounds _ _ _ _ Hl i _ _ _ _ _ _ Hf Hr a Ha). specialize (Hhead a Ha'). lia.
  - destruct (IH high size rows Hlow Hl i _ _ _ _ _ _ Hf Hr) as [_ Hapart]. rewrite (Hapart j _ _ _ _ _ _ Hf' Hr' ltac:(lia) a Ha) in Ha'. done.
Qed.

Definition field_okb (im : image) (names : list str) (opt : bool) (t : jty) (f : BeansJsonTypedField) : bool :=
  match names with
  | name :: _ => bool_decide (rd im (f_primary_name f) (f_primary_name_len f) = Some name) && (f_primary_name_len f =? slen name)
  | [] => false
  end && negb (ignored f) && negb (has_flag (f_flags f) TYPED_BOXED_OPTION) && Bool.eqb (has_flag (f_flags f) TYPED_OPTIONAL) opt && Bool.eqb (may_miss f) opt &&
  (if opt then negb (f_presence_offset f =? SIZE_MAX) || nullable t else f_presence_offset f =? SIZE_MAX) &&
  ((f_presence_offset f =? SIZE_MAX) || negb (range (f_value_offset f) (width t) (f_presence_offset f))).

Lemma field_okb_ok im names opt t f : field_okb im names opt t f = true -> field_ok im names opt t f.
Proof.
  unfold field_okb. rewrite !andb_true_iff. intros [[[[[[Hn Hi] Hb] Ho] Hm] Hp] Ha]. apply eqb_prop in Ho, Hm. apply negb_true_iff in Hi, Hb. split; try done.
  - destruct names as [|name rest]; [done|]. apply andb_true_iff in Hn as [Hr%bool_decide_eq_true Hl]. bools. by exists name, rest.
  - destruct opt; [|by apply Z.eqb_eq]. apply orb_true_iff in Hp as [Hp|Hp]; [left; by apply negb_true_iff, Z.eqb_neq in Hp|by right].
  - intros Hne. apply orb_true_iff in Ha as [Ha|Ha]; [bools; done|]. by apply negb_true_iff in Ha.
Qed.

Lemma at_describes : describes decode_image at_type (mkDesc TYPED_STRUCT 0 2 0 0 0) false.
Proof.
  split; [done|]. split; [done|]. split; [done|]. exists at_schema, (default [] (schema_rows at_schema)), at_keys, 2. do 4 (split; [done|]).
  split; [apply table_okb_ok; by vm_compute|]. do 2 (split; [done|]). split; [done|]. split; [lia|]. split; [done|]. split; [apply names_apartb_ok; by vm_compute|].
  split; [refine (layoutb_ok _ 0 _ _ _ _); by vm_compute|].
  split; [apply field_okb_ok; by vm_compute|]. split; [done|]. split; [apply field_okb_ok; by vm_compute|]. by split.
Qed.

Lemma item_describes flags schema : has_flag flags TYPED_ALLOW_UNKNOWN = true -> has_flag flags TYPED_HAS_MISSING = false -> schema <> 0 -> im_schema decode_image schema = Some (item_schema_of flags) ->
  describes decode_image item_type (mkDesc TYPED_STRUCT 0 schema 0 0 0) false.
Proof.
  intros Ha Hm Hc Hs. split; [done|]. split; [done|]. split; [done|]. exists (item_schema_of flags), (default [] (schema_rows (item_schema_of 0))), item_keys, 3. split; [done|]. do 3 (split; [done|]).
  split; [apply table_okb_ok; by vm_compute|]. do 2 (split; [done|]). split; [done|]. split; [lia|]. split; [done|]. split; [apply names_apartb_ok; by vm_compute|].
  split; [refine (layoutb_ok _ 0 _ _ _ _); by vm_compute|].
  split; [apply field_okb_ok; by vm_compute|]. split; [split_and!; [done|done|by rewrite !elem_of_cons; auto|done]|].
  split; [apply field_okb_ok; by vm_compute|]. split; [done|].
  split; [apply field_okb_ok; by vm_compute|]. split.
  { refine (conj eq_refl (conj eq_refl (conj _ (conj eq_refl _)))); [by vm_compute|]. split_and!; [done|done|by rewrite !elem_of_cons; auto|done]. }
  split; [apply field_okb_ok; by vm_compute|]. split; [exact at_describes|done].
Qed.

Lemma item_record : record_schema decode_image item_type 1 (item_schema_of TYPED_ALLOW_UNKNOWN).
Proof. split; [by apply (item_describes TYPED_ALLOW_UNKNOWN)|by eexists _, _, _|done|done|done]. Qed.

Lemma decode_constants_low a : im_byte decode_image a <> None -> 100 <= a < 10000.
Proof.
  cbn [im_byte decode_image]. unfold decode_constants. cbn [foldr].
  repeat match goal with |- context [range ?p (slen ?bs) a] => destruct (range p (slen bs) a) eqn:?E; [apply range_true in E; change (slen bs) with (Z.of_nat (length bs)) in E; cbn in E; lia|clear E] end. done.
Qed.

Lemma item_apart p : 10000 <= p -> apart decode_image (item_memory p).
Proof.
  intros Hp a Ha. apply decode_constants_low in Ha. unfold item_memory. rewrite lookup_bytes. destruct (range _ _ a) eqn:Hr; [|done]. apply range_true in Hr. lia.
Qed.

Lemma item_mapped p : mapped (item_memory p) (decode_region (item_schema_of TYPED_ALLOW_UNKNOWN) p).
Proof.
  intros a Ha. change (decode_region _ p) with (range p 32) in Ha. unfold item_memory. rewrite lookup_bytes. change (slen (replicate 32 7)) with 32. rewrite Ha.
  apply range_true in Ha. rewrite lookup_replicate_2 by lia. done.
Qed.

Lemma small_read_laws : YyReadLaws.
Proof.
  intros flags src root. unfold yy_read, small_read. destruct (bool_decide _); [intros [= <-]; cbn; lia|]. destruct (bool_decide _); [intros [= <-]; cbn; lia|done].
Qed.

Lemma doc_answer : text_answer 1024 doc_text (has_flag (s_flags (item_schema_of TYPED_ALLOW_UNKNOWN)) TYPED_ROOT_ARRAY) item_type = inl doc_form.
Proof. by vm_compute. Qed.

Lemma json_decode_witness : tree_ok doc_tree /\ ends_in (enc_json_typed_decode_direct decode_image 2 true true true doc_text 1024 1 20000 (item_memory 20000)) (fun '(a, probe) =>
    decodes decode_image (item_schema_of TYPED_ALLOW_UNKNOWN) 1 20000 (item_memory 20000) (inl doc_form) a /\ probe = Some (decode_probe a)).
Proof.
  split; [cbn; lia|]. pose proof (small_host_laws decode_image (fun a Ha => proj2 (decode_constants_low a Ha))) as Hl. pose proof small_read_laws as Hr. rewrite <-doc_answer.
  refine (json_decode_correct decode_image item_type 1 (item_schema_of TYPED_ALLOW_UNKNOWN) 2 true doc_text 1024 20000 (item_memory 20000) _ _ item_record _ (item_mapped 20000) _ _);
    [done|done|cbn; lia|by apply item_apart|lia].
Defined.

(** What a record encodes as is determined. *)
Lemma dom_root_keeps `{Yyjson} m fuel fuel' s schema root : (fuel <= fuel')%nat -> keeps (dom_root m fuel (header_len m) schema root s) (dom_root m fuel' (header_len m) schema root s).
Proof.
  intros Hf. unfold dom_root. assert (Hv : forall dv p slot, keeps (typed_encode_value m (header_len m) fuel dv p slot) (typed_encode_value m (header_len m) fuel' dv p slot))
    by (intros; apply encode_mono; [apply ext_refl|done]).
  destruct (has_flag _ _); [by apply (keeps_list m m (ext_refl m))|by apply (keeps_object m m (ext_refl m))].
Qed.

Lemma encodes_unique `{Yyjson} m s schema root w w' : encodes m s schema root w -> encodes m s schema root w' -> w = w'.
Proof.
  intros [f1 H1] [f2 H2]. destruct (H1 (mkEnc 0 0)) as [c1 E1]. destruct (H2 (mkEnc 0 0)) as [c2 E2].
  apply (dom_root_keeps m f1 (Nat.max f1 f2)) in E1; [|lia]. apply (dom_root_keeps m f2 (Nat.max f1 f2)) in E2; [|lia]. congruence.
Qed.

Definition doc_run : decode_answer :=
  match json_typed_decode_walk decode_image 2 true true doc_text 1024 1 20000 (item_memory 20000) with
  | Some (Ok a) => a
  | _ => mkDecoded 0 0 0 0 0 ∅ []
  end.

Lemma doc_run_eq : json_typed_decode_walk decode_image 2 true true doc_text 1024 1 20000 (item_memory 20000) = Some (Ok doc_run).
Proof. by vm_compute. Qed.

Lemma doc_run_ok : da_status doc_run = ENC_OK.
Proof. by vm_compute. Qed.

Lemma doc_run_form : encodes (full decode_image (da_heap doc_run)) (item_schema_of TYPED_ALLOW_UNKNOWN) 1 (da_req3 doc_run) doc_form.
Proof.
  pose proof (small_host_laws decode_image (fun a Ha => proj2 (decode_constants_low a Ha))) as Hl. pose proof small_read_laws as Hr.
  pose proof (walk_decodes decode_image ltac:(done) ltac:(done) item_type 1 _ item_record 2 doc_text 1024 20000 _ ltac:(cbn; lia) (item_mapped 20000) (item_apart 20000 ltac:(lia)) ltac:(lia)) as Hw.
  rewrite doc_run_eq, doc_answer in Hw. destruct Hw as (_ & _ & _ & _ & Henc & _). exact Henc.
Qed.

Lemma json_roundtrip_witness : ends_in (json_typed_decode_walk decode_image 2 true true form_text 1024 1 30000 (item_memory 30000)) (fun a' =>
    da_status a' = ENC_OK /\ encodes (full decode_image (da_heap a')) (item_schema_of TYPED_ALLOW_UNKNOWN) 1 (da_req3 a') doc_form /\
    frame (item_memory 30000) (da_heap a') (decode_region (item_schema_of TYPED_ALLOW_UNKNOWN) 30000)).
Proof.
  pose proof (small_host_laws decode_image (fun a Ha => proj2 (decode_constants_low a Ha))) as Hl. pose proof small_read_laws as Hr.
  destruct (json_decode_roundtrip decode_image item_type 1 (item_schema_of TYPED_ALLOW_UNKNOWN) 2 doc_text 1024 20000 (item_memory 20000) doc_run
    ltac:(done) ltac:(done) ltac:(intros bits _; cbn; unfold u32; dlia) item_record ltac:(cbn; lia) (item_mapped 20000) (item_apart 20000 ltac:(lia)) ltac:(lia) doc_run_eq doc_run_ok)
    as (w & Henc & Hback).
  rewrite (encodes_unique _ _ _ _ _ _ Henc doc_run_form) in Hback. apply (Hback form_text 30000 (item_memory 30000)); [done| |apply item_mapped|apply item_apart; lia].
  by vm_compute.
Defined.
