(* ===== verification/Reflect.v ===== *)
(** * Reflect: the reflection registry

    [runtime/beans_rt.c], the reflection metadata.  The compiler registers a
    row per emitted type and member before [main]; afterwards the registry is
    only read.  Names resolve through open-addressing indexes that yield the
    smallest matching row, and members hang off their owner in attach lists;
    when a member came before its owner an orphan flag sends the queries back
    to linear scans.  The statics of the C file are four records, one per
    group of tables that is read together: [registry] (types, interfaces,
    fields, methods and the parameters of both), [functions], [variants] and
    [annotations].

    A [NULL] base is [None]; a function pointer is its address, 0 for [NULL].
    A table is its rows and its capacity.  [None] of a function stands for a
    read outside a table, a write outside a buffer, or a probe or recursion
    that does not end; a refused allocation, which panics, is left out. *)

From S2P Require Import Prelude Str Hash Slots.

Open Scope c_scope.

(** ** Names *)

Definition ch_lt : Z := 60.
Definition ch_gt : Z := 62.
Definition ch_comma : Z := 44.
Definition ch_space : Z := 32.

Fixpoint base_loop (s : str) : nat :=
  match s with [] => O | c :: s => if c =? ch_lt then O else S (base_loop s) end.

Definition reflect_base_length (name : str) : Z := Z.of_nat (base_loop name).

Definition reflect_base_equal (left right : str) : bool :=
  let left_len := reflect_base_length left in
  let right_len := reflect_base_length right in
  (left_len =? right_len) && (memcmp (sub_str left 0 left_len) (sub_str right 0 left_len) =? 0).

Definition reflect_is (s text : str) : bool := (slen s =? slen text) && (memcmp s text =? 0).

Definition alias_pairs : list (str * str) :=
  [(lit "f64", lit "float"); (lit "i64", lit "int"); (lit "byte", lit "u8")].

Definition reflect_scalar_alias (a b : str) : bool :=
  existsb (fun p => (reflect_is a p.1 && reflect_is b p.2) || (reflect_is a p.2 && reflect_is b p.1)) alias_pairs.

Definition reflect_name_assignable (wanted actual : str) : bool :=
  if beans_str_eq wanted actual then true
  else if reflect_scalar_alias wanted actual then true
  else
    let wanted_len := slen wanted in
    if negb (reflect_base_length wanted =? wanted_len) then false
    else (reflect_base_length actual =? wanted_len) && (memcmp wanted (sub_str actual 0 wanted_len) =? 0).

(** [init] and [deinit]. *)
Definition reflect_special_method (name : str) : bool := reflect_is name (lit "init") || reflect_is name (lit "deinit").

(** *** Type arguments *)

(** The count over [name[start .. length - 2]]. *)
Fixpoint count_loop (s : str) (depth count : Z) : Z :=
  match s with
  | [] => count
  | c :: s =>
      if c =? ch_lt then count_loop s (depth + 1) count
      else if c =? ch_gt then count_loop s (depth - 1) count
      else if (c =? ch_comma) && (depth =? 0) then count_loop s depth (count + 1)
      else count_loop s depth count
  end.

(** [start]: behind the first [<]; -1 without one. *)
Definition args_start (name : str) : Z :=
  let at_ := reflect_base_length name in if at_ <? slen name then at_ + 1 else -1.

(** [name[length - 1]]. *)
Definition closes (name : str) : bool := negb (slen name =? 0) && (c_at name (length name - 1) =? ch_gt).

Definition beans_reflect_type_argument_count (name : str) : Z :=
  let length := slen name in
  let start := args_start name in
  if (start <? 0) || negb (closes name) then 0
  else
    let count := count_loop (sub_str name start (length - 1 - start)) 0 1 in
    if start =? length - 1 then 0 else count.

Fixpoint skip_spaces (s : str) : str :=
  match s with c :: s' => if c =? ch_space then skip_spaces s' else s | [] => [] end.
(** The piece without the spaces around it. *)
Definition trim (s : str) : str := rev (skip_spaces (rev (skip_spaces s))).

(** [s]: what is left of the name from [i] on, the last byte the boundary;
    [piece]: [name[from .. i - 1]], last byte first. *)
Fixpoint argument_loop (s piece : str) (depth current wanted : Z) : str :=
  match s with
  | [] => []
  | [_] => if current =? wanted then trim (rev piece) else []
  | c :: s =>
      if c =? ch_lt then argument_loop s (c :: piece) (depth + 1) current wanted
      else if c =? ch_gt then argument_loop s (c :: piece) (depth - 1) current wanted
      else if (c =? ch_comma) && (depth =? 0) then
        if current =? wanted then trim (rev piece) else argument_loop s [] depth (current + 1) wanted
      else argument_loop s (c :: piece) depth current wanted
  end.

Definition beans_reflect_type_argument_at (name : str) (wanted : Z) : str :=
  let start := args_start name in
  if (start <? 0) || (wanted <? 0) || negb (closes name) then []
  else argument_loop (drop (Z.to_nat start) name) [] 0 0 wanted.

(** ** Tables *)

Record table (A : Type) : Type := mkTable { t_rows : list A; t_cap : Z }.
Arguments mkTable {A}.
Arguments t_rows {A}.
Arguments t_cap {A}.

Definition no_rows {A} : table A := mkTable [] 0.
Definition t_len {A} (t : table A) : Z := Z.of_nat (length (t_rows t)).

(** The capacity [reflect_grow] leaves. *)
Definition reflect_grow (capacity count : Z) : Z :=
  if count <? capacity then capacity
  else
    let next := if capacity =? 0 then 32 else capacity * 2 in
    if next <=? count then count + 1 else next.

Definition table_push {A} (t : table A) (x : A) : table A :=
  mkTable (t_rows t ++ [x]) (reflect_grow (t_cap t) (t_len t)).

Definition row {A} (t : table A) (id : Z) : option A := if id <? 0 then None else t_rows t !! Z.to_nat id.
Definition set_row {A} (t : table A) (id : Z) (x : A) : table A := mkTable (<[Z.to_nat id := x]> (t_rows t)) (t_cap t).

(** The id list of an owner. *)
Record BReflectIdListHead : Type := mkIds { l_ids : list Z; l_cap : Z }.
Definition no_ids : BReflectIdListHead := mkIds [] 0.
Definition l_len (l : BReflectIdListHead) : Z := slen (l_ids l).
Definition reflect_id_push (l : BReflectIdListHead) (id : Z) : BReflectIdListHead :=
  mkIds (l_ids l ++ [id]) (if l_cap l <=? l_len l then if l_cap l =? 0 then 4 else l_cap l * 2 else l_cap l).

(** ** Scans

    [scan_rows p l wanted]: the id of the [wanted]-th row with [p], or -1,
    and the rows counted so far. *)
Fixpoint scan_loop {A} (p : A -> bool) (l : list A) (i current wanted : Z) : Z * Z :=
  match l with
  | [] => (-1, current)
  | x :: l =>
      if p x then if current =? wanted then (i, current + 1) else scan_loop p l (i + 1) (current + 1) wanted
      else scan_loop p l (i + 1) current wanted
  end.
Definition scan_rows {A} (p : A -> bool) (t : table A) (wanted : Z) : Z * Z := scan_loop p (t_rows t) 0 0 wanted.

Fixpoint count_rows {A} (p : A -> bool) (l : list A) : Z :=
  match l with [] => 0 | x :: l => if p x then 1 + count_rows p l else count_rows p l end.

(** The first row with [p], or -1. *)
Fixpoint first_loop {A} (p : A -> bool) (l : list A) (i : Z) : Z :=
  match l with [] => -1 | x :: l => if p x then i else first_loop p l (i + 1) end.
Definition first_row {A} (p : A -> bool) (t : table A) : Z := first_loop p (t_rows t) 0.

(** [id >= 0 ? get(row id) : none]. *)
Definition row_or {A B} (t : table A) (id : Z) (get : A -> B) (none : B) : option B :=
  if id <? 0 then Some none else x ← row t id; Some (get x).
(** With the bounds of the registry queries. *)
Definition row_in {A B} (t : table A) (id : Z) (get : A -> B) (none : B) : B :=
  if (0 <=? id) && (id <? t_len t) then match row t id with Some x => get x | None => none end else none.

(** ** Name indexes *)

Definition FNV_SEED : Z := 1469598103934665603.
Definition nonzero (h : Z) : Z := if h =? 0 then 1 else h.

Definition reflect_hash_span (s : str) (n : Z) : Z := nonzero (foldl fnv_step FNV_SEED (sub_str s 0 n)).
Definition reflect_hash_base (name : str) : Z := reflect_hash_span name (reflect_base_length name).
Definition reflect_hash_member (owner name : str) : Z :=
  nonzero (foldl fnv_step (fnv_step (reflect_hash_base owner) 0xff) name).

(** A slot is a hash, 0 when empty, and an id. *)
Record BReflectIndex : Type := mkIndex { ix_slots : list (Z * Z); ix_len : Z }.
Definition no_index : BReflectIndex := mkIndex [] 0.
Definition ix_cap (ix : BReflectIndex) : Z := Z.of_nat (length (ix_slots ix)).

Fixpoint place_loop (fuel : nat) (slots : list (Z * Z)) (at_ : Z) (x : Z * Z) : option (list (Z * Z)) :=
  match fuel with
  | O => None
  | S fuel =>
      s ← slots !! Z.to_nat at_;
      if s.1 =? 0 then Some (<[Z.to_nat at_ := x]> slots)
      else place_loop fuel slots ((at_ + 1) &! (Z.of_nat (length slots) - 1)) x
  end.
(** A slot into the first free place from its home. *)
Definition place (slots : list (Z * Z)) (x : Z * Z) : option (list (Z * Z)) :=
  place_loop (length slots) slots (x.1 &! (Z.of_nat (length slots) - 1)) x.

Fixpoint rehash (old slots : list (Z * Z)) : option (list (Z * Z)) :=
  match old with
  | [] => Some slots
  | x :: old => if x.1 =? 0 then rehash old slots else slots ← place slots x; rehash old slots
  end.

Definition reflect_index_insert (ix : BReflectIndex) (hash id : Z) : option BReflectIndex :=
  slots ← (if (ix_cap ix =? 0) || (ix_cap ix * 3 <=? ix_len ix * 4) then
             let next := if ix_cap ix =? 0 then 256 else ix_cap ix * 2 in
             rehash (ix_slots ix) (replicate (Z.to_nat next) (0, 0))
           else Some (ix_slots ix));
  slots ← place slots (hash, id);
  Some (mkIndex slots (ix_len ix + 1)).

(** [REFLECT_INDEX_EACH] around the test every caller makes: the smallest id
    whose row compares equal. *)
Fixpoint each_loop (fuel : nat) (slots : list (Z * Z)) (hash at_ : Z) (p : Z -> option bool) (best : Z) : option Z :=
  match fuel with
  | O => None
  | S fuel =>
      s ← slots !! Z.to_nat at_;
      if s.1 =? 0 then Some best
      else
        let id := s.2 in
        best ← (if s.1 =? hash then
                  if (best <? 0) || (id <? best) then eq ← p id; Some (if (eq : bool) then id else best) else Some best
                else Some best);
        each_loop fuel slots hash ((at_ + 1) &! (Z.of_nat (length slots) - 1)) p best
  end.

Definition REFLECT_INDEX_EACH (ix : BReflectIndex) (hash : Z) (p : Z -> option bool) : option Z :=
  if ix_cap ix =? 0 then Some (-1)
  else each_loop (S (length (ix_slots ix))) (ix_slots ix) hash (hash &! (ix_cap ix - 1)) p (-1).

(** ** The registry *)

Record BReflectType : Type := mkType {
  ty_name : str;
  ty_kind : Z;
  ty_base : option str;
  ty_init_flags : Z;
  ty_init : Z;
  ty_init_params : BReflectIdListHead;
  ty_ifaces : BReflectIdListHead;
  ty_fields : BReflectIdListHead
}.
Record BReflectInterface : Type := mkInterface { if_owner : str; if_name : str }.
Record BReflectField : Type := mkField { f_owner : str; f_name : str; f_type : str; f_flags : Z; f_get : Z; f_set : Z }.
Record BReflectMethod : Type := mkMethod {
  m_owner : str; m_name : str; m_result : str; m_flags : Z; m_call : Z; m_params : BReflectIdListHead }.
Record BReflectMethodParameter : Type := mkParam { p_owner : str; p_callable : str; p_name : str; p_type : str; p_passing : Z }.

Record registry : Type := mkReg {
  types : table BReflectType;
  interfaces : table BReflectInterface;
  fields : table BReflectField;
  methods : table BReflectMethod;
  params : table BReflectMethodParameter;
  type_index : BReflectIndex;
  method_index : BReflectIndex;
  method_param_orphans : bool;
  init_param_orphans : bool;
  interface_orphans : bool;
  field_orphans : bool
}.
Definition empty_registry : registry :=
  mkReg no_rows no_rows no_rows no_rows no_rows no_index no_index false false false false.

Definition with_types (t : table BReflectType) (R : registry) : registry :=
  mkReg t (interfaces R) (fields R) (methods R) (params R) (type_index R) (method_index R)
    (method_param_orphans R) (init_param_orphans R) (interface_orphans R) (field_orphans R).
Definition with_interfaces (t : table BReflectInterface) (R : registry) : registry :=
  mkReg (types R) t (fields R) (methods R) (params R) (type_index R) (method_index R)
    (method_param_orphans R) (init_param_orphans R) (interface_orphans R) (field_orphans R).
Definition with_fields (t : table BReflectField) (R : registry) : registry :=
  mkReg (types R) (interfaces R) t (methods R) (params R) (type_index R) (method_index R)
    (method_param_orphans R) (init_param_orphans R) (interface_orphans R) (field_orphans R).
Definition with_methods (t : table BReflectMethod) (R : registry) : registry :=
  mkReg (types R) (interfaces R) (fields R) t (params R) (type_index R) (method_index R)
    (method_param_orphans R) (init_param_orphans R) (interface_orphans R) (field_orphans R).
Definition with_params (t : table BReflectMethodParameter) (R : registry) : registry :=
  mkReg (types R) (interfaces R) (fields R) (methods R) t (type_index R) (method_index R)
    (method_param_orphans R) (init_param_orphans R) (interface_orphans R) (field_orphans R).
Definition with_type_index (ix : BReflectIndex) (R : registry) : registry :=
  mkReg (types R) (interfaces R) (fields R) (methods R) (params R) ix (method_index R)
    (method_param_orphans R) (init_param_orphans R) (interface_orphans R) (field_orphans R).
Definition with_method_index (ix : BReflectIndex) (R : registry) : registry :=
  mkReg (types R) (interfaces R) (fields R) (methods R) (params R) (type_index R) ix
    (method_param_orphans R) (init_param_orphans R) (interface_orphans R) (field_orphans R).
Definition with_orphans (mp ip ifc f : bool) (R : registry) : registry :=
  mkReg (types R) (interfaces R) (fields R) (methods R) (params R) (type_index R) (method_index R) mp ip ifc f.

Definition set_init (flags call : Z) (t : BReflectType) : BReflectType :=
  mkType (ty_name t) (ty_kind t) (ty_base t) flags call (ty_init_params t) (ty_ifaces t) (ty_fields t).
Definition set_init_params (l : BReflectIdListHead) (t : BReflectType) : BReflectType :=
  mkType (ty_name t) (ty_kind t) (ty_base t) (ty_init_flags t) (ty_init t) l (ty_ifaces t) (ty_fields t).
Definition set_ifaces (l : BReflectIdListHead) (t : BReflectType) : BReflectType :=
  mkType (ty_name t) (ty_kind t) (ty_base t) (ty_init_flags t) (ty_init t) (ty_init_params t) l (ty_fields t).
Definition set_type_fields (l : BReflectIdListHead) (t : BReflectType) : BReflectType :=
  mkType (ty_name t) (ty_kind t) (ty_base t) (ty_init_flags t) (ty_init t) (ty_init_params t) (ty_ifaces t) l.
Definition set_access (get set : Z) (f : BReflectField) : BReflectField :=
  mkField (f_owner f) (f_name f) (f_type f) (f_flags f) get set.
Definition set_call (call : Z) (m : BReflectMethod) : BReflectMethod :=
  mkMethod (m_owner m) (m_name m) (m_result m) (m_flags m) call (m_params m).
Definition set_method_params (l : BReflectIdListHead) (m : BReflectMethod) : BReflectMethod :=
  mkMethod (m_owner m) (m_name m) (m_result m) (m_flags m) (m_call m) l.

(** *** Resolution *)

Definition reflect_type_id_by_base (R : registry) (name : str) : option Z :=
  REFLECT_INDEX_EACH (type_index R) (reflect_hash_base name)
    (fun id => t ← row (types R) id; Some (reflect_base_equal (ty_name t) name)).
Definition reflect_type_id_exact (R : registry) (name : str) : option Z :=
  REFLECT_INDEX_EACH (type_index R) (reflect_hash_base name)
    (fun id => t ← row (types R) id; Some (beans_str_eq (ty_name t) name)).
Definition reflect_find_type (R : registry) (name : str) : option Z := reflect_type_id_by_base R name.

Definition reflect_method_id_on (R : registry) (owner name : str) : option Z :=
  REFLECT_INDEX_EACH (method_index R) (reflect_hash_member owner name)
    (fun id => m ← row (methods R) id; Some (reflect_base_equal (m_owner m) owner && beans_str_eq (m_name m) name)).

(** *** Registration *)

Definition beans_reflect_register_type (name : str) (kind : Z) (base : option str) (R : registry) : option registry :=
  id ← reflect_type_id_exact R name;
  if 0 <=? id then Some R
  else
    ix ← reflect_index_insert (type_index R) (reflect_hash_base name) (t_len (types R));
    Some (with_type_index ix (with_types (table_push (types R) (mkType name kind base (-1) 0 no_ids no_ids no_ids)) R)).

Definition beans_reflect_register_initializer (owner : str) (flags call : Z) (R : registry) : option registry :=
  id ← reflect_type_id_exact R owner;
  if id <? 0 then Some R
  else t ← row (types R) id; Some (with_types (set_row (types R) id (set_init flags call t)) R).

(** The owner's list takes the new row, or the orphan flag is set. *)
Definition attach (R : registry) (owner : str) (add : BReflectType -> BReflectType) (orphan : registry -> registry) : option registry :=
  type ← reflect_type_id_by_base R owner;
  if 0 <=? type then t ← row (types R) type; Some (with_types (set_row (types R) type (add t)) R)
  else Some (orphan R).

Definition beans_reflect_register_interface (owner interface_name : str) (R : registry) : option registry :=
  let id := t_len (interfaces R) in
  R ← attach R owner (fun t => set_ifaces (reflect_id_push (ty_ifaces t) id) t)
    (fun R => with_orphans (method_param_orphans R) (init_param_orphans R) true (field_orphans R) R);
  Some (with_interfaces (table_push (interfaces R) (mkInterface owner interface_name)) R).

Definition beans_reflect_register_field (owner name type_name : str) (flags : Z) (R : registry) : option registry :=
  let id := t_len (fields R) in
  R ← attach R owner (fun t => set_type_fields (reflect_id_push (ty_fields t) id) t)
    (fun R => with_orphans (method_param_orphans R) (init_param_orphans R) (interface_orphans R) true R);
  Some (with_fields (table_push (fields R) (mkField owner name type_name flags 0 0)) R).

Definition beans_reflect_register_field_access (owner name : str) (get set : Z) (R : registry) : option registry :=
  let id := first_row (fun f => beans_str_eq (f_owner f) owner && beans_str_eq (f_name f) name) (fields R) in
  if id <? 0 then Some R
  else f ← row (fields R) id; Some (with_fields (set_row (fields R) id (set_access get set f)) R).

Definition beans_reflect_register_method (owner name result_type : str) (flags : Z) (R : registry) : option registry :=
  ix ← reflect_index_insert (method_index R) (reflect_hash_member owner name) (t_len (methods R));
  Some (with_method_index ix (with_methods (table_push (methods R) (mkMethod owner name result_type flags 0 no_ids)) R)).

Definition beans_reflect_register_method_call (owner name : str) (call : Z) (R : registry) : option registry :=
  best ← REFLECT_INDEX_EACH (method_index R) (reflect_hash_member owner name)
    (fun id => m ← row (methods R) id; Some (beans_str_eq (m_owner m) owner && beans_str_eq (m_name m) name));
  if 0 <=? best then m ← row (methods R) best; Some (with_methods (set_row (methods R) best (set_call call m)) R) else Some R.

Definition is_init (callable : str) : bool := reflect_is callable (lit "init").

Definition beans_reflect_register_method_parameter (owner callable name type_name : str) (passing : Z) (R : registry) : option registry :=
  let id := t_len (params R) in
  R ← (if is_init callable then
         attach R owner (fun t => set_init_params (reflect_id_push (ty_init_params t) id) t)
           (fun R => with_orphans (method_param_orphans R) true (interface_orphans R) (field_orphans R) R)
       else
         method ← reflect_method_id_on R owner callable;
         if 0 <=? method then
           m ← row (methods R) method;
           Some (with_methods (set_row (methods R) method (set_method_params (reflect_id_push (m_params m) id) m)) R)
         else Some (with_orphans true (init_param_orphans R) (interface_orphans R) (field_orphans R) R));
  Some (with_params (table_push (params R) (mkParam owner callable name type_name passing)) R).

(** *** Types *)

Definition base_of (R : registry) (id : Z) : option (option str) := t ← row (types R) id; Some (ty_base t).

Fixpoint declaring_loop (n : nat) (R : registry) (current declared : str) : option str :=
  match n with
  | O => Some declared
  | S n =>
      if reflect_base_equal current declared then Some current
      else
        at_ ← reflect_find_type R current;
        if at_ <? 0 then Some declared
        else
          base ← base_of R at_;
          match base with None => Some declared | Some base => declaring_loop n R base declared end
  end.
Definition reflect_declaring_name (R : registry) (queried declared : str) : option str :=
  declaring_loop (S (length (t_rows (types R)))) R queried declared.

Definition type_names : list (str * Z) :=
  [(lit "unit", 0); (lit "(nothing)", 0); (lit "bool", 1);
   (lit "int", 2); (lit "i64", 2); (lit "i8", 2); (lit "i16", 2); (lit "i32", 2);
   (lit "u8", 3); (lit "byte", 3); (lit "u16", 3); (lit "u32", 3); (lit "u64", 3);
   (lit "float", 4); (lit "f64", 4); (lit "f32", 4); (lit "decimal", 5); (lit "string", 6);
   (lit "List", 12); (lit "Map", 13); (lit "OrderedMap", 13); (lit "Option", 14);
   (lit "Result", 15); (lit "Slice", 17); (lit "RawPtr", 18)].

Fixpoint named_kind (l : list (str * Z)) (s : str) : option Z :=
  match l with [] => None | (text, value) :: l => if reflect_is s text then Some value else named_kind l s end.

Definition beans_reflect_type_kind (R : registry) (name : str) : option Z :=
  found ← reflect_find_type R name;
  if 0 <=? found then t ← row (types R) found; Some (ty_kind t)
  else
    let n := reflect_base_length name in
    match named_kind type_names (sub_str name 0 n) with
    | Some value => Some value
    | None =>
        if negb (n =? 0) && (c_at name 0 =? 91) then Some 16
        else if (3 <=? n) && (memcmp (sub_str name 0 3) (lit "fn(") =? 0) then Some 19
        else Some 20
    end.

Definition beans_reflect_base_type (R : registry) (name : str) : option str :=
  found ← reflect_find_type R name;
  if found <? 0 then Some [] else base ← base_of R found; Some (default [] base).

Definition beans_reflect_interface_count (R : registry) (name : str) : Z :=
  count_rows (fun i => reflect_base_equal (if_owner i) name) (t_rows (interfaces R)).
Definition beans_reflect_interface_at (R : registry) (name : str) (wanted : Z) : option str :=
  row_or (interfaces R) (scan_rows (fun i => reflect_base_equal (if_owner i) name) (interfaces R) wanted).1 if_name [].

(** The loop over the base links: [true] when one is [wanted]. *)
Fixpoint bases_loop (n : nat) (R : registry) (wanted : str) (found : Z) : option bool :=
  match n with
  | O => Some false
  | S n =>
      if found <? 0 then Some false
      else
        base ← base_of R found;
        match base with
        | None => Some false
        | Some base =>
            if reflect_name_assignable wanted base then Some true
            else found ← reflect_find_type R base; bases_loop n R wanted found
        end
  end.

Fixpoint any_id (R : registry) (wanted : str) (ids : list Z) : option bool :=
  match ids with
  | [] => Some false
  | id :: ids =>
      i ← row (interfaces R) id;
      if reflect_name_assignable wanted (if_name i) then Some true else any_id R wanted ids
  end.

Definition interface_step (R : registry) (wanted current : str) (at_ : Z) : option bool :=
  if interface_orphans R then
    Some (existsb (fun i => reflect_base_equal (if_owner i) current && reflect_name_assignable wanted (if_name i)) (t_rows (interfaces R)))
  else if 0 <=? at_ then t ← row (types R) at_; any_id R wanted (l_ids (ty_ifaces t))
  else Some false.

Fixpoint interfaces_loop (n : nat) (R : registry) (wanted current : str) : option bool :=
  match n with
  | O => Some false
  | S n =>
      at_ ← reflect_find_type R current;
      hit ← interface_step R wanted current at_;
      if (hit : bool) then Some true
      else if at_ <? 0 then Some false
      else
        base ← base_of R at_;
        match base with None => Some false | Some base => interfaces_loop n R wanted base end
  end.

Definition beans_reflect_is_assignable_from (R : registry) (wanted actual : str) : option bool :=
  if reflect_name_assignable wanted actual then Some true
  else
    found ← reflect_find_type R actual;
    hit ← bases_loop (length (t_rows (types R))) R wanted found;
    if (hit : bool) then Some true
    else if found <? 0 then Some false
    else t ← row (types R) found; interfaces_loop (length (t_rows (types R))) R wanted (ty_name t).

(** *** Listings

    A member list is collected base first; a member that repeats the name of
    an inherited one takes its place.  [names]: the owner and the name of each
    row; [keep]: the names that are listed; [room]: the slots of the scratch
    array. *)

(** The last place of [ids] whose row is called [name]. *)
Fixpoint last_named (names : list (str * str)) (name : str) (ids : list Z) (j replace : Z) : option Z :=
  match ids with
  | [] => Some replace
  | id :: ids =>
      n ← (if id <? 0 then None else names !! Z.to_nat id);
      last_named names name ids (j + 1) (if beans_str_eq n.2 name then j else replace)
  end.

Fixpoint collect_level (names : list (str * str)) (keep : str -> bool) (room : Z) (inherited : bool) (type_name : str)
    (rows : list (str * str)) (i : Z) (ids : list Z) : option (list Z) :=
  match rows with
  | [] => Some ids
  | (owner, name) :: rows =>
      if negb (reflect_base_equal owner type_name) || negb (keep name) then
        collect_level names keep room inherited type_name rows (i + 1) ids
      else
        replace ← last_named names name ids 0 (-1);
        ids ← (if (0 <=? replace) && inherited then Some (<[Z.to_nat replace := i]> ids)
               else if slen ids <? room then Some (ids ++ [i]) else None);
        collect_level names keep room inherited type_name rows (i + 1) ids
  end.

Fixpoint collect (fuel : nat) (R : registry) (names : list (str * str)) (keep : str -> bool) (room : Z)
    (type : Z) (inherited : bool) (ids : list Z) : option (list Z) :=
  match fuel with
  | O => None
  | S fuel =>
      if type <? 0 then Some ids
      else
        t ← row (types R) type;
        ids ← (if inherited then
                 match ty_base t with
                 | Some base => parent ← reflect_find_type R base; collect fuel R names keep room parent true ids
                 | None => Some ids
                 end
               else Some ids);
        collect_level names keep room inherited (ty_name t) names 0 ids
  end.

Definition field_names (R : registry) : list (str * str) := (fun f => (f_owner f, f_name f)) <$> t_rows (fields R).
Definition method_names (R : registry) : list (str * str) := (fun m => (m_owner m, m_name m)) <$> t_rows (methods R).

(** A call per type of the chain, and one for its end. *)
Definition collect_depth (R : registry) : nat := S (S (length (t_rows (types R)))).
Definition room_of {A} (t : table A) : Z := if t_len t =? 0 then 1 else t_len t.

Definition reflect_collect_fields (R : registry) (type : Z) (inherited : bool) : option (list Z) :=
  collect (collect_depth R) R (field_names R) (fun _ => true) (room_of (fields R)) type inherited [].
Definition reflect_collect_methods (R : registry) (type : Z) (inherited : bool) : option (list Z) :=
  collect (collect_depth R) R (method_names R) (fun name => negb (reflect_special_method name)) (room_of (methods R)) type inherited [].

(** The [wanted]-th id of a listing, or -1, and its length. *)
Definition listed (ids : list Z) (wanted : Z) : Z * Z :=
  ((if (0 <=? wanted) && (wanted <? slen ids) then default (-1) (ids !! Z.to_nat wanted) else -1), slen ids).

Definition reflect_field_id (R : registry) (name : str) (inherited : bool) (wanted : Z) : option (Z * Z) :=
  type ← reflect_find_type R name;
  if type <? 0 then Some (-1, 0) else ids ← reflect_collect_fields R type inherited; Some (listed ids wanted).

Definition beans_reflect_field_count (R : registry) (name : str) (inherited : bool) : option Z :=
  r ← reflect_field_id R name inherited (-1); Some r.2.
Definition beans_reflect_field_name (R : registry) (owner : str) (inherited : bool) (index : Z) : option str :=
  r ← reflect_field_id R owner inherited index; row_or (fields R) r.1 f_name [].
Definition beans_reflect_field_type (R : registry) (owner : str) (inherited : bool) (index : Z) : option str :=
  r ← reflect_field_id R owner inherited index; row_or (fields R) r.1 f_type [].
Definition beans_reflect_field_owner (R : registry) (owner : str) (inherited : bool) (index : Z) : option str :=
  r ← reflect_field_id R owner inherited index;
  if r.1 <? 0 then Some [] else f ← row (fields R) r.1; reflect_declaring_name R owner (f_owner f).
Definition beans_reflect_field_flags (R : registry) (owner : str) (inherited : bool) (index : Z) : option Z :=
  r ← reflect_field_id R owner inherited index; row_or (fields R) r.1 f_flags 0.

(** *** A field by name *)

(** The last id of [ids] whose row is called [name], or -1. *)
Fixpoint last_id_named (R : registry) (name : str) (ids : list Z) : option Z :=
  match ids with
  | [] => Some (-1)
  | id :: ids =>
      last ← last_id_named R name ids;
      if 0 <=? last then Some last
      else f ← row (fields R) id; Some (if beans_str_eq (f_name f) name then id else -1)
  end.

(** One turn per type, and the guard. *)
Fixpoint named_field_loop (n : nat) (R : registry) (name : str) (type : Z) : option Z :=
  match n with
  | O => Some (-1)
  | S n =>
      if type <? 0 then Some (-1)
      else
        t ← row (types R) type;
        last ← last_id_named R name (l_ids (ty_fields t));
        if 0 <=? last then Some last
        else
          match ty_base t with
          | None => Some (-1)
          | Some base => type ← reflect_find_type R base; named_field_loop n R name type
          end
  end.

(** The fallback: the first of the inherited listing. *)
Fixpoint first_id_named (R : registry) (owner name : str) (total : nat) (i : Z) : option Z :=
  match total with
  | O => Some (-1)
  | S total =>
      r ← reflect_field_id R owner true i;
      hit ← (if r.1 <? 0 then Some false else f ← row (fields R) r.1; Some (beans_str_eq (f_name f) name));
      if (hit : bool) then Some r.1 else first_id_named R owner name total (i + 1)
  end.

Definition reflect_named_field_id (R : registry) (owner name : str) : option Z :=
  if negb (field_orphans R) then
    type ← reflect_find_type R owner;
    named_field_loop (S (length (t_rows (types R)))) R name type
  else
    total ← reflect_field_id R owner true (-1);
    first_id_named R owner name (Z.to_nat total.2) 0.

(** *** Methods *)

Definition reflect_method_list_id (R : registry) (owner : str) (inherited : bool) (wanted : Z) : option (Z * Z) :=
  type ← reflect_find_type R owner;
  if type <? 0 then Some (-1, 0) else ids ← reflect_collect_methods R type inherited; Some (listed ids wanted).

Fixpoint method_id_loop (n : nat) (R : registry) (name : str) (type : Z) : option Z :=
  match n with
  | O => Some (-1)
  | S n =>
      if type <? 0 then Some (-1)
      else
        t ← row (types R) type;
        id ← reflect_method_id_on R (ty_name t) name;
        if 0 <=? id then Some id
        else
          match ty_base t with
          | None => Some (-1)
          | Some base => type ← reflect_find_type R base; method_id_loop n R name type
          end
  end.
Definition reflect_method_id (R : registry) (owner name : str) : option Z :=
  type ← reflect_find_type R owner; method_id_loop (S (length (t_rows (types R)))) R name type.

Definition beans_reflect_method_count (R : registry) (owner : str) (inherited : bool) : option Z :=
  r ← reflect_method_list_id R owner inherited (-1); Some r.2.
Definition beans_reflect_method_name (R : registry) (owner : str) (inherited : bool) (index : Z) : option str :=
  r ← reflect_method_list_id R owner inherited index; row_or (methods R) r.1 m_name [].
Definition beans_reflect_method_flags (R : registry) (owner name : str) : option Z :=
  id ← reflect_method_id R owner name; row_or (methods R) id m_flags (-1).
Definition beans_reflect_method_owner (R : registry) (owner name : str) : option str :=
  id ← reflect_method_id R owner name;
  if id <? 0 then Some [] else m ← row (methods R) id; reflect_declaring_name R owner (m_owner m).
Definition beans_reflect_method_result (R : registry) (owner name : str) : option str :=
  id ← reflect_method_id R owner name; row_or (methods R) id m_result [].

(** The [wanted]-th of an attach list, or -1, and the count the query reports. *)
Definition attached (l : BReflectIdListHead) (wanted : Z) : Z * Z :=
  if (0 <=? wanted) && (wanted <? l_len l) then (default (-1) (l_ids l !! Z.to_nat wanted), wanted + 1) else (-1, l_len l).

Definition reflect_method_parameter_id (R : registry) (owner callable : str) (wanted : Z) : option (Z * Z) :=
  method ← reflect_method_id R owner callable;
  if method <? 0 then Some (-1, -1)
  else
    m ← row (methods R) method;
    Some (if negb (method_param_orphans R) then attached (m_params m) wanted
          else scan_rows (fun p => reflect_base_equal (p_owner p) (m_owner m) && beans_str_eq (p_callable p) (m_name m)) (params R) wanted).

Definition beans_reflect_method_parameter_count (R : registry) (owner name : str) : option Z :=
  r ← reflect_method_parameter_id R owner name (-1); Some r.2.
Definition beans_reflect_method_parameter_name (R : registry) (owner name : str) (index : Z) : option str :=
  r ← reflect_method_parameter_id R owner name index; row_or (params R) r.1 p_name [].
Definition beans_reflect_method_parameter_type (R : registry) (owner name : str) (index : Z) : option str :=
  r ← reflect_method_parameter_id R owner name index; row_or (params R) r.1 p_type [].
Definition beans_reflect_method_parameter_passing (R : registry) (owner name : str) (index : Z) : option Z :=
  r ← reflect_method_parameter_id R owner name index; row_or (params R) r.1 p_passing (-1).

(** *** Initializers *)

Definition beans_reflect_initializer_flags (R : registry) (owner : str) : option Z :=
  id ← reflect_find_type R owner; row_or (types R) id ty_init_flags (-1).

(** What one type of the chain answers, if it has parameters. *)
Definition init_params_at (R : registry) (t : BReflectType) (wanted : Z) : option (Z * Z) :=
  if negb (init_param_orphans R) then
    if negb (l_len (ty_init_params t) =? 0) then Some (attached (ty_init_params t) wanted) else None
  else
    let '(id, current) :=
      scan_rows (fun p => reflect_base_equal (p_owner p) (ty_name t) && is_init (p_callable p)) (params R) wanted in
    if (0 <=? id) || negb (current =? 0) then Some (id, current) else None.

Fixpoint init_param_loop (n : nat) (R : registry) (wanted type : Z) : option (Z * Z) :=
  match n with
  | O => Some (-1, 0)
  | S n =>
      if type <? 0 then Some (-1, 0)
      else
        t ← row (types R) type;
        match init_params_at R t wanted with
        | Some r => Some r
        | None =>
            match ty_base t with
            | None => Some (-1, 0)
            | Some base => type ← reflect_find_type R base; init_param_loop n R wanted type
            end
        end
  end.
Definition reflect_initializer_parameter_id (R : registry) (owner : str) (wanted : Z) : option (Z * Z) :=
  type ← reflect_find_type R owner; init_param_loop (S (length (t_rows (types R)))) R wanted type.

Definition beans_reflect_initializer_parameter_count (R : registry) (owner : str) : option Z :=
  flags ← beans_reflect_initializer_flags R owner;
  if flags <? 0 then Some (-1) else r ← reflect_initializer_parameter_id R owner (-1); Some r.2.
Definition beans_reflect_initializer_parameter_name (R : registry) (owner : str) (index : Z) : option str :=
  r ← reflect_initializer_parameter_id R owner index; row_or (params R) r.1 p_name [].
Definition beans_reflect_initializer_parameter_type (R : registry) (owner : str) (index : Z) : option str :=
  r ← reflect_initializer_parameter_id R owner index; row_or (params R) r.1 p_type [].
Definition beans_reflect_initializer_parameter_passing (R : registry) (owner : str) (index : Z) : option Z :=
  r ← reflect_initializer_parameter_id R owner index; row_or (params R) r.1 p_passing (-1).

Definition beans_reflect_registry_type_count (R : registry) : Z := t_len (types R).
Definition beans_reflect_registry_type_at (R : registry) (index : Z) : str := row_in (types R) index ty_name [].

(** ** Functions *)

Record BReflectFunction : Type := mkFunction {
  fn_qualified : str; fn_name : str; fn_result : str; fn_flags : Z; fn_call : Z; fn_params : BReflectIdListHead }.
Record BReflectFunctionParameter : Type := mkFnParam { fp_function : str; fp_name : str; fp_type : str; fp_passing : Z }.

Record functions : Type := mkFunctions {
  fns : table BReflectFunction;
  fparams : table BReflectFunctionParameter;
  function_index : BReflectIndex;
  function_param_orphans : bool
}.
Definition no_functions : functions := mkFunctions no_rows no_rows no_index false.

Definition set_fn_call (call : Z) (f : BReflectFunction) : BReflectFunction :=
  mkFunction (fn_qualified f) (fn_name f) (fn_result f) (fn_flags f) call (fn_params f).
Definition set_fn_params (l : BReflectIdListHead) (f : BReflectFunction) : BReflectFunction :=
  mkFunction (fn_qualified f) (fn_name f) (fn_result f) (fn_flags f) (fn_call f) l.

Definition reflect_function_id_exact (F : functions) (qualified : str) : option Z :=
  REFLECT_INDEX_EACH (function_index F) (reflect_hash_span qualified (slen qualified))
    (fun id => f ← row (fns F) id; Some (beans_str_eq (fn_qualified f) qualified)).
Definition reflect_find_function (F : functions) (qualified : str) : option Z := reflect_function_id_exact F qualified.

Definition beans_reflect_register_function (qualified name result_type : str) (flags : Z) (F : functions) : option functions :=
  ix ← reflect_index_insert (function_index F) (reflect_hash_span qualified (slen qualified)) (t_len (fns F));
  Some (mkFunctions (table_push (fns F) (mkFunction qualified name result_type flags 0 no_ids)) (fparams F) ix (function_param_orphans F)).

Definition beans_reflect_register_function_call (qualified : str) (call : Z) (F : functions) : option functions :=
  id ← reflect_function_id_exact F qualified;
  if 0 <=? id then
    f ← row (fns F) id; Some (mkFunctions (set_row (fns F) id (set_fn_call call f)) (fparams F) (function_index F) (function_param_orphans F))
  else Some F.

Definition beans_reflect_register_function_parameter (function_name name type_name : str) (passing : Z) (F : functions) : option functions :=
  let id := t_len (fparams F) in
  function ← reflect_function_id_exact F function_name;
  F ← (if 0 <=? function then
         f ← row (fns F) function;
         Some (mkFunctions (set_row (fns F) function (set_fn_params (reflect_id_push (fn_params f) id) f)) (fparams F)
                 (function_index F) (function_param_orphans F))
       else Some (mkFunctions (fns F) (fparams F) (function_index F) true));
  Some (mkFunctions (fns F) (table_push (fparams F) (mkFnParam function_name name type_name passing)) (function_index F) (function_param_orphans F)).

Definition beans_reflect_registry_function_count (F : functions) : Z := t_len (fns F).
Definition beans_reflect_registry_function_at (F : functions) (index : Z) : str := row_in (fns F) index fn_qualified [].
Definition beans_reflect_function_name (F : functions) (qualified : str) : option str :=
  id ← reflect_find_function F qualified; row_or (fns F) id fn_name [].
Definition beans_reflect_function_result (F : functions) (qualified : str) : option str :=
  id ← reflect_find_function F qualified; row_or (fns F) id fn_result [].
Definition beans_reflect_function_flags (F : functions) (qualified : str) : option Z :=
  id ← reflect_find_function F qualified; row_or (fns F) id fn_flags (-1).

Definition reflect_function_parameter_id (F : functions) (qualified : str) (wanted : Z) : option (Z * Z) :=
  function ← reflect_find_function F qualified;
  if function <? 0 then Some (-1, -1)
  else
    f ← row (fns F) function;
    Some (if negb (function_param_orphans F) then attached (fn_params f) wanted
          else scan_rows (fun p => beans_str_eq (fp_function p) qualified) (fparams F) wanted).

Definition beans_reflect_function_parameter_count (F : functions) (qualified : str) : option Z :=
  r ← reflect_function_parameter_id F qualified (-1); Some r.2.
Definition beans_reflect_function_parameter_name (F : functions) (qualified : str) (index : Z) : option str :=
  r ← reflect_function_parameter_id F qualified index; row_or (fparams F) r.1 fp_name [].
Definition beans_reflect_function_parameter_type (F : functions) (qualified : str) (index : Z) : option str :=
  r ← reflect_function_parameter_id F qualified index; row_or (fparams F) r.1 fp_type [].
Definition beans_reflect_function_parameter_passing (F : functions) (qualified : str) (index : Z) : option Z :=
  r ← reflect_function_parameter_id F qualified index; row_or (fparams F) r.1 fp_passing (-1).

(** ** Variants *)

Record BReflectVariant : Type := mkVariant { v_owner : str; v_name : str; v_make : Z }.
Record BReflectVariantParameter : Type := mkVParam { vp_owner : str; vp_variant : str; vp_name : str; vp_type : str }.
Record variants : Type := mkVariants { vars : table BReflectVariant; vparams : table BReflectVariantParameter }.
Definition no_variants : variants := mkVariants no_rows no_rows.

Definition beans_reflect_register_variant (owner name : str) (V : variants) : variants :=
  mkVariants (table_push (vars V) (mkVariant owner name 0)) (vparams V).
Definition beans_reflect_register_variant_make (owner name : str) (call : Z) (V : variants) : option variants :=
  let id := first_row (fun v => beans_str_eq (v_owner v) owner && beans_str_eq (v_name v) name) (vars V) in
  if id <? 0 then Some V
  else v ← row (vars V) id; Some (mkVariants (set_row (vars V) id (mkVariant (v_owner v) (v_name v) call)) (vparams V)).
Definition beans_reflect_register_variant_parameter (owner variant name type_name : str) (V : variants) : variants :=
  mkVariants (vars V) (table_push (vparams V) (mkVParam owner variant name type_name)).

Definition variant_is (owner name : str) (v : BReflectVariant) : bool :=
  reflect_base_equal (v_owner v) owner && beans_str_eq (v_name v) name.
Definition reflect_variant_id (V : variants) (owner name : str) : Z := first_row (variant_is owner name) (vars V).
Definition beans_reflect_variant_count (V : variants) (owner : str) : Z :=
  count_rows (fun v => reflect_base_equal (v_owner v) owner) (t_rows (vars V)).
Definition beans_reflect_variant_name (V : variants) (owner : str) (wanted : Z) : option str :=
  row_or (vars V) (scan_rows (fun v => reflect_base_equal (v_owner v) owner) (vars V) wanted).1 v_name [].

Definition reflect_variant_parameter_id (V : variants) (owner variant : str) (wanted : Z) : Z * Z :=
  if negb (existsb (variant_is owner variant) (t_rows (vars V))) then (-1, -1)
  else scan_rows (fun p => reflect_base_equal (vp_owner p) owner && beans_str_eq (vp_variant p) variant) (vparams V) wanted.

Definition beans_reflect_variant_parameter_count (V : variants) (owner variant : str) : Z :=
  (reflect_variant_parameter_id V owner variant (-1)).2.
Definition beans_reflect_variant_parameter_name (V : variants) (owner variant : str) (index : Z) : option str :=
  row_or (vparams V) (reflect_variant_parameter_id V owner variant index).1 vp_name [].
Definition beans_reflect_variant_parameter_type (V : variants) (owner variant : str) (index : Z) : option str :=
  row_or (vparams V) (reflect_variant_parameter_id V owner variant index).1 vp_type [].

(** ** Annotations *)

Record BReflectAnnotationType : Type := mkAnnType { at_name : str; at_retention : str; at_flags : Z }.
Record BReflectAnnotationTarget : Type := mkAnnTarget { tg_owner : str; tg_target : str }.
Record BReflectAnnotationField : Type := mkAnnField { af_owner : str; af_name : str; af_type : str; af_default : Z }.
Record BReflectAnnotation : Type := mkAnnotation { an_kind : Z; an_owner : str; an_member : str; an_position : Z; an_name : str }.
Record BReflectAnnotationValue : Type := mkAnnValue {
  av_annotation : Z; av_parent : Z; av_name : str; av_type : str; av_kind : Z; av_text : str }.

Record annotations : Type := mkAnnotations {
  ann_types : table BReflectAnnotationType;
  ann_targets : table BReflectAnnotationTarget;
  ann_fields : table BReflectAnnotationField;
  anns : table BReflectAnnotation;
  ann_values : table BReflectAnnotationValue
}.
Definition no_annotations : annotations := mkAnnotations no_rows no_rows no_rows no_rows no_rows.

Definition reflect_annotation_type_id (A : annotations) (name : str) : Z :=
  first_row (fun t => beans_str_eq (at_name t) name) (ann_types A).

Definition beans_reflect_register_annotation_type (name retention : str) (flags : Z) (A : annotations) : annotations :=
  if 0 <=? reflect_annotation_type_id A name then A
  else mkAnnotations (table_push (ann_types A) (mkAnnType name retention flags)) (ann_targets A) (ann_fields A) (anns A) (ann_values A).
Definition beans_reflect_register_annotation_type_target (owner target : str) (A : annotations) : annotations :=
  mkAnnotations (ann_types A) (table_push (ann_targets A) (mkAnnTarget owner target)) (ann_fields A) (anns A) (ann_values A).
Definition beans_reflect_register_annotation_type_field (owner name type_name : str) (A : annotations) : Z * annotations :=
  (t_len (ann_fields A),
   mkAnnotations (ann_types A) (ann_targets A) (table_push (ann_fields A) (mkAnnField owner name type_name (-1))) (anns A) (ann_values A)).
Definition beans_reflect_register_annotation (kind : Z) (owner member : str) (position : Z) (name : str) (A : annotations) : Z * annotations :=
  (t_len (anns A),
   mkAnnotations (ann_types A) (ann_targets A) (ann_fields A) (table_push (anns A) (mkAnnotation kind owner member position name)) (ann_values A)).
Definition push_value (v : BReflectAnnotationValue) (A : annotations) : Z * annotations :=
  (t_len (ann_values A),
   mkAnnotations (ann_types A) (ann_targets A) (ann_fields A) (anns A) (table_push (ann_values A) v)).
Definition beans_reflect_register_annotation_argument (annotation : Z) (name type_name : str) (kind : Z) (text : str) : annotations -> Z * annotations :=
  push_value (mkAnnValue annotation (-1) name type_name kind text).
Definition beans_reflect_register_annotation_value (parent : Z) (type_name : str) (kind : Z) (text : str) : annotations -> Z * annotations :=
  push_value (mkAnnValue (-1) parent [] type_name kind text).
Definition beans_reflect_register_annotation_default (field : Z) (type_name : str) (kind : Z) (text : str) (A : annotations) : option (Z * annotations) :=
  if (field <? 0) || (t_len (ann_fields A) <=? field) then Some (-1, A)
  else
    let '(id, A) := push_value (mkAnnValue (-1) (-1) [] type_name kind text) A in
    f ← row (ann_fields A) field;
    Some (id, mkAnnotations (ann_types A) (ann_targets A)
                (set_row (ann_fields A) field (mkAnnField (af_owner f) (af_name f) (af_type f) id)) (anns A) (ann_values A)).

Definition beans_reflect_annotation_type_count (A : annotations) : Z := t_len (ann_types A).
Definition beans_reflect_annotation_type_at (A : annotations) (index : Z) : str := row_in (ann_types A) index at_name [].
Definition beans_reflect_annotation_type_flags (A : annotations) (name : str) : option Z :=
  row_or (ann_types A) (reflect_annotation_type_id A name) at_flags (-1).
Definition beans_reflect_annotation_type_retention (A : annotations) (name : str) : option str :=
  row_or (ann_types A) (reflect_annotation_type_id A name) at_retention [].
Definition beans_reflect_annotation_type_target_count (A : annotations) (owner : str) : Z :=
  count_rows (fun t => beans_str_eq (tg_owner t) owner) (t_rows (ann_targets A)).
Definition beans_reflect_annotation_type_target_at (A : annotations) (owner : str) (wanted : Z) : option str :=
  row_or (ann_targets A) (scan_rows (fun t => beans_str_eq (tg_owner t) owner) (ann_targets A) wanted).1 tg_target [].

Definition reflect_annotation_field_id (A : annotations) (owner : str) (wanted : Z) : Z * Z :=
  scan_rows (fun f => beans_str_eq (af_owner f) owner) (ann_fields A) wanted.
Definition beans_reflect_annotation_type_field_count (A : annotations) (owner : str) : Z := (reflect_annotation_field_id A owner (-1)).2.
Definition beans_reflect_annotation_type_field_name (A : annotations) (owner : str) (index : Z) : option str :=
  row_or (ann_fields A) (reflect_annotation_field_id A owner index).1 af_name [].
Definition beans_reflect_annotation_type_field_type (A : annotations) (owner : str) (index : Z) : option str :=
  row_or (ann_fields A) (reflect_annotation_field_id A owner index).1 af_type [].
Definition beans_reflect_annotation_type_field_flags (A : annotations) (owner : str) (index : Z) : option Z :=
  row_or (ann_fields A) (reflect_annotation_field_id A owner index).1 (fun f => c_bool (0 <=? af_default f)) 0.
Definition beans_reflect_annotation_type_field_default (A : annotations) (owner : str) (index : Z) : option Z :=
  row_or (ann_fields A) (reflect_annotation_field_id A owner index).1 af_default (-1).

Definition annotation_is (kind : Z) (owner member : str) (position : Z) (a : BReflectAnnotation) : bool :=
  (an_kind a =? kind) && (an_position a =? position) && reflect_base_equal (an_owner a) owner && beans_str_eq (an_member a) member.
Definition beans_reflect_annotation_count (A : annotations) (kind : Z) (owner member : str) (position : Z) : Z :=
  count_rows (annotation_is kind owner member position) (t_rows (anns A)).
Definition beans_reflect_annotation_at (A : annotations) (kind : Z) (owner member : str) (position wanted : Z) : Z :=
  (scan_rows (annotation_is kind owner member position) (anns A) wanted).1.
Definition beans_reflect_annotation_name (A : annotations) (id : Z) : str := row_in (anns A) id an_name [].

Definition beans_reflect_annotation_argument_count (A : annotations) (annotation : Z) : Z :=
  count_rows (fun v => av_annotation v =? annotation) (t_rows (ann_values A)).
Definition beans_reflect_annotation_argument_at (A : annotations) (annotation wanted : Z) : Z :=
  (scan_rows (fun v => av_annotation v =? annotation) (ann_values A) wanted).1.
Definition beans_reflect_annotation_argument_name (A : annotations) (id : Z) : str := row_in (ann_values A) id av_name [].
Definition beans_reflect_annotation_value_kind (A : annotations) (id : Z) : Z := row_in (ann_values A) id av_kind 8.
Definition beans_reflect_annotation_value_type (A : annotations) (id : Z) : str := row_in (ann_values A) id av_type [].
Definition beans_reflect_annotation_value_text (A : annotations) (id : Z) : str := row_in (ann_values A) id av_text [].
Definition beans_reflect_annotation_value_bool (A : annotations) (id : Z) : Z :=
  c_bool (row_in (ann_values A) id (fun v => reflect_is (av_text v) (lit "true")) false).
Definition beans_reflect_annotation_value_item_count (A : annotations) (parent : Z) : Z :=
  count_rows (fun v => av_parent v =? parent) (t_rows (ann_values A)).
Definition beans_reflect_annotation_value_item_at (A : annotations) (parent wanted : Z) : Z :=
  (scan_rows (fun v => av_parent v =? parent) (ann_values A) wanted).1.

(** ** Registration programs *)

Inductive entry : Type :=
  | EType (name : str) (kind : Z) (base : option str)
  | EInitializer (owner : str) (flags call : Z)
  | EInterface (owner interface_name : str)
  | EField (owner name type_name : str) (flags : Z)
  | EFieldAccess (owner name : str) (get set : Z)
  | EMethod (owner name result_type : str) (flags : Z)
  | EMethodCall (owner name : str) (call : Z)
  | EParameter (owner callable name type_name : str) (passing : Z).

Definition enroll (e : entry) : registry -> option registry :=
  match e with
  | EType name kind base => beans_reflect_register_type name kind base
  | EInitializer owner flags call => beans_reflect_register_initializer owner flags call
  | EInterface owner interface_name => beans_reflect_register_interface owner interface_name
  | EField owner name type_name flags => beans_reflect_register_field owner name type_name flags
  | EFieldAccess owner name get set => beans_reflect_register_field_access owner name get set
  | EMethod owner name result_type flags => beans_reflect_register_method owner name result_type flags
  | EMethodCall owner name call => beans_reflect_register_method_call owner name call
  | EParameter owner callable name type_name passing => beans_reflect_register_method_parameter owner callable name type_name passing
  end.

Fixpoint enroll_all (es : list entry) (R : registry) : option registry :=
  match es with [] => Some R | e :: es => R ← enroll e R; enroll_all es R end.

Inductive fn_entry : Type :=
  | EFunction (qualified name result_type : str) (flags : Z)
  | EFunctionCall (qualified : str) (call : Z)
  | EFunctionParameter (function_name name type_name : str) (passing : Z).

Definition fn_enroll (e : fn_entry) : functions -> option functions :=
  match e with
  | EFunction qualified name result_type flags => beans_reflect_register_function qualified name result_type flags
  | EFunctionCall qualified call => beans_reflect_register_function_call qualified call
  | EFunctionParameter function_name name type_name passing => beans_reflect_register_function_parameter function_name name type_name passing
  end.

Fixpoint fn_enroll_all (es : list fn_entry) (F : functions) : option functions :=
  match es with [] => Some F | e :: es => F ← fn_enroll e F; fn_enroll_all es F end.
