(* ===== verification/ReflectProofs.v ===== *)
(** * ReflectProofs: the registry's names, indexes and attach lists

    Two names are base-equal when they agree up to the first [<].  The index
    is a linear-probing table ([WeakTable] has the geometry), its lookup
    yields the smallest matching id, which is the first matching row.  The
    invariant [reg_ok] ties every attach list to the rows that were filed
    under its owner. *)

From S2P Require Import Prelude Str StrProofs Hash Slots WeakTable Reflect.

Open Scope c_scope.

Implicit Types (slots : list (Z * Z)) (ix : BReflectIndex) (R : registry).

(** ** Names *)

Definition base_name (s : str) : str := take (base_loop s) s.

Lemma base_loop_le s : (base_loop s <= length s)%nat.
Proof. induction s as [|c s IH]; cbn; [lia|]. destruct (c =? ch_lt); lia. Qed.

Lemma length_base_name s : length (base_name s) = base_loop s.
Proof. unfold base_name. rewrite length_take. pose proof (base_loop_le s). lia. Qed.

Lemma sub_str_0 s n : sub_str s 0 (Z.of_nat n) = take n s.
Proof. unfold sub_str. by rewrite Nat2Z.id. Qed.

Lemma base_equal_spec l r : reflect_base_equal l r = bool_decide (base_name l = base_name r).
Proof.
  unfold reflect_base_equal, reflect_base_length. cbv zeta. destruct (Z.eqb_spec (Z.of_nat (base_loop l)) (Z.of_nat (base_loop r))) as [He|Hne]; cbn [andb].
  - apply Nat2Z.inj in He. rewrite !sub_str_0. rewrite memcmp_eq; [|by rewrite !length_take; pose proof (base_loop_le l); pose proof (base_loop_le r); lia].
    unfold base_name. by rewrite <-He.
  - symmetry. apply bool_decide_eq_false. intros He. apply (f_equal length) in He. rewrite !length_base_name in He. lia.
Qed.

Lemma str_eq_true a b : beans_str_eq a b = true <-> a = b.
Proof. by rewrite str_eq_spec, bool_decide_eq_true. Qed.

Lemma reflect_is_spec s text : reflect_is s text = bool_decide (s = text).
Proof.
  unfold reflect_is. destruct (Z.eqb_spec (slen s) (slen text)) as [He|Hne]; cbn [andb].
  - apply memcmp_eq. unfold slen in He. lia.
  - symmetry. apply bool_decide_eq_false. by intros ->.
Qed.

Lemma hash_base_ext l r : base_name l = base_name r -> reflect_hash_base l = reflect_hash_base r.
Proof.
  intros He. unfold reflect_hash_base, reflect_hash_span, reflect_base_length. rewrite !sub_str_0.
  change (take (base_loop l) l) with (base_name l). change (take (base_loop r) r) with (base_name r). by rewrite He.
Qed.

Lemma hash_member_ext l r name : base_name l = base_name r -> reflect_hash_member l name = reflect_hash_member r name.
Proof. intros He. unfold reflect_hash_member. by rewrite (hash_base_ext l r He). Qed.

Lemma nonzero_ne h : nonzero h <> 0.
Proof. unfold nonzero. by destruct (Z.eqb_spec h 0). Qed.

Lemma hash_base_ne s : reflect_hash_base s <> 0.
Proof. apply nonzero_ne. Qed.

Lemma hash_member_ne o s : reflect_hash_member o s <> 0.
Proof. apply nonzero_ne. Qed.

Lemma hash_span_ne s n : reflect_hash_span s n <> 0.
Proof. apply nonzero_ne. Qed.

(** ** The index *)

Section slots.
Context (cap : Z) (Hcap : 0 < cap) (Hmask : forall x, x &! (cap - 1) = x mod cap).

Record slots_ok slots : Prop := {
  so_length : Z.of_nat (length slots) = cap;
  so_reach : forall i, 0 <= i < cap -> cell_obj slots i <> 0 -> reach cap slots (cell_obj slots i mod cap) i
}.

Lemma mod_range x : 0 <= x mod cap < cap.
Proof. apply Z.mod_pos_bound. done. Qed.

Lemma step_pos slots s d : slots_ok slots -> (pos cap s d + 1) &! (Z.of_nat (length slots) - 1) = pos cap s (d + 1).
Proof. intros [Hl _]. rewrite Hl. exact (next_pos cap Hmask s d). Qed.

(** Behind [d] full cells there is an empty one before the round ends. *)
Lemma before_end slots s d : has_empty cap slots -> 0 <= d -> (forall j, 0 <= j < d -> cell_obj slots (pos cap s j) <> 0) -> d < cap.
Proof.
  intros (e & He & Hz) Hd Hb. destruct (decide (d < cap)) as [|Hn]; [done|]. pose proof (dist_range cap Hcap s e).
  exfalso. apply (Hb (dist cap s e)); [lia|]. by rewrite pos_dist.
Qed.

Lemma place_loop_spec slots x s : slots_ok slots -> has_empty cap slots -> forall fuel d, (Z.to_nat (cap - d) <= fuel)%nat -> 0 <= d ->
  (forall j, 0 <= j < d -> cell_obj slots (pos cap s j) <> 0) ->
  exists d', 0 <= d' < cap /\ place_loop fuel slots (pos cap s d) x = Some (<[Z.to_nat (pos cap s d') := x]> slots) /\
    (forall j, 0 <= j < d' -> cell_obj slots (pos cap s j) <> 0) /\ cell_obj slots (pos cap s d') = 0.
Proof.
  intros Hok He. induction fuel as [|fuel IH]; intros d Hf Hd Hb; pose proof (before_end slots s d He Hd Hb); [lia|].
  cbn [place_loop]. destruct (cell_lookup cap slots (pos cap s d) (so_length _ Hok) (pos_range cap Hcap s d)) as [c Hc].
  rewrite Hc. cbn [mbind option_bind fst]. destruct (Z.eqb_spec (cell_obj slots (pos cap s d)) 0) as [Hz|Hz].
  - exists d. split_and!; try done; lia.
  - rewrite step_pos by done. apply IH; [lia|lia|]. intros j Hj. destruct (decide (j = d)) as [->|]; [done|]. apply Hb. lia.
Qed.

Lemma place_slot slots h id : slots_ok slots -> has_empty cap slots -> h <> 0 -> exists slots',
  place slots (h, id) = Some slots' /\ slots_ok slots' /\ wfull slots' = wfull slots + 1 /\
  forall h' id', h' <> 0 -> has cap slots' h' id' <-> h' = h /\ id' = id \/ has cap slots h' id'.
Proof.
  intros Hok He Hh. pose proof Hok as [Hl Hr]. pose proof (mod_range h) as Hs. set (s := h mod cap) in *.
  destruct (place_loop_spec slots (h, id) s Hok He (length slots) 0) as (d & Hd & Hrun & Hb & Hz); [lia|lia|intros j; lia|].
  rewrite pos_0 in Hrun by done. set (q := pos cap s d) in *. pose proof (pos_range cap Hcap s d : 0 <= q < cap) as Hq.
  exists (<[Z.to_nat q := (h, id)]> slots). split; [|split; [split|split]].
  - unfold place. cbn [fst]. rewrite Hl, Hmask. exact Hrun.
  - by rewrite length_insert.
  - assert (Hq' : reach cap slots s q).
    { intros j Hj. rewrite (dist_pos cap s d Hd : dist cap s q = d) in Hj. by apply Hb. }
    intros i Hi. rewrite (cell_insert cap Hcap Hmask) by done. case_decide as Hqi; cbn [fst]; intros Hne; apply reach_fill; try done; [by subst|by apply Hr].
  - destruct (cell_lookup cap slots q Hl Hq) as [c0 Hc0]. rewrite (wfull_insert _ _ _ _ Hc0). cbn [fst]. rewrite Hz.
    rewrite (proj2 (Z.eqb_neq h 0) Hh). cbn. lia.
  - intros h' id' Hh'. destruct (cell_lookup cap slots q Hl Hq) as [c0 Hc0].
    rewrite (has_insert cap Hcap slots q _ (h, id) h' id' Hl Hq Hc0); [|cbn [fst]; rewrite Hz; intros; congruence|done].
    cbn [fst]. rewrite Hz. split; [intros [[= -> ->]|[? _]]; auto|intros [[-> ->]|?]; auto].
Qed.

(** The smallest id of the set [P], or -1. *)
Definition smallest (P : Z -> Prop) (best : Z) : Prop :=
  (best = -1 /\ forall id, ~ P id) \/ (0 <= best /\ P best /\ forall id, P id -> best <= id).

Lemma smallest_ext (P Q : Z -> Prop) b : (forall id, P id <-> Q id) -> smallest P b -> smallest Q b.
Proof. intros He [[-> Hn]|(Hb & Hp & Hm)]; [left|right]; [split; [done|]; intros id; rewrite <-He; apply Hn|]. split_and!; [done|by apply He|intros id; rewrite <-He; apply Hm]. Qed.

Lemma smallest_unique P b b' : smallest P b -> smallest P b' -> b = b'.
Proof.
  intros [[-> Hn]|(Hb & Hp & Hm)] [[-> Hn']|(Hb' & Hp' & Hm')]; [done|by destruct (Hn b')|by destruct (Hn' b)|].
  pose proof (Hm b' Hp'). pose proof (Hm' b Hp). lia.
Qed.

Lemma each_loop_spec slots hash (p : Z -> option bool) s : slots_ok slots -> has_empty cap slots -> hash <> 0 ->
  (forall id, has cap slots hash id -> 0 <= id /\ is_Some (p id)) -> s = hash mod cap ->
  forall fuel d best, (Z.to_nat (cap - d) <= fuel)%nat -> 0 <= d ->
  (forall j, 0 <= j < d -> cell_obj slots (pos cap s j) <> 0) ->
  smallest (fun id => p id = Some true /\ exists j, 0 <= j < d /\ slots !! Z.to_nat (pos cap s j) = Some (hash, id)) best ->
  exists b, each_loop fuel slots hash (pos cap s d) p best = Some b /\
    smallest (fun id => p id = Some true /\ has cap slots hash id) b.
Proof.
  intros Hok He Hh Hp Hs. induction fuel as [|fuel IH]; intros d best Hf Hd Hb Hbest; pose proof (before_end slots s d He Hd Hb) as Hlt; [lia|].
  cbn [each_loop]. destruct (cell_lookup cap slots (pos cap s d) (so_length _ Hok) (pos_range cap Hcap s d)) as [c Hc].
  rewrite Hc. cbn [mbind option_bind fst snd]. destruct (Z.eqb_spec (cell_obj slots (pos cap s d)) 0) as [Hz|Hz].
  - exists best. split; [done|]. revert Hbest. apply smallest_ext. intros id. split; intros [Hpid Hin]; (split; [done|]).
    + destruct Hin as (j & Hj & Hsl). exists (pos cap s j). split; [by apply pos_range|done].
    + destruct Hin as (i & Hi & Hsl). assert (Ho : cell_obj slots i = hash) by (unfold cell_obj; by rewrite Hsl).
      pose proof (so_reach _ Hok i Hi ltac:(lia)) as Hr. rewrite Ho, <-Hs in Hr. pose proof (dist_range cap Hcap s i) as Hdi.
      exists (dist cap s i). rewrite pos_dist by done. split; [|done]. destruct (decide (dist cap s i < d)) as [|Hge]; [lia|].
      destruct (decide (dist cap s i = d)) as [Heq|Hne].
      * rewrite <-Heq, pos_dist in Hz by done. lia.
      * by destruct (Hr d ltac:(lia)).
  - set (P' := fun id => p id = Some true /\ exists j, 0 <= j < d + 1 /\ slots !! Z.to_nat (pos cap s j) = Some (hash, id)).
    assert (Hsplit : forall id, P' id <-> (p id = Some true /\ exists j, 0 <= j < d /\ slots !! Z.to_nat (pos cap s j) = Some (hash, id)) \/
      (p id = Some true /\ slots !! Z.to_nat (pos cap s d) = Some (hash, id))).
    { intros id. unfold P'. split.
      - intros [Hpid (j & Hj & Hsl)]. destruct (decide (j = d)) as [->|]; [by right|left]. split; [done|]. exists j. split; [lia|done].
      - intros [[Hpid (j & Hj & Hsl)]|[Hpid Hsl]]; (split; [done|]); [exists j|exists d]; (split; [lia|done]). }
    assert (Hnext : forall b, smallest P' b -> exists b',
      each_loop fuel slots hash ((pos cap s d + 1) &! (Z.of_nat (length slots) - 1)) p b = Some b' /\ smallest (fun id => p id = Some true /\ has cap slots hash id) b').
    { intros b Hsm. rewrite step_pos by done. apply IH; [lia|lia| |exact Hsm]. intros j Hj. destruct (decide (j = d)) as [->|]; [done|]. apply Hb. lia. }
    rewrite Hc in Hsplit. destruct (Z.eqb_spec (cell_obj slots (pos cap s d)) hash) as [Hq|Hq].
    + assert (Hhas : has cap slots hash c) by (exists (pos cap s d); split; [by apply pos_range|by rewrite Hc, Hq]).
      destruct (Hp c Hhas) as [Hc0 [b Hpc]]. rewrite Hpc. cbn [mbind option_bind].
      destruct ((best <? 0) || (c <? best)) eqn:Ht; cbn [mbind option_bind].
      * apply Hnext. destruct b.
        -- right. split; [done|]. split; [apply Hsplit; right; by rewrite Hq|]. intros id [[Hpid Hj]|[_ [= <-]]]%Hsplit; [|lia].
           destruct Hbest as [[_ Hn]|(Hb0 & _ & Hm)]; [by destruct (Hn id)|]. pose proof (Hm id (conj Hpid Hj)). bools. destruct Ht; bools; lia.
        -- revert Hbest. apply smallest_ext. intros id. rewrite Hsplit. split; [by left|]. intros [?|[Hpid [= <- <-]]]; [done|congruence].
      * apply Hnext. destruct Hbest as [[-> Hn]|(Hb0 & Hpb & Hm)]; [done|]. right. split; [done|]. split; [apply Hsplit; by left|].
        bools. intros id [?|[_ [= _ <-]]]%Hsplit; [by apply Hm|lia].
    + cbn [mbind option_bind]. apply Hnext. revert Hbest. apply smallest_ext. intros id. rewrite Hsplit. split; [by left|].
      intros [?|[_ [= He' _]]]; [done|congruence].
Qed.
End slots.

(** [ix] holds the entries [E], with an empty slot to spare. *)
Definition index_reps ix (E : list (Z * Z)) : Prop :=
  ix_len ix = Z.of_nat (length E) /\ Forall (fun x => x.1 <> 0 /\ 0 <= x.2) E /\
  if ix_cap ix =? 0 then E = []
  else (exists b, 0 < b /\ ix_cap ix = 2 ^ b) /\ 256 <= ix_cap ix /\ slots_ok (ix_cap ix) (ix_slots ix) /\
    wfull (ix_slots ix) = Z.of_nat (length E) /\ Z.of_nat (length E) * 4 <= ix_cap ix * 3 + 3 /\
    forall h id, h <> 0 -> has (ix_cap ix) (ix_slots ix) h id <-> (h, id) ∈ E.

Lemma index_empty : index_reps no_index [].
Proof. done. Qed.

Lemma slots_empty cap : 0 < cap -> slots_ok cap (replicate (Z.to_nat cap) (0, 0)).
Proof.
  intros Hc. split; [rewrite length_replicate; lia|]. intros i Hi. unfold cell_obj. by rewrite lookup_replicate_2 by lia.
Qed.

Lemma rehash_ok cap : 0 < cap -> (forall x, x &! (cap - 1) = x mod cap) -> forall old slots, slots_ok cap slots -> wfull slots + wfull old < cap ->
  exists slots', rehash old slots = Some slots' /\ slots_ok cap slots' /\ wfull slots' = wfull slots + wfull old /\
    forall h id, h <> 0 -> has cap slots' h id <-> (h, id) ∈ old \/ has cap slots h id.
Proof.
  intros Hcap Hmask. induction old as [|[h id] old IH]; intros slots Hok Hn; cbn [rehash].
  - exists slots. split; [done|]. split; [done|]. split; [unfold wfull at 3; cbn; lia|]. intros h id Hh. rewrite elem_of_nil. tauto.
  - cbn [fst]. rewrite wfull_cons in Hn |- *. cbn [fst] in Hn |- *. assert (0 <= wfull old) by (unfold wfull; lia). destruct (Z.eqb_spec h 0) as [->|Hh].
    + destruct (IH slots Hok ltac:(lia)) as (slots' & Hrun & Hok' & Hn' & Hhas). exists slots'. split_and!; [done|done|lia|].
      intros h' id' Hh'. rewrite Hhas, elem_of_cons by done. split; [tauto|]. intros [[[= -> ->]|]|]; tauto.
    + destruct (place_slot cap Hcap Hmask slots h id Hok) as (s1 & -> & Hok1 & Hn1 & Hhas1); [apply table_has_empty; [apply Hok|lia]|done|].
      cbn [mbind option_bind]. destruct (IH s1 Hok1 ltac:(lia)) as (slots' & Hrun & Hok' & Hn' & Hhas). exists slots'.
      split_and!; [done|done|lia|]. intros h' id' Hh'. rewrite Hhas, Hhas1, elem_of_cons by done.
      split; [intros [|[[-> ->]|]]; auto|intros [[[= -> ->]|]|]; auto].
Qed.

Lemma has_slots cap slots h id : Z.of_nat (length slots) = cap -> has cap slots h id <-> (h, id) ∈ slots.
Proof.
  intros Hl. split; [intros (i & Hi & Hs); by eapply list_elem_of_lookup_2|]. intros (i & Hi)%list_elem_of_lookup.
  exists (Z.of_nat i). rewrite Nat2Z.id. split; [apply lookup_lt_Some in Hi; lia|done].
Qed.

Lemma index_insert_reps ix E h id : index_reps ix E -> h <> 0 -> 0 <= id ->
  exists ix', reflect_index_insert ix h id = Some ix' /\ index_reps ix' (E ++ [(h, id)]).
Proof.
  intros (Hlen & Hall & Hix) Hh Hid.
  assert (Hroom : exists cap slots, (if (ix_cap ix =? 0) || (ix_cap ix * 3 <=? ix_len ix * 4) then
      let next := if ix_cap ix =? 0 then 256 else ix_cap ix * 2 in rehash (ix_slots ix) (replicate (Z.to_nat next) (0, 0))
    else Some (ix_slots ix)) = Some slots /\ (exists b, 0 < b /\ cap = 2 ^ b) /\ 256 <= cap /\ slots_ok cap slots /\
    wfull slots = Z.of_nat (length E) /\ Z.of_nat (length E) * 4 < cap * 3 /\ forall h id, h <> 0 -> has cap slots h id <-> (h, id) ∈ E).
  { destruct (Z.eqb_spec (ix_cap ix) 0) as [Hz|Hz]; cbn [orb].
    - rewrite Hix. assert (ix_slots ix = []) as -> by (apply nil_length_inv; unfold ix_cap in Hz; lia). exists 256, (replicate (Z.to_nat 256) (0, 0)).
      assert (Hok : slots_ok 256 (replicate (Z.to_nat 256) (0, 0))) by (apply slots_empty; lia).
      split; [done|]. split; [by exists 8|]. split; [lia|]. split; [done|]. split; [by rewrite wfull_replicate|]. split; [cbn; lia|].
      intros h' id' Hh'. rewrite (has_slots 256) by apply Hok. rewrite elem_of_replicate, elem_of_nil. split; [intros [[= -> _] _]; done|done].
    - destruct Hix as ((b & Hb & Hcap) & H256 & Hok & Hfull & Hload & Hhas). rewrite Hlen. destruct (Z.leb_spec (ix_cap ix * 3) (Z.of_nat (length E) * 4)) as [Hle|Hgt].
      + cbv zeta. set (cap := ix_cap ix * 2) in *. assert (Hc : 0 < cap) by lia.
        assert (Hpow : cap = 2 ^ (b + 1)) by (rewrite Z.pow_add_r by lia; lia).
        assert (Hmask : forall x, x &! (cap - 1) = x mod cap) by (intros x; rewrite Hpow; apply pow_mask; lia).
        pose proof (slots_empty cap Hc) as Hnew.
        destruct (rehash_ok cap Hc Hmask (ix_slots ix) _ Hnew) as (slots & Hrun & Hok' & Hn & Hhas'); [rewrite wfull_replicate; lia|].
        rewrite wfull_replicate in Hn. exists cap, slots. split; [done|]. split; [exists (b + 1); split; [lia|done]|].
        split_and!; [lia|done|lia|lia|]. intros h' id' Hh'. rewrite Hhas', <-(has_slots (ix_cap ix)), Hhas by (apply Hok || done).
        split; [|by left]. intros [|Hr]; [done|]. apply (has_slots cap) in Hr; [|apply Hnew]. apply elem_of_replicate in Hr as [[= -> _] _]. done.
      + exists (ix_cap ix), (ix_slots ix). split; [done|]. split; [by exists b|]. split_and!; [done|done|done|lia|done]. }
  destruct Hroom as (cap & slots & Hrun & (b & Hb & Hcap) & H256 & Hok & Hfull & Hload & Hhas).
  assert (Hmask : forall x, x &! (cap - 1) = x mod cap) by (intros x; rewrite Hcap; apply pow_mask; lia).
  destruct (place_slot cap ltac:(lia) Hmask slots h id Hok) as (s1 & Hp & Hok1 & Hn1 & Hhas1); [apply table_has_empty; [apply Hok|lia]|done|].
  exists (mkIndex s1 (ix_len ix + 1)). split; [unfold reflect_index_insert; cbv zeta in Hrun |- *; rewrite Hrun; cbn [mbind option_bind]; by rewrite Hp|].
  assert (Hc1 : ix_cap (mkIndex s1 (ix_len ix + 1)) = cap) by apply Hok1.
  split; [cbn; rewrite length_app; cbn; lia|]. split; [apply Forall_app; split; [done|by repeat constructor]|]. rewrite Hc1, (proj2 (Z.eqb_neq cap 0)) by lia.
  split; [by exists b|]. rewrite length_app. cbn [length ix_slots]. split_and!; [done|done|lia|lia|].
  intros h' id' Hh'. rewrite Hhas1, Hhas, elem_of_app, list_elem_of_singleton by done. split; [intros [[-> ->]|]; auto|intros [|[= -> ->]]; auto].
Qed.

Lemma index_each ix E hash p : index_reps ix E -> hash <> 0 -> (forall id, (hash, id) ∈ E -> is_Some (p id)) ->
  exists b, REFLECT_INDEX_EACH ix hash p = Some b /\ smallest (fun id => p id = Some true /\ (hash, id) ∈ E) b.
Proof.
  intros (Hlen & Hall & Hix) Hh Hp. unfold REFLECT_INDEX_EACH. destruct (Z.eqb_spec (ix_cap ix) 0) as [Hz|Hz].
  - subst E. exists (-1). split; [done|]. left. split; [done|]. by intros id [_ ?%elem_of_nil].
  - destruct Hix as ((b & Hb & Hcap) & H256 & Hok & Hfull & Hload & Hhas). assert (Hc : 0 < ix_cap ix) by lia.
    assert (Hmask : forall x, x &! (ix_cap ix - 1) = x mod ix_cap ix) by (intros x; rewrite Hcap; apply pow_mask; lia).
    pose proof (mod_range _ Hc hash) as Hs.
    destruct (each_loop_spec _ Hc Hmask (ix_slots ix) hash p (hash mod ix_cap ix) Hok) with (fuel := S (length (ix_slots ix))) (d := 0) (best := -1)
      as (best & Hrun & Hsm); [apply table_has_empty; [apply Hok|lia]|done| |done|unfold ix_cap; lia|lia|intros j; lia|left; split; [done|intros id [_ (j & Hj & _)]; lia]|].
    { intros id Hin%Hhas; [|done]. split; [|by apply Hp]. rewrite Forall_forall in Hall. by apply (Hall _ Hin). }
    rewrite pos_0 in Hrun by done. exists best. rewrite Hmask. split; [exact Hrun|]. revert Hsm. apply smallest_ext. intros id. by rewrite Hhas.
Qed.

(** ** Rows *)

Section rows.
Context {A : Type}.
Implicit Types (t : table A) (p q : A -> bool) (l : list A).

Lemma row_nat t (i : nat) : row t (Z.of_nat i) = t_rows t !! i.
Proof. unfold row. rewrite (proj2 (Z.ltb_ge _ _)) by lia. by rewrite Nat2Z.id. Qed.

Lemma row_range t id x : row t id = Some x -> 0 <= id < t_len t.
Proof. unfold row, t_len. destruct (Z.ltb_spec id 0); [done|]. intros Hx%lookup_lt_Some. lia. Qed.

Lemma row_some t id : 0 <= id < t_len t -> is_Some (row t id).
Proof. unfold row, t_len. intros Hi. rewrite (proj2 (Z.ltb_ge _ _)) by lia. apply lookup_lt_is_Some_2. lia. Qed.

Lemma t_len_push t x : t_len (table_push t x) = t_len t + 1.
Proof. unfold t_len. cbn. rewrite length_app. cbn. lia. Qed.

Lemma row_push t x id : row (table_push t x) id = if id =? t_len t then Some x else row t id.
Proof.
  unfold row, t_len. cbn. destruct (Z.eqb_spec id (Z.of_nat (length (t_rows t)))) as [->|Hne].
  - rewrite (proj2 (Z.ltb_ge _ _)), Nat2Z.id by lia. by apply list_lookup_middle.
  - destruct (Z.ltb_spec id 0); [done|]. destruct (decide (Z.to_nat id < length (t_rows t))%nat).
    + by rewrite lookup_app_l.
    + rewrite !lookup_ge_None_2; [done|lia|rewrite length_app; cbn; lia].
Qed.

Lemma row_set t id id' x : 0 <= id < t_len t -> row (set_row t id x) id' = if id' =? id then Some x else row t id'.
Proof.
  unfold row, t_len. cbn. intros Hi. destruct (Z.eqb_spec id' id) as [->|Hne].
  - rewrite (proj2 (Z.ltb_ge _ _)) by lia. apply list_lookup_insert_eq. lia.
  - destruct (Z.ltb_spec id' 0); [done|]. by rewrite list_lookup_insert_ne by lia.
Qed.

Lemma t_len_set t id x : t_len (set_row t id x) = t_len t.
Proof. unfold t_len. cbn. by rewrite length_insert. Qed.

(** The first row with [p] is the smallest id of one. *)
Lemma first_loop_spec p l : forall i, 0 <= i ->
  smallest (fun id => exists k x, l !! k = Some x /\ id = i + Z.of_nat k /\ p x = true) (first_loop p l i).
Proof.
  induction l as [|x l IH]; intros i Hi; cbn [first_loop]; [left; split; [done|by intros id (k & y & ? & _)]|].
  destruct (p x) eqn:Hp.
  - right. split; [done|]. split; [exists O, x; split_and!; [done|lia|done]|]. intros id (k & y & _ & -> & _). lia.
  - specialize (IH (i + 1) ltac:(lia)). revert IH. apply smallest_ext. intros id. split.
    + intros (k & y & Hk & -> & Hy). exists (S k), y. split_and!; [done|lia|done].
    + intros ([|k] & y & Hk & -> & Hy); [injection Hk as ->; congruence|]. exists k, y. split_and!; [done|lia|done].
Qed.

Lemma first_row_spec p t : smallest (fun id => exists x, row t id = Some x /\ p x = true) (first_row p t).
Proof.
  pose proof (first_loop_spec p (t_rows t) 0 ltac:(lia)) as Hs. revert Hs. apply smallest_ext. intros id. split.
  - intros (k & x & Hk & -> & Hx). exists x. split; [by rewrite Z.add_0_l, row_nat|done].
  - intros (x & Hr & Hx). pose proof (row_range _ _ _ Hr). exists (Z.to_nat id), x. split_and!; [|lia|done].
    rewrite <-row_nat, Z2Nat.id; [done|lia].
Qed.

Lemma first_row_range p t : -1 <= first_row p t < t_len t.
Proof.
  destruct (first_row_spec p t) as [[-> _]|(Hb & (x & Hr & _) & _)]; [unfold t_len; lia|]. pose proof (row_range _ _ _ Hr). lia.
Qed.

Lemma first_row_hit p t : 0 <= first_row p t -> exists x, row t (first_row p t) = Some x /\ p x = true.
Proof. intros H0. destruct (first_row_spec p t) as [[He _]|(_ & ? & _)]; [lia|done]. Qed.

Lemma first_row_ext p q t : (forall x, p x = q x) -> first_row p t = first_row q t.
Proof. intros He. unfold first_row. generalize 0. induction (t_rows t) as [|x l IH]; intros i; [done|]. cbn. by rewrite He, IH. Qed.

Lemma first_row_push p t x : first_row p (table_push t x) = if 0 <=? first_row p t then first_row p t else if p x then t_len t else -1.
Proof.
  pose proof (first_row_spec p t) as Hs. pose proof (first_row_spec p (table_push t x)) as Hs'.
  assert (Hrow : forall id y, row (table_push t x) id = Some y <-> (id = t_len t /\ y = x) \/ row t id = Some y).
  { intros id y. rewrite row_push. destruct (Z.eqb_spec id (t_len t)) as [->|Hne]; [|by split; [by right|intros [[? _]|?]]].
    split; [intros [= ->]; by left|]. intros [[_ ->]|Hr]; [done|]. apply row_range in Hr. lia. }
  apply (smallest_unique _ _ _ Hs'). destruct (Z.leb_spec 0 (first_row p t)) as [H0|H0].
  - destruct Hs as [[? _]|(_ & (y & Hy & Hpy) & Hm)]; [lia|]. right. split; [done|]. split; [exists y; rewrite Hrow; auto|].
    intros id (z & [[-> _]|Hz]%Hrow & Hpz); [apply row_range in Hy; lia|]. apply Hm. by exists z.
  - destruct Hs as [[_ Hn]|(? & _)]; [|lia]. destruct (p x) eqn:Hp.
    + right. split; [unfold t_len; lia|]. split; [exists x; rewrite Hrow; auto|]. intros id (z & [[-> _]|Hz]%Hrow & Hpz); [lia|].
      destruct (Hn id). by exists z.
    + left. split; [done|]. intros id (z & [[_ ->]|Hz]%Hrow & Hpz); [congruence|]. apply (Hn id). by exists z.
Qed.

Lemma first_row_set p t id x y : row t id = Some x -> p y = p x -> first_row p (set_row t id y) = first_row p t.
Proof.
  intros Hx Hp. pose proof (row_range _ _ _ Hx) as Hi. apply (smallest_unique _ _ _ (first_row_spec p (set_row t id y))).
  pose proof (first_row_spec p t) as Hs. revert Hs. apply smallest_ext. intros id'. rewrite row_set by done.
  destruct (Z.eqb_spec id' id) as [->|]; [|done]. rewrite Hx. split; [intros (z & [= <-] & Hz)|intros (z & [= <-] & Hz)]; eexists; split; try done; congruence.
Qed.

(** The entries an index keeps for a table. *)
Definition entries_of (f : A -> Z) t : list (Z * Z) := imap (fun i x => (f x, Z.of_nat i)) (t_rows t).

Lemma entries_in f t h id : (h, id) ∈ entries_of f t <-> exists x, row t id = Some x /\ h = f x.
Proof.
  unfold entries_of. rewrite elem_of_lookup_imap. split.
  - intros (i & x & [= -> ->] & Hx). exists x. by rewrite row_nat.
  - intros (x & Hx & ->). pose proof (row_range _ _ _ Hx). exists (Z.to_nat id), x. rewrite Z2Nat.id by lia. split; [done|].
    rewrite <-row_nat, Z2Nat.id; [done|lia].
Qed.

Lemma entries_push f t x : entries_of f (table_push t x) = entries_of f t ++ [(f x, t_len t)].
Proof. unfold entries_of, t_len. cbn. rewrite imap_app. cbn. by rewrite Nat.add_0_r. Qed.

Lemma entries_set f t id x y : row t id = Some x -> f y = f x -> entries_of f (set_row t id y) = entries_of f t.
Proof.
  intros Hx Hf. unfold entries_of. cbn. apply list_eq. intros i. rewrite !list_lookup_imap. pose proof (row_range _ _ _ Hx).
  destruct (decide (i = Z.to_nat id)) as [->|Hne]; [|by rewrite list_lookup_insert_ne].
  assert (Hl : t_rows t !! Z.to_nat id = Some x) by (rewrite <-row_nat, Z2Nat.id; [done|lia]).
  rewrite list_lookup_insert_eq by (by eapply lookup_lt_Some). rewrite Hl. cbn. by rewrite Hf.
Qed.

(** An index lookup is the linear scan. *)
Lemma lookup_first ix t f q hash : index_reps ix (entries_of f t) -> hash <> 0 -> (forall x, q x = true -> f x = hash) ->
  REFLECT_INDEX_EACH ix hash (fun id => x ← row t id; Some (q x)) = Some (first_row q t).
Proof.
  intros Hix Hh Hq. destruct (index_each ix _ hash (fun id => x ← row t id; Some (q x)) Hix Hh) as (b & Hb & Hs).
  { intros id (x & Hx & _)%entries_in. rewrite Hx. by eexists. }
  rewrite Hb. f_equal. apply (smallest_unique _ _ _ Hs). pose proof (first_row_spec q t) as Hf. revert Hf. apply smallest_ext.
  intros id. split.
  - intros (x & Hx & Hqx). rewrite Hx. cbn. rewrite Hqx. split; [done|]. apply entries_in. exists x. split; [done|]. symmetry. auto.
  - intros [Hp (x & Hx & _)%entries_in]. exists x. split; [done|]. rewrite Hx in Hp. cbn in Hp. by injection Hp.
Qed.

(** *** Ids of the rows with a property *)

Fixpoint ids_loop p l (i : Z) : list Z :=
  match l with [] => [] | x :: l => if p x then i :: ids_loop p l (i + 1) else ids_loop p l (i + 1) end.
Definition ids_where p l : list Z := ids_loop p l 0.

Lemma ids_loop_app p l l' i : ids_loop p (l ++ l') i = ids_loop p l i ++ ids_loop p l' (i + Z.of_nat (length l)).
Proof.
  revert i. induction l as [|x l IH]; intros i; cbn [app ids_loop length]; [by rewrite Z.add_0_r|]. rewrite IH.
  replace (i + 1 + Z.of_nat (length l)) with (i + Z.of_nat (S (length l))) by lia. by destruct (p x).
Qed.

Lemma ids_where_app p l x : ids_where p (l ++ [x]) = ids_where p l ++ (if p x then [Z.of_nat (length l)] else []).
Proof. unfold ids_where. rewrite ids_loop_app. cbn. by destruct (p x). Qed.

Lemma ids_where_ext p q l : (forall x, x ∈ l -> p x = q x) -> ids_where p l = ids_where q l.
Proof.
  unfold ids_where. generalize 0. induction l as [|x l IH]; intros i He; [done|]. cbn. rewrite (He x) by (by left).
  rewrite IH; [done|]. intros y Hy. apply He. by right.
Qed.

Lemma ids_where_none p l : (forall x, x ∈ l -> p x = false) -> ids_where p l = [].
Proof.
  unfold ids_where. generalize 0. induction l as [|x l IH]; intros i He; [done|]. cbn. rewrite (He x) by (by left).
  apply IH. intros y Hy. apply He. by right.
Qed.

Lemma ids_loop_in p l i id : id ∈ ids_loop p l i <-> exists k x, l !! k = Some x /\ id = i + Z.of_nat k /\ p x = true.
Proof.
  revert i. induction l as [|x l IH]; intros i; cbn [ids_loop]; [rewrite elem_of_nil; split; [done|by intros (k & y & ? & _)]|].
  assert (Hsplit : (exists k y, (x :: l) !! k = Some y /\ id = i + Z.of_nat k /\ p y = true) <->
    (id = i /\ p x = true) \/ exists k y, l !! k = Some y /\ id = i + 1 + Z.of_nat k /\ p y = true).
  { split.
    - intros ([|k] & y & Hk & -> & Hy); [injection Hk as ->; left; split; [lia|done]|right]. exists k, y. split_and!; [done|lia|done].
    - intros [[-> Hp]|(k & y & Hk & -> & Hy)]; [exists O, x; split_and!; [done|lia|done]|exists (S k), y; split_and!; [done|lia|done]]. }
  rewrite Hsplit, <-IH. destruct (p x); [rewrite elem_of_cons; tauto|]. intuition discriminate.
Qed.

Lemma ids_where_in p t id : id ∈ ids_where p (t_rows t) <-> exists x, row t id = Some x /\ p x = true.
Proof.
  unfold ids_where. rewrite ids_loop_in. split.
  - intros (k & x & Hk & -> & Hx). exists x. split; [by rewrite Z.add_0_l, row_nat|done].
  - intros (x & Hr & Hx). pose proof (row_range _ _ _ Hr). exists (Z.to_nat id), x. split_and!; [|lia|done].
    rewrite <-row_nat, Z2Nat.id; [done|lia].
Qed.

(** A scan walks the ids: what it finds, and what it counts. *)
Lemma scan_loop_spec p l : forall i current wanted, scan_loop p l i current wanted =
  if (current <=? wanted) && (wanted <? current + slen (ids_loop p l i))
  then (default (-1) (ids_loop p l i !! Z.to_nat (wanted - current)), wanted + 1) else (-1, current + slen (ids_loop p l i)).
Proof.
  induction l as [|x l IH]; intros i current wanted; cbn [scan_loop ids_loop].
  - change (slen []) with 0. rewrite Z.add_0_r. by destruct (Z.leb_spec current wanted), (Z.ltb_spec wanted current); try lia.
  - pose proof (slen_nonneg (ids_loop p l (i + 1))). destruct (p x); [|apply IH]. rewrite slen_cons. destruct (Z.eqb_spec current wanted) as [->|Hne].
    + rewrite Z.leb_refl, (proj2 (Z.ltb_lt _ _)) by lia. by rewrite Z.sub_diag.
    + rewrite IH. destruct (Z.leb_spec (current + 1) wanted), (Z.leb_spec current wanted); try lia; cbn [andb].
      * replace (current + 1 + slen (ids_loop p l (i + 1))) with (current + (1 + slen (ids_loop p l (i + 1)))) by lia.
        destruct (_ <? _); [|done]. replace (Z.to_nat (wanted - current)) with (S (Z.to_nat (wanted - (current + 1)))) by lia. done.
      * f_equal. lia.
Qed.

Lemma scan_attached p t wanted cap : scan_rows p t wanted = attached (mkIds (ids_where p (t_rows t)) cap) wanted.
Proof. unfold scan_rows, attached, l_len, ids_where. cbn [l_ids]. rewrite scan_loop_spec, Z.add_0_l, Z.sub_0_r. done. Qed.

Lemma count_rows_ids p l : count_rows p l = slen (ids_where p l).
Proof.
  unfold ids_where. generalize 0. induction l as [|x l IH]; intros i; [done|]. cbn [count_rows ids_loop].
  destruct (p x); [rewrite slen_cons, (IH (i + 1)); done|apply IH].
Qed.
End rows.

(** ** The invariant of the registry *)

Definition type_first R (owner : str) : Z := first_row (fun t => reflect_base_equal (ty_name t) owner) (types R).
Definition method_first R (owner name : str) : Z :=
  first_row (fun m => reflect_base_equal (m_owner m) owner && beans_str_eq (m_name m) name) (methods R).

(** The rows with [rel] are filed under the owner [find] gives: every such row
    has one, and the owner's list [list_of] has exactly its rows, in order. *)
Record filed {A} (rel : A -> bool) (find : A -> Z) (rows : list A) (list_of : Z -> option BReflectIdListHead) : Prop := {
  fd_found : forall x, x ∈ rows -> rel x = true -> 0 <= find x;
  fd_lists : forall id l, list_of id = Some l -> l_ids l = ids_where (fun x => rel x && (find x =? id)) rows
}.

Section filed.
Context {A : Type} (rel : A -> bool) (find : A -> Z) (rows : list A) (list_of : Z -> option BReflectIdListHead).

Lemma filed_ext find' list_of' : filed rel find rows list_of -> (forall x, x ∈ rows -> rel x = true -> find' x = find x) ->
  (forall id l', list_of' id = Some l' -> exists l, list_of id = Some l /\ l_ids l' = l_ids l) -> filed rel find' rows list_of'.
Proof.
  intros [Hf Hl] He Hl'. split; [intros x Hx Hr; rewrite He by done; by apply Hf|]. intros id l' Hid. destruct (Hl' id l' Hid) as (l & Hl0 & ->).
  rewrite (Hl _ _ Hl0). apply ids_where_ext. intros x Hx. destruct (rel x) eqn:Hr; [|done]. cbn. by rewrite He.
Qed.

(** A new owner: the rows there are already have theirs. *)
Lemma filed_owner find' list_of' n : filed rel find rows list_of -> (forall x, x ∈ rows -> rel x = true -> find' x = find x /\ find x < n) ->
  (forall id l', list_of' id = Some l' -> (id = n /\ l_ids l' = []) \/ list_of id = Some l') -> filed rel find' rows list_of'.
Proof.
  intros [Hf Hl] He Hl'. split; [intros x Hx Hr; rewrite (proj1 (He x Hx Hr)); by apply Hf|]. intros id l' Hid.
  destruct (Hl' id l' Hid) as [[-> Hnil]|Hl0].
  - rewrite Hnil. symmetry. apply ids_where_none. intros x Hx. destruct (rel x) eqn:Hr; [|done]. cbn. destruct (He x Hx Hr) as [-> ?].
    apply Z.eqb_neq. lia.
  - rewrite (Hl _ _ Hl0). apply ids_where_ext. intros x Hx. destruct (rel x) eqn:Hr; [|done]. cbn. by rewrite (proj1 (He x Hx Hr)).
Qed.

Lemma filed_attach list_of' x l : filed rel find rows list_of -> rel x = true -> 0 <= find x -> list_of (find x) = Some l ->
  (forall id l', list_of' id = Some l' -> if id =? find x then l_ids l' = l_ids l ++ [Z.of_nat (length rows)] else list_of id = Some l') ->
  filed rel find (rows ++ [x]) list_of'.
Proof.
  intros [Hf Hl] Hr Hx Hlx Hl'. split.
  - intros y [Hy|Hy]%elem_of_app; [by apply Hf|]. apply list_elem_of_singleton in Hy as ->. done.
  - intros id l' Hid. specialize (Hl' id l' Hid). rewrite ids_where_app, Hr. cbn [andb].
    destruct (Z.eqb_spec id (find x)) as [->|Hne]; [rewrite Z.eqb_refl, Hl'; f_equal; by apply Hl|].
    rewrite (proj2 (Z.eqb_neq _ _)) by done. rewrite app_nil_r. by apply Hl.
Qed.

Lemma filed_skip x : filed rel find rows list_of -> rel x = false -> filed rel find (rows ++ [x]) list_of.
Proof.
  intros [Hf Hl] Hr. split.
  - intros y [Hy|Hy]%elem_of_app; [by apply Hf|]. apply list_elem_of_singleton in Hy as ->. congruence.
  - intros id l Hid. rewrite ids_where_app, Hr, app_nil_r. by apply Hl.
Qed.
End filed.

Definition lists_of {A} (t : table A) (get : A -> BReflectIdListHead) (id : Z) : option BReflectIdListHead := x ← row t id; Some (get x).

Definition type_key (t : BReflectType) : Z := reflect_hash_base (ty_name t).
Definition method_key (m : BReflectMethod) : Z := reflect_hash_member (m_owner m) (m_name m).

Record reg_ok R : Prop := {
  ro_types : index_reps (type_index R) (entries_of type_key (types R));
  ro_methods : index_reps (method_index R) (entries_of method_key (methods R));
  ro_ifaces : interface_orphans R = false ->
    filed (fun _ => true) (fun i => type_first R (if_owner i)) (t_rows (interfaces R)) (lists_of (types R) ty_ifaces);
  ro_fields : field_orphans R = false ->
    filed (fun _ => true) (fun f => type_first R (f_owner f)) (t_rows (fields R)) (lists_of (types R) ty_fields);
  ro_inits : init_param_orphans R = false ->
    filed (fun p => is_init (p_callable p)) (fun p => type_first R (p_owner p)) (t_rows (params R)) (lists_of (types R) ty_init_params);
  ro_params : method_param_orphans R = false ->
    filed (fun p => negb (is_init (p_callable p))) (fun p => method_first R (p_owner p) (p_callable p)) (t_rows (params R))
      (lists_of (methods R) m_params)
}.

Lemma empty_ok : reg_ok empty_registry.
Proof.
  assert (Hno : forall A (get : A -> BReflectIdListHead) id l, lists_of no_rows get id = Some l -> l_ids l = []).
  { intros A get id l. unfold lists_of, row. cbn. by destruct (id <? 0). }
  split; try done; intros _; (split; [by intros x ?%elem_of_nil|]); intros id l Hl; by rewrite (Hno _ _ _ _ Hl).
Qed.

(** *** Lookups *)

Lemma find_type_first R name : reg_ok R -> reflect_find_type R name = Some (type_first R name).
Proof.
  intros Hok. apply (lookup_first _ _ type_key); [apply Hok|apply hash_base_ne|].
  intros t. rewrite base_equal_spec, bool_decide_eq_true. apply hash_base_ext.
Qed.

Lemma type_exact_first R name : reg_ok R -> reflect_type_id_exact R name = Some (first_row (fun t => beans_str_eq (ty_name t) name) (types R)).
Proof.
  intros Hok. apply (lookup_first _ _ type_key); [apply Hok|apply hash_base_ne|]. intros t. rewrite str_eq_true. by unfold type_key; intros ->.
Qed.

Lemma method_on_first R owner name : reg_ok R -> reflect_method_id_on R owner name = Some (method_first R owner name).
Proof.
  intros Hok. apply (lookup_first _ _ method_key); [apply Hok|apply hash_member_ne|].
  intros m [Ho Hn]%andb_true_iff. rewrite base_equal_spec, bool_decide_eq_true in Ho. apply str_eq_true in Hn.
  unfold method_key. rewrite Hn. by apply hash_member_ext.
Qed.

(** *** Registration *)

(** A change of one type's lists or flags. *)
Section update.
Context (R : registry) (id : Z) (t t' : BReflectType) (Hok : reg_ok R) (Ht : row (types R) id = Some t) (Hname : ty_name t' = ty_name t).

Let T' : table BReflectType := set_row (types R) id t'.

Lemma update_range : 0 <= id < t_len (types R).
Proof. by eapply row_range. Qed.

Lemma update_entries : entries_of type_key T' = entries_of type_key (types R).
Proof. apply (entries_set _ _ _ t); [done|]. unfold type_key. by rewrite Hname. Qed.

Lemma update_first owner : first_row (fun t => reflect_base_equal (ty_name t) owner) T' = type_first R owner.
Proof. apply (first_row_set _ _ _ t); [done|]. by rewrite Hname. Qed.

Lemma update_lists get id' l : lists_of T' get id' = Some l ->
  if id' =? id then l = get t' else lists_of (types R) get id' = Some l.
Proof.
  unfold lists_of, T'. rewrite row_set by apply update_range. destruct (id' =? id); [|done]. cbn. by intros [= <-].
Qed.

(** Lists that [t'] keeps stay filed. *)
Lemma update_filed {A} (rel : A -> bool) (own : A -> str) rows get : get t' = get t ->
  filed rel (fun x => type_first R (own x)) rows (lists_of (types R) get) ->
  filed rel (fun x => first_row (fun t => reflect_base_equal (ty_name t) (own x)) T') rows (lists_of T' get).
Proof.
  intros Hget Hf. apply (filed_ext _ _ _ _ _ _ Hf); [intros x _ _; apply update_first|]. intros id' l Hl. exists l. split; [|done].
  pose proof (update_lists _ _ _ Hl) as Hu. destruct (Z.eqb_spec id' id) as [->|]; [|done]. rewrite Hu, Hget. unfold lists_of. by rewrite Ht.
Qed.

(** The list that takes the new row. *)
Lemma update_attach {A} (rel : A -> bool) (own : A -> str) rows x get n : rel x = true -> type_first R (own x) = id -> n = Z.of_nat (length rows) ->
  get t' = reflect_id_push (get t) n -> filed rel (fun x => type_first R (own x)) rows (lists_of (types R) get) ->
  filed rel (fun x => first_row (fun t => reflect_base_equal (ty_name t) (own x)) T') (rows ++ [x]) (lists_of T' get).
Proof.
  intros Hr Hx Hn Hget Hf. assert (Hl : lists_of (types R) get id = Some (get t)) by (unfold lists_of; by rewrite Ht).
  assert (Hf' : filed rel (fun x => type_first R (own x)) (rows ++ [x]) (lists_of T' get)).
  { apply (filed_attach _ _ _ _ _ x (get t) Hf Hr); [rewrite Hx; apply update_range|by rewrite Hx|]. rewrite Hx.
    intros id' l Hl'. pose proof (update_lists _ _ _ Hl') as Hu. destruct (id' =? id); [|done]. rewrite Hu, Hget. cbn. by rewrite Hn. }
  apply (filed_ext _ _ _ _ _ _ Hf'); [intros y _ _; apply update_first|by eauto].
Qed.
End update.

Lemma ids_loop_forall2 {A} (p : A -> bool) l l' i : Forall2 (fun x y => p x = p y) l l' -> ids_loop p l i = ids_loop p l' i.
Proof. intros Hl. revert i. induction Hl as [|x y l l' Hxy _ IH]; intros i; [done|]. cbn. by rewrite Hxy, IH. Qed.

Lemma forall2_insert {A} (P : A -> A -> Prop) l i x y : (forall z, P z z) -> l !! i = Some x -> P x y -> Forall2 P l (<[i := y]> l).
Proof.
  intros Hrefl Hx Hxy. apply Forall2_same_length_lookup_2; [by rewrite length_insert|]. intros j a b Ha Hb.
  destruct (decide (j = i)) as [->|Hne]; [rewrite list_lookup_insert_eq in Hb by (by eapply lookup_lt_Some); congruence|].
  rewrite list_lookup_insert_ne in Hb by done. assert (a = b) as -> by congruence. apply Hrefl.
Qed.

(** Rows that change in what filing does not read. *)
Lemma filed_rows {A} (rel : A -> bool) find (rows rows' : list A) list_of : filed rel find rows list_of ->
  Forall2 (fun x y => rel x = rel y /\ find x = find y) rows rows' -> filed rel find rows' list_of.
Proof.
  intros [Hf Hl] Hr. split.
  - intros y Hy Hry. apply list_elem_of_lookup in Hy as [i Hy]. destruct (Forall2_lookup_r _ _ _ _ _ Hr Hy) as (x & Hx & He & Hfx).
    rewrite <-Hfx. apply Hf; [by eapply list_elem_of_lookup_2|congruence].
  - intros id l Hid. rewrite (Hl id l Hid). apply ids_loop_forall2. eapply Forall2_impl; [exact Hr|]. intros x y [-> ->]. done.
Qed.

Lemma type_first_range R owner : -1 <= type_first R owner < t_len (types R).
Proof. apply first_row_range. Qed.

Lemma register_type_ok name kind base R : reg_ok R -> exists R', beans_reflect_register_type name kind base R = Some R' /\ reg_ok R'.
Proof.
  intros Hok. unfold beans_reflect_register_type. rewrite type_exact_first by done. cbn [mbind option_bind].
  destruct (0 <=? _); [by exists R|]. set (t := mkType name kind base (-1) 0 no_ids no_ids no_ids).
  destruct (index_insert_reps _ _ (type_key t) (t_len (types R)) (ro_types _ Hok)) as (ix & Hins & Hix); [apply hash_base_ne|unfold t_len; lia|].
  change (reflect_hash_base name) with (type_key t). rewrite Hins. cbn [mbind option_bind]. eexists. split; [reflexivity|].
  destruct Hok as [_ Hm Hif Hfi Hin Hpa].
  assert (Hown : forall {A} (rel : A -> bool) (own : A -> str) rows get, get t = no_ids ->
    filed rel (fun x => type_first R (own x)) rows (lists_of (types R) get) ->
    filed rel (fun x => first_row (fun t => reflect_base_equal (ty_name t) (own x)) (table_push (types R) t)) rows (lists_of (table_push (types R) t) get)).
  { intros A rel own rows get Hget Hf. apply (filed_owner _ _ _ _ _ _ (t_len (types R)) Hf).
    - intros x Hx Hr. pose proof (fd_found _ _ _ _ Hf x Hx Hr) as H0. cbv beta in H0. rewrite first_row_push. fold (type_first R (own x)).
      rewrite (proj2 (Z.leb_le _ _) H0). split; [done|apply type_first_range].
    - intros id l. unfold lists_of. rewrite row_push. destruct (Z.eqb_spec id (t_len (types R))) as [->|]; [|by right].
      cbn. intros [= <-]. left. by rewrite Hget. }
  split; cbn [types interfaces fields methods params type_index method_index interface_orphans field_orphans init_param_orphans
    method_param_orphans with_type_index with_types]; [by rewrite entries_push|done| | | |done]; intros Ho.
  - exact (Hown _ _ if_owner _ ty_ifaces eq_refl (Hif Ho)).
  - exact (Hown _ _ f_owner _ ty_fields eq_refl (Hfi Ho)).
  - exact (Hown _ _ p_owner _ ty_init_params eq_refl (Hin Ho)).
Qed.

Lemma register_initializer_ok owner flags call R : reg_ok R -> exists R', beans_reflect_register_initializer owner flags call R = Some R' /\ reg_ok R'.
Proof.
  intros Hok. unfold beans_reflect_register_initializer. rewrite type_exact_first by done. cbn [mbind option_bind].
  set (id := first_row _ _). destruct (Z.ltb_spec id 0); [by exists R|]. destruct (row_some (types R) id) as [t Ht].
  { pose proof (first_row_range (fun t => beans_str_eq (ty_name t) owner) (types R)). unfold id in *. lia. }
  rewrite Ht. cbn [mbind option_bind]. eexists. split; [reflexivity|]. set (t' := set_init flags call t).
  pose proof (fun A (rel : A -> bool) own rows get => update_filed R id t t' Ht eq_refl rel own rows get) as Hup. destruct Hok as [H1 H2 H3 H4 H5 H6].
  split; cbn [types interfaces fields methods params type_index method_index interface_orphans field_orphans init_param_orphans
    method_param_orphans with_types]; [by rewrite (update_entries R id t t')|done| | | |done]; intros Ho.
  - exact (Hup _ _ if_owner _ ty_ifaces eq_refl (H3 Ho)).
  - exact (Hup _ _ f_owner _ ty_fields eq_refl (H4 Ho)).
  - exact (Hup _ _ p_owner _ ty_init_params eq_refl (H5 Ho)).
Qed.

(** The owner that [attach] finds. *)
Lemma attach_cases R owner add orphan : reg_ok R -> (exists t, row (types R) (type_first R owner) = Some t /\
    attach R owner add orphan = Some (with_types (set_row (types R) (type_first R owner) (add t)) R)) \/
  (type_first R owner < 0 /\ attach R owner add orphan = Some (orphan R)).
Proof.
  intros Hok. unfold attach. pose proof (find_type_first R owner Hok) as Hf. unfold reflect_find_type in Hf. rewrite Hf. cbn [mbind option_bind].
  destruct (Z.leb_spec 0 (type_first R owner)) as [H0|H0]; [left|by right]. destruct (first_row_hit _ _ H0) as (t & Ht & _). exists t.
  split; [done|]. change (first_row (fun t => reflect_base_equal (ty_name t) owner) (types R)) with (type_first R owner) in Ht. by rewrite Ht.
Qed.

Ltac reg_fields := cbn [types interfaces fields methods params type_index method_index interface_orphans field_orphans init_param_orphans
    method_param_orphans with_types with_interfaces with_fields with_methods with_params with_type_index with_method_index with_orphans t_rows table_push].

Lemma register_interface_ok owner iname R : reg_ok R -> exists R', beans_reflect_register_interface owner iname R = Some R' /\ reg_ok R'.
Proof.
  intros Hok. unfold beans_reflect_register_interface. cbv zeta.
  destruct (attach_cases R owner (fun t => set_ifaces (reflect_id_push (ty_ifaces t) (t_len (interfaces R))) t)
    (fun R => with_orphans (method_param_orphans R) (init_param_orphans R) true (field_orphans R) R) Hok) as [(t & Ht & ->)|[H0 ->]]; cbn [mbind option_bind].
  - eexists. split; [reflexivity|]. set (t' := set_ifaces _ t). set (id := type_first R owner) in *.
    pose proof (fun A (rel : A -> bool) own rows get => update_filed R id t t' Ht eq_refl rel own rows get) as Hup.
    destruct Hok as [H1 H2 H3 H4 H5 H6]. split; reg_fields; [by rewrite (update_entries R id t t')|done| | | |done]; intros Ho.
    + apply (update_attach R id t t' Ht eq_refl _ if_owner _ (mkInterface owner iname) ty_ifaces (t_len (interfaces R))); try done. exact (H3 Ho).
    + exact (Hup _ _ f_owner _ ty_fields eq_refl (H4 Ho)).
    + exact (Hup _ _ p_owner _ ty_init_params eq_refl (H5 Ho)).
  - eexists. split; [reflexivity|]. destruct Hok as [H1 H2 H3 H4 H5 H6]. by split.
Qed.

Lemma register_field_ok owner name type_name flags R : reg_ok R -> exists R', beans_reflect_register_field owner name type_name flags R = Some R' /\ reg_ok R'.
Proof.
  intros Hok. unfold beans_reflect_register_field. cbv zeta.
  destruct (attach_cases R owner (fun t => set_type_fields (reflect_id_push (ty_fields t) (t_len (fields R))) t)
    (fun R => with_orphans (method_param_orphans R) (init_param_orphans R) (interface_orphans R) true R) Hok) as [(t & Ht & ->)|[H0 ->]]; cbn [mbind option_bind].
  - eexists. split; [reflexivity|]. set (t' := set_type_fields _ t). set (id := type_first R owner) in *.
    pose proof (fun A (rel : A -> bool) own rows get => update_filed R id t t' Ht eq_refl rel own rows get) as Hup.
    destruct Hok as [H1 H2 H3 H4 H5 H6]. split; reg_fields; [by rewrite (update_entries R id t t')|done| | | |done]; intros Ho.
    + exact (Hup _ _ if_owner _ ty_ifaces eq_refl (H3 Ho)).
    + apply (update_attach R id t t' Ht eq_refl _ f_owner _ (mkField owner name type_name flags 0 0) ty_fields (t_len (fields R))); try done. exact (H4 Ho).
    + exact (Hup _ _ p_owner _ ty_init_params eq_refl (H5 Ho)).
  - eexists. split; [reflexivity|]. destruct Hok as [H1 H2 H3 H4 H5 H6]. by split.
Qed.

Lemma register_access_ok owner name get set R : reg_ok R -> exists R', beans_reflect_register_field_access owner name get set R = Some R' /\ reg_ok R'.
Proof.
  intros Hok. unfold beans_reflect_register_field_access. cbv zeta. set (id := first_row _ _). destruct (Z.ltb_spec id 0) as [|H0]; [by exists R|].
  destruct (first_row_hit _ _ H0) as (f & Hf & _). fold id in Hf. rewrite Hf. cbn [mbind option_bind]. eexists. split; [reflexivity|].
  destruct Hok as [H1 H2 H3 H4 H5 H6]. split; reg_fields; try done. intros Ho. apply (filed_rows _ _ (t_rows (fields R))); [by apply H4|].
  cbn. apply (forall2_insert _ _ _ f); [done| |done]. pose proof (row_range _ _ _ Hf). rewrite <-row_nat, Z2Nat.id; [done|lia].
Qed.

Lemma register_method_ok owner name result flags R : reg_ok R -> exists R', beans_reflect_register_method owner name result flags R = Some R' /\ reg_ok R'.
Proof.
  intros Hok. unfold beans_reflect_register_method. set (m := mkMethod owner name result flags 0 no_ids).
  destruct (index_insert_reps _ _ (method_key m) (t_len (methods R)) (ro_methods _ Hok)) as (ix & Hins & Hix); [apply hash_member_ne|unfold t_len; lia|].
  change (reflect_hash_member owner name) with (method_key m). rewrite Hins. cbn [mbind option_bind]. eexists. split; [reflexivity|].
  destruct Hok as [H1 H2 H3 H4 H5 H6]. split; reg_fields; try done; [by rewrite entries_push|]. intros Ho.
  apply (filed_owner _ _ _ _ _ _ (t_len (methods R)) (H6 Ho)).
  - intros x Hx Hr. pose proof (fd_found _ _ _ _ (H6 Ho) x Hx Hr) as H0. cbv beta in H0. unfold method_first at 1. reg_fields. rewrite first_row_push.
    fold (method_first R (p_owner x) (p_callable x)). rewrite (proj2 (Z.leb_le _ _) H0). split; [done|apply first_row_range].
  - intros id l. unfold lists_of. rewrite row_push. destruct (Z.eqb_spec id (t_len (methods R))) as [->|]; [|by right]. cbn. intros [= <-]. by left.
Qed.

(** A method's call or parameters change. *)
Lemma update_methods R id m m' : row (methods R) id = Some m -> m_owner m' = m_owner m -> m_name m' = m_name m ->
  entries_of method_key (set_row (methods R) id m') = entries_of method_key (methods R) /\
  (forall owner name, first_row (fun m => reflect_base_equal (m_owner m) owner && beans_str_eq (m_name m) name) (set_row (methods R) id m') = method_first R owner name) /\
  (forall id' l, lists_of (set_row (methods R) id m') m_params id' = Some l ->
    if id' =? id then l = m_params m' else lists_of (methods R) m_params id' = Some l).
Proof.
  intros Hm Ho Hn. split; [|split].
  - apply (entries_set _ _ _ m); [done|]. unfold method_key. by rewrite Ho, Hn.
  - intros owner name. apply (first_row_set _ _ _ m); [done|]. by rewrite Ho, Hn.
  - intros id' l. unfold lists_of. rewrite row_set by (by eapply row_range). destruct (id' =? id); [|done]. cbn. by intros [= <-].
Qed.

Lemma register_call_ok owner name call R : reg_ok R -> exists R', beans_reflect_register_method_call owner name call R = Some R' /\ reg_ok R'.
Proof.
  intros Hok. unfold beans_reflect_register_method_call.
  rewrite (lookup_first _ _ method_key _ _ (ro_methods _ Hok) (hash_member_ne _ _)).
  2:{ intros m [Ho Hn]%andb_true_iff. apply str_eq_true in Ho, Hn. unfold method_key. by rewrite Ho, Hn. }
  cbn [mbind option_bind]. set (id := first_row _ _). destruct (Z.leb_spec 0 id) as [H0|]; [|by exists R].
  destruct (first_row_hit _ _ H0) as (m & Hm & _). fold id in Hm. rewrite Hm. cbn [mbind option_bind]. eexists. split; [reflexivity|].
  destruct (update_methods R id m (set_call call m) Hm eq_refl eq_refl) as (He & Hf & Hl).
  destruct Hok as [H1 H2 H3 H4 H5 H6]. split; reg_fields; try done; [by rewrite He|]. intros Ho.
  apply (filed_ext _ _ _ _ _ _ (H6 Ho)); [intros x _ _; apply Hf|]. intros id' l Hid. exists l. split; [|done]. specialize (Hl id' l Hid).
  destruct (Z.eqb_spec id' id) as [->|]; [|done]. rewrite Hl. unfold lists_of. by rewrite Hm.
Qed.

Lemma register_parameter_ok owner callable name type_name passing R : reg_ok R ->
  exists R', beans_reflect_register_method_parameter owner callable name type_name passing R = Some R' /\ reg_ok R'.
Proof.
  intros Hok. unfold beans_reflect_register_method_parameter. cbv zeta. set (p := mkParam owner callable name type_name passing).
  destruct (is_init callable) eqn:Hinit.
  - destruct (attach_cases R owner (fun t => set_init_params (reflect_id_push (ty_init_params t) (t_len (params R))) t)
      (fun R => with_orphans (method_param_orphans R) true (interface_orphans R) (field_orphans R) R) Hok) as [(t & Ht & ->)|[H0 ->]]; cbn [mbind option_bind].
    + eexists. split; [reflexivity|]. set (t' := set_init_params _ t). set (id := type_first R owner) in *.
      pose proof (fun A (rel : A -> bool) own rows get => update_filed R id t t' Ht eq_refl rel own rows get) as Hup.
      destruct Hok as [H1 H2 H3 H4 H5 H6]. split; reg_fields; [by rewrite (update_entries R id t t')|done| | | |]; intros Ho.
      * exact (Hup _ _ if_owner _ ty_ifaces eq_refl (H3 Ho)).
      * exact (Hup _ _ f_owner _ ty_fields eq_refl (H4 Ho)).
      * apply (update_attach R id t t' Ht eq_refl _ p_owner _ p ty_init_params (t_len (params R))); try done. exact (H5 Ho).
      * apply filed_skip; [exact (H6 Ho)|]. cbn. by rewrite Hinit.
    + eexists. split; [reflexivity|]. destruct Hok as [H1 H2 H3 H4 H5 H6]. split; reg_fields; try done. intros Ho.
      apply filed_skip; [exact (H6 Ho)|]. cbn. by rewrite Hinit.
  - rewrite method_on_first by done. cbn [mbind option_bind]. set (id := method_first R owner callable) in *.
    assert (Hskip : init_param_orphans R = false -> filed (fun p => is_init (p_callable p)) (fun p => type_first R (p_owner p)) (t_rows (params R) ++ [p]) (lists_of (types R) ty_init_params)).
    { intros Ho. apply filed_skip; [by apply Hok|done]. }
    destruct (Z.leb_spec 0 id) as [H0|H0].
    + destruct (first_row_hit _ _ H0) as (m & Hm & _). change (row (methods R) id = Some m) in Hm. rewrite Hm. cbn [mbind option_bind].
      eexists. split; [reflexivity|]. destruct (update_methods R id m (set_method_params (reflect_id_push (m_params m) (t_len (params R))) m) Hm eq_refl eq_refl) as (He & Hf & Hl).
      destruct Hok as [H1 H2 H3 H4 H5 H6]. split; reg_fields; try done; [by rewrite He|]. intros Ho.
      assert (Hf' : filed (fun p => negb (is_init (p_callable p))) (fun p => method_first R (p_owner p) (p_callable p)) (t_rows (params R) ++ [p])
        (lists_of (set_row (methods R) id (set_method_params (reflect_id_push (m_params m) (t_len (params R))) m)) m_params)).
      { apply (filed_attach _ _ _ _ _ p (m_params m) (H6 Ho)); [cbn; by rewrite Hinit|done|change (lists_of (methods R) m_params id = Some (m_params m)); unfold lists_of; by rewrite Hm|].
        intros id' l Hid. specialize (Hl id' l Hid). change (method_first R (p_owner p) (p_callable p)) with id. destruct (id' =? id); [|done]. by rewrite Hl. }
      apply (filed_ext _ _ _ _ _ _ Hf'); [intros x _ _; apply Hf|by eauto].
    + eexists. split; [reflexivity|]. destruct Hok as [H1 H2 H3 H4 H5 H6]. by split.
Qed.

Lemma enroll_ok e R : reg_ok R -> exists R', enroll e R = Some R' /\ reg_ok R'.
Proof.
  destruct e; [apply register_type_ok|apply register_initializer_ok|apply register_interface_ok|apply register_field_ok|
    apply register_access_ok|apply register_method_ok|apply register_call_ok|apply register_parameter_ok].
Qed.

Lemma enroll_all_ok es : forall R, reg_ok R -> exists R', enroll_all es R = Some R' /\ reg_ok R'.
Proof.
  induction es as [|e es IH]; intros R Hok; [by exists R|]. destruct (enroll_ok e R Hok) as (R1 & He & Hok1). cbn [enroll_all]. rewrite He. by apply IH.
Qed.

(** ** Attach lists and scans *)

Definition scanned R : registry := with_orphans true true true true R.

Lemma scanned_ok R : reg_ok R -> reg_ok (scanned R).
Proof. intros [H1 H2 _ _ _ _]. by split. Qed.

Lemma base_equal_sym l r : reflect_base_equal l r = reflect_base_equal r l.
Proof. rewrite !base_equal_spec. apply bool_decide_ext. split; congruence. Qed.

Lemma base_equal_trans a b c : reflect_base_equal a b = true -> reflect_base_equal a c = reflect_base_equal b c.
Proof. rewrite !base_equal_spec, bool_decide_eq_true. by intros ->. Qed.

Lemma type_first_ext R a b : reflect_base_equal a b = true -> type_first R a = type_first R b.
Proof.
  intros He. apply first_row_ext. intros t. rewrite (base_equal_sym _ a), (base_equal_sym _ b). by apply base_equal_trans.
Qed.

Lemma method_first_ext R a b name : reflect_base_equal a b = true -> method_first R a name = method_first R b name.
Proof.
  intros He. apply first_row_ext. intros m. f_equal. rewrite (base_equal_sym _ a), (base_equal_sym _ b). by apply base_equal_trans.
Qed.

(** The type a name resolves to is the first with its base name. *)
Lemma type_hit R name : 0 <= type_first R name -> exists t, row (types R) (type_first R name) = Some t /\ reflect_base_equal (ty_name t) name = true.
Proof. apply first_row_hit. Qed.

Lemma type_hit_name R name t : row (types R) (type_first R name) = Some t -> 0 <= type_first R name -> reflect_base_equal (ty_name t) name = true.
Proof. intros Ht H0. destruct (type_hit R name H0) as (t' & Ht' & He). congruence. Qed.

(** Filed under the type of a name: scanned by that name. *)
Lemma filed_scan {A} R (rel : A -> bool) (own : A -> str) rows get name t : filed rel (fun x => type_first R (own x)) rows (lists_of (types R) get) ->
  0 <= type_first R name -> row (types R) (type_first R name) = Some t ->
  l_ids (get t) = ids_where (fun x => rel x && reflect_base_equal (own x) name) rows.
Proof.
  intros Hf H0 Ht. rewrite (fd_lists _ _ _ _ Hf (type_first R name) (get t)) by (unfold lists_of; by rewrite Ht).
  apply ids_where_ext. intros x Hx. destruct (rel x) eqn:Hr; [|done]. cbn [andb]. destruct (reflect_base_equal (own x) name) eqn:He.
  - apply Z.eqb_eq. by apply type_first_ext.
  - apply Z.eqb_neq. intros Heq. pose proof (fd_found _ _ _ _ Hf x Hx Hr) as Hx0. cbv beta in Hx0.
    destruct (type_hit R (own x) Hx0) as (t' & Ht' & He'). rewrite Heq in Ht'. assert (t' = t) as -> by congruence.
    pose proof (type_hit_name R name t Ht H0) as Hn. rewrite base_equal_sym in He'. rewrite (base_equal_trans _ _ name He') in He. congruence.
Qed.

(** No type of the name: no row is filed under it. *)
Lemma filed_none {A} R (rel : A -> bool) (own : A -> str) rows list_of name x : filed rel (fun x => type_first R (own x)) rows list_of ->
  type_first R name < 0 -> x ∈ rows -> rel x = true -> reflect_base_equal (own x) name = false.
Proof.
  intros Hf H0 Hx Hr. destruct (reflect_base_equal (own x) name) eqn:He; [|done]. pose proof (fd_found _ _ _ _ Hf x Hx Hr) as Hx0. cbv beta in Hx0.
  rewrite (type_first_ext R _ _ He) in Hx0. lia.
Qed.

Lemma filed_method_scan R name m id : filed (fun p => negb (is_init (p_callable p))) (fun p => method_first R (p_owner p) (p_callable p)) (t_rows (params R)) (lists_of (methods R) m_params) ->
  row (methods R) id = Some m -> method_first R (m_owner m) (m_name m) = id -> m_name m = name -> is_init name = false ->
  l_ids (m_params m) = ids_where (fun p => reflect_base_equal (p_owner p) (m_owner m) && beans_str_eq (p_callable p) (m_name m)) (t_rows (params R)).
Proof.
  intros Hf Hm Hid <- Hi. rewrite (fd_lists _ _ _ _ Hf id (m_params m)) by (unfold lists_of; by rewrite Hm).
  apply ids_where_ext. intros x Hx. destruct (beans_str_eq (p_callable x) (m_name m)) eqn:Hn; [apply str_eq_true in Hn; rewrite Hn, Hi|].
  - cbn [negb andb]. rewrite andb_true_r. destruct (reflect_base_equal (p_owner x) (m_owner m)) eqn:He.
    + rewrite (method_first_ext R _ _ (m_name m) He), Hid. apply Z.eqb_refl.
    + apply Z.eqb_neq. intros Heq. assert (Hx0 : 0 <= method_first R (p_owner x) (m_name m)) by (rewrite Heq; by eapply row_range).
      destruct (first_row_hit _ _ Hx0) as (m' & Hm' & Hb%andb_true_iff). change (row (methods R) (method_first R (p_owner x) (m_name m)) = Some m') in Hm'.
      rewrite Heq in Hm'. assert (m' = m) as -> by congruence. destruct Hb as [Hb _]. rewrite base_equal_sym in Hb. congruence.
  - rewrite andb_false_r. destruct (is_init (p_callable x)) eqn:Hxi; [done|]. cbn [negb andb]. apply Z.eqb_neq. intros Heq.
    pose proof (fd_found _ _ _ _ Hf x Hx ltac:(cbv beta; by rewrite Hxi)) as Hx0. cbv beta in Hx0.
    destruct (first_row_hit _ _ Hx0) as (m' & Hm' & Hb%andb_true_iff). change (row (methods R) (method_first R (p_owner x) (p_callable x)) = Some m') in Hm'.
    rewrite Heq in Hm'. assert (m' = m) as -> by congruence. destruct Hb as [_ Hb]. apply str_eq_true in Hb. rewrite Hb in Hn.
    rewrite str_eq_spec, bool_decide_eq_false in Hn. done.
Qed.
