(* ===== verification/ReflectQueries.v ===== *)
(** * ReflectQueries: what the queries of the registry answer

    The queries that read an attach list answer as the scans of [scanned R]
    do.  The base links of a registry whose chains end ([based]) are followed
    to their end, a member listing is the merge of the levels of the chain,
    base first, and never outgrows its scratch array. *)

From S2P Require Import Prelude Str StrProofs Hash Slots WeakTable Reflect ReflectProofs.

Open Scope c_scope.

Implicit Types (R : registry) (ids : list Z).

(** ** Assignability *)

Lemma existsb_none {A} (f : A -> bool) l : (forall x, x ∈ l -> f x = false) -> existsb f l = false.
Proof. induction l as [|x l IH]; intros Hf; [done|]. cbn. rewrite (Hf x) by (by left). apply IH. intros y Hy. apply Hf. by right. Qed.

Lemma any_id_scan R wanted p : any_id R wanted (ids_where p (t_rows (interfaces R))) =
  Some (existsb (fun i => p i && reflect_name_assignable wanted (if_name i)) (t_rows (interfaces R))).
Proof.
  unfold ids_where. assert (Hgen : forall l pre, t_rows (interfaces R) = pre ++ l ->
    any_id R wanted (ids_loop p l (Z.of_nat (length pre))) = Some (existsb (fun i => p i && reflect_name_assignable wanted (if_name i)) l)).
  { induction l as [|x l IH]; intros pre Hl; [done|]. cbn [ids_loop existsb].
    assert (Hnext : any_id R wanted (ids_loop p l (Z.of_nat (length pre) + 1)) = Some (existsb (fun i => p i && reflect_name_assignable wanted (if_name i)) l)).
    { replace (Z.of_nat (length pre) + 1) with (Z.of_nat (length (pre ++ [x]))) by (rewrite length_app; cbn; lia). apply IH. by rewrite <-app_assoc. }
    destruct (p x); cbn [andb orb any_id]; [|exact Hnext]. rewrite row_nat, Hl, list_lookup_middle by done. cbn [mbind option_bind].
    by destruct (reflect_name_assignable wanted (if_name x)). }
  exact (Hgen _ [] eq_refl).
Qed.

Lemma interface_step_scan R wanted current : reg_ok R ->
  interface_step R wanted current (type_first R current) =
  Some (existsb (fun i => reflect_base_equal (if_owner i) current && reflect_name_assignable wanted (if_name i)) (t_rows (interfaces R))).
Proof.
  intros Hok. unfold interface_step. destruct (interface_orphans R) eqn:Ho; [done|]. pose proof (ro_ifaces _ Hok Ho) as Hf.
  destruct (Z.leb_spec 0 (type_first R current)) as [H0|H0].
  - destruct (type_hit R current H0) as (t & Ht & _). rewrite Ht. cbn [mbind option_bind].
    rewrite (filed_scan R _ if_owner _ ty_ifaces current t Hf H0 Ht). apply any_id_scan.
  - f_equal. symmetry. apply existsb_none. intros x Hx. by rewrite (filed_none R _ if_owner _ _ current x Hf H0 Hx eq_refl).
Qed.

Lemma interface_step_scanned R wanted current : reg_ok R ->
  interface_step R wanted current (type_first R current) = interface_step (scanned R) wanted current (type_first R current).
Proof. intros Hok. by rewrite interface_step_scan. Qed.

(** The lookups do not read the flags. *)
Lemma find_type_scanned R name : reflect_find_type (scanned R) name = reflect_find_type R name.
Proof. done. Qed.

Lemma bases_loop_scanned R wanted n : forall id, bases_loop n (scanned R) wanted id = bases_loop n R wanted id.
Proof.
  induction n as [|n IH]; intros id; [done|]. cbn [bases_loop]. destruct (id <? 0); [done|]. change (base_of (scanned R) id) with (base_of R id).
  destruct (base_of R id) as [[base|]|]; cbn [mbind option_bind]; try done. destruct (reflect_name_assignable wanted base); [done|].
  rewrite find_type_scanned. by destruct (reflect_find_type R base); cbn [mbind option_bind].
Qed.

Lemma interfaces_loop_scanned R wanted n : reg_ok R -> forall current, interfaces_loop n (scanned R) wanted current = interfaces_loop n R wanted current.
Proof.
  intros Hok. induction n as [|n IH]; intros current; [done|]. cbn [interfaces_loop]. rewrite find_type_scanned, find_type_first by done.
  cbn [mbind option_bind]. rewrite <-interface_step_scanned by done. destruct (interface_step R wanted current _) as [[]|]; cbn [mbind option_bind]; try done.
  destruct (_ <? 0); [done|]. change (base_of (scanned R)) with (base_of R). by destruct (base_of R _) as [[base|]|]; cbn [mbind option_bind].
Qed.

Lemma assignable_scanned R wanted actual : reg_ok R ->
  beans_reflect_is_assignable_from R wanted actual = beans_reflect_is_assignable_from (scanned R) wanted actual.
Proof.
  intros Hok. unfold beans_reflect_is_assignable_from. rewrite find_type_scanned. change (types (scanned R)) with (types R).
  destruct (reflect_name_assignable wanted actual); [done|]. destruct (reflect_find_type R actual) as [found|]; [|done]. cbn [mbind option_bind].
  rewrite bases_loop_scanned. destruct (bases_loop _ R wanted found) as [[]|]; cbn [mbind option_bind]; try done. destruct (found <? 0); [done|].
  destruct (row (types R) found) as [t|]; [|done]. cbn [mbind option_bind]. by rewrite interfaces_loop_scanned.
Qed.

(** ** Parameters *)

Lemma method_id_loop_scanned R name n : forall type, method_id_loop n (scanned R) name type = method_id_loop n R name type.
Proof.
  induction n as [|n IH]; intros type; [done|]. cbn [method_id_loop]. destruct (type <? 0); [done|]. change (types (scanned R)) with (types R).
  destruct (row (types R) type) as [t|]; [|done]. cbn [mbind option_bind]. change (reflect_method_id_on (scanned R)) with (reflect_method_id_on R).
  destruct (reflect_method_id_on R _ _) as [id|]; [|done]. cbn [mbind option_bind]. destruct (0 <=? id); [done|]. destruct (ty_base t) as [base|]; [|done].
  rewrite find_type_scanned. by destruct (reflect_find_type R base); cbn [mbind option_bind].
Qed.

Lemma method_id_scanned R owner name : reflect_method_id (scanned R) owner name = reflect_method_id R owner name.
Proof.
  unfold reflect_method_id. rewrite find_type_scanned. change (types (scanned R)) with (types R).
  destruct (reflect_find_type R owner); [|done]. apply method_id_loop_scanned.
Qed.

(** The method the loop ends at is the first of its own owner and name. *)
Lemma method_id_loop_hit R name n : reg_ok R -> forall type id, method_id_loop n R name type = Some id -> 0 <= id ->
  exists m, row (methods R) id = Some m /\ m_name m = name /\ method_first R (m_owner m) (m_name m) = id.
Proof.
  intros Hok. induction n as [|n IH]; intros type id; cbn [method_id_loop]; [intros [= <-]; lia|]. destruct (type <? 0); [intros [= <-]; lia|].
  destruct (row (types R) type) as [t|]; [|done]. cbn [mbind option_bind]. rewrite method_on_first by done. cbn [mbind option_bind].
  destruct (Z.leb_spec 0 (method_first R (ty_name t) name)) as [H0|_].
  - intros [= <-] _. destruct (first_row_hit _ _ H0) as (m & Hm & Hb). exists m. split; [done|]. apply andb_true_iff in Hb as [Ho Hn].
    apply str_eq_true in Hn as ->. split; [done|]. by apply method_first_ext.
  - destruct (ty_base t) as [base|]; [|intros [= <-]; lia]. rewrite find_type_first by done. cbn [mbind option_bind]. apply IH.
Qed.

Lemma method_parameter_scanned R owner callable wanted : reg_ok R -> is_init callable = false ->
  reflect_method_parameter_id R owner callable wanted = reflect_method_parameter_id (scanned R) owner callable wanted.
Proof.
  intros Hok Hi. unfold reflect_method_parameter_id. rewrite method_id_scanned. change (methods (scanned R)) with (methods R).
  change (params (scanned R)) with (params R). destruct (reflect_method_id R owner callable) as [id|] eqn:Hid; [|done]. cbn [mbind option_bind].
  destruct (Z.ltb_spec id 0) as [|H0]; [done|]. unfold reflect_method_id in Hid. rewrite find_type_first in Hid by done. cbn [mbind option_bind] in Hid.
  destruct (method_id_loop_hit _ _ _ Hok _ _ Hid H0) as (m & Hm & Hn & Hfirst). rewrite Hm. cbn [mbind option_bind]. f_equal.
  change (method_param_orphans (scanned R)) with true. cbn [negb]. destruct (method_param_orphans R) eqn:Ho; [done|]. cbn [negb].
  rewrite (scan_attached _ _ _ 0). unfold attached, l_len. cbn [l_ids]. by rewrite (filed_method_scan R callable m id (ro_params _ Hok Ho)).
Qed.

(** A resolved type is the first of its own name. *)
Lemma type_first_self R name t : row (types R) (type_first R name) = Some t -> type_first R (ty_name t) = type_first R name.
Proof.
  intros Ht. apply type_first_ext. apply (type_hit_name R name t Ht). apply row_range in Ht. lia.
Qed.

Lemma init_params_at_scanned R t wanted name : reg_ok R -> row (types R) (type_first R name) = Some t ->
  init_params_at (scanned R) t wanted = init_params_at R t wanted.
Proof.
  intros Hok Ht. unfold init_params_at. change (init_param_orphans (scanned R)) with true. cbn [negb]. destruct (init_param_orphans R) eqn:Ho; [done|].
  cbn [negb]. change (params (scanned R)) with (params R). rewrite (scan_attached _ _ _ (l_cap (ty_init_params t))).
  assert (Hids : ids_where (fun p => reflect_base_equal (p_owner p) (ty_name t) && is_init (p_callable p)) (t_rows (params R)) = l_ids (ty_init_params t)).
  { rewrite (filed_scan R _ p_owner _ ty_init_params (ty_name t) t (ro_inits _ Hok Ho)); rewrite ?(type_first_self _ _ _ Ht); [|by eapply row_range|done].
    apply ids_where_ext. intros x _. apply andb_comm. }
  rewrite Hids. unfold attached, l_len. cbn [l_ids]. pose proof (slen_nonneg (l_ids (ty_init_params t))).
  destruct (Z.eqb_spec (slen (l_ids (ty_init_params t))) 0) as [->|Hne]; cbn [negb].
  - destruct (Z.leb_spec 0 wanted), (Z.ltb_spec wanted 0); done || lia.
  - destruct (Z.leb_spec 0 wanted), (Z.ltb_spec wanted (slen (l_ids (ty_init_params t)))); cbn [andb fst snd];
      rewrite (proj2 (Z.eqb_neq _ _)) by lia; by rewrite orb_true_r.
Qed.

Lemma init_param_loop_scanned R wanted n : reg_ok R -> forall name,
  init_param_loop n (scanned R) wanted (type_first R name) = init_param_loop n R wanted (type_first R name).
Proof.
  intros Hok. induction n as [|n IH]; intros name; [done|]. cbn [init_param_loop]. destruct (_ <? 0); [done|]. change (types (scanned R)) with (types R).
  destruct (row (types R) (type_first R name)) as [t|] eqn:Ht; [|done]. cbn [mbind option_bind]. rewrite (init_params_at_scanned R t wanted name) by done.
  destruct (init_params_at R t wanted); [done|]. destruct (ty_base t) as [base|]; [|done].
  rewrite find_type_scanned, find_type_first by done. apply IH.
Qed.

Lemma initializer_parameter_scanned R owner wanted : reg_ok R ->
  reflect_initializer_parameter_id R owner wanted = reflect_initializer_parameter_id (scanned R) owner wanted.
Proof.
  intros Hok. unfold reflect_initializer_parameter_id. rewrite find_type_scanned, find_type_first by done. cbn [mbind option_bind].
  change (types (scanned R)) with (types R). by rewrite init_param_loop_scanned.
Qed.

(** ** The base chain *)

(** The types from [id] along the base links, to one without a base or with a
    base that is not registered. *)
Inductive chain R : Z -> list (Z * BReflectType) -> Prop :=
  | chain_end id : id < 0 -> chain R id []
  | chain_root id t : row (types R) id = Some t -> ty_base t = None -> chain R id [(id, t)]
  | chain_link id t base l : row (types R) id = Some t -> ty_base t = Some base -> chain R (type_first R base) l -> chain R id ((id, t) :: l).

Definition based R : Prop := forall name, exists l, chain R (type_first R name) l.

Lemma chain_unique R id l l' : chain R id l -> chain R id l' -> l = l'.
Proof.
  intros Hl. revert l'. induction Hl as [id Hid|id t Ht Hb|id t base l Ht Hb Hl IH]; intros l' Hl'; inversion Hl' as [?|? ? Ht'|? ? ? ? Ht' ? Hl0]; subst;
    try (pose proof (row_range _ _ _ Ht)); try (pose proof (row_range _ _ _ Ht')); try lia; try done; try congruence.
  assert (t0 = t) as -> by congruence. assert (base0 = base) as -> by congruence. by rewrite (IH _ Hl0).
Qed.

Lemma chain_rows R id l : chain R id l -> forall x, x ∈ l -> row (types R) x.1 = Some x.2 /\ exists l', chain R x.1 (x :: l') /\ (length l' < length l)%nat.
Proof.
  induction 1 as [|id t Ht Hb|id t base l Ht Hb Hl IH]; intros x Hx; [by apply elem_of_nil in Hx| |].
  - apply list_elem_of_singleton in Hx as ->. split; [done|]. exists []. split; [by apply chain_root|]. cbn. lia.
  - apply elem_of_cons in Hx as [->|Hx]; [split; [done|]; exists l; split; [by apply (chain_link _ _ _ base)|cbn; lia]|].
    destruct (IH x Hx) as [Hr (l' & Hl' & Hlen)]. split; [done|]. exists l'. split; [done|]. cbn. lia.
Qed.

Lemma chain_nodup R id l : chain R id l -> NoDup l.*1.
Proof.
  induction 1 as [|id t Ht Hb|id t base l Ht Hb Hl IH]; [by constructor|by apply NoDup_singleton|]. cbn. constructor; [|done].
  intros (x & -> & Hx)%list_elem_of_fmap. destruct (chain_rows _ _ _ Hl x Hx) as [_ (l' & Hl' & Hlen)].
  pose proof (chain_unique _ _ _ _ Hl' (chain_link _ _ _ _ _ Ht Hb Hl)) as [= _ ->]. lia.
Qed.

(** Distinct ids of a table are no more than its rows. *)
Lemma ids_length {A} (t : table A) (ids : list Z) : NoDup ids -> (forall id, id ∈ ids -> 0 <= id < t_len t) -> slen ids <= t_len t.
Proof.
  intros Hd Hr. assert (Hs : ids ⊆+ seqZ 0 (t_len t)) by (apply NoDup_submseteq; [done|]; intros id Hid; apply elem_of_seqZ; specialize (Hr id Hid); lia).
  apply submseteq_length in Hs. rewrite length_seqZ in Hs. unfold slen, t_len in *. lia.
Qed.

Lemma chain_length R id l : chain R id l -> (length l <= length (t_rows (types R)))%nat.
Proof.
  intros Hl. pose proof (ids_length (types R) l.*1 (chain_nodup _ _ _ Hl)) as Hle. unfold slen, t_len in Hle. rewrite length_fmap in Hle.
  apply Nat2Z.inj_le, Hle. intros id' (x & -> & Hx)%list_elem_of_fmap. destruct (chain_rows _ _ _ Hl x Hx) as [Hr _]. by eapply row_range.
Qed.

(** *** Assignability along the chain *)

(** Base names resolve. *)
Definition closed R : Prop := forall t base, t ∈ t_rows (types R) -> ty_base t = Some base -> 0 <= type_first R base.

(** What [actual] may stand for: itself, what its base may, an interface it lists. *)
Inductive derives R (wanted : str) : str -> Prop :=
  | derives_name actual : reflect_name_assignable wanted actual = true -> derives R wanted actual
  | derives_interface actual i : 0 <= type_first R actual -> i ∈ t_rows (interfaces R) -> reflect_base_equal (if_owner i) actual = true ->
      reflect_name_assignable wanted (if_name i) = true -> derives R wanted actual
  | derives_base actual t base : row (types R) (type_first R actual) = Some t -> ty_base t = Some base -> derives R wanted base -> derives R wanted actual.

Definition base_hit (wanted : str) (x : Z * BReflectType) : bool :=
  match ty_base x.2 with Some base => reflect_name_assignable wanted base | None => false end.
Definition iface_hit R (wanted : str) (x : Z * BReflectType) : bool :=
  existsb (fun i => reflect_base_equal (if_owner i) (ty_name x.2) && reflect_name_assignable wanted (if_name i)) (t_rows (interfaces R)).

Lemma base_of_row R id t : row (types R) id = Some t -> base_of R id = Some (ty_base t).
Proof. unfold base_of. by intros ->. Qed.

Lemma bases_loop_chain R wanted : reg_ok R -> forall id l, chain R id l -> forall n, (length l <= n)%nat ->
  bases_loop n R wanted id = Some (existsb (base_hit wanted) l).
Proof.
  intros Hok id l Hl. induction Hl as [id Hid|id t Ht Hb|id t base l Ht Hb Hl IH]; intros [|n] Hn; cbn in Hn; try lia; cbn [bases_loop]; try done.
  - by rewrite (proj2 (Z.ltb_lt _ _)).
  - pose proof (row_range _ _ _ Ht). rewrite (proj2 (Z.ltb_ge _ _)) by lia. rewrite (base_of_row _ _ _ Ht), Hb. cbn [mbind option_bind existsb base_hit]. unfold base_hit. cbn [snd]. by rewrite Hb.
  - pose proof (row_range _ _ _ Ht). rewrite (proj2 (Z.ltb_ge _ _)) by lia. rewrite (base_of_row _ _ _ Ht), Hb. cbn [mbind option_bind existsb]. unfold base_hit at 1. cbn [snd]. rewrite Hb.
    destruct (reflect_name_assignable wanted base); [done|]. rewrite find_type_first by done. cbn [mbind option_bind orb]. apply IH. lia.
Qed.

Lemma existsb_ext {A} (f g : A -> bool) l : (forall x, f x = g x) -> existsb f l = existsb g l.
Proof. intros He. induction l as [|x l IH]; [done|]. cbn. by rewrite He, IH. Qed.

Lemma iface_hit_name R wanted current id t : row (types R) id = Some t -> id = type_first R current ->
  existsb (fun i => reflect_base_equal (if_owner i) current && reflect_name_assignable wanted (if_name i)) (t_rows (interfaces R)) = iface_hit R wanted (id, t).
Proof.
  intros Ht ->. unfold iface_hit. cbn [snd]. apply existsb_ext. intros i. f_equal.
  pose proof (type_hit_name R current t Ht ltac:(apply row_range in Ht; lia)) as He. rewrite (base_equal_sym _ current), (base_equal_sym _ (ty_name t)).
  symmetry. by apply base_equal_trans.
Qed.

Lemma interfaces_loop_chain R wanted : reg_ok R -> closed R -> forall id l, chain R id l -> forall current n, id = type_first R current -> 0 <= id -> (length l <= n)%nat ->
  interfaces_loop n R wanted current = Some (existsb (iface_hit R wanted) l).
Proof.
  intros Hok Hc id l Hl. induction Hl as [id Hid|id t Ht Hb|id t base l Ht Hb Hl IH]; intros current [|n] Hid0 H0 Hn; cbn [length] in Hn; try lia; cbn [interfaces_loop];
    rewrite find_type_first by done; cbn [mbind option_bind]; rewrite interface_step_scan by done; rewrite (iface_hit_name R wanted current id t Ht Hid0);
    rewrite <-Hid0; cbn [existsb mbind option_bind].
  - destruct (iface_hit R wanted (id, t)); [done|]. rewrite (proj2 (Z.ltb_ge _ _)) by lia. by rewrite (base_of_row _ _ _ Ht), Hb.
  - destruct (iface_hit R wanted (id, t)); [done|]. rewrite (proj2 (Z.ltb_ge _ _)) by lia. rewrite (base_of_row _ _ _ Ht), Hb. cbn [mbind option_bind orb].
    apply IH; [done| |lia]. apply (Hc t); [|done]. unfold row in Ht. destruct (id <? 0); [done|]. by eapply list_elem_of_lookup_2.
Qed.

(** What the two loops look for is derivation. *)
Lemma derives_chain R wanted : closed R -> forall id l, chain R id l -> forall actual, id = type_first R actual ->
  derives R wanted actual <-> reflect_name_assignable wanted actual || existsb (base_hit wanted) l || existsb (iface_hit R wanted) l = true.
Proof.
  intros Hc id l Hl. induction Hl as [id Hid|id t Ht Hb|id t base l Ht Hb Hl IH]; intros actual Hid0.
  - split; [|cbn; rewrite !orb_false_r; apply derives_name]. intros Hd. cbn. rewrite !orb_false_r. destruct Hd as [?|? ? ? _|? ? ? Hr%row_range]; [done|lia|lia].
  - cbn [existsb]. rewrite !orb_false_r, !orb_true_iff, <-(iface_hit_name R wanted actual id t Ht Hid0). unfold base_hit. cbn [snd]. rewrite Hb. split.
    + intros Hd. destruct Hd as [?|? i ? Hi Ho Hw|? ? ? Hr ? _]; [by do 2 left|right|rewrite <-Hid0, Ht in Hr; congruence].
      apply existsb_exists. exists i. split; [by apply list_elem_of_In|by rewrite Ho].
    + intros [[?|?]|(i & Hi & [Ho Hw]%andb_true_iff)%existsb_exists]; [by apply derives_name|done|].
      apply (derives_interface _ _ _ i); [subst; apply row_range in Ht; lia|by apply list_elem_of_In|done|done].
  - specialize (IH base eq_refl). cbn [existsb]. rewrite <-(iface_hit_name R wanted actual id t Ht Hid0). unfold base_hit at 1. cbn [snd]. rewrite Hb. rewrite !orb_true_iff in IH. rewrite !orb_true_iff. split.
    + intros Hd. destruct Hd as [?|? i ? Hi Ho Hw|? t' base' Hr Hb' Hd]; [by do 2 left| |].
      * right. left. apply existsb_exists. exists i. split; [by apply list_elem_of_In|by rewrite Ho].
      * rewrite <-Hid0, Ht in Hr. assert (base' = base) as -> by congruence. apply IH in Hd. tauto.
    + intros [[?|[?|?]]|[(i & Hi & [Ho Hw]%andb_true_iff)%existsb_exists|?]]; [by apply derives_name|..].
      * apply (derives_base _ _ _ t base); [by rewrite <-Hid0|done|by apply derives_name].
      * apply (derives_base _ _ _ t base); [by rewrite <-Hid0|done|]. apply IH. tauto.
      * apply (derives_interface _ _ _ i); [subst; apply row_range in Ht; lia|by apply list_elem_of_In|done|done].
      * apply (derives_base _ _ _ t base); [by rewrite <-Hid0|done|]. apply IH. tauto.
Qed.

Lemma assignable_derives R wanted actual : reg_ok R -> closed R -> based R ->
  exists b, beans_reflect_is_assignable_from R wanted actual = Some b /\ (b = true <-> derives R wanted actual).
Proof.
  intros Hok Hc Hb. destruct (Hb actual) as [l Hl]. pose proof (derives_chain R wanted Hc _ l Hl actual eq_refl) as Hd.
  exists (reflect_name_assignable wanted actual || existsb (base_hit wanted) l || existsb (iface_hit R wanted) l). split; [|by rewrite Hd].
  unfold beans_reflect_is_assignable_from. destruct (reflect_name_assignable wanted actual); [done|]. rewrite find_type_first by done. cbn [mbind option_bind orb].
  pose proof (chain_length _ _ _ Hl) as Hlen. rewrite (bases_loop_chain R wanted Hok _ l Hl) by done. cbn [mbind option_bind].
  destruct (existsb (base_hit wanted) l); [done|]. cbn [orb]. destruct (Z.ltb_spec (type_first R actual) 0) as [H0|H0]; [by inversion Hl as [|? ? Hr%row_range|? ? ? ? Hr%row_range]; subst; try lia|].
  destruct (type_hit R actual H0) as (t & Ht & _). rewrite Ht. cbn [mbind option_bind].
  apply (interfaces_loop_chain R wanted Hok Hc (type_first R actual) l Hl); [|done|done]. symmetry. by apply type_first_self.
Qed.

(** ** Listings *)

(** The elements of a list in the order they first occur. *)
Definition first_seen (acc : list (option str)) (x : option str) : list (option str) := if bool_decide (x ∈ acc) then acc else acc ++ [x].
Definition firsts (l : list (option str)) : list (option str) := foldl first_seen [] l.

Lemma firsts_snoc l x : firsts (l ++ [x]) = first_seen (firsts l) x.
Proof. unfold firsts. by rewrite foldl_app. Qed.

Lemma elem_of_firsts l x : x ∈ firsts l <-> x ∈ l.
Proof.
  revert x. induction l as [|y l IH] using rev_ind; [done|]. intros x. rewrite firsts_snoc, elem_of_app, list_elem_of_singleton. unfold first_seen. case_bool_decide as Hy.
  - rewrite IH in Hy. rewrite IH. split; [by left|]. by intros [? | ->].
  - by rewrite elem_of_app, list_elem_of_singleton, IH.
Qed.

Lemma nodup_firsts l : NoDup (firsts l).
Proof.
  induction l as [|y l IH] using rev_ind; [constructor|]. rewrite firsts_snoc. unfold first_seen. case_bool_decide as Hy; [done|].
  apply NoDup_app. split; [done|]. split; [|apply NoDup_singleton]. by intros x Hx ->%list_elem_of_singleton.
Qed.

Section listing.
Context (names : list (str * str)).
Implicit Types (L : list Z).

Definition name_at (id : Z) : option str := snd <$> names !! Z.to_nat id.
Definition valid (id : Z) : Prop := 0 <= id < Z.of_nat (length names).

(** [ids] lists the members [L] declares: every name once, where it first
    occurs, and standing for its last declaration. *)
Record listing L ids : Prop := {
  li_names : name_at <$> ids = firsts (name_at <$> L);
  li_last : forall i, i ∈ ids -> exists l1 l2, L = l1 ++ i :: l2 /\ forall j, j ∈ l2 -> name_at j <> name_at i
}.

Lemma listing_nil : listing [] [].
Proof. split; [done|by intros i ?%elem_of_nil]. Qed.

Lemma listing_in L ids i : listing L ids -> i ∈ ids -> i ∈ L.
Proof. intros Hl Hi. destruct (li_last _ _ Hl i Hi) as (l1 & l2 & -> & _). apply elem_of_app. right. by left. Qed.

Lemma listing_names_nodup L ids : listing L ids -> NoDup (name_at <$> ids).
Proof. intros Hl. rewrite (li_names _ _ Hl). apply nodup_firsts. Qed.

Lemma listing_length L ids : listing L ids -> (forall i, i ∈ L -> valid i) -> slen ids <= Z.of_nat (length names).
Proof.
  intros Hl Hv. apply (ids_length (mkTable names 0)).
  - by eapply NoDup_fmap_1, listing_names_nodup.
  - intros i Hi. apply Hv. by eapply listing_in.
Qed.

Lemma listing_replace L ids i k id : listing L ids -> ids !! k = Some id -> name_at id = name_at i -> listing (L ++ [i]) (<[k := i]> ids).
Proof.
  intros Hl Hk Hn. pose proof (listing_names_nodup L ids Hl) as Hd. pose proof (list_elem_of_lookup_2 _ _ _ Hk) as Hid. split.
  - rewrite list_fmap_insert, fmap_app. cbn [fmap list_fmap]. rewrite firsts_snoc, <-(li_names _ _ Hl). unfold first_seen.
    rewrite bool_decide_eq_true_2 by (rewrite <-Hn; by apply list_elem_of_fmap_2). apply list_insert_id. by rewrite list_lookup_fmap, Hk; cbn; rewrite Hn.
  - intros x (k' & Hk')%list_elem_of_lookup. destruct (decide (k' = k)) as [->|Hne].
    + rewrite list_lookup_insert_eq in Hk' by (by eapply lookup_lt_Some). injection Hk' as <-. exists L, []. split; [done|]. by intros j ?%elem_of_nil.
    + rewrite list_lookup_insert_ne in Hk' by done. destruct (li_last _ _ Hl x (list_elem_of_lookup_2 _ _ _ Hk')) as (l1 & l2 & -> & Hl2).
      exists l1, (l2 ++ [i]). split; [by rewrite <-app_assoc|]. intros j [Hj|Hj]%elem_of_app; [by apply Hl2|]. apply list_elem_of_singleton in Hj as ->.
      rewrite <-Hn. intros Heq. apply Hne. apply (NoDup_lookup _ _ _ (name_at x) Hd); by rewrite list_lookup_fmap, ?Hk', ?Hk; cbn; rewrite ?Heq.
Qed.

Lemma listing_append L ids i : listing L ids -> (forall id, id ∈ ids -> name_at id <> name_at i) -> listing (L ++ [i]) (ids ++ [i]).
Proof.
  intros Hl Hn. split.
  - rewrite !fmap_app. cbn [fmap list_fmap]. rewrite firsts_snoc, <-(li_names _ _ Hl). unfold first_seen. rewrite bool_decide_eq_false_2; [done|].
    intros (id & Heq & Hid)%list_elem_of_fmap. by apply (Hn id Hid).
  - intros x [Hx|Hx]%elem_of_app.
    + destruct (li_last _ _ Hl x Hx) as (l1 & l2 & -> & Hl2). exists l1, (l2 ++ [i]). split; [by rewrite <-app_assoc|].
      intros j [Hj|Hj]%elem_of_app; [by apply Hl2|]. apply list_elem_of_singleton in Hj as ->. intros Heq. by apply (Hn x Hx).
    + apply list_elem_of_singleton in Hx as ->. exists L, []. split; [done|]. by intros j ?%elem_of_nil.
Qed.

Lemma last_named_spec name ids : (forall id, id ∈ ids -> valid id) -> forall j replace, exists r,
  last_named names name ids j replace = Some r /\
  ((r = replace /\ forall id, id ∈ ids -> name_at id <> Some name) \/
   exists k id, ids !! k = Some id /\ name_at id = Some name /\ r = j + Z.of_nat k).
Proof.
  induction ids as [|id ids IH]; intros Hv j replace; cbn [last_named]; [exists replace; split; [done|left; split; [done|by intros id ?%elem_of_nil]]|].
  destruct (Hv id ltac:(by left)) as [H0 H1]. rewrite (proj2 (Z.ltb_ge _ _)) by lia.
  destruct (lookup_lt_is_Some_2 names (Z.to_nat id)) as [n Hn]; [lia|]. rewrite Hn. cbn [mbind option_bind].
  assert (Hna : name_at id = Some n.2) by (unfold name_at; by rewrite Hn).
  destruct (IH ltac:(intros i Hi; apply Hv; by right) (j + 1) (if beans_str_eq n.2 name then j else replace)) as (r & -> & [[Hr Hno]|(k & i & Hk & Hi & Hr)]); exists r; (split; [done|]).
  - destruct (beans_str_eq n.2 name) eqn:He.
    + right. apply str_eq_true in He. exists O, id. split; [done|]. rewrite Hna, He. split; [done|lia].
    + left. split; [done|]. intros i [->|Hi]%elem_of_cons; [|by apply Hno]. rewrite Hna. intros [= Heq]. rewrite str_eq_spec, bool_decide_eq_false in He. done.
  - right. exists (S k), i. split_and!; [done|done|lia].
Qed.

(** The declarations of one level. *)
Definition declares (keep : str -> bool) (type_name : str) (x : str * str) : bool := reflect_base_equal x.1 type_name && keep x.2.

Lemma declares_skip keep type_name o n : negb (reflect_base_equal o type_name) || negb (keep n) = negb (declares keep type_name (o, n)).
Proof. unfold declares. cbn. by destruct (reflect_base_equal o type_name), (keep n). Qed.

Lemma collect_level_inherited keep room type_name rows pre L ids : names = pre ++ rows -> Z.of_nat (length names) <= room ->
  (forall i, i ∈ L -> valid i) -> listing L ids ->
  exists ids', collect_level names keep room true type_name rows (Z.of_nat (length pre)) ids = Some ids' /\
    listing (L ++ ids_loop (declares keep type_name) rows (Z.of_nat (length pre))) ids'.
Proof.
  intros Hn Hroom. revert pre L ids Hn. induction rows as [|[o n] rows IH]; intros pre L ids Hn Hv Hl; cbn [collect_level ids_loop]; [exists ids; by rewrite app_nil_r|].
  assert (Hn' : names = (pre ++ [(o, n)]) ++ rows) by (by rewrite <-app_assoc). pose proof (IH (pre ++ [(o, n)])) as Hnext. rewrite length_app in Hnext. cbn [length] in Hnext.
  replace (Z.of_nat (length pre + 1)) with (Z.of_nat (length pre) + 1) in Hnext by lia. rewrite declares_skip. destruct (declares keep type_name (o, n)); cbn [negb]; [|by apply Hnext].
  set (i := Z.of_nat (length pre)) in *. assert (Hi : valid i) by (unfold valid; rewrite Hn, length_app; cbn; lia).
  assert (Hna : name_at i = Some n) by (unfold name_at, i; rewrite Nat2Z.id, Hn, list_lookup_middle by done; done).
  destruct (last_named_spec n ids ltac:(intros x Hx; apply Hv; by eapply listing_in) 0 (-1)) as (r & -> & Hr). cbn [mbind option_bind]. rewrite andb_true_r.
  assert (Hv' : forall x, x ∈ L ++ [i] -> valid x) by (intros x [?|Hx]%elem_of_app; [by apply Hv|by apply list_elem_of_singleton in Hx as ->]).
  destruct Hr as [[-> Hno]|(k & id & Hk & Hid & ->)].
  - change (0 <=? -1) with false. cbn iota. assert (Hl' : listing (L ++ [i]) (ids ++ [i])) by (apply listing_append; [done|]; intros x Hx; rewrite Hna; by apply Hno).
    pose proof (listing_length _ _ Hl' Hv') as Hle. unfold slen in Hle. rewrite length_app in Hle. cbn in Hle. rewrite (proj2 (Z.ltb_lt _ _)) by (unfold slen; lia).
    cbn [mbind option_bind]. destruct (Hnext _ _ Hn' Hv' Hl') as (ids' & -> & Hl''). exists ids'. split; [done|]. by rewrite <-app_assoc in Hl''.
  - rewrite (proj2 (Z.leb_le _ _)) by lia. cbn [mbind option_bind]. rewrite Z.add_0_l, Nat2Z.id.
    assert (Hl' : listing (L ++ [i]) (<[k := i]> ids)) by (apply (listing_replace _ _ _ _ id); [done|done|by rewrite Hna]).
    destruct (Hnext _ _ Hn' Hv' Hl') as (ids' & -> & Hl''). exists ids'. split; [done|]. by rewrite <-app_assoc in Hl''.
Qed.

Lemma collect_level_own keep room type_name rows pre ids : names = pre ++ rows -> Z.of_nat (length names) <= room ->
  (forall i, i ∈ ids -> valid i) -> slen ids <= Z.of_nat (length pre) ->
  collect_level names keep room false type_name rows (Z.of_nat (length pre)) ids = Some (ids ++ ids_loop (declares keep type_name) rows (Z.of_nat (length pre))).
Proof.
  intros Hn Hroom. revert pre ids Hn. induction rows as [|[o n] rows IH]; intros pre ids Hn Hv Hlen; cbn [collect_level ids_loop]; [by rewrite app_nil_r|].
  assert (Hn' : names = (pre ++ [(o, n)]) ++ rows) by (by rewrite <-app_assoc). pose proof (IH (pre ++ [(o, n)])) as Hnext. rewrite length_app in Hnext. cbn [length] in Hnext.
  replace (Z.of_nat (length pre + 1)) with (Z.of_nat (length pre) + 1) in Hnext by lia. rewrite declares_skip. destruct (declares keep type_name (o, n)); cbn [negb]; [|apply Hnext; [done|done|lia]].
  set (i := Z.of_nat (length pre)) in *. assert (Hi : valid i) by (unfold valid; rewrite Hn, length_app; cbn; lia).
  destruct (last_named_spec n ids Hv 0 (-1)) as (r & -> & _). cbn [mbind option_bind]. rewrite andb_false_r.
  rewrite (proj2 (Z.ltb_lt _ _)) by (unfold valid in Hi; lia). cbn [mbind option_bind].
  rewrite Hnext; [by rewrite <-app_assoc|done| |unfold slen in *; rewrite length_app; cbn; lia].
  intros x [?|Hx]%elem_of_app; [by apply Hv|by apply list_elem_of_singleton in Hx as ->].
Qed.

Lemma level_valid (p : str * str -> bool) i : i ∈ ids_where p names -> valid i.
Proof. intros (x & Hx & _)%(ids_where_in p (mkTable names 0)). apply row_range in Hx. exact Hx. Qed.
End listing.

(** *** Listings along the chain *)

Definition level_ids (names : list (str * str)) (keep : str -> bool) (t : BReflectType) : list Z := ids_where (declares keep (ty_name t)) names.

(** The declarations of a chain, base first. *)
Fixpoint declared (names : list (str * str)) (keep : str -> bool) (l : list (Z * BReflectType)) : list Z :=
  match l with [] => [] | x :: l => declared names keep l ++ level_ids names keep x.2 end.

Lemma declared_valid names keep l i : i ∈ declared names keep l -> valid names i.
Proof.
  induction l as [|x l IH]; cbn [declared]; [by intros ?%elem_of_nil|]. intros [?|?]%elem_of_app; [by apply IH|]. by eapply level_valid.
Qed.

Lemma collect_inherited R names keep room : reg_ok R -> Z.of_nat (length names) <= room -> forall id l, chain R id l ->
  forall fuel, (length l < fuel)%nat -> exists ids, collect fuel R names keep room id true [] = Some ids /\ listing names (declared names keep l) ids.
Proof.
  intros Hok Hroom id l Hl. assert (Hlevel : forall id t l ids, listing names (declared names keep l) ids ->
    exists ids', collect_level names keep room true (ty_name t) names 0 ids = Some ids' /\ listing names (declared names keep ((id, t) :: l)) ids').
  { intros id' t l' ids Hli. apply (collect_level_inherited names keep room (ty_name t) names [] (declared names keep l') ids eq_refl Hroom); [|done].
    intros i. apply declared_valid. }
  induction Hl as [id Hid|id t Ht Hb|id t base l Ht Hb Hl IH]; intros [|fuel] Hf; cbn in Hf; try lia; cbn [collect].
  - rewrite (proj2 (Z.ltb_lt _ _)) by done. exists []. split; [done|]. apply listing_nil.
  - rewrite (proj2 (Z.ltb_ge _ _)) by (apply row_range in Ht; lia). rewrite Ht. cbn [mbind option_bind]. rewrite Hb. cbn [mbind option_bind].
    apply (Hlevel id t []), listing_nil.
  - rewrite (proj2 (Z.ltb_ge _ _)) by (apply row_range in Ht; lia). rewrite Ht. cbn [mbind option_bind]. rewrite Hb, find_type_first by done. cbn [mbind option_bind].
    destruct (IH fuel ltac:(lia)) as (ids & -> & Hli). by apply Hlevel.
Qed.

Lemma collect_own R names keep room : Z.of_nat (length names) <= room -> forall id t fuel, row (types R) id = Some t ->
  collect (S fuel) R names keep room id false [] = Some (level_ids names keep t).
Proof.
  intros Hroom id t fuel Ht. cbn [collect]. rewrite (proj2 (Z.ltb_ge _ _)) by (apply row_range in Ht; lia). rewrite Ht. cbn [mbind option_bind].
  apply (collect_level_own names keep room (ty_name t) names [] []); [done|done|by intros i ?%elem_of_nil|done].
Qed.

Lemma room_enough {A B} (f : A -> B) (t : table A) : Z.of_nat (length (f <$> t_rows t)) <= room_of t.
Proof. rewrite length_fmap. unfold room_of, t_len. destruct (Z.eqb_spec (Z.of_nat (length (t_rows t))) 0); lia. Qed.

(** The listing of a type that ends its chain: total, in its scratch array. *)
Lemma fields_listing R id l : reg_ok R -> chain R id l -> exists ids, reflect_collect_fields R id true = Some ids /\
  listing (field_names R) (declared (field_names R) (fun _ => true) l) ids.
Proof.
  intros Hok Hl. apply collect_inherited; [done|apply room_enough|done|]. pose proof (chain_length _ _ _ Hl). unfold collect_depth. lia.
Qed.

Lemma methods_listing R id l : reg_ok R -> chain R id l -> exists ids, reflect_collect_methods R id true = Some ids /\
  listing (method_names R) (declared (method_names R) (fun name => negb (reflect_special_method name)) l) ids.
Proof.
  intros Hok Hl. apply collect_inherited; [done|apply room_enough|done|]. pose proof (chain_length _ _ _ Hl). unfold collect_depth. lia.
Qed.

(** ** A field by name *)

(** [id] is the last of [L] called [name], or -1. *)
Definition is_last (names : list (str * str)) (name : str) (L : list Z) (id : Z) : Prop :=
  (id = -1 /\ forall j, j ∈ L -> name_at names j <> Some name) \/
  (exists l1 l2, L = l1 ++ id :: l2 /\ name_at names id = Some name /\ forall j, j ∈ l2 -> name_at names j <> Some name).

Lemma is_last_app names name L L' r : is_last names name L' r -> (forall i, i ∈ L' -> valid names i) ->
  if 0 <=? r then is_last names name (L ++ L') r else forall r', is_last names name L r' -> is_last names name (L ++ L') r'.
Proof.
  intros [[-> Hn]|(l1 & l2 & -> & Hn & Hl2)] Hv.
  - cbn. intros r' [[-> Hn']|(l1 & l2 & -> & Hr & Hl2)].
    + left. split; [done|]. intros j [?|?]%elem_of_app; auto.
    + right. exists l1, (l2 ++ L'). split; [by rewrite <-app_assoc|]. split; [done|]. intros j [?|?]%elem_of_app; auto.
  - rewrite (proj2 (Z.leb_le _ _)) by (apply Hv, elem_of_app; right; by left). right. exists (L ++ l1), l2. by rewrite <-app_assoc.
Qed.

Lemma field_name_at R id f : row (fields R) id = Some f -> name_at (field_names R) id = Some (f_name f).
Proof. unfold row, name_at, field_names. destruct (id <? 0); [done|]. rewrite list_lookup_fmap. by intros ->. Qed.

Lemma field_valid R id : valid (field_names R) id -> is_Some (row (fields R) id).
Proof. unfold valid, field_names. rewrite length_fmap. apply row_some. Qed.

Lemma last_id_named_spec R name ids : (forall i, i ∈ ids -> valid (field_names R) i) ->
  exists r, last_id_named R name ids = Some r /\ is_last (field_names R) name ids r.
Proof.
  induction ids as [|id ids IH]; intros Hv; cbn [last_id_named]; [exists (-1); split; [done|left; split; [done|by intros j ?%elem_of_nil]]|].
  destruct (IH ltac:(intros i Hi; apply Hv; by right)) as (r & -> & Hr). cbn [mbind option_bind].
  pose proof (is_last_app _ _ [id] ids r Hr ltac:(intros i Hi; apply Hv; by right)) as Happ. destruct (Z.leb_spec 0 r); [by exists r|].
  destruct (field_valid R id ltac:(apply Hv; by left)) as [f Hf]. rewrite Hf. cbn [mbind option_bind]. pose proof (field_name_at R id f Hf) as Hn.
  destruct (beans_str_eq (f_name f) name) eqn:He; eexists; (split; [done|]); apply Happ.
  - right. exists [], []. split; [done|]. apply str_eq_true in He as <-. split; [done|]. by intros j ?%elem_of_nil.
  - left. split; [done|]. intros j ->%list_elem_of_singleton. rewrite Hn. intros [= Heq]. rewrite str_eq_spec, bool_decide_eq_false in He. done.
Qed.

(** The attach list of a resolved type is its level. *)
Lemma fields_level R name t : reg_ok R -> field_orphans R = false -> row (types R) (type_first R name) = Some t ->
  l_ids (ty_fields t) = level_ids (field_names R) (fun _ => true) t.
Proof.
  intros Hok Ho Ht. rewrite (filed_scan R _ f_owner _ ty_fields (ty_name t) t (ro_fields _ Hok Ho)); rewrite ?(type_first_self _ _ _ Ht); [|by eapply row_range|done].
  unfold level_ids, ids_where, field_names. generalize 0. induction (t_rows (fields R)) as [|f l IH]; intros i; [done|]. cbn [fmap list_fmap ids_loop].
  unfold declares at 1. cbn [fst snd andb]. rewrite andb_true_r. destruct (reflect_base_equal (f_owner f) (ty_name t)); [f_equal|]; apply IH.
Qed.

Lemma named_field_loop_spec R name : reg_ok R -> field_orphans R = false -> forall id l, chain R id l -> forall owner n, id < 0 \/ id = type_first R owner -> (length l <= n)%nat ->
  exists r, named_field_loop n R name id = Some r /\ is_last (field_names R) name (declared (field_names R) (fun _ => true) l) r.
Proof.
  intros Hok Ho id l Hl. assert (Hnone : is_last (field_names R) name [] (-1)) by (left; split; [done|by intros j ?%elem_of_nil]).
  assert (Hlevel : forall owner id t, row (types R) id = Some t -> id < 0 \/ id = type_first R owner ->
    (id <? 0) = false /\ exists r, last_id_named R name (l_ids (ty_fields t)) = Some r /\ is_last (field_names R) name (level_ids (field_names R) (fun _ => true) t) r).
  { intros owner id' t Ht Hid. pose proof (row_range _ _ _ Ht). split; [apply Z.ltb_ge; lia|]. destruct Hid as [? | ->]; [lia|].
    rewrite (fields_level R owner t) by done. apply last_id_named_spec. intros i. apply level_valid. }
  induction Hl as [id Hid|id t Ht Hb|id t base l Ht Hb Hl IH]; intros owner [|n] Hid0 Hn; cbn in Hn; try lia; cbn [named_field_loop declared].
  - by exists (-1).
  - rewrite (proj2 (Z.ltb_lt _ _)) by done. by exists (-1).
  - destruct (Hlevel owner id t Ht Hid0) as [-> (r & Hr & Hlast)]. rewrite Ht. cbn [mbind option_bind]. rewrite Hr. cbn [mbind option_bind]. rewrite Hb.
    pose proof (is_last_app _ _ [] _ r Hlast ltac:(intros i; apply level_valid)) as Happ. destruct (0 <=? r); eexists; (split; [done|]); [done|]. by apply Happ.
  - destruct (Hlevel owner id t Ht Hid0) as [-> (r & Hr & Hlast)]. rewrite Ht. cbn [mbind option_bind]. rewrite Hr. cbn [mbind option_bind]. rewrite Hb.
    pose proof (is_last_app _ _ (declared (field_names R) (fun _ => true) l) _ r Hlast ltac:(intros i; apply level_valid)) as Happ.
    destruct (0 <=? r); [by exists r|]. rewrite find_type_first by done. cbn [mbind option_bind].
    destruct (IH base n ltac:(by right) ltac:(lia)) as (r' & -> & Hr'). exists r'. split; [done|]. by apply Happ.
Qed.

(** The fallback walks the listing, where the name occurs once. *)
Lemma first_id_named_spec R owner name ids L : listing (field_names R) L ids -> (forall i, i ∈ L -> valid (field_names R) i) ->
  (forall i, reflect_field_id R owner true i = Some (listed ids i)) ->
  exists r, first_id_named R owner name (length ids) 0 = Some r /\ is_last (field_names R) name L r.
Proof.
  intros Hl Hv Hq. assert (Hgen : forall tail pre, ids = pre ++ tail -> exists r, first_id_named R owner name (length tail) (slen pre) = Some r /\
    ((r = -1 /\ forall j, j ∈ tail -> name_at (field_names R) j <> Some name) \/ (r ∈ tail /\ name_at (field_names R) r = Some name))).
  { induction tail as [|id tail IH]; intros pre Hids; cbn [length first_id_named]; [exists (-1); split; [done|left; split; [done|by intros j ?%elem_of_nil]]|].
    rewrite Hq. unfold listed. pose proof (slen_nonneg pre). pose proof (slen_nonneg tail).
    assert (Hlen : slen ids = slen pre + 1 + slen tail) by (rewrite Hids; unfold slen; rewrite length_app; cbn; lia).
    rewrite (proj2 (Z.leb_le _ _)), (proj2 (Z.ltb_lt _ _)) by lia. cbn [andb mbind option_bind fst].
    replace (ids !! Z.to_nat (slen pre)) with (Some id) by (unfold slen; by rewrite Nat2Z.id, Hids, list_lookup_middle). change (default (-1) (Some id)) with id.
    assert (Hid : valid (field_names R) id) by (apply Hv; eapply listing_in; [done|]; rewrite Hids; apply elem_of_app; right; by left).
    rewrite (proj2 (Z.ltb_ge _ _)) by (unfold valid in Hid; lia). destruct (field_valid R id Hid) as [f Hf]. rewrite Hf. cbn [mbind option_bind].
    pose proof (field_name_at R id f Hf) as Hn. destruct (beans_str_eq (f_name f) name) eqn:He.
    - exists id. split; [done|]. right. split; [by left|]. apply str_eq_true in He as <-. done.
    - destruct (IH (pre ++ [id])) as (r & Hr & Hcase); [by rewrite Hids, <-app_assoc|]. rewrite slen_app in Hr. change (slen [id]) with 1 in Hr. exists r. split; [done|].
      destruct Hcase as [[-> Hno]|[Hin Hnm]]; [left|right; split; [by right|done]]. split; [done|]. intros j [->|Hj]%elem_of_cons; [|by apply Hno].
      rewrite Hn. intros [= Heq]. rewrite str_eq_spec, bool_decide_eq_false in He. done. }
  destruct (Hgen ids [] eq_refl) as (r & Hr & Hcase). exists r. split; [done|]. destruct Hcase as [[-> Hno]|[Hin Hnm]].
  - left. split; [done|]. intros j Hj Hnj. assert (Hf : name_at (field_names R) j ∈ name_at (field_names R) <$> ids).
    { rewrite (li_names _ _ _ Hl). apply elem_of_firsts. by apply list_elem_of_fmap_2. }
    apply list_elem_of_fmap in Hf as (i & Hi & Hin). apply (Hno i Hin). congruence.
  - right. destruct (li_last _ _ _ Hl r Hin) as (l1 & l2 & HL & Hl2). exists l1, l2. split; [done|]. split; [done|]. intros j Hj. rewrite <-Hnm. by apply Hl2.
Qed.

Lemma named_field_spec R owner name l : reg_ok R -> chain R (type_first R owner) l ->
  exists r, reflect_named_field_id R owner name = Some r /\ is_last (field_names R) name (declared (field_names R) (fun _ => true) l) r.
Proof.
  intros Hok Hl. unfold reflect_named_field_id. destruct (field_orphans R) eqn:Ho; cbn [negb].
  - assert (Hq : exists ids, listing (field_names R) (declared (field_names R) (fun _ => true) l) ids /\ forall i, reflect_field_id R owner true i = Some (listed ids i)).
    { unfold reflect_field_id. rewrite find_type_first by done. cbn [mbind option_bind]. destruct (Z.ltb_spec (type_first R owner) 0) as [H0|H0].
      - assert (l = []) as -> by (by inversion Hl as [|? ? Hr%row_range|? ? ? ? Hr%row_range]; subst; try lia). exists []. split; [apply listing_nil|].
        intros i. unfold listed. change (slen []) with 0. by destruct (Z.leb_spec 0 i), (Z.ltb_spec i 0); try lia.
      - destruct (fields_listing R _ l Hok Hl) as (ids & -> & Hli). by exists ids. }
    destruct Hq as (ids & Hli & Hq). rewrite Hq. unfold listed at 1. cbn [mbind option_bind snd]. unfold slen at 1. rewrite Nat2Z.id.
    apply (first_id_named_spec R owner name ids); [done|intros i; apply declared_valid|done].
  - rewrite find_type_first by done. cbn [mbind option_bind]. apply (named_field_loop_spec R name Hok Ho (type_first R owner) l Hl owner); [by right|].
    pose proof (chain_length _ _ _ Hl). lia.
Qed.

(** ** Functions *)

Section functions.
Implicit Types (F : functions).

Definition fn_key (f : BReflectFunction) : Z := reflect_hash_span (fn_qualified f) (slen (fn_qualified f)).
Definition fn_first F (name : str) : Z := first_row (fun f => beans_str_eq (fn_qualified f) name) (fns F).

Record fn_ok F : Prop := {
  fo_fns : index_reps (function_index F) (entries_of fn_key (fns F));
  fo_params : function_param_orphans F = false ->
    filed (fun _ => true) (fun p => fn_first F (fp_function p)) (t_rows (fparams F)) (lists_of (fns F) fn_params)
}.

Lemma no_functions_ok : fn_ok no_functions.
Proof.
  split; [done|]. intros _. split; [by intros x ?%elem_of_nil|]. intros id l. unfold lists_of, row. cbn. by destruct (id <? 0).
Qed.

Lemma find_function_first F name : fn_ok F -> reflect_find_function F name = Some (fn_first F name).
Proof.
  intros Hok. apply (lookup_first _ _ fn_key); [apply Hok|apply hash_span_ne|]. intros f He. apply str_eq_true in He. unfold fn_key. by rewrite He.
Qed.

Lemma fn_hit F name : 0 <= fn_first F name -> exists f, row (fns F) (fn_first F name) = Some f /\ fn_qualified f = name.
Proof. intros H0. destruct (first_row_hit _ _ H0) as (f & Hf & He). exists f. split; [done|]. by apply str_eq_true. Qed.

Lemma register_function_ok qualified name result flags F : fn_ok F -> exists F', beans_reflect_register_function qualified name result flags F = Some F' /\ fn_ok F'.
Proof.
  intros [H1 H2]. unfold beans_reflect_register_function. set (f := mkFunction qualified name result flags 0 no_ids).
  destruct (index_insert_reps _ _ (fn_key f) (t_len (fns F)) H1) as (ix & Hins & Hix); [apply hash_span_ne|unfold t_len; lia|].
  change (reflect_hash_span qualified (slen qualified)) with (fn_key f). rewrite Hins. cbn [mbind option_bind]. eexists. split; [reflexivity|].
  split; cbn [fns fparams function_index function_param_orphans]; [by rewrite entries_push|]. intros Ho. apply (filed_owner _ _ _ _ _ _ (t_len (fns F)) (H2 Ho)).
  - intros x Hx Hr. pose proof (fd_found _ _ _ _ (H2 Ho) x Hx Hr) as H0. cbv beta in H0. unfold fn_first at 1. cbn [fns]. rewrite first_row_push.
    fold (fn_first F (fp_function x)). rewrite (proj2 (Z.leb_le _ _) H0). split; [done|apply first_row_range].
  - intros id l. unfold lists_of. rewrite row_push. destruct (Z.eqb_spec id (t_len (fns F))) as [->|]; [|by right]. cbn. intros [= <-]. by left.
Qed.

(** One function changes its thunk or its parameters. *)
Lemma update_fns F id f f' : row (fns F) id = Some f -> fn_qualified f' = fn_qualified f ->
  entries_of fn_key (set_row (fns F) id f') = entries_of fn_key (fns F) /\
  (forall name, first_row (fun f => beans_str_eq (fn_qualified f) name) (set_row (fns F) id f') = fn_first F name) /\
  (forall id' l, lists_of (set_row (fns F) id f') fn_params id' = Some l ->
    if id' =? id then l = fn_params f' else lists_of (fns F) fn_params id' = Some l).
Proof.
  intros Hf Hq. split; [|split].
  - apply (entries_set _ _ _ f); [done|]. unfold fn_key. by rewrite Hq.
  - intros name. apply (first_row_set _ _ _ f); [done|]. by rewrite Hq.
  - intros id' l. unfold lists_of. rewrite row_set by (by eapply row_range). destruct (id' =? id); [|done]. cbn. by intros [= <-].
Qed.

Lemma register_function_call_ok qualified call F : fn_ok F -> exists F', beans_reflect_register_function_call qualified call F = Some F' /\ fn_ok F'.
Proof.
  intros Hok. unfold beans_reflect_register_function_call. pose proof (find_function_first F qualified Hok) as Hfind. unfold reflect_find_function in Hfind.
  rewrite Hfind. cbn [mbind option_bind]. destruct (Z.leb_spec 0 (fn_first F qualified)) as [H0|]; [|by exists F]. destruct (fn_hit F qualified H0) as (f & Hf & _).
  rewrite Hf. cbn [mbind option_bind]. eexists. split; [reflexivity|]. destruct (update_fns F _ f (set_fn_call call f) Hf eq_refl) as (He & Hfst & Hl). destruct Hok as [H1 H2].
  split; cbn [fns fparams function_index function_param_orphans]; [by rewrite He|]. intros Ho. apply (filed_ext _ _ _ _ _ _ (H2 Ho)); [intros x _ _; apply Hfst|].
  intros id' l Hid. exists l. split; [|done]. specialize (Hl id' l Hid). destruct (Z.eqb_spec id' (fn_first F qualified)) as [->|]; [|done].
  rewrite Hl. unfold lists_of. by rewrite Hf.
Qed.

Lemma register_function_parameter_ok function_name name type_name passing F : fn_ok F ->
  exists F', beans_reflect_register_function_parameter function_name name type_name passing F = Some F' /\ fn_ok F'.
Proof.
  intros Hok. unfold beans_reflect_register_function_parameter. cbv zeta. set (p := mkFnParam function_name name type_name passing).
  pose proof (find_function_first F function_name Hok) as Hfind. unfold reflect_find_function in Hfind. rewrite Hfind. cbn [mbind option_bind]. clear Hfind.
  destruct Hok as [H1 H2]. set (id := fn_first F function_name). destruct (Z.leb_spec 0 id) as [H0|H0].
  - destruct (fn_hit F function_name H0) as (f & Hf & _). fold id in Hf. rewrite Hf. cbn [mbind option_bind]. eexists. split; [reflexivity|].
    destruct (update_fns F id f (set_fn_params (reflect_id_push (fn_params f) (t_len (fparams F))) f) Hf eq_refl) as (He & Hfst & Hl).
    split; cbn [fns fparams function_index function_param_orphans]; [by rewrite He|]. intros Ho.
    assert (Hf' : filed (fun _ => true) (fun p => fn_first F (fp_function p)) (t_rows (fparams F) ++ [p])
      (lists_of (set_row (fns F) id (set_fn_params (reflect_id_push (fn_params f) (t_len (fparams F))) f)) fn_params)).
    { apply (filed_attach _ _ _ _ _ p (fn_params f) (H2 Ho)); [done|done|change (lists_of (fns F) fn_params id = Some (fn_params f)); unfold lists_of; by rewrite Hf|].
      intros id' l Hid. specialize (Hl id' l Hid). change (fn_first F (fp_function p)) with id. destruct (id' =? id); [|done]. by rewrite Hl. }
    apply (filed_ext _ _ _ _ _ _ Hf'); [intros x _ _; apply Hfst|by eauto].
  - cbn [mbind option_bind]. eexists. split; [reflexivity|]. by split.
Qed.

Lemma fn_enroll_all_ok es : forall F, fn_ok F -> exists F', fn_enroll_all es F = Some F' /\ fn_ok F'.
Proof.
  induction es as [|e es IH]; intros F Hok; [by exists F|]. cbn [fn_enroll_all].
  assert (He : exists F', fn_enroll e F = Some F' /\ fn_ok F').
  { destruct e; [by apply register_function_ok|by apply register_function_call_ok|by apply register_function_parameter_ok]. }
  destruct He as (F' & -> & Hok'). by apply IH.
Qed.

Definition fn_scanned F : functions := mkFunctions (fns F) (fparams F) (function_index F) true.

Lemma function_parameter_scanned F name wanted : fn_ok F ->
  reflect_function_parameter_id F name wanted = reflect_function_parameter_id (fn_scanned F) name wanted.
Proof.
  intros Hok. unfold reflect_function_parameter_id. change (reflect_find_function (fn_scanned F)) with (reflect_find_function F).
  rewrite find_function_first by done. cbn [mbind option_bind]. destruct (Z.ltb_spec (fn_first F name) 0) as [|H0]; [done|].
  change (fns (fn_scanned F)) with (fns F). change (fparams (fn_scanned F)) with (fparams F). change (function_param_orphans (fn_scanned F)) with true.
  destruct (fn_hit F name H0) as (f & Hf & Hq). rewrite Hf. cbn [mbind option_bind negb]. f_equal. destruct (function_param_orphans F) eqn:Ho; [done|]. cbn [negb].
  rewrite (scan_attached _ _ _ 0). unfold attached, l_len. cbn [l_ids].
  rewrite (fd_lists _ _ _ _ (fo_params _ Hok Ho) (fn_first F name) (fn_params f)) by (unfold lists_of; by rewrite Hf).
  assert (Hids : ids_where (fun x => true && (fn_first F (fp_function x) =? fn_first F name)) (t_rows (fparams F)) = ids_where (fun p => beans_str_eq (fp_function p) name) (t_rows (fparams F))).
  { apply ids_where_ext. intros x Hx. cbn [andb]. destruct (beans_str_eq (fp_function x) name) eqn:He; [apply str_eq_true in He as ->; apply Z.eqb_refl|].
    apply Z.eqb_neq. intros Heq. destruct (fn_hit F (fp_function x) ltac:(lia)) as (f' & Hf' & Hq'). rewrite Heq in Hf'. assert (f' = f) as -> by congruence.
    rewrite str_eq_spec, bool_decide_eq_false in He. congruence. }
  by rewrite Hids.
Qed.
End functions.
