(* ===== verification/ReflectCall.v ===== *)
(** * ReflectCall: boxed values and dynamic calls

    [runtime/beans_rt.c], the part of reflection that runs code: boxes with a
    type name and a block of bytes, field access, and the checked calls of
    functions, methods, initializers and variants, by name or by handle.

    A [world] holds the boxes and the blocks of memory their [data] pointers
    and the callers' slots name, the last error code, and whatever else a
    program has ([outside]).  The functions whose addresses the registry and
    the boxes keep are emitted by the compiler: [act] (retain and drop of a
    slot), [thunk], [getter] and [setter] are parameters, and so is the
    allocator.  The array of argument handles is [None] for [NULL].  The
    scratch arrays for types and passing modes are lists.  [None] of a
    function stands for a read or write outside a block, or through a pointer
    that names none. *)

From stdpp Require Import gmap.
From S2P Require Import Prelude Str Hash Slots Reflect.

Open Scope c_scope.

Record BReflectValue : Type := mkValue { bv_type : str; bv_size : Z; bv_data : Z; bv_retain : Z; bv_drop : Z }.

Record world (E : Type) : Type := mkWorld {
  boxes : gmap Z BReflectValue;
  blocks : gmap Z (list Z);
  reflect_error_code : Z;
  outside : E
}.
Arguments mkWorld {E}.
Arguments boxes {E}.
Arguments blocks {E}.
Arguments reflect_error_code {E}.
Arguments outside {E}.

Section call.
Context {E : Type}.
Context (alloc : world E -> Z) (act : Z -> Z -> world E -> option (world E)).
Context (thunk : Z -> Z -> list Z -> world E -> option (Z * world E)).
Context (getter : Z -> Z -> world E -> option (Z * world E)) (setter : Z -> Z -> Z -> world E -> option (Z * world E)).
Context (R : registry) (F : functions) (V : variants).

Implicit Types (w : world E).

Definition set_boxes (m : gmap Z BReflectValue) w : world E := mkWorld m (blocks w) (reflect_error_code w) (outside w).
Definition set_blocks (m : gmap Z (list Z)) w : world E := mkWorld (boxes w) m (reflect_error_code w) (outside w).
Definition set_error (code : Z) w : world E := mkWorld (boxes w) (blocks w) code (outside w).

(** ** Boxes *)

Definition zeros (n : Z) : list Z := replicate (Z.to_nat n) 0.

(** [memcpy(target, bytes, size)] over the block [target]. *)
Definition write_block (target : Z) (bytes : list Z) w : option (world E) :=
  old ← blocks w !! target;
  if slen old <? slen bytes then None else Some (set_blocks (<[target := bytes ++ drop (length bytes) old]> (blocks w)) w).
Definition read_block (source size : Z) w : option (list Z) :=
  bytes ← blocks w !! source; if slen bytes <? size then None else Some (take (Z.to_nat size) bytes).
(** [retain] and [drop] may be [NULL]. *)
Definition run_action (action slot : Z) w : option (world E) := if action =? 0 then Some w else act action slot w.

Definition beans_reflect_value_new (type_name : str) (source size retain drop : Z) w : option (Z * world E) :=
  if size <? 0 then Some (0, w)
  else
    let value := alloc w in
    let w := set_boxes (<[value := mkValue type_name size 0 retain drop]> (boxes w)) w in
    let data := alloc w in
    let w := set_boxes (<[value := mkValue type_name size data retain drop]> (boxes w)) w in
    let w := set_blocks (<[data := zeros (if size =? 0 then 1 else size)]> (blocks w)) w in
    if negb (source =? 0) && negb (size =? 0) then
      bytes ← read_block source size w; w ← write_block data bytes w; Some (value, w)
    else Some (value, w).

Definition beans_reflect_value_new_copy (type_name : str) (source size retain drop : Z) w : option (Z * world E) :=
  '(raw, w) ← beans_reflect_value_new type_name source size retain drop w;
  if raw =? 0 then Some (raw, w)
  else value ← boxes w !! raw; w ← run_action (bv_retain value) (bv_data value) w; Some (raw, w).

Definition beans_reflect_value_clone (raw : Z) w : option (Z * world E) :=
  if raw =? 0 then Some (0, w)
  else
    value ← boxes w !! raw;
    if bv_data value =? 0 then Some (0, w)
    else
      '(copy, w) ← beans_reflect_value_new (bv_type value) (bv_data value) (bv_size value) (bv_retain value) (bv_drop value) w;
      if copy =? 0 then Some (copy, w)
      else cloned ← boxes w !! copy; w ← run_action (bv_retain cloned) (bv_data cloned) w; Some (copy, w).

Definition beans_reflect_value_drop (raw : Z) w : option (world E) :=
  if raw =? 0 then Some w
  else
    value ← boxes w !! raw;
    w ← run_action (bv_drop value) (bv_data value) w;
    value ← boxes w !! raw;
    Some (set_boxes (delete raw (boxes w)) (set_blocks (delete (bv_data value) (blocks w)) w)).

Definition beans_reflect_value_type (raw : Z) w : option str :=
  if raw =? 0 then Some [] else value ← boxes w !! raw; Some (bv_type value).

(** A value of type [actual] where [wanted] is asked for. *)
Definition accepts (wanted actual : str) : option bool :=
  if beans_str_eq wanted actual then Some true else beans_reflect_is_assignable_from R wanted actual.

Definition beans_reflect_value_matches (raw : Z) (wanted : str) w : option bool :=
  if raw =? 0 then Some false
  else
    value ← boxes w !! raw;
    if bv_data value =? 0 then Some false
    else if beans_str_eq (bv_type value) wanted then Some true
    else beans_reflect_is_assignable_from R wanted (bv_type value).

Definition beans_reflect_value_copy_into (raw : Z) (wanted : str) (target size : Z) w : option (bool * world E) :=
  let refuse := if negb (target =? 0) && (0 <? size) then w ← write_block target (zeros size) w; Some (false, w) else Some (false, w) in
  if (raw =? 0) || (target =? 0) || (size <? 0) then refuse
  else
    value ← boxes w !! raw;
    if negb (bv_size value =? size) then refuse
    else
      matches ← beans_reflect_value_matches raw wanted w;
      if negb matches then refuse
      else
        w ← (if size =? 0 then Some w else bytes ← read_block (bv_data value) size w; write_block target bytes w);
        w ← run_action (bv_retain value) target w;
        Some (true, w).

(** ** Errors *)

Definition reflect_fail (code : Z) w : Z * world E := (0, set_error code w).
Definition beans_reflect_error_code w : Z := reflect_error_code w.
Definition beans_reflect_error_message w : str :=
  let code := reflect_error_code w in
  if code =? 1 then lit "missing reflected member"
  else if code =? 2 then lit "reflected member is not public"
  else if code =? 3 then lit "receiver type does not match"
  else if code =? 4 then lit "reflected value type does not match"
  else if code =? 5 then lit "reflected operation is unsupported"
  else if code =? 6 then lit "wrong reflected argument count"
  else [].

(** ** Fields *)

(** The box a handle names, when its type is accepted as [wanted]. *)
Definition box_as (wanted : str) (raw : Z) w : option (option BReflectValue) :=
  if raw =? 0 then Some None
  else value ← boxes w !! raw; ok ← accepts wanted (bv_type value); Some (if (ok : bool) then Some value else None).

Definition beans_reflect_field_get (owner name : str) (receiver_raw : Z) w : option (Z * world E) :=
  let w := set_error 0 w in
  id ← reflect_named_field_id R owner name;
  if id <? 0 then Some (reflect_fail 1 w)
  else
    f ← row (fields R) id;
    if f_flags f &! 1 =? 0 then Some (reflect_fail 2 w)
    else
      receiver ← box_as owner receiver_raw w;
      match receiver with
      | None => Some (reflect_fail 3 w)
      | Some receiver =>
          if f_get f =? 0 then Some (reflect_fail 5 w)
          else '(result, w) ← getter (f_get f) (bv_data receiver) w; Some (if result =? 0 then reflect_fail 5 w else (result, w))
      end.

Definition beans_reflect_field_set (owner name : str) (receiver_raw value_raw : Z) w : option (Z * world E) :=
  let w := set_error 0 w in
  id ← reflect_named_field_id R owner name;
  if id <? 0 then Some (reflect_fail 1 w)
  else
    f ← row (fields R) id;
    if f_flags f &! 1 =? 0 then Some (reflect_fail 2 w)
    else
      receiver ← box_as owner receiver_raw w;
      match receiver with
      | None => Some (reflect_fail 3 w)
      | Some receiver =>
          value ← box_as (f_type f) value_raw w;
          match value with
          | None => Some (reflect_fail 4 w)
          | Some value =>
              if f_set f =? 0 then Some (reflect_fail 5 w)
              else '(result, w) ← setter (f_set f) (bv_data receiver) (bv_data value) w;
                   Some (if result =? 0 then reflect_fail 5 w else (1, w))
          end
      end.

(** ** Calls *)

(** What a callable asks of an argument: its type and how it is passed. *)
Definition signature : Type := list (str * Z).

(** The check of the arguments, in order: a refusal code or their data. *)
Fixpoint check_arguments (handles : option (list Z)) (i : nat) (sig : signature) w : option (Z + list Z) :=
  match sig with
  | [] => Some (inr [])
  | (type_name, passing) :: sig =>
      handle ← (match handles with Some handles => handles !! i | None => Some 0 end);
      if handle =? 0 then Some (inl 4)
      else
        value ← boxes w !! handle;
        if bv_data value =? 0 then Some (inl 4)
        else
          ok ← accepts type_name (bv_type value);
          if negb ok then Some (inl 4)
          else if passing =? 2 then Some (inl 5)
          else
            rest ← check_arguments handles (S i) sig w;
            Some (match rest with inl code => inl code | inr data => inr (bv_data value :: data) end)
  end.

(** The boxes of moved arguments are emptied. *)
Definition empty_box (handle : Z) w : option (world E) :=
  value ← boxes w !! handle;
  Some (set_boxes (<[handle := mkValue (bv_type value) 0 0 (bv_retain value) 0]> (boxes w))
         (set_blocks (delete (bv_data value) (blocks w)) w)).
Fixpoint empty_moved (handles : option (list Z)) (i : nat) (sig : signature) w : option (world E) :=
  match sig with
  | [] => Some w
  | (_, passing) :: sig =>
      w ← (if negb (passing =? 1) then Some w
           else handle ← (match handles with Some handles => handles !! i | None => None end); empty_box handle w);
      empty_moved handles (S i) sig w
  end.

Definition reflect_invoke (call receiver : Z) (handles : option (list Z)) (count : Z) (sig : signature) w : option (Z * world E) :=
  if call =? 0 then Some (reflect_fail 5 w)
  else if count <? 0 then Some (reflect_fail 6 w)
  else
    checked ← check_arguments handles 0 sig w;
    match checked with
    | inl code => Some (reflect_fail code w)
    | inr data =>
        '(result, w) ← thunk call receiver data w;
        if result =? 0 then Some (reflect_fail 5 w) else w ← empty_moved handles 0 sig w; Some (result, w)
    end.

(** [for i < count: types[i] = type(i), passing[i] = mode(i)]. *)
Fixpoint query_signature (count : nat) (i : Z) (type : Z -> option str) (mode : Z -> option Z) : option signature :=
  match count with
  | O => Some []
  | S count => t ← type i; p ← mode i; rest ← query_signature count (i + 1) type mode; Some ((t, p) :: rest)
  end.

Definition reflect_fill_method_arguments (method count : Z) : option (Z * signature) :=
  if method_param_orphans R then Some (-1, [])
  else
    m ← row (methods R) method;
    if negb (l_len (m_params m) =? count) then Some (l_len (m_params m), [])
    else
      sig ← mapM (fun id => p ← row (params R) id; Some (p_type p, p_passing p)) (l_ids (m_params m));
      Some (count, sig).

(** What the function asks for: its arity, and its signature if that is [count]. *)
Definition function_arguments (f : BReflectFunction) (count : Z) : option (Z * signature) :=
  if negb (function_param_orphans F) && (0 <=? count) then
    if l_len (fn_params f) =? count then
      sig ← mapM (fun id => p ← row (fparams F) id; Some (fp_type p, fp_passing p)) (l_ids (fn_params f));
      Some (l_len (fn_params f), sig)
    else Some (l_len (fn_params f), [])
  else if 0 <=? count then
    expected ← beans_reflect_function_parameter_count F (fn_qualified f);
    if expected =? count then
      sig ← query_signature (Z.to_nat count) 0 (beans_reflect_function_parameter_type F (fn_qualified f))
              (beans_reflect_function_parameter_passing F (fn_qualified f));
      Some (expected, sig)
    else Some (expected, [])
  else Some (-1, []).

Definition reflect_function_invoke (id : Z) (handles : option (list Z)) (count : Z) w : option (Z * world E) :=
  f ← row (fns F) id;
  if fn_flags f &! 1 =? 0 then Some (reflect_fail 2 w)
  else if negb (fn_flags f &! 28 =? 0) then Some (reflect_fail 5 w)
  else
    '(expected, sig) ← function_arguments f count;
    if count =? expected then reflect_invoke (fn_call f) 0 handles count sig w else Some (reflect_fail 6 w).

Definition beans_reflect_function_call (qualified : str) (handles : option (list Z)) (count : Z) w : option (Z * world E) :=
  let w := set_error 0 w in
  id ← reflect_find_function F qualified;
  if id <? 0 then Some (reflect_fail 1 w) else reflect_function_invoke id handles count w.

(** The receiver's box and the body to call: [None] refuses the receiver. *)
Definition reflect_dispatch (m : BReflectMethod) (checked_owner : str) (receiver_raw : Z) (static_call : bool) w : option (option (Z * Z)) :=
  if static_call then Some (Some (m_call m, 0))
  else if receiver_raw =? 0 then Some None
  else
    receiver ← boxes w !! receiver_raw;
    if bv_data receiver =? 0 then Some None
    else
      ok ← accepts checked_owner (bv_type receiver);
      if negb ok then Some None
      else
        actual ← reflect_method_id R (bv_type receiver) (m_name m);
        call ← (if 0 <=? actual then
                  a ← row (methods R) actual; Some (if m_flags a &! 2 =? 0 then m_call a else m_call m)
                else Some (m_call m));
        Some (Some (call, bv_data receiver)).

(** The same of a method; orphaned rows are resolved by the queries. *)
Definition method_arguments (id : Z) (m : BReflectMethod) (count : Z) : option (Z * signature) :=
  '(expected, sig) ← (if count <? 0 then Some (-1, []) else reflect_fill_method_arguments id count);
  if (expected <? 0) && (0 <=? count) then
    expected ← beans_reflect_method_parameter_count R (m_owner m) (m_name m);
    if expected =? count then
      sig ← query_signature (Z.to_nat count) 0 (beans_reflect_method_parameter_type R (m_owner m) (m_name m))
              (beans_reflect_method_parameter_passing R (m_owner m) (m_name m));
      Some (expected, sig)
    else Some (expected, [])
  else Some (expected, sig).

Definition reflect_method_invoke (id : Z) (checked_owner : str) (receiver_raw : Z) (handles : option (list Z)) (count : Z)
    (static_call : bool) w : option (Z * world E) :=
  m ← row (methods R) id;
  if reflect_special_method (m_name m) then Some (reflect_fail 1 w)
  else if m_flags m &! 1 =? 0 then Some (reflect_fail 2 w)
  else if negb (m_flags m &! 28 =? 0) then Some (reflect_fail 5 w)
  else if negb (Bool.eqb (negb (m_flags m &! 2 =? 0)) static_call) then Some (reflect_fail 3 w)
  else
    dispatch ← reflect_dispatch m checked_owner receiver_raw static_call w;
    match dispatch with
    | None => Some (reflect_fail 3 w)
    | Some (call, receiver) =>
        '(expected, sig) ← method_arguments id m count;
        if count =? expected then reflect_invoke call receiver handles count sig w else Some (reflect_fail 6 w)
    end.

Definition beans_reflect_method_call (owner name : str) (receiver_raw : Z) (handles : option (list Z)) (count : Z)
    (static_call : bool) w : option (Z * world E) :=
  let w := set_error 0 w in
  id ← reflect_method_id R owner name;
  if (id <? 0) || reflect_special_method name then Some (reflect_fail 1 w)
  else reflect_method_invoke id owner receiver_raw handles count static_call w.

Definition init_parameter (name : str) (i : Z) : option (str * Z) :=
  r ← reflect_initializer_parameter_id R name i;
  if r.1 <? 0 then Some ([], -1) else p ← row (params R) r.1; Some (p_type p, p_passing p).

Definition reflect_initializer_invoke (type : Z) (handles : option (list Z)) (count : Z) w : option (Z * world E) :=
  t ← row (types R) type;
  if ty_init_flags t <? 0 then Some (reflect_fail 1 w)
  else if ty_init_flags t &! 1 =? 0 then Some (reflect_fail 2 w)
  else if negb (ty_init_flags t &! 28 =? 0) then Some (reflect_fail 5 w)
  else
    r ← reflect_initializer_parameter_id R (ty_name t) (-1);
    if negb (count =? r.2) then Some (reflect_fail 6 w)
    else
      sig ← query_signature (Z.to_nat count) 0 (fun i => p ← init_parameter (ty_name t) i; Some p.1)
              (fun i => p ← init_parameter (ty_name t) i; Some p.2);
      reflect_invoke (ty_init t) 0 handles count sig w.

Definition beans_reflect_initializer_call (owner : str) (handles : option (list Z)) (count : Z) w : option (Z * world E) :=
  let w := set_error 0 w in
  type ← reflect_find_type R owner;
  if type <? 0 then Some (reflect_fail 1 w)
  else
    t ← row (types R) type;
    if ty_init_flags t <? 0 then Some (reflect_fail 1 w) else reflect_initializer_invoke type handles count w.

(** ** Handles *)

Definition REFLECT_HANDLE_TAG_SHIFT : Z := 56.
Definition REFLECT_HANDLE_METHOD : Z := 1.
Definition REFLECT_HANDLE_INITIALIZER : Z := 2.
Definition REFLECT_HANDLE_FUNCTION : Z := 3.

Definition reflect_handle_id (handle tag limit : Z) : Z :=
  if (handle <=? 0) || negb (Z.shiftr handle REFLECT_HANDLE_TAG_SHIFT =? tag) then -1
  else
    let id := (handle &! (Z.shiftl 1 REFLECT_HANDLE_TAG_SHIFT - 1)) - 1 in
    if (0 <=? id) && (id <? limit) then id else -1.

Definition beans_reflect_method_handle (owner name : str) : option Z :=
  if reflect_special_method name then Some 0
  else id ← reflect_method_id R owner name; Some (if 0 <=? id then Z.shiftl REFLECT_HANDLE_METHOD REFLECT_HANDLE_TAG_SHIFT + id + 1 else 0).

Definition beans_reflect_method_call_handle (handle receiver_raw : Z) (handles : option (list Z)) (count : Z) (static_call : bool) w : option (Z * world E) :=
  let w := set_error 0 w in
  let id := reflect_handle_id handle REFLECT_HANDLE_METHOD (t_len (methods R)) in
  if id <? 0 then Some (reflect_fail 1 w)
  else m ← row (methods R) id; reflect_method_invoke id (m_owner m) receiver_raw handles count static_call w.

Definition beans_reflect_initializer_handle (owner : str) : option Z :=
  type ← reflect_find_type R owner;
  if type <? 0 then Some 0
  else
    t ← row (types R) type;
    Some (if ty_init_flags t <? 0 then 0 else Z.shiftl REFLECT_HANDLE_INITIALIZER REFLECT_HANDLE_TAG_SHIFT + type + 1).

Definition beans_reflect_initializer_call_handle (handle : Z) (handles : option (list Z)) (count : Z) w : option (Z * world E) :=
  let w := set_error 0 w in
  let type := reflect_handle_id handle REFLECT_HANDLE_INITIALIZER (t_len (types R)) in
  if type <? 0 then Some (reflect_fail 1 w) else reflect_initializer_invoke type handles count w.

Definition beans_reflect_function_handle (qualified : str) : option Z :=
  id ← reflect_find_function F qualified;
  Some (if 0 <=? id then Z.shiftl REFLECT_HANDLE_FUNCTION REFLECT_HANDLE_TAG_SHIFT + id + 1 else 0).

Definition beans_reflect_function_call_handle (handle : Z) (handles : option (list Z)) (count : Z) w : option (Z * world E) :=
  let w := set_error 0 w in
  let id := reflect_handle_id handle REFLECT_HANDLE_FUNCTION (t_len (fns F)) in
  if id <? 0 then Some (reflect_fail 1 w) else reflect_function_invoke id handles count w.

(** ** Variants *)

Definition beans_reflect_variant_make (owner name : str) (handles : option (list Z)) (count : Z) w : option (Z * world E) :=
  let w := set_error 0 w in
  let variant := reflect_variant_id V owner name in
  if variant <? 0 then Some (reflect_fail 1 w)
  else if negb (count =? beans_reflect_variant_parameter_count V owner name) then Some (reflect_fail 6 w)
  else
    sig ← query_signature (Z.to_nat count) 0 (beans_reflect_variant_parameter_type V owner name) (fun _ => Some 1);
    v ← row (vars V) variant;
    reflect_invoke (v_make v) 0 handles count sig w.
End call.
