(* ===== verification/ReflectTheorems.v ===== *)
(** * ReflectTheorems: the reflection registry and its calls *)

From stdpp Require Import gmap.
From S2P Require Import Prelude Str StrProofs Hash Slots Reflect ReflectProofs ReflectQueries ReflectCall.

Open Scope c_scope.

Implicit Types (R : registry).

(** ** Method calls *)

(** The lookup along the chain ends. *)
Lemma method_id_loop_total R name n : reg_ok R -> forall owner, exists id, method_id_loop n R name (type_first R owner) = Some id.
Proof.
  intros Hok. induction n as [|n IH]; intros owner; cbn [method_id_loop]; [by eexists|].
  destruct (Z.ltb_spec (type_first R owner) 0) as [|H0]; [by eexists|]. destruct (type_hit R owner H0) as (t & Ht & _). rewrite Ht.
  cbn [mbind option_bind]. rewrite method_on_first by done. cbn [mbind option_bind]. destruct (0 <=? _); [by eexists|].
  destruct (ty_base t) as [base|]; [|by eexists]. rewrite find_type_first by done. apply IH.
Qed.

Lemma method_id_total R owner name : reg_ok R -> exists id, reflect_method_id R owner name = Some id.
Proof. intros Hok. unfold reflect_method_id. rewrite find_type_first by done. by apply method_id_loop_total. Qed.

(** A method's id is its row, and it is found again under its own owner. *)
Lemma method_id_row R owner name id : reg_ok R -> reflect_method_id R owner name = Some id -> 0 <= id ->
  exists m, row (methods R) id = Some m /\ m_name m = name /\ method_first R (m_owner m) (m_name m) = id.
Proof.
  intros Hok. unfold reflect_method_id. rewrite find_type_first by done. intros Hid H0. by eapply method_id_loop_hit.
Qed.

(** The owner of a method that a lookup finds is registered. *)
Lemma method_id_loop_owner R name n : reg_ok R -> forall owner id m, method_id_loop n R name (type_first R owner) = Some id -> 0 <= id ->
  row (methods R) id = Some m -> 0 <= type_first R (m_owner m).
Proof.
  intros Hok. induction n as [|n IH]; intros owner id m; cbn [method_id_loop]; [intros [= <-]; lia|].
  destruct (Z.ltb_spec (type_first R owner) 0) as [|H0]; [intros [= <-]; lia|]. destruct (type_hit R owner H0) as (t & Ht & _). rewrite Ht.
  cbn [mbind option_bind]. rewrite method_on_first by done. cbn [mbind option_bind]. destruct (Z.leb_spec 0 (method_first R (ty_name t) name)) as [Hm0|].
  - intros [= <-] _ Hm. destruct (first_row_hit _ _ Hm0) as (m' & Hm' & [Hb _]%andb_true_iff).
    change (row (methods R) (method_first R (ty_name t) name) = Some m') in Hm'. assert (m' = m) as -> by congruence.
    rewrite (type_first_ext R _ _ Hb), (type_first_self R owner t Ht). done.
  - destruct (ty_base t) as [base|]; [|intros [= <-]; lia]. rewrite find_type_first by done. apply IH.
Qed.

Lemma method_id_again R owner name id m : reg_ok R -> reflect_method_id R owner name = Some id -> 0 <= id -> row (methods R) id = Some m ->
  reflect_method_id R (m_owner m) (m_name m) = Some id.
Proof.
  intros Hok Hid H0 Hm. destruct (method_id_row R owner name id Hok Hid H0) as (m' & Hm' & Hn & Hfirst). assert (m' = m) as -> by congruence.
  unfold reflect_method_id in *. rewrite find_type_first in Hid |- * by done. cbn [mbind option_bind] in *.
  pose proof (method_id_loop_owner R name _ Hok owner id m Hid H0 Hm) as Ho. cbn [method_id_loop]. rewrite (proj2 (Z.ltb_ge _ _)) by done.
  destruct (type_hit R (m_owner m) Ho) as (t & Ht & Hb). rewrite Ht. cbn [mbind option_bind]. rewrite method_on_first by done. cbn [mbind option_bind].
  rewrite (method_first_ext R _ _ (m_name m) Hb), Hfirst. by rewrite (proj2 (Z.leb_le _ _)).
Qed.

(** *** Signatures *)

Definition keep_rows {A} (p : A -> bool) (l : list A) : list A := List.filter p l.

Lemma rows_of_ids {A B} (t : table A) (p : A -> bool) (g : A -> B) :
  mapM (fun id => x ← row t id; Some (g x)) (ids_where p (t_rows t)) = Some (g <$> keep_rows p (t_rows t)).
Proof.
  unfold ids_where. assert (Hgen : forall l pre, t_rows t = pre ++ l -> mapM (fun id => x ← row t id; Some (g x)) (ids_loop p l (Z.of_nat (length pre))) = Some (g <$> keep_rows p l)).
  { induction l as [|x l IH]; intros pre Hl; [done|]. cbn [ids_loop keep_rows List.filter].
    assert (Hnext : mapM (fun id => x ← row t id; Some (g x)) (ids_loop p l (Z.of_nat (length pre) + 1)) = Some (g <$> keep_rows p l)).
    { replace (Z.of_nat (length pre) + 1) with (Z.of_nat (length (pre ++ [x]))) by (rewrite length_app; cbn; lia). apply IH. by rewrite <-app_assoc. }
    destruct (p x); [|exact Hnext]. cbn [mapM]. rewrite row_nat, Hl, list_lookup_middle by done. cbn [mbind option_bind]. by rewrite Hnext. }
  exact (Hgen _ [] eq_refl).
Qed.

Lemma ids_count {A} (p : A -> bool) (l : list A) i : length (ids_loop p l i) = length (keep_rows p l).
Proof. revert i. induction l as [|x l IH]; intros i; [done|]. cbn. destruct (p x); cbn; [f_equal|]; apply IH. Qed.

Lemma row_of_id {A} (t : table A) (p : A -> bool) (k : nat) id : ids_where p (t_rows t) !! k = Some id ->
  exists x, row t id = Some x /\ keep_rows p (t_rows t) !! k = Some x.
Proof.
  intros Hk. pose proof (rows_of_ids t p (fun x => x)) as Hm. apply mapM_Some in Hm. rewrite list_fmap_id in Hm.
  destruct (Forall2_lookup_l _ _ _ _ _ Hm Hk) as (x & Hx & Hr). exists x. destruct (row t id); [|done]. cbn in Hr. by injection Hr as ->.
Qed.

(** The parameter rows of a method. *)
Definition params_of R (m : BReflectMethod) : list BReflectMethodParameter :=
  keep_rows (fun p => reflect_base_equal (p_owner p) (m_owner m) && beans_str_eq (p_callable p) (m_name m)) (t_rows (params R)).
Definition signature_of R (m : BReflectMethod) : signature := (fun p => (p_type p, p_passing p)) <$> params_of R m.

Lemma method_parameter_is R owner name id m wanted : reg_ok R -> reflect_method_id R owner name = Some id -> 0 <= id -> row (methods R) id = Some m -> is_init name = false ->
  reflect_method_parameter_id R owner name wanted =
  Some (attached (mkIds (ids_where (fun p => reflect_base_equal (p_owner p) (m_owner m) && beans_str_eq (p_callable p) (m_name m)) (t_rows (params R))) 0) wanted).
Proof.
  intros Hok Hid H0 Hm Hi. rewrite method_parameter_scanned by done. unfold reflect_method_parameter_id. rewrite method_id_scanned, Hid. cbn [mbind option_bind].
  rewrite (proj2 (Z.ltb_ge _ _)) by done. change (methods (scanned R)) with (methods R). rewrite Hm. cbn [mbind option_bind].
  change (method_param_orphans (scanned R)) with true. cbn [negb]. by rewrite (scan_attached _ _ _ 0).
Qed.

Lemma length_keep {A} (p : A -> bool) (t : table A) : slen (ids_where p (t_rows t)) = Z.of_nat (length (keep_rows p (t_rows t))).
Proof. unfold slen, ids_where. by rewrite ids_count. Qed.

Lemma query_signature_rows {A} (t : table A) (p : A -> bool) (ty : A -> str) (mode : A -> Z) (get : Z -> option (Z * Z)) :
  (forall i, get i = Some (attached (mkIds (ids_where p (t_rows t)) 0) i)) ->
  query_signature (length (keep_rows p (t_rows t))) 0 (fun i => r ← get i; row_or t r.1 ty []) (fun i => r ← get i; row_or t r.1 mode (-1)) =
  Some ((fun x => (ty x, mode x)) <$> keep_rows p (t_rows t)).
Proof.
  intros Hg. assert (Hgen : forall tail pre, keep_rows p (t_rows t) = pre ++ tail ->
    query_signature (length tail) (Z.of_nat (length pre)) (fun i => r ← get i; row_or t r.1 ty []) (fun i => r ← get i; row_or t r.1 mode (-1)) =
    Some ((fun x => (ty x, mode x)) <$> tail)).
  { induction tail as [|x tail IH]; intros pre Hl; [done|]. cbn [length query_signature]. rewrite Hg. unfold attached, l_len. cbn [l_ids]. rewrite length_keep, Hl, length_app.
    cbn [length]. rewrite (proj2 (Z.leb_le _ _)), (proj2 (Z.ltb_lt _ _)) by lia. cbn [andb mbind option_bind fst]. rewrite Nat2Z.id.
    destruct (lookup_lt_is_Some_2 (ids_where p (t_rows t)) (length pre)) as [id Hid].
    { unfold ids_where. rewrite ids_count, Hl, length_app. cbn. lia. }
    destruct (row_of_id t p _ _ Hid) as (y & Hy & Hyk). rewrite Hl, list_lookup_middle in Hyk by done. injection Hyk as <-.
    rewrite Hid. change (default (-1) (Some id)) with id. unfold row_or. pose proof (row_range _ _ _ Hy). rewrite (proj2 (Z.ltb_ge _ _)) by lia. rewrite Hy. cbn [mbind option_bind].
    specialize (IH (pre ++ [x]) ltac:(by rewrite <-app_assoc)). rewrite length_app in IH. cbn [length] in IH.
    replace (Z.of_nat (length pre) + 1) with (Z.of_nat (length pre + 1)) by lia. unfold row_or in IH. by rewrite IH. }
  exact (Hgen _ [] eq_refl).
Qed.

(** The signature a call is checked against is the method's parameter rows. *)
Lemma method_arguments_spec R owner name id m count : reg_ok R -> reflect_method_id R owner name = Some id -> 0 <= id -> row (methods R) id = Some m -> is_init name = false ->
  exists expected sig, method_arguments R id m count = Some (expected, sig) /\
    (count = expected -> 0 <= count -> count = Z.of_nat (length (params_of R m)) /\ sig = signature_of R m).
Proof.
  intros Hok Hid H0 Hm Hi. unfold method_arguments. destruct (Z.ltb_spec count 0) as [Hc|Hc].
  { cbn [mbind option_bind]. rewrite (proj2 (Z.leb_gt _ _)) by done. exists (-1), []. split; [done|lia]. }
  destruct (method_id_row R owner name id Hok Hid H0) as (m' & Hm' & Hn & Hfirst). assert (m' = m) as -> by congruence. clear Hm'.
  unfold reflect_fill_method_arguments. destruct (method_param_orphans R) eqn:Ho.
  - cbn [mbind option_bind]. change (-1 <? 0) with true. rewrite (proj2 (Z.leb_le _ _)) by done. cbn [andb].
    pose proof (fun wanted => method_parameter_is R (m_owner m) (m_name m) id m wanted Hok (method_id_again R owner name id m Hok Hid H0 Hm) H0 Hm ltac:(by rewrite Hn)) as Hq.
    unfold beans_reflect_method_parameter_count. rewrite Hq. unfold attached at 1. change (0 <=? -1) with false. cbn [andb mbind option_bind snd]. unfold l_len. cbn [l_ids]. rewrite length_keep.
    fold (params_of R m). destruct (Z.eqb_spec (Z.of_nat (length (params_of R m))) count) as [He|Hne]; [|eexists _, []; split; [reflexivity|by intros ->]].
    replace (Z.to_nat count) with (length (params_of R m)) by lia. unfold params_of, beans_reflect_method_parameter_type, beans_reflect_method_parameter_passing.
    rewrite (query_signature_rows (params R) _ p_type p_passing (fun i => reflect_method_parameter_id R (m_owner m) (m_name m) i) Hq).
    cbn [mbind option_bind]. eexists _, _. split; [reflexivity|]. intros _ _. unfold params_of in He. by rewrite He.
  - rewrite Hm. cbn [mbind option_bind].
    pose proof (filed_method_scan R name m id (ro_params _ Hok Ho) Hm Hfirst Hn Hi) as Hids. unfold l_len. rewrite Hids, length_keep. fold (params_of R m).
    destruct (Z.eqb_spec (Z.of_nat (length (params_of R m))) count) as [He|Hne]; cbn [negb].
    + rewrite rows_of_ids. cbn [mbind option_bind]. rewrite (proj2 (Z.ltb_ge _ _)) by done. cbn [andb]. eexists _, _. split; [reflexivity|]. by rewrite He.
    + cbn [mbind option_bind]. rewrite (proj2 (Z.ltb_ge _ _)) by lia. cbn [andb]. eexists _, []. split; [reflexivity|]. by intros ->.
Qed.

(** *** Arguments *)

Definition accepted R (wanted actual : str) : Prop := wanted = actual \/ derives R wanted actual.

Lemma accepts_spec R wanted actual : reg_ok R -> closed R -> based R -> exists b, accepts R wanted actual = Some b /\ (b = true <-> accepted R wanted actual).
Proof.
  intros Hok Hc Hb. unfold accepts, accepted. destruct (beans_str_eq wanted actual) eqn:He.
  - apply str_eq_true in He as ->. exists true. split; [done|]. split; [by left|done].
  - destruct (assignable_derives R wanted actual Hok Hc Hb) as (b & -> & Hd). exists b. split; [done|]. rewrite Hd. split; [by right|].
    intros [->|]; [|done]. rewrite str_eq_spec, bool_decide_eq_false in He. done.
Qed.

Section calls.
Context {E : Type}.
Implicit Types (w : world E) (handles : option (list Z)) (sig : signature).

(** The handles name live boxes of accepted types, none is [inout]; [data]
    are their bytes. *)
Inductive accepted_args R w : list Z -> signature -> list Z -> Prop :=
  | accepted_none hs : accepted_args R w hs [] []
  | accepted_next h hs type_name passing sig b data : boxes w !! h = Some b -> bv_data b <> 0 -> accepted R type_name (bv_type b) -> passing <> 2 ->
      accepted_args R w hs sig data -> accepted_args R w (h :: hs) ((type_name, passing) :: sig) (bv_data b :: data).

(** An array of [n] handles, each of a box or null. *)
Definition handles_ok handles (n : nat) w : Prop :=
  match handles with
  | Some hs => (n <= length hs)%nat /\ forall h, h ∈ hs -> h = 0 \/ is_Some (boxes w !! h)
  | None => True
  end.

Lemma check_arguments_spec R handles w : reg_ok R -> closed R -> based R -> forall sig i, handles_ok handles (i + length sig) w ->
  (exists code, 1 <= code <= 6 /\ check_arguments R handles i sig w = Some (inl code)) \/
  (exists data, check_arguments R handles i sig w = Some (inr data) /\ accepted_args R w (drop i (default [] handles)) sig data).
Proof.
  intros Hok Hc Hb. induction sig as [|[ty pass] sig IH]; intros i Hh; cbn [check_arguments]; [right; exists []; split; [done|constructor]|].
  destruct handles as [hs|]; cbn [mbind option_bind]; [|left; exists 4; by split; [lia|]]. destruct Hh as [Hlen Hbox]. cbn in Hlen.
  destruct (lookup_lt_is_Some_2 hs i) as [h Hi]; [lia|]. rewrite Hi. cbn [mbind option_bind]. destruct (Z.eqb_spec h 0) as [|Hh0]; [left; exists 4; by split; [lia|]|].
  destruct (Hbox h (list_elem_of_lookup_2 _ _ _ Hi)) as [|[b Hbx]]; [done|]. rewrite Hbx. cbn [mbind option_bind].
  destruct (Z.eqb_spec (bv_data b) 0) as [|Hd]; [left; exists 4; by split; [lia|]|]. destruct (accepts_spec R ty (bv_type b) Hok Hc Hb) as (ok & -> & Hacc). cbn [mbind option_bind].
  destruct ok; cbn [negb]; [|left; exists 4; by split; [lia|]]. destruct (Z.eqb_spec pass 2) as [|Hp]; [left; exists 5; by split; [lia|]|].
  destruct (IH (S i)) as [(code & Hcode & ->)|(data & -> & Hargs)]; [split; [cbn in *; lia|done]| |]; cbn [mbind option_bind]; [left; by exists code|right].
  eexists. split; [done|]. cbn [default from_option id] in *. rewrite (drop_S _ _ _ Hi). constructor; [done|done|by apply Hacc|done|exact Hargs].
Qed.

(** The boxes of moved arguments end empty. *)
Definition emptied w (h : Z) : Prop := exists b, boxes w !! h = Some b /\ bv_data b = 0 /\ bv_drop b = 0.

Lemma empty_box_emptied handle w w' : empty_box handle w = Some w' -> emptied w' handle /\ forall h, emptied w h -> emptied w' h.
Proof.
  unfold empty_box. destruct (boxes w !! handle) as [b|] eqn:Hb; [|done]. cbn [mbind option_bind]. intros [= <-]. split.
  - eexists. cbn. rewrite lookup_insert_eq. by split.
  - intros h (b' & Hb' & ? & ?). destruct (decide (h = handle)) as [->|Hne]; [eexists; cbn; rewrite lookup_insert_eq; by split|].
    exists b'. cbn. by rewrite lookup_insert_ne.
Qed.

Lemma empty_moved_spec handles sig : forall i w w', empty_moved handles i sig w = Some w' ->
  (forall h, emptied w h -> emptied w' h) /\
  forall k type_name h hs, sig !! k = Some (type_name, 1) -> handles = Some hs -> hs !! (i + k)%nat = Some h -> emptied w' h.
Proof.
  induction sig as [|[ty pass] sig IH]; intros i w w' He; cbn [empty_moved] in He; [injection He as ->; by split|].
  destruct (Z.eqb_spec pass 1) as [->|Hp]; cbn [negb] in He.
  - destruct handles as [hs|]; [|done]. destruct (hs !! i) as [h0|] eqn:Hi; [|done]. cbn [mbind option_bind] in He.
    destruct (empty_box h0 w) as [w1|] eqn:Hb; [|done]. cbn [mbind option_bind] in He. destruct (empty_box_emptied _ _ _ Hb) as [Hself Hkeep]. destruct (IH _ _ _ He) as [Hk Hm].
    split; [intros h Hh; apply Hk; by apply Hkeep|]. intros [|k] t h hs' Hs [= <-] Hhs; [rewrite Nat.add_0_r in Hhs; apply Hk; congruence|].
    apply (Hm k t h hs); [done|done|]. by rewrite Nat.add_succ_comm.
  - cbn [mbind option_bind] in He. destruct (IH _ _ _ He) as [Hk Hm]. split; [done|]. intros [|k] t h hs' Hs Hhs Hh; [by injection Hs|].
    apply (Hm k t h hs'); [done|done|]. by rewrite Nat.add_succ_comm.
Qed.
End calls.

Section calls.
Context {E : Type} (thunk : Z -> Z -> list Z -> world E -> option (Z * world E)).
Implicit Types (w : world E).

(** The body that runs and its receiver: a static method's own body; otherwise
    the body the receiver's runtime type has for the name, if it takes one. *)
Definition body_of R (m : BReflectMethod) (actual : Z) : Z :=
  match row (methods R) actual with
  | Some a => if m_flags a &! 2 =? 0 then m_call a else m_call m
  | None => m_call m
  end.
Inductive bound R w (m : BReflectMethod) (owner : str) (raw : Z) : bool -> Z -> Z -> Prop :=
  | bound_static : m_flags m &! 2 <> 0 -> bound R w m owner raw true (m_call m) 0
  | bound_virtual b actual : m_flags m &! 2 = 0 -> boxes w !! raw = Some b -> bv_data b <> 0 -> accepted R owner (bv_type b) ->
      reflect_method_id R (bv_type b) (m_name m) = Some actual -> bound R w m owner raw false (body_of R m actual) (bv_data b).

Lemma dispatch_spec R m owner raw static w : reg_ok R -> closed R -> based R -> Bool.eqb (negb (m_flags m &! 2 =? 0)) static = true ->
  static = true \/ raw = 0 \/ is_Some (boxes w !! raw) ->
  reflect_dispatch R m owner raw static w = Some None \/
  exists body receiver, reflect_dispatch R m owner raw static w = Some (Some (body, receiver)) /\ bound R w m owner raw static body receiver.
Proof.
  intros Hok Hc Hb Hs Hraw. apply eqb_prop in Hs as <-. unfold reflect_dispatch. destruct (Z.eqb_spec (m_flags m &! 2) 0) as [Hf|Hf]; cbn [negb].
  - destruct (Z.eqb_spec raw 0) as [|Hr]; [by left|]. destruct Hraw as [|[|[b Hbx]]]; [done|done|]. rewrite Hbx. cbn [mbind option_bind].
    destruct (Z.eqb_spec (bv_data b) 0) as [|Hd]; [by left|]. destruct (accepts_spec R owner (bv_type b) Hok Hc Hb) as (ok & -> & Hacc). cbn [mbind option_bind].
    destruct ok; cbn [negb]; [right|by left]. destruct (method_id_total R (bv_type b) (m_name m) Hok) as [actual Ha]. rewrite Ha. cbn [mbind option_bind].
    exists (body_of R m actual), (bv_data b). split; [|by apply (bound_virtual _ _ _ _ _ b); [..|apply Hacc|]]. unfold body_of.
    destruct (Z.leb_spec 0 actual) as [H0|H0]; [|unfold row; by rewrite (proj2 (Z.ltb_lt _ _))].
    destruct (method_id_row R _ _ _ Hok Ha H0) as (a & -> & _). done.
  - right. eexists _, _. split; [reflexivity|]. by constructor.
Qed.

(** A method that may be called from outside. *)
Definition callable (m : BReflectMethod) : Prop := reflect_special_method (m_name m) = false /\ m_flags m &! 1 <> 0 /\ m_flags m &! 28 = 0.

(** What a checked call does with the answer of the body. *)
Definition answer (handles : option (list Z)) (sig : signature) (r : option (Z * world E)) : option (Z * world E) :=
  '(result, w) ← r;
  if result =? 0 then Some (reflect_fail 5 w) else w ← empty_moved handles 0 sig w; Some (result, w).

Lemma answer_moved handles sig r result w' : answer handles sig r = Some (result, w') -> result <> 0 ->
  forall k type_name h hs, sig !! k = Some (type_name, 1) -> handles = Some hs -> hs !! k = Some h -> emptied w' h.
Proof.
  unfold answer. destruct r as [[res w1]|]; [|done]. cbn [mbind option_bind]. destruct (Z.eqb_spec res 0); [by intros [= <- _]|].
  destruct (empty_moved handles 0 sig w1) as [w2|] eqn:He; [|done]. cbn [mbind option_bind]. intros [= _ <-] _. exact (proj2 (empty_moved_spec _ _ _ _ _ He)).
Qed.

Lemma special_init name : reflect_special_method name = false -> is_init name = false.
Proof. unfold reflect_special_method, is_init. by intros [? _]%orb_false_iff. Qed.

Lemma reflect_invoke_spec R body receiver handles count sig w : reg_ok R -> closed R -> based R -> handles_ok handles (length sig) w ->
  (exists code, 1 <= code <= 6 /\ reflect_invoke thunk R body receiver handles count sig w = Some (reflect_fail code w)) \/
  (exists data, body <> 0 /\ 0 <= count /\ accepted_args R w (default [] handles) sig data /\
    reflect_invoke thunk R body receiver handles count sig w = answer handles sig (thunk body receiver data w)).
Proof.
  intros Hok Hc Hb Hh. unfold reflect_invoke. destruct (Z.eqb_spec body 0) as [|Hbody]; [left; exists 5; by split; [lia|]|].
  destruct (Z.ltb_spec count 0) as [|Hn]; [left; exists 6; by split; [lia|]|].
  destruct (check_arguments_spec R handles w Hok Hc Hb sig 0 Hh) as [(code & Hcode & ->)|(data & -> & Hargs)]; cbn [mbind option_bind]; [left; by exists code|].
  right. exists data. by rewrite drop_0 in Hargs.
Qed.

(** C17: a reflected method call either refuses, changing nothing but the error
    code, or runs exactly one body, and then only if the name resolves on the
    owner's chain to a public, callable method, the static flag agrees, the
    receiver is a live box the owner accepts (the body is the one its runtime
    type has), the argument count is the arity, and every argument is a live
    box of a type its parameter accepts, none of them [inout].  After a
    successful answer the boxes of moved arguments own nothing. *)
Theorem reflect_call_checked es R owner name raw handles count static w :
  enroll_all es empty_registry = Some R -> closed R -> based R ->
  handles_ok handles (Z.to_nat count) w -> static = true \/ raw = 0 \/ is_Some (boxes w !! raw) ->
  let call := beans_reflect_method_call thunk R owner name raw handles count static w in
  (exists code, 1 <= code <= 6 /\ call = Some (reflect_fail code (set_error 0 w))) \/
  (exists id m body receiver data, reflect_method_id R owner name = Some id /\ row (methods R) id = Some m /\ m_name m = name /\ callable m /\
    bound R (set_error 0 w) m owner raw static body receiver /\ body <> 0 /\ count = Z.of_nat (length (params_of R m)) /\
    accepted_args R (set_error 0 w) (default [] handles) (signature_of R m) data /\
    call = answer handles (signature_of R m) (thunk body receiver data (set_error 0 w)) /\
    forall result w', call = Some (result, w') -> result <> 0 ->
      forall k type_name h hs, signature_of R m !! k = Some (type_name, 1) -> handles = Some hs -> hs !! k = Some h -> emptied w' h).
Proof.
  intros Hes Hc Hb Hh Hraw call. destruct (enroll_all_ok es empty_registry empty_ok) as (R' & HR' & Hok). rewrite Hes in HR'. injection HR' as <-.
  subst call. unfold beans_reflect_method_call. cbv zeta. destruct (method_id_total R owner name Hok) as [id Hid]. rewrite Hid. cbn [mbind option_bind].
  destruct (Z.ltb_spec id 0) as [|H0]; cbn [orb]; [left; exists 1; by split; [lia|]|].
  destruct (method_id_row R owner name id Hok Hid H0) as (m & Hm & Hn & _). subst name.
  destruct (reflect_special_method (m_name m)) eqn:Hsp; [left; exists 1; by split; [lia|]|].
  unfold reflect_method_invoke. rewrite Hm. cbn [mbind option_bind]. rewrite Hsp.
  destruct (Z.eqb_spec (m_flags m &! 1) 0) as [|Hf1]; [left; exists 2; by split; [lia|]|].
  destruct (Z.eqb_spec (m_flags m &! 28) 0) as [Hf28|]; cbn [negb]; [|left; exists 5; by split; [lia|]].
  destruct (Bool.eqb (negb (m_flags m &! 2 =? 0)) static) eqn:Hst; cbn [negb]; [|left; exists 3; by split; [lia|]].
  destruct (dispatch_spec R m owner raw static (set_error 0 w) Hok Hc Hb Hst Hraw) as [->|(body & receiver & -> & Hbound)]; cbn [mbind option_bind]; [left; exists 3; by split; [lia|]|].
  destruct (method_arguments_spec R owner (m_name m) id m count Hok Hid H0 Hm (special_init _ Hsp)) as (expected & sig & -> & Hsig). cbn [mbind option_bind].
  destruct (Z.eqb_spec count expected) as [He|]; [|left; exists 6; by split; [lia|]].
  destruct (Z.ltb_spec count 0) as [Hneg|Hpos].
  { left. unfold reflect_invoke. destruct (body =? 0); [exists 5; by split; [lia|]|]. rewrite (proj2 (Z.ltb_lt _ _) Hneg). exists 6; by split; [lia|]. }
  destruct (Hsig He Hpos) as [Hcount ->].
  assert (Hlen : length (signature_of R m) = Z.to_nat count) by (unfold signature_of; rewrite length_fmap; lia).
  destruct (reflect_invoke_spec R body receiver handles count (signature_of R m) (set_error 0 w) Hok Hc Hb) as [(code & Hcode & Hr)|(data & Hbody & _ & Hargs & Hr)]; [by rewrite Hlen| |].
  - left. by exists code.
  - right. exists id, m, body, receiver, data. rewrite Hr. split_and!; try done. intros result w'. apply answer_moved.
Qed.
End calls.

(** ** Type arguments

    [ty]: the types whose names the compiler writes without an arrow, as
    [render_hir_type] of [src/hir.b] spells them. *)

Inductive ty : Type :=
  | TName (name : str) (args : list ty)
  | TArray (element : ty) (size : str).

Fixpoint join (l : list str) : str :=
  match l with [] => [] | [x] => x | x :: l => x ++ ch_comma :: ch_space :: join l end.

Fixpoint render (t : ty) : str :=
  match t with
  | TName name [] => name
  | TName name args => name ++ [ch_lt] ++ join (render <$> args) ++ [ch_gt]
  | TArray element size => lit "[" ++ render element ++ lit "; " ++ size ++ lit "]"
  end.

Definition plain (c : Z) : Prop := c <> ch_lt /\ c <> ch_gt /\ c <> ch_comma.

(** Neither end is a space. *)
Definition tight (s : str) : Prop := exists a b m m', s = a :: m /\ s = m' ++ [b] /\ a <> ch_space /\ b <> ch_space.

(** Symbols are not empty and have no punctuation of a type's. *)
Fixpoint well_named (t : ty) : Prop :=
  match t with
  | TName name args => Forall plain name /\ tight name /\ foldr (fun t P => well_named t /\ P) True args
  | TArray element size => well_named element /\ Forall plain size
  end.

Lemma ty_ind' (P : ty -> Prop) : (forall name args, Forall P args -> P (TName name args)) -> (forall e n, P e -> P (TArray e n)) -> forall t, P t.
Proof.
  intros Hn Ha. fix IH 1. intros [name args|e n]; [apply Hn|by apply Ha]. induction args as [|a args IHargs]; constructor; [apply IH|done].
Qed.

(** Read from depth [k] on, [s] leaves a scan where it was. *)
Definition neutral (k : Z) (s : str) : Prop :=
  (forall d c rest, k <= d -> count_loop (s ++ rest) d c = count_loop rest d c) /\
  forall d piece cur wanted rest, k <= d -> rest <> [] -> argument_loop (s ++ rest) piece d cur wanted = argument_loop rest (rev s ++ piece) d cur wanted.

Lemma neutral_mono k k' s : k <= k' -> neutral k s -> neutral k' s.
Proof. intros Hk [Hc Ha]. split; intros; [apply Hc; lia|apply Ha; [lia|done]]. Qed.

Lemma neutral_app k a b : neutral k a -> neutral k b -> neutral k (a ++ b).
Proof.
  intros [Hca Haa] [Hcb Hab]. split.
  - intros d c rest Hd. rewrite <-app_assoc, Hca by done. by apply Hcb.
  - intros d piece cur wanted rest Hd Hr. rewrite <-app_assoc, Haa; [|done|by destruct b]. rewrite Hab by done. by rewrite rev_app_distr, <-app_assoc.
Qed.

Lemma argument_loop_cons c rest piece d cur wanted : rest <> [] -> argument_loop (c :: rest) piece d cur wanted =
  if c =? ch_lt then argument_loop rest (c :: piece) (d + 1) cur wanted
  else if c =? ch_gt then argument_loop rest (c :: piece) (d - 1) cur wanted
  else if (c =? ch_comma) && (d =? 0) then if cur =? wanted then trim (rev piece) else argument_loop rest [] d (cur + 1) wanted
  else argument_loop rest (c :: piece) d cur wanted.
Proof. by destruct rest. Qed.

(** A byte that is not punctuation, or a comma inside brackets. *)
Lemma neutral_byte k c : c <> ch_lt -> c <> ch_gt -> (c = ch_comma -> 1 <= k) -> neutral k [c].
Proof.
  intros Hl Hg Hc. assert (Hno : forall d, k <= d -> (c =? ch_comma) && (d =? 0) = false).
  { intros d Hd. destruct (Z.eqb_spec c ch_comma) as [He|]; [|done]. apply Z.eqb_neq. specialize (Hc He). lia. }
  split.
  - intros d n rest Hd. cbn [app count_loop]. rewrite (proj2 (Z.eqb_neq _ _) Hl), (proj2 (Z.eqb_neq _ _) Hg). by rewrite Hno.
  - intros d piece cur wanted rest Hd Hr. cbn [app]. rewrite argument_loop_cons by done. rewrite (proj2 (Z.eqb_neq _ _) Hl), (proj2 (Z.eqb_neq _ _) Hg). by rewrite Hno.
Qed.

Lemma neutral_plain s : Forall plain s -> neutral 0 s.
Proof.
  induction 1 as [|c s (Hl & Hg & Hc) _ IH]; [done|]. change (c :: s) with ([c] ++ s). apply neutral_app; [|done]. by apply neutral_byte.
Qed.

Lemma neutral_brackets s : neutral 1 s -> neutral 0 ([ch_lt] ++ s ++ [ch_gt]).
Proof.
  intros [Hc Ha]. split.
  - intros d n rest Hd. rewrite <-!app_assoc. cbn [app count_loop]. change (ch_lt =? ch_lt) with true. cbn iota. rewrite Hc by lia. cbn [app count_loop].
    change (ch_gt =? ch_lt) with false. change (ch_gt =? ch_gt) with true. cbn iota. f_equal. lia.
  - intros d piece cur wanted rest Hd Hr. rewrite <-!app_assoc. cbn [app]. rewrite argument_loop_cons by (by destruct s). change (ch_lt =? ch_lt) with true. cbn iota.
    rewrite Ha by (lia || done). rewrite argument_loop_cons by done. change (ch_gt =? ch_lt) with false. change (ch_gt =? ch_gt) with true. cbn iota.
    replace (d + 1 - 1) with d by lia. f_equal. cbn [rev]. rewrite rev_app_distr. cbn. by rewrite <-app_assoc.
Qed.

Lemma neutral_join l : Forall (neutral 0) l -> neutral 1 (join l).
Proof.
  induction 1 as [|x l Hx Hl IH]; [done|]. pose proof (neutral_mono 0 1 x ltac:(lia) Hx) as Hx1. destruct l as [|y l]; [done|].
  change (join (x :: y :: l)) with (x ++ [ch_comma] ++ [ch_space] ++ join (y :: l)). do 3 (apply neutral_app; [done || by apply neutral_byte|]). done.
Qed.

Lemma well_named_all args : foldr (fun t P => well_named t /\ P) True args <-> Forall well_named args.
Proof. induction args as [|t args IH]; cbn; [split; constructor|]. by rewrite IH, Forall_cons. Qed.

Lemma render_neutral t : well_named t -> neutral 0 (render t).
Proof.
  induction t as [name args IH|e n IH] using ty_ind'; intros Hw.
  - destruct Hw as (Hp & _ & Hargs%well_named_all). pose proof (neutral_plain name Hp) as Hn. destruct args as [|a args]; [done|]. cbn [render].
    apply neutral_app; [done|]. apply neutral_brackets, neutral_join. apply Forall_fmap, Forall_forall. intros t Ht. rewrite Forall_forall in IH, Hargs. by apply IH; [|apply Hargs].
  - destruct Hw as [He Hs]. cbn [render]. apply neutral_app; [by apply neutral_plain; repeat constructor|]. apply neutral_app; [by apply IH|].
    apply neutral_app; [by apply neutral_plain; repeat constructor|]. apply neutral_app; [by apply neutral_plain|]. by apply neutral_plain; repeat constructor.
Qed.

Lemma tight_wrap a b s : a <> ch_space -> b <> ch_space -> tight (a :: s ++ [b]).
Proof. intros Ha Hb. by exists a, b, (s ++ [b]), (a :: s). Qed.

Lemma render_tight t : well_named t -> tight (render t).
Proof.
  destruct t as [name args|e n]; [|intros _; cbn [render]; change (lit "[") with [91]; change (lit "]") with [93]; rewrite !app_assoc; by apply tight_wrap].
  intros (_ & (a & b & m & m' & Hm & Hm' & Ha & Hb) & _). destruct args as [|t args]; [by exists a, b, m, m'|]. cbn [render]. rewrite Hm, !app_assoc. by apply tight_wrap.
Qed.

Lemma skip_tight s : tight s -> skip_spaces s = s /\ skip_spaces (rev s) = rev s.
Proof.
  intros (a & b & m & m' & -> & Hm' & Ha & Hb). split; [|rewrite Hm', rev_app_distr]; cbn; by rewrite (proj2 (Z.eqb_neq _ _)).
Qed.

Lemma trim_tight s : tight s -> trim s = s /\ trim (ch_space :: s) = s.
Proof.
  intros Ht. destruct (skip_tight s Ht) as [Hs Hr]. unfold trim. cbn [skip_spaces]. change (ch_space =? ch_space) with true. cbn iota.
  by rewrite Hs, Hr, rev_involutive.
Qed.

(** *** The pieces between the commas *)

Lemma count_join l : l <> [] -> Forall (neutral 0) l -> forall c, count_loop (join l) 0 c = c + Z.of_nat (length l) - 1.
Proof.
  intros Hne Hl. destruct l as [|x l]; [done|]. clear Hne. revert x Hl. induction l as [|y l IH]; intros x Hl c; inversion Hl as [|? ? [Hx _] Hl']; subst.
  - cbn [join length]. rewrite <-(app_nil_r x), Hx by lia. cbn. lia.
  - change (join (x :: y :: l)) with (x ++ ch_comma :: ch_space :: join (y :: l)). rewrite Hx by lia.
    change (count_loop (ch_comma :: ch_space :: join (y :: l)) 0 c) with (count_loop (join (y :: l)) 0 (c + 1)). rewrite IH by done. cbn [length]. lia.
Qed.

Lemma argument_join l : Forall (fun s => neutral 0 s /\ tight s) l -> forall cur wanted piece, piece = [] \/ piece = [ch_space] -> cur <= wanted -> l <> [] ->
  argument_loop (join l ++ [ch_gt]) piece 0 cur wanted = default [] (l !! Z.to_nat (wanted - cur)).
Proof.
  intros Hl. induction Hl as [|x l [[_ Hx] Ht] Hl IH]; intros cur wanted piece Hp Hw Hne; [done|].
  assert (Htrim : trim (rev (rev x ++ piece)) = x) by (destruct (trim_tight x Ht); destruct Hp as [-> | ->]; rewrite rev_app_distr, rev_involutive; done).
  destruct l as [|y l].
  - cbn [join]. rewrite Hx by (done || lia). cbn [argument_loop]. destruct (Z.eqb_spec cur wanted) as [->|Hne']; [by rewrite Htrim, Z.sub_diag|].
    by rewrite lookup_ge_None_2 by (cbn; lia).
  - change (join (x :: y :: l)) with (x ++ ch_comma :: ch_space :: join (y :: l)). rewrite <-app_assoc, Hx by (done || lia). cbn [app].
    rewrite argument_loop_cons by done. change (ch_comma =? ch_lt) with false. change (ch_comma =? ch_gt) with false. change ((ch_comma =? ch_comma) && (0 =? 0)) with true. cbn iota.
    destruct (Z.eqb_spec cur wanted) as [->|Hne']; [by rewrite Htrim, Z.sub_diag|]. rewrite argument_loop_cons by (by destruct (join (y :: l))).
    change (ch_space =? ch_lt) with false. change (ch_space =? ch_gt) with false. change (ch_space =? ch_comma) with false. cbn [andb].
    rewrite IH by (done || (by right) || lia). replace (Z.to_nat (wanted - cur)) with (S (Z.to_nat (wanted - (cur + 1)))) by lia. done.
Qed.

Lemma base_loop_plain s rest : Forall plain s -> base_loop (s ++ ch_lt :: rest) = length s.
Proof. induction 1 as [|c s (Hc & _) _ IH]; [done|]. cbn. rewrite (proj2 (Z.eqb_neq _ _) Hc). by rewrite IH. Qed.

Lemma base_loop_all s : Forall plain s -> base_loop s = length s.
Proof. induction 1 as [|c s (Hc & _) _ IH]; [done|]. cbn. rewrite (proj2 (Z.eqb_neq _ _) Hc). by rewrite IH. Qed.

(** C21: the argument list read back from a type's name is the list the name
    was written with: for a type without arrows, [type_argument_count] counts
    its arguments and [type_argument_at] gives each one's name, and the empty
    string past the last, whatever the arguments nest. *)
Theorem reflect_type_arguments_roundtrip name args wanted : well_named (TName name args) -> 0 <= wanted ->
  beans_reflect_type_argument_count (render (TName name args)) = Z.of_nat (length args) /\
  beans_reflect_type_argument_at (render (TName name args)) wanted = default [] ((render <$> args) !! Z.to_nat wanted).
Proof.
  intros (Hp & _ & Hargs%well_named_all) Hw. assert (Hl : Forall (fun s => neutral 0 s /\ tight s) (render <$> args)).
  { apply Forall_fmap, (Forall_impl _ _ _ Hargs). intros t Ht. split; [by apply render_neutral|by apply render_tight]. }
  unfold beans_reflect_type_argument_count, beans_reflect_type_argument_at, args_start, reflect_base_length. destruct args as [|a args].
  { cbn [render]. rewrite base_loop_all by done. unfold slen. rewrite Z.ltb_irrefl. done. }
  set (l := render <$> a :: args) in *. assert (Hne : l <> []) by done. cbn [render]. change (render <$> a :: args) with l.
  set (body := join l ++ [ch_gt]). change ([ch_lt] ++ body) with (ch_lt :: body). rewrite base_loop_plain by done. unfold closes.
  assert (Hlen : slen (name ++ ch_lt :: body) = slen name + 1 + slen body) by (unfold slen; rewrite length_app; cbn; lia).
  assert (Hbody : slen body = slen (join l) + 1) by (unfold body, slen; rewrite length_app; cbn; lia). pose proof (slen_nonneg name). pose proof (slen_nonneg (join l)).
  assert (Hlast : c_at (name ++ ch_lt :: body) (length (name ++ ch_lt :: body) - 1) = ch_gt).
  { unfold c_at, body. change (ch_lt :: join l ++ [ch_gt]) with ([ch_lt] ++ join l ++ [ch_gt]). rewrite !app_assoc, length_app. cbn [length].
    replace (_ + 1 - 1)%nat with (length ((name ++ [ch_lt]) ++ join l)) by lia. by rewrite list_lookup_middle. }
  rewrite Hlast. change (Z.of_nat (length name)) with (slen name). rewrite !(proj2 (Z.ltb_lt (slen name) _)) by lia. rewrite (proj2 (Z.ltb_ge (slen name + 1) 0)) by lia.
  rewrite (proj2 (Z.ltb_ge wanted 0)) by done. rewrite (proj2 (Z.eqb_neq (slen (name ++ ch_lt :: body)) 0)) by lia. change (ch_gt =? ch_gt) with true. cbn [negb andb orb].
  assert (Hdrop : drop (Z.to_nat (slen name + 1)) (name ++ ch_lt :: body) = body).
  { change (ch_lt :: body) with ([ch_lt] ++ body). rewrite app_assoc, drop_app_length' by (rewrite length_app; unfold slen; cbn; lia). done. }
  split.
  - assert (0 < slen (join l)) as Hpos.
    { unfold l. cbn [fmap list_fmap join]. inversion Hl as [|? ? [_ (x & _ & m & _ & Hm & _)] _]; subst. unfold slen. destruct (_ <$> args); [|rewrite length_app]; rewrite Hm; cbn; lia. }
    rewrite (proj2 (Z.eqb_neq _ _)) by lia. unfold sub_str. rewrite Hdrop, Hlen, Hbody.
    unfold body. rewrite take_app_length' by (unfold slen; lia). rewrite count_join; [unfold l; rewrite length_fmap; lia|done|]. apply (Forall_impl _ _ _ Hl). by intros s [? _].
  - rewrite Hdrop. unfold body. rewrite argument_join by (done || (by left)). by rewrite Z.sub_0_r.
Qed.

(** The arrow of a function type closes a bracket that none opened: its name
    as an argument splits at its own commas, or swallows the next argument. *)
Example fn_argument_counts : beans_reflect_type_argument_count (lit "List<fn(int, int) -> bool>") = 2 /\
  beans_reflect_type_argument_count (lit "Map<fn(int) -> bool, string>") = 1.
Proof. split; vm_compute; reflexivity. Qed.

(** ** The registry *)

Section registry.
Implicit Types (F : functions).

(** C20: whatever the program registers, in whatever order, every registration
    succeeds, every name lookup through an index ends, and it yields the row
    the linear scan of the table finds first. *)
Theorem reflect_lookup_linear es fes : exists R F, enroll_all es empty_registry = Some R /\ fn_enroll_all fes no_functions = Some F /\
  forall owner name,
    reflect_find_type R name = Some (first_row (fun t => reflect_base_equal (ty_name t) name) (types R)) /\
    reflect_type_id_exact R name = Some (first_row (fun t => beans_str_eq (ty_name t) name) (types R)) /\
    reflect_method_id_on R owner name = Some (first_row (fun m => reflect_base_equal (m_owner m) owner && beans_str_eq (m_name m) name) (methods R)) /\
    reflect_find_function F name = Some (first_row (fun f => beans_str_eq (fn_qualified f) name) (fns F)).
Proof.
  destruct (enroll_all_ok es empty_registry empty_ok) as (R & HR & Hok). destruct (fn_enroll_all_ok fes no_functions no_functions_ok) as (F & HF & HFok).
  exists R, F. split; [done|]. split; [done|]. intros owner name.
  split_and!; [by apply find_type_first|by apply type_exact_first|by apply method_on_first|by apply find_function_first].
Qed.

Lemma enrolled es R : enroll_all es empty_registry = Some R -> reg_ok R.
Proof. intros Hes. destruct (enroll_all_ok es empty_registry empty_ok) as (R' & HR' & Hok). by rewrite Hes in HR'; injection HR' as ->. Qed.

Lemma fn_enrolled fes F : fn_enroll_all fes no_functions = Some F -> fn_ok F.
Proof. intros Hes. destruct (fn_enroll_all_ok fes no_functions no_functions_ok) as (F' & HF' & Hok). by rewrite Hes in HF'; injection HF' as ->. Qed.

(** The attach lists are only a shortcut: after any registrations, the
    assignability test and the parameter queries of methods (other than a
    method called [init]), initializers and functions answer as the linear
    scans over all rows do, which is what they fall back to when a row came
    before its owner. *)
Theorem reflect_attach_linear es fes R F : enroll_all es empty_registry = Some R -> fn_enroll_all fes no_functions = Some F ->
  (forall wanted actual, beans_reflect_is_assignable_from R wanted actual = beans_reflect_is_assignable_from (scanned R) wanted actual) /\
  (forall owner callable wanted, is_init callable = false ->
    reflect_method_parameter_id R owner callable wanted = reflect_method_parameter_id (scanned R) owner callable wanted) /\
  (forall owner wanted, reflect_initializer_parameter_id R owner wanted = reflect_initializer_parameter_id (scanned R) owner wanted) /\
  (forall name wanted, reflect_function_parameter_id F name wanted = reflect_function_parameter_id (fn_scanned F) name wanted).
Proof.
  intros Hok%enrolled HF%fn_enrolled. split_and!; intros.
  - by apply assignable_scanned.
  - by apply method_parameter_scanned.
  - by apply initializer_parameter_scanned.
  - by apply function_parameter_scanned.
Qed.

(** C18: [actual] is reported assignable to [wanted] exactly when it derives
    from it: by its own name or an alias, by a base along the chain, or by an
    interface that it or a base lists; the test ends on every registry whose
    base links resolve and end. *)
Theorem reflect_assignable_correct es R wanted actual : enroll_all es empty_registry = Some R -> closed R -> based R ->
  exists b, beans_reflect_is_assignable_from R wanted actual = Some b /\ (b = true <-> derives R wanted actual).
Proof. intros Hok%enrolled Hc Hb. by apply assignable_derives. Qed.

(** C19: the inherited listings of fields and methods end, within the scratch
    array of one slot per row: they list every name the chain declares once,
    in the order it first occurs from the base down, standing for its last
    declaration, and methods without initializers and finalizers.  The field
    a name resolves to is that last declaration, with the attach lists or
    without. *)
Theorem reflect_listing_correct es R owner name : enroll_all es empty_registry = Some R -> based R ->
  let id := type_first R owner in
  let any := fun _ => true in let ordinary := fun name => negb (reflect_special_method name) in
  exists l fids mids r, chain R id l /\
    reflect_collect_fields R id true = Some fids /\ listing (field_names R) (declared (field_names R) any l) fids /\ slen fids <= t_len (fields R) /\
    reflect_collect_methods R id true = Some mids /\ listing (method_names R) (declared (method_names R) ordinary l) mids /\ slen mids <= t_len (methods R) /\
    reflect_named_field_id R owner name = Some r /\ is_last (field_names R) name (declared (field_names R) any l) r.
Proof.
  intros Hok%enrolled Hb. cbv zeta. destruct (Hb owner) as [l Hl]. destruct (fields_listing R _ l Hok Hl) as (fids & Hf & Hfl). destruct (methods_listing R _ l Hok Hl) as (mids & Hm & Hml).
  destruct (named_field_spec R owner name l Hok Hl) as (r & Hr & Hlast). exists l, fids, mids, r. split_and!; try done.
  - pose proof (listing_length _ _ _ Hfl (declared_valid _ _ _)) as Hlen. unfold field_names in Hlen. by rewrite length_fmap in Hlen.
  - pose proof (listing_length _ _ _ Hml (declared_valid _ _ _)) as Hlen. unfold method_names in Hlen. by rewrite length_fmap in Hlen.
Qed.

(** *** Handles *)

Lemma handle_roundtrip tag id limit : 0 < tag < 128 -> 0 <= id < limit -> limit < 2 ^ 56 ->
  reflect_handle_id (Z.shiftl tag REFLECT_HANDLE_TAG_SHIFT + id + 1) tag limit = id /\
  forall other, other <> tag -> reflect_handle_id (Z.shiftl tag REFLECT_HANDLE_TAG_SHIFT + id + 1) other limit = -1.
Proof.
  intros Ht Hid Hl. unfold reflect_handle_id, REFLECT_HANDLE_TAG_SHIFT. rewrite Z.shiftl_mul_pow2 by lia.
  assert (Hs : Z.shiftr (tag * 2 ^ 56 + id + 1) 56 = tag).
  { rewrite Z.shiftr_div_pow2 by lia. symmetry. apply (Z.div_unique _ _ _ (id + 1)); lia. }
  assert (Hm : (tag * 2 ^ 56 + id + 1) &! (Z.shiftl 1 56 - 1) = id + 1).
  { replace (Z.shiftl 1 56 - 1) with (Z.ones 56) by done. rewrite Z.land_ones by lia. symmetry. apply (Z.mod_unique _ _ tag); lia. }
  rewrite Hs, Hm, (proj2 (Z.leb_gt _ _)) by lia. cbn [orb]. split.
  - rewrite Z.eqb_refl. cbn [negb]. rewrite (proj2 (Z.leb_le _ _)), (proj2 (Z.ltb_lt _ _)) by lia. cbn [andb]. lia.
  - intros other Hne. by rewrite (proj2 (Z.eqb_neq tag other)).
Qed.

(** A call through a resolved handle is the call by name: for a function
    and an initializer exactly, for a method up to the name the receiver is
    checked against, which is the declaring owner's; and a handle of one kind
    names nothing of another. *)
Theorem reflect_handles_agree {E} (thunk : Z -> Z -> list Z -> world E -> option (Z * world E)) es fes R F owner name raw handles count static (w : world E) :
  enroll_all es empty_registry = Some R -> fn_enroll_all fes no_functions = Some F ->
  t_len (methods R) < 2 ^ 56 -> t_len (types R) < 2 ^ 56 -> t_len (fns F) < 2 ^ 56 ->
  (exists h, beans_reflect_function_handle F name = Some h /\
    beans_reflect_function_call_handle thunk R F h handles count w = beans_reflect_function_call thunk R F name handles count w) /\
  (exists h, beans_reflect_initializer_handle R owner = Some h /\
    beans_reflect_initializer_call_handle thunk R h handles count w = beans_reflect_initializer_call thunk R owner handles count w) /\
  (exists h, beans_reflect_method_handle R owner name = Some h /\
    (h = 0 -> beans_reflect_method_call thunk R owner name raw handles count static w = Some (reflect_fail 1 (set_error 0 w))) /\
    (h <> 0 -> exists id m, reflect_method_id R owner name = Some id /\ row (methods R) id = Some m /\
      beans_reflect_method_call_handle thunk R h raw handles count static w =
      beans_reflect_method_call thunk R (m_owner m) name raw handles count static w) /\
    reflect_handle_id h REFLECT_HANDLE_FUNCTION (t_len (fns F)) = -1).
Proof.
  intros Hok%enrolled HF%fn_enrolled Hlm Hlt Hlf. split; [|split].
  - unfold beans_reflect_function_handle, beans_reflect_function_call_handle, beans_reflect_function_call. rewrite find_function_first by done. cbn [mbind option_bind].
    eexists. split; [reflexivity|]. cbv zeta. destruct (Z.leb_spec 0 (fn_first F name)) as [H0|H0]; [|by rewrite (proj2 (Z.ltb_lt (fn_first F name) 0) H0)].
    rewrite (proj1 (handle_roundtrip REFLECT_HANDLE_FUNCTION (fn_first F name) (t_len (fns F)) ltac:(by unfold REFLECT_HANDLE_FUNCTION) ltac:(split; [done|apply first_row_range]) Hlf)).
    by rewrite (proj2 (Z.ltb_ge (fn_first F name) 0) H0).
  - unfold beans_reflect_initializer_handle, beans_reflect_initializer_call_handle, beans_reflect_initializer_call. rewrite find_type_first by done. cbn [mbind option_bind].
    destruct (Z.ltb_spec (type_first R owner) 0) as [H0|H0]; [by eexists|]. destruct (type_hit R owner H0) as (t & Ht & _). rewrite Ht. cbn [mbind option_bind].
    eexists. split; [reflexivity|]. cbv zeta. destruct (ty_init_flags t <? 0); [done|].
    rewrite (proj1 (handle_roundtrip REFLECT_HANDLE_INITIALIZER (type_first R owner) (t_len (types R)) ltac:(by unfold REFLECT_HANDLE_INITIALIZER) ltac:(split; [done|apply first_row_range]) Hlt)).
    by rewrite (proj2 (Z.ltb_ge _ _)).
  - unfold beans_reflect_method_handle. destruct (reflect_special_method name) eqn:Hsp.
    { eexists. split; [reflexivity|]. split_and!; [|done|done]. intros _. unfold beans_reflect_method_call. destruct (method_id_total R owner name Hok) as [id ->].
      cbn [mbind option_bind]. by rewrite Hsp, orb_true_r. }
    destruct (method_id_total R owner name Hok) as [id Hid]. rewrite Hid. cbn [mbind option_bind]. eexists. split; [reflexivity|]. destruct (Z.leb_spec 0 id) as [H0|H0].
    + destruct (method_id_row R owner name id Hok Hid H0) as (m & Hm & Hn & Hfirst). pose proof (row_range _ _ _ Hm) as Hr.
      pose proof (handle_roundtrip REFLECT_HANDLE_METHOD id (t_len (methods R)) ltac:(by unfold REFLECT_HANDLE_METHOD) Hr Hlm) as [Hself _].
      split_and!.
      * unfold REFLECT_HANDLE_METHOD, REFLECT_HANDLE_TAG_SHIFT. intros Hz. rewrite Z.shiftl_mul_pow2 in Hz by lia. lia.
      * intros _. exists id, m. split; [done|]. split; [done|]. unfold beans_reflect_method_call_handle, beans_reflect_method_call. rewrite Hself. cbv zeta.
        rewrite (proj2 (Z.ltb_ge _ _)) by done. rewrite Hm. cbn [mbind option_bind]. rewrite <-Hn. rewrite (method_id_again R owner name id m Hok Hid H0 Hm). cbn [mbind option_bind].
        rewrite (proj2 (Z.ltb_ge _ _)) by done. rewrite Hn, Hsp. done.
      * unfold reflect_handle_id, REFLECT_HANDLE_TAG_SHIFT, REFLECT_HANDLE_METHOD, REFLECT_HANDLE_FUNCTION. rewrite Z.shiftl_mul_pow2 by lia.
        assert (Hs : Z.shiftr (1 * 2 ^ 56 + id + 1) 56 = 1) by (rewrite Z.shiftr_div_pow2 by lia; symmetry; apply (Z.div_unique _ _ _ (id + 1)); lia).
        rewrite Hs. by rewrite orb_true_r.
    + split_and!; [|done|done]. intros _. unfold beans_reflect_method_call. rewrite Hid. cbn [mbind option_bind]. by rewrite (proj2 (Z.ltb_lt _ _)).
Qed.
End registry.

(** ** A small program *)

(** Whether the chain of [id] ends within [n] links. *)
Fixpoint ends (n : nat) R (id : Z) : bool :=
  match n with
  | O => false
  | S n =>
      if id <? 0 then true
      else match row (types R) id with
           | Some t => match ty_base t with Some base => ends n R (type_first R base) | None => true end
           | None => false
           end
  end.

Lemma ends_chain n R : forall id, ends n R id = true -> exists l, chain R id l.
Proof.
  induction n as [|n IH]; intros id He; [done|]. cbn [ends] in He. destruct (Z.ltb_spec id 0); [by exists []; constructor|].
  destruct (row (types R) id) as [t|] eqn:Ht; [|done]. destruct (ty_base t) as [base|] eqn:Hb; [|by eexists; apply chain_root].
  destruct (IH _ He) as [l Hl]. by eexists; eapply chain_link.
Qed.

Lemma based_check n R : forallb (ends n R) (seqZ (-1) (t_len (types R) + 1)) = true -> based R.
Proof.
  intros Hf name. apply (ends_chain n). rewrite forallb_forall in Hf. apply Hf, list_elem_of_In, elem_of_seqZ. pose proof (type_first_range R name). lia.
Qed.

Lemma closed_check R : forallb (fun t => match ty_base t with Some base => 0 <=? type_first R base | None => true end) (t_rows (types R)) = true -> closed R.
Proof. intros Hf t base Ht Hb. rewrite forallb_forall in Hf. specialize (Hf t (proj1 (list_elem_of_In _ _) Ht)). rewrite Hb in Hf. by apply Z.leb_le. Qed.

Definition class_kind : Z := 7.

(** A base and a derived class that overrides a method and a field. *)
Definition demo : list entry :=
  [EType (lit "zoo.Animal") class_kind None; EType (lit "zoo.Dog") class_kind (Some (lit "zoo.Animal"));
   EInterface (lit "zoo.Animal") (lit "zoo.Named");
   EField (lit "zoo.Animal") (lit "name") (lit "string") 1; EField (lit "zoo.Dog") (lit "age") (lit "int") 1;
   EField (lit "zoo.Dog") (lit "name") (lit "string") 1;
   EMethod (lit "zoo.Animal") (lit "speak") (lit "string") 1; EMethodCall (lit "zoo.Animal") (lit "speak") 100;
   EParameter (lit "zoo.Animal") (lit "speak") (lit "times") (lit "int") 1;
   EMethod (lit "zoo.Dog") (lit "speak") (lit "string") 1; EMethodCall (lit "zoo.Dog") (lit "speak") 200;
   EParameter (lit "zoo.Dog") (lit "speak") (lit "times") (lit "int") 1].
Definition demo_registry : registry := default empty_registry (enroll_all demo empty_registry).

Definition demo_functions : list fn_entry :=
  [EFunction (lit "zoo.count") (lit "count") (lit "int") 1; EFunctionCall (lit "zoo.count") 300;
   EFunctionParameter (lit "zoo.count") (lit "of") (lit "zoo.Animal") 0].
Definition demo_fns : functions := default no_functions (fn_enroll_all demo_functions no_functions).

Lemma demo_enrolled : enroll_all demo empty_registry = Some demo_registry.
Proof. vm_compute. reflexivity. Qed.

Lemma demo_fn_enrolled : fn_enroll_all demo_functions no_functions = Some demo_fns.
Proof. vm_compute. reflexivity. Qed.

Lemma demo_based : based demo_registry.
Proof. apply (based_check 3). vm_compute. reflexivity. Qed.

Lemma demo_closed : closed demo_registry.
Proof. apply closed_check. vm_compute. reflexivity. Qed.

(** A dog in box 16, a number in box 32; the body answers with box 48. *)
Definition demo_world : world unit :=
  mkWorld {[16 := mkValue (lit "zoo.Dog") 8 1000 0 0; 32 := mkValue (lit "int") 8 1016 0 0]}
    {[1000 := [1;0;0;0;0;0;0;0]; 1016 := [3;0;0;0;0;0;0;0]]} 0 tt.
Definition demo_thunk (body receiver : Z) (data : list Z) (w : world unit) : option (Z * world unit) := Some (48, w).

Lemma demo_handles : handles_ok (Some [32]) (Z.to_nat 1) demo_world.
Proof.
  split; [cbn; lia|]. intros h ->%list_elem_of_singleton. right. by eexists; vm_compute.
Qed.

Lemma demo_receiver : is_Some (boxes demo_world !! 16).
Proof. by eexists; vm_compute. Qed.

(** The derived class's body runs, with the declared argument. *)
Example demo_call : beans_reflect_method_call (fun body receiver data w => Some (body + receiver + Z.of_nat (length data), w)) demo_registry
    (lit "zoo.Animal") (lit "speak") 16 (Some [32]) 1 false demo_world =
  Some (200 + 1000 + 1, mkWorld {[16 := mkValue (lit "zoo.Dog") 8 1000 0 0; 32 := mkValue (lit "int") 0 0 0 0]} {[1000 := [1;0;0;0;0;0;0;0]]} 0 tt).
Proof. vm_compute. reflexivity. Qed.

(** The same box may stand for two moved arguments: the body gets its bytes
    twice, and both own them. *)
Example moved_twice : let R := default empty_registry (enroll_all
    [EType (lit "A") class_kind None; EMethod (lit "A") (lit "f") (lit "int") 3; EMethodCall (lit "A") (lit "f") 100;
     EParameter (lit "A") (lit "f") (lit "x") (lit "int") 1; EParameter (lit "A") (lit "f") (lit "y") (lit "int") 1] empty_registry) in
  exists w', beans_reflect_method_call (fun _ _ data w => match data with [a; b] => Some (if a =? b then 1 else 0, w) | _ => None end) R
    (lit "A") (lit "f") 0 (Some [32; 32]) 2 true demo_world = Some (1, w').
Proof. eexists. vm_compute. reflexivity. Qed.

(** A box that was moved from still serves as the receiver of a field: its
    getter runs on a null pointer. *)
Example field_of_moved : beans_reflect_field_get (fun _ data w => Some (if data =? 0 then 7 else 1, w))
    (default empty_registry (enroll_all [EType (lit "A") class_kind None; EField (lit "A") (lit "x") (lit "int") 1; EFieldAccess (lit "A") (lit "x") 500 600] empty_registry))
    (lit "A") (lit "x") 16 (mkWorld {[16 := mkValue (lit "A") 0 0 0 0]} ∅ 0 tt) =
  Some (7, mkWorld {[16 := mkValue (lit "A") 0 0 0 0]} ∅ 0 tt).
Proof. vm_compute. reflexivity. Qed.

(** Parameters of a method called [init] hang off the type, not off the
    method: its own parameter count is 0 with the attach lists, 1 without. *)
Example init_parameters : let R := default empty_registry (enroll_all
    [EType (lit "A") class_kind None; EMethod (lit "A") (lit "init") (lit "unit") 1; EParameter (lit "A") (lit "init") (lit "x") (lit "int") 0] empty_registry) in
  beans_reflect_method_parameter_count R (lit "A") (lit "init") = Some 0 /\
  beans_reflect_method_parameter_count (scanned R) (lit "A") (lit "init") = Some 1.
Proof. vm_compute. split; reflexivity. Qed.

Lemma reflect_call_checked_witness : exists id m body receiver data, reflect_method_id demo_registry (lit "zoo.Animal") (lit "speak") = Some id /\
  row (methods demo_registry) id = Some m /\ bound demo_registry (set_error 0 demo_world) m (lit "zoo.Animal") 16 false body receiver /\
  accepted_args demo_registry (set_error 0 demo_world) [32] (signature_of demo_registry m) data /\
  beans_reflect_method_call demo_thunk demo_registry (lit "zoo.Animal") (lit "speak") 16 (Some [32]) 1 false demo_world =
    answer (Some [32]) (signature_of demo_registry m) (demo_thunk body receiver data (set_error 0 demo_world)).
Proof.
  destruct (reflect_call_checked demo_thunk demo demo_registry (lit "zoo.Animal") (lit "speak") 16 (Some [32]) 1 false demo_world
    demo_enrolled demo_closed demo_based demo_handles (or_intror (or_intror demo_receiver)))
    as [(code & _ & Hr)|(id & m & body & receiver & data & Hid & Hm & _ & _ & Hb & _ & _ & Ha & Hcall & _)].
  - exfalso. revert Hr. vm_compute. discriminate.
  - exists id, m, body, receiver, data. exact (conj Hid (conj Hm (conj Hb (conj Ha Hcall)))).
Defined.

Lemma reflect_attach_linear_witness : method_param_orphans demo_registry = false /\
  reflect_method_parameter_id demo_registry (lit "zoo.Dog") (lit "speak") 0 = reflect_method_parameter_id (scanned demo_registry) (lit "zoo.Dog") (lit "speak") 0.
Proof.
  split; [vm_compute; reflexivity|].
  exact (proj1 (proj2 (reflect_attach_linear demo demo_functions demo_registry demo_fns demo_enrolled demo_fn_enrolled)) (lit "zoo.Dog") (lit "speak") 0 eq_refl).
Defined.

Lemma reflect_assignable_correct_witness : exists b, beans_reflect_is_assignable_from demo_registry (lit "zoo.Named") (lit "zoo.Dog") = Some b /\
  (b = true <-> derives demo_registry (lit "zoo.Named") (lit "zoo.Dog")).
Proof. exact (reflect_assignable_correct demo demo_registry (lit "zoo.Named") (lit "zoo.Dog") demo_enrolled demo_closed demo_based). Defined.

(** It is. *)
Example dog_is_named : beans_reflect_is_assignable_from demo_registry (lit "zoo.Named") (lit "zoo.Dog") = Some true.
Proof. vm_compute. reflexivity. Qed.

Lemma reflect_listing_correct_witness : exists fids, reflect_collect_fields demo_registry (type_first demo_registry (lit "zoo.Dog")) true = Some fids /\
  slen fids <= t_len (fields demo_registry).
Proof.
  destruct (reflect_listing_correct demo demo_registry (lit "zoo.Dog") (lit "name") demo_enrolled demo_based) as (l & fids & mids & r & _ & Hf & _ & Hlen & _).
  exists fids. exact (conj Hf Hlen).
Defined.

(** The derived name takes the base's place. *)
Example dog_fields : reflect_collect_fields demo_registry (type_first demo_registry (lit "zoo.Dog")) true = Some [2; 1] /\
  reflect_named_field_id demo_registry (lit "zoo.Dog") (lit "name") = Some 2.
Proof. split; vm_compute; reflexivity. Qed.

Lemma reflect_handles_agree_witness : exists h, beans_reflect_function_handle demo_fns (lit "zoo.count") = Some h /\
  beans_reflect_function_call_handle demo_thunk demo_registry demo_fns h (Some [16]) 1 demo_world =
  beans_reflect_function_call demo_thunk demo_registry demo_fns (lit "zoo.count") (Some [16]) 1 demo_world.
Proof.
  exact (proj1 (reflect_handles_agree demo_thunk demo demo_functions demo_registry demo_fns (lit "zoo.Dog") (lit "zoo.count") 0 (Some [16]) 1 false demo_world
    demo_enrolled demo_fn_enrolled eq_refl eq_refl eq_refl)).
Defined.

Lemma reflect_type_arguments_roundtrip_witness :
  let t := TName (lit "Map") [TName (lit "List") [TName (lit "int") []; TName (lit "zoo.Dog") []]; TArray (TName (lit "string") []) (lit "3")] in
  render t = lit "Map<List<int, zoo.Dog>, [string; 3]>" /\ beans_reflect_type_argument_at (render t) 1 = lit "[string; 3]".
Proof.
  split; [reflexivity|].
  assert (Hw : well_named (TName (lit "Map") [TName (lit "List") [TName (lit "int") []; TName (lit "zoo.Dog") []]; TArray (TName (lit "string") []) (lit "3")])).
  { assert (Hplain : forall s, forallb (fun c => negb ((c =? ch_lt) || (c =? ch_gt) || (c =? ch_comma))) s = true -> Forall plain s).
    { intros s Hs. apply Forall_forall. intros c Hc. rewrite forallb_forall in Hs. specialize (Hs c (proj1 (list_elem_of_In _ _) Hc)). unfold plain. bools. lia. }
    cbn [well_named foldr].
    split; [apply Hplain; reflexivity|]. split; [exists 77, 112, [97; 112], [77; 97]; done|]. split; [|split; [|exact I]].
    - split; [apply Hplain; reflexivity|]. split; [exists 76, 116, [105; 115; 116], [76; 105; 115]; done|]. split; [|split; [|exact I]].
      + split; [apply Hplain; reflexivity|]. split; [exists 105, 116, [110; 116], [105; 110]; done|exact I].
      + split; [apply Hplain; reflexivity|]. split; [exists 122, 103, [111; 111; 46; 68; 111; 103], [122; 111; 111; 46; 68; 111]; done|exact I].
    - split; [|apply Hplain; reflexivity]. split; [apply Hplain; reflexivity|]. split; [exists 115, 103, [116; 114; 105; 110; 103], [115; 116; 114; 105; 110]; done|exact I]. }
  exact (proj2 (reflect_type_arguments_roundtrip _ _ 1 Hw ltac:(lia))).
Defined.
