(* ===== verification/Show.v ===== *)
(** * Show: the text of nested values

    [runtime/beans_rt.c], the display section: [show_join], which joins the
    texts of a list's slots in a doubling buffer, and the iterative driver
    that renders nested containers and object graphs without recursion.  A
    step appends its own text and pushes the work under it; the driver pops
    the stack until it is empty, and a path of the instances whose rendering
    has begun cuts cycles.

    The steps are emitted by the compiler: a step is a symbol, [step] says
    what it does to the context, and [show] is the text a joined slot gives.
    The stack is the list of its items, top first, with its capacity.
    [None] is a write outside a buffer or a loop that does not end.  A refused
    allocation is left out, and so is the release of the shown texts. *)

From S2P Require Import Prelude Mem Text Slots ListRt MapRt.

Open Scope c_scope.

(** ** Joining in a buffer *)

(** [while (cap < need) cap *= 2]. *)
Fixpoint join_cap (fuel : nat) (cap need : Z) : option Z :=
  match fuel with
  | O => None
  | S fuel => if cap <? need then join_cap fuel (cap * 2) need else Some cap
  end.
Definition JOIN_FUEL : nat := 64.

(** [memcpy(buf + len, s, n)] into a buffer of [cap] bytes. *)
Definition join_put (buf : str) (cap : Z) (s : str) : option str :=
  if cap <? slen buf + slen s then None else Some (buf ++ s).

Fixpoint join_loop (l : BList) (sep : str) (show : Z -> str) (n : nat) (i : Z) (buf : str) (cap : Z) : option (str * Z) :=
  match n with
  | O => Some (buf, cap)
  | S n =>
      let s := show (list_slot_at l i) in
      let need := slen buf + slen s + slen sep + 2 in
      cap ← (if cap <? need then join_cap JOIN_FUEL cap need else Some cap);
      buf ← (if i =? 0 then Some buf else join_put buf cap sep);
      buf ← join_put buf cap s;
      join_loop l sep show n (i + 1) buf cap
  end.

Definition show_join (l : BList) (sep : str) (show : Z -> str) (brackets : bool) : option str :=
  buf ← (if brackets then join_put [] 16 (lit "[") else Some []);
  '(buf, cap) ← join_loop l sep show (Z.to_nat (l_len l)) 0 buf 16;
  if brackets then join_put buf cap (lit "]") else Some buf.

Definition beans_show_list (l : BList) (show : Z -> str) : option str := show_join l (lit ", ") show true.
Definition beans_list_join_show (l : BList) (sep : str) (show : Z -> str) : option str := show_join l sep show false.

(** ** The driver *)

(** [show_leave_step], or a step of the compiler. *)
Inductive show_fn : Type := FLeave | FStep (symbol : Z).

(** A step with its slot, or a text ([fn] is [NULL]). *)
Inductive BShowItem : Type := IStep (fn : show_fn) (v : Z) | IText (text : str).

Record BShowCtx : Type := mkShow {
  s_items : list BShowItem;
  s_cap : Z;
  s_out : str;
  s_ocap : Z;
  s_path : list Z;
  s_pcap : Z
}.

Definition set_items (items : list BShowItem) (cap : Z) (c : BShowCtx) : BShowCtx :=
  mkShow items cap (s_out c) (s_ocap c) (s_path c) (s_pcap c).
Definition set_path (path : list Z) (pcap : Z) (c : BShowCtx) : BShowCtx :=
  mkShow (s_items c) (s_cap c) (s_out c) (s_ocap c) path pcap.

Definition show_out (p : str) (c : BShowCtx) : BShowCtx :=
  let n := slen p in
  let olen := slen (s_out c) in
  let ocap := if s_ocap c <? olen + n + 1 then (olen + n + 1) * 2 + 16 else s_ocap c in
  mkShow (s_items c) (s_cap c) (s_out c ++ p) ocap (s_path c) (s_pcap c).
Definition beans_show_append (s : str) (c : BShowCtx) : BShowCtx := show_out s c.

Definition show_push (it : BShowItem) (c : BShowCtx) : BShowCtx :=
  let len := Z.of_nat (length (s_items c)) in
  let cap := if len =? s_cap c then if s_cap c =? 0 then 32 else s_cap c * 2 else s_cap c in
  set_items (it :: s_items c) cap c.
Definition beans_show_push_val (fn : Z) (v : Z) : BShowCtx -> BShowCtx := show_push (IStep (FStep fn) v).
Definition beans_show_push_lit (s : str) : BShowCtx -> BShowCtx := show_push (IText s).

(** The end of the path, last entered last. *)
Definition show_leave_step (c : BShowCtx) : BShowCtx :=
  if 0 <? Z.of_nat (length (s_path c)) then set_path (take (length (s_path c) - 1) (s_path c)) (s_pcap c) c else c.

Definition beans_show_enter (v : Z) (c : BShowCtx) : bool * BShowCtx :=
  if existsb (Z.eqb v) (s_path c) then (true, c)
  else
    let plen := Z.of_nat (length (s_path c)) in
    let pcap := if plen =? s_pcap c then if s_pcap c =? 0 then 16 else s_pcap c * 2 else s_pcap c in
    (false, set_path (s_path c ++ [v]) pcap c).
Definition beans_show_push_leave (v : Z) : BShowCtx -> BShowCtx := show_push (IStep FLeave v).

(** ** Containers *)

(** [for (i = n; i-- > 1;)]: the slots behind the first, last first. *)
Fixpoint push_elements (l : BList) (elem_step : Z) (n : nat) (c : BShowCtx) : BShowCtx :=
  match n with
  | O => c
  | S n =>
      push_elements l elem_step n
        (show_push (IText (lit ", ")) (show_push (IStep (FStep elem_step) (list_slot_at l (Z.of_nat n + 1))) c))
  end.
Definition beans_show_list_iter (l : BList) (elem_step : Z) (c : BShowCtx) : BShowCtx :=
  let c := show_out (lit "[") c in
  let c := show_push (IText (lit "]")) c in
  let c := push_elements l elem_step (Z.to_nat (l_len l - 1)) c in
  if 0 <? l_len l then show_push (IStep (FStep elem_step) (list_slot_at l 0)) c else c.

Section map.
Context {V : Type} (vzero : V).
(** The word of a value: itself, or the address of a wide one. *)
Context (value_word : Z -> V -> Z).

Definition map_show_value (m : BMap V) (i : Z) : Z := value_word i (entry_at vzero m i).2.

(** The first live entry, or -1. *)
Fixpoint first_live (m : BMap V) (n : nat) (i : Z) : Z :=
  match n with O => -1 | S n => if MAP_DEAD m i then first_live m n (i + 1) else i end.

Definition push_value (m : BMap V) (i : Z) (key_step val_step : Z) (c : BShowCtx) : BShowCtx :=
  show_push (IStep (FStep key_step) (entry_at vzero m i).1)
    (show_push (IText (lit ": ")) (show_push (IStep (FStep val_step) (map_show_value m i)) c)).

(** [for (i = used; i-- > first + 1;)]; [i] is [first + n]. *)
Fixpoint push_entries (m : BMap V) (key_step val_step first : Z) (n : nat) (c : BShowCtx) : BShowCtx :=
  match n with
  | O => c
  | S n =>
      let i := first + Z.of_nat n + 1 in
      push_entries m key_step val_step first n
        (if MAP_DEAD m i then c else show_push (IText (lit ", ")) (push_value m i key_step val_step c))
  end.
Definition beans_show_map_iter (m : BMap V) (key_step val_step : Z) (c : BShowCtx) : BShowCtx :=
  let c := show_out (lit "{") c in
  let c := show_push (IText (lit "}")) c in
  let first := first_live m (Z.to_nat (m_used m)) 0 in
  if first <? 0 then c
  else push_value m first key_step val_step (push_entries m key_step val_step first (Z.to_nat (m_used m - first - 1)) c).
End map.

(** ** Draining *)

Section drain.
Context (step : Z -> Z -> BShowCtx -> BShowCtx).

Definition run_item (it : BShowItem) (c : BShowCtx) : BShowCtx :=
  match it with
  | IText text => show_out text c
  | IStep FLeave v => show_leave_step c
  | IStep (FStep symbol) v => step symbol v c
  end.

(** [while (c->len > 0)], at most [n] times. *)
Fixpoint drain (n : nat) (c : BShowCtx) : option BShowCtx :=
  match s_items c with
  | [] => Some c
  | it :: items => match n with O => None | S n => drain n (run_item it (set_items items (s_cap c) c)) end
  end.

Definition show_finish (n : nat) (c : BShowCtx) : option str := c ← drain n c; Some (s_out c).

Definition empty_show : BShowCtx := mkShow [] 0 [] 0 [] 0.
Definition beans_show_run (n : nat) (fn v : Z) : option str := show_finish n (show_push (IStep (FStep fn) v) empty_show).

(** The elements of [beans_list_join_wide], by address, last first. *)
Fixpoint push_wide (data stride : Z) (sep : str) (elem_step : Z) (n : nat) (c : BShowCtx) : BShowCtx :=
  match n with
  | O => c
  | S n =>
      let i := Z.of_nat n in
      let c := show_push (IStep (FStep elem_step) (data + i * stride)) c in
      push_wide data stride sep elem_step n (if 0 <? i then show_push (IText sep) c else c)
  end.
Definition beans_list_join_wide (n : nat) (l : BList) (data : Z) (sep : str) (elem_step : Z) : option str :=
  show_finish n (push_wide data (Z.abs (l_stride l)) sep elem_step (Z.to_nat (l_len l)) empty_show).
End drain.
