(* ===== verification/ShowTheorems.v ===== *)
(** * ShowTheorems: nested values are rendered in full

    The joining buffer never overruns, a container renders as the texts of its
    elements join its brackets whatever they nest, and an object graph is
    rendered to the end, cycles included. *)

From stdpp Require Import gmap.
From S2P Require Import Prelude Mem Text Slots Str StrProofs ListRt MapRt Show.

Open Scope c_scope.

Implicit Types (c : BShowCtx) (it : BShowItem) (path : list Z).

(** [join] from the second text on. *)
Definition behind (sep : str) (ts : list str) : str := concat ((fun t => sep ++ t) <$> ts).

Lemma join_behind sep t ts : join sep (t :: ts) = t ++ behind sep ts.
Proof.
  revert t. induction ts as [|u ts IH]; intros t; [cbn; by rewrite app_nil_r|].
  rewrite join_cons, IH by done. cbn. by rewrite <-!app_assoc.
Qed.

(** ** Joining *)

Lemma join_cap_spec fuel : forall cap need, 0 < cap -> need <= cap * 2 ^ Z.of_nat fuel -> exists cap', join_cap (S fuel) cap need = Some cap' /\ need <= cap' /\ cap <= cap'.
Proof.
  induction fuel as [|fuel IH]; intros cap need Hc Hn; cbn [join_cap]; destruct (Z.ltb_spec cap need); try (exists cap; split; [done|lia]).
  - cbn in Hn. lia.
  - rewrite Nat2Z.inj_succ, Z.pow_succ_r in Hn by lia. destruct (IH (cap * 2) need) as (cap' & Hr & ? & ?); [lia|lia|]. exists cap'. split; [exact Hr|lia].
Qed.

Lemma join_put_spec buf cap s : slen buf + slen s <= cap -> join_put buf cap s = Some (buf ++ s).
Proof. intros Hc. unfold join_put. by rewrite (proj2 (Z.ltb_ge _ _)). Qed.

Lemma slots_cons l i n : (fun k => list_slot_at l (Z.of_nat k)) <$> seq i (S n) = list_slot_at l (Z.of_nat i) :: ((fun k => list_slot_at l (Z.of_nat k)) <$> seq (S i) n).
Proof. done. Qed.

Lemma join_loop_spec l sep show n : forall i buf cap, 0 < cap -> slen buf + 1 <= cap ->
  let vs := (fun k => list_slot_at l (Z.of_nat k)) <$> seq i n in
  let text := if decide (i = O) then join sep (show <$> vs) else behind sep (show <$> vs) in
  slen buf + slen text + slen sep + 2 <= 2 ^ 62 ->
  exists cap', join_loop l sep show n (Z.of_nat i) buf cap = Some (buf ++ text, cap') /\ slen (buf ++ text) + 1 <= cap'.
Proof.
  induction n as [|n IH]; intros i buf cap Hc Hroom vs text Hsz; cbn [join_loop].
  - exists cap. subst vs text. cbn. by case_decide; rewrite app_nil_r.
  - subst vs text. rewrite slots_cons in *. set (v := list_slot_at l (Z.of_nat i)) in *. set (vs := (fun k => list_slot_at l (Z.of_nat k)) <$> seq (S i) n) in *.
    set (s := show v) in *. pose proof (slen_nonneg s). pose proof (slen_nonneg sep). pose proof (slen_nonneg buf). pose proof (slen_nonneg (behind sep (show <$> vs))).
    set (pre := if decide (i = O) then [] else sep). assert (Hpre : slen pre <= slen sep) by (unfold pre; case_decide; [change (slen []) with 0|]; lia). pose proof (slen_nonneg pre).
    assert (Htext : (if decide (i = O) then join sep (show <$> v :: vs) else behind sep (show <$> v :: vs)) = pre ++ s ++ behind sep (show <$> vs)).
    { unfold pre. case_decide; [change (show <$> v :: vs) with (s :: (show <$> vs)); by rewrite join_behind|]. change (behind sep (show <$> v :: vs)) with ((sep ++ s) ++ behind sep (show <$> vs)). by rewrite <-app_assoc. }
    rewrite Htext in *. rewrite !slen_app in Hsz.
    destruct (if cap <? _ then _ else _) as [cap'|] eqn:Hcap'.
    2:{ exfalso. destruct (cap <? _) eqn:Hlt; [|done]. destruct (join_cap_spec 63 cap (slen buf + slen s + slen sep + 2) Hc) as (? & Hr & _); [change (2 ^ Z.of_nat 63) with (2 ^ 63); nia|].
        change (S 63) with JOIN_FUEL in Hr. congruence. }
    assert (Hbig : slen buf + slen s + slen sep + 2 <= cap').
    { destruct (Z.ltb_spec cap (slen buf + slen s + slen sep + 2)) as [Hlt|]; [|injection Hcap' as <-; lia].
      destruct (join_cap_spec 63 cap (slen buf + slen s + slen sep + 2) Hc) as (? & Hr & ? & _); [change (2 ^ Z.of_nat 63) with (2 ^ 63); nia|]. change (S 63) with JOIN_FUEL in Hr. congruence. }
    cbn [mbind option_bind]. assert (Hfirst : (if Z.of_nat i =? 0 then Some buf else join_put buf cap' sep) = Some (buf ++ pre)).
    { unfold pre. destruct (Z.eqb_spec (Z.of_nat i) 0); case_decide; try lia; [by rewrite app_nil_r|]. by apply join_put_spec; lia. }
    rewrite Hfirst. cbn [mbind option_bind]. rewrite join_put_spec by (rewrite slen_app; lia). cbn [mbind option_bind].
    replace (Z.of_nat i + 1) with (Z.of_nat (S i)) by lia. destruct (IH (S i) ((buf ++ pre) ++ s) cap') as (cap2 & Hr & Hl); [lia|rewrite !slen_app; lia|rewrite decide_False by done; fold vs; rewrite !slen_app; lia|].
    rewrite decide_False in Hr, Hl by done. exists cap2. fold vs in Hr, Hl. rewrite Hr. split; [by rewrite <-!app_assoc|]. by rewrite <-!app_assoc in Hl.
Qed.

(** Joining returns the texts of the slots with the separator join them,
    in brackets or not, and never writes past its buffer. *)
Theorem show_join_correct l sep show brackets : 
  let text := join sep (show <$> list_slots l) in slen text + slen sep + 3 <= 2 ^ 62 ->
  show_join l sep show brackets = Some (if brackets then lit "[" ++ text ++ lit "]" else text).
Proof.
  intros text Hsz. unfold show_join. pose proof (slen_nonneg sep).
  assert (Hrun : forall buf, slen buf <= 1 -> exists cap, join_loop l sep show (Z.to_nat (l_len l)) 0 buf 16 = Some (buf ++ text, cap) /\ slen (buf ++ text) + 1 <= cap).
  { intros buf Hbuf. pose proof (join_loop_spec l sep show (Z.to_nat (l_len l)) 0 buf 16) as Hj. cbv zeta in Hj. rewrite decide_True in Hj by done.
    apply Hj; [done|lia|]. fold (list_slots l). fold text. lia. }
  destruct brackets.
  - rewrite join_put_spec by done. cbn [mbind option_bind]. destruct (Hrun ([] ++ lit "[") ltac:(done)) as (cap & -> & Hl). cbn [mbind option_bind].
    rewrite join_put_spec by exact Hl. by rewrite <-app_assoc.
  - cbn [mbind option_bind]. by destruct (Hrun [] ltac:(done)) as (cap & -> & Hl).
Qed.

(** ** The driver *)

Section drain.
Context (step : Z -> Z -> BShowCtx -> BShowCtx).

(** From [c] the driver comes to [c']. *)
Definition runs c c' : Prop := exists n, forall m, drain step (n + m) c = drain step m c'.

Lemma runs_refl c : runs c c.
Proof. by exists O. Qed.

Lemma runs_trans a b c : runs a b -> runs b c -> runs a c.
Proof. intros [n Hn] [m Hm]. exists (n + m)%nat. intros k. by rewrite <-Nat.add_assoc, Hn, Hm. Qed.

Lemma runs_item it items c : s_items c = it :: items -> runs c (run_item step it (set_items items (s_cap c) c)).
Proof. intros Hi. exists 1%nat. intros m. cbn [Nat.add drain]. by rewrite Hi. Qed.

(** It comes to a state with these items, text and path. *)
Definition reaches c (items : list BShowItem) (out : str) path : Prop :=
  exists c', runs c c' /\ s_items c' = items /\ s_out c' = out /\ s_path c' = path.

Lemma reaches_here c : reaches c (s_items c) (s_out c) (s_path c).
Proof. exists c. split; [apply runs_refl|done]. Qed.

(** Whatever is under it, the item is popped with its text appended and the
    path as it was. *)
Definition renders path it (text : str) : Prop :=
  forall c items, s_items c = it :: items -> s_path c = path -> reaches c items (s_out c ++ text) path.

Lemma renders_text path text : renders path (IText text) text.
Proof. intros c items Hi Hp. eexists. split; [by apply runs_item|]. cbn. by split. Qed.

(** A run of items renders as their texts. *)
Lemma renders_stack path its ts : Forall2 (renders path) its ts -> forall c items, s_items c = its ++ items -> s_path c = path ->
  reaches c items (s_out c ++ concat ts) path.
Proof.
  induction 1 as [|it t its ts Hit _ IH]; intros c items Hi Hp; [exists c; split; [apply runs_refl|by rewrite app_nil_r]|].
  destruct (Hit c (its ++ items) Hi Hp) as (c1 & Hr1 & Hi1 & Ho1 & Hp1). destruct (IH c1 items Hi1 Hp1) as (c2 & Hr2 & Hi2 & Ho2 & Hp2).
  exists c2. split; [by apply (runs_trans _ c1)|]. split_and!; [done| |done]. rewrite Ho2, Ho1. cbn. by rewrite <-app_assoc.
Qed.

(** A step that leaves text and a run of items. *)
Lemma renders_step path symbol v its ts pre :
  (forall c, s_path c = path -> let c' := step symbol v c in
    s_items c' = its ++ s_items c /\ s_out c' = s_out c ++ pre /\ s_path c' = path) ->
  Forall2 (renders path) its ts -> renders path (IStep (FStep symbol) v) (pre ++ concat ts).
Proof.
  intros Hs Hits c items Hi Hp. set (c0 := set_items items (s_cap c) c). destruct (Hs c0 Hp) as (Hi1 & Ho1 & Hp1).
  destruct (renders_stack path its ts Hits (step symbol v c0) items Hi1 Hp1) as (c2 & Hr & Hi2 & Ho2 & Hp2). exists c2.
  split; [eapply runs_trans; [by apply runs_item|exact Hr]|]. split_and!; [done| |done]. rewrite Ho2, Ho1. by rewrite <-app_assoc.
Qed.

(** *** Lists *)

Fixpoint comma_items (sep : str) (its : list BShowItem) : list BShowItem :=
  match its with [] => [] | [it] => [it] | it :: its => it :: IText sep :: comma_items sep its end.
Definition behind_items (sep : str) (its : list BShowItem) : list BShowItem := concat ((fun it => [IText sep; it]) <$> its).

Lemma comma_behind sep it its : comma_items sep (it :: its) = it :: behind_items sep its.
Proof.
  revert it. induction its as [|u its IH]; intros it; [done|]. change (comma_items sep (it :: u :: its)) with (it :: IText sep :: comma_items sep (u :: its)). by rewrite IH.
Qed.

Lemma renders_commas path sep its ts : Forall2 (renders path) its ts -> exists ts', Forall2 (renders path) (comma_items sep its) ts' /\ concat ts' = join sep ts.
Proof.
  intros Hits. destruct Hits as [|it t its ts Hit Hits]; [by exists []|]. rewrite comma_behind, join_behind.
  assert (Hb : exists ts', Forall2 (renders path) (behind_items sep its) ts' /\ concat ts' = behind sep ts).
  { induction Hits as [|u x its ts Hu _ (ts' & H1 & H2)]; [by exists []|]. exists (sep :: x :: ts'). split; [repeat (constructor; [done || apply renders_text|]); done|].
    cbn. rewrite H2. by rewrite <-app_assoc. }
  destruct Hb as (ts' & H1 & H2). exists (t :: ts'). split; [by constructor|]. cbn. by rewrite H2.
Qed.

Definition list_items (l : BList) (elem_step : Z) : list BShowItem := (fun v => IStep (FStep elem_step) v) <$> list_slots l.

Lemma push_elements_spec l e n : forall c, let c' := push_elements l e n c in
  s_items c' = behind_items (lit ", ") ((fun i => IStep (FStep e) (list_slot_at l (Z.of_nat i))) <$> seq 1 n) ++ s_items c /\ s_out c' = s_out c /\ s_path c' = s_path c.
Proof.
  induction n as [|n IH]; intros c; cbn [push_elements]; [done|]. cbv zeta. set (c1 := show_push _ _). destruct (IH c1) as (Hi & Ho & Hp). rewrite Hi, Ho, Hp. split; [|done].
  rewrite seq_S, fmap_app. unfold behind_items. rewrite fmap_app, concat_app. cbn. rewrite <-app_assoc. cbn. by replace (Z.of_nat n + 1) with (Z.of_nat (S n)) by lia.
Qed.

Lemma list_iter_spec l e c : 0 <= l_len l -> let c' := beans_show_list_iter l e c in
  s_items c' = (comma_items (lit ", ") (list_items l e) ++ [IText (lit "]")]) ++ s_items c /\ s_out c' = s_out c ++ lit "[" /\ s_path c' = s_path c.
Proof.
  intros Hl. unfold beans_show_list_iter. cbv zeta. set (c1 := show_push (IText (lit "]")) (show_out (lit "[") c)).
  destruct (push_elements_spec l e (Z.to_nat (l_len l - 1)) c1) as (Hi & Ho & Hp). unfold list_items, list_slots.
  assert (Hc1 : s_items c1 = IText (lit "]") :: s_items c /\ s_out c1 = s_out c ++ lit "[" /\ s_path c1 = s_path c) by done. destruct Hc1 as (Hi1 & Ho1 & Hp1).
  revert Hi Ho Hp. generalize (push_elements l e (Z.to_nat (l_len l - 1)) c1). intros c2 Hi Ho Hp.
  destruct (Z.ltb_spec 0 (l_len l)) as [H0|H0].
  - replace (Z.to_nat (l_len l)) with (S (Z.to_nat (l_len l - 1))) by lia. cbn [seq fmap list_fmap]. rewrite comma_behind. cbn [s_items show_push set_items s_out s_path].
    rewrite Hi, Ho, Hp, Hi1. split; [|done]. rewrite <-list_fmap_compose. cbn [app]. by rewrite <-app_assoc.
  - rewrite Hi, Ho, Hp, Hi1. replace (Z.to_nat (l_len l)) with O by lia. by replace (Z.to_nat (l_len l - 1)) with O by lia.
Qed.

(** A step that iterates a list renders it as the elements' texts between
    brackets and commas, if the element step renders each slot: the driver
    comes back with the stack and the path as they were. *)
Theorem show_list_correct path symbol v l elem_step (text : Z -> str) : 0 <= l_len l ->
  (forall c, step symbol v c = beans_show_list_iter l elem_step c) ->
  (forall x, x ∈ list_slots l -> renders path (IStep (FStep elem_step) x) (text x)) ->
  renders path (IStep (FStep symbol) v) (lit "[" ++ join (lit ", ") (text <$> list_slots l) ++ lit "]").
Proof.
  intros Hl Hs Ht. assert (Hits : Forall2 (renders path) (list_items l elem_step) (text <$> list_slots l)).
  { unfold list_items. induction (list_slots l) as [|x xs IH]; [constructor|]. cbn. constructor; [apply Ht; by left|]. apply IH. intros y Hy. apply Ht. by right. }
  destruct (renders_commas path (lit ", ") _ _ Hits) as (ts & Hts & Hc).
  replace (lit "[" ++ join (lit ", ") (text <$> list_slots l) ++ lit "]") with (lit "[" ++ concat (ts ++ [lit "]"])) by (rewrite concat_app, Hc; cbn; done).
  apply (renders_step path symbol v (comma_items (lit ", ") (list_items l elem_step) ++ [IText (lit "]")])).
  - intros c Hp c'. subst c'. rewrite Hs. destruct (list_iter_spec l elem_step c Hl) as (Hi & Ho & Hp'). rewrite Hp'. done.
  - apply Forall2_app; [done|]. constructor; [apply renders_text|constructor].
Qed.

(** *** Maps *)

Section map.
Context {V : Type} (vzero : V) (value_word : Z -> V -> Z).
Implicit Types (m : BMap V).

(** The items of one entry, in the order they are popped. *)
Definition entry_items m (key_step val_step : Z) (i : Z) : list BShowItem :=
  [IStep (FStep key_step) (entry_at vzero m i).1; IText (lit ": "); IStep (FStep val_step) (map_show_value vzero value_word m i)].

Lemma first_live_spec m n : forall i, 0 <= i ->
  (first_live m n i = -1 /\ List.filter (fun p => negb (MAP_DEAD m p)) (Z.of_nat <$> seq (Z.to_nat i) n) = []) \/
  (exists k, first_live m n i = i + Z.of_nat k /\ (k < n)%nat /\ List.filter (fun p => negb (MAP_DEAD m p)) (Z.of_nat <$> seq (Z.to_nat i) n) =
    (i + Z.of_nat k) :: List.filter (fun p => negb (MAP_DEAD m p)) (Z.of_nat <$> seq (S (Z.to_nat i + k)) (n - k - 1))).
Proof.
  induction n as [|n IH]; intros i Hi; [by left|]. cbn [first_live seq fmap list_fmap List.filter]. rewrite Z2Nat.id by done.
  destruct (MAP_DEAD m i); cbn [negb].
  - replace (S (Z.to_nat i)) with (Z.to_nat (i + 1)) by lia. destruct (IH (i + 1) ltac:(lia)) as [[H1 H2]|(k & H1 & Hk & H2)]; [by left|]. right. exists (S k).
    rewrite H1, H2. split; [lia|]. split; [lia|]. replace (i + 1 + Z.of_nat k) with (i + Z.of_nat (S k)) by lia.
    replace (Z.to_nat (i + 1) + k)%nat with (Z.to_nat i + S k)%nat by lia. done.
  - right. exists O. split; [lia|]. split; [lia|]. rewrite Z.add_0_r, Nat.add_0_r. by replace (S n - 0 - 1)%nat with n by lia.
Qed.

Lemma push_entries_spec m ks vs first n : 0 <= first -> forall c, let c' := push_entries vzero value_word m ks vs first n c in
  s_items c' = concat ((fun i => IText (lit ", ") :: entry_items m ks vs i) <$> List.filter (fun p => negb (MAP_DEAD m p)) (Z.of_nat <$> seq (S (Z.to_nat first)) n)) ++ s_items c /\
  s_out c' = s_out c /\ s_path c' = s_path c.
Proof.
  intros Hf. induction n as [|n IH]; intros c; cbn [push_entries]; [done|]. cbv zeta. set (c1 := if MAP_DEAD m _ then c else _). destruct (IH c1) as (Hi & Ho & Hp). rewrite Hi, Ho, Hp.
  rewrite seq_S, fmap_app, List.filter_app, fmap_app, concat_app. cbn [fmap list_fmap List.filter].
  replace (Z.of_nat (S (Z.to_nat first) + n)) with (first + Z.of_nat n + 1) by lia. unfold c1. destruct (MAP_DEAD m (first + Z.of_nat n + 1)); cbn [negb].
  - cbn. by rewrite app_nil_r.
  - split; [|done]. cbn [fmap list_fmap concat entry_items]. rewrite <-app_assoc. done.
Qed.

Lemma map_iter_spec m ks vs c : 0 <= m_used m -> let c' := beans_show_map_iter vzero value_word m ks vs c in exists its,
  s_items c' = (its ++ [IText (lit "}")]) ++ s_items c /\ s_out c' = s_out c ++ lit "{" /\ s_path c' = s_path c /\
  its = match live_positions m with [] => [] | i :: ps => entry_items m ks vs i ++ concat ((fun i => IText (lit ", ") :: entry_items m ks vs i) <$> ps) end.
Proof.
  intros Hu. unfold beans_show_map_iter. cbv zeta. set (c1 := show_push (IText (lit "}")) (show_out (lit "{") c)).
  assert (Hc1 : s_items c1 = IText (lit "}") :: s_items c /\ s_out c1 = s_out c ++ lit "{" /\ s_path c1 = s_path c) by done. destruct Hc1 as (Hi1 & Ho1 & Hp1).
  unfold live_positions. change O with (Z.to_nat 0). destruct (first_live_spec m (Z.to_nat (m_used m)) 0 ltac:(lia)) as [[-> ->]|(k & -> & Hk & ->)].
  - exists []. change (-1 <? 0) with true. cbn iota. rewrite Hi1, Ho1, Hp1. done.
  - rewrite Z.add_0_l, (proj2 (Z.ltb_ge _ _)) by lia.
    destruct (push_entries_spec m ks vs (Z.of_nat k) (Z.to_nat (m_used m - Z.of_nat k - 1)) ltac:(lia) c1) as (Hi & Ho & Hp). revert Hi Ho Hp.
    generalize (push_entries vzero value_word m ks vs (Z.of_nat k) (Z.to_nat (m_used m - Z.of_nat k - 1)) c1). intros c2 Hi Ho Hp.
    eexists. split; [|split; [|split; [|reflexivity]]]; [|by cbn; rewrite Ho, Ho1|by cbn; rewrite Hp, Hp1]. unfold push_value, entry_items at 1. cbn [s_items show_push set_items].
    rewrite Hi, Hi1. replace (S (Z.to_nat (Z.of_nat k))) with (S (Z.to_nat 0 + k)) by lia. replace (Z.to_nat (m_used m - Z.of_nat k - 1)) with (Z.to_nat (m_used m) - k - 1)%nat by lia.
    cbn [app]. by rewrite <-!app_assoc.
Qed.

(** A step that iterates a map renders its live entries in storage order. *)
Lemma show_map_renders path symbol v m ks vs (ktext vtext : Z -> str) : 0 <= m_used m ->
  (forall c, step symbol v c = beans_show_map_iter vzero value_word m ks vs c) ->
  (forall i, i ∈ live_positions m -> renders path (IStep (FStep ks) (entry_at vzero m i).1) (ktext i) /\
    renders path (IStep (FStep vs) (map_show_value vzero value_word m i)) (vtext i)) ->
  renders path (IStep (FStep symbol) v) (lit "{" ++ join (lit ", ") ((fun i => ktext i ++ lit ": " ++ vtext i) <$> live_positions m) ++ lit "}").
Proof.
  intros Hu Hs Ht. set (entry_texts := fun i => [ktext i; lit ": "; vtext i]).
  assert (Hentry : forall i, i ∈ live_positions m -> Forall2 (renders path) (entry_items m ks vs i) (entry_texts i)).
  { intros i Hi. destruct (Ht i Hi) as [Hk Hv]. repeat (constructor; [done || apply renders_text|]). constructor. }
  assert (Hconcat : forall i, concat (entry_texts i) = ktext i ++ lit ": " ++ vtext i) by (intros i; cbn; by rewrite app_nil_r).
  assert (Hrest : forall ps, (forall i, i ∈ ps -> Forall2 (renders path) (entry_items m ks vs i) (entry_texts i)) ->
    Forall2 (renders path) (concat ((fun i => IText (lit ", ") :: entry_items m ks vs i) <$> ps)) (concat ((fun i => lit ", " :: entry_texts i) <$> ps)) /\
    concat (concat ((fun i => lit ", " :: entry_texts i) <$> ps)) = behind (lit ", ") ((fun i => ktext i ++ lit ": " ++ vtext i) <$> ps)).
  { induction ps as [|i ps IH]; intros Hps; [done|]. destruct (IH ltac:(intros j Hj; apply Hps; by right)) as [H1 H2]. cbn [fmap list_fmap concat]. split.
    - apply Forall2_app; [|exact H1]. constructor; [apply renders_text|]. apply Hps. by left.
    - rewrite concat_app, H2. cbn [concat]. rewrite Hconcat. unfold behind. cbn. by rewrite <-!app_assoc. }
  set (its := match live_positions m with [] => [] | i :: ps => entry_items m ks vs i ++ concat ((fun i => IText (lit ", ") :: entry_items m ks vs i) <$> ps) end).
  set (ts := match live_positions m with [] => [] | i :: ps => entry_texts i ++ concat ((fun i => lit ", " :: entry_texts i) <$> ps) end).
  assert (Hits : Forall2 (renders path) its ts /\ concat ts = join (lit ", ") ((fun i => ktext i ++ lit ": " ++ vtext i) <$> live_positions m)).
  { unfold its, ts. destruct (live_positions m) as [|i ps]; [done|]. destruct (Hrest ps ltac:(intros j Hj; apply Hentry; by right)) as [H1 H2]. split.
    - apply Forall2_app; [|exact H1]. apply Hentry. by left.
    - cbn [fmap list_fmap]. rewrite concat_app, H2, Hconcat, join_behind. done. }
  destruct Hits as [Hits Hcat]. rewrite <-Hcat. replace (lit "{" ++ concat ts ++ lit "}") with (lit "{" ++ concat (ts ++ [lit "}"])) by (rewrite concat_app; cbn; done).
  apply (renders_step path symbol v (its ++ [IText (lit "}")])).
  - intros c Hp c'. subst c'. rewrite Hs. destruct (map_iter_spec m ks vs c Hu) as (its' & Hi & Ho & Hp' & ->). rewrite Hi, Ho, Hp'. done.
  - apply Forall2_app; [done|]. constructor; [apply renders_text|constructor].
Qed.
End map.

(** *** Wide elements *)

Definition wide_items (data stride : Z) (elem_step : Z) (n : nat) : list BShowItem :=
  (fun i => IStep (FStep elem_step) (data + Z.of_nat i * stride)) <$> seq 0 n.

Lemma comma_snoc sep it its : comma_items sep (its ++ [it]) = comma_items sep its ++ (if decide (its = []) then [] else [IText sep]) ++ [it].
Proof.
  destruct its as [|u its]; [done|]. cbn [app]. rewrite !comma_behind. unfold behind_items. rewrite fmap_app, concat_app. done.
Qed.

Lemma push_wide_spec data stride sep e n : forall c, let c' := push_wide data stride sep e n c in
  s_items c' = comma_items sep (wide_items data stride e n) ++ s_items c /\ s_out c' = s_out c /\ s_path c' = s_path c.
Proof.
  induction n as [|n IH]; intros c; cbn [push_wide]; [done|]. cbv zeta. set (c1 := if 0 <? Z.of_nat n then _ else _). destruct (IH c1) as (Hi & Ho & Hp). rewrite Hi, Ho, Hp.
  unfold wide_items. rewrite seq_S, fmap_app. cbn [fmap list_fmap]. rewrite comma_snoc, <-app_assoc. cbn [Nat.add]. unfold c1. destruct n as [|n]; [done|].
  rewrite (proj2 (Z.ltb_lt _ _)) by lia. done.
Qed.

(** A list of wide elements is joined in full. *)
Lemma join_wide_correct l data sep e (text : nat -> str) :
  (forall i, (i < Z.to_nat (l_len l))%nat -> renders [] (IStep (FStep e) (data + Z.of_nat i * Z.abs (l_stride l))) (text i)) ->
  exists n, forall k, beans_list_join_wide step (n + k) l data sep e = Some (join sep (text <$> seq 0 (Z.to_nat (l_len l)))).
Proof.
  intros Ht. destruct (push_wide_spec data (Z.abs (l_stride l)) sep e (Z.to_nat (l_len l)) empty_show) as (Hi & Ho & Hp).
  assert (Hits : Forall2 (renders []) (wide_items data (Z.abs (l_stride l)) e (Z.to_nat (l_len l))) (text <$> seq 0 (Z.to_nat (l_len l)))).
  { apply Forall2_fmap, Forall_Forall2_diag, Forall_forall. intros i Hin. apply Ht. apply elem_of_seq in Hin. lia. }
  destruct (renders_commas [] sep _ _ Hits) as (ts & Hts & Hcat).
  destruct (renders_stack [] _ _ Hts _ [] Hi Hp) as (c' & (n & Hn) & Hi' & Ho' & _). exists n. intros k. unfold beans_list_join_wide, show_finish. rewrite Hn.
  destruct k as [|k]; cbn [drain]; rewrite Hi'; cbn [mbind option_bind]; by rewrite Ho', Ho, Hcat.
Qed.

(** A rendering from an empty context is the whole run's answer. *)
Lemma show_run_renders fn v text : renders [] (IStep (FStep fn) v) text -> exists n, forall k, beans_show_run step (n + k) fn v = Some text.
Proof.
  intros Hr. destruct (Hr (show_push (IStep (FStep fn) v) empty_show) [] eq_refl eq_refl) as (c' & (n & Hn) & Hi & Ho & _). exists n. intros k.
  unfold beans_show_run, show_finish. rewrite Hn. destruct k as [|k]; cbn [drain]; rewrite Hi; cbn [mbind option_bind]; by rewrite Ho.
Qed.
End drain.

(** ** Object graphs

    What a program renders: instances at addresses, each with the name of its
    class and its fields, a reference or something with a text of its own.
    [object_step] is the step the compiler emits for a class
    ([src/llvm_requests.b], the body built around [beans_show_enter]). *)

Inductive field : Type := FRef (v : Z) | FText (text : str).
Definition graph : Type := gmap Z (str * list (str * field)).

Definition field_item (symbol : Z) (f : field) : BShowItem :=
  match f with FRef v => IStep (FStep symbol) v | FText text => IText text end.

(** The fields are pushed last first: the value, its label, and a comma in
    front of all but the first. *)
Fixpoint push_fields (symbol : Z) (first : bool) (fs : list (str * field)) (c : BShowCtx) : BShowCtx :=
  match fs with
  | [] => c
  | (label, f) :: fs =>
      let c := push_fields symbol false fs c in
      let c := show_push (IText (label ++ lit ": ")) (show_push (field_item symbol f) c) in
      if first then c else show_push (IText (lit ", ")) c
  end.

Definition object_step (g : graph) (symbol v : Z) (c : BShowCtx) : BShowCtx :=
  let '(seen, c) := beans_show_enter v c in
  if seen then beans_show_append (lit "<cycle>") c
  else
    let c := beans_show_push_leave v c in
    match g !! v with
    | None => c
    | Some (name, []) => beans_show_append (name ++ lit " {}") c
    | Some (name, fs) => push_fields symbol true fs (beans_show_push_lit (lit " }") (beans_show_append (name ++ lit " { ") c))
    end.

(** The text of an instance below the instances of [path]: the recursive
    printer, cut where it would come back to one of them. *)
Fixpoint picture (k : nat) (g : graph) (path : list Z) (v : Z) : str :=
  if existsb (Z.eqb v) path then lit "<cycle>"
  else
    match k with
    | O => []
    | S k =>
        match g !! v with
        | None => []
        | Some (name, []) => name ++ lit " {}"
        | Some (name, fs) =>
            name ++ lit " { " ++ join (lit ", ") ((fun x => x.1 ++ lit ": " ++ match x.2 with FRef u => picture k g (path ++ [v]) u | FText text => text end) <$> fs)
              ++ lit " }"
        end
    end.

Definition references (g : graph) : Prop := forall v name fs label u, g !! v = Some (name, fs) -> (label, FRef u) ∈ fs -> is_Some (g !! u).

Section graph.
Context (g : graph) (symbol : Z) (Hg : references g).

Let step : Z -> Z -> BShowCtx -> BShowCtx := fun s => object_step g s.

Definition fields_items (first : bool) (fs : list (str * field)) : list BShowItem :=
  match fs with
  | [] => []
  | x :: fs => (if first then [] else [IText (lit ", ")]) ++ [IText (x.1 ++ lit ": "); field_item symbol x.2] ++
      concat ((fun x => [IText (lit ", "); IText (x.1 ++ lit ": "); field_item symbol x.2]) <$> fs)
  end.

Lemma push_fields_spec fs : forall first c, let c' := push_fields symbol first fs c in
  s_items c' = fields_items first fs ++ s_items c /\ s_out c' = s_out c /\ s_path c' = s_path c.
Proof.
  induction fs as [|[label f] fs IH]; intros first c; [done|]. cbn [push_fields]. cbv zeta. destruct (IH false c) as (Hi & Ho & Hp). revert Hi Ho Hp.
  generalize (push_fields symbol false fs c). intros c1 Hi Ho Hp.
  assert (Hrest : fields_items false fs = concat ((fun x => [IText (lit ", "); IText (x.1 ++ lit ": "); field_item symbol x.2]) <$> fs)) by (by destruct fs).
  rewrite Hrest in Hi. destruct first; cbn [s_items show_push set_items s_out s_path]; rewrite Hi, Ho, Hp; done.
Qed.

Lemma fields_render path fs (text : field -> str) : fs <> [] -> (forall x, x ∈ fs -> renders step path (field_item symbol x.2) (text x.2)) ->
  exists ts, Forall2 (renders step path) (fields_items true fs) ts /\ concat ts = join (lit ", ") ((fun x => x.1 ++ lit ": " ++ text x.2) <$> fs).
Proof.
  intros Hne Hfs. destruct fs as [|x fs]; [done|]. clear Hne.
  assert (Hrest : forall fs, (forall x, x ∈ fs -> renders step path (field_item symbol x.2) (text x.2)) -> exists ts,
    Forall2 (renders step path) (concat ((fun x => [IText (lit ", "); IText (x.1 ++ lit ": "); field_item symbol x.2]) <$> fs)) ts /\
    concat ts = behind (lit ", ") ((fun x => x.1 ++ lit ": " ++ text x.2) <$> fs)).
  { clear fs Hfs. induction fs as [|y fs IH]; intros Hfs; [by exists []|]. destruct (IH ltac:(intros z Hz; apply Hfs; by right)) as (ts & H1 & H2).
    exists (lit ", " :: (y.1 ++ lit ": ") :: text y.2 :: ts). split.
    - cbn [fmap list_fmap concat app]. constructor; [apply renders_text|]. constructor; [apply renders_text|]. constructor; [apply Hfs; by left|done].
    - cbn [concat]. rewrite H2. unfold behind. cbn [fmap list_fmap concat]. by rewrite <-!app_assoc. }
  destruct (Hrest fs ltac:(intros z Hz; apply Hfs; by right)) as (ts & H1 & H2). exists ((x.1 ++ lit ": ") :: text x.2 :: ts). split.
  - cbn [fields_items app]. constructor; [apply renders_text|]. constructor; [apply Hfs; by left|done].
  - cbn [fmap list_fmap concat]. rewrite join_behind, H2. by rewrite <-!app_assoc.
Qed.

(** Below an instance that was entered, the text and the leave item bring the
    path back. *)
Lemma leave_reaches path v c items : s_items c = IStep FLeave v :: items -> s_path c = path ++ [v] -> reaches step c items (s_out c) path.
Proof.
  intros Hi Hp. eexists. split; [by apply runs_item|]. cbn [run_item]. unfold show_leave_step. cbn [s_path set_items]. rewrite Hp, length_app. cbn [length].
  rewrite (proj2 (Z.ltb_lt _ _)) by lia. cbn [s_items s_out s_path set_path set_items]. split_and!; [done|done|].
  apply take_app_length'. lia.
Qed.

Lemma reaches_trans c1 c2 items out path items' out' path' : reaches step c1 items out path ->
  (forall c, s_items c = items -> s_out c = out -> s_path c = path -> reaches step c items' out' path') -> c2 = c1 -> reaches step c2 items' out' path'.
Proof.
  intros (c & Hr & Hi & Ho & Hp) Hnext ->. destruct (Hnext c Hi Ho Hp) as (c' & Hr' & H). exists c'. split; [by apply (runs_trans _ _ c)|done].
Qed.

Lemma path_member path v : existsb (Z.eqb v) path = true <-> v ∈ path.
Proof. rewrite existsb_exists. split; [intros (x & Hx & ->%Z.eqb_eq); by apply list_elem_of_In|intros Hx; exists v; split; [by apply list_elem_of_In|apply Z.eqb_refl]]. Qed.

Lemma path_room path v : NoDup path -> (forall x, x ∈ path -> is_Some (g !! x)) -> is_Some (g !! v) -> v ∉ path -> (length path < size g)%nat.
Proof.
  intros Hd Hin Hv Hn. assert (Hs : path ++ [v] ⊆+ (map_to_list g).*1).
  { apply NoDup_submseteq; [apply NoDup_app; split; [done|split; [|apply NoDup_singleton]]; by intros x Hx ->%list_elem_of_singleton|].
    intros x Hx. assert (Hg' : is_Some (g !! x)) by (apply elem_of_app in Hx as [Hx|Hx]; [by apply Hin|by apply list_elem_of_singleton in Hx as ->]).
    destruct Hg' as [y Hy]. apply list_elem_of_fmap. exists (x, y). split; [done|by apply elem_of_map_to_list]. }
  apply submseteq_length in Hs. rewrite length_fmap, length_app in Hs. pose proof (length_map_to_list (M:=gmap Z) g). cbn in Hs. unfold graph in *. lia.
Qed.

Lemma object_renders k : forall path v, NoDup path -> (forall x, x ∈ path -> is_Some (g !! x)) -> is_Some (g !! v) -> (size g <= k + length path)%nat ->
  renders step path (IStep (FStep symbol) v) (picture k g path v).
Proof.
  induction k as [|k IH]; intros path v Hd Hin Hv Hk c items Hi Hp.
  all: set (c0 := set_items items (s_cap c) c); assert (Hrun : runs step c (object_step g symbol v c0)) by (exact (runs_item step _ _ c Hi)).
  all: unfold object_step, beans_show_enter in Hrun; change (s_path c0) with (s_path c) in Hrun; rewrite Hp in Hrun; cbn [picture].
  all: destruct (existsb (Z.eqb v) path) eqn:Hmem; [eexists; split; [exact Hrun|]; by split_and!|].
  all: assert (Hnot : v ∉ path) by (intros Hin'; apply path_member in Hin'; congruence); pose proof (path_room path v Hd Hin Hv Hnot) as Hroom.
  { lia. }
  destruct Hv as [[name fs] Hv]. rewrite Hv in Hrun |- *. set (c1 := beans_show_push_leave v _) in Hrun.
  assert (Hc1 : s_items c1 = IStep FLeave v :: items /\ s_out c1 = s_out c /\ s_path c1 = path ++ [v]) by done. destruct Hc1 as (Hi1 & Ho1 & Hp1).
  destruct fs as [|x fs].
  - destruct (leave_reaches path v (beans_show_append (name ++ lit " {}") c1) items Hi1 Hp1) as (c2 & Hr2 & Hi2 & Ho2 & Hp2).
    exists c2. split; [by apply (runs_trans _ _ (beans_show_append (name ++ lit " {}") c1))|]. split_and!; [done| |done]. rewrite Ho2. change (s_out (beans_show_append (name ++ lit " {}") c1)) with (s_out c1 ++ (name ++ lit " {}")). by rewrite Ho1.
  - set (fs' := x :: fs) in *. set (c2 := beans_show_push_lit (lit " }") (beans_show_append (name ++ lit " { ") c1)) in Hrun.
    assert (Hc2 : s_items c2 = IText (lit " }") :: IStep FLeave v :: items /\ s_out c2 = s_out c ++ name ++ lit " { " /\ s_path c2 = path ++ [v]).
    { unfold c2. clearbody c1. cbn. by rewrite Hi1, Ho1, Hp1. } destruct Hc2 as (Hi2 & Ho2 & Hp2).
    destruct (push_fields_spec fs' true c2) as (Hi3 & Ho3 & Hp3). set (c3 := push_fields symbol true fs' c2) in *.
    set (text := fun f => match f with FRef u => picture k g (path ++ [v]) u | FText text => text end).
    destruct (fields_render (path ++ [v]) fs' text) as (ts & Hts & Hcat); [done| |].
    { intros [label f] Hx. cbn [snd]. destruct f as [u|t]; cbn [field_item text]; [|apply renders_text]. apply IH.
      - apply NoDup_app. split; [done|]. split; [by intros y Hy ->%list_elem_of_singleton|apply NoDup_singleton].
      - intros y [Hy|Hy]%elem_of_app; [by apply Hin|]. apply list_elem_of_singleton in Hy as ->. by eexists.
      - by apply (Hg v name fs' label).
      - rewrite length_app. cbn. lia. }
    assert (Hall : Forall2 (renders step (path ++ [v])) (fields_items true fs' ++ [IText (lit " }")]) (ts ++ [lit " }"])).
    { apply Forall2_app; [done|]. constructor; [apply renders_text|constructor]. }
    destruct (renders_stack step (path ++ [v]) _ _ Hall c3 (IStep FLeave v :: items)) as (c4 & Hr4 & Hi4 & Ho4 & Hp4); [by rewrite Hi3, Hi2, <-app_assoc|by rewrite Hp3|].
    destruct (leave_reaches path v c4 items Hi4 Hp4) as (c5 & Hr5 & Hi5 & Ho5 & Hp5). exists c5. split; [|split_and!; [done| |done]].
    + apply (runs_trans _ _ c3); [exact Hrun|]. by apply (runs_trans _ _ c4).
    + rewrite Ho5, Ho4, Ho3, Ho2, concat_app, Hcat. cbn [concat]. rewrite app_nil_r. unfold fs'. by rewrite <-!app_assoc.
Qed.

(** C27: rendering an object graph ends, cycles and sharing included, without
    recursion: with enough turns the driver answers the text of the recursive
    printer, in which an instance met again below itself is a cycle mark and
    one met again beside itself is printed again. *)
Theorem show_graph_correct v : is_Some (g !! v) -> exists n, forall k, beans_show_run (fun s => object_step g s) (n + k) symbol v = Some (picture (size g) g [] v).
Proof.
  intros Hv. apply show_run_renders. apply object_renders; [constructor|by intros x ?%elem_of_nil|done|cbn; lia].
Qed.
End graph.

(** A list node that points back at its head. *)
Definition ring : graph :=
  {[16 := (lit "Node", [(lit "value", FText (lit "1")); (lit "next", FRef 32)]); 32 := (lit "Node", [(lit "next", FRef 16); (lit "same", FRef 48)]); 48 := (lit "Leaf", [])]}.

Lemma ring_references : references ring.
Proof.
  intros v name fs label u Hv Hu. unfold ring in Hv.
  apply lookup_insert_Some in Hv as [[<- [= <- <-]]|[_ Hv]]; [|apply lookup_insert_Some in Hv as [[<- [= <- <-]]|[_ Hv]]; [|apply lookup_singleton_Some in Hv as [<- [= <- <-]]]].
  - repeat (apply elem_of_cons in Hu as [[= -> ->]|Hu]); [by eexists; vm_compute|by apply elem_of_nil in Hu].
  - repeat (apply elem_of_cons in Hu as [[= -> ->]|Hu]); [by eexists; vm_compute|by eexists; vm_compute|by apply elem_of_nil in Hu].
  - by apply elem_of_nil in Hu.
Qed.

Example ring_text : beans_show_run (fun s => object_step ring s) 40 1 16 = Some (lit "Node { value: 1, next: Node { next: <cycle>, same: Leaf {} } }").
Proof. vm_compute. reflexivity. Qed.

Lemma show_graph_correct_witness : exists n, forall k, beans_show_run (fun s => object_step ring s) (n + k) 1 16 = Some (picture (size ring) ring [] 16).
Proof. apply (show_graph_correct ring 1 ring_references 16). eexists. vm_compute. reflexivity. Defined.
