(* ===== verification/Width.v ===== *)
(** * Width: how many terminal columns a string takes

    [runtime/beans_rt.c], the display-width section: the tables of zero-width,
    wide and pictographic scalars, their binary search, the decoder of one
    UTF-8 scalar, and the walk that adds the columns up, with its rules for
    joiners, variation selectors and regional indicators.

    The tables are the source's, generated there from the Unicode data; that
    data is not part of the repository.  A string is read from its current
    place on.  [None] is a read outside a table or a loop that does not end. *)

From S2P Require Import Prelude Str StrProofs JsonScan JsonText.

Open Scope c_scope.

(** ** Tables *)

Definition width_zero_ranges : list (Z * Z) :=
  [(0x0, 0x1F); (0x7F, 0x9F); (0x300, 0x36F); (0x483, 0x489); (0x591, 0x5BD); (0x5BF, 0x5BF); (0x5C1, 0x5C2);
   (0x5C4, 0x5C5); (0x5C7, 0x5C7); (0x600, 0x605); (0x610, 0x61A); (0x61C, 0x61C); (0x64B, 0x65F); (0x670, 0x670);
   (0x6D6, 0x6DD); (0x6DF, 0x6E4); (0x6E7, 0x6E8); (0x6EA, 0x6ED); (0x70F, 0x70F); (0x711, 0x711); (0x730, 0x74A);
   (0x7A6, 0x7B0); (0x7EB, 0x7F3); (0x7FD, 0x7FD); (0x816, 0x819); (0x81B, 0x823); (0x825, 0x827); (0x829, 0x82D);
   (0x859, 0x85B); (0x890, 0x891); (0x897, 0x89F); (0x8CA, 0x902); (0x93A, 0x93A); (0x93C, 0x93C); (0x941, 0x948);
   (0x94D, 0x94D); (0x951, 0x957); (0x962, 0x963); (0x981, 0x981); (0x9BC, 0x9BC); (0x9C1, 0x9C4); (0x9CD, 0x9CD);
   (0x9E2, 0x9E3); (0x9FE, 0x9FE); (0xA01, 0xA02); (0xA3C, 0xA3C); (0xA41, 0xA42); (0xA47, 0xA48); (0xA4B, 0xA4D);
   (0xA51, 0xA51); (0xA70, 0xA71); (0xA75, 0xA75); (0xA81, 0xA82); (0xABC, 0xABC); (0xAC1, 0xAC5); (0xAC7, 0xAC8);
   (0xACD, 0xACD); (0xAE2, 0xAE3); (0xAFA, 0xAFF); (0xB01, 0xB01); (0xB3C, 0xB3C); (0xB3F, 0xB3F); (0xB41, 0xB44);
   (0xB4D, 0xB4D); (0xB55, 0xB56); (0xB62, 0xB63); (0xB82, 0xB82); (0xBC0, 0xBC0); (0xBCD, 0xBCD); (0xC00, 0xC00);
   (0xC04, 0xC04); (0xC3C, 0xC3C); (0xC3E, 0xC40); (0xC46, 0xC48); (0xC4A, 0xC4D); (0xC55, 0xC56); (0xC62, 0xC63);
   (0xC81, 0xC81); (0xCBC, 0xCBC); (0xCBF, 0xCBF); (0xCC6, 0xCC6); (0xCCC, 0xCCD); (0xCE2, 0xCE3); (0xD00, 0xD01);
   (0xD3B, 0xD3C); (0xD41, 0xD44); (0xD4D, 0xD4D); (0xD62, 0xD63); (0xD81, 0xD81); (0xDCA, 0xDCA); (0xDD2, 0xDD4);
   (0xDD6, 0xDD6); (0xE31, 0xE31); (0xE34, 0xE3A); (0xE47, 0xE4E); (0xEB1, 0xEB1); (0xEB4, 0xEBC); (0xEC8, 0xECE);
   (0xF18, 0xF19); (0xF35, 0xF35); (0xF37, 0xF37); (0xF39, 0xF39); (0xF71, 0xF7E); (0xF80, 0xF84); (0xF86, 0xF87);
   (0xF8D, 0xF97); (0xF99, 0xFBC); (0xFC6, 0xFC6); (0x102D, 0x1030); (0x1032, 0x1037); (0x1039, 0x103A);
   (0x103D, 0x103E); (0x1058, 0x1059); (0x105E, 0x1060); (0x1071, 0x1074); (0x1082, 0x1082); (0x1085, 0x1086);
   (0x108D, 0x108D); (0x109D, 0x109D); (0x1160, 0x11FF); (0x135D, 0x135F); (0x1712, 0x1714); (0x1732, 0x1733);
   (0x1752, 0x1753); (0x1772, 0x1773); (0x17B4, 0x17B5); (0x17B7, 0x17BD); (0x17C6, 0x17C6); (0x17C9, 0x17D3);
   (0x17DD, 0x17DD); (0x180B, 0x180F); (0x1885, 0x1886); (0x18A9, 0x18A9); (0x1920, 0x1922); (0x1927, 0x1928);
   (0x1932, 0x1932); (0x1939, 0x193B); (0x1A17, 0x1A18); (0x1A1B, 0x1A1B); (0x1A56, 0x1A56); (0x1A58, 0x1A5E);
   (0x1A60, 0x1A60); (0x1A62, 0x1A62); (0x1A65, 0x1A6C); (0x1A73, 0x1A7C); (0x1A7F, 0x1A7F); (0x1AB0, 0x1ADD);
   (0x1AE0, 0x1AEB); (0x1B00, 0x1B03); (0x1B34, 0x1B34); (0x1B36, 0x1B3A); (0x1B3C, 0x1B3C); (0x1B42, 0x1B42);
   (0x1B6B, 0x1B73); (0x1B80, 0x1B81); (0x1BA2, 0x1BA5); (0x1BA8, 0x1BA9); (0x1BAB, 0x1BAD); (0x1BE6, 0x1BE6);
   (0x1BE8, 0x1BE9); (0x1BED, 0x1BED); (0x1BEF, 0x1BF1); (0x1C2C, 0x1C33); (0x1C36, 0x1C37); (0x1CD0, 0x1CD2);
   (0x1CD4, 0x1CE0); (0x1CE2, 0x1CE8); (0x1CED, 0x1CED); (0x1CF4, 0x1CF4); (0x1CF8, 0x1CF9); (0x1DC0, 0x1DFF);
   (0x200B, 0x200F); (0x202A, 0x202E); (0x2060, 0x2064); (0x2066, 0x206F); (0x20D0, 0x20F0); (0x2CEF, 0x2CF1);
   (0x2D7F, 0x2D7F); (0x2DE0, 0x2DFF); (0x302A, 0x302D); (0x3099, 0x309A); (0xA66F, 0xA672); (0xA674, 0xA67D);
   (0xA69E, 0xA69F); (0xA6F0, 0xA6F1); (0xA802, 0xA802); (0xA806, 0xA806); (0xA80B, 0xA80B); (0xA825, 0xA826);
   (0xA82C, 0xA82C); (0xA8C4, 0xA8C5); (0xA8E0, 0xA8F1); (0xA8FF, 0xA8FF); (0xA926, 0xA92D); (0xA947, 0xA951);
   (0xA980, 0xA982); (0xA9B3, 0xA9B3); (0xA9B6, 0xA9B9); (0xA9BC, 0xA9BD); (0xA9E5, 0xA9E5); (0xAA29, 0xAA2E);
   (0xAA31, 0xAA32); (0xAA35, 0xAA36); (0xAA43, 0xAA43); (0xAA4C, 0xAA4C); (0xAA7C, 0xAA7C); (0xAAB0, 0xAAB0);
   (0xAAB2, 0xAAB4); (0xAAB7, 0xAAB8); (0xAABE, 0xAABF); (0xAAC1, 0xAAC1); (0xAAEC, 0xAAED); (0xAAF6, 0xAAF6);
   (0xABE5, 0xABE5); (0xABE8, 0xABE8); (0xABED, 0xABED); (0xD7B0, 0xD7C6); (0xD7CB, 0xD7FB); (0xFB1E, 0xFB1E);
   (0xFE00, 0xFE0F); (0xFE20, 0xFE2F); (0xFEFF, 0xFEFF); (0xFFF9, 0xFFFB); (0x101FD, 0x101FD); (0x102E0, 0x102E0);
   (0x10376, 0x1037A); (0x10A01, 0x10A03); (0x10A05, 0x10A06); (0x10A0C, 0x10A0F); (0x10A38, 0x10A3A);
   (0x10A3F, 0x10A3F); (0x10AE5, 0x10AE6); (0x10D24, 0x10D27); (0x10D69, 0x10D6D); (0x10EAB, 0x10EAC);
   (0x10EFA, 0x10EFF); (0x10F46, 0x10F50); (0x10F82, 0x10F85); (0x11001, 0x11001); (0x11038, 0x11046);
   (0x11070, 0x11070); (0x11073, 0x11074); (0x1107F, 0x11081); (0x110B3, 0x110B6); (0x110B9, 0x110BA);
   (0x110BD, 0x110BD); (0x110C2, 0x110C2); (0x110CD, 0x110CD); (0x11100, 0x11102); (0x11127, 0x1112B);
   (0x1112D, 0x11134); (0x11173, 0x11173); (0x11180, 0x11181); (0x111B6, 0x111BE); (0x111C9, 0x111CC);
   (0x111CF, 0x111CF); (0x1122F, 0x11231); (0x11234, 0x11234); (0x11236, 0x11237); (0x1123E, 0x1123E);
   (0x11241, 0x11241); (0x112DF, 0x112DF); (0x112E3, 0x112EA); (0x11300, 0x11301); (0x1133B, 0x1133C);
   (0x11340, 0x11340); (0x11366, 0x1136C); (0x11370, 0x11374); (0x113BB, 0x113C0); (0x113CE, 0x113CE);
   (0x113D0, 0x113D0); (0x113D2, 0x113D2); (0x113E1, 0x113E2); (0x11438, 0x1143F); (0x11442, 0x11444);
   (0x11446, 0x11446); (0x1145E, 0x1145E); (0x114B3, 0x114B8); (0x114BA, 0x114BA); (0x114BF, 0x114C0);
   (0x114C2, 0x114C3); (0x115B2, 0x115B5); (0x115BC, 0x115BD); (0x115BF, 0x115C0); (0x115DC, 0x115DD);
   (0x11633, 0x1163A); (0x1163D, 0x1163D); (0x1163F, 0x11640); (0x116AB, 0x116AB); (0x116AD, 0x116AD);
   (0x116B0, 0x116B5); (0x116B7, 0x116B7); (0x1171D, 0x1171D); (0x1171F, 0x1171F); (0x11722, 0x11725);
   (0x11727, 0x1172B); (0x1182F, 0x11837); (0x11839, 0x1183A); (0x1193B, 0x1193C); (0x1193E, 0x1193E);
   (0x11943, 0x11943); (0x119D4, 0x119D7); (0x119DA, 0x119DB); (0x119E0, 0x119E0); (0x11A01, 0x11A0A);
   (0x11A33, 0x11A38); (0x11A3B, 0x11A3E); (0x11A47, 0x11A47); (0x11A51, 0x11A56); (0x11A59, 0x11A5B);
   (0x11A8A, 0x11A96); (0x11A98, 0x11A99); (0x11B60, 0x11B60); (0x11B62, 0x11B64); (0x11B66, 0x11B66);
   (0x11C30, 0x11C36); (0x11C38, 0x11C3D); (0x11C3F, 0x11C3F); (0x11C92, 0x11CA7); (0x11CAA, 0x11CB0);
   (0x11CB2, 0x11CB3); (0x11CB5, 0x11CB6); (0x11D31, 0x11D36); (0x11D3A, 0x11D3A); (0x11D3C, 0x11D3D);
   (0x11D3F, 0x11D45); (0x11D47, 0x11D47); (0x11D90, 0x11D91); (0x11D95, 0x11D95); (0x11D97, 0x11D97);
   (0x11EF3, 0x11EF4); (0x11F00, 0x11F01); (0x11F36, 0x11F3A); (0x11F40, 0x11F40); (0x11F42, 0x11F42);
   (0x11F5A, 0x11F5A); (0x13430, 0x13440); (0x13447, 0x13455); (0x1611E, 0x16129); (0x1612D, 0x1612F);
   (0x16AF0, 0x16AF4); (0x16B30, 0x16B36); (0x16D63, 0x16D63); (0x16D67, 0x16D6A); (0x16F4F, 0x16F4F);
   (0x16F8F, 0x16F92); (0x16FE4, 0x16FE4); (0x1BC9D, 0x1BC9E); (0x1BCA0, 0x1BCA3); (0x1CF00, 0x1CF2D);
   (0x1CF30, 0x1CF46); (0x1D167, 0x1D169); (0x1D173, 0x1D182); (0x1D185, 0x1D18B); (0x1D1AA, 0x1D1AD);
   (0x1D242, 0x1D244); (0x1DA00, 0x1DA36); (0x1DA3B, 0x1DA6C); (0x1DA75, 0x1DA75); (0x1DA84, 0x1DA84);
   (0x1DA9B, 0x1DA9F); (0x1DAA1, 0x1DAAF); (0x1E000, 0x1E006); (0x1E008, 0x1E018); (0x1E01B, 0x1E021);
   (0x1E023, 0x1E024); (0x1E026, 0x1E02A); (0x1E08F, 0x1E08F); (0x1E130, 0x1E136); (0x1E2AE, 0x1E2AE);
   (0x1E2EC, 0x1E2EF); (0x1E4EC, 0x1E4EF); (0x1E5EE, 0x1E5EF); (0x1E6E3, 0x1E6E3); (0x1E6E6, 0x1E6E6);
   (0x1E6EE, 0x1E6EF); (0x1E6F5, 0x1E6F5); (0x1E8D0, 0x1E8D6); (0x1E944, 0x1E94A); (0x1F3FB, 0x1F3FF);
   (0xE0001, 0xE0001); (0xE0020, 0xE007F); (0xE0100, 0xE01EF)].

Definition width_wide_ranges : list (Z * Z) :=
  [(0x1100, 0x115F); (0x231A, 0x231B); (0x2329, 0x232A); (0x23E9, 0x23EC); (0x23F0, 0x23F0); (0x23F3, 0x23F3);
   (0x25FD, 0x25FE); (0x2614, 0x2615); (0x2630, 0x2637); (0x2648, 0x2653); (0x267F, 0x267F); (0x268A, 0x268F);
   (0x2693, 0x2693); (0x26A1, 0x26A1); (0x26AA, 0x26AB); (0x26BD, 0x26BE); (0x26C4, 0x26C5); (0x26CE, 0x26CE);
   (0x26D4, 0x26D4); (0x26EA, 0x26EA); (0x26F2, 0x26F3); (0x26F5, 0x26F5); (0x26FA, 0x26FA); (0x26FD, 0x26FD);
   (0x2705, 0x2705); (0x270A, 0x270B); (0x2728, 0x2728); (0x274C, 0x274C); (0x274E, 0x274E); (0x2753, 0x2755);
   (0x2757, 0x2757); (0x2795, 0x2797); (0x27B0, 0x27B0); (0x27BF, 0x27BF); (0x2B1B, 0x2B1C); (0x2B50, 0x2B50);
   (0x2B55, 0x2B55); (0x2E80, 0x2E99); (0x2E9B, 0x2EF3); (0x2F00, 0x2FD5); (0x2FF0, 0x3029); (0x302E, 0x303E);
   (0x3041, 0x3096); (0x309B, 0x30FF); (0x3105, 0x312F); (0x3131, 0x318E); (0x3190, 0x31E5); (0x31EF, 0x321E);
   (0x3220, 0x3247); (0x3250, 0xA48C); (0xA490, 0xA4C6); (0xA960, 0xA97C); (0xAC00, 0xD7A3); (0xF900, 0xFAFF);
   (0xFE10, 0xFE19); (0xFE30, 0xFE52); (0xFE54, 0xFE66); (0xFE68, 0xFE6B); (0xFF01, 0xFF60); (0xFFE0, 0xFFE6);
   (0x16FE0, 0x16FE3); (0x16FF0, 0x16FF6); (0x17000, 0x18CD5); (0x18CFF, 0x18D1E); (0x18D80, 0x18DF2);
   (0x1AFF0, 0x1AFF3); (0x1AFF5, 0x1AFFB); (0x1AFFD, 0x1AFFE); (0x1B000, 0x1B122); (0x1B132, 0x1B132);
   (0x1B150, 0x1B152); (0x1B155, 0x1B155); (0x1B164, 0x1B167); (0x1B170, 0x1B2FB); (0x1D300, 0x1D356);
   (0x1D360, 0x1D376); (0x1F004, 0x1F004); (0x1F0CF, 0x1F0CF); (0x1F18E, 0x1F18E); (0x1F191, 0x1F19A);
   (0x1F1E6, 0x1F202); (0x1F210, 0x1F23B); (0x1F240, 0x1F248); (0x1F250, 0x1F251); (0x1F260, 0x1F265);
   (0x1F300, 0x1F320); (0x1F32D, 0x1F335); (0x1F337, 0x1F37C); (0x1F37E, 0x1F393); (0x1F3A0, 0x1F3CA);
   (0x1F3CF, 0x1F3D3); (0x1F3E0, 0x1F3F0); (0x1F3F4, 0x1F3F4); (0x1F3F8, 0x1F3FA); (0x1F400, 0x1F43E);
   (0x1F440, 0x1F440); (0x1F442, 0x1F4FC); (0x1F4FF, 0x1F53D); (0x1F54B, 0x1F54E); (0x1F550, 0x1F567);
   (0x1F57A, 0x1F57A); (0x1F595, 0x1F596); (0x1F5A4, 0x1F5A4); (0x1F5FB, 0x1F64F); (0x1F680, 0x1F6C5);
   (0x1F6CC, 0x1F6CC); (0x1F6D0, 0x1F6D2); (0x1F6D5, 0x1F6D8); (0x1F6DC, 0x1F6DF); (0x1F6EB, 0x1F6EC);
   (0x1F6F4, 0x1F6FC); (0x1F7E0, 0x1F7EB); (0x1F7F0, 0x1F7F0); (0x1F90C, 0x1F93A); (0x1F93C, 0x1F945);
   (0x1F947, 0x1F9FF); (0x1FA70, 0x1FA7C); (0x1FA80, 0x1FA8A); (0x1FA8E, 0x1FAC6); (0x1FAC8, 0x1FAC8);
   (0x1FACD, 0x1FADC); (0x1FADF, 0x1FAEA); (0x1FAEF, 0x1FAF8); (0x20000, 0x2FFFD); (0x30000, 0x3FFFD)].

Definition width_pict_ranges : list (Z * Z) :=
  [(0xA9, 0xA9); (0xAE, 0xAE); (0x203C, 0x203C); (0x2049, 0x2049); (0x2122, 0x2122); (0x2139, 0x2139);
   (0x2194, 0x2199); (0x21A9, 0x21AA); (0x231A, 0x231B); (0x2328, 0x2328); (0x23CF, 0x23CF); (0x23E9, 0x23F3);
   (0x23F8, 0x23FA); (0x24C2, 0x24C2); (0x25AA, 0x25AB); (0x25B6, 0x25B6); (0x25C0, 0x25C0); (0x25FB, 0x25FE);
   (0x2600, 0x2604); (0x260E, 0x260E); (0x2611, 0x2611); (0x2614, 0x2615); (0x2618, 0x2618); (0x261D, 0x261D);
   (0x2620, 0x2620); (0x2622, 0x2623); (0x2626, 0x2626); (0x262A, 0x262A); (0x262E, 0x262F); (0x2638, 0x263A);
   (0x2640, 0x2640); (0x2642, 0x2642); (0x2648, 0x2653); (0x265F, 0x2660); (0x2663, 0x2663); (0x2665, 0x2666);
   (0x2668, 0x2668); (0x267B, 0x267B); (0x267E, 0x267F); (0x2692, 0x2697); (0x2699, 0x2699); (0x269B, 0x269C);
   (0x26A0, 0x26A1); (0x26A7, 0x26A7); (0x26AA, 0x26AB); (0x26B0, 0x26B1); (0x26BD, 0x26BE); (0x26C4, 0x26C5);
   (0x26C8, 0x26C8); (0x26CE, 0x26CF); (0x26D1, 0x26D1); (0x26D3, 0x26D4); (0x26E9, 0x26EA); (0x26F0, 0x26F5);
   (0x26F7, 0x26FA); (0x26FD, 0x26FD); (0x2702, 0x2702); (0x2705, 0x2705); (0x2708, 0x270D); (0x270F, 0x270F);
   (0x2712, 0x2712); (0x2714, 0x2714); (0x2716, 0x2716); (0x271D, 0x271D); (0x2721, 0x2721); (0x2728, 0x2728);
   (0x2733, 0x2734); (0x2744, 0x2744); (0x2747, 0x2747); (0x274C, 0x274C); (0x274E, 0x274E); (0x2753, 0x2755);
   (0x2757, 0x2757); (0x2763, 0x2764); (0x2795, 0x2797); (0x27A1, 0x27A1); (0x27B0, 0x27B0); (0x27BF, 0x27BF);
   (0x2934, 0x2935); (0x2B05, 0x2B07); (0x2B1B, 0x2B1C); (0x2B50, 0x2B50); (0x2B55, 0x2B55); (0x3030, 0x3030);
   (0x303D, 0x303D); (0x3297, 0x3297); (0x3299, 0x3299); (0x1F004, 0x1F004); (0x1F02C, 0x1F02F); (0x1F094, 0x1F09F);
   (0x1F0AF, 0x1F0B0); (0x1F0C0, 0x1F0C0); (0x1F0CF, 0x1F0D0); (0x1F0F6, 0x1F0FF); (0x1F170, 0x1F171);
   (0x1F17E, 0x1F17F); (0x1F18E, 0x1F18E); (0x1F191, 0x1F19A); (0x1F1AE, 0x1F1E5); (0x1F201, 0x1F20F);
   (0x1F21A, 0x1F21A); (0x1F22F, 0x1F22F); (0x1F232, 0x1F23A); (0x1F23C, 0x1F23F); (0x1F249, 0x1F25F);
   (0x1F266, 0x1F321); (0x1F324, 0x1F393); (0x1F396, 0x1F397); (0x1F399, 0x1F39B); (0x1F39E, 0x1F3F0);
   (0x1F3F3, 0x1F3F5); (0x1F3F7, 0x1F3FA); (0x1F400, 0x1F4FD); (0x1F4FF, 0x1F53D); (0x1F549, 0x1F54E);
   (0x1F550, 0x1F567); (0x1F56F, 0x1F570); (0x1F573, 0x1F57A); (0x1F587, 0x1F587); (0x1F58A, 0x1F58D);
   (0x1F590, 0x1F590); (0x1F595, 0x1F596); (0x1F5A4, 0x1F5A5); (0x1F5A8, 0x1F5A8); (0x1F5B1, 0x1F5B2);
   (0x1F5BC, 0x1F5BC); (0x1F5C2, 0x1F5C4); (0x1F5D1, 0x1F5D3); (0x1F5DC, 0x1F5DE); (0x1F5E1, 0x1F5E1);
   (0x1F5E3, 0x1F5E3); (0x1F5E8, 0x1F5E8); (0x1F5EF, 0x1F5EF); (0x1F5F3, 0x1F5F3); (0x1F5FA, 0x1F64F);
   (0x1F680, 0x1F6C5); (0x1F6CB, 0x1F6D2); (0x1F6D5, 0x1F6E5); (0x1F6E9, 0x1F6E9); (0x1F6EB, 0x1F6F0);
   (0x1F6F3, 0x1F6FF); (0x1F7DA, 0x1F7FF); (0x1F80C, 0x1F80F); (0x1F848, 0x1F84F); (0x1F85A, 0x1F85F);
   (0x1F888, 0x1F88F); (0x1F8AE, 0x1F8AF); (0x1F8BC, 0x1F8BF); (0x1F8C2, 0x1F8CF); (0x1F8D9, 0x1F8FF);
   (0x1F90C, 0x1F93A); (0x1F93C, 0x1F945); (0x1F947, 0x1F9FF); (0x1FA58, 0x1FA5F); (0x1FA6E, 0x1FAFF);
   (0x1FC00, 0x1FFFD)].

(** ** Ranges *)

(** [while (low <= high)]; [None] as a middle outside the table. *)
Fixpoint range_search (fuel : nat) (ranges : list (Z * Z)) (cp low high : Z) : option bool :=
  match fuel with
  | O => None
  | S fuel =>
      if high <? low then Some false
      else
        let mid := low + (high - low) / 2 in
        r ← (if mid <? 0 then None else ranges !! Z.to_nat mid);
        if cp <? r.1 then range_search fuel ranges cp low (mid - 1)
        else if r.2 <? cp then range_search fuel ranges cp (mid + 1) high
        else Some true
  end.
Definition RANGE_FUEL : nat := 12.

Definition width_in_ranges (ranges : list (Z * Z)) (cp : Z) : option bool :=
  range_search RANGE_FUEL ranges cp 0 (Z.of_nat (length ranges) - 1).

Definition width_of_scalar (cp : Z) : option Z :=
  if cp <? 0x80 then Some (if (cp <? 0x20) || (cp =? 0x7F) then 0 else 1)
  else
    zero ← width_in_ranges width_zero_ranges cp;
    if (zero : bool) then Some 0
    else wide ← width_in_ranges width_wide_ranges cp; Some (if (wide : bool) then 2 else 1).

(** ** One scalar *)

(** The continuation bytes [p[k], ...]: [None] when one is not. *)
Fixpoint width_cont (p : str) (n : nat) (k cp : Z) : option Z :=
  match n with
  | O => Some cp
  | S n =>
      let t := c_at p (Z.to_nat k) in
      if negb (t >>! 6 =? 0x2) then None else width_cont p n (k + 1) (u32 (Z.shiftl cp 6) |! (t &! 0x3F))
  end.

(** The length the lead byte announces, [0] for a byte that leads nothing. *)
Definition width_len (c : Z) : Z :=
  if c <? 0x80 then 1 else if c >>! 5 =? 0x6 then 2 else if c >>! 4 =? 0xE then 3 else if c >>! 3 =? 0x1E then 4 else 0.

(** The bytes spanned and the scalar, [None] for a malformed sequence. *)
Definition width_decode (p : str) : Z * option Z :=
  let n := slen p in
  let c := c_at p 0 in
  let len := width_len c in
  if len =? 1 then (1, Some c)
  else if (len =? 0) || (n <? len) then (1, None)
  else
    match width_cont p (Z.to_nat (len - 1)) 1 (c &! (0xFF >>! (len + 1))) with
    | None => (1, None)
    | Some cp =>
        if (0x10FFFF <? cp) || ((0xD800 <=? cp) && (cp <=? 0xDFFF)) || ((len =? 2) && (cp <? 0x80)) || ((len =? 3) && (cp <? 0x800)) ||
           ((len =? 4) && (cp <? 0x10000))
        then (1, None) else (len, Some cp)
    end.

(** ** The walk *)

Record width_state : Type := mkWidth { w_total : Z; w_joined : bool; w_regional : bool; w_prev_pict : bool; w_prev_width : Z }.
Definition width_start : width_state := mkWidth 0 false false false 0.

Definition width_step (scalar : option Z) (st : width_state) : option width_state :=
  match scalar with
  | None => Some (mkWidth (w_total st + 1) false false false 1)
  | Some cp =>
      if cp =? 0x200D then Some (mkWidth (w_total st) true false false (w_prev_width st))
      else if (cp =? 0xFE0F) || (cp =? 0xFE0E) then
        let wanted := if cp =? 0xFE0F then 2 else 1 in
        if w_prev_pict st && negb (w_prev_width st =? wanted) then
          Some (mkWidth (w_total st + (wanted - w_prev_width st)) false (w_regional st) false wanted)
        else Some (mkWidth (w_total st) false (w_regional st) false (w_prev_width st))
      else
        w ← width_of_scalar cp;
        let indicator := (0x1F1E6 <=? cp) && (cp <=? 0x1F1FF) in
        let regional := indicator && negb (w_regional st) in
        let w := if indicator && negb regional then 0 else w in
        let w := if w_joined st then 0 else w in
        pict ← width_in_ranges width_pict_ranges cp;
        Some (mkWidth (w_total st + w) false regional (negb (w =? 0) && pict) w)
  end.

Fixpoint width_loop (fuel : nat) (p : str) (st : width_state) : option Z :=
  match p with
  | [] => Some (w_total st)
  | _ =>
      match fuel with
      | O => None
      | S fuel =>
          let '(n, scalar) := width_decode p in
          st ← width_step scalar st; width_loop fuel (drop (Z.to_nat n) p) st
      end
  end.

Definition beans_width_utf8 (p : str) : option Z := width_loop (length p) p width_start.
Definition beans_str_width (s : str) : option Z := beans_width_utf8 s.

(** ** The search *)

(** Ranges in order, apart from each other. *)
Fixpoint in_order (l : list (Z * Z)) : bool :=
  match l with
  | [] => true
  | (a, b) :: l => (a <=? b) && match l with (c, _) :: _ => b <? c | [] => true end && in_order l
  end.

Lemma in_order_tail x l : in_order (x :: l) = true -> in_order l = true.
Proof. destruct x. cbn. intros Hi. bools. done. Qed.

Lemma in_order_head x l j r : in_order (x :: l) = true -> l !! j = Some r -> x.2 < r.1.
Proof.
  revert x j. induction l as [|y l IH]; intros x j Hi Hj; [done|]. assert (Hxy : x.1 <= x.2 /\ x.2 < y.1 /\ y.1 <= y.2).
  { destruct x, y. cbn in *. bools. lia. } destruct j as [|j]; [injection Hj as <-; lia|].
  pose proof (IH y j (in_order_tail _ _ Hi) Hj). lia.
Qed.

Lemma in_order_spec l : in_order l = true -> forall i j r s, l !! i = Some r -> l !! j = Some s -> r.1 <= r.2 /\ ((i < j)%nat -> r.2 < s.1).
Proof.
  induction l as [|x l IH]; intros Hi i j r s Hr Hs; [done|]. pose proof (in_order_tail _ _ Hi) as Hl. destruct i as [|i].
  - injection Hr as <-. split; [destruct x; cbn in Hi; bools; cbn; lia|]. destruct j as [|j]; [lia|]. intros _. by apply (in_order_head x l j).
  - destruct j as [|j]; [split; [by apply (IH Hl i i r r Hr Hr)|lia]|]. destruct (IH Hl i j r s Hr Hs) as [H1 H2]. split; [done|]. intros Hij. apply H2. lia.
Qed.

(** [cp] is in one of the ranges. *)
Definition covered (ranges : list (Z * Z)) (cp : Z) : Prop := exists r, r ∈ ranges /\ r.1 <= cp <= r.2.

Lemma range_search_S fuel ranges cp low high : range_search (S fuel) ranges cp low high =
  if high <? low then Some false
  else
    let mid := low + (high - low) / 2 in
    r ← (if mid <? 0 then None else ranges !! Z.to_nat mid);
    if cp <? r.1 then range_search fuel ranges cp low (mid - 1)
    else if r.2 <? cp then range_search fuel ranges cp (mid + 1) high
    else Some true.
Proof. done. Qed.

Lemma range_search_spec ranges cp : in_order ranges = true -> forall fuel low high,
  0 <= low -> high < Z.of_nat (length ranges) -> high - low + 1 < 2 ^ Z.of_nat fuel ->
  (forall i r, ranges !! i = Some r -> Z.of_nat i < low -> r.2 < cp) -> (forall i r, ranges !! i = Some r -> high < Z.of_nat i -> cp < r.1) ->
  exists b, range_search (S fuel) ranges cp low high = Some b /\ (b = true <-> covered ranges cp).
Proof.
  intros Ho. assert (Hnone : forall low high, high < low -> (forall i r, ranges !! i = Some r -> Z.of_nat i < low -> r.2 < cp) ->
    (forall i r, ranges !! i = Some r -> high < Z.of_nat i -> cp < r.1) -> ~ covered ranges cp).
  { intros low high Hlt Hlow Hhigh (r & [i Hi]%list_elem_of_lookup & Hr). destruct (Z.lt_ge_cases (Z.of_nat i) low) as [Hl|Hl];
      [specialize (Hlow i r Hi Hl)|specialize (Hhigh i r Hi ltac:(lia))]; lia. }
  induction fuel as [|fuel IH]; intros low high H0 H1 Hf Hlow Hhigh; rewrite range_search_S; cbv zeta; (destruct (Z.ltb_spec high low) as [Hlt|Hge];
    [exists false; split; [done|]; split; [done|]; intros Hc; by destruct (Hnone low high Hlt Hlow Hhigh)|]); [cbn in Hf; lia|].
  rewrite Nat2Z.inj_succ, Z.pow_succ_r in Hf by lia. set (mid := low + (high - low) / 2). assert (Hmid : low <= mid <= high) by (unfold mid; dlia).
  change (low + (high - low) / 2) with mid.
  rewrite (proj2 (Z.ltb_ge mid 0)) by lia. destruct (lookup_lt_is_Some_2 ranges (Z.to_nat mid)) as [r Hr]; [lia|]. rewrite Hr. cbn [mbind option_bind].
  destruct (Z.ltb_spec cp r.1) as [Hc|Hc]; [|destruct (Z.ltb_spec r.2 cp) as [Hc'|Hc']].
  - apply IH; [done|lia|unfold mid in *; dlia|done|]. intros i s Hs Hi. destruct (decide (i = Z.to_nat mid)) as [->|Hne]; [by assert (s = r) as -> by congruence; lia|].
    destruct (in_order_spec _ Ho (Z.to_nat mid) i r s Hr Hs) as [? Hrs]. specialize (Hrs ltac:(lia)). lia.
  - apply IH; [lia|done|unfold mid in *; dlia| |done]. intros i s Hs Hi. destruct (decide (i = Z.to_nat mid)) as [->|Hne]; [by assert (s = r) as -> by congruence|].
    destruct (in_order_spec _ Ho i (Z.to_nat mid) s r Hs Hr) as [? Hrs]. specialize (Hrs ltac:(lia)).
    destruct (in_order_spec _ Ho (Z.to_nat mid) (Z.to_nat mid) r r Hr Hr) as [? _]. lia.
  - exists true. split; [done|]. split; [|done]. intros _. exists r. split; [by eapply list_elem_of_lookup_2|lia].
Qed.

Lemma in_ranges_spec ranges cp : in_order ranges = true -> Z.of_nat (length ranges) < 2 ^ 11 ->
  exists b, width_in_ranges ranges cp = Some b /\ (b = true <-> covered ranges cp).
Proof.
  intros Ho Hl. apply (range_search_spec ranges cp Ho 11); [done|lia|change (2 ^ Z.of_nat 11) with (2 ^ 11); lia|lia|].
  intros i r Hi. apply lookup_lt_Some in Hi. lia.
Qed.

Lemma tables_in_order : in_order width_zero_ranges = true /\ in_order width_wide_ranges = true /\ in_order width_pict_ranges = true.
Proof. vm_compute. done. Qed.

(** The three tables are searched in full. *)
Lemma zero_spec cp : exists b, width_in_ranges width_zero_ranges cp = Some b /\ (b = true <-> covered width_zero_ranges cp).
Proof. apply in_ranges_spec; [apply tables_in_order|done]. Qed.

Lemma wide_spec cp : exists b, width_in_ranges width_wide_ranges cp = Some b /\ (b = true <-> covered width_wide_ranges cp).
Proof. apply in_ranges_spec; [apply tables_in_order|done]. Qed.

Lemma pict_spec cp : exists b, width_in_ranges width_pict_ranges cp = Some b /\ (b = true <-> covered width_pict_ranges cp).
Proof. apply in_ranges_spec; [apply tables_in_order|done]. Qed.

(** ** The decoder *)

Definition byte_range (a b c : Z) : bool := (a <=? c) && (c <=? b).

Lemma lead_all : forallb (fun c => (width_len c =? (if c <? 0x80 then 1 else if byte_range 0xC0 0xDF c then 2
    else if byte_range 0xE0 0xEF c then 3 else if byte_range 0xF0 0xF7 c then 4 else 0)) &&
  Bool.eqb (c >>! 6 =? 0x2) (byte_range 0x80 0xBF c) && (negb (byte_range 0x80 0xBF c) || (c &! 0x3F =? c - 0x80)) &&
  (negb (byte_range 0xC0 0xDF c) || (c &! (0xFF >>! 3) =? c - 0xC0)) && (negb (byte_range 0xE0 0xEF c) || (c &! (0xFF >>! 4) =? c - 0xE0)) &&
  (negb (byte_range 0xF0 0xF7 c) || (c &! (0xFF >>! 5) =? c - 0xF0))) (Z.of_nat <$> seq 0 256) = true.
Proof. vm_compute. reflexivity. Qed.

Lemma lead_spec c : is_u8 c ->
  width_len c = (if c <? 0x80 then 1 else if byte_range 0xC0 0xDF c then 2
    else if byte_range 0xE0 0xEF c then 3 else if byte_range 0xF0 0xF7 c then 4 else 0) /\
  (c >>! 6 =? 0x2) = byte_range 0x80 0xBF c /\ (byte_range 0x80 0xBF c = true -> c &! 0x3F = c - 0x80) /\
  (byte_range 0xC0 0xDF c = true -> c &! (0xFF >>! 3) = c - 0xC0) /\ (byte_range 0xE0 0xEF c = true -> c &! (0xFF >>! 4) = c - 0xE0) /\
  (byte_range 0xF0 0xF7 c = true -> c &! (0xFF >>! 5) = c - 0xF0).
Proof.
  intros Hc. pose proof (proj1 (forallb_forall _ _) lead_all c (byte_in c Hc)) as H. cbv beta in H.
  rewrite !andb_true_iff, !orb_true_iff, !negb_true_iff, !Z.eqb_eq in H. destruct H as [[[[[H1 H2] H3] H4] H5] H6].
  apply eqb_prop in H2. split_and!; [done|done|..]; intros He; [destruct H3|destruct H4|destruct H5|destruct H6]; congruence.
Qed.

Lemma width_cont_S p n k cp : bytes_ok p -> 0 <= cp < 2 ^ 20 -> let t := c_at p (Z.to_nat k) in
  width_cont p (S n) k cp = if byte_range 0x80 0xBF t then width_cont p n (k + 1) (cp * 64 + (t - 0x80)) else None.
Proof.
  intros Hp Hcp t. cbn [width_cont]. fold t. destruct (lead_spec t (c_at_u8 p _ Hp)) as (_ & -> & Ht & _).
  destruct (byte_range 0x80 0xBF t) eqn:Hr; [|done]. cbn [negb]. rewrite Ht by done. f_equal. unfold byte_range in Hr. bools.
  unfold u32. rewrite Z.shiftl_mul_pow2, Z.mod_small, Z.lor_comm, lor_add by lia. lia.
Qed.

Lemma refused_spec len cp : 0 <= cp ->
  (0x10FFFF <? cp) || ((0xD800 <=? cp) && (cp <=? 0xDFFF)) || ((len =? 2) && (cp <? 0x80)) || ((len =? 3) && (cp <? 0x800)) ||
    ((len =? 4) && (cp <? 0x10000)) = false <->
  scalar cp /\ (len = 2 -> 0x80 <= cp) /\ (len = 3 -> 0x800 <= cp) /\ (len = 4 -> 0x10000 <= cp).
Proof. intros Hc. unfold scalar. rewrite !orb_false_iff, !andb_false_iff, !Z.ltb_ge, !Z.leb_gt, !Z.eqb_neq. lia. Qed.

Lemma decode_eq p k : let len := Z.of_nat (S k) in width_len (c_at p 0) = len -> 2 <= len -> width_decode p =
  if slen p <? len then (1, None) else
  match width_cont p k 1 (c_at p 0 &! (0xFF >>! (len + 1))) with
  | None => (1, None)
  | Some cp =>
      if (0x10FFFF <? cp) || ((0xD800 <=? cp) && (cp <=? 0xDFFF)) || ((len =? 2) && (cp <? 0x80)) || ((len =? 3) && (cp <? 0x800)) ||
         ((len =? 4) && (cp <? 0x10000))
      then (1, None) else (len, Some cp)
  end.
Proof.
  intros len Hlen Hl. unfold width_decode. rewrite Hlen, (proj2 (Z.eqb_neq _ 1)), (proj2 (Z.eqb_neq _ 0)) by lia. cbv zeta. cbn [orb].
  by replace (Z.to_nat (len - 1)) with k by lia.
Qed.

(** What the decoder gives: a scalar's own bytes, or one bad byte. *)
Lemma decode_cases p : bytes_ok p -> p <> [] ->
  (exists cp, scalar cp /\ p = utf8 cp ++ drop (length (utf8 cp)) p /\ width_decode p = (slen (utf8 cp), Some cp)) \/ width_decode p = (1, None).
Proof.
  intros Hp Hne. assert (Hl : 1 <= slen p) by (unfold slen; destruct p; [done|cbn; lia]).
  assert (Hfin : forall cp k, scalar cp -> Z.of_nat k <= slen p -> c_at p <$> seq 0 k = utf8 cp -> width_decode p = (Z.of_nat k, Some cp) ->
    exists cp, scalar cp /\ p = utf8 cp ++ drop (length (utf8 cp)) p /\ width_decode p = (slen (utf8 cp), Some cp)).
  { intros cp k Hs Hk Hu Hd. assert (Hlen : length (utf8 cp) = k) by (rewrite <-Hu, length_fmap, length_seq; done). exists cp.
    unfold slen in *. rewrite Hlen, <-Hu. split_and!; [done|by apply src_split; lia|done]. }
  destruct (lead_spec (c_at p 0) (c_at_u8 p 0 Hp)) as (Hlen & _ & _ & L2 & L3 & L4). pose proof (c_at_u8 p 0 Hp).
  pose proof (c_at_u8 p 1 Hp). pose proof (c_at_u8 p 2 Hp). pose proof (c_at_u8 p 3 Hp). unfold is_u8 in *.
  destruct (Z.ltb_spec (c_at p 0) 0x80) as [Ha|Ha].
  { left. apply (Hfin (c_at p 0) 1%nat); [unfold scalar; lia|done| |unfold width_decode; by rewrite Hlen]. unfold utf8.
    by rewrite (proj2 (Z.ltb_lt _ _)). }
  destruct (byte_range 0xC0 0xDF (c_at p 0)) eqn:R2; [|destruct (byte_range 0xE0 0xEF (c_at p 0)) eqn:R3;
    [|destruct (byte_range 0xF0 0xF7 (c_at p 0)) eqn:R4; [|right; unfold width_decode; by rewrite Hlen]]].
  - rewrite (decode_eq p 1 Hlen) in * by done. change (Z.of_nat 2) with 2 in *. destruct (Z.ltb_spec (slen p) 2); [by right|].
    change (2 + 1) with 3 in *. unfold byte_range in R2. bools. rewrite L2, width_cont_S in * by (done || lia).
    change (Z.to_nat 1) with 1%nat in *. cbn [width_cont] in *.
    destruct (byte_range 0x80 0xBF (c_at p 1)) eqn:R1; [|by right]. unfold byte_range in R1. bools.
    destruct (_ || _) eqn:Hb; [by right|]. left. apply refused_spec in Hb as (Hs & Hb & _); [|lia]. specialize (Hb eq_refl).
    apply (Hfin _ 2%nat Hs); [done| |done]. cbn [seq fmap list_fmap]. unfold utf8.
    rewrite (proj2 (Z.ltb_ge _ _)), (proj2 (Z.ltb_lt _ _)) by lia. repeat f_equal; dlia.
  - rewrite (decode_eq p 2 Hlen) in * by done. change (Z.of_nat 3) with 3 in *. destruct (Z.ltb_spec (slen p) 3); [by right|].
    change (3 + 1) with 4 in *. unfold byte_range in R3. bools. rewrite L3, width_cont_S in * by (done || lia).
    change (Z.to_nat 1) with 1%nat in *. change (1 + 1) with 2 in *.
    destruct (byte_range 0x80 0xBF (c_at p 1)) eqn:R1; [|by right]. unfold byte_range in R1. bools. rewrite width_cont_S in * by (done || lia).
    change (Z.to_nat 2) with 2%nat in *. cbn [width_cont] in *.
    destruct (byte_range 0x80 0xBF (c_at p 2)) eqn:R1; [|by right]. unfold byte_range in R1. bools.
    destruct (_ || _) eqn:Hb; [by right|]. left. apply refused_spec in Hb as (Hs & _ & Hb & _); [|lia]. specialize (Hb eq_refl).
    apply (Hfin _ 3%nat Hs); [done| |done]. cbn [seq fmap list_fmap]. unfold utf8.
    rewrite !(proj2 (Z.ltb_ge _ _)), (proj2 (Z.ltb_lt _ _)) by lia. repeat f_equal; dlia.
  - rewrite (decode_eq p 3 Hlen) in * by done. change (Z.of_nat 4) with 4 in *. destruct (Z.ltb_spec (slen p) 4); [by right|].
    change (4 + 1) with 5 in *. unfold byte_range in R4. bools. rewrite L4, width_cont_S in * by (done || lia).
    change (Z.to_nat 1) with 1%nat in *. change (1 + 1) with 2 in *.
    destruct (byte_range 0x80 0xBF (c_at p 1)) eqn:R1; [|by right]. unfold byte_range in R1. bools. rewrite width_cont_S in * by (done || lia).
    change (Z.to_nat 2) with 2%nat in *. change (2 + 1) with 3 in *.
    destruct (byte_range 0x80 0xBF (c_at p 2)) eqn:R1; [|by right]. unfold byte_range in R1. bools. rewrite width_cont_S in * by (done || lia).
    change (Z.to_nat 3) with 3%nat in *. cbn [width_cont] in *.
    destruct (byte_range 0x80 0xBF (c_at p 3)) eqn:R1; [|by right]. unfold byte_range in R1. bools.
    destruct (_ || _) eqn:Hb; [by right|]. left. apply refused_spec in Hb as (Hs & _ & _ & Hb); [|lia]. specialize (Hb eq_refl).
    apply (Hfin _ 4%nat Hs); [done| |done]. cbn [seq fmap list_fmap]. unfold utf8.
    rewrite !(proj2 (Z.ltb_ge _ _)) by lia. repeat f_equal; dlia.
Qed.

Lemma c_at_head x (l : str) : c_at (x :: l) 0 = x.
Proof. done. Qed.

Lemma c_at_tail x (l : str) i : c_at (x :: l) (S i) = c_at l i.
Proof. done. Qed.

Lemma byte_range_true a b c : a <= c <= b -> byte_range a b c = true.
Proof. intros Hc. unfold byte_range. rewrite andb_true_iff, !Z.leb_le. lia. Qed.

Lemma byte_range_false a b c : c < a \/ b < c -> byte_range a b c = false.
Proof. intros Hc. unfold byte_range. rewrite andb_false_iff, !Z.leb_gt. lia. Qed.

Lemma decode_scalar cp rest : scalar cp -> bytes_ok rest -> width_decode (utf8 cp ++ rest) = (slen (utf8 cp), Some cp).
Proof.
  intros Hs Hr. pose proof (utf8_bytes cp Hs) as Hu. assert (Hb : bytes_ok (utf8 cp ++ rest)) by (by apply bytes_ok_app).
  assert (Hn : slen (utf8 cp) <= slen (utf8 cp ++ rest)) by (rewrite slen_app; pose proof (slen_nonneg rest); lia).
  assert (Hc : forall i, (i < length (utf8 cp))%nat -> c_at (utf8 cp ++ rest) i = c_at (utf8 cp) i).
  { intros i Hi. unfold c_at. by rewrite lookup_app_l. }
  pose proof (lead_spec (c_at (utf8 cp ++ rest) 0) (c_at_u8 _ 0 Hb)) as (Hlen & _ & _ & L2 & L3 & L4).
  generalize dependent (utf8 cp ++ rest). intros p Hb Hn Hc Hlen L2 L3 L4. pose proof (Hc 0%nat) as C0. pose proof (Hc 1%nat) as C1.
  pose proof (Hc 2%nat) as C2. pose proof (Hc 3%nat) as C3. clear Hc Hu. pose proof Hs as Hs'. unfold utf8, scalar in *.
  destruct (Z.ltb_spec cp 0x80); [|destruct (Z.ltb_spec cp 0x800); [|destruct (Z.ltb_spec cp 0x10000)]]; unfold slen in *; cbn [length] in *;
    specialize (C0 ltac:(lia)); rewrite c_at_head in C0; rewrite C0 in *; try (specialize (C1 ltac:(lia)); rewrite c_at_tail, c_at_head in C1);
    try (specialize (C2 ltac:(lia)); rewrite !c_at_tail, c_at_head in C2); try (specialize (C3 ltac:(lia)); rewrite !c_at_tail, c_at_head in C3).
  - rewrite (proj2 (Z.ltb_lt _ _)) in Hlen by lia. unfold width_decode. rewrite C0, Hlen. done.
  - rewrite (proj2 (Z.ltb_ge _ _)), byte_range_true in Hlen by dlia. rewrite byte_range_true in L2 by dlia.
    rewrite (decode_eq p 1) by (rewrite ?C0; done). unfold slen. rewrite (proj2 (Z.ltb_ge _ _)) by lia.
    change (Z.of_nat 2 + 1) with 3. rewrite C0, L2, width_cont_S by (done || dlia). change (Z.to_nat 1) with 1%nat.
    rewrite C1, byte_range_true by dlia. cbn [width_cont]. replace (_ * 64 + _) with cp by dlia.
    by rewrite (proj2 (refused_spec _ cp ltac:(lia))) by (unfold scalar; lia).
  - rewrite (proj2 (Z.ltb_ge _ _)), byte_range_false, byte_range_true in Hlen by dlia. rewrite byte_range_true in L3 by dlia.
    rewrite (decode_eq p 2) by (rewrite ?C0; done). unfold slen. rewrite (proj2 (Z.ltb_ge _ _)) by lia.
    change (Z.of_nat 3 + 1) with 4. rewrite C0, L3, width_cont_S by (done || dlia). change (Z.to_nat 1) with 1%nat. change (1 + 1) with 2.
    rewrite C1, byte_range_true, width_cont_S by (done || dlia). change (Z.to_nat 2) with 2%nat.
    rewrite C2, byte_range_true by dlia. cbn [width_cont]. replace (_ * 64 + _) with cp by dlia.
    by rewrite (proj2 (refused_spec _ cp ltac:(lia))) by (unfold scalar; lia).
  - rewrite (proj2 (Z.ltb_ge _ _)), !byte_range_false, byte_range_true in Hlen by dlia. rewrite byte_range_true in L4 by dlia.
    rewrite (decode_eq p 3) by (rewrite ?C0; done). unfold slen. rewrite (proj2 (Z.ltb_ge _ _)) by lia.
    change (Z.of_nat 4 + 1) with 5. rewrite C0, L4, width_cont_S by (done || dlia). change (Z.to_nat 1) with 1%nat. change (1 + 1) with 2.
    rewrite C1, byte_range_true, width_cont_S by (done || dlia). change (Z.to_nat 2) with 2%nat. change (2 + 1) with 3.
    rewrite C2, byte_range_true, width_cont_S by (done || dlia). change (Z.to_nat 3) with 3%nat.
    rewrite C3, byte_range_true by dlia. cbn [width_cont]. replace (_ * 64 + _) with cp by dlia.
    by rewrite (proj2 (refused_spec _ cp ltac:(lia))) by (unfold scalar; lia).
Qed.

(** ** The columns, item by item

    An item is a scalar, or [None] for a byte that starts none.  Its columns
    depend on what stands before it, latest first. *)

Inductive reads : str -> list (option Z) -> Prop :=
| reads_nil : reads [] []
| reads_scalar cp s items : scalar cp -> reads s items -> reads (utf8 cp ++ s) (Some cp :: items)
| reads_bad b s items : (forall cp r, scalar cp -> b :: s <> utf8 cp ++ r) -> reads s items -> reads (b :: s) (None :: items).

Definition within (ranges : list (Z * Z)) (cp : Z) : bool := existsb (fun r => (r.1 <=? cp) && (cp <=? r.2)) ranges.
Definition joiner (cp : Z) : bool := cp =? 0x200D.
Definition selector (cp : Z) : bool := (cp =? 0xFE0F) || (cp =? 0xFE0E).
Definition indicator (cp : Z) : bool := (0x1F1E6 <=? cp) && (cp <=? 0x1F1FF).

(** Zero-width, wide or ordinary, by the tables alone. *)
Definition base (cp : Z) : Z := if within width_zero_ranges cp then 0 else if within width_wide_ranges cp then 2 else 1.

(** How many regional indicators run up to here, selectors looked through. *)
Fixpoint flags (before : list (option Z)) : nat :=
  match before with
  | Some cp :: before => if selector cp then flags before else if indicator cp then S (flags before) else O
  | _ => O
  end.

Definition joins (before : list (option Z)) : bool := match before with Some cp :: _ => joiner cp | _ => false end.

(** The columns of a scalar that is neither joiner nor selector: none after a
    joiner, none as the second of two indicators. *)
Definition drawn (before : list (option Z)) (cp : Z) : Z :=
  if joins before || (indicator cp && Nat.odd (flags before)) then 0 else base cp.

(** The drawn pictograph right before a selector, with its columns. *)
Definition pictured (before : list (option Z)) : option Z :=
  match before with
  | Some cp :: before => if joiner cp || selector cp || (drawn before cp =? 0) || negb (within width_pict_ranges cp) then None else Some (drawn before cp)
  | _ => None
  end.

Definition columns (before : list (option Z)) (it : option Z) : Z :=
  match it with
  | None => 1
  | Some cp =>
      if joiner cp then 0
      else if selector cp then match pictured before with Some w => (if cp =? 0xFE0F then 2 else 1) - w | None => 0 end
      else drawn before cp
  end.

Fixpoint total_columns (before items : list (option Z)) : Z :=
  match items with
  | [] => 0
  | it :: items => columns before it + total_columns (it :: before) items
  end.

Lemma within_spec ranges cp : within ranges cp = true <-> covered ranges cp.
Proof.
  unfold within, covered. rewrite existsb_exists. split; intros (r & Hr & Hb); exists r; rewrite ?andb_true_iff, ?Z.leb_le, <-?list_elem_of_In in *; done.
Qed.

Lemma in_ranges_within ranges cp : in_order ranges = true -> Z.of_nat (length ranges) < 2 ^ 11 ->
  width_in_ranges ranges cp = Some (within ranges cp).
Proof.
  intros Ho Hl. destruct (in_ranges_spec ranges cp Ho Hl) as (b & -> & Hb). f_equal. rewrite <-within_spec in Hb.
  destruct b, (within ranges cp); try done; [by symmetry; apply Hb|by apply Hb].
Qed.

Lemma ascii_base : forallb (fun c => (128 <=? c) || (base c =? (if (c <? 0x20) || (c =? 0x7F) then 0 else 1))) (Z.of_nat <$> seq 0 256) = true.
Proof. vm_compute. reflexivity. Qed.

Lemma of_scalar_base cp : 0 <= cp -> width_of_scalar cp = Some (base cp).
Proof.
  intros Hc. unfold width_of_scalar. destruct (Z.ltb_spec cp 0x80) as [Hlt|Hge].
  - pose proof (proj1 (forallb_forall _ _) ascii_base cp (byte_in cp ltac:(unfold is_u8; lia))) as H. cbv beta in H.
    apply orb_true_iff in H as [H|H]; bools; [lia|]. by rewrite H.
  - destruct tables_in_order as (Hz & Hw & _). rewrite !in_ranges_within by done. cbn [mbind option_bind]. unfold base.
    by destruct (within width_zero_ranges cp).
Qed.

Lemma base_bounds cp : 0 <= base cp <= 2.
Proof. unfold base. split_tests; lia. Qed.

Lemma drawn_bounds before cp : 0 <= drawn before cp <= 2.
Proof. unfold drawn. pose proof (base_bounds cp). split_tests; lia. Qed.

(** What the walk's variables say of the items read so far. *)
Record sees (before : list (option Z)) (st : width_state) : Prop := {
  sees_joined : w_joined st = joins before;
  sees_regional : w_regional st = Nat.odd (flags before);
  sees_pict : w_prev_pict st = bool_decide (is_Some (pictured before));
  sees_width : forall w, pictured before = Some w -> w_prev_width st = w;
  sees_total : default 0 (pictured before) <= w_total st
}.

Lemma sees_start : sees [] width_start.
Proof. split; try done. Qed.

Lemma pictured_bounds before w : pictured before = Some w -> 1 <= w <= 2.
Proof.
  unfold pictured. destruct before as [|[cp|] before]; try done. pose proof (drawn_bounds before cp). destruct (_ || _) eqn:Hb; [done|].
  intros [= <-]. bools. lia.
Qed.

Lemma sees_nonneg before st : sees before st -> 0 <= w_total st.
Proof.
  intros [_ _ _ _ Ht]. destruct (pictured before) as [w|] eqn:Hb; cbn in Ht; [|done]. apply pictured_bounds in Hb. lia.
Qed.

Lemma selector_step before cp st : sees before st -> selector cp = true -> joiner cp = false ->
  exists st', width_step (Some cp) st = Some st' /\ sees (Some cp :: before) st' /\ w_total st' = w_total st + columns before (Some cp).
Proof.
  intros Hst Hsel Hz. pose proof (sees_nonneg _ _ Hst). destruct Hst as [Hj Hr Hp Hw Ht]. unfold width_step, columns. fold (joiner cp) (selector cp).
  rewrite Hz, Hsel, Hp. cbv zeta. assert (Hsame : forall x r w, sees (Some cp :: before) (mkWidth x false (w_regional st) r w) <->
    r = false /\ 0 <= x).
  { intros x r w. split; [intros [_ _ H1 _ H2]; cbn in *; rewrite Hsel, orb_true_r in *; done|].
    intros [-> Hx]. split; cbn; rewrite ?Hsel, ?Hz; done. }
  destruct (pictured before) as [w|] eqn:Hb; cbn in Ht.
  - rewrite (Hw w eq_refl), bool_decide_eq_true_2 by done. cbn [andb]. apply pictured_bounds in Hb.
    destruct (Z.eqb_spec w (if cp =? 0xFE0F then 2 else 1)) as [He|He]; cbn [negb]; eexists;
      (split_and!; [done|apply Hsame; split; [done|]|cbn [w_total]]); split_tests; lia.
  - rewrite bool_decide_eq_false_2 by (by intros [? ?]). eexists. split_and!; [done|by apply Hsame|cbn; lia].
Qed.

Lemma step_spec before it st : sees before st -> (forall cp, it = Some cp -> 0 <= cp) ->
  exists st', width_step it st = Some st' /\ sees (it :: before) st' /\ w_total st' = w_total st + columns before it.
Proof.
  intros Hst Hs. pose proof (sees_nonneg _ _ Hst) as Ht. destruct it as [cp|].
  2: { eexists. split_and!; [done| |done]. split; cbn; done || lia. }
  specialize (Hs cp eq_refl). destruct (joiner cp) eqn:Hz.
  { pose proof Hz as Hcp. apply Z.eqb_eq in Hcp as ->. eexists. split_and!; [done| |cbn; lia]. split; cbn; done || lia. }
  destruct (selector cp) eqn:Hsel; [by apply selector_step|]. destruct Hst as [Hj Hr Hp Hw Ht'].
  unfold width_step, columns. fold (joiner cp) (selector cp) (indicator cp). rewrite Hz, Hsel, of_scalar_base by done.
  cbn [mbind option_bind]. cbv zeta. destruct tables_in_order as (_ & _ & Hpt). rewrite in_ranges_within by done. cbn [mbind option_bind].
  assert (Hd : (if w_joined st then 0 else if indicator cp && negb (indicator cp && negb (w_regional st)) then 0 else base cp) = drawn before cp).
  { unfold drawn. rewrite Hj, Hr. destruct (joins before), (indicator cp), (Nat.odd (flags before)); done. }
  rewrite Hd. pose proof (drawn_bounds before cp). eexists. split_and!; [done| |done]. split; cbn [w_joined w_regional w_prev_pict w_prev_width w_total].
  - cbn. done.
  - cbn [flags]. rewrite Hsel, Hr. destruct (indicator cp); [|done]. by rewrite Nat.odd_succ, <-Nat.negb_odd.
  - cbn [pictured]. rewrite Hz, Hsel. cbn [orb]. by destruct (drawn before cp =? 0), (within width_pict_ranges cp).
  - cbn [pictured]. rewrite Hz, Hsel. cbn [orb]. by destruct (_ || _); intros w [= <-].
  - cbn [pictured]. rewrite Hz, Hsel. cbn [orb]. destruct (_ || _); cbn; lia.
Qed.

(** ** The walk *)

Lemma width_loop_S fuel p st : p <> [] -> width_loop (S fuel) p st =
  let '(n, scalar) := width_decode p in st ← width_step scalar st; width_loop fuel (drop (Z.to_nat n) p) st.
Proof. by destruct p. Qed.

Lemma base_ascii cp : 0 <= cp < 0x80 -> base cp <= 1.
Proof.
  intros Hc. pose proof (proj1 (forallb_forall _ _) ascii_base cp (byte_in cp ltac:(unfold is_u8; lia))) as H. cbv beta in H.
  apply orb_true_iff in H as [H|H]; bools; [lia|]. rewrite H. split_tests; lia.
Qed.

Lemma columns_le before cp : scalar cp -> columns before (Some cp) <= slen (utf8 cp).
Proof.
  intros Hs. assert (Hl : 1 <= slen (utf8 cp)) by (pose proof (slen_pos _ (utf8_ne cp)); lia).
  assert (Hd : drawn before cp <= slen (utf8 cp)).
  { pose proof (drawn_bounds before cp) as Hb. destruct (Z.lt_ge_cases cp 0x80) as [Hlt|Hge].
    - assert (0 <= cp) by (unfold scalar in Hs; lia). pose proof (base_ascii cp ltac:(lia)). unfold drawn. split_tests; lia.
    - enough (2 <= slen (utf8 cp)) by lia. unfold utf8. rewrite (proj2 (Z.ltb_ge _ _)) by lia. by split_tests. }
  unfold columns. destruct (joiner cp); [lia|]. destruct (selector cp); [|done].
  destruct (pictured before) as [w|] eqn:Hb; [|lia]. apply pictured_bounds in Hb. split_tests; lia.
Qed.

Lemma bytes_ok_cons b s : bytes_ok (b :: s) -> bytes_ok s.
Proof. by intros [_ Hs]%Forall_cons. Qed.

(** From any point the walk adds the columns of what it reads. *)
Lemma loop_spec s items : reads s items -> bytes_ok s -> forall before st fuel, (length s <= fuel)%nat -> sees before st ->
  width_loop fuel s st = Some (w_total st + total_columns before items) /\
  0 <= w_total st + total_columns before items /\ total_columns before items <= slen s.
Proof.
  induction 1 as [|cp s items Hs _ IH|b s items Hbad _ IH]; intros Hb before st fuel Hf Hst; cbn [total_columns].
  - rewrite Z.add_0_r. pose proof (sees_nonneg _ _ Hst). by destruct fuel.
  - apply bytes_ok_app in Hb as [_ Hb]. pose proof (utf8_ne cp) as Hne. rewrite length_app in Hf.
    assert (Hl : (1 <= length (utf8 cp))%nat) by (destruct (utf8 cp); [done|cbn; lia]). destruct fuel as [|fuel]; [lia|].
    rewrite width_loop_S, decode_scalar by (done || by destruct (utf8 cp)).
    destruct (step_spec before (Some cp) st Hst) as (st' & -> & Hst' & Ht); [intros ? [= <-]; unfold scalar in Hs; lia|]. cbn [mbind option_bind].
    unfold slen at 1. rewrite Nat2Z.id, drop_app_length. destruct (IH Hb _ st' fuel ltac:(lia) Hst') as (-> & H1 & H2).
    pose proof (columns_le before cp Hs). rewrite slen_app. rewrite Ht in *. split_and!; [f_equal; lia|lia|lia].
  - destruct fuel as [|fuel]; [cbn in Hf; lia|]. rewrite width_loop_S by done.
    destruct (decode_cases (b :: s) Hb) as [(cp & Hs & He & _)|Hd]; [done|by destruct (Hbad cp _ Hs He)|]. rewrite Hd.
    destruct (step_spec before None st Hst) as (st' & -> & Hst' & Ht); [done|]. cbn [mbind option_bind]. change (Z.to_nat 1) with 1%nat.
    cbn [drop]. rewrite drop_0. destruct (IH (bytes_ok_cons _ _ Hb) _ st' fuel ltac:(cbn in Hf; lia) Hst') as (-> & H1 & H2).
    cbn [columns] in *. rewrite Ht in *. assert (slen (b :: s) = slen s + 1) by (unfold slen; cbn; lia). split_and!; [f_equal; lia|lia|lia].
Qed.

Lemma reads_exist s : bytes_ok s -> exists items, reads s items.
Proof.
  remember (length s) as n eqn:Hn. assert (Hle : (length s <= n)%nat) by lia. clear Hn. revert s Hle.
  induction n as [|n IH]; intros s Hle Hb; [destruct s; [exists []; constructor|cbn in Hle; lia]|].
  destruct s as [|b s]; [exists []; constructor|]. destruct (decode_cases (b :: s) Hb) as [(cp & Hs & He & _)|Hd]; [done|..].
  - set (rest := drop (length (utf8 cp)) (b :: s)) in *. clearbody rest. rewrite He in *. apply bytes_ok_app in Hb as [_ Hb].
    assert (Hl : (1 <= length (utf8 cp))%nat) by (pose proof (utf8_ne cp); destruct (utf8 cp); [done|cbn; lia]). rewrite length_app in Hle.
    destruct (IH rest ltac:(lia) Hb) as [items Hi]. exists (Some cp :: items). by constructor.
  - destruct (IH s ltac:(cbn in Hle; lia) (bytes_ok_cons _ _ Hb)) as [items Hi]. exists (None :: items). constructor; [|done].
    intros cp r Hs He. rewrite He in *. apply bytes_ok_app in Hb as [_ Hb]. rewrite decode_scalar in Hd by done. congruence.
Qed.

Lemma reads_scalars cps : Forall scalar cps -> reads (utf8s cps) (Some <$> cps).
Proof. induction 1 as [|cp cps Hc _ IH]; [constructor|]. cbn [fmap list_fmap]. change (utf8s (cp :: cps)) with (utf8 cp ++ utf8s cps). by constructor. Qed.

(** C28: the display width of every string is found: the walk ends, with the
    columns its scalars and bad bytes take by the look-back rules (joiners,
    selectors, paired indicators, the tables), never negative and never more
    than the string's bytes.  Every string reads as such items, and a string
    of scalars reads as those scalars. *)
Theorem str_width_correct (s : str) (H : bytes_ok s) :
  (exists items, reads s items) /\ (forall cps, Forall scalar cps -> s = utf8s cps -> reads s (Some <$> cps)) /\
  forall items, reads s items -> beans_str_width s = Some (total_columns [] items) /\ 0 <= total_columns [] items <= slen s.
Proof.
  split; [by apply reads_exist|]. split; [intros cps Hc ->; by apply reads_scalars|]. intros items Hi. unfold beans_str_width, beans_width_utf8.
  destruct (loop_spec s items Hi H [] width_start (length s) ltac:(lia) sees_start) as (He & H1 & H2). done.
Qed.

(** A flag, a heart made an emoji, a stray byte and a letter: six columns. *)
Lemma str_width_correct_witness :
  let s := utf8s [0x1F1FA; 0x1F1F8; 0x2764; 0xFE0F] ++ [0x9F; 0x61] in
  bytes_ok s /\ beans_str_width s = Some 6 /\ (exists items, reads s items).
Proof.
  assert (Hs : bytes_ok (utf8s [0x1F1FA; 0x1F1F8; 0x2764; 0xFE0F] ++ [0x9F; 0x61])).
  { repeat (constructor; [done|]). constructor. }
  split; [exact Hs|]. split; [vm_compute; reflexivity|]. exact (proj1 (str_width_correct _ Hs)).
Defined.
